(* ===== verification/_CoqProject ===== *)
-Q . S2P
Prelude.v
Opcodes.v
BytecodeTypes.v
LineInfo.v
Codec.v
WireFormat.v
CodecFacts.v
DecodeSound.v
CodecTheorems.v
Validate.v
ValidSpec.v
ValidateFacts.v
ValidateTheorems.v
Builder.v
FoldJumps.v
BuilderFacts.v
BuilderTheorems.v
AstString.v
RustVec.v
Arena.v
ArenaFacts.v
ArenaTheorems.v
Value.v
Registry.v
LuaTable.v
LuaTableFacts.v
LuaTableTheorems.v
GcObjects.v
Gc.v
GcView.v
GcTrace.v
GcWeak.v
GcSweep.v
GcCollect.v
GcFacts.v
GcCycles.v
GcTheorems.v
ExecTypes.v
Admission.v
AdmissionFacts.v
AdmissionTheorems.v
PreflightCache.v
RustExec.v
Pattern.v
PatternSpec.v
PatternFacts.v
PatternTheorems.v
Pack.v
PackFacts.v
PackTheorems.v
DateTime.v
LibHeap.v
TableLib.v
LibHeapFacts.v
TableLibFacts.v
TableEdit.v
TableSort.v
TableMove.v
Bit32.v
BufferLib.v
BufferFacts.v
BufferTheorems.v
BufferSafety.v
Location.v
Lexer.v
LexerSpec.v
LexerFacts.v
LexerTheorems.v
Literal.v
LiteralFacts.v
LiteralTheorems.v
FloatText.v
FloatTextTheorems.v
LibStrings.v
TableConcat.v
Utf8Lib.v
StringLib.v
StringTheorems.v
FormatLib.v
BaseLib.v
