(* ===== verification/Prelude.v ===== *)
(** * Verification of Ruau: bytecode, heap, library, lexer and admission

    Ruau is a pure Rust implementation of Luau. Source text is parsed
    ([ruau-syntax]), compiled to bytecode ([ruau-bytecode]), shipped or cached as
    bytes, decoded, validated and executed ([ruau-vm]) for many tenants at once
    ([ruau-executor]). This development models five layers of it:

    - the bytecode layer, the interface between compiler, cache and virtual machine: a chunk
      ([types.rs]) is what compiler, codec, validator and loader exchange; the compiler drives
      the chunk builder ([builder.rs]), the codec ([codec.rs]) writes a chunk to bytes and
      reads untrusted bytes back, the validator ([validate.rs]) decides whether a decoded
      chunk may be executed;
    - the heap of the virtual machine: objects live in generational arenas
      ([heap/arena.rs]) addressed by handles, tables ([table.rs]) hold values, the host
      anchors values in the registry ([heap/registry.rs]), and the collector ([gc.rs])
      marks from all of these and sweeps the arenas;
    - the standard library routines that interpret untrusted input: string patterns
      ([pattern.rs]), binary packing ([pack.rs]), the calendar ([datetime.rs]), numbers as text
      ([vmutils.rs]), and the base, [string], [table], [bit32], [buffer] and [utf8] libraries
      ([builtins]);
    - the first stage of the front end: locations in a source ([location.rs]) and the lexer
      ([lexer.rs]), whose tokens the parser and the tools consume;
    - the front door of the executor: admission control and accounting of tenants
      ([admission.rs], [pipeline.rs]) and the cache of preflight verdicts ([preflight.rs]).

    All paths below are under [src/crates]; Rust items keep their names.

    ** Files: the bytecode layer

    - [Prelude]: this header; machine integers, results, text formatting, little-endian
      words, the tactics ([zcast], [zdm], [bind_inv], [eval_decide]) and the hint database
      [ruau].
    - [Opcodes]: [ruau-bytecode/src/opcodes.rs], the opcode, constant-tag, type-tag, capture
      and feedback numberings and the bit layouts.
    - [BytecodeTypes]: [ruau-bytecode/src/types.rs], instructions ([from_words], [abc], [ad],
      jump targets, word offsets), constants, protos and chunks, and the accepted versions of
      [version_policy.rs]. Theorems: the instruction
      constructors never panic and are inverted by decoding; jump targets are exact.
    - [LineInfo]: the line packer and unpacker of [types.rs]. Theorems: round trip and shape.
    - [Codec]: [ruau-bytecode/src/codec.rs], the reader as a state and error monad ([Read]),
      the writer, [decode_*] and [encode_*].
    - [WireFormat]: the abstract wire grammar ([wire_*]), the well-formedness predicates
      ([wf_*]) and the class [WireFormat] of values with a parser and a printer.
    - [CodecFacts]: the codec implements the grammar, instance by instance.
    - [DecodeSound]: a Hoare logic for readers; what every decoded chunk satisfies.
    - [CodecTheorems]: round trips, exactness of the encoder, invariants of decoded chunks,
      termination of the decoder's loops, bounded allocation.
    - [Validate]: [ruau-bytecode/src/validate.rs], every check as a function on the error
      list ([Check]), with its message.
    - [ValidSpec]: the declarative specification [valid_chunk] of structural validity, with the
      operands of each opcode listed as the interpreter uses them ([instruction_refs]), and the
      list of those that the validator overlooks ([overlooked_refs]).
    - [ValidateFacts]: each check decides its part of the specification ([Checks]); the policy
      tables of the validator account for every operand that is not on the list.
    - [ValidateTheorems]: the capture pass decides [captures_ok] ([Marks]); the validator decides
      [valid_chunk] up to the overlooked operands, and each entry of that list is a real omission
      ([overlooked_operands_pass]); errors point at existing code; consequences for jumps,
      closures and encoding.
    - [Builder]: [ruau-bytecode/src/builder.rs], [ProtoWork] and [ChunkBuilder] with all their
      methods as state-passing functions.
    - [FoldJumps]: the jump-folding pass is a bisimulation on control flow.
    - [BuilderFacts], [BuilderTheorems]: the builder invariant over the machine [Build] of
      builder calls, interning, patching, [finish].
    - [AstString]: [ast_string_from_bytes] of [ruau-syntax/src/parser/common.rs] and its
      relation to the builder's [decode_ast_string_bytes].

    ** Files: the heap

    - [RustVec]: vectors with their capacity, [MemoryMeter] and [AccountedVec] of
      [ruau-vm/src/heap/arena.rs].
    - [Arena], [ArenaFacts], [ArenaTheorems]: [Arena<T>] of the same file; its invariant over
      the machine [arena_step], allocation, the exact sweep, and stale handles.
    - [Value]: [RawValue] and [RawGc] of [ruau-vm/src/api.rs]; doubles by their bits.
    - [Registry]: [ruau-vm/src/heap/registry.rs] refines a finite map from
      references to values; images validate and restore.
    - [LuaTable], [LuaTableFacts], [LuaTableTheorems]: [ruau-vm/src/table.rs] refines a finite
      map on normalized keys; [next] enumerates it, [#t] is a border, images restore.
    - [GcObjects]: the traced fields of the collectable objects ([func.rs], [object.rs],
      [state.rs], [string.rs]), the object store ([heap/store.rs]) and [Heap].
    - [Gc]: [ruau-vm/src/gc.rs] as a heap monad, with the pacing of [heap/mod.rs].
    - [GcView], [GcTrace], [GcWeak], [GcSweep], [GcCollect], [GcFacts], [GcCycles]: a program
      logic for that monad, and each phase against its specification (reachability, pruned
      weak tables, collected arenas).
    - [GcTheorems]: every collection returns; a major one keeps exactly the reachable objects,
      a minor one keeps them thanks to the write barrier, an abandoned one changes nothing.

    ** Files: the executor's front door

    - [ExecTypes]: [ruau-executor/src/types.rs] and the report constructors of [render.rs].
    - [Admission]: [admission.rs] and the guards of [pipeline.rs].
    - [AdmissionFacts], [AdmissionTheorems]: the machine [adm_step] of concurrent requests, one
      transition per critical section; exact counters, budgets, bounded tables, recovery.
    - [PreflightCache]: [preflight.rs] refines a bounded first-in first-out list of verdicts.

    ** Files: the library

    - [RustExec]: the outcome type [Exec] of library routines, ASCII classes.
    - [Pattern], [PatternSpec], [PatternFacts], [PatternTheorems]: [pattern.rs] computes the
      declarative matching relation [Match], leftmost first, and its limits only add errors.
    - [Pack], [PackFacts], [PackTheorems]: [pack.rs] and [string.pack], [string.unpack],
      [string.packsize] of [builtins/string_lib.rs]; round trip, safety, sizes.
    - [DateTime]: [datetime.rs] is the Gregorian calendar.
    - [LibHeap]: the heap as the library sees it: gas and memory caps, table access through
      the write barrier, interning ([heap/mod.rs]), metamethods ([tm.rs]), comparison
      ([execute/mod.rs], [vmutils.rs]), arguments ([builtins/common.rs]), in the monad [LM].
    - [TableLib]: [builtins/table_lib.rs], every function but [table.concat], which is in
      [TableConcat].
    - [LibHeapFacts], [TableLibFacts]: a program logic for [LM]; what a write changes
      ([same_frame]) and what a sequence of element moves leaves behind ([moved]).
    - [TableEdit], [TableSort], [TableMove]: insertion and removal shift, unpacking reads,
      sorting permutes, sorts and is stable, and both paths of [table.move] agree up to native
      integer keys.
    - [Bit32]: [builtins/bit32_lib.rs]; what every operation does to the 32 bits of its
      arguments, and a field that escapes the range check.
    - [BufferLib]: [builtins/buffer_lib.rs] and the buffers of [heap/mod.rs] and [object.rs].
    - [BufferFacts], [BufferTheorems], [BufferSafety]: integers read back as written, a bit
      field is a field of the number the buffer writes, copies move like [memmove], and no call
      slices out of range or changes the size of a buffer.
    - [FloatText]: [number_to_string], [str_to_number] and hexadecimal floats of [vmutils.rs],
      with the rounding of [str::parse] and the digits of [{:e}] computed on exact ratios;
      rounding is monotone and reads back what is near enough.
    - [FloatTextTheorems]: every double has a text that reads back as the same double, with the
      fewest digits.
    - [LibStrings]: string arguments, interned results and metered growth of
      [builtins/common.rs]; interning keeps every string and changes nothing else but
      the interner, the meter and the gas ([strings_kept]).
    - [TableConcat]: [table.concat] of [builtins/table_lib.rs] joins the texts of a range.
    - [Utf8Lib]: [builtins/utf8_lib.rs], the decoder, the encoder and the functions; the
      decoder accepts exactly the encodings of Unicode scalar values; what
      [utf8.char] writes is read back and counted; [utf8.offset] finds the n-th character; each
      modelled function ends with a result or an error, since each scan moves inside the string.
    - [StringLib], [StringTheorems]: [builtins/string_lib.rs], with the lookup through [__index]
      of [execute/mod.rs]; what each function returns, searches that report the leftmost match
      of [PatternSpec], also those taken as searches for text, and [table.concat] as the inverse of [string.split].
    - [FormatLib]: [string.format] of the same file, with the digits of [{:.p}] and [{:.pe}], and
      [tostring] of [builtins/base_lib.rs]; the integer conversions print what C prints
      ([int_digits]), quoted strings read back, and a call returns a string or raises.
    - [BaseLib]: the rest of [builtins/base_lib.rs]: types, metatables, [tonumber], raw access,
      [select] and [next]; [tonumber] inverts [tostring], numbers in a base are what [strtoull] reads, [next]
      visits each entry once, and a protected metatable is never replaced.

    ** Files: the front end

    - [Location]: [ruau-syntax/src/location.rs], positions, ranges and byte offsets of a source;
      offsets and positions are inverse to each other.
    - [Lexer]: [ruau-syntax/src/lexer.rs], the token kinds and their names, the reading
      functions, [lex_with_options] and the lexer's entry points.
    - [LexerSpec]: the abstract side: the spelling of a token ([spell]), its grammar
      ([well_formed]) and the invariant of a lexer over a valid source ([lexer_ok]).
    - [LexerFacts]: character boundaries of UTF-8, a program logic ([runs]) for the monad [LX],
      and each reading function against its specification.
    - [LexerTheorems]: lexing always returns; the tokens, in order, spell the source; their
      locations are the positions of their bytes; skipping comments is filtering.
    - [Literal]: [render_string_literal] of [literal.rs] and, from [parser/common.rs], the
      decoding of quoted and long strings, integer literals and number spellings.
    - [LiteralFacts], [LiteralTheorems]: the decoder computes the meaning of escapes
      ([Escape], [Unescape]); a rendered string is one token whose value is the string.

    ** Conventions

    A Rust integer is a [Z]; casts and wrap-around are written out ([as_u32], ...), with the
    wrapping arithmetic of a release build. A [Vec] is a list; indexing out of range and
    [expect] are an [option] whose [None] is the panic, or the outcomes [Panic] and [Crash],
    and the theorems exclude them; a [debug_assert] is a panic. [usize] is 64 bits wide, so
    conversions from [u32] to [usize] succeed. Floats are carried as their bits. Hash maps
    are finite maps; where an iteration order shows, it is a parameter ([HashOrder]).

    Where the heap depends on the capacity of a vector, a vector has one, and the growth
    policy is a parameter ([Allocator], [MapAllocator]) with the documented behaviour of
    [Vec] as its laws ([AllocatorLaws]): a granted reservation covers the request, and no
    push into reserved capacity allocates. The laws imply no refusal: [granting_allocator] obeys
    them, so what a theorem allows only when memory is refused ([out_of_memory], [refused]) it
    excludes for that allocator. Sizes of types are parameters ([TableSizes],
    [HeapSizes]), as are the configured limits on strings and buffers ([ByteLimits]), patterns and metatable chains ([StringLimits]) and the
    bits of a NaN whose width changes ([NanBits]); the result of [powi] and the sign of a NaN
    that an operation produces, which the language leaves open, are [FloatUnspecified]. The payloads
    other crates put into errors and reports are the members of [Payloads]. The identity of an [Arc] token is a number no other token has. An operation
    under a mutex is a function of the protected state; the machines [adm_step] and
    [arena_step] interleave such operations freely.

    A source text is the list of its UTF-8 bytes; slicing it off a character boundary is the
    outcome [Crash]. The lexer's brace stack has its top first.

    Arguments of library routines enter as their readings: a packed argument ([PackArg]) as
    the number or the bytes the coercion yields, a clock as a number of seconds. Interning a
    result string, which can only fail for lack of memory, is left to the caller. The table
    functions work on the machine itself: an [LM] computation returns the machine it leaves
    with an outcome, since an error keeps the effects made before it. Running Lua code and
    the metatables of host types are the members of [LuaCode], and the gas profile, which
    only records, is left out. [Aborted] is the end of the process when the allocator refuses
    an infallible request; the program logic [wp] allows it only under [on_abort], which is [refused]
    by default and false in [ends], the form of the theorems on operations that make no such request.

    ** Fuel

    Loops that are not structural take fuel. The decoder's loops use one more than the input
    length and consume input in every round ([decode_loops_terminate]); the varint loops use
    the ten rounds a 64-bit value needs; the line packer uses the number of lines; jump
    chains and runs of returns move forward in the code, so one more than its length is
    enough ([follow_jumps_total], [skip_returns_total]); string loops use their length. The
    collector's work list is bounded by the potential [pot] ([trace_fuel]); table loops by
    the size of the index or by the 64 bits of a key; the lexer's loops by one more than the
    length of the source, since each round reads a byte. A pattern's recursion is structural in
    the depth limit, its loops in the subject and the pattern; eviction from the preflight
    cache by the number of entries. Running out of fuel is an outcome of its own ([Diverge],
    [OutOfFuel], [Looping]), which the theorems exclude. [table.find] runs as long as the table
    has elements, so its fuel is an argument; [table.concat] stops at the first missing element,
    also where its counter wraps, and its bound is [concat_fuel]. The loops of the [utf8] library
    use one more than the length of the string.

    ** Bounds

    Decoder theorems are stated for inputs below 8 GiB, far above what a 32-bit word count
    can describe; jump theorems for code below 2^30 words, so that 32-bit target arithmetic
    does not wrap; the builder machine keeps the code below 2^29 words. A stale handle is
    safe for fewer than 2^32 arena operations, after which its generation may come back.
    A source is below 2^32 - 1 bytes, since a position counts lines and columns in 32 bits.
    Pattern subjects are below 2^31 bytes, as the virtual machine's strings are. The calendar
    is stated from 1970 on.

    ** Not modelled

    The compiler proper ([ruau-bytecode/src/compile]), the interpreter loop, coroutines, the
    loader and the host calls of the virtual machine, the parser apart from the lexer and
    the literals (and the values of its floating-point literals), the type checker, sessions, the executor's lanes and preflight stages, file
    systems and the other host crates; the disassembler, which depends on the standard
    library's escaping tables; [utf8.codes] and [string.gmatch], which allocate the builtin
    closure of their step, like [pairs] and [ipairs] (the steps themselves are modelled);
    [print], [error], [pcall], [xpcall] and [collectgarbage];
    the serde representation; [cfg(test)] code. *)

From Stdlib Require Import ZArith Lia.
From stdpp Require Import base numbers list strings pretty.

Open Scope Z_scope.

(** ** Machine integers

    A Rust integer of width [w] is a [Z]; the predicates below say that it fits
    its type and the [as_*] functions are the Rust [as] casts (and the
    wrap-around of release-mode arithmetic). *)

Definition is_u8 (x : Z) : Prop := 0 <= x < 256.
Definition is_u16 (x : Z) : Prop := 0 <= x < 65536.
Definition is_u32 (x : Z) : Prop := 0 <= x < 4294967296.
Definition is_u64 (x : Z) : Prop := 0 <= x < 18446744073709551616.
Definition is_i16 (x : Z) : Prop := -32768 <= x < 32768.
Definition is_i32 (x : Z) : Prop := -2147483648 <= x < 2147483648.
Definition is_i64 (x : Z) : Prop := -9223372036854775808 <= x < 9223372036854775808.

Definition as_u8 (x : Z) : Z := x mod 256.
Definition as_u16 (x : Z) : Z := x mod 65536.
Definition as_u32 (x : Z) : Z := x mod 4294967296.
Definition as_u64 (x : Z) : Z := x mod 18446744073709551616.

Definition as_i16 (x : Z) : Z :=
  if as_u16 x <? 32768 then as_u16 x else as_u16 x - 65536.
Definition as_i32 (x : Z) : Z :=
  if as_u32 x <? 2147483648 then as_u32 x else as_u32 x - 4294967296.
Definition as_i64 (x : Z) : Z :=
  if as_u64 x <? 9223372036854775808 then as_u64 x else as_u64 x - 18446744073709551616.

(** [saturating_sub] and [saturating_add] on [u8], [saturating_sub] on [u32]. *)
Definition u8_saturating_sub (x y : Z) : Z := Z.max 0 (x - y).
Definition u8_saturating_add (x y : Z) : Z := Z.min 255 (x + y).
Definition u32_saturating_sub (x y : Z) : Z := Z.max 0 (x - y).

(** [try_from] conversions used by the sources. *)
Definition u32_try_from (x : Z) : option Z :=
  if (0 <=? x) && (x <? 4294967296) then Some x else None.
Definition u8_try_from (x : Z) : option Z :=
  if (0 <=? x) && (x <? 256) then Some x else None.
Definition i16_try_from (x : Z) : option Z :=
  if (-32768 <=? x) && (x <? 32768) then Some x else None.

(** The [len()] of a vector or slice, as a machine integer. *)
Definition len {A} (l : list A) : Z := Z.of_nat (length l).

(** Indexing by a machine integer; [None] out of range. *)
Definition zget {A} (l : list A) (i : Z) : option A :=
  if i <? 0 then None else l !! Z.to_nat i.

(** ** Results *)

Inductive result (E A : Type) : Type :=
| Ok (a : A)
| Err (e : E).
Arguments Ok {E A} a.
Arguments Err {E A} e.

Definition result_bind {E A B} (m : result E A) (f : A -> result E B) : result E B :=
  match m with
  | Ok a => f a
  | Err e => Err e
  end.

Definition ok_or {E A} (o : option A) (e : E) : result E A :=
  match o with
  | Some a => Ok a
  | None => Err e
  end.

Declare Scope ruau_scope.
Delimit Scope ruau_scope with ruau.
Notation "'let?' x := m 'in' k" := (result_bind m (fun x => k))
  (at level 10, x pattern, m at level 100, k at level 200) : ruau_scope.
Open Scope ruau_scope.

(** ** Text formatting

    [show] is Rust's [{}] for integers, [hex w] is [{:0wx}]. *)

Definition show (x : Z) : string := pretty x.

Definition hex_digit (x : Z) : string :=
  match x with
  | 0 => "0" | 1 => "1" | 2 => "2" | 3 => "3" | 4 => "4" | 5 => "5" | 6 => "6" | 7 => "7"
  | 8 => "8" | 9 => "9" | 10 => "a" | 11 => "b" | 12 => "c" | 13 => "d" | 14 => "e"
  | _ => "f"
  end.

(** The [w] low hexadecimal digits of [x], most significant first; for a value of
    [4 * w] bits this is the zero-padded hexadecimal rendering. *)
Fixpoint hex (w : nat) (x : Z) : string :=
  match w with
  | O => ""
  | S w' => hex w' (x / 16) +:+ hex_digit (x mod 16)
  end.

(** ** Little-endian words *)

Fixpoint le_bytes (n : nat) (x : Z) : list Z :=
  match n with
  | O => []
  | S n' => x mod 256 :: le_bytes n' (x / 256)
  end.

Fixpoint from_le_bytes (l : list Z) : Z :=
  match l with
  | [] => 0
  | b :: t => b + 256 * from_le_bytes t
  end.

(** ** Tactics *)

Create HintDb ruau.
Create Rewrite HintDb ruau.

(** Integer goals with casts, divisions and remainders by constants. *)
Ltac zunfold :=
  unfold is_u8, is_u16, is_u32, is_u64, is_i16, is_i32, is_i64,
    as_i16, as_i32, as_i64, as_u8, as_u16, as_u32, as_u64,
    u8_saturating_sub, u8_saturating_add, u32_saturating_sub, len in *.

Ltac zbool :=
  repeat match goal with
  | |- context [?x <? ?y] => destruct (Z.ltb_spec x y)
  | |- context [?x <=? ?y] => destruct (Z.leb_spec x y)
  | |- context [?x =? ?y] => destruct (Z.eqb_spec x y)
  | H : context [?x <? ?y] |- _ => destruct (Z.ltb_spec x y)
  | H : context [?x <=? ?y] |- _ => destruct (Z.leb_spec x y)
  | H : context [?x =? ?y] |- _ => destruct (Z.eqb_spec x y)
  end; simpl in *; try discriminate.

Ltac zdm := Z.div_mod_to_equations; lia.
Ltac zcast := intros; zunfold; zbool; zdm.

(** Case analysis on the scrutinee of a result bind in a hypothesis. *)
Ltac bind_inv H :=
  unfold result_bind, ok_or in H;
  repeat match type of H with
  | context [match ?m with Ok _ => _ | Err _ => _ end] =>
      let E := fresh "E" in destruct m eqn:E; try discriminate H
  end.

#[export] Instance is_u8_dec x : Decision (is_u8 x).
Proof. unfold is_u8. apply _. Defined.

#[export] Instance is_u32_dec x : Decision (is_u32 x).
Proof. unfold is_u32. apply _. Defined.

(** Closed decidable goals by evaluation. *)
Ltac eval_decide := refine (bool_decide_eq_true_1 _ _); vm_compute; reflexivity.

(** ** Facts on machine integers *)

Lemma as_u8_small x : is_u8 x -> as_u8 x = x.
Proof. zcast. Qed.

Lemma as_u32_small x : is_u32 x -> as_u32 x = x.
Proof. zcast. Qed.

Lemma as_u64_small x : is_u64 x -> as_u64 x = x.
Proof. zcast. Qed.

Lemma as_i32_small x : is_i32 x -> as_i32 x = x.
Proof. zcast. Qed.

Lemma as_i16_small x : is_i16 x -> as_i16 x = x.
Proof. zcast. Qed.

Lemma as_i32_as_u32 x : is_i32 x -> as_i32 (as_u32 x) = x.
Proof. zcast. Qed.

Lemma as_u32_range x : is_u32 (as_u32 x).
Proof. zcast. Qed.

Lemma as_i16_range x : is_i16 (as_i16 x).
Proof. zcast. Qed.

Lemma as_i32_range x : is_i32 (as_i32 x).
Proof. zcast. Qed.

Lemma land_255 x : Z.land x 255 = x mod 256.
Proof. change 255 with (Z.ones 8). by rewrite Z.land_ones. Qed.

Lemma land_127 x : Z.land x 127 = x mod 128.
Proof. change 127 with (Z.ones 7). by rewrite Z.land_ones. Qed.

(** A disjoint [or] is an addition. *)
Lemma lor_shiftl_add x y n : 0 <= n -> 0 <= x < 2 ^ n -> Z.lor x (Z.shiftl y n) = x + y * 2 ^ n.
Proof.
  intros Hn Hx. rewrite <- Z.shiftl_mul_pow2 by lia.
  rewrite <- Z.lxor_lor, <- Z.add_nocarry_lxor; [done | |];
    apply Z.bits_inj_0; intros m; rewrite Z.land_spec;
    (destruct (Z.lt_ge_cases m 0); [by rewrite !Z.testbit_neg_r by lia|]);
    (destruct (Z.lt_ge_cases m n);
      [rewrite (Z.shiftl_spec_low y n m) by lia; by rewrite andb_false_r |]);
    rewrite <- (Z.mod_small x (2 ^ n)) by lia;
    by rewrite Z.mod_pow2_bits_high by lia.
Qed.

Lemma shiftr_div x n : 0 <= n -> Z.shiftr x n = x / 2 ^ n.
Proof. intros. by apply Z.shiftr_div_pow2. Qed.

(** ** Facts on little-endian words *)

Lemma length_le_bytes n x : length (le_bytes n x) = n.
Proof. revert x; induction n; simpl; auto. Qed.

Lemma le_bytes_u8 n x : Forall is_u8 (le_bytes n x).
Proof.
  revert x; induction n; simpl; constructor; [|done].
  unfold is_u8. apply Z.mod_pos_bound. lia.
Qed.

Lemma from_le_bytes_le_bytes n x :
  from_le_bytes (le_bytes n x) = x mod 256 ^ Z.of_nat n.
Proof.
  revert x; induction n as [|n IH]; intros x; [simpl; by rewrite Z.mod_1_r|].
  cbn [le_bytes from_le_bytes]. rewrite IH, Nat2Z.inj_succ, Z.pow_succ_r by lia.
  rewrite Z.rem_mul_r; lia.
Qed.

Lemma from_le_bytes_bound l :
  Forall is_u8 l -> 0 <= from_le_bytes l < 256 ^ Z.of_nat (length l).
Proof.
  induction 1 as [|b t Hb _ IH]; [simpl; lia|].
  cbn [from_le_bytes length]. rewrite Nat2Z.inj_succ, Z.pow_succ_r by lia.
  unfold is_u8 in Hb. lia.
Qed.

(** ** Facts on lists *)

Lemma len_nonneg {A} (l : list A) : 0 <= len l.
Proof. unfold len. lia. Qed.

Lemma len_app {A} (l k : list A) : len (l ++ k) = len l + len k.
Proof. unfold len. rewrite length_app. lia. Qed.

Lemma len_cons {A} (x : A) l : len (x :: l) = len l + 1.
Proof. unfold len. cbn [length]. lia. Qed.

Lemma zget_Some {A} (l : list A) i x :
  zget l i = Some x -> 0 <= i < len l /\ l !! Z.to_nat i = Some x.
Proof.
  unfold zget, len. destruct (Z.ltb_spec i 0); [discriminate|].
  intros Hl. pose proof (lookup_lt_Some _ _ _ Hl). split; [lia | done].
Qed.

Lemma zget_is_Some {A} (l : list A) i : is_Some (zget l i) <-> 0 <= i < len l.
Proof.
  unfold zget, len. destruct (Z.ltb_spec i 0).
  - split; [intros [? [=]] | lia].
  - rewrite lookup_lt_is_Some. lia.
Qed.

Lemma zget_of_nat {A} (l : list A) (i : nat) : zget l (Z.of_nat i) = l !! i.
Proof. unfold zget. destruct (Z.ltb_spec (Z.of_nat i) 0); [lia|]. by rewrite Nat2Z.id. Qed.

Lemma zget_snoc {A} (l : list A) x i :
  zget (l ++ [x]) i = if decide (i = len l) then Some x else zget l i.
Proof.
  unfold zget, len. case_decide as Hi.
  - subst i. rewrite (proj2 (Z.ltb_ge _ _)) by lia.
    rewrite Nat2Z.id, lookup_app_r, Nat.sub_diag by lia. done.
  - destruct (Z.ltb_spec i 0); [done|].
    destruct (decide (Z.to_nat i < length l)%nat); [by rewrite lookup_app_l|].
    rewrite (lookup_ge_None_2 l), lookup_ge_None_2; rewrite ?length_app; cbn; try done; lia.
Qed.

Lemma zget_snoc_Some {A} (l : list A) (x : A) i y :
  zget (l ++ [x]) i = Some y <-> zget l i = Some y \/ (i = len l /\ y = x).
Proof.
  unfold zget, len. destruct (Z.ltb_spec i 0); [split; [done|intros [?|[? _]]; [done|lia]]|].
  rewrite lookup_app_Some, list_lookup_singleton_Some. split.
  - intros [?|[? [? <-]]]; [auto|]. right. split; [lia|done].
  - intros [?|[-> ->]]; [auto|]. right. rewrite Nat2Z.id. split; [lia|]. split; [lia|done].
Qed.

Lemma zget_take_lt {A} (l : list A) n i : 0 <= i < Z.of_nat n -> zget (take n l) i = zget l i.
Proof.
  intros H. unfold zget. destruct (Z.ltb_spec i 0); [done|]. apply lookup_take_lt. lia.
Qed.

Lemma zget_take {A} (l : list A) n i :
  0 <= n <= len l -> zget (take (Z.to_nat n) l) i = if decide (i < n) then zget l i else None.
Proof.
  intros Hn. unfold zget, len in *. destruct (Z.ltb_spec i 0); [by case_decide|].
  case_decide; [rewrite lookup_take_lt by lia; done|rewrite lookup_take_ge by lia; done].
Qed.

#[export] Hint Resolve as_u32_range as_i16_range as_i32_range le_bytes_u8 len_nonneg : ruau.
#[export] Hint Rewrite @length_app @length_le_bytes @len_app @len_cons : ruau.

#[global] Arguments le_bytes : simpl never.
