(* ===== verification/Opcodes.v ===== *)
(** * Opcodes: the numeric tags of the wire format ([ruau-bytecode/src/opcodes.rs])

    The enumerations of the bytecode format with their serialized numbers, the
    partial inverses that the decoder uses, the length of every instruction, and
    the bit layout of AUX words and import ids. *)

From Stdlib Require Import ZArith Lia.
From stdpp Require Import base numbers list strings.
From S2P Require Import Prelude.

(** ** Opcodes *)

Module Op.

Inductive Opcode : Set :=
  | Nop | Break | LoadNil | LoadB | LoadN | LoadK | Move | GetGlobal | SetGlobal
  | GetUpval | SetUpval | CloseUpvals | GetImport | GetTable | SetTable | GetTableKs
  | SetTableKs | GetTableN | SetTableN | NewClosure | NameCall | Call | Return | Jump
  | JumpBack | JumpIf | JumpIfNot | JumpIfEq | JumpIfLe | JumpIfLt | JumpIfNotEq
  | JumpIfNotLe | JumpIfNotLt | Add | Sub | Mul | Div | Mod | Pow | AddK | SubK | MulK
  | DivK | ModK | PowK | And | Or | AndK | OrK | Concat | Not | Minus | Length
  | NewTable | DupTable | SetList | ForNPrep | ForNLoop | ForGLoop | ForGPrepInext
  | FastCall3 | ForGPrepNext | NativeCall | GetVarargs | DupClosure | PrepVarargs
  | LoadKx | JumpX | FastCall | Coverage | Capture | SubRk | DivRk | FastCall1
  | FastCall2 | FastCall2K | ForGPrep | JumpXEqKNil | JumpXEqKB | JumpXEqKN | JumpXEqKS
  | IDiv | IDivK | GetUdataKs | SetUdataKs | NameCallUdata | NewClassMember | CallFb
  | CmpProto | NewClass.

End Op.

Abbreviation Opcode := Op.Opcode.

Definition COUNT : Z := 90.

(** [Opcode::byte]: the discriminants of the enum. *)
Definition byte (op : Opcode) : Z :=
  match op with
  | Op.Nop => 0 | Op.Break => 1 | Op.LoadNil => 2 | Op.LoadB => 3 | Op.LoadN => 4
  | Op.LoadK => 5 | Op.Move => 6 | Op.GetGlobal => 7 | Op.SetGlobal => 8
  | Op.GetUpval => 9 | Op.SetUpval => 10 | Op.CloseUpvals => 11 | Op.GetImport => 12
  | Op.GetTable => 13 | Op.SetTable => 14 | Op.GetTableKs => 15 | Op.SetTableKs => 16
  | Op.GetTableN => 17 | Op.SetTableN => 18 | Op.NewClosure => 19 | Op.NameCall => 20
  | Op.Call => 21 | Op.Return => 22 | Op.Jump => 23 | Op.JumpBack => 24
  | Op.JumpIf => 25 | Op.JumpIfNot => 26 | Op.JumpIfEq => 27 | Op.JumpIfLe => 28
  | Op.JumpIfLt => 29 | Op.JumpIfNotEq => 30 | Op.JumpIfNotLe => 31
  | Op.JumpIfNotLt => 32 | Op.Add => 33 | Op.Sub => 34 | Op.Mul => 35 | Op.Div => 36
  | Op.Mod => 37 | Op.Pow => 38 | Op.AddK => 39 | Op.SubK => 40 | Op.MulK => 41
  | Op.DivK => 42 | Op.ModK => 43 | Op.PowK => 44 | Op.And => 45 | Op.Or => 46
  | Op.AndK => 47 | Op.OrK => 48 | Op.Concat => 49 | Op.Not => 50 | Op.Minus => 51
  | Op.Length => 52 | Op.NewTable => 53 | Op.DupTable => 54 | Op.SetList => 55
  | Op.ForNPrep => 56 | Op.ForNLoop => 57 | Op.ForGLoop => 58 | Op.ForGPrepInext => 59
  | Op.FastCall3 => 60 | Op.ForGPrepNext => 61 | Op.NativeCall => 62
  | Op.GetVarargs => 63 | Op.DupClosure => 64 | Op.PrepVarargs => 65 | Op.LoadKx => 66
  | Op.JumpX => 67 | Op.FastCall => 68 | Op.Coverage => 69 | Op.Capture => 70
  | Op.SubRk => 71 | Op.DivRk => 72 | Op.FastCall1 => 73 | Op.FastCall2 => 74
  | Op.FastCall2K => 75 | Op.ForGPrep => 76 | Op.JumpXEqKNil => 77 | Op.JumpXEqKB => 78
  | Op.JumpXEqKN => 79 | Op.JumpXEqKS => 80 | Op.IDiv => 81 | Op.IDivK => 82
  | Op.GetUdataKs => 83 | Op.SetUdataKs => 84 | Op.NameCallUdata => 85
  | Op.NewClassMember => 86 | Op.CallFb => 87 | Op.CmpProto => 88 | Op.NewClass => 89
  end.

(** [Opcode::from_byte]. *)
Definition from_byte (value : Z) : option Opcode :=
  match value with
  | 0 => Some Op.Nop | 1 => Some Op.Break | 2 => Some Op.LoadNil | 3 => Some Op.LoadB
  | 4 => Some Op.LoadN | 5 => Some Op.LoadK | 6 => Some Op.Move
  | 7 => Some Op.GetGlobal | 8 => Some Op.SetGlobal | 9 => Some Op.GetUpval
  | 10 => Some Op.SetUpval | 11 => Some Op.CloseUpvals | 12 => Some Op.GetImport
  | 13 => Some Op.GetTable | 14 => Some Op.SetTable | 15 => Some Op.GetTableKs
  | 16 => Some Op.SetTableKs | 17 => Some Op.GetTableN | 18 => Some Op.SetTableN
  | 19 => Some Op.NewClosure | 20 => Some Op.NameCall | 21 => Some Op.Call
  | 22 => Some Op.Return | 23 => Some Op.Jump | 24 => Some Op.JumpBack
  | 25 => Some Op.JumpIf | 26 => Some Op.JumpIfNot | 27 => Some Op.JumpIfEq
  | 28 => Some Op.JumpIfLe | 29 => Some Op.JumpIfLt | 30 => Some Op.JumpIfNotEq
  | 31 => Some Op.JumpIfNotLe | 32 => Some Op.JumpIfNotLt | 33 => Some Op.Add
  | 34 => Some Op.Sub | 35 => Some Op.Mul | 36 => Some Op.Div | 37 => Some Op.Mod
  | 38 => Some Op.Pow | 39 => Some Op.AddK | 40 => Some Op.SubK | 41 => Some Op.MulK
  | 42 => Some Op.DivK | 43 => Some Op.ModK | 44 => Some Op.PowK | 45 => Some Op.And
  | 46 => Some Op.Or | 47 => Some Op.AndK | 48 => Some Op.OrK | 49 => Some Op.Concat
  | 50 => Some Op.Not | 51 => Some Op.Minus | 52 => Some Op.Length
  | 53 => Some Op.NewTable | 54 => Some Op.DupTable | 55 => Some Op.SetList
  | 56 => Some Op.ForNPrep | 57 => Some Op.ForNLoop | 58 => Some Op.ForGLoop
  | 59 => Some Op.ForGPrepInext | 60 => Some Op.FastCall3 | 61 => Some Op.ForGPrepNext
  | 62 => Some Op.NativeCall | 63 => Some Op.GetVarargs | 64 => Some Op.DupClosure
  | 65 => Some Op.PrepVarargs | 66 => Some Op.LoadKx | 67 => Some Op.JumpX
  | 68 => Some Op.FastCall | 69 => Some Op.Coverage | 70 => Some Op.Capture
  | 71 => Some Op.SubRk | 72 => Some Op.DivRk | 73 => Some Op.FastCall1
  | 74 => Some Op.FastCall2 | 75 => Some Op.FastCall2K | 76 => Some Op.ForGPrep
  | 77 => Some Op.JumpXEqKNil | 78 => Some Op.JumpXEqKB | 79 => Some Op.JumpXEqKN
  | 80 => Some Op.JumpXEqKS | 81 => Some Op.IDiv | 82 => Some Op.IDivK
  | 83 => Some Op.GetUdataKs | 84 => Some Op.SetUdataKs | 85 => Some Op.NameCallUdata
  | 86 => Some Op.NewClassMember | 87 => Some Op.CallFb | 88 => Some Op.CmpProto
  | 89 => Some Op.NewClass
  | _ => None
  end.

(** [Opcode::instruction_len]: 32-bit words occupied by the instruction. *)
Definition instruction_len (op : Opcode) : Z :=
  match op with
  | Op.GetGlobal | Op.SetGlobal | Op.GetImport | Op.GetTableKs | Op.SetTableKs
  | Op.NameCall | Op.JumpIfEq | Op.JumpIfLe | Op.JumpIfLt | Op.JumpIfNotEq
  | Op.JumpIfNotLe | Op.JumpIfNotLt | Op.NewTable | Op.SetList | Op.ForGLoop
  | Op.LoadKx | Op.FastCall2 | Op.FastCall2K | Op.FastCall3 | Op.JumpXEqKNil
  | Op.JumpXEqKB | Op.JumpXEqKN | Op.JumpXEqKS | Op.GetUdataKs | Op.SetUdataKs
  | Op.NameCallUdata | Op.NewClassMember | Op.CallFb | Op.CmpProto | Op.NewClass
      => 2
  | _ => 1
  end.

(** The [Debug] rendering of an opcode, as used in diagnostics. *)
Definition opcode_debug (op : Opcode) : string :=
  match op with
  | Op.Nop => "Nop" | Op.Break => "Break" | Op.LoadNil => "LoadNil"
  | Op.LoadB => "LoadB" | Op.LoadN => "LoadN" | Op.LoadK => "LoadK" | Op.Move => "Move"
  | Op.GetGlobal => "GetGlobal" | Op.SetGlobal => "SetGlobal"
  | Op.GetUpval => "GetUpval" | Op.SetUpval => "SetUpval"
  | Op.CloseUpvals => "CloseUpvals" | Op.GetImport => "GetImport"
  | Op.GetTable => "GetTable" | Op.SetTable => "SetTable"
  | Op.GetTableKs => "GetTableKs" | Op.SetTableKs => "SetTableKs"
  | Op.GetTableN => "GetTableN" | Op.SetTableN => "SetTableN"
  | Op.NewClosure => "NewClosure" | Op.NameCall => "NameCall" | Op.Call => "Call"
  | Op.Return => "Return" | Op.Jump => "Jump" | Op.JumpBack => "JumpBack"
  | Op.JumpIf => "JumpIf" | Op.JumpIfNot => "JumpIfNot" | Op.JumpIfEq => "JumpIfEq"
  | Op.JumpIfLe => "JumpIfLe" | Op.JumpIfLt => "JumpIfLt"
  | Op.JumpIfNotEq => "JumpIfNotEq" | Op.JumpIfNotLe => "JumpIfNotLe"
  | Op.JumpIfNotLt => "JumpIfNotLt" | Op.Add => "Add" | Op.Sub => "Sub"
  | Op.Mul => "Mul" | Op.Div => "Div" | Op.Mod => "Mod" | Op.Pow => "Pow"
  | Op.AddK => "AddK" | Op.SubK => "SubK" | Op.MulK => "MulK" | Op.DivK => "DivK"
  | Op.ModK => "ModK" | Op.PowK => "PowK" | Op.And => "And" | Op.Or => "Or"
  | Op.AndK => "AndK" | Op.OrK => "OrK" | Op.Concat => "Concat" | Op.Not => "Not"
  | Op.Minus => "Minus" | Op.Length => "Length" | Op.NewTable => "NewTable"
  | Op.DupTable => "DupTable" | Op.SetList => "SetList" | Op.ForNPrep => "ForNPrep"
  | Op.ForNLoop => "ForNLoop" | Op.ForGLoop => "ForGLoop"
  | Op.ForGPrepInext => "ForGPrepInext" | Op.FastCall3 => "FastCall3"
  | Op.ForGPrepNext => "ForGPrepNext" | Op.NativeCall => "NativeCall"
  | Op.GetVarargs => "GetVarargs" | Op.DupClosure => "DupClosure"
  | Op.PrepVarargs => "PrepVarargs" | Op.LoadKx => "LoadKx" | Op.JumpX => "JumpX"
  | Op.FastCall => "FastCall" | Op.Coverage => "Coverage" | Op.Capture => "Capture"
  | Op.SubRk => "SubRk" | Op.DivRk => "DivRk" | Op.FastCall1 => "FastCall1"
  | Op.FastCall2 => "FastCall2" | Op.FastCall2K => "FastCall2K"
  | Op.ForGPrep => "ForGPrep" | Op.JumpXEqKNil => "JumpXEqKNil"
  | Op.JumpXEqKB => "JumpXEqKB" | Op.JumpXEqKN => "JumpXEqKN"
  | Op.JumpXEqKS => "JumpXEqKS" | Op.IDiv => "IDiv" | Op.IDivK => "IDivK"
  | Op.GetUdataKs => "GetUdataKs" | Op.SetUdataKs => "SetUdataKs"
  | Op.NameCallUdata => "NameCallUdata" | Op.NewClassMember => "NewClassMember"
  | Op.CallFb => "CallFb" | Op.CmpProto => "CmpProto" | Op.NewClass => "NewClass"
  end.

(** ** Constant tags *)

Module Tag.

Inductive ConstantTag : Set :=
  | Nil | Boolean | Number | String | Import | Table | Closure | Vector
  | TableWithConstants | Integer | ClassShape | VectorDouble.

End Tag.

Abbreviation ConstantTag := Tag.ConstantTag.

(** [ConstantTag as u8]. *)
Definition tag_byte (t : ConstantTag) : Z :=
  match t with
  | Tag.Nil => 0 | Tag.Boolean => 1 | Tag.Number => 2 | Tag.String => 3
  | Tag.Import => 4 | Tag.Table => 5 | Tag.Closure => 6 | Tag.Vector => 7
  | Tag.TableWithConstants => 8 | Tag.Integer => 9 | Tag.ClassShape => 10
  | Tag.VectorDouble => 11
  end.

Definition constant_tag_from_byte (value : Z) : option ConstantTag :=
  match value with
  | 0 => Some Tag.Nil | 1 => Some Tag.Boolean | 2 => Some Tag.Number
  | 3 => Some Tag.String | 4 => Some Tag.Import | 5 => Some Tag.Table
  | 6 => Some Tag.Closure | 7 => Some Tag.Vector | 8 => Some Tag.TableWithConstants
  | 9 => Some Tag.Integer | 10 => Some Tag.ClassShape | 11 => Some Tag.VectorDouble
  | _ => None
  end.

(** ** Type-info tags *)

Module Ty.

Inductive TypeTag : Set :=
  | Nil | Boolean | Number | String | Table | Function | Thread | Userdata | Vector
  | Buffer | Integer | Any | TaggedUserdataBase | TaggedUserdataEnd | OptionalBit
  | Invalid.

End Ty.

(** [TypeTag as u16]. *)
Definition type_tag_value (t : Ty.TypeTag) : Z :=
  match t with
  | Ty.Nil => 0 | Ty.Boolean => 1 | Ty.Number => 2 | Ty.String => 3 | Ty.Table => 4
  | Ty.Function => 5 | Ty.Thread => 6 | Ty.Userdata => 7 | Ty.Vector => 8
  | Ty.Buffer => 9 | Ty.Integer => 10 | Ty.Any => 15 | Ty.TaggedUserdataBase => 64
  | Ty.TaggedUserdataEnd => 96 | Ty.OptionalBit => 128 | Ty.Invalid => 256
  end.

(** ** Builtin function ids

    The associated constants of [BuiltinFunction], in declaration order. *)
Definition builtin_function_ids : list (string * Z) := [
  ("NONE", 0); ("ASSERT", 1); ("MATH_ABS", 2); ("MATH_ACOS", 3); ("MATH_ASIN", 4);
  ("MATH_ATAN2", 5); ("MATH_ATAN", 6); ("MATH_CEIL", 7); ("MATH_COSH", 8);
  ("MATH_COS", 9); ("MATH_DEG", 10); ("MATH_EXP", 11); ("MATH_FLOOR", 12);
  ("MATH_FMOD", 13); ("MATH_FREXP", 14); ("MATH_LDEXP", 15); ("MATH_LOG10", 16);
  ("MATH_LOG", 17); ("MATH_MAX", 18); ("MATH_MIN", 19); ("MATH_MODF", 20);
  ("MATH_POW", 21); ("MATH_RAD", 22); ("MATH_SINH", 23); ("MATH_SIN", 24);
  ("MATH_SQRT", 25); ("MATH_TANH", 26); ("MATH_TAN", 27); ("BIT32_ARSHIFT", 28);
  ("BIT32_BAND", 29); ("BIT32_BNOT", 30); ("BIT32_BOR", 31); ("BIT32_BXOR", 32);
  ("BIT32_BTEST", 33); ("BIT32_EXTRACT", 34); ("BIT32_LROTATE", 35);
  ("BIT32_LSHIFT", 36); ("BIT32_REPLACE", 37); ("BIT32_RROTATE", 38);
  ("BIT32_RSHIFT", 39); ("TYPE", 40); ("STRING_BYTE", 41); ("STRING_CHAR", 42);
  ("STRING_LEN", 43); ("TYPEOF", 44); ("STRING_SUB", 45); ("MATH_CLAMP", 46);
  ("MATH_SIGN", 47); ("MATH_ROUND", 48); ("RAWSET", 49); ("RAWGET", 50);
  ("RAWEQUAL", 51); ("TABLE_INSERT", 52); ("TABLE_UNPACK", 53); ("VECTOR", 54);
  ("BIT32_COUNTLZ", 55); ("BIT32_COUNTRZ", 56); ("SELECT_VARARG", 57); ("RAWLEN", 58);
  ("BIT32_EXTRACTK", 59); ("GETMETATABLE", 60); ("SETMETATABLE", 61); ("TONUMBER", 62);
  ("TOSTRING", 63); ("BIT32_BYTESWAP", 64); ("BUFFER_READI8", 65);
  ("BUFFER_READU8", 66); ("BUFFER_WRITEU8", 67); ("BUFFER_READI16", 68);
  ("BUFFER_READU16", 69); ("BUFFER_WRITEU16", 70); ("BUFFER_READI32", 71);
  ("BUFFER_READU32", 72); ("BUFFER_WRITEU32", 73); ("BUFFER_READF32", 74);
  ("BUFFER_WRITEF32", 75); ("BUFFER_READF64", 76); ("BUFFER_WRITEF64", 77);
  ("VECTOR_MAGNITUDE", 78); ("VECTOR_NORMALIZE", 79); ("VECTOR_CROSS", 80);
  ("VECTOR_DOT", 81); ("VECTOR_FLOOR", 82); ("VECTOR_CEIL", 83); ("VECTOR_ABS", 84);
  ("VECTOR_SIGN", 85); ("VECTOR_CLAMP", 86); ("VECTOR_MIN", 87); ("VECTOR_MAX", 88);
  ("MATH_LERP", 89); ("VECTOR_LERP", 90); ("MATH_ISNAN", 91); ("MATH_ISINF", 92);
  ("MATH_ISFINITE", 93); ("INTEGER_CREATE", 94); ("INTEGER_TONUMBER", 95);
  ("INTEGER_NEG", 96); ("INTEGER_ADD", 97); ("INTEGER_SUB", 98); ("INTEGER_MUL", 99);
  ("INTEGER_DIV", 100); ("INTEGER_MIN", 101); ("INTEGER_MAX", 102);
  ("INTEGER_REM", 103); ("INTEGER_IDIV", 104); ("INTEGER_UDIV", 105);
  ("INTEGER_UREM", 106); ("INTEGER_MOD", 107); ("INTEGER_CLAMP", 108);
  ("INTEGER_BAND", 109); ("INTEGER_BOR", 110); ("INTEGER_BNOT", 111);
  ("INTEGER_BXOR", 112); ("INTEGER_LT", 113); ("INTEGER_LE", 114);
  ("INTEGER_ULT", 115); ("INTEGER_ULE", 116); ("INTEGER_GT", 117); ("INTEGER_GE", 118);
  ("INTEGER_UGT", 119); ("INTEGER_UGE", 120); ("INTEGER_LSHIFT", 121);
  ("INTEGER_RSHIFT", 122); ("INTEGER_ARSHIFT", 123); ("INTEGER_LROTATE", 124);
  ("INTEGER_RROTATE", 125); ("INTEGER_EXTRACT", 126); ("INTEGER_BTEST", 127);
  ("INTEGER_COUNTRZ", 128); ("INTEGER_COUNTLZ", 129); ("INTEGER_BSWAP", 130);
  ("BUFFER_READINTEGER", 131); ("BUFFER_WRITEINTEGER", 132)].

Definition BuiltinFunction_NONE : Z := 0.
Definition BuiltinFunction_BUFFER_WRITEINTEGER : Z := 132.
Definition BuiltinFunction_COUNT : Z := 133.

(** ** Capture and feedback tags *)

Module Cap.

Inductive CaptureType : Set := | Val | Ref | Upval.

End Cap.

Abbreviation CaptureType := Cap.CaptureType.

Definition capture_type_byte (t : CaptureType) : Z :=
  match t with Cap.Val => 0 | Cap.Ref => 1 | Cap.Upval => 2 end.

Definition capture_type_from_byte (value : Z) : option CaptureType :=
  match value with
  | 0 => Some Cap.Val
  | 1 => Some Cap.Ref
  | 2 => Some Cap.Upval
  | _ => None
  end.

Inductive FeedbackType : Set := | CallTarget.

Definition feedback_type_byte (t : FeedbackType) : Z :=
  match t with CallTarget => 0 end.

Definition feedback_type_from_byte (value : Z) : option FeedbackType :=
  match value with
  | 0 => Some CallTarget
  | _ => None
  end.

(** ** Bit layouts *)

Definition JUMPX_K_NOT_BIT : Z := Z.shiftl 1 31.
Definition JUMPX_K_INDEX_MASK : Z := Z.shiftl 1 24 - 1.
Definition FORGLOOP_INEXT_BIT : Z := Z.shiftl 1 31.
Definition FORGLOOP_VARS_MASK : Z := 255.
Definition IMPORT_PATH_COUNT_SHIFT : Z := 30.
Definition IMPORT_PATH_COMPONENT_BITS : Z := 10.
Definition IMPORT_PATH_COMPONENT_MASK : Z := Z.shiftl 1 IMPORT_PATH_COMPONENT_BITS - 1.

Definition import_component_shift (index : Z) : Z :=
  IMPORT_PATH_COUNT_SHIFT - IMPORT_PATH_COMPONENT_BITS * (index + 1).

Definition ProtoFlag_INLINABLE : Z := Z.shiftl 1 3.
Definition ProtoFlag_USES_EXPORT : Z := Z.shiftl 1 4.

(** ** Lemmas *)

Lemma byte_range op : 0 <= byte op < COUNT.
Proof. destruct op; unfold COUNT; simpl; lia. Qed.

Lemma byte_is_u8 op : is_u8 (byte op).
Proof. pose proof (byte_range op) as H. unfold COUNT in H. unfold is_u8. lia. Qed.

Lemma from_byte_byte op : from_byte (byte op) = Some op.
Proof. by destruct op. Qed.

Lemma byte_inj op1 op2 : byte op1 = byte op2 -> op1 = op2.
Proof.
  intros H. apply (f_equal from_byte) in H. rewrite !from_byte_byte in H. congruence.
Qed.

#[export] Instance Opcode_eq_dec : EqDecision Opcode.
Proof.
  intros op1 op2. destruct (decide (byte op1 = byte op2)) as [H|H].
  - left. by apply byte_inj.
  - right. congruence.
Defined.

#[export] Instance ConstantTag_eq_dec : EqDecision ConstantTag.
Proof. solve_decision. Defined.

#[export] Instance CaptureType_eq_dec : EqDecision CaptureType.
Proof. solve_decision. Defined.

#[export] Instance FeedbackType_eq_dec : EqDecision FeedbackType.
Proof. solve_decision. Defined.

(** A decoded byte below [COUNT] is checked exhaustively by enumeration. *)
Lemma from_byte_enum :
  forallb (fun n => match from_byte (Z.of_nat n) with
                    | Some op => byte op =? Z.of_nat n
                    | None => false
                    end) (seq 0 90) = true.
Proof. vm_compute. reflexivity. Qed.

Lemma from_byte_below v : 0 <= v < COUNT -> exists op, from_byte v = Some op /\ byte op = v.
Proof.
  unfold COUNT. intros Hv. pose proof from_byte_enum as H. rewrite forallb_forall in H.
  specialize (H (Z.to_nat v)). rewrite Z2Nat.id in H by lia.
  destruct (from_byte v) as [op|].
  - exists op. split; [done|]. apply Z.eqb_eq, H, in_seq. lia.
  - discriminate H. apply in_seq. lia.
Qed.

Lemma constant_tag_from_byte_tag_byte t : constant_tag_from_byte (tag_byte t) = Some t.
Proof. by destruct t. Qed.

Lemma tag_byte_u8 t : is_u8 (tag_byte t).
Proof. destruct t; unfold is_u8; simpl; lia. Qed.

Lemma instruction_len_cases op : instruction_len op = 1 \/ instruction_len op = 2.
Proof. destruct op; simpl; auto. Qed.

#[export] Hint Resolve byte_is_u8 tag_byte_u8 : ruau.
#[export] Hint Rewrite from_byte_byte constant_tag_from_byte_tag_byte : ruau.
