(* ===== verification/BytecodeTypes.v ===== *)
(** * BytecodeTypes: the decoded chunk ([ruau-bytecode/src/types.rs])

    The structured form of one bytecode blob: instructions with their
    pre-decoded operand fields, constants, protos and chunks, the constructors
    that keep an instruction consistent with its header word, and the arithmetic
    of jump targets and instruction-word offsets. Line info is in [LineInfo]. The
    policy of accepted bytecode versions closes the file. *)

From Stdlib Require Import ZArith Lia.
From stdpp Require Import base numbers list strings.
From S2P Require Import Prelude Opcodes.

(** ** Instructions *)

Record Instruction : Set := mkInstruction {
  ins_header : Z;
  ins_opcode : Opcode;
  ins_a : Z;
  ins_b : Z;
  ins_c : Z;
  ins_d : Z;
  ins_e : Z;
  ins_aux : option Z
}.

#[export] Instance Instruction_eq_dec : EqDecision Instruction.
Proof. solve_decision. Defined.

Definition from_words (header : Z) (aux : option Z) : option Instruction :=
  match from_byte (as_u8 (Z.land header 255)) with
  | None => None
  | Some opcode =>
      Some {| ins_header := header;
              ins_opcode := opcode;
              ins_a := as_u8 (Z.land (Z.shiftr header 8) 255);
              ins_b := as_u8 (Z.land (Z.shiftr header 16) 255);
              ins_c := as_u8 (Z.land (Z.shiftr header 24) 255);
              ins_d := as_i16 (as_u16 (Z.shiftr header 16));
              ins_e := Z.shiftr (as_i32 header) 8;
              ins_aux := aux |}
  end.

(** The header words built by the [abc] and [ad] constructors: [u32] shifts and
    disjunctions. *)
Definition abc_header (opcode : Opcode) (a b c : Z) : Z :=
  Z.lor (Z.lor (Z.lor (byte opcode) (as_u32 (Z.shiftl a 8)))
               (as_u32 (Z.shiftl b 16)))
        (as_u32 (Z.shiftl c 24)).

Definition ad_header (opcode : Opcode) (a d : Z) : Z :=
  Z.lor (Z.lor (byte opcode) (as_u32 (Z.shiftl a 8)))
        (as_u32 (Z.shiftl (as_u16 d) 16)).

(** [from_words(..).expect(..)]: [None] is the panic of [expect]. *)
Definition abc_with_aux (opcode : Opcode) (a b c : Z) (aux : option Z) : option Instruction :=
  from_words (abc_header opcode a b c) aux.

Definition abc (opcode : Opcode) (a b c : Z) : option Instruction :=
  from_words (abc_header opcode a b c) None.

Definition ad (opcode : Opcode) (a d : Z) : option Instruction :=
  from_words (ad_header opcode a d) None.

Definition jump_offset_words (i : Instruction) : option Z :=
  match ins_opcode i with
  | Op.Jump | Op.JumpBack | Op.JumpIf | Op.JumpIfNot | Op.JumpIfEq | Op.JumpIfLe
  | Op.JumpIfLt | Op.JumpIfNotEq | Op.JumpIfNotLe | Op.JumpIfNotLt | Op.ForNPrep
  | Op.ForNLoop | Op.ForGLoop | Op.ForGPrepInext | Op.ForGPrepNext | Op.ForGPrep
  | Op.JumpXEqKNil | Op.JumpXEqKB | Op.JumpXEqKN | Op.JumpXEqKS | Op.CmpProto =>
      Some (ins_d i)
  | Op.JumpX => Some (ins_e i)
  | Op.LoadB | Op.FastCall | Op.FastCall1 | Op.FastCall2 | Op.FastCall2K | Op.FastCall3 =>
      Some (ins_c i)
  | _ => None
  end.

(** [i32] arithmetic, wrapping as in a release build. *)
Definition jump_target_word (i : Instruction) (instruction_word : Z) : option Z :=
  match jump_offset_words i with
  | None => None
  | Some off => Some (as_i32 (as_i32 (as_i32 instruction_word + 1) + off))
  end.

Definition capture_type (i : Instruction) : option CaptureType :=
  if decide (ins_opcode i = Op.Capture) then capture_type_from_byte (ins_a i) else None.

Definition capture_source (i : Instruction) : option Z :=
  match capture_type i with
  | Some _ => Some (ins_b i)
  | None => None
  end.

Definition word_len (i : Instruction) : Z :=
  1 + match ins_aux i with Some _ => 1 | None => 0 end.

Definition is_header_consistent (i : Instruction) : bool :=
  match from_words (ins_header i) (ins_aux i) with
  | Some decoded => bool_decide (decoded = i)
  | None => false
  end.

(** [.map(word_len).sum()] in [u32]. *)
Definition code_word_count (code : list Instruction) : Z :=
  foldl (fun acc i => as_u32 (acc + word_len i)) 0 code.

(** The running offset of the iterator; [next] wraps in [u32]. *)
Fixpoint instruction_word_offsets_from (next : Z) (code : list Instruction) : list Z :=
  match code with
  | [] => []
  | i :: code' => next :: instruction_word_offsets_from (as_u32 (next + word_len i)) code'
  end.

Definition instruction_word_offsets (code : list Instruction) : list Z :=
  instruction_word_offsets_from 0 code.

(** [iter().position(p)]. *)
Fixpoint position_from {A} (p : A -> bool) (start : nat) (l : list A) : option nat :=
  match l with
  | [] => None
  | x :: l' => if p x then Some start else position_from p (S start) l'
  end.

Definition position {A} (p : A -> bool) (l : list A) : option nat := position_from p 0 l.

Definition jump_target_instruction_index
    (code : list Instruction) (instruction_index : nat) : option nat :=
  let offsets := instruction_word_offsets code in
  match code !! instruction_index with
  | None => None
  | Some instruction =>
      match offsets !! instruction_index with
      | None => None
      | Some source_word =>
          match jump_target_word instruction source_word with
          | None => None
          | Some target => position (fun word => as_i32 word =? target) offsets
          end
      end
  end.

(** ** Constants, debug data, protos and chunks *)

Record TableEntry : Set := mkTableEntry { te_key : Z; te_value : Z }.

Record ClassShape : Set := mkClassShape {
  cs_class_name : Z;
  cs_property_names : list Z;
  cs_method_names : list Z
}.

Module Const.

(** The four components of a vector constant are a Rust array [[_; 4]]. *)
Inductive Constant : Set :=
| Nil
| Boolean (value : bool)
| Number (bits : Z)
| String (string : Z)
| Import (import_id : Z)
| Table (keys : list Z)
| Closure (proto : Z)
| Vector (bits : Z * Z * Z * Z)
| VectorDouble (bits : Z * Z * Z * Z)
| TableWithConstants (entries : list TableEntry)
| Integer (value : Z)
| ClassShapeC (shape : ClassShape).

End Const.

Abbreviation Constant := Const.Constant.

#[export] Instance TableEntry_eq_dec : EqDecision TableEntry.
Proof. solve_decision. Defined.

#[export] Instance ClassShape_eq_dec : EqDecision ClassShape.
Proof. solve_decision. Defined.

#[export] Instance Constant_eq_dec : EqDecision Constant.
Proof. solve_decision. Defined.

Record TypeInfo : Set := mkTypeInfo { ti_raw : list Z }.

Record LineInfo : Set := mkLineInfo {
  log2_span : Z;
  delta_bytes : list Z;
  baseline_deltas : list Z
}.

Record DebugLocal : Set := mkDebugLocal {
  dl_name : Z;
  dl_start_pc : Z;
  dl_end_pc : Z;
  dl_register : Z
}.

Record DebugInfo : Set := mkDebugInfo {
  di_locals : list DebugLocal;
  di_upvalues : list Z
}.

Record FeedbackSlot : Set := mkFeedbackSlot { fs_kind : FeedbackType; fs_pc : Z }.

Record Proto : Set := mkProto {
  max_stack_size : Z;
  num_params : Z;
  num_upvalues : Z;
  is_vararg : Z;
  flags : Z;
  type_info : TypeInfo;
  code : list Instruction;
  constants : list Constant;
  child_protos : list Z;
  line_defined : Z;
  debug_name : Z;
  line_info : option LineInfo;
  debug_info : option DebugInfo;
  feedback_slots : list FeedbackSlot;
  cost : option Z
}.

Record UserdataTypeMapping : Set := mkUserdataTypeMapping {
  um_type_index : Z;
  um_name : Z
}.

Record ValidChunk : Set := mkValidChunk {
  bytecode_version : Z;
  type_version : Z;
  strings : list (list Z);
  userdata_type_mappings : list UserdataTypeMapping;
  protos : list Proto;
  main_proto : Z
}.

(** [BytecodeChunk::Valid { .. }] carries the fields of [ValidChunk]. *)
Inductive BytecodeChunk : Set :=
| Valid (chunk : ValidChunk)
| Error (message : list Z).

(** ** Abstract views

    [total_words] is the unbounded sum of instruction lengths: the machine
    computations above agree with it as long as it fits in [u32]. *)

Definition total_words (code : list Instruction) : Z :=
  foldr (fun i acc => word_len i + acc) 0 code.

(** The word at which instruction [k] starts. *)
Definition word_of (code : list Instruction) (k : nat) : Z := total_words (take k code).

(** The operand fields of an instruction are the fields of its header word. *)
Definition consistent (i : Instruction) : Prop :=
  from_words (ins_header i) (ins_aux i) = Some i.

#[export] Instance consistent_dec i : Decision (consistent i).
Proof. unfold consistent. apply _. Defined.

(** An AUX word is present exactly for the two-word opcodes. *)
Definition aux_arity_ok (i : Instruction) : Prop := word_len i = instruction_len (ins_opcode i).

(** ** Header words *)

Lemma abc_header_sum op a b c :
  is_u8 a -> is_u8 b -> is_u8 c ->
  abc_header op a b c = byte op + a * 256 + b * 65536 + c * 16777216.
Proof.
  intros Ha Hb Hc. pose proof (byte_is_u8 op) as Ho. unfold is_u8 in *. unfold abc_header.
  assert (forall x n, 0 <= n -> 0 <= x * 2 ^ n < 4294967296 -> as_u32 (Z.shiftl x n) = Z.shiftl x n)
    as Hs by (intros x n Hn Hx; apply as_u32_small; rewrite Z.shiftl_mul_pow2 by lia; done).
  rewrite !Hs by (simpl; lia).
  rewrite (lor_shiftl_add (byte op) a 8), (lor_shiftl_add _ b 16), (lor_shiftl_add _ c 24)
    by (simpl; lia).
  simpl. lia.
Qed.

Lemma ad_header_sum op a d :
  is_u8 a -> ad_header op a d = byte op + a * 256 + as_u16 d * 65536.
Proof.
  intros Ha. pose proof (byte_is_u8 op) as Ho. unfold is_u8 in *. unfold ad_header.
  assert (0 <= as_u16 d < 65536) as Hd by (unfold as_u16; apply Z.mod_pos_bound; lia).
  assert (forall x n, 0 <= n -> 0 <= x * 2 ^ n < 4294967296 -> as_u32 (Z.shiftl x n) = Z.shiftl x n)
    as Hs by (intros x n Hn Hx; apply as_u32_small; rewrite Z.shiftl_mul_pow2 by lia; done).
  rewrite !Hs by (simpl; lia).
  rewrite (lor_shiftl_add (byte op) a 8), (lor_shiftl_add _ (as_u16 d) 16) by (simpl; lia).
  simpl. lia.
Qed.

(** The fields of a header word, in arithmetic form. *)
Lemma from_words_arith header aux :
  from_words header aux =
    match from_byte (header mod 256) with
    | None => None
    | Some opcode =>
        Some (mkInstruction header opcode (header / 256 mod 256) (header / 65536 mod 256)
                (header / 16777216 mod 256) (as_i16 (header / 65536)) (as_i32 header / 256) aux)
    end.
Proof.
  unfold from_words. rewrite !land_255, !shiftr_div by lia.
  change (2 ^ 8) with 256. change (2 ^ 16) with 65536. change (2 ^ 24) with 16777216.
  unfold as_u8. rewrite !Zmod_mod. destruct (from_byte _); [|done]. do 2 f_equal.
  unfold as_i16, as_u16. by rewrite !Zmod_mod.
Qed.

Lemma from_words_byte header aux op a r :
  is_u8 a -> 0 <= r < 65536 -> header = byte op + a * 256 + r * 65536 ->
  from_words header aux =
    Some (mkInstruction header op a (r mod 256) (r / 256 mod 256) (as_i16 r)
            (as_i32 header / 256) aux).
Proof.
  intros Ha Hr Hh. pose proof (byte_is_u8 op) as Ho. unfold is_u8 in *.
  rewrite from_words_arith.
  replace (header mod 256) with (byte op) by zdm. rewrite from_byte_byte.
  replace (header / 256 mod 256) with a by zdm.
  replace (header / 16777216) with (r / 256) by zdm.
  replace (header / 65536) with r by zdm. done.
Qed.

Lemma from_words_Some header aux i :
  from_words header aux = Some i ->
  ins_header i = header /\ ins_aux i = aux /\ from_byte (header mod 256) = Some (ins_opcode i) /\
  is_u8 (ins_a i) /\ is_u8 (ins_b i) /\ is_u8 (ins_c i) /\ is_i16 (ins_d i).
Proof.
  rewrite from_words_arith. destruct (from_byte _) as [op|]; [|done]. intros [= <-]. simpl.
  split_and!; try done; auto with ruau; unfold is_u8; apply Z.mod_pos_bound; lia.
Qed.

Lemma from_words_consistent header aux i : from_words header aux = Some i -> consistent i.
Proof.
  intros H. destruct (from_words_Some _ _ _ H) as (Hh & Ha & _). unfold consistent. congruence.
Qed.

Lemma is_header_consistent_spec i : is_header_consistent i = true <-> consistent i.
Proof.
  unfold is_header_consistent, consistent. destruct (from_words _ _) as [j|]; [|done].
  rewrite bool_decide_eq_true. naive_solver.
Qed.

Lemma word_len_cases i : word_len i = 1 \/ word_len i = 2.
Proof. unfold word_len. destruct (ins_aux i); auto. Qed.

(** ** Offsets *)

Lemma total_words_app c1 c2 : total_words (c1 ++ c2) = total_words c1 + total_words c2.
Proof. induction c1; simpl; [lia|]. rewrite IHc1. lia. Qed.

Lemma total_words_nonneg c : 0 <= total_words c.
Proof. induction c as [|i c IH]; simpl; [lia|]. pose proof (word_len_cases i). lia. Qed.

Lemma total_words_length c : len c <= total_words c <= 2 * len c.
Proof.
  induction c as [|i c IH]; [done|]. rewrite len_cons. cbn [total_words foldr].
  fold (total_words c). pose proof (word_len_cases i). lia.
Qed.

Lemma code_word_count_total c : code_word_count c = as_u32 (total_words c).
Proof.
  unfold code_word_count.
  assert (forall acc, 0 <= acc < 4294967296 ->
    foldl (fun acc i => as_u32 (acc + word_len i)) acc c = as_u32 (acc + total_words c)) as H.
  { induction c as [|i c IH]; intros acc Hacc; simpl.
    - unfold as_u32. by rewrite Z.add_0_r, Z.mod_small.
    - rewrite IH by apply as_u32_range. unfold as_u32.
      rewrite Zplus_mod_idemp_l. f_equal. fold (total_words c). lia. }
  apply H. lia.
Qed.

Lemma code_word_count_small c :
  total_words c < 4294967296 -> code_word_count c = total_words c.
Proof.
  intros H. rewrite code_word_count_total. apply as_u32_small.
  split; [apply total_words_nonneg | done].
Qed.

Lemma word_of_S c k i : c !! k = Some i -> word_of c (S k) = word_of c k + word_len i.
Proof.
  intros H. unfold word_of. rewrite (take_S_r _ _ _ H), total_words_app. simpl. lia.
Qed.

Lemma word_of_le c j k : (j <= k)%nat -> word_of c j <= word_of c k.
Proof.
  intros H. unfold word_of. replace k with (j + (k - j))%nat by lia.
  rewrite <- take_take_drop, total_words_app. pose proof (total_words_nonneg (take (k - j) (drop j c))).
  lia.
Qed.

Lemma word_of_lt c j k : (j < k)%nat -> (j < length c)%nat -> word_of c j < word_of c k.
Proof.
  intros Hjk Hj. destruct (lookup_lt_is_Some_2 c j Hj) as [i Hi].
  pose proof (word_of_S _ _ _ Hi). pose proof (word_of_le c (S j) k ltac:(lia)).
  pose proof (word_len_cases i). lia.
Qed.

Lemma word_of_inj c j k :
  (j < length c)%nat -> (k < length c)%nat -> word_of c j = word_of c k -> j = k.
Proof.
  intros Hj Hk E. destruct (Nat.lt_trichotomy j k) as [H|[H|H]]; [|done|].
  - pose proof (word_of_lt c j k H Hj). lia.
  - pose proof (word_of_lt c k j H Hk). lia.
Qed.

Lemma word_of_total c k : word_of c k <= total_words c.
Proof.
  unfold word_of. rewrite <- (take_drop k c) at 2. rewrite total_words_app.
  pose proof (total_words_nonneg (drop k c)). lia.
Qed.

Lemma word_of_nonneg c k : 0 <= word_of c k.
Proof. apply total_words_nonneg. Qed.

Lemma word_of_0 c : word_of c 0 = 0.
Proof. done. Qed.

Lemma length_instruction_word_offsets c : length (instruction_word_offsets c) = length c.
Proof.
  unfold instruction_word_offsets. generalize 0. induction c; intros; simpl; auto.
Qed.

Lemma instruction_word_offsets_lookup c k :
  total_words c < 4294967296 -> (k < length c)%nat ->
  instruction_word_offsets c !! k = Some (word_of c k).
Proof.
  intros Ht Hk. unfold instruction_word_offsets.
  assert (forall next, 0 <= next -> next + total_words c < 4294967296 ->
    instruction_word_offsets_from next c !! k = Some (next + word_of c k)) as H.
  { clear Ht. revert k Hk. induction c as [|i c IH]; intros k Hk next Hn Ht; simpl in *; [lia|].
    pose proof (word_len_cases i). fold (total_words c) in Ht.
    pose proof (total_words_nonneg c).
    rewrite as_u32_small by (unfold is_u32; lia).
    destruct k as [|k]; simpl.
    - rewrite word_of_0. f_equal. lia.
    - rewrite IH by lia. unfold word_of. simpl. f_equal. lia. }
  rewrite H by lia. done.
Qed.

(** ** [position] *)

Lemma position_from_spec {A} (p : A -> bool) l s j :
  position_from p s l = Some j <->
  exists k x, j = (s + k)%nat /\ l !! k = Some x /\ p x = true /\
    forall k' x', (k' < k)%nat -> l !! k' = Some x' -> p x' = false.
Proof.
  revert s. induction l as [|y l IH]; intros s; simpl.
  { split; [done|]. by intros (k & x & _ & H & _). }
  destruct (p y) eqn:E.
  - split.
    + intros [= <-]. exists 0%nat, y. split_and!; [lia|done|done|lia].
    + intros (k & x & -> & Hk & Hx & Hmin). destruct k as [|k]; [f_equal; lia|].
      specialize (Hmin 0%nat y ltac:(lia) eq_refl). congruence.
  - rewrite IH. split; intros (k & x & -> & Hk & Hx & Hmin).
    + exists (S k), x. split_and!; [lia|done|done|]. intros [|k'] x' Hlt Hl; simpl in *; [congruence|].
      eapply Hmin; [|done]. lia.
    + destruct k as [|k]; simpl in *; [congruence|]. exists k, x. split_and!; [lia|done|done|].
      intros k' x' Hlt. apply (Hmin (S k')). lia.
Qed.

Lemma position_spec {A} (p : A -> bool) l j :
  position p l = Some j <->
  exists x, l !! j = Some x /\ p x = true /\
    forall k' x', (k' < j)%nat -> l !! k' = Some x' -> p x' = false.
Proof.
  unfold position. rewrite position_from_spec. split.
  - intros (k & x & -> & H). exists x. done.
  - intros (x & H). exists j, x. done.
Qed.

(** When the element at [j] is the only one that satisfies [p]. *)
Lemma position_unique {A} (p : A -> bool) l j x :
  l !! j = Some x -> p x = true ->
  (forall k y, l !! k = Some y -> p y = true -> k = j) -> position p l = Some j.
Proof.
  intros Hj Hx Hu. apply position_spec. exists x. split_and!; [done..|].
  intros k y Hlt Hk. destruct (p y) eqn:E; [|done]. specialize (Hu k y Hk E). lia.
Qed.

Lemma jump_target_index_iff code k i off j :
  total_words code < 1073741824 -> code !! k = Some i ->
  jump_offset_words i = Some off -> -1073741824 <= off < 1073741823 ->
  jump_target_instruction_index code k = Some j <->
  (j < length code)%nat /\ word_of code j = word_of code k + 1 + off.
Proof.
  intros Ht Hk Ho Hoff. pose proof (lookup_lt_Some _ _ _ Hk) as Hklt.
  unfold jump_target_instruction_index. rewrite Hk.
  rewrite instruction_word_offsets_lookup by lia. unfold jump_target_word. rewrite Ho.
  pose proof (word_of_nonneg code k). pose proof (word_of_total code k).
  rewrite (as_i32_small (word_of code k)) by (unfold is_i32; lia).
  rewrite (as_i32_small (_ + 1)) by (unfold is_i32; lia).
  rewrite (as_i32_small (_ + off)) by (unfold is_i32; lia).
  assert (forall n w, instruction_word_offsets code !! n = Some w ->
    (n < length code)%nat /\ w = word_of code n /\ as_i32 w = w) as Hl.
  { intros n w Hn. pose proof (lookup_lt_Some _ _ _ Hn) as Hlt.
    rewrite length_instruction_word_offsets in Hlt.
    rewrite instruction_word_offsets_lookup in Hn by lia. injection Hn as <-.
    split_and!; [done|done|]. apply as_i32_small.
    pose proof (word_of_nonneg code n). pose proof (word_of_total code n). unfold is_i32. lia. }
  split.
  - intros (w & Hw & Heq & _)%position_spec. destruct (Hl _ _ Hw) as (? & -> & E).
    rewrite E in Heq. split; [done|]. by apply Z.eqb_eq.
  - intros [Hj Hw]. pose proof (instruction_word_offsets_lookup code j ltac:(lia) Hj) as Hoj.
    apply (position_unique _ _ _ _ Hoj).
    + destruct (Hl _ _ Hoj) as (_ & _ & ->). apply Z.eqb_eq. lia.
    + intros k' y Hk' Hy. destruct (Hl _ _ Hk') as (Hlt & -> & E). rewrite E in Hy.
      apply Z.eqb_eq in Hy. apply (word_of_inj code); [done|done|lia].
Qed.

Lemma abc_with_aux_spec op a b c aux :
  is_u8 a -> is_u8 b -> is_u8 c ->
  exists i, abc_with_aux op a b c aux = Some i /\ ins_opcode i = op /\
    ins_a i = a /\ ins_b i = b /\ ins_c i = c /\ ins_d i = as_i16 (b + 256 * c) /\
    ins_aux i = aux /\ is_u32 (ins_header i) /\ is_header_consistent i = true.
Proof.
  intros Ha Hb Hc. unfold abc_with_aux. pose proof (byte_is_u8 op) as Ho.
  pose proof (abc_header_sum op a b c Ha Hb Hc) as Hh. unfold is_u8, is_u32 in *.
  pose proof (from_words_byte (abc_header op a b c) aux op a (b + 256 * c)) as E.
  rewrite E by (unfold is_u8; lia). eexists. split; [done|]. simpl.
  split_and!; try done; try zdm.
  apply is_header_consistent_spec. eapply from_words_consistent, E; unfold is_u8; lia.
Qed.

Lemma ad_spec op a d :
  is_u8 a -> is_i16 d ->
  exists i, ad op a d = Some i /\ ins_opcode i = op /\ ins_a i = a /\ ins_d i = d /\
    ins_aux i = None /\ is_u32 (ins_header i) /\ is_header_consistent i = true.
Proof.
  intros Ha Hd. unfold ad. pose proof (byte_is_u8 op) as Ho.
  pose proof (ad_header_sum op a d Ha) as Hh.
  assert (0 <= as_u16 d < 65536) as Hd' by (unfold as_u16; apply Z.mod_pos_bound; lia).
  unfold is_u8, is_u32 in *.
  pose proof (from_words_byte (ad_header op a d) None op a (as_u16 d)) as E.
  rewrite E by (unfold is_u8; lia). eexists. split; [done|]. simpl.
  split_and!; try done; try lia; try (by revert Hd; clear; zcast).
  apply is_header_consistent_spec. eapply from_words_consistent, E; unfold is_u8; lia.
Qed.

(** ** Theorems *)

(** [Instruction::abc_with_aux] never panics: for every opcode and all byte
    operands the header word it packs decodes again, the decoded instruction carries exactly
    the requested opcode, A, B, C and AUX (and D is the signed reading of B and C), and the
    pre-decoded fields are consistent with the header. *)
Theorem abc_with_aux_fields op a b c aux :
  is_u8 a -> is_u8 b -> is_u8 c ->
  exists i, abc_with_aux op a b c aux = Some i /\ ins_opcode i = op /\
    ins_a i = a /\ ins_b i = b /\ ins_c i = c /\ ins_d i = as_i16 (b + 256 * c) /\
    ins_aux i = aux /\ is_u32 (ins_header i) /\ is_header_consistent i = true.
Proof. apply abc_with_aux_spec. Qed.

(** [Instruction::ad] never panics and is inverted by decoding: for every
    opcode, byte A and signed 16-bit D the decoded instruction carries that opcode, A and D. *)
Theorem ad_fields op a d :
  is_u8 a -> is_i16 d ->
  exists i, ad op a d = Some i /\ ins_opcode i = op /\ ins_a i = a /\ ins_d i = d /\
    ins_aux i = None /\ is_u32 (ins_header i) /\ is_header_consistent i = true.
Proof. apply ad_spec. Qed.

(** [jump_target_instruction_index] is exact: for code below 2^30 words it
    returns index [j] exactly when the word that instruction [j] starts at is the jump's
    source word plus one plus the encoded offset. *)
Theorem jump_target_instruction_index_spec code k i off j :
  total_words code < 1073741824 -> code !! k = Some i ->
  jump_offset_words i = Some off -> -1073741824 <= off < 1073741823 ->
  jump_target_instruction_index code k = Some j <->
  (j < length code)%nat /\ word_of code j = word_of code k + 1 + off.
Proof. apply jump_target_index_iff. Qed.

Lemma abc_with_aux_fields_witness :
  exists i, abc_with_aux Op.FastCall2 29 1 4 (Some 2) = Some i /\ ins_c i = 4.
Proof.
  destruct (abc_with_aux_fields Op.FastCall2 29 1 4 (Some 2)) as (i & H & _ & _ & _ & Hc & _);
    [unfold is_u8; lia..|]. exists i. done.
Defined.

Lemma ad_fields_witness : exists i, ad Op.JumpBack 0 (-7) = Some i /\ ins_d i = -7.
Proof.
  destruct (ad_fields Op.JumpBack 0 (-7)) as (i & H & _ & _ & Hd & _);
    [unfold is_u8; lia | unfold is_i16; lia |]. exists i. done.
Defined.

Lemma jump_target_instruction_index_spec_witness :
  let i0 := mkInstruction 65559 Op.Jump 0 1 0 1 256 None in
  let i1 := mkInstruction 0 Op.Nop 0 0 0 0 0 None in
  jump_target_instruction_index [i0; i1; i1] 0 = Some 2%nat.
Proof.
  apply (jump_target_instruction_index_spec _ 0 (mkInstruction 65559 Op.Jump 0 1 0 1 256 None) 1);
    [reflexivity | reflexivity | reflexivity | lia | split; [simpl; lia | reflexivity]].
Defined.

(** ** Accepted bytecode versions ([ruau-bytecode/src/version_policy.rs])

    The public API accepts one version; fixture tooling accepts the current
    side-car range and the class version. *)

Definition DEFAULT_VERSION : Z := 9.
Definition FIXTURE_TOOLING_MAX_VERSION : Z := 13.
Definition FIXTURE_TOOLING_CLASS_VERSION : Z := 100.
Definition DEFAULT_TYPE_VERSION : Z := 3.

Inductive BytecodeVersionPolicy : Set := | Public | UpstreamFixture.

Definition accepts (self : BytecodeVersionPolicy) (version : Z) : bool :=
  match self with
  | Public => version =? DEFAULT_VERSION
  | UpstreamFixture =>
      ((DEFAULT_VERSION <=? version) && (version <=? FIXTURE_TOOLING_MAX_VERSION))
      || (version =? FIXTURE_TOOLING_CLASS_VERSION)
  end.

Definition unsupported_version_message (self : BytecodeVersionPolicy) (version : Z) : string :=
  match self with
  | Public =>
      "unsupported bytecode version " +:+ show version +:+
      "; Ruau supports only current public bytecode version " +:+ show DEFAULT_VERSION
  | UpstreamFixture =>
      "unsupported bytecode version " +:+ show version +:+
      "; upstream fixture tooling accepts versions " +:+ show DEFAULT_VERSION +:+ "..=" +:+
      show FIXTURE_TOOLING_MAX_VERSION +:+ " and " +:+ show FIXTURE_TOOLING_CLASS_VERSION
  end.

Lemma accepts_nonzero p v : accepts p v = true -> 0 < v <= 100.
Proof.
  unfold accepts, DEFAULT_VERSION, FIXTURE_TOOLING_MAX_VERSION, FIXTURE_TOOLING_CLASS_VERSION.
  destruct p; lia.
Qed.

Lemma accepts_public v : accepts Public v = true -> v = 9.
Proof. unfold accepts, DEFAULT_VERSION. lia. Qed.
