(* ===== verification/LineInfo.v ===== *)
(** * LineInfo: span packing of source lines ([ruau-bytecode/src/types.rs], [LineInfo])

    The compiler stores one source line per instruction word as a [u8] delta
    from a baseline shared by an aligned span of words. [from_line_numbers]
    searches the span, [to_line_numbers] unpacks. *)

From Stdlib Require Import ZArith Lia.
From stdpp Require Import base numbers list.
From S2P Require Import Prelude BytecodeTypes.

(** ** The packing routine *)

(** [while value >= (2usize << result) { result += 1 }]; sixty-four rounds are
    enough for a 64-bit [value]. *)
Fixpoint line_info_log2_loop (fuel : nat) (value result : Z) : Z :=
  match fuel with
  | O => result
  | S fuel' =>
      if Z.shiftl 2 result <=? value then line_info_log2_loop fuel' value (result + 1)
      else result
  end.

Definition line_info_log2 (value : Z) : Z := line_info_log2_loop 64 value 0.

(** [lines[i]], only evaluated in range. *)
Definition line_at (lines : list Z) (i : Z) : Z := default 0 (zget lines i).

(** The inner [while]: extends [next] while the lines of the span fit in a byte. *)
Fixpoint span_scan (fuel : nat) (lines : list Z) (offset span next min max : Z) : Z :=
  match fuel with
  | O => next
  | S fuel' =>
      if (next <? len lines) && (next <? offset + span) then
        let min := Z.min min (line_at lines next) in
        let max := Z.max max (line_at lines next) in
        if 255 <? as_i32 (max - min) then next
        else span_scan fuel' lines offset span (next + 1) min max
      else next
  end.

(** The outer [while offset < lines.len()]; returns the final span. *)
Fixpoint span_search (fuel : nat) (lines : list Z) (offset span : Z) : Z :=
  match fuel with
  | O => span
  | S fuel' =>
      if offset <? len lines then
        let next := span_scan (length lines) lines offset span offset
                      (line_at lines offset) (line_at lines offset) in
        let span :=
          if (next <? len lines) && (next - offset <? span)
          then Z.shiftl 1 (line_info_log2 (next - offset)) else span in
        span_search fuel' lines (offset + span) span
      else span
  end.

(** [lines.chunks(span)] *)
Fixpoint chunks (fuel : nat) (span : Z) (lines : list Z) : list (list Z) :=
  match fuel, lines with
  | O, _ => []
  | _, [] => []
  | S fuel', _ =>
      let n := Z.to_nat (Z.min span (len lines)) in
      take n lines :: chunks fuel' span (drop n lines)
  end.

(** [*chunk.iter().min().expect(..)]; [None] is the panic on an empty chunk. *)
Definition chunk_min (chunk : list Z) : option Z :=
  match chunk with
  | [] => None
  | x :: rest => Some (foldl Z.min x rest)
  end.

(** The delta loop; [None] is the panic of [baselines[..]] out of range. *)
Fixpoint pack_deltas (baselines : list Z) (log2_span index last_offset : Z) (lines : list Z)
    : option (list Z) :=
  match lines with
  | [] => Some []
  | line :: lines' =>
      match zget baselines (Z.shiftr index log2_span) with
      | None => None
      | Some baseline =>
          let delta := as_u8 (as_i32 (line - baseline)) in
          match pack_deltas baselines log2_span (index + 1) delta lines' with
          | None => None
          | Some deltas => Some (as_u8 (delta - last_offset) :: deltas)
          end
      end
  end.

Fixpoint pack_baselines (last_line : Z) (baselines : list Z) : list Z :=
  match baselines with
  | [] => []
  | b :: rest => as_i32 (b - last_line) :: pack_baselines b rest
  end.

(** [LineInfo::from_line_numbers]. The outer [option] is a panic, the inner one
    the function's own [Option]. *)
Definition from_line_numbers (lines : list Z) : option (option LineInfo) :=
  if decide (lines = []) then Some None
  else
    let span := span_search (length lines) lines 0 (Z.shiftl 1 24) in
    let log2_span := as_u8 (line_info_log2 span) in
    match mapM chunk_min (chunks (length lines) span lines) with
    | None => None
    | Some baselines =>
        match pack_deltas baselines log2_span 0 0 lines with
        | None => None
        | Some delta_bytes =>
            Some (Some (mkLineInfo log2_span delta_bytes (pack_baselines 0 baselines)))
        end
    end.

(** ** The unpacking routine *)

Fixpoint unpack_baselines (baseline : Z) (deltas : list Z) : list Z :=
  match deltas with
  | [] => []
  | d :: rest => let b := as_i32 (baseline + d) in b :: unpack_baselines b rest
  end.

Fixpoint unpack_lines (baselines : list Z) (shift index last_offset : Z) (bytes : list Z)
    : option (list Z) :=
  match bytes with
  | [] => Some []
  | byte :: bytes' =>
      match zget baselines (Z.shiftr index shift) with
      | None => None
      | Some baseline =>
          let offset := as_u8 (last_offset + byte) in
          match unpack_lines baselines shift (index + 1) offset bytes' with
          | None => None
          | Some lines => Some (as_i32 (baseline + offset) :: lines)
          end
      end
  end.

(** [LineInfo::to_line_numbers]; a 64-bit shift uses its amount modulo 64. *)
Definition to_line_numbers (li : LineInfo) : option (list Z) :=
  unpack_lines (unpack_baselines 0 (baseline_deltas li)) (log2_span li mod 64) 0 0
    (delta_bytes li).

(** ** [line_info_log2] *)

Lemma line_info_log2_loop_spec fuel value result :
  0 <= result -> 2 ^ result <= value -> value < 2 ^ (result + Z.of_nat fuel + 1) ->
  result <= line_info_log2_loop fuel value result /\
  2 ^ line_info_log2_loop fuel value result <= value <
    2 ^ (line_info_log2_loop fuel value result + 1).
Proof.
  revert result. induction fuel as [|fuel IH]; intros result Hr Hlo Hhi.
  { simpl. replace (result + Z.of_nat 0 + 1) with (result + 1) in Hhi by lia. lia. }
  cbn [line_info_log2_loop].
  assert (Z.shiftl 2 result = 2 ^ (result + 1)) as ->.
  { rewrite Z.shiftl_mul_pow2, Z.pow_add_r by lia. lia. }
  destruct (Z.leb_spec (2 ^ (result + 1)) value).
  - destruct (IH (result + 1)); [lia|done| |lia].
    replace (result + 1 + Z.of_nat fuel + 1) with (result + Z.of_nat (S fuel) + 1) by lia. done.
  - lia.
Qed.

Lemma line_info_log2_spec value :
  0 < value < 18446744073709551616 ->
  0 <= line_info_log2 value /\
  2 ^ line_info_log2 value <= value < 2 ^ (line_info_log2 value + 1).
Proof.
  intros H. apply (line_info_log2_loop_spec 64 value 0); [lia|simpl; lia|].
  replace (0 + Z.of_nat 64 + 1) with 65 by lia. lia.
Qed.

Lemma line_info_log2_pow2 s : 0 <= s < 64 -> line_info_log2 (2 ^ s) = s.
Proof.
  intros Hs. assert (2 ^ s <= 2 ^ 63) by (apply Z.pow_le_mono_r; lia).
  destruct (line_info_log2_spec (2 ^ s)) as (H0 & Hlo & Hhi).
  { split; [apply Z.pow_pos_nonneg; lia|]. lia. }
  apply Z.pow_le_mono_r_iff in Hlo; [|lia..].
  apply Z.pow_lt_mono_r_iff in Hhi; lia.
Qed.

(** ** Flat spans: lines that fit in one byte above their minimum *)

Definition lines_ok (lines : list Z) : Prop := Forall (fun l => 0 <= l < 2147483648) lines.

Definition flat (lines : list Z) (b n : Z) : Prop :=
  forall i j, b <= i < b + n -> b <= j < b + n -> 0 <= i < len lines -> 0 <= j < len lines ->
    line_at lines i - line_at lines j <= 255.

Lemma flat_sub lines b n b' n' :
  flat lines b n -> b <= b' -> b' + n' <= b + n -> flat lines b' n'.
Proof. intros H Hb Hn i j Hi Hj. apply H; lia. Qed.

Lemma line_at_ok lines i : lines_ok lines -> 0 <= line_at lines i < 2147483648.
Proof.
  intros H. unfold line_at. destruct (zget lines i) as [x|] eqn:E; simpl; [|lia].
  apply zget_Some in E as [_ E]. by eapply Forall_lookup_1 in H.
Qed.

Lemma span_scan_spec fuel lines offset span next mn mx :
  lines_ok lines -> 0 <= offset <= next ->
  next <= len lines -> next <= offset + span ->
  len lines - next <= Z.of_nat fuel ->
  0 <= mn < 2147483648 -> 0 <= mx < 2147483648 -> mx - mn <= 255 ->
  (forall i, offset <= i < next -> mn <= line_at lines i <= mx) ->
  let r := span_scan fuel lines offset span next mn mx in
  next <= r <= len lines /\ r <= offset + span /\ flat lines offset (r - offset) /\
  (next < len lines -> next < offset + span -> mn <= line_at lines next <= mx -> next < r).
Proof.
  intros Hok. revert next mn mx.
  induction fuel as [|fuel IH]; intros next mn mx Ho Hl Hs Hf Hmn Hmx Hd Hin.
  all: assert (flat lines offset (next - offset)) as Hflat
      by (intros i j Hi Hj _ _; pose proof (Hin i ltac:(lia)); pose proof (Hin j ltac:(lia)); lia).
  { cbn. split_and!; [lia|lia|lia|done|lia]. }
  cbn [span_scan]. cbv zeta.
  destruct (Z.ltb_spec next (len lines)); cbn [andb];
    [destruct (Z.ltb_spec next (offset + span))|]; try (split_and!; [lia|lia|lia|done|lia]).
  pose proof (line_at_ok lines next Hok) as Hx. set (x := line_at lines next) in *.
  rewrite (as_i32_small (Z.max mx x - Z.min mn x)) by (unfold is_i32; lia).
  destruct (Z.ltb_spec 255 (Z.max mx x - Z.min mn x)).
  { split_and!; [lia|lia|lia|done|lia]. }
  destruct (IH (next + 1) (Z.min mn x) (Z.max mx x)) as ((? & ?) & ? & ? & _); try lia.
  { intros i Hi. destruct (decide (i = next)) as [->|]; [fold x; lia|].
    pose proof (Hin i ltac:(lia)). lia. }
  split_and!; [lia|lia|lia|done|lia].
Qed.

(** Every aligned block of [2 ^ s] lines that starts below [bound] is flat. *)
Definition blocks_flat (lines : list Z) (s bound : Z) : Prop :=
  forall k, 0 <= k -> k * 2 ^ s < bound -> flat lines (k * 2 ^ s) (2 ^ s).

(** Halving the span refines the blocks. *)
Lemma blocks_flat_refine lines s s' q :
  0 <= s' <= s -> blocks_flat lines s (q * 2 ^ s) -> blocks_flat lines s' (q * 2 ^ s).
Proof.
  intros Hs H k Hk Hb.
  assert (2 ^ s = 2 ^ s' * 2 ^ (s - s')) as Es by (rewrite <- Z.pow_add_r by lia; f_equal; lia).
  assert (0 < 2 ^ s') by (apply Z.pow_pos_nonneg; lia).
  assert (0 < 2 ^ (s - s')) by (apply Z.pow_pos_nonneg; lia).
  pose proof (Z.div_mod k (2 ^ (s - s')) ltac:(lia)) as Ek.
  pose proof (Z.mod_pos_bound k (2 ^ (s - s')) ltac:(lia)) as Bk.
  pose proof (Z.div_pos k (2 ^ (s - s')) Hk ltac:(lia)) as Dk.
  set (kq := k / 2 ^ (s - s')) in *. set (kr := k mod 2 ^ (s - s')) in *.
  set (w := 2 ^ s') in *. set (m := 2 ^ (s - s')) in *.
  apply (flat_sub lines (kq * 2 ^ s) (2 ^ s)).
  - apply H; [done|]. rewrite Es in *. nia.
  - rewrite Es. nia.
  - rewrite Es. nia.
Qed.

Lemma blocks_flat_step lines s q :
  0 <= s -> blocks_flat lines s (q * 2 ^ s) -> flat lines (q * 2 ^ s) (2 ^ s) ->
  blocks_flat lines s ((q + 1) * 2 ^ s).
Proof.
  intros Hs H Hq k Hk Hb. assert (0 < 2 ^ s) by (apply Z.pow_pos_nonneg; lia).
  destruct (Z.lt_trichotomy k q) as [Hlt|[->|Hgt]]; [apply H; nia|done|nia].
Qed.

(** One round of the outer loop keeps the blocks below [offset] flat. *)
Lemma span_round lines q s :
  lines_ok lines -> 0 <= q -> 0 <= s <= 24 -> q * 2 ^ s < len lines ->
  blocks_flat lines s (q * 2 ^ s) ->
  let offset := q * 2 ^ s in
  let next := span_scan (length lines) lines offset (2 ^ s) offset
                (line_at lines offset) (line_at lines offset) in
  let span := if (next <? len lines) && (next - offset <? 2 ^ s)
              then Z.shiftl 1 (line_info_log2 (next - offset)) else 2 ^ s in
  exists s' q', span = 2 ^ s' /\ 0 <= s' <= 24 /\ 0 <= q' /\ offset + span = q' * 2 ^ s' /\
    blocks_flat lines s' (q' * 2 ^ s').
Proof.
  intros Hok Hq Hs Hlt Hflat offset next span.
  assert (0 < 2 ^ s) by (apply Z.pow_pos_nonneg; lia).
  assert (2 ^ s <= 2 ^ 24) as Hs24 by (apply Z.pow_le_mono_r; lia). simpl in Hs24.
  pose proof (line_at_ok lines offset Hok) as Hx.
  assert (0 <= offset) by (unfold offset; nia).
  destruct (span_scan_spec (length lines) lines offset (2 ^ s) offset
    (line_at lines offset) (line_at lines offset)) as (Hn & Hn' & Hf & Hprog);
    try (unfold offset in *; lia); try done; [unfold len; lia|].
  fold next in Hn, Hn', Hf, Hprog.
  specialize (Hprog ltac:(lia) ltac:(lia) ltac:(lia)).
  unfold span.
  destruct (Z.ltb_spec next (len lines)), (Z.ltb_spec (next - offset) (2 ^ s)); cbn [andb];
    [|exists s, (q + 1); split_and!; try done; try lia; try (unfold offset; nia);
      apply blocks_flat_step; [lia|done|]; intros i j Hi Hj Hi' Hj'; apply Hf; lia..].
  destruct (line_info_log2_spec (next - offset)) as (Hl0 & Hlo & Hhi); [lia|].
  set (s' := line_info_log2 (next - offset)) in *.
  assert (s' < s) by (apply (Z.pow_lt_mono_r_iff 2); lia).
  assert (2 ^ s = 2 ^ s' * 2 ^ (s - s')) as Es by (rewrite <- Z.pow_add_r by lia; f_equal; lia).
  rewrite Z.shiftl_mul_pow2, Z.mul_1_l by lia.
  assert (0 < 2 ^ (s - s')) by (apply Z.pow_pos_nonneg; lia).
  assert (offset = (q * 2 ^ (s - s')) * 2 ^ s') as Eo by (unfold offset; rewrite Es; lia).
  exists s', (q * 2 ^ (s - s') + 1). split_and!; try done; try lia.
  apply blocks_flat_step; [lia|rewrite <- Eo; apply (blocks_flat_refine lines s s' q); [lia|done]|].
  rewrite <- Eo. apply (flat_sub _ _ _ _ _ Hf); lia.
Qed.

Lemma span_search_spec fuel lines q s :
  lines_ok lines -> 0 <= q -> 0 <= s <= 24 -> len lines - q * 2 ^ s <= Z.of_nat fuel ->
  blocks_flat lines s (q * 2 ^ s) ->
  exists s', span_search fuel lines (q * 2 ^ s) (2 ^ s) = 2 ^ s' /\ 0 <= s' <= 24 /\
    blocks_flat lines s' (len lines).
Proof.
  intros Hok. revert q s. induction fuel as [|fuel IH]; intros q s Hq Hs Hf Hb.
  { exists s. split_and!; [done|lia|lia|]. intros k Hk Hlt. apply Hb; lia. }
  cbn [span_search]. cbv zeta. destruct (Z.ltb_spec (q * 2 ^ s) (len lines)).
  - destruct (span_round lines q s) as (s' & q' & Es & Hs' & Hq' & Eo & Hb'); try done.
    rewrite Eo, Es. apply IH; try done.
    rewrite <- Eo, Es. assert (0 < 2 ^ s') by (apply Z.pow_pos_nonneg; lia). lia.
  - exists s. split_and!; [done|lia|lia|]. intros k Hk Hlt. apply Hb; lia.
Qed.

(** ** Baselines *)

Lemma foldl_min_spec l x :
  foldl Z.min x l ∈ x :: l /\ forall y, y ∈ x :: l -> foldl Z.min x l <= y.
Proof.
  revert x. induction l as [|z l IH]; intros x; cbn [foldl].
  { split; [apply list_elem_of_here|]. intros y Hy. apply list_elem_of_singleton in Hy. lia. }
  destruct (IH (Z.min x z)) as [Hin Hle]. rewrite !elem_of_cons in *. split.
  - destruct Hin as [->|Hin]; [|by auto].
    destruct (Z.min_spec x z) as [[_ ->]|[_ ->]]; auto.
  - intros y Hy. rewrite !elem_of_cons in Hy. pose proof (Hle (Z.min x z)) as Hm.
    rewrite elem_of_cons in Hm. specialize (Hm (or_introl eq_refl)).
    destruct Hy as [->|[->|Hy]]; [lia|lia|]. apply Hle, elem_of_cons. by right.
Qed.

Lemma chunk_min_spec l :
  l <> [] -> exists m, chunk_min l = Some m /\ m ∈ l /\ forall y, y ∈ l -> m <= y.
Proof.
  destruct l as [|x l]; [done|]. intros _. exists (foldl Z.min x l).
  destruct (foldl_min_spec l x). done.
Qed.

Lemma zget_drop {A} (l : list A) n i : 0 <= i -> zget (drop n l) i = zget l (i + Z.of_nat n).
Proof.
  intros H. unfold zget. destruct (Z.ltb_spec i 0), (Z.ltb_spec (i + Z.of_nat n) 0); try lia.
  rewrite lookup_drop. f_equal. lia.
Qed.

Lemma zget_line_at lines i : 0 <= i < len lines -> zget lines i = Some (line_at lines i).
Proof.
  intros H. apply zget_is_Some in H as [x Hx]. unfold line_at. by rewrite Hx.
Qed.

Lemma zget_elem_of {A} (l : list A) i x : zget l i = Some x -> x ∈ l.
Proof. intros [_ H]%zget_Some. by eapply list_elem_of_lookup_2. Qed.

Lemma elem_of_zget {A} (l : list A) x : x ∈ l -> exists i, 0 <= i < len l /\ zget l i = Some x.
Proof.
  intros [i Hi]%list_elem_of_lookup. exists (Z.of_nat i). rewrite zget_of_nat.
  apply lookup_lt_Some in Hi as Hlt. unfold len. split; [lia|done].
Qed.

(** A baseline is the minimum of its block. *)
Definition block_baseline (lines : list Z) (span k b : Z) : Prop :=
  (forall i, 0 <= i < len lines -> k * span <= i < k * span + span -> b <= line_at lines i) /\
  exists j, 0 <= j < len lines /\ k * span <= j < k * span + span /\ b = line_at lines j.

Lemma chunk_head_baseline lines span :
  0 < span -> lines <> [] ->
  exists b, chunk_min (take (Z.to_nat (Z.min span (len lines))) lines) = Some b /\
    block_baseline lines span 0 b.
Proof.
  intros Hs Hne. set (n := Z.to_nat (Z.min span (len lines))).
  assert (0 < len lines) as Hl by (destruct lines; [done|rewrite len_cons; pose proof (len_nonneg lines); lia]).
  assert (take n lines <> []) as Hn.
  { intros E. apply (f_equal length) in E. rewrite length_take in E. unfold n, len in *. simpl in E. lia. }
  destruct (chunk_min_spec _ Hn) as (b & Hb & Hin & Hle). exists b. split; [done|].
  assert (len (take n lines) = Z.min span (len lines)) as Hlen.
  { unfold len at 1. rewrite length_take. unfold n, len in *. lia. }
  split.
  - intros i Hi Hk. apply Hle, (zget_elem_of _ i). rewrite zget_take_lt by (unfold n; lia).
    apply zget_line_at. lia.
  - apply elem_of_zget in Hin as (j & Hj & Hz). rewrite zget_take_lt in Hz by (unfold n; lia).
    exists j. split_and!; try lia. unfold line_at. by rewrite Hz.
Qed.

Lemma block_baseline_drop lines span k b :
  0 < span -> 0 <= k -> span <= len lines ->
  block_baseline (drop (Z.to_nat span) lines) span k b -> block_baseline lines span (k + 1) b.
Proof.
  intros Hs Hk Hl [Hle (j & Hj & Hjk & ->)].
  assert (len (drop (Z.to_nat span) lines) = len lines - span) as Hlen.
  { unfold len in *. rewrite length_drop. lia. }
  assert (forall i, 0 <= i -> line_at (drop (Z.to_nat span) lines) i = line_at lines (i + span)) as Hat.
  { intros i Hi. unfold line_at. rewrite zget_drop by lia. do 2 f_equal. lia. }
  split.
  - intros i Hi Hik. pose proof (Hle (i - span)) as H. rewrite !Hat in H by nia.
    rewrite !Hat by nia. replace (i - span + span) with i in H by lia. apply H; nia.
  - exists (j + span). rewrite Hat by lia. split_and!; try lia; nia.
Qed.

Lemma len_pos {A} (l : list A) : l <> [] -> 0 < len l.
Proof. destruct l; [done|]. rewrite len_cons. pose proof (len_nonneg l). lia. Qed.

Lemma zget_nil {A} k (x : A) : zget [] k = Some x -> False.
Proof. intros [H _]%zget_Some. unfold len in H. simpl in H. lia. Qed.

Lemma zget_cons_S {A} (x : A) l k : 0 < k -> zget (x :: l) k = zget l (k - 1).
Proof.
  intros H. unfold zget. destruct (Z.ltb_spec k 0), (Z.ltb_spec (k - 1) 0); try lia.
  by replace (Z.to_nat k) with (S (Z.to_nat (k - 1))) by lia.
Qed.

(** Ceiling division counts the chunks. *)
Lemma ceil_div_step n span : 0 < span <= n -> (n + span - 1) / span = (n - span + span - 1) / span + 1.
Proof.
  intros H. replace (n + span - 1) with (n - span + span - 1 + 1 * span) by lia.
  rewrite Z.div_add; lia.
Qed.

Lemma ceil_div_small n span : 0 < n <= span -> (n + span - 1) / span = 1.
Proof. intros H. symmetry. apply (Z.div_unique _ _ _ (n - 1)); lia. Qed.

Lemma chunks_nonempty fuel span lines :
  lines <> [] ->
  chunks (S fuel) span lines =
    take (Z.to_nat (Z.min span (len lines))) lines ::
    chunks fuel span (drop (Z.to_nat (Z.min span (len lines))) lines).
Proof. by destruct lines. Qed.

Lemma chunk_mins_nil span : 0 < span -> len (@nil Z) = (len (@nil Z) + span - 1) / span.
Proof. intros. unfold len. simpl. rewrite Z.div_small; lia. Qed.

Lemma chunk_mins_spec fuel lines span :
  0 < span -> (length lines <= fuel)%nat ->
  exists bs, mapM chunk_min (chunks fuel span lines) = Some bs /\
    len bs = (len lines + span - 1) / span /\
    forall k b, zget bs k = Some b -> block_baseline lines span k b.
Proof.
  intros Hs. revert lines. induction fuel as [|fuel IH]; intros lines Hf.
  { destruct lines; [|simpl in Hf; lia]. exists [].
    split_and!; [done|by apply chunk_mins_nil|by intros ? ? ?%zget_nil]. }
  destruct (decide (lines = [])) as [->|Hne].
  { exists []. split_and!; [done|by apply chunk_mins_nil|by intros ? ? ?%zget_nil]. }
  destruct (chunk_head_baseline lines span Hs Hne) as (b & Hb & Hblock).
  rewrite chunks_nonempty by done. pose proof (len_pos lines Hne) as Hl.
  cbn [mapM]. rewrite Hb. cbn.
  destruct (Z.le_gt_cases (len lines) span) as [Hle|Hgt].
  - rewrite Z.min_r by lia. rewrite drop_ge by (unfold len; lia).
    exists [b]. replace (chunks fuel span []) with (@nil (list Z)) by (by destruct fuel).
    split_and!; [done|by rewrite ceil_div_small by lia|].
    intros k c Hk. apply zget_Some in Hk as Hr. destruct Hr as [Hr _].
    unfold len in Hr. simpl in Hr. assert (k = 0) as -> by lia.
    unfold zget in Hk. simpl in Hk. by injection Hk as <-.
  - rewrite Z.min_l by lia. destruct (IH (drop (Z.to_nat span) lines)) as (bs & Hbs & Hlbs & Hall).
    { rewrite length_drop. unfold len in *. lia. }
    assert (len (drop (Z.to_nat span) lines) = len lines - span) as Hld
      by (unfold len in *; rewrite length_drop; lia).
    exists (b :: bs). rewrite Hbs. cbn. split_and!; [done| |].
    + rewrite len_cons, Hlbs, Hld. rewrite (ceil_div_step (len lines)) by lia. lia.
    + intros k c Hk. apply zget_Some in Hk as Hr. destruct Hr as [Hr _].
      destruct (decide (k = 0)) as [->|].
      { unfold zget in Hk. simpl in Hk. by injection Hk as <-. }
      rewrite zget_cons_S in Hk by lia. apply Hall in Hk.
      replace k with (k - 1 + 1) by lia. apply block_baseline_drop; [done|lia|lia|done].
Qed.

(** ** Packing and unpacking are inverse *)

Lemma unpack_pack_baselines last bs :
  0 <= last < 2147483648 -> lines_ok bs -> unpack_baselines last (pack_baselines last bs) = bs.
Proof.
  intros Hl H. revert last Hl. induction H as [|b bs Hb _ IH]; intros last Hl; [done|].
  cbn. rewrite (as_i32_small (b - last)) by (unfold is_i32; lia).
  replace (last + (b - last)) with b by lia. rewrite as_i32_small by (unfold is_i32; lia).
  by rewrite IH.
Qed.

Lemma length_pack_baselines last bs : length (pack_baselines last bs) = length bs.
Proof. revert last. induction bs; intros; simpl; auto. Qed.

Lemma pack_baselines_i32 last bs : Forall is_i32 (pack_baselines last bs).
Proof. revert last. induction bs; intros; simpl; constructor; auto with ruau. Qed.

(** Each remaining line lies within a byte above the baseline of its block. *)
Definition packable (bs : list Z) (s idx : Z) (lines : list Z) : Prop :=
  forall n line, lines !! n = Some line ->
    exists b, zget bs (Z.shiftr (idx + Z.of_nat n) s) = Some b /\
      0 <= line - b <= 255 /\ 0 <= b < 2147483648 /\ line < 2147483648.

Lemma packable_tail bs s idx line lines :
  packable bs s idx (line :: lines) -> packable bs s (idx + 1) lines.
Proof.
  intros H n x Hn. destruct (H (S n) x Hn) as (b & Hb & Hr). exists b.
  replace (idx + 1 + Z.of_nat n) with (idx + Z.of_nat (S n)) by lia. done.
Qed.

Lemma pack_deltas_spec bs s idx last lines :
  packable bs s idx lines -> is_u8 last ->
  exists ds, pack_deltas bs s idx last lines = Some ds /\ length ds = length lines /\
    Forall is_u8 ds /\ unpack_lines bs s idx last ds = Some lines.
Proof.
  revert idx last. induction lines as [|line lines IH]; intros idx last Hp Hlast.
  { exists []. split_and!; try done. }
  destruct (Hp 0%nat line eq_refl) as (b & Hb & Hr & Hb' & Hl).
  rewrite Z.add_0_r in Hb. cbn [pack_deltas]. rewrite Hb.
  assert (as_u8 (as_i32 (line - b)) = line - b) as ->.
  { rewrite as_i32_small by (unfold is_i32; lia). apply as_u8_small. unfold is_u8. lia. }
  destruct (IH (idx + 1) (line - b)) as (ds & Hds & Hlen & Hu8 & Hun).
  { by eapply packable_tail. } { unfold is_u8. lia. }
  rewrite Hds. eexists. split; [done|]. split; [simpl; lia|].
  split; [constructor; [zcast|done]|].
  cbn [unpack_lines]. rewrite Hb.
  assert (as_u8 (last + as_u8 (line - b - last)) = line - b) as ->.
  { unfold as_u8. rewrite Zplus_mod_idemp_r. replace (last + (line - b - last)) with (line - b) by lia.
    apply Z.mod_small. lia. }
  rewrite Hun. do 2 f_equal. replace (b + (line - b)) with line by lia.
  apply as_i32_small. unfold is_i32. lia.
Qed.

Lemma block_baseline_ok lines span k b :
  lines_ok lines -> block_baseline lines span k b -> 0 <= b < 2147483648.
Proof. intros Hok [_ (j & _ & _ & ->)]. by apply line_at_ok. Qed.

(** The baselines of flat aligned blocks make every line packable. *)
Lemma blocks_packable lines s bs :
  lines_ok lines -> 0 <= s -> blocks_flat lines s (len lines) ->
  len bs = (len lines + 2 ^ s - 1) / 2 ^ s ->
  (forall k b, zget bs k = Some b -> block_baseline lines (2 ^ s) k b) ->
  packable bs s 0 lines.
Proof.
  intros Hok Hs Hflat Hlen Hbs n line Hn. apply lookup_lt_Some in Hn as Hlt.
  assert (0 < 2 ^ s) as Hp by (apply Z.pow_pos_nonneg; lia).
  rewrite Z.add_0_l, Z.shiftr_div_pow2 by lia.
  set (i := Z.of_nat n) in *. assert (0 <= i < len lines) as Hi by (unfold len, i; lia).
  assert (line = line_at lines i) as ->.
  { unfold line_at, i. rewrite zget_of_nat, Hn. done. }
  assert (0 <= i / 2 ^ s < len bs) as Hk.
  { split; [apply Z.div_pos; lia|]. rewrite Hlen. apply Z.div_lt_upper_bound; [lia|].
    pose proof (Z.mul_div_le (len lines + 2 ^ s - 1) (2 ^ s) Hp).
    pose proof (Z.mod_pos_bound (len lines + 2 ^ s - 1) (2 ^ s) Hp).
    pose proof (Z.div_mod (len lines + 2 ^ s - 1) (2 ^ s) ltac:(lia)). lia. }
  apply zget_is_Some in Hk as [b Hb]. exists b. split; [done|].
  pose proof (Hbs _ _ Hb) as Hblock. pose proof (block_baseline_ok _ _ _ _ Hok Hblock).
  destruct Hblock as [Hle (j & Hj & Hjk & Ebj)].
  pose proof (line_at_ok lines i Hok).
  pose proof (Z.mul_div_le i (2 ^ s) Hp). pose proof (Z.mul_succ_div_gt i (2 ^ s) Hp).
  assert (i / 2 ^ s * 2 ^ s <= i < i / 2 ^ s * 2 ^ s + 2 ^ s) as Hik by lia.
  specialize (Hle i Hi Hik).
  assert (flat lines (i / 2 ^ s * 2 ^ s) (2 ^ s)) as Hf.
  { apply Hflat; [apply Z.div_pos; lia|lia]. }
  specialize (Hf i j Hik Hjk Hi Hj). lia.
Qed.

(** The whole packing routine: it returns, its fields have their machine widths, the sizes are
    those the decoder expects, and unpacking gives the lines back. *)
Lemma from_line_numbers_spec lines :
  lines_ok lines -> lines <> [] ->
  exists li, from_line_numbers lines = Some (Some li) /\ to_line_numbers li = Some lines /\
    0 <= log2_span li <= 24 /\ Forall is_u8 (delta_bytes li) /\
    length (delta_bytes li) = length lines /\ Forall is_i32 (baseline_deltas li) /\
    len (baseline_deltas li) = Z.shiftr (len lines - 1) (log2_span li) + 1.
Proof.
  intros Hok Hne. unfold from_line_numbers. rewrite decide_False by done. cbv zeta.
  destruct (span_search_spec (length lines) lines 0 24 Hok) as (s & Es & Hs & Hflat);
    [lia|lia|unfold len; lia|intros k Hk Hlt; simpl in Hlt; lia|].
  rewrite Z.mul_0_l in Es. change (2 ^ 24) with (Z.shiftl 1 24) in Es. rewrite Es.
  rewrite (line_info_log2_pow2 s), (as_u8_small s) by (unfold is_u8; lia).
  assert (0 < 2 ^ s) as Hp by (apply Z.pow_pos_nonneg; lia).
  destruct (chunk_mins_spec (length lines) lines (2 ^ s) Hp ltac:(lia)) as (bs & Hbs & Hlen & Hb).
  rewrite Hbs.
  destruct (pack_deltas_spec bs s 0 0 lines) as (ds & Hds & Hld & Hu8 & Hun);
    [by apply blocks_packable; try lia|unfold is_u8; lia|].
  rewrite Hds. eexists. split; [done|]. unfold to_line_numbers. cbn [log2_span delta_bytes baseline_deltas].
  assert (lines_ok bs) as Hbsok.
  { apply Forall_lookup_2. intros i x Hi. rewrite <- zget_of_nat in Hi.
    by apply Hb, block_baseline_ok in Hi. }
  rewrite unpack_pack_baselines by (done || lia). rewrite (Z.mod_small s 64) by lia.
  split_and!; try done; try lia; [apply pack_baselines_i32|].
  unfold len at 1. rewrite length_pack_baselines. fold (len bs). rewrite Hlen.
  rewrite Z.shiftr_div_pow2 by lia. replace (len lines + 2 ^ s - 1) with (len lines - 1 + 1 * 2 ^ s) by lia.
  rewrite Z.div_add; lia.
Qed.

(** ** Theorems *)

(** Line info round trip: for every non-empty sequence of source lines that
    are non-negative 32-bit integers, [from_line_numbers] returns a record (the span search
    terminates and no index is out of range) and [to_line_numbers] decodes it back to exactly
    the same lines; the empty sequence gives no record. *)
Theorem line_info_roundtrip lines :
  Forall (fun l => 0 <= l < 2147483648) lines ->
  match from_line_numbers lines with
  | Some (Some li) => lines <> [] /\ to_line_numbers li = Some lines
  | Some None => lines = []
  | None => False
  end.
Proof.
  intros Hok. destruct (decide (lines = [])) as [->|Hne]; [done|].
  destruct (from_line_numbers_spec lines Hok Hne) as (li & -> & H & _). done.
Qed.

(** The packed record has the shape the wire format needs: the log span is at
    most 24, there is one delta byte per line, every delta fits in a byte, and the number of
    baselines is the decoder's [((n - 1) >> log2_span) + 1]. *)
Theorem line_info_shape lines li :
  Forall (fun l => 0 <= l < 2147483648) lines -> from_line_numbers lines = Some (Some li) ->
  0 <= log2_span li <= 24 /\ length (delta_bytes li) = length lines /\
  Forall is_u8 (delta_bytes li) /\ Forall is_i32 (baseline_deltas li) /\
  len (baseline_deltas li) = Z.shiftr (len lines - 1) (log2_span li) + 1.
Proof.
  intros Hok H. destruct (decide (lines = [])) as [->|Hne]; [discriminate H|].
  destruct (from_line_numbers_spec lines Hok Hne) as (li' & H' & ?). rewrite H' in H.
  injection H as <-. tauto.
Qed.

Lemma line_info_roundtrip_witness :
  match from_line_numbers [1; 1; 2; 300; 301; 9; 70000] with
  | Some (Some li) => [1; 1; 2; 300; 301; 9; 70000] <> [] /\
      to_line_numbers li = Some [1; 1; 2; 300; 301; 9; 70000]
  | Some None => [1; 1; 2; 300; 301; 9; 70000] = []
  | None => False
  end.
Proof. apply line_info_roundtrip. repeat (constructor; [lia|]). constructor. Defined.

Lemma line_info_shape_witness : len (baseline_deltas (mkLineInfo 1 [0; 0; 0] [5; 295])) = 2.
Proof.
  destruct (line_info_shape [5; 5; 300] (mkLineInfo 1 [0; 0; 0] [5; 295])) as (_ & _ & _ & _ & H);
    [repeat (constructor; [lia|]); constructor|vm_compute; reflexivity|exact H].
Defined.
