(* ===== verification/Codec.v ===== *)
(** * Codec: the bytecode decoder and encoder ([ruau-bytecode/src/codec.rs])

    A [Reader] is the input slice with an offset; a decoding routine is a state
    and error computation over it. A [Writer] is the output vector; an encoding
    routine passes it on. Every routine of the source is one definition here,
    with its error messages. *)

From Stdlib Require Import ZArith Lia.
From stdpp Require Import base numbers list strings.
From S2P Require Import Prelude Opcodes BytecodeTypes.

Definition DecodeError : Set := string.
Definition EncodeError : Set := string.

(** ** Reader *)

Record Reader : Set := mkReader { r_bytes : list Z; r_offset : nat }.

Definition Read (A : Type) : Type := Reader -> result DecodeError (A * Reader).

Definition read_ret {A} (x : A) : Read A := fun r => Ok (x, r).

Definition read_fail {A} (e : DecodeError) : Read A := fun _ => Err e.

Definition read_bind {A B} (m : Read A) (f : A -> Read B) : Read B :=
  fun r => match m r with
           | Ok (x, r') => f x r'
           | Err e => Err e
           end.

Notation "'let!' x := m 'in' k" := (read_bind m (fun x => k))
  (at level 10, x pattern, m at level 100, k at level 200) : ruau_scope.

(** [for _ in 0..count { v.push(p) }] *)
Fixpoint read_times {A} (n : nat) (p : Read A) : Read (list A) :=
  match n with
  | O => read_ret []
  | S n' =>
      let! x := p in
      let! xs := read_times n' p in
      read_ret (x :: xs)
  end.

(** [for index in start..start + count], the index passed to the body. *)
Fixpoint read_indexed {A} (n : nat) (index : Z) (p : Z -> Read A) : Read (list A) :=
  match n with
  | O => read_ret []
  | S n' =>
      let! x := p index in
      let! xs := read_indexed n' (index + 1) p in
      read_ret (x :: xs)
  end.

Definition reader_new (bytes : list Z) : Reader := mkReader bytes 0.

Definition is_eof (r : Reader) : bool := Nat.eqb (r_offset r) (length (r_bytes r)).

Definition remaining (r : Reader) : Z := len (r_bytes r) - Z.of_nat (r_offset r).

(** Pre-allocation capacity for [count] elements. *)
Definition reader_cap (r : Reader) (count : Z) : Z := Z.min count (remaining r).

Definition reader_bytes (n : Z) (label : string) : Read (list Z) := fun r =>
  if remaining r <? n then
    Err ("unexpected end while reading " +:+ label +:+ ": need " +:+ show n +:+
         " byte(s), have " +:+ show (remaining r))
  else
    let start := r_offset r in
    let offset := (start + Z.to_nat n)%nat in
    Ok (take (Z.to_nat n) (drop start (r_bytes r)), mkReader (r_bytes r) offset).

Definition reader_u8 (label : string) : Read Z :=
  let! bs := reader_bytes 1 label in
  read_ret (default 0 (head bs)).

Definition reader_u32 (label : string) : Read Z :=
  let! bs := reader_bytes 4 label in
  read_ret (from_le_bytes bs).

Definition reader_i32 (label : string) : Read Z :=
  let! bs := reader_bytes 4 label in
  read_ret (as_i32 (from_le_bytes bs)).

Definition reader_u64 (label : string) : Read Z :=
  let! bs := reader_bytes 8 label in
  read_ret (from_le_bytes bs).

Definition VARINT_PAYLOAD_MASK : Z := 127.
Definition VARINT_CONTINUATION_BIT : Z := 128.

(** The [loop] of [var_u64]: at the eleventh round [shift] is 70 and the bound
    check fails, so eleven rounds are all there is. *)
Fixpoint var_u64_loop (fuel : nat) (label : string) (result shift : Z) : Read Z :=
  match fuel with
  | O => read_fail (label +:+ " varint is too large")
  | S fuel' =>
      if 64 <=? shift then read_fail (label +:+ " varint is too large")
      else
        let! byte := reader_u8 label in
        let result := Z.lor result (as_u64 (Z.shiftl (Z.land byte VARINT_PAYLOAD_MASK) shift)) in
        if Z.land byte VARINT_CONTINUATION_BIT =? 0 then read_ret result
        else var_u64_loop fuel' label result (shift + 7)
  end.

Definition reader_var_u64 (label : string) : Read Z := var_u64_loop 11 label 0 0.

Definition reader_var_u32 (label : string) : Read Z :=
  let! value := reader_var_u64 label in
  match u32_try_from value with
  | Some v => read_ret v
  | None => read_fail (label +:+ " varint " +:+ show value +:+ " overflows u32")
  end.

(** A length-prefixed vector: a count and that many elements. *)
Definition read_vec {A} (count_label : string) (p : Read A) : Read (list A) :=
  let! count := reader_var_u32 count_label in
  read_times (Z.to_nat count) p.

(** ** Decoder *)

Definition decode_string_table : Read (list (list Z)) :=
  let! count := reader_var_u32 "string count" in
  read_indexed (Z.to_nat count) 0 (fun index =>
    let! n := reader_var_u32 "string length" in
    reader_bytes n ("string table entry " +:+ show (index + 1))).

Definition decode_type_info : Read TypeInfo :=
  let! size := reader_var_u32 "type info size" in
  let! raw := reader_bytes size "type info payload" in
  read_ret (mkTypeInfo raw).

Definition decode_class_shape : Read ClassShape :=
  let! class_name := reader_var_u32 "class name" in
  let! property_count := reader_var_u32 "class property count" in
  let! method_count := reader_var_u32 "class method count" in
  let! property_names :=
    read_times (Z.to_nat property_count) (reader_var_u32 "class property name") in
  let! method_names :=
    read_times (Z.to_nat method_count) (reader_var_u32 "class method name") in
  read_ret (mkClassShape class_name property_names method_names).

(** [for bit in &mut bits { *bit = reader.. }] over a four-element array. *)
Definition read_four {A} (p : Read A) : Read (A * A * A * A) :=
  let! x := p in
  let! y := p in
  let! z := p in
  let! w := p in
  read_ret (x, y, z, w).

Definition decode_table_entry : Read TableEntry :=
  let! key := reader_var_u32 "table entry key" in
  let! value := reader_i32 "table entry value" in
  read_ret (mkTableEntry key value).

(** The sign-magnitude reading of an integer constant: [!m + 1] wraps in [u64]. *)
Definition integer_of_wire (negative : bool) (magnitude : Z) : Z :=
  if negative then as_i64 (as_u64 (as_u64 (Z.lnot magnitude) + 1)) else as_i64 magnitude.

Definition decode_constant : Read Constant :=
  let! tag_value := reader_u8 "constant tag" in
  match constant_tag_from_byte tag_value with
  | None => read_fail "unknown constant tag"
  | Some tag =>
      match tag with
      | Tag.Nil => read_ret Const.Nil
      | Tag.Boolean =>
          let! v := reader_u8 "boolean constant" in
          read_ret (Const.Boolean (negb (v =? 0)))
      | Tag.Number =>
          let! bits := reader_u64 "number constant" in
          read_ret (Const.Number bits)
      | Tag.String =>
          let! s := reader_var_u32 "string constant id" in
          read_ret (Const.String s)
      | Tag.Import =>
          let! import_id := reader_u32 "import id" in
          read_ret (Const.Import import_id)
      | Tag.Table =>
          let! keys := read_vec "table key count" (reader_var_u32 "table key") in
          read_ret (Const.Table keys)
      | Tag.Closure =>
          let! proto := reader_var_u32 "closure proto id" in
          read_ret (Const.Closure proto)
      | Tag.Vector =>
          let! bits := read_four (reader_u32 "vector component") in
          read_ret (Const.Vector bits)
      | Tag.TableWithConstants =>
          let! entries := read_vec "table entry count" decode_table_entry in
          read_ret (Const.TableWithConstants entries)
      | Tag.Integer =>
          let! sign := reader_u8 "integer sign" in
          let! magnitude := reader_var_u64 "integer magnitude" in
          read_ret (Const.Integer (integer_of_wire (negb (sign =? 0)) magnitude))
      | Tag.ClassShape =>
          let! shape := decode_class_shape in
          read_ret (Const.ClassShapeC shape)
      | Tag.VectorDouble =>
          let! bits := read_four (reader_u64 "double vector component") in
          read_ret (Const.VectorDouble bits)
      end
  end.

Definition line_info_intervals (instruction_words log2_span : Z) : Z :=
  Z.shiftr (u32_saturating_sub instruction_words 1) log2_span + 1.

Definition decode_line_info (instruction_words : Z) : Read LineInfo :=
  let! log2_span := reader_u8 "line info log span" in
  if 32 <=? log2_span then
    read_fail ("line info log span " +:+ show log2_span +:+ " out of range (must be < 32)")
  else
    let! delta_bytes := read_times (Z.to_nat instruction_words) (reader_u8 "line info delta") in
    let! baseline_deltas :=
      read_times (Z.to_nat (line_info_intervals instruction_words log2_span))
        (reader_i32 "line info baseline") in
    read_ret (mkLineInfo log2_span delta_bytes baseline_deltas).

Definition decode_debug_local : Read DebugLocal :=
  let! name := reader_var_u32 "debug local name" in
  let! start_pc := reader_var_u32 "debug local start pc" in
  let! end_pc := reader_var_u32 "debug local end pc" in
  let! register := reader_u8 "debug local register" in
  read_ret (mkDebugLocal name start_pc end_pc register).

Definition decode_debug_info : Read DebugInfo :=
  let! locals := read_vec "debug local count" decode_debug_local in
  let! upvalues := read_vec "debug upvalue count" (reader_var_u32 "debug upvalue name") in
  read_ret (mkDebugInfo locals upvalues).

Definition has_extended_proto_layout (version : Z) : bool := 12 <=? version.

(** The [while word_index < code_words] loop. Every round consumes at least four
    bytes, so a fuel above the input length never runs out ([decode_code_fuel]).
    [word_index] is a [u32] and wraps. *)
Fixpoint decode_code (fuel : nat) (code_words word_index : Z) : Read (list Instruction) :=
  match fuel with
  | O => read_fail "code loop bound"
  | S fuel' =>
      if word_index <? code_words then
        let! header := reader_u32 "instruction header" in
        let word_index := as_u32 (word_index + 1) in
        match from_byte (as_u8 (Z.land header 255)) with
        | None =>
            read_fail ("unknown opcode " +:+ show (Z.land header 255) +:+ " at word " +:+
                       show (as_u32 (word_index - 1)))
        | Some opcode =>
            let aux_count := instruction_len opcode - 1 in
            if code_words <? as_u32 (word_index + aux_count) then
              read_fail (opcode_debug opcode +:+ " at word " +:+ show (as_u32 (word_index - 1)) +:+
                         " requires " +:+ show aux_count +:+ " AUX word(s), past code size " +:+
                         show code_words)
            else
              let push (word_index : Z) (aux : option Z) :=
                match from_words header aux with
                | None => read_fail "opcode disappeared during decode"
                | Some instruction =>
                    let! rest := decode_code fuel' code_words word_index in
                    read_ret (instruction :: rest)
                end in
              if aux_count =? 1 then
                let! aux := reader_u32 "instruction aux" in
                push (as_u32 (word_index + 1)) (Some aux)
              else push word_index None
        end
      else read_ret []
  end.

Definition decode_feedback_slot : Read FeedbackSlot :=
  let! kind_byte := reader_u8 "feedback slot type" in
  match feedback_type_from_byte kind_byte with
  | None => read_fail "unknown feedback slot type"
  | Some kind =>
      let! pc := reader_var_u32 "feedback slot pc" in
      read_ret (mkFeedbackSlot kind pc)
  end.

(** [if flag != 0 { Some(p) } else { None }] after reading the flag byte. *)
Definition read_option {A} (flag_label : string) (p : Read A) : Read (option A) :=
  let! flag := reader_u8 flag_label in
  if flag =? 0 then read_ret None
  else let! x := p in read_ret (Some x).

Definition decode_proto (version : Z) : Read Proto :=
  let! max_stack_size := reader_u8 "proto max stack size" in
  let! num_params := reader_u8 "proto parameter count" in
  let! num_upvalues := reader_u8 "proto upvalue count" in
  let! is_vararg := reader_u8 "proto vararg flag" in
  let! flags := reader_u8 "proto flags" in
  let! type_info := decode_type_info in
  let! code_words := reader_var_u32 "instruction word count" in
  let! code := (fun r => decode_code (S (length (r_bytes r))) code_words 0 r) in
  let! constants := read_vec "constant count" decode_constant in
  let! child_protos := read_vec "child proto count" (reader_var_u32 "child proto id") in
  let! line_defined := reader_var_u32 "line defined" in
  let! debug_name := reader_var_u32 "debug name" in
  let! line_info := read_option "line info flag" (decode_line_info code_words) in
  let! debug_info := read_option "debug info flag" decode_debug_info in
  let! feedback_slots :=
    (if 11 <=? version then read_vec "feedback slot count" decode_feedback_slot
     else read_ret []) in
  let! cost :=
    (if has_extended_proto_layout version && negb (Z.land flags ProtoFlag_INLINABLE =? 0)
     then let! c := reader_var_u64 "proto cost" in read_ret (Some c)
     else read_ret None) in
  read_ret (mkProto max_stack_size num_params num_upvalues is_vararg flags type_info code
              constants child_protos line_defined debug_name line_info debug_info
              feedback_slots cost).

(** The payload of an extended-layout proto is decoded by a reader of its own. *)
Definition decode_one_proto (version proto_index : Z) : Read Proto :=
  if negb (has_extended_proto_layout version) then decode_proto version
  else
    let! size := reader_var_u32 "proto payload size" in
    let! payload := reader_bytes size "proto payload" in
    fun r =>
      match decode_proto version (reader_new payload) with
      | Err e => Err e
      | Ok (proto, proto_reader) =>
          if negb (is_eof proto_reader) then
            Err ("proto " +:+ show proto_index +:+ " has " +:+ show (remaining proto_reader) +:+
                 " trailing byte(s) inside its payload")
          else Ok (proto, r)
      end.

(** The userdata mapping [loop]; every round consumes at least two bytes, so a
    fuel above the remaining input never runs out ([decode_mappings_fuel]). *)
Fixpoint decode_mappings (fuel : nat) : Read (list UserdataTypeMapping) :=
  match fuel with
  | O => read_fail "mapping loop bound"
  | S fuel' =>
      let! type_index := reader_u8 "userdata type mapping index" in
      if type_index =? 0 then read_ret []
      else
        let! name := reader_var_u32 "userdata type name" in
        let! rest := decode_mappings fuel' in
        read_ret (mkUserdataTypeMapping type_index name :: rest)
  end.

(** The body of a valid chunk, after the two version bytes. *)
Definition decode_valid_body (version type_version : Z) : Read ValidChunk :=
  let! strings := decode_string_table in
  let! userdata_type_mappings := (fun r => decode_mappings (S (length (r_bytes r))) r) in
  let! proto_count := reader_var_u32 "proto count" in
  let! protos := read_indexed (Z.to_nat proto_count) 0 (decode_one_proto version) in
  let! main_proto := reader_var_u32 "main proto id" in
  read_ret (mkValidChunk version type_version strings userdata_type_mappings protos main_proto).

Definition decode_chunk_with_policy (bytes : list Z) (version_policy : BytecodeVersionPolicy)
    : result DecodeError BytecodeChunk :=
  let? (version, reader) := reader_u8 "bytecode version" (reader_new bytes) in
  if version =? 0 then Ok (Error (drop 1 bytes))
  else if negb (accepts version_policy version) then
    Err (unsupported_version_message version_policy version)
  else
    let? (type_version, reader) := reader_u8 "type encoding version" reader in
    if negb ((1 <=? type_version) && (type_version <=? 3)) then
      Err ("unsupported bytecode type encoding version " +:+ show type_version)
    else
      let? (chunk, reader) := decode_valid_body version type_version reader in
      if negb (is_eof reader) then
        Err ("trailing " +:+ show (remaining reader) +:+ " byte(s) after main proto")
      else Ok (Valid chunk).

Definition decode_chunk (bytes : list Z) : result DecodeError BytecodeChunk :=
  decode_chunk_with_policy bytes Public.

Definition decode_upstream_fixture_chunk (bytes : list Z) : result DecodeError BytecodeChunk :=
  decode_chunk_with_policy bytes UpstreamFixture.

(** ** Writer *)

Record Writer : Set := mkWriter { w_bytes : list Z }.

Definition writer_default : Writer := mkWriter [].

Definition writer_bytes (bytes : list Z) (w : Writer) : Writer := mkWriter (w_bytes w ++ bytes).
Definition writer_u8 (value : Z) (w : Writer) : Writer := mkWriter (w_bytes w ++ [value]).
Definition writer_u32 (value : Z) (w : Writer) : Writer :=
  mkWriter (w_bytes w ++ le_bytes 4 value).
Definition writer_i32 (value : Z) (w : Writer) : Writer :=
  mkWriter (w_bytes w ++ le_bytes 4 value).
Definition writer_u64 (value : Z) (w : Writer) : Writer :=
  mkWriter (w_bytes w ++ le_bytes 8 value).

(** The [loop] of [write_varint]; a [u64] has at most ten groups of seven bits. *)
Fixpoint write_varint_loop (fuel : nat) (bytes : list Z) (value : Z) : list Z :=
  match fuel with
  | O => bytes
  | S fuel' =>
      let byte :=
        Z.lor (as_u8 (Z.land value VARINT_PAYLOAD_MASK))
              (as_u8 (Z.shiftl (if VARINT_PAYLOAD_MASK <? value then 1 else 0) 7)) in
      let bytes := bytes ++ [byte] in
      let value := Z.shiftr value 7 in
      if value =? 0 then bytes else write_varint_loop fuel' bytes value
  end.

Definition write_varint (bytes : list Z) (value : Z) : list Z := write_varint_loop 10 bytes value.

Definition writer_var_u64 (value : Z) (w : Writer) : Writer :=
  mkWriter (write_varint (w_bytes w) value).

(** [for x in xs { f(x) }] on the writer. *)
Definition write_each {A} (f : A -> Writer -> Writer) (xs : list A) (w : Writer) : Writer :=
  foldl (fun w x => f x w) w xs.

Notation "w '|>' f" := (f w) (at level 51, left associativity, only parsing) : ruau_scope.

(** ** Encoder *)

(** Sign flag and magnitude of an [i64]; [!v + 1] wraps in [u64]. *)
Definition encode_integer (value : Z) (w : Writer) : Writer :=
  if value <? 0
  then w |> writer_u8 1 |> writer_var_u64 (as_u64 (as_u64 (Z.lnot (as_u64 value)) + 1))
  else w |> writer_u8 0 |> writer_var_u64 (as_u64 value).

Definition encode_constant (constant : Constant) (w : Writer) : Writer :=
  match constant with
  | Const.Nil => w |> writer_u8 (tag_byte Tag.Nil)
  | Const.Boolean value =>
      w |> writer_u8 (tag_byte Tag.Boolean) |> writer_u8 (if value then 1 else 0)
  | Const.Number bits => w |> writer_u8 (tag_byte Tag.Number) |> writer_u64 bits
  | Const.String s => w |> writer_u8 (tag_byte Tag.String) |> writer_var_u64 s
  | Const.Import import_id => w |> writer_u8 (tag_byte Tag.Import) |> writer_u32 import_id
  | Const.Table keys =>
      w |> writer_u8 (tag_byte Tag.Table) |> writer_var_u64 (len keys)
        |> write_each writer_var_u64 keys
  | Const.Closure proto => w |> writer_u8 (tag_byte Tag.Closure) |> writer_var_u64 proto
  | Const.Vector (x, y, z, v) =>
      w |> writer_u8 (tag_byte Tag.Vector) |> write_each writer_u32 [x; y; z; v]
  | Const.VectorDouble (x, y, z, v) =>
      w |> writer_u8 (tag_byte Tag.VectorDouble) |> write_each writer_u64 [x; y; z; v]
  | Const.TableWithConstants entries =>
      w |> writer_u8 (tag_byte Tag.TableWithConstants) |> writer_var_u64 (len entries)
        |> write_each (fun entry w => w |> writer_var_u64 (te_key entry)
                                        |> writer_i32 (te_value entry)) entries
  | Const.Integer value => w |> writer_u8 (tag_byte Tag.Integer) |> encode_integer value
  | Const.ClassShapeC shape =>
      w |> writer_u8 (tag_byte Tag.ClassShape)
        |> writer_var_u64 (cs_class_name shape)
        |> writer_var_u64 (len (cs_property_names shape))
        |> writer_var_u64 (len (cs_method_names shape))
        |> write_each writer_var_u64 (cs_property_names shape)
        |> write_each writer_var_u64 (cs_method_names shape)
  end.

(** The instruction loop of [encode_proto]. *)
Fixpoint encode_code (proto_index instruction_index : Z) (code : list Instruction) (w : Writer)
    : result EncodeError Writer :=
  match code with
  | [] => Ok w
  | instruction :: code' =>
      if negb (is_header_consistent instruction) then
        Err ("proto " +:+ show proto_index +:+ " instruction " +:+ show instruction_index +:+
             ": decoded operand fields do not match the encoded header word 0x" +:+
             hex 8 (ins_header instruction))
      else
        let w := w |> writer_u32 (ins_header instruction) in
        let w := match ins_aux instruction with
                 | Some aux => w |> writer_u32 aux
                 | None => w
                 end in
        encode_code proto_index (instruction_index + 1) code' w
  end.

Definition encode_line_info (line_info : option LineInfo) (w : Writer) : Writer :=
  match line_info with
  | Some li =>
      w |> writer_u8 1 |> writer_u8 (log2_span li) |> writer_bytes (delta_bytes li)
        |> write_each writer_i32 (baseline_deltas li)
  | None => w |> writer_u8 0
  end.

Definition encode_debug_local (local : DebugLocal) (w : Writer) : Writer :=
  w |> writer_var_u64 (dl_name local) |> writer_var_u64 (dl_start_pc local)
    |> writer_var_u64 (dl_end_pc local) |> writer_u8 (dl_register local).

Definition encode_debug_info (debug_info : option DebugInfo) (w : Writer) : Writer :=
  match debug_info with
  | Some di =>
      w |> writer_u8 1 |> writer_var_u64 (len (di_locals di))
        |> write_each encode_debug_local (di_locals di)
        |> writer_var_u64 (len (di_upvalues di))
        |> write_each writer_var_u64 (di_upvalues di)
  | None => w |> writer_u8 0
  end.

Definition encode_feedback_slots (version : Z) (slots : list FeedbackSlot) (w : Writer) : Writer :=
  if 11 <=? version then
    w |> writer_var_u64 (len slots)
      |> write_each (fun slot w => w |> writer_u8 (feedback_type_byte (fs_kind slot))
                                     |> writer_var_u64 (fs_pc slot)) slots
  else w.

Definition encode_proto (w : Writer) (version proto_index : Z) (proto : Proto)
    : result EncodeError Writer :=
  let w := w |> writer_u8 (max_stack_size proto) |> writer_u8 (num_params proto)
             |> writer_u8 (num_upvalues proto) |> writer_u8 (is_vararg proto)
             |> writer_u8 (flags proto)
             |> writer_var_u64 (len (ti_raw (type_info proto)))
             |> writer_bytes (ti_raw (type_info proto))
             |> writer_var_u64 (code_word_count (code proto)) in
  let? w := encode_code proto_index 0 (code proto) w in
  let w := w |> writer_var_u64 (len (constants proto))
             |> write_each encode_constant (constants proto)
             |> writer_var_u64 (len (child_protos proto))
             |> write_each writer_var_u64 (child_protos proto)
             |> writer_var_u64 (line_defined proto)
             |> writer_var_u64 (debug_name proto)
             |> encode_line_info (line_info proto)
             |> encode_debug_info (debug_info proto)
             |> encode_feedback_slots version (feedback_slots proto) in
  if has_extended_proto_layout version && negb (Z.land (flags proto) ProtoFlag_INLINABLE =? 0)
  then
    match cost proto with
    | None =>
        Err ("proto " +:+ show proto_index +:+ " is inlinable but has no extended-layout cost")
    | Some c => Ok (w |> writer_var_u64 c)
    end
  else Ok w.

(** The [for (proto_index, proto) in protos.iter().enumerate()] loop. *)
Fixpoint encode_protos (version proto_index : Z) (protos : list Proto) (w : Writer)
    : result EncodeError Writer :=
  match protos with
  | [] => Ok w
  | proto :: protos' =>
      let? w :=
        (if has_extended_proto_layout version then
           let? proto_writer := encode_proto writer_default version proto_index proto in
           Ok (w |> writer_var_u64 (len (w_bytes proto_writer))
                 |> writer_bytes (w_bytes proto_writer))
         else encode_proto w version proto_index proto) in
      encode_protos version (proto_index + 1) protos' w
  end.

Definition encode_chunk_with_policy (chunk : BytecodeChunk)
    (version_policy : BytecodeVersionPolicy) : result EncodeError (list Z) :=
  match chunk with
  | Error message => Ok (w_bytes (writer_default |> writer_u8 0 |> writer_bytes message))
  | Valid c =>
      if negb (accepts version_policy (bytecode_version c)) then
        Err (unsupported_version_message version_policy (bytecode_version c))
      else
        let w := writer_default
          |> writer_u8 (bytecode_version c) |> writer_u8 (type_version c)
          |> writer_var_u64 (len (strings c))
          |> write_each (fun s w => w |> writer_var_u64 (len s) |> writer_bytes s) (strings c)
          |> write_each (fun m w => w |> writer_u8 (um_type_index m)
                                      |> writer_var_u64 (um_name m)) (userdata_type_mappings c)
          |> writer_u8 0
          |> writer_var_u64 (len (protos c)) in
        let? w := encode_protos (bytecode_version c) 0 (protos c) w in
        Ok (w_bytes (w |> writer_var_u64 (main_proto c)))
  end.

Definition encode_chunk (chunk : BytecodeChunk) : result EncodeError (list Z) :=
  encode_chunk_with_policy chunk Public.

Definition encode_upstream_fixture_chunk (chunk : BytecodeChunk) : result EncodeError (list Z) :=
  encode_chunk_with_policy chunk UpstreamFixture.
