(* ===== verification/WireFormat.v ===== *)
(** * WireFormat: the abstract wire grammar and the codec's refinement of it

    [wire_*] gives the byte string of every piece of a chunk as a pure function;
    [wf_*] says which values the format can represent. The encoder is shown to
    append exactly these bytes, and the decoder to consume exactly these bytes
    and return the value: the [WireFormat] interface states both laws for a
    type, and its instances are combined upwards to chunks in [CodecFacts]. *)

From Stdlib Require Import ZArith Lia.
From stdpp Require Import base numbers list strings.
From S2P Require Import Prelude Opcodes BytecodeTypes Codec.

(** ** Parsing a known byte string *)

(** [p] reads exactly [bs], wherever it stands in the input, and returns [x]. *)
Definition Parses {A} (p : Read A) (bs : list Z) (x : A) : Prop :=
  forall pre post,
    p (mkReader (pre ++ bs ++ post) (length pre)) =
    Ok (x, mkReader (pre ++ bs ++ post) (length pre + length bs)).

(** [f] appends exactly [bs] to the writer. *)
Definition Appends (f : Writer -> Writer) (bs : list Z) : Prop :=
  forall w, f w = mkWriter (w_bytes w ++ bs).

(** What one wire type promises to the types built from it. *)
Create HintDb wire.

Class WireFormat (A : Type) (dec : Read A) (enc : A -> Writer -> Writer) := {
  wire : A -> list Z;
  wf : A -> Prop;
  wire_parses : forall x, wf x -> Parses dec (wire x) x;
  wire_appends : forall x, Appends (enc x) (wire x);
  wire_nonempty : forall x, wire x <> []
}.

(** ** The grammar *)

Definition wire_var (v : Z) : list Z := write_varint [] v.

Definition wire_vec {A} (f : A -> list Z) (xs : list A) : list Z :=
  wire_var (len xs) ++ concat (map f xs).

Definition wire_entry (e : TableEntry) : list Z := wire_var (te_key e) ++ le_bytes 4 (te_value e).

Definition wire_shape (s : ClassShape) : list Z :=
  wire_var (cs_class_name s) ++ wire_var (len (cs_property_names s)) ++
  wire_var (len (cs_method_names s)) ++ concat (map wire_var (cs_property_names s)) ++
  concat (map wire_var (cs_method_names s)).

Definition wire_four (f : Z -> list Z) (v : Z * Z * Z * Z) : list Z :=
  let '(x, y, z, w) := v in f x ++ f y ++ f z ++ f w.

Definition wire_integer (v : Z) : list Z :=
  if v <? 0 then 1 :: wire_var (- v) else 0 :: wire_var v.

Definition wire_constant (c : Constant) : list Z :=
  match c with
  | Const.Nil => [tag_byte Tag.Nil]
  | Const.Boolean b => [tag_byte Tag.Boolean; if b then 1 else 0]
  | Const.Number bits => tag_byte Tag.Number :: le_bytes 8 bits
  | Const.String s => tag_byte Tag.String :: wire_var s
  | Const.Import i => tag_byte Tag.Import :: le_bytes 4 i
  | Const.Table keys => tag_byte Tag.Table :: wire_vec wire_var keys
  | Const.Closure p => tag_byte Tag.Closure :: wire_var p
  | Const.Vector v => tag_byte Tag.Vector :: wire_four (le_bytes 4) v
  | Const.VectorDouble v => tag_byte Tag.VectorDouble :: wire_four (le_bytes 8) v
  | Const.TableWithConstants es => tag_byte Tag.TableWithConstants :: wire_vec wire_entry es
  | Const.Integer v => tag_byte Tag.Integer :: wire_integer v
  | Const.ClassShapeC s => tag_byte Tag.ClassShape :: wire_shape s
  end.

Definition wire_instruction (i : Instruction) : list Z :=
  le_bytes 4 (ins_header i) ++
  match ins_aux i with Some aux => le_bytes 4 aux | None => [] end.

Definition wire_option {A} (f : A -> list Z) (o : option A) : list Z :=
  match o with Some x => 1 :: f x | None => [0] end.

Definition wire_line_info (li : LineInfo) : list Z :=
  [log2_span li] ++ delta_bytes li ++ concat (map (le_bytes 4) (baseline_deltas li)).

Definition wire_debug_local (l : DebugLocal) : list Z :=
  wire_var (dl_name l) ++ wire_var (dl_start_pc l) ++ wire_var (dl_end_pc l) ++ [dl_register l].

Definition wire_debug_info (d : DebugInfo) : list Z :=
  wire_vec wire_debug_local (di_locals d) ++ wire_vec wire_var (di_upvalues d).

Definition wire_slot (s : FeedbackSlot) : list Z :=
  [feedback_type_byte (fs_kind s)] ++ wire_var (fs_pc s).

Definition inlinable (p : Proto) : bool := negb (Z.land (flags p) ProtoFlag_INLINABLE =? 0).

Definition wire_cost (version : Z) (p : Proto) : list Z :=
  if has_extended_proto_layout version && inlinable p
  then match cost p with Some c => wire_var c | None => [] end else [].

Definition wire_proto (version : Z) (p : Proto) : list Z :=
  [max_stack_size p] ++ [num_params p] ++ [num_upvalues p] ++ [is_vararg p] ++ [flags p] ++
  (wire_var (len (ti_raw (type_info p))) ++ ti_raw (type_info p)) ++
  wire_var (code_word_count (code p)) ++ concat (map wire_instruction (code p)) ++
  wire_vec wire_constant (constants p) ++ wire_vec wire_var (child_protos p) ++
  wire_var (line_defined p) ++ wire_var (debug_name p) ++
  wire_option wire_line_info (line_info p) ++ wire_option wire_debug_info (debug_info p) ++
  (if 11 <=? version then wire_vec wire_slot (feedback_slots p) else []) ++
  wire_cost version p.

Definition wire_one_proto (version : Z) (p : Proto) : list Z :=
  if has_extended_proto_layout version
  then wire_var (len (wire_proto version p)) ++ wire_proto version p
  else wire_proto version p.

Definition wire_string (s : list Z) : list Z := wire_var (len s) ++ s.

Definition wire_mapping (m : UserdataTypeMapping) : list Z :=
  [um_type_index m] ++ wire_var (um_name m).

Definition wire_chunk (c : BytecodeChunk) : list Z :=
  match c with
  | Error message => [0] ++ message
  | Valid c =>
      [bytecode_version c] ++ [type_version c] ++
      wire_vec wire_string (strings c) ++
      (concat (map wire_mapping (userdata_type_mappings c)) ++ [0]) ++
      wire_vec (wire_one_proto (bytecode_version c)) (protos c) ++
      wire_var (main_proto c)
  end.

#[global] Arguments wire_var : simpl never.

(** ** Representable values *)

Definition wf_vec {A} (P : A -> Prop) (xs : list A) : Prop := is_u32 (len xs) /\ Forall P xs.

Definition wf_entry (e : TableEntry) : Prop := is_u32 (te_key e) /\ is_i32 (te_value e).

Definition wf_shape (s : ClassShape) : Prop :=
  is_u32 (cs_class_name s) /\ wf_vec is_u32 (cs_property_names s) /\
  wf_vec is_u32 (cs_method_names s).

Definition wf_four (P : Z -> Prop) (v : Z * Z * Z * Z) : Prop :=
  let '(x, y, z, w) := v in P x /\ P y /\ P z /\ P w.

Definition wf_constant (c : Constant) : Prop :=
  match c with
  | Const.Nil | Const.Boolean _ => True
  | Const.Number bits => is_u64 bits
  | Const.String s => is_u32 s
  | Const.Import i => is_u32 i
  | Const.Table keys => wf_vec is_u32 keys
  | Const.Closure p => is_u32 p
  | Const.Vector v => wf_four is_u32 v
  | Const.VectorDouble v => wf_four is_u64 v
  | Const.TableWithConstants es => wf_vec wf_entry es
  | Const.Integer v => is_i64 v
  | Const.ClassShapeC s => wf_shape s
  end.

Definition wf_instruction (i : Instruction) : Prop :=
  consistent i /\ aux_arity_ok i /\ is_u32 (ins_header i) /\
  match ins_aux i with Some aux => is_u32 aux | None => True end.

Definition wf_option {A} (P : A -> Prop) (o : option A) : Prop :=
  match o with Some x => P x | None => True end.

Definition wf_line_info (words : Z) (li : LineInfo) : Prop :=
  0 <= log2_span li < 32 /\ len (delta_bytes li) = words /\ Forall is_u8 (delta_bytes li) /\
  len (baseline_deltas li) = line_info_intervals words (log2_span li) /\
  Forall is_i32 (baseline_deltas li).

Definition wf_debug_local (l : DebugLocal) : Prop :=
  is_u32 (dl_name l) /\ is_u32 (dl_start_pc l) /\ is_u32 (dl_end_pc l) /\ is_u8 (dl_register l).

Definition wf_debug_info (d : DebugInfo) : Prop :=
  wf_vec wf_debug_local (di_locals d) /\ wf_vec is_u32 (di_upvalues d).

Definition wf_slot (s : FeedbackSlot) : Prop := is_u32 (fs_pc s).

(** The cost is present exactly when the extended layout writes it. *)
Definition wf_cost (version : Z) (p : Proto) : Prop :=
  if has_extended_proto_layout version && inlinable p
  then exists c, cost p = Some c /\ is_u64 c else cost p = None.

Record wf_proto (version : Z) (p : Proto) : Prop := {
  wfp_bytes : is_u8 (max_stack_size p) /\ is_u8 (num_params p) /\ is_u8 (num_upvalues p) /\
    is_u8 (is_vararg p) /\ is_u8 (flags p);
  wfp_type_info : wf_vec is_u8 (ti_raw (type_info p));
  wfp_words : total_words (code p) < 4294967296;
  wfp_code : Forall wf_instruction (code p);
  wfp_constants : wf_vec wf_constant (constants p);
  wfp_children : wf_vec is_u32 (child_protos p);
  wfp_line_defined : is_u32 (line_defined p);
  wfp_debug_name : is_u32 (debug_name p);
  wfp_line_info : wf_option (wf_line_info (total_words (code p))) (line_info p);
  wfp_debug_info : wf_option wf_debug_info (debug_info p);
  wfp_slots : if 11 <=? version then wf_vec wf_slot (feedback_slots p) else feedback_slots p = [];
  wfp_cost : wf_cost version p
}.

(** An extended-layout proto is framed by its size, which is read as a [u32]. *)
Definition wf_one_proto (version : Z) (p : Proto) : Prop :=
  wf_proto version p /\
  (has_extended_proto_layout version = true -> is_u32 (len (wire_proto version p))).

Definition wf_string (s : list Z) : Prop := wf_vec is_u8 s.

(** A mapping index of zero would read as the terminator. *)
Definition wf_mapping (m : UserdataTypeMapping) : Prop :=
  0 < um_type_index m < 256 /\ is_u32 (um_name m).

Definition wf_chunk (policy : BytecodeVersionPolicy) (c : BytecodeChunk) : Prop :=
  match c with
  | Error message => Forall is_u8 message
  | Valid c =>
      accepts policy (bytecode_version c) = true /\ 1 <= type_version c <= 3 /\
      wf_vec wf_string (strings c) /\ Forall wf_mapping (userdata_type_mappings c) /\
      wf_vec (wf_one_proto (bytecode_version c)) (protos c) /\ is_u32 (main_proto c)
  end.

(** ** Parsing combinators *)

Lemma Parses_ret {A} (x : A) : Parses (read_ret x) [] x.
Proof. intros pre post. unfold read_ret. simpl. by rewrite Nat.add_0_r. Qed.

Lemma Parses_bind {A B} (p : Read A) (f : A -> Read B) bs1 bs2 x y :
  Parses p bs1 x -> Parses (f x) bs2 y -> Parses (read_bind p f) (bs1 ++ bs2) y.
Proof.
  intros Hp Hf pre post. unfold read_bind.
  specialize (Hp pre (bs2 ++ post)). rewrite app_assoc in Hp. rewrite <- (app_assoc bs1).
  rewrite <- app_assoc in Hp. rewrite Hp.
  specialize (Hf (pre ++ bs1) post). rewrite length_app, <- app_assoc in Hf. rewrite Hf.
  do 3 f_equal. rewrite length_app. lia.
Qed.

Lemma Parses_map {A B} (p : Read A) (f : A -> B) bs x :
  Parses p bs x -> Parses (let! y := p in read_ret (f y)) bs (f x).
Proof.
  intros Hp. rewrite <- (app_nil_r bs). eapply Parses_bind; [exact Hp|apply Parses_ret].
Qed.

(** The last step of a [let!] chain when [f] is not syntactically a constructor of the result. *)
Lemma Parses_eq {A} (p : Read A) bs bs' x x' :
  Parses p bs x -> bs = bs' -> x = x' -> Parses p bs' x'.
Proof. by intros ? <- <-. Qed.

Lemma Parses_times {A} (p : Read A) (f : A -> list Z) xs :
  Forall (fun x => Parses p (f x) x) xs ->
  Parses (read_times (length xs) p) (concat (map f xs)) xs.
Proof.
  induction 1 as [|x xs Hx _ IH]; [apply Parses_ret|].
  cbn. eapply Parses_bind; [done|]. by apply (Parses_map _ (cons x)).
Qed.

Lemma Parses_indexed {A} (p : Z -> Read A) (f : A -> list Z) xs index :
  Forall (fun x => forall i, Parses (p i) (f x) x) xs ->
  Parses (read_indexed (length xs) index p) (concat (map f xs)) xs.
Proof.
  intros H. revert index. induction H as [|x xs Hx _ IH]; intros index; [apply Parses_ret|].
  cbn. eapply Parses_bind; [done|]. by apply (Parses_map _ (cons x)).
Qed.

(** ** Appending combinators *)

Lemma Appends_compose f g bs1 bs2 :
  Appends f bs1 -> Appends g bs2 -> Appends (fun w => g (f w)) (bs1 ++ bs2).
Proof. intros Hf Hg w. rewrite Hg, Hf. cbn. by rewrite app_assoc. Qed.

Lemma Appends_each {A} (f : A -> Writer -> Writer) (g : A -> list Z) xs :
  (forall x, Appends (f x) (g x)) -> Appends (write_each f xs) (concat (map g xs)).
Proof.
  intros Hf. unfold write_each. induction xs as [|x xs IH]; intros w; cbn.
  - destruct w. cbn. by rewrite app_nil_r.
  - rewrite Hf, IH. cbn. by rewrite app_assoc.
Qed.

Lemma Appends_eq f bs bs' : Appends f bs -> bs = bs' -> Appends f bs'.
Proof. by intros ? <-. Qed.

(** ** Primitive fields *)

Lemma Parses_bytes label bs : Parses (reader_bytes (len bs) label) bs bs.
Proof.
  intros pre post. unfold reader_bytes, remaining. cbn [r_bytes r_offset].
  destruct (Z.ltb_spec (len (pre ++ bs ++ post) - Z.of_nat (length pre)) (len bs)).
  { exfalso. unfold len in *. rewrite !length_app in *. lia. }
  unfold len. rewrite Nat2Z.id. do 2 f_equal.
  by rewrite drop_app_length, take_app_length.
Qed.

Lemma Parses_u8 label b : Parses (reader_u8 label) [b] b.
Proof. apply (Parses_map _ (fun bs => default 0 (head bs)) [b] [b]), (Parses_bytes label [b]). Qed.

Lemma Parses_fixed {A} (n : nat) label v (f : list Z -> A) :
  Parses (let! bs := reader_bytes (Z.of_nat n) label in read_ret (f bs))
    (le_bytes n v) (f (le_bytes n v)).
Proof.
  apply Parses_map. pose proof (Parses_bytes label (le_bytes n v)) as H.
  unfold len in H. by rewrite length_le_bytes in H.
Qed.

Lemma Parses_u32 label v : is_u32 v -> Parses (reader_u32 label) (le_bytes 4 v) v.
Proof.
  intros Hv. eapply Parses_eq; [apply (Parses_fixed 4 label v from_le_bytes)|done|].
  rewrite from_le_bytes_le_bytes. apply Z.mod_small. exact Hv.
Qed.

Lemma Parses_u64 label v : is_u64 v -> Parses (reader_u64 label) (le_bytes 8 v) v.
Proof.
  intros Hv. eapply Parses_eq; [apply (Parses_fixed 8 label v from_le_bytes)|done|].
  rewrite from_le_bytes_le_bytes. apply Z.mod_small. exact Hv.
Qed.

Lemma Parses_i32 label v : is_i32 v -> Parses (reader_i32 label) (le_bytes 4 v) v.
Proof.
  intros Hv. eapply Parses_eq;
    [apply (Parses_fixed 4 label v (fun bs => as_i32 (from_le_bytes bs)))|done|].
  rewrite from_le_bytes_le_bytes. by apply as_i32_as_u32.
Qed.

(** ** Varints *)

Lemma varint_byte v :
  0 <= v ->
  Z.lor (as_u8 (Z.land v VARINT_PAYLOAD_MASK))
        (as_u8 (Z.shiftl (if VARINT_PAYLOAD_MASK <? v then 1 else 0) 7)) =
  v mod 128 + (if 127 <? v then 128 else 0).
Proof.
  intros Hv. unfold VARINT_PAYLOAD_MASK. rewrite land_127.
  assert (0 <= v mod 128 < 128) by (apply Z.mod_pos_bound; lia).
  rewrite (as_u8_small (v mod 128)) by (unfold is_u8; lia).
  destruct (127 <? v).
  - change (as_u8 (Z.shiftl 1 7)) with (Z.shiftl 1 7).
    rewrite lor_shiftl_add by (simpl; lia). simpl. lia.
  - change (as_u8 (Z.shiftl 0 7)) with 0. rewrite Z.lor_0_r. lia.
Qed.

Lemma land_128_enum :
  forallb (fun n => Bool.eqb (Z.land (Z.of_nat n) 128 =? 0) (Z.of_nat n <? 128)) (seq 0 256) = true.
Proof. vm_compute. reflexivity. Qed.

Lemma land_128_zero b : is_u8 b -> (Z.land b VARINT_CONTINUATION_BIT =? 0) = (b <? 128).
Proof.
  intros Hb. pose proof land_128_enum as H. rewrite forallb_forall in H.
  specialize (H (Z.to_nat b)). unfold is_u8 in Hb. rewrite Z2Nat.id in H by lia.
  apply Bool.eqb_prop, H, in_seq. lia.
Qed.

(** One payload group joins the bits below it. *)
Lemma varint_accumulate result shift p :
  0 <= shift -> 0 <= result < 2 ^ shift -> 0 <= p -> p * 2 ^ shift < 18446744073709551616 ->
  Z.lor result (as_u64 (Z.shiftl p shift)) = result + p * 2 ^ shift.
Proof.
  intros Hs Hr Hp Hlt. assert (0 < 2 ^ shift) by (apply Z.pow_pos_nonneg; lia).
  rewrite as_u64_small.
  - by apply lor_shiftl_add.
  - rewrite Z.shiftl_mul_pow2 by lia. unfold is_u64. nia.
Qed.

Lemma write_varint_loop_acc fuel bytes v :
  write_varint_loop fuel bytes v = bytes ++ write_varint_loop fuel [] v.
Proof.
  revert bytes v. induction fuel as [|fuel IH]; intros bytes v; cbn [write_varint_loop].
  { by rewrite app_nil_r. }
  destruct (Z.shiftr v 7 =? 0); [done|]. rewrite IH, (IH ([] ++ _)). by rewrite app_assoc.
Qed.

Lemma write_varint_app bytes v : write_varint bytes v = bytes ++ wire_var v.
Proof. apply write_varint_loop_acc. Qed.

(** The bytes written for [v], one group at a time. *)
Lemma write_varint_loop_unfold fuel v :
  0 <= v ->
  write_varint_loop (S fuel) [] v =
    (v mod 128 + (if 127 <? v then 128 else 0)) ::
    (if 127 <? v then write_varint_loop fuel [] (v / 128) else []).
Proof.
  intros Hv. cbn [write_varint_loop]. rewrite varint_byte by done.
  rewrite Z.shiftr_div_pow2 by lia. change (2 ^ 7) with 128.
  destruct (Z.ltb_spec 127 v), (Z.eqb_spec (v / 128) 0); try (exfalso; zdm); [|done].
  rewrite write_varint_loop_acc. done.
Qed.

Lemma Parses_var_loop wfuel fuel label result shift v :
  0 <= v -> v < 2 ^ (7 * Z.of_nat wfuel) -> (0 < wfuel <= fuel)%nat ->
  0 <= shift < 64 -> 0 <= result < 2 ^ shift -> v * 2 ^ shift < 18446744073709551616 ->
  Parses (var_u64_loop fuel label result shift) (write_varint_loop wfuel [] v)
    (result + v * 2 ^ shift).
Proof.
  revert fuel result shift v. induction wfuel as [|wfuel IH];
    intros fuel result shift v Hv Hvw Hf Hs Hr Hlt; [lia|].
  destruct fuel as [|fuel]; [lia|]. rewrite write_varint_loop_unfold by done.
  cbn [var_u64_loop]. destruct (Z.leb_spec 64 shift); [lia|].
  assert (0 < 2 ^ shift) by (apply Z.pow_pos_nonneg; lia).
  pose proof (Z.mod_pos_bound v 128 ltac:(lia)). pose proof (Z.div_mod v 128 ltac:(lia)).
  pose proof (Z.mod_le v 128 Hv ltac:(lia)).
  eapply (Parses_bind _ _ [_]); [apply Parses_u8|].
  rewrite land_128_zero by (unfold is_u8; destruct (127 <? v); lia).
  unfold VARINT_PAYLOAD_MASK. rewrite land_127.
  assert ((v mod 128 + (if 127 <? v then 128 else 0)) mod 128 = v mod 128) as ->
    by (destruct (127 <? v); zdm).
  rewrite varint_accumulate by nia.
  destruct (Z.ltb_spec 127 v).
  - destruct (Z.ltb_spec (v mod 128 + 128) 128); [lia|].
    assert (2 ^ (shift + 7) = 2 ^ shift * 128) as E by (rewrite Z.pow_add_r by lia; done).
    assert (0 < v / 128) by (apply Z.div_str_pos; lia).
    assert (v / 128 * 2 ^ (shift + 7) < 18446744073709551616) by (rewrite E; nia).
    assert (shift + 7 < 64).
    { apply (Z.pow_lt_mono_r_iff 2); [lia|lia|]. change (2 ^ 64) with 18446744073709551616. nia. }
    assert (v / 128 < 2 ^ (7 * Z.of_nat wfuel)).
    { apply Z.div_lt_upper_bound; [lia|].
      replace (7 * Z.of_nat (S wfuel)) with (7 + 7 * Z.of_nat wfuel) in Hvw by lia.
      rewrite Z.pow_add_r in Hvw by lia. done. }
    destruct wfuel as [|wfuel]; [simpl in *; lia|].
    assert (v mod 128 * 2 ^ shift <= 127 * 2 ^ shift) by (apply Z.mul_le_mono_nonneg_r; lia).
    assert (0 <= v mod 128 * 2 ^ shift) by (apply Z.mul_nonneg_nonneg; lia).
    eapply Parses_eq; [apply IH; first [assumption | by apply Z.lt_le_incl | lia]|done|rewrite E; nia].
  - destruct (Z.ltb_spec (v mod 128 + 0) 128); [|lia].
    eapply Parses_eq; [apply Parses_ret|done|]. rewrite Z.mod_small by lia. done.
Qed.

Lemma Parses_var_u64 label v : is_u64 v -> Parses (reader_var_u64 label) (wire_var v) v.
Proof.
  intros Hv. unfold is_u64 in Hv. unfold reader_var_u64, wire_var, write_varint.
  eapply Parses_eq; [apply (Parses_var_loop 10 11 label 0 0 v)|done|rewrite Z.pow_0_r; lia].
  all: change (2 ^ (7 * Z.of_nat 10)) with 1180591620717411303424; change (2 ^ 0) with 1; lia.
Qed.

Lemma Parses_var_u32 label v : is_u32 v -> Parses (reader_var_u32 label) (wire_var v) v.
Proof.
  intros Hv. unfold reader_var_u32. rewrite <- (app_nil_r (wire_var v)).
  eapply Parses_bind; [apply Parses_var_u64; unfold is_u64, is_u32 in *; lia|].
  unfold u32_try_from, is_u32 in *.
  destruct (Z.leb_spec 0 v), (Z.ltb_spec v 4294967296); try lia. apply Parses_ret.
Qed.

Lemma write_varint_loop_length fuel v :
  (length (write_varint_loop fuel [] v) <= fuel)%nat.
Proof.
  revert v. induction fuel as [|fuel IH]; intros v; cbn [write_varint_loop]; [simpl; lia|].
  destruct (Z.shiftr v 7 =? 0); [simpl; lia|].
  rewrite write_varint_loop_acc. rewrite length_app. specialize (IH (Z.shiftr v 7)). simpl. lia.
Qed.

Lemma write_varint_loop_nonempty fuel v : write_varint_loop (S fuel) [] v <> [].
Proof.
  cbn [write_varint_loop]. destruct (Z.shiftr v 7 =? 0); [done|].
  rewrite write_varint_loop_acc. done.
Qed.

Lemma wire_var_nonempty v : wire_var v <> [].
Proof. apply write_varint_loop_nonempty. Qed.

(** ** Writer primitives *)

Lemma Appends_u8 v : Appends (writer_u8 v) [v].
Proof. intros w. done. Qed.

Lemma Appends_u32 v : Appends (writer_u32 v) (le_bytes 4 v).
Proof. intros w. done. Qed.

Lemma Appends_i32 v : Appends (writer_i32 v) (le_bytes 4 v).
Proof. intros w. done. Qed.

Lemma Appends_u64 v : Appends (writer_u64 v) (le_bytes 8 v).
Proof. intros w. done. Qed.

Lemma Appends_bytes bs : Appends (writer_bytes bs) bs.
Proof. intros w. done. Qed.

Lemma Appends_var v : Appends (writer_var_u64 v) (wire_var v).
Proof. intros w. unfold writer_var_u64. by rewrite write_varint_app. Qed.

#[export] Hint Resolve Appends_u8 Appends_u32 Appends_i32 Appends_u64 Appends_bytes Appends_var
  Appends_each : wire.

(** The same facts as equations, for chains of writer steps. *)
Lemma writer_var_eq v w : writer_var_u64 v w = mkWriter (w_bytes w ++ wire_var v).
Proof. apply Appends_var. Qed.

Lemma write_each_var vs w :
  write_each writer_var_u64 vs w = mkWriter (w_bytes w ++ concat (map wire_var vs)).
Proof. apply Appends_each. auto with wire. Qed.

Lemma write_each_i32 vs w :
  write_each writer_i32 vs w = mkWriter (w_bytes w ++ concat (map (le_bytes 4) vs)).
Proof. apply Appends_each. auto with wire. Qed.

Create Rewrite HintDb appends.
#[export] Hint Rewrite writer_var_eq write_each_var write_each_i32 : appends.

(** Normalises a chain of writer steps to one list of appended bytes. *)
Ltac appends :=
  repeat (progress (autorewrite with appends;
    unfold writer_u8, writer_u32, writer_i32, writer_u64, writer_bytes; cbn [w_bytes]));
  rewrite <- ?app_assoc; try reflexivity.
