(* ===== verification/CodecFacts.v ===== *)
(** * CodecFacts: the codec implements the wire grammar

    Instances of the [WireFormat] interface for every element type, then the
    refinement lemmas for protos and chunks: the encoder writes [wire_chunk] and
    the decoder reads it back. *)

From Stdlib Require Import ZArith Lia.
From stdpp Require Import base numbers list strings.
From S2P Require Import Prelude Opcodes BytecodeTypes Codec WireFormat.

Local Open Scope Z_scope.

(** One step of a [let!] chain whose bytes stand at the front of the wire string. *)
Ltac parse_step := eapply Parses_bind; [solve [eauto with wire]|]; cbv beta.

#[export] Hint Resolve Parses_u8 Parses_u32 Parses_i32 Parses_u64 Parses_var_u32 Parses_var_u64
  Parses_ret : wire.

(** ** Element types *)

#[export] Instance var_wire label : WireFormat Z (reader_var_u32 label) writer_var_u64.
Proof.
  refine {| wire := wire_var; wf := is_u32 |}; auto with wire.
  apply wire_var_nonempty.
Defined.

#[export] Instance u8_wire label : WireFormat Z (reader_u8 label) writer_u8.
Proof. refine {| wire := fun v => [v]; wf := is_u8 |}; auto with wire. Defined.

#[export] Instance i32_wire label : WireFormat Z (reader_i32 label) writer_i32.
Proof. refine {| wire := le_bytes 4; wf := is_i32 |}; auto with wire. Defined.

#[export] Instance entry_wire :
  WireFormat TableEntry decode_table_entry
    (fun entry w => w |> writer_var_u64 (te_key entry) |> writer_i32 (te_value entry)).
Proof.
  refine {| wire := wire_entry; wf := wf_entry |}.
  - intros [k v] [Hk Hv]. unfold decode_table_entry, wire_entry. cbn in *.
    parse_step. apply (Parses_map _ (mkTableEntry k)). auto with wire.
  - intros e. apply (Appends_compose (writer_var_u64 _)); auto with wire.
  - intros e. unfold wire_entry. destruct (wire_var _) eqn:E; [|done].
    by apply wire_var_nonempty in E.
Defined.

(** ** Vectors *)

Lemma to_nat_len {A} (xs : list A) : Z.to_nat (len xs) = length xs.
Proof. unfold len. apply Nat2Z.id. Qed.

Lemma Parses_vec {A} label (p : Read A) f (xs : list A) :
  is_u32 (len xs) -> Forall (fun x => Parses p (f x) x) xs ->
  Parses (read_vec label p) (wire_vec f xs) xs.
Proof.
  intros Hl Hxs. unfold read_vec, wire_vec. parse_step.
  rewrite to_nat_len. by apply Parses_times.
Qed.

(** The interface gives a vector of its type. *)
Lemma Parses_wire_vec {A dec enc} label (W : WireFormat A dec enc) xs :
  wf_vec wf xs -> Parses (read_vec label dec) (wire_vec wire xs) xs.
Proof.
  intros [Hl Hxs]. apply Parses_vec; [done|].
  eapply Forall_impl; [exact Hxs|]. apply wire_parses.
Qed.

Lemma Parses_vars l1 l2 xs :
  wf_vec is_u32 xs -> Parses (read_vec l1 (reader_var_u32 l2)) (wire_vec wire_var xs) xs.
Proof. apply (Parses_wire_vec l1 (var_wire l2)). Qed.

#[export] Instance vec_wire {A dec enc} label `{W : WireFormat A dec enc} :
  WireFormat (list A) (read_vec label dec)
    (fun xs w => w |> writer_var_u64 (len xs) |> write_each enc xs).
Proof.
  refine {| wire := wire_vec wire; wf := wf_vec wf |}.
  - apply Parses_wire_vec.
  - intros xs. apply (Appends_compose (writer_var_u64 _)); [auto with wire|].
    apply Appends_each, wire_appends.
  - intros xs. unfold wire_vec. destruct (wire_var _) eqn:E; [|done].
    by apply wire_var_nonempty in E.
Defined.

(** ** Constants *)

Lemma Parses_four {P : Z -> Prop} (p : Read Z) f v :
  (forall x, P x -> Parses p (f x) x) -> wf_four P v ->
  Parses (read_four p) (wire_four f v) v.
Proof.
  intros Hp. destruct v as [[[x y] z] w]. intros (Hx & Hy & Hz & Hw). cbn.
  unfold read_four. do 3 (eapply Parses_bind; [by apply Hp|]).
  apply (Parses_map _ (fun w => (x, y, z, w))). by apply Hp.
Qed.

Lemma Appends_four (enc : Z -> Writer -> Writer) f x y z w :
  (forall v, Appends (enc v) (f v)) ->
  Appends (write_each enc [x; y; z; w]) (wire_four f (x, y, z, w)).
Proof.
  intros H. eapply Appends_eq; [by apply Appends_each|]. cbn. by rewrite app_nil_r.
Qed.

Lemma Parses_shape s : wf_shape s -> Parses decode_class_shape (wire_shape s) s.
Proof.
  destruct s as [n ps ms]. intros (Hn & [Hp Hps] & [Hm Hms]). cbn in *.
  unfold decode_class_shape, wire_shape. cbn. do 3 parse_step. rewrite !to_nat_len.
  assert (forall l xs, Forall is_u32 xs ->
    Parses (read_times (length xs) (reader_var_u32 l)) (concat (map wire_var xs)) xs) as Hv.
  { intros l xs Hxs. apply Parses_times. eapply Forall_impl; [done|]. auto with wire. }
  eapply Parses_bind; [by apply Hv|]. apply (Parses_map _ (mkClassShape n ps)). by apply Hv.
Qed.

Lemma Appends_shape_tail s :
  Appends (fun w => w |> writer_var_u64 (cs_class_name s)
        |> writer_var_u64 (len (cs_property_names s))
        |> writer_var_u64 (len (cs_method_names s))
        |> write_each writer_var_u64 (cs_property_names s)
        |> write_each writer_var_u64 (cs_method_names s)) (wire_shape s).
Proof.
  intros w. unfold wire_shape. by appends.
Qed.

(** Two's-complement negation of the encoder and of the decoder cancel. *)
Lemma integer_magnitude v :
  is_i64 v -> v < 0 -> as_u64 (as_u64 (Z.lnot (as_u64 v)) + 1) = - v.
Proof. intros Hv Hn. unfold Z.lnot. revert Hv. zcast. Qed.

Lemma integer_of_wire_neg v : is_i64 v -> v < 0 -> integer_of_wire true (- v) = v.
Proof. unfold integer_of_wire, Z.lnot. zcast. Qed.

Lemma integer_of_wire_pos v : is_i64 v -> 0 <= v -> integer_of_wire false v = v.
Proof. unfold integer_of_wire. zcast. Qed.

Lemma Parses_integer v :
  is_i64 v ->
  Parses (let! sign := reader_u8 "integer sign" in
          let! magnitude := reader_var_u64 "integer magnitude" in
          read_ret (Const.Integer (integer_of_wire (negb (sign =? 0)) magnitude)))
    (wire_integer v) (Const.Integer v).
Proof.
  intros Hv. unfold wire_integer. destruct (Z.ltb_spec v 0).
  - eapply (Parses_bind _ _ [_]); [apply Parses_u8|]. cbn [negb Z.eqb].
    eapply Parses_eq; [apply (Parses_map _ (fun m => Const.Integer (integer_of_wire true m))),
      Parses_var_u64|done|by rewrite integer_of_wire_neg].
    unfold is_i64, is_u64 in *. lia.
  - eapply (Parses_bind _ _ [_]); [apply Parses_u8|]. cbn [negb Z.eqb].
    eapply Parses_eq; [apply (Parses_map _ (fun m => Const.Integer (integer_of_wire false m))),
      Parses_var_u64|done|by rewrite integer_of_wire_pos].
    unfold is_i64, is_u64 in *. lia.
Qed.

Lemma Parses_constant c : wf_constant c -> Parses decode_constant (wire_constant c) c.
Proof.
  intros Hc. unfold decode_constant.
  destruct c as [|b|bits|s|i|keys|p|v|v|es|v|s]; cbn [wire_constant wf_constant] in *;
    (eapply (Parses_bind _ _ [_]); [apply Parses_u8|]);
    rewrite constant_tag_from_byte_tag_byte.
  - apply Parses_ret.
  - eapply Parses_eq; [apply (Parses_map _ (fun v => Const.Boolean (negb (v =? 0)))), Parses_u8
      |done|by destruct b].
  - apply (Parses_map _ Const.Number). auto with wire.
  - apply (Parses_map _ Const.String). auto with wire.
  - apply (Parses_map _ Const.Import). auto with wire.
  - apply (Parses_map _ Const.Table). by apply Parses_vars.
  - apply (Parses_map _ Const.Closure). auto with wire.
  - apply (Parses_map _ Const.Vector). by eapply (Parses_four (P := is_u32)); auto with wire.
  - apply (Parses_map _ Const.VectorDouble). by eapply (Parses_four (P := is_u64)); auto with wire.
  - apply (Parses_map _ Const.TableWithConstants).
    by apply (Parses_wire_vec _ entry_wire).
  - by apply Parses_integer.
  - apply (Parses_map _ Const.ClassShapeC). by apply Parses_shape.
Qed.

Lemma encode_integer_wire v w :
  is_i64 v -> encode_integer v w = mkWriter (w_bytes w ++ wire_integer v).
Proof.
  intros Hv. unfold encode_integer, wire_integer. destruct (Z.ltb_spec v 0).
  - rewrite integer_magnitude by done. by appends.
  - rewrite (as_u64_small v) by (unfold is_i64, is_u64 in *; lia). by appends.
Qed.

(** A constant as Rust can hold it: an [Integer] payload is an [i64]. *)
Definition typed_constant (c : Constant) : Prop :=
  match c with Const.Integer v => is_i64 v | _ => True end.

Lemma wf_typed_constant c : wf_constant c -> typed_constant c.
Proof. by destruct c. Qed.

Lemma encode_constant_wire c w :
  typed_constant c -> encode_constant c w = mkWriter (w_bytes w ++ wire_constant c).
Proof.
  destruct c as [|b|bits|s|i|keys|p|[[[x y] z] v]|[[[x y] z] v]|es|v|s];
    cbn [encode_constant wire_constant typed_constant]; intros Hc.
  1-7: by appends.
  - rewrite (Appends_four writer_u32 (le_bytes 4)) by auto with wire. by appends.
  - rewrite (Appends_four writer_u64 (le_bytes 8)) by auto with wire. by appends.
  - rewrite (Appends_each _ wire_entry) by apply (wire_appends (WireFormat := entry_wire)).
    by appends.
  - rewrite encode_integer_wire by done. by appends.
  - rewrite (Appends_shape_tail s). by appends.
Qed.

(** [write_each] over elements that satisfy a condition. *)
Lemma write_each_forall {A} (f : A -> Writer -> Writer) (g : A -> list Z) (P : A -> Prop) xs w :
  (forall x w, P x -> f x w = mkWriter (w_bytes w ++ g x)) -> Forall P xs ->
  write_each f xs w = mkWriter (w_bytes w ++ concat (map g xs)).
Proof.
  intros Hf H. unfold write_each. revert w. induction H as [|x xs Hx _ IH]; intros w; cbn.
  - destruct w. cbn. by rewrite app_nil_r.
  - rewrite Hf by done. rewrite IH. cbn. by rewrite app_assoc.
Qed.

(** ** Debug data and feedback slots *)

#[export] Instance debug_local_wire : WireFormat DebugLocal decode_debug_local encode_debug_local.
Proof.
  refine {| wire := wire_debug_local; wf := wf_debug_local |}.
  - intros [n s e r] (Hn & Hs & He & Hr). cbn in *. unfold decode_debug_local, wire_debug_local. cbn.
    do 3 parse_step. apply (Parses_map _ (mkDebugLocal n s e)). auto with wire.
  - intros l w. unfold encode_debug_local, wire_debug_local. by appends.
  - intros l. unfold wire_debug_local. destruct (wire_var _) eqn:E; [|done].
    by apply wire_var_nonempty in E.
Defined.

Lemma feedback_type_roundtrip k : feedback_type_from_byte (feedback_type_byte k) = Some k.
Proof. by destruct k. Qed.

#[export] Instance slot_wire : WireFormat FeedbackSlot decode_feedback_slot
  (fun slot w => w |> writer_u8 (feedback_type_byte (fs_kind slot)) |> writer_var_u64 (fs_pc slot)).
Proof.
  refine {| wire := wire_slot; wf := wf_slot |}.
  - intros [k pc] Hpc. unfold decode_feedback_slot, wire_slot, wf_slot in *.
    cbn [fs_kind fs_pc] in *. parse_step. rewrite feedback_type_roundtrip. apply (Parses_map _ (mkFeedbackSlot k)). auto with wire.
  - intros s w. unfold wire_slot. by appends.
  - intros s. done.
Defined.

Lemma Parses_debug_info d : wf_debug_info d -> Parses decode_debug_info (wire_debug_info d) d.
Proof.
  destruct d as [ls us]. intros [Hl Hu]. unfold decode_debug_info, wire_debug_info. cbn in *.
  eapply Parses_bind; [by apply (Parses_wire_vec _ debug_local_wire)|].
  apply (Parses_map _ (mkDebugInfo ls)). by apply Parses_vars.
Qed.

Lemma Parses_option {A} label (p : Read A) f P o :
  (forall x, P x -> Parses p (f x) x) -> wf_option P o ->
  Parses (read_option label p) (wire_option f o) o.
Proof.
  intros Hp Ho. unfold read_option. destruct o as [x|]; cbn in *.
  - eapply (Parses_bind _ _ [1]); [apply Parses_u8|]. cbn. apply (Parses_map _ Some). by apply Hp.
  - eapply (Parses_bind _ _ [0] []); [apply Parses_u8|]. apply Parses_ret.
Qed.

Lemma concat_singletons {A} (l : list A) : concat (map (fun x => [x]) l) = l.
Proof. induction l; cbn; congruence. Qed.

Lemma Parses_line_info words li :
  wf_line_info words li -> Parses (decode_line_info words) (wire_line_info li) li.
Proof.
  destruct li as [s ds bs]. intros (Hs & Hd & Hd8 & Hb & Hb32). cbn in *.
  unfold decode_line_info, wire_line_info. cbn [log2_span delta_bytes baseline_deltas].
  eapply (Parses_bind _ _ [_]); [apply Parses_u8|]. cbv beta.
  destruct (Z.leb_spec 32 s); [lia|].
  rewrite <- Hb, <- Hd, !to_nat_len.
  eapply Parses_bind.
  - eapply Parses_eq; [apply (Parses_times _ (fun x => [x]) ds)|apply concat_singletons|done].
    apply Forall_true. auto with wire.
  - apply (Parses_map _ (mkLineInfo s ds)), Parses_times.
    eapply Forall_impl; [done|]. auto with wire.
Qed.

Lemma encode_line_info_wire o w :
  encode_line_info o w = mkWriter (w_bytes w ++ wire_option wire_line_info o).
Proof. destruct o; unfold encode_line_info, wire_line_info; cbn [wire_option]; by appends. Qed.

Lemma encode_debug_info_wire o w :
  encode_debug_info o w = mkWriter (w_bytes w ++ wire_option wire_debug_info o).
Proof.
  destruct o; unfold encode_debug_info, wire_debug_info, wire_vec; cbn [wire_option]; [|by appends].
  rewrite (Appends_each encode_debug_local wire_debug_local)
    by apply (wire_appends (WireFormat := debug_local_wire)).
  by appends.
Qed.

Lemma encode_feedback_slots_wire version slots w :
  encode_feedback_slots version slots w =
  mkWriter (w_bytes w ++ (if 11 <=? version then wire_vec wire_slot slots else [])).
Proof.
  unfold encode_feedback_slots, wire_vec. destruct (11 <=? version).
  - rewrite (Appends_each _ wire_slot) by apply (wire_appends (WireFormat := slot_wire)).
    by appends.
  - destruct w. cbn. by rewrite app_nil_r.
Qed.

(** ** Code *)

Lemma consistent_opcode i :
  consistent i -> from_byte (as_u8 (Z.land (ins_header i) 255)) = Some (ins_opcode i).
Proof.
  intros H. apply from_words_Some in H as (_ & _ & H & _).
  rewrite land_255. unfold as_u8. by rewrite Zmod_mod.
Qed.

Lemma Parses_code fuel code_words word_index ins :
  Forall wf_instruction ins -> (length ins < fuel)%nat -> 0 <= word_index ->
  code_words = word_index + total_words ins -> code_words < 4294967296 ->
  Parses (decode_code fuel code_words word_index) (concat (map wire_instruction ins)) ins.
Proof.
  intros H. revert fuel word_index.
  induction H as [|i ins Hi Hins IH]; intros fuel word_index Hf Hw Ec Hc.
  { simpl in Ec. destruct fuel; [simpl in Hf; lia|]. cbn [decode_code].
    destruct (Z.ltb_spec word_index code_words); [lia|apply Parses_ret]. }
  destruct fuel as [|fuel]; [simpl in Hf; lia|]. cbn [decode_code map concat total_words foldr] in *.
  fold (total_words ins) in Ec. pose proof (total_words_nonneg ins). pose proof (word_len_cases i).
  destruct (Z.ltb_spec word_index code_words); [|lia].
  destruct Hi as (Hcons & Har & Hh & Haux). unfold wire_instruction at 1. rewrite <- !app_assoc.
  parse_step. cbv zeta. rewrite consistent_opcode by done.
  unfold aux_arity_ok in Har. rewrite <- Har.
  rewrite (as_u32_small (word_index + 1)) by (unfold is_u32; lia).
  rewrite (as_u32_small (word_index + 1 + _)) by (unfold is_u32; lia).
  destruct (Z.ltb_spec code_words (word_index + 1 + (word_len i - 1))); [lia|].
  unfold consistent in Hcons. unfold word_len in *. destruct (ins_aux i) as [aux|]; cbn [Z.add Z.sub Z.eqb].
  - parse_step. rewrite Hcons, as_u32_small by (unfold is_u32; lia).
    apply (Parses_map _ (cons i)). apply IH; simpl in *; lia.
  - rewrite Hcons. apply (Parses_map _ (cons i)). apply IH; simpl in *; lia.
Qed.

Lemma length_wire_code ins : (length ins <= length (concat (map wire_instruction ins)))%nat.
Proof.
  induction ins as [|i ins IH]; cbn; [lia|]. unfold wire_instruction at 1.
  rewrite !length_app, length_le_bytes. lia.
Qed.

Lemma Parses_code_body ins :
  Forall wf_instruction ins -> total_words ins < 4294967296 ->
  Parses (fun r => decode_code (S (length (r_bytes r))) (total_words ins) 0 r)
    (concat (map wire_instruction ins)) ins.
Proof.
  intros H Hw pre post. cbn [r_bytes]. apply Parses_code; try done.
  rewrite !length_app. pose proof (length_wire_code ins). lia.
Qed.

Lemma encode_code_wire pi ii ins w :
  Forall consistent ins ->
  encode_code pi ii ins w = Ok (mkWriter (w_bytes w ++ concat (map wire_instruction ins))).
Proof.
  intros H. revert ii w. induction H as [|i ins Hi _ IH]; intros ii w; cbn [encode_code map concat].
  { destruct w. cbn. by rewrite app_nil_r. }
  apply is_header_consistent_spec in Hi. rewrite Hi. cbn [negb]. rewrite IH.
  unfold wire_instruction. destruct (ins_aux i); by appends.
Qed.

Lemma encode_code_inconsistent pi ii ins w :
  Exists (fun i => ~ consistent i) ins -> exists e, encode_code pi ii ins w = Err e.
Proof.
  revert ii w. induction ins as [|i ins IH]; intros ii w H; [by inversion H|]. cbn [encode_code].
  destruct (is_header_consistent i) eqn:E; cbn [negb]; [|by eexists].
  apply IH. apply is_header_consistent_spec in E. inversion H; [done|done].
Qed.

(** ** Protos *)

Lemma Parses_type_info t :
  wf_vec is_u8 (ti_raw t) ->
  Parses decode_type_info (wire_var (len (ti_raw t)) ++ ti_raw t) t.
Proof.
  destruct t as [raw]. intros [Hl _]. unfold decode_type_info. cbn in *. parse_step.
  apply (Parses_map _ mkTypeInfo), Parses_bytes.
Qed.

Lemma Parses_slots version p :
  wf_proto version p ->
  Parses (if 11 <=? version then read_vec "feedback slot count" decode_feedback_slot
          else read_ret [])
    (if 11 <=? version then wire_vec wire_slot (feedback_slots p) else []) (feedback_slots p).
Proof.
  intros [_ _ _ _ _ _ _ _ _ _ H _]. destruct (11 <=? version).
  - by apply (Parses_wire_vec _ slot_wire).
  - rewrite H. apply Parses_ret.
Qed.

Lemma Parses_cost version p :
  wf_proto version p ->
  Parses (if has_extended_proto_layout version && negb (Z.land (flags p) ProtoFlag_INLINABLE =? 0)
          then let! c := reader_var_u64 "proto cost" in read_ret (Some c)
          else read_ret None)
    (wire_cost version p) (cost p).
Proof.
  intros [_ _ _ _ _ _ _ _ _ _ _ H]. unfold wf_cost, wire_cost, inlinable in *.
  destruct (has_extended_proto_layout version && _).
  - destruct H as (c & -> & Hc). apply (Parses_map _ Some). auto with wire.
  - rewrite H. apply Parses_ret.
Qed.

Lemma Parses_proto version p :
  wf_proto version p -> Parses (decode_proto version) (wire_proto version p) p.
Proof.
  intros Hp. pose proof Hp as [(H1 & H2 & H3 & H4 & H5) Hti Hw Hcode Hk Hch Hld Hdn Hli Hdi _ _].
  unfold decode_proto, wire_proto. do 5 parse_step.
  eapply Parses_bind; [by apply Parses_type_info|]. cbv beta.
  rewrite code_word_count_small by done.
  eapply Parses_bind; [apply Parses_var_u32; split; [apply total_words_nonneg|done]|]. cbv beta.
  eapply Parses_bind; [by apply Parses_code_body|]. cbv beta.
  eapply Parses_bind; [apply (Parses_vec _ _ wire_constant); [apply Hk|]|].
  { eapply Forall_impl; [apply Hk|]. apply Parses_constant. }
  cbv beta. eapply Parses_bind; [by apply Parses_vars|]. cbv beta. do 2 parse_step.
  eapply Parses_bind; [eapply Parses_option; [apply Parses_line_info|done]|]. cbv beta.
  eapply Parses_bind; [eapply Parses_option; [apply Parses_debug_info|done]|]. cbv beta.
  eapply Parses_bind; [by apply Parses_slots|]. cbv beta.
  eapply Parses_eq; [apply Parses_map; by apply Parses_cost|done|by destruct p].
Qed.

Lemma Parses_one_proto version pi p :
  wf_one_proto version p -> Parses (decode_one_proto version pi) (wire_one_proto version p) p.
Proof.
  intros [Hp Hsize]. unfold decode_one_proto, wire_one_proto.
  destruct (has_extended_proto_layout version); cbn [negb]; [|by apply Parses_proto].
  specialize (Hsize eq_refl). parse_step.
  eapply Parses_eq; [eapply (Parses_bind _ _ (wire_proto version p) []);
    [apply Parses_bytes|]|apply app_nil_r|reflexivity].
  intros pre post. unfold reader_new.
  pose proof (Parses_proto version p Hp [] []) as E. rewrite app_nil_r, !app_nil_l in E.
  cbn [length Nat.add] in E. rewrite E.
  unfold is_eof. cbn [r_bytes r_offset]. rewrite Nat.eqb_refl. cbn. by rewrite Nat.add_0_r.
Qed.

(** What the encoder requires of a proto: consistent instructions, and the cost of an inlinable
    extended-layout proto. *)
Definition encodable_proto (version : Z) (p : Proto) : Prop :=
  Forall consistent (code p) /\
  (has_extended_proto_layout version && inlinable p = true -> is_Some (cost p)).

#[export] Instance encodable_proto_dec version p : Decision (encodable_proto version p).
Proof.
  unfold encodable_proto.
  destruct (has_extended_proto_layout version && inlinable p);
    destruct (decide (is_Some (cost p))); apply and_dec; try apply _;
    first [by left | by right; auto | left; done].
Defined.

Definition typed_proto (p : Proto) : Prop := Forall typed_constant (constants p).

Lemma encode_proto_wire w version pi p :
  encodable_proto version p -> typed_proto p ->
  encode_proto w version pi p = Ok (mkWriter (w_bytes w ++ wire_proto version p)).
Proof.
  intros [Hc Hcost] Ht. unfold encode_proto. cbv zeta. rewrite encode_code_wire by done.
  unfold result_bind. rewrite encode_feedback_slots_wire, encode_debug_info_wire, encode_line_info_wire.
  rewrite !writer_var_eq, !write_each_var.
  rewrite (write_each_forall encode_constant wire_constant typed_constant)
    by first [done | intros; by apply encode_constant_wire].
  fold (inlinable p). unfold wire_proto, wire_cost, wire_vec.
  destruct (has_extended_proto_layout version && inlinable p).
  - destruct (Hcost eq_refl) as [c ->]. by appends.
  - rewrite app_nil_r. by appends.
Qed.

Lemma encode_proto_reject w version pi p :
  ~ encodable_proto version p -> exists e, encode_proto w version pi p = Err e.
Proof.
  intros H. unfold encode_proto. cbv zeta.
  destruct (Forall_Exists_dec consistent (fun i => ~ consistent i) (fun i => decide (consistent i))
    (code p)) as [Hc|Hc].
  - rewrite encode_code_wire by done. unfold result_bind. fold (inlinable p).
    destruct (has_extended_proto_layout version && inlinable p) eqn:E.
    + destruct (cost p) eqn:Ec; [|by eexists]. exfalso. apply H. split; [done|]. by rewrite Ec.
    + exfalso. apply H. split; [done|]. by rewrite E.
  - destruct (encode_code_inconsistent pi 0 (code p) (writer_var_u64 (code_word_count (code p))
      (writer_bytes (ti_raw (type_info p)) (writer_var_u64 (len (ti_raw (type_info p)))
      (writer_u8 (flags p) (writer_u8 (is_vararg p) (writer_u8 (num_upvalues p)
      (writer_u8 (num_params p) (writer_u8 (max_stack_size p) w)))))))) Hc) as [e ->].
    by eexists.
Qed.

Definition encodable_chunk (policy : BytecodeVersionPolicy) (c : BytecodeChunk) : Prop :=
  match c with
  | Error _ => True
  | Valid c => accepts policy (bytecode_version c) = true /\
      Forall (encodable_proto (bytecode_version c)) (protos c)
  end.

Definition typed_chunk (c : BytecodeChunk) : Prop :=
  match c with Error _ => True | Valid c => Forall typed_proto (protos c) end.

Lemma encode_protos_wire version pi ps w :
  Forall (encodable_proto version) ps -> Forall typed_proto ps ->
  encode_protos version pi ps w =
  Ok (mkWriter (w_bytes w ++ concat (map (wire_one_proto version) ps))).
Proof.
  intros He Ht. revert pi w Ht. induction He as [|p ps Hp _ IH]; intros pi w Ht; cbn.
  { destruct w. cbn. by rewrite app_nil_r. }
  inversion Ht as [|? ? Htp Hts]; subst. unfold wire_one_proto at 1.
  destruct (has_extended_proto_layout version).
  - rewrite encode_proto_wire by done. unfold result_bind. rewrite IH by done. by appends.
  - rewrite encode_proto_wire by done. unfold result_bind. rewrite IH by done. by appends.
Qed.

Lemma encode_protos_reject version pi ps w :
  Forall typed_proto ps -> ~ Forall (encodable_proto version) ps ->
  exists e, encode_protos version pi ps w = Err e.
Proof.
  intros Ht. revert pi w. induction Ht as [|p ps Htp _ IH]; intros pi w H; [by destruct H|].
  cbn [encode_protos].
  destruct (decide (encodable_proto version p)) as [Hp|Hp].
  - assert (~ Forall (encodable_proto version) ps) as Hps by (intros Hps; apply H; by constructor).
    destruct (has_extended_proto_layout version);
      rewrite encode_proto_wire by done; unfold result_bind; by apply IH.
  - destruct (has_extended_proto_layout version).
    + destruct (encode_proto_reject writer_default version pi p Hp) as [e ->]. by eexists.
    + destruct (encode_proto_reject w version pi p Hp) as [e ->]. by eexists.
Qed.

(** ** Userdata mappings *)

Lemma Parses_mappings fuel ms :
  Forall wf_mapping ms -> (length ms < fuel)%nat ->
  Parses (decode_mappings fuel) (concat (map wire_mapping ms) ++ [0]) ms.
Proof.
  intros H. revert fuel. induction H as [|[t n] ms [Ht Hn] _ IH]; intros fuel Hf;
    (destruct fuel as [|fuel]; [simpl in Hf; lia|]); cbn [decode_mappings map concat].
  - eapply (Parses_bind _ _ [0] []); [apply Parses_u8|apply Parses_ret].
  - cbn [um_type_index um_name] in *. unfold wire_mapping at 1. cbn [um_type_index um_name].
    rewrite <- !app_assoc.
    eapply (Parses_bind _ _ [t]); [apply Parses_u8|]. cbv beta.
    destruct (Z.eqb_spec t 0); [lia|]. parse_step.
    apply (Parses_map _ (cons (mkUserdataTypeMapping t n))). apply IH. simpl in Hf. lia.
Qed.

Lemma length_mappings ms : (length ms <= length (concat (map wire_mapping ms)))%nat.
Proof. induction ms as [|m ms IH]; cbn; [lia|]. rewrite length_app. lia. Qed.

Lemma Parses_mappings_body ms :
  Forall wf_mapping ms ->
  Parses (fun r => decode_mappings (S (length (r_bytes r))) r)
    (concat (map wire_mapping ms) ++ [0]) ms.
Proof.
  intros H pre post. cbn [r_bytes]. apply Parses_mappings; [done|].
  rewrite !length_app. pose proof (length_mappings ms). lia.
Qed.

(** ** Chunks *)

Lemma Parses_string_table ss :
  wf_vec wf_string ss -> Parses decode_string_table (wire_vec wire_string ss) ss.
Proof.
  intros [Hl Hs]. unfold decode_string_table, wire_vec. parse_step. rewrite to_nat_len.
  apply Parses_indexed. eapply Forall_impl; [exact Hs|]. intros s [Hs' _] i.
  unfold wire_string. parse_step. apply Parses_bytes.
Qed.

Lemma Parses_valid_body policy c :
  wf_chunk policy (Valid c) ->
  Parses (decode_valid_body (bytecode_version c) (type_version c))
    (wire_vec wire_string (strings c) ++
     (concat (map wire_mapping (userdata_type_mappings c)) ++ [0]) ++
     wire_vec (wire_one_proto (bytecode_version c)) (protos c) ++ wire_var (main_proto c)) c.
Proof.
  intros (_ & _ & Hss & Hms & [Hpl Hps] & Hmain). unfold decode_valid_body.
  eapply Parses_bind; [by apply Parses_string_table|]. cbv beta.
  eapply Parses_bind; [by apply Parses_mappings_body|]. cbv beta.
  unfold wire_vec at 1. rewrite <- app_assoc. parse_step. rewrite to_nat_len.
  eapply Parses_bind.
  - apply Parses_indexed. eapply Forall_impl; [exact Hps|]. intros p Hp i. by apply Parses_one_proto.
  - eapply Parses_eq; [apply Parses_map; by apply Parses_var_u32|done|by destruct c].
Qed.

(** Running a parser from the start of its input, and reading a leading byte. *)
Lemma run_u8 label b bs : reader_u8 label (reader_new (b :: bs)) = Ok (b, mkReader (b :: bs) 1).
Proof. apply (Parses_u8 label b [] bs). Qed.

Lemma run_u8_second label a b bs :
  reader_u8 label (mkReader (a :: b :: bs) 1) = Ok (b, mkReader (a :: b :: bs) 2).
Proof. apply (Parses_u8 label b [a] bs). Qed.

Lemma decode_wire_chunk policy c :
  wf_chunk policy c -> decode_chunk_with_policy (wire_chunk c) policy = Ok c.
Proof.
  intros Hc. destruct c as [c|message]; unfold decode_chunk_with_policy;
    [|cbn [wire_chunk app]; by rewrite run_u8].
  pose proof Hc as (Hacc & Hty & _). pose proof (accepts_nonzero _ _ Hacc).
  cbn [wire_chunk app]. rewrite run_u8. cbn [result_bind].
  destruct (Z.eqb_spec (bytecode_version c) 0); [lia|]. rewrite Hacc. cbn [negb].
  rewrite run_u8_second. cbn [result_bind].
  destruct (Z.leb_spec 1 (type_version c)), (Z.leb_spec (type_version c) 3); try lia.
  cbn [negb andb].
  pose proof (Parses_valid_body policy c Hc [bytecode_version c; type_version c] []) as E.
  rewrite app_nil_r in E. cbn [app length] in E. rewrite E. cbn [result_bind].
  unfold is_eof. cbn [r_bytes r_offset length]. rewrite Nat.eqb_refl. done.
Qed.

Lemma encode_wire_chunk policy c :
  encodable_chunk policy c -> typed_chunk c ->
  encode_chunk_with_policy c policy = Ok (wire_chunk c).
Proof.
  intros He Ht. destruct c as [c|message]; unfold encode_chunk_with_policy; [|done].
  destruct He as [Hacc He]. rewrite Hacc. cbn [negb]. cbv zeta.
  rewrite encode_protos_wire by done. cbn [result_bind]. f_equal.
  rewrite writer_var_eq. cbn [w_bytes].
  rewrite (Appends_each (fun s w => w |> writer_var_u64 (len s) |> writer_bytes s) wire_string)
    by (intros s w; unfold wire_string; by appends).
  rewrite (Appends_each (fun m w => w |> writer_u8 (um_type_index m) |> writer_var_u64 (um_name m))
    wire_mapping) by (intros m w; unfold wire_mapping; by appends).
  unfold wire_chunk, wire_vec. by appends.
Qed.

Lemma wf_encodable_proto version p : wf_proto version p -> encodable_proto version p.
Proof.
  intros [_ _ _ Hc _ _ _ _ _ _ _ Hcost]. split.
  - eapply Forall_impl; [exact Hc|]. by intros i [H _].
  - intros E. unfold wf_cost in Hcost. rewrite E in Hcost. destruct Hcost as (x & -> & _). done.
Qed.

Lemma wf_typed_proto version p : wf_proto version p -> typed_proto p.
Proof.
  intros [_ _ _ _ [_ Hk] _ _ _ _ _ _ _]. eapply Forall_impl; [exact Hk|]. apply wf_typed_constant.
Qed.

Lemma wf_encodable_chunk policy c : wf_chunk policy c -> encodable_chunk policy c /\ typed_chunk c.
Proof.
  destruct c as [c|]; [|done]. intros (Hacc & _ & _ & _ & [_ Hps] & _). split; [split; [done|]|].
  - eapply Forall_impl; [exact Hps|]. intros p [Hp _]. by apply wf_encodable_proto.
  - eapply Forall_impl; [exact Hps|]. intros p [Hp _]. by eapply wf_typed_proto.
Qed.
