(* ===== verification/DecodeSound.v ===== *)
(** * DecodeSound: what the decoder guarantees of its results

    A small Hoare logic for [Read] computations: [Reads k p P] says that a
    successful run of [p] keeps the input, advances the offset by at least [k]
    bytes, never past the end, and returns a value that satisfies [P]. With it
    every decoded chunk is shown to be representable again. *)

From Stdlib Require Import ZArith Lia.
From stdpp Require Import base numbers list strings.
From S2P Require Import Prelude Opcodes BytecodeTypes Codec WireFormat CodecFacts.

Local Open Scope Z_scope.

Create HintDb reads.

(** Inputs are byte strings below 8 GiB; a [u32] word counter cannot wrap on them. *)
Record reader_ok (r : Reader) : Prop := {
  ro_bytes : Forall is_u8 (r_bytes r);
  ro_offset : (r_offset r <= length (r_bytes r))%nat;
  ro_size : len (r_bytes r) < 8589934592
}.

(** [r'] is a later position of the same input. *)
Definition advanced (k : nat) (r r' : Reader) : Prop :=
  r_bytes r' = r_bytes r /\ (r_offset r + k <= r_offset r')%nat /\
  (r_offset r' <= length (r_bytes r))%nat.

Definition Reads {A} (k : nat) (p : Read A) (P : A -> Prop) : Prop :=
  forall r x r', reader_ok r -> p r = Ok (x, r') -> P x /\ advanced k r r'.

Lemma advanced_ok k r r' : reader_ok r -> advanced k r r' -> reader_ok r'.
Proof. intros [H1 H2 H3] (E & Hk & Hl). split; rewrite E; [done|lia|done]. Qed.

Lemma advanced_trans k1 k2 r1 r2 r3 :
  advanced k1 r1 r2 -> advanced k2 r2 r3 -> advanced (k1 + k2) r1 r3.
Proof. intros (E1 & H1 & L1) (E2 & H2 & L2). rewrite E1 in *. split_and!; [congruence|lia|lia]. Qed.

(** ** Rules *)

Lemma Reads_ret {A} (x : A) (P : A -> Prop) : P x -> Reads 0 (read_ret x) P.
Proof. intros HP r y r' [_ Ho _] [= <- <-]. split; [done|]. split_and!; [done|lia|done]. Qed.

Lemma Reads_fail {A} k e (P : A -> Prop) : Reads k (read_fail e) P.
Proof. intros r x r' _ [=]. Qed.

Lemma Reads_bind {A B} k1 k2 (p : Read A) (f : A -> Read B) (P : A -> Prop) (Q : B -> Prop) :
  Reads k1 p P -> (forall x, P x -> Reads k2 (f x) Q) -> Reads (k1 + k2) (read_bind p f) Q.
Proof.
  intros Hp Hf r y r' Hr H. unfold read_bind in H. destruct (p r) as [[x r1]|] eqn:E; [|done].
  destruct (Hp _ _ _ Hr E) as [HP Ha]. destruct (Hf x HP _ _ _ (advanced_ok _ _ _ Hr Ha) H).
  split; [done|]. by eapply advanced_trans.
Qed.

Lemma Reads_weaken {A} k k' (p : Read A) (P Q : A -> Prop) :
  Reads k p P -> (k' <= k)%nat -> (forall x, P x -> Q x) -> Reads k' p Q.
Proof.
  intros Hp Hk HPQ r x r' Hr H. destruct (Hp _ _ _ Hr H) as [HP (E & Ho & Hl)].
  split; [by apply HPQ|]. split_and!; [done|lia|done].
Qed.

(** Sequencing that forgets the consumption of its parts. *)
Lemma Reads_seq {A B} k1 k2 k (p : Read A) (f : A -> Read B) (P : A -> Prop) (Q : B -> Prop) :
  Reads k1 p P -> (forall x, P x -> Reads k2 (f x) Q) -> (k <= k1 + k2)%nat ->
  Reads k (read_bind p f) Q.
Proof. intros Hp Hf Hk. eapply Reads_weaken; [by eapply Reads_bind|done|done]. Qed.

Lemma Reads_times {A} k n (p : Read A) (P : A -> Prop) :
  Reads k p P -> Reads (n * k) (read_times n p) (fun xs => length xs = n /\ Forall P xs).
Proof.
  intros Hp. induction n as [|n IH]; [by apply Reads_ret|]. cbn [read_times].
  eapply Reads_bind; [exact Hp|]. intros x Hx.
  eapply Reads_seq; [exact IH| |]; [|by rewrite Nat.add_0_r].
  intros xs [Hl Hxs]. apply Reads_ret. split; [simpl; lia|by constructor].
Qed.

Lemma Reads_indexed {A} k n (p : Z -> Read A) (P : A -> Prop) index :
  (forall i, Reads k (p i) P) ->
  Reads (n * k) (read_indexed n index p) (fun xs => length xs = n /\ Forall P xs).
Proof.
  intros Hp. revert index. induction n as [|n IH]; intros index; [by apply Reads_ret|].
  cbn [read_indexed]. eapply Reads_bind; [apply Hp|]. intros x Hx.
  eapply Reads_seq; [apply IH| |]; [|by rewrite Nat.add_0_r].
  intros xs [Hl Hxs]. apply Reads_ret. split; [simpl; lia|by constructor].
Qed.

(** ** Primitive reads *)

Lemma Reads_bytes n label :
  0 <= n -> Reads (Z.to_nat n) (reader_bytes n label) (fun bs => len bs = n /\ Forall is_u8 bs).
Proof.
  intros Hn r x r' [Hb Ho _] H. unfold reader_bytes, remaining in H.
  destruct (Z.ltb_spec (len (r_bytes r) - Z.of_nat (r_offset r)) n); [done|].
  injection H as <- <-. unfold len in *. split; [split|split_and!]; cbn; try done; try lia.
  - rewrite length_take, length_drop. lia.
  - by apply Forall_take, Forall_drop.
Qed.

Lemma Reads_u8 label : Reads 1 (reader_u8 label) is_u8.
Proof.
  eapply (Reads_seq 1 0); [by apply (Reads_bytes 1)| |lia].
  intros bs [Hl Hb]. apply Reads_ret. destruct Hb; [done|]. done.
Qed.

Lemma Reads_fixed {A} (n : nat) label (f : list Z -> A) (P : A -> Prop) :
  (forall bs, len bs = Z.of_nat n -> Forall is_u8 bs -> P (f bs)) ->
  Reads n (let! bs := reader_bytes (Z.of_nat n) label in read_ret (f bs)) P.
Proof.
  intros Hf. eapply (Reads_seq n 0); [| |lia].
  - pose proof (Reads_bytes (Z.of_nat n) label ltac:(lia)) as H. rewrite Nat2Z.id in H. exact H.
  - intros bs [Hl Hb]. apply Reads_ret. by apply Hf.
Qed.

Lemma Reads_u32 label : Reads 4 (reader_u32 label) is_u32.
Proof.
  apply (Reads_fixed 4). intros bs Hl Hb. pose proof (from_le_bytes_bound bs Hb) as H.
  unfold len in Hl. rewrite Hl in H. exact H.
Qed.

Lemma Reads_u64 label : Reads 8 (reader_u64 label) is_u64.
Proof.
  apply (Reads_fixed 8). intros bs Hl Hb. pose proof (from_le_bytes_bound bs Hb) as H.
  unfold len in Hl. rewrite Hl in H. exact H.
Qed.

Lemma Reads_i32 label : Reads 4 (reader_i32 label) is_i32.
Proof. apply (Reads_fixed 4). intros. apply as_i32_range. Qed.

Lemma lor_u64 a b : is_u64 a -> is_u64 b -> is_u64 (Z.lor a b).
Proof.
  unfold is_u64. intros Ha Hb. split; [apply Z.lor_nonneg; lia|].
  change 18446744073709551616 with (2 ^ 64).
  destruct (Z.eq_dec (Z.lor a b) 0) as [->|Hne]; [done|].
  assert (0 <= Z.lor a b) by (apply Z.lor_nonneg; lia).
  apply Z.log2_lt_pow2; [lia|]. rewrite Z.log2_lor by lia.
  assert (forall x, 0 <= x < 2 ^ 64 -> Z.log2 x < 64) as Hx.
  { intros x Hx. destruct (Z.eq_dec x 0) as [->|]; [done|]. apply Z.log2_lt_pow2; lia. }
  apply Z.max_lub_lt; apply Hx; lia.
Qed.

Lemma Reads_var_loop fuel label result shift :
  is_u64 result -> Reads 1 (var_u64_loop fuel label result shift) is_u64.
Proof.
  revert result shift. induction fuel as [|fuel IH]; intros result shift Hr; cbn [var_u64_loop].
  { apply Reads_fail. }
  destruct (64 <=? shift); [apply Reads_fail|].
  eapply (Reads_seq 1 0); [apply Reads_u8| |lia]. intros b Hb. cbv zeta.
  assert (is_u64 (Z.lor result (as_u64 (Z.shiftl (Z.land b VARINT_PAYLOAD_MASK) shift)))) as Hl.
  { apply lor_u64; [done|]. unfold is_u64, as_u64. apply Z.mod_pos_bound. lia. }
  destruct (_ =? 0); [by apply Reads_ret|].
  eapply Reads_weaken; [by apply IH|lia|done].
Qed.

Lemma Reads_var_u64 label : Reads 1 (reader_var_u64 label) is_u64.
Proof. apply Reads_var_loop. unfold is_u64. lia. Qed.

Lemma Reads_var_u32 label : Reads 1 (reader_var_u32 label) is_u32.
Proof.
  eapply (Reads_seq 1 0); [apply Reads_var_u64| |lia]. intros v Hv. unfold u32_try_from.
  destruct (Z.leb_spec 0 v), (Z.ltb_spec v 4294967296); cbn;
    first [apply Reads_fail | apply Reads_ret; unfold is_u32; lia].
Qed.

Lemma Reads_vec {A} k label (p : Read A) (P : A -> Prop) :
  Reads k p P -> Reads 1 (read_vec label p) (wf_vec P).
Proof.
  intros Hp. eapply (Reads_seq 1 0); [apply Reads_var_u32| |lia]. intros n Hn.
  eapply Reads_weaken; [by apply Reads_times|lia|]. intros xs [Hl Hxs]. split; [|done].
  unfold len, is_u32 in *. lia.
Qed.

Lemma Reads_option {A} k label (p : Read A) (P : A -> Prop) :
  Reads k p P -> Reads 1 (read_option label p) (wf_option P).
Proof.
  intros Hp. eapply (Reads_seq 1 0); [apply Reads_u8| |lia]. intros b _.
  destruct (b =? 0); [by apply Reads_ret|].
  eapply (Reads_seq k 0); [exact Hp| |lia]. intros x Hx. by apply Reads_ret.
Qed.

Lemma Reads_four k (p : Read Z) (P : Z -> Prop) : Reads k p P -> Reads 0 (read_four p) (wf_four P).
Proof.
  intros Hp. unfold read_four.
  do 4 (eapply (Reads_seq k 0); [exact Hp| |lia]; intros ? ?). by apply Reads_ret.
Qed.

#[export] Hint Resolve Reads_u8 Reads_u32 Reads_u64 Reads_i32 Reads_var_u64 Reads_var_u32 : reads.

(** ** Composite reads *)

(** Runs one primitive read of a chain. *)
Ltac reads_step x H :=
  eapply (Reads_seq _ 0); [solve [eauto with reads]| |apply Nat.le_0_l]; intros x H.

Lemma Reads_shape : Reads 0 decode_class_shape wf_shape.
Proof.
  unfold decode_class_shape. reads_step n Hn. reads_step pc Hpc. reads_step mc Hmc.
  eapply (Reads_seq _ 0); [eapply Reads_times, Reads_var_u32| |lia]. intros ps [Hp Hps].
  eapply (Reads_seq _ 0); [eapply Reads_times, Reads_var_u32| |lia]. intros ms [Hm Hms].
  apply Reads_ret. unfold wf_shape, wf_vec, len, is_u32 in *. cbn. split_and!; (done || lia).
Qed.

Lemma Reads_entry : Reads 1 decode_table_entry wf_entry.
Proof.
  eapply (Reads_seq 1 0); [apply Reads_var_u32| |lia]. intros k Hk. reads_step v Hv.
  by apply Reads_ret.
Qed.

Lemma integer_of_wire_i64 neg m : is_i64 (integer_of_wire neg m).
Proof. unfold integer_of_wire. destruct neg; zcast. Qed.

Lemma Reads_constant : Reads 1 decode_constant wf_constant.
Proof.
  eapply (Reads_seq 1 0); [apply Reads_u8| |lia]. intros t _.
  destruct (constant_tag_from_byte t) as [tag|]; [|apply Reads_fail].
  destruct tag.
  - by apply Reads_ret.
  - reads_step b Hb. by apply Reads_ret.
  - reads_step b Hb. by apply Reads_ret.
  - reads_step b Hb. by apply Reads_ret.
  - reads_step b Hb. by apply Reads_ret.
  - eapply (Reads_seq _ 0); [eapply Reads_vec, Reads_var_u32| |lia]. intros ks Hks. by apply Reads_ret.
  - reads_step b Hb. by apply Reads_ret.
  - eapply (Reads_seq _ 0); [eapply Reads_four, Reads_u32| |lia]. intros v Hv. by apply Reads_ret.
  - eapply (Reads_seq _ 0); [eapply Reads_vec, Reads_entry| |lia]. intros es Hes. by apply Reads_ret.
  - reads_step s Hs. reads_step m Hm. apply Reads_ret, integer_of_wire_i64.
  - eapply (Reads_seq _ 0); [apply Reads_shape| |lia]. intros s Hs. by apply Reads_ret.
  - eapply (Reads_seq _ 0); [eapply Reads_four, Reads_u64| |lia]. intros v Hv. by apply Reads_ret.
Qed.

Lemma line_info_intervals_nonneg w s : 0 <= line_info_intervals w s.
Proof.
  unfold line_info_intervals, u32_saturating_sub.
  pose proof (proj2 (Z.shiftr_nonneg (Z.max 0 (w - 1)) s) ltac:(lia)). lia.
Qed.

Lemma Reads_line_info words : 0 <= words -> Reads 0 (decode_line_info words) (wf_line_info words).
Proof.
  intros Hw. unfold decode_line_info. reads_step s Hs.
  destruct (Z.leb_spec 32 s); [apply Reads_fail|].
  eapply (Reads_seq _ 0); [eapply Reads_times, Reads_u8| |lia]. intros ds [Hd Hds].
  eapply (Reads_seq _ 0); [eapply Reads_times, Reads_i32| |lia]. intros bs [Hb Hbs].
  apply Reads_ret. pose proof (line_info_intervals_nonneg words s).
  unfold wf_line_info, len, is_u8 in *. cbn. split_and!; (done || lia).
Qed.

Lemma Reads_debug_info : Reads 0 decode_debug_info wf_debug_info.
Proof.
  eapply (Reads_seq _ 0); [eapply (Reads_vec 0)| |lia].
  - unfold decode_debug_local. reads_step n Hn. reads_step s Hs. reads_step e He. reads_step g Hg.
    by apply (Reads_ret _ wf_debug_local).
  - intros ls Hls. eapply (Reads_seq _ 0); [eapply Reads_vec, Reads_var_u32| |lia].
    intros us Hus. by apply Reads_ret.
Qed.

Lemma Reads_slot : Reads 1 decode_feedback_slot wf_slot.
Proof.
  eapply (Reads_seq 1 0); [apply Reads_u8| |lia]. intros k _.
  destruct (feedback_type_from_byte k); [|apply Reads_fail]. reads_step pc Hpc. by apply Reads_ret.
Qed.

Lemma Reads_type_info : Reads 0 decode_type_info (fun t => wf_vec is_u8 (ti_raw t)).
Proof.
  unfold decode_type_info. reads_step n Hn.
  eapply (Reads_seq _ 0); [apply Reads_bytes; unfold is_u32 in Hn; lia| |lia].
  intros bs [Hl Hb]. apply Reads_ret. cbn. split; [by rewrite Hl|done].
Qed.

(** ** Code

    Four bytes have been consumed for every counted word, so the [u32] counter does not wrap. *)

Lemma from_words_wf header aux i :
  from_words header aux = Some i -> is_u32 header ->
  (match aux with Some a => is_u32 a | None => True end) ->
  aux_arity_ok i -> wf_instruction i.
Proof.
  intros H Hh Ha Har. pose proof (from_words_consistent _ _ _ H) as Hc.
  apply from_words_Some in H as (Eh & Ea & _). subst header aux. by split.
Qed.

Lemma from_words_opcode header aux i :
  from_words header aux = Some i ->
  from_byte (as_u8 (Z.land header 255)) = Some (ins_opcode i) /\ ins_aux i = aux.
Proof.
  intros H. apply from_words_Some in H as (_ & <- & H & _).
  rewrite land_255. unfold as_u8. by rewrite Zmod_mod.
Qed.

(** [Reads] for a computation started at or beyond offset [o]. *)
Definition ReadsFrom {A} (o : Z) (p : Read A) (P : A -> Prop) : Prop :=
  forall r x r', reader_ok r -> o <= Z.of_nat (r_offset r) -> p r = Ok (x, r') ->
    P x /\ advanced 0 r r'.

Lemma ReadsFrom_seq {A B} o k (p : Read A) (f : A -> Read B) (P : A -> Prop) (Q : B -> Prop) :
  Reads k p P -> (forall x, P x -> ReadsFrom (o + Z.of_nat k) (f x) Q) ->
  ReadsFrom o (read_bind p f) Q.
Proof.
  intros Hp Hf r y r' Hr Ho H. unfold read_bind in H. destruct (p r) as [[x r1]|] eqn:E; [|done].
  destruct (Hp _ _ _ Hr E) as [HP Ha]. pose proof Ha as (Eb & Hk & Hl).
  destruct (Hf x HP r1 y r' (advanced_ok _ _ _ Hr Ha) ltac:(lia) H) as [HQ Ha'].
  split; [done|]. pose proof (advanced_trans _ _ _ _ _ Ha Ha') as (E1 & H1 & H2).
  split_and!; [done|lia|done].
Qed.

Lemma ReadsFrom_fail {A} o e (P : A -> Prop) : ReadsFrom o (read_fail e) P.
Proof. intros r x r' _ _ [=]. Qed.

Lemma ReadsFrom_map {A B} o (p : Read A) (f : A -> B) (P : A -> Prop) (Q : B -> Prop) :
  ReadsFrom o p P -> (forall x, P x -> Q (f x)) -> ReadsFrom o (let! x := p in read_ret (f x)) Q.
Proof.
  intros Hp Hf r y r' Hr Ho H. unfold read_bind in H. destruct (p r) as [[x r1]|] eqn:E; [|done].
  injection H as <- <-. destruct (Hp _ _ _ Hr Ho E). split; [by apply Hf|done].
Qed.

(** The word counter stays small while [4 * word_index] bytes are behind us. *)
Lemma ReadsFrom_small {A} w (p : Read A) (P : A -> Prop) :
  (0 <= w < 2147483648 -> ReadsFrom (4 * w) p P) -> 0 <= w -> ReadsFrom (4 * w) p P.
Proof.
  intros H Hw r x r' Hr Ho. pose proof Hr as [_ Hl Hs]. unfold len in Hs.
  apply (H ltac:(lia) r x r' Hr Ho).
Qed.

Lemma ReadsFrom_code fuel code_words w :
  0 <= w <= code_words -> code_words < 4294967296 ->
  ReadsFrom (4 * w) (decode_code fuel code_words w)
    (fun ins => Forall wf_instruction ins /\ w + total_words ins = code_words).
Proof.
  revert w. induction fuel as [|fuel IH]; intros w Hw Hc; cbn [decode_code]; [apply ReadsFrom_fail|].
  apply ReadsFrom_small; [|lia]. intros Hs.
  destruct (Z.ltb_spec w code_words).
  2:{ intros r x r' [_ Ho _] _ [= <- <-]. split; [split; [constructor|cbn; lia]|].
      split_and!; [done|lia|done]. }
  eapply (ReadsFrom_seq _ 4); [apply Reads_u32|]. intros header Hh. cbv zeta.
  destruct (from_byte _) as [op|] eqn:Eop; [|apply ReadsFrom_fail].
  rewrite (as_u32_small (w + 1)) by (unfold is_u32; lia).
  rewrite (as_u32_small (w + 1 + _)) by
    (unfold is_u32; destruct (instruction_len_cases op) as [->| ->]; lia).
  destruct (Z.ltb_spec code_words (w + 1 + (instruction_len op - 1))); [apply ReadsFrom_fail|].
  destruct (instruction_len_cases op) as [El|El]; rewrite El in *; cbn [Z.sub Z.add Z.eqb Z.pos_sub Z.opp].
  - destruct (from_words header None) as [i|] eqn:Ei; [|apply ReadsFrom_fail].
    destruct (from_words_opcode _ _ _ Ei) as [Eo Ea]. rewrite Eop in Eo. injection Eo as ->.
    replace (4 * w + Z.of_nat 4) with (4 * (w + 1)) by lia.
    eapply ReadsFrom_map; [apply IH; lia|]. intros rest [Hr Ht].
    assert (word_len i = 1) as Ewl by (unfold word_len; by rewrite Ea). split.
    + constructor; [|done]. eapply from_words_wf; [done|done|done|]. unfold aux_arity_ok. lia.
    + cbn. fold (total_words rest). lia.
  - eapply (ReadsFrom_seq _ 4); [apply Reads_u32|]. intros aux Haux.
    destruct (from_words header (Some aux)) as [i|] eqn:Ei; [|apply ReadsFrom_fail].
    destruct (from_words_opcode _ _ _ Ei) as [Eo Ea]. rewrite Eop in Eo. injection Eo as ->.
    rewrite (as_u32_small (w + 1 + 1)) by (unfold is_u32; lia).
    replace (4 * w + Z.of_nat 4 + Z.of_nat 4) with (4 * (w + 1 + 1)) by lia.
    eapply ReadsFrom_map; [apply IH; lia|]. intros rest [Hr Ht].
    assert (word_len i = 2) as Ewl by (unfold word_len; by rewrite Ea). split.
    + constructor; [|done]. eapply from_words_wf; [done|done|done|]. unfold aux_arity_ok. lia.
    + cbn. fold (total_words rest). lia.
Qed.

Lemma Reads_code_body code_words :
  is_u32 code_words ->
  Reads 0 (fun r => decode_code (S (length (r_bytes r))) code_words 0 r)
    (fun ins => Forall wf_instruction ins /\ total_words ins = code_words).
Proof.
  intros Hc r ins r' Hr H. unfold is_u32 in Hc.
  destruct (ReadsFrom_code (S (length (r_bytes r))) code_words 0 ltac:(lia) ltac:(lia) r ins r' Hr
    ltac:(lia) H) as [[Hi Ht] Ha]. split; [split; [done|lia]|done].
Qed.

Lemma Reads_slots version :
  Reads 0 (if 11 <=? version then read_vec "feedback slot count" decode_feedback_slot
           else read_ret [])
    (fun ss => if 11 <=? version then wf_vec wf_slot ss else ss = []).
Proof.
  destruct (11 <=? version); [|by apply Reads_ret].
  eapply Reads_weaken; [eapply Reads_vec, Reads_slot|lia|done].
Qed.

Lemma Reads_cost (b : bool) :
  Reads 0 (if b then let! c := reader_var_u64 "proto cost" in read_ret (Some c) else read_ret None)
    (fun o => if b then exists c, o = Some c /\ is_u64 c else o = None).
Proof.
  destruct b; [|by apply Reads_ret]. reads_step c Hc. apply Reads_ret. by exists c.
Qed.

Lemma Reads_proto version : Reads 0 (decode_proto version) (wf_proto version).
Proof.
  unfold decode_proto. reads_step ms H1. reads_step np H2. reads_step nu H3. reads_step va H4.
  reads_step fl H5.
  eapply (Reads_seq _ 0); [apply Reads_type_info| |lia]. intros ti Hti.
  reads_step cw Hcw.
  eapply (Reads_seq _ 0); [by apply Reads_code_body| |lia]. intros ins [Hins Hw].
  eapply (Reads_seq _ 0); [eapply Reads_vec, Reads_constant| |lia]. intros ks Hks.
  eapply (Reads_seq _ 0); [eapply Reads_vec, Reads_var_u32| |lia]. intros cs Hcs.
  reads_step ld Hld. reads_step dn Hdn.
  eapply (Reads_seq _ 0); [eapply Reads_option, Reads_line_info; unfold is_u32 in Hcw; lia| |lia].
  intros li Hli.
  eapply (Reads_seq _ 0); [eapply Reads_option, Reads_debug_info| |lia]. intros di Hdi.
  eapply (Reads_seq _ 0); [apply Reads_slots| |lia]. intros ss Hss.
  eapply (Reads_seq _ 0); [apply Reads_cost| |lia]. intros c Hc.
  apply Reads_ret. subst cw. unfold is_u32 in Hcw. split; cbn [code]; [..|exact Hc]; try done; lia.
Qed.

Lemma Reads_one_proto version pi : Reads 0 (decode_one_proto version pi) (wf_proto version).
Proof.
  unfold decode_one_proto. destruct (has_extended_proto_layout version); cbn [negb];
    [|apply Reads_proto].
  reads_step sz Hsz.
  intros r p r' Hr H. unfold read_bind in H.
  destruct (reader_bytes sz _ r) as [[payload r1]|] eqn:E; [|done].
  destruct (Reads_bytes sz "proto payload" (proj1 Hsz) r payload r1 Hr E) as [[Hl Hb] Ha].
  destruct (decode_proto version (reader_new payload)) as [[p' pr]|] eqn:Ep; [|done].
  destruct (negb (is_eof pr)); [done|]. injection H as -> <-.
  destruct Ha as (E1 & H1 & H2). split; [|split_and!; [done|lia|done]].
  eapply Reads_proto; [|exact Ep]. split; cbn; [done|lia|]. unfold is_u32 in Hsz. lia.
Qed.

Lemma Reads_mappings fuel : Reads 0 (decode_mappings fuel) (Forall wf_mapping).
Proof.
  induction fuel as [|fuel IH]; cbn [decode_mappings]; [apply Reads_fail|].
  reads_step t Ht. destruct (Z.eqb_spec t 0) as [|Hne]; [by apply Reads_ret|].
  reads_step n Hn. eapply (Reads_seq _ 0); [exact IH| |lia]. intros ms Hms. apply Reads_ret.
  constructor; [|done]. unfold is_u8 in Ht. split; cbn; [lia|done].
Qed.

Lemma Reads_string_table : Reads 1 decode_string_table (wf_vec wf_string).
Proof.
  eapply (Reads_seq 1 0); [apply Reads_var_u32| |lia]. intros n Hn.
  eapply Reads_weaken; [apply (Reads_indexed 1 _ _ wf_string)|lia|].
  - intros i. eapply (Reads_seq 1 0); [apply Reads_var_u32| |lia]. intros m Hm.
    eapply Reads_weaken; [apply Reads_bytes; unfold is_u32 in Hm; lia|lia|].
    intros bs [Hl Hb]. split; [by rewrite Hl|done].
  - intros ss [Hl Hs]. split; [|done]. unfold len, is_u32 in *. lia.
Qed.

(** The parts of a decoded chunk, in any accepted version. *)
Definition decoded_ok (version type_version : Z) (c : ValidChunk) : Prop :=
  bytecode_version c = version /\ BytecodeTypes.type_version c = type_version /\
  wf_vec wf_string (strings c) /\ Forall wf_mapping (userdata_type_mappings c) /\
  wf_vec (wf_proto version) (protos c) /\ is_u32 (main_proto c).

Lemma Reads_valid_body version type_version :
  Reads 0 (decode_valid_body version type_version) (decoded_ok version type_version).
Proof.
  unfold decode_valid_body.
  eapply (Reads_seq _ 0); [apply Reads_string_table| |lia]. intros ss Hss.
  eapply (Reads_seq 0 0 _ _ _ (Forall wf_mapping));
    [intros r ms r' Hr H; by eapply Reads_mappings| |lia]. intros ms Hms.
  reads_step n Hn.
  eapply (Reads_seq _ 0); [eapply Reads_indexed; intros i; apply Reads_one_proto| |lia].
  intros ps [Hl Hps]. reads_step m Hm. apply Reads_ret. split_and!; try done.
  split; cbn; [|done]. unfold len, is_u32 in *. lia.
Qed.

Lemma decode_chunk_ok bs policy c :
  Forall is_u8 bs -> len bs < 8589934592 -> decode_chunk_with_policy bs policy = Ok (Valid c) ->
  decoded_ok (bytecode_version c) (type_version c) c /\
  accepts policy (bytecode_version c) = true /\ 1 <= type_version c <= 3.
Proof.
  intros Hb Hl. unfold decode_chunk_with_policy.
  assert (reader_ok (reader_new bs)) as Hr by (split; cbn; [done|lia|done]).
  destruct (reader_u8 _ (reader_new bs)) as [[v r1]|] eqn:E1; [|done]. cbn [result_bind].
  destruct (Reads_u8 _ _ _ _ Hr E1) as [_ Ha1]. pose proof (advanced_ok _ _ _ Hr Ha1) as Hr1.
  destruct (v =? 0); [done|]. destruct (accepts policy v) eqn:Eacc; [|done]. cbn [negb].
  destruct (reader_u8 _ r1) as [[t r2]|] eqn:E2; [|done]. cbn [result_bind].
  destruct (Reads_u8 _ _ _ _ Hr1 E2) as [_ Ha2]. pose proof (advanced_ok _ _ _ Hr1 Ha2) as Hr2.
  destruct (Z.leb_spec 1 t), (Z.leb_spec t 3); try done. cbn [negb andb].
  destruct (decode_valid_body v t r2) as [[c' r3]|] eqn:E3; [|done]. cbn [result_bind].
  destruct (negb (is_eof r3)); [done|]. intros [= ->].
  destruct (Reads_valid_body v t _ _ _ Hr2 E3) as [Hok _].
  pose proof Hok as (Ev & Et & _). rewrite Ev, Et. done.
Qed.

(** Outside the extended layout a decoded chunk is representable. *)
Lemma decoded_wf policy c :
  decoded_ok (bytecode_version c) (type_version c) c ->
  accepts policy (bytecode_version c) = true -> 1 <= type_version c <= 3 ->
  has_extended_proto_layout (bytecode_version c) = false -> wf_chunk policy (Valid c).
Proof.
  intros (_ & _ & Hs & Hm & [Hl Hp] & Hmain) Hacc Ht Hext. do 4 (split; [done|]).
  split; [|done]. split; [done|]. eapply Forall_impl; [exact Hp|]. intros p Hp'.
  split; [done|]. by rewrite Hext.
Qed.
