(* ===== verification/CodecTheorems.v ===== *)
(** * CodecTheorems: correctness of the bytecode codec

    The properties of [encode_chunk] and [decode_chunk] as a whole, proved from
    the refinement lemmas of [CodecFacts] and the Hoare rules of [DecodeSound]. *)

From Stdlib Require Import ZArith Lia.
From stdpp Require Import base numbers list strings.
From S2P Require Import Prelude Opcodes BytecodeTypes Codec WireFormat CodecFacts.
From S2P Require Import DecodeSound.

Local Open Scope Z_scope.

(** ** Sample data for the witnesses *)

Definition sample_return : Instruction := mkInstruction 65558 Op.Return 0 1 0 1 256 None.

Definition sample_getimport : Instruction :=
  mkInstruction 12 Op.GetImport 0 0 0 0 0 (Some 1073741824).

Definition sample_proto : Proto :=
  mkProto 2 0 0 1 0 (mkTypeInfo [1; 2]) [sample_getimport; sample_return]
    [Const.Import 1073741824; Const.String 1; Const.Integer (-5); Const.Boolean true;
     Const.TableWithConstants [mkTableEntry 1 (-1)]; Const.ClassShapeC (mkClassShape 1 [1] [])]
    [] 1 0 (Some (mkLineInfo 24 [1; 0; 0] [300])) (Some (mkDebugInfo [mkDebugLocal 1 0 2 1] []))
    [] None.

Definition sample_chunk : ValidChunk :=
  mkValidChunk 9 3 [[104; 105]] [mkUserdataTypeMapping 64 1] [sample_proto] 0.

Definition sample_bytes : list Z := wire_chunk (Valid sample_chunk).

(** ** Loops and fuel *)

Lemma remaining_advanced k r r' :
  advanced k r r' -> remaining r' + Z.of_nat k <= remaining r.
Proof. intros (E & H1 & H2). unfold remaining. rewrite E. lia. Qed.

Lemma remaining_nonneg r : reader_ok r -> 0 <= remaining r.
Proof. intros [_ H _]. unfold remaining, len. lia. Qed.

(** Two computations that agree after a common first step. *)
Lemma read_bind_agree {A B} k (p : Read A) (f g : A -> Read B) (P : A -> Prop) r :
  Reads k p P -> reader_ok r ->
  (forall x r', reader_ok r' -> remaining r' + Z.of_nat k <= remaining r -> f x r' = g x r') ->
  read_bind p f r = read_bind p g r.
Proof.
  intros Hp Hr H. unfold read_bind. destruct (p r) as [[x r']|] eqn:E; [|done].
  destruct (Hp _ _ _ Hr E) as [_ Ha]. apply H; [by eapply advanced_ok|].
  by apply remaining_advanced.
Qed.

Lemma decode_mappings_fuel f1 f2 r :
  reader_ok r -> remaining r < Z.of_nat f1 -> remaining r < Z.of_nat f2 ->
  decode_mappings f1 r = decode_mappings f2 r.
Proof.
  revert f2 r. induction f1 as [|f1 IH]; intros f2 r Hr H1 H2.
  { pose proof (remaining_nonneg r Hr). lia. }
  destruct f2 as [|f2]; [pose proof (remaining_nonneg r Hr); lia|]. cbn [decode_mappings].
  eapply (read_bind_agree 1); [apply Reads_u8|done|]. intros t r1 Hr1 E1. cbv beta.
  destruct (t =? 0); [done|].
  eapply (read_bind_agree 1); [apply Reads_var_u32|done|]. intros n r2 Hr2 E2.
  unfold read_bind. rewrite (IH f2 r2) by (done || lia). done.
Qed.

Lemma decode_code_fuel f1 f2 cw w r :
  reader_ok r -> remaining r < Z.of_nat f1 -> remaining r < Z.of_nat f2 ->
  decode_code f1 cw w r = decode_code f2 cw w r.
Proof.
  revert f2 w r. induction f1 as [|f1 IH]; intros f2 w r Hr H1 H2.
  { pose proof (remaining_nonneg r Hr). lia. }
  destruct f2 as [|f2]; [pose proof (remaining_nonneg r Hr); lia|]. cbn [decode_code].
  destruct (w <? cw); [|done].
  eapply (read_bind_agree 4); [apply Reads_u32|done|]. intros h r1 Hr1 E1. cbv zeta.
  destruct (from_byte _) as [op|]; [|done]. destruct (cw <? _); [done|].
  destruct (_ =? 1).
  - eapply (read_bind_agree 4); [apply Reads_u32|done|]. intros a r2 Hr2 E2.
    destruct (from_words h (Some a)); [|done].
    unfold read_bind. rewrite (IH f2 _ r2) by (done || lia). done.
  - destruct (from_words h None); [|done].
    unfold read_bind. rewrite (IH f2 _ r1) by (done || lia). done.
Qed.

Lemma decode_error_bytes bytes policy message :
  Forall is_u8 bytes -> decode_chunk_with_policy bytes policy = Ok (Error message) ->
  Forall is_u8 message.
Proof.
  intros Hb. unfold decode_chunk_with_policy.
  destruct (reader_u8 _ _) as [[v r]|]; [|done]. cbn [result_bind].
  destruct (v =? 0); [intros [= <-]; by apply Forall_drop|].
  destruct (accepts policy v); [|done]. cbn [negb].
  destruct (reader_u8 _ _) as [[t r']|]; [|done]. cbn [result_bind]. destruct (negb _); [done|].
  destruct (decode_valid_body v t r') as [[c r'']|]; [|done]. cbn [result_bind].
  by destruct (negb _).
Qed.

(** The public policy accepts no extended-layout version. *)
Lemma decode_public_wf bytes c :
  Forall is_u8 bytes -> len bytes < 8589934592 -> decode_chunk bytes = Ok c -> wf_chunk Public c.
Proof.
  intros Hb Hl H. destruct c as [c|message]; [|by eapply decode_error_bytes].
  destruct (decode_chunk_ok bytes Public c Hb Hl H) as (Hok & Ha & Ht).
  apply decoded_wf; try done. by rewrite (accepts_public _ Ha).
Qed.

(** ** Theorems *)

(** C1: Codec round trip: for both version policies, every chunk that the wire format
    can represent is encoded successfully, and decoding the produced bytes under the same
    policy gives back exactly that chunk. *)
Theorem codec_roundtrip policy c :
  wf_chunk policy c ->
  exists bytes, encode_chunk_with_policy c policy = Ok bytes /\
    decode_chunk_with_policy bytes policy = Ok c.
Proof.
  intros Hc. destruct (wf_encodable_chunk policy c Hc) as [He Ht].
  exists (wire_chunk c). split; [by apply encode_wire_chunk|by apply decode_wire_chunk].
Qed.

(** C8: Decoding is followed by a faithful re-encoding: whatever byte string (below
    8 GiB) the public decoder accepts, canonical or not, the decoded chunk can be encoded and
    the result decodes to the same chunk again. *)
Theorem decode_reencode bytes c :
  Forall is_u8 bytes -> len bytes < 8589934592 -> decode_chunk bytes = Ok c ->
  exists bytes', encode_chunk c = Ok bytes' /\ decode_chunk bytes' = Ok c.
Proof.
  intros Hb Hl H. assert (wf_chunk Public c) as Hc by (by eapply decode_public_wf).
  destruct (wf_encodable_chunk Public c Hc) as [He Ht].
  exists (wire_chunk c). split; [by apply encode_wire_chunk|by apply decode_wire_chunk].
Qed.

(** The encoder implements the wire grammar exactly: on a chunk whose integer
    constants are 64-bit it succeeds if and only if the version is accepted, every
    instruction's fields agree with its header word and every inlinable extended-layout
    proto has a cost; and then its output is the grammar's byte string. *)
Theorem encode_chunk_exact policy c bytes :
  typed_chunk c ->
  encode_chunk_with_policy c policy = Ok bytes <-> encodable_chunk policy c /\ bytes = wire_chunk c.
Proof.
  intros Ht. split; [|intros [He ->]; by apply encode_wire_chunk].
  intros H. assert (encodable_chunk policy c) as He; [|by rewrite encode_wire_chunk in H by done;
    injection H as <-].
  destruct c as [c|]; [|done]. unfold encode_chunk_with_policy in H. cbv zeta in H.
  destruct (accepts policy (bytecode_version c)) eqn:Ea; [|done]. cbn [negb] in H.
  split; [done|]. destruct (decide (Forall (encodable_proto (bytecode_version c)) (protos c)))
    as [|Hn]; [done|]. exfalso. revert H.
  match goal with |- context [encode_protos ?v ?i ?ps ?w] =>
    destruct (encode_protos_reject v i ps w Ht Hn) as [e ->] end. done.
Qed.

(** C10: Every chunk the decoder returns, under either policy, satisfies the invariants
    the rest of the system relies on: each instruction's operand fields agree with its header
    and it has an AUX word exactly when its opcode requires one, line info has one delta per
    code word and the matching number of baselines, and all ids fit their widths. *)
Theorem decode_chunk_invariant bytes policy c :
  Forall is_u8 bytes -> len bytes < 8589934592 ->
  decode_chunk_with_policy bytes policy = Ok (Valid c) ->
  accepts policy (bytecode_version c) = true /\ 1 <= type_version c <= 3 /\
  Forall (fun p =>
    Forall (fun i => is_header_consistent i = true /\
      (is_Some (ins_aux i) <-> instruction_len (ins_opcode i) = 2)) (code p) /\
    wf_option (wf_line_info (total_words (code p))) (line_info p) /\
    Forall wf_constant (constants p) /\ Forall is_u32 (child_protos p)) (protos c).
Proof.
  intros Hb Hl H. destruct (decode_chunk_ok bytes policy c Hb Hl H)
    as ((_ & _ & _ & _ & [_ Hps] & _) & Ha & Ht).
  split_and!; try done; try lia. eapply Forall_impl; [exact Hps|]. intros p Hp.
  destruct Hp as [_ _ _ Hcode [_ Hk] [_ Hch] _ _ Hli _ _ _]. split_and!; try done.
  eapply Forall_impl; [exact Hcode|]. intros i (Hc & Har & _).
  split; [by apply is_header_consistent_spec|]. unfold aux_arity_ok, word_len in Har.
  rewrite <- Har. destruct (ins_aux i); split; try done; intros [? ?]; done.
Qed.

(** Varint round trip: for every [u64] value and whatever surrounds it in the
    buffer, the bytes [write_varint] appends are read back by [var_u64] as that value,
    consuming exactly those bytes, and there are at most ten of them. *)
Theorem varint_roundtrip label prefix suffix v :
  is_u64 v ->
  exists enc, write_varint prefix v = prefix ++ enc /\ (0 < length enc <= 10)%nat /\
    reader_var_u64 label (mkReader (prefix ++ enc ++ suffix) (length prefix)) =
      Ok (v, mkReader (prefix ++ enc ++ suffix) (length prefix + length enc)).
Proof.
  intros Hv. exists (wire_var v). split; [apply write_varint_app|]. split.
  - split; [|apply (write_varint_loop_length 10)].
    destruct (wire_var v) eqn:E; [by apply wire_var_nonempty in E|simpl; lia].
  - by apply Parses_var_u64.
Qed.

(** A hostile element count cannot make the decoder over-allocate: whenever the
    string table decodes, the declared count was at most the bytes that remained after it, so
    the capped pre-allocation [cap(count)] equals the number of strings; equivalently a count
    above the remaining input makes the table fail. *)
Theorem string_count_bounded r ss r' :
  reader_ok r -> decode_string_table r = Ok (ss, r') ->
  exists count r1, reader_var_u32 "string count" r = Ok (count, r1) /\
    len ss = count /\ reader_cap r1 count = count.
Proof.
  intros Hr H. unfold decode_string_table in H. unfold read_bind in H at 1.
  destruct (reader_var_u32 "string count" r) as [[count r1]|] eqn:E; [|done].
  destruct (Reads_var_u32 _ _ _ _ Hr E) as [Hc Ha]. pose proof (advanced_ok _ _ _ Hr Ha) as Hr1.
  exists count, r1. split; [done|].
  destruct (Reads_indexed 1 (Z.to_nat count) (fun index =>
    let! n := reader_var_u32 "string length" in
    reader_bytes n ("string table entry " +:+ show (index + 1))) (fun _ => True) 0) with
    (r := r1) (x := ss) (r' := r') as [[Hl _] Hadv]; [|done|done|].
  - intros i. eapply (Reads_seq 1 0); [apply Reads_var_u32| |lia]. intros m Hm.
    eapply Reads_weaken; [apply Reads_bytes; unfold is_u32 in Hm; lia|lia|done].
  - pose proof (remaining_nonneg r' (advanced_ok _ _ _ Hr1 Hadv)).
    apply remaining_advanced in Hadv. unfold reader_cap, len, is_u32 in *. lia.
Qed.

(** The decoder's two open-ended loops terminate within their input: with any fuel
    above the remaining bytes the userdata-mapping loop and the instruction loop give the same
    result, so the bound the model passes to them never cuts a run short. *)
Theorem decode_loops_terminate r f code_words word_index :
  reader_ok r -> remaining r < Z.of_nat f ->
  decode_mappings f r = decode_mappings (S (length (r_bytes r))) r /\
  decode_code f code_words word_index r =
    decode_code (S (length (r_bytes r))) code_words word_index r.
Proof.
  intros Hr Hf. assert (remaining r < Z.of_nat (S (length (r_bytes r)))) as H
    by (unfold remaining, len; lia).
  split; [by apply decode_mappings_fuel|by apply decode_code_fuel].
Qed.

(** ** Witnesses *)

Ltac solve_wf :=
  repeat first
    [ progress (unfold wf_vec, wf_string, wf_mapping, wf_option, wf_line_info, wf_debug_info,
        wf_debug_local, wf_entry, wf_shape, wf_cost, wf_one_proto, wf_instruction, is_u8, is_u32,
        is_i32, is_i64, is_u64 in * )
    | progress cbn
    | split | constructor | done | lia | by vm_compute | intros ? ].

Lemma sample_proto_wf : wf_proto 9 sample_proto.
Proof. solve_wf. Qed.

Lemma sample_chunk_wf policy : wf_chunk policy (Valid sample_chunk).
Proof.
  split; [by destruct policy|]. split; [cbn; lia|]. split; [solve_wf|]. split; [solve_wf|].
  split; [|solve_wf]. split; [solve_wf|].
  constructor; [split; [apply sample_proto_wf|done]|constructor].
Qed.

Lemma sample_bytes_ok : Forall is_u8 sample_bytes /\ len sample_bytes < 8589934592.
Proof. split; [eval_decide|vm_compute; reflexivity]. Qed.

Lemma codec_roundtrip_witness :
  exists bytes, encode_chunk_with_policy (Valid sample_chunk) Public = Ok bytes /\
    decode_chunk_with_policy bytes Public = Ok (Valid sample_chunk).
Proof. apply codec_roundtrip, sample_chunk_wf. Defined.

Lemma decode_reencode_witness :
  exists bytes', encode_chunk (Valid sample_chunk) = Ok bytes' /\
    decode_chunk bytes' = Ok (Valid sample_chunk).
Proof.
  apply (decode_reencode sample_bytes); [apply sample_bytes_ok|apply sample_bytes_ok|].
  vm_compute. reflexivity.
Defined.

Lemma encode_chunk_exact_witness :
  encode_chunk_with_policy (Valid sample_chunk) Public = Ok sample_bytes.
Proof.
  apply encode_chunk_exact; [apply (wf_encodable_chunk Public), sample_chunk_wf|].
  split; [apply (wf_encodable_chunk Public), sample_chunk_wf|reflexivity].
Defined.

Lemma decode_chunk_invariant_witness : accepts UpstreamFixture (bytecode_version sample_chunk) = true.
Proof.
  apply (decode_chunk_invariant sample_bytes); [apply sample_bytes_ok|apply sample_bytes_ok|].
  vm_compute. reflexivity.
Defined.

Lemma varint_roundtrip_witness :
  exists enc, write_varint [7] 18446744073709551615 = [7] ++ enc /\ (0 < length enc <= 10)%nat /\
    reader_var_u64 "x" (mkReader ([7] ++ enc ++ [9]) 1) =
      Ok (18446744073709551615, mkReader ([7] ++ enc ++ [9]) (1 + length enc)).
Proof. apply (varint_roundtrip "x" [7] [9]). unfold is_u64. lia. Defined.

Lemma string_count_bounded_witness :
  exists count r1, reader_var_u32 "string count" (reader_new [2; 1; 65; 0]) = Ok (count, r1) /\
    len [[65]; []] = count /\ reader_cap r1 count = count.
Proof.
  apply (string_count_bounded _ _ (mkReader [2; 1; 65; 0] 4)); [|vm_compute; reflexivity].
  split; cbn; [repeat constructor; lia|lia|unfold len; simpl; lia].
Defined.

Lemma decode_loops_terminate_witness :
  decode_mappings 100 (reader_new [64; 1; 0]) = decode_mappings 4 (reader_new [64; 1; 0]).
Proof.
  apply (decode_loops_terminate (reader_new [64; 1; 0]) 100 0 0); [|vm_compute; reflexivity].
  split; cbn; [repeat constructor; lia|lia|unfold len; simpl; lia].
Defined.
