(* ===== verification/Validate.v ===== *)
(** * Validate: the structural validator ([ruau-bytecode/src/validate.rs])

    The validator walks a decoded chunk and pushes one [ValidationError] per
    failed check onto its error list. A step of it is a [Check], a function on
    that list; the borrowed string and proto tables of the [Validator] struct
    are the section variables. Every check keeps the code's message. The
    [cfg(test)] probe counters are left out. *)

From Stdlib Require Import ZArith Lia.
From stdpp Require Import base numbers list strings.
From S2P Require Import Prelude Opcodes BytecodeTypes LineInfo.

(** ** Errors *)

Module Kind.

Inductive ValidationErrorKind : Set :=
| UnsupportedVersion | InvalidProtoReference | InvalidStringReference
| InvalidConstantReference | InconsistentInstruction | InvalidAuxArity | InvalidAuxPayload
| InvalidJumpTarget | InvalidRegister | InvalidLineInfo | InvalidDebugInfo
| InvalidFeedbackSlot | InvalidClosureCapture | InvalidProtoMetadata.

End Kind.

Abbreviation ValidationErrorKind := Kind.ValidationErrorKind.

Record ValidationError : Set := mkValidationError {
  ve_proto_index : option nat;
  ve_instruction_index : option nat;
  ve_kind : ValidationErrorKind;
  ve_message : string
}.

(** ** Checks: statements on the validator's error list *)

Definition Check : Type := list ValidationError -> list ValidationError.

Definition pass : Check := fun errors => errors.

Definition and_then (f g : Check) : Check := fun errors => g (f errors).

Declare Scope check_scope.
Notation "f >>> g" := (and_then f g) (at level 60, right associativity) : check_scope.
Open Scope check_scope.

(** [if b { f }] *)
Definition when (b : bool) (f : Check) : Check := if b then f else pass.

(** [if let Some(x) = o { f }] *)
Definition when_some {A} (o : option A) (f : A -> Check) : Check :=
  match o with
  | Some x => f x
  | None => pass
  end.

(** [for x in l { body }] and [for (index, x) in l.iter().enumerate() { body }] *)
Definition for_each {A} (l : list A) (body : A -> Check) : Check :=
  fun errors => foldl (fun errors x => body x errors) errors l.

Fixpoint for_enumerate_from {A} (index : nat) (l : list A) (body : nat -> A -> Check) : Check :=
  match l with
  | [] => pass
  | x :: l' => body index x >>> for_enumerate_from (S index) l' body
  end.

Definition for_enumerate {A} (l : list A) (body : nat -> A -> Check) : Check :=
  for_enumerate_from 0 l body.

Definition show_nat (n : nat) : string := show (Z.of_nat n).

Definition push (proto_index instruction_index : option nat) (kind : ValidationErrorKind)
    (message : string) : Check :=
  fun errors => errors ++ [mkValidationError proto_index instruction_index kind message].

Definition push_chunk (kind : ValidationErrorKind) (message : string) : Check :=
  push None None kind message.

Definition push_proto (proto_index : nat) (kind : ValidationErrorKind) (message : string) : Check :=
  push (Some proto_index) None kind message.

Definition push_instruction (proto_index instruction_index : nat) (kind : ValidationErrorKind)
    (message : string) : Check :=
  push (Some proto_index) (Some instruction_index) kind message.

(** ** Instruction boundaries *)

Record InstructionBoundaryIndex : Set := mkBoundaries {
  word_offsets : list Z;
  instruction_words : list bool;
  code_words : Z
}.

(** The first loop of [new]: the offsets and the checked running word count. *)
Fixpoint boundary_offsets (next_word : Z) (code : list Instruction)
    : result string (list Z * Z) :=
  match code with
  | [] => Ok ([], next_word)
  | instruction :: code' =>
      let? next_word' := ok_or (u32_try_from (next_word + word_len instruction))
                               "proto code is too large" in
      let? (offsets, total) := boundary_offsets next_word' code' in
      Ok (next_word :: offsets, total)
  end.

(** [usize::try_from] of a [u32] succeeds on a 64-bit target. The assignments
    [instruction_words[word] = true] are in range, see [boundary_offsets_spec]. *)
Definition InstructionBoundaryIndex_new (code : list Instruction)
    : result string InstructionBoundaryIndex :=
  let? (word_offsets, next_word) := boundary_offsets 0 code in
  let instruction_words :=
    foldl (fun words word => <[Z.to_nat word := true]> words)
      (replicate (Z.to_nat next_word) false) word_offsets in
  Ok (mkBoundaries word_offsets instruction_words next_word).

Definition word_offset (self : InstructionBoundaryIndex) (instruction_index : nat) : option Z :=
  word_offsets self !! instruction_index.

Definition contains_instruction_word (self : InstructionBoundaryIndex) (word : Z) : bool :=
  default false (zget (instruction_words self) word).

Definition is_instruction_word (self : InstructionBoundaryIndex) (word : Z) : bool :=
  contains_instruction_word self word.

Definition is_instruction_word_i32 (self : InstructionBoundaryIndex) (word : Z) : bool :=
  match u32_try_from word with
  | None => false
  | Some word => contains_instruction_word self word
  end.

(** ** Operand policies *)

Module Reg.

Inductive RegisterPolicy : Set :=
| None_ | FastCall0 | FastCall1 | FastCall2 | FastCall3 | Capture | Call | Return | NameCall
| NumericFor | GenericForLoop | LoadNil | SetList | CompareJump | NewClass | A | AB | ABC | AC.

End Reg.

Abbreviation RegisterPolicy := Reg.RegisterPolicy.

Module Rf.

Inductive ReferencePolicy : Set :=
| None_ | DConstant | DImportConstant | LoadKx | AuxStringConstant | NewClosureChild
| DupClosureConstant | CConstant | BConstant | FastCall2K | JumpXEqKConstant | CallFb
| BUpvalue | AuxClassShapeConstant.

End Rf.

Abbreviation ReferencePolicy := Rf.ReferencePolicy.

Definition register_policy (opcode : Opcode) : RegisterPolicy :=
  match opcode with
  | Op.Nop | Op.Break | Op.Jump | Op.JumpBack | Op.Coverage | Op.NativeCall
  | Op.ForGPrepInext | Op.ForGPrepNext | Op.ForGPrep | Op.PrepVarargs | Op.JumpX => Reg.None_
  | Op.FastCall => Reg.FastCall0
  | Op.FastCall1 => Reg.FastCall1
  | Op.FastCall2 | Op.FastCall2K => Reg.FastCall2
  | Op.FastCall3 => Reg.FastCall3
  | Op.Capture => Reg.Capture
  | Op.Call | Op.CallFb => Reg.Call
  | Op.Return => Reg.Return
  | Op.NameCall | Op.NameCallUdata => Reg.NameCall
  | Op.ForNPrep | Op.ForNLoop => Reg.NumericFor
  | Op.ForGLoop => Reg.GenericForLoop
  | Op.LoadNil => Reg.LoadNil
  | Op.SetList => Reg.SetList
  | Op.NewClass => Reg.NewClass
  | Op.LoadB | Op.LoadN | Op.LoadK | Op.GetGlobal | Op.SetGlobal | Op.GetUpval
  | Op.SetUpval | Op.CloseUpvals | Op.GetImport | Op.GetVarargs | Op.NewClosure
  | Op.DupClosure | Op.LoadKx | Op.NewTable | Op.DupTable | Op.JumpIf | Op.JumpIfNot
  | Op.JumpXEqKNil | Op.JumpXEqKB | Op.JumpXEqKN | Op.JumpXEqKS | Op.CmpProto
  | Op.NewClassMember | Op.GetUdataKs | Op.SetUdataKs => Reg.A
  | Op.Move | Op.GetTableKs | Op.SetTableKs | Op.GetTableN | Op.SetTableN | Op.Not
  | Op.Minus | Op.Length | Op.And | Op.Or | Op.AndK | Op.OrK | Op.AddK | Op.SubK
  | Op.MulK | Op.DivK | Op.ModK | Op.PowK | Op.IDivK => Reg.AB
  | Op.GetTable | Op.SetTable | Op.Add | Op.Sub | Op.Mul | Op.Div | Op.Mod | Op.Pow
  | Op.IDiv | Op.Concat => Reg.ABC
  | Op.JumpIfEq | Op.JumpIfLe | Op.JumpIfLt | Op.JumpIfNotEq | Op.JumpIfNotLe
  | Op.JumpIfNotLt => Reg.CompareJump
  | Op.SubRk | Op.DivRk => Reg.AC
  end.

Definition reference_policy (opcode : Opcode) : ReferencePolicy :=
  match opcode with
  | Op.Nop | Op.Break | Op.LoadNil | Op.LoadB | Op.LoadN | Op.Move | Op.CloseUpvals
  | Op.GetTable | Op.SetTable | Op.GetTableN | Op.SetTableN | Op.Call | Op.Return
  | Op.Jump | Op.JumpBack | Op.JumpIf | Op.JumpIfNot | Op.JumpIfEq | Op.JumpIfLe
  | Op.JumpIfLt | Op.JumpIfNotEq | Op.JumpIfNotLe | Op.JumpIfNotLt | Op.Add | Op.Sub
  | Op.Mul | Op.Div | Op.Mod | Op.Pow | Op.And | Op.Or | Op.Concat | Op.Not | Op.Minus
  | Op.Length | Op.NewTable | Op.DupTable | Op.SetList | Op.ForNPrep | Op.ForNLoop
  | Op.ForGLoop | Op.ForGPrepInext | Op.FastCall3 | Op.ForGPrepNext | Op.NativeCall
  | Op.GetVarargs | Op.PrepVarargs | Op.JumpX | Op.FastCall | Op.FastCall1
  | Op.FastCall2 | Op.Coverage | Op.Capture | Op.ForGPrep | Op.JumpXEqKNil
  | Op.JumpXEqKB | Op.IDiv | Op.CmpProto => Rf.None_
  | Op.NewClass => Rf.AuxClassShapeConstant
  | Op.LoadK => Rf.DConstant
  | Op.GetImport => Rf.DImportConstant
  | Op.DupClosure => Rf.DupClosureConstant
  | Op.LoadKx => Rf.LoadKx
  | Op.GetGlobal | Op.SetGlobal | Op.GetTableKs | Op.SetTableKs | Op.NameCall
  | Op.GetUdataKs | Op.SetUdataKs | Op.NameCallUdata | Op.NewClassMember => Rf.AuxStringConstant
  | Op.NewClosure => Rf.NewClosureChild
  | Op.AddK | Op.SubK | Op.MulK | Op.DivK | Op.ModK | Op.PowK | Op.AndK | Op.OrK
  | Op.IDivK => Rf.CConstant
  | Op.FastCall2K => Rf.FastCall2K
  | Op.JumpXEqKN | Op.JumpXEqKS => Rf.JumpXEqKConstant
  | Op.SubRk | Op.DivRk => Rf.BConstant
  | Op.CallFb => Rf.CallFb
  | Op.GetUpval | Op.SetUpval => Rf.BUpvalue
  end.

Definition proto_id_is_valid (proto : Z) (protos : list Proto) : bool := proto <? len protos.

Definition generic_for_loop_variable_count (aux : Z) : Z :=
  as_u8 (Z.min (Z.land aux (as_u32 (Z.lnot FORGLOOP_INEXT_BIT))) 255).

(** [Some target] reports the word an invalid jump lands on. *)
Definition invalid_jump_target (code : list Instruction) (boundaries : InstructionBoundaryIndex)
    (instruction_index : nat) : option Z :=
  match code !! instruction_index with
  | None => None
  | Some instruction =>
      match jump_offset_words instruction with
      | None => None
      | Some _ =>
          match word_offset boundaries instruction_index with
          | None => None
          | Some source_word =>
              match jump_target_word instruction source_word with
              | None => None
              | Some target =>
                  if bool_decide (u32_try_from target = Some (code_words boundaries))
                     && match last code with
                        | Some instruction => bool_decide (ins_opcode instruction = Op.Return)
                        | None => false
                        end
                  then None
                  else if is_instruction_word_i32 boundaries target then None else Some target
              end
          end
      end
  end.

(** ** Elementary checks *)

Definition check_constant_id (proto_index : nat) (proto : Proto) (id : Z) (context : string)
    : Check :=
  when (len (constants proto) <=? id)
    (push_proto proto_index Kind.InvalidConstantReference
       (context +:+ " constant id " +:+ show id +:+ " is outside "
        +:+ show (len (constants proto)) +:+ " constants")).

Definition check_string_constant_id (proto_index : nat) (proto : Proto) (id : Z)
    (context : string) : Check :=
  match zget (constants proto) id with
  | None =>
      push_proto proto_index Kind.InvalidConstantReference
        (context +:+ " string constant id " +:+ show id +:+ " is outside "
         +:+ show (len (constants proto)) +:+ " constants")
  | Some (Const.String _) => pass
  | Some _ =>
      push_proto proto_index Kind.InvalidConstantReference
        (context +:+ " constant id " +:+ show id +:+ " is not a string constant")
  end.

Definition check_register (proto_index instruction_index : option nat) (proto : Proto)
    (register : Z) (context : string) : Check :=
  when (max_stack_size proto <=? register)
    (push proto_index instruction_index Kind.InvalidRegister
       (context +:+ " register " +:+ show register +:+ " exceeds max_stack_size "
        +:+ show (max_stack_size proto))).

(** The end of the range is computed in [u16]. *)
Definition check_register_range (proto_index instruction_index : option nat) (proto : Proto)
    (start count : Z) (context : string) : Check :=
  if count =? 0 then pass
  else
    let end_ := as_u16 (start + count - 1) in
    when (max_stack_size proto <=? end_)
      (push proto_index instruction_index Kind.InvalidRegister
         (context +:+ " register range " +:+ show start +:+ "..=" +:+ show end_
          +:+ " exceeds max_stack_size " +:+ show (max_stack_size proto))).

Definition check_register_u32 (proto_index instruction_index : option nat) (proto : Proto)
    (register : Z) (context : string) : Check :=
  when (max_stack_size proto <=? register)
    (push proto_index instruction_index Kind.InvalidRegister
       (context +:+ " register " +:+ show register +:+ " exceeds max_stack_size "
        +:+ show (max_stack_size proto))).

Definition check_upvalue (proto_index instruction_index : nat) (proto : Proto) (upvalue : Z)
    (context : string) : Check :=
  when (num_upvalues proto <=? upvalue)
    (push_instruction proto_index instruction_index Kind.InvalidProtoMetadata
       (context +:+ " " +:+ show upvalue +:+ " exceeds proto num_upvalues "
        +:+ show (num_upvalues proto))).

(** ** Registers *)

(** [for (register, label) in operands] of the plain operand policies. *)
Definition check_operands (pi ii : option nat) (proto : Proto) (operands : list (Z * string))
    : Check :=
  for_each operands (fun '(register, label) => check_register pi ii proto register label).

Definition validate_register_operands (proto_index : nat) (proto : Proto)
    (instruction_index : nat) (instruction : Instruction) : Check :=
  let pi := Some proto_index in
  let ii := Some instruction_index in
  let a := ins_a instruction in
  let b := ins_b instruction in
  let c := ins_c instruction in
  match register_policy (ins_opcode instruction) with
  | Reg.None_ | Reg.FastCall0 | Reg.Capture => pass
  | Reg.FastCall1 => check_register pi ii proto b "fastcall argument"
  | Reg.FastCall2 =>
      check_register pi ii proto b "fastcall first argument" >>>
      when (bool_decide (ins_opcode instruction = Op.FastCall2))
        (when_some (ins_aux instruction) (fun aux =>
           check_register pi ii proto (as_u8 (Z.land aux 255)) "fastcall second argument"))
  | Reg.FastCall3 =>
      check_register pi ii proto b "fastcall first argument" >>>
      when_some (ins_aux instruction) (fun aux =>
        check_register pi ii proto (as_u8 (Z.land aux 255)) "fastcall second argument" >>>
        check_register pi ii proto (as_u8 (Z.land (Z.shiftr aux 8) 255))
          "fastcall third argument")
  | Reg.Call =>
      check_register pi ii proto a "call function" >>>
      check_register_range pi ii proto a (u8_saturating_sub b 1) "call arguments" >>>
      when (0 <? c) (check_register_range pi ii proto a (u8_saturating_sub c 1) "call results")
  | Reg.Return =>
      check_register_range pi ii proto a (u8_saturating_sub b 1) "return values"
  | Reg.NameCall =>
      check_register_range pi ii proto a 2 "namecall output" >>>
      check_register pi ii proto b "namecall receiver"
  | Reg.NumericFor => check_register_range pi ii proto a 3 "numeric for registers"
  | Reg.GenericForLoop =>
      let variable_count :=
        match ins_aux instruction with
        | Some aux => generic_for_loop_variable_count aux
        | None => 0
        end in
      check_register_range pi ii proto a (u8_saturating_add variable_count 3)
        "generic for registers"
  | Reg.LoadNil => check_register_range pi ii proto a (u8_saturating_add b 1) "loadnil range"
  | Reg.SetList =>
      check_register pi ii proto a "setlist table" >>>
      (if 0 <? c
       then check_register_range pi ii proto b (u8_saturating_sub c 1) "setlist values"
       else check_register pi ii proto b "setlist first value")
  | Reg.CompareJump =>
      check_register pi ii proto a "compare jump left operand" >>>
      when_some (ins_aux instruction) (fun aux =>
        check_register_u32 pi ii proto aux "compare jump right operand")
  | Reg.NewClass =>
      check_register pi ii proto a "new class output" >>>
      when (negb (b =? 255)) (check_register pi ii proto b "new class superclass")
  | Reg.A => check_operands pi ii proto [(a, "A operand")]
  | Reg.AB => check_operands pi ii proto [(a, "A operand"); (b, "B operand")]
  | Reg.ABC =>
      check_operands pi ii proto [(a, "A operand"); (b, "B operand"); (c, "C operand")]
  | Reg.AC => check_operands pi ii proto [(a, "A operand"); (c, "C operand")]
  end.

(** ** Payloads and references *)

Definition is_fastcall (op : Opcode) : bool :=
  match op with
  | Op.FastCall | Op.FastCall1 | Op.FastCall2 | Op.FastCall2K | Op.FastCall3 => true
  | _ => false
  end.

(** The early [return] on an unknown capture kind also skips the NEWCLASS check,
    which cannot apply to a CAPTURE. *)
Definition validate_opcode_specific_payload (proto_index : nat) (proto : Proto)
    (instruction_index : nat) (instruction : Instruction) : Check :=
  let a := ins_a instruction in
  when (is_fastcall (ins_opcode instruction))
    (when ((a =? BuiltinFunction_NONE) || (BuiltinFunction_BUFFER_WRITEINTEGER <? a))
       (push_instruction proto_index instruction_index Kind.InvalidAuxPayload
          ("fastcall builtin id " +:+ show a +:+ " is invalid")) >>>
     when (ins_c instruction =? 0)
       (push_instruction proto_index instruction_index Kind.InvalidJumpTarget
          "fastcall skip offset is zero")) >>>
  let new_class :=
    when (bool_decide (ins_opcode instruction = Op.NewClass) && (1 <? ins_c instruction))
      (push_instruction proto_index instruction_index Kind.InvalidAuxPayload
         ("NEWCLASS flags " +:+ show (ins_c instruction) +:+ " use reserved bits")) in
  if bool_decide (ins_opcode instruction = Op.Capture) then
    match capture_type_from_byte a with
    | None =>
        push_instruction proto_index instruction_index Kind.InvalidAuxPayload
          ("capture kind " +:+ show a +:+ " is invalid")
    | Some Cap.Val | Some Cap.Ref =>
        check_register (Some proto_index) (Some instruction_index) proto (ins_b instruction)
          "capture source" >>> new_class
    | Some Cap.Upval =>
        check_upvalue proto_index instruction_index proto (ins_b instruction)
          "capture source upvalue" >>> new_class
    end
  else new_class.

(** The early [return]s on a negative operand skip the payload checks, the final
    statement of the function; [go] is the way to it. *)
Definition validate_instruction_references (proto_index : nat) (proto : Proto)
    (instruction_index : nat) (instruction : Instruction) : Check :=
  let aux := ins_aux instruction in
  let d := ins_d instruction in
  let fail := push_instruction proto_index instruction_index in
  let go check :=
    check >>>
    validate_opcode_specific_payload proto_index proto instruction_index instruction in
  match reference_policy (ins_opcode instruction) with
  | Rf.None_ => go pass
  | Rf.DConstant =>
      match u32_try_from d with
      | None => fail Kind.InvalidConstantReference "D constant operand is negative"
      | Some constant_id =>
          go (check_constant_id proto_index proto constant_id "D constant operand")
      end
  | Rf.DImportConstant =>
      match u32_try_from d with
      | None => fail Kind.InvalidConstantReference "GETIMPORT D constant operand is negative"
      | Some constant_id =>
          go (check_constant_id proto_index proto constant_id "GETIMPORT D constant" >>>
                match zget (constants proto) constant_id with
                | Some (Const.Import import_id) =>
                    when (bool_decide (aux <> Some import_id))
                      (fail Kind.InvalidAuxPayload
                         "GETIMPORT AUX does not match its import constant")
                | Some _ =>
                    fail Kind.InvalidConstantReference
                      ("GETIMPORT constant id " +:+ show constant_id +:+ " is not an import")
                | None => pass
                end)
      end
  | Rf.LoadKx =>
      go (when_some aux (fun constant =>
              check_constant_id proto_index proto constant "LOADKX constant"))
  | Rf.AuxStringConstant =>
      go (when_some aux (fun string =>
              check_string_constant_id proto_index proto string "string AUX"))
  | Rf.NewClosureChild =>
      if d <? 0 then fail Kind.InvalidProtoReference "NEWCLOSURE child index is negative"
      else
        go (when (len (child_protos proto) <=? d)
                (fail Kind.InvalidProtoReference
                   ("NEWCLOSURE child index " +:+ show d +:+ " outside "
                    +:+ show (len (child_protos proto)) +:+ " child protos")))
  | Rf.DupClosureConstant =>
      match u32_try_from d with
      | None => fail Kind.InvalidConstantReference "D closure constant operand is negative"
      | Some constant_id =>
          go (check_constant_id proto_index proto constant_id "D closure constant" >>>
                match zget (constants proto) constant_id with
                | Some (Const.Closure _) => pass
                | _ =>
                    fail Kind.InvalidConstantReference
                      ("D closure constant id " +:+ show constant_id
                       +:+ " is not a closure constant")
                end)
      end
  | Rf.CConstant =>
      go (check_constant_id proto_index proto (as_u32 (ins_c instruction))
              "C constant operand")
  | Rf.FastCall2K =>
      go (when_some aux (fun constant =>
              check_constant_id proto_index proto constant "fastcall constant AUX"))
  | Rf.JumpXEqKConstant =>
      go (when_some aux (fun constant =>
              check_constant_id proto_index proto (Z.land constant JUMPX_K_INDEX_MASK)
                "jump constant AUX"))
  | Rf.BConstant =>
      go (check_constant_id proto_index proto (as_u32 (ins_b instruction))
              "B constant operand")
  | Rf.CallFb =>
      go (when_some aux (fun slot =>
              when (len (feedback_slots proto) <=? slot)
                (fail Kind.InvalidFeedbackSlot
                   ("CALLFB slot " +:+ show slot +:+ " outside "
                    +:+ show (len (feedback_slots proto)) +:+ " feedback slots"))))
  | Rf.BUpvalue =>
      go (check_upvalue proto_index instruction_index proto (ins_b instruction)
              "B upvalue operand")
  | Rf.AuxClassShapeConstant =>
      go (when_some aux (fun constant_id =>
              check_constant_id proto_index proto constant_id "NEWCLASS class-shape AUX" >>>
              match zget (constants proto) constant_id with
              | Some (Const.ClassShapeC _) => pass
              | _ =>
                  fail Kind.InvalidConstantReference
                    ("NEWCLASS AUX constant id " +:+ show constant_id
                     +:+ " is not a class shape")
              end))
  end.

(** ** Instructions *)

Definition aux_words (instruction : Instruction) : Z :=
  match ins_aux instruction with Some _ => 1 | None => 0 end.

Definition validate_instruction (proto_index : nat) (proto : Proto)
    (boundaries : InstructionBoundaryIndex) (instruction_index : nat)
    (instruction : Instruction) : Check :=
  if negb (is_header_consistent instruction) then
    push_instruction proto_index instruction_index Kind.InconsistentInstruction
      (opcode_debug (ins_opcode instruction)
       +:+ " decoded operand fields do not match encoded header word 0x"
       +:+ hex 8 (ins_header instruction))
  else
    let expected_aux := instruction_len (ins_opcode instruction) - 1 in
    if negb (aux_words instruction =? expected_aux) then
      push_instruction proto_index instruction_index Kind.InvalidAuxArity
        (opcode_debug (ins_opcode instruction) +:+ " has " +:+ show (aux_words instruction)
         +:+ " AUX words, expected " +:+ show expected_aux)
    else
      when_some (invalid_jump_target (code proto) boundaries instruction_index) (fun target =>
        push_instruction proto_index instruction_index Kind.InvalidJumpTarget
          (opcode_debug (ins_opcode instruction) +:+ " jumps to word " +:+ show target
           +:+ ", outside instruction boundaries 0.." +:+ show (code_words boundaries))) >>>
      validate_register_operands proto_index proto instruction_index instruction >>>
      validate_instruction_references proto_index proto instruction_index instruction.

(** ** The validator proper: checks that read the chunk's tables *)

Section Validator.

(** The fields [strings] and [protos] of the [Validator] struct. *)
Variable self_strings : list (list Z).
Variable self_protos : list Proto.

Definition check_string_id (proto_index instruction_index : option nat) (id : Z)
    (context : string) : Check :=
  when (len self_strings <? id)
    (push proto_index instruction_index Kind.InvalidStringReference
       (context +:+ " string id " +:+ show id +:+ " is outside " +:+ show (len self_strings)
        +:+ " strings")).

(** [for index in 0..count] as the list of indices. *)
Definition import_components (import_id : Z) : list Z :=
  map (fun index => Z.land (Z.shiftr import_id (import_component_shift index))
                      IMPORT_PATH_COMPONENT_MASK)
    (map Z.of_nat (seq 0 (Z.to_nat (Z.shiftr import_id IMPORT_PATH_COUNT_SHIFT)))).

Definition validate_constant (proto_index : nat) (proto : Proto) (constant_index : nat)
    (constant : Constant) : Check :=
  match constant with
  | Const.Nil | Const.Boolean _ | Const.Number _ | Const.Vector _ | Const.VectorDouble _
  | Const.Integer _ => pass
  | Const.String string => check_string_id (Some proto_index) None string "string constant"
  | Const.Import import_id =>
      let count := Z.shiftr import_id IMPORT_PATH_COUNT_SHIFT in
      if negb ((1 <=? count) && (count <=? 3)) then
        push_proto proto_index Kind.InvalidConstantReference
          ("import constant " +:+ show_nat constant_index +:+ " has path count " +:+ show count)
      else
        for_each (import_components import_id) (fun constant_id =>
          check_string_constant_id proto_index proto constant_id "import path component")
  | Const.Table keys =>
      for_each keys (fun key => check_constant_id proto_index proto key "table key")
  | Const.Closure closure_proto =>
      when (negb (proto_id_is_valid closure_proto self_protos))
        (push_proto proto_index Kind.InvalidProtoReference
           ("closure constant " +:+ show_nat constant_index +:+ " proto id "
            +:+ show closure_proto +:+ " is outside " +:+ show (len self_protos)
            +:+ " protos"))
  | Const.TableWithConstants entries =>
      for_each entries (fun entry =>
        check_constant_id proto_index proto (te_key entry) "table-with-constants key" >>>
        when (0 <=? te_value entry)
          (check_constant_id proto_index proto (as_u32 (te_value entry))
             "table-with-constants value"))
  | Const.ClassShapeC shape =>
      check_string_constant_id proto_index proto (cs_class_name shape) "class shape name" >>>
      for_each (cs_property_names shape) (fun name =>
        check_string_constant_id proto_index proto name "class shape property") >>>
      for_each (cs_method_names shape) (fun name =>
        check_string_constant_id proto_index proto name "class shape method")
  end.

(** *** Closure captures *)

Definition closure_child_proto_id (proto : Proto) (instruction : Instruction) : option Z :=
  match ins_opcode instruction with
  | Op.NewClosure => zget (child_protos proto) (as_u16 (ins_d instruction))
  | Op.DupClosure =>
      match zget (constants proto) (as_u16 (ins_d instruction)) with
      | Some (Const.Closure closure_proto) => Some closure_proto
      | _ => None
      end
  | _ => None
  end.

(** The inner loop [for capture_offset in 0..expected] from the capture
    [expected - remaining]; it marks captures in [expected_capture] and stops at
    its first error. *)
Fixpoint capture_scan (remaining : nat) (proto_index : nat) (proto : Proto)
    (instruction_index : nat) (instruction : Instruction) (child_proto_id : Z)
    (expected : nat) (expected_capture : list bool) (errors : list ValidationError)
    : list bool * list ValidationError :=
  match remaining with
  | O => (expected_capture, errors)
  | S remaining' =>
      let capture_offset := (expected - remaining)%nat in
      let capture_index := (instruction_index + 1 + capture_offset)%nat in
      match code proto !! capture_index with
      | None =>
          (expected_capture,
           push_instruction proto_index instruction_index Kind.InvalidClosureCapture
             (opcode_debug (ins_opcode instruction) +:+ " for child proto "
              +:+ show child_proto_id +:+ " expects " +:+ show_nat expected
              +:+ " capture instruction(s), but code ended after "
              +:+ show_nat capture_offset) errors)
      | Some capture =>
          if bool_decide (ins_opcode capture = Op.Capture) then
            capture_scan remaining' proto_index proto instruction_index instruction
              child_proto_id expected (<[capture_index := true]> expected_capture) errors
          else
            (expected_capture,
             push_instruction proto_index capture_index Kind.InvalidClosureCapture
               (opcode_debug (ins_opcode instruction) +:+ " for child proto "
                +:+ show child_proto_id +:+ " expects CAPTURE at instruction "
                +:+ show_nat capture_index +:+ ", found "
                +:+ opcode_debug (ins_opcode capture)) errors)
      end
  end.

(** One round of the first loop; the two [continue]s return the state unchanged. *)
Definition capture_round (proto_index : nat) (proto : Proto) (instruction_index : nat)
    (instruction : Instruction) (state : list bool * list ValidationError)
    : list bool * list ValidationError :=
  match closure_child_proto_id proto instruction with
  | None => state
  | Some child_proto_id =>
      match zget self_protos child_proto_id with
      | None => state
      | Some child_proto =>
          let expected := Z.to_nat (num_upvalues child_proto) in
          capture_scan expected proto_index proto instruction_index instruction child_proto_id
            expected state.1 state.2
      end
  end.

Fixpoint capture_rounds (proto_index : nat) (proto : Proto) (instruction_index : nat)
    (rest : list Instruction) (state : list bool * list ValidationError)
    : list bool * list ValidationError :=
  match rest with
  | [] => state
  | instruction :: rest' =>
      capture_rounds proto_index proto (S instruction_index) rest'
        (capture_round proto_index proto instruction_index instruction state)
  end.

Definition validate_closure_captures (proto_index : nat) (proto : Proto) : Check :=
  fun errors =>
    let '(expected_capture, errors) :=
      capture_rounds proto_index proto 0 (code proto)
        (replicate (length (code proto)) false, errors) in
    for_enumerate (code proto) (fun instruction_index instruction =>
      when (bool_decide (ins_opcode instruction = Op.Capture)
            && negb (default false (expected_capture !! instruction_index)))
        (push_instruction proto_index instruction_index Kind.InvalidClosureCapture
           "CAPTURE instruction is not attached to a closure instruction")) errors.

(** *** Protos and chunks *)

Definition validate_line_info (proto_index : nat) (code_words : Z) (line_info : LineInfo)
    : Check :=
  when (negb (as_u32 (len (delta_bytes line_info)) =? code_words))
    (push_proto proto_index Kind.InvalidLineInfo
       ("line info has " +:+ show (len (delta_bytes line_info)) +:+ " deltas for "
        +:+ show code_words +:+ " instruction words")) >>>
  match to_line_numbers line_info with
  | Some lines =>
      if as_u32 (len lines) =? code_words then pass
      else push_proto proto_index Kind.InvalidLineInfo
             ("line info decodes to " +:+ show (len lines) +:+ " lines for "
              +:+ show code_words +:+ " instruction words")
  | None => push_proto proto_index Kind.InvalidLineInfo "line info does not decode"
  end.

Definition validate_debug_info (proto_index : nat) (proto : Proto) (code_words : Z)
    (debug_info : DebugInfo) : Check :=
  when (negb (len (di_upvalues debug_info) =? num_upvalues proto))
    (push_proto proto_index Kind.InvalidDebugInfo
       ("debug info has " +:+ show (len (di_upvalues debug_info))
        +:+ " upvalues for proto num_upvalues " +:+ show (num_upvalues proto))) >>>
  for_each (di_upvalues debug_info) (fun name =>
    check_string_id (Some proto_index) None name "debug upvalue name") >>>
  for_each (di_locals debug_info) (fun local =>
    check_string_id (Some proto_index) None (dl_name local) "debug local name" >>>
    check_register (Some proto_index) None proto (dl_register local) "debug local" >>>
    when ((dl_end_pc local <? dl_start_pc local) || (code_words <? dl_end_pc local))
      (push_proto proto_index Kind.InvalidDebugInfo
         ("debug local pc range " +:+ show (dl_start_pc local) +:+ ".."
          +:+ show (dl_end_pc local) +:+ " is outside 0.." +:+ show code_words))).

(** The checks before the instruction boundaries are known. *)
Definition validate_proto_tables (proto_index : nat) (proto : Proto) : Check :=
  when (max_stack_size proto <? num_params proto)
    (push_proto proto_index Kind.InvalidProtoMetadata
       ("num_params " +:+ show (num_params proto) +:+ " exceeds max_stack_size "
        +:+ show (max_stack_size proto))) >>>
  check_string_id (Some proto_index) None (debug_name proto) "debug name" >>>
  for_each (child_protos proto) (fun child =>
    when (negb (proto_id_is_valid child self_protos))
      (push_proto proto_index Kind.InvalidProtoReference
         ("child proto id " +:+ show child +:+ " is outside " +:+ show (len self_protos)
          +:+ " protos"))) >>>
  for_enumerate (constants proto) (fun constant_index constant =>
    validate_constant proto_index proto constant_index constant).

Definition validate_proto (proto_index : nat) (proto : Proto) : Check :=
  validate_proto_tables proto_index proto >>>
  match InstructionBoundaryIndex_new (code proto) with
  | Err message => push_proto proto_index Kind.InvalidProtoMetadata message
  | Ok boundaries =>
      let code_words := code_words boundaries in
      for_enumerate (code proto) (fun instruction_index instruction =>
        validate_instruction proto_index proto boundaries instruction_index instruction) >>>
      when_some (line_info proto) (validate_line_info proto_index code_words) >>>
      when_some (debug_info proto) (validate_debug_info proto_index proto code_words) >>>
      for_enumerate (feedback_slots proto) (fun slot_index slot =>
        when (negb (is_instruction_word boundaries (fs_pc slot)))
          (push_proto proto_index Kind.InvalidFeedbackSlot
             ("feedback slot " +:+ show_nat slot_index +:+ " pc " +:+ show (fs_pc slot)
              +:+ " is not an instruction"))) >>>
      validate_closure_captures proto_index proto
  end.

End Validator.

Definition validate_chunk_inner (chunk : BytecodeChunk) (version_policy : BytecodeVersionPolicy)
    : list ValidationError :=
  match chunk with
  | Error _ => []
  | Valid c =>
      if negb (accepts version_policy (bytecode_version c)) then
        [mkValidationError None None Kind.UnsupportedVersion
           (unsupported_version_message version_policy (bytecode_version c))]
      else
        (when (negb (proto_id_is_valid (main_proto c) (protos c)))
           (push_chunk Kind.InvalidProtoReference
              ("main proto id " +:+ show (main_proto c) +:+ " is outside "
               +:+ show (len (protos c)) +:+ " protos")) >>>
         for_each (userdata_type_mappings c) (fun mapping =>
           check_string_id (strings c) None None (um_name mapping)
             "userdata type mapping name") >>>
         for_enumerate (protos c) (fun proto_index proto =>
           validate_proto (strings c) (protos c) proto_index proto)) []
  end.

Definition validate_chunk (chunk : BytecodeChunk) : list ValidationError :=
  validate_chunk_inner chunk Public.

Definition validate_upstream_fixture_chunk (chunk : BytecodeChunk) : list ValidationError :=
  validate_chunk_inner chunk UpstreamFixture.
