(* ===== verification/ValidSpec.v ===== *)
(** * ValidSpec: what a structurally valid chunk is

    The abstract contract of the validator, independent of the order in which
    [Validate] runs its checks and of the errors it reports: every instruction is
    the decoding of its header word, has the AUX arity of its opcode, jumps to an
    instruction start (or to the end of code that ends in a RETURN) and only
    names registers, upvalues, constants, children and feedback slots that exist;
    closures are followed by exactly the captures their child proto needs; line
    and debug tables fit the code. *)

From Stdlib Require Import ZArith Lia.
From stdpp Require Import base numbers list strings.
From S2P Require Import Prelude Opcodes BytecodeTypes LineInfo WireFormat Validate.

(** ** References of an instruction *)

Inductive Ref : Set :=
| RReg (register : Z)
| RUpvalue (upvalue : Z)
| RConst (id : Z)
| RStringConst (id : Z)
| RImportConst (id : Z) (import_id : option Z)
| RClosureConst (id : Z)
| RShapeConst (id : Z)
| RTableConst (id : Z)
| RChild (index : Z)
| RSlot (slot : Z).

Definition ref_ok (p : Proto) (r : Ref) : Prop :=
  match r with
  | RReg register => register < max_stack_size p
  | RUpvalue upvalue => upvalue < num_upvalues p
  | RConst id => 0 <= id < len (constants p)
  | RStringConst id => exists s, zget (constants p) id = Some (Const.String s)
  | RImportConst id import_id =>
      exists i, zget (constants p) id = Some (Const.Import i) /\ import_id = Some i
  | RClosureConst id => exists q, zget (constants p) id = Some (Const.Closure q)
  | RShapeConst id => exists s, zget (constants p) id = Some (Const.ClassShapeC s)
  | RTableConst id =>
      exists keys, zget (constants p) id = Some (Const.Table keys) \/
        exists entries, zget (constants p) id = Some (Const.TableWithConstants entries)
  | RChild index => 0 <= index < len (child_protos p)
  | RSlot slot => 0 <= slot < len (feedback_slots p)
  end.

(** The [count] registers from [start]. *)
Definition registers (start count : Z) : list Ref := map RReg (seqZ start count).

(** A two-word instruction's AUX word. *)
Definition aux_refs (i : Instruction) (f : Z -> list Ref) : list Ref :=
  match ins_aux i with Some aux => f aux | None => [] end.

(** The variables of a generic loop. *)
Definition loop_variables (aux : Z) : Z := Z.min 255 (aux mod 2147483648).

(** The registers an instruction names: those the interpreter reads and writes in running it
    ([ruau-vm/src/execute/mod.rs], [precall] of [call.rs]), or, for the opcodes it does not run,
    those the compiler puts there; userdata access has the operands of table access. An open
    count ([B] or [C] of zero) adds nothing. *)
Definition register_operands (i : Instruction) : list Ref :=
  let a := ins_a i in
  let b := ins_b i in
  let c := ins_c i in
  match ins_opcode i with
  | Op.Nop | Op.Break | Op.Coverage | Op.NativeCall | Op.PrepVarargs | Op.Capture | Op.FastCall
  | Op.Jump | Op.JumpBack | Op.JumpX | Op.ForGPrepInext | Op.ForGPrepNext => []
  | Op.LoadB | Op.LoadN | Op.LoadK | Op.LoadKx | Op.GetGlobal | Op.SetGlobal | Op.GetImport
  | Op.GetUpval | Op.SetUpval | Op.CloseUpvals | Op.NewClosure | Op.DupClosure | Op.NewTable
  | Op.DupTable | Op.JumpIf | Op.JumpIfNot | Op.JumpXEqKNil | Op.JumpXEqKB | Op.JumpXEqKN
  | Op.JumpXEqKS | Op.CmpProto => [RReg a]
  | Op.Move | Op.Not | Op.Minus | Op.Length | Op.AndK | Op.OrK | Op.AddK | Op.SubK | Op.MulK
  | Op.DivK | Op.ModK | Op.PowK | Op.IDivK | Op.GetTableKs | Op.SetTableKs | Op.GetTableN
  | Op.SetTableN | Op.GetUdataKs | Op.SetUdataKs => [RReg a; RReg b]
  | Op.SubRk | Op.DivRk => [RReg a; RReg c]
  | Op.GetTable | Op.SetTable | Op.Add | Op.Sub | Op.Mul | Op.Div | Op.Mod | Op.Pow | Op.IDiv
  | Op.And | Op.Or => [RReg a; RReg b; RReg c]
  | Op.Concat => [RReg a; RReg b; RReg c] ++ registers b (c - b + 1)
  | Op.LoadNil => registers a (b + 1)
  | Op.NameCall | Op.NameCallUdata => [RReg a; RReg (a + 1); RReg b]
  | Op.Call | Op.CallFb => RReg a :: registers (a + 1) (b - 1) ++ registers a (c - 1)
  | Op.Return => registers a (b - 1)
  | Op.GetVarargs => RReg a :: registers a (b - 1)
  | Op.SetList => RReg a :: (if c =? 0 then [RReg b] else registers b (c - 1))
  | Op.ForNPrep | Op.ForNLoop | Op.ForGPrep => registers a 3
  | Op.ForGLoop =>
      registers a 3 ++ aux_refs i (fun aux => registers (a + 3) (loop_variables aux))
  | Op.JumpIfEq | Op.JumpIfLe | Op.JumpIfLt | Op.JumpIfNotEq | Op.JumpIfNotLe
  | Op.JumpIfNotLt => RReg a :: aux_refs i (fun aux => [RReg aux])
  | Op.FastCall1 | Op.FastCall2K => [RReg b]
  | Op.FastCall2 => RReg b :: aux_refs i (fun aux => [RReg (aux mod 256)])
  | Op.FastCall3 => RReg b :: aux_refs i (fun aux => [RReg (aux mod 256); RReg (aux / 256 mod 256)])
  | Op.NewClass => RReg a :: (if b =? 255 then [] else [RReg b])
  | Op.NewClassMember => [RReg a; RReg c]
  end.

(** The entries of the proto's tables an instruction names. *)
Definition table_operands (i : Instruction) : list Ref :=
  match ins_opcode i with
  | Op.LoadK => [RConst (ins_d i)]
  | Op.LoadKx | Op.FastCall2K => aux_refs i (fun aux => [RConst aux])
  | Op.GetImport => [RImportConst (ins_d i) (ins_aux i)]
  | Op.GetGlobal | Op.SetGlobal | Op.GetTableKs | Op.SetTableKs | Op.NameCall | Op.GetUdataKs
  | Op.SetUdataKs | Op.NameCallUdata | Op.NewClassMember => aux_refs i (fun aux => [RStringConst aux])
  | Op.NewClosure => [RChild (ins_d i)]
  | Op.DupClosure => [RClosureConst (ins_d i)]
  | Op.DupTable => [RTableConst (ins_d i)]
  | Op.AddK | Op.SubK | Op.MulK | Op.DivK | Op.ModK | Op.PowK | Op.IDivK | Op.AndK | Op.OrK =>
      [RConst (ins_c i)]
  | Op.SubRk | Op.DivRk => [RConst (ins_b i)]
  | Op.JumpXEqKN | Op.JumpXEqKS => aux_refs i (fun aux => [RConst (aux mod 16777216)])
  | Op.GetUpval | Op.SetUpval => [RUpvalue (ins_b i)]
  | Op.CallFb => aux_refs i (fun aux => [RSlot aux])
  | Op.NewClass => aux_refs i (fun aux => [RShapeConst aux])
  | _ => []
  end.

(** The source of a capture. *)
Definition capture_refs (i : Instruction) : list Ref :=
  match capture_type i with
  | Some Cap.Val | Some Cap.Ref => [RReg (ins_b i)]
  | Some Cap.Upval => [RUpvalue (ins_b i)]
  | None => []
  end.

Definition instruction_refs (i : Instruction) : list Ref :=
  register_operands i ++ table_operands i ++ capture_refs i.

(** What the validator leaves out of these: the last argument of a call, the second operand of
    AND and OR, the variables of GETVARARGS behind the first, the control registers that FORGPREP
    sets up, the 256th register and later ones of LOADNIL and of a generic loop, whose counts it
    computes in eight bits, the object of a userdata access, the method of NEWCLASSMEMBER, and the
    template of DUPTABLE. *)
Definition overlooked_refs (i : Instruction) : list Ref :=
  let a := ins_a i in
  let b := ins_b i in
  match ins_opcode i with
  | Op.Call | Op.CallFb => if 1 <? b then [RReg (a + b - 1)] else []
  | Op.And | Op.Or | Op.NewClassMember => [RReg (ins_c i)]
  | Op.GetVarargs => registers (a + 1) (b - 2)
  | Op.ForGPrep => registers a 3
  | Op.LoadNil => registers (a + 255) (b - 254)
  | Op.ForGLoop => aux_refs i (fun aux => registers (a + 255) (loop_variables aux - 252))
  | Op.GetUdataKs | Op.SetUdataKs => [RReg b]
  | Op.DupTable => [RTableConst (ins_d i)]
  | _ => []
  end.

(** Operands that are not references. *)
Definition payload_ok (i : Instruction) : Prop :=
  (is_fastcall (ins_opcode i) = true -> 1 <= ins_a i <= 132 /\ ins_c i <> 0) /\
  (ins_opcode i = Op.Capture -> is_Some (capture_type i)) /\
  (ins_opcode i = Op.NewClass -> ins_c i <= 1).

(** ** Instructions *)

Definition instruction_start (code : list Instruction) (word : Z) : Prop :=
  exists j, (j < length code)%nat /\ word_of code j = word.

Definition ends_in_return (code : list Instruction) : Prop :=
  exists i, last code = Some i /\ ins_opcode i = Op.Return.

Definition jump_ok (code : list Instruction) (k : nat) (i : Instruction) : Prop :=
  forall target, jump_target_word i (word_of code k) = Some target ->
    instruction_start code target \/ (target = total_words code /\ ends_in_return code).

(** Validity with respect to the references [refs] that instructions are taken to have. *)
Section References.
Context (refs : Instruction -> list Ref).

Record valid_instruction (p : Proto) (k : nat) (i : Instruction) : Prop := {
  vi_consistent : consistent i;
  vi_aux_arity : aux_arity_ok i;
  vi_jump : jump_ok (code p) k i;
  vi_refs : Forall (ref_ok p) (refs i);
  vi_payload : payload_ok i
}.

(** ** Protos and chunks *)

Section Tables.
Context (ss : list (list Z)) (ps : list Proto).

(** String id zero is the empty string, so the table length itself is an id. *)
Definition string_ok (id : Z) : Prop := id <= len ss.

Definition proto_ok (id : Z) : Prop := id < len ps.

Definition constant_ok (p : Proto) (c : Constant) : Prop :=
  match c with
  | Const.String s => string_ok s
  | Const.Import import_id =>
      1 <= import_id / 1073741824 <= 3 /\
      Forall (fun id => ref_ok p (RStringConst id)) (import_components import_id)
  | Const.Table keys => Forall (fun id => ref_ok p (RConst id)) keys
  | Const.Closure q => proto_ok q
  | Const.TableWithConstants entries =>
      Forall (fun e => ref_ok p (RConst (te_key e)) /\
                       (0 <= te_value e -> ref_ok p (RConst (te_value e)))) entries
  | Const.ClassShapeC s =>
      Forall (fun id => ref_ok p (RStringConst id))
        (cs_class_name s :: cs_property_names s ++ cs_method_names s)
  | _ => True
  end.

(** Instruction [k] creates a closure of [child]. *)
Definition closure_at (p : Proto) (k : nat) (child : Proto) : Prop :=
  exists i q, code p !! k = Some i /\ closure_child_proto_id p i = Some q /\
    zget ps q = Some child.

Definition capture_at (p : Proto) (k : nat) : Prop :=
  exists i, code p !! k = Some i /\ ins_opcode i = Op.Capture.

(** [k] is one of the capture slots of the closure at [k0]. *)
Definition capture_slot (p : Proto) (k : nat) : Prop :=
  exists k0 child, closure_at p k0 child /\
    (k0 < k <= k0 + Z.to_nat (num_upvalues child))%nat.

(** The captures of a proto are exactly the capture slots of its closures. *)
Definition captures_ok (p : Proto) : Prop := forall k, capture_slot p k <-> capture_at p k.

Record valid_proto (p : Proto) : Prop := {
  vp_params : num_params p <= max_stack_size p;
  vp_name : string_ok (debug_name p);
  vp_children : Forall proto_ok (child_protos p);
  vp_constants : Forall (constant_ok p) (constants p);
  vp_words : total_words (code p) < 4294967296;
  vp_code : forall k i, code p !! k = Some i -> valid_instruction p k i;
  vp_line_info : forall li, line_info p = Some li ->
    len (delta_bytes li) = total_words (code p) /\
    exists lines, to_line_numbers li = Some lines /\ len lines = total_words (code p);
  vp_debug_info : forall di, debug_info p = Some di ->
    len (di_upvalues di) = num_upvalues p /\
    Forall string_ok (di_upvalues di) /\
    Forall (fun l => string_ok (dl_name l) /\ dl_register l < max_stack_size p /\
                     dl_start_pc l <= dl_end_pc l <= total_words (code p)) (di_locals di);
  vp_feedback : Forall (fun s => instruction_start (code p) (fs_pc s)) (feedback_slots p);
  vp_captures : captures_ok p
}.

End Tables.

Definition valid_chunk_of (policy : BytecodeVersionPolicy) (c : ValidChunk) : Prop :=
  accepts policy (bytecode_version c) = true /\
  proto_ok (protos c) (main_proto c) /\
  Forall (fun m => string_ok (strings c) (um_name m)) (userdata_type_mappings c) /\
  Forall (valid_proto (strings c) (protos c)) (protos c).
End References.

(** Structural validity: with everything an instruction names. *)
Definition valid_chunk : BytecodeVersionPolicy -> ValidChunk -> Prop := valid_chunk_of instruction_refs.

(** What the validator leaves out happens to exist. *)
Definition overlooked_exist (c : ValidChunk) : Prop :=
  Forall (fun p => Forall (fun i => Forall (ref_ok p) (overlooked_refs i)) (code p)) (protos c).

(** ** Values of the Rust types

    The fields that the checks read are values of their machine types; nothing
    else is assumed of the chunk. *)

Definition rust_proto (p : Proto) : Prop :=
  Forall (fun i => match ins_aux i with Some aux => is_u32 aux | None => True end) (code p) /\
  Forall wf_constant (constants p) /\
  match line_info p with
  | Some li => is_u32 (len (delta_bytes li))
  | None => True
  end.

Definition rust_chunk (c : ValidChunk) : Prop := Forall rust_proto (protos c).
