(* ===== verification/ValidateFacts.v ===== *)
(** * ValidateFacts: the checks decide the specification

    [Checks ps f P] says that the check [f] only appends errors, that it appends
    none exactly when [P] holds, and that each appended error points into the
    proto table [ps]. The lemmas below lift it through the control structures of
    the validator and establish it for every check, up to [validate_proto]. *)

From Stdlib Require Import ZArith Lia.
From stdpp Require Import base numbers list strings.
From S2P Require Import Prelude Opcodes BytecodeTypes LineInfo WireFormat.
From S2P Require Import Validate ValidSpec.

(** ** What the policies account to an instruction *)

(** Registers the validator accounts to an instruction. *)
Definition register_refs (i : Instruction) : list Ref :=
  let a := ins_a i in
  let b := ins_b i in
  let c := ins_c i in
  match register_policy (ins_opcode i) with
  | Reg.None_ | Reg.FastCall0 | Reg.Capture => []
  | Reg.FastCall1 => [RReg b]
  | Reg.FastCall2 =>
      RReg b :: (if decide (ins_opcode i = Op.FastCall2)
                 then aux_refs i (fun aux => [RReg (aux mod 256)]) else [])
  | Reg.FastCall3 =>
      RReg b :: aux_refs i (fun aux => [RReg (aux mod 256); RReg (aux / 256 mod 256)])
  | Reg.Call =>
      RReg a :: registers a (b - 1) ++ registers a (c - 1)
  | Reg.Return => registers a (b - 1)
  | Reg.NameCall => registers a 2 ++ [RReg b]
  | Reg.NumericFor => registers a 3
  | Reg.GenericForLoop =>
      let variables := match ins_aux i with Some aux => aux mod 2147483648 | None => 0 end in
      registers a (Z.min 255 (variables + 3))
  | Reg.LoadNil => registers a (Z.min 255 (b + 1))
  | Reg.SetList => RReg a :: (if 0 <? c then registers b (c - 1) else [RReg b])
  | Reg.CompareJump => RReg a :: aux_refs i (fun aux => [RReg aux])
  | Reg.NewClass => RReg a :: (if b =? 255 then [] else [RReg b])
  | Reg.A => [RReg a]
  | Reg.AB => [RReg a; RReg b]
  | Reg.ABC => [RReg a; RReg b; RReg c]
  | Reg.AC => [RReg a; RReg c]
  end.

(** Table entries the validator accounts to an instruction. *)
Definition table_refs (i : Instruction) : list Ref :=
  match reference_policy (ins_opcode i) with
  | Rf.None_ => []
  | Rf.DConstant => [RConst (ins_d i)]
  | Rf.DImportConstant => [RImportConst (ins_d i) (ins_aux i)]
  | Rf.LoadKx | Rf.FastCall2K => aux_refs i (fun aux => [RConst aux])
  | Rf.AuxStringConstant => aux_refs i (fun aux => [RStringConst aux])
  | Rf.NewClosureChild => [RChild (ins_d i)]
  | Rf.DupClosureConstant => [RClosureConst (ins_d i)]
  | Rf.CConstant => [RConst (ins_c i)]
  | Rf.BConstant => [RConst (ins_b i)]
  | Rf.JumpXEqKConstant => aux_refs i (fun aux => [RConst (aux mod 16777216)])
  | Rf.CallFb => aux_refs i (fun aux => [RSlot aux])
  | Rf.BUpvalue => [RUpvalue (ins_b i)]
  | Rf.AuxClassShapeConstant => aux_refs i (fun aux => [RShapeConst aux])
  end.

Definition accounted_refs (i : Instruction) : list Ref :=
  register_refs i ++ table_refs i ++ capture_refs i.

(** ** Error locations *)

Definition located_at (ps : list Proto) (proto_index instruction_index : option nat) : Prop :=
  match proto_index, instruction_index with
  | None, None => True
  | None, Some _ => False
  | Some pi, None => (pi < length ps)%nat
  | Some pi, Some k => exists p, ps !! pi = Some p /\ (k < length (code p))%nat
  end.

Definition located (ps : list Proto) (e : ValidationError) : Prop :=
  located_at ps (ve_proto_index e) (ve_instruction_index e).

Definition Checks (ps : list Proto) (f : Check) (P : Prop) : Prop :=
  exists new, (forall errors, f errors = errors ++ new) /\ (new = [] <-> P) /\
    Forall (located ps) new.

Create HintDb checks.

(** ** Control structures *)

Section Control.
Context (ps : list Proto).

Lemma Checks_iff f P P' : Checks ps f P -> (P <-> P') -> Checks ps f P'.
Proof. intros (new & H & HP & HQ) E. exists new. split_and!; [done|tauto|done]. Qed.

#[export] Instance Checks_proper f : Proper (iff ==> iff) (Checks ps f).
Proof. intros P P' E. split; intros H; (eapply Checks_iff; [exact H|]); tauto. Qed.

Lemma Checks_pass : Checks ps pass True.
Proof. exists []. split_and!; [|done|constructor]. intros. by rewrite app_nil_r. Qed.

Lemma Checks_push pi ii kind message :
  located_at ps pi ii -> Checks ps (push pi ii kind message) False.
Proof. intros H. eexists [_]. split_and!; [done|done|]. by constructor. Qed.

Lemma Checks_push_proto pi kind message :
  (pi < length ps)%nat -> Checks ps (push_proto pi kind message) False.
Proof. intros H. by apply Checks_push. Qed.

Lemma Checks_push_instruction pi p k kind message :
  ps !! pi = Some p -> (k < length (code p))%nat ->
  Checks ps (push_instruction pi k kind message) False.
Proof. intros H Hk. apply Checks_push. by exists p. Qed.

Lemma Checks_seq f g P R : Checks ps f P -> Checks ps g R -> Checks ps (f >>> g) (P /\ R).
Proof.
  intros (new & H & HP & HQ) (new' & H' & HP' & HQ'). exists (new ++ new').
  split_and!; [|rewrite app_nil; tauto|by apply Forall_app].
  intros errors. unfold and_then. by rewrite H, H', app_assoc.
Qed.

Lemma Checks_when (b : bool) f P :
  (b = true -> Checks ps f P) -> Checks ps (when b f) (b = true -> P).
Proof.
  unfold when. destruct b; intros H.
  - eapply Checks_iff; [by apply H|]. tauto.
  - eapply Checks_iff; [apply Checks_pass|]. split; [done|done].
Qed.

(** The common form [if b { push error }]. *)
Lemma Checks_unless (b : bool) f :
  (b = true -> Checks ps f False) -> Checks ps (when b f) (b = false).
Proof.
  intros H. eapply Checks_iff; [by apply Checks_when|]. destruct b; split; [done..| |]; done || auto.
Qed.

Lemma Checks_some {A} (o : option A) f (P : A -> Prop) :
  (forall x, o = Some x -> Checks ps (f x) (P x)) ->
  Checks ps (when_some o f) (forall x, o = Some x -> P x).
Proof.
  intros H. destruct o as [x|]; simpl.
  - eapply Checks_iff; [by apply H|]. naive_solver.
  - eapply Checks_iff; [apply Checks_pass|]. naive_solver.
Qed.

Lemma Checks_each {A} (l : list A) body (P : A -> Prop) :
  (forall x, x ∈ l -> Checks ps (body x) (P x)) -> Checks ps (for_each l body) (Forall P l).
Proof.
  induction l as [|x l IH]; intros H.
  - eapply Checks_iff; [apply Checks_pass|]. split; [constructor|done].
  - apply (Checks_iff (body x >>> for_each l body) (P x /\ Forall P l)).
    + apply Checks_seq; [apply H; left|]. apply IH. intros y Hy. apply H. by right.
    + by rewrite Forall_cons.
Qed.

Lemma Checks_enumerate_from {A} s (l : list A) body (P : nat -> A -> Prop) :
  (forall k x, l !! k = Some x -> Checks ps (body (s + k)%nat x) (P (s + k)%nat x)) ->
  Checks ps (for_enumerate_from s l body) (forall k x, l !! k = Some x -> P (s + k)%nat x).
Proof.
  revert s. induction l as [|x l IH]; intros s H; simpl.
  - eapply Checks_iff; [apply Checks_pass|]. split; [intros _ k y; by rewrite lookup_nil|done].
  - eapply Checks_iff; [apply Checks_seq|].
    + specialize (H 0%nat x eq_refl). rewrite Nat.add_0_r in H. exact H.
    + apply (IH (S s)). intros k y Hk. specialize (H (S k) y Hk).
      by rewrite <- Nat.add_succ_comm in H.
    + split.
      * intros [Hx Hl] [|k] y Hk; simpl in Hk; [|rewrite <- Nat.add_succ_comm; by apply Hl].
        injection Hk as <-. by rewrite Nat.add_0_r.
      * intros Hl. split; [specialize (Hl 0%nat x eq_refl); by rewrite Nat.add_0_r in Hl|].
        intros k y Hk. rewrite Nat.add_succ_comm. by apply Hl.
Qed.

Lemma Checks_enumerate {A} (l : list A) body (P : nat -> A -> Prop) :
  (forall k x, l !! k = Some x -> Checks ps (body k x) (P k x)) ->
  Checks ps (for_enumerate l body) (forall k x, l !! k = Some x -> P k x).
Proof. intros H. apply (Checks_enumerate_from 0 l body P). done. Qed.

End Control.

#[export] Hint Resolve Checks_pass Checks_push_proto : checks.

(** ** Elementary checks *)

Section Elementary.
Context (ps : list Proto) (pi : nat) (p : Proto) (Hp : ps !! pi = Some p).

Lemma proto_located : (pi < length ps)%nat.
Proof. by eapply lookup_lt_Some. Qed.

Lemma check_constant_id_spec id context :
  0 <= id -> Checks ps (check_constant_id pi p id context) (ref_ok p (RConst id)).
Proof.
  intros Hid. eapply Checks_iff.
  - apply Checks_unless. intros _. apply Checks_push_proto, proto_located.
  - simpl. lia.
Qed.

Lemma check_string_constant_id_spec id context :
  Checks ps (check_string_constant_id pi p id context) (ref_ok p (RStringConst id)).
Proof.
  pose proof proto_located. unfold check_string_constant_id. cbn [ref_ok].
  destruct (zget (constants p) id) as [[]|];
    (eapply Checks_iff; [by auto with checks|]);
    (split; [first [done | by eexists] | first [done | by intros [? ?]]]).
Qed.

Lemma check_register_spec ii r context :
  located_at ps (Some pi) ii ->
  Checks ps (check_register (Some pi) ii p r context) (ref_ok p (RReg r)).
Proof.
  intros Hl. eapply Checks_iff; [apply Checks_unless; intros _; by apply Checks_push|].
  simpl. lia.
Qed.

Lemma check_register_u32_spec ii r context :
  located_at ps (Some pi) ii ->
  Checks ps (check_register_u32 (Some pi) ii p r context) (ref_ok p (RReg r)).
Proof. apply check_register_spec. Qed.

Lemma registers_ok start count :
  0 < count ->
  Forall (ref_ok p) (registers start count) <->
  start + count - 1 < max_stack_size p.
Proof.
  intros Hc. unfold registers. rewrite Forall_map, Forall_forall. setoid_rewrite elem_of_seqZ.
  simpl. split; [intros H; apply (H (start + count - 1)); lia|intros H x Hx; lia].
Qed.

Lemma registers_none start count : count <= 0 -> registers start count = [].
Proof. intros H. unfold registers. by rewrite seqZ_nil by lia. Qed.

Lemma check_register_range_spec ii start count count' context :
  located_at ps (Some pi) ii -> is_u8 start -> is_u8 count -> count = Z.max 0 count' ->
  Checks ps (check_register_range (Some pi) ii p start count context)
    (Forall (ref_ok p) (registers start count')).
Proof.
  intros Hl Hs Hc Hcc. unfold check_register_range, is_u8 in *.
  destruct (Z.eqb_spec count 0) as [->|Hne].
  - rewrite registers_none by lia. eapply Checks_iff; [apply Checks_pass|].
    split; [constructor|done].
  - replace count' with count by lia. rewrite registers_ok by lia.
    unfold as_u16. rewrite Z.mod_small by lia.
    eapply Checks_iff; [apply Checks_unless; intros _; by apply Checks_push|]. lia.
Qed.

Lemma check_upvalue_spec k upvalue context :
  (k < length (code p))%nat ->
  Checks ps (check_upvalue pi k p upvalue context) (ref_ok p (RUpvalue upvalue)).
Proof.
  intros Hk. eapply Checks_iff.
  - apply Checks_unless. intros _. by eapply Checks_push_instruction.
  - simpl. lia.
Qed.

End Elementary.

(** ** Instruction boundaries *)

Lemma boundary_offsets_spec next code :
  0 <= next < 4294967296 ->
  boundary_offsets next code =
    if decide (next + total_words code < 4294967296)
    then Ok (instruction_word_offsets_from next code, next + total_words code)
    else Err "proto code is too large".
Proof.
  revert next. induction code as [|i code IH]; intros next Hn; cbn [boundary_offsets].
  - cbn. rewrite Z.add_0_r, decide_True by lia. done.
  - cbn [total_words foldr]. fold (total_words code).
    pose proof (word_len_cases i). pose proof (total_words_nonneg code).
    unfold u32_try_from, ok_or.
    destruct (Z.leb_spec 0 (next + word_len i)); [cbn [andb]|lia].
    destruct (Z.ltb_spec (next + word_len i) 4294967296); cbn [result_bind].
    + rewrite IH, Z.add_assoc by lia. cbn [instruction_word_offsets_from].
      rewrite as_u32_small by (unfold is_u32; lia).
      by destruct (decide _); cbn [result_bind].
    + rewrite decide_False by lia. done.
Qed.

Lemma mark_words_lookup (words : list Z) l j :
  foldl (fun l w => <[Z.to_nat w := true]> l) l words !! j = Some true <->
  (j < length l)%nat /\ (l !! j = Some true \/ exists w, w ∈ words /\ Z.to_nat w = j).
Proof.
  revert l. induction words as [|w words IH]; intros l; cbn [foldl].
  - split; [intros H; split; [by eapply lookup_lt_Some|auto]|].
    intros [_ [H|(w & H & _)]]; [done|by apply elem_of_nil in H].
  - rewrite IH, length_insert. setoid_rewrite elem_of_cons.
    rewrite list_lookup_insert_Some. split.
    + intros [Hj [[[<- _]|[_ H]]|(w' & Hw & <-)]]; eauto 6.
    + intros [Hj [H|(w' & [->|Hw] & <-)]]; split; auto.
      * destruct (decide (Z.to_nat w = j)); auto.
      * right. eauto.
Qed.

Lemma offsets_elem code w :
  total_words code < 4294967296 ->
  w ∈ instruction_word_offsets code <-> instruction_start code w.
Proof.
  intros Ht. rewrite list_elem_of_lookup. split.
  - intros [j Hj]. pose proof (lookup_lt_Some _ _ _ Hj) as Hlt.
    rewrite length_instruction_word_offsets in Hlt.
    rewrite instruction_word_offsets_lookup in Hj by done. injection Hj as <-. by exists j.
  - intros (j & Hj & <-). exists j. by apply instruction_word_offsets_lookup.
Qed.

Lemma instruction_start_range code w :
  instruction_start code w -> 0 <= w < total_words code.
Proof.
  intros (j & Hj & <-). split; [apply word_of_nonneg|].
  pose proof (word_of_lt code j (length code) Hj Hj). unfold word_of in *.
  by rewrite (firstn_all code) in *.
Qed.

(** The boundary index answers exactly the questions about instruction starts. *)
Record indexes (code : list Instruction) (boundaries : InstructionBoundaryIndex) : Prop := {
  ix_total : total_words code < 4294967296;
  ix_words : code_words boundaries = total_words code;
  ix_offset : forall k, (k < length code)%nat -> word_offset boundaries k = Some (word_of code k);
  ix_contains : forall w, contains_instruction_word boundaries w = true <-> instruction_start code w
}.

Lemma InstructionBoundaryIndex_new_Ok code :
  total_words code < 4294967296 ->
  exists boundaries, InstructionBoundaryIndex_new code = Ok boundaries /\
    indexes code boundaries.
Proof.
  intros Ht. unfold InstructionBoundaryIndex_new.
  rewrite boundary_offsets_spec, decide_True by lia. cbn [result_bind].
  eexists. split; [done|]. split; [done|done| |].
  - intros k Hk. by apply instruction_word_offsets_lookup.
  - intros w. rewrite <- offsets_elem by done.
    unfold contains_instruction_word. cbn [instruction_words].
    fold (instruction_word_offsets code). set (l := foldl _ _ _).
    assert (default false (zget l w) = true <-> 0 <= w /\ l !! Z.to_nat w = Some true) as ->.
    { unfold zget. destruct (Z.ltb_spec w 0); cbn; [split; [done|lia]|].
      destruct (l !! Z.to_nat w) as [[]|]; cbn; naive_solver. }
    unfold l. rewrite mark_words_lookup, length_replicate, lookup_replicate. split.
    + intros [Hw [_ [[? _]|(w' & Hw' & Heq)]]]; [done|].
      pose proof Hw' as Hr. apply offsets_elem, instruction_start_range in Hr; [|done].
      by replace w with w' by lia.
    + intros Hw. pose proof Hw as Hr. apply offsets_elem, instruction_start_range in Hr; [|done].
      split; [lia|]. split; [lia|]. right. by exists w.
Qed.

Lemma InstructionBoundaryIndex_new_Err code :
  4294967296 <= total_words code ->
  InstructionBoundaryIndex_new code = Err "proto code is too large".
Proof.
  intros Ht. unfold InstructionBoundaryIndex_new.
  rewrite boundary_offsets_spec, decide_False by lia. done.
Qed.

(** ** Checks over lists of references *)

Section References.
Context (ps : list Proto) (R : Ref -> Prop).

Lemma Checks_refs_nil : Checks ps pass (Forall R []).
Proof. eapply Checks_iff; [apply Checks_pass|]. split; [constructor|done]. Qed.

Lemma Checks_refs_one f x : Checks ps f (R x) -> Checks ps f (Forall R [x]).
Proof. intros H. eapply Checks_iff; [exact H|]. by rewrite Forall_singleton. Qed.

Lemma Checks_refs_cons f g x l :
  Checks ps f (R x) -> Checks ps g (Forall R l) -> Checks ps (f >>> g) (Forall R (x :: l)).
Proof. intros Hf Hg. eapply Checks_iff; [by apply Checks_seq|]. by rewrite Forall_cons. Qed.

Lemma Checks_refs_app f g l l' :
  Checks ps f (Forall R l) -> Checks ps g (Forall R l') ->
  Checks ps (f >>> g) (Forall R (l ++ l')).
Proof. intros Hf Hg. eapply Checks_iff; [by apply Checks_seq|]. by rewrite Forall_app. Qed.

Lemma Checks_refs_aux i f g :
  (forall aux, ins_aux i = Some aux -> Checks ps (f aux) (Forall R (g aux))) ->
  Checks ps (when_some (ins_aux i) f) (Forall R (aux_refs i g)).
Proof.
  unfold aux_refs. destruct (ins_aux i); intros H; [by apply H|apply Checks_refs_nil].
Qed.

End References.

(** Decomposes a check along the reference list it decides. *)
Ltac refs_step :=
  lazymatch goal with
  | |- Checks _ pass (Forall _ []) => apply Checks_refs_nil
  | |- Checks _ (_ >>> _) (Forall _ (_ ++ _)) => apply Checks_refs_app
  | |- Checks _ (_ >>> _) (Forall _ (_ :: _)) => apply Checks_refs_cons
  | |- Checks _ _ (Forall _ [_]) => apply Checks_refs_one
  | |- Checks _ (when_some _ _) (Forall _ (aux_refs _ _)) => apply Checks_refs_aux; intros ? ?
  | |- Checks _ (check_register _ _ _ _ _) _ => apply check_register_spec
  | |- Checks _ (check_register_u32 _ _ _ _ _) _ => apply check_register_u32_spec
  | |- Checks _ (check_register_range _ _ _ _ _ _) _ => apply check_register_range_spec
  | |- Checks _ (check_constant_id _ _ _ _) _ => apply check_constant_id_spec
  | |- Checks _ (check_string_constant_id _ _ _ _) _ => apply check_string_constant_id_spec
  | |- Checks _ (check_upvalue _ _ _ _ _) _ => apply check_upvalue_spec
  end.

(** ** Instructions *)

Section Instructions.
Context (ps : list Proto) (pi : nat) (p : Proto) (Hp : ps !! pi = Some p).
Context (k : nat) (i : Instruction) (Hk : code p !! k = Some i).
Context (Haux : match ins_aux i with Some aux => is_u32 aux | None => True end).

Lemma instruction_located : located_at ps (Some pi) (Some k).
Proof. exists p. split; [done|]. by eapply lookup_lt_Some. Qed.

Lemma Checks_fail kind message : Checks ps (push_instruction pi k kind message) False.
Proof. eapply Checks_push_instruction; [done|]. by eapply lookup_lt_Some. Qed.

Lemma consistent_operands :
  consistent i -> is_u8 (ins_a i) /\ is_u8 (ins_b i) /\ is_u8 (ins_c i) /\ is_i16 (ins_d i).
Proof. intros H. by destruct (from_words_Some _ _ _ H) as (_ & _ & _ & ?). Qed.

Lemma generic_for_loop_variable_count_spec aux :
  is_u32 aux -> generic_for_loop_variable_count aux = Z.min 255 (aux mod 2147483648).
Proof.
  intros H. unfold generic_for_loop_variable_count.
  replace (as_u32 (Z.lnot FORGLOOP_INEXT_BIT)) with (Z.ones 31) by reflexivity.
  rewrite Z.land_ones by lia. change (2 ^ 31) with 2147483648. unfold as_u8.
  rewrite Z.mod_small; [lia|]. pose proof (Z.mod_pos_bound aux 2147483648). lia.
Qed.

Lemma check_operands_spec operands :
  Checks ps (check_operands (Some pi) (Some k) p operands)
    (Forall (ref_ok p) (map (fun o => RReg o.1) operands)).
Proof.
  eapply Checks_iff; [apply (Checks_each _ _ _ (fun o => ref_ok p (RReg o.1)))|].
  - intros [r label] _. apply check_register_spec, instruction_located.
  - by rewrite Forall_map.
Qed.

Lemma low_byte aux : as_u8 (Z.land aux 255) = aux mod 256.
Proof. unfold as_u8. by rewrite land_255, Zmod_mod. Qed.

Lemma second_byte aux : as_u8 (Z.land (Z.shiftr aux 8) 255) = aux / 256 mod 256.
Proof. by rewrite low_byte, shiftr_div. Qed.

Lemma for_variables :
  let count := match ins_aux i with
               | Some aux => generic_for_loop_variable_count aux | None => 0 end in
  let variables := match ins_aux i with Some aux => aux mod 2147483648 | None => 0 end in
  is_u8 (Z.min 255 (count + 3)) /\
  Z.min 255 (count + 3) = Z.max 0 (Z.min 255 (variables + 3)).
Proof.
  cbv zeta. unfold is_u8. destruct (ins_aux i) as [aux|]; [|lia].
  rewrite generic_for_loop_variable_count_spec by done.
  pose proof (Z.mod_pos_bound aux 2147483648). lia.
Qed.

(** The branches of the operand policies that test an operand. *)
Ltac operand_cases :=
  repeat match goal with
  | |- context [decide (?x = ?y)] => destruct (decide (x = y))
  | |- context [?x =? 255] => destruct (Z.eqb_spec x 255)
  | |- context [0 <? ?x] => destruct (Z.ltb_spec 0 x)
  end; cbn [negb].

Lemma validate_register_operands_spec :
  consistent i ->
  Checks ps (validate_register_operands pi p k i) (Forall (ref_ok p) (register_refs i)).
Proof.
  intros (Ha & Hb & Hc & _)%consistent_operands. pose proof instruction_located as Hl.
  pose proof for_variables as [Hv1 Hv2].
  unfold validate_register_operands, register_refs. cbv zeta.
  unfold u8_saturating_sub, u8_saturating_add, when in *.
  destruct (register_policy (ins_opcode i)).
  16-19: exact (check_operands_spec _).
  all: rewrite ?bool_decide_decide; operand_cases.
  all: try rewrite (registers_none (ins_a i) (ins_c i - 1)) by lia; cbn [map].
  all: repeat (refs_step; rewrite ?second_byte, ?low_byte); try done; unfold is_u8 in *; lia.
Qed.

Lemma const_in_range id : ref_ok p (RConst id) <-> is_Some (zget (constants p) id).
Proof. symmetry. apply zget_is_Some. Qed.

(** A range check together with a test of the constant's kind. *)
Ltac constant_case Hz :=
  rewrite Hz; split;
  [intros [[? ?] ?] | intros (? & ?)]; try done; simplify_eq;
  repeat match goal with H : _ /\ _ |- _ => destruct H end; simplify_eq; eauto.

Lemma check_closure_spec id :
  0 <= id ->
  Checks ps
    (check_constant_id pi p id "D closure constant" >>>
     match zget (constants p) id with
     | Some (Const.Closure _) => pass
     | _ => push_instruction pi k Kind.InvalidConstantReference
              ("D closure constant id " +:+ show id +:+ " is not a closure constant")
     end) (ref_ok p (RClosureConst id)).
Proof.
  intros Hid. pose proof (const_in_range id) as Hz. cbn [ref_ok].
  destruct (zget (constants p) id) as [[]|]; (eapply Checks_iff;
    [apply Checks_seq; [by apply check_constant_id_spec|auto using Checks_fail with checks]|]);
    constant_case Hz.
Qed.

Lemma check_shape_spec id :
  0 <= id ->
  Checks ps
    (check_constant_id pi p id "NEWCLASS class-shape AUX" >>>
     match zget (constants p) id with
     | Some (Const.ClassShapeC _) => pass
     | _ => push_instruction pi k Kind.InvalidConstantReference
              ("NEWCLASS AUX constant id " +:+ show id +:+ " is not a class shape")
     end) (ref_ok p (RShapeConst id)).
Proof.
  intros Hid. pose proof (const_in_range id) as Hz. cbn [ref_ok].
  destruct (zget (constants p) id) as [[]|]; (eapply Checks_iff;
    [apply Checks_seq; [by apply check_constant_id_spec|auto using Checks_fail with checks]|]);
    constant_case Hz.
Qed.

Lemma check_import_spec id aux :
  0 <= id ->
  Checks ps
    (check_constant_id pi p id "GETIMPORT D constant" >>>
     match zget (constants p) id with
     | Some (Const.Import import_id) =>
         when (bool_decide (aux <> Some import_id))
           (push_instruction pi k Kind.InvalidAuxPayload
              "GETIMPORT AUX does not match its import constant")
     | Some _ => push_instruction pi k Kind.InvalidConstantReference
                   ("GETIMPORT constant id " +:+ show id +:+ " is not an import")
     | None => pass
     end) (ref_ok p (RImportConst id aux)).
Proof.
  intros Hid. pose proof (const_in_range id) as Hz. cbn [ref_ok].
  assert (forall x, Checks ps (when (bool_decide (aux <> Some x))
    (push_instruction pi k Kind.InvalidAuxPayload
       "GETIMPORT AUX does not match its import constant")) (aux = Some x)) as Haux'.
  { intros x. eapply Checks_iff; [apply Checks_unless; intros _; apply Checks_fail|].
    rewrite bool_decide_eq_false. split; [apply dec_stable|congruence]. }
  destruct (zget (constants p) id) as [[]|]; (eapply Checks_iff;
    [apply Checks_seq; [by apply check_constant_id_spec|auto using Checks_fail with checks]|]);
    constant_case Hz.
Qed.

Lemma validate_opcode_specific_payload_spec :
  consistent i ->
  Checks ps (validate_opcode_specific_payload pi p k i)
    (Forall (ref_ok p) (capture_refs i) /\ payload_ok i).
Proof.
  intros (Ha & _ & Hc & _)%consistent_operands. pose proof (lookup_lt_Some _ _ _ Hk) as Hlt.
  assert (Checks ps (when (bool_decide (ins_opcode i = Op.NewClass) && (1 <? ins_c i))
    (push_instruction pi k Kind.InvalidAuxPayload
       ("NEWCLASS flags " +:+ show (ins_c i) +:+ " use reserved bits")))
    (ins_opcode i = Op.NewClass -> ins_c i <= 1)) as Hnew.
  { eapply Checks_iff; [apply Checks_unless; intros _; apply Checks_fail|].
    case_bool_decide; cbn [andb]; [rewrite Z.ltb_ge|]; tauto. }
  unfold validate_opcode_specific_payload, payload_ok. cbv zeta. eapply Checks_iff.
  - apply Checks_seq; [apply Checks_when; intros _; apply Checks_seq;
      (apply Checks_unless; intros _; apply Checks_fail)|].
    apply (Checks_iff _ _ ((Forall (ref_ok p) (capture_refs i) /\
      (ins_opcode i = Op.Capture -> is_Some (capture_type i))) /\
      (ins_opcode i = Op.NewClass -> ins_c i <= 1))); [|reflexivity].
    unfold capture_refs, capture_type. destruct (decide (ins_opcode i = Op.Capture)).
    + rewrite bool_decide_true by done.
      destruct (capture_type_from_byte (ins_a i)) as [[]|].
      1-3: apply Checks_seq; [|exact Hnew].
      1-3: eapply Checks_iff; [first [apply check_register_spec, instruction_located
             | by apply check_upvalue_spec]|]; rewrite Forall_singleton; naive_solver.
      eapply Checks_iff; [apply Checks_fail|]. split; [done|]. intros [[_ H] _]. by destruct H.
    + rewrite bool_decide_false by done. eapply Checks_iff; [exact Hnew|]. rewrite Forall_nil. tauto.
  - unfold BuiltinFunction_NONE, BuiltinFunction_BUFFER_WRITEINTEGER.
    rewrite orb_false_iff, !Z.eqb_neq, Z.ltb_ge.
    assert (ins_a i <> 0 /\ ins_a i <= 132 <-> 1 <= ins_a i <= 132) as -> by (unfold is_u8 in *; lia).
    tauto.
Qed.

Lemma u32_try_from_operand d :
  is_i16 d -> u32_try_from d = if d <? 0 then None else Some d.
Proof.
  intros Hd. unfold u32_try_from, is_i16 in *.
  destruct (Z.ltb_spec d 0), (Z.leb_spec 0 d), (Z.ltb_spec d 4294967296); simpl; auto; lia.
Qed.

Lemma zget_neg {A} (l : list A) d : d < 0 -> zget l d = None.
Proof. intros H. unfold zget. by destruct (Z.ltb_spec d 0); [|lia]. Qed.

Lemma aux_u32 aux : ins_aux i = Some aux -> is_u32 aux.
Proof. intros H. by rewrite H in Haux. Qed.

Lemma as_u32_u8 x : is_u8 x -> as_u32 x = x.
Proof. intros H. apply as_u32_small. unfold is_u8, is_u32 in *. lia. Qed.

Lemma jump_constant_index aux : Z.land aux JUMPX_K_INDEX_MASK = aux mod 16777216.
Proof.
  change JUMPX_K_INDEX_MASK with (Z.ones 24). by rewrite Z.land_ones.
Qed.

Lemma Checks_reject kind message (P : Prop) :
  ~ P -> Checks ps (push_instruction pi k kind message) P.
Proof. intros H. eapply Checks_iff; [apply Checks_fail|]. tauto. Qed.

Lemma validate_instruction_references_spec :
  consistent i ->
  Checks ps (validate_instruction_references pi p k i)
    (Forall (ref_ok p) (table_refs i ++ capture_refs i) /\ payload_ok i).
Proof.
  intros Hcons. pose proof (consistent_operands Hcons) as (Ha & Hb & Hc & Hd).
  pose proof (validate_opcode_specific_payload_spec Hcons) as Hpay.
  assert (forall f, Checks ps f (Forall (ref_ok p) (table_refs i)) ->
    Checks ps (f >>> validate_opcode_specific_payload pi p k i)
      (Forall (ref_ok p) (table_refs i ++ capture_refs i) /\ payload_ok i)) as Hgo.
  { intros f Hf. eapply Checks_iff; [apply Checks_seq; [exact Hf|exact Hpay]|].
    rewrite Forall_app. tauto. }
  assert (~ Forall (ref_ok p) (table_refs i) ->
    ~ (Forall (ref_ok p) (table_refs i ++ capture_refs i) /\ payload_ok i)) as Hbad
    by (rewrite Forall_app; tauto).
  unfold validate_instruction_references, table_refs in *. cbv zeta.
  rewrite (u32_try_from_operand (ins_d i)) by done.
  destruct (reference_policy (ins_opcode i)).
  all: try (destruct (Z.ltb_spec (ins_d i) 0);
    [apply Checks_reject, Hbad; rewrite Forall_singleton; cbn [ref_ok];
     rewrite ?zget_neg by lia; first [lia | by intros (? & ? & ?) | by intros (? & ?)]|]).
  all: apply Hgo.
  all: try (apply Checks_refs_one; first [by apply check_import_spec | by apply check_closure_spec]).
  all: try (apply Checks_refs_aux; intros aux Hx; pose proof (aux_u32 _ Hx) as [Hx0 _];
    try (apply Checks_refs_one, check_shape_spec; done)).
  all: rewrite ?as_u32_u8, ?jump_constant_index by done; repeat refs_step; try done.
  all: try (eapply Checks_iff; [apply Checks_unless; intros _; apply Checks_fail|]; cbn; lia).
  all: unfold is_u8 in *; try lia; try apply Z.mod_pos_bound; try lia; by eapply lookup_lt_Some.
Qed.

Lemma is_instruction_word_i32_spec boundaries w :
  indexes (code p) boundaries ->
  is_instruction_word_i32 boundaries w = true <-> instruction_start (code p) w.
Proof.
  intros Hb. unfold is_instruction_word_i32, u32_try_from.
  destruct ((0 <=? w) && (w <? 4294967296)) eqn:E; [by apply ix_contains|].
  split; [done|]. intros H%instruction_start_range. pose proof (ix_total _ _ Hb). lia.
Qed.

Lemma invalid_jump_target_spec boundaries :
  indexes (code p) boundaries ->
  invalid_jump_target (code p) boundaries k = None <-> jump_ok (code p) k i.
Proof.
  intros Hb. unfold invalid_jump_target, jump_ok. rewrite Hk.
  rewrite (ix_offset _ _ Hb) by (by eapply lookup_lt_Some).
  unfold jump_target_word. destruct (jump_offset_words i) as [off|]; [|by split].
  set (target := as_i32 _). rewrite (ix_words _ _ Hb). pose proof (ix_total _ _ Hb).
  assert (bool_decide (u32_try_from target = Some (total_words (code p))) &&
    match last (code p) with
    | Some instruction => bool_decide (ins_opcode instruction = Op.Return)
    | None => false
    end = true <-> target = total_words (code p) /\ ends_in_return (code p)) as Hend.
  { rewrite andb_true_iff, bool_decide_eq_true. unfold ends_in_return.
    pose proof (total_words_nonneg (code p)). split; intros [H1 H2]; split.
    - unfold u32_try_from in H1. destruct (_ && _); [by injection H1|done].
    - destruct (last (code p)) as [x|]; [|done]. apply bool_decide_eq_true in H2. by exists x.
    - rewrite H1. unfold u32_try_from. rewrite (proj2 (Z.leb_le _ _)), (proj2 (Z.ltb_lt _ _)) by lia.
      done.
    - destruct H2 as (x & -> & Hx). by apply bool_decide_eq_true. }
  pose proof (is_instruction_word_i32_spec boundaries target Hb) as Hstart.
  destruct (_ && _).
  - split; [|done]. intros _ t [= <-]. right. by apply Hend.
  - destruct (is_instruction_word_i32 boundaries target).
    + split; [|done]. intros _ t [= <-]. left. by apply Hstart.
    + split; [done|]. intros Ht. destruct (Ht _ eq_refl) as [Hs|Hs]; [by apply Hstart in Hs|].
      by apply Hend in Hs.
Qed.

Lemma aux_words_spec : aux_words i = instruction_len (ins_opcode i) - 1 <-> aux_arity_ok i.
Proof. unfold aux_words, aux_arity_ok, word_len. lia. Qed.

Lemma validate_instruction_spec boundaries :
  indexes (code p) boundaries ->
  Checks ps (validate_instruction pi p boundaries k i) (valid_instruction accounted_refs p k i).
Proof.
  intros Hb. unfold validate_instruction.
  destruct (is_header_consistent i) eqn:Hc; cbn [negb].
  2: { apply Checks_reject. intros [H _ _ _ _]. apply is_header_consistent_spec in H. congruence. }
  apply is_header_consistent_spec in Hc.
  destruct (Z.eqb_spec (aux_words i) (instruction_len (ins_opcode i) - 1)) as [Hx|Hx];
    cbn [negb]; rewrite aux_words_spec in Hx.
  2: { apply Checks_reject. intros [_ H _ _ _]. done. }
  eapply Checks_iff.
  - apply Checks_seq; [|apply Checks_seq; [by apply validate_register_operands_spec|
      by apply validate_instruction_references_spec]].
    apply (Checks_some _ _ _ (fun _ => False)). intros t _. apply Checks_fail.
  - pose proof (invalid_jump_target_spec boundaries Hb) as Hj. split.
    + intros (Ht & Hr & Hr' & Hpay). split; [done|done| | |done].
      * apply Hj. destruct (invalid_jump_target _ _ _); [by destruct (Ht _ eq_refl)|done].
      * unfold accounted_refs. by apply Forall_app.
    + intros [_ _ Hjump Hr Hpay]. apply Forall_app in Hr as [Hr Hr']. apply Hj in Hjump.
      split_and!; [|done|done|done]. by rewrite Hjump.
Qed.

End Instructions.

(** ** Constants *)

Section Constants.
Context (ss : list (list Z)) (ps : list Proto) (pi : nat) (p : Proto) (Hp : ps !! pi = Some p).

Lemma check_string_id_spec pi' ii id context :
  located_at ps pi' ii -> Checks ps (check_string_id ss pi' ii id context) (string_ok ss id).
Proof.
  intros Hl. eapply Checks_iff; [apply Checks_unless; intros _; by apply Checks_push|].
  unfold string_ok. lia.
Qed.

Lemma proto_id_spec id kind message :
  Checks ps (when (negb (proto_id_is_valid id ps)) (push_proto pi kind message))
    (proto_ok ps id).
Proof.
  eapply Checks_iff.
  - apply Checks_unless. intros _. by eapply Checks_push_proto, proto_located.
  - unfold proto_id_is_valid, proto_ok. rewrite negb_false_iff. lia.
Qed.

Lemma import_count import_id :
  Z.shiftr import_id IMPORT_PATH_COUNT_SHIFT = import_id / 1073741824.
Proof. unfold IMPORT_PATH_COUNT_SHIFT. by rewrite shiftr_div. Qed.

Lemma string_constants_spec l context :
  Checks ps (for_each l (fun id => check_string_constant_id pi p id context))
    (Forall (fun id => ref_ok p (RStringConst id)) l).
Proof. apply Checks_each. intros id _. by apply check_string_constant_id_spec. Qed.

Lemma validate_constant_spec k c :
  wf_constant c -> Checks ps (validate_constant ss ps pi p k c) (constant_ok ss ps p c).
Proof.
  intros Hc. pose proof (proto_located _ _ _ Hp) as Hl.
  destruct c; cbn [validate_constant constant_ok wf_constant] in *; try apply Checks_pass.
  - by apply check_string_id_spec.
  - rewrite import_count. destruct ((1 <=? _) && (_ <=? 3)) eqn:E; cbn [negb].
    + eapply Checks_iff; [apply string_constants_spec|]. rewrite andb_true_iff in E. 
      split; [intros H; split; [lia|done]|tauto].
    + eapply Checks_iff; [by apply Checks_push_proto|]. split; [done|]. lia.
  - apply Checks_each. intros id Hid. apply check_constant_id_spec; [done|].
    destruct Hc as [_ Hc]. rewrite Forall_forall in Hc. by apply Hc.
  - apply proto_id_spec.
  - apply Checks_each. intros e He. destruct Hc as [_ Hc]. rewrite Forall_forall in Hc.
    destruct (Hc e He) as [[Hkey _] Hv]. apply Checks_seq; [by apply check_constant_id_spec|].
    eapply Checks_iff; [apply Checks_when; intros H0%Z.leb_le; apply check_constant_id_spec|].
    all: unfold is_i32 in *.
    + done.
    + apply as_u32_range.
    + rewrite Z.leb_le. destruct (Z.le_gt_cases 0 (te_value e)); [|split; intros; lia].
      by rewrite as_u32_small by (unfold is_u32; lia).
  - eapply Checks_iff; [apply Checks_seq; [by apply check_string_constant_id_spec|
      apply Checks_seq; apply string_constants_spec]|].
    by rewrite Forall_cons, Forall_app.
Qed.

End Constants.

(** ** Accounted and overlooked references make up what an instruction names *)

Section Accounts.
Context (p : Proto).

Lemma Forall_registers start count :
  Forall (ref_ok p) (registers start count) <-> (0 < count -> start + count - 1 < max_stack_size p).
Proof.
  destruct (Z.lt_ge_cases 0 count).
  - rewrite registers_ok by done. split; [done|]. auto.
  - rewrite registers_none by done. split; [lia|constructor].
Qed.

Lemma accounted_overlooked i :
  consistent i ->
  Forall (ref_ok p) (accounted_refs i) /\ Forall (ref_ok p) (overlooked_refs i) <->
  Forall (ref_ok p) (instruction_refs i).
Proof.
  intros (Ha & Hb & Hc & _)%consistent_operands. unfold is_u8 in *.
  unfold accounted_refs, instruction_refs. rewrite !Forall_app.
  enough (Forall (ref_ok p) (register_refs i) /\ Forall (ref_ok p) (table_refs i) /\
            Forall (ref_ok p) (overlooked_refs i) <->
          Forall (ref_ok p) (register_operands i) /\ Forall (ref_ok p) (table_operands i)) by tauto.
  unfold register_refs, table_refs, overlooked_refs, register_operands, table_operands, aux_refs.
  destruct (ins_opcode i); cbn [register_policy reference_policy]; rewrite ?decide_True by done;
    rewrite ?decide_False by done; cbv zeta.
  all: destruct (ins_aux i) as [aux|]; unfold loop_variables; repeat case_match;
    rewrite ?Forall_app, ?Forall_cons, ?Forall_app, ?Forall_registers, ?Forall_nil; cbn [ref_ok].
  all: try tauto.
  all: try match goal with aux : Z |- _ => pose proof (Z.mod_pos_bound aux 2147483648 ltac:(done)) end.
  all: first [lia | intuition lia].
Qed.
End Accounts.
