(* ===== verification/ValidateTheorems.v ===== *)
(** * ValidateTheorems: the validator implements its specification

    The capture pass of the validator keeps a vector of marks next to its error list. [Marks f
    slots] says that a step [f] of the pass reports no error exactly when every position of
    [slots] holds a CAPTURE, and that it then has marked exactly those positions; the pass as a
    whole decides [captures_ok]. With the lemmas of [ValidateFacts] this gives the contract of
    [validate_chunk] and what a consumer of a validated chunk relies on: jumps resolve, the
    chunk can be encoded, errors point at real code. *)

From Stdlib Require Import ZArith Lia.
From stdpp Require Import base numbers list strings.
From S2P Require Import Prelude Opcodes BytecodeTypes LineInfo Codec WireFormat CodecFacts DecodeSound CodecTheorems Validate ValidSpec ValidateFacts.

Section Captures.
Context (ps : list Proto) (pi : nat) (p : Proto) (Hp : ps !! pi = Some p).

Definition MarkState : Type := list bool * list ValidationError.

Definition Marks (f : MarkState -> MarkState) (slots : nat -> Prop) : Prop :=
  forall marks, length marks = length (code p) ->
  exists marks' new, (forall errors, f (marks, errors) = (marks', errors ++ new)) /\
    Forall (located ps) new /\ length marks' = length (code p) /\
    (new = [] <-> forall j, slots j -> capture_at p j) /\
    (new = [] -> forall j, marks' !! j = Some true <-> marks !! j = Some true \/ slots j).

Lemma Marks_iff f slots slots' :
  Marks f slots -> (forall j, slots j <-> slots' j) -> Marks f slots'.
Proof.
  intros H E marks Hm. destruct (H marks Hm) as (marks' & new & Hf & Hl & Hn & He & Hj).
  exists marks', new. setoid_rewrite <- E. done.
Qed.

Lemma Marks_id f : (forall st, f st = st) -> Marks f (fun _ => False).
Proof.
  intros Hf marks Hm. exists marks, []. split_and!; [|constructor|done|done|].
  - intros. by rewrite Hf, app_nil_r.
  - intros _ j. tauto.
Qed.

Lemma Marks_seq f g slots slots' :
  Marks f slots -> Marks g slots' -> Marks (fun st => g (f st)) (fun j => slots j \/ slots' j).
Proof.
  intros Hf Hg marks Hm. destruct (Hf marks Hm) as (m1 & n1 & H1 & L1 & Hm1 & E1 & J1).
  destruct (Hg m1 Hm1) as (m2 & n2 & H2 & L2 & Hm2 & E2 & J2).
  exists m2, (n1 ++ n2). split_and!; [|by apply Forall_app|done| |].
  - intros. by rewrite H1, H2, app_assoc.
  - rewrite app_nil, E1, E2. split; [intros [? ?] j [?|?]; auto|auto].
  - intros [N1 N2]%app_nil j. rewrite J2, J1 by done. tauto.
Qed.

(** A step that stops with one error at a slot without a CAPTURE. *)
Lemma Marks_stop (f : MarkState -> MarkState) (slots : nat -> Prop) ii j kind message :
  (forall marks errors, f (marks, errors) = (marks, push (Some pi) (Some ii) kind message errors)) ->
  (ii < length (code p))%nat -> slots j -> ~ capture_at p j -> Marks f slots.
Proof.
  intros Hf Hii Hj Hc marks Hm. exists marks, [mkValidationError (Some pi) (Some ii) kind message].
  split_and!; [intros; by rewrite Hf| |done| |done].
  - constructor; [by exists p|constructor].
  - split; [done|]. intros H. by destruct Hc; apply H.
Qed.

Section Scan.
Context (k : nat) (i : Instruction) (Hk : code p !! k = Some i) (q : Z) (n : nat).

(** The capture slots from offset [o] on. *)
Definition slots_from (o j : nat) : Prop := (k + 1 + o <= j < k + 1 + n)%nat.

Lemma capture_scan_spec r :
  (r <= n)%nat ->
  Marks (fun st => capture_scan r pi p k i q n st.1 st.2) (slots_from (n - r)).
Proof.
  induction r as [|r IH]; intros Hr.
  { eapply Marks_iff; [apply Marks_id; by intros []|]. unfold slots_from. lia. }
  set (idx := (k + 1 + (n - S r))%nat).
  assert (slots_from (n - S r) idx) as Hidx by (unfold slots_from, idx; lia).
  assert (forall j, slots_from (n - S r) j <-> j = idx \/ slots_from (n - r) j) as Hsplit
    by (intros j; unfold slots_from, idx; lia).
  destruct (code p !! idx) as [c|] eqn:Hc.
  - destruct (decide (ins_opcode c = Op.Capture)) as [Hop|Hop].
    + specialize (IH ltac:(lia)). intros marks Hm.
      destruct (IH (<[idx := true]> marks)) as (m & new & Hf & Hl & Hlen & He & Hj);
        [by rewrite length_insert|]. cbn [fst snd] in Hf.
      exists m, new. split_and!; [|done|done| |].
      * intros errors. cbn [fst snd capture_scan]. fold idx.
        rewrite Hc, bool_decide_true by done. apply Hf.
      * rewrite He. split; [|intros H j Hs; apply H, Hsplit; auto].
        intros H j [->|Hs]%Hsplit; [by exists c|auto].
      * intros Hnew j. rewrite (Hj Hnew), list_lookup_insert_Some, Hsplit.
        pose proof (lookup_lt_Some _ _ _ Hc). rewrite Hm.
        destruct (decide (idx = j)) as [->|]; naive_solver.
    + eapply (Marks_stop _ _ idx idx); [| |done|].
      * intros marks errors. cbn [fst snd capture_scan]. fold idx.
        rewrite Hc, bool_decide_false by done. done.
      * by eapply lookup_lt_Some.
      * intros (c' & Hc' & ?). congruence.
  - eapply (Marks_stop _ _ k idx); [| |done|].
    + intros marks errors. cbn [fst snd capture_scan]. fold idx. rewrite Hc. done.
    + by eapply lookup_lt_Some.
    + intros (c' & Hc' & _). congruence.
Qed.

End Scan.

(** Capture slots of the closures at or after [k]. *)
Definition slot_after (k j : nat) : Prop :=
  exists k0 child, (k <= k0)%nat /\ closure_at ps p k0 child /\
    (k0 < j <= k0 + Z.to_nat (num_upvalues child))%nat.

Lemma closure_at_eq k i :
  code p !! k = Some i -> forall child, closure_at ps p k child <->
    exists q, closure_child_proto_id p i = Some q /\ zget ps q = Some child.
Proof.
  intros Hk child. unfold closure_at. split.
  - intros (i' & q & Hi & Hq). exists q. congruence.
  - intros (q & Hq). by exists i, q.
Qed.

Lemma capture_round_spec k i :
  code p !! k = Some i ->
  Marks (capture_round ps pi p k i) (fun j => exists child, closure_at ps p k child /\
    (k < j <= k + Z.to_nat (num_upvalues child))%nat).
Proof.
  intros Hk. unfold capture_round. pose proof (closure_at_eq k i Hk) as Hcl.
  destruct (closure_child_proto_id p i) as [q|]; [destruct (zget ps q) as [child|] eqn:Hq|].
  - eapply Marks_iff; [by apply capture_scan_spec|].
    intros j. unfold slots_from. rewrite Nat.sub_diag. split.
    + intros H. exists child. split; [apply Hcl; by exists q|lia].
    + intros (child' & Hcl' & H). apply Hcl in Hcl' as (q' & [= <-] & Hq').
      assert (child' = child) as -> by congruence. lia.
  - eapply Marks_iff; [by apply Marks_id|]. intros j. split; [done|].
    intros (child & (q' & [= <-] & Hq')%Hcl & _). congruence.
  - eapply Marks_iff; [by apply Marks_id|]. intros j. split; [done|].
    by intros (child & (q' & ? & _)%Hcl & _).
Qed.

Lemma capture_rounds_spec rest k :
  (forall n, code p !! (k + n)%nat = rest !! n) ->
  Marks (capture_rounds ps pi p k rest) (slot_after k).
Proof.
  revert k. induction rest as [|i rest IH]; intros k Hrest.
  - eapply Marks_iff; [by apply Marks_id|]. intros j. split; [done|].
    intros (k0 & child & Hk0 & (i & q & Hi & _) & _). specialize (Hrest (k0 - k)%nat).
    replace (k + (k0 - k))%nat with k0 in Hrest by lia. rewrite lookup_nil in Hrest. congruence.
  - assert (code p !! k = Some i) as Hk by (specialize (Hrest 0%nat); by rewrite Nat.add_0_r in Hrest).
    assert (forall n, code p !! (S k + n)%nat = rest !! n) as Hrest'
      by (intros n; specialize (Hrest (S n)); by rewrite <- Nat.add_succ_comm in Hrest).
    eapply Marks_iff;
      [apply (Marks_seq _ _ _ _ (capture_round_spec k i Hk) (IH (S k) Hrest'))|].
    intros j. unfold slot_after. split.
    + intros [(child & H & Hj)|(k0 & child & Hle & H)].
      * exists k, child. auto.
      * exists k0, child. split; [lia|done].
    + intros (k0 & child & Hle & H & Hj). destruct (decide (k0 = k)) as [->|].
      * left. by exists child.
      * right. exists k0, child. split; [lia|done].
Qed.

Lemma validate_closure_captures_spec :
  Checks ps (validate_closure_captures ps pi p) (captures_ok ps p).
Proof.
  destruct (capture_rounds_spec (code p) 0 (fun n => eq_refl)
    (replicate (length (code p)) false)) as (marks & new & Hf & Hl & Hlen & He & Hj);
    [by rewrite length_replicate|].
  assert (Checks ps (for_enumerate (code p) (fun ii i =>
      when (bool_decide (ins_opcode i = Op.Capture) && negb (default false (marks !! ii)))
        (push_instruction pi ii Kind.InvalidClosureCapture
           "CAPTURE instruction is not attached to a closure instruction")))
    (forall k i, code p !! k = Some i -> ins_opcode i = Op.Capture -> marks !! k = Some true))
    as (new' & Hg & He' & Hl').
  { apply (Checks_enumerate ps (code p) _
      (fun k i => ins_opcode i = Op.Capture -> marks !! k = Some true)).
    intros k i Hk. eapply Checks_iff.
    - apply Checks_unless. intros _. eapply Checks_push_instruction; [done|by eapply lookup_lt_Some].
    - case_bool_decide; cbn [andb]; [|tauto].
      destruct (marks !! k) as [[]|]; cbn; split; intros H'; done || (exfalso; by specialize (H' H)). }
  assert (forall j, slot_after 0 j <-> capture_slot ps p j) as Hslot.
  { intros j. unfold slot_after, capture_slot.
    split; intros (k0 & child & H); exists k0, child; [by destruct H|split; [lia|done]]. }
  exists (new ++ new'). split_and!; [| |by apply Forall_app].
  - intros errors. unfold validate_closure_captures. rewrite Hf, Hg. by rewrite app_assoc.
  - rewrite app_nil, He, He'. unfold captures_ok. split.
    + intros [H1 H2] k. split; [intros H; by apply H1, Hslot|].
      intros (i & Hi & Hop). apply Hslot. apply He in H1. destruct (Hj H1 k) as [Hm _].
      destruct (Hm (H2 k i Hi Hop)) as [Hrep|Hs]; [|done].
      apply lookup_replicate_1 in Hrep as [? _]. done.
    + intros H. assert (forall j, slot_after 0 j -> capture_at p j) as H1
        by (intros j Hs; by apply H, Hslot).
      split; [done|]. intros k i Hk Hop. apply He in H1. apply (Hj H1). right.
      apply Hslot, H. by exists i.
Qed.

End Captures.

(** ** Protos *)

Section Protos.
Context (ss : list (list Z)) (ps : list Proto) (pi : nat) (p : Proto) (Hp : ps !! pi = Some p).

Lemma unpack_lines_length bs shift index last bytes lines :
  unpack_lines bs shift index last bytes = Some lines -> length lines = length bytes.
Proof.
  revert index last lines. induction bytes as [|b bytes IH]; intros index last lines; cbn.
  - by intros [= <-].
  - destruct (zget bs _); [|done]. destruct (unpack_lines _ _ _ _ bytes) eqn:E; [|done].
    intros [= <-]. cbn. by rewrite (IH _ _ _ E).
Qed.

Lemma Checks_bad_proto kind message :
  Checks ps (push_proto pi kind message) False.
Proof. by eapply Checks_push_proto, proto_located. Qed.

Lemma validate_line_info_spec words li :
  is_u32 (len (delta_bytes li)) ->
  Checks ps (validate_line_info pi words li)
    (len (delta_bytes li) = words /\
     exists lines, to_line_numbers li = Some lines /\ len lines = words).
Proof.
  intros Hu. unfold validate_line_info. rewrite as_u32_small by done. apply Checks_seq.
  - eapply Checks_iff; [apply Checks_unless; intros _; apply Checks_bad_proto|].
    rewrite negb_false_iff. lia.
  - destruct (to_line_numbers li) as [lines|] eqn:E.
    + apply unpack_lines_length in E. assert (len lines = len (delta_bytes li)) as El
        by (unfold len; by rewrite E).
      rewrite El, as_u32_small by done. destruct (Z.eqb_spec (len (delta_bytes li)) words).
      * eapply Checks_iff; [apply Checks_pass|]. split; [|done]. intros _. exists lines. split; [done|lia].
      * eapply Checks_iff; [apply Checks_bad_proto|]. split; [done|]. intros (l & [= <-] & H). lia.
    + eapply Checks_iff; [apply Checks_bad_proto|]. split; [done|]. by intros (l & ? & _).
Qed.

Lemma validate_debug_info_spec words di :
  Checks ps (validate_debug_info ss pi p words di)
    (len (di_upvalues di) = num_upvalues p /\ Forall (string_ok ss) (di_upvalues di) /\
     Forall (fun l => string_ok ss (dl_name l) /\ dl_register l < max_stack_size p /\
                      dl_start_pc l <= dl_end_pc l <= words) (di_locals di)).
Proof.
  pose proof (proto_located _ _ _ Hp) as Hl. apply Checks_seq; [|apply Checks_seq].
  - eapply Checks_iff; [apply Checks_unless; intros _; apply Checks_bad_proto|].
    rewrite negb_false_iff. lia.
  - apply Checks_each. intros name _. by apply check_string_id_spec.
  - apply Checks_each. intros l _. apply Checks_seq; [by apply check_string_id_spec|].
    apply Checks_seq; [by apply check_register_spec|].
    eapply Checks_iff; [apply Checks_unless; intros _; apply Checks_bad_proto|]. lia.
Qed.

Lemma validate_proto_tables_spec :
  Forall wf_constant (constants p) ->
  Checks ps (validate_proto_tables ss ps pi p)
    (num_params p <= max_stack_size p /\ string_ok ss (debug_name p) /\
     Forall (proto_ok ps) (child_protos p) /\ Forall (constant_ok ss ps p) (constants p)).
Proof.
  intros Hc. pose proof (proto_located _ _ _ Hp) as Hl. unfold validate_proto_tables.
  apply Checks_seq; [|apply Checks_seq; [by apply check_string_id_spec|apply Checks_seq]].
  - eapply Checks_iff; [apply Checks_unless; intros _; apply Checks_bad_proto|]. lia.
  - apply Checks_each. intros q _. by eapply proto_id_spec.
  - eapply Checks_iff; [apply (Checks_enumerate _ _ _ (fun _ c => constant_ok ss ps p c))|].
    + intros k c Hk. apply validate_constant_spec; [done|]. by eapply Forall_lookup_1.
    + rewrite Forall_lookup. done.
Qed.

Lemma validate_proto_spec :
  rust_proto p -> Checks ps (validate_proto ss ps pi p) (valid_proto accounted_refs ss ps p).
Proof.
  intros (Hcode & Hconst & Hli). unfold validate_proto.
  pose proof (validate_proto_tables_spec Hconst) as Htab.
  destruct (Z.lt_ge_cases (total_words (code p)) 4294967296) as [Ht|Ht].
  2: { rewrite InstructionBoundaryIndex_new_Err by done.
       eapply Checks_iff; [apply Checks_seq; [exact Htab|apply Checks_bad_proto]|].
       split; [tauto|]. intros H. pose proof (vp_words _ _ _ _ H). lia. }
  destruct (InstructionBoundaryIndex_new_Ok _ Ht) as (b & -> & Hb). cbv zeta.
  rewrite (ix_words _ _ Hb). eapply Checks_iff.
  - apply Checks_seq; [exact Htab|]. apply Checks_seq.
    { apply (Checks_enumerate _ _ _ (valid_instruction accounted_refs p)). intros k i Hk.
      apply validate_instruction_spec; [done|done| |done]. by apply (Forall_lookup_1 _ _ _ _ Hcode Hk). }
    apply Checks_seq; [apply Checks_some|apply Checks_seq; [apply Checks_some|apply Checks_seq]].
    + intros li E. rewrite E in Hli. by apply validate_line_info_spec.
    + intros di _. by apply validate_debug_info_spec.
    + apply (Checks_enumerate _ _ _ (fun _ s => instruction_start (code p) (fs_pc s))). intros k s _.
      eapply Checks_iff; [apply Checks_unless; intros _; apply Checks_bad_proto|].
      rewrite negb_false_iff. apply (ix_contains _ _ Hb).
    + by apply validate_closure_captures_spec.
  - rewrite <- (Forall_lookup (fun s => instruction_start (code p) (fs_pc s))). split.
    + intros ((? & ? & ? & ?) & ? & ? & ? & ? & ?). by constructor.
    + intros []. done.
Qed.

End Protos.

(** ** Chunks *)

Lemma validate_chunk_inner_spec policy c :
  rust_chunk c ->
  (validate_chunk_inner (Valid c) policy = [] <-> valid_chunk_of accounted_refs policy c) /\
  Forall (located (protos c)) (validate_chunk_inner (Valid c) policy).
Proof.
  intros Hr. unfold validate_chunk_inner, valid_chunk_of.
  destruct (accepts policy (bytecode_version c)); cbn [negb].
  2: { split; [split; [done|by intros [? _]]|]. by repeat constructor. }
  assert (Checks (protos c)
    (when (negb (proto_id_is_valid (main_proto c) (protos c)))
       (push_chunk Kind.InvalidProtoReference
          ("main proto id " +:+ show (main_proto c) +:+ " is outside "
           +:+ show (len (protos c)) +:+ " protos")) >>>
     for_each (userdata_type_mappings c) (fun mapping =>
       check_string_id (strings c) None None (um_name mapping) "userdata type mapping name") >>>
     for_enumerate (protos c) (validate_proto (strings c) (protos c)))
    (proto_ok (protos c) (main_proto c) /\
     Forall (fun m => string_ok (strings c) (um_name m)) (userdata_type_mappings c) /\
     Forall (valid_proto accounted_refs (strings c) (protos c)) (protos c))) as (new & Hnew & HP & HL).
  { apply Checks_seq; [|apply Checks_seq].
    - eapply Checks_iff; [apply Checks_unless; intros _; by apply Checks_push|].
      unfold proto_id_is_valid, proto_ok. rewrite negb_false_iff. lia.
    - apply Checks_each. intros m _. by apply check_string_id_spec.
    - eapply Checks_iff; [apply (Checks_enumerate _ _ _
        (fun _ p => valid_proto accounted_refs (strings c) (protos c) p))|by rewrite Forall_lookup].
      intros k p Hk. apply validate_proto_spec; [done|]. by apply (Forall_lookup_1 _ _ _ _ Hr Hk). }
  rewrite Hnew. cbn [app]. split; [|done]. rewrite HP. tauto.
Qed.

(** Validity is validity of what the policies account to instructions, and of what they overlook. *)
Lemma valid_instruction_accounts p k i :
  valid_instruction instruction_refs p k i <->
  valid_instruction accounted_refs p k i /\ Forall (ref_ok p) (overlooked_refs i).
Proof.
  split.
  - intros [Hc Hx Hj Hr Hp]. apply accounted_overlooked in Hr as [Hr Ho]; [|done]. by split.
  - intros [[Hc Hx Hj Hr Hp] Ho]. split; try done. by apply accounted_overlooked.
Qed.

Lemma valid_proto_accounts ss ps p :
  valid_proto instruction_refs ss ps p <->
  valid_proto accounted_refs ss ps p /\ Forall (fun i => Forall (ref_ok p) (overlooked_refs i)) (code p).
Proof.
  rewrite Forall_lookup. split.
  - intros [H1 H2 H3 H4 H5 H6 H7 H8 H9 H10]. split; [split; try done|];
      intros k i Hk; by destruct (proj1 (valid_instruction_accounts p k i) (H6 k i Hk)).
  - intros [[H1 H2 H3 H4 H5 H6 H7 H8 H9 H10] Ho]. split; try done.
    intros k i Hk. apply valid_instruction_accounts. eauto.
Qed.

Lemma valid_chunk_accounts policy c :
  valid_chunk_of accounted_refs policy c /\ overlooked_exist c <-> valid_chunk policy c.
Proof.
  unfold valid_chunk, valid_chunk_of, overlooked_exist.
  enough (Forall (valid_proto instruction_refs (strings c) (protos c)) (protos c) <->
    Forall (valid_proto accounted_refs (strings c) (protos c)) (protos c) /\
    Forall (fun p => Forall (fun i => Forall (ref_ok p) (overlooked_refs i)) (code p)) (protos c)) by tauto.
  rewrite <- Forall_and. apply Forall_proper; [|done]. intros p. apply valid_proto_accounts.
Qed.

(** Chunks that come out of the decoder have fields of their machine types. *)
Lemma wf_rust_chunk policy c : wf_chunk policy (Valid c) -> rust_chunk c.
Proof.
  intros (_ & _ & _ & _ & [_ Hps] & _). eapply Forall_impl; [exact Hps|].
  intros p [[_ _ Hw Hcode [_ Hk] _ _ _ Hli _ _ _] _]. split_and!; [|done|].
  - eapply Forall_impl; [exact Hcode|]. by intros i (_ & _ & _ & H).
  - destruct (line_info p) as [li|]; [|done]. destruct Hli as (_ & -> & _).
    split; [apply total_words_nonneg|done].
Qed.

Lemma jump_offset_range i off :
  consistent i -> is_u32 (ins_header i) -> jump_offset_words i = Some off ->
  -8388608 <= off < 8388608.
Proof.
  intros H Hh Ho. pose proof H as Hc. unfold consistent in H.
  destruct (from_words_Some _ _ _ H) as (_ & _ & _ & _ & _ & Hc' & Hd).
  rewrite from_words_arith in H. destruct (from_byte _) as [op|]; [|done].
  assert (ins_e i = as_i32 (ins_header i) / 256) as He by (injection H as <-; done).
  pose proof (as_i32_range (ins_header i)) as Hr. unfold is_u8, is_i16, is_i32 in *.
  unfold jump_offset_words in Ho.
  destruct (ins_opcode i); try discriminate Ho; injection Ho as <-; rewrite ?He; try lia; zdm.
Qed.

(** ** Sample chunks *)

(** [jump +0; getimport r0 <- k1; return] with the constants ["hi"] and its import. *)
Definition valid_proto_sample : Proto :=
  mkProto 2 0 0 1 0 (mkTypeInfo [])
    [mkInstruction 23 Op.Jump 0 0 0 0 0 None;
     mkInstruction 65548 Op.GetImport 0 1 0 1 256 (Some 1073741824);
     mkInstruction 65558 Op.Return 0 1 0 1 256 None]
    [Const.String 1; Const.Import 1073741824] [] 1 0
    (Some (mkLineInfo 24 [1; 0; 0; 1] [300])) (Some (mkDebugInfo [mkDebugLocal 1 0 4 1] []))
    [] None.

Definition valid_chunk_sample : ValidChunk :=
  mkValidChunk 9 3 [[104; 105]] [mkUserdataTypeMapping 64 1] [valid_proto_sample] 0.

Lemma valid_chunk_sample_wf : wf_chunk Public (Valid valid_chunk_sample).
Proof.
  split; [done|]. split; [cbn; lia|]. split; [solve_wf|]. split; [solve_wf|].
  split; [|solve_wf]. split; [solve_wf|].
  constructor; [split; [solve_wf|done]|constructor].
Qed.

Definition valid_bytes_sample : list Z := wire_chunk (Valid valid_chunk_sample).

(** ** Theorems *)


(** Every error the validator reports points at something that exists: its proto
    index is inside the proto table and its instruction index inside that proto's code. *)
Theorem validate_errors_located policy c :
  rust_chunk c -> Forall (located (protos c)) (validate_chunk_inner (Valid c) policy).
Proof. intros H. by apply validate_chunk_inner_spec. Qed.

(** Decoding composes with validation: for every byte string the public decoder accepts, the
    public validator with the operands it overlooks decides the structural validity of the decoded
    chunk, with no further assumption on the bytes than their size. *)
Theorem decoded_chunk_verdict bytes c :
  Forall is_u8 bytes -> len bytes < 8589934592 -> decode_chunk bytes = Ok (Valid c) ->
  (validate_chunk (Valid c) = [] /\ overlooked_exist c <-> valid_chunk Public c).
Proof.
  intros Hb Hl H. assert (rust_chunk c) as Hr by (eapply wf_rust_chunk, decode_public_wf; done).
  unfold validate_chunk. rewrite (proj1 (validate_chunk_inner_spec Public c Hr)). apply valid_chunk_accounts.
Qed.

(** In a chunk that passes validation every jump can be executed: the target of a
    jump instruction resolves to the index of an instruction, or it is the word just past the
    code and the code ends in a RETURN. *)
Theorem validated_jumps_resolve c p k i off :
  rust_chunk c -> validate_chunk (Valid c) = [] -> p ∈ protos c ->
  total_words (code p) < 1073741824 -> code p !! k = Some i -> is_u32 (ins_header i) ->
  jump_offset_words i = Some off ->
  (exists j, jump_target_instruction_index (code p) k = Some j) \/
  (word_of (code p) k + 1 + off = total_words (code p) /\ ends_in_return (code p)).
Proof.
  intros Hr Hv Hp Ht Hk Hh Ho. apply validate_chunk_inner_spec in Hv; [|done].
  destruct Hv as (_ & _ & _ & Hps). rewrite Forall_forall in Hps.
  destruct (vp_code _ _ _ _ (Hps p Hp) k i Hk) as [Hc _ Hj _ _].
  pose proof (jump_offset_range i off Hc Hh Ho) as Hoff.
  pose proof (word_of_nonneg (code p) k). pose proof (word_of_total (code p) k).
  assert (jump_target_word i (word_of (code p) k) = Some (word_of (code p) k + 1 + off)) as Htw.
  { unfold jump_target_word. rewrite Ho. unfold is_i32 in *.
    rewrite (as_i32_small (word_of (code p) k)), (as_i32_small (_ + 1)), as_i32_small
      by (unfold is_i32; lia). done. }
  destruct (Hj _ Htw) as [(j & Hlt & Hw)|?]; [left|by right].
  exists j. apply (jump_target_index_iff (code p) k i off j); [done|done|done|lia|done].
Qed.

(** What passes public validation can be shipped: a chunk without validation
    errors is encoded successfully, and to the byte string of the wire grammar. *)
Theorem validated_chunk_encodes c :
  rust_chunk c -> validate_chunk (Valid c) = [] ->
  encode_chunk (Valid c) = Ok (wire_chunk (Valid c)).
Proof.
  intros Hr Hv. apply validate_chunk_inner_spec in Hv as (Hacc & _ & _ & Hps); [|done].
  apply encode_wire_chunk.
  - split; [done|]. eapply Forall_impl; [exact Hps|]. intros p Hp. split.
    + apply Forall_lookup_2. intros k i Hk. by apply (vi_consistent _ _ _ _ (vp_code _ _ _ _ Hp k i Hk)).
    + rewrite (accepts_public _ Hacc). by intros.
  - eapply Forall_impl; [exact Hr|]. intros p (_ & Hk & _).
    eapply Forall_impl; [exact Hk|]. apply wf_typed_constant.
Qed.

(** The boundary index is exact: it is built if and only if the code fits in a
    32-bit word count, it then holds that count and the word offset of each instruction, and a
    word is reported as an instruction word exactly when some instruction starts there. *)
Theorem boundary_index_exact code :
  match InstructionBoundaryIndex_new code with
  | Ok b => total_words code < 4294967296 /\ code_words b = total_words code /\
      (forall k, (k < length code)%nat -> word_offset b k = Some (word_of code k)) /\
      (forall w, is_instruction_word b w = true <-> instruction_start code w)
  | Err message => 4294967296 <= total_words code /\ message = "proto code is too large"
  end.
Proof.
  destruct (Z.lt_ge_cases (total_words code) 4294967296) as [Ht|Ht].
  - destruct (InstructionBoundaryIndex_new_Ok _ Ht) as (b & -> & [Hb Hw Ho Hc]). done.
  - by rewrite InstructionBoundaryIndex_new_Err.
Qed.

(** After validation the captures of a closure are where the interpreter expects
    them: the instruction that creates a closure of a child proto with [n] upvalues is
    followed by [n] CAPTURE instructions with a known capture kind whose source register or
    upvalue exists. *)
Theorem validated_closure_captures c p k child j :
  rust_chunk c -> validate_chunk (Valid c) = [] -> p ∈ protos c ->
  closure_at (protos c) p k child -> (j < Z.to_nat (num_upvalues child))%nat ->
  exists i t, code p !! (k + 1 + j)%nat = Some i /\ capture_type i = Some t /\
    (ins_b i < match t with Cap.Upval => num_upvalues p | _ => max_stack_size p end).
Proof.
  intros Hr Hv Hp Hcl Hj. apply validate_chunk_inner_spec in Hv as (_ & _ & _ & Hps); [|done].
  rewrite Forall_forall in Hps. specialize (Hps p Hp).
  destruct (proj1 (vp_captures _ _ _ _ Hps (k + 1 + j)%nat)) as (i & Hi & Hop).
  { exists k, child. split; [done|]. lia. }
  destruct (vp_code _ _ _ _ Hps _ i Hi) as [_ _ _ Hrefs (_ & Hcap & _)].
  destruct (Hcap Hop) as [t Ht]. exists i, t. split_and!; [done|done|].
  unfold accounted_refs, capture_refs in Hrefs. rewrite !Forall_app, Ht in Hrefs.
  destruct Hrefs as (_ & _ & Hrefs).
  destruct t; rewrite Forall_singleton in Hrefs; exact Hrefs.
Qed.

(** ** Registers the validator does not account for *)

(** A one-proto chunk around [code] with [stack] registers. *)
Definition gap_chunk (stack : Z) (code : list Instruction) : ValidChunk :=
  mkValidChunk 9 3 [] []
    [mkProto stack 0 0 1 0 (mkTypeInfo []) code [] [] 1 0 None None [] None] 0.

Definition gap_return : Instruction := mkInstruction 65558 Op.Return 0 1 0 1 256 None.

(** An instruction of the given fields. *)
Definition gap_abc (op : Opcode) (a b c : Z) (aux : option Z) : Instruction :=
  default gap_return (from_words (byte op + 256 * a + 65536 * b + 16777216 * c) aux).

(** Instructions of each overlooked kind, with a number of registers for which what is overlooked
    does not exist. *)
Definition gap_samples : list (Z * Instruction) :=
  [(1, gap_abc Op.Call 0 2 1 None); (1, gap_abc Op.And 0 0 7 None); (1, gap_abc Op.Or 0 0 7 None);
   (1, gap_abc Op.GetVarargs 0 4 0 None); (1, gap_abc Op.ForGPrep 1 0 0 None);
   (255, gap_abc Op.LoadNil 0 255 0 None); (255, gap_abc Op.ForGLoop 0 1 0 (Some 253));
   (1, gap_abc Op.DupTable 0 0 0 None)].

Lemma gap_invalid stack i r :
  In r (overlooked_refs i) -> match r with RReg register => stack <= register | RTableConst _ => True | _ => False end ->
  ~ valid_chunk Public (gap_chunk stack [i; gap_return]).
Proof.
  intros Hin Hr [_ H]%valid_chunk_accounts. apply Forall_inv, Forall_inv in H. rewrite Forall_forall in H.
  specialize (H r (proj2 (list_elem_of_In _ _) Hin)). destruct r; try done; cbn in H; [lia|].
  assert (zget (@nil Constant) id = None) as E by (unfold zget; by destruct (id <? 0)). rewrite E in H.
  by destruct H as [? [H|[? H]]].
Qed.

(** Each omission is real: there are chunks with an operand out of range that the validator
    accepts although they are not structurally valid. *)
Theorem overlooked_operands_pass :
  Forall (fun '(stack, i) => ins_opcode i <> Op.Return /\
    validate_chunk (Valid (gap_chunk stack [i; gap_return])) = [] /\
    ~ valid_chunk Public (gap_chunk stack [i; gap_return])) gap_samples.
Proof.
  unfold gap_samples. repeat apply Forall_cons_2; [..|constructor].
  all: split; [by vm_compute|split; [by vm_compute|]].
  all: eapply gap_invalid; [vm_compute; left; reflexivity|first [exact I|cbn; lia]].
Qed.

(** ** Witnesses *)

Lemma valid_chunk_sample_rust : rust_chunk valid_chunk_sample.
Proof. eapply wf_rust_chunk, valid_chunk_sample_wf. Qed.

Lemma valid_chunk_sample_overlooked : overlooked_exist valid_chunk_sample.
Proof. repeat constructor. Qed.


Lemma validate_errors_located_witness :
  Forall (located [valid_proto_sample])
    (validate_chunk_inner (Valid (mkValidChunk 9 3 [] [] [valid_proto_sample] 7)) Public) /\
  length (validate_chunk_inner (Valid (mkValidChunk 9 3 [] [] [valid_proto_sample] 7)) Public) = 3%nat.
Proof.
  split; [|vm_compute; reflexivity].
  apply (validate_errors_located Public (mkValidChunk 9 3 [] [] [valid_proto_sample] 7)).
  apply valid_chunk_sample_rust.
Defined.

Lemma decoded_chunk_verdict_witness :
  decode_chunk valid_bytes_sample = Ok (Valid valid_chunk_sample) /\
  valid_chunk Public valid_chunk_sample.
Proof.
  assert (decode_chunk valid_bytes_sample = Ok (Valid valid_chunk_sample)) as H
    by (vm_compute; reflexivity).
  split; [exact H|]. apply (decoded_chunk_verdict valid_bytes_sample); [| |exact H|];
    [eval_decide|vm_compute; reflexivity|].
  split; [vm_compute; reflexivity|exact valid_chunk_sample_overlooked].
Defined.

Lemma validated_jumps_resolve_witness :
  (exists j, jump_target_instruction_index (code valid_proto_sample) 0 = Some j) \/
  (word_of (code valid_proto_sample) 0 + 1 + 0 = total_words (code valid_proto_sample) /\
   ends_in_return (code valid_proto_sample)).
Proof.
  eapply (validated_jumps_resolve valid_chunk_sample valid_proto_sample 0 _ 0);
    [apply valid_chunk_sample_rust|vm_compute; reflexivity|left|vm_compute; reflexivity
    |reflexivity|cbn; unfold is_u32; lia|reflexivity].
Defined.

Lemma validated_chunk_encodes_witness :
  encode_chunk (Valid valid_chunk_sample) = Ok valid_bytes_sample.
Proof.
  apply validated_chunk_encodes; [apply valid_chunk_sample_rust|vm_compute; reflexivity].
Defined.

(** [newclosure r0 <- child 0; capture val r0; return] and its child. *)
Definition closure_main_sample : Proto :=
  mkProto 1 0 0 1 0 (mkTypeInfo [])
    [mkInstruction 19 Op.NewClosure 0 0 0 0 0 None;
     mkInstruction 70 Op.Capture 0 0 0 0 0 None;
     mkInstruction 65558 Op.Return 0 1 0 1 256 None] [] [1] 1 0 None None [] None.

Definition closure_child_sample : Proto :=
  mkProto 1 0 1 0 0 (mkTypeInfo [])
    [mkInstruction 65558 Op.Return 0 1 0 1 256 None] [] [] 1 0 None None [] None.

Definition closure_chunk_sample : ValidChunk :=
  mkValidChunk 9 3 [] [] [closure_main_sample; closure_child_sample] 0.

Lemma validated_closure_captures_witness :
  exists i t, code closure_main_sample !! (0 + 1 + 0)%nat = Some i /\ capture_type i = Some t /\
    (ins_b i < match t with Cap.Upval => num_upvalues closure_main_sample
                       | _ => max_stack_size closure_main_sample end).
Proof.
  apply (validated_closure_captures closure_chunk_sample closure_main_sample 0
    closure_child_sample 0); [|vm_compute; reflexivity|left| |cbn; lia].
  - unfold rust_chunk, rust_proto. cbn. repeat constructor.
  - eexists _, 1. split; [reflexivity|]. split; reflexivity.
Defined.
