(* ===== verification/Builder.v ===== *)
(** * Builder: the chunk builder of the compiler ([ruau-bytecode/src/builder.rs])

    [ProtoWork] is the function under construction and [ChunkBuilder] the chunk;
    every [&mut self] method is a function that returns the new state next to its
    result. Methods that index a vector or unwrap return an [option] whose [None]
    is the panic. The two hash maps are finite maps; a Rust [str] is the list of
    its code points. *)

From Stdlib Require Import ZArith Lia.
From stdpp Require Import base numbers list strings gmap.
From S2P Require Import Prelude Opcodes BytecodeTypes LineInfo Codec.

(** ** Constants as map keys *)

Definition constant_key (c : Constant) : Z * list Z * list (Z * Z) * list Z :=
  match c with
  | Const.Nil => (0, [], [], [])
  | Const.Boolean value => (1, [if value then 1 else 0], [], [])
  | Const.Number bits => (2, [bits], [], [])
  | Const.String string => (3, [string], [], [])
  | Const.Import import_id => (4, [import_id], [], [])
  | Const.Table keys => (5, keys, [], [])
  | Const.Closure proto => (6, [proto], [], [])
  | Const.Vector (x, y, z, w) => (7, [x; y; z; w], [], [])
  | Const.VectorDouble (x, y, z, w) => (8, [x; y; z; w], [], [])
  | Const.TableWithConstants entries =>
      (9, [], map (fun e => (te_key e, te_value e)) entries, [])
  | Const.Integer value => (10, [value], [], [])
  | Const.ClassShapeC shape =>
      (11, cs_class_name shape :: cs_property_names shape, [], cs_method_names shape)
  end.

Definition constant_of_key (k : Z * list Z * list (Z * Z) * list Z) : option Constant :=
  match k with
  | (0, _, _, _) => Some Const.Nil
  | (1, [v], _, _) => Some (Const.Boolean (v =? 1))
  | (2, [bits], _, _) => Some (Const.Number bits)
  | (3, [string], _, _) => Some (Const.String string)
  | (4, [import_id], _, _) => Some (Const.Import import_id)
  | (5, keys, _, _) => Some (Const.Table keys)
  | (6, [proto], _, _) => Some (Const.Closure proto)
  | (7, [x; y; z; w], _, _) => Some (Const.Vector (x, y, z, w))
  | (8, [x; y; z; w], _, _) => Some (Const.VectorDouble (x, y, z, w))
  | (9, _, entries, _) =>
      Some (Const.TableWithConstants (map (fun '(k, v) => mkTableEntry k v) entries))
  | (10, [value], _, _) => Some (Const.Integer value)
  | (11, name :: props, _, methods) => Some (Const.ClassShapeC (mkClassShape name props methods))
  | _ => None
  end.

Lemma constant_of_key_key c : constant_of_key (constant_key c) = Some c.
Proof.
  destruct c as [| [] | | | | | | [[[]]] | [[[]]] | entries | | []]; try done.
  cbn. do 2 f_equal. induction entries as [|[]]; cbn; congruence.
Qed.

#[export] Instance Constant_countable : Countable Constant :=
  inj_countable constant_key constant_of_key constant_of_key_key.

(** ** State *)

Record TypedLocal : Set := mkTypedLocal {
  tl_type_tag : Z;
  tl_reg : Z;
  tl_startpc : Z;
  tl_endpc : Z
}.

Record ProtoWork : Set := mkProtoWork {
  pw_child_protos : list Z;
  pw_constants : list Constant;
  pw_constant_ids : gmap Constant Z;
  pw_code : list Instruction;
  pw_code_word_offsets : list Z;
  pw_next_code_word_offset : Z;
  pw_code_lines : list Z;
  pw_feedback_slots : list FeedbackSlot;
  pw_max_stack_size : Z;
  pw_current_line : Z;
  pw_implicit_return_line_delta : Z;
  pw_implicit_return_line_base : option Z;
  pw_proto_flags : Z;
  pw_implicit_prepvarargs : bool;
  pw_function_type_info : list Z;
  pw_typed_upvalues : list Z;
  pw_typed_locals : list TypedLocal;
  pw_debug_locals : list DebugLocal;
  pw_debug_upvalues : list Z
}.

Record ProtoMetadata : Set := mkProtoMetadata {
  pm_num_params : Z;
  pm_num_upvalues : Z;
  pm_is_vararg : bool;
  pm_flags : Z;
  pm_line_defined : Z;
  pm_debug_name : Z;
  pm_debug_level : Z
}.

Record ChunkBuilder : Set := mkChunkBuilder {
  cb_strings : list (list Z);
  cb_string_ids : gmap (list Z) Z;
  cb_protos : list Proto;
  cb_current : ProtoWork;
  cb_bytecode_version : Z
}.

(** Field updates. *)

Definition pw_with_child_protos (child_protos : list Z) (s : ProtoWork) : ProtoWork :=
  mkProtoWork child_protos (pw_constants s) (pw_constant_ids s) (pw_code s)
    (pw_code_word_offsets s) (pw_next_code_word_offset s) (pw_code_lines s)
    (pw_feedback_slots s) (pw_max_stack_size s) (pw_current_line s)
    (pw_implicit_return_line_delta s) (pw_implicit_return_line_base s) (pw_proto_flags s)
    (pw_implicit_prepvarargs s) (pw_function_type_info s) (pw_typed_upvalues s)
    (pw_typed_locals s) (pw_debug_locals s) (pw_debug_upvalues s).

Definition pw_with_interned (constants : list Constant) (constant_ids : gmap Constant Z) (s : ProtoWork) : ProtoWork :=
  mkProtoWork (pw_child_protos s) constants constant_ids (pw_code s) (pw_code_word_offsets s)
    (pw_next_code_word_offset s) (pw_code_lines s) (pw_feedback_slots s) (pw_max_stack_size s)
    (pw_current_line s) (pw_implicit_return_line_delta s) (pw_implicit_return_line_base s)
    (pw_proto_flags s) (pw_implicit_prepvarargs s) (pw_function_type_info s)
    (pw_typed_upvalues s) (pw_typed_locals s) (pw_debug_locals s) (pw_debug_upvalues s).

Definition pw_with_code (code : list Instruction) (s : ProtoWork) : ProtoWork :=
  mkProtoWork (pw_child_protos s) (pw_constants s) (pw_constant_ids s) code
    (pw_code_word_offsets s) (pw_next_code_word_offset s) (pw_code_lines s)
    (pw_feedback_slots s) (pw_max_stack_size s) (pw_current_line s)
    (pw_implicit_return_line_delta s) (pw_implicit_return_line_base s) (pw_proto_flags s)
    (pw_implicit_prepvarargs s) (pw_function_type_info s) (pw_typed_upvalues s)
    (pw_typed_locals s) (pw_debug_locals s) (pw_debug_upvalues s).

Definition pw_with_emitted (code : list Instruction) (code_word_offsets : list Z) (next_code_word_offset : Z) (code_lines : list Z) (s : ProtoWork) : ProtoWork :=
  mkProtoWork (pw_child_protos s) (pw_constants s) (pw_constant_ids s) code code_word_offsets
    next_code_word_offset code_lines (pw_feedback_slots s) (pw_max_stack_size s)
    (pw_current_line s) (pw_implicit_return_line_delta s) (pw_implicit_return_line_base s)
    (pw_proto_flags s) (pw_implicit_prepvarargs s) (pw_function_type_info s)
    (pw_typed_upvalues s) (pw_typed_locals s) (pw_debug_locals s) (pw_debug_upvalues s).

Definition pw_with_feedback_slots (feedback_slots : list FeedbackSlot) (s : ProtoWork) : ProtoWork :=
  mkProtoWork (pw_child_protos s) (pw_constants s) (pw_constant_ids s) (pw_code s)
    (pw_code_word_offsets s) (pw_next_code_word_offset s) (pw_code_lines s) feedback_slots
    (pw_max_stack_size s) (pw_current_line s) (pw_implicit_return_line_delta s)
    (pw_implicit_return_line_base s) (pw_proto_flags s) (pw_implicit_prepvarargs s)
    (pw_function_type_info s) (pw_typed_upvalues s) (pw_typed_locals s) (pw_debug_locals s)
    (pw_debug_upvalues s).

Definition pw_with_max_stack_size (max_stack_size : Z) (s : ProtoWork) : ProtoWork :=
  mkProtoWork (pw_child_protos s) (pw_constants s) (pw_constant_ids s) (pw_code s)
    (pw_code_word_offsets s) (pw_next_code_word_offset s) (pw_code_lines s)
    (pw_feedback_slots s) max_stack_size (pw_current_line s) (pw_implicit_return_line_delta s)
    (pw_implicit_return_line_base s) (pw_proto_flags s) (pw_implicit_prepvarargs s)
    (pw_function_type_info s) (pw_typed_upvalues s) (pw_typed_locals s) (pw_debug_locals s)
    (pw_debug_upvalues s).

Definition pw_with_current_line (current_line : Z) (s : ProtoWork) : ProtoWork :=
  mkProtoWork (pw_child_protos s) (pw_constants s) (pw_constant_ids s) (pw_code s)
    (pw_code_word_offsets s) (pw_next_code_word_offset s) (pw_code_lines s)
    (pw_feedback_slots s) (pw_max_stack_size s) current_line (pw_implicit_return_line_delta s)
    (pw_implicit_return_line_base s) (pw_proto_flags s) (pw_implicit_prepvarargs s)
    (pw_function_type_info s) (pw_typed_upvalues s) (pw_typed_locals s) (pw_debug_locals s)
    (pw_debug_upvalues s).

Definition pw_with_implicit_return_line_delta (implicit_return_line_delta : Z) (s : ProtoWork) : ProtoWork :=
  mkProtoWork (pw_child_protos s) (pw_constants s) (pw_constant_ids s) (pw_code s)
    (pw_code_word_offsets s) (pw_next_code_word_offset s) (pw_code_lines s)
    (pw_feedback_slots s) (pw_max_stack_size s) (pw_current_line s) implicit_return_line_delta
    (pw_implicit_return_line_base s) (pw_proto_flags s) (pw_implicit_prepvarargs s)
    (pw_function_type_info s) (pw_typed_upvalues s) (pw_typed_locals s) (pw_debug_locals s)
    (pw_debug_upvalues s).

Definition pw_with_implicit_return_line_base (implicit_return_line_base : option Z) (s : ProtoWork) : ProtoWork :=
  mkProtoWork (pw_child_protos s) (pw_constants s) (pw_constant_ids s) (pw_code s)
    (pw_code_word_offsets s) (pw_next_code_word_offset s) (pw_code_lines s)
    (pw_feedback_slots s) (pw_max_stack_size s) (pw_current_line s)
    (pw_implicit_return_line_delta s) implicit_return_line_base (pw_proto_flags s)
    (pw_implicit_prepvarargs s) (pw_function_type_info s) (pw_typed_upvalues s)
    (pw_typed_locals s) (pw_debug_locals s) (pw_debug_upvalues s).

Definition pw_with_proto_flags (proto_flags : Z) (s : ProtoWork) : ProtoWork :=
  mkProtoWork (pw_child_protos s) (pw_constants s) (pw_constant_ids s) (pw_code s)
    (pw_code_word_offsets s) (pw_next_code_word_offset s) (pw_code_lines s)
    (pw_feedback_slots s) (pw_max_stack_size s) (pw_current_line s)
    (pw_implicit_return_line_delta s) (pw_implicit_return_line_base s) proto_flags
    (pw_implicit_prepvarargs s) (pw_function_type_info s) (pw_typed_upvalues s)
    (pw_typed_locals s) (pw_debug_locals s) (pw_debug_upvalues s).

Definition pw_with_function_type_info (function_type_info : list Z) (s : ProtoWork) : ProtoWork :=
  mkProtoWork (pw_child_protos s) (pw_constants s) (pw_constant_ids s) (pw_code s)
    (pw_code_word_offsets s) (pw_next_code_word_offset s) (pw_code_lines s)
    (pw_feedback_slots s) (pw_max_stack_size s) (pw_current_line s)
    (pw_implicit_return_line_delta s) (pw_implicit_return_line_base s) (pw_proto_flags s)
    (pw_implicit_prepvarargs s) function_type_info (pw_typed_upvalues s) (pw_typed_locals s)
    (pw_debug_locals s) (pw_debug_upvalues s).

Definition pw_with_typed_upvalues (typed_upvalues : list Z) (s : ProtoWork) : ProtoWork :=
  mkProtoWork (pw_child_protos s) (pw_constants s) (pw_constant_ids s) (pw_code s)
    (pw_code_word_offsets s) (pw_next_code_word_offset s) (pw_code_lines s)
    (pw_feedback_slots s) (pw_max_stack_size s) (pw_current_line s)
    (pw_implicit_return_line_delta s) (pw_implicit_return_line_base s) (pw_proto_flags s)
    (pw_implicit_prepvarargs s) (pw_function_type_info s) typed_upvalues (pw_typed_locals s)
    (pw_debug_locals s) (pw_debug_upvalues s).

Definition pw_with_typed_locals (typed_locals : list TypedLocal) (s : ProtoWork) : ProtoWork :=
  mkProtoWork (pw_child_protos s) (pw_constants s) (pw_constant_ids s) (pw_code s)
    (pw_code_word_offsets s) (pw_next_code_word_offset s) (pw_code_lines s)
    (pw_feedback_slots s) (pw_max_stack_size s) (pw_current_line s)
    (pw_implicit_return_line_delta s) (pw_implicit_return_line_base s) (pw_proto_flags s)
    (pw_implicit_prepvarargs s) (pw_function_type_info s) (pw_typed_upvalues s) typed_locals
    (pw_debug_locals s) (pw_debug_upvalues s).

Definition pw_with_debug_locals (debug_locals : list DebugLocal) (s : ProtoWork) : ProtoWork :=
  mkProtoWork (pw_child_protos s) (pw_constants s) (pw_constant_ids s) (pw_code s)
    (pw_code_word_offsets s) (pw_next_code_word_offset s) (pw_code_lines s)
    (pw_feedback_slots s) (pw_max_stack_size s) (pw_current_line s)
    (pw_implicit_return_line_delta s) (pw_implicit_return_line_base s) (pw_proto_flags s)
    (pw_implicit_prepvarargs s) (pw_function_type_info s) (pw_typed_upvalues s)
    (pw_typed_locals s) debug_locals (pw_debug_upvalues s).

Definition pw_with_debug_upvalues (debug_upvalues : list Z) (s : ProtoWork) : ProtoWork :=
  mkProtoWork (pw_child_protos s) (pw_constants s) (pw_constant_ids s) (pw_code s)
    (pw_code_word_offsets s) (pw_next_code_word_offset s) (pw_code_lines s)
    (pw_feedback_slots s) (pw_max_stack_size s) (pw_current_line s)
    (pw_implicit_return_line_delta s) (pw_implicit_return_line_base s) (pw_proto_flags s)
    (pw_implicit_prepvarargs s) (pw_function_type_info s) (pw_typed_upvalues s)
    (pw_typed_locals s) (pw_debug_locals s) debug_upvalues.


Definition cb_with_strings (strings : list (list Z)) (string_ids : gmap (list Z) Z) (s : ChunkBuilder) : ChunkBuilder :=
  mkChunkBuilder strings string_ids (cb_protos s) (cb_current s) (cb_bytecode_version s).

Definition cb_with_protos (protos : list Proto) (s : ChunkBuilder) : ChunkBuilder :=
  mkChunkBuilder (cb_strings s) (cb_string_ids s) protos (cb_current s) (cb_bytecode_version s).

Definition cb_with_current (current : ProtoWork) (s : ChunkBuilder) : ChunkBuilder :=
  mkChunkBuilder (cb_strings s) (cb_string_ids s) (cb_protos s) current (cb_bytecode_version s).

Definition cb_with_bytecode_version (bytecode_version : Z) (s : ChunkBuilder) : ChunkBuilder :=
  mkChunkBuilder (cb_strings s) (cb_string_ids s) (cb_protos s) (cb_current s) bytecode_version.

(** ** Construction *)

(** [..Self::default()] *)
Definition ProtoWork_default : ProtoWork :=
  mkProtoWork [] [] ∅ [] [] 0 [] [] 0 0 0 None 0 false [] [] [] [] [].

Definition ProtoWork_new : ProtoWork :=
  mkProtoWork [] [] ∅ [] [] 0 [] [] 0 1 0 None 2 true [] [] [] [] [].

Definition ProtoWork_new_function : ProtoWork :=
  pw_with_current_line 1 (pw_with_proto_flags 2 ProtoWork_default).

Definition ChunkBuilder_new : ChunkBuilder :=
  mkChunkBuilder [] ∅ [] ProtoWork_new DEFAULT_VERSION.

(** [std::mem::replace] of the current proto. *)
Definition begin_proto (self : ChunkBuilder) : ProtoWork * ChunkBuilder :=
  (cb_current self, cb_with_current ProtoWork_new_function self).

Definition end_proto (previous : ProtoWork) (self : ChunkBuilder) : ProtoWork * ChunkBuilder :=
  (cb_current self, cb_with_current previous self).

(** A method that only updates the current proto. *)
Definition on_current (f : ProtoWork -> ProtoWork) (self : ChunkBuilder) : ChunkBuilder :=
  cb_with_current (f (cb_current self)) self.

Definition set_bytecode_version (version : Z) (self : ChunkBuilder) : ChunkBuilder :=
  cb_with_bytecode_version version self.

Definition set_max_stack_size (value : Z) : ChunkBuilder -> ChunkBuilder :=
  on_current (fun w => pw_with_max_stack_size (Z.max (pw_max_stack_size w) value) w).

Definition set_proto_flags (value : Z) : ChunkBuilder -> ChunkBuilder :=
  on_current (pw_with_proto_flags value).

Definition set_implicit_return_line_delta (value : Z) : ChunkBuilder -> ChunkBuilder :=
  on_current (pw_with_implicit_return_line_delta value).

Definition set_implicit_return_line_base (line : Z) : ChunkBuilder -> ChunkBuilder :=
  on_current (pw_with_implicit_return_line_base (Some (as_i32 line))).

Definition set_debug_line (line : Z) : ChunkBuilder -> ChunkBuilder :=
  on_current (pw_with_current_line (as_i32 line)).

(** ** Interned constants, strings and protos *)

Definition add_constant (constant : Constant) (self : ChunkBuilder) : Z * ChunkBuilder :=
  let w := cb_current self in
  match pw_constant_ids w !! constant with
  | Some index => (index, self)
  | None =>
      let index := as_u32 (len (pw_constants w)) in
      (index,
       cb_with_current
         (pw_with_interned (pw_constants w ++ [constant])
            (<[constant := index]> (pw_constant_ids w)) w) self)
  end.

(** [value.to_bits()] is the argument: floats are carried as their bits. *)
Definition add_number (bits : Z) := add_constant (Const.Number bits).
Definition add_nil := add_constant Const.Nil.
Definition add_boolean (value : bool) := add_constant (Const.Boolean value).
Definition add_vector_bits (bits : Z * Z * Z * Z) := add_constant (Const.Vector bits).
Definition add_integer (value : Z) := add_constant (Const.Integer value).
Definition add_import (import_id : Z) := add_constant (Const.Import import_id).
Definition add_table_shape (keys : list Z) := add_constant (Const.Table keys).
Definition add_table_with_constants (entries : list TableEntry) :=
  add_constant (Const.TableWithConstants entries).
Definition add_class_shape (shape : ClassShape) := add_constant (Const.ClassShapeC shape).
Definition add_closure (proto : Z) := add_constant (Const.Closure proto).

(** *** Strings

    [ch.encode_utf8]: the UTF-8 encoding of one scalar value. *)
Definition encode_utf8 (ch : Z) : list Z :=
  if ch <? 128 then [ch]
  else if ch <? 2048 then
    [Z.lor 192 (Z.shiftr ch 6); Z.lor 128 (Z.land ch 63)]
  else if ch <? 65536 then
    [Z.lor 224 (Z.shiftr ch 12); Z.lor 128 (Z.land (Z.shiftr ch 6) 63); Z.lor 128 (Z.land ch 63)]
  else
    [Z.lor 240 (Z.shiftr ch 18); Z.lor 128 (Z.land (Z.shiftr ch 12) 63);
     Z.lor 128 (Z.land (Z.shiftr ch 6) 63); Z.lor 128 (Z.land ch 63)].

(** The byte length of a [str]. *)
Definition str_len (s : list Z) : Z := len (concat (map encode_utf8 s)).

(** [char::to_digit(16)] *)
Definition to_digit16 (ch : Z) : option Z :=
  if (48 <=? ch) && (ch <=? 57) then Some (ch - 48)
  else if (97 <=? ch) && (ch <=? 102) then Some (ch - 87)
  else if (65 <=? ch) && (ch <=? 70) then Some (ch - 55)
  else None.

(** [u8::from_str_radix(s, 16)]: an optional plus sign, then hexadecimal digits
    within a byte; a lone sign and the empty string are errors. *)
Fixpoint from_digits16 (acc : Z) (s : list Z) : option Z :=
  match s with
  | [] => Some acc
  | ch :: s' =>
      match to_digit16 ch with
      | None => None
      | Some d => match u8_try_from (acc * 16 + d) with
                  | None => None
                  | Some acc' => from_digits16 acc' s'
                  end
      end
  end.

Definition u8_from_str_radix16 (s : list Z) : option Z :=
  match s with
  | [] => None
  | [43] | [45] => None
  | 43 :: s' => from_digits16 0 s'
  | _ => from_digits16 0 s
  end.

(** [tail.strip_prefix("ff").filter(|hex| hex.len() == 2).and_then(..)] *)
Definition marker_byte (tail : list Z) : option Z :=
  match tail with
  | 102 :: 102 :: hex => if str_len hex =? 2 then u8_from_str_radix16 hex else None
  | _ => None
  end.

(** The [while let Some(ch) = chars.next()] loop; a marker also drops four
    characters, so the fuel is the number of characters. *)
Fixpoint decode_ast_chars (fuel : nat) (chars : list Z) : list Z :=
  match fuel, chars with
  | S fuel', ch :: rest =>
      match (if ch =? 65535 then marker_byte (take 4 rest) else None) with
      | Some byte => byte :: decode_ast_chars fuel' (drop 4 rest)
      | None => encode_utf8 ch ++ decode_ast_chars fuel' rest
      end
  | _, _ => []
  end.

Definition decode_ast_string_bytes (value : list Z) : list Z :=
  decode_ast_chars (length value) value.

Definition add_string (value : list Z) (self : ChunkBuilder) : Z * ChunkBuilder :=
  let bytes := decode_ast_string_bytes value in
  match cb_string_ids self !! bytes with
  | Some index => (index, self)
  | None =>
      let strings := cb_strings self ++ [bytes] in
      let index := as_u32 (len strings) in
      (index, cb_with_strings strings (<[bytes := index]> (cb_string_ids self)) self)
  end.

Definition add_string_constant (value : list Z) (self : ChunkBuilder) : Z * ChunkBuilder :=
  let '(string, self) := add_string value self in
  add_constant (Const.String string) self.

(** *** Child protos *)

Definition add_child_proto (proto : Z) (self : ChunkBuilder) : Z * ChunkBuilder :=
  let w := cb_current self in
  match position (fun existing => existing =? proto) (pw_child_protos w) with
  | Some index => (as_i16 (Z.of_nat index), self)
  | None =>
      (as_i16 (len (pw_child_protos w)),
       cb_with_current (pw_with_child_protos (pw_child_protos w ++ [proto]) w) self)
  end.

Definition add_proto (proto : Proto) (self : ChunkBuilder) : Z * ChunkBuilder :=
  (as_u32 (len (cb_protos self)), cb_with_protos (cb_protos self ++ [proto]) self).

(** ** Emission *)

Definition current_word_offset (self : ChunkBuilder) : Z :=
  pw_next_code_word_offset (cb_current self).

(** [None] is the panic of indexing out of range. *)
Definition instruction_word_offset (index : nat) (self : ChunkBuilder) : option Z :=
  pw_code_word_offsets (cb_current self) !! index.

Definition current_code (self : ChunkBuilder) : list Instruction := pw_code (cb_current self).
Definition proto_flags (self : ChunkBuilder) : Z := pw_proto_flags (cb_current self).
Definition builder_max_stack_size (self : ChunkBuilder) : Z :=
  pw_max_stack_size (cb_current self).

Definition emit_work (instruction : Instruction) (line : Z) (w : ProtoWork) : ProtoWork :=
  pw_with_emitted (pw_code w ++ [instruction])
    (pw_code_word_offsets w ++ [pw_next_code_word_offset w])
    (as_u32 (pw_next_code_word_offset w + word_len instruction))
    (pw_code_lines w ++ replicate (Z.to_nat (word_len instruction)) line) w.

Definition emit_at_line (instruction : Instruction) (line : Z) (self : ChunkBuilder)
    : nat * ChunkBuilder :=
  (length (pw_code (cb_current self)), on_current (emit_work instruction line) self).

Definition emit (instruction : Instruction) (self : ChunkBuilder) : nat * ChunkBuilder :=
  emit_at_line instruction (pw_current_line (cb_current self)) self.

(** [saturating_add] on [i32] with a non-negative increment. *)
Definition implicit_return_line (self : ChunkBuilder) : Z :=
  let w := cb_current self in
  let base :=
    match pw_implicit_return_line_base w with
    | Some line => line
    | None => default 1 (last (pw_code_lines w))
    end in
  Z.min 2147483647 (base + pw_implicit_return_line_delta w).

Definition emit_implicit_return (self : ChunkBuilder) : option (nat * ChunkBuilder) :=
  match abc Op.Return 0 1 0 with
  | None => None
  | Some instruction => Some (emit_at_line instruction (implicit_return_line self) self)
  end.

(** [self.current.code[index] = instruction]; [None] is the index panic. *)
Definition set_code (index : nat) (instruction : Instruction) (self : ChunkBuilder)
    : option ChunkBuilder :=
  if decide (index < length (current_code self))%nat
  then Some (on_current (fun w => pw_with_code (<[index := instruction]> (pw_code w)) w) self)
  else None.

Definition patch_ad (index : nat) (opcode : Opcode) (a d : Z) (self : ChunkBuilder)
    : option ChunkBuilder :=
  match ad opcode a d with
  | None => None
  | Some instruction => set_code index instruction self
  end.

Definition patch_ad_with_aux (index : nat) (opcode : Opcode) (a d : Z) (aux : option Z)
    (self : ChunkBuilder) : option ChunkBuilder :=
  let b := as_u8 (Z.land (as_u16 d) 255) in
  let c := as_u8 (Z.land (Z.shiftr (as_u16 d) 8) 255) in
  match abc_with_aux opcode a b c aux with
  | None => None
  | Some instruction => set_code index instruction self
  end.

(** The [debug_assert!] on the opcode is not part of a release build. *)
Definition patch_skip_c_to_current (index : nat) (self : ChunkBuilder)
    : option (bool * ChunkBuilder) :=
  match instruction_word_offset index self with
  | None => None
  | Some source =>
      let target := current_word_offset self in
      let offset := target - as_u32 (source + 1) in
      if offset <? 0 then Some (false, self)
      else
        match u8_try_from offset with
        | None => Some (false, self)
        | Some offset =>
            match current_code self !! index with
            | None => None
            | Some i =>
                match abc_with_aux (ins_opcode i) (ins_a i) (ins_b i) offset (ins_aux i) with
                | None => None
                | Some instruction =>
                    match set_code index instruction self with
                    | None => None
                    | Some self => Some (true, self)
                    end
                end
            end
        end
  end.

Definition needs_implicit_prepvarargs (self : ChunkBuilder) : bool :=
  let w := cb_current self in
  if negb (pw_implicit_prepvarargs w) then false
  else match pw_code w with
       | [] => true
       | instruction :: _ => negb (bool_decide (ins_opcode instruction = Op.PrepVarargs))
       end.

Definition current_type_info_pc (self : ChunkBuilder) : Z :=
  as_u32 (current_word_offset self +
    (if pw_implicit_prepvarargs (cb_current self) && needs_implicit_prepvarargs self
     then 1 else 0)).

(** ** Type, debug and feedback metadata *)

Definition push_local_type_info (type_tag reg startpc endpc : Z) : ChunkBuilder -> ChunkBuilder :=
  on_current (fun w => pw_with_typed_locals
    (pw_typed_locals w ++ [mkTypedLocal type_tag reg startpc endpc]) w).

Definition set_function_type_info (type_info : list Z) : ChunkBuilder -> ChunkBuilder :=
  on_current (pw_with_function_type_info type_info).

Definition push_upvalue_type_info (type_tag : Z) : ChunkBuilder -> ChunkBuilder :=
  on_current (fun w => pw_with_typed_upvalues (pw_typed_upvalues w ++ [type_tag]) w).

Definition push_debug_local (name start_pc end_pc register : Z) : ChunkBuilder -> ChunkBuilder :=
  on_current (fun w => pw_with_debug_locals
    (pw_debug_locals w ++ [mkDebugLocal name start_pc end_pc register]) w).

Definition push_debug_upvalue (name : Z) : ChunkBuilder -> ChunkBuilder :=
  on_current (fun w => pw_with_debug_upvalues (pw_debug_upvalues w ++ [name]) w).

Definition push_feedback_slot (slot : FeedbackSlot) (self : ChunkBuilder) : Z * ChunkBuilder :=
  let w := cb_current self in
  (as_u32 (len (pw_feedback_slots w)),
   cb_with_current (pw_with_feedback_slots (pw_feedback_slots w ++ [slot]) w) self).

(** [write_varint] appends to the byte vector. *)
Definition typed_local_bytes (bytes : list Z) (local : TypedLocal) : list Z :=
  write_varint
    (write_varint (bytes ++ [tl_type_tag local; tl_reg local]) (tl_startpc local))
    (u32_saturating_sub (tl_endpc local) (tl_startpc local)).

Definition type_info_payload (function_type_info typed_upvalues : list Z)
    (typed_locals : list TypedLocal) : list Z :=
  match function_type_info, typed_upvalues, typed_locals with
  | [], [], [] => []
  | _, _, _ =>
      let bytes := write_varint [] (len function_type_info) in
      let bytes := write_varint bytes (len typed_upvalues) in
      let bytes := write_varint bytes (len typed_locals) in
      foldl typed_local_bytes (bytes ++ function_type_info ++ typed_upvalues) typed_locals
  end.

(** ** Jump folding *)

Definition is_foldable_jump_d (opcode : Opcode) : bool :=
  match opcode with
  | Op.Jump | Op.JumpBack | Op.JumpIf | Op.JumpIfNot | Op.JumpIfEq | Op.JumpIfLe
  | Op.JumpIfLt | Op.JumpIfNotEq | Op.JumpIfNotLe | Op.JumpIfNotLt | Op.ForNPrep
  | Op.ForNLoop | Op.ForGLoop | Op.ForGPrepInext | Op.ForGPrepNext | Op.ForGPrep
  | Op.JumpXEqKNil | Op.JumpXEqKB | Op.JumpXEqKN | Op.JumpXEqKS | Op.CmpProto => true
  | _ => false
  end.

(** [offsets.binary_search(&word).ok()]: the offsets are strictly increasing, so
    the search returns the only index that holds [word]. *)
Definition instruction_index_for_word (offsets : list Z) (word : Z) : option nat :=
  position (fun offset => offset =? word) offsets.

Definition patch_jump_d_instruction (instruction : Instruction) (offset : Z)
    : option Instruction :=
  match ins_aux instruction with
  | None => ad (ins_opcode instruction) (ins_a instruction) offset
  | Some _ =>
      abc_with_aux (ins_opcode instruction) (ins_a instruction)
        (as_u8 (Z.land (as_u16 offset) 255))
        (as_u8 (Z.land (Z.shiftr (as_u16 offset) 8) 255)) (ins_aux instruction)
  end.

(** The [while] over a chain of forward jumps. [None] is an index panic or an
    exhausted fuel; each round moves to a later instruction, so a fuel above the
    number of instructions is enough ([follow_jumps_total]). *)
Fixpoint follow_jumps (fuel : nat) (code : list Instruction) (offsets : list Z)
    (target_word : Z) (target_index : nat) : option (Z * nat) :=
  match fuel with
  | O => None
  | S fuel' =>
      match code !! target_index with
      | None => None
      | Some target =>
          if bool_decide (ins_opcode target = Op.Jump) && (0 <=? ins_d target) then
            match offsets !! target_index with
            | None => None
            | Some offset =>
                match jump_target_word target offset with
                | None => Some (target_word, target_index)
                | Some next_target =>
                    if next_target <? 0 then Some (target_word, target_index)
                    else
                      match instruction_index_for_word offsets (as_u32 next_target) with
                      | None => Some (target_word, target_index)
                      | Some next_index =>
                          follow_jumps fuel' code offsets next_target next_index
                      end
                end
            end
          else Some (target_word, target_index)
      end
  end.

(** The [while] over copies of the same RETURN. *)
Fixpoint skip_returns (fuel : nat) (code : list Instruction) (offsets : list Z)
    (target_word : Z) (target_index : nat) : option (Z * nat) :=
  match fuel with
  | O => None
  | S fuel' =>
      match code !! S target_index, code !! target_index with
      | Some next, Some target =>
          if bool_decide (next = target) then
            match offsets !! S target_index with
            | None => None
            | Some offset => skip_returns fuel' code offsets (as_i32 offset) (S target_index)
            end
          else Some (target_word, target_index)
      | None, _ => Some (target_word, target_index)
      | _, None => None
      end
  end.

(** The end of the loop body, once the final target is known. *)
Definition fold_to_target (code : list Instruction) (index : nat) (instruction : Instruction)
    (source_word target_word : Z) (target_index : nat) : option (list Instruction) :=
  match code !! target_index with
  | None => None
  | Some target =>
      let offset := as_i32 (as_i32 (target_word - as_i32 source_word) - 1) in
      if bool_decide (ins_opcode instruction = Op.Jump)
         && bool_decide (ins_opcode target = Op.Return)
      then Some (<[index := target]> code)
      else
        match i16_try_from offset with
        | None => Some code
        | Some offset =>
            match patch_jump_d_instruction instruction offset with
            | None => None
            | Some patched => Some (<[index := patched]> code)
            end
        end
  end.

(** One round of [for index in 0..self.code.len()]; the [continue]s leave the code
    as it is. *)
Definition fold_round (offsets : list Z) (code : list Instruction) (index : nat)
    : option (list Instruction) :=
  match code !! index, offsets !! index with
  | Some instruction, Some source_word =>
      if negb (is_foldable_jump_d (ins_opcode instruction)) then Some code
      else
        match jump_target_word instruction source_word with
        | None => Some code
        | Some target_word =>
            if target_word <? 0 then Some code
            else
              match instruction_index_for_word offsets (as_u32 target_word) with
              | None => Some code
              | Some target_index =>
                  match follow_jumps (S (length code)) code offsets target_word target_index with
                  | None => None
                  | Some (target_word, target_index) =>
                      match code !! target_index with
                      | None => None
                      | Some target =>
                          match
                            (if negb (bool_decide (ins_opcode instruction = Op.Jump))
                                && bool_decide (ins_opcode target = Op.Return)
                             then skip_returns (S (length code)) code offsets target_word
                                    target_index
                             else Some (target_word, target_index))
                          with
                          | None => None
                          | Some (target_word, target_index) =>
                              fold_to_target code index instruction source_word target_word
                                target_index
                          end
                      end
                  end
              end
        end
  | _, _ => None
  end.

Fixpoint fold_rounds (offsets : list Z) (code : list Instruction) (indices : list nat)
    : option (list Instruction) :=
  match indices with
  | [] => Some code
  | index :: indices' =>
      match fold_round offsets code index with
      | None => None
      | Some code => fold_rounds offsets code indices'
      end
  end.

Definition fold_jumps_code (code : list Instruction) : option (list Instruction) :=
  fold_rounds (instruction_word_offsets code) code (seq 0 (length code)).

Definition fold_jumps (w : ProtoWork) : option ProtoWork :=
  match fold_jumps_code (pw_code w) with
  | None => None
  | Some code => Some (pw_with_code code w)
  end.

(** ** Finished protos and chunks *)

(** [None] is a panic of the line packer; [line_info_roundtrip] excludes it. *)
Definition into_proto (w : ProtoWork) (metadata : ProtoMetadata) : option Proto :=
  match (if 1 <=? pm_debug_level metadata then from_line_numbers (pw_code_lines w)
         else Some None) with
  | None => None
  | Some line_info =>
      let debug_info :=
        if (2 <=? pm_debug_level metadata) &&
           (negb (len (pw_debug_locals w) =? 0) || negb (len (pw_debug_upvalues w) =? 0))
        then Some (mkDebugInfo (pw_debug_locals w) (pw_debug_upvalues w)) else None in
      Some (mkProto (pw_max_stack_size w) (pm_num_params metadata) (pm_num_upvalues metadata)
              (if pm_is_vararg metadata then 1 else 0) (pm_flags metadata)
              (mkTypeInfo (type_info_payload (pw_function_type_info w) (pw_typed_upvalues w)
                             (pw_typed_locals w)))
              (pw_code w) (pw_constants w) (pw_child_protos w) (pm_line_defined metadata)
              (pm_debug_name metadata) line_info debug_info (pw_feedback_slots w) None)
  end.

(** The first statement of [finish]. *)
Definition insert_prepvarargs (self : ChunkBuilder) : option ChunkBuilder :=
  if needs_implicit_prepvarargs self then
    match abc Op.PrepVarargs 0 0 0 with
    | None => None
    | Some instruction =>
        Some (on_current (fun w =>
          pw_with_emitted (instruction :: pw_code w)
            (0 :: map (fun offset => as_u32 (offset + 1)) (pw_code_word_offsets w))
            (as_u32 (pw_next_code_word_offset w + 1)) (1 :: pw_code_lines w) w) self)
    end
  else Some self.

(** The second statement of [finish]. *)
Definition ensure_return (self : ChunkBuilder) : option ChunkBuilder :=
  let inserted_implicit_return :=
    match last (current_code self) with
    | None => true
    | Some instruction => negb (bool_decide (ins_opcode instruction = Op.Return))
    end in
  if inserted_implicit_return then
    match emit_implicit_return self with
    | None => None
    | Some (_, self) => Some self
    end
  else Some self.

Definition finish (debug_level : Z) (fold : bool) (self : ChunkBuilder) : option BytecodeChunk :=
  match insert_prepvarargs self with
  | None => None
  | Some self =>
      match ensure_return self with
      | None => None
      | Some self =>
          match (if fold then fold_jumps (cb_current self) else Some (cb_current self)) with
          | None => None
          | Some current =>
              let metadata :=
                mkProtoMetadata 0 0 true (pw_proto_flags current) 1 0 debug_level in
              match into_proto current metadata with
              | None => None
              | Some proto =>
                  Some (Valid (mkValidChunk (cb_bytecode_version self) DEFAULT_TYPE_VERSION
                    (cb_strings self) [] (cb_protos self ++ [proto])
                    (as_u32 (len (cb_protos self)))))
              end
          end
      end
  end.
