(* ===== verification/FoldJumps.v ===== *)
(** * FoldJumps: jump folding preserves control flow

    [fold_jumps] redirects jumps through chains of unconditional jumps and onto the
    last copy of a run of equal RETURNs, in place, so that later rounds see the
    effect of earlier ones. The invariant [Folded] relates the code at any round to
    the original one; from it follow that the pass terminates without panicking,
    keeps the layout, and preserves the control flow up to unconditional jumps. *)

From Stdlib Require Import ZArith Lia.
From stdpp Require Import base numbers list strings relations.
From S2P Require Import Prelude Opcodes BytecodeTypes LineInfo Codec Builder.

(** ** Well-formed instructions and layouts *)

Definition wf_ins (i : Instruction) : Prop := consistent i /\ aux_arity_ok i.

(** Two codes place every instruction at the same words. *)
Definition same_layout (C D : list Instruction) : Prop := map word_len C = map word_len D.

#[export] Instance same_layout_equiv : Equivalence same_layout.
Proof. unfold same_layout. split; [done|intros ? ? ?; congruence|intros ? ? ? ? ?; congruence]. Qed.

Lemma same_layout_length C D : same_layout C D -> length C = length D.
Proof. intros H. apply (f_equal length) in H. by rewrite !length_map in H. Qed.

Lemma same_layout_total C D : same_layout C D -> total_words C = total_words D.
Proof.
  unfold total_words. revert D.
  induction C as [|i C IH]; intros [|j D] H; try done. injection H as H1 H2.
  cbn. by rewrite H1, (IH D H2).
Qed.

Lemma same_layout_offsets C D :
  same_layout C D -> instruction_word_offsets C = instruction_word_offsets D.
Proof.
  unfold instruction_word_offsets. generalize 0. revert D.
  induction C as [|i C IH]; intros [|j D] n H; try done. injection H as H1 H2.
  cbn. by rewrite H1, (IH D _ H2).
Qed.

Lemma same_layout_word_of C D k : same_layout C D -> word_of C k = word_of D k.
Proof.
  intros H. unfold word_of. apply same_layout_total. unfold same_layout.
  rewrite <- !firstn_map. by f_equal.
Qed.

Lemma same_layout_insert C D n i i' :
  same_layout C D -> D !! n = Some i -> word_len i' = word_len i ->
  same_layout C (<[n := i']> D).
Proof.
  intros H Hn Hw. unfold same_layout. rewrite H, list_fmap_insert, Hw.
  symmetry. apply list_insert_id. by rewrite list_lookup_fmap, Hn.
Qed.

(** ** Targets *)

Abbreviation tgt := jump_target_instruction_index.

Lemma tgt_ext C D k : same_layout C D -> C !! k = D !! k -> tgt C k = tgt D k.
Proof.
  intros Hl Hk. unfold jump_target_instruction_index. by rewrite Hk, (same_layout_offsets _ _ Hl).
Qed.

Lemma foldable_offset i :
  is_foldable_jump_d (ins_opcode i) = true -> jump_offset_words i = Some (ins_d i).
Proof. unfold is_foldable_jump_d, jump_offset_words. by destruct (ins_opcode i). Qed.

Lemma consistent_d i : consistent i -> is_u8 (ins_a i) /\ is_i16 (ins_d i).
Proof. intros H. by destruct (from_words_Some _ _ _ H) as (_ & _ & _ & ? & _ & _ & ?). Qed.

(** The two bytes of a signed 16-bit operand. *)
Lemma split_i16 off :
  is_i16 off ->
  let lo := as_u8 (Z.land (as_u16 off) 255) in
  let hi := as_u8 (Z.land (Z.shiftr (as_u16 off) 8) 255) in
  is_u8 lo /\ is_u8 hi /\ as_i16 (lo + 256 * hi) = off.
Proof.
  cbv zeta. rewrite !land_255, shiftr_div by lia. change (2 ^ 8) with 256.
  unfold as_u8. rewrite !Zmod_mod. zcast.
Qed.

Lemma patch_jump_d_spec i off :
  consistent i -> is_i16 off ->
  exists i', patch_jump_d_instruction i off = Some i' /\ ins_opcode i' = ins_opcode i /\
    ins_a i' = ins_a i /\ ins_aux i' = ins_aux i /\ ins_d i' = off /\ consistent i'.
Proof.
  intros [Ha _]%consistent_d Ho. unfold patch_jump_d_instruction.
  destruct (ins_aux i) as [aux|].
  - destruct (split_i16 off Ho) as (Hlo & Hhi & E).
    destruct (abc_with_aux_spec (ins_opcode i) (ins_a i) _ _ (Some aux) Ha Hlo Hhi)
      as (i' & Hi & ? & ? & _ & _ & Hd & ? & _ & ?%is_header_consistent_spec).
    exists i'. rewrite Hd, E. done.
  - destruct (ad_spec (ins_opcode i) (ins_a i) off Ha Ho)
      as (i' & Hi & ? & ? & ? & ? & _ & ?%is_header_consistent_spec).
    exists i'. done.
Qed.

(** ** Resolution of one jump *)

Section Fold.
Context (C : list Instruction) (HC : Forall wf_ins C) (Ht : total_words C < 1073741824).

Local Abbreviation offsets := (instruction_word_offsets C).

(** Codes of the same shape as the original one. *)
Definition variant (D : list Instruction) : Prop := same_layout C D /\ Forall wf_ins D.

Lemma offsets_at k : (k < length C)%nat -> offsets !! k = Some (word_of C k).
Proof. intros H. apply instruction_word_offsets_lookup; [lia|done]. Qed.

Lemma index_for_word_iff w j :
  0 <= w < 4294967296 ->
  instruction_index_for_word offsets (as_u32 w) = Some j <->
  (j < length C)%nat /\ word_of C j = w.
Proof.
  intros Hw. rewrite as_u32_small by done. unfold instruction_index_for_word. split.
  - intros (x & Hx & E & _)%position_spec. apply Z.eqb_eq in E as ->.
    pose proof (lookup_lt_Some _ _ _ Hx) as Hlt. rewrite length_instruction_word_offsets in Hlt.
    rewrite offsets_at in Hx by done. split; [done|]. congruence.
  - intros [Hj <-]. apply (position_unique _ _ _ _ (offsets_at j Hj)); [lia|].
    intros k y Hk E. pose proof (lookup_lt_Some _ _ _ Hk) as Hlt.
    rewrite length_instruction_word_offsets in Hlt. rewrite offsets_at in Hk by done.
    injection Hk as <-. apply (word_of_inj C); [done|done|lia].
Qed.

Lemma variant_length D : variant D -> length D = length C.
Proof. intros [H _]. by rewrite (same_layout_length _ _ H). Qed.

Lemma tgt_iff D k i j :
  variant D -> D !! k = Some i -> is_foldable_jump_d (ins_opcode i) = true ->
  tgt D k = Some j <-> (j < length C)%nat /\ word_of C j = word_of C k + 1 + ins_d i.
Proof.
  intros HD Hk Hf. pose proof HD as [Hl Hwf]. pose proof (Forall_lookup_1 _ _ _ _ Hwf Hk) as [Hc _].
  destruct (consistent_d _ Hc) as [_ Hd]. unfold is_i16 in Hd.
  rewrite (jump_target_index_iff D k i (ins_d i) j); [|by rewrite <- (same_layout_total _ _ Hl)
    |done|by apply foldable_offset|lia].
  by rewrite (variant_length D HD), <- !(same_layout_word_of C D) by done.
Qed.

(** What the two lookups of a folding round compute. *)
Lemma resolve_spec D k i :
  variant D -> D !! k = Some i -> is_foldable_jump_d (ins_opcode i) = true ->
  exists w, jump_target_word i (word_of C k) = Some w /\ w = word_of C k + 1 + ins_d i /\
    if w <? 0 then tgt D k = None
    else instruction_index_for_word offsets (as_u32 w) = tgt D k.
Proof.
  intros HD Hk Hf. pose proof HD as [Hl Hwf]. pose proof (Forall_lookup_1 _ _ _ _ Hwf Hk) as [Hc _].
  destruct (consistent_d _ Hc) as [_ Hd]. unfold is_i16 in Hd.
  pose proof (word_of_nonneg C k). pose proof (word_of_total C k).
  exists (word_of C k + 1 + ins_d i). split_and!; [|done|].
  - unfold jump_target_word. rewrite foldable_offset by done.
    rewrite (as_i32_small (word_of C k)), (as_i32_small (_ + 1)), as_i32_small
      by (unfold is_i32; lia). done.
  - destruct (Z.ltb_spec (word_of C k + 1 + ins_d i) 0) as [Hneg|Hpos].
    + destruct (tgt D k) as [j|] eqn:E; [|done]. apply (tgt_iff D k i j HD Hk Hf) in E as [_ E].
      pose proof (word_of_nonneg C j). lia.
    + apply option_eq. intros j. rewrite (tgt_iff D k i j HD Hk Hf). apply index_for_word_iff. lia.
Qed.

(** ** Chains of unconditional jumps *)

Definition ustep (D : list Instruction) (x y : nat) : Prop :=
  exists i, D !! x = Some i /\ ins_opcode i = Op.Jump /\ tgt D x = Some y.

Lemma follow_jumps_total D fuel x :
  variant D -> (x < length C)%nat -> (length C - x < fuel)%nat ->
  exists y, follow_jumps fuel D offsets (word_of C x) x = Some (word_of C y, y) /\
    (y < length C)%nat /\ rtc (ustep D) x y.
Proof.
  intros HD. revert x. induction fuel as [|fuel IH]; intros x Hx Hfuel; [lia|].
  pose proof (variant_length D HD) as Hlen.
  destruct (lookup_lt_is_Some_2 D x ltac:(lia)) as [i Hi]. cbn [follow_jumps]. rewrite Hi.
  case_bool_decide as Hop; cbn [andb]; [|exists x; by split_and!; [| |apply rtc_refl]].
  destruct (Z.leb_spec 0 (ins_d i)) as [Hd|Hd]; [|exists x; by split_and!; [| |apply rtc_refl]].
  assert (is_foldable_jump_d (ins_opcode i) = true) as Hf by (by rewrite Hop).
  rewrite offsets_at by done.
  destruct (resolve_spec D x i HD Hi Hf) as (w & -> & Hw & Hres).
  pose proof (word_of_nonneg C x). destruct (Z.ltb_spec w 0); [lia|]. rewrite Hres.
  destruct (tgt D x) as [z|] eqn:Ez; [|exists x; by split_and!; [| |apply rtc_refl]].
  apply (tgt_iff D x i z HD Hi Hf) in Ez as Hz. destruct Hz as [Hz Hzw].
  assert (x < z)%nat as Hlt.
  { destruct (Nat.lt_ge_cases x z); [done|]. pose proof (word_of_le C z x). lia. }
  rewrite Hw, <- Hzw. destruct (IH z Hz ltac:(lia)) as (y & -> & Hy & Hr).
  exists y. split_and!; [done|done|]. eapply rtc_l; [|done]. by exists i.
Qed.

Lemma skip_returns_total D fuel x r :
  variant D -> D !! x = Some r -> (length C - x < fuel)%nat ->
  exists y, skip_returns fuel D offsets (word_of C x) x = Some (word_of C y, y) /\
    D !! y = Some r.
Proof.
  intros HD. revert x. induction fuel as [|fuel IH]; intros x Hx Hfuel; [lia|].
  pose proof (variant_length D HD) as Hlen. cbn [skip_returns]. rewrite Hx.
  destruct (D !! S x) as [next|] eqn:Hn; [|by exists x].
  pose proof (lookup_lt_Some _ _ _ Hn). case_bool_decide as E; [subst next|by exists x].
  rewrite offsets_at by lia. pose proof (word_of_nonneg C (S x)). pose proof (word_of_total C (S x)).
  rewrite as_i32_small by (unfold is_i32; lia). apply IH; [done|lia].
Qed.

(** ** The invariant of the pass *)

(** How the instruction at [k] may have changed from [i] to [i']. *)
Inductive refold (D : list Instruction) (k : nat) (i : Instruction) : Instruction -> Prop :=
| refold_same : refold D k i i
| refold_chain i' j j' :
    is_foldable_jump_d (ins_opcode i) = true ->
    ins_opcode i' = ins_opcode i -> ins_a i' = ins_a i -> ins_aux i' = ins_aux i ->
    tgt C k = Some j -> tgt D k = Some j' -> rtc (ustep C) j j' ->
    refold D k i i'
| refold_return i' j t j' r :
    is_foldable_jump_d (ins_opcode i) = true -> ins_opcode i <> Op.Jump ->
    ins_opcode i' = ins_opcode i -> ins_a i' = ins_a i -> ins_aux i' = ins_aux i ->
    tgt C k = Some j -> tgt D k = Some j' -> rtc (ustep C) j t ->
    D !! t = Some r -> D !! j' = Some r -> ins_opcode r = Op.Return ->
    refold D k i i'
| refold_copy j f r :
    ins_opcode i = Op.Jump -> tgt C k = Some j -> rtc (ustep C) j f ->
    C !! f = Some r -> ins_opcode r = Op.Return ->
    refold D k i r.

Record Folded (n : nat) (D : list Instruction) : Prop := {
  fd_variant : variant D;
  fd_todo : forall k, (n <= k)%nat -> D !! k = C !! k;
  fd_done : forall k i i', C !! k = Some i -> D !! k = Some i' -> refold D k i i'
}.

Lemma Folded_start : Folded 0 C.
Proof.
  split; [split; [reflexivity|done]|done|]. intros k i i' H H'. assert (i' = i) as -> by congruence.
  apply refold_same.
Qed.

Lemma Folded_skip n D : Folded n D -> Folded (S n) D.
Proof. intros [Hv Ht' Hd]. split; [done| |done]. intros k Hk. apply Ht'. lia. Qed.

(** Updating a jump does not disturb what was recorded for other instructions. *)
Lemma refold_insert D n x y k i i' :
  variant D -> variant (<[n := y]> D) -> D !! n = Some x -> ins_opcode x <> Op.Return ->
  k <> n -> D !! k = Some i' -> refold D k i i' -> refold (<[n := y]> D) k i i'.
Proof.
  intros [HD _] [HD' _] Hn Hx Hk Hi'.
  assert (tgt (<[n := y]> D) k = tgt D k) as E.
  { apply tgt_ext; [etrans; [symmetry; exact HD'|exact HD]|]. by rewrite list_lookup_insert_ne. }
  intros [|i1 j j' ? ? ? ? ? Hj|i1 j t j' r ? ? ? ? ? ? Hj ? Hr1 Hr2 Hr|j f r ? ? ? ? ?].
  - apply refold_same.
  - eapply refold_chain; [done..|by rewrite E|done].
  - assert (t <> n /\ j' <> n) as [? ?] by (split; congruence).
    eapply refold_return; [done..|by rewrite E|done| | |done]; by rewrite list_lookup_insert_ne.
  - by eapply refold_copy.
Qed.

Lemma Folded_update n D i i' :
  Folded n D -> C !! n = Some i -> is_foldable_jump_d (ins_opcode i) = true ->
  word_len i' = word_len i -> wf_ins i' -> refold (<[n := i']> D) n i i' ->
  Folded (S n) (<[n := i']> D).
Proof.
  intros [Hv Htodo Hdone] Hi Hf Hw Hwf Hr. pose proof Hv as [Hl Hall].
  assert (D !! n = Some i) as HDn by (by rewrite Htodo).
  assert (variant (<[n := i']> D)) as Hv'.
  { split; [by eapply same_layout_insert|by apply Forall_insert]. }
  split; [done| |].
  - intros k Hk. rewrite list_lookup_insert_ne by lia. apply Htodo. lia.
  - intros k x x' Hx Hx'. destruct (decide (k = n)) as [->|Hne].
    + rewrite list_lookup_insert_eq in Hx' by (by eapply lookup_lt_Some).
      injection Hx' as <-. rewrite Hi in Hx. injection Hx as <-. done.
    + rewrite list_lookup_insert_ne in Hx' by done.
      eapply (refold_insert D n i); [done..| | |done|]; [|done|by apply Hdone].
      intros E. by rewrite E in Hf.
Qed.

(** A chain in the partly folded code is a chain of the original code. *)
Lemma chain_original n D x y : Folded n D -> rtc (ustep D) x y -> rtc (ustep C) x y.
Proof.
  intros HF. induction 1 as [x|x y z Hs _ IH]; [apply rtc_refl|]. etrans; [|exact IH].
  destruct Hs as (i' & Hi' & Hop & Hy). destruct HF as [Hv _ Hdone].
  assert (exists i, C !! x = Some i) as [i Hi].
  { apply lookup_lt_is_Some_2. rewrite <- (variant_length D Hv). by eapply lookup_lt_Some. }
  destruct (Hdone x i i' Hi Hi') as [|i1 j j' ? E ? ? Hj Hj' Hr|i1 j t j' r ? ? E|j f r ? ? ? ? ?].
  - apply rtc_once. exists i. split_and!; [done|done|]. rewrite <- Hy.
    apply tgt_ext; [apply Hv|congruence].
  - assert (y = j') as -> by congruence. eapply rtc_l; [|done]. exists i.
    split_and!; [done|congruence|done].
  - congruence.
  - congruence.
Qed.

(** Where a RETURN of the partly folded code comes from. *)
Lemma return_origin n D t r :
  Folded n D -> D !! t = Some r -> ins_opcode r = Op.Return ->
  exists f, rtc (ustep C) t f /\ C !! f = Some r.
Proof.
  intros [Hv _ Hdone] Hr Hop.
  assert (exists i, C !! t = Some i) as [i Hi].
  { apply lookup_lt_is_Some_2. rewrite <- (variant_length D Hv). by eapply lookup_lt_Some. }
  destruct (Hdone t i r Hi Hr) as [|i1 j j' Hf E|i1 j t' j' r' Hf ? E|j f r ? ? ? ? ?].
  - exists t. split; [apply rtc_refl|done].
  - by rewrite <- E, Hop in Hf.
  - by rewrite <- E, Hop in Hf.
  - exists f. split; [|done]. eapply rtc_l; [|done]. by exists i.
Qed.

(** ** One round *)

Lemma retarget n D i t' :
  variant D -> D !! n = Some i -> is_foldable_jump_d (ins_opcode i) = true -> (t' < length C)%nat ->
  let off := as_i32 (as_i32 (word_of C t' - as_i32 (word_of C n)) - 1) in
  is_i16 off ->
  exists i', patch_jump_d_instruction i off = Some i' /\ ins_opcode i' = ins_opcode i /\
    ins_a i' = ins_a i /\ ins_aux i' = ins_aux i /\ word_len i' = word_len i /\ wf_ins i' /\
    (variant (<[n := i']> D) -> tgt (<[n := i']> D) n = Some t').
Proof.
  intros Hv Hn Hf Ht' off Hoff. pose proof Hv as [Hl Hwf].
  destruct (Forall_lookup_1 _ _ _ _ Hwf Hn) as [Hc Ha].
  destruct (patch_jump_d_spec i off Hc Hoff) as (i' & Hp & Hop & Hia & Haux & Hd & Hc').
  exists i'. assert (word_len i' = word_len i) as Hw by (unfold word_len; by rewrite Haux).
  split_and!; [done|done|done|done|done| |].
  - split; [done|]. unfold aux_arity_ok in *. congruence.
  - intros Hv'. apply (tgt_iff _ n i' t' Hv'); [|by rewrite Hop|].
    + apply list_lookup_insert_eq. by eapply lookup_lt_Some.
    + split; [done|]. rewrite Hd. unfold off.
      pose proof (word_of_nonneg C n). pose proof (word_of_total C n).
      pose proof (word_of_nonneg C t'). pose proof (word_of_total C t').
      rewrite (as_i32_small (word_of C n)), (as_i32_small (_ - word_of C n)), as_i32_small
        by (unfold is_i32; lia). lia.
Qed.

Lemma fold_to_target_spec n D i j t t' target :
  Folded n D -> C !! n = Some i -> is_foldable_jump_d (ins_opcode i) = true ->
  tgt C n = Some j -> rtc (ustep D) j t -> D !! t = Some target -> D !! t' = Some target ->
  t' = t \/ (ins_opcode i <> Op.Jump /\ ins_opcode target = Op.Return) ->
  exists D', fold_to_target D n i (word_of C n) (word_of C t') t' = Some D' /\ Folded (S n) D'.
Proof.
  intros HF Hi Hf Hj Hchain Ht0 Ht' Hcase. pose proof HF as [Hv Htodo _].
  assert (D !! n = Some i) as HDn by (by rewrite Htodo).
  pose proof (lookup_lt_Some _ _ _ Ht') as Hlt. rewrite (variant_length D Hv) in Hlt.
  unfold fold_to_target. rewrite Ht'.
  pose proof (chain_original n D j t HF Hchain) as HchainC.
  destruct (bool_decide (ins_opcode i = Op.Jump) && bool_decide (ins_opcode target = Op.Return)) eqn:E.
  - apply andb_true_iff in E as [E1%bool_decide_eq_true E2%bool_decide_eq_true].
    eexists. split; [done|]. destruct (return_origin n D t target HF Ht0 E2) as (f & Hf1 & Hf2).
    destruct Hv as [_ Hwf]. pose proof (Forall_lookup_1 _ _ _ _ Hwf Ht0) as [Hct Hat].
    pose proof (Forall_lookup_1 _ _ _ _ Hwf HDn) as [_ Hai].
    eapply Folded_update; [done|done|done| |by split|].
    + unfold aux_arity_ok in *. rewrite E1 in Hai. rewrite E2 in Hat. cbn in *. congruence.
    + eapply refold_copy; [done|done|by etrans|done|done].
  - destruct (i16_try_from _) as [off|] eqn:Eo; [|eexists; split; [done|by apply Folded_skip]].
    assert (off = as_i32 (as_i32 (word_of C t' - as_i32 (word_of C n)) - 1) /\ is_i16 off)
      as [-> Hoff].
    { unfold i16_try_from in Eo. unfold is_i16. destruct ((_ <=? _) && (_ <? _)) eqn:Eb; [|done].
      injection Eo as <-. split; [done|lia]. }
    destruct (retarget n D i t' Hv HDn Hf Hlt Hoff)
      as (i' & -> & Hop & Ha & Haux & Hw & Hwf & Htgt).
    eexists. split; [done|].
    assert (variant (<[n := i']> D)) as Hv'.
    { destruct Hv. split; [by eapply same_layout_insert|by apply Forall_insert]. }
    eapply Folded_update; [done..|].
    destruct Hcase as [->|[Hnj Hret]].
    + by eapply refold_chain; [done..|apply Htgt|].
    + assert (t <> n /\ t' <> n) as [? ?].
      { split; intros ->; (assert (i = target) as -> by congruence); by rewrite Hret in Hf. }
      eapply (refold_return _ _ _ _ j t t' target); [done..|by apply Htgt|done| | |done];
        by rewrite list_lookup_insert_ne.
Qed.

Lemma fold_round_spec n D :
  Folded n D -> (n < length C)%nat ->
  exists D', fold_round offsets D n = Some D' /\ Folded (S n) D'.
Proof.
  intros HF Hn. pose proof HF as [Hv Htodo _].
  destruct (lookup_lt_is_Some_2 C n Hn) as [i Hi].
  assert (D !! n = Some i) as HDn by (by rewrite Htodo). pose proof (variant_length D Hv) as Hlen.
  assert (exists D', Some D = Some D' /\ Folded (S n) D') as Hskip
    by (exists D; split; [done|by apply Folded_skip]).
  unfold fold_round. rewrite HDn, offsets_at by done.
  destruct (is_foldable_jump_d (ins_opcode i)) eqn:Hf; cbn [negb]; [|done].
  destruct (resolve_spec D n i Hv HDn Hf) as (w & -> & Hw & Hres).
  destruct (Z.ltb_spec w 0); [done|]. rewrite Hres.
  assert (tgt D n = tgt C n) as Eq by (apply tgt_ext; [symmetry; apply Hv|congruence]).
  destruct (tgt D n) as [j|] eqn:Ej; [|done].
  apply (tgt_iff D n i j Hv HDn Hf) in Ej as [Hjl Hjw]. rewrite Hw, <- Hjw.
  destruct (follow_jumps_total D (S (length D)) j Hv Hjl ltac:(lia)) as (t & -> & Htl & Hchain).
  destruct (lookup_lt_is_Some_2 D t ltac:(lia)) as [target Htarget]. rewrite Htarget.
  destruct (negb _ && _) eqn:Eb.
  - apply andb_true_iff in Eb as [E1%negb_true_iff%bool_decide_eq_false E2%bool_decide_eq_true].
    destruct (skip_returns_total D (S (length D)) t target Hv Htarget ltac:(lia))
      as (t' & -> & Ht').
    by eapply fold_to_target_spec; [..|right].
  - by eapply fold_to_target_spec; [..|left].
Qed.

Lemma fold_rounds_spec m n D :
  Folded n D -> (n + m <= length C)%nat ->
  exists D', fold_rounds offsets D (seq n m) = Some D' /\ Folded (n + m) D'.
Proof.
  revert n D. induction m as [|m IH]; intros n D HF Hm; cbn [seq fold_rounds].
  - exists D. by rewrite Nat.add_0_r.
  - destruct (fold_round_spec n D HF ltac:(lia)) as (D1 & -> & HF1).
    rewrite <- Nat.add_succ_comm. apply IH; [done|lia].
Qed.

(** The pass terminates without panicking, in the relation [Folded]. *)
Lemma fold_jumps_code_total :
  exists D, fold_jumps_code C = Some D /\ Folded (length C) D.
Proof. apply (fold_rounds_spec (length C) 0 C Folded_start). lia. Qed.

(** ** Control flow

    Unconditional jumps are silent. [Land D x f] says that from instruction [x] the
    code [D] arrives at [f], the next instruction that is not one. *)

Definition Land (D : list Instruction) (x f : nat) : Prop :=
  rtc (ustep D) x f /\ exists i, D !! f = Some i /\ ins_opcode i <> Op.Jump.

Lemma ustep_det D x y z : ustep D x y -> ustep D x z -> y = z.
Proof. intros (i & _ & _ & H1) (i' & _ & _ & H2). congruence. Qed.

Lemma Land_stuck D f y : (exists i, D !! f = Some i /\ ins_opcode i <> Op.Jump) -> ~ ustep D f y.
Proof. intros (i & Hi & Hop) (i' & Hi' & Hop' & _). congruence. Qed.

(** A chain that passes [y] on its way from [x] to where it lands goes on from [y]. *)
Lemma Land_suffix D x y f n :
  nsteps (ustep D) n x f -> rtc (ustep D) x y ->
  (exists i, D !! f = Some i /\ ins_opcode i <> Op.Jump) ->
  exists m, (m <= n)%nat /\ nsteps (ustep D) m y f.
Proof.
  intros Hn Hxy Hstop. revert n Hn. induction Hxy as [x|x z y Hs _ IH]; intros n Hn; [by exists n|].
  inversion Hn as [|n' ? z' ? Hs' Hn']; subst.
  - by destruct (Land_stuck D f z Hstop).
  - rewrite <- (ustep_det D x z z' Hs Hs') in Hn'. destruct (IH n' Hn') as (m & Hm & H).
    exists m. split; [lia|done].
Qed.

Lemma Land_chain D x y f : rtc (ustep D) x y -> Land D x f <-> Land D y f.
Proof.
  intros Hxy. split; intros [Hr Hs].
  - apply rtc_nsteps_1 in Hr as [n Hn]. destruct (Land_suffix D x y f n Hn Hxy Hs) as (m & _ & Hm).
    split; [by eapply rtc_nsteps_2|done].
  - split; [by etrans|done].
Qed.

Lemma Land_here D x i : D !! x = Some i -> ins_opcode i <> Op.Jump -> Land D x x.
Proof. intros. split; [apply rtc_refl|by exists i]. Qed.

Lemma Land_unique D x f g : Land D x f -> Land D x g -> f = g.
Proof.
  intros [Hf Sf] Hg. apply (Land_chain D x f g Hf) in Hg as [Hg _].
  inversion Hg as [|? y ? Hs]; [done|]; subst. by destruct (Land_stuck D f y Sf).
Qed.

(** The visible steps: an instruction either falls through or takes its jump; the
    offset of a foldable jump is not part of what is visible. *)
Definition shape (i : Instruction) : Instruction :=
  if is_foldable_jump_d (ins_opcode i)
  then mkInstruction 0 (ins_opcode i) (ins_a i) 0 0 0 0 (ins_aux i) else i.

Inductive Event : Set :=
| Falls (i : Instruction)
| Takes (i : Instruction).

Inductive ctl (A : list Instruction) (f : nat) : Event -> nat -> Prop :=
| ctl_falls i :
    A !! f = Some i -> ins_opcode i <> Op.Jump -> ins_opcode i <> Op.Return ->
    ctl A f (Falls (shape i)) (S f)
| ctl_takes i t :
    A !! f = Some i -> ins_opcode i <> Op.Jump -> tgt A f = Some t ->
    ctl A f (Takes (shape i)) t.

Definition halts (A : list Instruction) (f : nat) (i : Instruction) : Prop :=
  A !! f = Some i /\ ins_opcode i = Op.Return.

Section Bisimulation.
Context (n : nat) (D : list Instruction) (HF : Folded n D).

(** Landing at the same place, or on equal RETURNs. *)
Definition Same (f g : nat) : Prop :=
  f = g \/ exists r, C !! f = Some r /\ D !! g = Some r /\ ins_opcode r = Op.Return.

Lemma folded_lookup x i : C !! x = Some i -> exists i', D !! x = Some i' /\ refold D x i i'.
Proof.
  intros Hi. destruct HF as [Hv _ Hdone].
  destruct (lookup_lt_is_Some_2 D x) as [i' Hi'].
  { rewrite (variant_length D Hv). by eapply lookup_lt_Some. }
  exists i'. auto.
Qed.

Lemma original_lookup x i' : D !! x = Some i' -> exists i, C !! x = Some i /\ refold D x i i'.
Proof.
  intros Hi. destruct HF as [Hv _ Hdone].
  destruct (lookup_lt_is_Some_2 C x) as [i Hi'].
  { rewrite <- (variant_length D Hv). by eapply lookup_lt_Some. }
  exists i. auto.
Qed.

(** Apart from copied RETURNs the opcode is kept. *)
Lemma refold_opcode k i i' :
  refold D k i i' -> ins_opcode i' = ins_opcode i \/
    (ins_opcode i = Op.Jump /\ ins_opcode i' = Op.Return).
Proof. intros []; auto. Qed.

Lemma landing_forward m x f :
  nsteps (ustep C) m x f -> (exists i, C !! f = Some i /\ ins_opcode i <> Op.Jump) ->
  exists g, Land D x g /\ Same f g.
Proof.
  revert x. induction (lt_wf m) as [m _ IH]. intros x Hm Hs.
  assert (exists i, C !! x = Some i) as [i Hi].
  { inversion Hm as [|? ? y ? (i & Hi & _)]; subst; [destruct Hs as (i & Hi & _)|]; by exists i. }
  destruct (folded_lookup x i Hi) as (i' & Hi' & Hr).
  destruct (decide (ins_opcode i = Op.Jump)) as [Hop|Hop].
  - inversion Hm as [|m' ? y ? Hxy Hm']; subst; [destruct Hs as (i1 & ? & ?); congruence|].
    destruct Hxy as (i1 & Hi1 & _ & Hy).
    assert (forall j', ins_opcode i' = Op.Jump -> tgt D x = Some j' -> rtc (ustep C) y j' ->
      exists g, Land D x g /\ Same f g) as Hgo.
    { intros j' Hop' Hj' Hr'. destruct (Land_suffix C y j' f m' Hm' Hr' Hs) as (m2 & Hle & Hm2).
      destruct (IH m2 ltac:(lia) j' Hm2 Hs) as (g & Hg & HS). exists g. split; [|done].
      apply (Land_chain D x j'); [|done]. apply rtc_once. by exists i'. }
    destruct Hr as [|i2 j j' ? E ? ? Hj Hj' Hrt|i2 j t j' r ? ?|j f1 r ? Hj Hrt Hf1 Hret].
    + apply (Hgo y); [done| |apply rtc_refl]. rewrite <- Hy. symmetry.
      apply tgt_ext; [apply HF|congruence].
    + apply (Hgo j'); [congruence|done|]. by assert (y = j) as -> by congruence.
    + done.
    + assert (y = j) as -> by congruence.
      assert (f = f1) as ->.
      { apply (Land_unique C j); split; [by eapply rtc_nsteps_2|done|done|].
        exists r. split; [done|]. by rewrite Hret. }
      exists x. split; [eapply Land_here; [done|by rewrite Hret]|]. right. by exists r.
  - assert (x = f) as ->.
    { inversion Hm as [|m' ? y ? Hxy]; subst; [done|].
      destruct (Land_stuck C x y); [by exists i|done]. }
    exists f. split; [|by left]. eapply Land_here; [done|].
    destruct (refold_opcode _ _ _ Hr) as [E|[E _]]; congruence.
Qed.

Lemma landing_backward x g : Land D x g -> exists f, Land C x f /\ Same f g.
Proof.
  intros [Hxg (i' & Hi' & Hop)]. pose proof (chain_original n D x g HF Hxg) as Hc.
  destruct (original_lookup g i' Hi') as (i & Hi & Hr).
  destruct (decide (ins_opcode i = Op.Jump)) as [Hj|Hj].
  - destruct (refold_opcode _ _ _ Hr) as [E|[_ E]]; [congruence|].
    destruct (return_origin n D g i' HF Hi' E) as (f & Hf & HCf).
    exists f. split; [split; [by etrans|by exists i']|]. right. by exists i'.
  - exists g. split; [|by left]. split; [done|by exists i].
Qed.

(** Instructions of the two codes from which execution goes on alike. *)
Definition alike (x y : nat) : Prop :=
  (forall f, Land C x f -> exists g, Land D y g /\ Same f g) /\
  (forall g, Land D y g -> exists f, Land C x f /\ Same f g).

Lemma alike_refl x : alike x x.
Proof.
  split; [|apply landing_backward]. intros f [Hr Hs]. apply rtc_nsteps_1 in Hr as [m Hm].
  by eapply landing_forward.
Qed.

Lemma alike_chain j j' : rtc (ustep C) j j' -> alike j j'.
Proof.
  intros Hr. destruct (alike_refl j') as [H1 H2]. split.
  - intros f Hf. apply H1. by apply (Land_chain C j j').
  - intros g Hg. destruct (H2 g Hg) as (f & Hf & HS). exists f. split; [|done].
    by apply (Land_chain C j j').
Qed.

Lemma alike_return j t j' r :
  rtc (ustep C) j t -> D !! t = Some r -> D !! j' = Some r -> ins_opcode r = Op.Return ->
  alike j j'.
Proof.
  intros Hr Ht1 Hj' Hop. destruct (return_origin n D t r HF Ht1 Hop) as (f0 & Hf0 & HC0).
  assert (Land C j f0) as HL by (split; [by etrans|exists r; by rewrite Hop]).
  assert (Land D j' j') as HL' by (eapply Land_here; [done|by rewrite Hop]).
  assert (Same f0 j') as HS by (right; by exists r). split.
  - intros f Hf. rewrite (Land_unique C j f f0 Hf HL). by exists j'.
  - intros g Hg. rewrite (Land_unique D j' g j' Hg HL'). by exists f0.
Qed.

Lemma refold_shape k i i' :
  refold D k i i' -> ins_opcode i <> Op.Jump -> shape i' = shape i.
Proof.
  intros [|i1 j j' Hf E Ha Hx|i1 j t j' r Hf ? E Ha Hx|] Hop; [done| | |done];
    unfold shape; by rewrite E, Ha, Hx, Hf.
Qed.

Lemma tgt_return (A : list Instruction) f r :
  A !! f = Some r -> ins_opcode r = Op.Return -> tgt A f = None.
Proof.
  intros Hf Hr. unfold jump_target_instruction_index, jump_target_word, jump_offset_words.
  rewrite Hf, Hr. by destruct (instruction_word_offsets A !! f).
Qed.

(** The targets of a branch that was kept or redirected. *)
Lemma refold_targets k i i' :
  C !! k = Some i -> D !! k = Some i' -> refold D k i i' -> ins_opcode i <> Op.Jump ->
  (tgt C k = None /\ tgt D k = None) \/
  exists j j', tgt C k = Some j /\ tgt D k = Some j' /\ alike j j'.
Proof.
  intros Hi Hi' Hr Hop.
  destruct Hr as [|i1 j j' ? ? ? ? Hj Hj' Hc|i1 j t j' r ? ? ? ? ? Hj Hj' Hc|]; [| | |done].
  - assert (tgt C k = tgt D k) as E by (apply tgt_ext; [apply HF|congruence]).
    destruct (tgt C k) as [j|]; [right|by left]. exists j, j. split_and!; [done|done|].
    apply alike_refl.
  - right. exists j, j'. split_and!; [done|done|]. by apply alike_chain.
  - right. exists j, j'. split_and!; [done|done|]. by eapply alike_return.
Qed.

(** A landed instruction of the original code and its counterpart at the same place. *)
Lemma kept_steps f i i' :
  C !! f = Some i -> ins_opcode i <> Op.Jump -> D !! f = Some i' -> refold D f i i' ->
  (forall r, halts C f r <-> halts D f r) /\
  (forall e x, ctl C f e x -> exists y, ctl D f e y /\ alike x y) /\
  (forall e y, ctl D f e y -> exists x, ctl C f e x /\ alike x y).
Proof.
  intros Hf Hop Hg Hr. pose proof (refold_shape _ _ _ Hr Hop) as Hsh.
  assert (ins_opcode i' = ins_opcode i) as Eop
    by (destruct (refold_opcode _ _ _ Hr) as [?|[? _]]; congruence).
  assert (ins_opcode i = Op.Return -> i' = i) as Hret.
  { intros E. destruct Hr as [|? ? ? Hfold|? ? ? ? ? Hfold|]; [done| | |done];
      by rewrite E in Hfold. }
  pose proof (refold_targets f i i' Hf Hg Hr Hop) as HT. split_and!.
  - intros r. unfold halts. rewrite Hf, Hg. split; intros [[= <-] H].
    + by rewrite (Hret H).
    + rewrite Eop in H. by rewrite (Hret H).
  - intros e x [i1 Hi1 H1 H2|i1 t Hi1 H1 H2]; assert (i1 = i) as -> by congruence; rewrite <- Hsh.
    + exists (S f). split; [by apply ctl_falls; rewrite ?Eop|apply alike_refl].
    + destruct HT as [[T1 _]|(j & j' & T1 & T2 & HA)]; [congruence|].
      exists j'. assert (t = j) as -> by congruence. split; [|done].
      by apply ctl_takes; rewrite ?Eop.
  - intros e y [i1 Hi1 H1 H2|i1 t Hi1 H1 H2]; assert (i1 = i') as -> by congruence; rewrite Hsh.
    + exists (S f). split; [by apply ctl_falls; rewrite <- ?Eop|apply alike_refl].
    + destruct HT as [[_ T2]|(j & j' & T1 & T2 & HA)]; [congruence|].
      exists j. assert (t = j') as -> by congruence. split; [|done]. by apply ctl_takes.
Qed.

(** A RETURN has no visible step. *)
Lemma return_no_step (A : list Instruction) f r e x :
  A !! f = Some r -> ins_opcode r = Op.Return -> ~ ctl A f e x.
Proof.
  intros Hf Hr Hx. destruct Hx as [i Hi _ Hnr|i t Hi _ Ht'].
  - congruence.
  - rewrite (tgt_return A f r Hf Hr) in Ht'. done.
Qed.

Lemma same_steps f g :
  (exists i, C !! f = Some i /\ ins_opcode i <> Op.Jump) -> Same f g ->
  (forall r, halts C f r <-> halts D g r) /\
  (forall e x, ctl C f e x -> exists y, ctl D g e y /\ alike x y) /\
  (forall e y, ctl D g e y -> exists x, ctl C f e x /\ alike x y).
Proof.
  intros (i & Hf & Hop) [<-|(r & Hr1 & Hr2 & Hret)].
  - destruct (folded_lookup f i Hf) as (i' & Hi' & Hr). by eapply kept_steps.
  - split_and!.
    + intros r'. unfold halts. by rewrite Hr1, Hr2.
    + intros e x Hx. by destruct (return_no_step C f r e x).
    + intros e y Hy. by destruct (return_no_step D g r e y).
Qed.

End Bisimulation.

End Fold.

(** ** The pass as a bisimulation *)

(** From [x] in [A] and [y] in [B]: whenever [A] lands, [B] lands on an instruction that
    returns alike and has the same visible steps, into related instructions. *)
Definition simulates (A B : list Instruction) (R : nat -> nat -> Prop) (x y : nat) : Prop :=
  forall f, Land A x f -> exists g, Land B y g /\
    (forall r, halts A f r <-> halts B g r) /\
    (forall e x', ctl A f e x' -> exists y', ctl B g e y' /\ R x' y').

Definition bisimulation (A B : list Instruction) (R : nat -> nat -> Prop) : Prop :=
  forall x y, R x y -> simulates A B R x y /\ simulates B A (flip R) y x.

Lemma alike_bisimulation C n D :
  Folded C n D -> bisimulation C D (alike C D).
Proof.
  intros HF x y [H1 H2]. split.
  - intros f Hf. destruct (H1 f Hf) as (g & Hg & HS). exists g. split; [done|].
    destruct Hf as [_ Hf]. by destruct (same_steps C n D HF f g Hf HS) as (? & ? & _).
  - intros g Hg. destruct (H2 g Hg) as (f & Hf & HS). exists f. split; [done|].
    destruct Hf as [_ Hf]. destruct (same_steps C n D HF f g Hf HS) as (Hh & _ & Hs).
    split; [intros r; symmetry; apply Hh|exact Hs].
Qed.
