(* ===== verification/BuilderFacts.v ===== *)
(** * BuilderFacts: the invariant of the chunk builder

    [Interned] is the contract of a table with a reverse map: the map answers
    exactly the positions of the table, so that interning a value twice gives one
    entry. [wf_work] and [wf_builder] are the invariants of the two states, and
    [Build] is the machine of builder calls a compiler can make; every call keeps
    the invariant. *)

From Stdlib Require Import ZArith Lia.
From stdpp Require Import base numbers list strings gmap relations.
From S2P Require Import Prelude Opcodes BytecodeTypes LineInfo Codec Builder.
From S2P Require Import FoldJumps.

(** ** Interned tables *)

Definition Interned `{Countable K} (base : Z) (table : list K) (ids : gmap K Z) : Prop :=
  forall key id, ids !! key = Some id <-> zget table (id - base) = Some key.

Section Interning.
Context `{Countable K} (base : Z).

Lemma Interned_empty : Interned base ([] : list K) ∅.
Proof.
  intros key id. rewrite lookup_empty. split; [done|]. intros E%zget_Some.
  unfold len in E. cbn in E. lia.
Qed.

Lemma Interned_add (table : list K) ids key :
  Interned base table ids -> ids !! key = None ->
  Interned base (table ++ [key]) (<[key := len table + base]> ids).
Proof.
  intros HI Hn k id. rewrite zget_snoc_Some, lookup_insert_Some, <- (HI k id). split.
  - intros [[<- <-]|[_ Hk]]; [right; split; [lia|done]|auto].
  - intros [Hk|[Hid ->]]; [right|left; split; [done|lia]].
    split; [|done]. intros ->. congruence.
Qed.

Lemma Interned_NoDup (table : list K) ids : Interned base table ids -> NoDup table.
Proof.
  intros HI. apply NoDup_alt. intros i j x Hi Hj.
  assert (forall k, table !! k = Some x -> ids !! x = Some (Z.of_nat k + base)) as Hk.
  { intros k Hk. apply HI. replace (Z.of_nat k + base - base) with (Z.of_nat k) by lia.
    by rewrite zget_of_nat. }
  pose proof (Hk i Hi). pose proof (Hk j Hj). assert (Some (Z.of_nat i + base) =
    Some (Z.of_nat j + base)) as [= E] by congruence. lia.
Qed.

End Interning.

(** ** The invariants *)

Definition is_line (line : Z) : Prop := 0 <= line < 2147483648.

Record wf_work (bound : Z) (w : ProtoWork) : Prop := {
  ww_code : Forall wf_ins (pw_code w);
  ww_bound : total_words (pw_code w) <= bound;
  ww_offsets : pw_code_word_offsets w = instruction_word_offsets (pw_code w);
  ww_next : pw_next_code_word_offset w = total_words (pw_code w);
  ww_lines_len : len (pw_code_lines w) = total_words (pw_code w);
  ww_lines : Forall is_line (pw_code_lines w);
  ww_line : is_line (pw_current_line w);
  ww_base : match pw_implicit_return_line_base w with Some l => is_line l | None => True end;
  ww_delta : is_u8 (pw_implicit_return_line_delta w);
  ww_constants : Interned 0 (pw_constants w) (pw_constant_ids w);
  ww_constants_len : len (pw_constants w) < 4294967296;
  ww_children : NoDup (pw_child_protos w)
}.

Record wf_builder (bound : Z) (b : ChunkBuilder) : Prop := {
  wb_current : wf_work bound (cb_current b);
  wb_strings : Interned 1 (cb_strings b) (cb_string_ids b);
  wb_strings_len : len (cb_strings b) < 4294967295
}.

Lemma wf_work_new bound : 0 <= bound -> wf_work bound ProtoWork_new.
Proof.
  intros Hb. split; cbn; try done; try constructor; unfold is_line, is_u8;
    try lia; try apply Interned_empty.
Qed.

Lemma wf_work_new_function bound : 0 <= bound -> wf_work bound ProtoWork_new_function.
Proof.
  intros Hb. split; cbn; try done; try constructor; unfold is_line, is_u8;
    try lia; try apply Interned_empty.
Qed.

Lemma wf_builder_new bound : 0 <= bound -> wf_builder bound ChunkBuilder_new.
Proof.
  intros Hb. split; cbn; [by apply wf_work_new|apply Interned_empty|done].
Qed.

(** ** Emission *)

(** Reduces the projections of an updated state. *)
Ltac pw_simpl :=
  cbn [emit_work pw_with_code pw_with_emitted pw_with_interned pw_with_child_protos
    cb_with_current cb_with_strings on_current cb_strings cb_string_ids cb_protos cb_current
    cb_bytecode_version
    pw_child_protos pw_constants pw_constant_ids pw_code pw_code_word_offsets
    pw_next_code_word_offset pw_code_lines pw_feedback_slots pw_max_stack_size pw_current_line
    pw_implicit_return_line_delta pw_implicit_return_line_base pw_proto_flags
    pw_implicit_prepvarargs pw_function_type_info pw_typed_upvalues pw_typed_locals
    pw_debug_locals pw_debug_upvalues] in *.

Lemma instruction_word_offsets_app c i :
  total_words c < 4294967296 ->
  instruction_word_offsets (c ++ [i]) = instruction_word_offsets c ++ [total_words c].
Proof.
  unfold instruction_word_offsets. intros Ht.
  assert (forall n, 0 <= n -> n + total_words c < 4294967296 ->
    instruction_word_offsets_from n (c ++ [i]) =
    instruction_word_offsets_from n c ++ [n + total_words c]) as Hn.
  { clear Ht. induction c as [|j c IH]; intros n Hn Ht.
    - cbn. by rewrite Z.add_0_r.
    - change (total_words (j :: c)) with (word_len j + total_words c) in *.
      pose proof (word_len_cases j). pose proof (total_words_nonneg c).
      cbn [app instruction_word_offsets_from].
      rewrite as_u32_small by (unfold is_u32; lia). rewrite IH by lia. cbn. by rewrite Z.add_assoc. }
  rewrite Hn by lia. done.
Qed.

Lemma instruction_word_offsets_shift c :
  total_words c < 4294967295 ->
  instruction_word_offsets_from 1 c = map (fun o => as_u32 (o + 1)) (instruction_word_offsets c).
Proof.
  unfold instruction_word_offsets. intros Ht.
  assert (forall m, 0 <= m -> m + total_words c < 4294967295 ->
    instruction_word_offsets_from (m + 1) c =
    map (fun o => as_u32 (o + 1)) (instruction_word_offsets_from m c)) as Hm.
  { clear Ht. induction c as [|j c IH]; intros m Hm Ht; [done|].
    change (total_words (j :: c)) with (word_len j + total_words c) in *.
    pose proof (word_len_cases j). pose proof (total_words_nonneg c).
    cbn [instruction_word_offsets_from map].
    rewrite !as_u32_small by (unfold is_u32; lia). f_equal.
    rewrite <- IH by lia. f_equal. lia. }
  apply (Hm 0); lia.
Qed.

Lemma emit_work_wf bound w i line :
  wf_work bound w -> wf_ins i -> is_line line -> bound < 4294967290 ->
  wf_work (bound + word_len i) (emit_work i line w).
Proof.
  intros [] Hi Hl Hb. pose proof (word_len_cases i). pose proof (total_words_nonneg (pw_code w)).
  split; cbn; try done.
  - by apply Forall_app_2; [|constructor].
  - rewrite total_words_app. cbn. lia.
  - rewrite instruction_word_offsets_app by lia. congruence.
  - rewrite as_u32_small by (unfold is_u32; lia). rewrite total_words_app. cbn. lia.
  - rewrite len_app, total_words_app. unfold len at 2. rewrite length_replicate. cbn. lia.
  - apply Forall_app_2; [done|]. by apply Forall_replicate.
Qed.

Lemma wf_work_weaken bound bound' w : wf_work bound w -> total_words (pw_code w) <= bound' -> wf_work bound' w.
Proof. intros [] H. by split. Qed.

(** Replacing an instruction by one of the same length. *)
Lemma set_code_wf bound w k i i' :
  wf_work bound w -> pw_code w !! k = Some i -> wf_ins i' -> word_len i' = word_len i ->
  wf_work bound (pw_with_code (<[k := i']> (pw_code w)) w).
Proof.
  intros [] Hk Hi Hw. assert (same_layout (pw_code w) (<[k := i']> (pw_code w))) as Hl.
  { by eapply same_layout_insert. }
  split; pw_simpl; try done.
  - by apply Forall_insert.
  - by rewrite <- (same_layout_total _ _ Hl).
  - by rewrite <- (same_layout_offsets _ _ Hl).
  - by rewrite <- (same_layout_total _ _ Hl).
  - by rewrite <- (same_layout_total _ _ Hl).
Qed.

Lemma emit_wf bound b i :
  wf_builder bound b -> wf_ins i -> total_words (current_code b) + word_len i <= bound ->
  bound < 4294967290 -> wf_builder bound (emit i b).2.
Proof.
  intros [Hw Hs Hsl] Hi Hb Hlim. split; [|done|done]. cbn.
  eapply wf_work_weaken; [apply (emit_work_wf bound)|]; try done; [apply Hw|].
  cbn. rewrite total_words_app. cbn. unfold current_code in Hb. lia.
Qed.

(** ** Interning *)

Lemma add_constant_spec bound b c :
  wf_builder bound b -> len (pw_constants (cb_current b)) + 1 < 4294967296 ->
  let '(id, b') := add_constant c b in
  wf_builder bound b' /\ zget (pw_constants (cb_current b')) id = Some c /\
  (forall id' c', zget (pw_constants (cb_current b)) id' = Some c' ->
    zget (pw_constants (cb_current b')) id' = Some c').
Proof.
  intros [Hw Hs Hsl] Hlen. pose proof (ww_constants _ _ Hw) as HI. unfold add_constant.
  destruct (pw_constant_ids (cb_current b) !! c) as [id|] eqn:E.
  - split_and!; [done| |done]. apply HI in E. by rewrite Z.sub_0_r in E.
  - pose proof (len_nonneg (pw_constants (cb_current b))).
    rewrite as_u32_small by (unfold is_u32; lia). split_and!.
    + split; [|done|done]. destruct Hw. split; cbn; try done.
      * rewrite <- (Z.add_0_r (len (pw_constants (cb_current b)))). by apply Interned_add.
      * rewrite len_app. unfold len at 2. cbn. lia.
    + cbn. apply zget_snoc_Some. by right.
    + intros id' c' Hc. cbn. apply zget_snoc_Some. by left.
Qed.

Lemma add_string_spec bound b v :
  wf_builder bound b -> len (cb_strings b) + 1 < 4294967295 ->
  let '(id, b') := add_string v b in
  wf_builder bound b' /\ zget (cb_strings b') (id - 1) = Some (decode_ast_string_bytes v) /\
  (forall id' s, zget (cb_strings b) id' = Some s -> zget (cb_strings b') id' = Some s).
Proof.
  intros [Hw Hs Hsl] Hlen. unfold add_string.
  destruct (cb_string_ids b !! decode_ast_string_bytes v) as [id|] eqn:E.
  - split_and!; [done| |done]. by apply Hs.
  - pose proof (len_nonneg (cb_strings b)).
    assert (as_u32 (len (cb_strings b ++ [decode_ast_string_bytes v])) = len (cb_strings b) + 1) as ->.
    { rewrite len_app. unfold len at 2. cbn. apply as_u32_small. unfold is_u32. lia. }
    split_and!.
    + split; cbn; [done|by apply Interned_add|]. rewrite len_app. unfold len at 2. cbn. lia.
    + cbn. apply zget_snoc_Some. right. split; [lia|done].
    + intros id' s H'. cbn. apply zget_snoc_Some. by left.
Qed.

Lemma add_child_proto_spec bound b q :
  wf_builder bound b -> len (pw_child_protos (cb_current b)) < 32768 ->
  let '(d, b') := add_child_proto q b in
  wf_builder bound b' /\ zget (pw_child_protos (cb_current b')) d = Some q.
Proof.
  intros [Hw Hs Hsl] Hlen. unfold add_child_proto.
  destruct (position _ _) as [k|] eqn:E.
  - split; [done|]. apply position_spec in E as (x & Hx & Heq & _). apply Z.eqb_eq in Heq as ->.
    pose proof (lookup_lt_Some _ _ _ Hx). unfold len in Hlen.
    rewrite as_i16_small by (unfold is_i16; lia). by rewrite zget_of_nat.
  - pose proof (len_nonneg (pw_child_protos (cb_current b))).
    rewrite as_i16_small by (unfold is_i16; lia). split.
    + split; [|done|done]. destruct Hw. split; cbn; try done.
      apply NoDup_app. split_and!; [done| |apply NoDup_singleton].
      intros x Hx ->%list_elem_of_singleton. apply list_elem_of_lookup in Hx as [k Hk].
      clear -E Hk. unfold position in E.
      assert (forall l s n, l !! n = Some q -> position_from (fun e => e =? q) s l <> None) as Hp.
      { induction l as [|y l IH]; intros s [|n] Hn; cbn in *; try done.
        - injection Hn as ->. by rewrite Z.eqb_refl.
        - destruct (y =? q); [done|]. by eapply IH. }
      by eapply Hp.
    + cbn. apply zget_snoc_Some. by right.
Qed.

(** ** Patching *)

Lemma set_code_builder bound b k i i' :
  wf_builder bound b -> current_code b !! k = Some i -> wf_ins i' -> word_len i' = word_len i ->
  exists b', set_code k i' b = Some b' /\ wf_builder bound b' /\
    current_code b' = <[k := i']> (current_code b).
Proof.
  intros [Hw Hs Hsl] Hk Hi Hl. unfold set_code.
  rewrite decide_True by (by eapply lookup_lt_Some). eexists. split; [done|]. split; [|done].
  split; [|done|done]. by eapply set_code_wf.
Qed.

Lemma arity_word_len i op aux :
  ins_opcode i = op -> ins_aux i = aux -> consistent i ->
  instruction_len op = 1 + match aux with Some _ => 1 | None => 0 end -> wf_ins i.
Proof.
  intros <- <- Hc Hl. split; [done|]. unfold aux_arity_ok, word_len. by rewrite Hl.
Qed.

Lemma patch_ad_builder bound b k i op a d :
  wf_builder bound b -> current_code b !! k = Some i -> ins_aux i = None ->
  instruction_len op = 1 -> is_u8 a -> is_i16 d ->
  exists b' i', patch_ad k op a d b = Some b' /\ wf_builder bound b' /\
    current_code b' = <[k := i']> (current_code b) /\
    ins_opcode i' = op /\ ins_a i' = a /\ ins_d i' = d.
Proof.
  intros Hb Hk Hx Hop Ha Hd. unfold patch_ad.
  destruct (ad_spec op a d Ha Hd) as (i' & -> & Ho & Hia & Hid & Hix & _ & Hc%is_header_consistent_spec).
  destruct (set_code_builder bound b k i i') as (b' & -> & Hb' & Hcode); [done|done| | |].
  - by eapply arity_word_len.
  - unfold word_len. by rewrite Hx, Hix.
  - by exists b', i'.
Qed.

Lemma patch_ad_with_aux_builder bound b k i op a d aux :
  wf_builder bound b -> current_code b !! k = Some i ->
  word_len i = instruction_len op ->
  instruction_len op = 1 + match aux with Some _ => 1 | None => 0 end -> is_u8 a -> is_i16 d ->
  exists b' i', patch_ad_with_aux k op a d aux b = Some b' /\ wf_builder bound b' /\
    current_code b' = <[k := i']> (current_code b) /\
    ins_opcode i' = op /\ ins_a i' = a /\ ins_d i' = d /\ ins_aux i' = aux.
Proof.
  intros Hb Hk Hx Hop Ha Hd. unfold patch_ad_with_aux. cbv zeta.
  destruct (split_i16 d Hd) as (Hlo & Hhi & E).
  destruct (abc_with_aux_spec op a _ _ aux Ha Hlo Hhi)
    as (i' & -> & Ho & Hia & _ & _ & Hid & Hix & _ & Hc%is_header_consistent_spec).
  destruct (set_code_builder bound b k i i') as (b' & -> & Hb' & Hcode); [done|done| | |].
  - by eapply arity_word_len.
  - rewrite Hx, Hop. unfold word_len. by rewrite Hix.
  - exists b', i'. rewrite Hid, E. done.
Qed.

(** The skip of a fast call: patched exactly when the distance fits in a byte, and then
    to the current end of the code. *)
Lemma patch_skip_builder bound b k i :
  wf_builder bound b -> bound < 4294967290 -> current_code b !! k = Some i ->
  let distance := total_words (current_code b) - word_of (current_code b) (S k) +
                  (word_len i - 1) in
  if distance <? 256 then
    exists b' i', patch_skip_c_to_current k b = Some (true, b') /\ wf_builder bound b' /\
      current_code b' = <[k := i']> (current_code b) /\
      ins_opcode i' = ins_opcode i /\ ins_a i' = ins_a i /\ ins_b i' = ins_b i /\
      ins_aux i' = ins_aux i /\
      word_of (current_code b) k + 1 + ins_c i' = total_words (current_code b)
  else patch_skip_c_to_current k b = Some (false, b).
Proof.
  intros Hb Hlim Hk distance. pose proof Hb as [Hw _ _].
  pose proof (ww_bound _ _ Hw) as Hbound. fold (current_code b) in Hbound.
  pose proof (lookup_lt_Some _ _ _ Hk) as Hlt. pose proof (word_of_S _ _ _ Hk) as HS.
  pose proof (word_of_total (current_code b) (S k)). pose proof (word_of_nonneg (current_code b) k).
  pose proof (word_len_cases i).
  unfold patch_skip_c_to_current, instruction_word_offset, current_word_offset.
  rewrite (ww_offsets _ _ Hw). fold (current_code b).
  rewrite instruction_word_offsets_lookup by (done || lia).
  rewrite (ww_next _ _ Hw). fold (current_code b). rewrite as_u32_small by (unfold is_u32; lia).
  destruct (Z.ltb_spec (total_words (current_code b) - (word_of (current_code b) k + 1)) 0); [lia|].
  assert (total_words (current_code b) - (word_of (current_code b) k + 1) = distance) as ->
    by (unfold distance; lia).
  unfold u8_try_from. destruct (Z.leb_spec 0 distance); [cbn [andb]|lia].
  destruct (Z.ltb_spec distance 256); [|done]. rewrite Hk.
  destruct (Forall_lookup_1 _ _ _ _ (ww_code _ _ Hw) Hk) as [Hc Har].
  destruct (from_words_Some _ _ _ Hc) as (_ & _ & _ & Ha & Hb' & _ & _).
  destruct (abc_with_aux_spec (ins_opcode i) (ins_a i) (ins_b i) distance (ins_aux i))
    as (i' & -> & Ho & Hia & Hib & Hic & _ & Hix & _ & Hc'%is_header_consistent_spec);
    [done|done|unfold is_u8; lia|].
  destruct (set_code_builder bound b k i i') as (b' & -> & Hwf & Hcode); [done|done| | |].
  - split; [done|]. unfold aux_arity_ok, word_len in *. by rewrite Ho, Hix.
  - unfold word_len. by rewrite Hix.
  - exists b', i'. split_and!; try done. rewrite Hic. unfold distance. lia.
Qed.

(** ** Finishing *)

Lemma abc_wf op b :
  is_u8 b -> instruction_len op = 1 ->
  exists i, abc op 0 b 0 = Some i /\ ins_opcode i = op /\ wf_ins i /\ word_len i = 1.
Proof.
  intros Hb Hop. destruct (abc_with_aux_spec op 0 b 0 None)
    as (i & Hi & Ho & _ & _ & _ & _ & Hx & _ & Hc%is_header_consistent_spec);
    [unfold is_u8; lia|done|unfold is_u8; lia|].
  exists i. split_and!; [exact Hi|done|by eapply arity_word_len|]. unfold word_len. by rewrite Hx.
Qed.

(** The chunk-level tables are not touched. *)
Definition same_tables (b b' : ChunkBuilder) : Prop :=
  cb_protos b' = cb_protos b /\ cb_strings b' = cb_strings b /\
  cb_bytecode_version b' = cb_bytecode_version b.

Lemma insert_prepvarargs_wf bound b :
  wf_builder bound b -> bound < 4294967290 ->
  exists b', insert_prepvarargs b = Some b' /\ wf_builder (bound + 1) b' /\
    same_tables b b' /\
    (pw_implicit_prepvarargs (cb_current b) = true ->
     exists i, head (current_code b') = Some i /\ ins_opcode i = Op.PrepVarargs).
Proof.
  intros [Hw Hs Hsl] Hb. unfold insert_prepvarargs.
  assert (wf_builder (bound + 1) b) as Hb1.
  { split; [|done|done]. pose proof (ww_bound _ _ Hw). eapply wf_work_weaken; [done|lia]. }
  destruct (needs_implicit_prepvarargs b) eqn:E.
  - destruct (abc_wf Op.PrepVarargs 0) as (i & -> & Ho & Hi & Hl); [unfold is_u8; lia|done|].
    eexists. split; [done|]. split_and!; [|done|intros _; by exists i]. split; [|done|done].
    pose proof (total_words_nonneg (pw_code (cb_current b))).
    assert (total_words (i :: pw_code (cb_current b)) = total_words (pw_code (cb_current b)) + 1)
      as Et by (change (word_len i + total_words (pw_code (cb_current b)) =
                        total_words (pw_code (cb_current b)) + 1); lia).
    destruct Hw. split; pw_simpl; try done; rewrite ?Et, ?len_cons; try lia.
    + by constructor.
    + unfold instruction_word_offsets at 1. cbn [instruction_word_offsets_from].
      rewrite Hl, as_u32_small by (unfold is_u32; lia).
      rewrite instruction_word_offsets_shift by lia. congruence.
    + rewrite as_u32_small by (unfold is_u32; lia). lia.
    + constructor; [unfold is_line; lia|done].
  - exists b. split; [done|]. split_and!; [done|done|]. intros Hp.
    unfold needs_implicit_prepvarargs in E. rewrite Hp in E. cbn [negb] in E. unfold current_code.
    destruct (pw_code (cb_current b)) as [|i c]; [done|]. exists i. split; [done|].
    by apply negb_false_iff, bool_decide_eq_true in E.
Qed.

Lemma implicit_return_line_ok bound b : wf_builder bound b -> is_line (implicit_return_line b).
Proof.
  intros [[] _ _]. unfold implicit_return_line, is_line, is_u8 in *.
  destruct (pw_implicit_return_line_base (cb_current b)); [lia|].
  destruct (last (pw_code_lines (cb_current b))) as [l|] eqn:E; cbn; [|lia].
  apply last_Some_elem_of in E. rewrite Forall_forall in ww_lines0.
  specialize (ww_lines0 l E). cbn in ww_lines0. lia.
Qed.

Lemma ensure_return_wf bound b :
  wf_builder bound b -> bound < 4294967290 ->
  exists b', ensure_return b = Some b' /\ wf_builder (bound + 1) b' /\
    same_tables b b' /\ head (current_code b') <> None /\
    (current_code b <> [] -> head (current_code b') = head (current_code b)) /\
    exists i, last (current_code b') = Some i /\ ins_opcode i = Op.Return.
Proof.
  intros Hb Hlim. unfold ensure_return.
  match goal with |- context [if ?x then _ else _] => destruct x eqn:E end.
  - unfold emit_implicit_return. destruct (abc_wf Op.Return 1) as (i & -> & Ho & Hi & Hl);
      [unfold is_u8; lia|done|].
    pose proof (implicit_return_line_ok bound b Hb) as Hline. destruct Hb as [Hw Hs Hsl].
    eexists. split; [done|]. split_and!; [|done| | |].
    + split; [|done|done]. cbn. rewrite <- Hl. by apply emit_work_wf.
    + cbn. by destruct (pw_code (cb_current b)).
    + unfold current_code. cbn. by destruct (pw_code (cb_current b)).
    + exists i. unfold current_code. cbn. by rewrite last_snoc.
  - exists b. split; [done|]. destruct Hb as [Hw Hs Hsl]. pose proof (ww_bound _ _ Hw).
    destruct (last (current_code b)) as [i|] eqn:El; [|done].
    split_and!; [split; [|done|done]; eapply wf_work_weaken; [done|lia]|done| |done|].
    + intros Hh. by destruct (current_code b).
    + exists i. split; [done|]. by apply negb_false_iff, bool_decide_eq_true in E.
Qed.
