(* ===== verification/BuilderTheorems.v ===== *)
(** * BuilderTheorems: correctness of the chunk builder

    The machine of builder calls with its invariant, the interning contract, the
    patching of jumps, jump folding and [finish]. *)

From Stdlib Require Import ZArith Lia.
From stdpp Require Import base numbers list strings gmap relations.
From S2P Require Import Prelude Opcodes BytecodeTypes LineInfo Codec Builder.
From S2P Require Import FoldJumps BuilderFacts.

(** ** The machine of builder calls

    The state pairs the builder with the works saved by [begin_proto]. The guards
    are what the compiler has to respect: instructions come from the instruction
    constructors, a patch keeps the length of the instruction it replaces, and the
    code stays below [MAX_CODE_WORDS] words. *)

Definition MAX_CODE_WORDS : Z := 536870912.

Definition BuildState : Set := ChunkBuilder * list ProtoWork.

(** Calls that only touch metadata. *)
Inductive MetaCall (b : ChunkBuilder) : ChunkBuilder -> Prop :=
| MetaVersion v : MetaCall b (set_bytecode_version v b)
| MetaStack v : MetaCall b (set_max_stack_size v b)
| MetaFlags v : MetaCall b (set_proto_flags v b)
| MetaFunctionType l : MetaCall b (set_function_type_info l b)
| MetaUpvalueType t : MetaCall b (push_upvalue_type_info t b)
| MetaLocalType t r s e : MetaCall b (push_local_type_info t r s e b)
| MetaDebugLocal n s e r : MetaCall b (push_debug_local n s e r b)
| MetaDebugUpvalue n : MetaCall b (push_debug_upvalue n b)
| MetaFeedback s : MetaCall b (push_feedback_slot s b).2
| MetaProto p : MetaCall b (add_proto p b).2.

Inductive Build : BuildState -> BuildState -> Prop :=
| BuildMeta b b' s : MetaCall b b' -> Build (b, s) (b', s)
| BuildLine line b s : is_line line -> Build (b, s) (set_debug_line line b, s)
| BuildReturnBase line b s :
    is_line line -> Build (b, s) (set_implicit_return_line_base line b, s)
| BuildReturnDelta d b s :
    is_u8 d -> Build (b, s) (set_implicit_return_line_delta d b, s)
| BuildEmit i b s :
    wf_ins i -> total_words (current_code b) + word_len i <= MAX_CODE_WORDS ->
    Build (b, s) ((emit i b).2, s)
| BuildConstant c b s :
    len (pw_constants (cb_current b)) + 1 < 4294967296 -> Build (b, s) ((add_constant c b).2, s)
| BuildString v b s :
    len (cb_strings b) + 1 < 4294967295 -> Build (b, s) ((add_string v b).2, s)
| BuildChild q b s :
    len (pw_child_protos (cb_current b)) < 32768 -> Build (b, s) ((add_child_proto q b).2, s)
| BuildPatch k i op a d b b' s :
    current_code b !! k = Some i -> ins_aux i = None -> instruction_len op = 1 ->
    is_u8 a -> is_i16 d -> patch_ad k op a d b = Some b' -> Build (b, s) (b', s)
| BuildPatchAux k i op a d aux b b' s :
    current_code b !! k = Some i -> word_len i = instruction_len op ->
    instruction_len op = 1 + match aux with Some _ => 1 | None => 0 end ->
    is_u8 a -> is_i16 d -> patch_ad_with_aux k op a d aux b = Some b' -> Build (b, s) (b', s)
| BuildSkip k r b b' s :
    patch_skip_c_to_current k b = Some (r, b') -> Build (b, s) (b', s)
| BuildBegin b s : Build (b, s) ((begin_proto b).2, (begin_proto b).1 :: s)
| BuildEnd w b s : Build (b, w :: s) ((end_proto w b).2, s).

Definition build_inv (st : BuildState) : Prop :=
  wf_builder MAX_CODE_WORDS st.1 /\ Forall (wf_work MAX_CODE_WORDS) st.2.

Lemma MetaCall_wf b b' : MetaCall b b' -> wf_builder MAX_CODE_WORDS b -> wf_builder MAX_CODE_WORDS b'.
Proof. intros [] [[] Hs Hl]; (split; [|done|done]); by split. Qed.

Lemma line_call_wf b f :
  (forall w, wf_work MAX_CODE_WORDS w -> wf_work MAX_CODE_WORDS (f w)) ->
  wf_builder MAX_CODE_WORDS b -> wf_builder MAX_CODE_WORDS (on_current f b).
Proof. intros Hf [Hw Hs Hl]. split; [by apply Hf|done|done]. Qed.

Lemma as_i32_line line : is_line line -> as_i32 line = line.
Proof. intros H. apply as_i32_small. unfold is_line, is_i32 in *. lia. Qed.

Lemma Build_inv st st' : Build st st' -> build_inv st -> build_inv st'.
Proof.
  intros Hstep [Hb Hs]. destruct Hstep; (split; cbn [fst snd] in *; [|try done]).
  - by eapply MetaCall_wf.
  - apply line_call_wf; [|done]. intros w []. split; pw_simpl; try done. by rewrite as_i32_line.
  - apply line_call_wf; [|done]. intros w []. split; pw_simpl; try done. by rewrite as_i32_line.
  - apply line_call_wf; [|done]. intros w []. by split.
  - by apply emit_wf.
  - pose proof (add_constant_spec _ _ c Hb ltac:(done)) as H'. destruct (add_constant c b). apply H'.
  - pose proof (add_string_spec _ _ v Hb ltac:(done)) as H'. destruct (add_string v b). apply H'.
  - pose proof (add_child_proto_spec _ _ q Hb ltac:(done)) as H'.
    destruct (add_child_proto q b). apply H'.
  - destruct (patch_ad_builder _ _ _ _ op a d Hb ltac:(done)) as (b1 & i1 & E & Hb1 & _); try done.
    congruence.
  - destruct (patch_ad_with_aux_builder _ _ _ _ op a d aux Hb ltac:(done))
      as (b1 & i1 & E & Hb1 & _); try done. congruence.
  - destruct (current_code b !! k) as [i|] eqn:Hk.
    + pose proof (patch_skip_builder _ _ _ _ Hb ltac:(done) Hk) as Hp. cbv zeta in Hp.
      destruct (_ <? 256); [destruct Hp as (b1 & i1 & E & Hb1 & _); congruence|congruence].
    + exfalso. unfold patch_skip_c_to_current, instruction_word_offset in *.
      assert (pw_code_word_offsets (cb_current b) !! k = None) as Hn; [|by rewrite Hn in *].
      rewrite (ww_offsets _ _ (wb_current _ _ Hb)). apply lookup_ge_None.
      rewrite length_instruction_word_offsets. by apply lookup_ge_None in Hk.
  - destruct Hb. split; [by apply wf_work_new_function|done|done].
  - constructor; [apply Hb|done].
  - inversion Hs; subst. destruct Hb. by split.
  - by inversion Hs.
Qed.

(** ** Finishing a chunk *)

Lemma into_proto_spec bound w metadata :
  wf_work bound w ->
  exists p, into_proto w metadata = Some p /\ code p = pw_code w /\ constants p = pw_constants w /\
    child_protos p = pw_child_protos w /\ max_stack_size p = pw_max_stack_size w /\
    (1 <= pm_debug_level metadata -> pw_code w <> [] ->
     exists li, line_info p = Some li /\ to_line_numbers li = Some (pw_code_lines w)).
Proof.
  intros Hw. unfold into_proto.
  assert (exists o, (if 1 <=? pm_debug_level metadata then from_line_numbers (pw_code_lines w)
    else Some None) = Some o /\
    (1 <= pm_debug_level metadata -> pw_code w <> [] ->
     exists li, o = Some li /\ to_line_numbers li = Some (pw_code_lines w))) as (o & -> & Ho).
  { destruct (Z.leb_spec 1 (pm_debug_level metadata)); [|exists None; split; [done|lia]].
    destruct (decide (pw_code_lines w = [])) as [E|Hne].
    - rewrite E. exists None. split; [done|]. intros _ Hc. exfalso. apply Hc.
      pose proof (ww_lines_len _ _ Hw) as Hl. rewrite E in Hl.
      pose proof (total_words_length (pw_code w)). destruct (pw_code w); [done|].
      unfold len in *. cbn [length] in *. lia.
    - destruct (from_line_numbers_spec _ (ww_lines _ _ Hw) Hne) as (li & -> & Hli & _).
      exists (Some li). split; [done|]. intros _ _. by exists li. }
  eexists. split; [done|]. by split_and!.
Qed.

Lemma fold_work_wf bound w :
  wf_work bound w -> bound < 1073741824 ->
  exists w', fold_jumps w = Some w' /\ wf_work bound w' /\
    same_layout (pw_code w) (pw_code w') /\
    (forall k r, pw_code w !! k = Some r -> ins_opcode r = Op.Return -> pw_code w' !! k = Some r) /\
    pw_code_lines w' = pw_code_lines w /\ pw_proto_flags w' = pw_proto_flags w.
Proof.
  intros Hw Hb. pose proof Hw as []. unfold fold_jumps.
  destruct (fold_jumps_code_total (pw_code w) ltac:(done) ltac:(lia)) as (D & -> & HF).
  pose proof (fd_variant _ _ _ HF) as [Hl Hwf]. eexists. split; [done|]. split_and!; try done.
  - split; pw_simpl; try done; rewrite <- ?(same_layout_total _ _ Hl); try done.
    by rewrite <- (same_layout_offsets _ _ Hl).
  - intros k r Hk Hr. pw_simpl. destruct (folded_lookup _ _ _ HF k r Hk) as (r' & Hr' & Hre).
    rewrite Hr'. f_equal. destruct Hre as [|? ? ? Hf|? ? ? ? ? Hf|]; [done| | |congruence];
      by rewrite Hr in Hf.
Qed.

Lemma last_same_length {A} (l k : list A) x :
  length l = length k -> last l = Some x ->
  (forall n, l !! n = Some x -> k !! n = Some x) -> last k = Some x.
Proof.
  intros Hl. rewrite !last_lookup, Hl. auto.
Qed.

Lemma add_string_grows v b : len (cb_strings (add_string v b).2) <= len (cb_strings b) + 1.
Proof.
  unfold add_string. destruct (cb_string_ids b !! _); cbn; [lia|].
  rewrite len_app. unfold len at 2. cbn. lia.
Qed.

(** ** Theorems *)

(** C9: Builder invariant: in every state a compiler can reach from a fresh builder
    (for the function under construction and for the suspended ones), the recorded word
    offsets are those of the emitted instructions, the next offset is the number of words,
    there is one source line per code word, every instruction agrees with its header word,
    and the constant and string tables are duplicate free and answered by their id maps. *)
Theorem builder_invariant st :
  rtc Build (ChunkBuilder_new, []) st ->
  wf_builder MAX_CODE_WORDS st.1 /\ Forall (wf_work MAX_CODE_WORDS) st.2 /\
  NoDup (pw_constants (cb_current st.1)) /\ NoDup (cb_strings st.1).
Proof.
  intros Hr. assert (build_inv st) as [Hb Hs].
  { assert (build_inv (ChunkBuilder_new, [])) as H0
      by (split; [by apply wf_builder_new|constructor]).
    revert H0. induction Hr as [|x y z Hs _ IH]; [done|]. intros Hx. by eapply IH, Build_inv. }
  split_and!; [done|done| |].
  - eapply Interned_NoDup, ww_constants, (wb_current _ _ Hb).
  - eapply Interned_NoDup, wb_strings, Hb.
Qed.

(** C5: Jump folding is correct: on code below 2^30 words made of consistent
    instructions the pass terminates without a panic, keeps the position of every word,
    produces consistent instructions, and the result is bisimilar to the input from every
    instruction, where unconditional jumps are silent, every other instruction shows itself
    (a foldable jump without its offset) and whether it falls through or jumps, and a RETURN
    ends the execution with the same RETURN. *)
Theorem fold_jumps_bisimilar C :
  Forall wf_ins C -> total_words C < 1073741824 ->
  exists D, fold_jumps_code C = Some D /\ same_layout C D /\ Forall wf_ins D /\
    exists R, (forall k, R k k) /\ bisimulation C D R.
Proof.
  intros HC Ht. destruct (fold_jumps_code_total C HC Ht) as (D & HD & HF).
  exists D. destruct (fd_variant _ _ _ HF) as [Hl Hwf]. split_and!; [done|done|done|].
  exists (alike C D). split; [by eapply alike_refl|by eapply alike_bisimulation].
Qed.

(** A chunk can always be finished: from any state within the builder invariant,
    with or without folding, [finish] returns a chunk with the builder's strings, protos and
    version whose main proto is the last one; the main code consists of consistent
    instructions and ends in a RETURN, and with line info enabled the packed lines decode to
    one line per code word. *)
Theorem finish_chunk debug_level fold b :
  wf_builder MAX_CODE_WORDS b ->
  exists c p, finish debug_level fold b = Some (Valid c) /\
    protos c = cb_protos b ++ [p] /\ main_proto c = as_u32 (len (cb_protos b)) /\
    strings c = cb_strings b /\ bytecode_version c = cb_bytecode_version b /\
    Forall wf_ins (code p) /\ (exists i, last (code p) = Some i /\ ins_opcode i = Op.Return) /\
    (1 <= debug_level -> exists li lines, line_info p = Some li /\
       to_line_numbers li = Some lines /\ len lines = total_words (code p)).
Proof.
  intros Hb. unfold finish.
  destruct (insert_prepvarargs_wf _ _ Hb ltac:(done)) as (b1 & -> & Hb1 & (Hp1 & Hs1 & Hv1) & _).
  destruct (ensure_return_wf _ _ Hb1 ltac:(done))
    as (b2 & -> & [Hw2 _ _] & (Hp2 & Hs2 & Hv2) & _ & _ & i & Hlast & Hret).
  assert (exists w, (if fold then fold_jumps (cb_current b2) else Some (cb_current b2)) = Some w /\
    wf_work (MAX_CODE_WORDS + 1 + 1) w /\ last (pw_code w) = Some i) as (w & -> & Hw & Hwl).
  { destruct fold; [|by exists (cb_current b2)].
    destruct (fold_work_wf _ _ Hw2 ltac:(done)) as (w & -> & Hw & Hl & Hkeep & _).
    exists w. split_and!; [done|done|]. eapply last_same_length; [by apply same_layout_length|exact Hlast|].
    intros n Hn. by apply Hkeep. }
  destruct (into_proto_spec _ w (mkProtoMetadata 0 0 true (pw_proto_flags w) 1 0 debug_level) Hw)
    as (p & -> & Hcode & _ & _ & _ & Hline).
  eexists _, p. split; [done|]. cbn [protos main_proto strings bytecode_version].
  split_and!; try congruence.
  - rewrite Hcode. apply Hw.
  - rewrite Hcode. by exists i.
  - intros Hd. destruct (Hline Hd) as (li & ? & ?); [by intros E; rewrite E in Hwl|].
    exists li, (pw_code_lines w). split_and!; [done|done|]. rewrite Hcode. apply Hw.
Qed.

(** Interning: adding a constant returns an id under which the table holds that
    constant, never moves an existing constant, and adding it again returns the same id and
    leaves the builder unchanged. *)
Theorem add_constant_interns bound b c :
  wf_builder bound b -> len (pw_constants (cb_current b)) + 1 < 4294967296 ->
  let '(id, b') := add_constant c b in
  zget (pw_constants (cb_current b')) id = Some c /\
  (forall id' c', zget (pw_constants (cb_current b)) id' = Some c' ->
    zget (pw_constants (cb_current b')) id' = Some c') /\
  add_constant c b' = (id, b').
Proof.
  intros Hb Hl. pose proof (add_constant_spec bound b c Hb Hl) as H.
  destruct (add_constant c b) as [id b']. destruct H as (Hb' & Hid & Hold). split_and!; [done|done|].
  unfold add_constant. pose proof (ww_constants _ _ (wb_current _ _ Hb')) as HI.
  rewrite (proj2 (HI c id)); [done|]. by rewrite Z.sub_0_r.
Qed.

(** Two strings get the same string id exactly when they stand for the same bytes,
    and string ids start at one, zero being reserved for the empty name. *)
Theorem add_string_injective bound b v v' :
  wf_builder bound b -> len (cb_strings b) + 2 < 4294967295 ->
  let '(id, b1) := add_string v b in
  let '(id', b2) := add_string v' b1 in
  1 <= id <= len (cb_strings b2) /\ 1 <= id' <= len (cb_strings b2) /\
  (id = id' <-> decode_ast_string_bytes v = decode_ast_string_bytes v').
Proof.
  intros Hb Hl. pose proof (add_string_spec bound b v Hb ltac:(lia)) as H1.
  pose proof (add_string_grows v b) as Hg. destruct (add_string v b) as [id b1].
  destruct H1 as (Hb1 & Hid & _). pose proof (add_string_spec bound b1 v' Hb1 ltac:(cbn in Hg; lia)) as H2.
  destruct (add_string v' b1) as [id' b2]. destruct H2 as (Hb2 & Hid' & Hkeep).
  pose proof (Hkeep _ _ Hid) as Hid2. pose proof (wb_strings _ _ Hb2) as HI.
  pose proof (zget_Some _ _ _ Hid2) as [R1 _]. pose proof (zget_Some _ _ _ Hid') as [R2 _].
  split_and!; try lia. split.
  - intros ->. congruence.
  - intros E. apply HI in Hid2, Hid'. rewrite E in Hid2. congruence.
Qed.

(** A fast-call skip is patched exactly when the distance fits in a byte: the
    instruction keeps its opcode, operands and AUX and its skip then lands on the current end
    of the code; otherwise the builder is unchanged. It never panics on an emitted index. *)
Theorem patch_skip_exact bound b k i :
  wf_builder bound b -> bound < 4294967290 -> current_code b !! k = Some i ->
  let distance := total_words (current_code b) - (word_of (current_code b) k + 1) in
  if distance <? 256 then
    exists b' i', patch_skip_c_to_current k b = Some (true, b') /\ wf_builder bound b' /\
      current_code b' = <[k := i']> (current_code b) /\
      ins_opcode i' = ins_opcode i /\ ins_a i' = ins_a i /\ ins_b i' = ins_b i /\
      ins_aux i' = ins_aux i /\
      word_of (current_code b) k + 1 + ins_c i' = total_words (current_code b)
  else patch_skip_c_to_current k b = Some (false, b).
Proof.
  intros Hb Hl Hk. pose proof (patch_skip_builder bound b k i Hb Hl Hk) as H. cbv zeta in *.
  rewrite (word_of_S _ _ _ Hk) in H.
  replace (total_words (current_code b) - (word_of (current_code b) k + 1)) with
    (total_words (current_code b) - (word_of (current_code b) k + word_len i) + (word_len i - 1)) by lia.
  exact H.
Qed.

(** ** Witnesses *)

Definition return_sample : Instruction := mkInstruction 65558 Op.Return 0 1 0 1 256 None.
Definition fastcall_sample : Instruction := mkInstruction 580 Op.FastCall 2 0 0 0 2 None.

(** [jumpif +1; return; jump +0; return]: the branch is folded onto the last return and the
    jump is replaced by it. *)
Definition fold_sample : list Instruction :=
  [mkInstruction 65561 Op.JumpIf 0 1 0 1 256 None; return_sample;
   mkInstruction 23 Op.Jump 0 0 0 0 0 None; return_sample].

Lemma fold_sample_wf : Forall wf_ins fold_sample.
Proof. repeat constructor; vm_compute; reflexivity. Qed.

Lemma builder_new_wf : wf_builder MAX_CODE_WORDS ChunkBuilder_new.
Proof. by apply wf_builder_new. Qed.

Definition emitted_sample : ChunkBuilder := (emit return_sample ChunkBuilder_new).2.

Lemma builder_invariant_witness :
  wf_builder MAX_CODE_WORDS emitted_sample /\ Forall (wf_work MAX_CODE_WORDS) [] /\
  NoDup (pw_constants (cb_current emitted_sample)) /\ NoDup (cb_strings emitted_sample).
Proof.
  apply (builder_invariant (emitted_sample, [])). apply rtc_once. apply BuildEmit.
  - split; vm_compute; reflexivity.
  - vm_compute. discriminate.
Defined.

Lemma fold_jumps_bisimilar_witness :
  exists D, fold_jumps_code fold_sample = Some D /\ same_layout fold_sample D /\ Forall wf_ins D /\
    exists R, (forall k, R k k) /\ bisimulation fold_sample D R.
Proof. apply fold_jumps_bisimilar; [apply fold_sample_wf|vm_compute; reflexivity]. Defined.

(** What folding does to it. *)
Example fold_sample_result :
  option_map (map (fun i => (ins_opcode i, ins_d i))) (fold_jumps_code fold_sample) =
  Some [(Op.JumpIf, 2); (Op.Return, 1); (Op.Return, 1); (Op.Return, 1)].
Proof. vm_compute. reflexivity. Qed.

Lemma finish_chunk_witness :
  exists c p, finish 1 true emitted_sample = Some (Valid c) /\
    protos c = cb_protos emitted_sample ++ [p].
Proof.
  destruct (finish_chunk 1 true emitted_sample) as (c & p & H1 & H2 & _).
  - apply emit_wf; [apply builder_new_wf|split; vm_compute; reflexivity|vm_compute; discriminate
    |vm_compute; reflexivity].
  - exists c, p. split; [exact H1|exact H2].
Defined.

Lemma add_constant_interns_witness :
  let '(id, b') := add_constant (Const.Number 7) ChunkBuilder_new in
  zget (pw_constants (cb_current b')) id = Some (Const.Number 7) /\
  (forall id' c', zget (pw_constants (cb_current ChunkBuilder_new)) id' = Some c' ->
    zget (pw_constants (cb_current b')) id' = Some c') /\
  add_constant (Const.Number 7) b' = (id, b').
Proof.
  apply (add_constant_interns MAX_CODE_WORDS); [apply builder_new_wf|vm_compute; reflexivity].
Defined.

Lemma add_string_injective_witness :
  let '(id, b1) := add_string [97] ChunkBuilder_new in
  let '(id', b2) := add_string [98] b1 in
  1 <= id <= len (cb_strings b2) /\ 1 <= id' <= len (cb_strings b2) /\
  (id = id' <-> decode_ast_string_bytes [97] = decode_ast_string_bytes [98]).
Proof.
  apply (add_string_injective MAX_CODE_WORDS); [apply builder_new_wf|vm_compute; reflexivity].
Defined.

Definition skip_sample : ChunkBuilder :=
  (emit return_sample (emit fastcall_sample ChunkBuilder_new).2).2.

Lemma skip_sample_wf : wf_builder MAX_CODE_WORDS skip_sample.
Proof.
  apply emit_wf; [apply emit_wf; [apply builder_new_wf|..]|..];
    first [split; vm_compute; reflexivity | vm_compute; discriminate | vm_compute; reflexivity].
Qed.

Lemma patch_skip_exact_witness :
  exists b' i', patch_skip_c_to_current 0 skip_sample = Some (true, b') /\
    wf_builder MAX_CODE_WORDS b' /\ current_code b' = <[0%nat := i']> (current_code skip_sample) /\
    ins_opcode i' = Op.FastCall /\ ins_a i' = 2 /\ ins_b i' = 0 /\ ins_aux i' = None /\
    word_of (current_code skip_sample) 0 + 1 + ins_c i' = total_words (current_code skip_sample).
Proof.
  exact (patch_skip_exact MAX_CODE_WORDS skip_sample 0 fastcall_sample skip_sample_wf eq_refl eq_refl).
Defined.
