(* ===== verification/AstString.v ===== *)
(** * AstString: byte strings through the syntax tree

    Luau strings are byte strings, the syntax tree stores Rust [String]s. The parser
    encodes with [ast_string_from_bytes] ([ruau-syntax/src/parser/common.rs]) and the
    builder decodes with [decode_ast_string_bytes] ([Builder]). This file models the
    encoder, with the [str::from_utf8] it is written against, and relates the two. *)

From Stdlib Require Import ZArith Lia.
From stdpp Require Import base numbers list strings.
From S2P Require Import Prelude Codec Builder.

(** ** [str::from_utf8]

    One step of UTF-8 validation at the head of [bytes]: a character with its width, or
    the [error_len] of the [Utf8Error] ([None] at an incomplete end of input). *)

Definition within (lo hi b : Z) : bool := (lo <=? b) && (b <=? hi).

Inductive Utf8Step : Set :=
| Utf8Char (ch : Z) (width : nat)
| Utf8Bad (error_len : option nat).

(** The admissible second bytes of a three- or four-byte sequence. *)
Definition second_ok (first second : Z) : bool :=
  if first =? 224 then within 160 191 second
  else if first =? 237 then within 128 159 second
  else if first =? 240 then within 144 191 second
  else if first =? 244 then within 128 143 second
  else within 128 191 second.

Definition utf8_step (first : Z) (rest : list Z) : Utf8Step :=
  if first <? 128 then Utf8Char first 1
  else if within 194 223 first then
    match rest with
    | b1 :: _ =>
        if within 128 191 b1 then Utf8Char ((first - 192) * 64 + (b1 - 128)) 2
        else Utf8Bad (Some 1%nat)
    | [] => Utf8Bad None
    end
  else if within 224 239 first then
    match rest with
    | b1 :: rest' =>
        if second_ok first b1 then
          match rest' with
          | b2 :: _ =>
              if within 128 191 b2
              then Utf8Char ((first - 224) * 4096 + (b1 - 128) * 64 + (b2 - 128)) 3
              else Utf8Bad (Some 2%nat)
          | [] => Utf8Bad None
          end
        else Utf8Bad (Some 1%nat)
    | [] => Utf8Bad None
    end
  else if within 240 244 first then
    match rest with
    | b1 :: rest' =>
        if second_ok first b1 then
          match rest' with
          | b2 :: rest'' =>
              if within 128 191 b2 then
                match rest'' with
                | b3 :: _ =>
                    if within 128 191 b3
                    then Utf8Char ((first - 240) * 262144 + (b1 - 128) * 4096
                                   + (b2 - 128) * 64 + (b3 - 128)) 4
                    else Utf8Bad (Some 3%nat)
                | [] => Utf8Bad None
                end
              else Utf8Bad (Some 2%nat)
          | [] => Utf8Bad None
          end
        else Utf8Bad (Some 1%nat)
    | [] => Utf8Bad None
    end
  else Utf8Bad (Some 1%nat).

(** The characters of the longest valid prefix, and for an invalid input the pair
    [(valid_up_to, error_len)]. The fuel is the number of bytes. *)
Fixpoint from_utf8 (fuel : nat) (offset : nat) (bytes : list Z)
    : list Z * option (nat * option nat) :=
  match fuel, bytes with
  | S fuel', first :: rest =>
      match utf8_step first rest with
      | Utf8Char ch width =>
          let '(chars, error) := from_utf8 fuel' (offset + width) (drop width bytes) in
          (ch :: chars, error)
      | Utf8Bad error_len => ([], Some (offset, error_len))
      end
  | _, _ => ([], None)
  end.

(** ** The encoder *)

(** A lower-case hexadecimal digit, as a character. *)
Definition hex_char (d : Z) : Z := if d <? 10 then 48 + d else 87 + d.

(** U+FFFF followed by [format!("ff{byte:02x}")]. *)
Definition byte_marker (byte : Z) : list Z :=
  [65535; 102; 102; hex_char (byte / 16); hex_char (byte mod 16)].

(** The [while !remaining.is_empty()] loop; an error skips at least one byte. *)
Fixpoint ast_string_loop (fuel : nat) (remaining : list Z) : list Z :=
  match fuel, remaining with
  | S fuel', _ :: _ =>
      match from_utf8 (length remaining) 0 remaining with
      | (valid, None) => valid
      | (valid, Some (valid_up_to, error_len)) =>
          let invalid_len := default (length remaining - valid_up_to)%nat error_len in
          valid ++ concat (map byte_marker (take invalid_len (drop valid_up_to remaining)))
          ++ ast_string_loop fuel' (drop (valid_up_to + invalid_len) remaining)
      end
  | _, _ => []
  end.

Definition ast_string_from_bytes (bytes : list Z) : list Z :=
  ast_string_loop (length bytes) bytes.

(** ** Characters and their encodings *)

Lemma lor_high base n k x :
  base = Z.shiftl k n -> 0 <= n -> 0 <= x < 2 ^ n -> Z.lor base x = base + x.
Proof.
  intros -> Hn Hx. rewrite Z.lor_comm, lor_shiftl_add by done.
  rewrite Z.shiftl_mul_pow2 by done. lia.
Qed.

Lemma lor_continuation x : Z.lor 128 (Z.land x 63) = 128 + x mod 64.
Proof.
  change 63 with (Z.ones 6). rewrite Z.land_ones by lia. change (2 ^ 6) with 64.
  apply (lor_high 128 6 2); [done|lia|]. apply Z.mod_pos_bound. lia.
Qed.

Lemma within_spec lo hi b : within lo hi b = true <-> lo <= b <= hi.
Proof. unfold within. lia. Qed.

Lemma second_ok_continuation first b : second_ok first b = true -> 128 <= b <= 191.
Proof.
  unfold second_ok. repeat case_match; rewrite within_spec; lia.
Qed.

(** [second_ok] excludes overlong forms and code points above U+10FFFF. *)
Lemma second_ok_minimal first b :
  second_ok first b = true ->
  (first = 224 -> 160 <= b) /\ (first = 240 -> 144 <= b) /\ (first = 244 -> b <= 143).
Proof.
  unfold second_ok. intros H.
  split_and!; intros ->; cbn in H; rewrite within_spec in H; lia.
Qed.

Lemma encode_utf8_1 ch : 0 <= ch < 128 -> encode_utf8 ch = [ch].
Proof. intros H. unfold encode_utf8. by destruct (Z.ltb_spec ch 128); [|lia]. Qed.

Lemma encode_utf8_2 b0 b1 :
  194 <= b0 <= 223 -> 128 <= b1 <= 191 -> encode_utf8 ((b0 - 192) * 64 + (b1 - 128)) = [b0; b1].
Proof.
  intros H0 H1. set (ch := (b0 - 192) * 64 + (b1 - 128)). unfold encode_utf8.
  destruct (Z.ltb_spec ch 128); [lia|]. destruct (Z.ltb_spec ch 2048); [|lia].
  rewrite lor_continuation, shiftr_div by lia. change (2 ^ 6) with 64.
  assert (ch / 64 = b0 - 192 /\ ch mod 64 = b1 - 128) as [-> ->] by (unfold ch; zdm).
  rewrite (lor_high 192 6 3) by (done || lia). f_equal; [lia|]. f_equal. lia.
Qed.

Lemma encode_utf8_3 b0 b1 b2 :
  224 <= b0 <= 239 -> second_ok b0 b1 = true -> 128 <= b2 <= 191 ->
  encode_utf8 ((b0 - 224) * 4096 + (b1 - 128) * 64 + (b2 - 128)) = [b0; b1; b2].
Proof.
  intros H0 Hs H2. pose proof (second_ok_continuation _ _ Hs) as H1.
  destruct (second_ok_minimal _ _ Hs) as (Hmin & _).
  set (ch := (b0 - 224) * 4096 + (b1 - 128) * 64 + (b2 - 128)). unfold encode_utf8.
  assert (2048 <= ch < 65536) as Hch.
  { unfold ch. destruct (Z.eq_dec b0 224) as [E|]; [pose proof (Hmin E)|]; lia. }
  destruct (Z.ltb_spec ch 128); [lia|]. destruct (Z.ltb_spec ch 2048); [lia|].
  destruct (Z.ltb_spec ch 65536); [|lia].
  rewrite !lor_continuation, !shiftr_div by lia. change (2 ^ 6) with 64. change (2 ^ 12) with 4096.
  assert (ch / 4096 = b0 - 224 /\ ch / 64 mod 64 = b1 - 128 /\ ch mod 64 = b2 - 128)
    as (-> & -> & ->) by (unfold ch; zdm).
  rewrite (lor_high 224 5 7) by (done || lia). repeat (f_equal; [lia|]). f_equal. lia.
Qed.

Lemma encode_utf8_4 b0 b1 b2 b3 :
  240 <= b0 <= 244 -> second_ok b0 b1 = true -> 128 <= b2 <= 191 -> 128 <= b3 <= 191 ->
  encode_utf8 ((b0 - 240) * 262144 + (b1 - 128) * 4096 + (b2 - 128) * 64 + (b3 - 128)) =
    [b0; b1; b2; b3].
Proof.
  intros H0 Hs H2 H3. pose proof (second_ok_continuation _ _ Hs) as H1.
  destruct (second_ok_minimal _ _ Hs) as (_ & Hmin & _).
  set (ch := (b0 - 240) * 262144 + (b1 - 128) * 4096 + (b2 - 128) * 64 + (b3 - 128)).
  unfold encode_utf8.
  assert (65536 <= ch) as Hch.
  { unfold ch. destruct (Z.eq_dec b0 240) as [E|]; [pose proof (Hmin E)|]; lia. }
  destruct (Z.ltb_spec ch 128); [lia|]. destruct (Z.ltb_spec ch 2048); [lia|].
  destruct (Z.ltb_spec ch 65536); [lia|].
  rewrite !lor_continuation, !shiftr_div by lia. change (2 ^ 6) with 64.
  change (2 ^ 12) with 4096. change (2 ^ 18) with 262144.
  assert (ch / 262144 = b0 - 240 /\ ch / 4096 mod 64 = b1 - 128 /\ ch / 64 mod 64 = b2 - 128 /\
    ch mod 64 = b3 - 128) as (-> & -> & -> & ->) by (unfold ch; zdm).
  rewrite (lor_high 240 4 15) by (done || lia). repeat (f_equal; [lia|]). f_equal. lia.
Qed.

(** A decoded character stands for exactly the bytes it was read from. *)
Lemma utf8_step_spec first rest :
  is_u8 first ->
  match utf8_step first rest with
  | Utf8Char ch width => (1 <= width <= S (length rest))%nat /\
      encode_utf8 ch = take width (first :: rest)
  | Utf8Bad (Some n) => (1 <= n <= S (length rest))%nat
  | Utf8Bad None => True
  end.
Proof.
  intros Hf. unfold utf8_step, is_u8 in *.
  destruct (Z.ltb_spec first 128); [split; [lia|rewrite encode_utf8_1 by lia; done]|].
  destruct (within 194 223 first) eqn:E2; [apply within_spec in E2|].
  { destruct rest as [|b1 rest]; [done|].
    destruct (within 128 191 b1) eqn:Eb; cbn [length]; [|lia]. apply within_spec in Eb.
    split; [lia|]. by rewrite encode_utf8_2. }
  destruct (within 224 239 first) eqn:E3; [apply within_spec in E3|].
  { destruct rest as [|b1 rest]; [done|]. destruct (second_ok first b1) eqn:Es; cbn [length]; [|lia].
    destruct rest as [|b2 rest]; [done|].
    destruct (within 128 191 b2) eqn:Eb; cbn [length]; [|lia]. apply within_spec in Eb.
    split; [lia|]. by rewrite encode_utf8_3. }
  destruct (within 240 244 first) eqn:E4; [apply within_spec in E4|lia].
  destruct rest as [|b1 rest]; [done|]. destruct (second_ok first b1) eqn:Es; cbn [length]; [|lia].
  destruct rest as [|b2 rest]; [done|].
  destruct (within 128 191 b2) eqn:Eb; cbn [length]; [|lia]. apply within_spec in Eb.
  destruct rest as [|b3 rest]; [done|].
  destruct (within 128 191 b3) eqn:Ec; cbn [length]; [|lia]. apply within_spec in Ec.
  split; [lia|]. by rewrite encode_utf8_4.
Qed.

Definition utf8 (chars : list Z) : list Z := concat (map encode_utf8 chars).

(** The valid prefix is the encoding of its characters; an error is in range and skips at
    least one byte. *)
Lemma from_utf8_spec fuel offset bytes chars error :
  Forall is_u8 bytes -> (length bytes <= fuel)%nat -> from_utf8 fuel offset bytes = (chars, error) ->
  match error with
  | None => utf8 chars = bytes
  | Some (v, error_len) => exists n, v = (offset + n)%nat /\ (n < length bytes)%nat /\
      utf8 chars = take n bytes /\
      match error_len with Some l => (1 <= l <= length bytes - n)%nat | None => True end
  end.
Proof.
  revert offset bytes chars error. induction fuel as [|fuel IH]; intros offset bytes chars error Hb Hf H.
  { destruct bytes; [|cbn in Hf; lia]. by injection H as <- <-. }
  destruct bytes as [|first rest]; [by injection H as <- <-|].
  cbn [from_utf8] in H. inversion Hb as [|? ? Hfirst Hrest]; subst.
  pose proof (utf8_step_spec first rest Hfirst) as Hstep.
  destruct (utf8_step first rest) as [ch w|el].
  - destruct Hstep as [Hw Hch].
    destruct (from_utf8 fuel (offset + w) (drop w (first :: rest))) as [cs e] eqn:E.
    injection H as <- <-. specialize (IH (offset + w)%nat (drop w (first :: rest)) cs e).
    cbn [length] in Hf. rewrite length_drop in IH. cbn [length] in IH.
    specialize (IH ltac:(by apply Forall_drop) ltac:(lia) E).
    destruct e as [[v l]|].
    + destruct IH as (n & -> & Hn & Hu & Hl). exists (w + n)%nat. cbn [length]. split_and!; [lia|lia| |].
      * change (utf8 (ch :: cs)) with (encode_utf8 ch ++ utf8 cs).
        by rewrite Hch, Hu, take_take_drop.
      * destruct l; [lia|done].
    + change (utf8 (ch :: cs)) with (encode_utf8 ch ++ utf8 cs). by rewrite Hch, IH, take_drop.
  - injection H as <- <-. exists 0%nat. cbn [length]. split_and!; [lia|lia|done|].
    destruct el; [lia|done].
Qed.

(** ** Decoding what was encoded *)

Lemma decode_ast_chars_fuel fuel chars :
  (length chars <= fuel)%nat -> decode_ast_chars fuel chars = decode_ast_string_bytes chars.
Proof.
  unfold decode_ast_string_bytes. revert chars. induction fuel as [fuel IH] using lt_wf_ind.
  intros [|ch rest] Hf; cbn [length] in *; [by destruct fuel|].
  destruct fuel as [|fuel]; [lia|]. cbn [decode_ast_chars].
  rewrite (IH fuel), (IH fuel) by (rewrite ?length_drop; lia).
  destruct (if ch =? 65535 then _ else _) as [byte|]; [|done]. f_equal.
  destruct (decide (length rest < S fuel)%nat) as [Hlt|].
  - symmetry. apply (IH (length rest)); [lia|]. rewrite length_drop. lia.
  - lia.
Qed.

Lemma decode_char ch rest :
  ch <> 65535 -> decode_ast_string_bytes (ch :: rest) = encode_utf8 ch ++ decode_ast_string_bytes rest.
Proof.
  intros Hch. unfold decode_ast_string_bytes at 1. cbn [length decode_ast_chars].
  by rewrite (proj2 (Z.eqb_neq _ _) Hch).
Qed.

Lemma marker_byte_enum :
  forallb (fun b => match marker_byte (drop 1 (byte_marker (Z.of_nat b))) with
                    | Some b' => b' =? Z.of_nat b | None => false end) (seq 0 256) = true.
Proof. vm_compute. reflexivity. Qed.

Lemma decode_marker b rest :
  is_u8 b -> decode_ast_string_bytes (byte_marker b ++ rest) = b :: decode_ast_string_bytes rest.
Proof.
  intros Hb. unfold is_u8 in Hb. pose proof marker_byte_enum as H. rewrite forallb_forall in H.
  specialize (H (Z.to_nat b)). rewrite Z2Nat.id in H by lia.
  assert (marker_byte (drop 1 (byte_marker b)) = Some b) as Hm.
  { destruct (marker_byte _) as [b'|]; [|discriminate H; apply in_seq; lia].
    f_equal. apply Z.eqb_eq, H, in_seq. lia. }
  unfold decode_ast_string_bytes at 1.
  change (byte_marker b ++ rest) with (65535 :: drop 1 (byte_marker b) ++ rest).
  cbn [length decode_ast_chars]. rewrite Z.eqb_refl.
  change (take 4 (drop 1 (byte_marker b) ++ rest)) with (drop 1 (byte_marker b)). rewrite Hm.
  f_equal. change (drop 4 (drop 1 (byte_marker b) ++ rest)) with rest.
  apply decode_ast_chars_fuel. cbn. lia.
Qed.

Lemma decode_markers bs rest :
  Forall is_u8 bs ->
  decode_ast_string_bytes (concat (map byte_marker bs) ++ rest) = bs ++ decode_ast_string_bytes rest.
Proof.
  induction 1 as [|b bs Hb _ IH]; [done|]. cbn [map concat].
  by rewrite <- app_assoc, decode_marker, IH.
Qed.

Lemma decode_chars chars rest :
  65535 ∉ chars ->
  decode_ast_string_bytes (chars ++ rest) = utf8 chars ++ decode_ast_string_bytes rest.
Proof.
  induction chars as [|ch chars IH]; [done|]. rewrite not_elem_of_cons. intros [Hch Hcs].
  cbn [app]. rewrite decode_char by done. rewrite IH by done.
  change (utf8 (ch :: chars)) with (encode_utf8 ch ++ utf8 chars). by rewrite app_assoc.
Qed.

(** The UTF-8 encoding of U+FFFF does not occur in the bytes. *)
Definition no_marker (bytes : list Z) : Prop := forall a b, bytes <> a ++ [239; 191; 191] ++ b.

Lemma no_marker_prefix n bytes : no_marker bytes -> no_marker (take n bytes).
Proof.
  intros H a b E. apply (H a (b ++ drop n bytes)). rewrite <- (take_drop n bytes) at 1.
  by rewrite E, <- !app_assoc.
Qed.

Lemma no_marker_suffix n bytes : no_marker bytes -> no_marker (drop n bytes).
Proof.
  intros H a b E. apply (H (take n bytes ++ a) b). rewrite <- (take_drop n bytes) at 1.
  by rewrite E, <- !app_assoc.
Qed.

Lemma no_marker_chars chars : no_marker (utf8 chars) -> 65535 ∉ chars.
Proof.
  intros H (a & b & ->)%list_elem_of_split. apply (H (utf8 a) (utf8 b)).
  unfold utf8. rewrite map_app, concat_app. done.
Qed.

Lemma ast_string_loop_decode fuel bytes :
  Forall is_u8 bytes -> no_marker bytes -> (length bytes <= fuel)%nat ->
  decode_ast_string_bytes (ast_string_loop fuel bytes) = bytes.
Proof.
  revert bytes. induction fuel as [|fuel IH]; intros bytes Hb Hm Hf;
    (destruct bytes as [|b0 rest] eqn:Eb; [done|rewrite <- Eb in *]); [rewrite Eb in Hf; cbn in Hf; lia|].
  assert (ast_string_loop (S fuel) bytes =
    match from_utf8 (length bytes) 0 bytes with
    | (valid, None) => valid
    | (valid, Some (valid_up_to, error_len)) =>
        let invalid_len := default (length bytes - valid_up_to)%nat error_len in
        valid ++ concat (map byte_marker (take invalid_len (drop valid_up_to bytes)))
        ++ ast_string_loop fuel (drop (valid_up_to + invalid_len) bytes)
    end) as -> by (by rewrite Eb).
  destruct (from_utf8 (length bytes) 0 bytes) as [chars error] eqn:E.
  pose proof (from_utf8_spec (length bytes) 0 bytes chars error Hb (le_n _) E) as Hspec.
  destruct error as [[v el]|].
  - destruct Hspec as (n & -> & Hn & Hu & Hel). cbn [Nat.add]. cbv zeta.
    set (l := default _ el). assert (1 <= l <= length bytes - n)%nat as Hl
      by (unfold l; clear -Hel Hn; destruct el; cbn in *; lia).
    rewrite decode_chars by (apply no_marker_chars; rewrite Hu; by apply no_marker_prefix).
    rewrite decode_markers by (by apply Forall_take, Forall_drop).
    rewrite IH; [|by apply Forall_drop|by apply no_marker_suffix|rewrite length_drop; lia].
    rewrite Hu, <- drop_drop, take_drop. apply take_drop.
  - rewrite <- (app_nil_r chars), decode_chars by (apply no_marker_chars; by rewrite Hspec).
    rewrite Hspec. apply app_nil_r.
Qed.

(** ** Theorems *)

(** Byte strings survive the syntax tree: for every byte string that does not
    contain the three bytes of U+FFFF, valid UTF-8 or not, decoding the tree's string gives
    back exactly the same bytes. *)
Theorem ast_string_roundtrip bytes :
  Forall is_u8 bytes -> no_marker bytes ->
  decode_ast_string_bytes (ast_string_from_bytes bytes) = bytes.
Proof. intros Hb Hm. by apply ast_string_loop_decode. Qed.

(** The encoding is not injective: the seven bytes of U+FFFF followed by the text
    [ff41] come back as the single byte 65, the string of the letter A. *)
Theorem ast_string_collision :
  exists bytes, Forall is_u8 bytes /\
    decode_ast_string_bytes (ast_string_from_bytes bytes) = [65] /\
    ast_string_from_bytes bytes <> ast_string_from_bytes [65] /\
    decode_ast_string_bytes (ast_string_from_bytes bytes) <> bytes.
Proof.
  exists [239; 191; 191; 102; 102; 52; 49]. split; [eval_decide|].
  split; [vm_compute; reflexivity|]. split; vm_compute; discriminate.
Qed.

(** A sign is accepted where a hexadecimal digit is expected. *)
Example marker_accepts_plus : decode_ast_string_bytes [65535; 102; 102; 43; 102] = [15].
Proof. vm_compute. reflexivity. Qed.

(** ** Witnesses *)

Lemma no_marker_dec_check bytes :
  forallb (fun k => negb (bool_decide (take 3 (drop k bytes) = [239; 191; 191])))
    (seq 0 (length bytes)) = true -> no_marker bytes.
Proof.
  intros H a b E. rewrite forallb_forall in H. specialize (H (length a)).
  rewrite E, drop_app_length in H. cbn in H. rewrite bool_decide_true in H by done.
  discriminate H. apply in_seq. rewrite length_app. cbn. lia.
Qed.

Lemma ast_string_roundtrip_witness :
  decode_ast_string_bytes (ast_string_from_bytes [72; 255; 226; 130; 172; 226; 130]) =
  [72; 255; 226; 130; 172; 226; 130].
Proof.
  apply ast_string_roundtrip; [eval_decide|apply no_marker_dec_check; vm_compute; reflexivity].
Defined.
