(* ===== verification/RustVec.v ===== *)
(** * RustVec: growable vectors, the memory meter and accounted vectors

    The virtual machine's heap ([ruau-vm/src/heap/arena.rs]) reasons about the capacity of
    its vectors: it reserves before it pushes, so that a later push cannot allocate, and it
    charges every capacity to a byte meter. A Rust [Vec] is therefore modelled with its
    capacity. How much a growing vector asks for, and whether the request is granted, is
    the allocator's business: [Allocator] is the parameter, [AllocatorLaws] what the
    documentation of [Vec] guarantees about it. [MemoryMeter] and [AccountedVec] are the
    two types of [arena.rs] built on top. *)

From Stdlib Require Import ZArith Lia.
From stdpp Require Import base numbers list option.
From S2P Require Import Prelude.

(** ** Machine words of the address width (64 bits) *)

Definition USIZE_MAX : Z := 18446744073709551615.
Definition ISIZE_MAX : Z := 9223372036854775807.

Definition usize_saturating_add (x y : Z) : Z := Z.min USIZE_MAX (x + y).
Definition usize_saturating_sub (x y : Z) : Z := Z.max 0 (x - y).

(** ** Faults

    [TryReserveError] is the value [try_reserve] returns; [Panic] an [expect], an index out
    of range or a failed [debug_assert]; [AllocAbort] an infallible [push] that the
    allocator refuses, which ends the process. *)

Inductive Fault : Set :=
| TryReserveError
| Panic
| AllocAbort.

#[export] Instance Fault_eq_dec : EqDecision Fault.
Proof. solve_decision. Defined.

(** ** Vectors *)

Record Vec (A : Type) : Type := mkVec { items : list A; capacity : Z }.
Arguments mkVec {A} items capacity.
Arguments items {A} v : rename.
Arguments capacity {A} v : rename.

(** [grow size need cap]: the capacity a vector of elements of [size] bytes and capacity
    [cap] gets when it must hold [need] elements, [None] when the request fails.
    [shrink size n cap]: the capacity [shrink_to_fit] leaves. *)
Class Allocator : Type := {
  grow : Z -> Z -> Z -> option Z;
  shrink : Z -> Z -> Z -> Z;
}.

Class AllocatorLaws (A : Allocator) : Prop := {
  grow_spec size need cap c :
    0 < size -> cap < need -> grow size need cap = Some c -> need <= c;
  shrink_spec size n cap : 0 <= n <= cap -> n <= shrink size n cap <= cap;
}.

(** The allocator that grants exact requests up to the address space. *)
Definition exact_allocator : Allocator := {|
  grow size need cap := if need * size <=? ISIZE_MAX then Some need else None;
  shrink size n cap := n;
|}.

#[export] Instance exact_allocator_laws : AllocatorLaws exact_allocator.
Proof.
  split; [|cbn; lia]. intros size need cap c _ _. cbn.
  destruct (Z.leb_spec (need * size) ISIZE_MAX); intros [= <-]. lia.
Qed.

(** The allocator that grants every request: the laws alone never imply a refusal. *)
Definition granting_allocator : Allocator := {|
  grow size need cap := Some need;
  shrink size n cap := n;
|}.

#[export] Instance granting_allocator_laws : AllocatorLaws granting_allocator.
Proof. split; [|cbn; lia]. intros size need cap c _ _ [= <-]. lia. Qed.

Section Vectors.
Context {AL : Allocator} {A : Type}.

Definition vec_new : Vec A := mkVec [] 0.

Definition vec_len (v : Vec A) : Z := len (items v).

Definition try_reserve (size : Z) (v : Vec A) (additional : Z) : option (Vec A) :=
  if vec_len v + additional <=? capacity v then Some v
  else match grow size (vec_len v + additional) (capacity v) with
       | Some c => Some (mkVec (items v) c)
       | None => None
       end.

(** [Vec::push]: grows by the same rule; the failure is not recoverable. *)
Definition push (size : Z) (v : Vec A) (x : A) : result Fault (Vec A) :=
  match try_reserve size v 1 with
  | Some v' => Ok (mkVec (items v' ++ [x]) (capacity v'))
  | None => Err AllocAbort
  end.

Definition pop (v : Vec A) : option A * Vec A :=
  match list.last (items v) with
  | Some x => (Some x, mkVec (removelast (items v)) (capacity v))
  | None => (None, v)
  end.

Definition vec_truncate (v : Vec A) (n : Z) : Vec A :=
  mkVec (take (Z.to_nat n) (items v)) (capacity v).

Definition shrink_to_fit (size : Z) (v : Vec A) : Vec A :=
  mkVec (items v) (shrink size (vec_len v) (capacity v)).

Definition vec_clear (v : Vec A) : Vec A := mkVec [] (capacity v).

Definition vec_ok (v : Vec A) : Prop := vec_len v <= capacity v.

End Vectors.

(** Updating the element at a machine index; out of range nothing happens, as in
    [if let Some(entry) = v.get_mut(i)]. *)
Definition zalter {A} (f : A -> A) (i : Z) (l : list A) : list A :=
  if i <? 0 then l else alter f (Z.to_nat i) l.

Definition vec_alter {A} (f : A -> A) (i : Z) (v : Vec A) : Vec A :=
  mkVec (zalter f i (items v)) (capacity v).

(** ** The memory meter (arena.rs) *)

Record MemoryMeter : Type := mkMeter { m_used : Z; m_peak : Z }.

Definition meter_default : MemoryMeter := mkMeter 0 0.

Definition increase (m : MemoryMeter) (bytes : Z) : MemoryMeter :=
  let used := usize_saturating_add (m_used m) bytes in
  mkMeter used (Z.max (m_peak m) used).

Definition adjust (m : MemoryMeter) (old new : Z) : MemoryMeter :=
  if old <=? new then increase m (new - old)
  else mkMeter (usize_saturating_sub (m_used m) (old - new)) (m_peak m).

Definition charge (m : MemoryMeter) (bytes : Z) : MemoryMeter := increase m bytes.

(** ** Accounted vectors (arena.rs)

    The meter an accounted vector holds is shared by reference; the operations take it and
    return it. [size] is [size_of::<T>()]. *)

Record AccountedVec (A : Type) : Type := mkAccounted { inner : Vec A; charged : Z }.
Arguments mkAccounted {A} inner charged.
Arguments inner {A} a : rename.
Arguments charged {A} a : rename.

Section Accounted.
Context {AL : Allocator} {A : Type}.

Definition with_meter : AccountedVec A := mkAccounted vec_new 0.

Definition recharge (size : Z) (v : AccountedVec A) (m : MemoryMeter)
  : AccountedVec A * MemoryMeter :=
  let now := capacity (inner v) * size in
  (mkAccounted (inner v) now, adjust m (charged v) now).

Definition from_vec (size : Z) (v : Vec A) (m : MemoryMeter) : AccountedVec A * MemoryMeter :=
  recharge size (mkAccounted v 0) m.

(** Returns the slot index; a refused reservation leaves the vector and the meter alone. *)
Definition try_push (size : Z) (v : AccountedVec A) (m : MemoryMeter) (x : A)
  : (AccountedVec A * MemoryMeter) * result Fault Z :=
  match try_reserve size (inner v) 1 with
  | None => ((v, m), Err TryReserveError)
  | Some r =>
      let index := vec_len r in
      match push size r x with
      | Ok r' => (recharge size (mkAccounted r' (charged v)) m, Ok index)
      | Err e => ((v, m), Err e)
      end
  end.

Definition av_get (v : AccountedVec A) (i : Z) : option A := zget (items (inner v)) i.

Definition av_len (v : AccountedVec A) : Z := vec_len (inner v).

Definition av_alter (f : A -> A) (i : Z) (v : AccountedVec A) : AccountedVec A :=
  mkAccounted (vec_alter f i (inner v)) (charged v).

Definition truncate (size : Z) (v : AccountedVec A) (m : MemoryMeter) (n : Z)
  : AccountedVec A * MemoryMeter :=
  if n <? av_len v
  then recharge size
         (mkAccounted (shrink_to_fit size (vec_truncate (inner v) n)) (charged v)) m
  else (v, m).

(** The meter's share of the vector is its capacity in bytes. *)
Definition accounted_ok (size : Z) (v : AccountedVec A) : Prop :=
  vec_ok (inner v) /\ charged v = capacity (inner v) * size /\ 0 <= charged v.

End Accounted.

(** ** Loops *)

(** [for x in l { s = f(x, s)? }]. *)
Fixpoint for_each {E X S : Type} (f : X -> S -> result E S) (l : list X) (s : S)
  : result E S :=
  match l with
  | [] => Ok s
  | x :: l' => let? s' := f x s in for_each f l' s'
  end.

(** ** Facts *)

Section VecFacts.
Context {AL : Allocator} {LAWS : AllocatorLaws AL} {A : Type}.
Implicit Types (v : Vec A) (x : A).

Lemma try_reserve_items size v n w : try_reserve size v n = Some w -> items w = items v.
Proof. unfold try_reserve. repeat case_match; intros; simplify_eq; done. Qed.

Lemma try_reserve_capacity size v n w :
  0 < size -> try_reserve size v n = Some w -> vec_len v + n <= capacity w.
Proof.
  unfold try_reserve. intros Hs. destruct (Z.leb_spec (vec_len v + n) (capacity v)).
  - intros [= <-]. lia.
  - case_match eqn:Hg; [|done]. intros [= <-]. cbn. by eapply grow_spec in Hg.
Qed.

Lemma try_reserve_noop size v n : vec_len v + n <= capacity v -> try_reserve size v n = Some v.
Proof. intros H. unfold try_reserve. by rewrite (proj2 (Z.leb_le _ _) H). Qed.

Lemma try_reserve_grows size v n w :
  0 < size -> try_reserve size v n = Some w -> capacity v <= capacity w.
Proof.
  unfold try_reserve. intros Hs. destruct (Z.leb_spec (vec_len v + n) (capacity v)).
  - intros [= <-]. lia.
  - case_match eqn:Hg; [|done]. intros [= <-]. cbn. apply grow_spec in Hg; lia.
Qed.

Lemma push_reserved size v x :
  vec_len v + 1 <= capacity v -> push size v x = Ok (mkVec (items v ++ [x]) (capacity v)).
Proof. intros H. unfold push. by rewrite try_reserve_noop. Qed.

Lemma push_items size v x w : push size v x = Ok w -> items w = items v ++ [x].
Proof.
  unfold push. case_match eqn:H; [|done]. intros [= <-]. cbn.
  by rewrite (try_reserve_items _ _ _ _ H).
Qed.

Lemma pop_Some v i w : pop v = (Some i, w) -> items v = items w ++ [i] /\ capacity w = capacity v.
Proof.
  unfold pop. destruct (items v) as [|y l] using rev_ind; [done|].
  rewrite last_snoc, removelast_last. intros [= <- <-]. done.
Qed.

Lemma pop_None v w : pop v = (None, w) -> items v = [] /\ w = v.
Proof.
  unfold pop. destruct (items v) as [|y l] using rev_ind; [by intros [= <-]|].
  by rewrite last_snoc.
Qed.

End VecFacts.

Lemma length_zalter {A} f i (l : list A) : length (zalter f i l) = length l.
Proof. unfold zalter. case_match; [done|]. apply length_alter. Qed.

Lemma len_zalter {A} f i (l : list A) : len (zalter f i l) = len l.
Proof. unfold len. by rewrite length_zalter. Qed.

Lemma zget_zalter {A} (f : A -> A) i (l : list A) :
  zget (zalter f i l) i = f <$> zget l i.
Proof.
  unfold zget, zalter. destruct (i <? 0) eqn:E; [done|].
  by rewrite list_lookup_alter_eq.
Qed.

Lemma zget_zalter_ne {A} (f : A -> A) i j (l : list A) :
  i <> j -> zget (zalter f i l) j = zget l j.
Proof.
  intros Hne. unfold zget, zalter. destruct (Z.ltb_spec i 0); [done|].
  destruct (Z.ltb_spec j 0); [done|]. rewrite list_lookup_alter_ne by lia. done.
Qed.

Lemma zget_zalter_if {A} (f : A -> A) i j (l : list A) :
  zget (zalter f i l) j = if decide (i = j) then f <$> zget l j else zget l j.
Proof. case_decide; subst; [apply zget_zalter|by apply zget_zalter_ne]. Qed.

(** *** The meter *)

Definition meter_ok (m : MemoryMeter) : Prop := 0 <= m_used m <= m_peak m /\ m_peak m <= USIZE_MAX.

Lemma increase_ok m b : 0 <= b -> meter_ok m -> meter_ok (increase m b).
Proof. unfold meter_ok, increase, usize_saturating_add, USIZE_MAX. cbn. lia. Qed.

Lemma adjust_ok m old new : meter_ok m -> meter_ok (adjust m old new).
Proof.
  intros H. unfold adjust. destruct (Z.leb_spec old new).
  - apply increase_ok; [lia|done].
  - unfold meter_ok, usize_saturating_sub in *. cbn. lia.
Qed.

Lemma adjust_peak m old new : m_peak m <= m_peak (adjust m old new).
Proof. unfold adjust, increase. case_match; cbn; lia. Qed.

(** Away from the ends of the range the meter is exact. *)
Lemma adjust_exact m old new :
  0 <= old <= m_used m -> m_used m - old + new <= USIZE_MAX -> 0 <= new ->
  m_used (adjust m old new) = m_used m - old + new.
Proof.
  intros. unfold adjust, increase, usize_saturating_add, usize_saturating_sub.
  destruct (Z.leb_spec old new); cbn; lia.
Qed.
