(* ===== verification/Arena.v ===== *)
(** * Arena: the generational object arenas of the virtual machine

    Model of [ruau-vm/src/heap/arena.rs], [Arena<T>] and its collector entry points. An
    arena keeps its slots in [entries], a generation per index in [gens] (never shorter than
    [entries], and never truncated), the swept indices in [free] and the indices allocated
    since the last collection in [young]. A handle is a pair of an index and a generation.

    The state of every operation is the arena and, where it charges capacity, the shared
    meter. [size_of::<ArenaEntry<T>>()] is the parameter [entry_size]. The operations that
    can fail return the state they leave with the outcome, since a failed [alloc] may have
    grown [gens]. A [debug_assert] is modelled as in a debug build, by [Panic]. *)

From Stdlib Require Import ZArith Lia.
From stdpp Require Import base numbers list option sorting.
From S2P Require Import Prelude RustVec.

Inductive Color : Set := White | Gray | Black.
Inductive Age : Set := Young | Old | OldRemembered.

#[export] Instance Color_eq_dec : EqDecision Color.
Proof. solve_decision. Defined.
#[export] Instance Age_eq_dec : EqDecision Age.
Proof. solve_decision. Defined.

Record ArenaEntry (T : Type) : Type := mkEntry {
  e_color : Color;
  e_age : Age;
  e_value : option T;
}.
Arguments mkEntry {T} e_color e_age e_value.
Arguments e_color {T} e : rename.
Arguments e_age {T} e : rename.
Arguments e_value {T} e : rename.

Record Arena (T : Type) : Type := mkArena {
  entries : AccountedVec (ArenaEntry T);
  gens : AccountedVec Z;
  free_list : Vec Z;
  young : Vec Z;
}.
Arguments mkArena {T} entries gens free_list young.
Arguments entries {T} a : rename.
Arguments gens {T} a : rename.
Arguments free_list {T} a : rename.
Arguments young {T} a : rename.

(** [size_of::<u32>()]. *)
Definition U32_SIZE : Z := 4.

Definition set_value {T} (v : option T) (e : ArenaEntry T) : ArenaEntry T :=
  mkEntry (e_color e) (e_age e) v.
Definition set_color {T} (c : Color) (e : ArenaEntry T) : ArenaEntry T :=
  mkEntry c (e_age e) (e_value e).
Definition set_age {T} (a : Age) (e : ArenaEntry T) : ArenaEntry T :=
  mkEntry (e_color e) a (e_value e).

Definition is_white (c : Color) : bool := match c with White => true | _ => false end.
Definition is_young (a : Age) : bool := match a with Young => true | _ => false end.
Definition is_live {T} (e : ArenaEntry T) : bool :=
  match e_value e with Some _ => true | None => false end.

(** The order of [sort_unstable_by(|a, b| b.cmp(a))]. *)
Definition descending (x y : Z) : Prop := y <= x.

#[export] Instance descending_dec x y : Decision (descending x y).
Proof. unfold descending. apply _. Defined.

Module Arena.
Section Arena.
Context {AL : Allocator} {T : Type} (entry_size : Z).
Implicit Types (a : Arena T) (m : MemoryMeter).

Definition new : Arena T := mkArena with_meter with_meter vec_new vec_new.

(** [entries.get_mut(index)] followed by an assignment. *)
Definition alter_entry (f : ArenaEntry T -> ArenaEntry T) (index : Z) a : Arena T :=
  mkArena (av_alter f index (entries a)) (gens a) (free_list a) (young a).

Definition from_snapshot_entries (es : Vec (ArenaEntry T)) (gs : Vec Z) (fr yo : Vec Z) m
  : Arena T * MemoryMeter :=
  let '(e, m1) := from_vec entry_size es m in
  let '(g, m2) := from_vec U32_SIZE gs m1 in
  (mkArena e g fr yo, m2).

(** The reuse branch of [alloc]: [index] was popped from the free list [fr], [yo] is the
    young list with a place reserved. *)
Definition alloc_reuse (value : T) (index : Z) (fr yo : Vec Z) a m
  : (Arena T * MemoryMeter) * result Fault (Z * Z) :=
  let a1 := mkArena (entries a) (gens a) fr yo in
  match av_get (entries a) index with
  | None => ((a1, m), Err Panic)
  | Some _ =>
      let a2 := alter_entry (fun _ => mkEntry White Young (Some value)) index a1 in
      match av_get (gens a2) index with
      | None => ((a2, m), Err Panic)
      | Some generation =>
          match push U32_SIZE yo index with
          | Err e => ((a2, m), Err e)
          | Ok yo' =>
              ((mkArena (entries a2) (gens a2) fr yo', m), Ok (index, generation))
          end
      end
  end.

(** The growing branch of [alloc]. *)
Definition alloc_grow (value : T) (yo : Vec Z) a m
  : (Arena T * MemoryMeter) * result Fault (Z * Z) :=
  let a1 := mkArena (entries a) (gens a) (free_list a) yo in
  match u32_try_from (av_len (entries a)) with
  | None => ((a1, m), Err Panic)
  | Some index =>
      let '((g, m1), grown) :=
        if av_len (gens a) <=? index then try_push U32_SIZE (gens a) m 0
        else ((gens a, m), Ok index) in
      match grown with
      | Err e => ((mkArena (entries a) g (free_list a) yo, m1), Err e)
      | Ok _ =>
          let '((es, m2), pushed) :=
            try_push entry_size (entries a) m1 (mkEntry White Young (Some value)) in
          match pushed with
          | Err e => ((mkArena es g (free_list a) yo, m2), Err e)
          | Ok _ =>
              match av_get g index with
              | None => ((mkArena es g (free_list a) yo, m2), Err Panic)
              | Some generation =>
                  match push U32_SIZE yo index with
                  | Err e => ((mkArena es g (free_list a) yo, m2), Err e)
                  | Ok yo' => ((mkArena es g (free_list a) yo', m2), Ok (index, generation))
                  end
              end
          end
      end
  end.

Definition alloc (value : T) a m : (Arena T * MemoryMeter) * result Fault (Z * Z) :=
  match try_reserve U32_SIZE (young a) 1 with
  | None => ((a, m), Err TryReserveError)
  | Some yo =>
      match pop (free_list a) with
      | (Some index, fr) => alloc_reuse value index fr yo a m
      | (None, _) => alloc_grow value yo a m
      end
  end.

Definition get a (index generation : Z) : option T :=
  if decide (av_get (gens a) index = Some generation)
  then av_get (entries a) index ≫= e_value
  else None.

(** [get_mut] followed by an update of the object it borrows. *)
Definition get_mut (f : T -> T) a (index generation : Z) : option (Arena T) :=
  match get a index generation with
  | None => None
  | Some v => Some (alter_entry (set_value (Some (f v))) index a)
  end.

Definition free (index : Z) a : result Fault (Arena T) :=
  match av_get (entries a) index with
  | None => Ok a
  | Some _ =>
      let a1 := alter_entry (set_value None) index a in
      if negb (index <? av_len (gens a)) then Err Panic
      else
        let g := av_alter (fun generation => as_u32 (generation + 1)) index (gens a) in
        let? fr := push U32_SIZE (free_list a) index in
        Ok (mkArena (entries a1) g fr (young a))
  end.

Definition arena_len a : Z := av_len (entries a).

Definition gc_live_footprint_with (payload : T -> Z) a : Z :=
  foldl (fun bytes e =>
           match e_value e with
           | Some value =>
               usize_saturating_add (usize_saturating_add bytes entry_size) (payload value)
           | None => bytes
           end) 0 (items (inner (entries a))).

Definition gc_color a (index : Z) : Color :=
  match av_get (entries a) index with Some e => e_color e | None => White end.

Definition gc_set_color (index : Z) (c : Color) a : Arena T := alter_entry (set_color c) index a.

Definition gc_age a (index : Z) : Age :=
  match av_get (entries a) index with Some e => e_age e | None => Old end.

Definition gc_set_age (index : Z) (g : Age) a : Arena T := alter_entry (set_age g) index a.

Definition gc_value a (index : Z) : option T := av_get (entries a) index ≫= e_value.

Definition gc_value_mut (f : T -> T) (index : Z) a : option (Arena T) :=
  match gc_value a index with
  | None => None
  | Some v => Some (alter_entry (set_value (Some (f v))) index a)
  end.

(** ** Sweeping

    [on_free] is the caller's closure; [S] is the state it captures. *)

Section Sweep.
Context {S : Type} (on_free : T -> S -> S).

(** Free a slot and count it. *)
Definition release (index : Z) (v : T) (st : (Arena T * S) * Z) : result Fault ((Arena T * S) * Z) :=
  let '((a, s), freed) := st in
  let s' := on_free v s in
  let? a' := free index a in
  Ok ((a', s'), freed + 1).

Definition keep (index : Z) (st : (Arena T * S) * Z) : (Arena T * S) * Z :=
  let '((a, s), freed) := st in
  ((alter_entry (fun e => mkEntry White Old (e_value e)) index a, s), freed).

Definition sweep_step (index : Z) (st : (Arena T * S) * Z) : result Fault ((Arena T * S) * Z) :=
  match av_get (entries st.1.1) index with
  | None => Ok st
  | Some e =>
      match e_value e with
      | None => Ok st
      | Some v =>
          if is_white (e_color e) then release index v st else Ok (keep index st)
      end
  end.

Definition gc_sweep_with a (s : S) : result Fault ((Arena T * S) * Z) :=
  let? st := for_each sweep_step (seqZ 0 (as_u32 (av_len (entries a)))) ((a, s), 0) in
  let '((a', s'), freed) := st in
  Ok ((mkArena (entries a') (gens a') (free_list a') (vec_clear (young a')), s'), freed).

Definition sweep_minor_step (index : Z) (st : (Arena T * S) * Z)
  : result Fault ((Arena T * S) * Z) :=
  match av_get (entries st.1.1) index with
  | None => Ok st
  | Some e =>
      match e_value e with
      | None => Ok st
      | Some v =>
          if negb (is_young (e_age e)) then Ok st
          else if is_white (e_color e) then release index v st else Ok (keep index st)
      end
  end.

Definition gc_sweep_minor_with a (s : S) : result Fault ((Arena T * S) * Z) :=
  for_each sweep_minor_step (items (young a))
    ((mkArena (entries a) (gens a) (free_list a) vec_new, s), 0).

End Sweep.

Definition gc_sweep a : result Fault (Arena T * Z) :=
  let? st := gc_sweep_with (fun _ (s : unit) => s) a tt in Ok (st.1.1, st.2).

Definition gc_sweep_minor a : result Fault (Arena T * Z) :=
  let? st := gc_sweep_minor_with (fun _ (s : unit) => s) a tt in Ok (st.1.1, st.2).

Definition gc_reset_colors a : Arena T :=
  mkArena
    (mkAccounted
       (mkVec ((fun e => if is_live e then set_color White e else e)
                 <$> items (inner (entries a)))
              (capacity (inner (entries a))))
       (charged (entries a)))
    (gens a) (free_list a) (young a).

Definition pending (e : ArenaEntry T) : bool := is_live e && is_white (e_color e).

Definition gc_pending_free_count a : Z := len (filter pending (items (inner (entries a)))).

Definition pending_minor a (index : Z) : bool :=
  match av_get (entries a) index with
  | Some e => is_live e && is_young (e_age e) && is_white (e_color e)
  | None => false
  end.

Definition gc_pending_minor_free_count a : Z := len (filter (pending_minor a) (items (young a))).

Definition with_free a (fr : Vec Z) : Arena T := mkArena (entries a) (gens a) fr (young a).

Definition gc_reserve_free a : result Fault (Arena T) :=
  match try_reserve U32_SIZE (free_list a) (gc_pending_free_count a) with
  | Some fr => Ok (with_free a fr)
  | None => Err TryReserveError
  end.

Definition gc_reserve_free_minor a : result Fault (Arena T) :=
  match try_reserve U32_SIZE (free_list a) (vec_len (young a)) with
  | Some fr => Ok (with_free a fr)
  | None => Err TryReserveError
  end.

(** ** Compaction *)

(** One past the highest live index. *)
Definition live_len (es : list (ArenaEntry T)) : Z :=
  match list_find (fun e => is_live e = true) (reverse es) with
  | Some (p, _) => len es - Z.of_nat p
  | None => 0
  end.

Definition sort_descending (l : list Z) : list Z := merge_sort descending l.

Definition gc_compact a m : Arena T * MemoryMeter :=
  let n := live_len (items (inner (entries a))) in
  let '(es, m', fr) :=
    if n <? av_len (entries a)
    then let '(es, m') := truncate entry_size (entries a) m n in
         (es, m', mkVec (filter (fun i => i < n) (items (free_list a)))
                        (capacity (free_list a)))
    else (entries a, m, free_list a) in
  (mkArena es (gens a) (mkVec (sort_descending (items fr)) (capacity fr)) (young a), m').

End Arena.
End Arena.
