(* ===== verification/ArenaFacts.v ===== *)
(** * ArenaFacts: the arena invariant and the effect of every operation

    [arena_ok] is the invariant of [arena.rs]: the generation vector covers the slots, the
    free list holds exactly the empty slots, the young list exactly the live young ones, and
    every vector's charge is its capacity. Each operation is characterised by what it does
    to [slot] and [gen]; the sweeps through one lemma, [gsweep_spec], over a list of
    distinct indices. *)

From Stdlib Require Import ZArith Lia.
From stdpp Require Import base numbers list option sorting sets.
From S2P Require Import Prelude RustVec Arena.
Import Arena.

Definition slot {T} (a : Arena T) (i : Z) : option (ArenaEntry T) := av_get (entries a) i.
Definition gen {T} (a : Arena T) (i : Z) : option Z := av_get (gens a) i.

(** The slot at [i] is occupied. *)
Definition live_at {T} (a : Arena T) (i : Z) : Prop :=
  exists e, slot a i = Some e /\ is_live e = true.

Record arena_ok {T} (entry_size : Z) (a : Arena T) : Prop := {
  ok_entries : accounted_ok entry_size (entries a);
  ok_gens : accounted_ok U32_SIZE (gens a);
  ok_cover : av_len (entries a) <= av_len (gens a) <= 4294967296;
  ok_gen_range : forall i g, gen a i = Some g -> is_u32 g;
  ok_free_nodup : NoDup (items (free_list a));
  ok_free : forall i, i ∈ items (free_list a) <-> exists e, slot a i = Some e /\ is_live e = false;
  ok_free_vec : vec_ok (free_list a);
  ok_young_nodup : NoDup (items (young a));
  ok_young : forall i, i ∈ items (young a) <->
    exists e, slot a i = Some e /\ is_live e = true /\ e_age e = Young;
  ok_young_vec : vec_ok (young a);
}.

(** ** Lookups *)

Section Lookups.
Context {T : Type}.
Implicit Types (a : Arena T).

Lemma get_Some a i g v :
  get a i g = Some v <-> gen a i = Some g /\ slot a i ≫= e_value = Some v.
Proof. unfold get, gen, slot. case_decide; naive_solver. Qed.

Lemma slot_alter a f i j :
  slot (alter_entry f i a) j = if decide (i = j) then f <$> slot a j else slot a j.
Proof. unfold slot, av_get, alter_entry. cbn. apply zget_zalter_if. Qed.

Lemma av_len_alter {A} f i (v : AccountedVec A) : av_len (av_alter f i v) = av_len v.
Proof. unfold av_len, vec_len, av_alter, vec_alter. cbn. apply len_zalter. Qed.

Lemma accounted_ok_alter {A} size f i (v : AccountedVec A) :
  accounted_ok size v -> accounted_ok size (av_alter f i v).
Proof.
  unfold accounted_ok, vec_ok. intros (H1 & H2 & H3). cbn. split; [|done].
  unfold vec_len in *. cbn. by rewrite len_zalter.
Qed.

Lemma av_get_range {A} (v : AccountedVec A) i x : av_get v i = Some x -> 0 <= i < av_len v.
Proof. intros H. apply zget_is_Some. eauto. Qed.

Lemma av_get_in_range {A} (v : AccountedVec A) i : 0 <= i < av_len v -> is_Some (av_get v i).
Proof. apply zget_is_Some. Qed.

Lemma slot_gen a i sz : arena_ok sz a -> is_Some (slot a i) -> is_Some (gen a i).
Proof.
  intros Hok [e He]. apply av_get_range in He. apply av_get_in_range.
  pose proof (ok_cover _ _ Hok). lia.
Qed.

End Lookups.

(** ** A sweep over a list of distinct indices *)

Section GenericSweep.
Context {AL : Allocator} {LAWS : AllocatorLaws AL} {T S : Type}.
Context (on_free : T -> S -> S) (touched : ArenaEntry T -> bool).
Context (touched_live : forall e, touched e = true -> is_live e = true).
Implicit Types (a : Arena T) (e : ArenaEntry T).

Definition gstep (index : Z) (st : (Arena T * S) * Z) : result Fault ((Arena T * S) * Z) :=
  match slot st.1.1 index with
  | None => Ok st
  | Some e =>
      match e_value e with
      | None => Ok st
      | Some v =>
          if negb (touched e) then Ok st
          else if is_white (e_color e) then release on_free index v st else Ok (keep index st)
      end
  end.

Definition dies (e : ArenaEntry T) : bool := touched e && is_white (e_color e).

(** What the sweep makes of a slot it visits. *)
Definition swept (e : ArenaEntry T) : ArenaEntry T :=
  if touched e then
    if is_white (e_color e) then set_value None e else mkEntry White Old (e_value e)
  else e.

Definition dies_at a (i : Z) : bool :=
  match slot a i with Some e => dies e | None => false end.

Definition dying_value a (i : Z) : option T :=
  match slot a i with Some e => if dies e then e_value e else None | None => None end.

Definition bump (g : Z) : Z := as_u32 (g + 1).

(** The static part of the arena is untouched. *)
Definition same_frame a a' : Prop :=
  charged (entries a') = charged (entries a) /\
  capacity (inner (entries a')) = capacity (inner (entries a)) /\
  av_len (entries a') = av_len (entries a) /\
  charged (gens a') = charged (gens a) /\
  capacity (inner (gens a')) = capacity (inner (gens a)) /\
  av_len (gens a') = av_len (gens a) /\
  capacity (free_list a') = capacity (free_list a) /\
  young a' = young a.

#[export] Instance same_frame_preorder : PreOrder same_frame.
Proof. unfold same_frame. split; [done|]. intros x y z. intuition congruence. Qed.

Definition sweep_effect (l : list Z) a a' : Prop :=
  (forall i, slot a' i = if decide (i ∈ l) then swept <$> slot a i else slot a i) /\
  (forall i, gen a' i = if decide (i ∈ l /\ dies_at a i = true) then bump <$> gen a i else gen a i) /\
  items (free_list a') = items (free_list a) ++ filter (fun i => dies_at a i = true) l /\
  same_frame a a'.

Lemma free_ok a i e :
  slot a i = Some e -> is_Some (gen a i) -> vec_len (free_list a) + 1 <= capacity (free_list a) ->
  free i a = Ok (mkArena (av_alter (set_value None) i (entries a)) (av_alter bump i (gens a))
                         (mkVec (items (free_list a) ++ [i]) (capacity (free_list a)))
                         (young a)).
Proof.
  unfold slot, gen. intros Hs [g Hg] Hcap. unfold free. rewrite Hs.
  apply av_get_range in Hg. rewrite (proj2 (Z.ltb_lt _ _)) by lia. cbn.
  by rewrite push_reserved.
Qed.

(** One visit. *)
Definition visit_effect (i : Z) a a' : Prop :=
  (forall j, slot a' j = if decide (j = i) then swept <$> slot a j else slot a j) /\
  (forall j, gen a' j = if decide (j = i /\ dies_at a j = true) then bump <$> gen a j else gen a j) /\
  items (free_list a') = items (free_list a) ++ (if dies_at a i then [i] else []) /\
  same_frame a a'.

Definition hook a (i : Z) (s : S) : S :=
  match dying_value a i with Some v => on_free v s | None => s end.

Lemma visit_idle i a :
  (forall e, slot a i = Some e -> swept e = e /\ dies e = false) -> visit_effect i a a.
Proof.
  intros H. assert (Hd : dies_at a i = false).
  { unfold dies_at. destruct (slot a i) as [e|]; [|done]. by apply (H e). }
  split_and!; [| |by rewrite Hd, app_nil_r|done].
  - intros j. case_decide; subst; [|done].
    destruct (slot a i) as [e|]; [|done]. cbn. by rewrite (proj1 (H e eq_refl)).
  - intros j. case_decide as Hj; [|done]. destruct Hj as [-> Hj]. congruence.
Qed.

Lemma gstep_spec i a s n :
  (is_Some (slot a i) -> is_Some (gen a i)) ->
  (dies_at a i = true -> vec_len (free_list a) + 1 <= capacity (free_list a)) ->
  exists a', gstep i ((a, s), n) = Ok ((a', hook a i s), n + if dies_at a i then 1 else 0) /\
    visit_effect i a a'.
Proof.
  intros Hgen Hcap. unfold gstep, hook, dying_value. cbn.
  destruct (slot a i) as [e|] eqn:He.
  2: { exists a. unfold dies_at. rewrite He, Z.add_0_r. split; [done|]. apply visit_idle. congruence. }
  unfold dies_at in *. rewrite He in *. unfold dies in *.
  destruct (touched e) eqn:Ht; cbn in *.
  2: { exists a. rewrite Z.add_0_r. split; [by destruct (e_value e)|]. apply visit_idle.
       rewrite He. intros ? [= <-]. unfold swept, dies. by rewrite Ht. }
  pose proof (touched_live _ Ht) as Hl. unfold is_live in Hl.
  destruct (e_value e) as [v|] eqn:Hv; [|done]. destruct (is_white (e_color e)) eqn:Hw; cbn in *.
  - (* the object dies *)
    rewrite (free_ok a i e) by auto. eexists. split; [done|]. split_and!; cbn.
    + intros j. unfold slot, av_get in *. cbn. rewrite zget_zalter_if.
      destruct (decide (i = j)); [subst|by rewrite decide_False by congruence].
      rewrite decide_True, He by done. cbn. f_equal. unfold swept. by rewrite Ht, Hw.
    + intros j. unfold gen, av_get in *. cbn. rewrite zget_zalter_if.
      destruct (decide (i = j)); [subst|by rewrite decide_False by naive_solver].
      rewrite decide_True; [done|]. split; [done|]. unfold dies_at, dies. by rewrite He, Ht, Hw.
    + unfold dies_at, dies. by rewrite He, Ht, Hw.
    + unfold same_frame. cbn. by rewrite !av_len_alter.
  - (* the object survives *)
    rewrite Z.add_0_r. eexists. split; [done|]. split_and!.
    + intros j. rewrite slot_alter. destruct (decide (i = j)); [subst|by rewrite decide_False by congruence].
      rewrite decide_True, He by done. cbn. f_equal. unfold swept. by rewrite Ht, Hw, Hv.
    + intros j. cbn. rewrite decide_False; [done|]. unfold dies_at. intros [-> Hd].
      rewrite He in Hd. unfold dies in Hd. by rewrite Ht, Hw in Hd.
    + unfold dies_at, dies. rewrite He, Ht, Hw. cbn. by rewrite app_nil_r.
    + unfold same_frame. cbn. by rewrite av_len_alter.
Qed.

Lemma dies_at_stable (l : list Z) a a1 i :
  i ∉ l -> visit_effect i a a1 ->
  filter (fun j => dies_at a1 j = true) l = filter (fun j => dies_at a j = true) l /\
  omap (dying_value a1) l = omap (dying_value a) l.
Proof.
  intros Hni (Hs & _). induction l as [|j l IH]; [done|].
  apply not_elem_of_cons in Hni as [Hij Hni]. destruct (IH Hni) as [IH1 IH2].
  assert (slot a1 j = slot a j) as Hj by (rewrite Hs, decide_False; congruence).
  rewrite !filter_cons. cbn. rewrite IH1, IH2. unfold dies_at, dying_value. rewrite Hj. done.
Qed.

Lemma visit_then_sweep i (l : list Z) a a1 a2 :
  i ∉ l -> visit_effect i a a1 -> sweep_effect l a1 a2 -> sweep_effect (i :: l) a a2.
Proof.
  intros Hni HV HS. pose proof (dies_at_stable l a a1 i Hni HV) as [Hf _].
  destruct HV as (V1 & V2 & V3 & V4), HS as (S1 & S2 & S3 & S4).
  assert (Hd : forall j, j ≠ i -> dies_at a1 j = dies_at a j).
  { intros j Hj. unfold dies_at. by rewrite V1, decide_False by done. }
  split_and!.
  - intros j. rewrite S1, V1. destruct (decide (j = i)) as [->|Hj].
    + rewrite (decide_False (P := i ∈ l)), decide_True by set_solver. done.
    + destruct (decide (j ∈ l)); [rewrite decide_True by set_solver|rewrite decide_False by set_solver]; done.
  - intros j. rewrite S2, V2. destruct (decide (j = i)) as [->|Hj].
    + rewrite (decide_False (P := i ∈ l /\ _)) by tauto. apply decide_ext. set_solver.
    + rewrite Hd, (decide_False (P := j = i /\ _)) by tauto. apply decide_ext. set_solver.
  - rewrite S3, V3, filter_cons, Hf. destruct (dies_at a i); cbn; by rewrite <- app_assoc.
  - by etrans.
Qed.

Lemma gsweep_spec (l : list Z) a s n :
  NoDup l -> (forall i, is_Some (slot a i) -> is_Some (gen a i)) ->
  vec_len (free_list a) + len (filter (fun i => dies_at a i = true) l) <= capacity (free_list a) ->
  exists a', for_each gstep l ((a, s), n) =
      Ok ((a', foldl (fun s v => on_free v s) s (omap (dying_value a) l)),
          n + len (filter (fun i => dies_at a i = true) l)) /\
    sweep_effect l a a'.
Proof.
  revert a s n. induction l as [|i l IH]; intros a s n Hnd Hgen Hcap.
  { exists a. cbn. rewrite Z.add_0_r. split; [done|]. split_and!.
    - intros j. by rewrite decide_False by set_solver.
    - intros j. rewrite decide_False by set_solver. done.
    - cbn. by rewrite app_nil_r.
    - done. }
  apply NoDup_cons in Hnd as [Hni Hnd]. rewrite filter_cons in Hcap.
  destruct (gstep_spec i a s n) as (a1 & E1 & HV); [auto| |].
  { intros Hd. rewrite decide_True, len_cons in Hcap by done.
    pose proof (len_nonneg (filter (fun i => dies_at a i = true) l)). lia. }
  pose proof (dies_at_stable l a a1 i Hni HV) as [Hf Ho].
  pose proof HV as (V1 & V2 & V3 & (_ & _ & _ & _ & _ & _ & V4 & _)).
  destruct (IH a1 (hook a i s) (n + if dies_at a i then 1 else 0)) as (a2 & E2 & HS); [done| | |].
  - intros j. rewrite V1, V2. intros Hj.
    assert (is_Some (gen a j)) as [g Hg].
    { apply Hgen. by destruct (decide (j = i)); [rewrite fmap_is_Some in Hj|]. }
    rewrite Hg. by destruct (decide (j = i /\ _)); eexists.
  - unfold vec_len in *. rewrite Hf, V3, V4, len_app. destruct (dies_at a i); cbn in *.
    + rewrite decide_True, len_cons in Hcap by done. change (len [i]) with 1. lia.
    + rewrite decide_False in Hcap by done. change (len (@nil Z)) with 0. lia.
  - exists a2. split; [|by eapply visit_then_sweep]. cbn [for_each]. rewrite E1. cbn [result_bind].
    rewrite E2, Hf, Ho, filter_cons. f_equal. f_equal.
    + f_equal. cbn. unfold hook. by destruct (dying_value a i).
    + destruct (dies_at a i); [rewrite decide_True, len_cons by done|rewrite decide_False by done]; lia.
Qed.

End GenericSweep.

(** ** The two sweeps as instances *)

Lemma for_each_ext {E X St} (f g : X -> St -> result E St) l s :
  (forall x s, f x s = g x s) -> for_each f l s = for_each g l s.
Proof.
  intros H. revert s. induction l as [|x l IH]; intros s; [done|]. cbn. rewrite H.
  destruct (g x s); cbn; auto.
Qed.

Lemma filter_ext_in {A} (P Q : A -> Prop) `{!forall x, Decision (P x)} `{!forall x, Decision (Q x)}
  (l : list A) : (forall x, x ∈ l -> P x <-> Q x) -> filter P l = filter Q l.
Proof.
  induction l as [|x l IH]; intros Hx; [done|]. rewrite !filter_cons, IH by set_solver.
  rewrite (decide_ext (P x) (Q x)); [done|]. set_solver.
Qed.

(** The indices that die are as many as the entries pending. *)
Lemma count_indices {A} (P : A -> bool) (l : list A) :
  len (filter (fun i => (match zget l i with Some e => P e | None => false end) = true)
         (seqZ 0 (len l))) = len (filter P l).
Proof.
  induction l as [|e l IH] using rev_ind; [done|].
  rewrite len_app. change (len [e]) with 1. pose proof (len_nonneg l).
  rewrite seqZ_app by lia. rewrite !filter_app, !len_app. f_equal.
  - rewrite <- IH. f_equal. apply filter_ext_in. intros i Hi.
    apply elem_of_seqZ in Hi. unfold zget. destruct (Z.ltb_spec i 0); [lia|].
    rewrite lookup_app_l; [done|]. unfold len in *. lia.
  - rewrite Z.add_0_l, seqZ_cons, seqZ_nil by lia. rewrite !filter_cons, !filter_nil.
    replace (zget (l ++ [e]) (len l)) with (Some e); [by destruct (P e)|].
    unfold len. rewrite zget_of_nat, lookup_app_r, Nat.sub_diag by lia. done.
Qed.

Section Sweeps.
Context {AL : Allocator} {LAWS : AllocatorLaws AL} {T S : Type}.
Context (on_free : T -> S -> S).
Implicit Types (a : Arena T) (e : ArenaEntry T).

Definition young_live (e : ArenaEntry T) : bool := is_live e && is_young (e_age e).

Lemma young_live_live e : young_live e = true -> is_live e = true.
Proof. unfold young_live. by destruct (is_live e). Qed.

Lemma sweep_step_gstep i st : sweep_step on_free i st = gstep on_free is_live i st.
Proof.
  destruct st as [[a s] n]. unfold sweep_step, gstep, slot, is_live. cbn.
  destruct (av_get (entries a) i) as [e|]; [|done]. by destruct (e_value e).
Qed.

Lemma sweep_minor_step_gstep i st : sweep_minor_step on_free i st = gstep on_free young_live i st.
Proof.
  destruct st as [[a s] n]. unfold sweep_minor_step, gstep, slot, young_live, is_live. cbn.
  destruct (av_get (entries a) i) as [e|]; [|done]. by destruct (e_value e).
Qed.

Lemma pending_count a :
  len (filter (fun i => dies_at is_live a i = true) (seqZ 0 (av_len (entries a)))) =
  gc_pending_free_count a.
Proof.
  unfold gc_pending_free_count. rewrite <- (count_indices pending). done.
Qed.

Definition sweep_range a : list Z := seqZ 0 (av_len (entries a)).

Lemma slot_in_range a i e : slot a i = Some e -> i ∈ sweep_range a.
Proof. intros He. apply av_get_range in He. apply elem_of_seqZ. lia. Qed.

(** *** The major sweep *)

Lemma gc_sweep_with_spec sz a s :
  arena_ok sz a -> av_len (entries a) < 4294967296 ->
  vec_len (free_list a) + gc_pending_free_count a <= capacity (free_list a) ->
  exists a', gc_sweep_with on_free a s =
      Ok ((mkArena (entries a') (gens a') (free_list a') (vec_clear (young a)),
           foldl (fun s v => on_free v s) s (omap (dying_value is_live a) (sweep_range a))),
          gc_pending_free_count a) /\
    sweep_effect is_live (sweep_range a) a a'.
Proof.
  intros Hok Hlen Hcap. unfold gc_sweep_with.
  rewrite as_u32_small by (split; [apply len_nonneg|exact Hlen]).
  rewrite (for_each_ext _ (gstep on_free is_live)) by (intros; apply sweep_step_gstep).
  destruct (gsweep_spec on_free is_live (fun _ H => H) (sweep_range a) a s 0) as (a' & E & HE).
  - apply NoDup_seqZ.
  - intros i. by apply (slot_gen a i sz).
  - unfold sweep_range. by rewrite pending_count.
  - exists a'. unfold sweep_range in *. rewrite E. cbn. rewrite pending_count.
    split; [|done]. by destruct HE as (_ & _ & _ & (_ & _ & _ & _ & _ & _ & _ & ->)).
Qed.

(** *** The minor sweep *)

Lemma gc_sweep_minor_with_spec sz a s :
  arena_ok sz a -> vec_len (free_list a) + vec_len (young a) <= capacity (free_list a) ->
  exists a', gc_sweep_minor_with on_free a s =
      Ok ((mkArena (entries a') (gens a') (free_list a') vec_new,
           foldl (fun s v => on_free v s) s (omap (dying_value young_live a) (items (young a)))),
          len (filter (fun i => dies_at young_live a i = true) (items (young a)))) /\
    sweep_effect young_live (items (young a)) a a'.
Proof.
  intros Hok Hcap. unfold gc_sweep_minor_with.
  rewrite (for_each_ext _ (gstep on_free young_live)) by (intros; apply sweep_minor_step_gstep).
  set (a0 := mkArena (entries a) (gens a) (free_list a) vec_new).
  destruct (gsweep_spec on_free young_live young_live_live (items (young a)) a0 s 0)
    as (a' & E & H1 & H2 & H3 & H4).
  - apply (ok_young_nodup _ _ Hok).
  - intros i. by apply (slot_gen a i sz).
  - transitivity (vec_len (free_list a) + vec_len (young a)); [|done].
    apply Z.add_le_mono_l. unfold vec_len, len. pose proof (length_filter (fun i => dies_at young_live a0 i = true) (items (young a))).
    lia.
  - exists (mkArena (entries a') (gens a') (free_list a') (young a)). cbn.
    rewrite E. split.
    + do 3 f_equal. destruct a' as [? ? ? y]. cbn in *.
      unfold same_frame in H4. cbn in H4. destruct H4 as (_&_&_&_&_&_&_&->). done.
    + split_and!; try done. unfold same_frame in *. cbn in *. intuition.
Qed.

End Sweeps.

(** ** The invariant after a sweep *)

Section SweepInvariant.
Context {T : Type}.
Implicit Types (a : Arena T) (e : ArenaEntry T).

Lemma frame_ok sz a a' :
  arena_ok sz a -> same_frame a a' ->
  accounted_ok sz (entries a') /\ accounted_ok U32_SIZE (gens a') /\
  av_len (entries a') <= av_len (gens a') <= 4294967296.
Proof.
  intros Hok (F1 & F2 & F3 & F4 & F5 & F6 & _).
  pose proof (ok_entries _ _ Hok) as (E1 & E2 & E3). pose proof (ok_gens _ _ Hok) as (G1 & G2 & G3).
  pose proof (ok_cover _ _ Hok). unfold accounted_ok, vec_ok, av_len in *.
  rewrite F1, F2, F3, F4, F5, F6. auto.
Qed.

Lemma swept_dead touched e :
  (forall e, touched e = true -> is_live e = true) ->
  is_live (swept touched e) = false <-> is_live e = false \/ dies touched e = true.
Proof.
  intros Ht. specialize (Ht e). unfold swept, dies, is_live, set_value in *.
  destruct (touched e), (is_white (e_color e)), (e_value e); cbn; naive_solver.
Qed.

Lemma sweep_free_ok touched sz a a' l :
  (forall e, touched e = true -> is_live e = true) ->
  arena_ok sz a -> NoDup l -> sweep_effect touched l a a' ->
  NoDup (items (free_list a')) /\
  (forall i, i ∈ items (free_list a') <-> exists e, slot a' i = Some e /\ is_live e = false).
Proof.
  intros Ht Hok Hnd (E1 & _ & E3 & _). rewrite E3. split.
  - apply NoDup_app. split_and!; [apply (ok_free_nodup _ _ Hok)| |by apply NoDup_filter].
    intros i Hi Hf. apply list_elem_of_filter in Hf as [Hd _].
    apply (ok_free _ _ Hok) in Hi as (e & He & Hl). unfold dies_at in Hd. rewrite He in Hd.
    apply andb_prop in Hd as [Hd _]. rewrite (Ht _ Hd) in Hl. done.
  - intros i. rewrite elem_of_app, list_elem_of_filter, (ok_free _ _ Hok), E1. unfold dies_at. split.
    + intros [(e & He & Hl)|[Hd Hi]].
      * rewrite He. case_decide; [|eauto]. exists (swept touched e). split; [done|].
        apply swept_dead; auto.
      * rewrite decide_True by done. destruct (slot a i) as [e|]; [|done].
        exists (swept touched e). split; [done|]. apply swept_dead; auto.
    + intros (e & He & Hl). case_decide; [|eauto].
      destruct (slot a i) as [e0|]; [|done]. cbn in He. simplify_eq.
      apply swept_dead in Hl as [Hl|Hl]; [eauto|auto|done].
Qed.

Lemma sweep_gens_ok touched sz a a' l :
  arena_ok sz a -> sweep_effect touched l a a' -> forall i g, gen a' i = Some g -> is_u32 g.
Proof.
  intros Hok (_ & E2 & _) i g. rewrite E2. case_decide; [|apply (ok_gen_range _ _ Hok)].
  destruct (gen a i); [|done]. cbn. intros [= <-]. apply as_u32_range.
Qed.

Lemma sweep_ok sz a a' :
  arena_ok sz a -> sweep_effect is_live (sweep_range a) a a' ->
  vec_len (free_list a') <= capacity (free_list a') ->
  arena_ok sz (mkArena (entries a') (gens a') (free_list a') (vec_clear (young a))).
Proof.
  intros Hok HE Hcap. pose proof HE as (E1 & E2 & E3 & F). pose proof (frame_ok _ _ _ Hok F) as (H1 & H2 & H3).
  destruct (sweep_free_ok is_live sz a a' (sweep_range a)) as [Hn Hf]; auto; [apply NoDup_seqZ|].
  split; cbn; try done.
  - by apply (sweep_gens_ok is_live sz a a' (sweep_range a)).
  - constructor.
  - intros i. split; [by intros ?%not_elem_of_nil|]. intros (e & He & Hl & Hy).
    change (slot a' i = Some e) in He. rewrite E1 in He. destruct (slot a i) as [e0|] eqn:E0.
    2: { by case_decide. }
    rewrite decide_True in He by (by eapply slot_in_range). cbn in He. simplify_eq.
    exfalso. revert Hl Hy. unfold swept, is_live, set_value.
    destruct (e_value e0) eqn:Hv; cbn; [|by rewrite Hv].
    by destruct (is_white (e_color e0)).
  - unfold vec_ok, vec_len. cbn. pose proof (ok_young_vec _ _ Hok).
    unfold vec_ok, vec_len in *. pose proof (len_nonneg (items (young a))). unfold len at 1. cbn. lia.
Qed.

Lemma sweep_minor_ok sz a a' :
  arena_ok sz a -> sweep_effect young_live (items (young a)) a a' ->
  vec_len (free_list a') <= capacity (free_list a') ->
  arena_ok sz (mkArena (entries a') (gens a') (free_list a') vec_new).
Proof.
  intros Hok HE Hcap. pose proof HE as (E1 & E2 & E3 & F). pose proof (frame_ok _ _ _ Hok F) as (H1 & H2 & H3).
  destruct (sweep_free_ok young_live sz a a' (items (young a))) as [Hn Hf];
    auto using young_live_live; [apply (ok_young_nodup _ _ Hok)|].
  split; cbn; try done.
  - by apply (sweep_gens_ok young_live sz a a' (items (young a))).
  - constructor.
  - intros i. split; [by intros ?%not_elem_of_nil|]. intros (e & He & Hl & Hy). exfalso.
    change (slot a' i = Some e) in He. rewrite E1 in He.
    case_decide as Hi; [|apply Hi, (ok_young _ _ Hok); eauto].
    apply (ok_young _ _ Hok) in Hi as (e0 & He0 & Hl0 & Hy0). rewrite He0 in He. cbn in He.
    simplify_eq. revert Hl Hy. unfold swept, young_live. rewrite Hl0, Hy0. cbn.
    by destruct (is_white (e_color e0)).
Qed.

End SweepInvariant.

(** ** Allocation *)

Section Allocation.
Context {AL : Allocator} {LAWS : AllocatorLaws AL} {T : Type} (sz : Z) (sz_pos : 0 < sz).
Implicit Types (a : Arena T) (m : MemoryMeter).

Lemma try_push_inv {A} size (v v' : AccountedVec A) m m' x r :
  0 < size -> accounted_ok size v -> try_push size v m x = ((v', m'), r) ->
  match r with
  | Ok i => i = av_len v /\ items (inner v') = items (inner v) ++ [x] /\
      accounted_ok size v' /\ charged v <= charged v' /\ m' = adjust m (charged v) (charged v')
  | Err e => e = TryReserveError /\ v' = v /\ m' = m
  end.
Proof.
  intros Hs (H1 & H2 & H3). unfold try_push.
  destruct (try_reserve size (inner v) 1) as [w|] eqn:E; [|by intros [= <- <- <-]].
  pose proof (try_reserve_items _ _ _ _ E) as Hi.
  pose proof (try_reserve_capacity _ _ _ _ Hs E) as Hc.
  pose proof (try_reserve_grows size (inner v) 1 w ltac:(done) ltac:(done)) as Hb1.
  assert (Hl : vec_len w = vec_len (inner v)) by (unfold vec_len; by rewrite Hi).
  rewrite push_reserved by lia. unfold recharge. cbn. intros [= <- <- <-]. cbn.
  split_and!; [done|by rewrite Hi| |nia|done].
  unfold accounted_ok, vec_ok, vec_len in *. cbn. rewrite len_app, Hi.
  change (len [x]) with 1. split_and!; [lia|done|nia].
Qed.

Lemma av_get_snoc {A} (v v' : AccountedVec A) x i :
  items (inner v') = items (inner v) ++ [x] ->
  av_get v' i = if decide (i = av_len v) then Some x else av_get v i.
Proof.
  intros H. unfold av_get, av_len, vec_len, zget. rewrite H.
  pose proof (len_nonneg (items (inner v))). case_decide as Hi.
  - subst i. destruct (Z.ltb_spec (len (items (inner v))) 0); [lia|]. unfold len.
    rewrite Nat2Z.id, lookup_app_r, Nat.sub_diag by lia. done.
  - destruct (Z.ltb_spec i 0); [done|].
    destruct (decide (Z.to_nat i < length (items (inner v)))%nat).
    + by rewrite lookup_app_l.
    + unfold len in *. rewrite (lookup_ge_None_2 (items (inner v))), lookup_ge_None_2;
        rewrite ?length_app; cbn; try done; lia.
Qed.

(** What a successful allocation does. *)
Definition allocated (v : T) (i g : Z) a a' : Prop :=
  gen a' i = Some g /\
  (forall j, slot a' j = if decide (j = i) then Some (mkEntry White Young (Some v)) else slot a j) /\
  ~ live_at a i /\ is_u32 i /\
  (forall j h, gen a j = Some h -> gen a' j = Some h).

(** What a failed one leaves. *)
Definition unallocated a a' : Prop :=
  (forall j, slot a' j = slot a j) /\ (forall j h, gen a j = Some h -> gen a' j = Some h).

Lemma reserve_young_ok a yo :
  arena_ok sz a -> try_reserve U32_SIZE (young a) 1 = Some yo ->
  items yo = items (young a) /\ vec_len yo + 1 <= capacity yo.
Proof.
  intros Hok E. pose proof (try_reserve_items _ _ _ _ E) as Hi. split; [done|].
  pose proof (try_reserve_capacity U32_SIZE _ _ _ ltac:(done) E). unfold vec_len in *. by rewrite Hi.
Qed.

(** Replacing the young list by one with the same items and more room. *)
Lemma ok_with_young a yo :
  arena_ok sz a -> items yo = items (young a) -> vec_ok yo ->
  arena_ok sz (mkArena (entries a) (gens a) (free_list a) yo).
Proof. intros [] Hi Hc. split; cbn; rewrite ?Hi; try done. Qed.

Lemma alloc_reuse_spec v a m yo index fr :
  arena_ok sz a -> items yo = items (young a) -> vec_len yo + 1 <= capacity yo ->
  pop (free_list a) = (Some index, fr) ->
  exists a' g, alloc_reuse v index fr yo a m = ((a', m), Ok (index, g)) /\
    arena_ok sz a' /\ allocated v index g a a' /\
    charged (entries a') = charged (entries a) /\ charged (gens a') = charged (gens a).
Proof.
  intros Hok Hyo Hcap Hpop. apply pop_Some in Hpop as [Hfr Hfc].
  assert (index ∈ items (free_list a)) as Hin by (rewrite Hfr; set_solver).
  pose proof (ok_free_nodup _ _ Hok) as Hnd. rewrite Hfr in Hnd.
  apply NoDup_app in Hnd as (Hnd & Hdis & _).
  assert (Hfresh : index ∉ items fr) by (intros ?; apply (Hdis index); set_solver).
  apply (ok_free _ _ Hok) in Hin as (e & He & Hdead).
  destruct (slot_gen a index sz Hok) as [g Hg]; [eauto|].
  unfold alloc_reuse. unfold slot in He. rewrite He. unfold gen in Hg. cbn. rewrite Hg.
  rewrite push_reserved by done.
  set (a' := mkArena (av_alter (fun _ => mkEntry White Young (Some v)) index (entries a)) (gens a)
               fr (mkVec (items yo ++ [index]) (capacity yo))).
  exists a', g. split; [done|].
  assert (HA : allocated v index g a a').
  { split_and!; [done| | | |done].
    - intros j. unfold slot, av_get. cbn. rewrite zget_zalter_if.
      unfold av_get in He. destruct (decide (index = j)); [subst|by rewrite decide_False by done].
      by rewrite He, decide_True by done.
    - intros (e' & He' & Hl'). unfold slot in He'. congruence.
    - apply av_get_range in He. pose proof (ok_cover _ _ Hok). split; lia. }
  pose proof HA as (_ & HS & _). split_and!; [|exact HA|done|done].
  split; cbn.
  - apply accounted_ok_alter, (ok_entries _ _ Hok).
  - apply (ok_gens _ _ Hok).
  - rewrite av_len_alter. apply (ok_cover _ _ Hok).
  - apply (ok_gen_range _ _ Hok).
  - done.
  - intros i. rewrite HS. destruct (decide (i = index)) as [->|Hi].
    + split; [done|]. intros (e' & [= <-] & ?). done.
    + rewrite <- (ok_free _ _ Hok), Hfr. set_solver.
  - unfold vec_ok, vec_len in *. pose proof (ok_free_vec _ _ Hok) as Hv.
    unfold vec_ok, vec_len in Hv. rewrite Hfr, len_app in Hv. change (len [index]) with 1 in Hv. lia.
  - rewrite Hyo. apply NoDup_app. split_and!; [apply (ok_young_nodup _ _ Hok)| |apply NoDup_singleton].
    intros i Hi ->%list_elem_of_singleton. apply (ok_young _ _ Hok) in Hi as (e' & He' & Hl & _).
    unfold slot in He'. congruence.
  - intros i. rewrite Hyo, elem_of_app, list_elem_of_singleton, (ok_young _ _ Hok), HS.
    destruct (decide (i = index)) as [->|Hi].
    + split; [intros _; eexists; done|]. auto.
    + naive_solver.
  - unfold vec_ok, vec_len in *. cbn. rewrite len_app. change (len [index]) with 1. lia.
Qed.

(** The generation slot of a growing arena: present before, or pushed with generation 0. *)
Lemma grow_gens_spec a m g m1 r :
  arena_ok sz a -> is_u32 (av_len (entries a)) ->
  (if av_len (gens a) <=? av_len (entries a) then try_push U32_SIZE (gens a) m 0
   else ((gens a, m), Ok (av_len (entries a)))) = ((g, m1), r) ->
  accounted_ok U32_SIZE g /\ av_len (gens a) <= av_len g <= 4294967296 /\
  (forall j h, gen a j = Some h -> av_get g j = Some h) /\
  (forall j h, av_get g j = Some h -> is_u32 h) /\
  match r with
  | Ok _ => av_len (entries a) < av_len g
  | Err e => e = TryReserveError
  end.
Proof.
  intros Hok Hu E. pose proof (ok_cover _ _ Hok) as Hcov.
  pose proof (ok_gens _ _ Hok) as Hacc. pose proof (ok_gen_range _ _ Hok) as Hrange.
  destruct (Z.leb_spec (av_len (gens a)) (av_len (entries a))) as [Hle|Hlt].
  2: { injection E as <- <- <-. split_and!; auto; lia. }
  apply try_push_inv in E; [|done|done]. destruct r as [i|e].
  - destruct E as (-> & Hi & Hok' & _). unfold av_len, vec_len in *. rewrite Hi, len_app.
    change (len [0]) with 1. destruct Hu. split_and!; try done; try lia.
    + intros j h Hj. rewrite (av_get_snoc _ _ _ _ Hi), decide_False; [done|].
      apply av_get_range in Hj. unfold av_len, vec_len in *. lia.
    + intros j h. rewrite (av_get_snoc _ _ _ _ Hi). case_decide; [|apply Hrange].
      intros [= <-]. split; lia.
  - destruct E as (-> & -> & _). split_and!; auto; lia.
Qed.

Lemma unallocated_ok a g yo :
  arena_ok sz a -> items yo = items (young a) -> vec_ok yo ->
  accounted_ok U32_SIZE g -> av_len (gens a) <= av_len g <= 4294967296 ->
  (forall j h, av_get g j = Some h -> is_u32 h) ->
  arena_ok sz (mkArena (entries a) g (free_list a) yo).
Proof.
  intros [] Hi Hc Hg Hl Hr. split; cbn; rewrite ?Hi; try done. lia.
Qed.

Lemma alloc_grow_spec v a m yo :
  arena_ok sz a -> items yo = items (young a) -> vec_len yo + 1 <= capacity yo ->
  items (free_list a) = [] ->
  exists a' m' r, alloc_grow sz v yo a m = ((a', m'), r) /\ arena_ok sz a' /\
    match r with
    | Ok (i, g) => allocated v i g a a'
    | Err e => unallocated a a' /\
        (e = TryReserveError \/ e = Panic /\ av_len (entries a) = 4294967296)
    end.
Proof.
  intros Hok Hyo Hcap Hfree. pose proof (ok_cover _ _ Hok) as Hcov.
  assert (Hyv : vec_ok yo) by (unfold vec_ok; lia).
  unfold alloc_grow, u32_try_from.
  assert (0 <= av_len (entries a)) by apply len_nonneg.
  rewrite (proj2 (Z.leb_le 0 _)) by done. cbn [andb].
  destruct (Z.ltb_spec (av_len (entries a)) 4294967296) as [Hu|Hu].
  2: { do 3 eexists. split; [done|]. split; [by apply ok_with_young|]. split; [done|]. right. split; [done|lia]. }
  destruct (if _ <=? _ then _ else _) as [[g m1] r1] eqn:Eg.
  apply grow_gens_spec in Eg as (Hga & Hgl & Hext & Hgr & Hr1); [|done|by split].
  destruct r1 as [i|e].
  2: { do 3 eexists. split; [done|]. split; [by apply unallocated_ok|]. split; [by split|auto]. }
  destruct (try_push sz (entries a) m1 _) as [[es m2] r2] eqn:Ee.
  apply try_push_inv in Ee; [|done|apply (ok_entries _ _ Hok)]. destruct r2 as [i2|e].
  2: { destruct Ee as (-> & -> & ->). do 3 eexists. split; [done|].
       split; [by apply unallocated_ok|]. split; [by split|auto]. }
  destruct Ee as (_ & Hes & Hea & _ & _).
  destruct (av_get_in_range g (av_len (entries a))) as [h Hh]; [lia|]. rewrite Hh.
  rewrite push_reserved by done.
  set (a' := mkArena es g (free_list a) (mkVec (items yo ++ [av_len (entries a)]) (capacity yo))).
  exists a', m2. eexists. split; [done|].
  assert (HS : forall j, slot a' j = if decide (j = av_len (entries a))
    then Some (mkEntry White Young (Some v)) else slot a j) by (intros; by apply av_get_snoc).
  assert (Hnone : slot a (av_len (entries a)) = None).
  { destruct (slot a _) eqn:E; [|done]. apply av_get_range in E. lia. }
  split.
  - assert (Hlen : av_len es = av_len (entries a) + 1).
    { unfold av_len, vec_len. by rewrite Hes, len_app. }
    split; try done.
    + cbn. lia.
    + apply (ok_free_nodup _ _ Hok).
    + intros i'. cbn. rewrite HS, (ok_free _ _ Hok).
      destruct (decide (i' = av_len (entries a))) as [->|]; [|done].
      rewrite Hnone. naive_solver.
    + apply (ok_free_vec _ _ Hok).
    + cbn. rewrite Hyo. apply NoDup_app.
      split_and!; [apply (ok_young_nodup _ _ Hok)| |apply NoDup_singleton].
      intros i' Hi' ->%list_elem_of_singleton. apply (ok_young _ _ Hok) in Hi' as (e' & He' & _). congruence.
    + intros i'. cbn. rewrite Hyo, elem_of_app, list_elem_of_singleton, (ok_young _ _ Hok), HS.
      destruct (decide (i' = av_len (entries a))) as [->|]; [|naive_solver].
      split; [intros _; by eexists|auto].
    + unfold vec_ok, vec_len in *. cbn. rewrite len_app. change (len [_]) with 1. lia.
  - split_and!; try done. intros (e' & He' & _). congruence.
Qed.

(** *** Allocation as a whole *)
Lemma alloc_spec v a m :
  arena_ok sz a ->
  exists a' m' r, alloc sz v a m = ((a', m'), r) /\ arena_ok sz a' /\
    match r with
    | Ok (i, g) => allocated v i g a a'
    | Err e => unallocated a a' /\
        (e = TryReserveError \/ e = Panic /\ av_len (entries a) = 4294967296)
    end.
Proof.
  intros Hok. unfold alloc. destruct (try_reserve U32_SIZE (young a) 1) as [yo|] eqn:E.
  2: { do 3 eexists. split; [done|]. split; [done|]. split; [done|auto]. }
  apply (reserve_young_ok a) in E as [Hi Hc]; [|done].
  destruct (pop (free_list a)) as [[index|] fr] eqn:Ep.
  - destruct (alloc_reuse_spec v a m yo index fr) as (a' & g & -> & Hok' & HA & _); [done..|].
    do 3 eexists. split; [done|]. done.
  - apply pop_None in Ep as [Hn _]. by apply alloc_grow_spec.
Qed.

End Allocation.

(** ** Compaction and the small operations *)

Section Compaction.
Context {AL : Allocator} {LAWS : AllocatorLaws AL} {T : Type} (sz : Z) (sz_pos : 0 < sz).
Implicit Types (a : Arena T) (m : MemoryMeter).

Lemma live_len_spec (es : list (ArenaEntry T)) :
  0 <= live_len es <= len es /\
  (forall i e, zget es i = Some e -> is_live e = true -> i < live_len es).
Proof.
  unfold live_len. destruct (list_find _ (reverse es)) as [[p e]|] eqn:E.
  - apply list_find_Some in E as (Hp & Hl & Hall).
    pose proof (lookup_lt_Some _ _ _ Hp) as Hlt. rewrite length_reverse in Hlt.
    unfold len. split; [lia|]. intros i e' Hi Hl'. apply zget_Some in Hi as [Hi He'].
    destruct (decide (i < Z.of_nat (length es) - Z.of_nat p)); [done|].
    pose proof (lookup_lt_Some _ _ _ He'). exfalso.
    apply (Hall (length es - S (Z.to_nat i))%nat e'); [|lia|done].
    rewrite reverse_lookup by lia. rewrite <- He'. f_equal. lia.
  - apply list_find_None in E. split; [pose proof (len_nonneg es); lia|].
    intros i e Hi Hl. apply zget_Some in Hi as [_ Hi].
    rewrite Forall_forall in E. exfalso. apply (E e); [|done].
    apply elem_of_reverse. by eapply list_elem_of_lookup_2.
Qed.

Lemma truncate_spec {A} size (v v' : AccountedVec A) m m' n :
  0 < size -> 0 <= n < av_len v -> accounted_ok size v -> truncate size v m n = (v', m') ->
  accounted_ok size v' /\ av_len v' = n /\
  (forall i, av_get v' i = if decide (i < n) then av_get v i else None) /\
  m' = adjust m (charged v) (charged v') /\ charged v' <= charged v.
Proof.
  intros Hs Hn (H1 & H2 & H3). unfold truncate. rewrite (proj2 (Z.ltb_lt _ _)) by lia.
  unfold recharge. cbn. intros [= <- <-]. unfold av_len, vec_len in *.
  assert (Hlen : len (take (Z.to_nat n) (items (inner v))) = n).
  { unfold len in *. rewrite length_take. lia. }
  unfold vec_ok, vec_len in H1.
  destruct (shrink_spec size n (capacity (inner v))) as [Hc1 Hc2]; [lia|].
  unfold accounted_ok, vec_ok, vec_len. cbn. unfold vec_len. cbn. rewrite Hlen.
  split_and!; [lia|done|nia|done| |done|nia].
  intros i. apply zget_take. lia.
Qed.

Lemma sort_descending_permutation l : sort_descending l ≡ₚ l.
Proof. apply merge_sort_Permutation. Qed.

Lemma gc_compact_spec a m :
  arena_ok sz a ->
  exists a' m', gc_compact sz a m = (a', m') /\ arena_ok sz a' /\
    gens a' = gens a /\ young a' = young a /\
    (forall i e, slot a i = Some e -> is_live e = true -> slot a' i = Some e) /\
    (forall i e, slot a' i = Some e -> slot a i = Some e) /\
    av_len (entries a') = live_len (items (inner (entries a))) /\
    charged (entries a') <= charged (entries a) /\
    (m' = adjust m (charged (entries a)) (charged (entries a')) \/ m' = m /\ entries a' = entries a).
Proof.
  intros Hok. unfold gc_compact.
  destruct (live_len_spec (items (inner (entries a)))) as [Hn Hlive].
  set (n := live_len (items (inner (entries a)))) in *.
  assert (Hlive' : forall i e, slot a i = Some e -> is_live e = true -> i < n) by (intros; by eapply Hlive).
  destruct (Z.ltb_spec n (av_len (entries a))) as [Hlt|Hge].
  - destruct (truncate sz (entries a) m n) as [es m'] eqn:E.
    apply truncate_spec in E as (Hacc & Hlen & Hget & -> & Hch); [|done|lia|apply (ok_entries _ _ Hok)].
    set (a' := mkArena es (gens a) _ (young a)). exists a'. eexists. split; [done|].
    assert (HS : forall i, slot a' i = if decide (i < n) then slot a i else None) by (intros; apply Hget).
    pose proof (ok_cover _ _ Hok) as Hcov. split.
    { split; try apply Hok; try done; cbn.
      - lia.
      - rewrite sort_descending_permutation. apply NoDup_filter, (ok_free_nodup _ _ Hok).
      - intros i. rewrite HS, (elem_of_Permutation_proper i _ _ (sort_descending_permutation _)).
        cbn. rewrite list_elem_of_filter, (ok_free _ _ Hok). case_decide; naive_solver.
      - pose proof (ok_free_vec _ _ Hok) as Hv. unfold vec_ok, vec_len, len in *. cbn.
        rewrite sort_descending_permutation. etrans; [|done]. apply inj_le, length_filter.
      - intros i. rewrite HS, (ok_young _ _ Hok). case_decide; [done|].
        split; [intros (e & He & Hl & _)|naive_solver]. specialize (Hlive' _ _ He Hl). lia. }
    split_and!; try done; [| |by left].
    + intros i e He Hl. rewrite HS, decide_True; eauto.
    + intros i e. rewrite HS. by case_decide.
  - set (a' := mkArena (entries a) (gens a) _ (young a)). exists a', m. split; [done|]. split.
    { split; try apply Hok; try done; cbn.
      - rewrite sort_descending_permutation. apply (ok_free_nodup _ _ Hok).
      - intros i. rewrite (elem_of_Permutation_proper i _ _ (sort_descending_permutation _)).
        apply (ok_free _ _ Hok).
      - pose proof (ok_free_vec _ _ Hok) as Hv. unfold vec_ok, vec_len, len in *. cbn.
        by rewrite sort_descending_permutation. }
    split_and!; try done; [|by right]. cbn. unfold av_len, vec_len in *. fold n. lia.
Qed.

(** The compacted free list is ascending from its end, so [alloc] reuses the lowest index. *)
#[local] Instance descending_total : Total descending.
Proof. intros x y. unfold descending. lia. Qed.

Lemma gc_compact_sorted a m : Sorted descending (items (free_list (gc_compact sz a m).1)).
Proof.
  unfold gc_compact. destruct (_ <? _); [destruct (truncate _ _ _ _)|]; cbn;
    apply Sorted_merge_sort, _.
Qed.

(** Operations that only rewrite entries keeping occupancy and youth. *)
Definition entry_preserving (e e' : ArenaEntry T) : Prop :=
  is_live e' = is_live e /\ (is_live e = true -> e_age e' = Young <-> e_age e = Young).

Lemma pointwise_ok a es' :
  arena_ok sz a -> accounted_ok sz es' -> av_len es' = av_len (entries a) ->
  (forall i, option_relation entry_preserving (fun _ => False) (fun _ => False) (slot a i) (av_get es' i)) ->
  arena_ok sz (mkArena es' (gens a) (free_list a) (young a)).
Proof.
  intros Hok Hacc Hlen Hpt. pose proof (ok_cover _ _ Hok) as Hcov.
  split; try apply Hok; try done; cbn; [lia| |];
    intros i; rewrite ?(ok_free _ _ Hok), ?(ok_young _ _ Hok); specialize (Hpt i);
    unfold slot at 2; cbn; destruct (slot a i) as [e|], (av_get es' i) as [e'|]; try done;
    try destruct Hpt; naive_solver.
Qed.

Lemma alter_entry_ok a f i :
  arena_ok sz a -> (forall e, slot a i = Some e -> entry_preserving e (f e)) ->
  arena_ok sz (alter_entry f i a).
Proof.
  intros Hok Hf. apply pointwise_ok; [done| | |].
  - apply accounted_ok_alter, (ok_entries _ _ Hok).
  - apply av_len_alter.
  - intros j. pose proof (slot_alter a f i j) as Hs. unfold slot in Hs at 1. cbn in Hs. rewrite Hs.
    destruct (decide (i = j)); subst; destruct (slot a j) as [e|]; cbn; try done. by apply Hf.
Qed.

Lemma slot_reset_colors a i :
  slot (gc_reset_colors a) i = (fun e => if is_live e then set_color White e else e) <$> slot a i.
Proof.
  unfold slot, av_get, zget. cbn. case_match; [done|]. by rewrite list_lookup_fmap.
Qed.

Lemma gc_reset_colors_ok a : arena_ok sz a -> arena_ok sz (gc_reset_colors a).
Proof.
  intros Hok. apply pointwise_ok; [done| | |].
  - destruct (ok_entries _ _ Hok) as (H1 & H2 & H3). unfold accounted_ok, vec_ok, vec_len, len in *.
    cbn. by rewrite length_fmap.
  - unfold av_len, vec_len, len. cbn. by rewrite length_fmap.
  - intros i. pose proof (slot_reset_colors a i) as Hs. unfold slot in Hs at 1. cbn in Hs. rewrite Hs.
    destruct (slot a i) as [e|]; [|done]. cbn. by destruct (is_live e) eqn:E.
Qed.

Lemma reserve_free_ok a n fr :
  0 <= n -> arena_ok sz a -> try_reserve U32_SIZE (free_list a) n = Some fr ->
  arena_ok sz (with_free a fr) /\ vec_len fr + n <= capacity fr /\ items fr = items (free_list a).
Proof.
  intros Hn Hok E. pose proof (try_reserve_items _ _ _ _ E) as Hi.
  pose proof (try_reserve_capacity U32_SIZE _ _ _ ltac:(done) E) as Hc.
  assert (vec_len fr + n <= capacity fr) as Hcap by (unfold vec_len in *; by rewrite Hi).
  split_and!; [|done|done]. destruct Hok. split; cbn; rewrite ?Hi; try done. unfold vec_ok. lia.
Qed.

End Compaction.
