(* ===== verification/ArenaTheorems.v ===== *)
(** * ArenaTheorems: what the arenas promise the heap

    The arena as a state machine ([arena_step]: every operation, under any lawful
    allocator, with its failures), its invariant on every reachable state, the meaning of
    handles under allocation, the exactness of the sweep, and the safety of stale handles
    over any interleaving of fewer than 2^32 operations. *)

From Stdlib Require Import ZArith Lia.
From stdpp Require Import base numbers list option relations sets.
From S2P Require Import Prelude RustVec Arena ArenaFacts.
Import Arena.

Section Machine.
Context {T : Type} (sz : Z).

(** The closure the collector passes to a sweep: release the object's footprint. *)
Definition release_footprint (footprint : T -> Z) (v : T) (m : MemoryMeter) : MemoryMeter :=
  adjust m (footprint v) 0.

(** One operation. A collection reserves the free list before it sweeps; the ages the
    collector and the write barrier set are the two old ones. A panic or an abort ends the
    process and is no step. *)
Inductive arena_step : Arena T * MemoryMeter -> Arena T * MemoryMeter -> Prop :=
| step_alloc AL (_ : AllocatorLaws AL) v a m a' m' r :
    alloc sz v a m = ((a', m'), r) -> r <> Err Panic -> r <> Err AllocAbort ->
    arena_step (a, m) (a', m')
| step_get_mut f i g a m a' :
    get_mut f a i g = Some a' -> arena_step (a, m) (a', m)
| step_set_color i c a m : arena_step (a, m) (gc_set_color i c a, m)
| step_set_age i g a m :
    gc_age a i <> Young -> g <> Young -> arena_step (a, m) (gc_set_age i g a, m)
| step_reset_colors a m : arena_step (a, m) (gc_reset_colors a, m)
| step_sweep AL (_ : AllocatorLaws AL) footprint a m a1 a' m' freed :
    av_len (entries a) < 4294967296 -> gc_reserve_free a = Ok a1 ->
    gc_sweep_with (release_footprint footprint) a1 m = Ok ((a', m'), freed) ->
    arena_step (a, m) (a', m')
| step_sweep_minor AL (_ : AllocatorLaws AL) footprint a m a1 a' m' freed :
    gc_reserve_free_minor a = Ok a1 ->
    gc_sweep_minor_with (release_footprint footprint) a1 m = Ok ((a', m'), freed) ->
    arena_step (a, m) (a', m')
| step_compact AL (_ : AllocatorLaws AL) a m :
    arena_step (a, m) (gc_compact sz a m).

End Machine.

Lemma get_live {T} (a : Arena T) i g v : get a i g = Some v -> live_at a i.
Proof.
  intros [_ Hv]%get_Some. destruct (slot a i) as [e|] eqn:E; [|done]. exists e. split; [done|].
  cbn in Hv. unfold is_live. by rewrite Hv.
Qed.

Lemma live_get {T} (a : Arena T) i g : gen a i = Some g -> live_at a i -> is_Some (get a i g).
Proof.
  intros Hg (e & He & Hl). unfold is_live in Hl. destruct (e_value e) as [v|] eqn:Hv; [|done].
  exists v. apply get_Some. split; [done|]. by rewrite He.
Qed.

Section Invariant.
Context {T : Type} (sz : Z) (sz_pos : 0 < sz).
Implicit Types (a : Arena T) (m : MemoryMeter).

(** What a step may do to the generation of an index: keep it and the slot's occupant, or
    advance it by one, modulo 2^32. *)
Definition gens_advance a a' : Prop :=
  forall i g, gen a i = Some g ->
    gen a' i = Some g /\ (live_at a i -> live_at a' i) \/ gen a' i = Some (bump g).

Lemma new_ok : arena_ok sz (new (T := T)).
Proof.
  split; cbn; try apply NoDup_nil_2; try done.
  - intros i g H. unfold gen, av_get, zget in H. cbn in H. case_match; [done|]. by rewrite lookup_nil in H.
  - intros i. rewrite elem_of_nil. split; [done|]. intros (e & He & _). unfold slot, av_get, zget in He.
    cbn in He. case_match; [done|]. by rewrite lookup_nil in He.
  - intros i. rewrite elem_of_nil. split; [done|]. intros (e & He & _). unfold slot, av_get, zget in He.
    cbn in He. case_match; [done|]. by rewrite lookup_nil in He.
Qed.

Lemma alter_advance f i a : (forall e, is_live (f e) = is_live e) -> gens_advance a (alter_entry f i a).
Proof.
  intros Hf j g Hg. left. split; [done|]. intros (e & He & Hl). unfold live_at.
  rewrite slot_alter, He. case_decide; [|eauto]. exists (f e). by rewrite Hf.
Qed.

Lemma alter_value_advance v w i a :
  slot a i ≫= e_value = Some w -> gens_advance a (alter_entry (set_value (Some v)) i a).
Proof.
  intros Hw j g Hg. left. split; [done|]. intros (e & He & Hl). unfold live_at.
  rewrite slot_alter, He. case_decide; [|eauto]. eexists. by split.
Qed.

Lemma sweep_advance touched l a a' :
  (forall e, touched e = true -> is_live e = true) ->
  sweep_effect touched l a a' -> gens_advance a a'.
Proof.
  intros Ht (E1 & E2 & _) i g Hg. rewrite E2, Hg. case_decide as Hd; [by right|].
  left. split; [done|]. intros (e & He & Hl). unfold live_at. rewrite E1, He.
  case_decide; [|eauto]. exists (swept touched e). split; [done|].
  destruct (is_live (swept touched e)) eqn:E; [done|]. apply swept_dead in E; [|done].
  destruct E as [E|E]; [congruence|]. exfalso. apply Hd. split; [done|].
  unfold dies_at. by rewrite He.
Qed.

Lemma sweep_capacity touched l a a' n :
  sweep_effect touched l a a' -> len (filter (fun i => dies_at touched a i = true) l) <= n ->
  vec_len (free_list a) + n <= capacity (free_list a) ->
  vec_len (free_list a') <= capacity (free_list a').
Proof.
  intros (_ & _ & E3 & (_ & _ & _ & _ & _ & _ & Hc & _)) Hn Hcap.
  unfold vec_len in *. rewrite E3, Hc, len_app. lia.
Qed.

(** The reservation of a major collection covers its sweep. *)
Lemma reserve_then_sweep {AL : Allocator} {LAWS : AllocatorLaws AL} {S} (on_free : T -> S -> S) a a1 s :
  arena_ok sz a -> av_len (entries a) < 4294967296 -> gc_reserve_free a = Ok a1 ->
  exists a', gc_sweep_with on_free a1 s =
      Ok ((mkArena (entries a') (gens a') (free_list a') (vec_clear (young a)),
           foldl (fun s v => on_free v s) s (omap (dying_value is_live a) (sweep_range a))),
          gc_pending_free_count a) /\
    sweep_effect is_live (sweep_range a) a1 a' /\
    capacity (free_list a') = capacity (free_list a1) /\
    arena_ok sz a1 /\ (forall i, slot a1 i = slot a i) /\ (forall i, gen a1 i = gen a i) /\
    arena_ok sz (mkArena (entries a') (gens a') (free_list a') (vec_clear (young a))).
Proof.
  intros Hok Hlen Hr. unfold gc_reserve_free in Hr.
  destruct (try_reserve _ _ _) as [fr|] eqn:E; [|done]. injection Hr as <-.
  destruct (reserve_free_ok sz a (gc_pending_free_count a) fr) as (Hok1 & Hcap & Hi);
    [apply len_nonneg|done|done|].
  destruct (gc_sweep_with_spec on_free sz (with_free a fr) s) as (a' & Es & HE); [done|done|done|].
  exists a'. split_and!; try done.
  - by destruct HE as (_ & _ & _ & (_ & _ & _ & _ & _ & _ & ? & _)).
  - apply (sweep_ok sz (with_free a fr)); [done|done|].
    eapply sweep_capacity; [done| |apply Hcap]. unfold sweep_range. by rewrite pending_count.
Qed.

Lemma reserve_then_sweep_minor {AL : Allocator} {LAWS : AllocatorLaws AL} {S} (on_free : T -> S -> S) a a1 s :
  arena_ok sz a -> gc_reserve_free_minor a = Ok a1 ->
  exists a', gc_sweep_minor_with on_free a1 s =
      Ok ((mkArena (entries a') (gens a') (free_list a') vec_new,
           foldl (fun s v => on_free v s) s (omap (dying_value young_live a) (items (young a)))),
          len (filter (fun i => dies_at young_live a i = true) (items (young a)))) /\
    sweep_effect young_live (items (young a)) a1 a' /\
    capacity (free_list a') = capacity (free_list a1) /\
    arena_ok sz a1 /\ (forall i, slot a1 i = slot a i) /\ (forall i, gen a1 i = gen a i) /\
    arena_ok sz (mkArena (entries a') (gens a') (free_list a') vec_new).
Proof.
  intros Hok Hr. unfold gc_reserve_free_minor in Hr.
  destruct (try_reserve _ _ _) as [fr|] eqn:E; [|done]. injection Hr as <-.
  destruct (reserve_free_ok sz a (vec_len (young a)) fr) as (Hok1 & Hcap & Hi);
    [apply len_nonneg|done|done|].
  destruct (gc_sweep_minor_with_spec on_free sz (with_free a fr) s) as (a' & Es & HE); [done|done|].
  exists a'. split_and!; try done.
  - by destruct HE as (_ & _ & _ & (_ & _ & _ & _ & _ & _ & ? & _)).
  - apply (sweep_minor_ok sz (with_free a fr)); [done|done|].
    eapply sweep_capacity; [done| |apply Hcap]. apply inj_le, length_filter.
Qed.

Lemma arena_step_ok (st st' : Arena T * MemoryMeter) :
  arena_ok sz st.1 -> arena_step sz st st' -> arena_ok sz st'.1 /\ gens_advance st.1 st'.1.
Proof.
  intros Hok Hstep. destruct Hstep as
    [AL LAWS v a m a' m' r E Hp Ha|f i g a m a' E|i c a m|i g a m H1 H2|a m
    |AL LAWS fp a m a1 a' m' n Hl Hr E|AL LAWS fp a m a1 a' m' n Hr E|AL LAWS a m]; cbn in *.
  - destruct (alloc_spec sz sz_pos v a m Hok) as (a2 & m2 & r2 & E2 & Hok2 & Hr2).
    rewrite E in E2. injection E2 as <- <- <-. split; [done|]. intros j h Hh. left.
    destruct r as [[i g]|e].
    + destruct Hr2 as (_ & HS & _ & _ & Hext). split; [auto|]. intros (e & He & Hl).
      unfold live_at. rewrite HS. case_decide; [by eexists|eauto].
    + destruct Hr2 as [[HS Hext] _]. split; [auto|]. unfold live_at. by rewrite HS.
  - unfold get_mut in E. destruct (get a i g) as [v|] eqn:Eg; [|done]. injection E as <-.
    apply get_Some in Eg as [_ Eg]. split; [|by eapply alter_value_advance].
    apply alter_entry_ok; [done|]. intros e He. rewrite He in Eg. cbn in Eg.
    unfold entry_preserving, is_live. by rewrite Eg.
  - split; [apply alter_entry_ok; [done|]; by intros|]. by apply alter_advance.
  - split; [|by apply alter_advance]. apply alter_entry_ok; [done|].
    intros e He. unfold gc_age in H1. unfold slot in He. rewrite He in H1. by split.
  - split; [by apply gc_reset_colors_ok|]. intros j h Hh. left. split; [done|].
    intros (e & He & Hl'). unfold live_at. rewrite slot_reset_colors, He. cbn.
    rewrite Hl'. by eexists.
  - destruct (reserve_then_sweep (release_footprint fp) a a1 m) as (a2 & E2 & HE & _ & _ & HS & HG & Hok2); [done..|].
    rewrite E in E2. injection E2 as -> _ _. split; [done|].
    pose proof (sweep_advance is_live _ a1 a2 (fun _ H => H) HE) as Hadv.
    intros j h Hh. rewrite <- HG in Hh. unfold live_at. rewrite <- HS. exact (Hadv j h Hh).
  - destruct (reserve_then_sweep_minor (release_footprint fp) a a1 m) as (a2 & E2 & HE & _ & _ & HS & HG & Hok2); [done..|].
    rewrite E in E2. injection E2 as -> _ _. split; [done|].
    pose proof (sweep_advance young_live _ a1 a2 young_live_live HE) as Hadv.
    intros j h Hh. rewrite <- HG in Hh. unfold live_at. rewrite <- HS. exact (Hadv j h Hh).
  - destruct (gc_compact_spec sz sz_pos a m Hok) as (a' & m' & E & Hok' & Hg & _ & Hlive & _).
    rewrite E. cbn. split; [done|]. intros j h Hh. left. unfold gen. rewrite Hg. split; [done|].
    intros (e & He & Hl). exists e. auto.
Qed.

Lemma arena_steps_ok n (st st' : Arena T * MemoryMeter) :
  arena_ok sz st.1 -> nsteps (arena_step sz) n st st' -> arena_ok sz st'.1.
Proof.
  intros Hok Hn. induction Hn as [|n st s1 s2 Hs _ IH]; [done|].
  apply IH. by apply (arena_step_ok st s1).
Qed.

(** The generation of an index after [n] steps: [k <= n] bumps, none only if the occupant
    stayed. *)
Lemma gens_after n (st st' : Arena T * MemoryMeter) i g :
  arena_ok sz st.1 -> nsteps (arena_step sz) n st st' -> gen st.1 i = Some g ->
  exists k, 0 <= k <= Z.of_nat n /\ gen st'.1 i = Some (as_u32 (g + k)) /\
    (k = 0 -> live_at st.1 i -> live_at st'.1 i).
Proof.
  intros Hok Hn. revert g. induction Hn as [st|n st s1 s2 Hs Hn IH]; intros g Hg.
  - exists 0. rewrite Z.add_0_r, as_u32_small by (by eapply ok_gen_range). split_and!; auto; lia.
  - destruct (arena_step_ok st s1 Hok Hs) as [Hok1 Hadv].
    destruct (Hadv i g Hg) as [[Hg1 Hl]|Hg1].
    + destruct (IH Hok1 g Hg1) as (k & Hk & Hk2 & Hk3). exists k. split_and!; [lia|lia|done|auto].
    + destruct (IH Hok1 _ Hg1) as (k & Hk & Hk2 & Hk3). exists (k + 1). split_and!; [lia|lia| |lia].
      rewrite Hk2. f_equal. unfold bump, as_u32. rewrite Zplus_mod_idemp_l. f_equal. lia.
Qed.

End Invariant.

(** ** Reachable arenas *)

(** Every arena reachable from the empty one by allocations (successful or refused),
    object updates, color and age changes, sweeps of either kind, color resets and
    compactions satisfies the invariant: the generation vector covers the slots, the free
    list holds each empty slot exactly once and nothing else, the young list each live
    young slot exactly once and nothing else, and each metered vector's charge is its
    capacity in bytes. *)
Theorem arena_invariant {T : Type} (sz : Z) (m : MemoryMeter) (st : Arena T * MemoryMeter) :
  0 < sz -> rtc (arena_step sz) (new, m) st -> arena_ok sz st.1.
Proof.
  intros Hs Hr. apply rtc_nsteps_1 in Hr as [n Hn].
  eapply arena_steps_ok; [done| |done]. by apply new_ok.
Qed.

(** ** Stale handles *)

(** C11: a handle that has died never names an object again. If the handle [(i, g)] was
    live, and was dead after [n1] further operations, it is dead after any [n2] more,
    however slots are swept, truncated, regrown and reused, as long as the operations are
    fewer than 2^32 in all (the generation is a [u32] and advances at most once per
    operation). *)
Theorem stale_handle_never_aliases {T : Type} (sz : Z) n1 n2 (st0 st1 st2 : Arena T * MemoryMeter) i g v :
  0 < sz -> arena_ok sz st0.1 -> get st0.1 i g = Some v ->
  nsteps (arena_step sz) n1 st0 st1 -> get st1.1 i g = None ->
  nsteps (arena_step sz) n2 st1 st2 -> Z.of_nat n1 + Z.of_nat n2 < 4294967296 ->
  get st2.1 i g = None.
Proof.
  intros Hs Hok Hv H1 Hdead H2 Hn. pose proof (get_live _ _ _ _ Hv) as Hlive.
  apply get_Some in Hv as [Hg Hv].
  assert (Hu : is_u32 g) by (by eapply ok_gen_range).
  assert (Hok1 : arena_ok sz st1.1) by (by eapply arena_steps_ok).
  destruct (gens_after sz Hs n1 st0 st1 i g Hok H1 Hg) as (k1 & Hk1 & Hg1 & Hl1).
  destruct (gens_after sz Hs n2 st1 st2 i _ Hok1 H2 Hg1) as (k2 & Hk2 & Hg2 & _).
  assert (k1 <> 0).
  { intros ->. rewrite Z.add_0_r, as_u32_small in Hg1 by done.
    destruct (live_get _ _ _ Hg1 (Hl1 eq_refl Hlive)). congruence. }
  unfold get. unfold gen in Hg2. rewrite Hg2, decide_False; [done|]. intros [= E].
  unfold as_u32 in E. rewrite Zplus_mod_idemp_l in E. unfold is_u32 in Hu.
  revert E. replace (g + k1 + k2) with (g + (k1 + k2)) by lia.
  destruct (Z.lt_ge_cases (g + (k1 + k2)) 4294967296).
  - rewrite Z.mod_small by lia. lia.
  - rewrite <- (Z_mod_plus_full _ (-1)), Z.mod_small by lia. lia.
Qed.

(** ** Allocation *)

(** Allocation and handles. A successful [alloc] returns a handle that was dead under
    every generation, names the new object afterwards, and leaves the meaning of every
    other handle alone. A refused reservation changes no handle. The only panic is the
    documented one, with 2^32 slots in use; the infallible pushes never allocate. *)
Theorem alloc_correct {AL : Allocator} {LAWS : AllocatorLaws AL} {T : Type} (sz : Z) (v : T) a m a' m' r :
  0 < sz -> arena_ok sz a -> alloc sz v a m = ((a', m'), r) ->
  match r with
  | Ok (i, g) =>
      get a' i g = Some v /\ (forall h, get a i h = None) /\
      (forall j h, (j, h) <> (i, g) -> get a' j h = get a j h)
  | Err TryReserveError => forall j h, get a' j h = get a j h
  | Err Panic => av_len (entries a) = 4294967296
  | Err AllocAbort => False
  end.
Proof.
  intros Hs Hok E. destruct (alloc_spec sz Hs v a m Hok) as (a2 & m2 & r2 & E2 & _ & Hr).
  rewrite E in E2. injection E2 as <- <- <-.
  assert (Hsame : forall j h, slot a' j = slot a j ->
            (forall j h, gen a j = Some h -> gen a' j = Some h) -> get a' j h = get a j h).
  { intros j h HS Hext. apply option_eq. intros w. rewrite !get_Some, HS.
    split; [|naive_solver]. intros [Hg Hw]. split; [|done].
    destruct (slot_gen a j sz Hok) as [h' Hh']; [by destruct (slot a j)|].
    specialize (Hext _ _ Hh'). congruence. }
  destruct r as [[i g]|[]].
  - destruct Hr as (Hg & HS & Hdead & _ & Hext).
    assert (Hnone : forall h, get a i h = None).
    { intros h. apply eq_None_not_Some. intros [w Hw]. by eapply Hdead, get_live. }
    split_and!; [|done|].
    + apply get_Some. split; [done|]. by rewrite HS, decide_True.
    + intros j h Hne. destruct (decide (j = i)) as [->|Hj].
      * rewrite Hnone. apply eq_None_not_Some. intros [w [Hw _]%get_Some]. congruence.
      * apply Hsame; [by rewrite HS, decide_False|done].
  - destruct Hr as [[HS Hext] _]. intros j h. by apply Hsame.
  - destruct Hr as [_ [?|[_ ?]]]; done.
  - destruct Hr as [_ [?|[? _]]]; done.
Qed.

(** ** Sweeping *)

(** What a slot becomes in the effect of a sweep, seen through handles. *)
Lemma swept_get {T} touched (l : list Z) (a a' : Arena T) i g v :
  (forall e, touched e = true -> is_live e = true) -> sweep_effect touched l a a' ->
  get a' i g = Some v <->
  get a i g = Some v /\ ~ (i ∈ l /\ dies_at touched a i = true).
Proof.
  intros Ht (E1 & E2 & _). rewrite !get_Some, E1, E2. unfold dies_at.
  destruct (slot a i) as [e|] eqn:He; cbn.
  2: { destruct (decide (i ∈ l)); cbn; naive_solver. }
  destruct (decide (i ∈ l)) as [Hi|Hi]; cbn.
  2: { rewrite decide_False by tauto. naive_solver. }
  unfold swept, dies. specialize (Ht e). unfold is_live in Ht.
  destruct (touched e); cbn; [|rewrite decide_False by naive_solver; naive_solver].
  destruct (is_white (e_color e)); cbn.
  - rewrite decide_True by done. naive_solver.
  - rewrite decide_False by naive_solver. naive_solver.
Qed.

Lemma dies_at_value {T} (a : Arena T) i :
  dies_at is_live a i = match dying_value is_live a i with Some _ => true | None => false end.
Proof.
  unfold dies_at, dying_value. destruct (slot a i) as [e|]; [|done].
  unfold dies, is_live. by destruct (e_value e), (is_white (e_color e)).
Qed.

(** The major sweep reclaims exactly the unmarked objects. Once the free list has been
    reserved the sweep always completes, allocates nothing (the free list keeps its
    capacity), keeps every handle whose object was marked gray or black, kills every other
    one, calls the release hook once per reclaimed object in index order, reports their
    number, and leaves every surviving slot white and old with the young list empty. *)
Theorem gc_sweep_exact {AL : Allocator} {LAWS : AllocatorLaws AL} {T S : Type}
  (sz : Z) (on_free : T -> S -> S) a a1 s :
  arena_ok sz a -> av_len (entries a) < 4294967296 -> gc_reserve_free a = Ok a1 ->
  exists a' reclaimed,
    gc_sweep_with on_free a1 s =
      Ok ((a', foldl (fun s v => on_free v s) s reclaimed), gc_pending_free_count a) /\
    reclaimed = omap (fun i => if is_white (gc_color a i) then gc_value a i else None)
                  (seqZ 0 (arena_len a)) /\
    len reclaimed = gc_pending_free_count a /\
    capacity (free_list a') = capacity (free_list a1) /\
    (forall i g v, get a' i g = Some v <-> get a i g = Some v /\ gc_color a i <> White) /\
    (forall i e, slot a' i = Some e -> is_live e = true -> e_color e = White /\ e_age e = Old) /\
    items (young a') = [].
Proof.
  intros Hok Hlen Hr.
  destruct (reserve_then_sweep sz on_free a a1 s Hok Hlen Hr)
    as (a' & E & HE & Hc & Hok1 & HS & HG & _).
  eexists _, _. split; [exact E|]. pose proof HE as (E1 & _).
  assert (Hdv : forall i, dying_value is_live a i =
                  if is_white (gc_color a i) then gc_value a i else None).
  { intros i. unfold dying_value, gc_color, gc_value, dies, is_live, slot.
    destruct (av_get (entries a) i) as [e|]; [|done]. cbn. destruct (e_value e); cbn; by case_match. }
  split_and!.
  - unfold sweep_range, arena_len. clear -Hdv. induction (seqZ 0 (av_len (entries a))) as [|i l IH]; [done|].
    cbn. by rewrite Hdv, IH.
  - rewrite <- pending_count. unfold sweep_range.
    induction (seqZ 0 (av_len (entries a))) as [|i l IH]; [done|].
    rewrite filter_cons. pose proof (dies_at_value a i) as Hd. cbn [omap list_omap].
    destruct (dying_value is_live a i); rewrite Hd;
      [rewrite decide_True, !len_cons, IH by done|rewrite decide_False, IH by done]; done.
  - done.
  - intros i g v. transitivity (get a' i g = Some v); [done|].
    rewrite (swept_get is_live (sweep_range a) a1 a' i g v (fun _ H => H) HE).
    rewrite !get_Some, HG, HS. unfold dies_at, gc_color. fold (slot a i). rewrite HS.
    destruct (slot a i) as [e|] eqn:He; cbn; [|naive_solver].
    pose proof (slot_in_range a i e He). unfold dies, is_live.
    destruct (e_value e), (e_color e); cbn; naive_solver.
  - intros i e He Hl. change (slot a' i = Some e) in He. rewrite E1, HS in He.
    destruct (slot a i) as [e0|] eqn:He0; [|by case_decide].
    rewrite decide_True in He by (by eapply slot_in_range). cbn in He. simplify_eq.
    revert Hl. unfold swept, is_live. destruct (e_value e0) eqn:Hv; cbn; [|by rewrite Hv].
    by destruct (is_white (e_color e0)).
  - done.
Qed.

(** ** Two limits of the code *)

(** With exactly 2^32 slots the loop bound [len as u32] is 0: the sweep visits nothing, so
    it reclaims nothing, yet it empties the young list. *)
Theorem sweep_skips_full_arena {AL : Allocator} {T S : Type} (on_free : T -> S -> S) a s :
  av_len (entries a) = 4294967296 ->
  gc_sweep_with on_free a s =
    Ok ((mkArena (entries a) (gens a) (free_list a) (vec_clear (young a)), s), 0).
Proof. intros H. unfold gc_sweep_with. rewrite H. reflexivity. Qed.

Section Wrap.
#[local] Existing Instance exact_allocator.

(** One slot with generation [g], holding [x] or swept. *)
Definition one_slot (g x : Z) : Arena Z :=
  mkArena (mkAccounted (mkVec [mkEntry White Young (Some x)] 1) 8)
          (mkAccounted (mkVec [g] 1) 4) (mkVec [] 1) (mkVec [0] 1).
Definition one_empty (g : Z) : Arena Z :=
  mkArena (mkAccounted (mkVec [mkEntry White Young None] 1) 8)
          (mkAccounted (mkVec [g] 1) 4) (mkVec [0] 1) (mkVec [] 1).

Lemma one_slot_ok g x : is_u32 g -> arena_ok 8 (one_slot g x).
Proof.
  intros Hg. assert (Hslot : forall i e, slot (one_slot g x) i = Some e <->
    i = 0 /\ e = mkEntry White Young (Some x)).
  { intros i e. unfold slot, av_get, zget. cbn. destruct (Z.ltb_spec i 0); [naive_solver lia|].
    destruct (decide (i = 0)) as [->|]; [naive_solver|].
    rewrite lookup_ge_None_2 by (cbn; lia). naive_solver. }
  split; cbn; try done.
  - intros i h Hi. unfold gen, av_get in Hi. cbn in Hi. apply zget_Some in Hi as [_ Hi].
    apply list_elem_of_lookup_2, list_elem_of_singleton in Hi as ->. done.
  - constructor.
  - intros i. setoid_rewrite Hslot. rewrite elem_of_nil. naive_solver.
  - apply NoDup_singleton.
  - intros i. setoid_rewrite Hslot. rewrite list_elem_of_singleton. naive_solver.
Qed.

Lemma one_slot_sweep g x :
  arena_step 8 (one_slot g x, meter_default) (one_empty (bump g), meter_default).
Proof. eapply (step_sweep 8 exact_allocator _ (fun _ => 0)); reflexivity. Qed.

Lemma one_slot_alloc g x :
  arena_step 8 (one_empty g, meter_default) (one_slot g x, meter_default).
Proof. eapply (step_alloc 8 exact_allocator _ x); [reflexivity|done|done]. Qed.

Lemma one_slot_cycles (k : nat) g x :
  is_u32 g ->
  nsteps (arena_step 8) (k + k) (one_slot g x, meter_default)
    (match k with O => one_slot g x | S _ => one_slot (as_u32 (g + Z.of_nat k)) 1 end, meter_default).
Proof.
  revert g x. induction k as [|k IH]; intros g x Hg; [constructor|].
  replace (S k + S k)%nat with (S (S (k + k))) by lia.
  eapply nsteps_l; [apply one_slot_sweep|]. eapply nsteps_l; [apply (one_slot_alloc _ 1)|].
  specialize (IH (bump g) 1 (as_u32_range _)).
  replace (one_slot (as_u32 (g + Z.of_nat (S k))) 1) with
    (match k with O => one_slot (bump g) 1 | S _ => one_slot (as_u32 (bump g + Z.of_nat k)) 1 end); [done|].
  unfold bump. destruct k as [|k]; [done|]. unfold as_u32. rewrite Zplus_mod_idemp_l. do 2 f_equal. lia.
Qed.

(** The bound of [stale_handle_never_aliases] is tight up to the length of a cycle: after
    2^32 reclamations of one slot its generation has wrapped around, and the first handle
    names the newest object. *)
Theorem stale_handle_aliases_after_wrap :
  exists n1 n2 st1 st2,
    arena_ok 8 (one_slot 0 0) /\ get (one_slot 0 0) 0 0 = Some 0 /\
    nsteps (arena_step 8) n1 (one_slot 0 0, meter_default) st1 /\ get st1.1 0 0 = None /\
    nsteps (arena_step 8) n2 st1 st2 /\ get st2.1 0 0 = Some 1 /\
    Z.of_nat n1 + Z.of_nat n2 = 8589934592.
Proof.
  destruct (Z.to_nat 4294967295) as [|k] eqn:Ek; [lia|].
  pose proof (one_slot_cycles (S k) 1 1 ltac:(done)) as H. cbn [Nat.add] in H.
  replace (as_u32 (1 + Z.of_nat (S k))) with 0 in H by (rewrite <- Ek, Z2Nat.id by lia; done).
  exists 1%nat, (S (S k + S k))%nat, (one_empty 1, meter_default), (one_slot 0 1, meter_default).
  split_and!; [by apply one_slot_ok|done| |done| |done|lia].
  - apply nsteps_once, one_slot_sweep.
  - eapply nsteps_l; [apply (one_slot_alloc _ 1)|exact H].
Qed.

End Wrap.

(** ** Witnesses *)

Section Witnesses.
#[local] Existing Instance exact_allocator.

Lemma arena_invariant_witness :
  0 < 8 /\ rtc (arena_step 8) (new (T := Z), meter_default)
             (mkArena (mkAccounted (mkVec [mkEntry White Young (Some 7)] 1) 8)
                (mkAccounted (mkVec [0] 1) 4) (mkVec [] 0) (mkVec [0] 1), mkMeter 12 12) /\
  arena_ok 8 (mkArena (mkAccounted (mkVec [mkEntry White Young (Some 7)] 1) 8)
                (mkAccounted (mkVec [0] 1) 4) (mkVec [] 0) (mkVec [0] 1)).
Proof.
  assert (H : rtc (arena_step 8) (new (T := Z), meter_default)
             (mkArena (mkAccounted (mkVec [mkEntry White Young (Some 7)] 1) 8)
                (mkAccounted (mkVec [0] 1) 4) (mkVec [] 0) (mkVec [0] 1), mkMeter 12 12)).
  { apply rtc_once. eapply (step_alloc 8 exact_allocator _ 7); [reflexivity|done|done]. }
  split; [lia|]. split; [exact H|]. exact (arena_invariant 8 meter_default _ ltac:(lia) H).
Defined.

Lemma stale_handle_never_aliases_witness :
  get (one_slot 0 0) 0 0 = Some 0 /\
  nsteps (arena_step 8) 1 (one_slot 0 0, meter_default) (one_empty 1, meter_default) /\
  nsteps (arena_step 8) 1 (one_empty 1, meter_default) (one_slot 1 9, meter_default) /\
  get (one_slot 1 9) 0 0 = None.
Proof.
  assert (H1 : nsteps (arena_step 8) 1 (one_slot 0 0, meter_default) (one_empty 1, meter_default))
    by apply nsteps_once, one_slot_sweep.
  assert (H2 : nsteps (arena_step 8) 1 (one_empty 1, meter_default) (one_slot 1 9, meter_default))
    by apply nsteps_once, one_slot_alloc.
  split_and!; [reflexivity|exact H1|exact H2|].
  refine (stale_handle_never_aliases 8 1 1 (one_slot 0 0, meter_default) _ _ 0 0 0
            _ (one_slot_ok 0 0 _) eq_refl H1 eq_refl H2 _); [lia|split; lia|lia].
Defined.

Lemma alloc_correct_witness :
  alloc 8 9 (one_empty 1) meter_default = ((one_slot 1 9, meter_default), Ok (0, 1)) /\
  get (one_slot 1 9) 0 1 = Some 9.
Proof.
  split; [reflexivity|].
  assert (Hok : arena_ok 8 (one_empty 1)).
  { eapply (arena_step_ok 8 ltac:(lia) (one_slot 0 0, meter_default) (one_empty 1, meter_default));
      [apply one_slot_ok; split; lia|apply one_slot_sweep]. }
  exact (proj1 (alloc_correct 8 9 (one_empty 1) meter_default (one_slot 1 9) meter_default
    (Ok (0, 1)) ltac:(lia) Hok eq_refl)).
Defined.

Lemma gc_sweep_exact_witness :
  gc_reserve_free (one_slot 0 0) = Ok (one_slot 0 0) /\
  exists a', gc_sweep_with (fun _ s => s + 1) (one_slot 0 0) 0 = Ok ((a', 1), 1) /\
    get a' 0 0 = None.
Proof.
  split; [reflexivity|].
  destruct (gc_sweep_exact 8 (fun _ s => s + 1) (one_slot 0 0) (one_slot 0 0) 0
    (one_slot_ok 0 0 ltac:(split; lia)) ltac:(reflexivity) ltac:(reflexivity))
    as (a' & r & E & -> & _ & _ & Hget & _).
  exists a'. split; [exact E|]. apply eq_None_not_Some. intros [v Hv].
  apply Hget in Hv as [_ Hc]. apply Hc. reflexivity.
Defined.

End Witnesses.
