(* ===== verification/Value.v ===== *)
(** * Value: runtime values and floating-point bit patterns

    Model of the value type of the virtual machine ([RawValue] and [RawGc] in
    [ruau-vm/src/api.rs]). An [f64] or [f32] is its bit pattern; the functions below are the
    IEEE-754 operations the sources apply to it, computed on the bits: [is_nan],
    [fract() == 0.0], the casts [as i64] and [as f64], and [>]. The marker type of a handle
    is the constructor that holds it. *)

From Stdlib Require Import ZArith Lia.
From stdpp Require Import base numbers list option.
From S2P Require Import Prelude.

(** ** Double-precision numbers, by bits *)

Definition f64_man (b : Z) : Z := b mod 4503599627370496.
Definition f64_exp (b : Z) : Z := (b / 4503599627370496) mod 2048.
Definition f64_neg (b : Z) : bool := 9223372036854775808 <=? b.

Definition f64_is_nan (b : Z) : bool := (f64_exp b =? 2047) && negb (f64_man b =? 0).
Definition f64_is_zero (b : Z) : bool := b mod 9223372036854775808 =? 0.

(** The magnitude of an integral number: [Some] exactly when the number is finite and its
    fractional part is zero. *)
Definition f64_magnitude (b : Z) : option Z :=
  let e := f64_exp b in
  let m := f64_man b in
  if e =? 2047 then None
  else if e =? 0 then (if m =? 0 then Some 0 else None)
  else let m' := m + 4503599627370496 in
       if 1075 <=? e then Some (m' * 2 ^ (e - 1075))
       else if m' mod 2 ^ (1075 - e) =? 0 then Some (m' / 2 ^ (1075 - e)) else None.

(** [n.fract() == 0.0], with the integer. *)
Definition f64_integral (b : Z) : option Z :=
  match f64_magnitude b with
  | Some z => Some (if f64_neg b then - z else z)
  | None => None
  end.

(** [u as f64], rounding to nearest, ties to even. *)
Definition f64_of_u64 (u : Z) : Z :=
  if u =? 0 then 0
  else
    let k := Z.log2 u in
    if k <=? 52 then (k + 1023) * 4503599627370496 + (u * 2 ^ (52 - k) - 4503599627370496)
    else
      let q := u / 2 ^ (k - 52) in
      let r := u mod 2 ^ (k - 52) in
      let half := 2 ^ (k - 53) in
      let q' := if (half <? r) || ((half =? r) && Z.odd q) then q + 1 else q in
      (k + 1023) * 4503599627370496 + (q' - 4503599627370496).

(** [i as f64]. *)
Definition f64_of_i64 (i : Z) : Z :=
  if i <? 0 then 9223372036854775808 + f64_of_u64 (- i) else f64_of_u64 i.

(** [a > b]: comparison of the bits read as sign and magnitude. *)
Definition f64_ord (b : Z) : Z :=
  let magnitude := b mod 9223372036854775808 in if f64_neg b then - magnitude else magnitude.
Definition f64_gt (a b : Z) : bool :=
  negb (f64_is_nan a) && negb (f64_is_nan b) && (f64_ord b <? f64_ord a).

(** ** Single-precision numbers, by bits *)

Definition f32_is_nan (b : Z) : bool :=
  ((b / 8388608) mod 256 =? 255) && negb (b mod 8388608 =? 0).

(** ** Handles and values *)

Record RawGc : Set := mkGc { gc_index : Z; gc_generation : Z; gc_heap : Z }.

Inductive RawValue : Set :=
| VNil
| VBoolean (b : bool)
| VNumber (bits : Z)
| VInteger (i : Z)
| VVector (x y z : Z)
| VLightUserdata (handle tag : Z)
| VString (h : RawGc)
| VTable (h : RawGc)
| VFunction (h : RawGc)
| VUserdata (h : RawGc)
| VThread (h : RawGc)
| VBuffer (h : RawGc).

#[export] Instance RawGc_eq_dec : EqDecision RawGc.
Proof. solve_decision. Defined.
#[export] Instance RawValue_eq_dec : EqDecision RawValue.
Proof. solve_decision. Defined.

Definition is_nil (v : RawValue) : bool := match v with VNil => true | _ => false end.

Lemma is_nil_true v : is_nil v = true <-> v = VNil.
Proof. by destruct v. Qed.

Lemma is_nil_false v : is_nil v = false <-> v <> VNil.
Proof. by destruct v. Qed.

(** ** Small integers are exact *)

Lemma f64_fields k m :
  0 <= m < 4503599627370496 -> 0 < k < 2047 ->
  f64_man (k * 4503599627370496 + m) = m /\ f64_exp (k * 4503599627370496 + m) = k /\
  f64_neg (k * 4503599627370496 + m) = false.
Proof.
  intros Hm Hk. unfold f64_man, f64_exp, f64_neg. split_and!.
  - rewrite Z.add_comm, Z_mod_plus_full. by apply Z.mod_small.
  - rewrite Z.add_comm, Z.div_add, Z.div_small, Z.add_0_l by lia. by apply Z.mod_small; lia.
  - apply Z.leb_gt. nia.
Qed.

Lemma f64_of_u64_integral u : 0 <= u < 9007199254740992 -> f64_integral (f64_of_u64 u) = Some u.
Proof.
  intros Hu. unfold f64_of_u64. destruct (Z.eqb_spec u 0) as [->|Hne]; [done|].
  destruct (Z.log2_spec u ltac:(lia)) as [Hlo Hhi]. pose proof (Z.log2_nonneg u) as Hk0.
  set (k := Z.log2 u) in *.
  assert (Hk : k <= 52).
  { assert (2 ^ k < 2 ^ 53) by (change (2 ^ 53) with 9007199254740992; lia).
    apply Z.pow_lt_mono_r_iff in H; lia. }
  rewrite (proj2 (Z.leb_le _ _) Hk).
  assert (Hp : 2 ^ k * 2 ^ (52 - k) = 4503599627370496).
  { rewrite <- Z.pow_add_r by lia. by replace (k + (52 - k)) with 52 by lia. }
  assert (Hs : 2 ^ Z.succ k = 2 * 2 ^ k) by (rewrite Z.pow_succ_r by lia; lia).
  assert (0 < 2 ^ (52 - k)) by (apply Z.pow_pos_nonneg; lia).
  destruct (f64_fields (k + 1023) (u * 2 ^ (52 - k) - 4503599627370496)) as (Hm & He & Hn); [nia|lia|].
  unfold f64_integral, f64_magnitude. rewrite Hm, He, Hn.
  rewrite (proj2 (Z.eqb_neq (k + 1023) 2047)), (proj2 (Z.eqb_neq (k + 1023) 0)) by lia.
  rewrite Z.sub_add. destruct (Z.leb_spec 1075 (k + 1023)).
  - replace k with 52 in * by lia. cbn. f_equal. lia.
  - replace (1075 - (k + 1023)) with (52 - k) by lia.
    rewrite Z_mod_mult, Z.eqb_refl, Z.div_mul by lia. done.
Qed.
