(* ===== verification/Registry.v ===== *)
(** * Registry: the host's anchors

    Model of [ruau-vm/src/heap/registry.rs] and of [RegistryRef] ([api.rs]). The identity of
    a token's [Arc] is a number no other token has; [Arc::new] takes the next one, which the
    operations thread as [fresh]. The registry refines a finite map from references to
    values: a reference resolves exactly while it is pinned, and never again, whatever the
    32-bit generations do; images validate and restore. *)

From Stdlib Require Import ZArith Lia.
From stdpp Require Import base numbers list option gmap sets.
From S2P Require Import Prelude RustVec Arena ArenaFacts Value.

Record RegistryRef : Set := mkRef {
  ref_slot : Z;
  ref_generation : Z;
  ref_heap : Z;
  ref_token : Z;
}.

(** [PartialEq], [Arc::ptr_eq] included. *)
#[export] Instance RegistryRef_eq_dec : EqDecision RegistryRef.
Proof. solve_decision. Defined.

#[export] Instance RegistryRef_countable : Countable RegistryRef.
Proof.
  refine (inj_countable' (fun r => (ref_slot r, ref_generation r, ref_heap r, ref_token r))
    (fun p => match p with (s, g, h, t) => mkRef s g h t end) _). by intros [].
Defined.

Record RegistrySlot : Set := mkRegistrySlot {
  rs_value : RawValue;
  rs_generation : Z;
  rs_token : option RegistryRef;
}.

Record Registry : Type := mkRegistry {
  anchors : AccountedVec RegistrySlot;
  reg_free : Vec Z;
}.

Record RegistrySlotImage : Set := mkRegistrySlotImage {
  ri_value : RawValue;
  ri_generation : Z;
  ri_live : bool;
}.

Record RegistryImage : Set := mkRegistryImage {
  ri_anchors : list RegistrySlotImage;
  ri_free : list Z;
}.

(** The messages of [SnapshotError::Invalid]. *)
Inductive RegistryImageError : Set :=
| FreeIndexOutOfRange
| DuplicateFreeIndex
| FreeIndexLive
| VacantNotFree
| VacantRetainsValue.

Module Registry.
Section Registry.
Context {AL : Allocator} (slot_size : Z).
Implicit Types (r : Registry) (m : MemoryMeter).

Definition new : Registry := mkRegistry with_meter vec_new.

Definition set_token (token : option RegistryRef) (s : RegistrySlot) : RegistrySlot :=
  mkRegistrySlot (rs_value s) (rs_generation s) token.

(** Returns the registry, the meter, the next token and the reference. *)
Definition pin (value : RawValue) (heap : Z) (fresh : Z) r m
  : (Registry * MemoryMeter * Z) * option RegistryRef :=
  match pop (reg_free r) with
  | (Some index, free) =>
      match av_get (anchors r) index with
      | None => ((mkRegistry (anchors r) free, m, fresh), None)
      | Some slot =>
          let reference := mkRef index (rs_generation slot) heap fresh in
          let a := av_alter (fun s => mkRegistrySlot value (rs_generation s) (Some reference)) index (anchors r) in
          ((mkRegistry a free, m, fresh + 1), Some reference)
      end
  | (None, _) =>
      let '((a, m'), pushed) := try_push slot_size (anchors r) m (mkRegistrySlot value 0 None) in
      let r' := mkRegistry a (reg_free r) in
      match pushed with
      | Err _ => ((r', m', fresh), None)
      | Ok index =>
          match u32_try_from index with
          | None => ((r', m', fresh), None)
          | Some index =>
              let reference := mkRef index 0 heap fresh in
              ((mkRegistry (av_alter (set_token (Some reference)) index a) (reg_free r), m', fresh + 1),
               Some reference)
          end
      end
  end.

Definition is_token (reference : RegistryRef) (s : RegistrySlot) : bool :=
  (rs_generation s =? ref_generation reference) && bool_decide (rs_token s = Some reference).

Definition get r (reference : RegistryRef) : option RawValue :=
  match av_get (anchors r) (ref_slot reference) with
  | None => None
  | Some slot => if is_token reference slot then Some (rs_value slot) else None
  end.

(** The free list grows by an infallible push. *)
Definition unpin (reference : RegistryRef) r : result Fault Registry :=
  match av_get (anchors r) (ref_slot reference) with
  | None => Ok r
  | Some slot =>
      if is_token reference slot then
        let a := av_alter (fun s => mkRegistrySlot VNil (as_u32 (rs_generation s + 1)) None)
                   (ref_slot reference) (anchors r) in
        let? free := push U32_SIZE (reg_free r) (ref_slot reference) in
        Ok (mkRegistry a free)
      else Ok r
  end.

Definition gc_anchors r : list RawValue :=
  filter (fun v => is_nil v = false) (rs_value <$> items (inner (anchors r))).

Definition slot_image (s : RegistrySlot) : RegistrySlotImage :=
  mkRegistrySlotImage (rs_value s) (rs_generation s) (match rs_token s with Some _ => true | None => false end).

Definition snapshot_image r : RegistryImage :=
  mkRegistryImage (slot_image <$> items (inner (anchors r))) (items (reg_free r)).

(** The two loops of [RegistryImage::validate]; [seen] is the vector of flags. *)
Fixpoint validate_free (image : list RegistrySlotImage) (free : list Z) (seen : list bool)
  : result RegistryImageError (list bool) :=
  match free with
  | [] => Ok seen
  | index :: free' =>
      match zget image index with
      | None => Err FreeIndexOutOfRange
      | Some slot =>
          if default false (zget seen index) then Err DuplicateFreeIndex
          else if ri_live slot then Err FreeIndexLive
          else validate_free image free' (zalter (fun _ => true) index seen)
      end
  end.

Fixpoint validate_vacant (slots : list RegistrySlotImage) (seen : list bool) : result RegistryImageError unit :=
  match slots, seen with
  | slot :: slots', s :: seen' =>
      if negb (ri_live slot) && negb s then Err VacantNotFree
      else if negb (ri_live slot) && negb (is_nil (ri_value slot)) then Err VacantRetainsValue
      else validate_vacant slots' seen'
  | _, _ => Ok tt
  end.

Definition validate_image (image : RegistryImage) : result RegistryImageError unit :=
  let? seen := validate_free (ri_anchors image) (ri_free image)
                 (replicate (length (ri_anchors image)) false) in
  validate_vacant (ri_anchors image) seen.

(** Every live slot gets a token of its own, in order; [cap] and [free_cap] are the
    capacities of the deserialized vectors. *)
Fixpoint restore_slots (l : list RegistrySlotImage) (index heap fresh : Z) : list RegistrySlot * Z :=
  match l with
  | [] => ([], fresh)
  | s :: l' =>
      let '(token, fresh') :=
        if ri_live s then (Some (mkRef index (ri_generation s) heap fresh), fresh + 1) else (None, fresh) in
      let '(rest, fresh2) := restore_slots l' (index + 1) heap fresh' in
      (mkRegistrySlot (ri_value s) (ri_generation s) token :: rest, fresh2)
  end.

Definition from_snapshot_image (image : RegistryImage) (cap free_cap heap fresh : Z) m
  : result RegistryImageError (Registry * MemoryMeter * Z) :=
  let? _ := validate_image image in
  let '(slots, fresh') := restore_slots (ri_anchors image) 0 heap fresh in
  let '(a, m') := from_vec slot_size (mkVec slots cap) m in
  Ok ((mkRegistry a (mkVec (ri_free image) free_cap), m'), fresh').

End Registry.
End Registry.

Import Registry.

Definition rslot (r : Registry) (i : Z) : option RegistrySlot := av_get (anchors r) i.

Record registry_ok (slot_size fresh : Z) (r : Registry) : Prop := {
  rok_anchors : accounted_ok slot_size (anchors r);
  rok_token i s t : rslot r i = Some s -> rs_token s = Some t ->
    ref_slot t = i /\ ref_generation t = rs_generation s /\ ref_token t < fresh /\ i < 4294967296;
  rok_free_nodup : NoDup (items (reg_free r));
  rok_free i : i ∈ items (reg_free r) <->
    i < 4294967296 /\ exists s, rslot r i = Some s /\ rs_token s = None;
  rok_vacant i s : i ∈ items (reg_free r) -> rslot r i = Some s -> rs_value s = VNil;
}.

Inductive RegOp : Set :=
| RPin (value : RawValue)
| RUnpin (reference : RegistryRef).

(** ** Sequences of operations, with the abstract map beside *)

Definition RegState : Type := Registry * MemoryMeter * Z.

Section Facts.
Context {AL : Allocator} {LAWS : AllocatorLaws AL} (slot_size : Z) (slot_pos : 0 < slot_size) (heap : Z).
Implicit Types (r : Registry) (m : MemoryMeter) (refs : gmap RegistryRef RawValue).

Definition reg_op (op : RegOp) (st : RegState * gmap RegistryRef RawValue) : result Fault (RegState * gmap RegistryRef RawValue) :=
  let '((r, m, fresh), refs) := st in
  match op with
  | RPin value =>
      let '(st', reference) := pin slot_size value heap fresh r m in
      Ok (st', match reference with Some t => <[t := value]> refs | None => refs end)
  | RUnpin reference =>
      let? r' := unpin reference r in Ok ((r', m, fresh), delete reference refs)
  end.

Definition agrees r refs : Prop := forall t, get r t = refs !! t.

Lemma get_Some_iff r t v :
  get r t = Some v <-> exists s, rslot r (ref_slot t) = Some s /\ rs_generation s = ref_generation t /\
    rs_token s = Some t /\ rs_value s = v.
Proof.
  unfold get, rslot, is_token. destruct (av_get (anchors r) (ref_slot t)) as [s|]; [|naive_solver].
  destruct (Z.eqb_spec (rs_generation s) (ref_generation t)); cbn; [|naive_solver].
  case_bool_decide; naive_solver.
Qed.

(** Rewriting slot [i] to carry [t'], which no other slot carries. *)
Lemma get_alter r fr f i s t v fresh t' :
  registry_ok slot_size fresh r -> rslot r i = Some s -> ref_slot t' = i ->
  rs_token (f s) = Some t' /\ rs_generation (f s) = ref_generation t' /\ rs_value (f s) = v ->
  rs_token s = None ->
  get (mkRegistry (av_alter f i (anchors r)) fr) t = if decide (t = t') then Some v else get r t.
Proof.
  intros Hok Hs Ht' Hf Hn. unfold get. cbn. unfold av_get, av_alter. cbn. rewrite zget_zalter_if.
  change (zget (items (inner (anchors r))) (ref_slot t)) with (rslot r (ref_slot t)).
  destruct (decide (i = ref_slot t)) as [Hi|Hi].
  - rewrite <- Hi, Hs. cbn. unfold is_token. destruct Hf as (-> & -> & ->). rewrite Hn.
    rewrite (bool_decide_false (None = Some t)), andb_false_r by done.
    destruct (decide (t = t')) as [->|Hne].
    + by rewrite Z.eqb_refl, bool_decide_true.
    + by rewrite bool_decide_false, andb_false_r by congruence.
  - rewrite decide_False by congruence. done.
Qed.

Lemma rslot_alter r fr f i j :
  rslot (mkRegistry (av_alter f i (anchors r)) fr) j = if decide (i = j) then f <$> rslot r j else rslot r j.
Proof. unfold rslot, av_get. cbn. apply zget_zalter_if. Qed.

(** *** The reuse branch of [pin] *)
Lemma pin_reuse_spec value fresh r m index fr :
  registry_ok slot_size fresh r -> pop (reg_free r) = (Some index, fr) ->
  exists r' t, pin slot_size value heap fresh r m = ((r', m, fresh + 1), Some t) /\
    registry_ok slot_size (fresh + 1) r' /\ ref_token t = fresh /\
    (forall t0, get r' t0 = if decide (t0 = t) then Some value else get r t0).
Proof.
  intros Hok Hp. unfold pin. rewrite Hp. apply pop_Some in Hp as [Hfr _].
  assert (Hin : index ∈ items (reg_free r)) by (rewrite Hfr; set_solver).
  pose proof (proj1 (rok_free _ _ _ Hok index) Hin) as (Hlt & s & Hs & Htok).
  unfold rslot in Hs. rewrite Hs. do 2 eexists. split; [done|].
  pose proof (rok_free_nodup _ _ _ Hok) as Hnd. rewrite Hfr in Hnd.
  apply NoDup_app in Hnd as (Hnd1 & Hnd2 & _). split_and!; [|done|].
  - split; cbn.
    + apply accounted_ok_alter, (rok_anchors _ _ _ Hok).
    + intros i s' t. rewrite rslot_alter. case_decide as Hi; [subst i|].
      * unfold rslot. rewrite Hs. cbn. intros [= <-]. cbn. intros [= <-]. cbn. split_and!; [done|done|lia|done].
      * intros H1 H2. destruct (rok_token _ _ _ Hok i s' t H1 H2) as (? & ? & ? & ?). split_and!; [done|done|lia|done].
    + done.
    + intros i. rewrite rslot_alter. case_decide as Hi; [subst i|].
      * split; [intros Hx; by destruct (Hnd2 index Hx); set_solver|].
        intros (_ & s' & Hs' & Hn). unfold rslot in Hs'. rewrite Hs in Hs'. cbn in Hs'. by simplify_eq.
      * rewrite <- (rok_free _ _ _ Hok i), Hfr. set_solver.
    + intros i s' Hx. rewrite rslot_alter. case_decide as Hi; [subst i; by destruct (Hnd2 index Hx); set_solver|].
      apply (rok_vacant _ _ _ Hok). rewrite Hfr. set_solver.
  - intros t0. by eapply (get_alter r _ _ index s t0 value fresh).
Qed.

(** *** The growing branch of [pin] *)
Lemma pin_grow_spec value fresh r m fr :
  registry_ok slot_size fresh r -> pop (reg_free r) = (None, fr) ->
  exists r' m' fresh' o, pin slot_size value heap fresh r m = ((r', m', fresh'), o) /\
    registry_ok slot_size fresh' r' /\ fresh <= fresh' /\
    match o with
    | Some t => ref_token t = fresh /\ fresh < fresh' /\
        (forall t0, get r' t0 = if decide (t0 = t) then Some value else get r t0)
    | None => forall t0, get r' t0 = get r t0
    end.
Proof.
  intros Hok Hp. unfold pin. rewrite Hp. apply pop_None in Hp as [Hfr _].
  destruct (try_push slot_size (anchors r) m (mkRegistrySlot value 0 None)) as [[a m'] pushed] eqn:Ea.
  apply try_push_inv in Ea; [|done|apply (rok_anchors _ _ _ Hok)].
  destruct pushed as [i|e].
  2: { destruct Ea as (-> & -> & ->). do 4 eexists. split; [done|]. by destruct r. }
  destruct Ea as (-> & Hi & Hacc & _).
  pose proof (fun j => av_get_snoc _ _ _ j Hi) as Hget.
  assert (Hlen : 0 <= av_len (anchors r)) by apply len_nonneg.
  assert (Hnone : rslot r (av_len (anchors r)) = None).
  { destruct (rslot r _) eqn:E; [|done]. apply av_get_range in E. lia. }
  unfold u32_try_from. rewrite (proj2 (Z.leb_le 0 _)) by done. cbn [andb].
  destruct (Z.ltb_spec (av_len (anchors r)) 4294967296) as [Hlt|Hge].
  - (* the new slot is given its token *)
    set (t := mkRef (av_len (anchors r)) 0 heap fresh).
    set (r1 := mkRegistry a (reg_free r)).
    assert (Hr1 : forall j, rslot r1 j = if decide (j = av_len (anchors r))
      then Some (mkRegistrySlot value 0 None) else rslot r j) by (intros; apply Hget).
    assert (Hr2 : forall j, rslot (mkRegistry (av_alter (set_token (Some t)) (av_len (anchors r)) a) (reg_free r)) j =
      if decide (j = av_len (anchors r)) then Some (mkRegistrySlot value 0 (Some t)) else rslot r j).
    { intros j. rewrite (rslot_alter r1), Hr1. destruct (decide (j = av_len (anchors r))) as [->|].
      - by rewrite !decide_True by done.
      - by rewrite !decide_False by congruence. }
    do 4 eexists. split; [done|]. split_and!; [|lia|done|lia|].
    + split; cbn.
      * by apply accounted_ok_alter.
      * intros j s t0. rewrite Hr2. case_decide as Hj; [subst j|].
        -- intros [= <-] [= <-]. cbn. split_and!; [done|done|lia|done].
        -- intros H1 H2. destruct (rok_token _ _ _ Hok j s t0 H1 H2) as (? & ? & ? & ?). split_and!; [done|done|lia|done].
      * apply (rok_free_nodup _ _ _ Hok).
      * intros j. rewrite Hfr, Hr2, <- Hfr, (rok_free _ _ _ Hok).
        case_decide as Hj; [subst j; rewrite Hnone; naive_solver|done].
      * intros j s. rewrite Hfr. by intros ?%not_elem_of_nil.
    + intros t0. unfold get. fold (rslot (mkRegistry (av_alter (set_token (Some t)) (av_len (anchors r)) a) (reg_free r)) (ref_slot t0)).
      fold (rslot r (ref_slot t0)). rewrite Hr2. destruct (decide (ref_slot t0 = av_len (anchors r))) as [Ht0|Ht0].
      * rewrite Ht0, Hnone. unfold is_token. cbn [rs_generation rs_token rs_value].
        destruct (decide (t0 = t)) as [->|Hne]; [by rewrite Z.eqb_refl, bool_decide_true|].
        by rewrite bool_decide_false, andb_false_r by congruence.
      * rewrite decide_False; [done|]. by intros ->.
  - (* no index left: the slot stays unreachable *)
    set (r1 := mkRegistry a (reg_free r)).
    assert (Hr1 : forall j, rslot r1 j = if decide (j = av_len (anchors r))
      then Some (mkRegistrySlot value 0 None) else rslot r j) by (intros; apply Hget).
    do 4 eexists. split; [done|]. split_and!; [|lia|].
    + split; cbn; try done.
      * intros j s t0. rewrite Hr1. case_decide; [by intros [= <-]|]. apply (rok_token _ _ _ Hok).
      * apply (rok_free_nodup _ _ _ Hok).
      * intros j. rewrite (rok_free _ _ _ Hok), Hr1. case_decide as Hj; [subst j; rewrite Hnone|done].
        split; [naive_solver|]. intros [? _]. lia.
      * intros j s. rewrite Hfr. by intros ?%not_elem_of_nil.
    + intros t0. unfold get. fold (rslot r1 (ref_slot t0)) (rslot r (ref_slot t0)). rewrite Hr1.
      destruct (decide (ref_slot t0 = av_len (anchors r))) as [Ht0|Ht0]; [|done]. rewrite Ht0, Hnone.
      unfold is_token. cbn [rs_token]. by rewrite bool_decide_false, andb_false_r.
Qed.

Lemma pin_spec value fresh r m :
  registry_ok slot_size fresh r ->
  exists r' m' fresh' o, pin slot_size value heap fresh r m = ((r', m', fresh'), o) /\
    registry_ok slot_size fresh' r' /\ fresh <= fresh' /\
    match o with
    | Some t => ref_token t = fresh /\ fresh < fresh' /\
        (forall t0, get r' t0 = if decide (t0 = t) then Some value else get r t0)
    | None => forall t0, get r' t0 = get r t0
    end.
Proof.
  intros Hok. destruct (pop (reg_free r)) as [[index|] fr] eqn:Hp; [|by eapply pin_grow_spec].
  destruct (pin_reuse_spec value fresh r m index fr Hok Hp) as (r' & t & E & Hok' & Ht & Hg).
  do 4 eexists. split; [exact E|]. split_and!; [done|lia|done|lia|done].
Qed.

Lemma unpin_spec t fresh r r' :
  registry_ok slot_size fresh r -> unpin t r = Ok r' ->
  registry_ok slot_size fresh r' /\ (forall t0, get r' t0 = if decide (t0 = t) then None else get r t0).
Proof.
  intros Hok. unfold unpin. fold (rslot r (ref_slot t)).
  assert (Hsame : get r t = None -> forall t0, get r t0 = if decide (t0 = t) then None else get r t0).
  { intros Hn t0. by destruct (decide (t0 = t)) as [->|]. }
  destruct (rslot r (ref_slot t)) as [s|] eqn:Hs.
  2: { intros [= <-]. split; [done|]. apply Hsame. unfold get. fold (rslot r (ref_slot t)). by rewrite Hs. }
  destruct (is_token t s) eqn:Et.
  2: { intros [= <-]. split; [done|]. apply Hsame. unfold get. fold (rslot r (ref_slot t)). by rewrite Hs, Et. }
  apply andb_prop in Et as [Hgen%Z.eqb_eq Htok%bool_decide_eq_true].
  destruct (push U32_SIZE (reg_free r) (ref_slot t)) as [fr|] eqn:Ep; [|done]. cbn. intros [= <-].
  apply push_items in Ep. assert (Hnf : ref_slot t ∉ items (reg_free r)).
  { intros (_ & s' & Hs' & Hn)%(rok_free _ _ _ Hok). congruence. }
  split.
  - split; cbn.
    + apply accounted_ok_alter, (rok_anchors _ _ _ Hok).
    + intros i s' t0. rewrite rslot_alter. case_decide as Hi; [subst i; rewrite Hs; cbn; by intros [= <-]|].
      apply (rok_token _ _ _ Hok).
    + rewrite Ep. apply NoDup_app. split_and!; [apply (rok_free_nodup _ _ _ Hok)|set_solver|apply NoDup_singleton].
    + intros i. rewrite Ep, elem_of_app, list_elem_of_singleton, rslot_alter, (rok_free _ _ _ Hok).
      case_decide as Hi; [subst i|naive_solver]. rewrite Hs. cbn. split; [|by right].
      intros _. split; [|by eexists]. by destruct (rok_token _ _ _ Hok _ s t Hs Htok) as (_ & _ & _ & ?).
    + intros i s'. rewrite Ep, elem_of_app, list_elem_of_singleton, rslot_alter.
      case_decide as Hi; [subst i; rewrite Hs; cbn; by intros _ [= <-]|].
      intros [Hx| ->]; [|done]. by apply (rok_vacant _ _ _ Hok).
  - intros t0. unfold get at 1. fold (rslot (mkRegistry (av_alter (fun s => mkRegistrySlot VNil (as_u32 (rs_generation s + 1)) None) (ref_slot t) (anchors r)) fr) (ref_slot t0)).
    rewrite rslot_alter. destruct (decide (ref_slot t = ref_slot t0)) as [Hi|Hi].
    + rewrite <- Hi, Hs. cbn. unfold is_token at 1. cbn [rs_token].
      rewrite (bool_decide_false (None = Some t0)), andb_false_r by done.
      destruct (decide (t0 = t)) as [|Hne]; [done|]. unfold get. fold (rslot r (ref_slot t0)).
      rewrite <- Hi, Hs. unfold is_token. rewrite Htok, bool_decide_false, andb_false_r by congruence. done.
    + rewrite decide_False by congruence. done.
Qed.

(** *** A sequence of operations *)

Definition reg_inv (st : RegState * gmap RegistryRef RawValue) : Prop :=
  let '((r, m, fresh), refs) := st in
  registry_ok slot_size fresh r /\ agrees r refs /\ (forall t v, refs !! t = Some v -> ref_token t < fresh).

Lemma reg_op_inv op st st' : reg_inv st -> reg_op op st = Ok st' -> reg_inv st' /\ st.1.2 <= st'.1.2.
Proof.
  destruct st as [[[r m] fresh] refs]. intros (Hok & Hag & Hb). destruct op as [value|t]; cbn.
  - destruct (pin_spec value fresh r m Hok) as (r' & m' & fresh' & o & -> & Hok' & Hle & Ho). intros [= <-].
    split; [|done]. split; [done|]. destruct o as [t|].
    + destruct Ho as (Ht & Hlt & Hg). split.
      * intros t0. rewrite Hg. destruct (decide (t0 = t)) as [->|Hne]; [by rewrite lookup_insert_eq|].
        by rewrite lookup_insert_ne, Hag by congruence.
      * intros t0 v. destruct (decide (t0 = t)) as [->|Hne]; [lia|].
        rewrite lookup_insert_ne by congruence. intros H%Hb. lia.
    + split; [intros t0; by rewrite Ho, Hag|]. intros t0 v H%Hb. lia.
  - destruct (unpin t r) as [r'|e] eqn:Eu; [|done]. cbn. intros [= <-].
    destruct (unpin_spec t fresh r r' Hok Eu) as [Hok' Hg]. split; [|done]. split_and!; [done| |].
    + intros t0. rewrite Hg. destruct (decide (t0 = t)) as [->|Hne]; [by rewrite lookup_delete_eq|].
      by rewrite lookup_delete_ne, Hag by congruence.
    + intros t0 v [_ H]%lookup_delete_Some. by eapply Hb.
Qed.

Lemma reg_run_inv ops st st' :
  reg_inv st -> for_each reg_op ops st = Ok st' -> reg_inv st' /\ st.1.2 <= st'.1.2.
Proof.
  revert st. induction ops as [|op ops IH]; intros st Hst; cbn; [intros [= <-]; split; [done|lia]|].
  destruct (reg_op op st) as [st1|] eqn:E; [|done]. cbn. intros Hrun.
  destruct (reg_op_inv op st st1 Hst E) as [Hst1 Hle].
  destruct (IH st1 Hst1 Hrun) as [? ?]. split; [done|lia].
Qed.

Lemma new_reg_inv m fresh : reg_inv ((new, m, fresh), ∅).
Proof.
  assert (Hnone : forall i, rslot new i = None) by (intros i; unfold rslot, av_get, zget; cbn; by case_match).
  split; [|split; [intros t; unfold get; fold (rslot new (ref_slot t)); by rewrite Hnone, lookup_empty|]].
  - split; try done.
    + intros i s t. by rewrite Hnone.
    + constructor.
    + intros i. cbn. rewrite Hnone. split; [by intros ?%not_elem_of_nil|naive_solver].
    + intros i s. by rewrite Hnone.
  - intros t v. by rewrite lookup_empty.
Qed.

(** An absent reference stays absent. *)
Lemma absent_stays ops st st' t :
  reg_inv st -> for_each reg_op ops st = Ok st' -> st.2 !! t = None -> ref_token t < st.1.2 -> st'.2 !! t = None.
Proof.
  revert st. induction ops as [|op ops IH]; intros st Hst; cbn; [by intros [= <-]|].
  destruct (reg_op op st) as [st1|] eqn:E; [|done]. cbn. intros Hrun Hn Hlt.
  destruct (reg_op_inv op st st1 Hst E) as [Hst1 Hle]. apply (IH st1 Hst1 Hrun); [|lia].
  destruct st as [[[r m] fresh] refs]. destruct Hst as (Hok & _ & _). cbn in *. destruct op as [value|t1]; cbn in E.
  - destruct (pin_spec value fresh r m Hok) as (r' & m' & fresh' & o & Ep & _ & _ & Ho). rewrite Ep in E.
    injection E as <-. cbn. destruct o as [t2|]; [|done]. destruct Ho as (Ht2 & _).
    rewrite lookup_insert_ne; [done|]. intros ->. lia.
  - destruct (unpin t1 r) as [r'|]; [|done]. injection E as <-. cbn. apply lookup_delete_None. by right.
Qed.

End Facts.

(** C40: the registry refines a finite map from references to values. After any sequence of
    pins and releases (of any references, live, stale or never issued here), a reference
    resolves to exactly the value it was pinned with, if it was pinned and not released
    since, and to nothing otherwise. *)
Theorem registry_refines_map {AL : Allocator} {LAWS : AllocatorLaws AL} (slot_size heap fresh : Z)
  (ops : list RegOp) (m : MemoryMeter) (r' : Registry) m' fresh' refs (t : RegistryRef) :
  0 < slot_size ->
  for_each (reg_op slot_size heap) ops ((new, m, fresh), ∅) = Ok ((r', m', fresh'), refs) ->
  get r' t = refs !! t.
Proof.
  intros Hs Hrun. eapply reg_run_inv in Hrun as [(_ & Hag & _) _]; [|done|apply new_reg_inv]. apply Hag.
Qed.

(** A released reference never resolves again. Whatever is pinned or released afterwards,
    and however often the 32-bit generation of its slot has wrapped, a reference that was
    released stays dead, because its token's identity is never reissued. *)
Theorem released_reference_stays_dead {AL : Allocator} {LAWS : AllocatorLaws AL} (slot_size heap fresh : Z)
  (ops1 ops2 : list RegOp) (m : MemoryMeter) (r1 r2 : Registry) m1 m2 fresh1 fresh2 refs1 refs2 (t : RegistryRef) v :
  0 < slot_size ->
  for_each (reg_op slot_size heap) ops1 ((new, m, fresh), ∅) = Ok ((r1, m1, fresh1), refs1) ->
  get r1 t = Some v ->
  for_each (reg_op slot_size heap) (RUnpin t :: ops2) ((r1, m1, fresh1), refs1) = Ok ((r2, m2, fresh2), refs2) ->
  get r2 t = None.
Proof.
  intros Hs H1 Hg H2. eapply reg_run_inv in H1 as [Hinv _]; [|done|apply new_reg_inv].
  pose proof (reg_run_inv slot_size Hs heap _ _ _ Hinv H2) as [(_ & Hag & _) _]. rewrite Hag.
  pose proof Hinv as (_ & Hag1 & Hb1). rewrite Hag1 in Hg. apply Hb1 in Hg.
  cbn [for_each] in H2. destruct (reg_op slot_size heap (RUnpin t) _) as [st|] eqn:E; [|done]. cbn [result_bind] in H2.
  pose proof (reg_op_inv slot_size Hs heap _ _ _ Hinv E) as [Hst Hle].
  cbn in E. destruct (unpin t r1) as [r'|]; [|done]. injection E as <-.
  apply (absent_stays slot_size Hs heap ops2 _ _ t Hst H2); [apply lookup_delete_eq|done].
Qed.

(** ** Images *)

Definition image_ok (image : RegistryImage) : Prop :=
  NoDup (ri_free image) /\
  (forall i, i ∈ ri_free image -> exists s, zget (ri_anchors image) i = Some s /\ ri_live s = false) /\
  (forall i s, zget (ri_anchors image) i = Some s -> ri_live s = false ->
     i ∈ ri_free image /\ ri_value s = VNil).

Lemma validate_free_spec image free seen :
  len seen = len image ->
  match validate_free image free seen with
  | Ok seen' => NoDup free /\ len seen' = len image /\
      (forall i, i ∈ free -> zget seen i <> Some true /\ exists s, zget image i = Some s /\ ri_live s = false) /\
      (forall i, zget seen' i = Some true <-> zget seen i = Some true \/ i ∈ free)
  | Err _ => ~ (NoDup free /\ (forall i, i ∈ free -> zget seen i <> Some true) /\
      (forall i, i ∈ free -> exists s, zget image i = Some s /\ ri_live s = false))
  end.
Proof.
  revert seen. induction free as [|i free IH]; intros seen Hlen; cbn.
  { split_and!; [constructor|done|by intros ? ?%not_elem_of_nil|set_solver]. }
  destruct (zget image i) as [s|] eqn:Hi.
  2: { intros (_ & _ & H). destruct (H i) as (s & Hs & _); [set_solver|congruence]. }
  assert (is_Some (zget seen i)) as [b Hb].
  { apply zget_is_Some. rewrite Hlen. apply zget_is_Some. eauto. }
  rewrite Hb. cbn. destruct b.
  { intros (_ & H & _). destruct (H i); [set_solver|done]. }
  destruct (ri_live s) eqn:Hl.
  { intros (_ & _ & H). destruct (H i) as (s' & Hs' & Hl'); [set_solver|congruence]. }
  specialize (IH (zalter (fun _ => true) i seen) ltac:(by rewrite len_zalter)).
  assert (Hz : forall j, zget (zalter (fun _ => true) i seen) j = Some true <-> zget seen j = Some true \/ j = i).
  { intros j. rewrite zget_zalter_if. case_decide as Hj; [subst j; rewrite Hb; naive_solver|naive_solver]. }
  destruct (validate_free image free (zalter (fun _ => true) i seen)) as [seen'|e].
  - destruct IH as (Hn & Hl' & Hf & Hs'). split_and!.
    + constructor; [|done]. intros Hx. destruct (Hf i Hx) as [Hne _]. apply Hne, Hz. by right.
    + done.
    + intros j [->|Hj]%elem_of_cons; [rewrite Hb; split; [done|eauto]|].
      destruct (Hf j Hj) as [Hne ?]. split; [|done]. intros Ht. apply Hne, Hz. by left.
    + intros j. rewrite Hs', Hz, elem_of_cons. tauto.
  - intros (Hn & Hf & Hs'). apply IH. apply NoDup_cons in Hn as [Hni Hn]. split_and!; [done| |set_solver].
    intros j Hj Ht%Hz. destruct Ht as [Ht| ->]; [by apply (Hf j); [set_solver|]|done].
Qed.

Lemma validate_vacant_spec (slots : list RegistrySlotImage) (seen : list bool) :
  length seen = length slots ->
  validate_vacant slots seen = Ok tt <->
  forall (p : nat) s, slots !! p = Some s -> ri_live s = false -> seen !! p = Some true /\ ri_value s = VNil.
Proof.
  revert seen. induction slots as [|s slots IH]; intros [|b seen] Hl; cbn in Hl; try done.
  injection Hl as Hl. cbn [validate_vacant]. specialize (IH seen Hl). split.
  - destruct (ri_live s) eqn:El, b, (is_nil (ri_value s)) eqn:En; cbn; try done; intros Hv p s' Hp Hl';
      (destruct p as [|p]; [cbn in Hp; simplify_eq; first [congruence|split; [done|by apply is_nil_true]]
                           |by eapply (proj1 IH Hv p s')]).
  - intros Hall. assert (Hrest : validate_vacant slots seen = Ok tt) by (apply IH; intros p s'; exact (Hall (S p) s')).
    destruct (ri_live s) eqn:El; cbn; [done|]. destruct (Hall 0%nat s eq_refl El) as [Hb Hn].
    injection Hb as ->. by rewrite Hn.
Qed.

Lemma validate_image_ok image : validate_image image = Ok tt <-> image_ok image.
Proof.
  unfold validate_image, image_ok. set (seen0 := replicate (length (ri_anchors image)) false).
  assert (Hlen : len seen0 = len (ri_anchors image)) by (unfold len, seen0; by rewrite length_replicate).
  assert (Hf0 : forall i, zget seen0 i <> Some true).
  { intros i H. apply zget_Some in H as [_ H]. unfold seen0 in H. by apply lookup_replicate in H as [? _]. }
  pose proof (validate_free_spec (ri_anchors image) (ri_free image) seen0 Hlen) as H.
  destruct (validate_free _ _ seen0) as [seen|e]; cbn.
  - destruct H as (Hn & Hl & Hf & Hs). rewrite validate_vacant_spec by (unfold len in Hl; lia). split.
    + intros Hv. split_and!; [done|naive_solver|]. intros i s Hi Hls.
      apply zget_Some in Hi as [Hi0 Hi]. destruct (Hv _ s Hi Hls) as [Hseen Hval]. split; [|done].
      assert (zget seen i = Some true) as Hz by (unfold zget; by rewrite (proj2 (Z.ltb_ge _ _)) by lia).
      apply Hs in Hz as [Hz|Hz]; [by apply Hf0 in Hz|done].
    + intros (_ & _ & Hv) p s Hp Hls. destruct (Hv (Z.of_nat p) s) as [Hin Hval]; [by rewrite zget_of_nat|done|].
      split; [|done]. assert (zget seen (Z.of_nat p) = Some true) as Hz by (apply Hs; by right).
      by rewrite zget_of_nat in Hz.
  - split; [done|]. intros (Hn & Hf & _). destruct H. split_and!; [done| |done]. intros i _. apply Hf0.
Qed.

Lemma restore_slots_image l index heap fresh :
  slot_image <$> (restore_slots l index heap fresh).1 = l.
Proof.
  revert index fresh. induction l as [|s l IH]; intros index fresh; [done|]. cbn.
  destruct (ri_live s) eqn:El.
  - specialize (IH (index + 1) (fresh + 1)). destruct (restore_slots l (index + 1) heap (fresh + 1)) as [rest f].
    cbn in *. rewrite IH. destruct s. cbn in *. by subst.
  - specialize (IH (index + 1) fresh). destruct (restore_slots l (index + 1) heap fresh) as [rest f].
    cbn in *. rewrite IH. destruct s. cbn in *. by subst.
Qed.

(** The registry survives a snapshot. The image of any registry the operations can build
    (below 2^32 slots) is accepted by the image validator, which accepts exactly the
    consistent images, and restoring it yields a registry with the same image: the same
    values, generations and liveness, the same free list and the same roots for the
    collector. *)
Theorem registry_snapshot_round_trip {AL : Allocator} {LAWS : AllocatorLaws AL} (slot_size heap fresh : Z)
  (ops : list RegOp) (m m2 : MemoryMeter) (r : Registry) m' fresh' refs (cap free_cap heap2 fresh2 : Z) :
  0 < slot_size ->
  for_each (reg_op slot_size heap) ops ((new, m, fresh), ∅) = Ok ((r, m', fresh'), refs) ->
  av_len (anchors r) <= 4294967296 ->
  exists r2 m3 fresh3,
    from_snapshot_image slot_size (snapshot_image r) cap free_cap heap2 fresh2 m2 = Ok ((r2, m3), fresh3) /\
    snapshot_image r2 = snapshot_image r /\ gc_anchors r2 = gc_anchors r.
Proof.
  intros Hs Hrun Hlen. eapply reg_run_inv in Hrun as [(Hok & _ & _) _]; [|done|apply new_reg_inv].
  assert (Himg : forall i s, zget (ri_anchors (snapshot_image r)) i = Some s <->
    exists s0, rslot r i = Some s0 /\ s = slot_image s0).
  { intros i s. unfold rslot, av_get, zget. cbn. destruct (i <? 0); [naive_solver|].
    rewrite list_lookup_fmap, fmap_Some. naive_solver. }
  assert (Hv : image_ok (snapshot_image r)).
  { split_and!; cbn.
    - apply (rok_free_nodup _ _ _ Hok).
    - intros i (_ & s & Hs' & Ht)%(rok_free _ _ _ Hok). exists (slot_image s). split; [apply Himg; eauto|].
      unfold slot_image. cbn. by rewrite Ht.
    - intros i s (s0 & Hs0 & ->)%Himg Hl. unfold slot_image in Hl. cbn in Hl.
      assert (Hin : i ∈ items (reg_free r)).
      { apply (rok_free _ _ _ Hok). split; [apply av_get_range in Hs0; lia|]. exists s0. split; [done|].
        by destruct (rs_token s0). }
      split; [done|]. by apply (rok_vacant _ _ _ Hok i s0). }
  unfold from_snapshot_image. rewrite (proj2 (validate_image_ok _) Hv). cbn [result_bind].
  pose proof (restore_slots_image (ri_anchors (snapshot_image r)) 0 heap2 fresh2) as HR.
  destruct (restore_slots _ 0 heap2 fresh2) as [slots fresh3]. cbn in HR. unfold from_vec, recharge.
  do 3 eexists. split; [done|]. unfold snapshot_image, gc_anchors. cbn. rewrite HR. split; [done|].
  f_equal. apply (f_equal (fmap ri_value)) in HR. rewrite <- !list_fmap_compose in HR. exact HR.
Qed.

(** ** Witnesses *)

Section Witnesses.
#[local] Existing Instance exact_allocator.

Definition first_ref : RegistryRef := mkRef 0 0 7 100.

Definition reg_ops : list RegOp := [RPin (VInteger 5); RPin (VInteger 6)].

Definition reg_after (ops : list RegOp) : RegState * gmap RegistryRef RawValue :=
  match for_each (reg_op 48 7) ops ((new, meter_default, 100), ∅) with Ok st => st | Err _ => ((new, meter_default, 100), ∅) end.

Lemma reg_after_run : for_each (reg_op 48 7) reg_ops ((new, meter_default, 100), ∅) = Ok (reg_after reg_ops).
Proof. vm_compute. reflexivity. Qed.

Lemma registry_refines_map_witness : get (reg_after reg_ops).1.1.1 first_ref = Some (VInteger 5).
Proof.
  etransitivity;
    [exact (registry_refines_map 48 7 100 reg_ops meter_default _ _ _ _ first_ref ltac:(lia) reg_after_run)|].
  vm_compute. reflexivity.
Defined.

Lemma released_reference_stays_dead_witness :
  get (reg_after (reg_ops ++ [RUnpin first_ref; RPin (VInteger 8)])).1.1.1 first_ref = None.
Proof.
  eapply (released_reference_stays_dead 48 7 100 reg_ops [RPin (VInteger 8)] meter_default);
    [lia|exact reg_after_run|vm_compute; reflexivity|vm_compute; reflexivity].
Defined.

Lemma registry_snapshot_round_trip_witness :
  av_len (anchors (reg_after reg_ops).1.1.1) <= 4294967296 /\
  exists r2 m3 fresh3,
    from_snapshot_image 48 (snapshot_image (reg_after reg_ops).1.1.1) 2 0 9 0 meter_default = Ok ((r2, m3), fresh3) /\
    snapshot_image r2 = snapshot_image (reg_after reg_ops).1.1.1 /\ gc_anchors r2 = gc_anchors (reg_after reg_ops).1.1.1.
Proof.
  assert (Hl : av_len (anchors (reg_after reg_ops).1.1.1) <= 4294967296) by (vm_compute; discriminate).
  split; [exact Hl|].
  exact (registry_snapshot_round_trip 48 7 100 reg_ops meter_default meter_default _ _ _ _ 2 0 9 0 ltac:(lia) reg_after_run Hl).
Defined.

End Witnesses.
