(* ===== verification/LuaTable.v ===== *)
(** * LuaTable: the Lua table object

    Model of [ruau-vm/src/table.rs]. A table has a dense array part, an insertion-ordered
    slot vector with tombstones for everything else, and an index from normalized keys to
    slots. The vectors carry their capacity, because every mutation reconciles the heap
    meter with it; the capacity the key index reports after an insertion or a removal is a
    parameter ([MapAllocator]), as are the sizes of the element types ([TableSizes]). The
    keyed hasher only orders the buckets of the index, which no operation observes. *)

From Stdlib Require Import ZArith Lia.
From stdpp Require Import base numbers list option gmap countable.
From S2P Require Import Prelude RustVec Value.

(** ** Keys *)

Inductive HandleKind : Set := KStr | KTable | KFunction | KUserdata | KThread | KBuffer.

Inductive LuaKey : Set :=
| LBoolean (b : bool)
| LInteger (i : Z)
| LNativeInt (i : Z)
| LNumber (bits : Z)
| LVector (x y z : Z)
| LLightUserdata (handle tag : Z)
| LHandle (kind : HandleKind) (index generation : Z).

Inductive KeyRejection : Set := RejectNil | RejectNaN.

#[export] Instance HandleKind_eq_dec : EqDecision HandleKind.
Proof. solve_decision. Defined.
#[export] Instance LuaKey_eq_dec : EqDecision LuaKey.
Proof. solve_decision. Defined.

#[export] Instance HandleKind_countable : Countable HandleKind.
Proof.
  refine (inj_countable'
    (fun k => match k with KStr => 0 | KTable => 1 | KFunction => 2 | KUserdata => 3
                         | KThread => 4 | KBuffer => 5 end)
    (fun z => if z =? 0 then KStr else if z =? 1 then KTable else if z =? 2 then KFunction
              else if z =? 3 then KUserdata else if z =? 4 then KThread else KBuffer) _).
  by intros [].
Defined.

#[export] Instance LuaKey_countable : Countable LuaKey.
Proof.
  refine (inj_countable'
    (fun k => match k with
              | LBoolean b => inl (inl (inl b))
              | LInteger i => inl (inl (inr i))
              | LNativeInt i => inl (inr (inl i))
              | LNumber i => inl (inr (inr i))
              | LVector x y z => inr (inl (inl (x, y, z)))
              | LLightUserdata h t => inr (inl (inr (h, t)))
              | LHandle k i g => inr (inr (k, i, g))
              end)
    (fun s => match s with
              | inl (inl (inl b)) => LBoolean b
              | inl (inl (inr i)) => LInteger i
              | inl (inr (inl i)) => LNativeInt i
              | inl (inr (inr i)) => LNumber i
              | inr (inl (inl (x, y, z))) => LVector x y z
              | inr (inl (inr (h, t))) => LLightUserdata h t
              | inr (inr (k, i, g)) => LHandle k i g
              end) _).
  by intros [].
Defined.

Definition key_rejection (value : RawValue) : option KeyRejection :=
  match value with
  | VNil => Some RejectNil
  | VNumber n => if f64_is_nan n then Some RejectNaN else None
  | VVector x y z =>
      if f32_is_nan x || f32_is_nan y || f32_is_nan z then Some RejectNaN else None
  | _ => None
  end.

Definition I64_MAX : Z := 9223372036854775807.

(** [component.to_bits()] with the negative zero canonicalized. *)
Definition canon (component : Z) : Z := if component =? 2147483648 then 0 else component.

Definition handle_key (kind : HandleKind) (h : RawGc) : LuaKey :=
  LHandle kind (gc_index h) (gc_generation h).

(** The bounds [i64::MIN as f64] and [i64::MAX as f64] are [-2^63] and [2^63]; the cast
    [n as i64] saturates. *)
Definition normalize_key (value : RawValue) : option LuaKey :=
  match key_rejection value with
  | Some _ => None
  | None =>
      match value with
      | VNil => None
      | VBoolean b => Some (LBoolean b)
      | VInteger i => Some (LNativeInt i)
      | VNumber n =>
          let noninteger := Some (LNumber (if f64_is_zero n then 0 else n)) in
          match f64_integral n with
          | Some z =>
              if (-9223372036854775808 <=? z) && (z <=? 9223372036854775808)
              then Some (LInteger (Z.min z I64_MAX)) else noninteger
          | None => noninteger
          end
      | VVector x y z => Some (LVector (canon x) (canon y) (canon z))
      | VLightUserdata h t => Some (LLightUserdata h t)
      | VString g => Some (handle_key KStr g)
      | VTable g => Some (handle_key KTable g)
      | VFunction g => Some (handle_key KFunction g)
      | VUserdata g => Some (handle_key KUserdata g)
      | VThread g => Some (handle_key KThread g)
      | VBuffer g => Some (handle_key KBuffer g)
      end
  end.

Definition array_key (slot : Z) : Z := f64_of_u64 (slot + 1).

(** ** Tables *)

Record HashSlot : Set := mkSlot { key_value : RawValue; slot_value : option RawValue }.

(** The sizes of [RawValue], [HashSlot] and [(LuaKey, usize)]. *)
Class TableSizes : Type := { size_RawValue : Z; size_HashSlot : Z; size_IndexEntry : Z }.

(** [map_insert n cap]: the capacity reported after an insertion that leaves [n] entries,
    [None] when the map cannot grow; [map_settle n cap]: after a removal or a clear. *)
Class MapAllocator : Type := {
  map_insert : Z -> Z -> option Z;
  map_settle : Z -> Z -> Z;
}.

Record LuaTable : Type := mkTable {
  array : Vec RawValue;
  hash : Vec HashSlot;
  index : gmap LuaKey Z;
  index_capacity : Z;
  metatable : option RawGc;
  readonly : bool;
  safeenv : bool;
  t_charged : Z;
}.

Record HashSlotImage : Set := mkSlotImage { image_key : RawValue; image_value : option RawValue }.

Record LuaTableImage : Type := mkTableImage {
  image_array : list RawValue;
  image_hash : list HashSlotImage;
  image_metatable : option RawGc;
  image_readonly : bool;
  image_safeenv : bool;
}.

Inductive Cursor : Set :=
| CArrayStart
| CArray (i : Z)
| CHash (idx : Z).

Inductive NextStep : Set :=
| NPair (key value : RawValue)
| NDone
| NInvalidKey.

Module LuaTable.
Section LuaTable.
Context {AL : Allocator} {MA : MapAllocator} {SZ : TableSizes}.
Implicit Types (t : LuaTable) (m : MemoryMeter).

Definition arr t : list RawValue := items (array t).
Definition slots t : list HashSlot := items (hash t).

Definition new : LuaTable := mkTable vec_new vec_new ∅ 0 None false false 0.

Definition with_array (a : Vec RawValue) : LuaTable := mkTable a vec_new ∅ 0 None false false 0.

Definition try_with_array_capacity (n : Z) : result Fault LuaTable :=
  match try_reserve size_RawValue vec_new n with
  | Some a => Ok (mkTable a vec_new ∅ 0 None false false 0)
  | None => Err TryReserveError
  end.

Definition array_capacity_footprint (n : Z) : option Z :=
  if n * size_RawValue <=? USIZE_MAX then Some (n * size_RawValue) else None.

Definition with_containers (a : Vec RawValue) (h : Vec HashSlot) (ix : gmap LuaKey Z)
  (cap : Z) t : LuaTable :=
  mkTable a h ix cap (metatable t) (readonly t) (safeenv t) (t_charged t).

Definition set_charged (c : Z) t : LuaTable :=
  mkTable (array t) (hash t) (index t) (index_capacity t) (metatable t) (readonly t) (safeenv t) c.

Definition footprint t : Z :=
  capacity (array t) * size_RawValue + capacity (hash t) * size_HashSlot +
  index_capacity t * size_IndexEntry.

Definition recharge t m : LuaTable * MemoryMeter :=
  let now := footprint t in
  if now =? t_charged t then (t, m) else (set_charged now t, adjust m (t_charged t) now).

(** [attach_meter]: [old] is the meter the table held, [m] the heap's. *)
Definition attach_meter t (old m : MemoryMeter) : LuaTable * MemoryMeter * MemoryMeter :=
  let old' := adjust old (t_charged t) 0 in
  let '(t', m') := recharge (set_charged 0 t) m in
  (t', old', m').

Definition set_metatable (mt : option RawGc) t : LuaTable :=
  mkTable (array t) (hash t) (index t) (index_capacity t) mt (readonly t) (safeenv t) (t_charged t).

Definition gc_footprint t : Z := t_charged t.

(** ** Reading *)

Definition array_slot t (i : Z) : option Z :=
  if (1 <=? i) && (i <=? len (arr t)) then Some (i - 1) else None.

(** [self.hash[idx].value.unwrap_or(Nil)]; the slot of an index entry exists
    (invariant [index_slot]). *)
Definition slot_read t (idx : Z) : RawValue :=
  match zget (slots t) idx with
  | Some s => default VNil (slot_value s)
  | None => VNil
  end.

(** The value under a normalized key. *)
Definition get_norm t (norm : LuaKey) : RawValue :=
  let in_hash := match index t !! norm with Some idx => slot_read t idx | None => VNil end in
  match norm with
  | LInteger i =>
      match array_slot t i with
      | Some slot => default VNil (zget (arr t) slot)
      | None => in_hash
      end
  | _ => in_hash
  end.

Definition get t (key : RawValue) : RawValue :=
  match normalize_key key with
  | None => VNil
  | Some norm => get_norm t norm
  end.

(** ** Writing *)

Definition write_slot (v : option RawValue) (s : HashSlot) : HashSlot := mkSlot (key_value s) v.

Definition hash_set t (norm : LuaKey) (key value : RawValue) : result Fault LuaTable :=
  match index t !! norm with
  | Some idx =>
      let v := if is_nil value then None else Some value in
      Ok (with_containers (array t) (vec_alter (write_slot v) idx (hash t))
            (index t) (index_capacity t) t)
  | None =>
      if is_nil value then Ok t
      else
        let idx := vec_len (hash t) in
        let? h := push size_HashSlot (hash t) (mkSlot key (Some value)) in
        match map_insert (Z.of_nat (size (index t)) + 1) (index_capacity t) with
        | None => Err AllocAbort
        | Some cap => Ok (with_containers (array t) h (<[norm := idx]> (index t)) cap t)
        end
  end.

(** The loop of [absorb_from_hash]; each round removes an index entry, which bounds it. *)
Fixpoint absorb (fuel : nat) t : result Fault LuaTable :=
  match fuel with
  | O => Ok t
  | S fuel' =>
      let next_key := LInteger (len (arr t) + 1) in
      match index t !! next_key with
      | None => Ok t
      | Some idx =>
          match zget (slots t) idx ≫= slot_value with
          | None => Ok t
          | Some value =>
              let? a := push size_RawValue (array t) value in
              let ix := delete next_key (index t) in
              absorb fuel'
                (with_containers a (vec_alter (write_slot None) idx (hash t)) ix
                   (map_settle (Z.of_nat (size ix)) (index_capacity t)) t)
          end
      end
  end.

Definition absorb_from_hash t : result Fault LuaTable := absorb (S (size (index t))) t.

Definition rehash t : result Fault LuaTable := absorb_from_hash t.

Definition set_inner t (key value : RawValue) : result Fault (LuaTable * bool) :=
  match normalize_key key with
  | None => Ok (t, false)
  | Some norm =>
      let in_hash := let? t' := hash_set t norm key value in Ok (t', true) in
      match norm with
      | LInteger i =>
          match array_slot t i with
          | Some slot =>
              Ok (with_containers (vec_alter (fun _ => value) slot (array t)) (hash t)
                    (index t) (index_capacity t) t, true)
          | None =>
              if (1 <=? i) && (i =? len (arr t) + 1) && negb (is_nil value) then
                let? a := push size_RawValue (array t) value in
                let? t' := absorb_from_hash
                             (with_containers a (hash t) (index t) (index_capacity t) t) in
                Ok (t', true)
              else in_hash
          end
      | _ => in_hash
      end
  end.

Definition set t m (key value : RawValue) : result Fault ((LuaTable * MemoryMeter) * bool) :=
  let? r := set_inner t key value in Ok (recharge r.1 m, r.2).

(** ** The border *)

Definition int_present t (i : Z) : bool :=
  if (1 <=? i) && (i <=? len (arr t)) then negb (is_nil (default VNil (zget (arr t) (i - 1))))
  else if I64_MAX <? i then false
  else match index t !! LInteger i with
       | Some idx => match zget (slots t) idx ≫= slot_value with Some _ => true | None => false end
       | None => false
       end.

(** [array_border], counting down. *)
Fixpoint array_border t (hi : nat) : Z :=
  match hi with
  | O => 0
  | S hi' =>
      if negb (is_nil (default VNil (zget (arr t) (Z.of_nat hi')))) then Z.of_nat hi
      else array_border t hi'
  end.

(** The three loops of [hash_border]: doubling, the linear fallback, bisection. *)
Fixpoint linear (fuel : nat) t (k : Z) : Z :=
  match fuel with
  | O => k - 1
  | S fuel' => if int_present t k then linear fuel' t (k + 1) else k - 1
  end.

Fixpoint bisect (fuel : nat) t (i j : Z) : Z :=
  match fuel with
  | O => i
  | S fuel' =>
      if 1 <? j - i then
        let mid := i + (j - i) / 2 in
        if int_present t mid then bisect fuel' t mid j else bisect fuel' t i mid
      else i
  end.

Fixpoint double (fuel : nat) t (start i j : Z) : Z :=
  match fuel with
  | O => i
  | S fuel' =>
      if int_present t j then
        if USIZE_MAX / 2 <? j
        then linear (S (length (arr t) + length (slots t))) t (start + 1)
        else double fuel' t start j (j * 2)
      else bisect 64 t i j
  end.

Definition hash_border t (start : Z) : Z := double 65 t start start (start + 1).

Definition table_length t : Z :=
  let n := len (arr t) in
  if (0 <? n) && is_nil (default VNil (zget (arr t) (n - 1)))
  then array_border t (length (arr t))
  else match index t !! LInteger (n + 1) with
       | Some _ => hash_border t n
       | None => n
       end.

(** ** Iteration *)

Fixpoint scan_hash (l : list HashSlot) : NextStep :=
  match l with
  | [] => NDone
  | s :: l' => match slot_value s with
               | Some value => NPair (key_value s) value
               | None => scan_hash l'
               end
  end.

Definition advance_hash t (idx : Z) : NextStep := scan_hash (drop (Z.to_nat idx) (slots t)).

(** The array scan from [probe], falling through to the hash part. *)
Fixpoint scan_array t (probe : Z) (l : list RawValue) : NextStep :=
  match l with
  | [] => advance_hash t 0
  | v :: l' => if negb (is_nil v) then NPair (VNumber (array_key probe)) v
               else scan_array t (probe + 1) l'
  end.

Definition advance t (c : Cursor) : NextStep :=
  match c with
  | CArrayStart => scan_array t 0 (arr t)
  | CArray i => scan_array t (i + 1) (drop (Z.to_nat (i + 1)) (arr t))
  | CHash idx => advance_hash t (idx + 1)
  end.

Definition next t (key : RawValue) : NextStep :=
  let in_hash norm := match index t !! norm with
                      | Some idx => advance t (CHash idx)
                      | None => NInvalidKey
                      end in
  match key with
  | VNil => advance t CArrayStart
  | _ =>
      match normalize_key key with
      | Some (LInteger i) =>
          match array_slot t i with
          | Some _ => advance t (CArray (i - 1))
          | None => in_hash (LInteger i)
          end
      | Some norm => in_hash norm
      | None => NInvalidKey
      end
  end.

Definition array_len t : Z := len (arr t).

Definition scan_len t : Z := len (arr t) + len (slots t).

(** [for_each_entry], as the list of the pairs it visits. *)
Definition array_entries (l : list RawValue) : list (RawValue * RawValue) :=
  imap (fun i v => (VNumber (array_key (Z.of_nat i)), v)) l.

Definition hash_entry (s : HashSlot) : option (RawValue * RawValue) :=
  (fun v => (key_value s, v)) <$> slot_value s.

Definition for_each_entry t : list (RawValue * RawValue) :=
  filter (fun kv => is_nil kv.2 = false) (array_entries (arr t)) ++ omap hash_entry (slots t).

(** ** The rest *)

(** [Vec::clone]: a fresh allocation of the same elements. *)
Definition clone_vec {A} (size : Z) (v : Vec A) : result Fault (Vec A) :=
  match try_reserve size (vec_new (A := A)) (vec_len v) with
  | Some w => Ok (mkVec (items v) (capacity w))
  | None => Err AllocAbort
  end.

(** The clone has no metatable flags, starts uncharged, and its index reports [cap]. *)
Definition shallow_clone t (cap : Z) : result Fault LuaTable :=
  let? a := clone_vec size_RawValue (array t) in
  let? h := clone_vec size_HashSlot (hash t) in
  Ok (mkTable a h (index t) cap (metatable t) false false 0).

Definition clear t m : LuaTable * MemoryMeter :=
  recharge (with_containers (mkVec ((fun _ => VNil) <$> arr t) (capacity (array t)))
              (vec_clear (hash t)) ∅ (map_settle 0 (index_capacity t)) t) m.

Definition maxn t : Z :=
  let in_array := foldl (fun max iv => if is_nil iv.2 then max else array_key iv.1) 0
                    (imap (fun i v => (Z.of_nat i, v)) (arr t)) in
  foldl (fun max s =>
           match slot_value s, key_value s with
           | Some _, VNumber n => if f64_gt n max then n else max
           | Some _, VInteger i => if f64_gt (f64_of_i64 i) max then f64_of_i64 i else max
           | _, _ => max
           end) in_array (slots t).

Definition snapshot_image t : LuaTableImage :=
  mkTableImage (arr t) ((fun s => mkSlotImage (key_value s) (slot_value s)) <$> slots t)
    (metatable t) (readonly t) (safeenv t).

(** The index rebuilt from the live slots, later slots overwriting. *)
Definition index_of (l : list HashSlot) : gmap LuaKey Z :=
  foldl (fun ix p =>
           match slot_value p.2, normalize_key (key_value p.2) with
           | Some _, Some norm => <[norm := p.1]> ix
           | _, _ => ix
           end) ∅ (imap (fun i s => (Z.of_nat i, s)) l).

(** The capacities of the deserialized vectors are the image's. *)
Definition from_snapshot_image (image : LuaTableImage) (arr_cap hash_cap ix_cap : Z) m
  : LuaTable * MemoryMeter :=
  let h := (fun s => mkSlot (image_key s) (image_value s)) <$> image_hash image in
  recharge (mkTable (mkVec (image_array image) arr_cap) (mkVec h hash_cap) (index_of h) ix_cap
              (image_metatable image) (image_readonly image) (image_safeenv image) 0) m.

End LuaTable.
End LuaTable.
