(* ===== verification/LuaTableFacts.v ===== *)
(** * LuaTableFacts: a table is a finite map on normalized keys

    The representation invariant [table_ok] of [table.rs]: every index entry points to a
    slot whose key normalizes to it, every live slot is indexed and holds a non-nil value,
    and the keys the array covers (and the next one) are not live in the hash part. Reads
    are a function of the normalized key; writes update it at one key, also when the array
    absorbs successors from the hash part. *)

From Stdlib Require Import ZArith Lia.
From stdpp Require Import base numbers list option gmap sets.
From S2P Require Import Prelude RustVec Value LuaTable.
Import LuaTable.

(** The live value of a slot, and the value the hash part holds under a key. *)
Definition slot_live (t : LuaTable) (idx : Z) : option RawValue := zget (slots t) idx ≫= slot_value.
Definition hash_get (t : LuaTable) (k : LuaKey) : RawValue := default VNil (index t !! k ≫= slot_live t).

(** The array part covers [k]. *)
Definition in_array (t : LuaTable) (k : LuaKey) : bool :=
  match k with LInteger i => (1 <=? i) && (i <=? len (arr t)) | _ => false end.

(** The invariant with the array keys dead in the hash part up to [n]. *)
Record table_ok_upto (n : Z) (t : LuaTable) : Prop := {
  index_slot k idx : index t !! k = Some idx ->
    exists s, zget (slots t) idx = Some s /\ normalize_key (key_value s) = Some k;
  live_indexed idx s v : zget (slots t) idx = Some s -> slot_value s = Some v ->
    v <> VNil /\ exists k, normalize_key (key_value s) = Some k /\ index t !! k = Some idx;
  shadowed i idx : index t !! LInteger i = Some idx -> 1 <= i <= n -> slot_live t idx = None;
}.

Definition table_ok (t : LuaTable) : Prop := table_ok_upto (len (arr t) + 1) t.

Lemma slot_read_live t idx : slot_read t idx = default VNil (slot_live t idx).
Proof. unfold slot_read, slot_live. by destruct (zget (slots t) idx). Qed.

Lemma get_norm_eq t k :
  get_norm t k = if in_array t k
                 then match k with LInteger i => default VNil (zget (arr t) (i - 1)) | _ => VNil end
                 else hash_get t k.
Proof.
  assert (Hh : (match index t !! k with Some idx => slot_read t idx | None => VNil end) = hash_get t k).
  { unfold hash_get. destruct (index t !! k); [|done]. apply slot_read_live. }
  unfold get_norm. rewrite Hh. destruct k as [|i| | | | |]; try done. cbn.
  unfold array_slot. by destruct (_ && _).
Qed.

(** Two keys never share a slot. *)
Lemma index_inj n t k k' idx :
  table_ok_upto n t -> index t !! k = Some idx -> index t !! k' = Some idx -> k = k'.
Proof.
  intros Hok H1 H2. apply (index_slot _ _ Hok) in H1 as (s & Hs & Hk).
  apply (index_slot _ _ Hok) in H2 as (s' & Hs' & Hk'). congruence.
Qed.

Section Containers.
Context {AL : Allocator} {MA : MapAllocator} {SZ : TableSizes}.
Implicit Types (t : LuaTable).

(** ** Overwriting a slot *)

Lemma slot_live_write t a ix cap v idx j :
  is_Some (zget (slots t) idx) ->
  slot_live (with_containers a (vec_alter (write_slot v) idx (hash t)) ix cap t) j =
    if decide (j = idx) then v else slot_live t j.
Proof.
  intros [s Hs]. unfold slot_live, slots, with_containers, vec_alter in *. cbn.
  rewrite zget_zalter_if. destruct (decide (idx = j)) as [<-|Hne].
  - rewrite decide_True, Hs by done. done.
  - by rewrite decide_False by done.
Qed.

Lemma key_write t a ix cap v idx j :
  key_value <$> zget (slots (with_containers a (vec_alter (write_slot v) idx (hash t)) ix cap t)) j =
  key_value <$> zget (slots t) j.
Proof.
  unfold slots, with_containers, vec_alter. cbn. rewrite zget_zalter_if.
  case_decide; [|done]. by destruct (zget _ j).
Qed.

(** The first two clauses in terms of keys and live values. *)
Lemma table_ok_intro n t :
  (forall k idx, index t !! k = Some idx ->
     exists kv, key_value <$> zget (slots t) idx = Some kv /\ normalize_key kv = Some k) ->
  (forall idx v, slot_live t idx = Some v -> v <> VNil /\
     exists k kv, key_value <$> zget (slots t) idx = Some kv /\ normalize_key kv = Some k /\
       index t !! k = Some idx) ->
  (forall i idx, index t !! LInteger i = Some idx -> 1 <= i <= n -> slot_live t idx = None) ->
  table_ok_upto n t.
Proof.
  intros H1 H2 H3. split; [| |done].
  - intros k idx Hk. destruct (H1 k idx Hk) as (kv & Hs & Hn).
    destruct (zget (slots t) idx) as [s|]; [|done]. cbn in Hs. simplify_eq. eauto.
  - intros idx s v Hs Hv. destruct (H2 idx v) as (Hnil & k & kv & Hkv & Hn & Hk).
    { unfold slot_live. by rewrite Hs. }
    rewrite Hs in Hkv. cbn in Hkv. simplify_eq. eauto.
Qed.

Lemma table_ok_elim n t :
  table_ok_upto n t ->
  (forall k idx, index t !! k = Some idx ->
     exists kv, key_value <$> zget (slots t) idx = Some kv /\ normalize_key kv = Some k) /\
  (forall idx v, slot_live t idx = Some v -> v <> VNil /\
     exists k kv, key_value <$> zget (slots t) idx = Some kv /\ normalize_key kv = Some k /\
       index t !! k = Some idx).
Proof.
  intros Hok. split.
  - intros k idx Hk. destruct (index_slot _ _ Hok _ _ Hk) as (s & -> & ?). eauto.
  - intros idx v Hv. unfold slot_live in Hv. destruct (zget (slots t) idx) as [s|] eqn:Hs; [|done].
    destruct (live_indexed _ _ Hok _ _ _ Hs Hv) as (? & k & ? & ?). eauto 10.
Qed.

(** Writing through the index. *)
Lemma write_ok n t a v idx norm cap :
  table_ok_upto n t -> index t !! norm = Some idx ->
  (forall w, v = Some w -> w <> VNil) ->
  (forall i, norm = LInteger i -> 1 <= i <= n -> v = None) ->
  let t' := with_containers a (vec_alter (write_slot v) idx (hash t)) (index t) cap t in
  table_ok_upto n t' /\ (forall k, hash_get t' k = if decide (k = norm) then default VNil v else hash_get t k).
Proof.
  intros Hok Hidx Hv Hshadow t'. destruct (index_slot _ _ Hok _ _ Hidx) as (s & Hs & Hn).
  assert (HL : forall j, slot_live t' j = if decide (j = idx) then v else slot_live t j)
    by (intros; apply slot_live_write; eauto).
  pose proof (table_ok_elim _ _ Hok) as [E1 E2]. split.
  - apply table_ok_intro; change (index t') with (index t).
    + intros k j Hk. unfold t'. rewrite key_write. by apply E1.
    + intros j w. unfold t'. rewrite key_write. fold t'. rewrite HL. case_decide as Hj; [subst j|apply E2].
      intros Hw. split; [by apply Hv|]. exists norm, (key_value s). rewrite Hs. done.
    + intros i j Hj Hi. rewrite HL. case_decide as Hd; [subst j|by apply (shadowed _ _ Hok i)].
      assert (LInteger i = norm) as Heq by (by eapply index_inj). by apply (Hshadow i).
  - intros k. unfold hash_get. cbn. case_decide as Hk.
    + subst k. rewrite Hidx. cbn. by rewrite HL, decide_True.
    + destruct (index t !! k) as [j|] eqn:Hj; [|done]. cbn. rewrite HL, decide_False; [done|].
      intros ->. apply Hk. by eapply index_inj.
Qed.

(** Appending a slot under a new key. *)
Lemma append_ok n t a h norm key v cap :
  table_ok_upto n t -> index t !! norm = None -> normalize_key key = Some norm -> v <> VNil ->
  items h = items (hash t) ++ [mkSlot key (Some v)] ->
  (forall i, norm = LInteger i -> ~ 1 <= i <= n) ->
  let t' := with_containers a h (<[norm := vec_len (hash t)]> (index t)) cap t in
  table_ok_upto n t' /\ (forall k, hash_get t' k = if decide (k = norm) then v else hash_get t k).
Proof.
  intros Hok Hidx Hn Hv Hh Hshadow t'. set (idx := vec_len (hash t)).
  assert (HZ : forall j, zget (slots t') j = if decide (j = idx) then Some (mkSlot key (Some v)) else zget (slots t) j).
  { intros j. unfold t', slots, idx, vec_len, zget, len. cbn. rewrite Hh.
    case_decide as Hj; [subst j|].
    - rewrite (proj2 (Z.ltb_ge _ _)) by lia. rewrite Nat2Z.id, lookup_app_r, Nat.sub_diag by lia. done.
    - destruct (Z.ltb_spec j 0); [done|].
      destruct (decide (Z.to_nat j < length (items (hash t)))%nat); [by rewrite lookup_app_l|].
      rewrite (lookup_ge_None_2 (items (hash t))), lookup_ge_None_2; rewrite ?length_app; cbn; try done; lia. }
  assert (Hfresh : zget (slots t) idx = None).
  { unfold slots, idx, vec_len, len, zget. rewrite (proj2 (Z.ltb_ge _ _)) by lia.
    apply lookup_ge_None_2. lia. }
  assert (Hbelow : forall k j, index t !! k = Some j -> j ≠ idx).
  { intros k j Hk ->. destruct (index_slot _ _ Hok _ _ Hk) as (s & Hs & _). congruence. }
  assert (HL : forall j, slot_live t' j = if decide (j = idx) then Some v else slot_live t j).
  { intros j. unfold slot_live. rewrite HZ. by case_decide. }
  pose proof (table_ok_elim _ _ Hok) as [E1 E2]. split.
  - apply table_ok_intro; change (index t') with (<[norm := idx]> (index t)).
    + intros k j. rewrite HZ. destruct (decide (k = norm)) as [->|Hk].
      * rewrite lookup_insert_eq. intros [= <-]. rewrite decide_True by done. eauto.
      * rewrite lookup_insert_ne by done. intros Hj. rewrite decide_False by (by eapply Hbelow). by apply E1.
    + intros j w. rewrite HL, HZ. case_decide as Hj.
      * intros [= <-]. split; [done|]. exists norm, key. rewrite lookup_insert_eq. subst j. done.
      * intros Hw. destruct (E2 j w Hw) as (? & k & kv & Hkv & Hkn & Hk). split; [done|].
        exists k, kv. rewrite lookup_insert_ne; [done|]. congruence.
    + intros i j. destruct (decide (LInteger i = norm)) as [Heq|Hne].
      * intros _ Hi. exfalso. by eapply Hshadow.
      * rewrite lookup_insert_ne by done. intros Hj Hi. rewrite HL, decide_False by (by eapply Hbelow).
        by apply (shadowed _ _ Hok i).
  - intros k. unfold hash_get. cbn. case_decide as Hk.
    + subst k. rewrite lookup_insert_eq. cbn. by rewrite HL, decide_True.
    + rewrite lookup_insert_ne by done. destruct (index t !! k) as [j|] eqn:Hj; [|done]. cbn.
      rewrite HL, decide_False by (by eapply Hbelow). done.
Qed.

Lemma hash_set_spec n t norm key value t' :
  table_ok_upto n t -> normalize_key key = Some norm ->
  (forall i, norm = LInteger i -> 1 <= i <= n -> value = VNil) ->
  hash_set t norm key value = Ok t' ->
  table_ok_upto n t' /\ arr t' = arr t /\ metatable t' = metatable t /\
  (forall k, hash_get t' k = if decide (k = norm) then value else hash_get t k).
Proof.
  intros Hok Hn Hshadow. unfold hash_set. destruct (index t !! norm) as [idx|] eqn:Hidx.
  - intros [= <-].
    destruct (write_ok n t (array t) (if is_nil value then None else Some value) idx norm (index_capacity t))
      as [Hok' Hg]; try done.
    + intros w. destruct (is_nil value) eqn:E; [done|]. intros [= <-]. by apply is_nil_false.
    + intros i Hi Hr. by rewrite (Hshadow i Hi Hr).
    + split_and!; [done|done|done|]. intros k. rewrite Hg. case_decide; [|done].
      destruct (is_nil value) eqn:E; [|done]. by apply is_nil_true in E as ->.
  - destruct (is_nil value) eqn:E.
    + intros [= <-]. apply is_nil_true in E as ->. split_and!; [done|done|done|].
      intros k. case_decide; [subst|done]. unfold hash_get. by rewrite Hidx.
    + apply is_nil_false in E.
      destruct (push size_HashSlot (hash t) (mkSlot key (Some value))) as [h|] eqn:Ep; [|done]. cbn.
      destruct (map_insert _ _) as [cap|]; [|done]. intros [= <-].
      destruct (append_ok n t (array t) h norm key value cap) as [Hok' Hg]; try done.
      * by eapply push_items.
      * intros i -> Hi. by apply E, (Hshadow i).
Qed.

(** ** Absorbing successors *)

(** Reads after the array grew by one element, the hash part being as [hg] says. *)
Lemma get_norm_push t t' v :
  arr t' = arr t ++ [v] ->
  (forall k, in_array t' k = false -> hash_get t' k = hash_get t k) ->
  forall k, get_norm t' k = if decide (k = LInteger (len (arr t) + 1)) then v else get_norm t k.
Proof.
  intros Ha Hh k. rewrite !get_norm_eq. pose proof (len_nonneg (arr t)) as Hnn.
  assert (Hin : in_array t' k = (in_array t k || bool_decide (k = LInteger (len (arr t) + 1)))).
  { destruct k as [|i| | | | |]; cbn; try by rewrite bool_decide_false.
    rewrite Ha, len_app. change (len [v]) with 1.
    destruct (Z.leb_spec 1 i), (Z.leb_spec i (len (arr t))), (Z.leb_spec i (len (arr t) + 1)); cbn;
      symmetry; first [apply bool_decide_true; f_equal; lia|apply bool_decide_false; intros [= ]; lia|done|idtac];
      lia. }
  rewrite Hin. case_decide as Hk.
  - rewrite bool_decide_true, orb_true_r by done. subst k.
    rewrite Ha, zget_snoc, decide_True by lia. done.
  - rewrite bool_decide_false, orb_false_r in * by done.
    destruct (in_array t k) eqn:E; [|by apply Hh].
    destruct k as [|i| | | | |]; try done. cbn in E. apply andb_prop in E as [E1 E2].
    apply Z.leb_le in E1, E2. by rewrite Ha, zget_snoc, decide_False by lia.
Qed.

Lemma absorb_spec fuel t t' :
  (size (index t) < fuel)%nat -> table_ok_upto (len (arr t)) t -> absorb fuel t = Ok t' ->
  table_ok t' /\ metatable t' = metatable t /\ (forall k, get_norm t' k = get_norm t k).
Proof.
  revert t. induction fuel as [|fuel IH]; intros t Hf Hok; [lia|]. cbn [absorb].
  assert (Hfinal : (forall idx, index t !! LInteger (len (arr t) + 1) = Some idx -> slot_live t idx = None) ->
                   table_ok t).
  { intros Hn. split; [apply (index_slot _ _ Hok)|apply (live_indexed _ _ Hok)|].
    intros i idx Hi Hr. destruct (decide (i = len (arr t) + 1)) as [->|]; [by apply Hn|].
    apply (shadowed _ _ Hok i); [done|lia]. }
  destruct (index t !! LInteger (len (arr t) + 1)) as [idx|] eqn:Hidx.
  2: { intros [= <-]. split_and!; [|done|done]. by apply Hfinal. }
  fold (slot_live t idx). destruct (slot_live t idx) as [v|] eqn:Hv.
  2: { intros [= <-]. split_and!; [|done|done]. apply Hfinal. by intros ? [= <-]. }
  destruct (push size_RawValue (array t) v) as [a|] eqn:Ep; [|done]. cbn [result_bind].
  apply push_items in Ep. set (nk := LInteger (len (arr t) + 1)) in *.
  set (t1 := with_containers _ _ _ _ _). intros HA.
  destruct (index_slot _ _ Hok _ _ Hidx) as (s & Hs & Hn).
  assert (HL : forall j, slot_live t1 j = if decide (j = idx) then None else slot_live t j)
    by (intros; apply slot_live_write; eauto).
  pose proof (table_ok_elim _ _ Hok) as [E1 E2].
  assert (Harr : arr t1 = arr t ++ [v]) by done.
  assert (Hlen : len (arr t1) = len (arr t) + 1) by (by rewrite Harr, len_app).
  assert (Hok1 : table_ok_upto (len (arr t1)) t1).
  { rewrite Hlen. apply table_ok_intro; change (index t1) with (delete nk (index t)).
    - intros k j Hk. unfold t1. rewrite key_write. apply lookup_delete_Some in Hk as [_ Hk]. by apply E1.
    - intros j w. unfold t1. rewrite key_write. fold t1. rewrite HL. case_decide as Hj; [done|].
      intros Hw. destruct (E2 j w Hw) as (? & k & kv & Hkv & Hkn & Hk). split; [done|].
      exists k, kv. rewrite lookup_delete_ne; [done|]. congruence.
    - intros i j Hj Hi. apply lookup_delete_Some in Hj as [Hne Hj]. rewrite HL. case_decide; [done|].
      apply (shadowed _ _ Hok i); [done|]. unfold nk in Hne. assert (i ≠ len (arr t) + 1) by congruence. lia. }
  assert (Hsize : (size (index t1) < fuel)%nat).
  { cbn. rewrite map_size_delete_Some by eauto.
    assert (size (index t) ≠ 0)%nat; [|lia].
    intros E%map_size_empty_inv. by rewrite E, lookup_empty in Hidx. }
  destruct (IH t1 Hsize Hok1 HA) as (H1 & H2 & H3). split_and!; [done|done|].
  intros k. rewrite H3, (get_norm_push t t1 v Harr).
  - case_decide as Hk; [|done]. subst k. rewrite get_norm_eq. cbn.
    rewrite (proj2 (Z.leb_gt (len (arr t) + 1) (len (arr t)))), andb_false_r by lia.
    unfold hash_get. fold nk. rewrite Hidx. cbn. by rewrite Hv.
  - intros k' Hin. unfold hash_get. cbn. destruct (decide (k' = nk)) as [->|Hk'].
    + cbn in Hin. rewrite Hlen in Hin. pose proof (len_nonneg (arr t)).
      rewrite (proj2 (Z.leb_le 1 _)), Z.leb_refl in Hin by lia. done.
    + rewrite lookup_delete_ne by done. destruct (index t !! k') as [j|] eqn:Hj; [|done]. cbn.
      rewrite HL, decide_False; [done|]. intros ->. apply Hk'. exact (index_inj _ _ _ _ _ Hok Hj Hidx).
Qed.

End Containers.
