(* ===== verification/LuaTableTheorems.v ===== *)
(** * LuaTableTheorems: what a Lua table promises

    Reads and writes refine a finite map on normalized keys; [next] enumerates every live
    entry exactly once, also when entries are cleared on the way; [#t] is a border. *)

From Stdlib Require Import ZArith Lia.
From stdpp Require Import base numbers list option gmap sets.
From S2P Require Import Prelude RustVec Value LuaTable LuaTableFacts.
Import LuaTable.

Section Facts.
Context {AL : Allocator} {MA : MapAllocator} {SZ : TableSizes}.
Implicit Types (t : LuaTable) (m : MemoryMeter).

Lemma recharge_frame t m :
  let t' := (recharge t m).1 in
  arr t' = arr t /\ slots t' = slots t /\ index t' = index t /\ metatable t' = metatable t.
Proof. unfold recharge. by case_match. Qed.

Lemma get_norm_frame t t' :
  arr t' = arr t -> slots t' = slots t -> index t' = index t ->
  (forall k, get_norm t' k = get_norm t k) /\ (forall n, table_ok_upto n t -> table_ok_upto n t').
Proof.
  intros Ha Hs Hi.
  assert (HL : forall j, slot_live t' j = slot_live t j) by (intros; unfold slot_live; by rewrite Hs).
  split.
  - intros k. rewrite !get_norm_eq. unfold in_array, hash_get. rewrite Ha, Hi.
    destruct (index t !! k) as [j|]; cbn; [by rewrite HL|done].
  - intros n [H1 H2 H3]. split; rewrite ?Hi, ?Hs; try done.
    intros i j Hj Hr. rewrite HL. by apply (H3 i).
Qed.

(** Overwriting an array slot. *)
Lemma array_write_spec t i v :
  table_ok t -> 1 <= i <= len (arr t) ->
  let t' := with_containers (vec_alter (fun _ => v) (i - 1) (array t)) (hash t) (index t)
              (index_capacity t) t in
  table_ok t' /\ (forall k, get_norm t' k = if decide (k = LInteger i) then v else get_norm t k).
Proof.
  intros Hok Hi t'. assert (Hlen : len (arr t') = len (arr t)) by apply len_zalter.
  split; [unfold table_ok; rewrite Hlen; destruct Hok as [H1 H2 H3]; by split|]. intros k.
  rewrite !get_norm_eq. unfold in_array. rewrite Hlen. fold (in_array t k).
  destruct k as [|j| | | | |]; try (by rewrite decide_False by done). cbn.
  destruct (Z.leb_spec 1 j), (Z.leb_spec j (len (arr t))); cbn;
    try (by rewrite decide_False by (intros [= ->]; lia)).
  unfold arr. cbn. rewrite zget_zalter_if. destruct (decide (i - 1 = j - 1)) as [Heq|Hne].
  - assert (i = j) by lia. subst j. rewrite decide_True by done. fold (arr t).
    destruct (zget (arr t) (i - 1)) eqn:E; [done|].
    assert (is_Some (zget (arr t) (i - 1))) as [? ?]; [|congruence]. apply zget_is_Some. lia.
  - rewrite decide_False; [done|]. intros [= ->]. lia.
Qed.

(** Appending past the end. *)
Lemma array_append_spec t a v t' :
  table_ok t -> items a = items (array t) ++ [v] ->
  absorb_from_hash (with_containers a (hash t) (index t) (index_capacity t) t) = Ok t' ->
  table_ok t' /\ metatable t' = metatable t /\
  (forall k, get_norm t' k = if decide (k = LInteger (len (arr t) + 1)) then v else get_norm t k).
Proof.
  intros Hok Ha. set (t1 := with_containers a _ _ _ t). intros HA.
  assert (Harr : arr t1 = arr t ++ [v]) by exact Ha.
  assert (Hok1 : table_ok_upto (len (arr t1)) t1).
  { rewrite Harr, len_app. destruct Hok as [H1 H2 H3]. by split. }
  unfold absorb_from_hash in HA. apply absorb_spec in HA as (H1 & H2 & H3); [|lia|done].
  split_and!; [done|done|]. intros k. rewrite H3. by apply get_norm_push.
Qed.

Lemma set_inner_spec t key value t' applied :
  table_ok t -> set_inner t key value = Ok (t', applied) ->
  match normalize_key key with
  | None => t' = t /\ applied = false
  | Some norm => applied = true /\ table_ok t' /\ metatable t' = metatable t /\
      (forall k, get_norm t' k = if decide (k = norm) then value else get_norm t k)
  end.
Proof.
  intros Hok. unfold set_inner. destruct (normalize_key key) as [norm|] eqn:Hn; [|by intros [= <- <-]].
  assert (Hhash : in_array t norm = false ->
    (forall i, norm = LInteger i -> 1 <= i <= len (arr t) + 1 -> value = VNil) ->
    (let? t' := hash_set t norm key value in Ok (t', true)) = Ok (t', applied) ->
    applied = true /\ table_ok t' /\ metatable t' = metatable t /\
    (forall k, get_norm t' k = if decide (k = norm) then value else get_norm t k)).
  { intros Hin Hsh E. destruct (hash_set t norm key value) as [t1|] eqn:Eh; [|done]. injection E as <- <-.
    apply (hash_set_spec (len (arr t) + 1)) in Eh as (H1 & H2 & H3 & H4); [|done..].
    split_and!; [done|unfold table_ok; by rewrite H2|done|]. intros k.
    rewrite !get_norm_eq. unfold in_array. rewrite H2. fold (in_array t k).
    rewrite H4. case_decide; [subst k; by rewrite Hin|done]. }
  destruct norm as [|i| | | | |]; try (intros E; apply Hhash; [done|by intros|exact E]).
  unfold array_slot. destruct (Z.leb_spec 1 i) as [Hi1|Hi1], (Z.leb_spec i (len (arr t))) as [Hi2|Hi2]; cbn [andb];
    try (intros E; apply Hhash; [cbn|intros j [= <-]|exact E]; lia).
  - intros [= <- <-]. destruct (array_write_spec t i value Hok) as [H1 H2]; [lia|]. done.
  - destruct (Z.eqb_spec i (len (arr t) + 1)) as [->|Hne]; cbn [andb].
    + destruct (is_nil value) eqn:Ev; cbn [negb].
      * intros E. apply Hhash; [cbn; rewrite (proj2 (Z.leb_gt _ _) Hi2); apply andb_false_r| |exact E].
        intros _ _ _. by apply is_nil_true.
      * destruct (push size_RawValue (array t) value) as [a|] eqn:Ep; [|done]. cbn [result_bind].
        destruct (absorb_from_hash _) as [t1|] eqn:EA; [|done]. cbn [result_bind]. intros [= <- <-].
        apply array_append_spec with (v := value) in EA as (H1 & H2 & H3); [done|done|].
        by eapply push_items.
    + intros E. apply Hhash; [cbn; rewrite (proj2 (Z.leb_gt _ _) Hi2); apply andb_false_r| |exact E].
      intros j [= <-] ?. lia.
Qed.

Lemma set_spec t m key value t' m' applied :
  table_ok t -> set t m key value = Ok ((t', m'), applied) ->
  match normalize_key key with
  | None => arr t' = arr t /\ slots t' = slots t /\ index t' = index t /\ applied = false
  | Some norm => applied = true /\ table_ok t' /\ metatable t' = metatable t /\
      (forall k, get_norm t' k = if decide (k = norm) then value else get_norm t k)
  end.
Proof.
  intros Hok. unfold set. destruct (set_inner t key value) as [[t1 b]|] eqn:E; [|done].
  apply set_inner_spec in E; [|done]. cbn. destruct (recharge_frame t1 m) as (F1 & F2 & F3 & F4).
  destruct (recharge t1 m) as [t2 m2]. cbn in *. intros [= <- <- <-].
  destruct (normalize_key key) as [norm|].
  - destruct E as (-> & H1 & H2 & H3). destruct (get_norm_frame t1 t2 F1 F2 F3) as [G1 G2].
    split_and!; [done| |congruence|intros k; by rewrite G1].
    unfold table_ok. rewrite F1. by apply G2.
  - destruct E as [-> ->]. done.
Qed.

(** Clearing never allocates. *)
Lemma set_nil_total t m key : exists r, set t m key VNil = Ok r.
Proof.
  unfold set, set_inner. destruct (normalize_key key) as [norm|]; [|by eexists].
  assert (exists t', hash_set t norm key VNil = Ok t') as [t' Ht'].
  { unfold hash_set. destruct (index t !! norm); by eexists. }
  destruct norm as [|i| | | | |]; cbn; rewrite ?Ht'; try by eexists.
  destruct (array_slot t i); [by eexists|]. rewrite andb_false_r. cbn. by eexists.
Qed.

End Facts.

(** ** Traversal *)

Section Traversal.
Context {AL : Allocator} {MA : MapAllocator} {SZ : TableSizes}.
Implicit Types (t : LuaTable) (m : MemoryMeter).

(** The first pair of a list of entries, as a step. *)
Definition first_step (es : list (RawValue * RawValue)) : NextStep :=
  match es with [] => NDone | (k, v) :: _ => NPair k v end.

(** The live entries of an array suffix that starts at slot [probe]. *)
Fixpoint array_from (probe : Z) (l : list RawValue) : list (RawValue * RawValue) :=
  match l with
  | [] => []
  | v :: l' => if negb (is_nil v) then (VNumber (array_key probe), v) :: array_from (probe + 1) l'
               else array_from (probe + 1) l'
  end.

Lemma for_each_entry_split t :
  for_each_entry t = array_from 0 (arr t) ++ omap hash_entry (slots t).
Proof.
  unfold for_each_entry. f_equal. unfold array_entries.
  assert (forall l n, filter (fun kv : RawValue * RawValue => is_nil kv.2 = false)
    (imap (fun i v => (VNumber (array_key (Z.of_nat (n + i))), v)) l) = array_from (Z.of_nat n) l) as H.
  { induction l as [|v l IH]; intros n; [done|]. cbn [imap array_from].
    rewrite filter_cons. cbn [snd]. rewrite Nat.add_0_r.
    assert (E : imap ((fun i v => (VNumber (array_key (Z.of_nat (n + i))), v)) ∘ S) l =
                imap (fun i v => (VNumber (array_key (Z.of_nat (S n + i))), v)) l).
    { apply imap_ext. intros i x _. cbn. do 4 f_equal. lia. }
    rewrite E, IH. replace (Z.of_nat n + 1) with (Z.of_nat (S n)) by lia. by destruct (is_nil v). }
  apply (H (arr t) 0%nat).
Qed.

Lemma scan_hash_first l : scan_hash l = first_step (omap hash_entry l).
Proof.
  induction l as [|s l IH]; [done|]. cbn. unfold hash_entry at 1.
  destruct (slot_value s); [done|]. exact IH.
Qed.

Lemma scan_array_first t probe l :
  scan_array t probe l = first_step (array_from probe l ++ omap hash_entry (slots t)).
Proof.
  revert probe. induction l as [|v l IH]; intros probe; cbn.
  - unfold advance_hash. cbn. apply scan_hash_first.
  - destruct (is_nil v); cbn; [apply IH|done].
Qed.

(** The entries after the [i]-th, in either part. *)
Lemma array_from_rest probe l i k v :
  array_from probe l !! i = Some (k, v) ->
  exists p, l !! p = Some v /\ v <> VNil /\ k = VNumber (array_key (probe + Z.of_nat p)) /\
    array_from (probe + Z.of_nat (S p)) (drop (S p) l) = drop (S i) (array_from probe l).
Proof.
  revert probe i. induction l as [|w l IH]; intros probe i; cbn [array_from]; [done|].
  destruct (is_nil w) eqn:E; cbn [negb].
  - intros Hi. destruct (IH _ _ Hi) as (p & H1 & H2 & H3 & H4). exists (S p).
    split_and!; [done|done| |].
    + rewrite H3. do 2 f_equal. lia.
    + rewrite <- H4. cbn [drop]. f_equal. lia.
  - destruct i as [|i]; cbn [lookup list_lookup].
    + intros [= <- <-]. exists 0%nat. split_and!; [done|by apply is_nil_false| |].
      * by rewrite Z.add_0_r.
      * done.
    + intros Hi. destruct (IH _ _ Hi) as (p & H1 & H2 & H3 & H4). exists (S p).
      split_and!; [done|done| |].
      * rewrite H3. do 2 f_equal. lia.
      * cbn [drop]. rewrite <- H4. f_equal. lia.
Qed.

Lemma hash_entries_rest l i k v :
  omap hash_entry l !! i = Some (k, v) ->
  exists p s, l !! p = Some s /\ key_value s = k /\ slot_value s = Some v /\
    omap hash_entry (drop (S p) l) = drop (S i) (omap hash_entry l).
Proof.
  revert i. induction l as [|s l IH]; intros i; [done|]. cbn.
  destruct (hash_entry s) as [[k0 w]|] eqn:E.
  - unfold hash_entry in E. apply fmap_Some in E as (w' & Hw & [= -> ->]).
    destruct i as [|i]; cbn.
    + intros [= <- <-]. exists 0%nat, s. done.
    + intros Hi. destruct (IH _ Hi) as (p & s' & ? & ? & ? & ?). exists (S p), s'. done.
  - intros Hi. destruct (IH _ Hi) as (p & s' & ? & ? & ? & ?). exists (S p), s'. done.
Qed.

Lemma normalize_array_key p :
  0 <= p < 9007199254740991 -> normalize_key (VNumber (array_key p)) = Some (LInteger (p + 1)).
Proof.
  intros Hp. unfold array_key, normalize_key, key_rejection.
  pose proof (f64_of_u64_integral (p + 1) ltac:(lia)) as HI.
  assert (Hnan : f64_is_nan (f64_of_u64 (p + 1)) = false).
  { unfold f64_is_nan. unfold f64_integral, f64_magnitude in HI.
    by destruct (f64_exp _ =? 2047). }
  rewrite Hnan, HI. rewrite (proj2 (Z.leb_le (-9223372036854775808) (p + 1))) by lia.
  rewrite (proj2 (Z.leb_le (p + 1) 9223372036854775808)) by lia. cbn.
  unfold I64_MAX. by rewrite Z.min_l by lia.
Qed.

(** The cursor an entry's key resolves to, and the step from there. *)
Lemma next_array t p v :
  len (arr t) < 9007199254740992 -> arr t !! p = Some v ->
  next t (VNumber (array_key (Z.of_nat p))) =
    scan_array t (Z.of_nat (S p)) (drop (S p) (arr t)).
Proof.
  intros Hlen Hp. pose proof (lookup_lt_Some _ _ _ Hp) as Hlt. unfold len in Hlen.
  unfold next. rewrite normalize_array_key by lia. unfold array_slot.
  rewrite (proj2 (Z.leb_le 1 _)), (proj2 (Z.leb_le (Z.of_nat p + 1) _)) by (unfold len; lia). cbn.
  replace (Z.of_nat p + 1 - 1 + 1) with (Z.of_nat (S p)) by lia. by rewrite Nat2Z.id.
Qed.

Lemma next_hash n t (p : nat) s k :
  table_ok_upto n t -> len (arr t) <= n ->
  slots t !! p = Some s -> normalize_key (key_value s) = Some k -> index t !! k = Some (Z.of_nat p) ->
  in_array t k = false ->
  next t (key_value s) = scan_hash (drop (S p) (slots t)).
Proof.
  intros Hok Hn Hp Hk Hi Hin.
  assert (Hadv : advance t (CHash (Z.of_nat p)) = scan_hash (drop (S p) (slots t))).
  { unfold advance, advance_hash. do 2 f_equal. lia. }
  assert (key_value s <> VNil) as Hnil by (intros E; by rewrite E in Hk).
  unfold next. rewrite Hk. destruct k as [|i| | | | |].
  2: { unfold array_slot. cbn in Hin. rewrite Hin, Hi. by destruct (key_value s). }
  all: rewrite Hi; by destruct (key_value s).
Qed.

(** A live slot's key is not an array key. *)
Lemma live_slot_key t (p : nat) s v :
  table_ok t -> slots t !! p = Some s -> slot_value s = Some v ->
  exists k, normalize_key (key_value s) = Some k /\ index t !! k = Some (Z.of_nat p) /\
    in_array t k = false.
Proof.
  intros Hok Hs Hv. assert (Hz : zget (slots t) (Z.of_nat p) = Some s) by (by rewrite zget_of_nat).
  destruct (live_indexed _ _ Hok _ _ _ Hz Hv) as (_ & k & Hk & Hi). exists k. split_and!; [done|done|].
  destruct (in_array t k) eqn:E; [|done]. destruct k as [|i| | | | |]; try done. cbn in E.
  apply andb_prop in E as [E1%Z.leb_le E2%Z.leb_le].
  assert (Hdead : slot_live t (Z.of_nat p) = None) by (apply (shadowed _ _ Hok i); [done|lia]).
  unfold slot_live in Hdead. by rewrite Hz in Hdead; cbn in Hdead; rewrite Hv in Hdead.
Qed.

Lemma next_entry t i k v :
  table_ok t -> len (arr t) < 9007199254740992 -> for_each_entry t !! i = Some (k, v) ->
  next t k = first_step (drop (S i) (for_each_entry t)).
Proof.
  intros Hok Hlen. rewrite for_each_entry_split. intros Hi.
  apply lookup_app_Some in Hi as [Hi|[Hge Hi]].
  - pose proof (lookup_lt_Some _ _ _ Hi) as Hlt.
    apply array_from_rest in Hi as (p & Hp & _ & -> & Hrest). rewrite Z.add_0_l in *.
    rewrite (next_array t p v Hlen Hp), scan_array_first, Hrest, drop_app_le by lia. done.
  - apply hash_entries_rest in Hi as (p & s & Hp & <- & Hv & Hrest).
    destruct (live_slot_key t p s v Hok Hp Hv) as (nk & Hk & Hix & Hin).
    rewrite (next_hash _ t p s nk Hok ltac:(lia) Hp Hk Hix Hin), scan_hash_first, Hrest.
    rewrite drop_app_ge by lia. do 2 f_equal. lia.
Qed.

Lemma next_start t : next t VNil = first_step (for_each_entry t).
Proof. rewrite for_each_entry_split. cbn. apply scan_array_first. Qed.

(** *** Completeness and uniqueness *)

Lemma elem_of_array_from probe l k v :
  (k, v) ∈ array_from probe l <->
  exists p : nat, l !! p = Some v /\ v <> VNil /\ k = VNumber (array_key (probe + Z.of_nat p)).
Proof.
  split.
  - intros [i Hi]%list_elem_of_lookup. apply array_from_rest in Hi as (p & ? & ? & ? & _). eauto.
  - intros (p & Hp & Hv & ->). revert probe p Hp. induction l as [|w l IH]; intros probe p Hp; [done|].
    cbn [array_from]. destruct p as [|p]; cbn in Hp.
    + injection Hp as ->. apply is_nil_false in Hv. rewrite Hv, Z.add_0_r. cbn. by left.
    + assert ((VNumber (array_key (probe + Z.of_nat (S p))), v) ∈ array_from (probe + 1) l).
      { replace (probe + Z.of_nat (S p)) with (probe + 1 + Z.of_nat p) by lia. by apply IH. }
      destruct (negb (is_nil w)); [by right|done].
Qed.

Lemma elem_of_hash_entries (l : list HashSlot) k v :
  (k, v) ∈ omap hash_entry l <->
  exists (p : nat) s, l !! p = Some s /\ key_value s = k /\ slot_value s = Some v.
Proof.
  rewrite list_elem_of_omap. setoid_rewrite list_elem_of_lookup. unfold hash_entry. split.
  - intros (s & [p Hp] & Hs). apply fmap_Some in Hs as (w & Hw & [= -> ->]). eauto.
  - intros (p & s & Hp & <- & Hv). exists s. rewrite Hv. eauto.
Qed.

Lemma array_from_nodup probe l :
  0 <= probe -> probe + len l < 9007199254740992 ->
  NoDup ((fun kv : RawValue * RawValue => normalize_key kv.1) <$> array_from probe l).
Proof.
  revert probe. induction l as [|v l IH]; intros probe Hp Hl; [constructor|].
  rewrite len_cons in Hl. pose proof (len_nonneg l). cbn [array_from].
  destruct (negb (is_nil v)); [|apply IH; lia].
  cbn. constructor; [|apply IH; lia]. rewrite list_elem_of_fmap. intros ([k w] & Hk & He).
  apply elem_of_array_from in He as (p & Hlk & _ & ->). cbn in Hk.
  apply lookup_lt_Some in Hlk. unfold len in *. rewrite !normalize_array_key in Hk by lia.
  injection Hk. lia.
Qed.

Lemma hash_entries_nodup (ix : gmap LuaKey Z) (l : list HashSlot) off :
  (forall (p : nat) s v, l !! p = Some s -> slot_value s = Some v ->
     exists k, normalize_key (key_value s) = Some k /\ ix !! k = Some (off + Z.of_nat p)) ->
  NoDup ((fun kv : RawValue * RawValue => normalize_key kv.1) <$> omap hash_entry l).
Proof.
  revert off. induction l as [|s l IH]; intros off Hl; [constructor|].
  assert (Htail : forall (p : nat) s v, l !! p = Some s -> slot_value s = Some v ->
     exists k, normalize_key (key_value s) = Some k /\ ix !! k = Some (off + 1 + Z.of_nat p)).
  { intros p s' v Hs Hv. destruct (Hl (S p) s' v Hs Hv) as (k & Hk & Hi). exists k.
    split; [done|]. rewrite Hi. f_equal. lia. }
  cbn. unfold hash_entry at 1. destruct (slot_value s) as [v|] eqn:E; cbn; [|by eapply IH].
  constructor; [|by eapply IH]. rewrite list_elem_of_fmap. intros ([k w] & Hk & He).
  apply elem_of_hash_entries in He as (p & s' & Hs' & <- & Hv'). cbn in Hk.
  destruct (Hl 0%nat s v eq_refl E) as (k0 & Hk0 & Hi0).
  destruct (Htail p s' w Hs' Hv') as (k1 & Hk1 & Hi1).
  rewrite Hk0, Hk1 in Hk. injection Hk as ->. rewrite Hi0 in Hi1. injection Hi1. lia.
Qed.

Lemma entries_nodup t :
  table_ok t -> len (arr t) < 9007199254740992 ->
  NoDup ((fun kv : RawValue * RawValue => normalize_key kv.1) <$> for_each_entry t).
Proof.
  intros Hok Hlen. rewrite for_each_entry_split, fmap_app. apply NoDup_app. split_and!.
  - by apply array_from_nodup.
  - intros x Hx Hy. apply list_elem_of_fmap in Hx as ([k v] & -> & Hx), Hy as ([k' v'] & Hk & Hy).
    apply elem_of_array_from in Hx as (p & Hp & _ & ->).
    apply elem_of_hash_entries in Hy as (q & s & Hq & <- & Hv). cbn in Hk.
    apply lookup_lt_Some in Hp. unfold len in Hlen. rewrite normalize_array_key in Hk by lia.
    destruct (live_slot_key t q s v' Hok Hq Hv) as (k & Hk' & _ & Hin). rewrite Hk' in Hk.
    injection Hk as <-. cbn in Hin. unfold len in Hin.
    destruct (Z.leb_spec 1 (0 + Z.of_nat p + 1)), (Z.leb_spec (0 + Z.of_nat p + 1) (Z.of_nat (length (arr t)))); cbn in Hin; try done; lia.
  - apply (hash_entries_nodup (index t) _ 0). intros p s v Hp Hv.
    destruct (live_slot_key t p s v Hok Hp Hv) as (k & Hk & Hi & _). eauto.
Qed.

Lemma entries_complete t norm v :
  table_ok t -> len (arr t) < 9007199254740992 -> v <> VNil ->
  get_norm t norm = v <-> exists k, (k, v) ∈ for_each_entry t /\ normalize_key k = Some norm.
Proof.
  intros Hok Hlen Hv. rewrite get_norm_eq, for_each_entry_split. setoid_rewrite elem_of_app.
  setoid_rewrite elem_of_array_from. setoid_rewrite elem_of_hash_entries. split.
  - destruct (in_array t norm) eqn:Hin.
    + destruct norm as [|i| | | | |]; try done. cbn in Hin.
      apply andb_prop in Hin as [H1%Z.leb_le H2%Z.leb_le]. intros Hz.
      destruct (zget (arr t) (i - 1)) as [w|] eqn:Ez; cbn in Hz; [|congruence]. subst w.
      apply zget_Some in Ez as [_ Ez]. unfold len in *.
      exists (VNumber (array_key (0 + Z.of_nat (Z.to_nat (i - 1))))). split; [left; eauto|].
      rewrite Z.add_0_l, Z2Nat.id, normalize_array_key by lia. do 2 f_equal. lia.
    + unfold hash_get. destruct (index t !! norm) as [idx|] eqn:Hi; cbn; [|congruence].
      destruct (index_slot _ _ Hok _ _ Hi) as (s & Hs & Hn). unfold slot_live. rewrite Hs. cbn.
      destruct (slot_value s) as [w|] eqn:Ew; cbn; [|congruence]. intros ->.
      apply zget_Some in Hs as [_ Hs]. exists (key_value s). split; [right; eauto|done].
  - intros (k & [(p & Hp & _ & ->)|(p & s & Hp & <- & Hsv)] & Hk).
    + pose proof (lookup_lt_Some _ _ _ Hp). unfold len in Hlen.
      rewrite Z.add_0_l, normalize_array_key in Hk by lia. injection Hk as <-. cbn.
      rewrite (proj2 (Z.leb_le 1 _)), (proj2 (Z.leb_le (Z.of_nat p + 1) _)) by (unfold len; lia). cbn.
      by rewrite Z.add_simpl_r, zget_of_nat, Hp.
    + destruct (live_slot_key t p s v Hok Hp Hsv) as (k & Hk' & Hi & Hin).
      rewrite Hk' in Hk. injection Hk as <-. rewrite Hin. unfold hash_get. rewrite Hi. cbn.
      unfold slot_live. rewrite zget_of_nat, Hp. cbn. by rewrite Hsv.
Qed.

(** *** Clearing the current entry *)

Lemma next_after_clear t m i k v t' m' b :
  table_ok t -> len (arr t) < 9007199254740992 -> for_each_entry t !! i = Some (k, v) ->
  set t m k VNil = Ok ((t', m'), b) -> next t' k = next t k.
Proof.
  intros Hok Hlen Hi HS.
  assert (Hok' : table_ok t').
  { pose proof (set_spec t m k VNil t' m' b Hok HS) as H.
    destruct (normalize_key k) as [nk|] eqn:E; [by destruct H as (_ & ? & _)|].
    destruct H as (H1 & H2 & H3 & _). unfold table_ok. rewrite H1.
    by apply (proj2 (get_norm_frame t t' H1 H2 H3)). }
  unfold set in HS. destruct (set_inner t k VNil) as [[t1 b1]|] eqn:E; [|done]. cbn in HS.
  destruct (recharge_frame t1 m) as (F1 & F2 & F3 & _).
  destruct (recharge t1 m) as [t2 m2]. cbn in *. injection HS as -> -> ->.
  rewrite for_each_entry_split in Hi. apply lookup_app_Some in Hi as [Hi|[_ Hi]].
  - apply array_from_rest in Hi as (p & Hp & _ & -> & _). rewrite Z.add_0_l in *.
    pose proof (lookup_lt_Some _ _ _ Hp) as Hlt. unfold len in Hlen.
    unfold set_inner in E. rewrite normalize_array_key in E by lia. unfold array_slot in E.
    rewrite (proj2 (Z.leb_le 1 _)), (proj2 (Z.leb_le (Z.of_nat p + 1) _)) in E by (unfold len; lia).
    cbn in E. injection E as <- _. cbn in F1, F2. rewrite Z.add_simpl_r in F1.
    assert (Ha : arr t' = alter (fun _ => VNil) p (arr t)).
    { rewrite F1. unfold zalter. rewrite (proj2 (Z.ltb_ge _ _)) by lia. by rewrite Nat2Z.id. }
    rewrite (next_array t p v), (next_array t' p VNil), !scan_array_first; [|..|done].
    + rewrite F2. do 2 f_equal. rewrite Ha. f_equal. apply list_eq. intros j.
      by rewrite !lookup_drop, list_lookup_alter_ne by lia.
    + rewrite Ha. unfold len. by rewrite length_alter.
    + rewrite Ha, list_lookup_alter_eq, Hp. done.
    + unfold len. lia.
  - apply hash_entries_rest in Hi as (p & s & Hp & <- & Hv & _).
    destruct (live_slot_key t p s v Hok Hp Hv) as (nk & Hk & Hix & Hin).
    assert (E' : t1 = with_containers (array t) (vec_alter (write_slot None) (Z.of_nat p) (hash t))
                        (index t) (index_capacity t) t).
    { unfold set_inner in E. rewrite Hk in E. unfold hash_set in E. rewrite Hix in E. cbn in E.
      destruct nk as [|j| | | | |]; try (by injection E). unfold array_slot in E. cbn in Hin.
      rewrite Hin, andb_false_r in E. by injection E. }
    subst t1. cbn in F1, F2, F3.
    assert (Hs' : slots t' = alter (write_slot None) p (slots t)).
    { rewrite F2. unfold zalter. rewrite (proj2 (Z.ltb_ge _ _)) by lia. by rewrite Nat2Z.id. }
    rewrite (next_hash _ t p s nk Hok ltac:(lia) Hp Hk Hix Hin).
    change (key_value s) with (key_value (write_slot None s)).
    rewrite (next_hash _ t' p (write_slot None s) nk Hok'); [|lia| |done| |].
    + f_equal. rewrite Hs'. apply list_eq. intros j. by rewrite !lookup_drop, list_lookup_alter_ne by lia.
    + by rewrite Hs', list_lookup_alter_eq, Hp.
    + by rewrite F3.
    + unfold in_array. by rewrite F1.
Qed.

End Traversal.

(** ** The border *)

Section Border.
Context {AL : Allocator} {MA : MapAllocator} {SZ : TableSizes}.
Implicit Types (t : LuaTable).

Definition arr_at t (j : Z) : RawValue := default VNil (zget (arr t) j).

Lemma array_border_spec t hi :
  let n := array_border t hi in
  0 <= n <= Z.of_nat hi /\ (n = 0 \/ arr_at t (n - 1) <> VNil) /\
  (forall j, n <= j < Z.of_nat hi -> arr_at t j = VNil).
Proof.
  induction hi as [|hi IH]; cbn [array_border]; [split_and!; [lia|lia|by left|lia]|].
  fold (arr_at t (Z.of_nat hi)). destruct (is_nil (arr_at t (Z.of_nat hi))) eqn:E; cbn [negb].
  - destruct IH as ((H1 & H1') & H2 & H3). split_and!; [lia|lia|done|]. intros j Hj.
    destruct (decide (j = Z.of_nat hi)) as [->|]; [by apply is_nil_true|apply H3; lia].
  - apply is_nil_false in E. split_and!; [lia|lia| |lia]. right.
    by replace (Z.of_nat (S hi) - 1) with (Z.of_nat hi) by lia.
Qed.

Lemma get_norm_array t i : 1 <= i <= len (arr t) -> get_norm t (LInteger i) = arr_at t (i - 1).
Proof.
  intros Hi. rewrite get_norm_eq. cbn.
  by rewrite (proj2 (Z.leb_le 1 i)), (proj2 (Z.leb_le i (len (arr t)))) by lia.
Qed.

Lemma get_norm_past t : table_ok t -> get_norm t (LInteger (len (arr t) + 1)) = VNil.
Proof.
  intros Hok. rewrite get_norm_eq. cbn. rewrite (proj2 (Z.leb_gt (len (arr t) + 1) _)), andb_false_r by lia.
  unfold hash_get. destruct (index t !! _) as [idx|] eqn:E; [|done]. cbn.
  pose proof (len_nonneg (arr t)). rewrite (shadowed _ _ Hok _ _ E); [done|lia].
Qed.

Lemma bisect_adjacent fuel t i : bisect fuel t i (i + 1) = i.
Proof. destruct fuel; [done|]. cbn [bisect]. by replace (i + 1 - i) with 1 by lia. Qed.

Lemma double_absent fuel t start i j :
  int_present t j = false -> double (S fuel) t start i j = bisect 64 t i j.
Proof. intros H. cbn [double]. by rewrite H. Qed.

(** In a well-formed table the search past a full array stops at once. *)
Lemma hash_border_full t : table_ok t -> hash_border t (len (arr t)) = len (arr t).
Proof.
  intros Hok. assert (Hp : int_present t (len (arr t) + 1) = false).
  { unfold int_present. rewrite (proj2 (Z.leb_gt (len (arr t) + 1) _)), andb_false_r by lia.
    destruct (I64_MAX <? _); [done|]. destruct (index t !! _) as [idx|] eqn:E; [|done].
    pose proof (len_nonneg (arr t)). pose proof (shadowed _ _ Hok _ _ E ltac:(lia)) as Hd.
    unfold slot_live in Hd. by rewrite Hd. }
  unfold hash_border. rewrite double_absent by done. apply bisect_adjacent.
Qed.

(** Where the length of a well-formed table is. *)
Lemma table_length_is_border t :
  table_ok t ->
  0 <= table_length t /\
  (table_length t = 0 \/ get_norm t (LInteger (table_length t)) <> VNil) /\
  get_norm t (LInteger (table_length t + 1)) = VNil.
Proof.
  intros Hok. pose proof (len_nonneg (arr t)) as Hnn. unfold table_length.
  fold (arr_at t (len (arr t) - 1)).
  destruct (Z.ltb_spec 0 (len (arr t))) as [Hpos|Hz]; cbn [andb].
  - destruct (is_nil (arr_at t (len (arr t) - 1))) eqn:E.
    + apply is_nil_true in E. destruct (array_border_spec t (length (arr t))) as (H1 & H2 & H3).
      fold (len (arr t)) in *. set (n := array_border t (length (arr t))) in *.
      assert (n <> len (arr t)) by (intros Heq; rewrite Heq in H2; destruct H2; [lia|done]).
      split_and!; [lia| |].
      * destruct H2 as [H2|H2]; [by left|right]. destruct (decide (n = 0)); [|rewrite get_norm_array by lia; done].
        exfalso. apply H2. unfold arr_at. rewrite e. done.
      * rewrite get_norm_array by lia. rewrite Z.add_simpl_r. apply H3. lia.
    + apply is_nil_false in E.
      replace (match index t !! _ with Some _ => _ | None => _ end) with (len (arr t))
        by (case_match; [by rewrite hash_border_full|done]).
      split_and!; [lia| |by apply get_norm_past]. right. by rewrite get_norm_array by lia.
  - replace (match index t !! _ with Some _ => _ | None => _ end) with (len (arr t))
      by (case_match; [by rewrite hash_border_full|done]).
    split_and!; [lia|left; lia|by apply get_norm_past].
Qed.

(** [#t] is a border of every well-formed table: a non-negative [n] with [t[n]] non-nil
    (or [n = 0]) and [t[n+1]] nil, whatever the split between the array and the hash part
    and wherever the holes are. *)
Theorem table_length_border t :
  table_ok t ->
  0 <= table_length t /\
  (table_length t = 0 \/ get_norm t (LInteger (table_length t)) <> VNil) /\
  get_norm t (LInteger (table_length t + 1)) = VNil.
Proof. exact (table_length_is_border t). Qed.

End Border.

(** ** Sequences of writes *)

Section Refinement.
Context {AL : Allocator} {MA : MapAllocator} {SZ : TableSizes}.
Implicit Types (t : LuaTable) (m : MemoryMeter).

Inductive TableOp : Set :=
| OSet (key value : RawValue)
| OClear
| ORehash
| OSetMetatable (mt : option RawGc).

Definition table_op (op : TableOp) (st : LuaTable * MemoryMeter) : result Fault (LuaTable * MemoryMeter) :=
  let '(t, m) := st in
  match op with
  | OSet key value => let? r := set t m key value in Ok r.1
  | OClear => Ok (clear t m)
  | ORehash => let? t' := rehash t in Ok (t', m)
  | OSetMetatable mt => Ok (set_metatable mt t, m)
  end.

(** The specification: a function from keys to values, nil where absent. *)
Definition spec_op (M : LuaKey -> RawValue) (op : TableOp) : LuaKey -> RawValue :=
  match op with
  | OSet key value =>
      match normalize_key key with
      | Some norm => fun k => if decide (k = norm) then value else M k
      | None => M
      end
  | OClear => fun _ => VNil
  | ORehash | OSetMetatable _ => M
  end.

Definition spec_get (M : LuaKey -> RawValue) (key : RawValue) : RawValue :=
  match normalize_key key with Some norm => M norm | None => VNil end.

Lemma new_table_ok : table_ok new.
Proof.
  split.
  - intros k idx H. cbn in H. by rewrite lookup_empty in H.
  - intros idx s v H. unfold zget in H. cbn in H. case_match; [done|]. by rewrite lookup_nil in H.
  - intros i idx H. cbn in H. by rewrite lookup_empty in H.
Qed.

Lemma clear_spec t m :
  table_ok ((clear t m).1) /\ (forall k, get_norm ((clear t m).1) k = VNil) /\
  len (arr (clear t m).1) = len (arr t).
Proof.
  unfold clear. set (t1 := with_containers _ _ _ _ _).
  destruct (recharge_frame t1 m) as (F1 & F2 & F3 & _). destruct (recharge t1 m) as [t2 m2]. cbn in *.
  destruct (get_norm_frame t1 t2 F1 F2 F3) as [G1 G2].
  split_and!.
  - unfold table_ok. rewrite F1. apply G2. split.
    + intros k idx H. cbn in H. by rewrite lookup_empty in H.
    + intros idx s v H. unfold zget in H. cbn in H. case_match; [done|]. by rewrite lookup_nil in H.
    + intros i idx H. cbn in H. by rewrite lookup_empty in H.
  - intros k. rewrite G1, get_norm_eq. case_match eqn:E.
    + destruct k as [|i| | | | |]; try done. unfold t1, zget. cbn. case_match; [done|].
      rewrite list_lookup_fmap. by destruct (arr t !! _).
    + unfold hash_get. cbn. by rewrite lookup_empty.
  - rewrite F1. cbn. unfold len. by rewrite length_fmap.
Qed.

Lemma table_op_spec op t m t' m' M :
  table_ok t -> (forall k, get_norm t k = M k) -> table_op op (t, m) = Ok (t', m') ->
  table_ok t' /\ (forall k, get_norm t' k = spec_op M op k).
Proof.
  intros Hok HM. destruct op as [key value| | |mt]; cbn [table_op spec_op].
  - destruct (set t m key value) as [[[t1 m1] b]|] eqn:E; [|done]. cbn. intros [= <- <-].
    apply set_spec in E; [|done]. destruct (normalize_key key) as [norm|].
    + destruct E as (_ & H1 & _ & H2). split; [done|]. intros k. rewrite H2, HM. done.
    + destruct E as (H1 & H2 & H3 & _). destruct (get_norm_frame t t1 H1 H2 H3) as [G1 G2].
      split; [unfold table_ok; rewrite H1; by apply G2|]. intros k. by rewrite G1, HM.
  - intros E. destruct (clear_spec t m) as (H1 & H2 & _). destruct (clear t m). cbn in *.
    injection E as <- <-. done.
  - destruct (rehash t) as [t1|] eqn:E; [|done]. cbn. intros [= <- <-].
    unfold rehash, absorb_from_hash in E. apply absorb_spec in E as (H1 & _ & H2); [|lia|].
    + split; [done|]. intros k. by rewrite H2, HM.
    + destruct Hok as [K1 K2 K3]. split; [done|done|]. intros i idx Hi Hr. apply (K3 i); [done|lia].
  - intros [= <- <-]. destruct (get_norm_frame t (set_metatable mt t) eq_refl eq_refl eq_refl) as [G1 G2].
    split; [by apply G2|]. intros k. by rewrite G1, HM.
Qed.

Lemma table_ops_spec ops t m M t' m' :
  table_ok t -> (forall k, get_norm t k = M k) -> for_each table_op ops (t, m) = Ok (t', m') ->
  table_ok t' /\ (forall k, get_norm t' k = foldl spec_op M ops k).
Proof.
  revert t m M. induction ops as [|op ops IH]; intros t m M Hok HM; cbn [for_each foldl]; [by intros [= <- <-]|].
  destruct (table_op op (t, m)) as [[t1 m1]|] eqn:E; [|done]. cbn [result_bind].
  destruct (table_op_spec op t m t1 m1 M Hok HM E). by apply IH.
Qed.

Lemma get_norm_new k : get_norm new k = VNil.
Proof.
  rewrite get_norm_eq. unfold hash_get. cbn. rewrite lookup_empty.
  destruct (in_array new k) eqn:E; [|done]. destruct k as [|i| | | | |]; try done.
  change ((1 <=? i) && (i <=? 0) = true) in E. apply andb_prop in E as [E1%Z.leb_le E2%Z.leb_le]. lia.
Qed.

(** C4: a Lua table implements a map from normalized keys to values. After any sequence of
    writes (of any key and value, rejected keys and nils included), clears, rehashes and
    metatable changes on an empty table, reading any key gives what the same operations
    give on a plain function, however the entries moved between the array and the hash
    part; and the representation invariant holds. *)
Theorem table_refines_map ops m t m' key :
  for_each table_op ops (new, m) = Ok (t, m') ->
  table_ok t /\ get t key = spec_get (foldl spec_op (fun _ => VNil) ops) key.
Proof.
  intros H. destruct (table_ops_spec ops new m (fun _ => VNil) t m') as [H1 H2];
    [apply new_table_ok| |done|].
  - apply get_norm_new.
  - split; [done|]. unfold get, spec_get. destruct (normalize_key key); [apply H2|done].
Qed.

(** [next] enumerates a well-formed table. From nil it returns the first live entry;
    from the key of the [i]-th entry it returns the next one, and [Done] after the last,
    also when the entry just visited has been cleared meanwhile. The entries it goes
    through are exactly the non-nil bindings of the map, each key once. (The array is
    shorter than 2^53 slots, so that slot numbers are exact doubles.) *)
Theorem next_enumerates t m :
  table_ok t -> len (arr t) < 9007199254740992 ->
  let es := for_each_entry t in
  next t VNil = first_step es /\
  (forall i k v, es !! i = Some (k, v) ->
     next t k = first_step (drop (S i) es) /\
     (exists t' m', set t m k VNil = Ok ((t', m'), true) /\ next t' k = next t k)) /\
  (forall norm v, v <> VNil ->
     get_norm t norm = v <-> exists k, (k, v) ∈ es /\ normalize_key k = Some norm) /\
  NoDup ((fun kv : RawValue * RawValue => normalize_key kv.1) <$> es).
Proof.
  intros Hok Hlen es. split_and!.
  - apply next_start.
  - intros i k v Hi. split; [by eapply next_entry|].
    destruct (set_nil_total t m k) as [[[t' m'] b] HS]. exists t', m'.
    pose proof (set_spec t m k VNil t' m' b Hok HS) as Hsp.
    assert (is_Some (normalize_key k)) as [norm Hn].
    { unfold es in Hi. rewrite for_each_entry_split in Hi.
      apply lookup_app_Some in Hi as [Hi|[_ Hi]].
      - apply array_from_rest in Hi as (p & Hp & _ & -> & _). apply lookup_lt_Some in Hp.
        unfold len in Hlen. rewrite normalize_array_key by lia. eauto.
      - apply hash_entries_rest in Hi as (p & s & Hp & <- & Hv & _).
        destruct (live_slot_key t p s v Hok Hp Hv) as (nk & -> & _). eauto. }
    rewrite Hn in Hsp. destruct Hsp as (-> & _). split; [done|]. by eapply next_after_clear.
  - intros norm v Hv. by apply entries_complete.
  - by apply entries_nodup.
Qed.

End Refinement.

(** ** Snapshots *)

Section Snapshot.
Context {AL : Allocator} {MA : MapAllocator} {SZ : TableSizes}.
Implicit Types (t : LuaTable).

(** Live slots under distinct keys. *)
Definition distinct_live (l : list HashSlot) : Prop :=
  forall (p q : nat) s s' v w k,
    l !! p = Some s -> l !! q = Some s' -> slot_value s = Some v -> slot_value s' = Some w ->
    normalize_key (key_value s) = Some k -> normalize_key (key_value s') = Some k -> p = q.

Lemma index_of_snoc l s :
  index_of (l ++ [s]) =
    match slot_value s, normalize_key (key_value s) with
    | Some _, Some norm => <[norm := len l]> (index_of l)
    | _, _ => index_of l
    end.
Proof. unfold index_of. rewrite imap_app, foldl_app. cbn. by rewrite Nat.add_0_r. Qed.

Lemma index_of_spec l k idx :
  distinct_live l ->
  index_of l !! k = Some idx <->
  exists (p : nat) s v, idx = Z.of_nat p /\ l !! p = Some s /\ slot_value s = Some v /\
    normalize_key (key_value s) = Some k.
Proof.
  induction l as [|s l IH] using rev_ind; intros Hd.
  { split; [cbn; by rewrite lookup_empty|]. intros (p & s & v & _ & Hp & _). by rewrite lookup_nil in Hp. }
  assert (Hd' : distinct_live l).
  { intros p q s1 s2 v w k' Hp Hq. apply Hd; by apply lookup_app_l_Some. }
  specialize (IH Hd'). rewrite index_of_snoc.
  assert (Hsnoc : (exists (p : nat) s' v, idx = Z.of_nat p /\ (l ++ [s]) !! p = Some s' /\ slot_value s' = Some v /\
      normalize_key (key_value s') = Some k) <->
    (exists (p : nat) s' v, idx = Z.of_nat p /\ l !! p = Some s' /\ slot_value s' = Some v /\
      normalize_key (key_value s') = Some k) \/
    (idx = len l /\ is_Some (slot_value s) /\ normalize_key (key_value s) = Some k)).
  { split.
    - intros (p & s' & v & -> & Hp & Hv & Hk). apply lookup_snoc_Some in Hp as [[_ Hp]|[-> <-]]; [left|right]; eauto 8.
    - intros [(p & s' & v & -> & Hp & Hv & Hk)|(-> & [v Hv] & Hk)].
      + exists p, s', v. split_and!; [done|by apply lookup_app_l_Some|done|done].
      + exists (length l), s, v. split_and!; [done| |done|done].
        by rewrite lookup_app_r, Nat.sub_diag by lia. }
  rewrite Hsnoc, <- IH. destruct (slot_value s) as [v|] eqn:Hv; [|unfold is_Some; naive_solver].
  destruct (normalize_key (key_value s)) as [norm|] eqn:Hn; [|naive_solver].
  destruct (decide (norm = k)) as [->|Hne].
  - rewrite lookup_insert_eq. split; [naive_solver|]. intros [Hi|(-> & _)]; [|done]. exfalso.
    apply IH in Hi as (p & s' & w & _ & Hp & Hw & Hk). pose proof (lookup_lt_Some _ _ _ Hp).
    assert (p = length l); [|lia].
    eapply (Hd p (length l) s' s w v k); try done; [by apply lookup_app_l_Some|].
    by rewrite lookup_app_r, Nat.sub_diag by lia.
  - rewrite lookup_insert_ne by done. naive_solver.
Qed.

Lemma slots_distinct n t : table_ok_upto n t -> distinct_live (slots t).
Proof.
  intros Hok p q s s' v w k Hp Hq Hv Hw Hk Hk'.
  rewrite <- zget_of_nat in Hp, Hq.
  destruct (live_indexed _ _ Hok _ _ _ Hp Hv) as (_ & k1 & Hk1 & Hi1).
  destruct (live_indexed _ _ Hok _ _ _ Hq Hw) as (_ & k2 & Hk2 & Hi2). simplify_eq. lia.
Qed.

(** Restoring a table from its snapshot image gives a well-formed table with the same
    bindings, metatable and flags: the rebuilt key index finds every live slot, and
    dropping the index entries of tombstones changes no read. *)
Theorem snapshot_round_trip t m arr_cap hash_cap ix_cap :
  table_ok t ->
  let t' := (from_snapshot_image (snapshot_image t) arr_cap hash_cap ix_cap m).1 in
  table_ok t' /\ (forall key, get t' key = get t key) /\
  for_each_entry t' = for_each_entry t /\ metatable t' = metatable t /\
  readonly t' = readonly t /\ safeenv t' = safeenv t.
Proof.
  intros Hok t'.
  set (t1 := mkTable (mkVec (arr t) arr_cap) (mkVec (slots t) hash_cap) (index_of (slots t)) ix_cap
               (metatable t) (readonly t) (safeenv t) 0).
  assert (Ht' : t' = (recharge t1 m).1).
  { unfold t', from_snapshot_image. cbn [image_hash snapshot_image].
    rewrite <- list_fmap_compose. rewrite (list_fmap_ext _ id); [by rewrite list_fmap_id|].
    intros i [k v] _. done. }
  assert (Hidx : forall k idx, index t1 !! k = Some idx <-> index t !! k = Some idx /\ is_Some (slot_live t idx)).
  { intros k idx. cbn. rewrite index_of_spec by (by eapply slots_distinct). split.
    - intros (p & s & v & -> & Hp & Hv & Hk). rewrite <- zget_of_nat in Hp.
      destruct (live_indexed _ _ Hok _ _ _ Hp Hv) as (_ & k' & Hk' & Hi). simplify_eq.
      split; [done|]. unfold slot_live. rewrite Hp. cbn. by rewrite Hv.
    - intros [Hi [v Hv]]. destruct (index_slot _ _ Hok _ _ Hi) as (s & Hs & Hk).
      unfold slot_live in Hv. rewrite Hs in Hv. apply zget_Some in Hs as [Hr Hs].
      exists (Z.to_nat idx), s, v. split_and!; [lia|done|done|done]. }
  assert (Hok1 : table_ok t1).
  { split.
    - intros k idx [Hi _]%Hidx. by apply (index_slot _ _ Hok).
    - intros idx s v Hs Hv. change (slots t1) with (slots t) in Hs.
      destruct (live_indexed _ _ Hok _ _ _ Hs Hv) as (Hn & k & Hk & Hi).
      split; [done|]. exists k. split; [done|]. apply Hidx. split; [done|]. unfold slot_live. rewrite Hs. eauto.
    - intros i idx [Hi Hl]%Hidx Hr. exact (shadowed _ _ Hok i idx Hi Hr). }
  assert (Hget : forall k, get_norm t1 k = get_norm t k).
  { intros k. rewrite !get_norm_eq. change (in_array t1 k) with (in_array t k).
    destruct (in_array t k); [done|]. unfold hash_get. change (slot_live t1) with (slot_live t).
    destruct (index t !! k) as [idx|] eqn:Hi; cbn [mbind option_bind].
    - destruct (slot_live t idx) as [v|] eqn:Hv.
      + replace (index t1 !! k) with (Some idx); [cbn; by rewrite Hv|]. symmetry. apply Hidx. eauto.
      + destruct (index t1 !! k) as [idx'|] eqn:Hi'; [|done]. apply Hidx in Hi' as [Hi' [v Hv']]. congruence.
    - destruct (index t1 !! k) as [idx'|] eqn:Hi'; [|done]. apply Hidx in Hi' as [Hi' _]. congruence. }
  destruct (recharge_frame t1 m) as (F1 & F2 & F3 & F4).
  assert (F5 : readonly t' = readonly t /\ safeenv t' = safeenv t) by (rewrite Ht'; unfold recharge; by case_match).
  rewrite <- Ht' in F1, F2, F3, F4. destruct (get_norm_frame t1 t' F1 F2 F3) as [G1 G2].
  split_and!; try apply F5; [..|done].
  - unfold table_ok. rewrite F1. by apply G2.
  - intros key. unfold get. destruct (normalize_key key); [|done]. by rewrite G1, Hget.
  - unfold for_each_entry. by rewrite F1, F2.
Qed.

End Snapshot.

(** ** Witnesses *)

Section Witnesses.
#[local] Existing Instance exact_allocator.

Definition doubling_map : MapAllocator := {|
  map_insert n cap := Some (if n <=? cap then cap else 2 * n);
  map_settle n cap := cap;
|}.
#[local] Existing Instance doubling_map.

Definition sizes64 : TableSizes := {| size_RawValue := 16; size_HashSlot := 32; size_IndexEntry := 32 |}.
#[local] Existing Instance sizes64.

(** [t[2] = 20; t[true] = 7; t[1] = 10; t[3] = 30; t[3] = nil], numbers being doubles. *)
Definition sample_ops : list TableOp :=
  [ OSet (VNumber (f64_of_u64 2)) (VInteger 20); OSet (VBoolean true) (VInteger 7);
    OSet (VNumber (f64_of_u64 1)) (VInteger 10); OSet (VNumber (f64_of_u64 3)) (VInteger 30);
    OSet (VNumber (f64_of_u64 3)) VNil ].

Definition sample_state : LuaTable * MemoryMeter :=
  match for_each table_op sample_ops (new, meter_default) with Ok st => st | Err _ => (new, meter_default) end.
Definition sample : LuaTable := sample_state.1.

Lemma sample_run : for_each table_op sample_ops (new, meter_default) = Ok (sample, sample_state.2).
Proof. vm_compute. reflexivity. Qed.

(** Key 2 was absorbed by the array when key 1 arrived. *)
Example sample_arr : arr sample = [VInteger 10; VInteger 20; VNil].
Proof. vm_compute. reflexivity. Qed.

Lemma sample_ok : table_ok sample.
Proof.
  destruct (table_ops_spec sample_ops new meter_default (fun _ => VNil) sample sample_state.2)
    as [H _]; [apply new_table_ok|apply get_norm_new|apply sample_run|exact H].
Qed.

Lemma table_refines_map_witness :
  for_each table_op sample_ops (new, meter_default) = Ok (sample, sample_state.2) /\
  get sample (VNumber (f64_of_u64 2)) = VInteger 20.
Proof.
  split; [exact sample_run|].
  etransitivity; [exact (proj2 (table_refines_map sample_ops meter_default sample sample_state.2
    (VNumber (f64_of_u64 2)) sample_run))|]. vm_compute. reflexivity.
Defined.

Lemma next_enumerates_witness :
  len (arr sample) < 9007199254740992 /\
  next sample VNil = NPair (VNumber (f64_of_u64 1)) (VInteger 10).
Proof.
  assert (H : len (arr sample) < 9007199254740992) by (vm_compute; reflexivity).
  split; [exact H|].
  etransitivity; [exact (proj1 (next_enumerates sample meter_default sample_ok H))|].
  vm_compute. reflexivity.
Defined.

Lemma table_length_border_witness :
  table_length sample = 2 /\ get_norm sample (LInteger 3) = VNil.
Proof.
  assert (E : table_length sample = 2) by (vm_compute; reflexivity).
  split; [exact E|]. destruct (table_length_border sample sample_ok) as (_ & _ & H).
  rewrite E in H. exact H.
Defined.

Lemma snapshot_round_trip_witness :
  get (from_snapshot_image (snapshot_image sample) 4 2 2 meter_default).1 (VBoolean true) = VInteger 7.
Proof.
  etransitivity;
    [exact (proj1 (proj2 (snapshot_round_trip sample meter_default 4 2 2 sample_ok)) (VBoolean true))|].
  vm_compute. reflexivity.
Defined.

End Witnesses.
