(* ===== verification/GcObjects.v ===== *)
(** * GcObjects: heap objects, their outgoing handles, and the object store

    Model of the collectable objects ([ruau-vm/src/func.rs], [object.rs], [state.rs],
    [string.rs], the [gc_trace] methods of [table.rs]), of the object store
    ([heap/store.rs]) and of the parts of [Heap] ([heap/mod.rs]) the collector reads and
    writes. A [gc_trace] is the list of the handles it visits, in order; the visitor is the
    loop over that list. The records keep the fields that tracing, footprints and the
    collector use. Element sizes are the parameters of [HeapSizes]. *)

From Stdlib Require Import ZArith Lia.
From stdpp Require Import base numbers list option gmap.
From S2P Require Import Prelude RustVec Arena Value Registry LuaTable.

(** ** References *)

Inductive GcRef : Set :=
| GStr (i : Z)
| GTable (i : Z)
| GClosure (i : Z)
| GUserdata (i : Z)
| GThread (i : Z)
| GBuffer (i : Z)
| GProto (i : Z)
| GUpVal (i : Z).

#[export] Instance GcRef_eq_dec : EqDecision GcRef.
Proof. solve_decision. Defined.

Definition from_value (value : RawValue) : option GcRef :=
  match value with
  | VString h => Some (GStr (gc_index h))
  | VTable h => Some (GTable (gc_index h))
  | VFunction h => Some (GClosure (gc_index h))
  | VUserdata h => Some (GUserdata (gc_index h))
  | VThread h => Some (GThread (gc_index h))
  | VBuffer h => Some (GBuffer (gc_index h))
  | _ => None
  end.

Definition from_value_gen (value : RawValue) : option (GcRef * Z) :=
  match value with
  | VString h => Some (GStr (gc_index h), gc_generation h)
  | VTable h => Some (GTable (gc_index h), gc_generation h)
  | VFunction h => Some (GClosure (gc_index h), gc_generation h)
  | VUserdata h => Some (GUserdata (gc_index h), gc_generation h)
  | VThread h => Some (GThread (gc_index h), gc_generation h)
  | VBuffer h => Some (GBuffer (gc_index h), gc_generation h)
  | _ => None
  end.

(** A handle of a known kind, with its generation. *)
Definition visit (kind : Z -> GcRef) (h : RawGc) : GcRef * Z := (kind (gc_index h), gc_generation h).
Definition visit_opt (kind : Z -> GcRef) (o : option RawGc) : list (GcRef * Z) :=
  match o with Some h => [visit kind h] | None => [] end.
Definition visit_value (v : RawValue) : list (GcRef * Z) :=
  match from_value_gen v with Some c => [c] | None => [] end.

(** ** Sizes *)

Class HeapSizes : Type := {
  size_strings : Z; size_tables : Z; size_closures : Z; size_userdata : Z;
  size_threads : Z; size_buffers : Z; size_protos : Z; size_upvals : Z;
  size_GcRef : Z; size_WeakEntry : Z; size_UpValHandle : Z; size_InternerEntry : Z;
  size_u32 : Z; size_Value : Z;
}.

Class HeapSizesLaws (HS : HeapSizes) : Prop := {
  size_strings_pos : 0 < size_strings; size_tables_pos : 0 < size_tables;
  size_closures_pos : 0 < size_closures; size_userdata_pos : 0 < size_userdata;
  size_threads_pos : 0 < size_threads; size_buffers_pos : 0 < size_buffers;
  size_protos_pos : 0 < size_protos; size_upvals_pos : 0 < size_upvals;
  size_GcRef_pos : 0 < size_GcRef; size_WeakEntry_pos : 0 < size_WeakEntry;
  size_u32_pos : 0 < size_u32; size_Value_pos : 0 < size_Value;
}.

(** ** Objects *)

(** [InternedString]: its bytes. *)
Definition InternedString : Set := list Z.

Record Closure : Type := mkClosure {
  c_proto : RawGc;
  c_env : option RawGc;
  c_upvals : Vec RawGc;
}.

Inductive UpVal : Set :=
| UOpen (thread : RawGc) (slot : Z)
| UClosed (v : RawValue).

Record TableShape : Set := mkShape { shape_entries : list (RawValue * RawValue); array_hint : Z }.

Inductive RuntimeConstant : Set :=
| RValue (v : RawValue)
| RImport (id : Z)
| RTable (shape : TableShape)
| RProto (p : RawGc).

Record Proto : Set := mkProto {
  p_source : option RawGc;
  p_debug_name : option RawGc;
  p_child_protos : list RawGc;
  p_import_values : list (option RawValue);
  p_constants : list RuntimeConstant;
  p_charged_footprint : Z;
}.

Record CapturedVarargs : Set := mkVarargs { va_values : list RawValue; va_charged : Z }.

Record CallInfo : Set := mkCallInfo {
  ci_closure : RawGc;
  ci_frame_top : Z;
  ci_varargs : CapturedVarargs;
}.

Record ProtectedInfo : Set := mkProtected {
  pi_result_base : Z;
  pi_result_count : Z;
  pi_saved_top : Z;
  pi_handler : option RawValue;
}.

Record RequireInfo : Set := mkRequire {
  ri_result_base : Z;
  ri_result_count : Z;
  ri_saved_top : Z;
}.

Inductive CallStackEntry : Set :=
| CFrame (f : CallInfo)
| CProtected (p : ProtectedInfo)
| CRequire (r : RequireInfo).

(** The three forms of [ResumeSlot] carry the same result window. *)
Inductive ResumeSlot : Set :=
| RDirect (result_base result_count : Z)
| RProtected (result_base result_count : Z)
| RConformanceNative (result_base result_count : Z).

Record StackStore : Set := mkStack { st_slots : list RawValue; st_charged : Z }.

Record Thread : Set := mkThread {
  th_stacks : StackStore;
  th_call_stack : list CallStackEntry;
  th_error_frames : list RawGc;
  th_top : Z;
  th_open_upvals : list RawGc;
  th_id : option RawGc;
  th_globals : option RawGc;
  th_entry : option RawGc;
  th_resume_slot : option ResumeSlot;
  th_death_error : option RawValue;
  th_resumer : option RawGc;
}.

Record LuaUserdata : Set := mkUserdata { ud_payload_id : Z; ud_charged : Z }.
Record LuaBuffer : Set := mkBuffer { b_data : list Z; b_charged : Z }.

(** ** Tracing *)

Definition closure_trace (c : Closure) : list (GcRef * Z) :=
  visit GProto (c_proto c) :: visit_opt GTable (c_env c) ++ (visit GUpVal <$> items (c_upvals c)).

Definition upval_trace (u : UpVal) : list (GcRef * Z) :=
  match u with
  | UOpen thread _ => [visit GThread thread]
  | UClosed v => visit_value v
  end.

Definition constant_trace (c : RuntimeConstant) : list (GcRef * Z) :=
  match c with
  | RValue v => visit_value v
  | RProto p => [visit GProto p]
  | RTable shape => shape_entries shape ≫= fun kv => visit_value kv.1 ++ visit_value kv.2
  | RImport _ => []
  end.

Definition proto_trace (p : Proto) : list (GcRef * Z) :=
  visit_opt GStr (p_source p) ++ visit_opt GStr (p_debug_name p) ++
  (visit GProto <$> p_child_protos p) ++
  (p_import_values p ≫= fun o => match o with Some v => visit_value v | None => [] end) ++
  (p_constants p ≫= constant_trace).

Definition u32_saturating_add (x y : Z) : Z := Z.min 4294967295 (x + y).

(** One past a result window of [count] (at least one) registers. *)
Definition window_top (base count : Z) : Z := u32_saturating_add base (Z.max count 1).

Definition entry_top (e : CallStackEntry) : Z :=
  match e with
  | CFrame f => ci_frame_top f
  | CProtected p => Z.max (pi_saved_top p) (window_top (pi_result_base p) (pi_result_count p))
  | CRequire r => Z.max (ri_saved_top r) (window_top (ri_result_base r) (ri_result_count r))
  end.

Definition gc_live_top (t : Thread) : Z :=
  let top := foldl (fun top e => Z.max top (entry_top e)) (th_top t) (th_call_stack t) in
  match th_resume_slot t with
  | Some (RDirect b c) | Some (RProtected b c) | Some (RConformanceNative b c) =>
      Z.max top (window_top b c)
  | None => top
  end.

Definition gc_slots_up_to (s : StackStore) (top : Z) : list RawValue := take (Z.to_nat top) (st_slots s).

Definition call_entry_trace (e : CallStackEntry) : list (GcRef * Z) :=
  match e with
  | CFrame f => visit GClosure (ci_closure f) :: (va_values (ci_varargs f) ≫= visit_value)
  | CProtected p => match pi_handler p with Some h => visit_value h | None => [] end
  | CRequire _ => []
  end.

Definition thread_trace (t : Thread) : list (GcRef * Z) :=
  (gc_slots_up_to (th_stacks t) (gc_live_top t) ≫= visit_value) ++
  (th_call_stack t ≫= call_entry_trace) ++
  (visit GClosure <$> th_error_frames t) ++
  (visit GUpVal <$> th_open_upvals t) ++
  visit_opt GTable (th_globals t) ++
  visit_opt GClosure (th_entry t) ++
  match th_death_error t with Some v => visit_value v | None => [] end ++
  visit_opt GThread (th_resumer t).

(** The handles of a live hash slot. *)
Definition slot_trace (s : HashSlot) : list (GcRef * Z) :=
  match slot_value s with
  | Some v => visit_value (key_value s) ++ visit_value v
  | None => []
  end.

Definition table_trace (t : LuaTable) : list (GcRef * Z) :=
  (LuaTable.arr t ≫= visit_value) ++ (LuaTable.slots t ≫= slot_trace) ++
  visit_opt GTable (metatable t).

(** [gc_trace_weak]: a weakly held component is not traced unless it is a string. *)
Definition is_string (v : RawValue) : bool := match v with VString _ => true | _ => false end.
Definition strong (v : RawValue) (weak : bool) : bool := negb weak || is_string v.
Definition push_strong (v : RawValue) (weak : bool) : list GcRef :=
  if strong v weak then match from_value v with Some c => [c] | None => [] end else [].

Definition gc_trace_weak (t : LuaTable) (weak_keys weak_values : bool) : list GcRef :=
  (LuaTable.arr t ≫= fun v => push_strong v weak_values) ++
  (LuaTable.slots t ≫= fun s =>
     match slot_value s with
     | Some v => push_strong (key_value s) weak_keys ++ push_strong v weak_values
     | None => []
     end) ++
  match metatable t with Some h => [GTable (gc_index h)] | None => [] end.

(** ** The store *)

Record ObjectStore : Type := mkStore {
  strings : Arena InternedString;
  tables : Arena LuaTable;
  closures : Arena Closure;
  userdata : Arena LuaUserdata;
  threads : Arena Thread;
  buffers : Arena LuaBuffer;
  protos : Arena Proto;
  upvals : Arena UpVal;
}.

(** The payload store of host userdata ([host_payload.rs]), which the VM owns beside the
    heap: which ids hold a payload, the reusable ids, the live count. *)
Record HostPayloadStore : Type := mkPayloads {
  pl_present : list Z;
  pl_free : Vec Z;
  pl_live : Z;
}.

Record Heap : Type := mkHeap {
  h_id : Z;
  objects : ObjectStore;
  payloads : HostPayloadStore;
  registry : Registry;
  interner : gmap (list Z) RawGc;
  meter : MemoryMeter;
  string_metatable : option RawGc;
  vector_metatable : option RawGc;
  structured_error_metatable : option RawGc;
  metamethod_names : list (option RawGc);
  gc_threshold : Z;
  gc_cycles : Z;
  gc_step_progress : Z;
  taken_out_threads : Z;
  gc_remembered : Vec GcRef;
  gc_minors_since_major : Z;
  gc_major_threshold : Z;
  gc_force_major : bool;
}.

Definition set_objects (o : ObjectStore) (h : Heap) : Heap :=
  mkHeap (h_id h) o (payloads h) (registry h) (interner h) (meter h) (string_metatable h) (vector_metatable h)
    (structured_error_metatable h) (metamethod_names h) (gc_threshold h) (gc_cycles h)
    (gc_step_progress h) (taken_out_threads h) (gc_remembered h) (gc_minors_since_major h)
    (gc_major_threshold h) (gc_force_major h).

Definition set_payloads (p : HostPayloadStore) (h : Heap) : Heap :=
  mkHeap (h_id h) (objects h) p (registry h) (interner h) (meter h) (string_metatable h) (vector_metatable h)
    (structured_error_metatable h) (metamethod_names h) (gc_threshold h) (gc_cycles h)
    (gc_step_progress h) (taken_out_threads h) (gc_remembered h) (gc_minors_since_major h)
    (gc_major_threshold h) (gc_force_major h).

Definition set_meter (m : MemoryMeter) (h : Heap) : Heap :=
  mkHeap (h_id h) (objects h) (payloads h) (registry h) (interner h) m (string_metatable h) (vector_metatable h)
    (structured_error_metatable h) (metamethod_names h) (gc_threshold h) (gc_cycles h)
    (gc_step_progress h) (taken_out_threads h) (gc_remembered h) (gc_minors_since_major h)
    (gc_major_threshold h) (gc_force_major h).

Definition set_interner (ix : gmap (list Z) RawGc) (h : Heap) : Heap :=
  mkHeap (h_id h) (objects h) (payloads h) (registry h) ix (meter h) (string_metatable h) (vector_metatable h)
    (structured_error_metatable h) (metamethod_names h) (gc_threshold h) (gc_cycles h)
    (gc_step_progress h) (taken_out_threads h) (gc_remembered h) (gc_minors_since_major h)
    (gc_major_threshold h) (gc_force_major h).

Definition set_remembered (r : Vec GcRef) (h : Heap) : Heap :=
  mkHeap (h_id h) (objects h) (payloads h) (registry h) (interner h) (meter h) (string_metatable h) (vector_metatable h)
    (structured_error_metatable h) (metamethod_names h) (gc_threshold h) (gc_cycles h)
    (gc_step_progress h) (taken_out_threads h) r (gc_minors_since_major h)
    (gc_major_threshold h) (gc_force_major h).

Definition set_force_major (b : bool) (h : Heap) : Heap :=
  mkHeap (h_id h) (objects h) (payloads h) (registry h) (interner h) (meter h) (string_metatable h) (vector_metatable h)
    (structured_error_metatable h) (metamethod_names h) (gc_threshold h) (gc_cycles h)
    (gc_step_progress h) (taken_out_threads h) (gc_remembered h) (gc_minors_since_major h)
    (gc_major_threshold h) b.

(** ** Dereferencing *)

Definition heap_table (h : Heap) (handle : RawGc) : option LuaTable :=
  if negb (gc_heap handle =? h_id h) then None
  else Arena.get (tables (objects h)) (gc_index handle) (gc_generation handle).

Definition heap_string (h : Heap) (handle : RawGc) : option InternedString :=
  if negb (gc_heap handle =? h_id h) then None
  else Arena.get (strings (objects h)) (gc_index handle) (gc_generation handle).

Definition heap_thread (h : Heap) (handle : RawGc) : option Thread :=
  if negb (gc_heap handle =? h_id h) then None
  else Arena.get (threads (objects h)) (gc_index handle) (gc_generation handle).

(** [StringInterner::lookup]. *)
Definition interner_lookup (h : Heap) (bytes : list Z) : option RawGc := interner h !! bytes.

(** The registry's anchors. *)
Definition gc_anchors (h : Heap) : list RawValue := Registry.gc_anchors (registry h).
