(* ===== verification/Gc.v ===== *)
(** * Gc: the mark-sweep collector

    Model of [ruau-vm/src/gc.rs] with the pacing of [heap/mod.rs] and the payload store's
    reclamation ([host_payload.rs]). The collector threads the heap through fallible steps:
    a step that runs out of work-list memory returns [GcAbort] together with the heap it
    leaves, which [collect] then scrubs. The [while let Some(..) = queue.pop()] loop is a
    fixpoint on fuel; [trace_fuel] is enough (GcFacts), and [OutOfFuel] never comes out.
    Dropping a swept object releases what its destructor holds (vararg captures, userdata
    payload charge); host destructors are assumed to return. *)

From Stdlib Require Import ZArith Lia.
From stdpp Require Import base numbers list option gmap.
From S2P Require Import Prelude RustVec Arena Value LuaTable GcObjects.

Inductive GcError : Set :=
| GcAbort
| GcFault (f : Fault)
| OutOfFuel.

(** A fallible computation on the heap. *)
Definition GM (A : Type) : Type := Heap -> Heap * result GcError A.

Definition gret {A} (x : A) : GM A := fun h => (h, Ok x).
Definition gfail {A} (e : GcError) : GM A := fun h => (h, Err e).
Definition gbind {A B} (m : GM A) (k : A -> GM B) : GM B := fun h =>
  match m h with
  | (h', Ok x) => k x h'
  | (h', Err e) => (h', Err e)
  end.
Definition gmodify (f : Heap -> Heap) : GM unit := fun h => (f h, Ok tt).
Definition gget : GM Heap := fun h => (h, Ok h).

Notation "'let*' x := m 'in' k" := (gbind m (fun x => k))
  (at level 10, x pattern, m at level 100, k at level 200) : ruau_scope.

(** [for x in l { acc = f(x, acc)? }]. *)
Fixpoint gfor {X A} (f : X -> A -> GM A) (l : list X) (acc : A) : GM A :=
  match l with
  | [] => gret acc
  | x :: l' => let* acc' := f x acc in gfor f l' acc'
  end.

Inductive GcCycle : Set := Minor | Full.
Definition is_minor (c : GcCycle) : bool := match c with Minor => true | Full => false end.

Module Gc.
Section Gc.
Context {AL : Allocator} {MA : MapAllocator} {TS : TableSizes} {HS : HeapSizes}.
Implicit Types (h : Heap) (r : GcRef) (o : ObjectStore).

(** ** Colors and ages of a reference *)

Definition color h r : Color :=
  let o := objects h in
  match r with
  | GStr i => Arena.gc_color (strings o) i
  | GTable i => Arena.gc_color (tables o) i
  | GClosure i => Arena.gc_color (closures o) i
  | GUserdata i => Arena.gc_color (userdata o) i
  | GThread i => Arena.gc_color (threads o) i
  | GBuffer i => Arena.gc_color (buffers o) i
  | GProto i => Arena.gc_color (protos o) i
  | GUpVal i => Arena.gc_color (upvals o) i
  end.

(** Apply a transformation of the entry a reference names, in its arena. *)
Definition on_arena (f : forall T, Z -> Arena T -> Arena T) r o : ObjectStore :=
  match r with
  | GStr i => mkStore (f _ i (strings o)) (tables o) (closures o) (userdata o) (threads o) (buffers o) (protos o) (upvals o)
  | GTable i => mkStore (strings o) (f _ i (tables o)) (closures o) (userdata o) (threads o) (buffers o) (protos o) (upvals o)
  | GClosure i => mkStore (strings o) (tables o) (f _ i (closures o)) (userdata o) (threads o) (buffers o) (protos o) (upvals o)
  | GUserdata i => mkStore (strings o) (tables o) (closures o) (f _ i (userdata o)) (threads o) (buffers o) (protos o) (upvals o)
  | GThread i => mkStore (strings o) (tables o) (closures o) (userdata o) (f _ i (threads o)) (buffers o) (protos o) (upvals o)
  | GBuffer i => mkStore (strings o) (tables o) (closures o) (userdata o) (threads o) (f _ i (buffers o)) (protos o) (upvals o)
  | GProto i => mkStore (strings o) (tables o) (closures o) (userdata o) (threads o) (buffers o) (f _ i (protos o)) (upvals o)
  | GUpVal i => mkStore (strings o) (tables o) (closures o) (userdata o) (threads o) (buffers o) (protos o) (f _ i (upvals o))
  end.

Definition set_color r (c : Color) h : Heap :=
  set_objects (on_arena (fun T i a => Arena.gc_set_color i c a) r (objects h)) h.

Definition age h r : Age :=
  let o := objects h in
  match r with
  | GStr i => Arena.gc_age (strings o) i
  | GTable i => Arena.gc_age (tables o) i
  | GClosure i => Arena.gc_age (closures o) i
  | GUserdata i => Arena.gc_age (userdata o) i
  | GThread i => Arena.gc_age (threads o) i
  | GBuffer i => Arena.gc_age (buffers o) i
  | GProto i => Arena.gc_age (protos o) i
  | GUpVal i => Arena.gc_age (upvals o) i
  end.

Definition set_age r (a : Age) h : Heap :=
  set_objects (on_arena (fun T i ar => Arena.gc_set_age i a ar) r (objects h)) h.

(** The generational write barrier. *)
Definition remember (holder : GcRef) h : Heap :=
  match age h holder with
  | Old =>
      match try_reserve size_GcRef (gc_remembered h) 1 with
      | Some v => set_age holder OldRemembered
                    (set_remembered (mkVec (items v ++ [holder]) (capacity v)) h)
      | None => set_force_major true h
      end
  | _ => h
  end.

(** ** Work lists *)

Definition try_push {A} (size : Z) (buf : Vec A) (x : A) : GM (Vec A) := fun h =>
  match try_reserve size buf 1 with
  | None => (h, Err GcAbort)
  | Some b =>
      match push size b x with
      | Ok b' => (h, Ok b')
      | Err e => (h, Err (GcFault e))
      end
  end.

(** Mark a white slot gray and enqueue it, after reserving the queue slot. *)
Definition enqueue r (queue : Vec GcRef) : GM (Vec GcRef) := fun h =>
  match try_reserve size_GcRef queue 1 with
  | None => (h, Err GcAbort)
  | Some q =>
      match push size_GcRef q r with
      | Ok q' => (set_color r Gray h, Ok q')
      | Err e => (set_color r Gray h, Err (GcFault e))
      end
  end.

Definition mark r (queue : Vec GcRef) : GM (Vec GcRef) := fun h =>
  if is_white (color h r) then enqueue r queue h else (h, Ok queue).

Definition mark_minor r (queue : Vec GcRef) : GM (Vec GcRef) := fun h =>
  if negb (is_white (color h r)) then (h, Ok queue)
  else
    let trace_it := match r with GThread _ => true | _ => false end ||
                    match age h r with Young | OldRemembered => true | Old => false end in
    if trace_it then enqueue r queue h else (h, Ok queue).

(** ** Children *)

(** The handles [collect_children] visits. *)
Definition outgoing h r : list (GcRef * Z) :=
  let o := objects h in
  match r with
  | GTable i => match Arena.gc_value (tables o) i with Some t => table_trace t | None => [] end
  | GClosure i => match Arena.gc_value (closures o) i with Some c => closure_trace c | None => [] end
  | GProto i => match Arena.gc_value (protos o) i with Some p => proto_trace p | None => [] end
  | GUpVal i => match Arena.gc_value (upvals o) i with Some u => upval_trace u | None => [] end
  | GThread i => match Arena.gc_value (threads o) i with Some t => thread_trace t | None => [] end
  | GStr _ | GBuffer _ | GUserdata _ => []
  end.

Definition collect_children r (out : Vec GcRef) : GM (Vec GcRef) :=
  let* h := gget in
  gfor (fun c out => try_push size_GcRef out c) (fst <$> outgoing h r) out.

(** ["__mode"], ['k'], ['v']. *)
Definition MODE : list Z := [95; 95; 109; 111; 100; 101].

Definition weak_mode h (t : LuaTable) : option (bool * bool) :=
  match metatable t with
  | None => None
  | Some mt =>
      match interner_lookup h MODE with
      | None => None
      | Some mode_key =>
          match heap_table h mt with
          | None => None
          | Some m =>
              match LuaTable.get m (VString mode_key) with
              | VString handle =>
                  match heap_string h handle with
                  | None => None
                  | Some bytes =>
                      let weak_keys := bool_decide (107 ∈ bytes) in
                      let weak_values := bool_decide (118 ∈ bytes) in
                      if weak_keys || weak_values then Some (weak_keys, weak_values) else None
                  end
              | _ => None
              end
          end
      end
  end.

(** The weak mode of the table a reference names, with its index. *)
Definition weak_of h r : option (Z * bool * bool) :=
  match r with
  | GTable i =>
      match Arena.gc_value (tables (objects h)) i with
      | Some t => match weak_mode h t with Some (wk, wv) => Some (i, wk, wv) | None => None end
      | None => None
      end
  | _ => None
  end.

(** ** Tracing *)

(** The locals of [trace]. *)
Record Work : Type := mkWork {
  w_queue : Vec GcRef;
  w_children : Vec GcRef;
  w_weak : Vec (Z * bool * bool);
  w_marked : Vec GcRef;
}.

Definition gather r (w : Work) : GM Work :=
  let* h := gget in
  match weak_of h r with
  | Some (i, weak_keys, weak_values) =>
      let* children :=
        match Arena.gc_value (tables (objects h)) i with
        | Some t => gfor (fun c out => try_push size_GcRef out c)
                      (gc_trace_weak t weak_keys weak_values) (vec_clear (w_children w))
        | None => gret (vec_clear (w_children w))
        end in
      let* weak := try_push size_WeakEntry (w_weak w) (i, weak_keys, weak_values) in
      gret (mkWork (w_queue w) children weak (w_marked w))
  | None =>
      let* children := collect_children r (vec_clear (w_children w)) in
      gret (mkWork (w_queue w) children (w_weak w) (w_marked w))
  end.

(** One round of the loop, [r] having been popped. *)
Definition trace_round (cycle : GcCycle) r (w : Work) : GM Work :=
  let* w1 := gather r w in
  let* queue := gfor (if is_minor cycle then mark_minor else mark) (items (w_children w1)) (w_queue w1) in
  let* _ := gmodify (set_color r Black) in
  let* marked := if is_minor cycle then try_push size_GcRef (w_marked w1) r else gret (w_marked w1) in
  gret (mkWork queue (w_children w1) (w_weak w1) marked).

Fixpoint trace_loop (fuel : nat) (cycle : GcCycle) (w : Work) : GM Work :=
  match pop (w_queue w) with
  | (None, _) => gret w
  | (Some r, queue) =>
      match fuel with
      | O => gfail OutOfFuel
      | S fuel' =>
          let* w' := trace_round cycle r (mkWork queue (w_children w) (w_weak w) (w_marked w)) in
          trace_loop fuel' cycle w'
      end
  end.

(** ** Weak tables *)

Definition is_dead_component h (v : RawValue) (cycle : GcCycle) : bool :=
  if is_string v then false
  else match from_value v with
       | None => false
       | Some r =>
           if negb (is_white (color h r)) then false
           else negb (is_minor cycle) || is_young (age h r)
       end.

Definition entry_dead h (cycle : GcCycle) (weak_keys weak_values : bool) (kv : RawValue * RawValue) : bool :=
  (weak_keys && is_dead_component h kv.1 cycle) || (weak_values && is_dead_component h kv.2 cycle).

(** Phase 1: the keys of the dead entries. *)
Definition dead_keys_of h (cycle : GcCycle) (t : LuaTable) (weak_keys weak_values : bool) : list RawValue :=
  fst <$> filter (fun kv => entry_dead h cycle weak_keys weak_values kv = true)
            (LuaTable.for_each_entry t).

(** Phase 2: [table.set(key, nil)] on the arena's table, with the shared meter. *)
Definition clear_key (i : Z) (key : RawValue) : GM unit := fun h =>
  match Arena.gc_value (tables (objects h)) i with
  | None => (h, Ok tt)
  | Some t =>
      match LuaTable.set t (meter h) key VNil with
      | Err e => (h, Err (GcFault e))
      | Ok ((t', m'), _) =>
          let a := Arena.alter_entry (set_value (Some t')) i (tables (objects h)) in
          let o := objects h in
          (set_meter m' (set_objects
             (mkStore (strings o) a (closures o) (userdata o) (threads o) (buffers o) (protos o) (upvals o)) h),
           Ok tt)
      end
  end.

Definition clear_weak_table (cycle : GcCycle) (e : Z * bool * bool) (scratch : Vec RawValue) : GM (Vec RawValue) :=
  let '(i, weak_keys, weak_values) := e in
  let* h := gget in
  let dead := match Arena.gc_value (tables (objects h)) i with
              | Some t => dead_keys_of h cycle t weak_keys weak_values
              | None => []
              end in
  let* scratch' := gfor (fun k buf => try_push size_Value buf k) dead (vec_clear scratch) in
  let* _ := gfor (fun k (_ : unit) => clear_key i k) (items scratch') tt in
  gret scratch'.

Definition clear_weak_tables (cycle : GcCycle) (weak_tables : list (Z * bool * bool)) : GM unit :=
  let* _ := gfor (clear_weak_table cycle) weak_tables vec_new in gret tt.

(** ** The fuel of a trace: every slot's fan-out, and the queue. *)

(** The children of a round. *)
Definition kids h r : list GcRef :=
  match weak_of h r with
  | Some (i, wk, wv) =>
      match Arena.gc_value (tables (objects h)) i with
      | Some t => gc_trace_weak t wk wv
      | None => []
      end
  | None => fst <$> outgoing h r
  end.

Definition refs_of {T} (kind : Z -> GcRef) (a : Arena T) : list GcRef :=
  kind <$> seqZ 0 (Arena.arena_len a).

Definition all_refs o : list GcRef :=
  refs_of GStr (strings o) ++ refs_of GTable (tables o) ++ refs_of GClosure (closures o) ++
  refs_of GUserdata (userdata o) ++ refs_of GThread (threads o) ++ refs_of GBuffer (buffers o) ++
  refs_of GProto (protos o) ++ refs_of GUpVal (upvals o).

Definition weight h r : nat := S (length (kids h r)).

Definition trace_fuel h (queue : list GcRef) : nat :=
  (sum_list (weight h <$> all_refs (objects h)) + sum_list (weight h <$> queue))%nat.

Definition trace (cycle : GcCycle) (queue : Vec GcRef) : GM Work :=
  let* h := gget in
  let* w := trace_loop (trace_fuel h (items queue)) cycle (mkWork queue vec_new vec_new vec_new) in
  let* _ := clear_weak_tables cycle (items (w_weak w)) in
  gret w.

(** ** Roots *)

Definition mark_opt (kind : Z -> GcRef) (o : option RawGc) (queue : Vec GcRef) : GM (Vec GcRef) :=
  match o with
  | Some handle => mark (kind (gc_index handle)) queue
  | None => gret queue
  end.

Definition mark_heap_roots (roots : list GcRef) (queue : Vec GcRef) : GM (Vec GcRef) :=
  let* h := gget in
  let* q := gfor mark roots queue in
  let* q := mark_opt GTable (string_metatable h) q in
  let* q := gfor (mark_opt GStr) (metamethod_names h) q in
  let* q := mark_opt GTable (vector_metatable h) q in
  let* q := mark_opt GTable (structured_error_metatable h) q in
  let* anchors := gfor (fun v buf => match from_value v with
                                     | Some a => try_push size_GcRef buf a
                                     | None => gret buf
                                     end) (gc_anchors h) vec_new in
  gfor mark (items anchors) q.

(** ** Sweeping *)

(** What the sweep closures capture: the meter, the interner, the payload store (or the
    panic its [expect]s raised). *)
Record SweepState : Type := mkSweep {
  ss_meter : MemoryMeter;
  ss_interner : gmap (list Z) RawGc;
  ss_payloads : result Fault HostPayloadStore;
}.

Definition adjust_meter (old : Z) (s : SweepState) : SweepState :=
  mkSweep (adjust (ss_meter s) old 0) (ss_interner s) (ss_payloads s).

Definition reclaim (p : HostPayloadStore) (id : Z) : result Fault HostPayloadStore :=
  if negb (bool_decide (id ∈ pl_present p)) then Err Panic
  else
    let? fr := push size_u32 (pl_free p) id in
    if pl_live p =? 0 then Err Panic
    else Ok (mkPayloads (filter (fun x => x <> id) (pl_present p)) fr (pl_live p - 1)).

Definition free_table (t : LuaTable) (s : SweepState) : SweepState := adjust_meter (t_charged t) s.
Definition free_closure (c : Closure) (s : SweepState) : SweepState :=
  adjust_meter (capacity (c_upvals c) * size_UpValHandle) s.
(** The payload goes back to its store; the header's [Drop] releases its charge. *)
Definition free_userdata (u : LuaUserdata) (s : SweepState) : SweepState :=
  adjust_meter (ud_charged u)
    (mkSweep (ss_meter s) (ss_interner s) (let? p := ss_payloads s in reclaim p (ud_payload_id u))).
(** The stack's charge, then the vararg captures' as the frames are dropped. *)
Definition free_thread (t : Thread) (s : SweepState) : SweepState :=
  foldl (fun s e => match e with CFrame f => adjust_meter (va_charged (ci_varargs f)) s | _ => s end)
    (adjust_meter (st_charged (th_stacks t)) s) (th_call_stack t).
Definition free_buffer (b : LuaBuffer) (s : SweepState) : SweepState := adjust_meter (b_charged b) s.
Definition free_proto (p : Proto) (s : SweepState) : SweepState := adjust_meter (p_charged_footprint p) s.
Definition free_upval (u : UpVal) (s : SweepState) : SweepState := s.
(** [StringInterner::remove] after the string's own footprint. *)
Definition free_string (b : InternedString) (s : SweepState) : SweepState :=
  let s1 := adjust_meter (len b) s in
  match ss_interner s1 !! b with
  | Some _ =>
      mkSweep (adjust (ss_meter s1) (len b + size_InternerEntry) 0) (delete b (ss_interner s1)) (ss_payloads s1)
  | None => s1
  end.

(** [f(arena)?] on one arena of the store: the arena it leaves, and whether it succeeded. *)
Definition try_arena {T} (f : Arena T -> result Fault (Arena T)) (a : Arena T) : Arena T * bool :=
  match f a with Ok a' => (a', true) | Err _ => (a, false) end.

(** The reservations of all arenas, in order, stopping at the first failure. *)
Definition reserve_with (f : forall T, Arena T -> result Fault (Arena T)) o : ObjectStore * bool :=
  let '(strs, b1) := try_arena (f _) (strings o) in
  let '(tabs, b2) := if b1 then try_arena (f _) (tables o) else (tables o, false) in
  let '(clos, b3) := if b2 then try_arena (f _) (closures o) else (closures o, false) in
  let '(udat, b4) := if b3 then try_arena (f _) (userdata o) else (userdata o, false) in
  let '(thrs, b5) := if b4 then try_arena (f _) (threads o) else (threads o, false) in
  let '(bufs, b6) := if b5 then try_arena (f _) (buffers o) else (buffers o, false) in
  let '(prts, b7) := if b6 then try_arena (f _) (protos o) else (protos o, false) in
  let '(upvs, b8) := if b7 then try_arena (f _) (upvals o) else (upvals o, false) in
  (mkStore strs tabs clos udat thrs bufs prts upvs, b8).

Definition gc_reserve_free_lists o : ObjectStore * bool :=
  reserve_with (fun T a => Arena.gc_reserve_free a) o.
Definition gc_reserve_free_lists_minor o : ObjectStore * bool :=
  reserve_with (fun T a => Arena.gc_reserve_free_minor a) o.

(** Sweep every arena in the order of the sum expression, with the given arena sweep. *)
Definition sweep_with
  (f : forall T, (T -> SweepState -> SweepState) -> Arena T -> SweepState ->
       result Fault ((Arena T * SweepState) * Z))
  o (s : SweepState) : result Fault ((ObjectStore * SweepState) * Z) :=
  let? ((tabs, s), n1) := f _ free_table (tables o) s in
  let? ((clos, s), n2) := f _ free_closure (closures o) s in
  let? ((udat, s), n3) := f _ free_userdata (userdata o) s in
  let? ((thrs, s), n4) := f _ free_thread (threads o) s in
  let? ((bufs, s), n5) := f _ free_buffer (buffers o) s in
  let? ((prts, s), n6) := f _ free_proto (protos o) s in
  let? ((upvs, s), n7) := f _ free_upval (upvals o) s in
  let? ((strs, s), n8) := f _ free_string (strings o) s in
  Ok ((mkStore strs tabs clos udat thrs bufs prts upvs, s),
      n1 + n2 + n3 + n4 + n5 + n6 + n7 + n8).

Definition gc_compact_all o (m : MemoryMeter) : ObjectStore * MemoryMeter :=
  let '(strs, m) := Arena.gc_compact size_strings (strings o) m in
  let '(tabs, m) := Arena.gc_compact size_tables (tables o) m in
  let '(clos, m) := Arena.gc_compact size_closures (closures o) m in
  let '(udat, m) := Arena.gc_compact size_userdata (userdata o) m in
  let '(thrs, m) := Arena.gc_compact size_threads (threads o) m in
  let '(bufs, m) := Arena.gc_compact size_buffers (buffers o) m in
  let '(prts, m) := Arena.gc_compact size_protos (protos o) m in
  let '(upvs, m) := Arena.gc_compact size_upvals (upvals o) m in
  (mkStore strs tabs clos udat thrs bufs prts upvs, m).

Definition try_reserve_reclaims (p : HostPayloadStore) (n : Z) : option HostPayloadStore :=
  match try_reserve size_u32 (pl_free p) n with
  | Some fr => Some (mkPayloads (pl_present p) fr (pl_live p))
  | None => None
  end.

(** Returns the count of freed objects. A failed reservation is reported before anything is
    swept. *)
Definition sweep (cycle : GcCycle) : GM Z := fun h =>
  let reclaims := if is_minor cycle then Arena.gc_pending_minor_free_count (userdata (objects h))
                  else Arena.gc_pending_free_count (userdata (objects h)) in
  match try_reserve_reclaims (payloads h) reclaims with
  | None => (h, Err GcAbort)
  | Some p =>
      let h1 := set_payloads p h in
      let '(o1, reserved) := if is_minor cycle then gc_reserve_free_lists_minor (objects h)
                             else gc_reserve_free_lists (objects h) in
      let h2 := set_objects o1 h1 in
      if negb reserved then (h2, Err GcAbort)
      else
        let s0 := mkSweep (meter h2) (interner h2) (Ok p) in
        match (if is_minor cycle
               then sweep_with (fun T f a s => Arena.gc_sweep_minor_with f a s) o1 s0
               else sweep_with (fun T f a s => Arena.gc_sweep_with f a s) o1 s0) with
        | Err e => (h2, Err (GcFault e))
        | Ok ((o2, s), freed) =>
            let '(o3, m) := if is_minor cycle then (o2, ss_meter s)
                            else gc_compact_all o2 (ss_meter s) in
            let h3 := set_meter m (set_interner (ss_interner s) (set_objects o3 h2)) in
            match ss_payloads s with
            | Err e => (h3, Err (GcFault e))
            | Ok p' => (set_payloads p' h3, Ok freed)
            end
        end
  end.

(** ** The two collections *)

Definition collect_major_inner (roots : list GcRef) : GM Z :=
  let* queue := mark_heap_roots roots vec_new in
  let* _ := trace Full queue in
  sweep Full.

(** [for index in 0..threads.len()]: mark every resident thread. *)
Definition mark_threads (queue : Vec GcRef) : GM (Vec GcRef) :=
  let* h := gget in
  gfor (fun i q => match Arena.gc_value (threads (objects h)) i with
                   | Some _ => mark_minor (GThread i) q
                   | None => gret q
                   end) (seqZ 0 (as_u32 (Arena.arena_len (threads (objects h))))) queue.

(** After a minor: whiten what it marked, and forget remembered holders. *)
Definition settle r : GM unit :=
  let* _ := gmodify (set_color r White) in
  let* h := gget in
  match age h r with
  | OldRemembered => gmodify (set_age r Old)
  | _ => gret tt
  end.

Definition collect_minor_inner (roots : list GcRef) : GM Z :=
  let* queue := mark_heap_roots roots vec_new in
  let* queue := mark_threads queue in
  let* h := gget in
  let* queue := gfor mark_minor (items (gc_remembered h)) queue in
  let* w := trace Minor queue in
  let* freed := sweep Minor in
  let* _ := gfor (fun r (_ : unit) => settle r) (items (w_marked w)) tt in
  gret freed.

Definition reset_all_colors h : Heap :=
  let o := objects h in
  set_objects (mkStore (Arena.gc_reset_colors (strings o)) (Arena.gc_reset_colors (tables o))
    (Arena.gc_reset_colors (closures o)) (Arena.gc_reset_colors (userdata o))
    (Arena.gc_reset_colors (threads o)) (Arena.gc_reset_colors (buffers o))
    (Arena.gc_reset_colors (protos o)) (Arena.gc_reset_colors (upvals o))) h.

(** ** Pacing (heap/mod.rs) *)

Definition GC_MAJOR_STEP_BYTES : Z := 4 * 1024 * 1024.
Definition GC_MAJOR_SAFETY_CAP : Z := 256.
Definition GC_STEP_BYTES : Z := 256 * 1024.

Definition gc_should_major h : bool :=
  gc_force_major h || (gc_major_threshold h <=? m_used (meter h)) ||
  (GC_MAJOR_SAFETY_CAP <=? gc_minors_since_major h).

Definition set_pacing (minors threshold : Z) (force : bool) (remembered : Vec GcRef) h : Heap :=
  mkHeap (h_id h) (objects h) (payloads h) (registry h) (interner h) (meter h) (string_metatable h) (vector_metatable h)
    (structured_error_metatable h) (metamethod_names h) (gc_threshold h) (gc_cycles h)
    (gc_step_progress h) (taken_out_threads h) remembered minors threshold force.

Definition gc_note_major h : Heap :=
  set_pacing 0 (usize_saturating_add (m_used (meter h)) GC_MAJOR_STEP_BYTES) false
    (vec_clear (gc_remembered h)) h.

Definition gc_note_minor h : Heap :=
  set_pacing (u32_saturating_add (gc_minors_since_major h) 1) (gc_major_threshold h)
    (gc_force_major h) (vec_clear (gc_remembered h)) h.

Definition note_collection h : Heap :=
  mkHeap (h_id h) (objects h) (payloads h) (registry h) (interner h) (meter h) (string_metatable h) (vector_metatable h)
    (structured_error_metatable h) (metamethod_names h)
    (usize_saturating_add (m_used (meter h)) GC_STEP_BYTES)
    (Z.min 18446744073709551615 (gc_cycles h + 1)) 0 (taken_out_threads h) (gc_remembered h)
    (gc_minors_since_major h) (gc_major_threshold h) (gc_force_major h).

(** ** Entry points *)

(** [Ok (Some ..)]: a completed cycle; [Ok None]: an abandoned one; [Err]: a panic. *)
Definition collect (roots : list GcRef) h : Heap * result GcError (option Z) :=
  let major := gc_should_major h in
  match (if major then collect_major_inner roots else collect_minor_inner roots) h with
  | (h1, Ok reclaimed) =>
      (note_collection (if major then gc_note_major h1 else gc_note_minor h1), Ok (Some reclaimed))
  | (h1, Err GcAbort) => (set_force_major true (reset_all_colors h1), Ok None)
  | (h1, Err e) => (h1, Err e)
  end.

(** The roots of a running thread: its own slot, then its handles. *)
Definition active_roots (active : Thread) : GM (Vec GcRef) :=
  let* roots := match th_id active with
                | Some id => try_push size_GcRef vec_new (GThread (gc_index id))
                | None => gret vec_new
                end in
  gfor (fun c out => try_push size_GcRef out c) (fst <$> thread_trace active) roots.

Definition collect_active (active : Thread) h : Heap * result GcError (option Z) :=
  if negb (taken_out_threads h =? 1) then (h, Ok None)
  else
    match active_roots active h with
    | (h1, Ok roots) => collect (items roots) h1
    | (h1, Err GcAbort) => (h1, Ok None)
    | (h1, Err e) => (h1, Err e)
    end.

(** ** Validation *)

Definition is_live_gen h r (generation : Z) : bool :=
  let live {T} (a : Arena T) i := match Arena.get a i generation with Some _ => true | None => false end in
  let o := objects h in
  match r with
  | GStr i => live (strings o) i
  | GTable i => live (tables o) i
  | GClosure i => live (closures o) i
  | GUserdata i => live (userdata o) i
  | GThread i => live (threads o) i
  | GBuffer i => live (buffers o) i
  | GProto i => live (protos o) i
  | GUpVal i => live (upvals o) i
  end.

(** The first handle of an object that does not resolve. *)
Definition validate_handles_of h r : option (GcRef * Z) :=
  match filter (fun c => is_live_gen h c.1 c.2 = false) (outgoing h r) with
  | c :: _ => Some c
  | [] => None
  end.

Inductive ValidateError : Set :=
| DanglingHandle (child : GcRef) (generation : Z) (parent : GcRef)
| DanglingThreadId (i : Z)
| DanglingStringMetatable
| DanglingVectorMetatable
| DanglingErrorMetatable
| DanglingAnchor (r : GcRef).

Definition validate_object h r : result ValidateError unit :=
  match validate_handles_of h r with
  | Some (c, g) => Err (DanglingHandle c g r)
  | None => Ok tt
  end.

Fixpoint validate_all {X} (f : X -> result ValidateError unit) (l : list X) : result ValidateError unit :=
  match l with
  | [] => Ok tt
  | x :: l' => let? _ := f x in validate_all f l'
  end.

Definition validate_arena {T} h (kind : Z -> GcRef) (a : Arena T) : result ValidateError unit :=
  validate_all (fun i => match Arena.gc_value a i with
                         | Some _ => validate_object h (kind i)
                         | None => Ok tt
                         end) (seqZ 0 (as_u32 (Arena.arena_len a))).

Definition validate_thread h (i : Z) : result ValidateError unit :=
  match Arena.gc_value (threads (objects h)) i with
  | None => Ok tt
  | Some thread =>
      let? _ := validate_object h (GThread i) in
      match th_id thread with
      | Some id => match heap_thread h id with Some _ => Ok tt | None => Err (DanglingThreadId i) end
      | None => Ok tt
      end
  end.

Definition validate_root h (mt : option RawGc) (e : ValidateError) : result ValidateError unit :=
  match mt with
  | Some handle => match heap_table h handle with Some _ => Ok tt | None => Err e end
  | None => Ok tt
  end.

Definition validate_anchor h (v : RawValue) : result ValidateError unit :=
  match from_value_gen v with
  | Some (r, g) => if is_live_gen h r g then Ok tt else Err (DanglingAnchor r)
  | None => Ok tt
  end.

Definition validate h : result ValidateError unit :=
  let o := objects h in
  let? _ := validate_arena h GTable (tables o) in
  let? _ := validate_arena h GClosure (closures o) in
  let? _ := validate_arena h GProto (protos o) in
  let? _ := validate_arena h GUpVal (upvals o) in
  let? _ := validate_all (validate_thread h) (seqZ 0 (as_u32 (Arena.arena_len (threads o)))) in
  let? _ := validate_root h (string_metatable h) DanglingStringMetatable in
  let? _ := validate_root h (vector_metatable h) DanglingVectorMetatable in
  let? _ := validate_root h (structured_error_metatable h) DanglingErrorMetatable in
  validate_all (validate_anchor h) (gc_anchors h).

End Gc.
End Gc.
