(* ===== verification/GcView.v ===== *)
(** * GcView: the heap the collector sees, uniformly over the eight arenas

    [pick] reads an arena by reference; [on_arenas] relates two stores arena by arena.
    [recolors h h'] says that only colors changed: the graph of strong edges ([kids]), the
    ages, the generations and every other field of the heap are those of [h], which is what
    marking may assume of its own effect. The small program logic for the heap monad
    ([triple]) is here too. *)

From Stdlib Require Import ZArith Lia.
From stdpp Require Import base numbers list option gmap sets.
From S2P Require Import Prelude RustVec Arena ArenaFacts Value LuaTable GcObjects Gc.
Import Gc.

(** ** Reading an arena by reference *)

Definition pick {B} (f : forall T, Arena T -> Z -> B) (o : ObjectStore) (r : GcRef) : B :=
  match r with
  | GStr i => f _ (strings o) i
  | GTable i => f _ (tables o) i
  | GClosure i => f _ (closures o) i
  | GUserdata i => f _ (userdata o) i
  | GThread i => f _ (threads o) i
  | GBuffer i => f _ (buffers o) i
  | GProto i => f _ (protos o) i
  | GUpVal i => f _ (upvals o) i
  end.

Definition present {T} (a : Arena T) (i : Z) : bool :=
  match slot a i with Some _ => true | None => false end.
Definition occupied {T} (a : Arena T) (i : Z) : bool :=
  match slot a i with Some e => is_live e | None => false end.

Definition in_range (h : Heap) : GcRef -> bool := pick (@present) (objects h).
Definition live (h : Heap) : GcRef -> bool := pick (@occupied) (objects h).
Definition generation (h : Heap) : GcRef -> option Z := pick (@gen) (objects h).

(** Two stores related arena by arena. *)
Definition on_arenas (R : forall T, Arena T -> Arena T -> Prop) (o o' : ObjectStore) : Prop :=
  R _ (strings o) (strings o') /\ R _ (tables o) (tables o') /\ R _ (closures o) (closures o') /\
  R _ (userdata o) (userdata o') /\ R _ (threads o) (threads o') /\
  R _ (buffers o) (buffers o') /\ R _ (protos o) (protos o') /\ R _ (upvals o) (upvals o').

Lemma pick_on {B} (f g : forall T, Arena T -> Z -> B) R o o' r :
  on_arenas R o o' -> (forall T (a a' : Arena T) i, R _ a a' -> f _ a i = g _ a' i) ->
  pick f o r = pick g o' r.
Proof. intros (? & ? & ? & ? & ? & ? & ? & ?) Hfg. destruct r; cbn; by apply Hfg. Qed.

Lemma pick_on_rel {B} (Q : B -> B -> Prop) (f g : forall T, Arena T -> Z -> B) R o o' r :
  on_arenas R o o' -> (forall T (a a' : Arena T) i, R _ a a' -> Q (f _ a i) (g _ a' i)) ->
  Q (pick f o r) (pick g o' r).
Proof. intros (? & ? & ? & ? & ? & ? & ? & ?) Hfg. destruct r; cbn; by apply Hfg. Qed.

Lemma pick_self {B} (Q : B -> Prop) (f : forall T, Arena T -> Z -> B) o r :
  (forall T (a : Arena T) i, Q (f _ a i)) -> Q (pick f o r).
Proof. intros H. destruct r; cbn; apply H. Qed.

Lemma on_arenas_impl (R S : forall T, Arena T -> Arena T -> Prop) o o' :
  (forall T (a a' : Arena T), R _ a a' -> S _ a a') -> on_arenas R o o' -> on_arenas S o o'.
Proof. unfold on_arenas. naive_solver. Qed.

Lemma on_arenas_refl (R : forall T, Arena T -> Arena T -> Prop) o :
  (forall T (a : Arena T), R _ a a) -> on_arenas R o o.
Proof. intros H. unfold on_arenas. auto 9. Qed.

Lemma on_arenas_trans (R S Q : forall T, Arena T -> Arena T -> Prop) o o1 o2 :
  (forall T (a b c : Arena T), R _ a b -> S _ b c -> Q _ a c) ->
  on_arenas R o o1 -> on_arenas S o1 o2 -> on_arenas Q o o2.
Proof. unfold on_arenas. intros H. naive_solver. Qed.

(** [color] and [age] as reads. *)
Lemma color_pick h r : color h r = pick (fun T a i => Arena.gc_color a i) (objects h) r.
Proof. by destruct r. Qed.
Lemma age_pick h r : age h r = pick (fun T a i => Arena.gc_age a i) (objects h) r.
Proof. by destruct r. Qed.

Lemma gc_color_slot {T} (a : Arena T) i :
  Arena.gc_color a i = match slot a i with Some e => e_color e | None => White end.
Proof. done. Qed.
Lemma gc_value_slot {T} (a : Arena T) i : Arena.gc_value a i = slot a i ≫= e_value.
Proof. done. Qed.

Lemma occupied_value {T} (a : Arena T) i :
  occupied a i = match Arena.gc_value a i with Some _ => true | None => false end.
Proof. rewrite gc_value_slot. unfold occupied, is_live. by destruct (slot a i). Qed.

Lemma live_in_range h r : live h r = true -> in_range h r = true.
Proof.
  assert (forall T (a : Arena T) i, occupied a i = true -> present a i = true) as H.
  { intros T a i. unfold occupied, present. by destruct (slot a i). }
  destruct r; apply H.
Qed.

(** ** Writing an entry by reference *)

Lemma objects_set_objects o h : objects (set_objects o h) = o.
Proof. done. Qed.

(** Reading after altering the entry of [r]. *)
Lemma pick_alter {B} (f : forall T, Arena T -> Z -> B) (g : forall T, ArenaEntry T -> ArenaEntry T) r r' o :
  (forall T (a : Arena T) i j, i <> j -> f _ (Arena.alter_entry (g _) i a) j = f _ a j) ->
  r <> r' -> pick f (on_arena (fun T i a => Arena.alter_entry (g _) i a) r o) r' = pick f o r'.
Proof. intros H Hne. destruct r, r'; cbn; try done; apply H; congruence. Qed.

Lemma pick_alter_eq {B} (f : forall T, Arena T -> Z -> B) (g : forall T, ArenaEntry T -> ArenaEntry T) r o :
  pick f (on_arena (fun T i a => Arena.alter_entry (g _) i a) r o) r =
  pick (fun T a i => f _ (Arena.alter_entry (g _) i a) i) o r.
Proof. by destruct r. Qed.

Lemma on_arena_rel (R : forall T, Arena T -> Arena T -> Prop) (f : forall T, Z -> Arena T -> Arena T) r o :
  (forall T (a : Arena T), R _ a a) -> (forall T i (a : Arena T), R _ a (f _ i a)) ->
  on_arenas R o (on_arena f r o).
Proof. intros H1 H2. destruct r; unfold on_arenas; cbn; auto 9. Qed.

Lemma on_arena_rel_at (R : forall T, Arena T -> Arena T -> Prop) (f : forall T, Z -> Arena T -> Arena T) r o :
  (forall T (a : Arena T), R _ a a) -> pick (fun T a i => R _ a (f _ i a)) o r ->
  on_arenas R o (on_arena f r o).
Proof. intros H1 H2. destruct r; unfold on_arenas; cbn in *; auto 9. Qed.

Section Colors.
Context {AL : Allocator} {MA : MapAllocator} {TS : TableSizes} {HS : HeapSizes}.
Implicit Types (h : Heap) (r : GcRef).

(** Coloring reads back, on a slot that exists. *)
Lemma color_set_color h r c r' :
  color (set_color r c h) r' =
  if decide (r = r') then (if in_range h r then c else White) else color h r'.
Proof.
  rewrite !color_pick. unfold set_color, in_range. rewrite objects_set_objects.
  case_decide as Hr; [subst r'|].
  - rewrite (pick_alter_eq _ (fun T e => Arena.set_color c e)).
    destruct r; cbn; rewrite gc_color_slot, slot_alter, decide_True by done; unfold present;
      by destruct (slot _ _).
  - apply (pick_alter _ (fun T e => Arena.set_color c e)); [|done].
    intros T a i j Hij. by rewrite !gc_color_slot, slot_alter, decide_False.
Qed.

(** ** Recoloring *)

Definition recolored {T} (a a' : Arena T) : Prop :=
  gens a' = gens a /\ free_list a' = free_list a /\ young a' = young a /\
  charged (entries a') = charged (entries a) /\
  capacity (inner (entries a')) = capacity (inner (entries a)) /\
  av_len (entries a') = av_len (entries a) /\
  (forall i, Arena.set_color White <$> slot a' i = Arena.set_color White <$> slot a i).

#[export] Instance recolored_preorder {T} : PreOrder (@recolored T).
Proof.
  split; [intros a; by unfold recolored|].
  unfold recolored. intros x y z. intros (A1&A2&A3&A4&A5&A6&A7) (B1&B2&B3&B4&B5&B6&B7).
  split_and!; try congruence; intros i; by rewrite B7, A7.
Qed.

Definition recolors h h' : Prop :=
  h' = set_objects (objects h') h /\ on_arenas (@recolored) (objects h) (objects h').

#[export] Instance recolors_preorder : PreOrder recolors.
Proof.
  split.
  - intros h. split; [by destruct h|]. apply on_arenas_refl. intros. reflexivity.
  - intros h1 h2 h3 [E1 R1] [E2 R2]. split.
    + rewrite E2, E1 at 1. by destruct h1.
    + eapply on_arenas_trans; [|exact R1|exact R2]. intros T a b c. by etrans.
Qed.

Lemma set_color_recolors h r c : recolors h (set_color r c h).
Proof.
  split; [by destruct h|]. apply on_arena_rel; [intros; reflexivity|]. intros T i a.
  split_and!; try done; [apply av_len_alter|].
  intros j. unfold Arena.gc_set_color. rewrite slot_alter. case_decide; [|done].
  by destruct (slot a j).
Qed.

Lemma recolored_slot {T} (a a' : Arena T) i :
  recolored a a' ->
  match slot a i, slot a' i with
  | Some e, Some e' => e_age e' = e_age e /\ e_value e' = e_value e
  | None, None => True
  | _, _ => False
  end.
Proof.
  intros (_&_&_&_&_&_&H). specialize (H i).
  destruct (slot a i) as [e|], (slot a' i) as [e'|]; try done.
  cbn in H. unfold Arena.set_color in H. by simplify_eq.
Qed.

Lemma recolored_value {T} (a a' : Arena T) i :
  recolored a a' -> Arena.gc_value a' i = Arena.gc_value a i.
Proof.
  intros H%(recolored_slot _ _ i). rewrite !gc_value_slot. repeat case_match; try done. cbn. naive_solver.
Qed.

Lemma recolored_get {T} (a a' : Arena T) i g :
  recolored a a' -> Arena.get a' i g = Arena.get a i g.
Proof.
  intros H. pose proof (recolored_value a a' i H) as Hv. rewrite !gc_value_slot in Hv.
  destruct H as (Hg & _). unfold Arena.get. rewrite Hg. case_decide; [exact Hv|done].
Qed.

Section Recolors.
Context {h h' : Heap} (H : recolors h h').

Lemma recolors_in_range r : in_range h' r = in_range h r.
Proof.
  symmetry. apply (pick_on _ _ _ _ _ _ (proj2 H)). intros T a a' i Ha%(recolored_slot _ _ i).
  unfold present. by repeat case_match.
Qed.

Lemma recolors_live r : live h' r = live h r.
Proof.
  symmetry. apply (pick_on _ _ _ _ _ _ (proj2 H)). intros T a a' i Ha.
  rewrite !occupied_value. by rewrite (recolored_value a a' i).
Qed.

Lemma recolors_generation r : generation h' r = generation h r.
Proof.
  symmetry. apply (pick_on _ _ _ _ _ _ (proj2 H)). intros T a a' i Ha. unfold gen.
  by destruct Ha as [-> _].
Qed.

Lemma recolors_age r : age h' r = age h r.
Proof.
  symmetry. rewrite !age_pick. apply (pick_on _ _ _ _ _ _ (proj2 H)).
  intros T a a' i Ha%(recolored_slot _ _ i). unfold Arena.gc_age.
  change (av_get (entries a) i) with (slot a i). change (av_get (entries a') i) with (slot a' i).
  repeat case_match; naive_solver.
Qed.

Lemma recolors_fields :
  h_id h' = h_id h /\ interner h' = interner h /\ meter h' = meter h /\ payloads h' = payloads h /\
  registry h' = registry h /\ string_metatable h' = string_metatable h /\
  vector_metatable h' = vector_metatable h /\
  structured_error_metatable h' = structured_error_metatable h /\
  metamethod_names h' = metamethod_names h /\ gc_remembered h' = gc_remembered h /\
  gc_force_major h' = gc_force_major h.
Proof. destruct H as [E _]. rewrite E. by destruct h. Qed.

Lemma recolors_table i : Arena.gc_value (tables (objects h')) i = Arena.gc_value (tables (objects h)) i.
Proof. apply recolored_value. by destruct H as [_ (? & ? & _)]. Qed.

Lemma recolors_outgoing r : outgoing h' r = outgoing h r.
Proof.
  destruct H as [_ (? & ? & ? & ? & ? & ? & ? & ?)].
  destruct r; cbn; try done; by erewrite recolored_value by eassumption.
Qed.

Lemma recolors_weak_mode t : weak_mode h' t = weak_mode h t.
Proof.
  destruct recolors_fields as (Hid & Hin & _). destruct H as [_ (Hs & Ht & _)].
  unfold weak_mode, interner_lookup, heap_table, heap_string. rewrite Hid, Hin.
  destruct (metatable t) as [mt|]; [|done]. destruct (interner h !! MODE) as [k|]; [|done].
  rewrite (recolored_get _ _ _ _ Ht). destruct (negb _); [done|].
  destruct (Arena.get _ _ _) as [m|]; [|done]. destruct (LuaTable.get m _); try done.
  by rewrite (recolored_get _ _ _ _ Hs).
Qed.

Lemma recolors_weak_of r : weak_of h' r = weak_of h r.
Proof.
  unfold weak_of. destruct r; try done. rewrite recolors_table.
  destruct (Arena.gc_value _ _); [|done]. by rewrite recolors_weak_mode.
Qed.

Lemma recolors_kids r : kids h' r = kids h r.
Proof.
  unfold kids. rewrite recolors_weak_of. destruct (weak_of h r) as [[[i wk] wv]|].
  - by rewrite recolors_table.
  - by rewrite recolors_outgoing.
Qed.

Lemma recolors_all_refs : all_refs (objects h') = all_refs (objects h).
Proof.
  destruct H as [_ R]. unfold all_refs, refs_of, Arena.arena_len.
  destruct R as ((_&_&_&_&_&->&_) & (_&_&_&_&_&->&_) & (_&_&_&_&_&->&_) & (_&_&_&_&_&->&_) &
    (_&_&_&_&_&->&_) & (_&_&_&_&_&->&_) & (_&_&_&_&_&->&_) & (_&_&_&_&_&->&_)). done.
Qed.

End Recolors.

(** A reference to nothing has no edges. *)
Lemma dead_outgoing h r : live h r = false -> outgoing h r = [].
Proof.
  unfold live. destruct r; cbn; try done; rewrite occupied_value; by destruct (Arena.gc_value _ _).
Qed.

Lemma dead_kids h r : live h r = false -> kids h r = [].
Proof.
  intros Hl. unfold kids. rewrite dead_outgoing by done.
  destruct (weak_of h r) as [[[i wk] wv]|] eqn:E; [|done].
  destruct r; cbn in E; try done. unfold live in Hl. cbn in Hl. rewrite occupied_value in Hl.
  by destruct (Arena.gc_value _ _).
Qed.

Lemma elem_of_refs_of {T} (kind : Z -> GcRef) (a : Arena T) i :
  present a i = true -> kind i ∈ refs_of kind a.
Proof.
  unfold present. destruct (slot a i) eqn:E; [|done]. intros _.
  apply list_elem_of_fmap. exists i. split; [done|]. apply elem_of_seqZ.
  apply av_get_range in E. unfold Arena.arena_len. lia.
Qed.

Lemma in_range_all_refs h r : in_range h r = true -> r ∈ all_refs (objects h).
Proof.
  unfold in_range, all_refs. intros Hr. rewrite !elem_of_app.
  destruct r; cbn in Hr;
    [apply (elem_of_refs_of GStr) in Hr|apply (elem_of_refs_of GTable) in Hr
    |apply (elem_of_refs_of GClosure) in Hr|apply (elem_of_refs_of GUserdata) in Hr
    |apply (elem_of_refs_of GThread) in Hr|apply (elem_of_refs_of GBuffer) in Hr
    |apply (elem_of_refs_of GProto) in Hr|apply (elem_of_refs_of GUpVal) in Hr]; tauto.
Qed.

End Colors.

(** ** A program logic for the heap monad *)

Definition triple {A} (P : Heap -> Prop) (m : GM A) (Q : A -> Heap -> Prop) (E : GcError -> Heap -> Prop) : Prop :=
  forall h, P h -> match m h with (h', Ok x) => Q x h' | (h', Err e) => E e h' end.

Section Logic.
Implicit Types (P : Heap -> Prop) (E : GcError -> Heap -> Prop).

Lemma triple_ret {A} (x : A) P Q E : (forall h, P h -> Q x h) -> triple P (gret x) Q E.
Proof. intros H h HP. by apply H. Qed.

Lemma triple_bind {A B} (m : GM A) (k : A -> GM B) P Q R E :
  triple P m Q E -> (forall x, triple (Q x) (k x) R E) -> triple P (gbind m k) R E.
Proof.
  intros Hm Hk h HP. unfold gbind. specialize (Hm h HP). destruct (m h) as [h' [x|e]]; [|done].
  by apply Hk.
Qed.

Lemma triple_get {B} (k : Heap -> GM B) P R E :
  (forall h, P h -> triple (fun h' => h' = h) (k h) R E) -> triple P (gbind gget k) R E.
Proof. intros Hk h HP. unfold gbind, gget. by apply (Hk h HP). Qed.

Lemma triple_modify f P Q E : (forall h, P h -> Q tt (f h)) -> triple P (gmodify f) Q E.
Proof. intros H h HP. by apply H. Qed.

Lemma triple_conseq {A} (m : GM A) P P' Q Q' E E' :
  triple P' m Q' E' -> (forall h, P h -> P' h) -> (forall x h, Q' x h -> Q x h) ->
  (forall e h, E' e h -> E e h) -> triple P m Q E.
Proof.
  intros Hm HP HQ HE h Hh. specialize (Hm h (HP h Hh)). destruct (m h) as [h' [x|e]]; auto.
Qed.

(** The loop rule: an invariant over the elements already visited. *)
Lemma triple_for {X A} (f : X -> A -> GM A) (I : list X -> A -> Heap -> Prop) E l acc :
  (forall done x acc, done ++ [x] `prefix_of` l ->
     triple (I done acc) (f x acc) (fun acc' => I (done ++ [x]) acc') E) ->
  triple (I [] acc) (gfor f l acc) (fun acc' => I l acc') E.
Proof.
  intros Hf. cut (forall rest pre acc, pre ++ rest = l -> triple (I pre acc) (gfor f rest acc) (fun acc' => I l acc') E).
  { intros H. by apply H. }
  induction rest as [|x rest IH]; intros pre acc' Hl.
  - rewrite app_nil_r in Hl. subst. by apply triple_ret.
  - cbn [gfor]. eapply triple_bind.
    + apply Hf. exists rest. by rewrite <- app_assoc.
    + intros acc2. apply IH. by rewrite <- app_assoc.
Qed.

(** The loop rule with a plain invariant. *)
Lemma triple_for_inv {X A} (f : X -> A -> GM A) (I : A -> Heap -> Prop) E l acc :
  (forall x acc, x ∈ l -> triple (I acc) (f x acc) I E) ->
  triple (I acc) (gfor f l acc) I E.
Proof.
  intros Hf. apply (triple_for f (fun _ => I)). intros pre x acc' [k ->]. apply Hf.
  rewrite !elem_of_app. set_solver.
Qed.

End Logic.

(** The allocator refuses some request. The laws of allocators do not imply it: it is false of the
    allocator that grants every request ([granting_allocator]). *)
Definition out_of_memory {AL : Allocator} : Prop := exists size need cap, grow size need cap = None.

Section Pushes.
Context {AL : Allocator} {LAWS : AllocatorLaws AL}.

Lemma try_reserve_None {A} size (v : Vec A) n : try_reserve size v n = None -> out_of_memory.
Proof.
  unfold try_reserve. destruct (_ <=? _); [done|]. destruct (grow _ _ _) eqn:E; [done|]. intros _.
  do 3 eexists. exact E.
Qed.

(** Work-list pushes abort or append; they never reach the allocator's abort. *)
Lemma triple_try_push {A} size (buf : Vec A) x P E :
  0 < size -> (forall h, P h -> out_of_memory -> E GcAbort h) ->
  triple P (try_push size buf x) (fun b h => P h /\ items b = items buf ++ [x]) E.
Proof.
  intros Hs HE h HP. unfold try_push. destruct (try_reserve size buf 1) as [b|] eqn:Er;
    [|by eapply HE, try_reserve_None].
  pose proof (try_reserve_items _ _ _ _ Er) as Hi. pose proof (try_reserve_capacity _ _ _ _ Hs Er) as Hc.
  rewrite push_reserved by (unfold vec_len in *; by rewrite Hi). cbn. by rewrite Hi.
Qed.

Lemma triple_push_all {A} size (l : list A) (buf : Vec A) P E :
  0 < size -> (forall h, P h -> out_of_memory -> E GcAbort h) ->
  triple P (gfor (fun x out => try_push size out x) l buf) (fun b h => P h /\ items b = items buf ++ l) E.
Proof.
  intros Hs HE.
  eapply triple_conseq; [eapply (triple_for _ (fun pre b h => P h /\ items b = items buf ++ pre))| | |].
  - intros pre x acc _. eapply triple_conseq; [apply (triple_try_push size acc x (fun h => P h /\ items acc = items buf ++ pre) E Hs)| | |].
    + intros h [HP _] Hoom. by apply HE.
    + done.
    + intros b h [[HP Hi] Hb]. split; [done|]. by rewrite Hb, Hi, app_assoc.
    + done.
  - intros h HP. by rewrite app_nil_r.
  - done.
  - done.
Qed.

End Pushes.
