(* ===== verification/GcTrace.v ===== *)
(** * GcTrace: the marking phase computes reachability

    [reach] is the specification: the references reachable from the roots along strong
    edges. The tri-color invariant [tri] links it to the colors and the work lists; it holds
    from the roots to the end of the trace, where the queue is empty and the marked objects
    are exactly the reachable ones. The potential [pot] bounds the rounds, so the trace
    terminates within [trace_fuel] rounds, or abandons the cycle for want of memory. *)

From Stdlib Require Import ZArith Lia.
From stdpp Require Import base numbers list option gmap sets.
From S2P Require Import Prelude RustVec Arena ArenaFacts Value LuaTable GcObjects Gc GcView.
Import Gc.

(** The references a cycle traces when it meets them as children: a minor cycle passes over
    the plain old objects. *)
Definition admits (cycle : GcCycle) (h : Heap) (r : GcRef) : bool :=
  match cycle with
  | Full => true
  | Minor =>
      match r with GThread _ => true | _ => false end ||
      match age h r with Young | OldRemembered => true | Old => false end
  end.

Section Reach.
Context {AL : Allocator} {MA : MapAllocator} {TS : TableSizes} {HS : HeapSizes}.

Inductive reach (cycle : GcCycle) (h : Heap) (roots : list GcRef) : GcRef -> Prop :=
| reach_root r : r ∈ roots -> reach cycle h roots r
| reach_kid p c :
    reach cycle h roots p -> c ∈ kids h p -> admits cycle h c = true -> reach cycle h roots c.

End Reach.

(** ** Sums of weights *)

Lemma sum_list_app (l k : list nat) : sum_list (l ++ k) = (sum_list l + sum_list k)%nat.
Proof. induction l as [|x l IH]; cbn; [done|]. rewrite IH. lia. Qed.

Lemma sum_filter_mono {A} (P Q : A -> Prop) `{!forall x, Decision (P x)} `{!forall x, Decision (Q x)}
  (w : A -> nat) (l : list A) :
  (forall x, x ∈ l -> P x -> Q x) ->
  (sum_list (w <$> filter P l) <= sum_list (w <$> filter Q l))%nat.
Proof.
  induction l as [|x l IH]; intros Hpq; [done|]. rewrite !filter_cons.
  assert (sum_list (w <$> filter P l) <= sum_list (w <$> filter Q l))%nat by (apply IH; set_solver).
  destruct (decide (P x)), (decide (Q x)); cbn; try lia. exfalso. set_solver.
Qed.

Lemma sum_filter_le {A} (P : A -> Prop) `{!forall x, Decision (P x)} (w : A -> nat) (l : list A) :
  (sum_list (w <$> filter P l) <= sum_list (w <$> l))%nat.
Proof.
  induction l as [|x l IH]; [done|]. rewrite filter_cons. destruct (decide (P x)); cbn in *; lia.
Qed.

Lemma sum_filter_remove {A} (P Q : A -> Prop) `{!forall x, Decision (P x)} `{!forall x, Decision (Q x)}
  (w : A -> nat) (l : list A) c :
  c ∈ l -> Q c -> (forall x, P x -> Q x /\ x <> c) ->
  (sum_list (w <$> filter P l) + w c <= sum_list (w <$> filter Q l))%nat.
Proof.
  intros Hc HQ Hpq. apply list_elem_of_split in Hc as (l1 & l2 & ->).
  rewrite !filter_app, !filter_cons, (decide_True _ _ HQ).
  rewrite decide_False by (intros Hp; by destruct (Hpq c Hp)).
  rewrite !fmap_app, !sum_list_app. cbn.
  pose proof (sum_filter_mono P Q w l1 ltac:(naive_solver)).
  pose proof (sum_filter_mono P Q w l2 ltac:(naive_solver)). lia.
Qed.

Section Tri.
Context {AL : Allocator} {LAWS : AllocatorLaws AL}.
Context {MA : MapAllocator} {TS : TableSizes} {HS : HeapSizes}.
Context {SIZES : HeapSizesLaws HS}.
Context (cycle : GcCycle) (h0 : Heap) (roots : list GcRef).
Implicit Types (h : Heap) (r c : GcRef).

Notation reach := (reach cycle h0 roots).
Notation adm := (admits cycle h0).

(** [D] has been marked, [Q] is pending, [W] lists the weak tables met, [M] the references
    a minor cycle has blackened. *)
Record tri (D Q : list GcRef) (W : list (Z * bool * bool)) (M : list GcRef) (h : Heap) : Prop := {
  tri_recolors : recolors h0 h;
  tri_done r : r ∈ D -> live h0 r = true -> color h r <> White;
  tri_queue r : r ∈ Q -> reach r;
  tri_marked r : live h0 r = true -> color h r <> White -> reach r;
  tri_gray r : live h0 r = true -> color h r = Gray -> r ∈ Q;
  tri_black r c : live h0 r = true -> color h r = Black -> c ∈ kids h0 r -> adm c = true ->
    live h0 c = true -> color h c <> White;
  tri_weak e : e ∈ W -> weak_of h0 (GTable e.1.1) = Some e /\ reach (GTable e.1.1);
  tri_weak_all r e : live h0 r = true -> color h r = Black -> weak_of h0 r = Some e -> e ∈ W;
  tri_blackened r : r ∈ M -> reach r;
  tri_blackened_all r : cycle = Minor -> live h0 r = true -> color h r = Black -> r ∈ M;
}.

Definition aborted (e : GcError) h : Prop := e = GcAbort /\ recolors h0 h /\ out_of_memory.

(** Forgetting is sound; a work list may be reordered. *)
Lemma tri_weaken D D' Q Q' W M h :
  tri D Q W M h -> (forall r, r ∈ D' -> r ∈ D) -> (forall r, r ∈ Q <-> r ∈ Q') -> tri D' Q' W M h.
Proof. intros [] HD HQ. split; naive_solver. Qed.

(** *** Coloring a reference gray *)

Lemma tri_graying D Q W M h c :
  tri D Q W M h -> reach c -> color h c = White ->
  tri (c :: D) (c :: Q) W M (set_color c Gray h).
Proof.
  intros HT Hr Hw. pose proof (tri_recolors _ _ _ _ _ HT) as HR.
  assert (HC : forall x, live h0 x = true ->
    color (set_color c Gray h) x = if decide (c = x) then Gray else color h x).
  { intros x Hx. rewrite color_set_color. case_decide; [|done]. subst x.
    by rewrite (recolors_in_range HR), (live_in_range _ _ Hx). }
  split.
  - etrans; [exact HR|apply set_color_recolors].
  - intros x Hx Hl. rewrite HC by done. case_decide; [done|].
    apply (tri_done _ _ _ _ _ HT); [set_solver|done].
  - intros x [->|Hx]%elem_of_cons; [done|]. by apply (tri_queue _ _ _ _ _ HT).
  - intros x Hl. rewrite HC by done. case_decide; [by subst|]. by apply (tri_marked _ _ _ _ _ HT).
  - intros x Hl. rewrite HC by done. case_decide; [set_solver|].
    intros Hx. apply elem_of_cons. right. by apply (tri_gray _ _ _ _ _ HT).
  - intros x y Hl. rewrite HC by done. case_decide; [done|]. intros Hx Hy Ha Hly.
    rewrite HC by done. case_decide; [done|]. exact (tri_black _ _ _ _ _ HT x y Hl Hx Hy Ha Hly).
  - apply (tri_weak _ _ _ _ _ HT).
  - intros x e Hl. rewrite HC by done. case_decide; [done|]. by apply (tri_weak_all _ _ _ _ _ HT).
  - apply (tri_blackened _ _ _ _ _ HT).
  - intros x Hm Hl. rewrite HC by done. case_decide; [done|]. by apply (tri_blackened_all _ _ _ _ _ HT).
Qed.

(** *** Coloring a traced reference black *)
Lemma tri_blackening D Q W M h r :
  tri D (r :: Q) W M h -> (forall c, c ∈ kids h0 r -> adm c = true -> c ∈ D) ->
  (forall e, weak_of h0 r = Some e -> e ∈ W) ->
  tri D Q W (M ++ [r]) (set_color r Black h).
Proof.
  intros HT Hk Hw. pose proof (tri_recolors _ _ _ _ _ HT) as HR.
  assert (HC : forall x, live h0 x = true ->
    color (set_color r Black h) x = if decide (r = x) then Black else color h x).
  { intros x Hx. rewrite color_set_color. case_decide; [|done]. subst x.
    by rewrite (recolors_in_range HR), (live_in_range _ _ Hx). }
  assert (HN : forall x, live h0 x = true -> color h x <> White -> color (set_color r Black h) x <> White).
  { intros x Hx. rewrite HC by done. by case_decide. }
  assert (Hr : reach r) by (apply (tri_queue _ _ _ _ _ HT); set_solver).
  split.
  - etrans; [exact HR|apply set_color_recolors].
  - intros x Hx Hl. apply HN; [done|]. by apply (tri_done _ _ _ _ _ HT).
  - intros x Hx. apply (tri_queue _ _ _ _ _ HT). set_solver.
  - intros x Hl. rewrite HC by done. case_decide; [by subst|]. by apply (tri_marked _ _ _ _ _ HT).
  - intros x Hl. rewrite HC by done. case_decide; [done|]. intros Hx.
    apply (tri_gray _ _ _ _ _ HT) in Hx; [|done]. set_solver.
  - intros x y Hl. rewrite HC by done. intros Hx Hy Ha Hly. apply HN; [done|].
    case_decide; [subst x; apply (tri_done _ _ _ _ _ HT); auto|]. exact (tri_black _ _ _ _ _ HT x y Hl Hx Hy Ha Hly).
  - apply (tri_weak _ _ _ _ _ HT).
  - intros x e Hl. rewrite HC by done. case_decide; [subst x; auto|]. by apply (tri_weak_all _ _ _ _ _ HT).
  - intros x [Hx| ->%list_elem_of_singleton]%elem_of_app; [by apply (tri_blackened _ _ _ _ _ HT)|done].
  - intros x Hm Hl. rewrite HC by done. case_decide; [subst; set_solver|]. intros Hx.
    apply elem_of_app. left. by apply (tri_blackened_all _ _ _ _ _ HT).
Qed.

(** *** The potential *)

Definition pot h (queue : list GcRef) : nat :=
  (sum_list (weight h0 <$> filter (fun r => color h r = White) (all_refs (objects h0))) +
   sum_list (weight h0 <$> queue))%nat.

Lemma pot_snoc h q r : pot h (q ++ [r]) = (pot h q + weight h0 r)%nat.
Proof.
  unfold pot. rewrite fmap_app, sum_list_app.
  change (sum_list (weight h0 <$> [r])) with (weight h0 r + 0)%nat. lia.
Qed.

(** A slot out of range weighs one, and never stops being white. *)
Lemma weight_out_of_range r : in_range h0 r = false -> weight h0 r = 1%nat.
Proof.
  intros Hr. unfold weight. rewrite dead_kids; [done|].
  destruct (live h0 r) eqn:E; [|done]. apply live_in_range in E. congruence.
Qed.

Lemma pot_graying h c q :
  recolors h0 h -> color h c = White -> (pot (set_color c Gray h) (q ++ [c]) <= S (pot h q))%nat.
Proof.
  intros HR Hw. rewrite pot_snoc. unfold pot. destruct (in_range h0 c) eqn:Hc.
  - pose proof (sum_filter_remove (fun r => color (set_color c Gray h) r = White) (fun r => color h r = White)
      (weight h0) (all_refs (objects h0)) c (in_range_all_refs _ _ Hc) Hw) as Hs.
    cut (forall x, color (set_color c Gray h) x = White -> color h x = White /\ x <> c); [intros Hx; specialize (Hs Hx); lia|].
    intros x. rewrite color_set_color, (recolors_in_range HR), Hc. case_decide; [done|]. auto.
  - rewrite weight_out_of_range by done.
    pose proof (sum_filter_mono (fun r => color (set_color c Gray h) r = White) (fun r => color h r = White)
      (weight h0) (all_refs (objects h0))) as Hs.
    cut (forall x, x ∈ all_refs (objects h0) -> color (set_color c Gray h) x = White -> color h x = White); [intros Hx; specialize (Hs Hx); lia|].
    intros x _. rewrite color_set_color. case_decide; [by subst|done].
Qed.

Lemma pot_blackening h r q : recolors h0 h -> (pot (set_color r Black h) q <= pot h q)%nat.
Proof.
  intros HR. unfold pot. apply Nat.add_le_mono_r, sum_filter_mono. intros x _.
  rewrite color_set_color. case_decide as Hx; [subst x|done].
  destruct (in_range h r) eqn:E; [done|]. intros _. rewrite color_pick. unfold in_range in E.
  destruct r; cbn in *; rewrite gc_color_slot; unfold present in E; by destruct (slot _ _).
Qed.

(** *** Marking one reference *)

Lemma enqueue_spec D W M G c q n :
  reach c ->
  triple (fun h => tri D (items q ++ G) W M h /\ color h c = White /\ (pot h (items q) <= n)%nat)
    (enqueue c q)
    (fun q' h => tri (c :: D) (items q' ++ G) W M h /\ (pot h (items q') <= S n)%nat) aborted.
Proof.
  intros Hr h (HT & Hw & Hp). unfold enqueue.
  destruct (try_reserve size_GcRef q 1) as [b|] eqn:Er.
  2: { split_and!; [done|apply (tri_recolors _ _ _ _ _ HT)|by eapply try_reserve_None]. }
  pose proof (try_reserve_items _ _ _ _ Er) as Hi.
  pose proof (try_reserve_capacity _ _ _ _ size_GcRef_pos Er) as Hc.
  rewrite push_reserved by (unfold vec_len in *; by rewrite Hi). cbn. rewrite Hi. split.
  - eapply tri_weaken; [by apply tri_graying|done|]. set_solver.
  - pose proof (pot_graying h c (items q) (tri_recolors _ _ _ _ _ HT) Hw). lia.
Qed.

(** [mark], on a root. *)
Lemma mark_spec D W M c q n :
  reach c ->
  triple (fun h => tri D (items q) W M h /\ (pot h (items q) <= n)%nat) (mark c q)
    (fun q' h => tri (c :: D) (items q') W M h /\ (pot h (items q') <= S n)%nat) aborted.
Proof.
  intros Hr h [HT Hp]. unfold mark. destruct (is_white (color h c)) eqn:Hw.
  - pose proof (enqueue_spec D W M [] c q n Hr h) as H. rewrite app_nil_r in H.
    destruct (enqueue c q h) as [h' [q'|e]].
    + rewrite app_nil_r in H. apply H. split_and!; try done. by destruct (color h c).
    + apply H. split_and!; try done. by destruct (color h c).
  - split; [|lia]. destruct HT. split; try done. intros x [->|Hx]%elem_of_cons Hl; [|auto].
    by destruct (color h c).
Qed.

(** The marker of a cycle, on a child of [r]. *)
Definition marker : GcRef -> Vec GcRef -> GM (Vec GcRef) := if is_minor cycle then mark_minor else mark.

Lemma marker_eq h c q :
  recolors h0 h -> marker c q h = if is_white (color h c) && adm c then enqueue c q h else (h, Ok q).
Proof.
  intros HR. unfold marker, admits. destruct cycle; cbn.
  - unfold mark_minor. destruct (is_white (color h c)); cbn; [|done].
    rewrite (recolors_age HR). done.
  - unfold mark. by rewrite andb_true_r.
Qed.

(** Marking the children of [r], [D] collecting those the cycle traces. *)
Lemma marker_spec D W M r c q n :
  reach r -> c ∈ kids h0 r ->
  triple (fun h => tri D (items q ++ [r]) W M h /\ (pot h (items q) <= n)%nat) (marker c q)
    (fun q' h => tri ((if adm c then [c] else []) ++ D) (items q' ++ [r]) W M h /\
                 (pot h (items q') <= S n)%nat) aborted.
Proof.
  intros Hr Hc h [HT Hp]. rewrite marker_eq by apply (tri_recolors _ _ _ _ _ HT).
  destruct (adm c) eqn:Ha; [|rewrite andb_false_r; auto].
  rewrite andb_true_r. destruct (is_white (color h c)) eqn:Hw.
  - apply (enqueue_spec D W M [r] c q n); [by eapply reach_kid|]. split_and!; try done.
    by destruct (color h c).
  - split; [|lia]. destruct HT. split; try done. intros x [->|Hx]%elem_of_cons Hl; [|auto].
    by destruct (color h c).
Qed.

Definition admitted (l : list GcRef) : list GcRef := filter (fun c => adm c = true) l.

Lemma mark_kids_spec D W M r q n :
  reach r ->
  triple (fun h => tri D (items q ++ [r]) W M h /\ (pot h (items q) <= n)%nat)
    (gfor marker (kids h0 r) q)
    (fun q' h => tri (admitted (kids h0 r) ++ D) (items q' ++ [r]) W M h /\
                 (pot h (items q') <= n + length (kids h0 r))%nat) aborted.
Proof.
  intros Hr. eapply triple_conseq;
    [eapply (triple_for _ (fun pre q' h => tri (admitted pre ++ D) (items q' ++ [r]) W M h /\
        (pot h (items q') <= n + length pre)%nat))| | |]; [|intros h [? ?]; split; [done|cbn; lia]|done|done].
  intros pre c q' [k Hk]. eapply triple_conseq;
    [apply (marker_spec (admitted pre ++ D) W M r c q' (n + length pre) Hr); rewrite Hk; set_solver
    |done| |done].
  intros q2 h [HT Hp]. split; [|rewrite length_app; cbn; lia].
  eapply tri_weaken; [exact HT| |done]. intros x. unfold admitted.
  rewrite filter_app, !elem_of_app, filter_cons, filter_nil.
  destruct (adm c) eqn:E; [rewrite decide_True by done|rewrite decide_False by done]; set_solver.
Qed.

(** *** One round *)

Definition round_pre D M r w n h : Prop :=
  tri D (items (w_queue w) ++ [r]) (items (w_weak w)) M h /\
  (pot h (items (w_queue w) ++ [r]) <= S n)%nat.

Lemma gather_spec D M r w n :
  triple (round_pre D M r w n) (gather r w)
    (fun w' h => round_pre D M r w' n h /\ items (w_children w') = kids h0 r /\
       w_queue w' = w_queue w /\ w_marked w' = w_marked w /\
       (forall e, weak_of h0 r = Some e -> e ∈ items (w_weak w'))) aborted.
Proof.
  apply triple_get. intros h [HT Hp]. pose proof (tri_recolors _ _ _ _ _ HT) as HR.
  assert (HE : forall h', h' = h -> out_of_memory -> aborted GcAbort h') by (intros ? -> ?; by split).
  rewrite (recolors_weak_of HR). destruct (weak_of h0 r) as [[[i wk] wv]|] eqn:Ew.
  - assert (Hi : r = GTable i).
    { destruct r; try done. cbn in Ew. by repeat case_match; simplify_eq. }
    rewrite (recolors_table HR). eapply (triple_bind _ _ _ (fun b h' => h' = h /\ items b = kids h0 r)).
    + unfold kids. rewrite Ew. destruct (Arena.gc_value _ i) as [t|].
      * apply (triple_push_all size_GcRef (gc_trace_weak t wk wv) (vec_clear (w_children w))
            (fun h' => h' = h) aborted); [apply size_GcRef_pos|done].
      * by apply triple_ret.
    + intros children. eapply triple_bind.
      * apply (triple_try_push size_WeakEntry); [apply size_WeakEntry_pos|]. intros h' [-> _] Hoom. by apply HE.
      * intros weak. apply triple_ret. intros h' ([-> Hch] & Hwk). cbn. split_and!; try done.
        -- split; [|exact Hp]. cbn [w_queue w_weak]. rewrite Hwk. destruct HT. split; try done.
           ++ intros e [He| ->%list_elem_of_singleton]%elem_of_app; [auto|]. cbn [fst]. rewrite <- Hi.
              split; [done|]. apply tri_queue0. set_solver.
           ++ intros x e Hl Hb He. apply elem_of_app. eauto.
        -- intros e [= <-]. rewrite Hwk. set_solver.
  - unfold collect_children. eapply (triple_bind _ _ _ (fun b h' => h' = h /\ items b = kids h0 r)).
    + apply triple_get. intros ? ->. rewrite (recolors_outgoing HR). unfold kids. rewrite Ew.
      by eapply triple_conseq;
        [apply (triple_push_all size_GcRef _ _ (fun h' => h' = h) aborted); [apply size_GcRef_pos|]|..].
    + intros children. apply triple_ret. intros h' [-> Hch]. cbn. by split_and!.
Qed.

Lemma round_spec D r w n :
  triple (round_pre D (items (w_marked w)) r w n) (trace_round cycle r w)
    (fun w' h => tri D (items (w_queue w')) (items (w_weak w')) (items (w_marked w')) h /\
                 (pot h (items (w_queue w')) <= n)%nat) aborted.
Proof.
  eapply triple_bind; [apply gather_spec|]. intros w1.
  (* fix the facts of the state *)
  intros h ((HT & Hp) & Hch & Hq & Hm & Hwk).
  assert (Hr : reach r) by (apply (tri_queue _ _ _ _ _ HT); set_solver).
  rewrite pot_snoc in Hp. unfold weight in Hp.
  revert h HT Hp. cut (triple (fun h => tri D (items (w_queue w1) ++ [r]) (items (w_weak w1)) (items (w_marked w)) h /\
     (pot h (items (w_queue w1)) <= n - length (kids h0 r))%nat /\ (length (kids h0 r) <= n)%nat)
    (let* queue := gfor marker (items (w_children w1)) (w_queue w1) in
     let* _ := gmodify (set_color r Black) in
     let* marked := if is_minor cycle then try_push size_GcRef (w_marked w1) r else gret (w_marked w1) in
     gret (mkWork queue (w_children w1) (w_weak w1) marked))
    (fun w' h => tri D (items (w_queue w')) (items (w_weak w')) (items (w_marked w')) h /\
                 (pot h (items (w_queue w')) <= n)%nat) aborted).
  { intros H h HT Hp. apply H. split_and!; [done|lia|lia]. }
  rewrite Hch. eapply (triple_bind _ _ _
    (fun q h => tri (admitted (kids h0 r) ++ D) (items q ++ [r]) (items (w_weak w1)) (items (w_marked w)) h /\
                (pot h (items q) <= n)%nat)).
  { intros h (HT & Hp & Hn). pose proof (mark_kids_spec D (items (w_weak w1)) (items (w_marked w)) r (w_queue w1)
      (n - length (kids h0 r))%nat Hr h (conj HT Hp)) as H.
    destruct (gfor marker _ _ h) as [h' [q|e]]; [|done]. destruct H. split; [done|lia]. }
  intros queue. eapply (triple_bind _ _ _
    (fun _ h => tri D (items queue) (items (w_weak w1)) (items (w_marked w) ++ [r]) h /\
                (pot h (items queue) <= n)%nat)).
  { apply triple_modify. intros h [HT Hp]. split.
    - eapply tri_weaken; [eapply (tri_blackening (admitted (kids h0 r) ++ D) (items queue))| |]; try done.
      + eapply tri_weaken; [exact HT|done|set_solver].
      + intros c Hc Ha. apply elem_of_app. left. by apply list_elem_of_filter.
      + set_solver.
    - pose proof (pot_blackening h r (items queue) (tri_recolors _ _ _ _ _ HT)). lia. }
  intros _. eapply (triple_bind _ _ _
    (fun marked h => tri D (items queue) (items (w_weak w1)) (items marked) h /\ (pot h (items queue) <= n)%nat)).
  { destruct (is_minor cycle) eqn:Em.
    - eapply triple_conseq; [apply (triple_try_push size_GcRef (w_marked w1) r
        (fun h => tri D (items queue) (items (w_weak w1)) (items (w_marked w) ++ [r]) h /\ (pot h (items queue) <= n)%nat)
        aborted size_GcRef_pos)| | |]; try done.
      + intros h [HT _] Hoom. split_and!; [done|apply (tri_recolors _ _ _ _ _ HT)|done].
      + intros b h [HT Hb]. cbn in HT. by rewrite Hb, Hm.
    - apply triple_ret. intros h [HT Hp]. split; [|done]. rewrite Hm. destruct HT. split; try done.
      + set_solver.
      + intros x Hc. by rewrite Hc in Em. }
  intros marked. apply triple_ret. done.
Qed.

(** *** The loop *)

Lemma trace_loop_spec fuel D w :
  triple (fun h => tri D (items (w_queue w)) (items (w_weak w)) (items (w_marked w)) h /\
                   (pot h (items (w_queue w)) <= fuel)%nat)
    (trace_loop fuel cycle w)
    (fun w' h => tri D [] (items (w_weak w')) (items (w_marked w')) h) aborted.
Proof.
  revert w. induction fuel as [|fuel IH]; intros w; cbn [trace_loop];
    destruct (pop (w_queue w)) as [[r|] queue] eqn:Ep.
  - apply pop_Some in Ep as [-> _]. intros h [_ Hp]. rewrite pot_snoc in Hp. unfold weight in Hp. lia.
  - apply pop_None in Ep as [-> _]. apply triple_ret. by intros h [? _].
  - apply pop_Some in Ep as [-> _]. eapply triple_bind; [|intros w'; apply IH].
    apply (round_spec D r (mkWork queue (w_children w) (w_weak w) (w_marked w)) fuel).
  - apply pop_None in Ep as [-> _]. apply triple_ret. by intros h [? _].
Qed.

(** At the end, marked is reachable. *)
Lemma tri_end D W M h r :
  tri D [] W M h -> (forall r, r ∈ roots -> r ∈ D) -> live h0 r = true ->
  color h r <> White <-> reach r.
Proof.
  intros HT HD Hl. split; [by apply (tri_marked _ _ _ _ _ HT)|].
  intros Hr. induction Hr as [r Hr|p c Hp IH Hc Ha]; [by apply (tri_done _ _ _ _ _ HT); auto|].
  destruct (live h0 p) eqn:Elp; [|rewrite dead_kids in Hc by done; by apply not_elem_of_nil in Hc].
  specialize (IH eq_refl). apply (tri_black _ _ _ _ _ HT p c); try done.
  destruct (color h p) eqn:E; try done. apply (tri_gray _ _ _ _ _ HT) in E; [|done].
  by apply not_elem_of_nil in E.
Qed.

Lemma tri_end_black D W M h r :
  tri D [] W M h -> live h0 r = true -> color h r <> White -> color h r = Black.
Proof.
  intros HT Hl Hw. destruct (color h r) eqn:E; try done.
  apply (tri_gray _ _ _ _ _ HT) in E; [|done]. by apply not_elem_of_nil in E.
Qed.

End Tri.

(** ** Roots *)

(** What [mark_heap_roots] marks. *)
Definition opt_ref (kind : Z -> GcRef) (o : option RawGc) : list GcRef :=
  match o with Some handle => [kind (gc_index handle)] | None => [] end.

Definition anchor_refs (h : Heap) : list GcRef := omap from_value (gc_anchors h).

Definition heap_roots (h : Heap) (roots : list GcRef) : list GcRef :=
  roots ++ opt_ref GTable (string_metatable h) ++ (metamethod_names h ≫= opt_ref GStr) ++
  opt_ref GTable (vector_metatable h) ++ opt_ref GTable (structured_error_metatable h) ++ anchor_refs h.

(** The resident threads, and the remembered holders. *)
Definition resident_threads (h : Heap) : list GcRef :=
  GThread <$> filter (fun i => occupied (threads (objects h)) i = true)
                (seqZ 0 (as_u32 (Arena.arena_len (threads (objects h))))).

Definition minor_roots (h : Heap) (roots : list GcRef) : list GcRef :=
  heap_roots h roots ++ resident_threads h ++
  filter (fun r => admits Minor h r = true) (items (gc_remembered h)).

Definition cycle_roots (cycle : GcCycle) (h : Heap) (roots : list GcRef) : list GcRef :=
  match cycle with Full => heap_roots h roots | Minor => minor_roots h roots end.

(** Between collections every live object is white. *)
Definition all_white (h : Heap) : Prop := forall r, live h r = true -> color h r = White.

Section Roots.
Context {AL : Allocator} {LAWS : AllocatorLaws AL}.
Context {MA : MapAllocator} {TS : TableSizes} {HS : HeapSizes}.
Context {SIZES : HeapSizesLaws HS}.
Context (cycle : GcCycle) (h0 : Heap) (roots : list GcRef) (white : all_white h0).
Implicit Types (h : Heap) (r c : GcRef).

Notation root_set := (cycle_roots cycle h0 roots).
Notation mid D q := (tri cycle h0 root_set D (items q) [] []).

Lemma tri_start : mid [] vec_new h0.
Proof.
  split; try done; try (by intros ? ?%not_elem_of_nil); try (intros r Hl; rewrite (white r Hl); done).
  - intros r c Hl. by rewrite (white r Hl).
  - intros r e Hl. by rewrite (white r Hl).
  - intros r _ Hl. by rewrite (white r Hl).
Qed.

Lemma mark_root D c q :
  c ∈ root_set -> triple (mid D q) (mark c q) (fun q' => mid (c :: D) q') (aborted h0).
Proof.
  intros Hc h HT.
  pose proof (mark_spec cycle h0 root_set D [] [] c q _ (reach_root _ _ _ _ Hc) h
    (conj HT (Nat.le_refl _))) as H.
  destruct (mark c q h) as [h' [q'|e]]; [by destruct H|done].
Qed.

Lemma mark_roots D l q :
  (forall c, c ∈ l -> c ∈ root_set) ->
  triple (mid D q) (gfor mark l q) (fun q' => mid (l ++ D) q') (aborted h0).
Proof.
  intros Hl. eapply triple_conseq; [eapply (triple_for _ (fun pre q' => mid (pre ++ D) q'))|..]; try done.
  intros pre c q' [k ->]. eapply triple_conseq; [apply (mark_root (pre ++ D) c q'); set_solver|done| |done].
  intros q2 h HT. eapply tri_weaken; [exact HT|set_solver|done].
Qed.

Lemma mark_opt_root D kind o q :
  (forall c, c ∈ opt_ref kind o -> c ∈ root_set) ->
  triple (mid D q) (mark_opt kind o q) (fun q' => mid (opt_ref kind o ++ D) q') (aborted h0).
Proof.
  intros Ho. destruct o as [handle|]; cbn in *; [apply mark_root; set_solver|by apply triple_ret].
Qed.

Lemma mark_opts_root D kind l q :
  (forall c, c ∈ l ≫= opt_ref kind -> c ∈ root_set) ->
  triple (mid D q) (gfor (mark_opt kind) l q) (fun q' => mid ((l ≫= opt_ref kind) ++ D) q') (aborted h0).
Proof.
  intros Hl. eapply triple_conseq;
    [eapply (triple_for _ (fun pre q' => mid ((pre ≫= opt_ref kind) ++ D) q'))|..]; try done.
  intros pre c q' [k ->]. eapply triple_conseq; [apply (mark_opt_root ((pre ≫= opt_ref kind) ++ D) kind c q')|done| |done].
  - intros x Hx. apply Hl. rewrite !bind_app, !elem_of_app. left. right. cbn. by rewrite app_nil_r.
  - intros q2 h HT. eapply tri_weaken; [exact HT| |done]. intros x. rewrite bind_app, !elem_of_app. cbn.
    rewrite app_nil_r. tauto.
Qed.

(** Gathering the anchors. *)
Lemma gather_anchors l P :
  (forall h, P h -> recolors h0 h) ->
  triple P (gfor (fun v buf => match from_value v with
                               | Some a => try_push size_GcRef buf a
                               | None => gret buf
                               end) l vec_new)
    (fun b h => P h /\ items b = omap from_value l) (aborted h0).
Proof.
  intros HP. eapply triple_conseq;
    [eapply (triple_for _ (fun pre b h => P h /\ items b = omap from_value pre))|..]; try done.
  intros pre v b _. rewrite omap_app. cbn. destruct (from_value v) as [a|]; cbn.
  - eapply triple_conseq;
      [apply (triple_try_push size_GcRef b a (fun h => P h /\ items b = omap from_value pre) (aborted h0) size_GcRef_pos)|..];
      try done.
    + intros h [H _] Hoom. split_and!; auto.
    + intros b' h [[H Hb] Hb']. split; [done|]. by rewrite Hb', Hb.
  - apply triple_ret. intros h. by rewrite app_nil_r.
Qed.

Lemma mark_heap_roots_spec q :
  (forall c, c ∈ heap_roots h0 roots -> c ∈ root_set) -> items q = [] ->
  triple (fun h => h = h0) (mark_heap_roots roots q) (fun q' => mid (heap_roots h0 roots) q') (aborted h0).
Proof.
  intros Hsub Hq. unfold heap_roots in Hsub. setoid_rewrite elem_of_app in Hsub.
  apply triple_get. intros ? ->. eapply triple_bind.
  { eapply triple_conseq; [apply (mark_roots [] roots q); set_solver| |done|done].
    intros h ->. rewrite Hq. apply tri_start. }
  intros q1. eapply triple_bind; [apply (mark_opt_root (roots ++ [])); set_solver|].
  intros q2. eapply triple_bind; [apply mark_opts_root; set_solver|].
  intros q3. eapply triple_bind; [apply mark_opt_root; set_solver|].
  intros q4. eapply triple_bind; [apply mark_opt_root; set_solver|].
  intros q5. eapply triple_bind; [eapply gather_anchors; intros h HT; apply (tri_recolors _ _ _ _ _ _ _ _ HT)|].
  intros anchors h [HT ->]. fold (anchor_refs h0).
  match type of HT with tri _ _ _ ?D _ _ _ _ => pose proof (mark_roots D (anchor_refs h0) q5) as H end.
  specialize (H ltac:(set_solver) h HT). destruct (gfor mark _ _ h) as [h' [q6|e]]; [|done].
  eapply tri_weaken; [exact H| |done]. unfold heap_roots. set_solver.
Qed.

Lemma pot_fuel h q : recolors h0 h -> (pot h0 h q <= trace_fuel h q)%nat.
Proof.
  intros HR. unfold pot, trace_fuel.
  assert (forall r, weight h r = weight h0 r) as Hw by (intros r; unfold weight; by rewrite (recolors_kids HR)).
  rewrite (recolors_all_refs HR). rewrite !(list_fmap_ext (weight h) (weight h0)) by (intros; apply Hw).
  apply Nat.add_le_mono_r, sum_filter_le.
Qed.

(** The loop started on marked roots. *)
Lemma trace_loop_run D q :
  triple (mid D q) (let* h := gget in trace_loop (trace_fuel h (items q)) cycle (mkWork q vec_new vec_new vec_new))
    (fun w h => tri cycle h0 root_set D [] (items (w_weak w)) (items (w_marked w)) h) (aborted h0).
Proof.
  apply triple_get. intros h HT h' ->. apply trace_loop_spec; try done. split; [done|].
  apply pot_fuel, (tri_recolors _ _ _ _ _ _ _ _ HT).
Qed.

End Roots.

Section MinorRoots.
Context {AL : Allocator} {LAWS : AllocatorLaws AL}.
Context {MA : MapAllocator} {TS : TableSizes} {HS : HeapSizes}.
Context {SIZES : HeapSizesLaws HS}.
Context (h0 : Heap) (roots : list GcRef) (white : all_white h0).

Notation root_set := (cycle_roots Minor h0 roots).
Notation mid D q := (tri Minor h0 root_set D (items q) [] []).

Lemma mark_minor_root D c q :
  (admits Minor h0 c = true -> c ∈ root_set) ->
  triple (mid D q) (mark_minor c q) (fun q' => mid ((if admits Minor h0 c then [c] else []) ++ D) q') (aborted h0).
Proof.
  intros Hc h HT. pose proof (marker_eq Minor h0 h c q (tri_recolors _ _ _ _ _ _ _ _ HT)) as E.
  change (marker Minor) with mark_minor in E. rewrite E. destruct (admits Minor h0 c) eqn:Ha.
  2: { rewrite andb_false_r. done. }
  rewrite andb_true_r. pose proof (mark_root Minor h0 roots D c q (Hc eq_refl) h HT) as H.
  exact H.
Qed.

Lemma mark_minor_roots D l q :
  (forall c, c ∈ l -> admits Minor h0 c = true -> c ∈ root_set) ->
  triple (mid D q) (gfor mark_minor l q)
    (fun q' => mid (filter (fun c => admits Minor h0 c = true) l ++ D) q') (aborted h0).
Proof.
  intros Hl. eapply triple_conseq;
    [eapply (triple_for _ (fun pre q' => mid (filter (fun c => admits Minor h0 c = true) pre ++ D) q'))|..]; try done.
  intros pre c q' [k ->]. eapply triple_conseq; [eapply (mark_minor_root _ c q'); intros; apply Hl; set_solver|done| |done].
  intros q2 h HT. eapply tri_weaken; [exact HT| |done]. intros x.
  rewrite filter_app, !elem_of_app, filter_cons, filter_nil.
  destruct (admits Minor h0 c) eqn:E; [rewrite decide_True by done|rewrite decide_False by done]; set_solver.
Qed.

Lemma mark_threads_spec D q :
  triple (mid D q) (mark_threads q) (fun q' => mid (resident_threads h0 ++ D) q') (aborted h0).
Proof.
  apply triple_get. intros h HT. pose proof (tri_recolors _ _ _ _ _ _ _ _ HT) as HR.
  assert (Hv : forall i, Arena.gc_value (threads (objects h)) i = Arena.gc_value (threads (objects h0)) i).
  { intros i. apply recolored_value. by destruct HR as [_ (?&?&?&?&?&?&?&?)]. }
  assert (Hn : Arena.arena_len (threads (objects h)) = Arena.arena_len (threads (objects h0))).
  { destruct HR as [_ (_&_&_&_&(_&_&_&_&_&H&_)&_)]. exact H. }
  rewrite Hn. unfold resident_threads. set (l := seqZ 0 _).
  eapply triple_conseq;
    [eapply (triple_for _ (fun pre q' => mid ((GThread <$> filter (fun i => occupied (threads (objects h0)) i = true) pre) ++ D) q'))
    |by intros ? ->|done|done].
  intros pre i q' [k Hk]. rewrite Hv. rewrite filter_app, fmap_app, filter_cons, filter_nil.
  pose proof (occupied_value (threads (objects h0)) i) as Ho.
  destruct (Arena.gc_value (threads (objects h0)) i) as [t|].
  - rewrite decide_True by done. eapply triple_conseq; [eapply (mark_minor_root _ (GThread i) q')|done| |done].
    + intros _. unfold cycle_roots, minor_roots. rewrite !elem_of_app. right. left. unfold resident_threads.
      apply list_elem_of_fmap. exists i. split; [done|]. apply list_elem_of_filter. split; [done|].
      fold l. rewrite Hk. set_solver.
    + intros q2 h2 HT2. eapply tri_weaken; [exact HT2| |done]. cbn. set_solver.
  - rewrite decide_False by congruence. apply triple_ret. cbn. by rewrite app_nil_r.
Qed.

(** The marking of a minor cycle before its trace. *)
Lemma minor_marking_spec :
  triple (fun h => h = h0)
    (let* queue := mark_heap_roots roots vec_new in
     let* queue := mark_threads queue in
     let* h := gget in gfor mark_minor (items (gc_remembered h)) queue)
    (fun q => mid root_set q) (aborted h0).
Proof.
  eapply triple_bind; [apply (mark_heap_roots_spec Minor); try done; unfold cycle_roots, minor_roots; set_solver|].
  intros q1. eapply triple_bind; [apply mark_threads_spec|].
  intros q2. apply triple_get. intros h HT.
  destruct (recolors_fields (tri_recolors _ _ _ _ _ _ _ _ HT)) as (_&_&_&_&_&_&_&_&_&Hrem&_). rewrite Hrem.
  intros ? ->. match type of HT with tri _ _ _ ?D _ _ _ _ =>
    pose proof (mark_minor_roots D (items (gc_remembered h0)) q2) as H end.
  specialize (H ltac:(intros c Hc Ha; unfold cycle_roots, minor_roots; rewrite !elem_of_app; right; right; by apply list_elem_of_filter) h HT).
  destruct (gfor mark_minor _ _ h) as [h' [q'|e]]; [|done].
  eapply tri_weaken; [exact H| |done]. intros x. unfold cycle_roots, minor_roots. rewrite !elem_of_app. tauto.
Qed.

End MinorRoots.
