(* ===== verification/GcWeak.v ===== *)
(** * GcWeak: what clearing the weak tables does

    [clear_weak_tables] removes from every weak table exactly the entries with a dead weak
    component, and changes nothing else but the meter. [pruned K t t'] is the effect on one
    table: the entries of [t'] are those of [t] that [K] keeps. *)

From Stdlib Require Import ZArith Lia.
From stdpp Require Import base numbers list option gmap sets.
From S2P Require Import Prelude RustVec Arena ArenaFacts Value LuaTable LuaTableFacts.
From S2P Require Import LuaTableTheorems GcObjects Gc GcView.
Import Gc.

Definition Entry : Set := RawValue * RawValue.

(** A table the collector may rewrite: well formed, and its array keys exact as numbers. *)
Definition wf_table (t : LuaTable) : Prop :=
  table_ok t /\ len (LuaTable.arr t) < 9007199254740992.

Definition pruned (K : Entry -> Prop) (t t' : LuaTable) : Prop :=
  wf_table t' /\ metatable t' = metatable t /\
  (forall kv, kv ∈ LuaTable.for_each_entry t' <-> kv ∈ LuaTable.for_each_entry t /\ K kv).

Lemma pruned_refl t : wf_table t -> pruned (fun _ => True) t t.
Proof. intros H. split_and!; try done. naive_solver. Qed.

Lemma pruned_trans K1 K2 t t1 t2 :
  pruned K1 t t1 -> pruned K2 t1 t2 -> pruned (fun kv => K1 kv /\ K2 kv) t t2.
Proof.
  intros (_ & E1 & H1) (W & E2 & H2). split_and!; [done|congruence|]. intros kv. rewrite H2, H1. tauto.
Qed.

Lemma pruned_ext K K' t t' :
  (forall kv, kv ∈ LuaTable.for_each_entry t -> K kv <-> K' kv) -> pruned K t t' -> pruned K' t t'.
Proof.
  intros HK (W & E & H). split_and!; [done|done|]. intros kv. rewrite H. specialize (HK kv). tauto.
Qed.

Section Tables.
Context {AL : Allocator} {MA : MapAllocator} {TS : TableSizes}.
Implicit Types (t : LuaTable) (m : MemoryMeter).
Import LuaTable.

(** *** Clearing one key *)

(** Clearing writes nil into one array slot or empties one hash slot, at most. *)
Lemma clear_shape t m key t' m' b :
  set t m key VNil = Ok ((t', m'), b) ->
  metatable t' = metatable t /\ len (arr t') = len (arr t) /\
  (forall (p : nat) v, arr t' !! p = Some v -> v = VNil \/ arr t !! p = Some v) /\
  (forall (p : nat) s v, slots t' !! p = Some s -> slot_value s = Some v -> slots t !! p = Some s).
Proof.
  unfold set. destruct (set_inner t key VNil) as [[t1 b1]|] eqn:E; [|done]. cbn.
  destruct (recharge_frame t1 m) as (F1 & F2 & F3 & F4). destruct (recharge t1 m) as [t2 m2].
  cbn in *. intros [= <- <- <-]. rewrite F1, F2, F4. clear F1 F2 F3 F4 t2.
  assert (Hsame : t1 = t -> metatable t1 = metatable t /\ len (arr t1) = len (arr t) /\
    (forall (p : nat) v, arr t1 !! p = Some v -> v = VNil \/ arr t !! p = Some v) /\
    (forall (p : nat) s v, slots t1 !! p = Some s -> slot_value s = Some v -> slots t !! p = Some s))
    by (intros ->; naive_solver).
  unfold set_inner in E. destruct (normalize_key key) as [norm|]; [|by injection E as <- _; apply Hsame].
  assert (Hhash : (let? t' := hash_set t norm key VNil in Ok (t', true)) = Ok (t1, b1) ->
    metatable t1 = metatable t /\ len (arr t1) = len (arr t) /\
    (forall (p : nat) v, arr t1 !! p = Some v -> v = VNil \/ arr t !! p = Some v) /\
    (forall (p : nat) s v, slots t1 !! p = Some s -> slot_value s = Some v -> slots t !! p = Some s)).
  { unfold hash_set. cbn [is_nil]. destruct (index t !! norm) as [idx|]; cbn; intros [= <- _]; [|by apply Hsame].
    split_and!; try done; [naive_solver|]. intros p s v Hs Hv. cbn in Hs. unfold zalter in Hs.
    destruct (idx <? 0); [done|]. destruct (decide (p = Z.to_nat idx)) as [->|Hp].
    - rewrite list_lookup_alter_eq in Hs. apply fmap_Some in Hs as (s0 & _ & ->). done.
    - by rewrite list_lookup_alter_ne in Hs. }
  destruct norm as [|i| | | | |]; try (by apply Hhash). destruct (array_slot t i) as [j|].
  - injection E as <- _. unfold arr, slots. cbn. split_and!; try done; [apply len_zalter|].
    intros p v Hv. unfold zalter in Hv. destruct (j <? 0); [by right|].
    destruct (decide (p = Z.to_nat j)) as [->|Hp].
    + rewrite list_lookup_alter_eq in Hv. apply fmap_Some in Hv as (? & _ & ->). by left.
    + rewrite list_lookup_alter_ne in Hv by done. by right.
  - rewrite andb_false_r in E. by apply Hhash.
Qed.

Lemma clear_subset t m key t' m' b kv :
  set t m key VNil = Ok ((t', m'), b) -> kv ∈ for_each_entry t' -> kv ∈ for_each_entry t.
Proof.
  intros (_ & _ & Ha & Hs)%clear_shape. destruct kv as [k v].
  rewrite !for_each_entry_split, !elem_of_app, !elem_of_array_from, !elem_of_hash_entries.
  intros [(p & Hp & Hv & ->)|(p & s & Hp & <- & Hv)].
  - left. exists p. destruct (Ha p v Hp); [done|]. done.
  - right. exists p, s. split_and!; try done. by eapply Hs.
Qed.

Lemma entry_normalizes t k v :
  wf_table t -> (k, v) ∈ for_each_entry t -> v <> VNil /\ is_Some (normalize_key k).
Proof.
  intros [Hok Hlen]. rewrite for_each_entry_split, elem_of_app, elem_of_array_from, elem_of_hash_entries.
  intros [(p & Hp & Hv & ->)|(p & s & Hp & <- & Hv)].
  - apply lookup_lt_Some in Hp. unfold len in Hlen. rewrite normalize_array_key by lia. eauto.
  - destruct (live_slot_key t p s v Hok Hp Hv) as (nk & Hk & _ & _). rewrite Hk.
    split; [|eauto]. apply (live_indexed _ _ Hok (Z.of_nat p) s v); [by rewrite zget_of_nat|done].
Qed.

(** Entries are determined by their normalized key. *)
Lemma entry_unique t kv1 kv2 :
  wf_table t -> kv1 ∈ for_each_entry t -> kv2 ∈ for_each_entry t ->
  normalize_key kv1.1 = normalize_key kv2.1 -> kv1 = kv2.
Proof.
  intros [Hok Hlen] H1 H2 Hk. apply list_elem_of_lookup in H1 as [i Hi], H2 as [j Hj].
  pose proof (entries_nodup t Hok Hlen) as Hn.
  assert (i = j); [|congruence].
  apply (NoDup_lookup _ _ _ (normalize_key kv1.1) Hn); rewrite list_lookup_fmap;
    [by rewrite Hi|rewrite Hj, Hk; done].
Qed.

Lemma clear_pruned t m key t' m' b :
  wf_table t -> is_Some (normalize_key key) -> set t m key VNil = Ok ((t', m'), b) ->
  pruned (fun kv => normalize_key kv.1 <> normalize_key key) t t'.
Proof.
  intros Hwf [norm Hn] HS. pose proof Hwf as [Hok Hlen].
  pose proof (set_spec t m key VNil t' m' b Hok HS) as H. rewrite Hn in H. destruct H as (_ & Hok' & Hmt & Hg).
  pose proof (clear_shape t m key t' m' b HS) as (_ & Hl & _ & _).
  assert (Hwf' : wf_table t') by (split; [done|lia]).
  split_and!; [done|done|]. intros [k v]. rewrite Hn. cbn [fst]. split.
  - intros Hin. split; [by eapply clear_subset|]. intros Hk.
    destruct (entry_normalizes t' k v Hwf' Hin) as [Hv _].
    assert (get_norm t' norm = v) as Hget by (apply entries_complete; [done|lia|done|eauto]).
    rewrite Hg, decide_True in Hget by done. by subst.
  - intros [Hin Hk]. destruct (entry_normalizes t k v Hwf Hin) as [Hv [n' Hn']].
    assert (get_norm t' n' = v) as Hget.
    { rewrite Hg, decide_False by congruence. apply entries_complete; [done..|eauto]. }
    apply entries_complete in Hget as (k' & Hin' & Hk'); [|done|lia|done].
    assert ((k', v) = (k, v)) as [= ->]; [|done].
    apply (entry_unique t); [done|by eapply clear_subset|done|cbn; congruence].
Qed.

(** *** The handles of a table are those of its entries *)

Lemma visit_nil v c : v = VNil -> c ∈ visit_value v -> False.
Proof. intros ->. by intros ?%not_elem_of_nil. Qed.

Lemma table_trace_entries t c :
  c ∈ table_trace t <->
  (exists kv, kv ∈ for_each_entry t /\ (c ∈ visit_value kv.1 \/ c ∈ visit_value kv.2)) \/
  c ∈ visit_opt GTable (metatable t).
Proof.
  unfold table_trace. rewrite for_each_entry_split, !elem_of_app, !list_elem_of_bind.
  setoid_rewrite elem_of_app. split.
  - intros [(v & Hc & [p Hp]%list_elem_of_lookup)|[(s & Hc & [p Hp]%list_elem_of_lookup)|Hm]]; [| |by right].
    + left. exists (VNumber (array_key (0 + Z.of_nat p)), v). cbn. split; [|by right]. left.
      apply elem_of_array_from. exists p. split_and!; try done. intros ->. by eapply visit_nil.
    + left. unfold slot_trace in Hc. destruct (slot_value s) as [v|] eqn:Hv; [|by apply not_elem_of_nil in Hc].
      exists (key_value s, v). cbn. rewrite elem_of_app in Hc. split; [|done]. right.
      apply elem_of_hash_entries. eauto.
  - intros [([k v] & [Hin|Hin] & Hc)|Hm]; [| |by right; right]; cbn in Hc.
    + apply elem_of_array_from in Hin as (p & Hp & _ & ->). left. exists v.
      destruct Hc as [Hc|Hc]; [by apply not_elem_of_nil in Hc|]. split; [done|]. by eapply list_elem_of_lookup_2.
    + apply elem_of_hash_entries in Hin as (p & s & Hp & <- & Hv). right. left. exists s. split.
      * unfold slot_trace. rewrite Hv, elem_of_app. tauto.
      * by eapply list_elem_of_lookup_2.
Qed.

Lemma push_strong_nil v w c : v = VNil -> c ∈ push_strong v w -> False.
Proof. intros ->. unfold push_strong. destruct (strong _ _); by intros ?%not_elem_of_nil. Qed.

Lemma trace_weak_entries t wk wv c :
  c ∈ gc_trace_weak t wk wv <->
  (exists kv, kv ∈ for_each_entry t /\ (c ∈ push_strong kv.1 wk \/ c ∈ push_strong kv.2 wv)) \/
  c ∈ fst <$> visit_opt GTable (metatable t).
Proof.
  unfold gc_trace_weak. rewrite for_each_entry_split, !elem_of_app, !list_elem_of_bind.
  setoid_rewrite elem_of_app.
  replace (match metatable t with Some h => [GTable (gc_index h)] | None => [] end)
    with (fst <$> visit_opt GTable (metatable t)) by (by destruct (metatable t)).
  split.
  - intros [(v & Hc & [p Hp]%list_elem_of_lookup)|[(s & Hc & [p Hp]%list_elem_of_lookup)|Hm]]; [| |by right].
    + left. exists (VNumber (array_key (0 + Z.of_nat p)), v). cbn. split; [|by right]. left.
      apply elem_of_array_from. exists p. split_and!; try done. intros ->. by eapply push_strong_nil.
    + left. destruct (slot_value s) as [v|] eqn:Hv; [|by apply not_elem_of_nil in Hc].
      exists (key_value s, v). cbn. rewrite elem_of_app in Hc. split; [|done]. right.
      apply elem_of_hash_entries. eauto.
  - intros [([k v] & [Hin|Hin] & Hc)|Hm]; [| |by right; right]; cbn in Hc.
    + apply elem_of_array_from in Hin as (p & Hp & _ & ->). left. exists v.
      destruct Hc as [Hc|Hc].
      { unfold push_strong in Hc. destruct (strong _ _); by apply not_elem_of_nil in Hc. }
      split; [done|]. by eapply list_elem_of_lookup_2.
    + apply elem_of_hash_entries in Hin as (p & s & Hp & <- & Hv). right. left. exists s. split.
      * rewrite Hv, elem_of_app. tauto.
      * by eapply list_elem_of_lookup_2.
Qed.

End Tables.

(** ** Clearing in the heap *)

Definition with_tables (o : ObjectStore) (a : Arena LuaTable) : ObjectStore :=
  mkStore (strings o) a (closures o) (userdata o) (threads o) (buffers o) (protos o) (upvals o).

Definition prunes_entry (K : Entry -> Prop) (e e' : ArenaEntry LuaTable) : Prop :=
  e_color e' = e_color e /\ e_age e' = e_age e /\
  match e_value e, e_value e' with
  | Some t, Some t' => pruned K t t'
  | None, None => True
  | _, _ => False
  end.

Definition prunes (K : Z -> Entry -> Prop) (a a' : Arena LuaTable) : Prop :=
  gens a' = gens a /\ free_list a' = free_list a /\ young a' = young a /\
  charged (entries a') = charged (entries a) /\
  capacity (inner (entries a')) = capacity (inner (entries a)) /\
  av_len (entries a') = av_len (entries a) /\
  (forall i, option_relation (prunes_entry (K i)) (fun _ => False) (fun _ => False) (slot a i) (slot a' i)).

Definition weak_cleared (K : Z -> Entry -> Prop) (h h' : Heap) : Prop :=
  h' = set_meter (meter h') (set_objects (with_tables (objects h) (tables (objects h'))) h) /\
  prunes K (tables (objects h)) (tables (objects h')).

Definition tables_wf (h : Heap) : Prop :=
  forall i t, Arena.gc_value (tables (objects h)) i = Some t -> wf_table t.

(** The entries that keep their place when the tables of [W] are cleared. *)
Definition keeps (cycle : GcCycle) (h : Heap) (W : list (Z * bool * bool)) (i : Z) (kv : Entry) : Prop :=
  forall wk wv, (i, wk, wv) ∈ W -> entry_dead h cycle wk wv kv = false.

Lemma prunes_entry_ext K K' e e' :
  (forall t kv, e_value e = Some t -> kv ∈ LuaTable.for_each_entry t -> K kv <-> K' kv) ->
  prunes_entry K e e' -> prunes_entry K' e e'.
Proof.
  intros HK (H1 & H2 & H3). split_and!; [done|done|].
  destruct (e_value e) as [t|], (e_value e') as [t'|]; try done.
  eapply pruned_ext; [|exact H3]. intros kv. by apply HK.
Qed.

Lemma prunes_entry_trans K1 K2 e e1 e2 :
  prunes_entry K1 e e1 -> prunes_entry K2 e1 e2 -> prunes_entry (fun kv => K1 kv /\ K2 kv) e e2.
Proof.
  intros (A1 & A2 & A3) (B1 & B2 & B3). split_and!; [congruence..|].
  destruct (e_value e), (e_value e1), (e_value e2); try done. by eapply pruned_trans.
Qed.

Lemma weak_cleared_refl h : tables_wf h -> weak_cleared (fun _ _ => True) h h.
Proof.
  intros Hwf. split; [by destruct h as [? []]|]. split_and!; try done.
  intros i. specialize (Hwf i). rewrite gc_value_slot in Hwf.
  destruct (slot _ i) as [e|]; [|done]. cbn in *. split_and!; try done.
  destruct (e_value e) as [t|]; [|done]. by apply pruned_refl, Hwf.
Qed.

Lemma weak_cleared_trans K1 K2 h h1 h2 :
  weak_cleared K1 h h1 -> weak_cleared K2 h1 h2 -> weak_cleared (fun i kv => K1 i kv /\ K2 i kv) h h2.
Proof.
  intros [E1 (A1&A2&A3&A4&A5&A6&A7)] [E2 (B1&B2&B3&B4&B5&B6&B7)]. split.
  - rewrite E2, E1. by destruct h as [? []].
  - split_and!; [congruence..|]. intros i. specialize (A7 i). specialize (B7 i).
    destruct (slot (tables (objects h)) i), (slot (tables (objects h1)) i), (slot (tables (objects h2)) i);
      cbn in *; try done. by eapply prunes_entry_trans.
Qed.

Lemma weak_cleared_ext (K K' : Z -> Entry -> Prop) h h' :
  (forall i t kv, Arena.gc_value (tables (objects h)) i = Some t -> kv ∈ LuaTable.for_each_entry t ->
     K i kv <-> K' i kv) ->
  weak_cleared K h h' -> weak_cleared K' h h'.
Proof.
  intros HK [E (A1&A2&A3&A4&A5&A6&A7)]. split; [done|]. split_and!; try done.
  intros i. specialize (A7 i). specialize (HK i). rewrite gc_value_slot in HK.
  destruct (slot (tables (objects h)) i) as [e|], (slot (tables (objects h')) i) as [e'|]; cbn in *; try done.
  eapply prunes_entry_ext; [|exact A7]. intros t kv Ht. by apply HK.
Qed.

Section Facts.
Context {K : Z -> Entry -> Prop} {h h' : Heap} (H : weak_cleared K h h').

(** Any read of the table arena that ignores the table's contents. *)
Lemma cleared_pick {B} (f : forall T, Arena T -> Z -> B) r :
  (forall i, f _ (tables (objects h')) i = f _ (tables (objects h)) i) ->
  pick f (objects h') r = pick f (objects h) r.
Proof.
  destruct H as [E _]. intros Hf. destruct r; cbn; try apply Hf;
    rewrite E at 1; done.
Qed.

Lemma cleared_color r : color h' r = color h r.
Proof.
  rewrite !color_pick. apply cleared_pick. intros i. destruct H as [_ (_&_&_&_&_&_&Hs)].
  specialize (Hs i). rewrite !gc_color_slot. destruct (slot (tables (objects h)) i), (slot (tables (objects h')) i); try done. by destruct Hs.
Qed.

Lemma cleared_age r : age h' r = age h r.
Proof.
  rewrite !age_pick. apply cleared_pick. intros i. destruct H as [_ (_&_&_&_&_&_&Hs)].
  specialize (Hs i). unfold Arena.gc_age. fold (slot (tables (objects h)) i) (slot (tables (objects h')) i).
  destruct (slot (tables (objects h)) i), (slot (tables (objects h')) i); try done. by destruct Hs as (_ & ? & _).
Qed.

Lemma cleared_live r : live h' r = live h r.
Proof.
  apply cleared_pick. intros i. destruct H as [_ (_&_&_&_&_&_&Hs)].
  specialize (Hs i). unfold occupied, is_live.
  destruct (slot (tables (objects h)) i) as [e|], (slot (tables (objects h')) i) as [e'|]; try done.
  destruct Hs as (_ & _ & Hs). by destruct (e_value e), (e_value e').
Qed.

Lemma cleared_generation r : generation h' r = generation h r.
Proof.
  apply cleared_pick. intros i. destruct H as [_ (Hg & _)]. unfold gen. by rewrite Hg.
Qed.

Lemma cleared_table i t' :
  Arena.gc_value (tables (objects h')) i = Some t' ->
  exists t, Arena.gc_value (tables (objects h)) i = Some t /\ pruned (K i) t t'.
Proof.
  rewrite !gc_value_slot. destruct H as [_ (_&_&_&_&_&_&Hs)]. specialize (Hs i).
  destruct (slot (tables (objects h)) i) as [e|], (slot (tables (objects h')) i) as [e'|]; try done.
  destruct Hs as (_ & _ & Hs). cbn. intros Ht. rewrite Ht in Hs. destruct (e_value e) as [t|]; [eauto|done].
Qed.

Lemma cleared_wf : tables_wf h'.
Proof. intros i t' (t & _ & (Hwf & _))%cleared_table. done. Qed.

Lemma cleared_entry_dead cycle wk wv kv : entry_dead h' cycle wk wv kv = entry_dead h cycle wk wv kv.
Proof.
  unfold entry_dead, is_dead_component.
  destruct (is_string kv.1), (is_string kv.2), (from_value kv.1), (from_value kv.2);
    by rewrite ?cleared_color, ?cleared_age.
Qed.

End Facts.

Section Clearing.
Context {AL : Allocator} {LAWS : AllocatorLaws AL}.
Context {MA : MapAllocator} {TS : TableSizes} {HS : HeapSizes} {SIZES : HeapSizesLaws HS}.
Implicit Types (h : Heap) (t : LuaTable).

Lemma clear_key_spec i k h t :
  tables_wf h -> Arena.gc_value (tables (objects h)) i = Some t -> is_Some (normalize_key k) ->
  exists h', clear_key i k h = (h', Ok tt) /\
    weak_cleared (fun j kv => j = i -> normalize_key kv.1 <> normalize_key k) h h'.
Proof.
  intros Hwf Ht Hk. unfold clear_key. rewrite Ht.
  destruct (set_nil_total t (meter h) k) as [[[t' m'] b] Hset]. rewrite Hset.
  pose proof (clear_pruned t (meter h) k t' m' b (Hwf _ _ Ht) Hk Hset) as Hp.
  eexists. split; [done|]. split; [by destruct h as [? []]|]. cbn. split_and!; try done; [apply av_len_alter|].
  intros j. rewrite slot_alter. specialize (Hwf j). rewrite gc_value_slot in Hwf, Ht.
  destruct (decide (i = j)) as [<-|Hij].
  - destruct (slot _ i) as [e|]; [|done]. cbn in *. split_and!; try done. cbn. rewrite Ht.
    eapply pruned_ext; [|exact Hp]. naive_solver.
  - destruct (slot _ j) as [e|]; [|done]. cbn in *. split_and!; try done.
    destruct (e_value e) as [u|]; [|done]. eapply pruned_ext; [|by apply pruned_refl, Hwf].
    intros kv _. split; [|done]. by intros _ ->.
Qed.

Lemma clear_keys_spec i (l : list RawValue) h t :
  tables_wf h -> Arena.gc_value (tables (objects h)) i = Some t ->
  (forall k, k ∈ l -> is_Some (normalize_key k)) ->
  exists h', gfor (fun k (_ : unit) => clear_key i k) l tt h = (h', Ok tt) /\
    weak_cleared (fun j kv => j = i -> forall k, k ∈ l -> normalize_key kv.1 <> normalize_key k) h h'.
Proof.
  revert h t. induction l as [|k l IH]; intros h t Hwf Ht Hl.
  { exists h. split; [done|]. eapply weak_cleared_ext; [|by apply weak_cleared_refl]. set_solver. }
  destruct (clear_key_spec i k h t Hwf Ht) as (h1 & E1 & H1); [apply Hl; set_solver|].
  assert (exists t1, Arena.gc_value (tables (objects h1)) i = Some t1) as [t1 Ht1].
  { pose proof (cleared_live H1 (GTable i)) as Hlv. unfold live in Hlv. cbn in Hlv. rewrite !occupied_value, Ht in Hlv.
    destruct (Arena.gc_value (tables (objects h1)) i); [eauto|done]. }
  destruct (IH h1 t1 (cleared_wf H1) Ht1) as (h2 & E2 & H2); [intros; apply Hl; set_solver|].
  exists h2. split; [cbn; unfold gbind; by rewrite E1|].
  eapply weak_cleared_ext; [|by eapply weak_cleared_trans]. intros j _ kv _ _. cbn.
  setoid_rewrite elem_of_cons. naive_solver.
Qed.

Lemma clear_weak_table_spec cycle i wk wv scratch h :
  tables_wf h ->
  match clear_weak_table cycle (i, wk, wv) scratch h with
  | (h', Ok _) => weak_cleared (keeps cycle h [(i, wk, wv)]) h h'
  | (h', Err e) => e = GcAbort /\ h' = h /\ out_of_memory
  end.
Proof.
  intros Hwf. unfold clear_weak_table, gbind, gget.
  set (dead := match Arena.gc_value (tables (objects h)) i with
               | Some t => dead_keys_of h cycle t wk wv | None => [] end).
  pose proof (triple_push_all size_Value dead (vec_clear scratch) (fun h' => h' = h)
    (fun e h' => e = GcAbort /\ h' = h /\ out_of_memory) size_Value_pos ltac:(done) h eq_refl) as Hpush.
  destruct (gfor _ dead _ h) as [h1 [scr|e]]; [|done]. destruct Hpush as [-> Hi]. cbn in Hi. rewrite Hi.
  assert (Hone : forall j kv, keeps cycle h [(i, wk, wv)] j kv <-> (j = i -> entry_dead h cycle wk wv kv = false)).
  { intros j kv. unfold keeps. setoid_rewrite list_elem_of_singleton. naive_solver. }
  destruct (Arena.gc_value (tables (objects h)) i) as [t|] eqn:Ht; subst dead.
  - assert (Hmem : forall k, k ∈ dead_keys_of h cycle t wk wv <->
      exists v, (k, v) ∈ LuaTable.for_each_entry t /\ entry_dead h cycle wk wv (k, v) = true).
    { intros k. unfold dead_keys_of. rewrite list_elem_of_fmap. setoid_rewrite list_elem_of_filter. split.
      - intros ([k' v] & -> & ? & ?). eauto.
      - intros (v & ? & ?). by exists (k, v). }
    destruct (clear_keys_spec i (dead_keys_of h cycle t wk wv) h t Hwf Ht) as (h' & E & HC).
    { intros k (v & Hin & _)%Hmem. by apply (entry_normalizes t k v (Hwf _ _ Ht)). }
    rewrite E. eapply weak_cleared_ext; [|exact HC]. intros j u kv Hu Hkv. rewrite Hone. split.
    + intros Hne ->. rewrite Ht in Hu. injection Hu as ->.
      destruct (entry_dead h cycle wk wv kv) eqn:Ed; [|done]. exfalso.
      apply (Hne eq_refl kv.1); [|done]. apply Hmem. exists kv.2. by destruct kv.
    + intros Hd -> k (v & Hin & Hdead)%Hmem Hk. rewrite Ht in Hu. injection Hu as ->.
      assert (kv = (k, v)) as -> by (by apply (entry_unique u); [apply (Hwf i)|..]).
      rewrite Hd in Hdead by done. done.
  - cbn. eapply weak_cleared_ext; [|by apply weak_cleared_refl]. intros j u kv Hu _. rewrite Hone.
    split; [|done]. intros _ ->. congruence.
Qed.

(** All weak tables. *)
Lemma clear_weak_tables_spec cycle W h0 :
  tables_wf h0 ->
  triple (fun h => h = h0) (clear_weak_tables cycle W)
    (fun _ h => weak_cleared (keeps cycle h0 W) h0 h)
    (fun e h => e = GcAbort /\ out_of_memory /\
      exists W', (forall x, x ∈ W' -> x ∈ W) /\ weak_cleared (keeps cycle h0 W') h0 h).
Proof.
  intros Hwf. eapply (triple_bind _ _ _ (fun _ h => weak_cleared (keeps cycle h0 W) h0 h));
    [|intros _; by apply triple_ret].
  intros h ->.
  apply (triple_for (clear_weak_table cycle) (fun pre _ h => weak_cleared (keeps cycle h0 pre) h0 h)
    (fun e h => e = GcAbort /\ out_of_memory /\
      exists W', (forall x, x ∈ W' -> x ∈ W) /\ weak_cleared (keeps cycle h0 W') h0 h)).
  - intros pre [[i wk] wv] scratch [rest HW] h HC; cbn beta.
    pose proof (clear_weak_table_spec cycle i wk wv scratch h (cleared_wf HC)) as H.
    destruct (clear_weak_table cycle (i, wk, wv) scratch h) as [h' [scr|e]].
    + eapply weak_cleared_ext; [|by eapply weak_cleared_trans]. intros j t kv _ _. cbn. unfold keeps.
      setoid_rewrite elem_of_app. setoid_rewrite list_elem_of_singleton.
      setoid_rewrite (cleared_entry_dead HC). naive_solver.
    + destruct H as (-> & -> & Hoom). split_and!; [done|done|]. exists pre. split; [|done]. rewrite HW. set_solver.
  - eapply weak_cleared_ext; [|by apply weak_cleared_refl]. unfold keeps. set_solver.
Qed.

End Clearing.
