(* ===== verification/GcSweep.v ===== *)
(** * GcSweep: what a sweep of the whole store does

    [collected] is the effect of a sweep (with the compaction of a major one) on one arena:
    what survives keeps its index, generation and value, turns white and old, and nothing
    else is live. The reservations made first make the sweep itself infallible; the payload
    store and the interner follow the swept userdata and strings. *)

From Stdlib Require Import ZArith Lia.
From stdpp Require Import base numbers list option gmap sets.
From S2P Require Import Prelude RustVec Arena ArenaFacts ArenaTheorems Value LuaTable.
From S2P Require Import GcObjects Gc GcView GcWeak.
Import Gc.

(** ** One arena *)

Definition touched (cycle : GcCycle) {T} (e : ArenaEntry T) : bool :=
  match cycle with Full => is_live e | Minor => young_live e end.

Definition sweep_list (cycle : GcCycle) {T} (a : Arena T) : list Z :=
  match cycle with Full => sweep_range a | Minor => items (young a) end.

(** The objects a sweep reclaims, in its order. *)
Definition dying (cycle : GcCycle) {T} (a : Arena T) : list T :=
  omap (dying_value (touched cycle) a) (sweep_list cycle a).

Record collected (cycle : GcCycle) {T} (sz : Z) (a a' : Arena T) : Prop := {
  col_ok : arena_ok sz a';
  col_len : av_len (entries a') <= av_len (entries a);
  col_young : items (young a') = [];
  col_survives i e : slot a i = Some e -> is_live e = true -> dies (touched cycle) e = false ->
    slot a' i = Some (swept (touched cycle) e) /\ gen a' i = gen a i;
  col_only i e' : slot a' i = Some e' -> is_live e' = true ->
    exists e, slot a i = Some e /\ is_live e = true /\ dies (touched cycle) e = false;
}.

Lemma touched_live cycle {T} (e : ArenaEntry T) : touched cycle e = true -> is_live e = true.
Proof. destruct cycle; [apply young_live_live|done]. Qed.

(** A dying slot is on the sweep list. *)
Lemma dies_listed cycle {T} sz (a : Arena T) i e :
  arena_ok sz a -> slot a i = Some e -> touched cycle e = true -> i ∈ sweep_list cycle a.
Proof.
  intros Hok He Ht. destruct cycle; cbn in *; [|by eapply slot_in_range].
  apply (ok_young _ _ Hok). exists e. unfold young_live in Ht. apply andb_prop in Ht as [? Hy].
  split_and!; try done. by destruct (e_age e).
Qed.

Lemma sweep_list_nodup cycle {T} sz (a : Arena T) : arena_ok sz a -> NoDup (sweep_list cycle a).
Proof. intros Hok. destruct cycle; cbn; [apply (ok_young_nodup _ _ Hok)|apply NoDup_seqZ]. Qed.

Lemma untouched_swept cycle {T} (e : ArenaEntry T) :
  touched cycle e = false -> swept (touched cycle) e = e.
Proof. intros H. unfold swept. by rewrite H. Qed.

(** From the effect of the arena's sweep. *)
Lemma effect_collected cycle {T} sz (a a1 a' : Arena T) es gs fr yo :
  arena_ok sz a -> (forall i, slot a1 i = slot a i) -> (forall i, gen a1 i = gen a i) ->
  av_len (entries a1) = av_len (entries a) ->
  sweep_effect (touched cycle) (sweep_list cycle a) a1 a' ->
  es = entries a' -> gs = gens a' -> items yo = [] -> arena_ok sz (mkArena es gs fr yo) ->
  collected cycle sz a (mkArena es gs fr yo).
Proof.
  intros Hok HS HG HL (E1 & E2 & _ & (_ & _ & F3 & _)) -> -> Hyo Hok'.
  assert (Hslot : forall i, slot (mkArena (entries a') (gens a') fr yo) i = swept (touched cycle) <$> slot a i).
  { intros i. change (slot a' i = swept (touched cycle) <$> slot a i). rewrite E1, HS. case_decide as Hi; [done|].
    destruct (slot a i) as [e|] eqn:He; [|done]. cbn. rewrite untouched_swept; [done|].
    destruct (touched cycle e) eqn:Ht; [|done]. destruct Hi. by eapply dies_listed. }
  split; try done.
  - cbn. lia.
  - intros i e He Hl Hd. rewrite Hslot, He. split; [done|].
    change (gen a' i = gen a i). rewrite E2, HG. unfold dies_at. rewrite HS, He, Hd.
    by rewrite decide_False by naive_solver.
  - intros i e'. rewrite Hslot. destruct (slot a i) as [e|] eqn:He; [|done]. cbn. intros [= <-] Hl.
    exists e. split; [done|].
    destruct (is_live e) eqn:Hle, (dies (touched cycle) e) eqn:Hd; try done;
      (assert (is_live (swept (touched cycle) e) = false) as Hx;
       [apply swept_dead; [apply touched_live|auto]|congruence]).
Qed.

Lemma compact_collected cycle {AL : Allocator} {LAWS : AllocatorLaws AL} {T} sz (a a' : Arena T) m :
  0 < sz -> collected cycle sz a a' -> collected cycle sz a (Arena.gc_compact sz a' m).1.
Proof.
  intros Hsz [Hok Hlen Hy Hs Ho].
  destruct (gc_compact_spec sz Hsz a' m Hok) as (a2 & m2 & E & Hok2 & Hg & Hy2 & H1 & H2 & Hl2 & _). rewrite E. cbn.
  destruct (live_len_spec (items (inner (entries a')))) as [Hn _].
  split; try done.
  - unfold av_len, vec_len in *. lia.
  - by rewrite Hy2.
  - intros i e He Hl Hd. destruct (Hs i e He Hl Hd) as [Hs1 Hs2]. split.
    + apply H1; [done|]. destruct (is_live (swept (touched cycle) e)) eqn:E1; [done|].
      apply swept_dead in E1; [|apply touched_live]. destruct E1; congruence.
    + unfold gen in *. by rewrite Hg.
  - intros i e' He'. apply Ho. by apply H2.
Qed.

Section ArenaSweep.
Context {AL : Allocator} {LAWS : AllocatorLaws AL}.

Definition reserve_arena (cycle : GcCycle) {T} (a : Arena T) : result Fault (Arena T) :=
  if is_minor cycle then Arena.gc_reserve_free_minor a else Arena.gc_reserve_free a.

Definition sweep_arena (cycle : GcCycle) {T S} (f : T -> S -> S) (a : Arena T) (s : S) :=
  if is_minor cycle then Arena.gc_sweep_minor_with f a s else Arena.gc_sweep_with f a s.

Lemma reserve_arena_same cycle {T} sz (a a1 : Arena T) :
  arena_ok sz a -> reserve_arena cycle a = Ok a1 ->
  arena_ok sz a1 /\ entries a1 = entries a /\ gens a1 = gens a /\ young a1 = young a.
Proof.
  intros Hok. unfold reserve_arena, Arena.gc_reserve_free_minor, Arena.gc_reserve_free.
  destruct (is_minor cycle); (destruct (try_reserve _ _ _) as [fr|] eqn:E; [|done]); intros [= <-];
    (eapply reserve_free_ok in E as (? & _ & _); [by split_and!|apply len_nonneg|done]).
Qed.

Lemma reserve_arena_fail cycle {T} (a : Arena T) e : reserve_arena cycle a = Err e -> out_of_memory.
Proof.
  unfold reserve_arena, Arena.gc_reserve_free_minor, Arena.gc_reserve_free.
  destruct (is_minor cycle); destruct (try_reserve _ _ _) eqn:E; try done; intros _; by eapply try_reserve_None.
Qed.

Lemma sweep_arena_spec cycle {T S} (f : T -> S -> S) sz (a a1 : Arena T) s :
  arena_ok sz a -> av_len (entries a) < 4294967296 -> reserve_arena cycle a = Ok a1 ->
  exists a' n, sweep_arena cycle f a1 s = Ok ((a', foldl (fun s v => f v s) s (dying cycle a)), n) /\
    collected cycle sz a a'.
Proof.
  intros Hok Hlen Hr. pose proof (reserve_arena_same _ _ _ _ Hok Hr) as (_ & Hen & _).
  unfold reserve_arena, sweep_arena in *. destruct cycle; cbn in *.
  - destruct (reserve_then_sweep_minor sz f a a1 s Hok Hr) as (a2 & E & HE & _ & _ & HS & HG & Hok2).
    rewrite E. do 2 eexists. split; [done|]. eapply effect_collected; try done. by rewrite Hen.
  - destruct (reserve_then_sweep sz f a a1 s Hok Hlen Hr) as (a2 & E & HE & _ & _ & HS & HG & Hok2).
    rewrite E. do 2 eexists. split; [done|]. eapply effect_collected; try done. by rewrite Hen.
Qed.

End ArenaSweep.

(** ** The store *)

Section Store.
Context {AL : Allocator} {LAWS : AllocatorLaws AL}.
Context {MA : MapAllocator} {TS : TableSizes} {HS : HeapSizes} {SIZES : HeapSizesLaws HS}.
Implicit Types (o : ObjectStore).

Definition store_rel (R : forall T, Z -> Arena T -> Arena T -> Prop) o o' : Prop :=
  R _ size_strings (strings o) (strings o') /\ R _ size_tables (tables o) (tables o') /\
  R _ size_closures (closures o) (closures o') /\ R _ size_userdata (userdata o) (userdata o') /\
  R _ size_threads (threads o) (threads o') /\ R _ size_buffers (buffers o) (buffers o') /\
  R _ size_protos (protos o) (protos o') /\ R _ size_upvals (upvals o) (upvals o').

(** Every arena is well formed and below the index limit. *)
Definition bounded {T} (sz : Z) (a : Arena T) : Prop := arena_ok sz a /\ av_len (entries a) < 4294967296.

Definition arenas_ok o : Prop := store_rel (fun T sz a _ => bounded sz a) o o.

Lemma store_rel_impl (R Q : forall T, Z -> Arena T -> Arena T -> Prop) o o' :
  (forall T sz (a a' : Arena T), 0 < sz -> R _ sz a a' -> Q _ sz a a') -> store_rel R o o' -> store_rel Q o o'.
Proof.
  intros H. unfold store_rel. destruct SIZES. intros (?&?&?&?&?&?&?&?). split_and!; by apply H.
Qed.

Lemma store_rel_and (R Q : forall T, Z -> Arena T -> Arena T -> Prop) o o' :
  store_rel R o o' -> store_rel Q o o' -> store_rel (fun T sz a a' => R _ sz a a' /\ Q _ sz a a') o o'.
Proof. unfold store_rel. tauto. Qed.

Lemma store_rel_left (P : forall T, Z -> Arena T -> Prop) o o' :
  store_rel (fun T sz a _ => P _ sz a) o o -> store_rel (fun T sz a _ => P _ sz a) o o'.
Proof. done. Qed.

(** A relation the arena sizes do not matter to. *)
Lemma store_rel_on (R : forall T, Arena T -> Arena T -> Prop) o o' :
  store_rel (fun T _ => R T) o o' <-> on_arenas R o o'.
Proof. done. Qed.

Lemma pick_store {B} (Q : B -> B -> Prop) (f g : forall T, Arena T -> Z -> B)
  (R : forall T, Z -> Arena T -> Arena T -> Prop) o o' r :
  store_rel R o o' -> (forall T sz (a a' : Arena T) i, 0 < sz -> R _ sz a a' -> Q (f _ a i) (g _ a' i)) ->
  Q (pick f o r) (pick g o' r).
Proof.
  destruct SIZES. intros (?&?&?&?&?&?&?&?) Hfg. destruct r; cbn; eapply Hfg; [|eassumption| |eassumption| |eassumption
    | |eassumption| |eassumption| |eassumption| |eassumption| |eassumption]; done.
Qed.

(** *** Reserving *)

Lemma reserve_with_ok (f : forall T, Arena T -> result Fault (Arena T)) o o1 :
  reserve_with f o = (o1, true) -> on_arenas (fun T a a1 => f _ a = Ok a1) o o1.
Proof.
  unfold reserve_with, try_arena, on_arenas.
  destruct (f _ (strings o)); [|done]. destruct (f _ (tables o)); [|done].
  destruct (f _ (closures o)); [|done]. destruct (f _ (userdata o)); [|done].
  destruct (f _ (threads o)); [|done]. destruct (f _ (buffers o)); [|done].
  destruct (f _ (protos o)); [|done]. destruct (f _ (upvals o)); [|done].
  by intros [= <-].
Qed.

Lemma reserve_with_fail (f : forall T, Arena T -> result Fault (Arena T)) (P : Prop) o o1 :
  (forall T (a : Arena T) e, f _ a = Err e -> P) -> reserve_with f o = (o1, false) -> P.
Proof.
  intros Hf. unfold reserve_with, try_arena.
  destruct (f _ (strings o)) eqn:E1; [|by intros _; eapply Hf]. destruct (f _ (tables o)) eqn:E2; [|by intros _; eapply Hf].
  destruct (f _ (closures o)) eqn:E3; [|by intros _; eapply Hf]. destruct (f _ (userdata o)) eqn:E4; [|by intros _; eapply Hf].
  destruct (f _ (threads o)) eqn:E5; [|by intros _; eapply Hf]. destruct (f _ (buffers o)) eqn:E6; [|by intros _; eapply Hf].
  destruct (f _ (protos o)) eqn:E7; [|by intros _; eapply Hf]. destruct (f _ (upvals o)) eqn:E8; [done|by intros _; eapply Hf].
Qed.

Lemma reserve_with_any (f : forall T, Arena T -> result Fault (Arena T)) o o1 b :
  reserve_with f o = (o1, b) -> on_arenas (fun T a a1 => a1 = a \/ f _ a = Ok a1) o o1.
Proof.
  unfold reserve_with, try_arena, on_arenas.
  destruct (f _ (strings o)); [|intros [= <- _]; cbn; by auto 9].
  destruct (f _ (tables o)); [|intros [= <- _]; cbn; by auto 9].
  destruct (f _ (closures o)); [|intros [= <- _]; cbn; by auto 9].
  destruct (f _ (userdata o)); [|intros [= <- _]; cbn; by auto 9].
  destruct (f _ (threads o)); [|intros [= <- _]; cbn; by auto 9].
  destruct (f _ (buffers o)); [|intros [= <- _]; cbn; by auto 9].
  destruct (f _ (protos o)); [|intros [= <- _]; cbn; by auto 9].
  destruct (f _ (upvals o)); intros [= <- _]; cbn; by auto 9.
Qed.

(** *** Sweeping *)

(** The hooks' state after the sweep of [o]. *)
Definition after_hooks (cycle : GcCycle) o (s : SweepState) : SweepState :=
  let run {T} (f : T -> SweepState -> SweepState) (a : Arena T) s := foldl (fun s v => f v s) s (dying cycle a) in
  run free_string (strings o) (run free_upval (upvals o) (run free_proto (protos o)
    (run free_buffer (buffers o) (run free_thread (threads o) (run free_userdata (userdata o)
    (run free_closure (closures o) (run free_table (tables o) s))))))).

Lemma sweep_with_spec cycle o o1 s :
  arenas_ok o -> on_arenas (fun T a a1 => reserve_arena cycle a = Ok a1) o o1 ->
  exists o' n, sweep_with (fun T => sweep_arena cycle (T := T) (S := SweepState)) o1 s =
      Ok ((o', after_hooks cycle o s), n) /\
    store_rel (fun T => collected cycle (T := T)) o o'.
Proof.
  intros (A1&A2&A3&A4&A5&A6&A7&A8) (R1&R2&R3&R4&R5&R6&R7&R8).
  destruct A1, A2, A3, A4, A5, A6, A7, A8. unfold sweep_with, after_hooks.
  edestruct (sweep_arena_spec cycle free_table) as (tabs & n1 & -> & C1); [eassumption..|]. cbn [result_bind].
  edestruct (sweep_arena_spec cycle free_closure) as (clos & n2 & -> & C2); [eassumption..|]. cbn [result_bind].
  edestruct (sweep_arena_spec cycle free_userdata) as (udat & n3 & -> & C3); [eassumption..|]. cbn [result_bind].
  edestruct (sweep_arena_spec cycle free_thread) as (thrs & n4 & -> & C4); [eassumption..|]. cbn [result_bind].
  edestruct (sweep_arena_spec cycle free_buffer) as (bufs & n5 & -> & C5); [eassumption..|]. cbn [result_bind].
  edestruct (sweep_arena_spec cycle free_proto) as (prts & n6 & -> & C6); [eassumption..|]. cbn [result_bind].
  edestruct (sweep_arena_spec cycle free_upval) as (upvs & n7 & -> & C7); [eassumption..|]. cbn [result_bind].
  edestruct (sweep_arena_spec cycle free_string) as (strs & n8 & -> & C8); [eassumption..|]. cbn [result_bind].
  do 2 eexists. split; [done|]. by split_and!.
Qed.

Lemma compact_all_spec cycle o o1 m :
  store_rel (fun T => collected cycle (T := T)) o o1 ->
  store_rel (fun T => collected cycle (T := T)) o (gc_compact_all o1 m).1.
Proof.
  intros (C1&C2&C3&C4&C5&C6&C7&C8). destruct SIZES. unfold gc_compact_all.
  destruct (Arena.gc_compact size_strings (strings o1) m) as [strs m1] eqn:E1.
  destruct (Arena.gc_compact size_tables (tables o1) m1) as [tabs m2] eqn:E2.
  destruct (Arena.gc_compact size_closures (closures o1) m2) as [clos m3] eqn:E3.
  destruct (Arena.gc_compact size_userdata (userdata o1) m3) as [udat m4] eqn:E4.
  destruct (Arena.gc_compact size_threads (threads o1) m4) as [thrs m5] eqn:E5.
  destruct (Arena.gc_compact size_buffers (buffers o1) m5) as [bufs m6] eqn:E6.
  destruct (Arena.gc_compact size_protos (protos o1) m6) as [prts m7] eqn:E7.
  destruct (Arena.gc_compact size_upvals (upvals o1) m7) as [upvs m8] eqn:E8. cbn.
  apply (f_equal fst) in E1, E2, E3, E4, E5, E6, E7, E8. cbn in *. subst.
  split_and!; by apply compact_collected.
Qed.

End Store.

(** ** Payloads and the interner *)

Lemma foldl_keeps {A S B} (f : S -> A -> S) (g : S -> B) l s :
  (forall s x, g (f s x) = g s) -> g (foldl f s l) = g s.
Proof. intros H. revert s. induction l as [|x l IH]; intros s; [done|]. cbn. by rewrite IH, H. Qed.

Lemma NoDup_omap_inj {A B C} (f : A -> option B) (g : B -> C) (l : list A) :
  NoDup l -> (forall x y u v, f x = Some u -> f y = Some v -> g u = g v -> x = y) ->
  NoDup (g <$> omap f l).
Proof.
  intros Hl Hf. induction Hl as [|x l Hx Hl IH]; [constructor|]. cbn.
  destruct (f x) as [u|] eqn:E; cbn; [|done]. constructor; [|done].
  rewrite list_elem_of_fmap. intros (v & Hv & Hin). apply list_elem_of_omap in Hin as (y & Hy & Hfy).
  by rewrite (Hf x y u v E Hfy Hv) in Hx.
Qed.

Lemma len_filter_ne (x : Z) (l : list Z) : NoDup l -> x ∈ l -> len (filter (fun y => y <> x) l) = len l - 1.
Proof.
  unfold len. induction 1 as [|y l Hy Hl IH]; [by intros ?%not_elem_of_nil|].
  rewrite elem_of_cons, filter_cons. intros [<-|Hx].
  - rewrite decide_False by naive_solver. cbn.
    assert (filter (fun y => y <> x) l = l) as ->; [|lia].
    clear IH Hl. induction l as [|z l IH]; [done|]. rewrite filter_cons, decide_True by set_solver.
    f_equal. apply IH. set_solver.
  - rewrite decide_True by (intros ->; done). cbn. specialize (IH Hx). lia.
Qed.

Lemma len_dying cycle {T} (a : Arena T) :
  len (dying cycle a) = len (filter (fun i => dies_at (touched cycle) a i = true) (sweep_list cycle a)).
Proof.
  unfold dying, len. induction (sweep_list cycle a) as [|i l IH]; [done|].
  rewrite filter_cons. cbn [omap list_omap].
  unfold dies_at, dying_value in *. destruct (slot a i) as [e|]; [|by rewrite decide_False].
  destruct (dies (touched cycle) e) eqn:Ed; [rewrite decide_True by done|by rewrite decide_False].
  unfold dies in Ed. apply andb_prop in Ed as [Ht%touched_live _]. unfold is_live in Ht.
  destruct (e_value e); [cbn|done]. lia.
Qed.

Lemma dying_Some cycle {T} (a : Arena T) v :
  v ∈ dying cycle a ->
  exists i e, slot a i = Some e /\ dies (touched cycle) e = true /\ e_value e = Some v.
Proof.
  intros (i & _ & Hd)%list_elem_of_omap. unfold dying_value in Hd.
  destruct (slot a i) as [e|] eqn:E; [|done]. destruct (dies _ e) eqn:Ed; [|done]. eauto.
Qed.

Lemma dying_intro cycle {T} sz (a : Arena T) i e v :
  arena_ok sz a -> slot a i = Some e -> dies (touched cycle) e = true -> e_value e = Some v -> v ∈ dying cycle a.
Proof.
  intros Hok He Hd Hv. apply list_elem_of_omap. exists i. split.
  - eapply dies_listed; try done. unfold dies in Hd. by apply andb_prop in Hd as [? _].
  - unfold dying_value. by rewrite He, Hd.
Qed.

Record payloads_ok (a : Arena LuaUserdata) (p : HostPayloadStore) : Prop := {
  py_present i u : Arena.gc_value a i = Some u -> ud_payload_id u ∈ pl_present p;
  py_inj i j u v : Arena.gc_value a i = Some u -> Arena.gc_value a j = Some v ->
    ud_payload_id u = ud_payload_id v -> i = j;
  py_nodup : NoDup (pl_present p);
  py_live : pl_live p = len (pl_present p);
}.

(** Interned handles resolve to their bytes. *)
Definition interner_ok (h : Heap) : Prop :=
  forall b g, interner h !! b = Some g -> heap_string h g = Some b.

Section Reclaim.
Context {AL : Allocator} {LAWS : AllocatorLaws AL}.
Context {MA : MapAllocator} {TS : TableSizes} {HS : HeapSizes} {SIZES : HeapSizesLaws HS}.

Definition reclaim_all (p : result Fault HostPayloadStore) (us : list LuaUserdata) : result Fault HostPayloadStore :=
  foldl (fun p u => let? q := p in reclaim q (ud_payload_id u)) p us.

Lemma reclaim_all_spec us p :
  NoDup (ud_payload_id <$> us) -> (forall u, u ∈ us -> ud_payload_id u ∈ pl_present p) ->
  NoDup (pl_present p) -> pl_live p = len (pl_present p) ->
  vec_len (pl_free p) + len us <= capacity (pl_free p) ->
  exists p', reclaim_all (Ok p) us = Ok p' /\ NoDup (pl_present p') /\ pl_live p' = len (pl_present p') /\
    (forall x, x ∈ pl_present p' <-> x ∈ pl_present p /\ x ∉ ud_payload_id <$> us).
Proof.
  revert p. induction us as [|u us IH]; intros p Hn Hin Hp Hl Hcap.
  { exists p. split_and!; try done. set_solver. }
  cbn in Hn. apply NoDup_cons in Hn as [Hu Hn]. rewrite len_cons in Hcap. pose proof (len_nonneg us).
  assert (Hx : ud_payload_id u ∈ pl_present p) by (apply Hin; set_solver).
  unfold reclaim_all. cbn [foldl result_bind]. unfold reclaim at 2. rewrite bool_decide_true by done. cbn [negb].
  rewrite push_reserved by lia. cbn [result_bind].
  destruct (Z.eqb_spec (pl_live p) 0) as [H0|H0].
  { exfalso. rewrite Hl in H0. unfold len in H0. destruct (pl_present p); [by apply not_elem_of_nil in Hx|done]. }
  set (p1 := mkPayloads _ _ _).
  destruct (IH p1) as (p' & E & H1 & H2 & H3).
  - done.
  - intros w Hw. cbn. apply list_elem_of_filter. split; [|apply Hin; set_solver].
    intros Heq. apply Hu. rewrite <- Heq. apply list_elem_of_fmap. eauto.
  - cbn. by apply NoDup_filter.
  - cbn. rewrite len_filter_ne by done. lia.
  - cbn. unfold vec_len in *. cbn. rewrite len_app. change (len [_]) with 1. lia.
  - exists p'. split_and!; try done. intros x. rewrite H3. cbn.
    rewrite list_elem_of_filter, not_elem_of_cons. tauto.
Qed.

Lemma userdata_hooks l s :
  ss_payloads (foldl (fun s v => free_userdata v s) s l) = reclaim_all (ss_payloads s) l.
Proof.
  unfold reclaim_all. revert s. induction l as [|u l IH]; intros s; [done|]. cbn [foldl]. by rewrite IH.
Qed.

Lemma after_hooks_payloads cycle o s :
  ss_payloads (after_hooks cycle o s) = reclaim_all (ss_payloads s) (dying cycle (userdata o)).
Proof.
  unfold after_hooks. rewrite (foldl_keeps _ ss_payloads) by (intros; unfold free_string; by case_match).
  rewrite !(foldl_keeps (fun s v => _ v s) ss_payloads (dying cycle (upvals o))) by done.
  rewrite (foldl_keeps _ ss_payloads (dying cycle (protos o))) by done.
  rewrite (foldl_keeps _ ss_payloads (dying cycle (buffers o))) by done.
  rewrite (foldl_keeps _ ss_payloads (dying cycle (threads o))).
  2: { intros s0 t. unfold free_thread. by rewrite (foldl_keeps _ ss_payloads) by (intros ? []; done). }
  rewrite userdata_hooks. by rewrite !(foldl_keeps _ ss_payloads) by done.
Qed.

Lemma string_hooks (l : list InternedString) s b :
  ss_interner (foldl (fun s v => free_string v s) s l) !! b =
  if decide (b ∈ l) then None else ss_interner s !! b.
Proof.
  revert s. induction l as [|c l IH]; intros s; [done|]. cbn [foldl]. rewrite IH.
  assert (Hone : ss_interner (free_string c s) !! b = if decide (b = c) then None else ss_interner s !! b).
  { unfold free_string. cbn. destruct (ss_interner s !! c) as [g|] eqn:Ec; cbn.
    - destruct (decide (b = c)) as [->|]; [by rewrite lookup_delete_eq|by rewrite lookup_delete_ne by congruence].
    - destruct (decide (b = c)) as [->|]; done. }
  rewrite Hone. destruct (decide (b = c)) as [->|Hbc].
  - rewrite (decide_True (P := c ∈ c :: l)) by set_solver. by case_decide.
  - apply decide_ext. set_solver.
Qed.

Lemma after_hooks_interner cycle o s b :
  ss_interner (after_hooks cycle o s) !! b =
  if decide (b ∈ dying cycle (strings o)) then None else ss_interner s !! b.
Proof.
  unfold after_hooks. rewrite string_hooks. rewrite !(foldl_keeps _ ss_interner); try done.
  intros s0 t. unfold free_thread. by rewrite (foldl_keeps _ ss_interner) by (intros ? []; done).
Qed.

End Reclaim.

(** ** The sweep of the heap *)

Section HeapSweep.
Context {AL : Allocator} {LAWS : AllocatorLaws AL}.
Context {MA : MapAllocator} {TS : TableSizes} {HS : HeapSizes} {SIZES : HeapSizesLaws HS}.
Implicit Types (h : Heap).

(** What the collector relies on between any two of its steps. *)
Record heap_ok h : Prop := {
  hk_arenas : arenas_ok (objects h);
  hk_tables : tables_wf h;
  hk_payloads : payloads_ok (userdata (objects h)) (payloads h);
  hk_interner : interner_ok h;
}.

(** The roots, the registry and the pacing are not touched. *)
Definition same_roots h h' : Prop :=
  h' = set_meter (meter h') (set_interner (interner h') (set_payloads (payloads h') (set_objects (objects h') h))).

Record swept_heap (cycle : GcCycle) h h' : Prop := {
  sw_roots : same_roots h h';
  sw_store : store_rel (fun T => collected cycle (T := T)) (objects h) (objects h');
  sw_payloads : payloads_ok (userdata (objects h')) (payloads h');
  sw_interner : interner_ok h';
}.

(** Reservations only: the same objects. *)
Record reserved_heap h h' : Prop := {
  rs_roots : same_roots h h';
  rs_store : store_rel (fun T sz a a' =>
    entries a' = entries a /\ gens a' = gens a /\ young a' = young a /\ bounded sz a') (objects h) (objects h');
  rs_payloads : pl_present (payloads h') = pl_present (payloads h) /\ pl_live (payloads h') = pl_live (payloads h);
  rs_interner : interner h' = interner h;
}.

Lemma collected_value cycle {T} sz (a a' : Arena T) i v :
  collected cycle sz a a' -> Arena.gc_value a' i = Some v ->
  exists e, slot a i = Some e /\ dies (touched cycle) e = false /\ e_value e = Some v.
Proof.
  intros HC. rewrite gc_value_slot. destruct (slot a' i) as [e'|] eqn:E; [|done]. cbn. intros Hv.
  destruct (col_only _ _ _ _ HC i e' E) as (e & He & Hl & Hd); [unfold is_live; by rewrite Hv|].
  destruct (col_survives _ _ _ _ HC i e He Hl Hd) as [Hs _]. rewrite E in Hs. injection Hs as ->.
  exists e. split_and!; try done. unfold swept in Hv. unfold dies in Hd.
  destruct (touched cycle e), (is_white (e_color e)); done.
Qed.

Lemma collected_payloads cycle sz a a' p p' :
  collected cycle sz a a' -> payloads_ok a p -> NoDup (pl_present p') -> pl_live p' = len (pl_present p') ->
  (forall x, x ∈ pl_present p' <-> x ∈ pl_present p /\ x ∉ ud_payload_id <$> dying cycle a) ->
  payloads_ok a' p'.
Proof.
  intros HC Hp Hn Hl Hx.
  assert (Hval : forall i u, Arena.gc_value a' i = Some u -> Arena.gc_value a i = Some u).
  { intros i u (e & He & _ & Hv)%(collected_value _ _ _ _ _ _ HC). by rewrite gc_value_slot, He. }
  split; try done.
  - intros i u Hu. apply Hx. split; [apply (py_present _ _ Hp i), Hval, Hu|].
    rewrite list_elem_of_fmap. intros (w & Hw & (j & e & He & Hd & Hv)%dying_Some).
    assert (i = j) as <-.
    { apply (py_inj _ _ Hp i j u w); [by apply Hval|by rewrite gc_value_slot, He|done]. }
    destruct (collected_value _ _ _ _ _ _ HC Hu) as (e2 & He2 & Hd2 & _). congruence.
  - intros i j u v Hu Hv. apply (py_inj _ _ Hp); by apply Hval.
Qed.

Lemma collected_interner cycle h h' sz :
  arena_ok sz (strings (objects h)) -> h_id h' = h_id h ->
  collected cycle sz (strings (objects h)) (strings (objects h')) -> interner_ok h ->
  (forall b, interner h' !! b = if decide (b ∈ dying cycle (strings (objects h))) then None else interner h !! b) ->
  interner_ok h'.
Proof.
  intros Hok Hid HC Hin Hix b g. rewrite Hix. case_decide as Hb; [done|]. intros Hg.
  specialize (Hin b g Hg). unfold heap_string in *. rewrite Hid. destruct (negb _); [done|].
  apply get_Some in Hin as [Hgen Hv]. apply get_Some.
  destruct (slot (strings (objects h)) (gc_index g)) as [e|] eqn:He; [|done]. cbn in Hv.
  destruct (dies (touched cycle) e) eqn:Hd; [destruct Hb; by eapply dying_intro|].
  destruct (col_survives _ _ _ _ HC (gc_index g) e He) as [Hs Hg']; [unfold is_live; by rewrite Hv|done|].
  rewrite Hs, Hg'. split; [done|]. cbn. unfold swept, dies in *.
  destruct (touched cycle e), (is_white (e_color e)); done.
Qed.

Lemma pending_minor_dying (a : Arena LuaUserdata) :
  Arena.gc_pending_minor_free_count a = len (dying Minor a).
Proof.
  rewrite len_dying. unfold Arena.gc_pending_minor_free_count. f_equal. apply filter_ext_in. intros i _.
  unfold Arena.pending_minor, dies_at, dies, touched, young_live, slot.
  destruct (av_get (entries a) i) as [e|]; [|done].
  destruct (is_live e), (is_young (e_age e)), (is_white (e_color e)); cbn; naive_solver.
Qed.

Lemma pending_dying (a : Arena LuaUserdata) : Arena.gc_pending_free_count a = len (dying Full a).
Proof. rewrite len_dying, <- pending_count. done. Qed.

(** The sweep never faults: it aborts before it frees anything, or completes. *)
Lemma sweep_spec cycle h :
  heap_ok h ->
  match sweep cycle h with
  | (h', Ok _) => swept_heap cycle h h'
  | (h', Err e) => e = GcAbort /\ out_of_memory /\ reserved_heap h h'
  end.
Proof.
  intros Hok. destruct Hok as [HA HT HP HI]. unfold sweep.
  replace (if is_minor cycle then Arena.gc_pending_minor_free_count (userdata (objects h))
           else Arena.gc_pending_free_count (userdata (objects h)))
    with (len (dying cycle (userdata (objects h))))
    by (destruct cycle; cbn [is_minor]; [by rewrite pending_minor_dying|by rewrite pending_dying]).
  set (n := len (dying cycle (userdata (objects h)))).
  unfold try_reserve_reclaims. destruct (try_reserve size_u32 (pl_free (payloads h)) n) as [fr|] eqn:Ef.
  2: { split; [done|]. split; [by eapply try_reserve_None|]. split; try done; [by destruct h|]. destruct HA as (?&?&?&?&?&?&?&?). by split_and!. }
  replace (if is_minor cycle then gc_reserve_free_lists_minor (objects h) else gc_reserve_free_lists (objects h))
    with (reserve_with (fun T => reserve_arena cycle (T := T)) (objects h)) by (by destruct cycle).
  destruct (reserve_with (fun T => reserve_arena cycle (T := T)) (objects h)) as [o1 b] eqn:Er.
  assert (Hany : store_rel (fun T sz a a' =>
    entries a' = entries a /\ gens a' = gens a /\ young a' = young a /\ bounded sz a') (objects h) o1).
  { pose proof Er as Er'. apply reserve_with_any, store_rel_on in Er'. pose proof (store_rel_and _ _ _ _ (store_rel_left (fun T sz a => bounded sz a) _ o1 HA) Er') as Hr.
    eapply store_rel_impl; [|exact Hr]. cbn. intros T sz a a' _ [[Hok Hlen] [->|E]]; [done|].
    apply (reserve_arena_same _ sz) in E as (? & E1 & ? & ?); [|done]. unfold bounded. rewrite E1. done. }
  destruct b; cbn [negb].
  2: { split; [done|]. split; [|by split].
       eapply reserve_with_fail; [|exact Er]. intros T a e. apply reserve_arena_fail. }
  apply reserve_with_ok in Er.
  set (p := mkPayloads (pl_present (payloads h)) fr (pl_live (payloads h))).
  set (s0 := mkSweep _ _ _).
  destruct (sweep_with_spec cycle (objects h) o1 s0 HA Er) as (o2 & freed & Es & HC).
  replace (if is_minor cycle then sweep_with (fun T f a s => Arena.gc_sweep_minor_with f a s) o1 s0
           else sweep_with (fun T f a s => Arena.gc_sweep_with f a s) o1 s0)
    with (sweep_with (fun T => sweep_arena cycle (T := T) (S := SweepState)) o1 s0) by (by destruct cycle).
  rewrite Es. clear Es Er Hany.
  set (c := if is_minor cycle then (o2, ss_meter (after_hooks cycle (objects h) s0))
            else gc_compact_all o2 (ss_meter (after_hooks cycle (objects h) s0))).
  assert (HC3 : store_rel (fun T => collected cycle (T := T)) (objects h) c.1).
  { unfold c. destruct (is_minor cycle); [done|]. by apply compact_all_spec. }
  destruct c as [o3 m]. cbn [fst] in HC3. rewrite after_hooks_payloads. cbn [ss_payloads s0].
  destruct (reclaim_all_spec (dying cycle (userdata (objects h))) p) as (p' & -> & P1 & P2 & P3).
  - apply (NoDup_omap_inj _ ud_payload_id).
    + destruct HA as (_&_&_&[? _]&_). by eapply sweep_list_nodup.
    + intros i j u v Hu Hv. unfold dying_value in Hu, Hv.
      destruct (slot _ i) as [e|] eqn:Ei; [|done]. destruct (slot _ j) as [e'|] eqn:Ej; [|done].
      destruct (dies _ e), (dies _ e'); try done. apply (py_inj _ _ HP); by rewrite gc_value_slot, ?Ei, ?Ej.
  - intros u (i & e & He & _ & Hv)%dying_Some. apply (py_present _ _ HP i). by rewrite gc_value_slot, He.
  - apply (py_nodup _ _ HP).
  - apply (py_live _ _ HP).
  - cbn. pose proof (try_reserve_capacity _ _ _ _ size_u32_pos Ef) as Hc.
    apply try_reserve_items in Ef. unfold vec_len in *. rewrite Ef. exact Hc.
  - split.
    + by destruct h.
    + exact HC3.
    + cbn. destruct HC3 as (_&_&_&HCu&_). by eapply (collected_payloads cycle).
    + pose proof HC3 as (HCs & _). destruct HA as ([? _] & _).
      eapply (collected_interner cycle h); try done. intros x. cbn. rewrite after_hooks_interner. done.
Qed.

End HeapSweep.
