(* ===== verification/GcCollect.v ===== *)
(** * GcCollect: a whole collection, phase by phase

    A completed cycle is marking ([GcTrace]), clearing ([GcWeak]), sweeping ([GcSweep]) and,
    for a minor one, settling what it marked. [completed] and [abandoned] chain the phases;
    each keeps [heap_ok]. [repaints] is the effect of the phases that touch only colors and
    old ages. *)

From Stdlib Require Import ZArith Lia.
From stdpp Require Import base numbers list option gmap sets.
From S2P Require Import Prelude RustVec Arena ArenaFacts ArenaTheorems Value LuaTable.
From S2P Require Import GcObjects Gc GcView GcTrace GcWeak GcSweep.
Import Gc.

(** ** Repainting: colors and old ages *)

Definition repainted_entry {T} (e e' : ArenaEntry T) : Prop :=
  e_value e' = e_value e /\ is_young (e_age e') = is_young (e_age e).

Definition repainted {T} (a a' : Arena T) : Prop :=
  gens a' = gens a /\ free_list a' = free_list a /\ young a' = young a /\
  charged (entries a') = charged (entries a) /\
  capacity (inner (entries a')) = capacity (inner (entries a)) /\
  av_len (entries a') = av_len (entries a) /\
  (forall i, option_relation repainted_entry (fun _ => False) (fun _ => False) (slot a i) (slot a' i)).

Lemma repainted_refl {T} (a : Arena T) : repainted a a.
Proof. split_and!; try done. intros i. by destruct (slot a i). Qed.

Lemma repainted_trans {T} (a b c : Arena T) : repainted a b -> repainted b c -> repainted a c.
Proof.
  intros (A1&A2&A3&A4&A5&A6&A7) (B1&B2&B3&B4&B5&B6&B7). split_and!; try congruence.
  intros i. specialize (A7 i). specialize (B7 i).
  destruct (slot a i), (slot b i), (slot c i); try done. destruct A7, B7. split; congruence.
Qed.

Lemma recolored_repainted {T} (a a' : Arena T) : recolored a a' -> repainted a a'.
Proof.
  intros H. pose proof (fun i => recolored_slot a a' i H) as Hs. destruct H as (A1&A2&A3&A4&A5&A6&_).
  split_and!; try done. intros i. specialize (Hs i).
  destruct (slot a i) as [e|], (slot a' i) as [e'|]; try done. destruct Hs as [Ha Hv].
  split; [done|]. by rewrite Ha.
Qed.

Lemma alter_repainted {T} (f : ArenaEntry T -> ArenaEntry T) i (a : Arena T) :
  (forall e, slot a i = Some e -> repainted_entry e (f e)) -> repainted a (Arena.alter_entry f i a).
Proof.
  intros Hf. split_and!; try done; [apply av_len_alter|]. intros j. rewrite slot_alter.
  case_decide as Hij; [subst j|by destruct (slot a j)].
  destruct (slot a i) as [e|]; [by apply Hf|done].
Qed.

Lemma reset_repainted {T} (a : Arena T) : repainted a (Arena.gc_reset_colors a).
Proof.
  split_and!; try done.
  - unfold av_len, vec_len, len. cbn. by rewrite length_fmap.
  - intros i. rewrite slot_reset_colors. destruct (slot a i) as [e|]; [|done]. cbn.
    by destruct (is_live e).
Qed.

Lemma repainted_ok {T} sz (a a' : Arena T) : bounded sz a -> repainted a a' -> bounded sz a'.
Proof.
  intros [Hok Hlen] (A1&A2&A3&A4&A5&A6&A7). split; [|lia].
  replace a' with (mkArena (entries a') (gens a) (free_list a) (young a)) by (destruct a'; cbn in *; congruence).
  apply pointwise_ok; [done| |done|].
  - destruct (ok_entries _ _ Hok) as (H1 & H2 & H3). unfold accounted_ok, vec_ok, av_len in *.
    rewrite A4, A5, A6. done.
  - intros i. specialize (A7 i). change (av_get (entries a') i) with (slot a' i).
    destruct (slot a i) as [e|], (slot a' i) as [e'|]; try done. destruct A7 as [Hv Ha].
    cbn. unfold entry_preserving, is_live. rewrite Hv. split; [done|]. intros _.
    destruct (e_age e), (e_age e'); cbn in Ha; naive_solver.
Qed.

Lemma repainted_value {T} (a a' : Arena T) i : repainted a a' -> Arena.gc_value a' i = Arena.gc_value a i.
Proof.
  intros (_&_&_&_&_&_&H). specialize (H i). rewrite !gc_value_slot.
  destruct (slot a i), (slot a' i); try done. by destruct H.
Qed.

Section Collect.
Context {AL : Allocator} {LAWS : AllocatorLaws AL}.
Context {MA : MapAllocator} {TS : TableSizes} {HS : HeapSizes} {SIZES : HeapSizesLaws HS}.
Implicit Types (h : Heap) (r c : GcRef).

Definition repaints h h' : Prop :=
  h' = set_objects (objects h') h /\ on_arenas (@repainted) (objects h) (objects h').

Lemma repaints_refl h : repaints h h.
Proof. split; [by destruct h|]. apply on_arenas_refl. intros. apply repainted_refl. Qed.

Lemma repaints_trans h1 h2 h3 : repaints h1 h2 -> repaints h2 h3 -> repaints h1 h3.
Proof.
  intros [E1 R1] [E2 R2]. split.
  - rewrite E2, E1 at 1. by destruct h1.
  - eapply on_arenas_trans; [|exact R1|exact R2]. intros T a b c. apply repainted_trans.
Qed.

Lemma recolors_repaints h h' : recolors h h' -> repaints h h'.
Proof. intros [E R]. split; [done|]. eapply on_arenas_impl; [|exact R]. intros T a a'. apply recolored_repainted. Qed.

Section Repaints.
Context {h h' : Heap} (H : repaints h h').

Lemma repaints_live r : live h' r = live h r.
Proof.
  symmetry. apply (pick_on _ _ _ _ _ _ (proj2 H)). intros T a a' i Ha.
  rewrite !occupied_value. by rewrite (repainted_value a a').
Qed.

Lemma repaints_generation r : generation h' r = generation h r.
Proof.
  symmetry. apply (pick_on _ _ _ _ _ _ (proj2 H)). intros T a a' i Ha. unfold gen.
  by destruct Ha as [-> _].
Qed.

Lemma repaints_young r : is_young (age h' r) = is_young (age h r).
Proof.
  symmetry. rewrite !age_pick. apply (pick_on_rel (fun x y => is_young x = is_young y) _ _ _ _ _ _ (proj2 H)).
  intros T a a' i (_&_&_&_&_&_&Ha). specialize (Ha i). unfold Arena.gc_age.
  change (av_get (entries a) i) with (slot a i). change (av_get (entries a') i) with (slot a' i).
  destruct (slot a i), (slot a' i); try done. by destruct Ha.
Qed.

Lemma repaints_outgoing r : outgoing h' r = outgoing h r.
Proof.
  destruct H as [_ (?&?&?&?&?&?&?&?)].
  destruct r; cbn; try done; by erewrite repainted_value by eassumption.
Qed.

Lemma repaints_ok : heap_ok h -> heap_ok h'.
Proof.
  intros [HA HT HP HI]. destruct H as [E R]. split.
  - pose proof (store_rel_and _ _ _ _ (store_rel_left (fun T sz a => bounded sz a) _ (objects h') HA)
      (proj2 (store_rel_on _ _ _) R)) as HR.
    assert (store_rel (fun T sz _ a' => bounded sz a') (objects h) (objects h')) as HB.
    { eapply store_rel_impl; [|exact HR]. cbn. intros T sz a a' _ [? ?]. by eapply repainted_ok. }
    exact HB.
  - intros i t. destruct R as (_ & R & _). rewrite (repainted_value _ _ _ R). apply HT.
  - destruct R as (_&_&_&R&_). assert (payloads h' = payloads h) as -> by (rewrite E; done).
    destruct HP as [P1 P2 P3 P4]. split; try done.
    + intros i u. rewrite (repainted_value _ _ _ R). apply P1.
    + intros i j u v. rewrite !(repainted_value _ _ _ R). apply P2.
  - intros b g. assert (interner h' = interner h) as -> by (rewrite E; done). intros Hg.
    specialize (HI b g Hg). unfold heap_string in *.
    assert (h_id h' = h_id h) as -> by (rewrite E; done). destruct (negb _); [done|].
    destruct R as [R _]. pose proof (repainted_value _ _ (gc_index g) R) as Hv.
    apply get_Some in HI as [Hgen Hsl]. apply get_Some. rewrite !gc_value_slot in Hv.
    split; [|by rewrite Hv]. unfold gen in *. by destruct R as [-> _].
Qed.

End Repaints.

(** Clearing keeps the heap well formed. *)
Lemma cleared_ok K h h' : weak_cleared K h h' -> heap_ok h -> heap_ok h'.
Proof.
  intros HC [HA HT HP HI]. pose proof HC as [E (A1&A2&A3&A4&A5&A6&A7)].
  assert (Es : strings (objects h') = strings (objects h) /\ userdata (objects h') = userdata (objects h)
    /\ payloads h' = payloads h /\ interner h' = interner h /\ h_id h' = h_id h) by (by rewrite E).
  destruct Es as (Es1 & Es2 & Es3 & Es4 & Es5). split.
  - destruct HA as (B1&B2&B3&B4&B5&B6&B7&B8). rewrite E. unfold arenas_ok, store_rel. cbn.
    split_and!; try done. split; [|destruct B2; lia].
    assert (tables (objects h') = mkArena (entries (tables (objects h'))) (gens (tables (objects h)))
      (free_list (tables (objects h))) (young (tables (objects h)))) as ->
      by (destruct (tables (objects h')); cbn in *; congruence).
    destruct B2 as [Hok Hlen]. apply pointwise_ok; [done| |done|].
    + destruct (ok_entries _ _ Hok) as (H1 & H2 & H3). unfold accounted_ok, vec_ok, av_len in *.
      rewrite A4, A5, A6. done.
    + intros i. specialize (A7 i). change (av_get (entries (tables (objects h'))) i) with (slot (tables (objects h')) i).
      destruct (slot (tables (objects h)) i) as [e|], (slot (tables (objects h')) i) as [e'|]; try done.
      destruct A7 as (_ & Ha & Hv). cbn. unfold entry_preserving, is_live.
      destruct (e_value e), (e_value e'); try done; by rewrite Ha.
  - exact (cleared_wf HC).
  - by rewrite Es2, Es3.
  - intros b g. rewrite Es4. unfold heap_string. rewrite Es1, Es5. apply HI.
Qed.

Lemma reserved_ok h h' : reserved_heap h h' -> heap_ok h -> heap_ok h'.
Proof.
  intros [E HR [P1 P2] HI'] [HA HT HP HI].
  destruct HR as ((S1&S2&S3&S4)&(T1&T2&T3&T4)&C&(U1&U2&U3&U4)&Th&B&Pr&Up). split.
  - by split_and!; try tauto.
  - intros i t. unfold Arena.gc_value. rewrite T1. apply HT.
  - destruct HP as [Q1 Q2 Q3 Q4]. split; rewrite ?P1, ?P2; try done.
    + intros i u. unfold Arena.gc_value. rewrite U1. apply Q1.
    + intros i j u v. unfold Arena.gc_value. rewrite U1. apply Q2.
  - intros b g. rewrite HI'. unfold heap_string, Arena.get.
    assert (h_id h' = h_id h) as -> by (rewrite E; done). rewrite S1, S2. apply HI.
Qed.

(** The store after a sweep. *)
Lemma swept_ok cycle h h' : swept_heap cycle h h' -> heap_ok h -> heap_ok h'.
Proof.
  intros [E HC HP HI] [HA HT _ _]. split; try done.
  - assert (store_rel (fun T sz _ a' => bounded sz a') (objects h) (objects h')) as HB; [|exact HB].
    pose proof (store_rel_and _ _ _ _ (store_rel_left (fun T sz a => bounded sz a) _ (objects h') HA) HC) as HR.
    eapply store_rel_impl; [|exact HR]. cbn. intros T sz a a' _ [[_ Hl] [Hok Hle _ _ _]]. split; [done|lia].
  - intros i t Ht. destruct HC as (_ & HC & _).
    destruct (collected_value _ _ _ _ _ _ HC Ht) as (e & He & _ & Hv). apply (HT i). by rewrite gc_value_slot, He.
Qed.

(** ** Settling a minor cycle *)

Lemma age_set_age h r a r' :
  age (set_age r a h) r' = if decide (r = r') then (if in_range h r then a else Old) else age h r'.
Proof.
  rewrite !age_pick. unfold set_age, in_range. rewrite objects_set_objects.
  case_decide as Hr; [subst r'|].
  - rewrite (pick_alter_eq _ (fun T e => Arena.set_age a e)).
    destruct r; cbn; unfold Arena.gc_age; change (av_get (entries ?a) ?i) with (slot a i);
      rewrite slot_alter, decide_True by done; unfold present; by destruct (slot _ _).
  - apply (pick_alter _ (fun T e => Arena.set_age a e)); [|done].
    intros T ar i j Hij. unfold Arena.gc_age. change (av_get (entries ?a) ?i) with (slot a i).
    by rewrite slot_alter, decide_False.
Qed.

Lemma color_set_age h r a r' : color (set_age r a h) r' = color h r'.
Proof.
  rewrite !color_pick. unfold set_age. rewrite objects_set_objects.
  destruct (decide (r = r')) as [->|Hr].
  - rewrite (pick_alter_eq _ (fun T e => Arena.set_age a e)).
    destruct r'; cbn; rewrite !gc_color_slot, slot_alter, decide_True by done; by destruct (slot _ _).
  - apply (pick_alter _ (fun T e => Arena.set_age a e)); [|done].
    intros T ar i j Hij. by rewrite !gc_color_slot, slot_alter, decide_False.
Qed.

(** Only old ages are exchanged for one another. *)
Lemma set_age_repaints h r a :
  is_young a = false -> is_young (age h r) = false -> repaints h (set_age r a h).
Proof.
  intros Ha Hr. split; [by destruct h|]. rewrite age_pick in Hr. unfold set_age. rewrite objects_set_objects.
  apply on_arena_rel_at; [intros; apply repainted_refl|].
  destruct r; cbn in *; apply alter_repainted; intros e He; unfold Arena.gc_age in Hr;
    unfold slot in He; rewrite He in Hr; split; try done; cbn; by rewrite Ha, Hr.
Qed.

Definition settled_one r h : Heap :=
  let h1 := set_color r White h in
  match age h1 r with OldRemembered => set_age r Old h1 | _ => h1 end.

Definition settled (M : list GcRef) h : Heap := foldl (fun h r => settled_one r h) h M.

Lemma settle_run M h : gfor (fun r (_ : unit) => settle r) M tt h = (settled M h, Ok tt).
Proof.
  revert h. induction M as [|r M IH]; intros h; [done|]. cbn [gfor settled foldl]. unfold gbind at 1.
  assert (settle r h = (settled_one r h, Ok tt)) as ->; [|by rewrite IH].
  unfold settle, settled_one, gbind, gmodify, gget. by destruct (age _ _).
Qed.

Lemma settled_one_spec r h :
  repaints h (settled_one r h) /\
  (forall x, color (settled_one r h) x = if decide (r = x) then White else color h x) /\
  (forall x, age (settled_one r h) x =
     if decide (r = x) then (match age h x with OldRemembered => Old | a => a end) else age h x).
Proof.
  unfold settled_one. pose proof (set_color_recolors h r White) as HR.
  assert (HC : forall x, color (set_color r White h) x = if decide (r = x) then White else color h x).
  { intros x. rewrite color_set_color. case_decide; [by destruct (in_range h r)|done]. }
  rewrite (recolors_age HR). destruct (age h r) eqn:Ea.
  1, 2: split_and!; [by apply recolors_repaints|done|];
    intros x; rewrite (recolors_age HR); case_decide; [subst; by rewrite Ea|done].
  split_and!.
  - eapply repaints_trans; [by apply recolors_repaints|]. apply set_age_repaints; [done|].
    by rewrite (recolors_age HR), Ea.
  - intros x. by rewrite color_set_age.
  - intros x. rewrite age_set_age, (recolors_age HR). case_decide; [subst; rewrite Ea|done].
    by destruct (in_range _ _).
Qed.

Lemma settled_spec M h :
  repaints h (settled M h) /\
  (forall x, color (settled M h) x = if decide (x ∈ M) then White else color h x) /\
  (forall x, age (settled M h) x =
     if decide (x ∈ M) then (match age h x with OldRemembered => Old | a => a end) else age h x).
Proof.
  revert h. induction M as [|r M IH]; intros h.
  { split_and!; [apply repaints_refl|..]; intros x; by rewrite decide_False by apply not_elem_of_nil. }
  change (settled (r :: M) h) with (settled M (settled_one r h)).
  destruct (IH (settled_one r h)) as (R1 & C1 & A1). destruct (settled_one_spec r h) as (R2 & C2 & A2).
  assert (Hx : forall x, x ∈ r :: M <-> r = x \/ x ∈ M) by (intros x; rewrite elem_of_cons; naive_solver).
  split_and!; [by eapply repaints_trans|..]; intros x; rewrite ?C1, ?A1, ?C2, ?A2;
    destruct (decide (x ∈ r :: M)) as [Hc|Hc]; rewrite Hx in Hc;
    destruct (decide (r = x)) as [Hr|Hr], (decide (x ∈ M)) as [Hm|Hm];
    solve [reflexivity | tauto | by destruct (age h x)].
Qed.

(** ** The two collections *)

Notation root_set cycle h roots := (cycle_roots cycle h roots).

(** A cycle that ran to its end. *)
Definition completed (cycle : GcCycle) (roots : list GcRef) h0 h' : Prop :=
  exists h1 h2 h3 W M,
    tri cycle h0 (root_set cycle h0 roots) (root_set cycle h0 roots) [] W M h1 /\
    weak_cleared (keeps cycle h1 W) h1 h2 /\ swept_heap cycle h2 h3 /\
    h' = match cycle with Full => h3 | Minor => settled M h3 end.

(** A cycle given up for want of memory; entries have only been cleared of a heap that was
    marked to the end. *)
Definition abandoned (cycle : GcCycle) (roots : list GcRef) h0 h' : Prop :=
  exists h1 h2 W,
    out_of_memory /\ recolors h0 h1 /\ weak_cleared (keeps cycle h1 W) h1 h2 /\ reserved_heap h2 h' /\
    (W = [] \/ exists W' M, (forall x, x ∈ W -> x ∈ W') /\
       tri cycle h0 (root_set cycle h0 roots) (root_set cycle h0 roots) [] W' M h1).

Lemma reserved_refl h : heap_ok h -> reserved_heap h h.
Proof.
  intros [HA _ _ _]. split; try done; [by destruct h|]. destruct HA as (?&?&?&?&?&?&?&?). by split_and!.
Qed.

Lemma abandoned_early cycle roots h0 h1 :
  heap_ok h0 -> recolors h0 h1 /\ out_of_memory -> abandoned cycle roots h0 h1.
Proof.
  intros Hok [HR Hoom]. assert (Hok1 : heap_ok h1) by (eapply repaints_ok; [by apply recolors_repaints|done]).
  exists h1, h1, []. split_and!; [done|done| |by apply reserved_refl|by left].
  eapply weak_cleared_ext; [|apply weak_cleared_refl, (hk_tables _ Hok1)]. unfold keeps. set_solver.
Qed.

(** The end of a cycle, from marked roots. *)
Definition finish (cycle : GcCycle) (queue : Vec GcRef) : GM Z :=
  let* w := trace cycle queue in
  let* freed := sweep cycle in
  let* _ := match cycle with
            | Full => gret tt
            | Minor => gfor (fun r (_ : unit) => settle r) (items (w_marked w)) tt
            end in
  gret freed.

Lemma finish_spec cycle roots h0 q :
  heap_ok h0 ->
  triple (tri cycle h0 (root_set cycle h0 roots) (root_set cycle h0 roots) (items q) [] [])
    (finish cycle q)
    (fun _ h => completed cycle roots h0 h) (fun e h => e = GcAbort /\ abandoned cycle roots h0 h).
Proof.
  intros Hok h HT. unfold finish, trace.
  pose proof (trace_loop_run cycle h0 roots (root_set cycle h0 roots) q h HT) as HL.
  unfold gbind, gget in *. destruct (trace_loop _ cycle _ h) as [h1 [w|e]].
  2: { destruct HL as [-> HR]. split; [done|]. by apply abandoned_early. }
  assert (Hok1 : heap_ok h1).
  { eapply repaints_ok; [|done]. apply recolors_repaints, (tri_recolors _ _ _ _ _ _ _ _ HL). }
  pose proof (clear_weak_tables_spec cycle (items (w_weak w)) h1 (hk_tables _ Hok1) h1 eq_refl) as HC.
  destruct (clear_weak_tables cycle (items (w_weak w)) h1) as [h2 [[]|e]].
  2: { destruct HC as (-> & Hoom & W' & HW & HC). split; [done|]. exists h1, h2, W'. split_and!; try done.
       - apply (tri_recolors _ _ _ _ _ _ _ _ HL).
       - apply reserved_refl. by eapply cleared_ok.
       - right. eauto. }
  cbn. pose proof (sweep_spec cycle h2 (cleared_ok _ _ _ HC Hok1)) as HS'.
  destruct (sweep cycle h2) as [h3 [freed|e]].
  - destruct cycle; cbn.
    + rewrite settle_run. by exists h1, h2, h3, (items (w_weak w)), (items (w_marked w)).
    + by exists h1, h2, h3, (items (w_weak w)), (items (w_marked w)).
  - destruct HS' as (-> & Hoom & HR). split; [done|]. exists h1, h2, (items (w_weak w)). split_and!; try done.
    + apply (tri_recolors _ _ _ _ _ _ _ _ HL).
    + right. eauto.
Qed.

Lemma major_spec roots h0 :
  heap_ok h0 -> all_white h0 ->
  triple (fun h => h = h0) (collect_major_inner roots)
    (fun _ h => completed Full roots h0 h) (fun e h => e = GcAbort /\ abandoned Full roots h0 h).
Proof.
  intros Hok Hw h ->. unfold collect_major_inner.
  pose proof (mark_heap_roots_spec Full h0 roots Hw vec_new ltac:(done) eq_refl h0 eq_refl) as HM.
  unfold gbind at 1. destruct (mark_heap_roots roots vec_new h0) as [h1 [q|e]].
  2: { destruct HM as [-> HR]. split; [done|]. by apply abandoned_early. }
  pose proof (finish_spec Full roots h0 q Hok h1 HM) as HF.
  unfold finish, gbind, gret in *. destruct (trace Full q h1) as [h2 [w|e]]; [|done].
  by destruct (sweep Full h2) as [h3 [freed|e]].
Qed.

Lemma minor_spec roots h0 :
  heap_ok h0 -> all_white h0 ->
  triple (fun h => h = h0) (collect_minor_inner roots)
    (fun _ h => completed Minor roots h0 h) (fun e h => e = GcAbort /\ abandoned Minor roots h0 h).
Proof.
  intros Hok Hw h ->. unfold collect_minor_inner.
  pose proof (minor_marking_spec h0 roots Hw h0 eq_refl) as HM.
  unfold gbind, gget in *. destruct (mark_heap_roots roots vec_new h0) as [h1 [q1|e]].
  2: { destruct HM as [-> HR]. split; [done|]. by apply abandoned_early. }
  destruct (mark_threads q1 h1) as [h2 [q2|e]].
  2: { destruct HM as [-> HR]. split; [done|]. by apply abandoned_early. }
  destruct (gfor mark_minor _ q2 h2) as [h3 [q3|e]].
  2: { destruct HM as [-> HR]. split; [done|]. by apply abandoned_early. }
  pose proof (finish_spec Minor roots h0 q3 Hok h3 HM) as HF.
  unfold finish, gbind, gret in HF. destruct (trace Minor q3 h3) as [h4 [w|e]]; [|done].
  destruct (sweep Minor h4) as [h5 [freed|e]]; [|done].
  by destruct (gfor _ (items (w_marked w)) tt h5) as [h6 [?|e]].
Qed.

End Collect.
