(* ===== verification/GcFacts.v ===== *)
(** * GcFacts: validity, and what a completed or abandoned cycle leaves

    [valid] is the declarative reading of the heap validator ([gc::validate]): every handle
    of a live object, every root and every anchor resolves, generation included. The
    lemmas describe the heap after a cycle in terms of the heap before it and of
    reachability. *)

From Stdlib Require Import ZArith Lia.
From stdpp Require Import base numbers list option gmap sets.
From S2P Require Import Prelude RustVec Arena ArenaFacts ArenaTheorems Value LuaTable.
From S2P Require Import GcObjects Gc GcView GcTrace GcWeak GcSweep GcCollect.
Import Gc.

(** ** Validity *)

Record valid (h : Heap) : Prop := {
  val_handles r c g : live h r = true -> (c, g) ∈ outgoing h r -> is_live_gen h c g = true;
  val_thread_id i t id : Arena.gc_value (threads (objects h)) i = Some t -> th_id t = Some id ->
    is_Some (heap_thread h id);
  val_string_mt g : string_metatable h = Some g -> is_Some (heap_table h g);
  val_vector_mt g : vector_metatable h = Some g -> is_Some (heap_table h g);
  val_error_mt g : structured_error_metatable h = Some g -> is_Some (heap_table h g);
  val_anchors v r g : v ∈ gc_anchors h -> from_value_gen v = Some (r, g) -> is_live_gen h r g = true;
}.

Lemma arena_get_live {T} (a : Arena T) i g :
  match Arena.get a i g with Some _ => true | None => false end = true <->
  occupied a i = true /\ gen a i = Some g.
Proof.
  rewrite occupied_value, gc_value_slot. unfold Arena.get, gen, slot. case_decide; [|naive_solver].
  destruct (av_get (entries a) i ≫= e_value); naive_solver.
Qed.

Lemma is_live_gen_spec h r g : is_live_gen h r g = true <-> live h r = true /\ generation h r = Some g.
Proof. destruct r; apply arena_get_live. Qed.

Lemma heap_table_spec h g :
  is_Some (heap_table h g) <-> gc_heap g = h_id h /\ is_live_gen h (GTable (gc_index g)) (gc_generation g) = true.
Proof.
  unfold heap_table, is_live_gen. destruct (Z.eqb_spec (gc_heap g) (h_id h)); cbn.
  - split; [intros [t Ht]; by rewrite Ht|]. intros [_ H]. destruct (Arena.get _ _ _); [eauto|done].
  - split; [intros [? ?]; done|]. intros [? _]. done.
Qed.

Lemma heap_thread_spec h g :
  is_Some (heap_thread h g) <-> gc_heap g = h_id h /\ is_live_gen h (GThread (gc_index g)) (gc_generation g) = true.
Proof.
  unfold heap_thread, is_live_gen. destruct (Z.eqb_spec (gc_heap g) (h_id h)); cbn.
  - split; [intros [t Ht]; by rewrite Ht|]. intros [_ H]. destruct (Arena.get _ _ _); [eauto|done].
  - split; [intros [? ?]; done|]. intros [? _]. done.
Qed.

Section Validate.
Context {AL : Allocator} {LAWS : AllocatorLaws AL}.
Context {MA : MapAllocator} {TS : TableSizes} {HS : HeapSizes} {SIZES : HeapSizesLaws HS}.
Implicit Types (h : Heap) (r c : GcRef).

Lemma validate_all_ok {X} (f : X -> result ValidateError unit) l :
  validate_all f l = Ok tt <-> forall x, x ∈ l -> f x = Ok tt.
Proof.
  induction l as [|x l IH]; cbn; [split; [set_solver|done]|].
  destruct (f x) as [[]|e] eqn:E; cbn.
  - rewrite IH. setoid_rewrite elem_of_cons. naive_solver.
  - split; [done|]. intros H. rewrite (H x) in E by set_solver. done.
Qed.

Lemma validate_object_ok h r :
  validate_object h r = Ok tt <-> forall c g, (c, g) ∈ outgoing h r -> is_live_gen h c g = true.
Proof.
  unfold validate_object, validate_handles_of.
  destruct (filter _ (outgoing h r)) as [|[c g] l] eqn:E.
  - split; [|done]. intros _ c g Hin. destruct (is_live_gen h c g) eqn:El; [done|].
    assert ((c, g) ∈ filter (fun x => is_live_gen h x.1 x.2 = false) (outgoing h r)) as Hx
      by (by apply list_elem_of_filter).
    rewrite E in Hx. by apply not_elem_of_nil in Hx.
  - split; [done|]. intros H.
    assert ((c, g) ∈ filter (fun x => is_live_gen h x.1 x.2 = false) (outgoing h r)) as Hx
      by (rewrite E; set_solver).
    apply list_elem_of_filter in Hx as [Hf Hin]. cbn in Hf. rewrite (H c g Hin) in Hf. done.
Qed.

Lemma seqZ_slot {T} (a : Arena T) i v :
  av_len (entries a) < 4294967296 -> Arena.gc_value a i = Some v ->
  i ∈ seqZ 0 (as_u32 (Arena.arena_len a)).
Proof.
  intros Hl. rewrite gc_value_slot. destruct (slot a i) as [e|] eqn:E; [|done]. intros _.
  apply av_get_range in E. apply elem_of_seqZ. unfold Arena.arena_len.
  rewrite as_u32_small by (split; lia). lia.
Qed.

Lemma validate_arena_ok {T} h (kind : Z -> GcRef) (a : Arena T) :
  av_len (entries a) < 4294967296 ->
  validate_arena h kind a = Ok tt <->
  forall i v, Arena.gc_value a i = Some v -> validate_object h (kind i) = Ok tt.
Proof.
  intros Hl. unfold validate_arena. rewrite validate_all_ok. split.
  - intros H i v Hv. specialize (H i (seqZ_slot a i v Hl Hv)). by rewrite Hv in H.
  - intros H i _. destruct (Arena.gc_value a i) as [v|] eqn:E; [|done]. by eapply H.
Qed.

Lemma validate_thread_ok h i :
  validate_thread h i = Ok tt <->
  forall t, Arena.gc_value (threads (objects h)) i = Some t ->
    validate_object h (GThread i) = Ok tt /\ (forall id, th_id t = Some id -> is_Some (heap_thread h id)).
Proof.
  unfold validate_thread. destruct (Arena.gc_value (threads (objects h)) i) as [t|]; [|naive_solver].
  destruct (validate_object h (GThread i)) as [[]|e]; cbn.
  - destruct (th_id t) as [id|] eqn:E; [|naive_solver].
    destruct (heap_thread h id) eqn:Eh; [naive_solver|]. split; [done|].
    intros H. destruct (H t eq_refl) as [_ Hx]. destruct (Hx id E) as [? ?]. congruence.
  - split; [done|]. intros H. by destruct (H t eq_refl) as [? _].
Qed.

Lemma validate_root_ok h mt e :
  validate_root h mt e = Ok tt <-> forall g, mt = Some g -> is_Some (heap_table h g).
Proof.
  unfold validate_root. destruct mt as [g|]; [|naive_solver].
  destruct (heap_table h g) eqn:E; [naive_solver|]. split; [done|]. intros H. destruct (H g eq_refl). congruence.
Qed.

Lemma validate_anchor_ok h v :
  validate_anchor h v = Ok tt <-> forall r g, from_value_gen v = Some (r, g) -> is_live_gen h r g = true.
Proof.
  unfold validate_anchor. destruct (from_value_gen v) as [[r g]|]; [|naive_solver].
  destruct (is_live_gen h r g) eqn:E; [naive_solver|]. split; [done|]. intros H. rewrite (H r g) in E by done. done.
Qed.

(** The validator decides [valid]. *)
Lemma validate_valid h : arenas_ok (objects h) -> validate h = Ok tt <-> valid h.
Proof.
  intros (_&[_ L1]&[_ L2]&_&[_ L3]&_&[_ L4]&[_ L5]). unfold validate.
  assert (Hseq : forall (a b : result ValidateError unit), (let? _ := a in b) = Ok tt <-> a = Ok tt /\ b = Ok tt).
  { intros [[]|e] b; cbn; naive_solver. }
  rewrite !Hseq, !validate_arena_ok, !validate_root_ok, !validate_all_ok by done.
  setoid_rewrite validate_thread_ok. setoid_rewrite validate_anchor_ok. setoid_rewrite validate_object_ok.
  split.
  - intros (HT & HC & HP & HU & HTh & H1 & H2 & H3 & HA). split; try done; [| |eauto].
    + intros r c g Hl Hin. unfold live in Hl.
      destruct r as [i|i|i|i|i|i|i|i]; cbn in Hl; try (by apply not_elem_of_nil in Hin);
        rewrite occupied_value in Hl;
        (destruct (Arena.gc_value _ i) as [v|] eqn:Ev; [|done]); eauto.
      destruct (HTh i (seqZ_slot _ _ _ L3 Ev) v Ev) as [Hx _]. eauto.
    + intros i t id Ht Hid. destruct (HTh i (seqZ_slot _ _ _ L3 Ht) t Ht) as [_ Hx]. eauto.
  - intros [V1 V2 V3 V4 V5 V6].
    assert (Hv : forall r, live h r = true -> forall c g, (c, g) ∈ outgoing h r -> is_live_gen h c g = true) by eauto.
    split_and!; try done; try (intros i v Hi; apply Hv; unfold live; cbn; by rewrite occupied_value, Hi).
    + intros i _ t Ht. split; [|eauto]. apply Hv. unfold live. cbn. by rewrite occupied_value, Ht.
    + intros v Hin r g. by apply V6.
Qed.

End Validate.

(** ** What a sweep keeps *)

(** A sweep considers every live object, or the young ones. *)
Definition sweepable (cycle : GcCycle) (a : Age) : bool :=
  match cycle with Full => true | Minor => is_young a end.

Lemma touched_sweepable cycle {T} (e : ArenaEntry T) :
  is_live e = true -> touched cycle e = sweepable cycle (e_age e).
Proof. intros Hl. destruct cycle; cbn; [unfold young_live; by rewrite Hl|done]. Qed.

Lemma gc_age_slot {T} (a : Arena T) i :
  Arena.gc_age a i = match slot a i with Some e => e_age e | None => Old end.
Proof. done. Qed.

Lemma collected_occupied cycle {T} sz (a a' : Arena T) i :
  collected cycle sz a a' ->
  occupied a' i = true <->
  occupied a i = true /\ (sweepable cycle (Arena.gc_age a i) = true -> Arena.gc_color a i <> White).
Proof.
  intros HC. rewrite gc_age_slot, gc_color_slot. unfold occupied at 1. split.
  - destruct (slot a' i) as [e'|] eqn:E'; [|done]. intros Hl'.
    destruct (col_only _ _ _ _ HC i e' E' Hl') as (e & He & Hl & Hd). unfold occupied. rewrite He.
    split; [done|]. intros Hs Hw. unfold dies in Hd. by rewrite touched_sweepable, Hs, Hw in Hd.
  - unfold occupied. destruct (slot a i) as [e|] eqn:He; [|naive_solver]. intros [Hl Hs].
    assert (dies (touched cycle) e = false) as Hd.
    { unfold dies. rewrite touched_sweepable by done. destruct (sweepable _ _); [|done]. cbn.
      specialize (Hs eq_refl). by destruct (e_color e). }
    destruct (col_survives _ _ _ _ HC i e He Hl Hd) as [-> _].
    destruct (is_live (swept (touched cycle) e)) eqn:E; [done|].
    apply swept_dead in E; [|apply touched_live]. destruct E; congruence.
Qed.

(** A survivor keeps its generation and value; a swept one turns white and old. *)
Lemma collected_survivor cycle {T} sz (a a' : Arena T) i :
  collected cycle sz a a' -> occupied a' i = true ->
  gen a' i = gen a i /\ Arena.gc_value a' i = Arena.gc_value a i /\
  Arena.gc_color a' i = (if sweepable cycle (Arena.gc_age a i) then White else Arena.gc_color a i) /\
  Arena.gc_age a' i = (if sweepable cycle (Arena.gc_age a i) then Old else Arena.gc_age a i).
Proof.
  intros HC Ho. unfold occupied in Ho. destruct (slot a' i) as [e'|] eqn:E'; [|done].
  destruct (col_only _ _ _ _ HC i e' E' Ho) as (e & He & Hl & Hd).
  destruct (col_survives _ _ _ _ HC i e He Hl Hd) as [Hs Hg]. rewrite !gc_value_slot, !gc_color_slot, !gc_age_slot.
  rewrite E' in Hs. injection Hs as ->. rewrite E', He. cbn.
  unfold swept, dies in *. rewrite touched_sweepable in * by done.
  destruct (sweepable cycle (e_age e)), (is_white (e_color e)); done.
Qed.

Section Sweep.
Context {AL : Allocator} {LAWS : AllocatorLaws AL}.
Context {MA : MapAllocator} {TS : TableSizes} {HS : HeapSizes} {SIZES : HeapSizesLaws HS}.
Context {cycle : GcCycle} {h h' : Heap} (H : swept_heap cycle h h').

Lemma swept_live r :
  live h' r = true <->
  live h r = true /\ (sweepable cycle (age h r) = true -> color h r <> White).
Proof.
  destruct (sw_store _ _ _ H) as (?&?&?&?&?&?&?&?).
  destruct r; eapply collected_occupied; eassumption.
Qed.

Lemma swept_survivor r :
  live h' r = true ->
  generation h' r = generation h r /\
  color h' r = (if sweepable cycle (age h r) then White else color h r) /\
  age h' r = (if sweepable cycle (age h r) then Old else age h r).
Proof.
  destruct (sw_store _ _ _ H) as (?&?&?&?&?&?&?&?).
  destruct r; intros Hl; unfold live in Hl; cbn in Hl;
    (eapply collected_survivor in Hl as (? & _ & ? & ?); [|eassumption]); done.
Qed.

Lemma swept_outgoing r : live h' r = true -> outgoing h' r = outgoing h r.
Proof.
  destruct (sw_store _ _ _ H) as (?&?&?&?&?&?&?&?).
  destruct r; intros Hl; try done; unfold live in Hl; cbn in Hl;
    (eapply collected_survivor in Hl as (_ & Hv & _ & _); [|eassumption]); cbn; by rewrite Hv.
Qed.

Lemma swept_table i t' :
  Arena.gc_value (tables (objects h')) i = Some t' -> Arena.gc_value (tables (objects h)) i = Some t'.
Proof.
  destruct (sw_store _ _ _ H) as (_&HC&_). intros Hv.
  destruct (collected_value _ _ _ _ _ _ HC Hv) as (e & He & _ & Hx). by rewrite gc_value_slot, He.
Qed.

Lemma swept_thread i t' :
  Arena.gc_value (threads (objects h')) i = Some t' -> Arena.gc_value (threads (objects h)) i = Some t'.
Proof.
  destruct (sw_store _ _ _ H) as (_&_&_&_&HC&_). intros Hv.
  destruct (collected_value _ _ _ _ _ _ HC Hv) as (e & He & _ & Hx). by rewrite gc_value_slot, He.
Qed.

End Sweep.

(** ** The objects of a heap *)

Inductive Object : Type :=
| OStr (s : InternedString)
| OTable (t : LuaTable)
| OClosure (c : Closure)
| OUserdata (u : LuaUserdata)
| OThread (t : Thread)
| OBuffer (b : LuaBuffer)
| OProto (p : Proto)
| OUpVal (u : UpVal).

Definition object (h : Heap) (r : GcRef) : option Object :=
  let o := objects h in
  match r with
  | GStr i => OStr <$> Arena.gc_value (strings o) i
  | GTable i => OTable <$> Arena.gc_value (tables o) i
  | GClosure i => OClosure <$> Arena.gc_value (closures o) i
  | GUserdata i => OUserdata <$> Arena.gc_value (userdata o) i
  | GThread i => OThread <$> Arena.gc_value (threads o) i
  | GBuffer i => OBuffer <$> Arena.gc_value (buffers o) i
  | GProto i => OProto <$> Arena.gc_value (protos o) i
  | GUpVal i => OUpVal <$> Arena.gc_value (upvals o) i
  end.

(** The object under [r] is the one it was, but for the table entries [K] drops. *)
Definition preserved (K : Entry -> Prop) (h h' : Heap) (r : GcRef) : Prop :=
  generation h' r = generation h r /\
  match r with
  | GTable i =>
      exists t t', Arena.gc_value (tables (objects h)) i = Some t /\
        Arena.gc_value (tables (objects h')) i = Some t' /\ metatable t' = metatable t /\
        (forall kv, kv ∈ LuaTable.for_each_entry t' <-> kv ∈ LuaTable.for_each_entry t /\ K kv)
  | _ => object h' r = object h r
  end.

Lemma live_object h r : live h r = true <-> is_Some (object h r).
Proof.
  unfold live. destruct r; cbn; rewrite occupied_value, fmap_is_Some;
    (destruct (Arena.gc_value _ _); split; [intros _; eauto|done|done|by intros [? ?]]).
Qed.

Section Objects.
Context {AL : Allocator} {LAWS : AllocatorLaws AL}.
Context {MA : MapAllocator} {TS : TableSizes} {HS : HeapSizes} {SIZES : HeapSizesLaws HS}.
Implicit Types (h : Heap) (r c : GcRef).

Lemma repaints_object h h' r : repaints h h' -> object h' r = object h r.
Proof.
  intros [_ (?&?&?&?&?&?&?&?)]. destruct r; cbn; by erewrite repainted_value by eassumption.
Qed.

Lemma reserved_object h h' r :
  reserved_heap h h' -> object h' r = object h r /\ live h' r = live h r /\ generation h' r = generation h r /\
  color h' r = color h r /\ age h' r = age h r /\ outgoing h' r = outgoing h r.
Proof.
  intros HR. destruct (rs_store _ _ HR) as ((A1&A2&_)&(B1&B2&_)&(C1&C2&_)&(D1&D2&_)&(E1&E2&_)&(F1&F2&_)&(G1&G2&_)&(K1&K2&_)).
  destruct r; cbn; unfold Arena.gc_value, live, generation, Arena.gc_color, Arena.gc_age; cbn;
    unfold occupied, slot, gen; rewrite ?A1, ?A2, ?B1, ?B2, ?C1, ?C2, ?D1, ?D2, ?E1, ?E2, ?F1, ?F2, ?G1, ?G2, ?K1, ?K2; done.
Qed.

Lemma swept_object cycle h h' r : swept_heap cycle h h' -> live h' r = true -> object h' r = object h r.
Proof.
  intros HS' Hl. destruct (sw_store _ _ _ HS') as (?&?&?&?&?&?&?&?).
  destruct r; unfold live in Hl; cbn in Hl;
    (eapply collected_survivor in Hl as (_ & Hv & _ & _); [|eassumption]); cbn; by rewrite Hv.
Qed.

(** Clearing touches the entries of weak tables. *)
Lemma cleared_preserved K h h' r :
  weak_cleared K h h' -> live h r = true ->
  preserved (match r with GTable i => K i | _ => fun _ => True end) h h' r.
Proof.
  intros HC Hl. split; [by apply (cleared_generation HC)|]. pose proof HC as [E _].
  destruct r as [i|i|i|i|i|i|i|i]; try (by rewrite E).
  rewrite <- (cleared_live HC) in Hl. unfold live in Hl. cbn in Hl. rewrite occupied_value in Hl.
  destruct (Arena.gc_value (tables (objects h')) i) as [t'|] eqn:Et; [|done].
  destruct (cleared_table HC i t' Et) as (t & Ht & (_ & Hm & Hk)). exists t, t'. done.
Qed.

Lemma cleared_outgoing K h h' r c g :
  weak_cleared K h h' -> (c, g) ∈ outgoing h' r ->
  (c, g) ∈ outgoing h r /\
  (forall i t, r = GTable i -> Arena.gc_value (tables (objects h)) i = Some t ->
     (exists kv, kv ∈ LuaTable.for_each_entry t /\ K i kv /\
        ((c, g) ∈ visit_value kv.1 \/ (c, g) ∈ visit_value kv.2)) \/
     (c, g) ∈ visit_opt GTable (metatable t)).
Proof.
  intros HC Hin. pose proof HC as [E _].
  destruct r as [i|i|i|i|i|i|i|i]; try (rewrite E in Hin; done).
  cbn in Hin. destruct (Arena.gc_value (tables (objects h')) i) as [t'|] eqn:Et; [|by apply not_elem_of_nil in Hin].
  destruct (cleared_table HC i t' Et) as (t & Ht & (_ & Hm & Hk)).
  apply table_trace_entries in Hin. rewrite Hm in Hin. setoid_rewrite Hk in Hin.
  cbn. rewrite Ht. split.
  - apply table_trace_entries. naive_solver.
  - intros j u [= <-] Hu. rewrite Ht in Hu. injection Hu as <-. naive_solver.
Qed.

End Objects.
