(* ===== verification/GcCycles.v ===== *)
(** * GcCycles: the invariant of the collector and its cycles

    [gc_inv] is what holds between collections: a well-formed, white, valid heap that obeys
    the generational discipline, unless the next collection is forced to be a major one.
    [survives] and [kept_entry] say, in terms of reachability before the cycle, what a
    completed cycle keeps. *)

From Stdlib Require Import ZArith Lia.
From stdpp Require Import base numbers list option gmap sets.
From S2P Require Import Prelude RustVec Arena ArenaFacts ArenaTheorems Value LuaTable.
From S2P Require Import GcObjects Gc GcView GcTrace GcWeak GcSweep GcCollect GcFacts.
Import Gc.

Definition is_thread (r : GcRef) : bool := match r with GThread _ => true | _ => false end.

(** Old objects the barrier has not seen point to no young object; those it has seen are in
    the remembered set. Threads are always traced and need no barrier. *)
Record generational (h : Heap) : Prop := {
  gen_old p c g : live h p = true -> is_thread p = false -> age h p = Old ->
    (c, g) ∈ outgoing h p -> live h c = true -> age h c <> Young;
  gen_remembered r : live h r = true -> age h r = OldRemembered -> r ∈ items (gc_remembered h);
}.

(** A thread's id is its own slot. *)
Definition thread_ids (h : Heap) : Prop :=
  forall i t id, Arena.gc_value (threads (objects h)) i = Some t -> th_id t = Some id -> gc_index id = i.

Section Spec.
Context {AL : Allocator} {MA : MapAllocator} {TS : TableSizes} {HS : HeapSizes}.

Record gc_inv (h : Heap) : Prop := {
  inv_ok : heap_ok h;
  inv_white : all_white h;
  inv_valid : valid h;
  inv_ids : thread_ids h;
  inv_gen : gc_force_major h = true \/ generational h;
}.

Definition cycle_reach (cycle : GcCycle) (h : Heap) (roots : list GcRef) : GcRef -> Prop :=
  reach cycle h (cycle_roots cycle h roots).

Definition survives (cycle : GcCycle) (h : Heap) (roots : list GcRef) (r : GcRef) : Prop :=
  live h r = true /\ (sweepable cycle (age h r) = true -> cycle_reach cycle h roots r).

(** A weakly held value stays if it is a string, no object, or survives. *)
Definition holds (cycle : GcCycle) (h : Heap) (roots : list GcRef) (v : RawValue) : Prop :=
  forall c, is_string v = false -> from_value v = Some c -> survives cycle h roots c.

Definition kept_entry (cycle : GcCycle) (h : Heap) (roots : list GcRef) (r : GcRef) (kv : Entry) : Prop :=
  forall i wk wv, weak_of h r = Some (i, wk, wv) ->
    (wk = true -> holds cycle h roots kv.1) /\ (wv = true -> holds cycle h roots kv.2).

End Spec.

(** ** The collector reads only these fields *)

Definition same_view (h h' : Heap) : Prop :=
  objects h' = objects h /\ payloads h' = payloads h /\ registry h' = registry h /\
  interner h' = interner h /\ h_id h' = h_id h /\ string_metatable h' = string_metatable h /\
  vector_metatable h' = vector_metatable h /\
  structured_error_metatable h' = structured_error_metatable h.

Section View.
Context {AL : Allocator} {LAWS : AllocatorLaws AL}.
Context {MA : MapAllocator} {TS : TableSizes} {HS : HeapSizes} {SIZES : HeapSizesLaws HS}.
Implicit Types (h : Heap) (r c : GcRef).

Lemma view_reads h h' r :
  same_view h h' -> live h' r = live h r /\ generation h' r = generation h r /\ color h' r = color h r /\
  age h' r = age h r /\ outgoing h' r = outgoing h r /\ object h' r = object h r.
Proof. intros (E & _). unfold live, generation, color, age, outgoing, object. by rewrite E. Qed.

Lemma view_live_gen h h' r g : same_view h h' -> is_live_gen h' r g = is_live_gen h r g.
Proof. intros (E & _). unfold is_live_gen. by rewrite E. Qed.

Lemma view_valid h h' : same_view h h' -> valid h -> valid h'.
Proof.
  intros HV [V1 V2 V3 V4 V5 V6]. pose proof (fun r => view_reads h h' r HV) as Hr.
  pose proof (fun r g => view_live_gen h h' r g HV) as Hg. destruct HV as (E1&E2&E3&E4&E5&E6&E7&E8). split.
  - intros r c g. rewrite Hg. destruct (Hr r) as (-> & _ & _ & _ & -> & _). apply V1.
  - intros i t id. unfold heap_thread. rewrite E1, E5. apply V2.
  - intros g. unfold heap_table. rewrite E1, E5, E6. apply V3.
  - intros g. unfold heap_table. rewrite E1, E5, E7. apply V4.
  - intros g. unfold heap_table. rewrite E1, E5, E8. apply V5.
  - intros v r g. unfold gc_anchors. rewrite Hg, E3. apply V6.
Qed.

Lemma view_ok h h' : same_view h h' -> heap_ok h -> heap_ok h'.
Proof.
  intros (E1&E2&E3&E4&E5&_) [H1 H2 H3 H4]. split.
  - by rewrite E1.
  - unfold tables_wf. by rewrite E1.
  - by rewrite E1, E2.
  - unfold interner_ok, heap_string. by rewrite E1, E4, E5.
Qed.

Lemma view_white h h' : same_view h h' -> all_white h -> all_white h'.
Proof. intros HV H r. destruct (view_reads h h' r HV) as (-> & _ & -> & _). apply H. Qed.

Lemma view_ids h h' : same_view h h' -> thread_ids h -> thread_ids h'.
Proof. intros (E&_) H. unfold thread_ids. by rewrite E. Qed.

(** What an unmarked survivor of a minor cycle points to survives too. *)
Lemma old_edge h0 roots r c g :
  generational h0 -> arenas_ok (objects h0) -> survives Minor h0 roots r ->
  ~ cycle_reach Minor h0 roots r -> (c, g) ∈ outgoing h0 r -> live h0 c = true -> age h0 c <> Young.
Proof.
  intros HG HA [Hl Hs] Hn Hin Hlc.
  assert (Hr : forall x, x ∈ cycle_roots Minor h0 roots -> cycle_reach Minor h0 roots x) by (intros; by apply reach_root).
  eapply (gen_old _ HG r); try done.
  - destruct (is_thread r) eqn:Et; [|done]. destruct r as [| | | |i| | |]; try done. destruct Hn. apply Hr.
    unfold cycle_roots, minor_roots, resident_threads. rewrite !elem_of_app. right. left.
    apply list_elem_of_fmap. exists i. split; [done|]. apply list_elem_of_filter. split; [exact Hl|].
    unfold live in Hl. cbn in Hl. rewrite occupied_value in Hl.
    destruct (Arena.gc_value (threads (objects h0)) i) eqn:E; [|done].
    destruct HA as (_&_&_&_&[_ HL]&_). by eapply seqZ_slot.
  - destruct (age h0 r) eqn:Ea; [|done|].
    + destruct Hn. apply Hs. done.
    + destruct Hn. apply Hr. unfold cycle_roots, minor_roots. rewrite !elem_of_app. right. right.
      apply list_elem_of_filter. split; [|by apply (gen_remembered _ HG)]. unfold admits. rewrite Ea. apply orb_true_r.
Qed.

End View.

(** ** The fields no phase writes *)

Definition frame (h h' : Heap) : Prop :=
  h_id h' = h_id h /\ registry h' = registry h /\ string_metatable h' = string_metatable h /\
  vector_metatable h' = vector_metatable h /\
  structured_error_metatable h' = structured_error_metatable h /\
  metamethod_names h' = metamethod_names h.

#[export] Instance frame_preorder : PreOrder frame.
Proof. split; [intros h; by unfold frame|]. unfold frame. intros h1 h2 h3. intuition congruence. Qed.

Lemma recolors_frame h h' : recolors h h' -> frame h h'.
Proof. intros [-> _]. by unfold frame. Qed.
Lemma repaints_frame h h' : repaints h h' -> frame h h'.
Proof. intros [-> _]. by unfold frame. Qed.
Lemma cleared_frame K h h' : weak_cleared K h h' -> frame h h'.
Proof. intros [-> _]. by unfold frame. Qed.
Lemma same_roots_frame h h' : same_roots h h' -> frame h h'.
Proof. intros ->. by unfold frame. Qed.

(** A heap with the same roots and the same live handles, and no new edges, is as valid. *)
Lemma valid_transfer h h' :
  frame h h' -> (forall r, live h' r = live h r /\ generation h' r = generation h r) ->
  (forall r c g, (c, g) ∈ outgoing h' r -> (c, g) ∈ outgoing h r) ->
  (forall i t, Arena.gc_value (threads (objects h')) i = Some t -> Arena.gc_value (threads (objects h)) i = Some t) ->
  valid h -> valid h'.
Proof.
  intros (F1&F2&F3&F4&F5&_) Hr Ho Ht [V1 V2 V3 V4 V5 V6].
  assert (Hg : forall r g, is_live_gen h' r g = is_live_gen h r g).
  { intros r g. apply eq_true_iff_eq. rewrite !is_live_gen_spec. by destruct (Hr r) as [-> ->]. }
  assert (Htab : forall g, is_Some (heap_table h g) -> is_Some (heap_table h' g))
    by (intros g; by rewrite !heap_table_spec, Hg, F1).
  split.
  - intros r c g Hl Hin%Ho. rewrite Hg. apply (V1 r); [|done]. by destruct (Hr r) as [<- _].
  - intros i t id Hi%Ht Hid. pose proof (V2 i t id Hi Hid) as Hx. rewrite heap_thread_spec in *. by rewrite Hg, F1.
  - intros g Hx. apply Htab, V3. by rewrite <- F3.
  - intros g Hx. apply Htab, V4. by rewrite <- F4.
  - intros g Hx. apply Htab, V5. by rewrite <- F5.
  - intros v r g. rewrite Hg. unfold gc_anchors. rewrite F2. apply V6.
Qed.

(** ** A completed cycle *)

Lemma visit_from_value c g v : (c, g) ∈ visit_value v -> from_value_gen v = Some (c, g) /\ from_value v = Some c.
Proof.
  unfold visit_value. destruct (from_value_gen v) as [[c' g']|] eqn:E; [|by intros ?%not_elem_of_nil].
  intros [= -> ->]%list_elem_of_singleton. split; [done|]. destruct v; cbn in *; by simplify_eq.
Qed.

Lemma from_value_visit v c : from_value v = Some c -> exists g, (c, g) ∈ visit_value v.
Proof. destruct v; cbn; intros [= <-]; eexists; unfold visit_value; cbn; by apply list_elem_of_singleton. Qed.


Section Completed.
Context {AL : Allocator} {LAWS : AllocatorLaws AL}.
Context {MA : MapAllocator} {TS : TableSizes} {HS : HeapSizes} {SIZES : HeapSizesLaws HS}.
Context {cycle : GcCycle} {roots : list GcRef} {h0 h1 h2 h3 h' : Heap} {W : list (Z * bool * bool)} {M : list GcRef}.
Context (HT : tri cycle h0 (cycle_roots cycle h0 roots) (cycle_roots cycle h0 roots) [] W M h1).
Context (HC : weak_cleared (keeps cycle h1 W) h1 h2) (HW : swept_heap cycle h2 h3).
Context (HE : h' = match cycle with Full => h3 | Minor => settled M h3 end).

Local Notation HR := (tri_recolors _ _ _ _ _ _ _ _ HT).

Lemma settled_repaints : repaints h3 h'.
Proof. rewrite HE. destruct cycle; [apply settled_spec|apply repaints_refl]. Qed.

Lemma marked_iff r : live h0 r = true -> color h1 r <> White <-> cycle_reach cycle h0 roots r.
Proof. intros Hl. by eapply tri_end. Qed.

Lemma phase_reads r : live h2 r = live h0 r /\ age h2 r = age h0 r /\ color h2 r = color h1 r.
Proof.
  rewrite (cleared_live HC), (cleared_age HC), (cleared_color HC), (recolors_live HR), (recolors_age HR). done.
Qed.

Lemma completed_live r : live h' r = true <-> survives cycle h0 roots r.
Proof.
  rewrite (repaints_live settled_repaints), (swept_live HW).
  destruct (phase_reads r) as (-> & -> & ->). unfold survives. split; intros [Hl Hs]; (split; [done|]);
    intros Ha; apply marked_iff; auto.
Qed.

Lemma completed_generation r : live h' r = true -> generation h' r = generation h0 r.
Proof.
  intros Hl. rewrite (repaints_generation settled_repaints).
  rewrite (repaints_live settled_repaints) in Hl. destruct (swept_survivor HW r Hl) as (-> & _).
  by rewrite (cleared_generation HC), (recolors_generation HR).
Qed.

(** *** Edges *)

Lemma sweepable_admitted c : sweepable cycle (age h0 c) = true -> admits cycle h0 c = true.
Proof. unfold admits. destruct cycle; cbn; [|done]. destruct (age h0 c); try done. intros _. apply orb_true_r. Qed.

(** A component that was not dead: held strongly, or marked. *)
Lemma component_reach c g v w (kids_r : list GcRef) :
  (c, g) ∈ visit_value v -> (forall x, x ∈ push_strong v w -> x ∈ kids_r) ->
  (forall x, x ∈ kids_r -> admits cycle h0 x = true -> cycle_reach cycle h0 roots x) ->
  w && is_dead_component h1 v cycle = false ->
  live h0 c = true -> sweepable cycle (age h0 c) = true -> cycle_reach cycle h0 roots c.
Proof.
  intros [_ Hv]%visit_from_value Hk Hr Hd Hl Hs. pose proof (sweepable_admitted c Hs) as Ha.
  unfold push_strong, strong in Hk. destruct w; cbn in Hk, Hd.
  2: { apply Hr, Ha. apply Hk. rewrite Hv. set_solver. }
  destruct (is_string v) eqn:Es; [apply Hr, Ha; apply Hk; rewrite Hv; set_solver|].
  unfold is_dead_component in Hd. rewrite Es, Hv, (recolors_age HR) in Hd. apply marked_iff; [done|].
  destruct (color h1 c); try done. cbn in Hd. by destruct cycle; cbn in *; rewrite ?Hs in Hd.
Qed.

Lemma edge_reach r c g :
  live h0 r = true -> cycle_reach cycle h0 roots r -> (c, g) ∈ outgoing h2 r ->
  live h0 c = true -> sweepable cycle (age h0 c) = true -> cycle_reach cycle h0 roots c.
Proof.
  intros Hlr Hr Hin Hlc Hs. destruct (cleared_outgoing _ _ _ _ _ _ HC Hin) as [Hout Htab].
  rewrite (recolors_outgoing HR) in Hout.
  assert (Hkid : forall x, x ∈ kids h0 r -> admits cycle h0 x = true -> cycle_reach cycle h0 roots x).
  { intros x Hx Ha. by eapply reach_kid. }
  destruct (weak_of h0 r) as [[[i wk] wv]|] eqn:Ew.
  2: { apply Hkid; [|by apply sweepable_admitted]. unfold kids. rewrite Ew.
       apply list_elem_of_fmap. by exists (c, g). }
  assert (Hwk := Ew). unfold weak_of in Ew. destruct r as [|j| | | | | |]; try done.
  destruct (Arena.gc_value (tables (objects h0)) j) as [t|] eqn:Et; [|done].
  destruct (weak_mode h0 t) as [[wk' wv']|]; [|done]. injection Ew as -> -> ->.
  assert (Hkids : kids h0 (GTable i) = gc_trace_weak t wk wv) by (unfold kids; by rewrite Hwk, Et).
  assert (HinW : (i, wk, wv) ∈ W).
  { apply (tri_weak_all _ _ _ _ _ _ _ _ HT (GTable i)); try done.
    eapply tri_end_black; [done|done|]. by apply marked_iff. }
  assert (Ht1 : Arena.gc_value (tables (objects h1)) i = Some t) by (by rewrite (recolors_table HR)).
  destruct (Htab i t eq_refl Ht1) as [(kv & Hkv & HK & Hc)|Hm].
  - specialize (HK wk wv HinW). unfold entry_dead in HK. apply orb_false_elim in HK as [Hd1 Hd2].
    rewrite Hkids in Hkid.
    assert (Hpush : forall x, x ∈ push_strong kv.1 wk \/ x ∈ push_strong kv.2 wv -> x ∈ gc_trace_weak t wk wv).
    { intros x Hx. apply trace_weak_entries. left. eauto. }
    destruct Hc as [Hc|Hc]; eapply component_reach; try exact Hkid; try done; intros x Hx; apply Hpush; auto.
  - apply Hkid; [|by apply sweepable_admitted]. rewrite Hkids. apply trace_weak_entries. right.
    apply list_elem_of_fmap. by exists (c, g).
Qed.

Definition disciplined : Prop := cycle = Minor -> generational h0.

Lemma edge_survives r c g :
  disciplined -> arenas_ok (objects h0) -> valid h0 -> live h' r = true -> (c, g) ∈ outgoing h' r ->
  survives cycle h0 roots c /\ generation h0 c = Some g.
Proof.
  intros HG HA HV Hl Hin. rewrite (repaints_outgoing settled_repaints) in Hin.
  assert (Hl3 : live h3 r = true) by (by rewrite <- (repaints_live settled_repaints)).
  rewrite (swept_outgoing HW r Hl3) in Hin. apply completed_live in Hl.
  assert (Hout : (c, g) ∈ outgoing h0 r).
  { rewrite <- (recolors_outgoing HR). by eapply cleared_outgoing. }
  pose proof (val_handles _ HV r c g (proj1 Hl) Hout) as [Hlc Hg]%is_live_gen_spec.
  split; [|done]. split; [done|]. intros Hs.
  destruct (decide (color h1 r = White)) as [Hw|Hw].
  - assert (Hn : ~ cycle_reach cycle h0 roots r) by (rewrite <- marked_iff by apply Hl; auto).
    destruct cycle eqn:Hcy; [|by destruct Hn; apply Hl].
    exfalso. apply (old_edge h0 roots r c g); try done; [by apply HG|].
    cbn in Hs. by destruct (age h0 c).
  - apply (edge_reach r c g); try done; [apply Hl|]. apply marked_iff; [apply Hl|done].
Qed.

(** *** The heap after the cycle *)

Lemma completed_frame : frame h0 h'.
Proof.
  transitivity h1; [apply recolors_frame, HR|]. transitivity h2; [by eapply cleared_frame|].
  transitivity h3; [apply same_roots_frame, HW|]. apply repaints_frame, settled_repaints.
Qed.

Lemma completed_ok : heap_ok h0 -> heap_ok h'.
Proof.
  intros Hok. eapply repaints_ok; [apply settled_repaints|]. eapply swept_ok; [done|].
  eapply cleared_ok; [done|]. eapply repaints_ok; [|done]. by apply recolors_repaints, HR.
Qed.

Lemma root_survives x : x ∈ heap_roots h0 roots -> live h0 x = true -> survives cycle h0 roots x.
Proof.
  intros Hx Hl. split; [done|]. intros _. apply reach_root. destruct cycle; [|done]. cbn.
  unfold minor_roots. set_solver.
Qed.

Lemma survivor_live_gen x g :
  survives cycle h0 roots x -> generation h0 x = Some g -> is_live_gen h' x g = true.
Proof.
  intros Hx Hg. apply is_live_gen_spec. apply completed_live in Hx. split; [done|].
  by rewrite completed_generation.
Qed.

Lemma root_table_valid mt g :
  (forall x, x ∈ opt_ref GTable mt -> x ∈ heap_roots h0 roots) -> mt = Some g ->
  is_Some (heap_table h0 g) -> is_Some (heap_table h' g).
Proof.
  intros Hx -> [Hid Hg]%heap_table_spec. apply heap_table_spec. destruct completed_frame as [-> _].
  split; [done|]. apply is_live_gen_spec in Hg as [Hl Hg]. apply survivor_live_gen; [|done].
  apply root_survives; [|done]. apply Hx. set_solver.
Qed.

Lemma completed_thread i t : Arena.gc_value (threads (objects h')) i = Some t ->
  Arena.gc_value (threads (objects h0)) i = Some t.
Proof.
  intros Ht. destruct settled_repaints as [_ (_&_&_&_&Hp&_)]. rewrite (repainted_value _ _ _ Hp) in Ht.
  apply (swept_thread HW) in Ht. destruct HC as [E _]. rewrite E in Ht. cbn in Ht.
  destruct HR as [_ (_&_&_&_&Hp'&_)]. by rewrite (recolored_value _ _ _ Hp') in Ht.
Qed.

Lemma completed_valid :
  disciplined -> heap_ok h0 -> valid h0 -> thread_ids h0 -> valid h'.
Proof.
  intros HG Hok HV Hids. pose proof completed_frame as (F1&F2&F3&F4&F5&F6). split.
  - intros r c g Hl Hin. destruct (edge_survives r c g) as [? ?]; try done; [apply Hok|].
    by apply survivor_live_gen.
  - intros i t id Ht Hid. pose proof (completed_thread i t Ht) as Ht0.
    pose proof (val_thread_id _ HV i t id Ht0 Hid) as [Hh Hg]%heap_thread_spec.
    apply heap_thread_spec. rewrite F1. split; [done|]. apply is_live_gen_spec in Hg as [Hl Hg].
    apply survivor_live_gen; [|done]. apply completed_live. rewrite (Hids i t id Ht0 Hid).
    unfold live. cbn. by rewrite occupied_value, Ht.
  - intros g. rewrite F3. intros Hg. apply (root_table_valid (string_metatable h0)); try done; [|by apply (val_string_mt _ HV)].
    unfold heap_roots. set_solver.
  - intros g. rewrite F4. intros Hg. apply (root_table_valid (vector_metatable h0)); try done; [|by apply (val_vector_mt _ HV)].
    unfold heap_roots. set_solver.
  - intros g. rewrite F5. intros Hg. apply (root_table_valid (structured_error_metatable h0)); try done; [|by apply (val_error_mt _ HV)].
    unfold heap_roots. set_solver.
  - intros v r g. unfold gc_anchors. rewrite F2. intros Hv Hr.
    pose proof (val_anchors _ HV v r g Hv Hr) as [Hl Hg]%is_live_gen_spec.
    apply survivor_live_gen; [|done]. apply root_survives; [|done]. unfold heap_roots, anchor_refs.
    rewrite !elem_of_app. do 5 right. apply list_elem_of_omap. exists v. split; [done|].
    destruct v; cbn in *; by simplify_eq.
Qed.

Lemma completed_ids : thread_ids h0 -> thread_ids h'.
Proof. intros H i t id Ht%completed_thread. by apply H. Qed.

Lemma completed_white : all_white h'.
Proof.
  intros r Hl. pose proof Hl as Hl'. rewrite (repaints_live settled_repaints) in Hl'.
  destruct (swept_survivor HW r Hl') as (_ & Hc & _). destruct (phase_reads r) as (E1 & E2 & E3).
  apply completed_live in Hl as [Hl _]. rewrite E2, E3 in Hc. rewrite HE. clear HE Hl'.
  destruct cycle eqn:Hcy; [|exact Hc].
  destruct (settled_spec M h3) as (_ & -> & _). case_decide as Hm; [done|]. rewrite Hc.
  destruct (sweepable _ _); [done|]. destruct (decide (color h1 r = White)) as [|Hw]; [done|].
  destruct Hm. apply (tri_blackened_all _ _ _ _ _ _ _ _ HT); [done|done|].
  by eapply tri_end_black.
Qed.

Lemma completed_old : disciplined -> forall r, live h' r = true -> age h' r = Old.
Proof.
  intros HG r Hl. pose proof Hl as Hl'. rewrite (repaints_live settled_repaints) in Hl'.
  destruct (swept_survivor HW r Hl') as (_ & _ & Ha). destruct (phase_reads r) as (_ & E2 & _).
  apply completed_live in Hl as [Hl _]. rewrite E2 in Ha. rewrite HE. clear HE Hl'.
  pose proof (marked_iff r Hl) as Hmk. unfold disciplined in HG. destruct cycle eqn:Hcy; [|exact Ha]. specialize (HG eq_refl).
  destruct (settled_spec M h3) as (_ & _ & ->). rewrite Ha. cbn.
  destruct (age h0 r) eqn:Ea; cbn; [by case_decide..|]. rewrite decide_True; [done|].
  apply (tri_blackened_all _ _ _ _ _ _ _ _ HT); [done|done|].
  eapply tri_end_black; [done|done|]. apply Hmk, reach_root. cbn.
  unfold minor_roots. rewrite !elem_of_app. right. right. apply list_elem_of_filter.
  split; [|by apply (gen_remembered _ HG)]. unfold admits. rewrite Ea. apply orb_true_r.
Qed.

(** *** The entries it keeps *)

Lemma dead_component v :
  is_dead_component h1 v cycle = true -> ~ holds cycle h0 roots v.
Proof.
  unfold is_dead_component, holds. intros Hd H. destruct (is_string v) eqn:Es; [done|].
  destruct (from_value v) as [c|] eqn:Ec; [|done]. destruct (H c eq_refl eq_refl) as [Hl Hs].
  destruct (color h1 c) eqn:Hw; try done. cbn in Hd.
  assert (sweepable cycle (age h0 c) = true) as Ha.
  { rewrite (recolors_age HR) in Hd. clear -Hd. by destruct cycle. }
  by apply (marked_iff c Hl) in Hw; [|apply Hs].
Qed.

Lemma completed_preserved r :
  disciplined -> heap_ok h0 -> valid h0 -> live h' r = true ->
  preserved (kept_entry cycle h0 roots r) h0 h' r.
Proof.
  intros HG Hok HV Hl. split; [by apply completed_generation|].
  pose proof (repaints_object _ _ r settled_repaints) as E1.
  assert (Hl3 : live h3 r = true) by (by rewrite <- (repaints_live settled_repaints)).
  rewrite (swept_object _ _ _ r HW Hl3) in E1.
  pose proof (repaints_object _ _ r (recolors_repaints _ _ HR)) as E2.
  assert (Hl1 : live h1 r = true).
  { rewrite (recolors_live HR). by apply completed_live in Hl as [? _]. }
  destruct (cleared_preserved _ _ _ r HC Hl1) as [_ HP].
  destruct r as [i|i|i|i|i|i|i|i]; try congruence.
  destruct HP as (t & t' & Ht & Ht' & Hm & Hkv). exists t, t'.
  cbn in E1, E2. rewrite Ht' in E1. rewrite Ht in E2.
  destruct (Arena.gc_value (tables (objects h')) i) as [u'|] eqn:Eu'; [|done]. injection E1 as ->.
  destruct (Arena.gc_value (tables (objects h0)) i) as [u|] eqn:Eu; [|done]. injection E2 as <-.
  split_and!; try done. intros kv. rewrite Hkv. split; intros [Hin HK]; (split; [done|]).
  - assert (Hin' : kv ∈ LuaTable.for_each_entry t') by (by apply Hkv).
    assert (Hsurv : forall v c, v = kv.1 \/ v = kv.2 -> from_value v = Some c -> survives cycle h0 roots c).
    { intros v c Hv [g Hg]%from_value_visit. apply (edge_survives (GTable i) c g); try done; [apply Hok|].
      cbn. rewrite Eu'. apply table_trace_entries. left. exists kv. split; [done|]. destruct Hv as [->| ->]; auto. }
    intros j wk wv _. split; intros _ c _ Hc; [apply (Hsurv kv.1)|apply (Hsurv kv.2)]; auto.
  - intros wk wv HinW. destruct (tri_weak _ _ _ _ _ _ _ _ HT _ HinW) as [Hwk _].
    destruct (HK i wk wv Hwk) as [H1 H2]. unfold entry_dead. apply orb_false_intro.
    + destruct wk; [|done]. cbn. destruct (is_dead_component h1 kv.1 cycle) eqn:Ed; [|done].
      by destruct (dead_component _ Ed); apply H1.
    + destruct wv; [|done]. cbn. destruct (is_dead_component h1 kv.2 cycle) eqn:Ed; [|done].
      by destruct (dead_component _ Ed); apply H2.
Qed.

End Completed.

(** ** An abandoned cycle *)

Section Abandoned.
Context {AL : Allocator} {LAWS : AllocatorLaws AL}.
Context {MA : MapAllocator} {TS : TableSizes} {HS : HeapSizes} {SIZES : HeapSizesLaws HS}.
Implicit Types (h : Heap) (r c : GcRef).

Lemma reset_repaints h : repaints h (reset_all_colors h).
Proof.
  split; [by destruct h|]. unfold on_arenas. cbn. repeat (split; [apply reset_repainted|]). apply reset_repainted.
Qed.

Lemma reset_white h : all_white (reset_all_colors h).
Proof.
  assert (Ha : forall T (a : Arena T) i, occupied (Arena.gc_reset_colors a) i = true ->
    Arena.gc_color (Arena.gc_reset_colors a) i = White).
  { intros T a i. unfold occupied. rewrite gc_color_slot, slot_reset_colors.
    destruct (slot a i) as [e|]; [|done]. cbn. by destruct (is_live e) eqn:E; rewrite ?E. }
  intros r. destruct r; apply Ha.
Qed.

(** The heap an abandoned cycle leaves, once its colors are reset. *)
Lemma abandoned_spec cycle roots h0 h1 :
  gc_inv h0 -> abandoned cycle roots h0 h1 ->
  let h' := set_force_major true (reset_all_colors h1) in
  gc_inv h' /\ gc_force_major h' = true /\
  (forall r, live h' r = live h0 r /\ generation h' r = generation h0 r) /\
  (forall r, live h0 r = true -> exists K : Entry -> Prop,
     preserved K h0 h' r /\ (forall kv, kept_entry cycle h0 roots r kv -> K kv)).
Proof.
  intros Hinv (h2 & h3 & W & _ & HR & HC & HRes & HD). set (h' := set_force_major true (reset_all_colors h1)).
  assert (HV : same_view (reset_all_colors h1) h') by done.
  pose proof (reset_repaints h1) as HP.
  assert (Hread : forall r, live h' r = live h0 r /\ generation h' r = generation h0 r /\
    outgoing h' r = outgoing h3 r /\ object h' r = object h3 r).
  { intros r. destruct (view_reads _ _ r HV) as (-> & -> & _ & _ & -> & ->).
    rewrite (repaints_live HP), (repaints_generation HP), (repaints_outgoing HP), (repaints_object _ _ r HP).
    destruct (reserved_object _ _ r HRes) as (-> & -> & -> & _ & _ & ->).
    by rewrite (cleared_live HC), (cleared_generation HC), (recolors_live HR), (recolors_generation HR). }
  assert (HF : frame h0 (reset_all_colors h1)).
  { transitivity h2; [by apply recolors_frame|]. transitivity h3; [by eapply cleared_frame|].
    transitivity h1; [apply same_roots_frame, HRes|]. by apply repaints_frame. }
  assert (Hthr : forall i t, Arena.gc_value (threads (objects h')) i = Some t ->
    Arena.gc_value (threads (objects h0)) i = Some t).
  { intros i t Ht. destruct (Hread (GThread i)) as (_ & _ & _ & Ho). cbn [object] in Ho. rewrite Ht in Ho.
    destruct HC as [E _]. rewrite E in Ho. cbn in Ho.
    destruct HR as [_ (_&_&_&_&Hp'&_)]. rewrite (recolored_value _ _ _ Hp') in Ho.
    destruct (Arena.gc_value (threads (objects h0)) i); [|done]. by injection Ho as ->. }
  destruct Hinv as [Hok Hw HVal Hids _].
  split_and!; [|done|intros r; by destruct (Hread r) as (-> & -> & _)|].
  - split; [| | | |by left].
    + eapply view_ok; [done|]. eapply repaints_ok; [done|]. eapply reserved_ok; [done|].
      eapply cleared_ok; [done|]. eapply repaints_ok; [|done]. by apply recolors_repaints.
    + eapply view_white; [done|]. apply reset_white.
    + apply (valid_transfer h0); try done.
      * intros r. by destruct (Hread r) as (-> & -> & _).
      * intros r c g. destruct (Hread r) as (_ & _ & -> & _). intros Hin.
        rewrite <- (recolors_outgoing HR). by eapply cleared_outgoing.
    + intros i t id Ht%Hthr. by apply Hids.
  - intros r Hl. assert (Hl2 : live h2 r = true) by (by rewrite (recolors_live HR)).
    destruct (cleared_preserved _ _ _ r HC Hl2) as [_ HPr].
    pose proof (repaints_object _ _ r (recolors_repaints _ _ HR)) as E2.
    destruct (Hread r) as (_ & Hg & _ & Ho).
    destruct r as [i|i|i|i|i|i|i|i];
      try (exists (fun _ => True); split; [|done]; split; [done|]; congruence).
    exists (keeps cycle h2 W i). split.
    + split; [done|]. destruct HPr as (t & t' & Ht & Ht' & Hm & Hkv). exists t, t'.
      cbn [object] in Ho, E2. rewrite Ht' in Ho. rewrite Ht in E2.
      destruct (Arena.gc_value (tables (objects h')) i) as [u'|]; [|done]. injection Ho as ->.
      destruct (Arena.gc_value (tables (objects h0)) i) as [u|]; [|done]. injection E2 as <-. done.
    + intros kv Hk. destruct HD as [->|(W' & M & HWW & HT)]; [intros wk wv ?%not_elem_of_nil; done|].
      intros wk wv HinW. destruct (tri_weak _ _ _ _ _ _ _ _ HT _ (HWW _ HinW)) as [Hwk _].
      destruct (Hk i wk wv Hwk) as [H1 H2]. unfold entry_dead. apply orb_false_intro.
      * destruct wk; [|done]. cbn. destruct (is_dead_component h2 kv.1 cycle) eqn:Ed; [|done].
        by destruct (dead_component HT _ Ed); apply H1.
      * destruct wv; [|done]. cbn. destruct (is_dead_component h2 kv.2 cycle) eqn:Ed; [|done].
        by destruct (dead_component HT _ Ed); apply H2.
Qed.

End Abandoned.
