(* ===== verification/GcTheorems.v ===== *)
(** * GcTheorems: what the collector promises

    Every collection returns (it completes, or is abandoned when the allocator refuses
    memory) and keeps the collector's invariant, the validator's verdict included. A major
    collection keeps exactly the reachable objects; a minor one keeps every reachable object
    because of the write barrier, which [remember] implements; an abandoned one changes
    nothing but dead weak entries. *)

From Stdlib Require Import ZArith Lia.
From stdpp Require Import base numbers list option gmap sets.
From S2P Require Import Prelude RustVec Arena ArenaFacts ArenaTheorems Value Registry LuaTable LuaTableFacts LuaTableTheorems.
From S2P Require Import GcObjects Gc GcView GcTrace GcWeak GcSweep GcCollect GcFacts GcCycles.
Import Gc.

Section Collect.
Context {AL : Allocator} {LAWS : AllocatorLaws AL}.
Context {MA : MapAllocator} {TS : TableSizes} {HS : HeapSizes} {SIZES : HeapSizesLaws HS}.
Implicit Types (h : Heap) (r c : GcRef).

Definition cycle_of h : GcCycle := if gc_should_major h then Full else Minor.

Definition note_cycle (cycle : GcCycle) h : Heap :=
  note_collection (match cycle with Full => gc_note_major h | Minor => gc_note_minor h end).

(** The outcome of a collection. *)
Lemma collect_outcome roots h :
  gc_inv h ->
  match collect roots h with
  | (h', Ok (Some _)) => exists h1, completed (cycle_of h) roots h h1 /\ h' = note_cycle (cycle_of h) h1
  | (h', Ok None) => exists h1, abandoned (cycle_of h) roots h h1 /\
      h' = set_force_major true (reset_all_colors h1)
  | (_, Err _) => False
  end.
Proof.
  intros [Hok Hw _ _ _]. unfold collect, cycle_of.
  pose proof (major_spec roots h Hok Hw h eq_refl) as Hmaj.
  pose proof (minor_spec roots h Hok Hw h eq_refl) as Hmin.
  destruct (gc_should_major h).
  - destruct (collect_major_inner roots h) as [h1 [n|e]]; [by exists h1|]. destruct Hmaj as [-> ?]. by exists h1.
  - destruct (collect_minor_inner roots h) as [h1 [n|e]]; [by exists h1|]. destruct Hmin as [-> ?]. by exists h1.
Qed.

(** A minor cycle is only run on a disciplined heap. *)
Lemma cycle_disciplined h : gc_inv h -> cycle_of h = Minor -> generational h.
Proof.
  intros [_ _ _ _ [Hf|Hg]] Hc; [|done]. unfold cycle_of, gc_should_major in Hc. by rewrite Hf in Hc.
Qed.

Lemma note_view cycle h : same_view h (note_cycle cycle h).
Proof. by destruct cycle. Qed.

Lemma completed_inv roots h h1 :
  gc_inv h -> completed (cycle_of h) roots h h1 -> gc_inv (note_cycle (cycle_of h) h1).
Proof.
  intros Hinv (h2 & h3 & h4 & W & M & HT & HC & HW & HE).
  pose proof (cycle_disciplined h Hinv) as HG. destruct Hinv as [Hok Hw HV Hids _].
  pose proof (note_view (cycle_of h) h1) as Hview. split.
  - eapply view_ok; [done|]. by eapply completed_ok.
  - eapply view_white; [done|]. by eapply completed_white.
  - eapply view_valid; [done|]. by eapply completed_valid.
  - eapply view_ids; [done|]. by eapply completed_ids.
  - right. assert (Hold : forall r, live (note_cycle (cycle_of h) h1) r = true -> age (note_cycle (cycle_of h) h1) r = Old).
    { intros r. destruct (view_reads _ _ r Hview) as (-> & _ & _ & -> & _). by eapply completed_old. }
    split.
    + intros p c g _ _ _ _ Hc. rewrite (Hold c Hc). done.
    + intros r Hr Ha. rewrite (Hold r Hr) in Ha. done.
Qed.

End Collect.

(** C6: every collection keeps the collector's invariant. Started on a heap that is well
    formed, white between cycles, valid (every handle of a live object, every root and every
    anchor resolves, with its generation) and generationally disciplined, [collect] always
    returns: it completes or it abandons the cycle, without panic and without running out of
    the trace's fuel, and the heap it leaves satisfies the invariant again and passes the
    validator. *)
Theorem collect_invariant {AL : Allocator} {LAWS : AllocatorLaws AL} {MA : MapAllocator}
  {TS : TableSizes} {HS : HeapSizes} {SIZES : HeapSizesLaws HS} (roots : list GcRef) (h : Heap) :
  gc_inv h -> exists h' outcome, collect roots h = (h', Ok outcome) /\ gc_inv h' /\ validate h' = Ok tt.
Proof.
  intros Hinv. pose proof (collect_outcome roots h Hinv) as HO.
  destruct (collect roots h) as [h' [[n|]|e]]; [| |done]; (exists h'; eexists; split; [done|]).
  - destruct HO as (h1 & HC & ->). pose proof (completed_inv roots h h1 Hinv HC) as Hinv'.
    split; [done|]. apply validate_valid; apply Hinv'.
  - destruct HO as (h1 & HA & ->). pose proof (abandoned_spec _ roots h h1 Hinv HA) as (Hinv' & _).
    split; [done|]. apply validate_valid; apply Hinv'.
Qed.

(** C3: a major collection keeps exactly what is reachable. When the pacing asks for a major
    cycle and it completes, an object is live afterwards if and only if it was live and is
    reachable from the roots along strong edges; every survivor keeps its generation and its
    contents, but for the entries of weak tables, of which exactly those with a weakly held
    component that does not survive are gone. An abandoned cycle reclaims nothing. *)
Theorem major_collection_exact {AL : Allocator} {LAWS : AllocatorLaws AL} {MA : MapAllocator}
  {TS : TableSizes} {HS : HeapSizes} {SIZES : HeapSizesLaws HS} (roots : list GcRef) (h : Heap) :
  gc_inv h -> gc_should_major h = true ->
  match collect roots h with
  | (h', Ok (Some _)) =>
      (forall r, live h' r = true <-> live h r = true /\ reach Full h (heap_roots h roots) r) /\
      (forall r, live h' r = true -> preserved (kept_entry Full h roots r) h h' r)
  | (h', Ok None) => forall r, live h' r = live h r /\ generation h' r = generation h r
  | (_, Err _) => False
  end.
Proof.
  intros Hinv Hmaj. pose proof (collect_outcome roots h Hinv) as HO.
  assert (Hcy : cycle_of h = Full) by (unfold cycle_of; by rewrite Hmaj). rewrite Hcy in HO.
  destruct (collect roots h) as [h' [[n|]|e]]; [| |done].
  - destruct HO as (h1 & (h2 & h3 & h4 & W & M & HT & HC & HW & HE) & ->).
    pose proof (fun r => view_reads _ _ r (note_view Full h1)) as Hr. split.
    + intros r. destruct (Hr r) as (-> & _). rewrite (completed_live HT HC HW HE r).
      unfold survives, cycle_reach. cbn. naive_solver.
    + intros r Hl. destruct (Hr r) as (El & _ & _ & _ & _ & _). rewrite El in Hl.
      assert (disciplined (cycle := Full) (h0 := h)) as HG by done.
      exact (completed_preserved HT HC HW HE r HG (inv_ok _ Hinv) (inv_valid _ Hinv) Hl).
  - destruct HO as (h1 & HA & ->). by destruct (abandoned_spec _ roots h h1 Hinv HA) as (_ & _ & ? & _).
Qed.

Section Minor.
Context {AL : Allocator} {LAWS : AllocatorLaws AL}.
Context {MA : MapAllocator} {TS : TableSizes} {HS : HeapSizes} {SIZES : HeapSizesLaws HS}.
Implicit Types (h : Heap) (r c : GcRef).

Lemma kids_outgoing h r c : c ∈ kids h r -> exists g, (c, g) ∈ outgoing h r.
Proof.
  unfold kids. destruct (weak_of h r) as [[[i wk] wv]|] eqn:Ew.
  - assert (exists t, r = GTable i /\ Arena.gc_value (tables (objects h)) i = Some t) as (t & -> & Ht).
    { destruct r; cbn in Ew; try done. destruct (Arena.gc_value _ _) eqn:E; [|done].
      destruct (weak_mode _ _) as [[]|]; [|done]. injection Ew as -> _ _. eauto. }
    rewrite Ht. intros Hc%trace_weak_entries. cbn. rewrite Ht. setoid_rewrite table_trace_entries.
    destruct Hc as [(kv & Hkv & Hc)|Hc].
    + assert (exists v, (v = kv.1 \/ v = kv.2) /\ from_value v = Some c) as (v & Hv & Hf).
      { unfold push_strong in Hc. destruct Hc as [Hc|Hc]; destruct (strong _ _); try (by apply not_elem_of_nil in Hc);
          (destruct (from_value _) eqn:Ef; [|by apply not_elem_of_nil in Hc]);
          apply list_elem_of_singleton in Hc as ->; eauto. }
      destruct (from_value_visit v c Hf) as [g Hg]. exists g. left. exists kv. split; [done|].
      destruct Hv as [->| ->]; auto.
    + apply list_elem_of_fmap in Hc as ([c' g] & -> & Hin). exists g. by right.
  - intros ([c' g] & -> & Hin)%list_elem_of_fmap. eauto.
Qed.

(** Under the generational discipline a minor cycle finds every reachable young object. *)
Lemma minor_finds_young h roots r :
  generational h -> arenas_ok (objects h) -> live h r = true -> reach Full h (heap_roots h roots) r ->
  admits Minor h r = true -> cycle_reach Minor h roots r.
Proof.
  intros HG HA Hl Hr. induction Hr as [r Hr|p c Hp IH Hc _]; intros Ha.
  { apply reach_root. cbn. unfold minor_roots. set_solver. }
  destruct (live h p) eqn:Hlp; [|rewrite dead_kids in Hc by done; by apply not_elem_of_nil in Hc].
  destruct (admits Minor h p) eqn:Hap; [by eapply reach_kid; [apply IH|..]|].
  destruct (kids_outgoing h p c Hc) as [g Hg].
  unfold admits in Ha. destruct (is_thread c) eqn:Et.
  - apply reach_root. destruct c as [| | | |i| | |]; try done. cbn.
    unfold minor_roots, resident_threads. rewrite !elem_of_app. right. left.
    apply list_elem_of_fmap. exists i. split; [done|]. apply list_elem_of_filter. split; [exact Hl|].
    unfold live in Hl. cbn in Hl. rewrite occupied_value in Hl.
    destruct (Arena.gc_value (threads (objects h)) i) eqn:E; [|done].
    destruct HA as (_&_&_&_&[_ HL]&_). by eapply seqZ_slot.
  - destruct (age h c) eqn:Ea; [| |].
    + exfalso. apply (gen_old _ HG p c g); try done; unfold admits in Hap.
      * by destruct p.
      * by destruct p, (age h _).
    + by destruct c.
    + apply reach_root. cbn. unfold minor_roots. rewrite !elem_of_app. right. right.
      apply list_elem_of_filter. split; [|by apply (gen_remembered _ HG)]. unfold admits. rewrite Ea. apply orb_true_r.
Qed.

End Minor.

(** C7: a minor collection is safe and reclaims exactly the young objects it cannot reach.
    When the pacing asks for a minor cycle and it completes, everything reachable from the
    roots is still live, although the cycle never traces plain old objects; what dies is
    young and not reachable from the roots, the resident threads and the remembered
    holders; every survivor keeps its generation and contents, dead weak entries apart. *)
Theorem minor_collection_safe {AL : Allocator} {LAWS : AllocatorLaws AL} {MA : MapAllocator}
  {TS : TableSizes} {HS : HeapSizes} {SIZES : HeapSizesLaws HS} (roots : list GcRef) (h : Heap) :
  gc_inv h -> gc_should_major h = false ->
  match collect roots h with
  | (h', Ok (Some _)) =>
      (forall r, live h r = true -> reach Full h (heap_roots h roots) r -> live h' r = true) /\
      (forall r, live h' r = true <->
         live h r = true /\ (age h r = Young -> reach Minor h (minor_roots h roots) r)) /\
      (forall r, live h' r = true -> preserved (kept_entry Minor h roots r) h h' r)
  | (h', Ok None) => forall r, live h' r = live h r /\ generation h' r = generation h r
  | (_, Err _) => False
  end.
Proof.
  intros Hinv Hmin. pose proof (collect_outcome roots h Hinv) as HO.
  assert (Hcy : cycle_of h = Minor) by (unfold cycle_of; by rewrite Hmin).
  pose proof (cycle_disciplined h Hinv Hcy) as HG. rewrite Hcy in HO.
  destruct (collect roots h) as [h' [[n|]|e]]; [| |done].
  - destruct HO as (h1 & (h2 & h3 & h4 & W & M & HT & HC & HW & HE) & ->).
    pose proof (fun r => view_reads _ _ r (note_view Minor h1)) as Hr.
    pose proof (completed_live HT HC HW HE) as Hlive. split_and!.
    + intros r Hl HF. destruct (Hr r) as (-> & _). apply Hlive. split; [done|]. cbn. intros Hy.
      apply minor_finds_young; try done; [apply (inv_ok _ Hinv)|]. unfold admits.
      destruct (age h r); try done. apply orb_true_r.
    + intros r. destruct (Hr r) as (-> & _). rewrite Hlive. unfold survives, cycle_reach. cbn.
      destruct (age h r); naive_solver.
    + intros r Hl. destruct (Hr r) as (El & _). rewrite El in Hl.
      assert (disciplined (cycle := Minor) (h0 := h)) as HG' by (intros _; exact HG).
      exact (completed_preserved HT HC HW HE r HG' (inv_ok _ Hinv) (inv_valid _ Hinv) Hl).
  - destruct HO as (h1 & HA & ->). by destruct (abandoned_spec _ roots h h1 Hinv HA) as (_ & _ & ? & _).
Qed.

(** With an allocator that refuses nothing, no collection is abandoned. *)
Lemma granting_completes {MA : MapAllocator} {TS : TableSizes} {HS : HeapSizes} {SIZES : HeapSizesLaws HS} (roots : list GcRef) (h h' : Heap) :
  gc_inv h -> collect (AL := granting_allocator) roots h <> (h', Ok None).
Proof.
  intros Hinv E. pose proof (collect_outcome (AL := granting_allocator) roots h Hinv) as HO. rewrite E in HO.
  destruct HO as (h1 & (? & ? & ? & (size & need & cap & Hoom) & _) & _). discriminate Hoom.
Qed.

(** C12: an abandoned collection is harmless. A cycle is abandoned only when the allocator
    refuses memory: no law of allocators implies a refusal, so a collector that gave up without
    one would not satisfy this for an allocator that grants every request. The cycle reclaims no
    object, keeps every handle's generation, leaves every object with its contents (weak tables
    lose at most entries that a completed cycle would have dropped), resets the colors and forces
    the next collection to be a major one. *)
Theorem abandoned_collection_harmless {AL : Allocator} {LAWS : AllocatorLaws AL} {MA : MapAllocator}
  {TS : TableSizes} {HS : HeapSizes} {SIZES : HeapSizesLaws HS} (roots : list GcRef) (h h' : Heap) :
  gc_inv h -> collect roots h = (h', Ok None) ->
  out_of_memory /\ gc_force_major h' = true /\ gc_should_major h' = true /\
  (forall r, live h' r = true -> color h' r = White) /\
  (forall r, live h' r = live h r /\ generation h' r = generation h r) /\
  (forall r, live h r = true -> exists K : Entry -> Prop,
     preserved K h h' r /\ (forall kv, kept_entry (cycle_of h) h roots r kv -> K kv)).
Proof.
  intros Hinv E. pose proof (collect_outcome roots h Hinv) as HO. rewrite E in HO.
  destruct HO as (h1 & HA & ->).
  destruct (abandoned_spec _ roots h h1 Hinv HA) as ([_ Hw _ _ _] & Hf & Hr & HK).
  destruct HA as (h2 & h3 & W & Hoom & _). split_and!; try done.
Qed.

(** ** The write barrier *)

(** The mutator has replaced the contents of [holder]'s object; everything else is as it
    was. *)
Record stored (holder : GcRef) (h h' : Heap) : Prop := {
  st_fields : h' = set_meter (meter h') (set_objects (objects h') h);
  st_live r : live h' r = live h r;
  st_color r : color h' r = color h r;
  st_age r : age h' r = age h r;
  st_others r : r <> holder -> outgoing h' r = outgoing h r;
}.

Section Barrier.
Context {AL : Allocator} {LAWS : AllocatorLaws AL}.
Context {MA : MapAllocator} {TS : TableSizes} {HS : HeapSizes} {SIZES : HeapSizesLaws HS}.
Implicit Types (h : Heap) (r : GcRef).

(** Recording a holder changes its age, from one old age to another, and the list. *)
Lemma remember_spec holder h :
  repaints h (set_remembered (gc_remembered h) (set_force_major (gc_force_major h) (remember holder h))) /\
  (forall r, color (remember holder h) r = color h r) /\
  (forall r, r <> holder -> age (remember holder h) r = age h r) /\
  match age h holder with
  | Old => if gc_force_major (remember holder h) then True
           else (in_range h holder = true -> age (remember holder h) holder = OldRemembered) /\
                items (gc_remembered (remember holder h)) = items (gc_remembered h) ++ [holder]
  | _ => remember holder h = h
  end.
Proof.
  assert (Hid : repaints h (set_remembered (gc_remembered h) (set_force_major (gc_force_major h) h))).
  { replace (set_remembered _ _) with h by (by destruct h). apply repaints_refl. }
  unfold remember. destruct (age h holder) eqn:Ea; [by split_and!| |by split_and!].
  destruct (try_reserve size_GcRef (gc_remembered h) 1) as [v|] eqn:Er.
  - set (h1 := set_remembered (mkVec (items v ++ [holder]) (capacity v)) h).
    assert (HP : repaints h1 (set_age holder OldRemembered h1)).
    { apply set_age_repaints; [done|]. change (age h1 holder) with (age h holder). by rewrite Ea. }
    split_and!.
    + destruct HP as [_ HP]. split; [by destruct h|]. exact HP.
    + intros r. by rewrite color_set_age.
    + intros r Hr. by rewrite age_set_age, decide_False by congruence.
    + case_match; [done|]. split.
      * intros Hin. rewrite age_set_age, decide_True by done. change (in_range h1 holder) with (in_range h holder). by rewrite Hin.
      * cbn. by rewrite (try_reserve_items _ _ _ _ Er).
  - split; [exact Hid|]. by split_and!.
Qed.

Lemma remember_force holder h : gc_force_major h = true -> gc_force_major (remember holder h) = true.
Proof. intros Hf. unfold remember. destruct (age h holder); try done. by destruct (try_reserve _ _ _). Qed.

Lemma remember_remembered holder h r :
  r ∈ items (gc_remembered h) -> r ∈ items (gc_remembered (remember holder h)).
Proof.
  intros Hr. unfold remember. destruct (age h holder); try done.
  destruct (try_reserve _ _ _) as [v|] eqn:E; [|done]. cbn. rewrite (try_reserve_items _ _ _ _ E). set_solver.
Qed.

End Barrier.

(** The write barrier keeps the generational invariant. However the mutator replaces the
    contents of a live object (leaving a well-formed, valid heap), calling [remember] on it
    re-establishes the whole invariant the next collection needs: the holder is young,
    recorded in the remembered set, or, when the set could not grow, the next collection is
    forced to be a major one. *)
Theorem barrier_keeps_invariant {AL : Allocator} {LAWS : AllocatorLaws AL} {MA : MapAllocator}
  {TS : TableSizes} {HS : HeapSizes} {SIZES : HeapSizesLaws HS} (holder : GcRef) (h h1 : Heap) :
  gc_inv h -> stored holder h h1 -> heap_ok h1 -> valid h1 -> thread_ids h1 -> gc_inv (remember holder h1).
Proof.
  intros Hinv Hst Hok1 HV1 Hids1. destruct (remember_spec holder h1) as (HP & HC & HA & Hcase).
  set (h2 := set_remembered _ _) in HP. assert (Hview : same_view h2 (remember holder h1)) by done.
  pose proof (fun r => view_reads _ _ r Hview) as Hr.
  assert (Hlive : forall r, live (remember holder h1) r = live h r).
  { intros r. destruct (Hr r) as (-> & _). by rewrite (repaints_live HP), (st_live _ _ _ Hst). }
  assert (Hout : forall r, outgoing (remember holder h1) r = outgoing h1 r).
  { intros r. destruct (Hr r) as (_ & _ & _ & _ & -> & _). by rewrite (repaints_outgoing HP). }
  split.
  - eapply view_ok; [done|]. by eapply repaints_ok.
  - intros r. rewrite Hlive, HC, (st_color _ _ _ Hst). apply (inv_white _ Hinv).
  - eapply view_valid; [done|]. apply (valid_transfer h1); try done.
    + by apply repaints_frame.
    + intros r. by rewrite (repaints_live HP), (repaints_generation HP).
    + intros r c g. by rewrite (repaints_outgoing HP).
    + intros i t. destruct HP as [_ (_&_&_&_&RP&_)]. by rewrite (repainted_value _ _ _ RP).
  - eapply view_ids; [done|]. intros i t id. destruct HP as [_ (_&_&_&_&RP&_)].
    rewrite (repainted_value _ _ _ RP). apply Hids1.
  - destruct (gc_force_major (remember holder h1)) eqn:Ef; [by left|]. right.
    assert (HG : generational h).
    { destruct (inv_gen _ Hinv) as [Hf|HG]; [|done]. rewrite remember_force in Ef; [done|].
      rewrite (st_fields _ _ _ Hst). exact Hf. }
    assert (Hrem : gc_remembered h1 = gc_remembered h) by (by rewrite (st_fields _ _ _ Hst)).
    assert (Hyoung : forall r, age h r <> Young -> age (remember holder h1) r <> Young).
    { intros r Hy Hy2. pose proof (repaints_young HP r) as Hyy. destruct (Hr r) as (_ & _ & _ & Ea & _).
      rewrite <- Ea, Hy2, (st_age _ _ _ Hst) in Hyy. by destruct (age h r). }
    split.
    + intros p c g Hlp Hnt Hap. rewrite Hout, !Hlive in *. intros Hin Hlc. apply Hyoung.
      destruct (decide (p = holder)) as [->|Hne].
      * exfalso. destruct (age h1 holder) eqn:Ea; [rewrite Hcase, Ea in Hap; done| |rewrite Hcase, Ea in Hap; done].
        destruct Hcase as [Hx _]. rewrite Hx in Hap; [done|]. apply live_in_range. by rewrite (st_live _ _ _ Hst).
      * rewrite HA, (st_age _ _ _ Hst) in Hap by done. rewrite (st_others _ _ _ Hst) in Hin by done.
        by apply (gen_old _ HG p c g).
    + intros r Hlr Hage. rewrite Hlive in Hlr. destruct (decide (r = holder)) as [->|Hne].
      * destruct (age h1 holder) eqn:Ea; [rewrite Hcase, Ea in Hage; done| |].
        -- destruct Hcase as [_ ->]. set_solver.
        -- rewrite Hcase, Hrem. apply (gen_remembered _ HG); [done|]. by rewrite <- (st_age _ _ _ Hst).
      * rewrite HA, (st_age _ _ _ Hst) in Hage by done.
        apply remember_remembered. rewrite Hrem. by apply (gen_remembered _ HG).
Qed.

(** ** Witnesses: three tables, the string metatable reaching one of the other two *)

Section Witnesses.
#[local] Existing Instance doubling_map.
#[local] Existing Instance sizes64.

Definition heap_sizes : HeapSizes := {|
  size_strings := 40; size_tables := 160; size_closures := 56; size_userdata := 32;
  size_threads := 400; size_buffers := 48; size_protos := 200; size_upvals := 32;
  size_GcRef := 8; size_WeakEntry := 8; size_UpValHandle := 12; size_InternerEntry := 24;
  size_u32 := 4; size_Value := 16;
|}.
#[local] Existing Instance heap_sizes.

#[local] Instance heap_sizes_laws : HeapSizesLaws heap_sizes.
Proof. by split. Qed.

(** The allocator that never grants anything. *)
Definition refusing_allocator : Allocator := {| grow size need cap := None; shrink size n cap := n |}.

#[local] Instance refusing_laws : AllocatorLaws refusing_allocator.
Proof. split; [done|]. cbn. lia. Qed.

Definition handle (i : Z) : RawGc := mkGc i 0 1.

Definition alloc_table (t : LuaTable) (a : Arena LuaTable) : Arena LuaTable :=
  (Arena.alloc (AL := exact_allocator) size_tables t a meter_default).1.1.

Definition sample_tables : Arena LuaTable :=
  alloc_table LuaTable.new (alloc_table LuaTable.new
    (alloc_table (LuaTable.with_array (mkVec [VTable (handle 2)] 1)) Arena.new)).

Definition sample_heap (force : bool) : Heap :=
  mkHeap 1 (mkStore Arena.new sample_tables Arena.new Arena.new Arena.new Arena.new Arena.new Arena.new)
    (mkPayloads [] vec_new 0) Registry.new ∅ meter_default (Some (handle 0)) None None [] 1000 0 0 0 vec_new 0 100000 force.

Lemma alloc_table_ok t a : arena_ok size_tables a -> arena_ok size_tables (alloc_table t a).
Proof.
  intros Hok. unfold alloc_table.
  destruct (alloc_spec (AL := exact_allocator) size_tables size_tables_pos t a meter_default Hok)
    as (a' & m' & r & -> & Hok' & _). done.
Qed.

Lemma new_bounded {T} sz : 0 < sz -> bounded sz (Arena.new (T := T)).
Proof. intros Hs. split; [by apply new_ok|done]. Qed.

Lemma array_only_wf a : len (items a) < 9007199254740992 -> wf_table (LuaTable.with_array a).
Proof.
  intros Hl. split; [|done]. split; cbn.
  - intros k idx. by rewrite lookup_empty.
  - intros idx s v Hs. unfold zget in Hs. cbn in Hs. by destruct (_ <? _).
  - intros i idx. by rewrite lookup_empty.
Qed.

Lemma new_occupied {T} i : occupied (Arena.new (T := T)) i = false.
Proof. unfold occupied, slot, av_get, zget. cbn. by destruct (_ <? _). Qed.

Lemma new_value {T} i : Arena.gc_value (Arena.new (T := T)) i = None.
Proof.
  pose proof (new_occupied (T := T) i) as H. rewrite occupied_value in H. by destruct (Arena.gc_value _ _).
Qed.

(** The live objects of the sample are its three tables. *)
Lemma sample_live force r :
  live (sample_heap force) r = true -> r = GTable 0 \/ r = GTable 1 \/ r = GTable 2.
Proof.
  unfold live, sample_heap. cbn. destruct r; cbn; rewrite ?new_occupied; try done.
  unfold occupied. destruct (slot sample_tables i) as [e|] eqn:E; [|done]. intros _.
  apply av_get_range in E. change (av_len (entries sample_tables)) with 3 in E.
  assert (i = 0 \/ i = 1 \/ i = 2) as [->|[->| ->]] by lia; auto.
Qed.

Lemma sample_inv force : gc_inv (sample_heap force).
Proof.
  split.
  - split.
    + unfold arenas_ok, store_rel. cbn. split_and!; try (by apply new_bounded).
      split; [|done]. do 3 apply alloc_table_ok. by apply new_ok.
    + intros i t Ht. assert (live (sample_heap force) (GTable i) = true) as Hl.
      { unfold live. cbn [pick]. by rewrite occupied_value, Ht. }
      apply sample_live in Hl as [Hi|[Hi|Hi]]; injection Hi as ->; vm_compute in Ht; injection Ht as <-;
        by apply array_only_wf.
    + split; cbn.
      * intros i u. by rewrite new_value.
      * intros i j u v. by rewrite new_value.
      * constructor.
      * done.
    + intros b g. cbn. by rewrite lookup_empty.
  - intros r [->|[->| ->]]%sample_live; reflexivity.
  - split; cbn; try done.
    + intros r c g [->|[->| ->]]%sample_live Hin; vm_compute in Hin;
        [|by apply not_elem_of_nil in Hin|by apply not_elem_of_nil in Hin].
      apply list_elem_of_singleton in Hin as [= -> ->]. reflexivity.
    + intros i t id. by rewrite new_value.
    + intros g [= <-]. vm_compute. eauto.
    + intros v r g Hv. by apply not_elem_of_nil in Hv.
  - intros i t id. cbn. by rewrite new_value.
  - right. split.
    + intros p c g [->|[->| ->]]%sample_live _ Ha; by vm_compute in Ha.
    + intros r [->|[->| ->]]%sample_live Ha; by vm_compute in Ha.
Qed.

Lemma collect_invariant_witness :
  gc_inv (sample_heap true) /\
  exists h' outcome, collect (AL := exact_allocator) [] (sample_heap true) = (h', Ok outcome) /\
    gc_inv h' /\ validate h' = Ok tt.
Proof. split; [apply sample_inv|]. exact (collect_invariant (AL := exact_allocator) [] _ (sample_inv true)). Defined.

(** Table 1 is garbage. *)
Lemma major_collection_exact_witness :
  gc_inv (sample_heap true) /\ gc_should_major (sample_heap true) = true /\
  (live (sample_heap true) (GTable 1) = true /\
   ~ reach Full (sample_heap true) (heap_roots (sample_heap true) []) (GTable 1)) /\
  reach Full (sample_heap true) (heap_roots (sample_heap true) []) (GTable 2).
Proof.
  pose proof (major_collection_exact (AL := exact_allocator) [] (sample_heap true) (sample_inv true) eq_refl) as H.
  destruct (collect (AL := exact_allocator) [] (sample_heap true)) as [h' [[n|]|e]] eqn:E; [|by vm_compute in E|by vm_compute in E].
  destruct H as [H _]. assert (Hl : forall r, live h' r = live (collect (AL := exact_allocator) [] (sample_heap true)).1 r) by (intros; by rewrite E).
  split; [apply sample_inv|]. split; [reflexivity|]. split.
  - split; [reflexivity|]. intros Hr.
    assert (live h' (GTable 1) = true) as Hx by (apply H; split; [reflexivity|exact Hr]).
    rewrite Hl in Hx. vm_compute in Hx. discriminate Hx.
  - apply H. rewrite Hl. vm_compute. reflexivity.
Defined.

Lemma minor_collection_safe_witness :
  gc_inv (sample_heap false) /\ gc_should_major (sample_heap false) = false /\
  ~ reach Minor (sample_heap false) (minor_roots (sample_heap false) []) (GTable 1).
Proof.
  pose proof (minor_collection_safe (AL := exact_allocator) [] (sample_heap false) (sample_inv false) eq_refl) as H.
  destruct (collect (AL := exact_allocator) [] (sample_heap false)) as [h' [[n|]|e]] eqn:E; [|by vm_compute in E|by vm_compute in E].
  destruct H as (_ & H & _). assert (Hl : forall r, live h' r = live (collect (AL := exact_allocator) [] (sample_heap false)).1 r) by (intros; by rewrite E).
  split; [apply sample_inv|]. split; [reflexivity|]. intros Hr.
  assert (live h' (GTable 1) = true) as Hx by (apply H; split; [reflexivity|intros _; exact Hr]).
  rewrite Hl in Hx. vm_compute in Hx. discriminate Hx.
Defined.

Lemma abandoned_collection_harmless_witness :
  collect (AL := refusing_allocator) [] (sample_heap false) =
    (set_force_major true (reset_all_colors (sample_heap false)), Ok None) /\
  out_of_memory (AL := refusing_allocator).
Proof.
  assert (E : collect (AL := refusing_allocator) [] (sample_heap false) =
    (set_force_major true (reset_all_colors (sample_heap false)), Ok None)) by (vm_compute; reflexivity).
  split; [exact E|].
  exact (proj1 (abandoned_collection_harmless (AL := refusing_allocator) [] _ _ (sample_inv false) E)).
Defined.

Lemma barrier_keeps_invariant_witness :
  stored (GTable 0) (sample_heap false) (sample_heap false) /\
  gc_inv (remember (AL := exact_allocator) (GTable 0) (sample_heap false)).
Proof.
  assert (Hs : stored (GTable 0) (sample_heap false) (sample_heap false)) by (split; try done; reflexivity).
  split; [exact Hs|]. pose proof (sample_inv false) as Hi.
  apply (barrier_keeps_invariant (AL := exact_allocator) (GTable 0) _ _ Hi Hs); apply Hi.
Defined.

End Witnesses.
