(* ===== verification/ExecTypes.v ===== *)
(** * ExecTypes: requests, limits, metrics and errors of the executor

    Model of [ruau-executor/src/types.rs] and of the report constructors of [render.rs]. The
    payload types of errors and reports that other crates define (diagnostics, compile and
    load errors, value snapshots, run metadata) are the members of [Payloads]. *)

From Stdlib Require Import ZArith Lia.
From stdpp Require Import base numbers list option gmap.
From S2P Require Import Prelude.

Class Payloads : Type := {
  Diagnostics : Type;
  CompileError : Type;
  LoadError : Type;
  ValueSnapshot : Type;
  RunMetadata : Type;
}.

(** ** Saturating arithmetic

    A [Duration] is its number of nanoseconds, at most [u64::MAX] seconds and 999999999
    nanoseconds. *)

Definition U64_MAX : Z := 18446744073709551615.
Definition DURATION_MAX : Z := 18446744073709551615 * 1000000000 + 999999999.

Definition u64_saturating_add (x y : Z) : Z := Z.min U64_MAX (x + y).
Definition u64_saturating_sub (x y : Z) : Z := Z.max 0 (x - y).
Definition duration_saturating_add (x y : Z) : Z := Z.min DURATION_MAX (x + y).
Definition duration_saturating_sub (x y : Z) : Z := Z.max 0 (x - y).

(** [u64::try_from(x).unwrap_or(u64::MAX)] of a [usize]. *)
Definition u64_of_usize (x : Z) : Z := if x <=? U64_MAX then x else U64_MAX.

(** ** Limits *)

(** [TenantId]. *)
Notation TenantId := Z (only parsing).

Record IngressLimits : Set := mkIngressLimits {
  max_in_flight : Z;
  max_in_flight_per_tenant : Z;
}.

Definition usize_saturating_mul (x y : Z) : Z := Z.min U64_MAX (x * y).

Definition fail_closed (lane_count : Z) : IngressLimits :=
  mkIngressLimits (Z.max (usize_saturating_mul lane_count 8) 8)
    (Z.max (usize_saturating_mul lane_count 2) 2).

Definition ingress_unlimited : IngressLimits := mkIngressLimits U64_MAX U64_MAX.

Record AggregateResourceLimits : Set := mkAggregateLimits {
  max_requests : option Z;
  max_source_bytes : option Z;
  max_preflight_time : option Z;
  max_run_time : option Z;
  max_gas_spent : option Z;
  max_charged_bytes : option Z;
}.

Definition aggregate_unlimited : AggregateResourceLimits :=
  mkAggregateLimits None None None None None None.

Inductive AggregateResourceLimit : Set :=
| Requests
| SourceBytes
| PreflightTime
| RunTime
| GasSpent
| ChargedBytes.

Record TenantResourceTotals : Set := mkTotals {
  tt_requests : Z;
  tt_source_bytes : Z;
  tt_preflight_time : Z;
  tt_run_time : Z;
  tt_parse_ast_nodes : Z;
  tt_type_arena_nodes : Z;
  tt_compiled_instructions : Z;
  tt_compiled_bytecode_bytes : Z;
  tt_gas_spent : Z;
  tt_vm_execution_count : Z;
  tt_heap_bytes : Z;
  tt_peak_heap_bytes : Z;
  tt_charged_bytes : Z;
}.

Definition totals_default : TenantResourceTotals := mkTotals 0 0 0 0 0 0 0 0 0 0 0 0 0.

Inductive PreflightStage : Set := Parse | TypeCheck | Compile.

Inductive PreflightLimit : Set :=
| ParseAstNodes
| ArenaNodes
| CompiledInstructions
| CompiledBytecodeBytes.

Inductive IngressScope : Set := Pool | Tenant.

(** [StopReason] of [ruau-vm/src/cancel.rs]. *)
Inductive StopReason : Set := StopCancelled | StopDeadline.

Record RequestMetrics : Set := mkMetrics {
  rm_source_bytes : Z;
  rm_parse_time : Z;
  rm_check_time : Z;
  rm_compile_time : Z;
  rm_vm_build_time : Z;
  rm_sandbox_time : Z;
  rm_load_time : Z;
  rm_run_time : Z;
  rm_parse_ast_nodes : Z;
  rm_type_arena_nodes : Z;
  rm_compiled_instructions : Z;
  rm_compiled_bytecode_bytes : Z;
  rm_gas_spent : Z;
  rm_vm_execution_count : Z;
  rm_heap_bytes : Z;
  rm_peak_heap_bytes : Z;
  rm_gc_cycles : Z;
}.

(** [RequestMetrics { source_bytes, ..Default::default() }]. *)
Definition metrics_of_source (source_bytes : Z) : RequestMetrics :=
  mkMetrics source_bytes 0 0 0 0 0 0 0 0 0 0 0 0 0 0 0 0.

(** ** Errors and reports *)

Inductive FailureCategory : Set :=
| CatSourceTooLarge
| CatTypeErrors
| CatCompile
| CatPreflightLimit
| CatIngressRejected
| CatAggregateResourceLimit
| CatLaneAdmissionRejected
| CatLoad
| CatSandboxFailed
| CatCancelled
| CatDeadlineExceeded
| CatOutOfMemory
| CatPanicPoison
| CatHandlerFailure
| CatRuntime.

Section Errors.
Context {PL : Payloads}.

Inductive RequestError : Type :=
| SourceTooLarge (bytes cap : Z)
| TypeErrors (d : Diagnostics)
| CompileFailed (e : CompileError)
| PreflightLimitExceeded (stage : PreflightStage) (limit : PreflightLimit) (used cap : Z)
| IngressRejected (tenant : TenantId) (in_flight cap : Z) (scope : IngressScope)
| AggregateResourceLimitExceeded (tenant : TenantId) (limit : AggregateResourceLimit) (used cap : Z)
| LaneAdmissionRejected (tenant : TenantId)
| LoadFailed (e : LoadError)
| SandboxFailed
| Cancelled
| DeadlineExceeded
| OutOfMemory (v : ValueSnapshot)
| PanicPoison (v : ValueSnapshot)
| HandlerFailure (v : ValueSnapshot)
| Runtime (v : ValueSnapshot).

Definition category (e : RequestError) : FailureCategory :=
  match e with
  | SourceTooLarge _ _ => CatSourceTooLarge
  | TypeErrors _ => CatTypeErrors
  | CompileFailed _ => CatCompile
  | PreflightLimitExceeded _ _ _ _ => CatPreflightLimit
  | IngressRejected _ _ _ _ => CatIngressRejected
  | AggregateResourceLimitExceeded _ _ _ _ => CatAggregateResourceLimit
  | LaneAdmissionRejected _ => CatLaneAdmissionRejected
  | LoadFailed _ => CatLoad
  | SandboxFailed => CatSandboxFailed
  | Cancelled => CatCancelled
  | DeadlineExceeded => CatDeadlineExceeded
  | OutOfMemory _ => CatOutOfMemory
  | PanicPoison _ => CatPanicPoison
  | HandlerFailure _ => CatHandlerFailure
  | Runtime _ => CatRuntime
  end.

Definition stop_reason (e : RequestError) : option StopReason :=
  match e with
  | Cancelled => Some StopCancelled
  | DeadlineExceeded => Some StopDeadline
  | _ => None
  end.

Record RunReport : Type := mkReport {
  rr_tenant : TenantId;
  rr_result : result RequestError (list ValueSnapshot);
  rr_metrics : RequestMetrics;
  rr_metadata : RunMetadata;
  rr_failure_category : option FailureCategory;
  rr_stop_reason : option StopReason;
}.

Definition request_report_error (error : RequestError) (metrics : RequestMetrics)
    (metadata : RunMetadata) (tenant : TenantId) : RunReport :=
  mkReport tenant (Err error) metrics metadata (Some (category error)) (stop_reason error).

Definition request_report_success (values : list ValueSnapshot) (metrics : RequestMetrics)
    (metadata : RunMetadata) (tenant : TenantId) : RunReport :=
  mkReport tenant (Ok values) metrics metadata None None.
End Errors.
