(* ===== verification/Admission.v ===== *)
(** * Admission: ingress control and per-tenant resource accounting

    Model of [ruau-executor/src/admission.rs] and of the parts of [pipeline.rs] that take and
    give back its guards. Each operation runs under one mutex and is a function of the state
    that the mutex protects; a poisoned lock is entered anyway, so poisoning changes nothing.
    A guard is a value, its [Drop] an operation. The iteration order of a [HashMap] is the
    member of [HashOrder]. *)

From Stdlib Require Import ZArith Lia.
From stdpp Require Import base numbers list option gmap.
From S2P Require Import Prelude ExecTypes.

Definition MAX_TRACKED_TENANTS : Z := 4096.

(** ** Ingress *)

Record IngressState : Type := mkIngress {
  ig_total : Z;
  ig_per_tenant : gmap Z Z;
}.

Definition ingress_default : IngressState := mkIngress 0 ∅.

(** [IngressGuard], the tenant it stands for. *)
Record IngressGuard : Set := mkGuard { ig_tenant : TenantId }.

Section Ingress.
Context {PL : Payloads} (limits : IngressLimits).

Definition in_flight_of (st : IngressState) (tenant : TenantId) : Z :=
  default 0 (ig_per_tenant st !! tenant).

Definition try_enter (st : IngressState) (tenant : TenantId)
  : IngressState * result RequestError IngressGuard :=
  if max_in_flight limits <=? ig_total st then
    (st, Err (IngressRejected tenant (ig_total st) (max_in_flight limits) Pool))
  else
    let tenant_in_flight := in_flight_of st tenant in
    if max_in_flight_per_tenant limits <=? tenant_in_flight then
      (st, Err (IngressRejected tenant tenant_in_flight (max_in_flight_per_tenant limits) Tenant))
    else
      (mkIngress (as_u64 (ig_total st + 1))
         (<[tenant := as_u64 (tenant_in_flight + 1)]> (ig_per_tenant st)),
       Ok (mkGuard tenant)).
End Ingress.

Definition release (st : IngressState) (tenant : TenantId) : IngressState :=
  let total := u64_saturating_sub (ig_total st) 1 in
  match ig_per_tenant st !! tenant with
  | Some count =>
      let count := u64_saturating_sub count 1 in
      if count =? 0 then mkIngress total (delete tenant (ig_per_tenant st))
      else mkIngress total (<[tenant := count]> (ig_per_tenant st))
  | None => mkIngress total (ig_per_tenant st)
  end.

(** [Drop for IngressGuard]. *)
Definition ingress_drop (st : IngressState) (g : IngressGuard) : IngressState :=
  release st (ig_tenant g).

(** ** Accounted resources *)

Record AccountedResources : Set := mkResources {
  ar_requests : Z;
  ar_source_bytes : Z;
  ar_preflight_time : Z;
  ar_run_time : Z;
  ar_gas_spent : Z;
  ar_charged_bytes : Z;
}.

Definition resources_default : AccountedResources := mkResources 0 0 0 0 0 0.

Definition LIMITS : list AggregateResourceLimit :=
  [Requests; SourceBytes; PreflightTime; RunTime; GasSpent; ChargedBytes].

Definition saturating_add (a b : AccountedResources) : AccountedResources :=
  mkResources
    (u64_saturating_add (ar_requests a) (ar_requests b))
    (u64_saturating_add (ar_source_bytes a) (ar_source_bytes b))
    (duration_saturating_add (ar_preflight_time a) (ar_preflight_time b))
    (duration_saturating_add (ar_run_time a) (ar_run_time b))
    (u64_saturating_add (ar_gas_spent a) (ar_gas_spent b))
    (u64_saturating_add (ar_charged_bytes a) (ar_charged_bytes b)).

Definition saturating_sub (a b : AccountedResources) : AccountedResources :=
  mkResources
    (u64_saturating_sub (ar_requests a) (ar_requests b))
    (u64_saturating_sub (ar_source_bytes a) (ar_source_bytes b))
    (duration_saturating_sub (ar_preflight_time a) (ar_preflight_time b))
    (duration_saturating_sub (ar_run_time a) (ar_run_time b))
    (u64_saturating_sub (ar_gas_spent a) (ar_gas_spent b))
    (u64_saturating_sub (ar_charged_bytes a) (ar_charged_bytes b)).

(** [AccountedResources::value]. *)
Definition value (a : AccountedResources) (limit : AggregateResourceLimit) : Z :=
  match limit with
  | Requests => ar_requests a
  | SourceBytes => ar_source_bytes a
  | PreflightTime => ar_preflight_time a
  | RunTime => ar_run_time a
  | GasSpent => ar_gas_spent a
  | ChargedBytes => ar_charged_bytes a
  end.

Definition accounted (t : TenantResourceTotals) : AccountedResources :=
  mkResources (tt_requests t) (tt_source_bytes t) (tt_preflight_time t) (tt_run_time t)
    (tt_gas_spent t) (tt_charged_bytes t).

Definition charged_bytes (m : RequestMetrics) : Z :=
  u64_saturating_add
    (u64_saturating_add (u64_of_usize (rm_source_bytes m))
       (u64_of_usize (rm_compiled_bytecode_bytes m)))
    (u64_of_usize (rm_peak_heap_bytes m)).

(** [TenantResourceTotals::record]. *)
Definition record (t : TenantResourceTotals) (m : RequestMetrics) : TenantResourceTotals :=
  mkTotals
    (u64_saturating_add (tt_requests t) 1)
    (u64_saturating_add (tt_source_bytes t) (u64_of_usize (rm_source_bytes m)))
    (duration_saturating_add
       (duration_saturating_add
          (duration_saturating_add (tt_preflight_time t) (rm_parse_time m))
          (rm_check_time m))
       (rm_compile_time m))
    (duration_saturating_add (tt_run_time t) (rm_run_time m))
    (u64_saturating_add (tt_parse_ast_nodes t) (u64_of_usize (rm_parse_ast_nodes m)))
    (u64_saturating_add (tt_type_arena_nodes t) (u64_of_usize (rm_type_arena_nodes m)))
    (u64_saturating_add (tt_compiled_instructions t) (u64_of_usize (rm_compiled_instructions m)))
    (u64_saturating_add (tt_compiled_bytecode_bytes t)
       (u64_of_usize (rm_compiled_bytecode_bytes m)))
    (u64_saturating_add (tt_gas_spent t) (rm_gas_spent m))
    (u64_saturating_add (tt_vm_execution_count t) (rm_vm_execution_count m))
    (u64_of_usize (rm_heap_bytes m))
    (Z.max (tt_peak_heap_bytes t) (u64_of_usize (rm_peak_heap_bytes m)))
    (u64_saturating_add (tt_charged_bytes t) (charged_bytes m)).

(** ** Tenant accounting *)

Record TrackedTenantTotals : Set := mkTracked {
  last_recorded : Z;
  totals_of : TenantResourceTotals;
  pending : AccountedResources;
}.

Record TenantAccountingState : Type := mkAccounting {
  sequence : Z;
  evictions : Z;
  per_tenant : gmap Z TrackedTenantTotals;
}.

Definition accounting_default : TenantAccountingState := mkAccounting 0 0 ∅.

(** The iteration order of a hash map: every entry once, in some order. *)
Class HashOrder : Type := {
  hash_iter : gmap Z TrackedTenantTotals -> list (Z * TrackedTenantTotals);
}.

Class HashOrderLaws {HO : HashOrder} : Prop := {
  hash_iter_perm m : hash_iter m ≡ₚ map_to_list m;
}.
Arguments HashOrderLaws : clear implicits.

(** [Iterator::min_by_key]: the first of the minimal elements. *)
Fixpoint min_by_key {A} (key : A -> Z) (l : list A) : option A :=
  match l with
  | [] => None
  | x :: t =>
      match min_by_key key t with
      | None => Some x
      | Some y => if key y <? key x then Some y else Some x
      end
  end.

Record TenantResourceReservation : Set := mkReservation {
  rv_tenant : TenantId;
  rv_resources : AccountedResources;
  rv_settled : bool;
}.

Definition aggregate_cap (limits : AggregateResourceLimits) (limit : AggregateResourceLimit)
  : option Z :=
  match limit with
  | Requests => max_requests limits
  | SourceBytes => max_source_bytes limits
  | PreflightTime => max_preflight_time limits
  | RunTime => max_run_time limits
  | GasSpent => max_gas_spent limits
  | ChargedBytes => max_charged_bytes limits
  end.

Section Checks.
Context {PL : Payloads}.

Definition check_aggregate_limit_reached (tenant : TenantId) (limit : AggregateResourceLimit)
    (used : Z) (cap : option Z) : result RequestError unit :=
  match cap with
  | Some cap =>
      if cap <=? used then Err (AggregateResourceLimitExceeded tenant limit used cap) else Ok tt
  | None => Ok tt
  end.

Definition check_aggregate_limit_exceeded (tenant : TenantId) (limit : AggregateResourceLimit)
    (used : Z) (cap : option Z) : result RequestError unit :=
  match cap with
  | Some cap =>
      if cap <? used then Err (AggregateResourceLimitExceeded tenant limit used cap) else Ok tt
  | None => Ok tt
  end.

(** A [for] loop of fallible checks. *)
Fixpoint check_each (check : AggregateResourceLimit -> result RequestError unit)
    (l : list AggregateResourceLimit) : result RequestError unit :=
  match l with
  | [] => Ok tt
  | limit :: t => let? _ := check limit in check_each check t
  end.

Definition check_aggregate_current (tenant : TenantId) (limits : AggregateResourceLimits)
    (current : AccountedResources) : result RequestError unit :=
  check_each (fun limit =>
    let used := value current limit in
    let cap := aggregate_cap limits limit in
    match limit with
    | SourceBytes | ChargedBytes => check_aggregate_limit_exceeded tenant limit used cap
    | _ => check_aggregate_limit_reached tenant limit used cap
    end) LIMITS.

Definition check_aggregate_projection (tenant : TenantId) (limits : AggregateResourceLimits)
    (projected : AccountedResources) : result RequestError unit :=
  check_each (fun limit =>
    check_aggregate_limit_exceeded tenant limit (value projected limit)
      (aggregate_cap limits limit)) LIMITS.
End Checks.

Section Accounting.
Context {PL : Payloads} {HO : HashOrder}.
Implicit Types st : TenantAccountingState.

Definition ensure_tenant_slot st (tenant : TenantId) : TenantAccountingState :=
  if bool_decide (is_Some (per_tenant st !! tenant)) ||
     (Z.of_nat (size (per_tenant st)) <? MAX_TRACKED_TENANTS)
  then st
  else
    match
      min_by_key (fun p => last_recorded (snd p))
        (filter (fun p => ar_requests (pending (snd p)) = 0) (hash_iter (per_tenant st)))
    with
    | Some (evict, _) =>
        mkAccounting (sequence st) (u64_saturating_add (evictions st) 1)
          (delete evict (per_tenant st))
    | None => st
    end.

(** Returns the state with the entry present, and the entry. *)
Definition entry_for_tenant st (tenant : TenantId)
  : TenantAccountingState * TrackedTenantTotals :=
  match per_tenant st !! tenant with
  | Some tracked => (st, tracked)
  | None =>
      let tracked := mkTracked (sequence st) totals_default resources_default in
      (mkAccounting (sequence st) (evictions st) (<[tenant := tracked]> (per_tenant st)), tracked)
  end.

(** Writing through the reference that [entry_for_tenant] or [get_mut] returned. *)
Definition put_tracked st (tenant : TenantId) (tracked : TrackedTenantTotals)
  : TenantAccountingState :=
  mkAccounting (sequence st) (evictions st) (<[tenant := tracked]> (per_tenant st)).

Definition next_sequence st : TenantAccountingState :=
  mkAccounting (as_u64 (sequence st + 1)) (evictions st) (per_tenant st).

Definition try_reserve st (tenant : TenantId) (limits : AggregateResourceLimits)
    (reservation : AccountedResources)
  : TenantAccountingState * result RequestError TenantResourceReservation :=
  let st := ensure_tenant_slot st tenant in
  let (st, tracked) := entry_for_tenant st tenant in
  let current := saturating_add (accounted (totals_of tracked)) (pending tracked) in
  match
    let? _ := check_aggregate_current tenant limits current in
    check_aggregate_projection tenant limits (saturating_add current reservation)
  with
  | Err e => (st, Err e)
  | Ok _ =>
      let st := next_sequence st in
      let (st, tracked) := entry_for_tenant st tenant in
      (put_tracked st tenant
         (mkTracked (sequence st) (totals_of tracked)
            (saturating_add (pending tracked) reservation)),
       Ok (mkReservation tenant reservation false))
  end.

(** [TenantResourceAccounting::totals]. *)
Definition totals st (tenant : TenantId) : TenantResourceTotals :=
  match per_tenant st !! tenant with
  | Some tracked => totals_of tracked
  | None => totals_default
  end.

Definition release_reservation st (tenant : TenantId) (reservation : AccountedResources)
  : TenantAccountingState :=
  match per_tenant st !! tenant with
  | Some tracked =>
      put_tracked st tenant
        (mkTracked (last_recorded tracked) (totals_of tracked)
           (saturating_sub (pending tracked) reservation))
  | None => st
  end.

Definition settle_reservation st (tenant : TenantId) (reservation : AccountedResources)
    (metrics : RequestMetrics) : TenantAccountingState :=
  let st := next_sequence st in
  let (st, tracked) := entry_for_tenant st tenant in
  put_tracked st tenant
    (mkTracked (sequence st) (record (totals_of tracked) metrics)
       (saturating_sub (pending tracked) reservation)).

(** [Drop for TenantResourceReservation]. *)
Definition reservation_drop st (r : TenantResourceReservation) : TenantAccountingState :=
  if rv_settled r then st else release_reservation st (rv_tenant r) (rv_resources r).

(** [TenantResourceReservation::settle], the drop of the consumed guard included. *)
Definition settle st (r : TenantResourceReservation) (metrics : RequestMetrics)
  : TenantAccountingState :=
  let st := settle_reservation st (rv_tenant r) (rv_resources r) metrics in
  reservation_drop st (mkReservation (rv_tenant r) (rv_resources r) true).
End Accounting.

(** ** The executor's use of the guards ([pipeline.rs]) *)

(** The configuration of an [Executor] that admission reads; [base_gas] and [base_memory] are
    [base_limits.gas] and [base_limits.max_memory_bytes]. *)
Record ExecutorConfig : Set := mkConfig {
  ec_max_source_bytes : Z;
  ec_ingress : IngressLimits;
  ec_aggregate : AggregateResourceLimits;
  ec_base_gas : option Z;
  ec_base_memory : option Z;
  ec_max_compiled_bytecode_bytes : Z;
}.

Record ExecutorState : Type := mkExecutor {
  ex_ingress : IngressState;
  ex_accounting : TenantAccountingState;
}.

Definition executor_default : ExecutorState := mkExecutor ingress_default accounting_default.

Section Pipeline.
Context {PL : Payloads} {HO : HashOrder}.
Implicit Types (cfg : ExecutorConfig) (ex : ExecutorState).

(** [remaining] is the time left until the deadline, which the source reads from the clock. *)
Definition aggregate_reservation cfg (source_bytes remaining : Z) : AccountedResources :=
  let lim := ec_aggregate cfg in
  let source := u64_of_usize source_bytes in
  mkResources 1 source
    (match max_preflight_time lim with Some cap => Z.min remaining cap | None => 0 end)
    (match max_run_time lim with Some cap => Z.min remaining cap | None => 0 end)
    (match max_gas_spent lim with
     | Some cap => Z.min (default cap (ec_base_gas cfg)) cap
     | None => 0
     end)
    (match max_charged_bytes lim with
     | Some cap =>
         let bytecode := u64_of_usize (ec_max_compiled_bytecode_bytes cfg) in
         let heap := default cap (u64_of_usize <$> ec_base_memory cfg) in
         Z.min (u64_saturating_add (u64_saturating_add source bytecode) heap) cap
     | None => 0
     end).

Record AdmittedRequest : Type := mkAdmitted {
  ad_metadata : RunMetadata;
  ad_metrics : RequestMetrics;
  ad_ingress : IngressGuard;
  ad_reservation : TenantResourceReservation;
}.

(** On the ingress error path the reservation goes out of scope and is dropped. *)
Definition admit_request cfg ex (tenant : TenantId) (metadata : RunMetadata)
    (source_bytes remaining : Z) : ExecutorState * result RunReport AdmittedRequest :=
  let metrics := metrics_of_source source_bytes in
  if ec_max_source_bytes cfg <? source_bytes then
    (ex, Err (request_report_error (SourceTooLarge source_bytes (ec_max_source_bytes cfg))
                metrics metadata tenant))
  else
    match try_reserve (ex_accounting ex) tenant (ec_aggregate cfg)
            (aggregate_reservation cfg source_bytes remaining) with
    | (acc, Err error) =>
        (mkExecutor (ex_ingress ex) acc, Err (request_report_error error metrics metadata tenant))
    | (acc, Ok reservation) =>
        match try_enter (ec_ingress cfg) (ex_ingress ex) tenant with
        | (ing, Err error) =>
            (mkExecutor ing (reservation_drop acc reservation),
             Err (request_report_error error metrics metadata tenant))
        | (ing, Ok guard) =>
            (mkExecutor ing acc, Ok (mkAdmitted metadata metrics guard reservation))
        end
    end.

Definition should_record_report_resources (report : RunReport) : bool :=
  let m := rr_metrics report in
  negb ((rm_parse_time m =? 0) && (rm_check_time m =? 0) && (rm_compile_time m =? 0) &&
        (rm_vm_build_time m =? 0) && (rm_sandbox_time m =? 0) && (rm_load_time m =? 0) &&
        (rm_run_time m =? 0)).

(** The reservation is consumed: settled, or dropped at the end of the call. *)
Definition finalize_admitted_report (acc : TenantAccountingState) (report : RunReport)
    (reservation : TenantResourceReservation) : TenantAccountingState :=
  if should_record_report_resources report then settle acc reservation (rr_metrics report)
  else reservation_drop acc reservation.

Record LaneAccounting : Set := mkLane {
  la_reservation : option TenantResourceReservation;
  la_ingress : option IngressGuard;
  la_baseline : RequestMetrics;
}.

Definition lane_new (reservation : TenantResourceReservation) (ingress : IngressGuard)
    (baseline : RequestMetrics) : LaneAccounting :=
  mkLane (Some reservation) (Some ingress) baseline.

(** [Drop for LaneAccounting]: the drop body, then the fields (an ingress guard still held). *)
Definition lane_drop ex (l : LaneAccounting) : ExecutorState :=
  let acc := match la_reservation l with
             | Some r => settle (ex_accounting ex) r (la_baseline l)
             | None => ex_accounting ex
             end in
  let ing := match la_ingress l with
             | Some g => ingress_drop (ex_ingress ex) g
             | None => ex_ingress ex
             end in
  mkExecutor ing acc.

(** [LaneAccounting::settle]; [self] is dropped with both fields taken. *)
Definition lane_settle ex (l : LaneAccounting) (metrics : RequestMetrics) : ExecutorState :=
  let acc := match la_reservation l with
             | Some r => settle (ex_accounting ex) r metrics
             | None => ex_accounting ex
             end in
  let ing := match la_ingress l with
             | Some g => ingress_drop (ex_ingress ex) g
             | None => ex_ingress ex
             end in
  lane_drop (mkExecutor ing acc) (mkLane None None (la_baseline l)).
End Pipeline.
