(* ===== verification/AdmissionFacts.v ===== *)
(** * AdmissionFacts: the guard machine and its invariants

    Requests run concurrently and take each mutex separately, so the executor is the machine
    [adm_step], one transition per critical section, with the guards that are alive as ghost
    state. The lemmas show that each transition preserves the ingress invariant (counters are
    the numbers of live guards), the accounting invariant (pending resources are the sums of
    the live reservations), the budget invariant and the bound on tracked tenants. *)

From Stdlib Require Import ZArith Lia.
From stdpp Require Import base numbers list option gmap relations sets.
From S2P Require Import Prelude ExecTypes Admission.

(** ** Resources by dimension *)

Definition limit_max (limit : AggregateResourceLimit) : Z :=
  match limit with PreflightTime | RunTime => DURATION_MAX | _ => U64_MAX end.

Definition resources_ok (r : AccountedResources) : Prop :=
  forall limit, 0 <= value r limit <= limit_max limit.

Lemma value_add a b limit :
  value (saturating_add a b) limit = Z.min (limit_max limit) (value a limit + value b limit).
Proof. by destruct limit. Qed.

Lemma value_sub a b limit :
  value (saturating_sub a b) limit = Z.max 0 (value a limit - value b limit).
Proof. by destruct limit. Qed.

Lemma value_default limit : value resources_default limit = 0.
Proof. by destruct limit. Qed.

Lemma limit_max_pos limit : 0 < limit_max limit.
Proof. by destruct limit. Qed.

Lemma value_ext a b : (forall limit, value a limit = value b limit) -> a = b.
Proof.
  intros H. destruct a, b. pose proof (H Requests). pose proof (H SourceBytes).
  pose proof (H PreflightTime). pose proof (H RunTime). pose proof (H GasSpent).
  pose proof (H ChargedBytes). cbn in *. congruence.
Qed.

(** What settling with [m] adds to the recorded totals. *)
Definition charge (m : RequestMetrics) : AccountedResources :=
  mkResources 1 (u64_of_usize (rm_source_bytes m))
    (rm_parse_time m + rm_check_time m + rm_compile_time m) (rm_run_time m)
    (rm_gas_spent m) (charged_bytes m).

Definition metrics_ok (m : RequestMetrics) : Prop :=
  0 <= rm_parse_time m /\ 0 <= rm_check_time m /\ 0 <= rm_compile_time m /\
  forall limit, 0 <= value (charge m) limit.

Lemma value_record t m limit :
  (forall limit, 0 <= value (accounted t) limit <= limit_max limit) -> metrics_ok m ->
  value (accounted (record t m)) limit =
    Z.min (limit_max limit) (value (accounted t) limit + value (charge m) limit).
Proof.
  intros Ht (Hp & Hc & Hm & _). specialize (Ht limit).
  destruct limit; try done. cbn in *. unfold duration_saturating_add. lia.
Qed.

(** ** Live guards *)

Notation LiveReservation := (Z * AccountedResources)%type (only parsing).

Definition live_sum (t : TenantId) (limit : AggregateResourceLimit) (l : list LiveReservation) : Z :=
  foldr (fun p acc => (if decide (fst p = t) then value (snd p) limit else 0) + acc) 0 l.

Lemma live_sum_cons t limit t' r l :
  live_sum t limit ((t', r) :: l) = (if decide (t' = t) then value r limit else 0) + live_sum t limit l.
Proof. done. Qed.

#[export] Instance live_sum_perm t limit : Proper ((≡ₚ) ==> eq) (live_sum t limit).
Proof.
  induction 1 as [|[] l l' _ IH|[] [] l|l1 l2 l3 _ IH1 _ IH2]; rewrite ?live_sum_cons; [done|lia|lia|congruence].
Qed.

Definition live_ok (l : list LiveReservation) : Prop :=
  Forall (fun p => resources_ok (snd p) /\ 1 <= ar_requests (snd p)) l.

Lemma live_sum_nonneg t limit l : live_ok l -> 0 <= live_sum t limit l.
Proof.
  induction 1 as [|[t' r] l [Hr _] _ IH]; [done|]. rewrite live_sum_cons.
  specialize (Hr limit). cbn [snd] in Hr. case_decide; lia.
Qed.

Lemma live_sum_zero t l : live_ok l -> live_sum t Requests l = 0 -> t ∉ l.*1.
Proof.
  induction 1 as [|[t' r] l [Hr H1] Hl IH]; [intros _; apply not_elem_of_nil|]. rewrite live_sum_cons.
  pose proof (live_sum_nonneg t Requests l Hl). cbn [snd] in H1. change (value r Requests) with (ar_requests r). intros Hs.
  cbn. apply not_elem_of_cons. case_decide; [lia|]. split; [done|]. apply IH. lia.
Qed.

Lemma live_sum_absent t limit l : t ∉ l.*1 -> live_sum t limit l = 0.
Proof.
  induction l as [|[t' r] l IH]; [done|]. rewrite live_sum_cons. cbn.
  intros [Hne Hl]%not_elem_of_cons. rewrite decide_False by congruence. rewrite IH; done.
Qed.

(** The number of live ingress guards of a tenant. *)
Definition guards_of (t : TenantId) (l : list Z) : Z := len (filter (fun t' => t' = t) l).

#[export] Instance guards_of_perm t : Proper ((≡ₚ) ==> eq) (guards_of t).
Proof. intros l l' H. unfold guards_of, len. by rewrite H. Qed.

Lemma guards_of_cons t t' l :
  guards_of t (t' :: l) = (if decide (t' = t) then 1 else 0) + guards_of t l.
Proof. unfold guards_of, len. rewrite filter_cons. case_decide; cbn [length]; lia. Qed.

Lemma guards_of_nonneg t l : 0 <= guards_of t l.
Proof. apply len_nonneg. Qed.

(** ** The machine *)

Record World : Type := mkWorld {
  w_ex : ExecutorState;
  w_reservations : list LiveReservation;
  w_guards : list Z;
  w_peak : Z;
}.

Definition world0 : World := mkWorld executor_default [] [] 0.

Definition w_accounting (w : World) : TenantAccountingState := ex_accounting (w_ex w).
Definition w_ingress (w : World) : IngressState := ex_ingress (w_ex w).

Definition with_accounting (w : World) (a : TenantAccountingState) (l : list LiveReservation) : World :=
  mkWorld (mkExecutor (w_ingress w) a) l (w_guards w) (Z.max (w_peak w) (len l)).

Definition with_ingress (w : World) (i : IngressState) (l : list Z) : World :=
  mkWorld (mkExecutor i (w_accounting w)) (w_reservations w) l (w_peak w).

(** Limits as their machine types allow them. *)
Definition config_ok (cfg : ExecutorConfig) : Prop :=
  is_u64 (max_in_flight (ec_ingress cfg)) /\ is_u64 (max_in_flight_per_tenant (ec_ingress cfg)) /\
  (forall limit cap, aggregate_cap (ec_aggregate cfg) limit = Some cap -> 0 <= cap <= limit_max limit).

Section Machine.
Context {PL : Payloads} {HO : HashOrder}.
(** What a settlement must satisfy: [honest r m] for a reservation [r] settled with [m]. *)
Context (cfg : ExecutorConfig) (honest : AccountedResources -> RequestMetrics -> Prop).

(** One critical section. A reservation covers at least one request, as
    [aggregate_reservation] makes it, and the live reservations of a tenant stay within the
    range of their counters. *)
Inductive adm_step : World -> World -> Prop :=
| step_reserve w t r a g :
    resources_ok r -> 1 <= ar_requests r ->
    (forall limit, live_sum t limit (w_reservations w) + value r limit <= limit_max limit) ->
    try_reserve (w_accounting w) t (ec_aggregate cfg) r = (a, Ok g) ->
    adm_step w (with_accounting w a ((t, r) :: w_reservations w))
| step_reserve_rejected w t r a e :
    try_reserve (w_accounting w) t (ec_aggregate cfg) r = (a, Err e) ->
    adm_step w (with_accounting w a (w_reservations w))
| step_settle w t r l m :
    w_reservations w ≡ₚ (t, r) :: l -> metrics_ok m -> honest r m ->
    adm_step w (with_accounting w (settle (w_accounting w) (mkReservation t r false) m) l)
| step_release w t r l :
    w_reservations w ≡ₚ (t, r) :: l ->
    adm_step w (with_accounting w (reservation_drop (w_accounting w) (mkReservation t r false)) l)
| step_enter w t i g :
    try_enter (ec_ingress cfg) (w_ingress w) t = (i, Ok g) ->
    adm_step w (with_ingress w i (t :: w_guards w))
| step_enter_rejected w t i e :
    try_enter (ec_ingress cfg) (w_ingress w) t = (i, Err e) ->
    adm_step w (with_ingress w i (w_guards w))
| step_leave w t l :
    w_guards w ≡ₚ t :: l ->
    adm_step w (with_ingress w (ingress_drop (w_ingress w) (mkGuard t)) l).

Definition reachable (w : World) : Prop := rtc adm_step world0 w.
End Machine.

(** ** Ingress *)

Definition ingress_inv (cfg : ExecutorConfig) (st : IngressState) (guards : list Z) : Prop :=
  ig_total st = len guards /\ len guards <= max_in_flight (ec_ingress cfg) /\
  forall t, guards_of t guards <= max_in_flight_per_tenant (ec_ingress cfg) /\
    ig_per_tenant st !! t = if decide (guards_of t guards = 0) then None else Some (guards_of t guards).

Lemma ingress_inv_init cfg : config_ok cfg -> ingress_inv cfg ingress_default [].
Proof. intros ([H1 _] & [H2 _] & _). repeat split; cbn; try done; apply lookup_empty. Qed.

Lemma in_flight_guards cfg st guards t :
  ingress_inv cfg st guards -> in_flight_of st t = guards_of t guards.
Proof.
  intros (_ & _ & H). unfold in_flight_of. destruct (H t) as [_ ->]. by case_decide.
Qed.

Lemma try_enter_spec `{PL : Payloads} cfg st guards t :
  config_ok cfg -> ingress_inv cfg st guards ->
  match try_enter (ec_ingress cfg) st t with
  | (st', Ok g) =>
      g = mkGuard t /\ ingress_inv cfg st' (t :: guards) /\
      len guards < max_in_flight (ec_ingress cfg) /\
      guards_of t guards < max_in_flight_per_tenant (ec_ingress cfg)
  | (st', Err e) =>
      st' = st /\
      ((e = IngressRejected t (len guards) (max_in_flight (ec_ingress cfg)) Pool /\
        len guards = max_in_flight (ec_ingress cfg)) \/
       (e = IngressRejected t (guards_of t guards) (max_in_flight_per_tenant (ec_ingress cfg)) Tenant /\
        len guards < max_in_flight (ec_ingress cfg) /\
        guards_of t guards = max_in_flight_per_tenant (ec_ingress cfg)))
  end.
Proof.
  intros ([_ Hm] & [_ Hp] & _) Hi. pose proof (in_flight_guards _ _ _ t Hi) as Hf.
  destruct Hi as (Ht & Hle & Hall). unfold try_enter. rewrite Ht, Hf.
  destruct (Z.leb_spec (max_in_flight (ec_ingress cfg)) (len guards)); [split; [done|]; left; split; [done|lia]|].
  destruct (Hall t) as [Hct _].
  destruct (Z.leb_spec (max_in_flight_per_tenant (ec_ingress cfg)) (guards_of t guards));
    [split; [done|]; right; split; [done|]; lia|].
  pose proof (len_nonneg guards). pose proof (guards_of_nonneg t guards).
  rewrite !as_u64_small by (unfold is_u64; lia).
  split; [done|]. split; [|lia]. split; [cbn; by rewrite len_cons|]. split; [rewrite len_cons; lia|].
  intros t'. cbn. destruct (Hall t') as [Hc' Hl]. rewrite guards_of_cons. destruct (decide (t = t')) as [->|Hne].
  - split; [lia|]. rewrite lookup_insert_eq, decide_False by lia. f_equal. lia.
  - rewrite lookup_insert_ne, Z.add_0_l by done. done.
Qed.

Lemma ingress_drop_spec cfg st guards t l :
  ingress_inv cfg st guards -> guards ≡ₚ t :: l -> ingress_inv cfg (ingress_drop st (mkGuard t)) l.
Proof.
  intros (Ht & Hle & Hall) Hp. unfold ingress_drop, release. cbn [ig_tenant].
  assert (Hlen : len guards = len l + 1) by (unfold len; rewrite Hp; cbn [length]; lia).
  assert (Hof : forall t', guards_of t' guards = (if decide (t = t') then 1 else 0) + guards_of t' l).
  { intros t'. by rewrite Hp, guards_of_cons. }
  pose proof (guards_of_nonneg t l). pose proof (len_nonneg l).
  destruct (Hall t) as [Hct Hlt]. rewrite Hof, decide_True in Hct, Hlt by done.
  rewrite decide_False in Hlt by lia. rewrite Hlt. unfold u64_saturating_sub.
  replace (Z.max 0 (1 + guards_of t l - 1)) with (guards_of t l) by lia.
  replace (Z.max 0 (ig_total st - 1)) with (len l) by lia.
  assert (Hother : forall t', t <> t' -> ig_per_tenant st !! t' =
    if decide (guards_of t' l = 0) then None else Some (guards_of t' l)).
  { intros t' Hne. destruct (Hall t') as [_ ->]. rewrite !Hof, (decide_False (P := t = t')) by done. by rewrite Z.add_0_l. }
  assert (Hcap : forall t', guards_of t' l <= max_in_flight_per_tenant (ec_ingress cfg)).
  { intros t'. destruct (Hall t') as [Hc _]. rewrite Hof in Hc. case_decide; lia. }
  destruct (Z.eqb_spec (guards_of t l) 0) as [Hz|Hz]; (split; [done|]; split; [lia|]; intros t'; split; [done|]; cbn;
    destruct (decide (t = t')) as [->|Hne]).
  - by rewrite lookup_delete_eq, decide_True.
  - rewrite lookup_delete_ne by done. auto.
  - by rewrite lookup_insert_eq, decide_False.
  - rewrite lookup_insert_ne by done. auto.
Qed.

(** ** Accounting *)

Definition tracked_ok (tr : TrackedTenantTotals) : Prop :=
  forall limit, 0 <= value (accounted (totals_of tr)) limit <= limit_max limit.

Definition accounting_inv (st : TenantAccountingState) (live : list LiveReservation) : Prop :=
  live_ok live /\
  forall t, match per_tenant st !! t with
            | Some tr => tracked_ok tr /\ forall limit, value (pending tr) limit = live_sum t limit live
            | None => t ∉ live.*1
            end.

(** Recorded plus reserved resources stay within every cap below the counter's maximum. *)
Definition within_caps (limits : AggregateResourceLimits) (tr : TrackedTenantTotals) : Prop :=
  forall limit cap, aggregate_cap limits limit = Some cap -> cap < limit_max limit ->
    value (accounted (totals_of tr)) limit + value (pending tr) limit <= cap.

Definition budget_inv (limits : AggregateResourceLimits) (st : TenantAccountingState) : Prop :=
  forall t tr, per_tenant st !! t = Some tr -> within_caps limits tr.

Definition fresh_entry (st : TenantAccountingState) : TrackedTenantTotals :=
  mkTracked (sequence st) totals_default resources_default.

(** The entry of a tenant, present or about to be created. *)
Definition entry_of (st : TenantAccountingState) (t : TenantId) : TrackedTenantTotals :=
  default (fresh_entry st) (per_tenant st !! t).

Lemma entry_for_tenant_spec st t :
  snd (entry_for_tenant st t) = entry_of st t /\
  sequence (fst (entry_for_tenant st t)) = sequence st /\
  per_tenant (fst (entry_for_tenant st t)) = <[t := entry_of st t]> (per_tenant st).
Proof.
  unfold entry_for_tenant, entry_of. destruct (per_tenant st !! t) eqn:E; cbn; [|done].
  by rewrite insert_id.
Qed.

Lemma fresh_tracked_ok st : tracked_ok (fresh_entry st).
Proof. intros limit. pose proof (limit_max_pos limit). by destruct limit. Qed.

Lemma entry_of_ok st live t :
  accounting_inv st live ->
  tracked_ok (entry_of st t) /\ forall limit, value (pending (entry_of st t)) limit = live_sum t limit live.
Proof.
  intros [_ H]. specialize (H t). unfold entry_of. destruct (per_tenant st !! t); [done|].
  split; [apply fresh_tracked_ok|]. intros limit. cbn. by rewrite value_default, live_sum_absent.
Qed.

(** Only the entries of [st'] at [t] differ from those of [st]. *)
Lemma accounting_inv_put st st' live live' t tr :
  accounting_inv st live -> live_ok live' ->
  per_tenant st' = <[t := tr]> (per_tenant st) ->
  tracked_ok tr -> (forall limit, value (pending tr) limit = live_sum t limit live') ->
  (forall t', t <> t' -> (t' ∈ live'.*1 -> t' ∈ live.*1) /\
    forall limit, live_sum t' limit live' = live_sum t' limit live) ->
  accounting_inv st' live'.
Proof.
  intros [_ Hinv] Hl Hst Htr Hp Ho. split; [done|]. intros t'. rewrite Hst.
  destruct (decide (t = t')) as [->|Hne]; [by rewrite lookup_insert_eq|].
  rewrite lookup_insert_ne by done. destruct (Ho t' Hne) as [Hin Hsum]. specialize (Hinv t').
  destruct (per_tenant st !! t'); [|naive_solver]. destruct Hinv as [? Hv]. split; [done|].
  intros limit. by rewrite Hv, Hsum.
Qed.

Lemma accounting_inv_delete st live e tr :
  accounting_inv st live -> per_tenant st !! e = Some tr -> ar_requests (pending tr) = 0 ->
  forall st', per_tenant st' = delete e (per_tenant st) -> accounting_inv st' live.
Proof.
  intros [Hl Hinv] He Hz st' Hst. split; [done|]. intros t. rewrite Hst.
  destruct (decide (e = t)) as [->|Hne].
  - rewrite lookup_delete_eq. apply live_sum_zero; [done|]. specialize (Hinv t). rewrite He in Hinv.
    destruct Hinv as [_ <-]. done.
  - rewrite lookup_delete_ne by done. apply Hinv.
Qed.

Section Slots.
Context {HO : HashOrder} {HL : HashOrderLaws HO}.

Lemma min_by_key_elem {A} (key : A -> Z) l x : min_by_key key l = Some x -> x ∈ l.
Proof.
  induction l as [|y l IH] in x |- *; cbn; [done|].
  destruct (min_by_key key l) as [z|]; [|intros [= ->]; left].
  case_match; intros [= <-]; [right; by apply IH|left].
Qed.

Lemma min_by_key_None {A} (key : A -> Z) l : min_by_key key l = None -> l = [].
Proof. destruct l as [|x l]; cbn; [done|]. destruct (min_by_key key l); [case_match|]; done. Qed.

(** Making room either changes nothing or drops one tenant without live reservations. *)
Lemma ensure_tenant_slot_spec st t :
  let st' := ensure_tenant_slot st t in
  (st' = st /\
    (is_Some (per_tenant st !! t) \/ Z.of_nat (size (per_tenant st)) < MAX_TRACKED_TENANTS \/
     forall t' tr, per_tenant st !! t' = Some tr -> ar_requests (pending tr) <> 0)) \/
  (exists e tr, per_tenant st !! t = None /\ per_tenant st !! e = Some tr /\
    ar_requests (pending tr) = 0 /\ per_tenant st' = delete e (per_tenant st)).
Proof.
  cbn. unfold ensure_tenant_slot. case_bool_decide as Hs; [by left; auto|].
  destruct (Z.ltb_spec (Z.of_nat (size (per_tenant st))) MAX_TRACKED_TENANTS); [by left; auto|]. cbn.
  destruct (min_by_key _ _) as [[e tr]|] eqn:E; cbn.
  - right. apply min_by_key_elem in E. apply list_elem_of_filter in E as [Hz He].
    rewrite hash_iter_perm, elem_of_map_to_list in He. exists e, tr.
    split; [by apply eq_None_not_Some|done].
  - left. split; [done|]. right; right. intros t' tr Ht' Hz. apply min_by_key_None in E.
    apply (not_elem_of_nil (t', tr)). rewrite <- E. apply list_elem_of_filter. split; [done|].
    by rewrite hash_iter_perm, elem_of_map_to_list.
Qed.

Lemma ensure_accounting_inv st live t :
  accounting_inv st live -> accounting_inv (ensure_tenant_slot st t) live.
Proof.
  intros Hi. destruct (ensure_tenant_slot_spec st t) as [[-> _]|(e & tr & _ & He & Hz & Hd)]; [done|].
  by eapply accounting_inv_delete.
Qed.
End Slots.

(** ** Reserving *)

Lemma check_each_ok {PL : Payloads} f l : check_each f l = Ok tt <-> forall limit, limit ∈ l -> f limit = Ok tt.
Proof.
  induction l as [|x l IH]; cbn.
  { split; [intros _ limit H; by apply not_elem_of_nil in H|done]. }
  destruct (f x) as [[]|e] eqn:E; cbn.
  - rewrite IH. split; [intros H limit [->|?]%elem_of_cons; auto|intros H limit ?; apply H; by right].
  - split; [done|]. intros H. specialize (H x). rewrite E in H. discriminate H. left.
Qed.

Lemma check_each_err {PL : Payloads} f l e :
  check_each f l = Err e -> exists limit, limit ∈ l /\ f limit = Err e.
Proof.
  induction l as [|x l IH]; cbn; [done|]. destruct (f x) as [[]|e'] eqn:E; cbn.
  - intros (y & Hy & Hf)%IH. exists y. split; [by right|done].
  - intros [= ->]. exists x. split; [left|done].
Qed.

Lemma LIMITS_all limit : limit ∈ LIMITS.
Proof. unfold LIMITS. rewrite !elem_of_cons. destruct limit; auto 10. Qed.

(** A dimension whose recorded use may already be at the cap. *)
Definition may_be_full (limit : AggregateResourceLimit) : bool :=
  match limit with SourceBytes | ChargedBytes => true | _ => false end.

(** The use that admits a request: below the cap (at most the cap for bytes), and at most
    the cap with the reservation added. *)
Definition admissible (limits : AggregateResourceLimits) (current projected : AccountedResources) : Prop :=
  forall limit cap, aggregate_cap limits limit = Some cap ->
    (if may_be_full limit then value current limit <= cap else value current limit < cap) /\
    value projected limit <= cap.

Lemma checks_spec {PL : Payloads} t limits current projected :
  (let? _ := check_aggregate_current t limits current in
   check_aggregate_projection t limits projected) = Ok tt <-> admissible limits current projected.
Proof.
  unfold admissible, check_aggregate_current, check_aggregate_projection.
  destruct (check_each _ LIMITS) as [[]|e] eqn:E; cbn [result_bind].
  - rewrite check_each_ok in E |- *. split.
    + intros H limit cap Hc. specialize (E limit (LIMITS_all _)). specialize (H limit (LIMITS_all _)).
      unfold check_aggregate_limit_exceeded, check_aggregate_limit_reached in *. rewrite Hc in *.
      destruct limit; cbn [may_be_full]; zbool; lia.
    + intros H limit _. unfold check_aggregate_limit_exceeded.
      destruct (aggregate_cap limits limit) as [cap|] eqn:Hc; [|done]. destruct (H _ _ Hc). zbool; [lia|done].
  - split; [done|]. intros H. exfalso. apply check_each_err in E as (limit & _ & He).
    unfold check_aggregate_limit_exceeded, check_aggregate_limit_reached in He.
    destruct (aggregate_cap limits limit) as [cap|] eqn:Hc; [|by destruct limit].
    destruct (H _ _ Hc) as [Hf _]. destruct limit; cbn [may_be_full] in Hf; zbool; lia.
Qed.

Definition current_use (tr : TrackedTenantTotals) : AccountedResources :=
  saturating_add (accounted (totals_of tr)) (pending tr).

(** Every outcome of [try_reserve]: the decision, the returned guard and the new entries. *)
Lemma try_reserve_spec {PL : Payloads} {HO : HashOrder} st t limits r :
  let st1 := ensure_tenant_slot st t in
  let e := entry_of st1 t in
  let ok := admissible limits (current_use e) (saturating_add (current_use e) r) in
  match try_reserve st t limits r with
  | (st', Ok g) => ok /\ g = mkReservation t r false /\ exists s,
      per_tenant st' = <[t := mkTracked s (totals_of e) (saturating_add (pending e) r)]> (per_tenant st1)
  | (st', Err _) => ~ ok /\ per_tenant st' = <[t := e]> (per_tenant st1)
  end.
Proof.
  cbn. unfold try_reserve. pose proof (entry_for_tenant_spec (ensure_tenant_slot st t) t) as (H1 & H2 & H3).
  destruct (entry_for_tenant (ensure_tenant_slot st t) t) as [st2 tr]. cbn in H1, H2, H3. subst tr.
  pose proof (checks_spec t limits (current_use (entry_of (ensure_tenant_slot st t) t))
    (saturating_add (current_use (entry_of (ensure_tenant_slot st t) t)) r)) as Hc.
  unfold current_use in Hc at 1 2. destruct (result_bind _ _) as [[]|e'].
  - pose proof (entry_for_tenant_spec (next_sequence st2) t) as (K1 & K2 & K3).
    destruct (entry_for_tenant (next_sequence st2) t) as [st3 tr]. cbn in K1, K2, K3.
    assert (tr = entry_of (ensure_tenant_slot st t) t) as ->.
    { rewrite K1. unfold entry_of at 1. cbn. by rewrite H3, lookup_insert_eq. }
    split; [by apply Hc|]. split; [done|]. eexists. cbn. by rewrite K3, H3, !insert_insert_eq.
  - split; [|done]. intros Hok. apply Hc in Hok. done.
Qed.

Section Inv.
Context {PL : Payloads} {HO : HashOrder} {HL : HashOrderLaws HO}.

Lemma try_reserve_inv st live t limits r st' res :
  accounting_inv st live -> try_reserve st t limits r = (st', res) ->
  match res with
  | Ok _ => resources_ok r -> 1 <= ar_requests r ->
      (forall limit, live_sum t limit live + value r limit <= limit_max limit) ->
      accounting_inv st' ((t, r) :: live)
  | Err _ => accounting_inv st' live
  end.
Proof.
  intros Hi%(ensure_accounting_inv _ _ t) E. pose proof (try_reserve_spec st t limits r) as Hs. cbn in Hs. rewrite E in Hs.
  destruct (entry_of_ok _ _ t Hi) as [Hok Hp]. destruct res as [g|e].
  - intros Hr H1 Hfit. destruct Hs as (_ & _ & s & Hst).
    eapply (accounting_inv_put _ _ _ _ t); [exact Hi| |exact Hst|exact Hok| |].
    + constructor; [done|apply Hi].
    + intros limit. cbn [pending]. rewrite value_add, Hp, live_sum_cons, decide_True by done.
      specialize (Hfit limit). lia.
    + intros t' Hne. split; [|intros limit; rewrite live_sum_cons, decide_False; done].
      cbn. intros [->|?]%elem_of_cons; done.
  - destruct Hs as [_ Hst]. eapply (accounting_inv_put _ _ _ _ t); [exact Hi|apply Hi|exact Hst|done|done|done].
Qed.

Lemma live_drop_frame l live t r :
  live ≡ₚ (t, r) :: l -> live_ok live ->
  live_ok l /\ (forall limit, live_sum t limit live = value r limit + live_sum t limit l) /\
  forall t', t <> t' -> (t' ∈ l.*1 -> t' ∈ live.*1) /\ forall limit, live_sum t' limit l = live_sum t' limit live.
Proof.
  intros Hp Hok. split; [|split].
  - unfold live_ok in *. rewrite Hp in Hok. by inversion Hok.
  - intros limit. by rewrite Hp, live_sum_cons, decide_True.
  - intros t' Hne. split; [rewrite Hp; cbn; by right|].
    intros limit. by rewrite Hp, live_sum_cons, decide_False.
Qed.

Lemma live_tracked st live t r l :
  accounting_inv st live -> live ≡ₚ (t, r) :: l -> exists tr, per_tenant st !! t = Some tr.
Proof.
  intros [_ H] Hp. specialize (H t). destruct (per_tenant st !! t) as [tr|]; [by exists tr|].
  exfalso. apply H. rewrite Hp. left.
Qed.

(** Settling and dropping a reservation, entry by entry. *)
Lemma settle_spec st live t r l m tr :
  accounting_inv st live -> live ≡ₚ (t, r) :: l -> per_tenant st !! t = Some tr ->
  exists s, per_tenant (settle st (mkReservation t r false) m) =
    <[t := mkTracked s (record (totals_of tr) m) (saturating_sub (pending tr) r)]> (per_tenant st).
Proof.
  intros _ _ Ht. unfold settle, settle_reservation. cbn.
  pose proof (entry_for_tenant_spec (next_sequence st) t) as (K1 & K2 & K3).
  destruct (entry_for_tenant (next_sequence st) t) as [st3 tr']. cbn in *. subst tr'.
  unfold entry_of in *. cbn in *. rewrite Ht in *. cbn in *. rewrite K3, insert_insert_eq. eauto.
Qed.

Lemma drop_spec st t r tr :
  per_tenant st !! t = Some tr ->
  per_tenant (reservation_drop st (mkReservation t r false)) =
    <[t := mkTracked (last_recorded tr) (totals_of tr) (saturating_sub (pending tr) r)]> (per_tenant st).
Proof. intros Ht. unfold reservation_drop, release_reservation. cbn. by rewrite Ht. Qed.

Lemma shrink_inv st st' live t r l tr tr' :
  accounting_inv st live -> live ≡ₚ (t, r) :: l -> per_tenant st !! t = Some tr ->
  per_tenant st' = <[t := tr']> (per_tenant st) -> tracked_ok tr' ->
  pending tr' = saturating_sub (pending tr) r -> accounting_inv st' l.
Proof.
  intros Hi Hp Ht Hst Hok Hpend. destruct (live_drop_frame _ _ _ _ Hp (proj1 Hi)) as (Hl & Hsum & Ho).
  eapply (accounting_inv_put _ _ _ _ t); [exact Hi|exact Hl|exact Hst|exact Hok| |exact Ho].
  intros limit. rewrite Hpend, value_sub. destruct Hi as [_ Hi]. specialize (Hi t). rewrite Ht in Hi.
  destruct Hi as [_ Hv]. rewrite Hv, Hsum. pose proof (live_sum_nonneg t limit l Hl). lia.
Qed.

Lemma record_ok tr s m p : tracked_ok tr -> metrics_ok m -> tracked_ok (mkTracked s (record (totals_of tr) m) p).
Proof.
  intros Ht Hm limit. cbn [totals_of]. rewrite value_record by done.
  destruct Hm as (_ & _ & _ & Hc). specialize (Hc limit). specialize (Ht limit). pose proof (limit_max_pos limit). lia.
Qed.

Lemma settle_inv st live t r l m :
  accounting_inv st live -> live ≡ₚ (t, r) :: l -> metrics_ok m ->
  accounting_inv (settle st (mkReservation t r false) m) l.
Proof.
  intros Hi Hp Hm. destruct (live_tracked _ _ _ _ _ Hi Hp) as [tr Ht].
  destruct (settle_spec _ _ _ _ _ m _ Hi Hp Ht) as [s Hs].
  eapply shrink_inv; [done..|apply record_ok; [|done]|done].
  destruct Hi as [_ Hi]. specialize (Hi t). rewrite Ht in Hi. apply Hi.
Qed.

Lemma drop_inv st live t r l :
  accounting_inv st live -> live ≡ₚ (t, r) :: l ->
  accounting_inv (reservation_drop st (mkReservation t r false)) l.
Proof.
  intros Hi Hp. destruct (live_tracked _ _ _ _ _ Hi Hp) as [tr Ht].
  eapply shrink_inv; [done..|by apply drop_spec| |done].
  destruct Hi as [_ Hi]. specialize (Hi t). rewrite Ht in Hi. apply Hi.
Qed.
End Inv.
