(* ===== verification/AdmissionTheorems.v ===== *)
(** * AdmissionTheorems: what admission control guarantees

    Over every interleaving of requests: in-flight counts are exact and capped
    ([ingress_exact]), budgets are never overdrawn ([budgets_hold]), tenants with live
    requests are never evicted and the table of tenants is bounded ([tracking_bounded]), the
    reservation decision is the documented one ([reserve_decision]), every way a request can
    end gives its guards back ([request_paths_refine]), and capacity comes back
    ([admission_recovers]). *)

From Stdlib Require Import ZArith Lia.
From stdpp Require Import base numbers list option gmap relations sets.
From S2P Require Import Prelude ExecTypes Admission AdmissionFacts.

(** A settlement stays within its reservation in the capped dimensions. *)
Definition honest (limits : AggregateResourceLimits) (r : AccountedResources) (m : RequestMetrics) : Prop :=
  forall limit cap, aggregate_cap limits limit = Some cap -> value (charge m) limit <= value r limit.

(** No requirement on settlements. *)
Definition any_settlement (r : AccountedResources) (m : RequestMetrics) : Prop := True.

(** The world's invariant that needs no assumption on settlements. *)
Definition world_inv (cfg : ExecutorConfig) (w : World) : Prop :=
  ingress_inv cfg (w_ingress w) (w_guards w) /\
  accounting_inv (w_accounting w) (w_reservations w).

Definition size_inv (w : World) : Prop :=
  len (w_reservations w) <= w_peak w /\
  Z.of_nat (size (per_tenant (w_accounting w))) <= Z.max MAX_TRACKED_TENANTS (w_peak w + 1).

Section Theorems.
Context {PL : Payloads} {HO : HashOrder} {HL : HashOrderLaws HO}.
Context (cfg : ExecutorConfig) (Hcfg : config_ok cfg).

Lemma world_inv_step P w w' : world_inv cfg w -> adm_step cfg P w w' -> world_inv cfg w'.
Proof using Hcfg HL.
  intros [Hi Ha] Hs. destruct Hs as
    [w t r a g Hr H1 Hf E|w t r a e E|w t r l m Hp Hm _|w t r l Hp|w t i g E|w t i e E|w t l Hp]; split; try done.
  - by apply (try_reserve_inv _ _ _ _ _ _ _ Ha E).
  - apply (try_reserve_inv _ _ _ _ _ _ _ Ha E).
  - by eapply settle_inv.
  - by eapply drop_inv.
  - pose proof (try_enter_spec cfg _ _ t Hcfg Hi) as Hs. rewrite E in Hs. apply Hs.
  - pose proof (try_enter_spec cfg _ _ t Hcfg Hi) as Hs. rewrite E in Hs. by destruct Hs as [-> _].
  - by eapply ingress_drop_spec.
Qed.

Lemma world0_inv : world_inv cfg world0.
Proof using Hcfg.
  split; [by apply ingress_inv_init|]. split; [constructor|]. intros t. cbn. rewrite lookup_empty.
  apply not_elem_of_nil.
Qed.

Lemma reachable_inv P w : reachable cfg P w -> world_inv cfg w.
Proof using Hcfg HL.
  unfold reachable. revert w. refine (rtc_ind_r (world_inv cfg) world0 _ _); [apply world0_inv|].
  intros x y _ Hs Hx. by eapply world_inv_step.
Qed.

(** ** Budgets *)

Lemma budget_put limits st st' t tr :
  budget_inv limits st -> per_tenant st' = <[t := tr]> (per_tenant st) -> within_caps limits tr ->
  budget_inv limits st'.
Proof.
  intros Hb Hst Hw t' tr'. rewrite Hst. intros [[<- <-]|[_ H]]%lookup_insert_Some; [done|eauto].
Qed.

Lemma budget_ensure limits st t : budget_inv limits st -> budget_inv limits (ensure_tenant_slot st t).
Proof using HL.
  intros Hb. destruct (ensure_tenant_slot_spec st t) as [[-> _]|(e & tr & _ & _ & _ & Hd)]; [done|].
  intros t' tr'. rewrite Hd. intros [_ H]%lookup_delete_Some. eauto.
Qed.

Lemma budget_entry st t : budget_inv (ec_aggregate cfg) st -> within_caps (ec_aggregate cfg) (entry_of st t).
Proof using Hcfg.
  intros Hb. unfold entry_of. destruct (per_tenant st !! t) eqn:E; [by eapply Hb|].
  intros limit cap Hc _. destruct Hcfg as (_ & _ & Hcap). destruct (Hcap _ _ Hc).
  destruct limit; cbn in *; lia.
Qed.

Lemma budget_reserve st live t r st' res :
  accounting_inv st live -> resources_ok r -> budget_inv (ec_aggregate cfg) st ->
  try_reserve st t (ec_aggregate cfg) r = (st', Ok res) -> budget_inv (ec_aggregate cfg) st'.
Proof using Hcfg HL.
  intros Ha Hr Hb E. pose proof (try_reserve_spec st t (ec_aggregate cfg) r) as Hs. cbn in Hs. rewrite E in Hs.
  destruct Hs as (Hok & _ & s & Hst). eapply budget_put; [by apply budget_ensure|exact Hst|].
  intros limit cap Hc Hm. destruct (Hok _ _ Hc) as [_ Hp]. unfold current_use in Hp. rewrite !value_add in Hp.
  cbn [totals_of pending]. rewrite value_add. specialize (Hr limit).
  destruct (entry_of_ok _ _ t (ensure_accounting_inv _ _ t Ha)) as [Ht _]. specialize (Ht limit). lia.
Qed.

Lemma budget_rejected st t r st' e :
  budget_inv (ec_aggregate cfg) st -> try_reserve st t (ec_aggregate cfg) r = (st', Err e) ->
  budget_inv (ec_aggregate cfg) st'.
Proof using Hcfg HL.
  intros Hb E. pose proof (try_reserve_spec st t (ec_aggregate cfg) r) as Hs. cbn in Hs. rewrite E in Hs.
  destruct Hs as [_ Hst]. eapply budget_put; [by apply budget_ensure|exact Hst|].
  by apply budget_entry, budget_ensure.
Qed.

(** A tenant's entry with one reservation taken out of its pending resources. *)
Lemma pending_covers st live t r l tr limit :
  accounting_inv st live -> live ≡ₚ (t, r) :: l -> per_tenant st !! t = Some tr ->
  tracked_ok tr /\ value r limit <= value (pending tr) limit.
Proof.
  intros Hi Hp Ht. destruct (live_drop_frame _ _ _ _ Hp (proj1 Hi)) as (Hl & Hsum & _).
  destruct Hi as [_ Hi]. specialize (Hi t). rewrite Ht in Hi. destruct Hi as [Hok Hv]. split; [done|].
  rewrite Hv, Hsum. pose proof (live_sum_nonneg t limit l Hl). lia.
Qed.

Lemma budget_settle limits st live t r l m :
  accounting_inv st live -> live ≡ₚ (t, r) :: l -> metrics_ok m -> honest limits r m ->
  budget_inv limits st -> budget_inv limits (settle st (mkReservation t r false) m).
Proof.
  intros Hi Hp Hm Hh Hb. destruct (live_tracked _ _ _ _ _ Hi Hp) as [tr Ht].
  destruct (settle_spec _ _ _ _ _ m _ Hi Hp Ht) as [s Hs]. eapply budget_put; [done|exact Hs|].
  intros limit cap Hc Hlt. destruct (pending_covers _ _ _ _ _ _ limit Hi Hp Ht) as [Hok Hv].
  specialize (Hb _ _ Ht limit cap Hc Hlt). specialize (Hh limit cap Hc). cbn [totals_of pending].
  rewrite value_record, value_sub by done. lia.
Qed.

Lemma budget_drop limits st live t r l :
  accounting_inv st live -> live ≡ₚ (t, r) :: l ->
  budget_inv limits st -> budget_inv limits (reservation_drop st (mkReservation t r false)).
Proof.
  intros Hi Hp Hb. destruct (live_tracked _ _ _ _ _ Hi Hp) as [tr Ht].
  eapply budget_put; [done|by apply drop_spec|]. intros limit cap Hc Hlt.
  destruct (pending_covers _ _ _ _ _ _ limit Hi Hp Ht) as [Hok Hv].
  assert (0 <= value r limit).
  { destruct Hi as [Hl _]. unfold live_ok in Hl. rewrite Hp in Hl. inversion_clear Hl as [|? ? [Hr _] _]. apply Hr. }
  specialize (Hb _ _ Ht limit cap Hc Hlt). cbn [totals_of pending]. rewrite value_sub. lia.
Qed.

Lemma budget_step w w' :
  world_inv cfg w -> budget_inv (ec_aggregate cfg) (w_accounting w) ->
  adm_step cfg (honest (ec_aggregate cfg)) w w' -> budget_inv (ec_aggregate cfg) (w_accounting w').
Proof using Hcfg HL.
  intros [_ Ha] Hb Hs. destruct Hs as
    [w t r a g Hr H1 Hf E|w t r a e E|w t r l m Hp Hm Hh|w t r l Hp|w t i g E|w t i e E|w t l Hp]; try done.
  - by eapply budget_reserve.
  - by eapply budget_rejected.
  - by eapply budget_settle.
  - by eapply budget_drop.
Qed.

(** ** The number of tracked tenants *)

Lemma all_live_bound st live :
  accounting_inv st live -> (forall t tr, per_tenant st !! t = Some tr -> ar_requests (pending tr) <> 0) ->
  Z.of_nat (size (per_tenant st)) <= len live.
Proof.
  intros [_ Ha] Hnz. rewrite <- length_map_to_list. unfold len.
  rewrite <- (length_fmap fst), <- (length_fmap fst live). apply inj_le, submseteq_length, NoDup_submseteq.
  - apply NoDup_fst_map_to_list.
  - intros t ([t' tr] & -> & Ht)%list_elem_of_fmap. apply elem_of_map_to_list in Ht. cbn.
    destruct (decide (t' ∈ live.*1)) as [|Hn]; [done|]. destruct (Hnz _ _ Ht).
    specialize (Ha t'). rewrite Ht in Ha. destruct Ha as [_ Hv]. specialize (Hv Requests). cbn in Hv.
    by rewrite Hv, live_sum_absent.
Qed.

Lemma ensure_size st live t peak :
  accounting_inv st live -> len live <= peak ->
  Z.of_nat (size (per_tenant st)) <= Z.max MAX_TRACKED_TENANTS (peak + 1) ->
  Z.of_nat (size (<[t := entry_of (ensure_tenant_slot st t) t]> (per_tenant (ensure_tenant_slot st t)))) <=
    Z.max MAX_TRACKED_TENANTS (peak + 1).
Proof using HL.
  intros Ha Hl Hs. set (e := entry_of _ _). clearbody e.
  destruct (ensure_tenant_slot_spec st t) as [[-> Hc]|(v & tr & Hn & Hv & _ & ->)].
  - destruct (per_tenant st !! t) as [tr|] eqn:Et; [by rewrite map_size_insert_Some by eauto|].
    rewrite map_size_insert_None by done. destruct Hc as [[? [=]]|[Hc|Hc]]; [lia|].
    pose proof (all_live_bound _ _ Ha Hc). lia.
  - assert (t <> v) by congruence. rewrite map_size_insert_None by (by rewrite lookup_delete_ne).
    rewrite map_size_delete_Some by eauto.
    unfold MAX_TRACKED_TENANTS in *. lia.
Qed.

Lemma size_put st st' t tr tr' :
  per_tenant st !! t = Some tr -> per_tenant st' = <[t := tr']> (per_tenant st) ->
  size (per_tenant st') = size (per_tenant st).
Proof. intros Ht ->. by rewrite map_size_insert_Some by eauto. Qed.

Lemma size_step P w w' : world_inv cfg w -> size_inv w -> adm_step cfg P w w' -> size_inv w'.
Proof using HL.
  intros [_ Ha] [Hl Hsz] Hs. destruct Hs as
    [w t r a g Hr H1 Hf E|w t r a e E|w t r l m Hp Hm Hh|w t r l Hp|w t i g E|w t i e E|w t l Hp]; try done;
    (split; [cbn [w_reservations w_peak with_accounting]; lia|]).
  - pose proof (try_reserve_spec (w_accounting w) t (ec_aggregate cfg) r) as Hr'. cbn in Hr'. rewrite E in Hr'.
    destruct Hr' as (_ & _ & s & Hst). pose proof (ensure_size _ _ t _ Ha Hl Hsz) as Hb.
    cbn [w_accounting w_ex w_peak with_accounting ex_accounting]. rewrite Hst. rewrite map_size_insert in Hb |- *.
    etransitivity; [exact Hb|]. lia.
  - pose proof (try_reserve_spec (w_accounting w) t (ec_aggregate cfg) r) as Hr'. cbn in Hr'. rewrite E in Hr'.
    destruct Hr' as (_ & Hst). pose proof (ensure_size _ _ t _ Ha Hl Hsz) as Hb.
    cbn [w_accounting w_ex w_peak with_accounting ex_accounting]. rewrite Hst. etransitivity; [exact Hb|]. lia.
  - destruct (live_tracked _ _ _ _ _ Ha Hp) as [tr Ht]. destruct (settle_spec _ _ _ _ _ m _ Ha Hp Ht) as [s Hst].
    cbn [w_accounting w_ex w_peak with_accounting ex_accounting]. rewrite (size_put _ _ _ _ _ Ht Hst). lia.
  - destruct (live_tracked _ _ _ _ _ Ha Hp) as [tr Ht].
    cbn [w_accounting w_ex w_peak with_accounting ex_accounting]. rewrite (size_put _ _ _ _ _ Ht (drop_spec _ _ r _ Ht)). lia.
Qed.

(** ** The paths of a request through the machine *)

Lemma aggregate_reservation_ok source_bytes remaining :
  is_u64 source_bytes -> 0 <= remaining <= DURATION_MAX ->
  is_u64 (ec_max_compiled_bytecode_bytes cfg) ->
  (forall gas, ec_base_gas cfg = Some gas -> 0 <= gas) ->
  (forall bytes, ec_base_memory cfg = Some bytes -> is_u64 bytes) ->
  resources_ok (aggregate_reservation cfg source_bytes remaining) /\
  ar_requests (aggregate_reservation cfg source_bytes remaining) = 1.
Proof using Hcfg.
  intros Hs Hr Hc Hg Hm. split; [|done]. destruct Hcfg as (_ & _ & Hcap).
  assert (Hu : forall x, is_u64 x -> 0 <= u64_of_usize x <= U64_MAX).
  { intros x Hx. unfold u64_of_usize, U64_MAX, is_u64 in *. zbool; lia. }
  intros limit. specialize (Hcap limit). destruct limit; cbn in *.
  - done.
  - by apply Hu.
  - destruct (max_preflight_time _) as [cap|]; [|done]. specialize (Hcap _ eq_refl). lia.
  - destruct (max_run_time _) as [cap|]; [|done]. specialize (Hcap _ eq_refl). lia.
  - destruct (max_gas_spent _) as [cap|]; [|done]. specialize (Hcap _ eq_refl).
    destruct (ec_base_gas cfg) as [gas|]; cbn; [specialize (Hg _ eq_refl)|]; lia.
  - destruct (max_charged_bytes _) as [cap|]; [|done]. specialize (Hcap _ eq_refl).
    pose proof (Hu _ Hs). pose proof (Hu _ Hc). unfold u64_saturating_add.
    destruct (ec_base_memory cfg) as [bytes|]; cbn; [pose proof (Hu _ (Hm _ eq_refl))|]; lia.
Qed.

Lemma adm_reserve_then P w t r a g :
  resources_ok r -> 1 <= ar_requests r ->
  (forall limit, live_sum t limit (w_reservations w) + value r limit <= limit_max limit) ->
  try_reserve (w_accounting w) t (ec_aggregate cfg) r = (a, Ok g) ->
  g = mkReservation t r false /\
  adm_step cfg P w (with_accounting w a ((t, r) :: w_reservations w)).
Proof.
  intros Hr H1 Hf E. pose proof (try_reserve_spec (w_accounting w) t (ec_aggregate cfg) r) as Hs.
  cbn in Hs. rewrite E in Hs. destruct Hs as (_ & Hg & _). split; [done|]. by econstructor.
Qed.

(** [w'] is the world after a path that ends in [ex'] with these live guards. *)
Definition path_to P w ex' (live : list LiveReservation) (guards : list Z) : Prop :=
  exists w', rtc (adm_step cfg P) w w' /\ w_ex w' = ex' /\ w_reservations w' = live /\ w_guards w' = guards.

Lemma admit_request_path P w t md source_bytes remaining :
  let r := aggregate_reservation cfg source_bytes remaining in
  resources_ok r ->
  (forall limit, live_sum t limit (w_reservations w) + value r limit <= limit_max limit) ->
  match admit_request cfg (w_ex w) t md source_bytes remaining with
  | (ex', Ok ad) =>
      ad_reservation ad = mkReservation t r false /\ ad_ingress ad = mkGuard t /\
      path_to P w ex' ((t, r) :: w_reservations w) (t :: w_guards w)
  | (ex', Err _) => path_to P w ex' (w_reservations w) (w_guards w)
  end.
Proof.
  intros r Hr Hf. unfold admit_request, path_to. destruct (ec_max_source_bytes cfg <? source_bytes).
  { exists w. repeat split. constructor. }
  fold r. destruct (try_reserve (ex_accounting (w_ex w)) t (ec_aggregate cfg) r) as [a [g|e]] eqn:E.
  - assert (1 <= ar_requests r) as H1 by done.
    destruct (adm_reserve_then P w t r a g Hr H1 Hf E) as [-> Hs].
    destruct (try_enter (ec_ingress cfg) (ex_ingress (w_ex w)) t) as [i [g|e]] eqn:Ei.
    + assert (g = mkGuard t) as -> by (revert Ei; unfold try_enter; repeat case_match; congruence).
      split; [done|]. split; [done|]. eexists.
      split; [eapply rtc_l; [exact Hs|]; eapply rtc_once, step_enter; exact Ei|done].
    + eexists. split; [|split; [|split]].
      * eapply rtc_l; [exact Hs|]. eapply rtc_l; [eapply step_enter_rejected; exact Ei|].
        apply rtc_once, step_release with (t := t) (r := r) (l := w_reservations w). done.
      * done.
      * done.
      * done.
  - eexists. split; [eapply rtc_once, step_reserve_rejected; exact E|]. done.
Qed.

Lemma settle_then_leave P w t r l gs m :
  w_reservations w ≡ₚ (t, r) :: l -> w_guards w ≡ₚ t :: gs -> metrics_ok m -> P r m ->
  path_to P w (mkExecutor (ingress_drop (w_ingress w) (mkGuard t))
    (settle (w_accounting w) (mkReservation t r false) m)) l gs.
Proof.
  intros Hl Hg Hm HP. eexists. split; [|split; [|split]].
  - eapply rtc_l; [by eapply step_settle|]. eapply rtc_once, step_leave. exact Hg.
  - done.
  - done.
  - done.
Qed.

Lemma release_then_leave P w t r l gs :
  w_reservations w ≡ₚ (t, r) :: l -> w_guards w ≡ₚ t :: gs ->
  path_to P w (mkExecutor (ingress_drop (w_ingress w) (mkGuard t))
    (reservation_drop (w_accounting w) (mkReservation t r false))) l gs.
Proof.
  intros Hl Hg. eexists. split; [|split; [|split]].
  - eapply rtc_l; [by eapply step_release|]. eapply rtc_once, step_leave. exact Hg.
  - done.
  - done.
  - done.
Qed.

(** ** Idle worlds *)

Lemma idle_world P w :
  reachable cfg P w -> w_reservations w = [] -> w_guards w = [] ->
  w_ingress w = ingress_default /\
  forall t tr, per_tenant (w_accounting w) !! t = Some tr -> pending tr = resources_default.
Proof using Hcfg HL.
  intros [Hi Ha]%reachable_inv Hr Hg. rewrite Hr in Ha. rewrite Hg in Hi. split.
  - destruct Hi as (Ht & _ & Hall). destruct (w_ingress w) as [n m]. cbn in *. subst n.
    unfold ingress_default. f_equal. apply map_eq. intros t. rewrite lookup_empty. by destruct (Hall t) as [_ ->].
  - intros t tr Ht. destruct Ha as [_ Ha]. specialize (Ha t). rewrite Ht in Ha. destruct Ha as [_ Hv].
    apply value_ext. intros limit. by rewrite Hv, value_default.
Qed.

Lemma drain_reservations P w :
  exists w', nsteps (adm_step cfg P) (length (w_reservations w)) w w' /\
    w_reservations w' = [] /\ w_guards w' = w_guards w.
Proof.
  remember (w_reservations w) as l eqn:Hl. induction l as [|[t r] l IH] in w, Hl |- *.
  { exists w. split; [constructor|done]. }
  destruct (IH (with_accounting w (reservation_drop (w_accounting w) (mkReservation t r false)) l) eq_refl)
    as (w' & Hs & Hr & Hg).
  exists w'. split; [|done]. cbn [length]. eapply nsteps_l; [|exact Hs].
  apply step_release with (t := t) (r := r). by rewrite <- Hl.
Qed.

Lemma drain_guards P w :
  exists w', nsteps (adm_step cfg P) (length (w_guards w)) w w' /\
    w_reservations w' = w_reservations w /\ w_guards w' = [].
Proof.
  remember (w_guards w) as l eqn:Hl. induction l as [|t l IH] in w, Hl |- *.
  { exists w. split; [constructor|done]. }
  destruct (IH (with_ingress w (ingress_drop (w_ingress w) (mkGuard t)) l) eq_refl) as (w' & Hs & Hr & Hg).
  exists w'. split; [|done]. cbn [length]. eapply nsteps_l; [|exact Hs]. constructor. by rewrite <- Hl.
Qed.
End Theorems.

(** ** Properties *)

Section Properties.
Context {PL : Payloads} {HO : HashOrder} {HL : HashOrderLaws HO}.

(** C15: over every interleaving of requests the ingress counters are the numbers of live
    guards, in total and per tenant, they never exceed the caps, and [try_enter] admits a
    request exactly when both counts are below their caps, reporting the count and the cap
    that rejected it otherwise. *)
Theorem ingress_exact cfg P w :
  config_ok cfg -> reachable cfg P w ->
  ig_total (w_ingress w) = len (w_guards w) /\
  len (w_guards w) <= max_in_flight (ec_ingress cfg) /\
  (forall t, in_flight_of (w_ingress w) t = guards_of t (w_guards w) /\
     guards_of t (w_guards w) <= max_in_flight_per_tenant (ec_ingress cfg)) /\
  forall t,
    match snd (try_enter (ec_ingress cfg) (w_ingress w) t) with
    | Ok g => g = mkGuard t /\ len (w_guards w) < max_in_flight (ec_ingress cfg) /\
        guards_of t (w_guards w) < max_in_flight_per_tenant (ec_ingress cfg)
    | Err e =>
        (e = IngressRejected t (len (w_guards w)) (max_in_flight (ec_ingress cfg)) Pool /\
         len (w_guards w) = max_in_flight (ec_ingress cfg)) \/
        (e = IngressRejected t (guards_of t (w_guards w))
               (max_in_flight_per_tenant (ec_ingress cfg)) Tenant /\
         len (w_guards w) < max_in_flight (ec_ingress cfg) /\
         guards_of t (w_guards w) = max_in_flight_per_tenant (ec_ingress cfg))
    end.
Proof using HL.
  intros Hcfg [Hi _]%reachable_inv; [|done]. pose proof Hi as (Ht & Hle & Hall).
  split; [done|]. split; [done|]. split.
  - intros t. split; [by eapply in_flight_guards|apply Hall].
  - intros t. pose proof (try_enter_spec cfg _ _ t Hcfg Hi) as Hs.
    destruct (try_enter _ _ t) as [i [g|e]]; cbn; tauto.
Qed.

(** C35: when every settled request stayed within what it had reserved, then in every
    interleaving and at every moment a tenant's recorded use plus the reservations of its
    live requests is within each of its aggregate caps. *)
Theorem budgets_hold cfg w :
  config_ok cfg -> reachable cfg (honest (ec_aggregate cfg)) w ->
  forall t limit cap,
    aggregate_cap (ec_aggregate cfg) limit = Some cap -> cap < limit_max limit ->
    value (accounted (totals (w_accounting w) t)) limit + live_sum t limit (w_reservations w) <= cap.
Proof using HL.
  intros Hcfg Hr t limit cap Hc Hlt.
  assert (world_inv cfg w /\ budget_inv (ec_aggregate cfg) (w_accounting w)) as [[_ [_ Ha]] Hb].
  { revert w Hr. refine (rtc_ind_r (fun w => world_inv cfg w /\ budget_inv _ (w_accounting w)) world0 _ _).
    - split; [by apply world0_inv|]. intros t' tr. cbn. by rewrite lookup_empty.
    - intros x y _ Hs [Hw Hb]. split; [by eapply world_inv_step|by eapply budget_step]. }
  specialize (Ha t). unfold totals. destruct (per_tenant (w_accounting w) !! t) as [tr|] eqn:Et.
  - destruct Ha as [_ <-]. by eapply Hb.
  - rewrite live_sum_absent by done. destruct Hcfg as (_ & _ & Hcap). destruct (Hcap _ _ Hc).
    destruct limit; cbn in *; lia.
Qed.

(** A tenant with a live reservation is tracked, with pending resources equal to the sum
    of its live reservations, so it is never evicted; and the table holds at most 4096
    tenants, or one more than the largest number of reservations that were ever alive
    together if that is more. *)
Theorem tracking_bounded cfg P w :
  config_ok cfg -> reachable cfg P w ->
  (forall t, t ∈ (w_reservations w).*1 ->
     exists tr, per_tenant (w_accounting w) !! t = Some tr /\
       forall limit, value (pending tr) limit = live_sum t limit (w_reservations w)) /\
  Z.of_nat (size (per_tenant (w_accounting w))) <= Z.max MAX_TRACKED_TENANTS (w_peak w + 1).
Proof using HL.
  intros Hcfg Hr. split.
  - intros t Ht. destruct (reachable_inv _ Hcfg _ _ Hr) as [_ [_ Ha]]. specialize (Ha t).
    destruct (per_tenant (w_accounting w) !! t) as [tr|]; [|done]. exists tr. split; [done|apply Ha].
  - assert (world_inv cfg w /\ size_inv w) as [_ [_ Hs]]; [|done]. revert w Hr.
    refine (rtc_ind_r (fun w => world_inv cfg w /\ size_inv w) world0 _ _).
    + split; [by apply world0_inv|]. by split.
    + intros x y _ Hs [Hw Hb]. split; [by eapply world_inv_step|by eapply size_step].
Qed.

(** [try_reserve] grants a reservation exactly when, in every capped dimension, the
    tenant's current use is below the cap (at most the cap for byte counts) and the use with
    the reservation added is at most the cap; a rejection names a capped dimension, its cap
    and the use that broke the rule. *)
Theorem reserve_decision st t limits r :
  let current := current_use (entry_of (ensure_tenant_slot st t) t) in
  let projected := saturating_add current r in
  match snd (try_reserve st t limits r) with
  | Ok g => g = mkReservation t r false /\ admissible limits current projected
  | Err e => exists limit cap used,
      e = AggregateResourceLimitExceeded t limit used cap /\ aggregate_cap limits limit = Some cap /\
      (used = value current limit /\ (if may_be_full limit then cap < used else cap <= used) \/
       used = value projected limit /\ cap < used)
  end.
Proof.
  cbn zeta. pose proof (try_reserve_spec st t limits r) as Hs. cbn in Hs.
  destruct (try_reserve st t limits r) as [st' [g|e]] eqn:E; cbn; [split; apply Hs|].
  unfold try_reserve in E.
  pose proof (entry_for_tenant_spec (ensure_tenant_slot st t) t) as (H1 & _ & _).
  destruct (entry_for_tenant (ensure_tenant_slot st t) t) as [st2 tr]. cbn in H1. subst tr.
  fold (current_use (entry_of (ensure_tenant_slot st t) t)) in E. set (cur := current_use _) in *. clearbody cur.
  unfold check_aggregate_current, check_aggregate_projection in E.
  destruct (check_each _ LIMITS) as [[]|e1] eqn:E1; cbn [result_bind] in E.
  - match type of E with context [check_each ?f LIMITS] => destruct (check_each f LIMITS) as [[]|e2] eqn:E2 end;
      [by destruct (entry_for_tenant (next_sequence st2) t)|].
    assert (e2 = e) as -> by congruence. apply check_each_err in E2 as (limit & _ & He).
    unfold check_aggregate_limit_exceeded in He. destruct (aggregate_cap limits limit) as [cap|] eqn:Hc; [|done].
    zbool. injection He as <-. exists limit, cap, (value (saturating_add cur r) limit). auto.
  - assert (e1 = e) as -> by congruence. apply check_each_err in E1 as (limit & _ & He).
    unfold check_aggregate_limit_exceeded, check_aggregate_limit_reached in He.
    destruct (aggregate_cap limits limit) as [cap|] eqn:Hc; [|by destruct limit].
    exists limit, cap, (value cur limit). destruct limit; cbn [may_be_full]; zbool; injection He as <-; auto.
Qed.

(** Every path of a request uses the guard machine: admission takes one reservation and
    one ingress guard or, on each of its error returns, leaves no guard behind; and each way
    a request ends (a report before the lane, a lane that settles, a lane that is dropped)
    gives back exactly the two guards it held. *)
Theorem request_paths_refine cfg P w t md source_bytes remaining r l gs report m baseline :
  resources_ok (aggregate_reservation cfg source_bytes remaining) ->
  (forall limit, live_sum t limit (w_reservations w) +
     value (aggregate_reservation cfg source_bytes remaining) limit <= limit_max limit) ->
  (match admit_request cfg (w_ex w) t md source_bytes remaining with
   | (ex', Ok ad) =>
       ad_reservation ad = mkReservation t (aggregate_reservation cfg source_bytes remaining) false /\
       ad_ingress ad = mkGuard t /\
       path_to cfg P w ex' ((t, aggregate_reservation cfg source_bytes remaining) :: w_reservations w)
         (t :: w_guards w)
   | (ex', Err _) => path_to cfg P w ex' (w_reservations w) (w_guards w)
   end) /\
  (w_reservations w ≡ₚ (t, r) :: l -> w_guards w ≡ₚ t :: gs ->
   (metrics_ok (rr_metrics report) -> P r (rr_metrics report) ->
    path_to cfg P w (mkExecutor (ingress_drop (w_ingress w) (mkGuard t))
      (finalize_admitted_report (w_accounting w) report (mkReservation t r false))) l gs) /\
   (metrics_ok m -> P r m ->
    path_to cfg P w (lane_settle (w_ex w) (lane_new (mkReservation t r false) (mkGuard t) baseline) m) l gs) /\
   (metrics_ok baseline -> P r baseline ->
    path_to cfg P w (lane_drop (w_ex w) (lane_new (mkReservation t r false) (mkGuard t) baseline)) l gs)).
Proof.
  intros Hr Hf. split; [by apply admit_request_path|]. intros Hl Hg. split; [|split].
  - intros Hm HP. unfold finalize_admitted_report.
    destruct (should_record_report_resources report); [by apply settle_then_leave|by apply release_then_leave].
  - intros Hm HP. by apply settle_then_leave.
  - intros Hm HP. by apply settle_then_leave.
Qed.

(** C37: capacity comes back. From every reachable state the live guards can be dropped, one
    step each; and whenever no guard is alive, however the requests ended, the ingress state
    is the initial one, no tenant has pending resources, and every tenant is admitted by the
    ingress again. *)
Theorem admission_recovers cfg P w :
  config_ok cfg -> reachable cfg P w ->
  0 < max_in_flight (ec_ingress cfg) -> 0 < max_in_flight_per_tenant (ec_ingress cfg) ->
  (exists w', nsteps (adm_step cfg P) (length (w_reservations w) + length (w_guards w)) w w' /\
     w_reservations w' = [] /\ w_guards w' = []) /\
  (forall w', rtc (adm_step cfg P) w w' -> w_reservations w' = [] -> w_guards w' = [] ->
     w_ingress w' = ingress_default /\
     (forall t tr, per_tenant (w_accounting w') !! t = Some tr -> pending tr = resources_default) /\
     forall t, snd (try_enter (ec_ingress cfg) (w_ingress w') t) = Ok (mkGuard t)).
Proof using HL.
  intros Hcfg Hr Hp Ht. split.
  - destruct (drain_reservations cfg P w) as (w1 & Hs1 & Hr1 & Hg1).
    destruct (drain_guards cfg P w1) as (w2 & Hs2 & Hr2 & Hg2). exists w2.
    split; [|by rewrite Hr2]. rewrite <- Hg1. by eapply nsteps_trans.
  - intros w' Hw' Hr' Hg'. assert (reachable cfg P w') as Hreach by (unfold reachable in *; by etransitivity).
    destruct (idle_world cfg Hcfg P w' Hreach Hr' Hg') as [Hi Hpend]. split; [done|]. split; [done|].
    intros t. rewrite Hi. unfold try_enter, in_flight_of. cbn. rewrite lookup_empty. cbn.
    repeat (rewrite (proj2 (Z.leb_gt _ _)) by lia). done.
Qed.
End Properties.

(** ** Witnesses *)

#[local] Instance unit_payloads : Payloads := {|
  Diagnostics := unit; CompileError := unit; LoadError := unit; ValueSnapshot := unit; RunMetadata := unit
|}.

#[local] Instance sorted_order : HashOrder := {| hash_iter := map_to_list |}.

#[local] Instance sorted_order_laws : HashOrderLaws sorted_order := {| hash_iter_perm m := reflexivity _ |}.

(** At most two requests in flight, one per tenant; at most three requests per tenant. *)
Definition sample_config : ExecutorConfig :=
  mkConfig 1000 (mkIngressLimits 2 1) (mkAggregateLimits (Some 3) None None None (Some 100) None)
    (Some 40) None 4096.

Definition sample_resources : AccountedResources := aggregate_reservation sample_config 10 5.

Definition sample_metrics : RequestMetrics :=
  mkMetrics 10 1 1 1 1 1 1 1 5 5 5 20 30 1 100 200 0.

(** Tenant 7 after its first request was admitted. *)
Definition sample_accounting : TenantAccountingState :=
  fst (try_reserve accounting_default 7 (ec_aggregate sample_config) sample_resources).
Definition sample_ingress : IngressState := fst (try_enter (ec_ingress sample_config) ingress_default 7).
Definition sample_world : World :=
  with_ingress (with_accounting world0 sample_accounting [(7, sample_resources)]) sample_ingress [7].

Lemma sample_config_ok : config_ok sample_config.
Proof.
  split; [by zcast|]. split; [by zcast|]. intros [] cap; cbn; intros [= <-];
    unfold limit_max, U64_MAX; lia.
Qed.

Lemma sample_reachable P : reachable sample_config P sample_world.
Proof.
  unfold reachable. eapply rtc_l; [|apply rtc_once].
  - apply (step_reserve _ _ world0 7 sample_resources sample_accounting (mkReservation 7 sample_resources false)).
    + intros []; cbn; unfold U64_MAX, DURATION_MAX; lia.
    + cbn. lia.
    + intros []; cbn; unfold U64_MAX, DURATION_MAX; lia.
    + vm_compute. reflexivity.
  - apply (step_enter _ _ (with_accounting world0 sample_accounting [(7, sample_resources)]) 7 sample_ingress (mkGuard 7)).
    vm_compute. reflexivity.
Qed.

Lemma ingress_exact_witness :
  ig_total (w_ingress sample_world) = 1 /\
  snd (try_enter (ec_ingress sample_config) (w_ingress sample_world) 7) =
    Err (IngressRejected 7 1 1 Tenant).
Proof.
  destruct (ingress_exact sample_config any_settlement sample_world sample_config_ok (sample_reachable _))
    as (H & _). split; [exact H|vm_compute; reflexivity].
Defined.

Lemma budgets_hold_witness :
  value (accounted (totals (w_accounting sample_world) 7)) GasSpent +
    live_sum 7 GasSpent (w_reservations sample_world) <= 100.
Proof.
  apply (budgets_hold sample_config sample_world sample_config_ok (sample_reachable _) 7 GasSpent 100);
    [reflexivity|reflexivity].
Defined.

Lemma tracking_bounded_witness :
  Z.of_nat (size (per_tenant (w_accounting sample_world))) <= Z.max MAX_TRACKED_TENANTS (1 + 1).
Proof.
  apply (tracking_bounded sample_config any_settlement sample_world sample_config_ok (sample_reachable _)).
Defined.

Lemma request_paths_refine_witness :
  path_to sample_config any_settlement sample_world
    (lane_settle (w_ex sample_world) (lane_new (mkReservation 7 sample_resources false) (mkGuard 7) sample_metrics)
       sample_metrics) [] [].
Proof.
  assert (Hok : resources_ok sample_resources) by (intros []; cbn; unfold U64_MAX, DURATION_MAX; lia).
  assert (Hm : metrics_ok sample_metrics).
  { split; [cbn; lia|]. split; [cbn; lia|]. split; [cbn; lia|]. intros []; vm_compute; discriminate. }
  apply (request_paths_refine (PL := unit_payloads) sample_config any_settlement sample_world 7 tt 10 5 sample_resources [] []
    (request_report_error (PL := unit_payloads) Cancelled sample_metrics tt 7) sample_metrics sample_metrics); try done.
  intros []; vm_compute; discriminate.
Defined.

Lemma admission_recovers_witness :
  exists w', nsteps (adm_step sample_config any_settlement) 2 sample_world w' /\
    w_reservations w' = [] /\ w_guards w' = [].
Proof.
  apply (admission_recovers sample_config any_settlement sample_world sample_config_ok (sample_reachable _));
    reflexivity.
Defined.
