(* ===== verification/PreflightCache.v ===== *)
(** * PreflightCache: the executor's bounded verdict cache

    Model of [ruau-executor/src/preflight.rs]. The eviction loop takes fuel, [None] when it
    runs out. The cache refines a list of verdicts, oldest first: an insertion replaces the
    verdict of a known key in place or appends a new one, and then the oldest verdicts go until
    at most 256 verdicts of at most [max_bytes] bytes are left. *)

From Stdlib Require Import ZArith Lia.
From stdpp Require Import base numbers list option gmap.
From S2P Require Import Prelude ExecTypes.

Section Cache.
(** [PreflightOutcome], which the cache only stores. *)
Context {PreflightOutcome : Type}.

Record PreflightVerdict : Type := mkVerdict {
  pv_ast_nodes : Z;
  pv_type_arena_nodes : Z;
  pv_retained_bytes : Z;
  pv_outcome : PreflightOutcome;
}.

(** A [[u8; 32]] digest. *)
Notation Digest := (list Z) (only parsing).

Record PreflightCacheMap : Type := mkCacheMap {
  cm_map : gmap Digest PreflightVerdict;
  cm_order : list Digest;
  cm_retained_bytes : Z;
}.

Definition cache_default : PreflightCacheMap := mkCacheMap ∅ [] 0.

Definition FRONT_DOOR_CACHE_ENTRIES : Z := 256.
Definition DEFAULT_FRONT_DOOR_CACHE_BYTES : Z := 64 * 1024 * 1024.

Definition cache_get (c : PreflightCacheMap) (key : Digest) : option PreflightVerdict := cm_map c !! key.

Definition cache_over (max_bytes : Z) (c : PreflightCacheMap) : bool :=
  (FRONT_DOOR_CACHE_ENTRIES <? len (cm_order c)) || (max_bytes <? cm_retained_bytes c).

(** One round of the eviction loop; an empty queue leaves the state as it is. *)
Definition evict_one (c : PreflightCacheMap) : PreflightCacheMap :=
  match cm_order c with
  | [] => c
  | evicted :: order =>
      match cm_map c !! evicted with
      | Some verdict =>
          mkCacheMap (delete evicted (cm_map c)) order
            (u64_saturating_sub (cm_retained_bytes c) (pv_retained_bytes verdict))
      | None => mkCacheMap (cm_map c) order (cm_retained_bytes c)
      end
  end.

Fixpoint evict_loop (fuel : nat) (max_bytes : Z) (c : PreflightCacheMap) : option PreflightCacheMap :=
  match fuel with
  | O => None
  | S fuel' => if cache_over max_bytes c then evict_loop fuel' max_bytes (evict_one c) else Some c
  end.

Definition cache_insert (max_bytes : Z) (c : PreflightCacheMap) (key : Digest) (verdict : PreflightVerdict)
  : option PreflightCacheMap :=
  let retained_bytes := pv_retained_bytes verdict in
  let c1 :=
    match cm_map c !! key with
    | Some previous =>
        mkCacheMap (<[key := verdict]> (cm_map c)) (cm_order c)
          (u64_saturating_sub (cm_retained_bytes c) (pv_retained_bytes previous))
    | None => mkCacheMap (<[key := verdict]> (cm_map c)) (cm_order c ++ [key]) (cm_retained_bytes c)
    end in
  let c2 := mkCacheMap (cm_map c1) (cm_order c1) (u64_saturating_add (cm_retained_bytes c1) retained_bytes) in
  evict_loop (S (length (cm_order c2))) max_bytes c2.

Fixpoint cache_run (max_bytes : Z) (c : PreflightCacheMap) (ops : list (Digest * PreflightVerdict))
  : option PreflightCacheMap :=
  match ops with
  | [] => Some c
  | (key, verdict) :: ops' =>
      match cache_insert max_bytes c key verdict with
      | Some c' => cache_run max_bytes c' ops'
      | None => None
      end
  end.

(** ** The abstract cache *)

Notation Entries := (list (Digest * PreflightVerdict)) (only parsing).

Definition bytes_of (l : Entries) : Z := foldr (fun p acc => pv_retained_bytes (snd p) + acc) 0 l.

Definition fits_cache (max_bytes : Z) (l : Entries) : bool :=
  (len l <=? FRONT_DOOR_CACHE_ENTRIES) && (bytes_of l <=? max_bytes).

Fixpoint evict_oldest (max_bytes : Z) (l : Entries) : Entries :=
  match l with
  | [] => []
  | p :: t => if fits_cache max_bytes l then l else evict_oldest max_bytes t
  end.

Definition put_entry (key : Digest) (v : PreflightVerdict) (l : Entries) : Entries :=
  if decide (key ∈ l.*1) then (fun p => if decide (fst p = key) then (key, v) else p) <$> l
  else l ++ [(key, v)].

Definition entries_run (max_bytes : Z) (l : Entries) (ops : Entries) : Entries :=
  foldl (fun l op => evict_oldest max_bytes (put_entry (fst op) (snd op) l)) l ops.

Definition represents (c : PreflightCacheMap) (l : Entries) : Prop :=
  cm_order c = l.*1 /\ NoDup l.*1 /\ cm_map c = list_to_map l /\ cm_retained_bytes c = bytes_of l /\
  Forall (fun p => 0 <= pv_retained_bytes (snd p)) l.

Implicit Types (l : Entries).

Lemma bytes_of_nonneg l : Forall (fun p => 0 <= pv_retained_bytes (snd p)) l -> 0 <= bytes_of l.
Proof. induction 1 as [|p l Hp _ IH]; cbn; [lia|]. unfold bytes_of in IH. lia. Qed.

Lemma bytes_of_cons k v l : bytes_of ((k, v) :: l) = pv_retained_bytes v + bytes_of l.
Proof. done. Qed.

Lemma bytes_of_snoc k v l : bytes_of (l ++ [(k, v)]) = bytes_of l + pv_retained_bytes v.
Proof. induction l as [|[k' v'] l IH]; cbn [app]; rewrite ?bytes_of_cons; [cbn; lia|]. rewrite IH. lia. Qed.

Lemma cache_over_fits max_bytes c l : represents c l -> cache_over max_bytes c = negb (fits_cache max_bytes l).
Proof.
  intros (Ho & _ & _ & Hb & _). unfold cache_over, fits_cache. rewrite Ho, Hb.
  unfold len. rewrite length_fmap, negb_andb, !Z.ltb_antisym. done.
Qed.

Lemma evict_loop_spec max_bytes c l :
  0 <= max_bytes -> represents c l ->
  exists c', evict_loop (S (length l)) max_bytes c = Some c' /\ represents c' (evict_oldest max_bytes l).
Proof.
  intros Hmax. induction l as [|[k v] l IH] in c |- *; intros Hr; cbn [evict_loop length];
    rewrite (cache_over_fits _ _ _ Hr).
  - unfold fits_cache. cbn [bytes_of foldr]. rewrite (proj2 (Z.leb_le 0 max_bytes)) by done. by exists c.
  - cbn [evict_oldest]. destruct (fits_cache max_bytes ((k, v) :: l)); cbn [negb]; [by exists c|].
    apply IH. destruct Hr as (Ho & Hnd & Hm & Hb & Hf). unfold evict_one. rewrite Ho. cbn.
    inversion_clear Hnd as [|? ? Hk Hnd']. inversion_clear Hf as [|? ? Hv Hf'].
    rewrite Hm. cbn. rewrite lookup_insert_eq. cbn. split; [done|]. split; [done|]. split; [|split; [|done]]; cbn.
    + rewrite delete_insert_id; [done|]. by apply not_elem_of_list_to_map.
    + rewrite Hb, bytes_of_cons. pose proof (bytes_of_nonneg _ Hf'). unfold u64_saturating_sub. lia.
Qed.

Lemma replace_keys key v l : ((fun p => if decide (fst p = key) then (key, v) else p) <$> l).*1 = l.*1.
Proof. induction l as [|[k w] l IH]; cbn; [done|]. rewrite IH. case_decide; cbn in *; congruence. Qed.

Lemma replace_spec key v w l :
  NoDup l.*1 -> (list_to_map l : gmap _ _) !! key = Some w ->
  (list_to_map ((fun p => if decide (fst p = key) then (key, v) else p) <$> l) : gmap _ _) =
    <[key := v]> (list_to_map l) /\
  bytes_of ((fun p => if decide (fst p = key) then (key, v) else p) <$> l) =
    bytes_of l - pv_retained_bytes w + pv_retained_bytes v.
Proof.
  induction l as [|[k u] l IH]; cbn; [by rewrite lookup_empty|]. intros [Hk Hnd]%NoDup_cons.
  destruct (decide (k = key)) as [->|Hne].
  - rewrite lookup_insert_eq. intros [= ->].
    assert ((fun p : Digest * PreflightVerdict => if decide (p.1 = key) then (key, v) else p) <$> l = l) as ->.
    { rewrite <- (list_fmap_id l) at 2. apply list_fmap_ext. intros i [k' u'] Hi. cbn.
      rewrite decide_False; [done|]. intros ->. apply Hk. apply list_elem_of_lookup. exists i.
      by rewrite list_lookup_fmap, Hi. }
    split; [by rewrite insert_insert_eq|]. unfold bytes_of. cbn. lia.
  - rewrite lookup_insert_ne by done. intros Hw. destruct (IH Hnd Hw) as [IHm IHb].
    split; [cbn; rewrite IHm; by apply insert_insert_ne|]. unfold bytes_of in *. cbn in *. lia.
Qed.

Lemma cache_insert_spec max_bytes c l key v :
  0 <= max_bytes -> represents c l -> bytes_of l <= max_bytes ->
  0 <= pv_retained_bytes v -> max_bytes + pv_retained_bytes v <= U64_MAX ->
  exists c', cache_insert max_bytes c key v = Some c' /\
    represents c' (evict_oldest max_bytes (put_entry key v l)).
Proof.
  intros Hmax (Ho & Hnd & Hm & Hb & Hf) Hle Hv Hcap. unfold cache_insert, put_entry.
  destruct (cm_map c !! key) as [w|] eqn:Ek; cbn [cm_order cm_map cm_retained_bytes]; rewrite Hm in Ek.
  - assert (key ∈ l.*1) as Hin.
    { apply elem_of_list_to_map_2 in Ek. apply list_elem_of_fmap. by exists (key, w). }
    rewrite decide_True by done. destruct (replace_spec key v w l Hnd Ek) as [Hm' Hb'].
    rewrite Ho, length_fmap, <- (length_fmap (fun p => if decide (fst p = key) then (key, v) else p) l).
    apply evict_loop_spec; [done|]. split; [by rewrite replace_keys|]. split; [by rewrite replace_keys|].
    split; [by rewrite Hm', Hm|].
    assert (0 <= pv_retained_bytes w <= bytes_of l) as Hw.
    { apply elem_of_list_to_map_2 in Ek. clear -Ek Hf. induction Hf as [|[k u] l Hu Hf IH].
      - by apply not_elem_of_nil in Ek.
      - rewrite bytes_of_cons. pose proof (bytes_of_nonneg _ Hf). cbn in Hu.
        apply elem_of_cons in Ek as [[= <- <-]|Ek]; [lia|]. specialize (IH Ek). lia. }
    split.
    + cbn [cm_retained_bytes]. rewrite Hb', Hb. unfold u64_saturating_add, u64_saturating_sub. lia.
    + apply Forall_fmap. eapply Forall_impl; [exact Hf|]. intros [k u] Hu. cbn. by case_decide.
  - assert (key ∉ l.*1) as Hin by (by apply not_elem_of_list_to_map). rewrite decide_False by done.
    rewrite Ho. replace (length (l.*1 ++ [key])) with (length (l ++ [(key, v)]))
      by (rewrite !length_app, length_fmap; done).
    apply evict_loop_spec; [done|]. split; [by rewrite fmap_app|]. split.
    { rewrite fmap_app. apply NoDup_app. split; [done|]. split; [|apply NoDup_singleton].
      intros k Hk ->%list_elem_of_singleton. done. }
    split; [by rewrite list_to_map_snoc, Hm|]. split.
    + cbn [cm_retained_bytes]. rewrite bytes_of_snoc, Hb. unfold u64_saturating_add. lia.
    + apply Forall_app. split; [done|]. by constructor.
Qed.

Lemma evict_oldest_fits max_bytes l : 0 <= max_bytes -> fits_cache max_bytes (evict_oldest max_bytes l) = true.
Proof.
  intros Hmax. induction l as [|p l IH]; cbn [evict_oldest].
  - unfold fits_cache. cbn. by apply Z.leb_le.
  - by destruct (fits_cache max_bytes (p :: l)) eqn:E.
Qed.

Lemma evict_oldest_longest max_bytes l k :
  k `suffix_of` l -> fits_cache max_bytes k = true -> k `suffix_of` evict_oldest max_bytes l.
Proof.
  intros Hs Hf. induction l as [|p l IH]; cbn [evict_oldest]; [done|].
  destruct (fits_cache max_bytes (p :: l)) eqn:E; [done|]. apply IH.
  destruct k as [|q k]; [apply suffix_nil|]. apply suffix_cons_inv in Hs as [Hs|Hs]; [rewrite Hs in Hf; congruence|done].
Qed.

Lemma cache_run_spec max_bytes ops c l :
  0 <= max_bytes -> represents c l -> bytes_of l <= max_bytes ->
  Forall (fun op => 0 <= pv_retained_bytes (snd op) /\ max_bytes + pv_retained_bytes (snd op) <= U64_MAX) ops ->
  exists c', cache_run max_bytes c ops = Some c' /\ represents c' (entries_run max_bytes l ops).
Proof.
  intros Hmax. induction ops as [|[k v] ops IH] in c, l |- *; intros Hr Hle Hops; [by exists c|].
  inversion_clear Hops as [|? ? [H1 H2] Hops']. cbn [cache_run entries_run foldl fst snd].
  destruct (cache_insert_spec max_bytes c l k v Hmax Hr Hle H1 H2) as (c1 & -> & Hr1).
  apply IH; [done| |done].
  pose proof (evict_oldest_fits max_bytes (put_entry k v l) Hmax) as Hf. unfold fits_cache in Hf. zbool; lia.
Qed.

(** The eviction loop always ends, and after any sequence of insertions the cache holds
    what the abstract cache holds: the longest run of newest verdicts of at most 256 verdicts
    and [max_bytes] bytes that the last insertion left, with lookups answered from it. *)
Theorem preflight_cache_refines max_bytes ops :
  0 <= max_bytes ->
  Forall (fun op => 0 <= pv_retained_bytes (snd op) /\ max_bytes + pv_retained_bytes (snd op) <= U64_MAX) ops ->
  exists c, cache_run max_bytes cache_default ops = Some c /\
    (forall key, cache_get c key = (list_to_map (entries_run max_bytes [] ops) : gmap _ _) !! key) /\
    len (cm_order c) <= FRONT_DOOR_CACHE_ENTRIES /\ cm_retained_bytes c <= max_bytes /\
    cm_retained_bytes c = bytes_of (entries_run max_bytes [] ops) /\
    (forall ops' op, ops = ops' ++ [op] ->
       let l := put_entry (fst op) (snd op) (entries_run max_bytes [] ops') in
       entries_run max_bytes [] ops `suffix_of` l /\
       forall k, k `suffix_of` l -> fits_cache max_bytes k = true ->
         k `suffix_of` entries_run max_bytes [] ops).
Proof.
  intros Hmax Hops. assert (represents cache_default []) as H0 by (by repeat split; try constructor).
  destruct (cache_run_spec max_bytes ops _ _ Hmax H0 Hmax Hops) as (c & Hc & Hr). exists c. split; [done|].
  assert (Hfit : fits_cache max_bytes (entries_run max_bytes [] ops) = true).
  { destruct ops as [|op ops' _] using rev_ind; [by unfold fits_cache; cbn; apply Z.leb_le|].
    unfold entries_run. rewrite foldl_app. by apply evict_oldest_fits. }
  pose proof Hr as (Ho & _ & Hm & Hb & _). split; [intros key; unfold cache_get; by rewrite Hm|].
  unfold fits_cache in Hfit. apply andb_prop in Hfit as [H1%Z.leb_le H2%Z.leb_le].
  split; [rewrite Ho; unfold len in *; by rewrite length_fmap|]. split; [by rewrite Hb|]. split; [done|].
  intros ops' op -> l. unfold entries_run. rewrite foldl_app. cbn [foldl]. split.
  - fold (entries_run max_bytes [] ops') l. clear. induction l as [|p l IH]; cbn [evict_oldest]; [done|].
    case_match; [done|]. by apply suffix_cons_r.
  - intros k. apply evict_oldest_longest.
Qed.
End Cache.

Arguments PreflightVerdict : clear implicits.

(** Three verdicts of six bytes in a cache of ten bytes. *)
Definition sample_verdict : PreflightVerdict unit := mkVerdict 1 1 6 tt.
Definition sample_inserts : list (list Z * PreflightVerdict unit) :=
  [([0], sample_verdict); ([1], sample_verdict); ([2], sample_verdict)].

Lemma preflight_cache_refines_witness :
  exists c, cache_run 10 cache_default sample_inserts = Some c /\
    cache_get c [1] = None /\ cache_get c [2] = Some sample_verdict.
Proof.
  destruct (preflight_cache_refines 10 sample_inserts) as (c & Hc & Hg & _).
  - lia.
  - unfold U64_MAX. repeat constructor; cbn; lia.
  - exists c. split; [exact Hc|]. rewrite !Hg. split; reflexivity.
Defined.
