(* ===== verification/RustExec.v ===== *)
(** * RustExec: outcomes of runtime routines and ASCII classes

    [Exec] is the outcome of a routine of the virtual machine's library: a value, a raised
    runtime error ([err(message)] of [ruau-vm/src/call.rs]), a Rust panic (an index out of range,
    a failed [expect], an arithmetic underflow), or fuel that ran out, which stands for a loop
    that does not end. The theorems exclude the last two. *)

From Stdlib Require Import ZArith Lia.
From stdpp Require Import base numbers list strings option.
From S2P Require Import Prelude.

Inductive Exec (A : Type) : Type :=
| Done (a : A)
| Raise (message : string)
| Crash
| Diverge.
Arguments Done {A} a.
Arguments Raise {A} message.
Arguments Crash {A}.
Arguments Diverge {A}.

Definition exec_bind {A B} (m : Exec A) (f : A -> Exec B) : Exec B :=
  match m with
  | Done a => f a
  | Raise e => Raise e
  | Crash => Crash
  | Diverge => Diverge
  end.

Notation "'let!' x := m 'in' k" := (exec_bind m (fun x => k))
  (at level 10, x pattern, m at level 100, k at level 200) : ruau_scope.

(** Slice indexing. *)
Definition index {A} (l : list A) (i : Z) : Exec A :=
  match zget l i with
  | Some x => Done x
  | None => Crash
  end.

(** [a - b] on [usize]; an underflow is a panic. *)
Definition usize_sub (a b : Z) : Exec Z := if b <=? a then Done (a - b) else Crash.

(** The outcomes of a routine that neither panics nor loops. *)
Definition settled {A} (m : Exec A) : Prop := m <> Crash /\ m <> Diverge.

Lemma index_Done {A} (l : list A) i x : index l i = Done x <-> zget l i = Some x.
Proof. unfold index. destruct (zget l i); split; congruence. Qed.

Lemma index_in_range {A} (l : list A) i : 0 <= i < len l -> exists x, index l i = Done x /\ zget l i = Some x.
Proof.
  intros H. apply zget_is_Some in H as [x Hx]. exists x. by rewrite index_Done.
Qed.

Lemma exec_bind_Done {A B} (m : Exec A) (f : A -> Exec B) b :
  exec_bind m f = Done b <-> exists a, m = Done a /\ f a = Done b.
Proof. destruct m; cbn; naive_solver. Qed.

(** ** ASCII classes of a byte ([u8::is_ascii_*]) *)

Definition between (lo hi c : Z) : bool := (lo <=? c) && (c <=? hi).

Definition is_ascii_lowercase (c : Z) : bool := between 97 122 c.
Definition is_ascii_uppercase (c : Z) : bool := between 65 90 c.
Definition is_ascii_alphabetic (c : Z) : bool := is_ascii_lowercase c || is_ascii_uppercase c.
Definition is_ascii_digit (c : Z) : bool := between 48 57 c.
Definition is_ascii_alphanumeric (c : Z) : bool := is_ascii_alphabetic c || is_ascii_digit c.
Definition is_ascii_hexdigit (c : Z) : bool := is_ascii_digit c || between 65 70 c || between 97 102 c.
Definition is_ascii_control (c : Z) : bool := between 0 31 c || (c =? 127).
Definition is_ascii_graphic (c : Z) : bool := between 33 126 c.
Definition is_ascii_punctuation (c : Z) : bool :=
  between 33 47 c || between 58 64 c || between 91 96 c || between 123 126 c.
Definition to_ascii_lowercase (c : Z) : Z := if is_ascii_uppercase c then c + 32 else c.
