(* ===== verification/Pattern.v ===== *)
(** * Pattern: the Lua string-pattern matcher

    Model of [ruau-vm/src/pattern.rs]. A [Matcher] is its immutable part (source, pattern,
    limits), the section variables, and its mutable part, the state of the monad [M]: the
    captures and the step counter shared by the whole library call. The nesting depth is the
    structural argument of [do_match]: [d] is what is left of [max_depth], so a call at
    [depth + 1 > max_depth] is the case [O]. The other loops take fuel. *)

From Stdlib Require Import ZArith Lia.
From stdpp Require Import base numbers list strings option.
From S2P Require Import Prelude RustExec.

Definition L_ESC : Z := 37.
Definition CAP_UNFINISHED : Z := -1.
Definition CAP_POSITION : Z := -2.

Record PatternLimits : Set := mkPatternLimits {
  max_steps : Z;
  max_depth : nat;
  max_captures : Z;
}.

Inductive Capture : Set :=
| CapBytes (start length : Z)
| CapPos (position : Z).

Record MatchResult : Set := mkMatchResult {
  mr_start : Z;
  mr_end : Z;
  mr_captures : list Capture;
}.

(** The mutable part of a [Matcher]. *)
Record MState : Set := mkM { caps : list (Z * Z); steps : Z }.

Definition M (A : Type) : Type := MState -> Exec (A * MState).

Definition mret {A} (a : A) : M A := fun st => Done (a, st).
Definition mbind {A B} (m : M A) (f : A -> M B) : M B :=
  fun st => match m st with
            | Done (a, st') => f a st'
            | Raise e => Raise e
            | Crash => Crash
            | Diverge => Diverge
            end.
Definition mlift {A} (m : Exec A) : M A := fun st => let! a := m in Done (a, st).
Definition mraise {A} (message : string) : M A := fun _ => Raise message.
Definition get_caps : M (list (Z * Z)) := fun st => Done (caps st, st).
Definition set_caps (c : list (Z * Z)) : M unit := fun st => Done (tt, mkM c (steps st)).

Notation "'let*' x := m 'in' k" := (mbind m (fun x => k))
  (at level 10, x pattern, m at level 100, k at level 200) : ruau_scope.

(** [match_class]. *)
Definition match_class (c cl : Z) : bool :=
  let lower := to_ascii_lowercase cl in
  let named :=
    if lower =? 97 then Some (is_ascii_alphabetic c)
    else if lower =? 99 then Some (is_ascii_control c)
    else if lower =? 100 then Some (is_ascii_digit c)
    else if lower =? 103 then Some (is_ascii_graphic c)
    else if lower =? 108 then Some (is_ascii_lowercase c)
    else if lower =? 112 then Some (is_ascii_punctuation c)
    else if lower =? 115 then Some ((c =? 32) || between 9 13 c)
    else if lower =? 117 then Some (is_ascii_uppercase c)
    else if lower =? 119 then Some (is_ascii_alphanumeric c)
    else if lower =? 120 then Some (is_ascii_hexdigit c)
    else if lower =? 122 then Some (c =? 0)
    else None in
  match named with
  | Some res => if is_ascii_uppercase cl then negb res else res
  | None => cl =? c
  end.

(** The last index whose capture is open ([rposition]). *)
Fixpoint rposition_open (l : list (Z * Z)) : option nat :=
  match l with
  | [] => None
  | (_, n) :: t =>
      match rposition_open t with
      | Some i => Some (S i)
      | None => if n =? CAP_UNFINISHED then Some O else None
      end
  end.

(** [o == Some(&c)]. *)
Definition byte_is (o : option Z) (c : Z) : bool := bool_decide (o = Some c).

Section Matcher.
Context (src pat : list Z) (limits : PatternLimits).

Definition tick : M unit :=
  fun st =>
    let steps' := as_u32 (steps st + 1) in
    if max_steps limits <? steps' then Raise "pattern match is too complex"
    else Done (tt, mkM (caps st) steps').

(** The loop over the inside of a set; [p] is past the bracket and a leading caret. *)
Fixpoint set_end (fuel : nat) (p : Z) : Exec Z :=
  match fuel with
  | O => Diverge
  | S fuel' =>
      if len pat <=? p then Raise "malformed pattern (missing ']')"
      else
        let! cc := index pat p in
        let p := p + 1 in
        let p := if (cc =? L_ESC) && (p <? len pat) then p + 1 else p in
        if byte_is (zget pat p) 93 then Done (p + 1) else set_end fuel' p
  end.

Definition class_end (p : Z) : Exec Z :=
  let! c := index pat p in
  let p := p + 1 in
  if c =? L_ESC then
    if len pat <=? p then Raise "malformed pattern (ends with '%')" else Done (p + 1)
  else if c =? 91 then
    let p := if byte_is (zget pat p) 94 then p + 1 else p in
    set_end (S (length pat)) p
  else Done p.

Fixpoint bracket_loop (fuel : nat) (c p ec : Z) (sig : bool) : Exec bool :=
  match fuel with
  | O => Diverge
  | S fuel' =>
      if p <? ec then
        let! x := index pat p in
        if x =? L_ESC then
          let! cl := index pat (p + 1) in
          if match_class c cl then Done sig else bracket_loop fuel' c (p + 2) ec sig
        else
          let! range :=
            (if p + 2 <? ec then let! y := index pat (p + 1) in Done (y =? 45) else Done false) in
          if range then
            let! hi := index pat (p + 2) in
            if (x <=? c) && (c <=? hi) then Done sig else bracket_loop fuel' c (p + 3) ec sig
          else if x =? c then Done sig
          else bracket_loop fuel' c (p + 1) ec sig
      else Done (negb sig)
  end.

Definition match_bracket_class (c p ec : Z) : Exec bool :=
  let p := p + 1 in
  if byte_is (zget pat p) 94 then bracket_loop (S (length pat)) c (p + 1) ec false
  else bracket_loop (S (length pat)) c p ec true.

Definition single_match (s p ep : Z) : Exec bool :=
  match zget src s with
  | None => Done false
  | Some c =>
      let! x := index pat p in
      if x =? 46 then Done true
      else if x =? L_ESC then let! cl := index pat (p + 1) in Done (match_class c cl)
      else if x =? 91 then let! ec := usize_sub ep 1 in match_bracket_class c p ec
      else Done (x =? c)
  end.

Fixpoint balance_loop (fuel : nat) (open close cont s : Z) : M (option Z) :=
  match fuel with
  | O => fun _ => Diverge
  | S fuel' =>
      if s <? len src then
        let* _ := tick in
        let* c := mlift (index src s) in
        if c =? close then
          let cont := as_i32 (cont - 1) in
          if cont =? 0 then mret (Some (s + 1)) else balance_loop fuel' open close cont (s + 1)
        else if c =? open then balance_loop fuel' open close (as_i32 (cont + 1)) (s + 1)
        else balance_loop fuel' open close cont (s + 1)
      else mret None
  end.

Definition match_balance (s p : Z) : M (option Z) :=
  if len pat <=? p + 1 then mraise "malformed pattern (missing arguments to '%b')"
  else
    let* open := mlift (index pat p) in
    if negb (byte_is (zget src s) open) then mret None
    else
      let* close := mlift (index pat (p + 1)) in
      balance_loop (S (length src)) open close 1 (s + 1).

(** The greedy scan of [max_expand]: the number of items that match from [s + count] on. *)
Fixpoint max_scan (fuel : nat) (s p ep : Z) (count : nat) : M nat :=
  match fuel with
  | O => fun _ => Diverge
  | S fuel' =>
      let* b := mlift (single_match (s + Z.of_nat count) p ep) in
      if (b : bool) then let* _ := tick in max_scan fuel' s p ep (S count) else mret count
  end.

Section Recursion.
(** [do_match] one level down. *)
Context (rec : Z -> Z -> M (option Z)).

Fixpoint max_back (s ep : Z) (count : nat) : M (option Z) :=
  let* r := rec (s + Z.of_nat count) (ep + 1) in
  match r with
  | Some e => mret (Some e)
  | None =>
      match count with
      | O => mret None
      | S count' => max_back s ep count'
      end
  end.

Definition max_expand (s p ep : Z) : M (option Z) :=
  let* count := max_scan (S (length src)) s p ep 0 in
  max_back s ep count.

Fixpoint min_loop (fuel : nat) (s p ep : Z) : M (option Z) :=
  match fuel with
  | O => fun _ => Diverge
  | S fuel' =>
      let* r := rec s (ep + 1) in
      match r with
      | Some e => mret (Some e)
      | None =>
          let* b := mlift (single_match s p ep) in
          if (b : bool) then min_loop fuel' (s + 1) p ep else mret None
      end
  end.

Definition min_expand (s p ep : Z) : M (option Z) := min_loop (S (length src)) s p ep.

Definition start_capture (s p what : Z) : M (option Z) :=
  let* c := get_caps in
  if max_captures limits <=? len c then mraise "too many captures in pattern"
  else
    let* _ := set_caps (c ++ [(s, what)]) in
    let* res := rec s p in
    match res with
    | None => let* c := get_caps in let* _ := set_caps (removelast c) in mret None
    | Some e => mret (Some e)
    end.

(** [self.caps[l].1 = n]. *)
Definition set_cap_len (l : nat) (n : Z) : M unit :=
  let* c := get_caps in
  match c !! l with
  | Some (init, _) => set_caps (<[l := (init, n)]> c)
  | None => fun _ => Crash
  end.

Definition end_capture (s p : Z) : M (option Z) :=
  let* c := get_caps in
  match rposition_open c with
  | None => mraise "invalid pattern capture"
  | Some l =>
      match c !! l with
      | None => fun _ => Crash
      | Some (init, _) =>
          let* n := mlift (usize_sub s init) in
          let* _ := set_cap_len l n in
          let* res := rec s p in
          match res with
          | None => let* _ := set_cap_len l CAP_UNFINISHED in mret None
          | Some e => mret (Some e)
          end
      end
  end.

(** The slice [src[start..start + n]]. *)
Definition slice (start n : Z) : Exec (list Z) :=
  if (0 <=? start) && (start + n <=? len src) then
    Done (take (Z.to_nat n) (drop (Z.to_nat start) src))
  else Crash.

Definition match_capture (s : Z) (idx : nat) : M (option Z) :=
  let* c := get_caps in
  match c !! idx with
  | None => mraise "invalid capture index in pattern"
  | Some (start, n) =>
      if n =? CAP_UNFINISHED then mraise "invalid capture index in pattern"
      else
        let n := as_u64 n in
        let* room := mlift (usize_sub (len src) s) in
        if n <=? room then
          let* a := mlift (slice start n) in
          let* b := mlift (slice s n) in
          mret (if bool_decide (a = b) then Some (s + n) else None)
        else mret None
  end.

(** The loop of [match_inner]; every [continue] moves [p] forward. *)
Fixpoint match_inner (fuel : nat) (s p : Z) : M (option Z) :=
  match fuel with
  | O => fun _ => Diverge
  | S fuel' =>
      match zget pat p with
      | None => mret (Some s)
      | Some c =>
          let next := zget pat (p + 1) in
          if c =? 40 then
            if byte_is next 41 then start_capture s (p + 2) CAP_POSITION
            else start_capture s (p + 1) CAP_UNFINISHED
          else if c =? 41 then end_capture s (p + 1)
          else if (c =? 36) && (p + 1 =? len pat) then
            mret (if s =? len src then Some s else None)
          else if (c =? L_ESC) && byte_is next 98 then
            let* r := match_balance s (p + 2) in
            match r with
            | Some news => match_inner fuel' news (p + 4)
            | None => mret None
            end
          else if (c =? L_ESC) && byte_is next 102 then
            let p := p + 2 in
            if negb (byte_is (zget pat p) 91) then mraise "missing '[' after '%f' in pattern"
            else
              let* ep := mlift (class_end p) in
              let* prev := mlift (if s =? 0 then Done 0 else index src (s - 1)) in
              let cur := default 0 (zget src s) in
              let* ec := mlift (usize_sub ep 1) in
              let* b1 := mlift (match_bracket_class prev p ec) in
              let* b2 := mlift (if (b1 : bool) then Done false else match_bracket_class cur p ec) in
              if (b2 : bool) then match_inner fuel' s ep else mret None
          else if (c =? L_ESC) && match next with Some x => is_ascii_digit x | None => false end then
            let* x := mlift (index pat (p + 1)) in
            if x =? 48 then mraise "invalid capture index in pattern"
            else
              let* r := match_capture s (Z.to_nat (x - 49)) in
              match r with
              | Some news => match_inner fuel' news (p + 2)
              | None => mret None
              end
          else
            let* ep := mlift (class_end p) in
            let* b := mlift (single_match s p ep) in
            let quantifier := zget pat ep in
            if (b : bool) then
              if byte_is quantifier 63 then
                let* r := rec (s + 1) (ep + 1) in
                match r with
                | Some e => mret (Some e)
                | None => match_inner fuel' s (ep + 1)
                end
              else if byte_is quantifier 43 then max_expand (s + 1) p ep
              else if byte_is quantifier 42 then max_expand s p ep
              else if byte_is quantifier 45 then min_expand s p ep
              else match_inner fuel' (s + 1) ep
            else if byte_is quantifier 42 || byte_is quantifier 63 || byte_is quantifier 45 then
              match_inner fuel' s (ep + 1)
            else mret None
      end
  end.
End Recursion.

Fixpoint do_match (d : nat) (s p : Z) : M (option Z) :=
  let* _ := tick in
  match d with
  | O => mraise "pattern too complex (too deep)"
  | S d' => match_inner (do_match d') (S (length pat)) s p
  end.

Fixpoint collect (c : list (Z * Z)) : Exec (list Capture) :=
  match c with
  | [] => Done []
  | (init, n) :: t =>
      let! x :=
        (if n =? CAP_UNFINISHED then Raise "unfinished capture in pattern"
         else if n =? CAP_POSITION then Done (CapPos (init + 1))
         else Done (CapBytes init (Z.max n 0))) in
      let! rest := collect t in
      Done (x :: rest)
  end.

(** The scan of [find]; returns the step counter with the result. *)
Fixpoint find_loop (fuel : nat) (anchored : bool) (pstart start st : Z) : Exec (option MatchResult * Z) :=
  match fuel with
  | O => Diverge
  | S fuel' =>
      let! (r, m) := do_match (max_depth limits) start pstart (mkM [] st) in
      match r with
      | Some e =>
          let! cs := collect (caps m) in
          Done (Some (mkMatchResult start e cs), steps m)
      | None =>
          if anchored || (len src <=? start) then Done (None, steps m)
          else find_loop fuel' anchored pstart (start + 1) (steps m)
      end
  end.

Definition find (init st : Z) : Exec (option MatchResult * Z) :=
  let '(anchored, pstart) := if byte_is (zget pat 0) 94 then (true, 1) else (false, 0) in
  find_loop (S (length src)) anchored pstart (Z.min init (len src)) st.

Definition match_at (pos st : Z) : Exec (option MatchResult * Z) :=
  let! (r, m) := do_match (max_depth limits) pos 0 (mkM [] st) in
  match r with
  | Some e =>
      let! cs := collect (caps m) in
      Done (Some (mkMatchResult pos e cs), steps m)
  | None => Done (None, steps m)
  end.
End Matcher.
