(* ===== verification/PatternSpec.v ===== *)
(** * PatternSpec: what a pattern matches

    A pattern position holds an item ([item_at]), or nothing when the pattern is malformed
    there. [Match s p c e c'] says, without any search order, that the pattern from [p] on
    matches the source from [s] up to [e] and turns the captures [c] into [c']. *)

From Stdlib Require Import ZArith Lia.
From stdpp Require Import base numbers list strings option.
From S2P Require Import Prelude RustExec Pattern.

Section Spec.
Context (src pat : list Z).

Inductive item : Set :=
| IOpen
| IOpenPos
| IClose
| IEnd
| IBalance (open close : Z)
| IFrontier (set_start set_last : Z)
| IBackref (idx : nat)
| IRepeat (class_start class_stop : Z) (least : Z) (most : option Z).

(** The item at [p] and the position behind it. *)
Definition item_at (p : Z) : option (item * Z) :=
  match zget pat p with
  | None => None
  | Some c =>
      let next := zget pat (p + 1) in
      if c =? 40 then if byte_is next 41 then Some (IOpenPos, p + 2) else Some (IOpen, p + 1)
      else if c =? 41 then Some (IClose, p + 1)
      else if (c =? 36) && (p + 1 =? len pat) then Some (IEnd, p + 1)
      else if (c =? L_ESC) && byte_is next 98 then
        match zget pat (p + 2), zget pat (p + 3) with
        | Some open, Some close => Some (IBalance open close, p + 4)
        | _, _ => None
        end
      else if (c =? L_ESC) && byte_is next 102 then
        if byte_is (zget pat (p + 2)) 91 then
          match class_end pat (p + 2) with
          | Done ep => Some (IFrontier (p + 2) (ep - 1), ep)
          | _ => None
          end
        else None
      else if (c =? L_ESC) && match next with Some x => is_ascii_digit x | None => false end then
        match next with
        | Some x => if x =? 48 then None else Some (IBackref (Z.to_nat (x - 49)), p + 2)
        | None => None
        end
      else
        match class_end pat p with
        | Done ep =>
            let quantifier := zget pat ep in
            if byte_is quantifier 63 then Some (IRepeat p ep 0 (Some 1), ep + 1)
            else if byte_is quantifier 43 then Some (IRepeat p ep 1 None, ep + 1)
            else if byte_is quantifier 42 || byte_is quantifier 45 then Some (IRepeat p ep 0 None, ep + 1)
            else Some (IRepeat p ep 1 (Some 1), ep)
        | _ => None
        end
  end.

(** The nesting depth after [k] more bytes of a balanced run that opened before [s]. *)
Definition nesting (open close s : Z) (k : nat) : Z :=
  foldl (fun depth c => if c =? close then depth - 1 else if c =? open then depth + 1 else depth) 1
    (take k (drop (Z.to_nat s) src)).

(** The source from [s] on starts with a balanced run that ends at [e]. *)
Definition balanced (open close s e : Z) : Prop :=
  zget src s = Some open /\ exists k, e = s + 1 + Z.of_nat k /\ e <= len src /\
    nesting open close (s + 1) k = 0 /\ forall j, (j < k)%nat -> nesting open close (s + 1) j <> 0.

Definition item_matches (s b ep : Z) : Prop := single_match src pat s b ep = Done true.

(** The byte before [s], or 0 at the start. *)
Definition byte_before (s : Z) : Z := if s =? 0 then 0 else default 0 (zget src (s - 1)).

Inductive Match : Z -> Z -> list (Z * Z) -> Z -> list (Z * Z) -> Prop :=
| MDone s p c : zget pat p = None -> Match s p c s c
| MOpen s p q c e c' :
    item_at p = Some (IOpen, q) ->
    Match s q (c ++ [(s, CAP_UNFINISHED)]) e c' -> Match s p c e c'
| MOpenPos s p q c e c' :
    item_at p = Some (IOpenPos, q) ->
    Match s q (c ++ [(s, CAP_POSITION)]) e c' -> Match s p c e c'
| MClose s p q c l init n e c' :
    item_at p = Some (IClose, q) -> rposition_open c = Some l -> c !! l = Some (init, n) ->
    Match s q (<[l := (init, s - init)]> c) e c' -> Match s p c e c'
| MEnd s p q c : item_at p = Some (IEnd, q) -> s = len src -> Match s p c s c
| MBalance s p q c open close news e c' :
    item_at p = Some (IBalance open close, q) -> balanced open close s news ->
    Match news q c e c' -> Match s p c e c'
| MFrontier s p q c b ec e c' :
    item_at p = Some (IFrontier b ec, q) ->
    match_bracket_class pat (byte_before s) b ec = Done false ->
    match_bracket_class pat (default 0 (zget src s)) b ec = Done true ->
    Match s q c e c' -> Match s p c e c'
| MBackref s p q c idx start n e c' :
    item_at p = Some (IBackref idx, q) -> c !! idx = Some (start, n) -> 0 <= n -> s + n <= len src ->
    take (Z.to_nat n) (drop (Z.to_nat start) src) = take (Z.to_nat n) (drop (Z.to_nat s) src) ->
    Match (s + n) q c e c' -> Match s p c e c'
| MRepeat s p q c b ep least most k e c' :
    item_at p = Some (IRepeat b ep least most, q) ->
    least <= k -> (forall m, most = Some m -> k <= m) ->
    (forall i, 0 <= i < k -> item_matches (s + i) b ep) ->
    Match (s + k) q c e c' -> Match s p c e c'.

(** Captures that lie before [s]: open, a position, or a range. *)
Definition caps_ok (s : Z) (c : list (Z * Z)) : Prop :=
  Forall (fun '(init, n) => 0 <= init <= s /\
    (n = CAP_UNFINISHED \/ n = CAP_POSITION \/ (0 <= n /\ init + n <= s))) c.
End Spec.
