(* ===== verification/PatternFacts.v ===== *)
(** * PatternFacts: the matcher computes the specification

    A weakest-precondition reading of the matcher's monad ([wp]), in which a panic and
    exhausted fuel are failures, and one specification per routine: under [caps_ok] every
    routine returns, a success is a [Match], and [None] means that there is none. *)

From Stdlib Require Import ZArith Lia.
From stdpp Require Import base numbers list strings option.
From S2P Require Import Prelude RustExec Pattern PatternSpec.

(** ** Weakest preconditions *)

Definition wp {A} (m : M A) (st : MState) (Q : A -> MState -> Prop) : Prop :=
  match m st with
  | Done (a, st') => Q a st'
  | Raise _ => True
  | Crash | Diverge => False
  end.

Lemma mwp_ret {A} (a : A) st Q : Q a st -> wp (mret a) st Q.
Proof. done. Qed.

Lemma mwp_raise {A} e st (Q : A -> MState -> Prop) : wp (mraise e) st Q.
Proof. done. Qed.

Lemma mwp_bind {A B} (m : M A) (f : A -> M B) st Q :
  wp m st (fun a st' => wp (f a) st' Q) -> wp (mbind m f) st Q.
Proof. unfold wp, mbind. by destruct (m st) as [[a st']| | |]. Qed.

Lemma mwp_mono {A} (m : M A) st (Q Q' : A -> MState -> Prop) :
  wp m st Q -> (forall a st', Q a st' -> Q' a st') -> wp m st Q'.
Proof. unfold wp. intros H HQ. destruct (m st) as [[a st']| | |]; auto. Qed.

Lemma wp_lift_bind {A B} (m : Exec A) (f : A -> M B) st Q :
  match m with Done a => wp (f a) st Q | Raise _ => True | _ => False end -> wp (let* x := mlift m in f x) st Q.
Proof. intros H. apply mwp_bind. unfold wp, mlift. by destruct m. Qed.

Lemma wp_caps_bind {B} (f : list (Z * Z) -> M B) st Q :
  wp (f (caps st)) st Q -> wp (let* c := get_caps in f c) st Q.
Proof. intros H. apply mwp_bind. exact H. Qed.

Lemma wp_set_bind {B} c (f : unit -> M B) st Q :
  wp (f tt) (mkM c (steps st)) Q -> wp (let* u := set_caps c in f u) st Q.
Proof. intros H. apply mwp_bind. exact H. Qed.

Section Facts.
Context (src pat : list Z) (limits : PatternLimits).
Notation tick := (tick limits).
Notation match_inner := (match_inner src pat limits).
Notation do_match := (do_match src pat limits).
Notation Match := (Match src pat).
Notation item_at := (item_at pat).
Notation in_budget st := (steps st <= max_steps limits).

Lemma wp_tick_bind {B} (f : unit -> M B) st Q :
  (forall st', caps st' = caps st -> in_budget st' -> wp (f tt) st' Q) -> wp (let* u := tick in f u) st Q.
Proof.
  intros H. apply mwp_bind. unfold wp at 1, Pattern.tick.
  destruct (Z.ltb_spec (max_steps limits) (as_u32 (steps st + 1))); [done|]. by apply H.
Qed.

(** ** Classes and sets *)

Lemma byte_is_true o c : byte_is o c = true <-> o = Some c.
Proof. unfold byte_is. by rewrite bool_decide_eq_true. Qed.

Lemma set_end_spec fuel p :
  0 <= p <= len pat -> len pat - p < Z.of_nat fuel ->
  match set_end pat fuel p with
  | Done ep => p + 1 < ep <= len pat /\ zget pat (ep - 1) = Some 93
  | Raise _ => True
  | _ => False
  end.
Proof.
  induction fuel as [|fuel IH] in p |- *; intros Hp Hf; [lia|]; cbn [set_end].
  destruct (Z.leb_spec (len pat) p); [done|]. destruct (index_in_range pat p) as (cc & -> & _); [lia|]. cbn [exec_bind].
  set (p' := if (cc =? L_ESC) && (p + 1 <? len pat) then p + 1 + 1 else p + 1).
  assert (p + 1 <= p' <= len pat) by (unfold p'; destruct (_ && _) eqn:E; [apply andb_prop in E as [_ ?%Z.ltb_lt]|]; lia).
  clearbody p'. destruct (byte_is (zget pat p') 93) eqn:E.
  - apply byte_is_true in E. apply zget_Some in E as Hr. replace (p' + 1 - 1) with p' by lia. split; [lia|done].
  - specialize (IH p' ltac:(lia) ltac:(lia)). destruct (set_end pat fuel p'); try done. destruct IH. split; [lia|done].
Qed.

(** What [class_end] finds: the item is a byte, an escape or a set that is closed. *)
Definition class_ok (p ep : Z) : Prop :=
  p < ep <= len pat /\
  (zget pat p = Some L_ESC -> ep = p + 2) /\
  (zget pat p = Some 91 -> p + 2 < ep /\ zget pat (ep - 1) = Some 93).

Lemma class_end_spec p :
  0 <= p < len pat ->
  match class_end pat p with Done ep => class_ok p ep | Raise _ => True | _ => False end.
Proof.
  intros Hp. unfold class_end, class_ok. destruct (index_in_range pat p Hp) as (c & -> & Hc). cbn [exec_bind]. rewrite Hc.
  destruct (Z.eqb_spec c L_ESC) as [->|He].
  - destruct (Z.leb_spec (len pat) (p + 1)); [done|]. split; [lia|]. split; [lia|done].
  - destruct (Z.eqb_spec c 91) as [->|Hb].
    + set (p' := if byte_is (zget pat (p + 1)) 94 then p + 1 + 1 else p + 1).
      assert (p + 1 <= p' <= len pat).
      { unfold p'. destruct (byte_is _ _) eqn:E; [|lia]. apply byte_is_true, zget_Some in E. lia. }
      clearbody p'. pose proof (set_end_spec (S (length pat)) p' ltac:(lia) ltac:(unfold len in *; lia)) as Hs.
      destruct (set_end pat (S (length pat)) p'); try done. destruct Hs. split; [lia|]. split; [done|]. split; [lia|done].
    + split; [lia|]. split; intros [=]; congruence.
Qed.

Lemma bracket_loop_total fuel c p ec sig :
  0 <= p -> ec < len pat -> ec + 3 - p < Z.of_nat fuel + 3 -> (0 < fuel)%nat ->
  exists b, bracket_loop pat fuel c p ec sig = Done b.
Proof.
  induction fuel as [|fuel IH] in p |- *; intros Hp He Hf H0; [lia|]; cbn [bracket_loop].
  destruct (Z.ltb_spec p ec); [|by eexists].
  destruct (index_in_range pat p) as (x & -> & _); [lia|]. cbn [exec_bind].
  destruct (index_in_range pat (p + 1)) as (y & -> & _); [lia|]. cbn [exec_bind].
  destruct (x =? L_ESC); [destruct (match_class c y); [by eexists|]; apply IH; lia|].
  destruct (Z.ltb_spec (p + 2) ec) as [H2|H2]; cbn [exec_bind].
  - destruct (y =? 45).
    + destruct (index_in_range pat (p + 2)) as (z & -> & _); [lia|]. cbn [exec_bind].
      destruct (_ && _); [by eexists|]. apply IH; lia.
    + destruct (x =? c); [by eexists|]. apply IH; lia.
  - destruct (x =? c); [by eexists|]. apply IH; lia.
Qed.

Lemma match_bracket_class_total c p ec :
  0 <= p -> ec < len pat -> exists b, match_bracket_class pat c p ec = Done b.
Proof.
  intros Hp He. unfold match_bracket_class. unfold len in *. destruct (byte_is _ _); apply bracket_loop_total; unfold len; lia.
Qed.

Lemma single_match_total s p ep : 0 <= p < len pat -> class_ok p ep -> exists b, single_match src pat s p ep = Done b.
Proof.
  intros Hp (He & Hesc & Hset). unfold single_match. destruct (zget src s); [|by eexists].
  destruct (index_in_range pat p Hp) as (x & -> & Hx). rewrite Hx in *. cbn [exec_bind].
  destruct (x =? 46); [by eexists|]. destruct (Z.eqb_spec x L_ESC) as [->|].
  - specialize (Hesc eq_refl). destruct (index_in_range pat (p + 1)) as (y & -> & _); [lia|]. by eexists.
  - destruct (Z.eqb_spec x 91) as [->|]; [|by eexists]. unfold usize_sub.
    rewrite (proj2 (Z.leb_le 1 ep)) by lia. cbn [exec_bind]. apply match_bracket_class_total; lia.
Qed.

Lemma single_match_true s p ep : 0 <= s -> single_match src pat s p ep = Done true -> s < len src.
Proof.
  intros Hs. unfold single_match. destruct (zget src s) eqn:E; [|done]. intros _. apply zget_Some in E. lia.
Qed.

(** ** Balanced runs *)

Lemma nesting_0 open close s : nesting src open close s 0 = 1.
Proof. done. Qed.

Lemma nesting_S open close s k c :
  0 <= s -> zget src (s + Z.of_nat k) = Some c ->
  nesting src open close s (S k) =
    if c =? close then nesting src open close s k - 1
    else if c =? open then nesting src open close s k + 1 else nesting src open close s k.
Proof.
  intros Hs Hc. unfold nesting. rewrite (take_S_r _ _ c), foldl_app; [done|].
  apply zget_Some in Hc as [_ Hc]. rewrite lookup_drop. rewrite <- Hc. f_equal. lia.
Qed.

Lemma nesting_bound open close s k : Z.abs (nesting src open close s k) <= 1 + Z.of_nat k.
Proof.
  unfold nesting. set (l := take k (drop (Z.to_nat s) src)).
  assert (length l <= k)%nat as Hl by (unfold l; rewrite length_take; lia). clearbody l.
  assert (forall acc, Z.abs (foldl (fun depth c => if c =? close then depth - 1 else if c =? open then depth + 1 else depth)
    acc l) <= Z.abs acc + Z.of_nat (length l)) as H.
  { clear. induction l as [|c l IH]; intros acc; cbn [foldl length]; [lia|].
    etransitivity; [apply IH|]. repeat case_match; lia. }
  specialize (H 1). lia.
Qed.

Lemma nesting_pos open close s k :
  0 <= s -> s + Z.of_nat k <= len src -> (forall j, (j < k)%nat -> nesting src open close s j <> 0) ->
  nesting src open close s k <> 0 -> 0 < nesting src open close s k.
Proof.
  intros Hs Hk Hnz Hne. induction k as [|k IH]; [done|].
  destruct (zget_is_Some src (s + Z.of_nat k)) as [_ [c Hc]]; [lia|].
  assert (0 < nesting src open close s k) by (apply IH; [lia| |]; auto with lia).
  rewrite (nesting_S _ _ _ _ c) in * by done. repeat case_match; lia.
Qed.

Lemma balance_loop_spec fuel open close s k st :
  len src < 2147483648 -> 0 < s -> s + Z.of_nat k <= len src -> len src - (s + Z.of_nat k) < Z.of_nat fuel ->
  (forall j, (j <= k)%nat -> nesting src open close s j <> 0) -> in_budget st ->
  wp (balance_loop src limits fuel open close (nesting src open close s k) (s + Z.of_nat k)) st (fun r st' =>
    caps st' = caps st /\ in_budget st' /\
    match r with
    | Some e => exists n, e = s + Z.of_nat n /\ e <= len src /\ nesting src open close s n = 0 /\
        forall j, (j < n)%nat -> nesting src open close s j <> 0
    | None => forall n, s + Z.of_nat n <= len src -> nesting src open close s n <> 0
    end).
Proof.
  intros Hmax Hs. induction fuel as [|fuel IH] in k, st |- *; intros Hk Hf Hnz Hb; [lia|]. cbn [balance_loop].
  destruct (Z.ltb_spec (s + Z.of_nat k) (len src)).
  - apply wp_tick_bind. intros st1 Hc1 Hb1. apply wp_lift_bind.
    destruct (index_in_range src (s + Z.of_nat k)) as (c & -> & Hc); [lia|].
    pose proof (nesting_S open close s k c ltac:(lia) Hc) as HS. pose proof (nesting_bound open close s k).
    assert (0 < nesting src open close s k) by (apply nesting_pos; [lia|lia| |]; auto with lia).
    assert (forall n, (n <= S k)%nat -> (n <= k)%nat \/ n = S k) as Hle by lia.
    replace (s + Z.of_nat k + 1) with (s + Z.of_nat (S k)) by lia.
    assert (forall st1', caps st1' = caps st -> in_budget st1' -> nesting src open close s (S k) <> 0 ->
      wp (balance_loop src limits fuel open close (nesting src open close s (S k)) (s + Z.of_nat (S k))) st1'
        (fun r st' => caps st' = caps st /\ in_budget st' /\
        match r with
        | Some e => exists n, e = s + Z.of_nat n /\ e <= len src /\ nesting src open close s n = 0 /\
            forall j, (j < n)%nat -> nesting src open close s j <> 0
        | None => forall n, s + Z.of_nat n <= len src -> nesting src open close s n <> 0
        end)) as Hrec.
    { intros st1' Hc' Hb' Hne. rewrite <- Hc'. apply IH; [lia|lia| |done].
      intros j [?| ->]%Hle; auto. }
    revert HS. destruct (c =? close); [|destruct (c =? open)]; intros HS.
    + rewrite as_i32_small by (unfold is_i32; lia). rewrite <- HS.
      destruct (Z.eqb_spec (nesting src open close s (S k)) 0) as [Hz|Hz]; [|by apply Hrec].
      apply mwp_ret. split; [done|]. split; [done|]. exists (S k). split; [lia|]. split; [lia|].
      split; [done|]. intros j Hj. apply Hnz. lia.
    + rewrite as_i32_small by (unfold is_i32; lia). rewrite <- HS. apply Hrec; [done|done|lia].
    + rewrite <- HS. apply Hrec; [done|done|lia].
  - apply mwp_ret. split; [done|]. split; [done|]. intros n Hn. apply Hnz. lia.
Qed.

Lemma match_balance_spec s p st :
  len src < 2147483648 -> 0 <= s <= len src -> 0 <= p -> in_budget st ->
  wp (match_balance src pat limits s p) st (fun r st' =>
    caps st' = caps st /\ in_budget st' /\ exists open close, zget pat p = Some open /\ zget pat (p + 1) = Some close /\
    match r with
    | Some e => balanced src open close s e /\ s < e <= len src
    | None => forall e, ~ balanced src open close s e
    end).
Proof.
  intros Hmax Hs Hp Hb. unfold match_balance. destruct (Z.leb_spec (len pat) (p + 1)); [apply mwp_raise|].
  apply wp_lift_bind. destruct (index_in_range pat p) as (open & -> & Hopen); [lia|].
  destruct (index_in_range pat (p + 1)) as (close & Hcl & Hclose); [lia|].
  destruct (byte_is (zget src s) open) eqn:E; cbn [negb].
  - apply byte_is_true in E. apply zget_Some in E as Hr. apply wp_lift_bind. rewrite Hcl.
    pose proof (balance_loop_spec (S (length src)) open close (s + 1) 0 st Hmax) as Hloop.
    rewrite nesting_0, Z.add_0_r in Hloop.
    eapply mwp_mono; [apply Hloop|].
    + lia.
    + lia.
    + unfold len in *. lia.
    + intros [|j] Hj; [done|lia].
    + done.
    + intros r st' (H1 & H2 & H3). split; [done|]. split; [done|]. exists open, close. split; [done|]. split; [done|].
      destruct r as [e|].
      * destruct H3 as (n & -> & He & Hz & Hnz). split; [|lia]. split; [done|]. exists n. done.
      * intros e (_ & n & -> & He & Hz & _). by apply (H3 n).
  - apply mwp_ret. split; [done|]. split; [done|]. exists open, close. split; [done|]. split; [done|].
    intros e (Ho & _). apply byte_is_true in Ho. congruence.
Qed.

(** ** Repetition and captures, over a correct recursive call *)

Lemma caps_ok_le s s' c : s <= s' -> caps_ok s c -> caps_ok s' c.
Proof.
  unfold caps_ok. intros Hs H. eapply Forall_impl; [|exact H]. intros [init n] [Hi Hn]. split; [lia|].
  destruct Hn as [?|[?|?]]; [by left|by right; left|right; right; lia].
Qed.

(** The outcome of matching from [s] and [p] with captures [c]. *)
Definition outcome (s p : Z) (c : list (Z * Z)) (r : option Z) (st' : MState) : Prop :=
  in_budget st' /\
  match r with
  | Some e => s <= e <= len src /\ caps_ok e (caps st') /\ Match s p c e (caps st')
  | None => caps st' = c /\ forall e c', ~ Match s p c e c'
  end.

Definition rec_ok (rec : Z -> Z -> M (option Z)) : Prop :=
  forall s p st, 0 <= s <= len src -> 0 <= p -> caps_ok s (caps st) -> wp (rec s p) st (outcome s p (caps st)).

(** [k] items in a row match from [s] on. *)
Definition run_of (s p ep k : Z) : Prop := forall i, 0 <= i < k -> item_matches src pat (s + i) p ep.

Lemma run_of_bound s p ep k : 0 <= s -> 0 <= k -> s <= len src -> run_of s p ep k -> s + k <= len src.
Proof.
  intros Hs Hk Hl Hr. destruct (Z.eq_dec k 0); [lia|].
  pose proof (single_match_true (s + (k - 1)) p ep ltac:(lia) (Hr (k - 1) ltac:(lia))). lia.
Qed.

Lemma max_scan_spec fuel s p ep count st :
  0 <= p < len pat -> class_ok p ep -> 0 <= s -> s + Z.of_nat count <= len src ->
  len src - (s + Z.of_nat count) < Z.of_nat fuel -> run_of s p ep (Z.of_nat count) -> in_budget st ->
  wp (max_scan src pat limits fuel s p ep count) st (fun n st' =>
    caps st' = caps st /\ in_budget st' /\ run_of s p ep (Z.of_nat n) /\
    ~ item_matches src pat (s + Z.of_nat n) p ep /\ s + Z.of_nat n <= len src).
Proof.
  intros Hp Hc Hs. induction fuel as [|fuel IH] in count, st |- *; intros Hle Hf Hr Hb; [lia|]. cbn [max_scan].
  apply wp_lift_bind. destruct (single_match_total (s + Z.of_nat count) p ep Hp Hc) as [b Hm]. rewrite Hm. destruct b.
  - apply wp_tick_bind. intros st1 Hc1 Hb1. rewrite <- Hc1.
    pose proof (single_match_true (s + Z.of_nat count) p ep ltac:(lia) Hm). apply IH; [lia|lia| |done].
    intros i Hi. destruct (Z.eq_dec i (Z.of_nat count)) as [->|]; [exact Hm|]. apply Hr. lia.
  - apply mwp_ret. split; [done|]. split; [done|]. split; [done|]. split; [|done].
    unfold item_matches. rewrite Hm. done.
Qed.

Section Rec.
Context (rec : Z -> Z -> M (option Z)) (Hrec : rec_ok rec).

Lemma max_back_spec s ep count st :
  0 <= s -> s + Z.of_nat count <= len src -> 0 <= ep -> caps_ok s (caps st) ->
  wp (max_back rec s ep count) st (fun r st' => in_budget st' /\
    match r with
    | Some e => exists k, 0 <= k <= Z.of_nat count /\ s + k <= e <= len src /\ caps_ok e (caps st') /\
        Match (s + k) (ep + 1) (caps st) e (caps st')
    | None => caps st' = caps st /\ forall k e c', 0 <= k <= Z.of_nat count -> ~ Match (s + k) (ep + 1) (caps st) e c'
    end).
Proof using Hrec.
  intros Hs Hle Hep. induction count as [|count IH] in st, Hle |- *; intros Hok; cbn [max_back];
    apply mwp_bind; (eapply mwp_mono; [apply Hrec; [lia|lia|eapply caps_ok_le; [|exact Hok]; lia]|]);
    intros r st1 [Hb Hr]; destruct r as [e|].
  - apply mwp_ret. split; [done|]. destruct Hr as (He & Hc & Hm). exists 0. rewrite Z.add_0_r in *.
    split; [lia|]. split; [lia|]. by split.
  - apply mwp_ret. split; [done|]. destruct Hr as [Hc Hm]. split; [done|]. intros k e c' Hk.
    replace k with 0 by lia. rewrite Z.add_0_r in *. apply Hm.
  - apply mwp_ret. split; [done|]. destruct Hr as (He & Hc & Hm). exists (Z.of_nat (S count)).
    split; [lia|]. split; [lia|]. by split.
  - destruct Hr as [Hc Hm]. rewrite <- Hc in Hok |- *.
    eapply mwp_mono; [apply IH; [lia|done]|]. intros r' st2 [Hb2 Hr2]. split; [done|]. destruct r' as [e|].
    + destruct Hr2 as (k & Hk & Hr2). exists k. split; [lia|done].
    + destruct Hr2 as [Hc2 Hm2]. split; [done|]. intros k e c' Hk.
      destruct (Z.eq_dec k (Z.of_nat (S count))) as [->|]; [rewrite Hc; apply Hm|apply Hm2; lia].
Qed.

Lemma max_expand_spec s p ep st :
  0 <= p < len pat -> class_ok p ep -> 0 <= s <= len src -> caps_ok s (caps st) -> in_budget st ->
  wp (max_expand src pat limits rec s p ep) st (fun r st' => in_budget st' /\
    match r with
    | Some e => exists k, 0 <= k /\ run_of s p ep k /\ s + k <= e <= len src /\ caps_ok e (caps st') /\
        Match (s + k) (ep + 1) (caps st) e (caps st')
    | None => caps st' = caps st /\
        forall k e c', 0 <= k -> run_of s p ep k -> ~ Match (s + k) (ep + 1) (caps st) e c'
    end).
Proof using Hrec.
  intros Hp Hc Hs Hok Hb. unfold max_expand. apply mwp_bind.
  eapply mwp_mono; [apply max_scan_spec; [done|done|lia|lia|unfold len in *; lia|intros i Hi; lia|done]|].
  intros n st1 (Hc1 & Hb1 & Hrun & Hstop & Hn). rewrite <- Hc1 in Hok |- *.
  destruct Hc as [Hep _]. eapply mwp_mono; [apply max_back_spec; [lia|lia|lia|done]|].
  intros r st2 [Hb2 Hr]. split; [done|]. destruct r as [e|].
  - destruct Hr as (k & Hk & Hr). exists k. split; [lia|]. split; [|done]. intros i Hi. apply Hrun. lia.
  - destruct Hr as [Hc2 Hr]. split; [done|]. intros k e c' Hk Hrk. apply Hr. split; [done|].
    destruct (Z.le_gt_cases k (Z.of_nat n)); [done|]. destruct Hstop. apply Hrk. lia.
Qed.

Lemma min_loop_spec fuel s p ep st :
  0 <= p < len pat -> class_ok p ep -> 0 <= s <= len src -> len src - s < Z.of_nat fuel -> caps_ok s (caps st) ->
  wp (min_loop src pat rec fuel s p ep) st (fun r st' => in_budget st' /\
    match r with
    | Some e => exists k, 0 <= k /\ run_of s p ep k /\ s + k <= e <= len src /\ caps_ok e (caps st') /\
        Match (s + k) (ep + 1) (caps st) e (caps st')
    | None => caps st' = caps st /\
        forall k e c', 0 <= k -> run_of s p ep k -> ~ Match (s + k) (ep + 1) (caps st) e c'
    end).
Proof using Hrec.
  intros Hp Hc. induction fuel as [|fuel IH] in s, st |- *; intros Hs Hf Hok; [lia|]. cbn [min_loop].
  destruct Hc as [Hep Hc']. apply mwp_bind. eapply mwp_mono; [apply Hrec; [lia|lia|done]|].
  intros r st1 [Hb1 Hr]. destruct r as [e|].
  - apply mwp_ret. split; [done|]. destruct Hr as (He & Hce & Hm). exists 0. rewrite Z.add_0_r.
    split; [lia|]. split; [intros i Hi; lia|]. split; [lia|done].
  - destruct Hr as [Hc1 Hm]. apply wp_lift_bind.
    destruct (single_match_total s p ep Hp (conj Hep Hc')) as [b Hb]. rewrite Hb. destruct b.
    + pose proof (single_match_true s p ep ltac:(lia) Hb). rewrite <- Hc1 in Hok |- *.
      eapply mwp_mono; [apply IH; [lia|lia|eapply caps_ok_le; [|exact Hok]; lia]|].
      intros r st2 [Hb2 Hr]. split; [done|]. destruct r as [e|].
      * destruct Hr as (k & Hk & Hrun & He & Hce & Hme). exists (k + 1). split; [lia|]. split.
        { intros i Hi. destruct (Z.eq_dec i 0) as [->|]; [rewrite Z.add_0_r; exact Hb|].
          replace (s + i) with (s + 1 + (i - 1)) by lia. apply Hrun. lia. }
        replace (s + (k + 1)) with (s + 1 + k) by lia. done.
      * destruct Hr as [Hc2 Hr]. split; [done|]. intros k e c' Hk Hrun.
        destruct (Z.eq_dec k 0) as [->|]; [rewrite Z.add_0_r, Hc1; apply Hm|].
        replace (s + k) with (s + 1 + (k - 1)) by lia. apply Hr; [lia|].
        intros i Hi. replace (s + 1 + i) with (s + (i + 1)) by lia. apply Hrun. lia.
    + apply mwp_ret. split; [done|]. split; [done|]. intros k e c' Hk Hrun.
      destruct (Z.eq_dec k 0) as [->|]; [rewrite Z.add_0_r; apply Hm|].
      specialize (Hrun 0 ltac:(lia)). unfold item_matches in Hrun. rewrite Z.add_0_r in Hrun. congruence.
Qed.

Lemma start_capture_spec s p what st :
  0 <= s <= len src -> 0 <= p -> caps_ok s (caps st) -> what = CAP_UNFINISHED \/ what = CAP_POSITION ->
  wp (start_capture limits rec s p what) st (fun r st' => in_budget st' /\
    match r with
    | Some e => s <= e <= len src /\ caps_ok e (caps st') /\ Match s p (caps st ++ [(s, what)]) e (caps st')
    | None => caps st' = caps st /\ forall e c', ~ Match s p (caps st ++ [(s, what)]) e c'
    end).
Proof using Hrec.
  intros Hs Hp Hok Hw. unfold start_capture. apply wp_caps_bind.
  destruct (max_captures limits <=? len (caps st)); [apply mwp_raise|]. apply wp_set_bind, mwp_bind.
  eapply mwp_mono; [apply Hrec; [lia|lia|]|].
  - cbn [caps]. apply Forall_app. split; [done|]. constructor; [|constructor]. split; [lia|]. tauto.
  - cbn [caps]. intros r st1 [Hb Hr]. destruct r as [e|].
    + apply mwp_ret. done.
    + destruct Hr as [Hc Hm]. apply wp_caps_bind, wp_set_bind, mwp_ret. cbn [steps caps]. split; [done|].
      by rewrite Hc, removelast_last.
Qed.

Lemma rposition_open_spec c l : rposition_open c = Some l -> exists init, c !! l = Some (init, CAP_UNFINISHED).
Proof.
  induction c as [|[init n] c IH] in l |- *; cbn; [done|]. destruct (rposition_open c) as [i|].
  - intros [= <-]. apply IH. done.
  - destruct (Z.eqb_spec n CAP_UNFINISHED); intros [= <-]. exists init. by subst n.
Qed.

Lemma end_capture_spec s p st :
  0 <= s <= len src -> 0 <= p -> caps_ok s (caps st) ->
  wp (end_capture rec s p) st (fun r st' => in_budget st' /\
    exists l init, rposition_open (caps st) = Some l /\ caps st !! l = Some (init, CAP_UNFINISHED) /\
    match r with
    | Some e => s <= e <= len src /\ caps_ok e (caps st') /\
        Match s p (<[l := (init, s - init)]> (caps st)) e (caps st')
    | None => caps st' = caps st /\ forall e c', ~ Match s p (<[l := (init, s - init)]> (caps st)) e c'
    end).
Proof using Hrec.
  intros Hs Hp Hok. unfold end_capture. apply wp_caps_bind.
  destruct (rposition_open (caps st)) as [l|] eqn:El; [|apply mwp_raise].
  destruct (rposition_open_spec _ _ El) as [init Hl]. rewrite Hl.
  pose proof (lookup_lt_Some _ _ _ Hl) as Hlt.
  assert (0 <= init <= s) as Hi.
  { pose proof Hok as Hok'. unfold caps_ok in Hok'. rewrite Forall_lookup in Hok'. by destruct (Hok' _ _ Hl). }
  apply wp_lift_bind. unfold usize_sub. rewrite (proj2 (Z.leb_le init s)) by lia.
  unfold set_cap_len. apply mwp_bind, wp_caps_bind. rewrite Hl.
  apply mwp_bind. eapply mwp_mono; [apply Hrec; [lia|lia|]|].
  - cbn [caps]. apply Forall_insert; [done|]. split; [lia|]. right; right. lia.
  - cbn [caps]. intros r st1 [Hb Hr]. destruct r as [e|].
    + apply mwp_ret. split; [done|]. by exists l, init.
    + destruct Hr as [Hc Hm]. apply mwp_bind, wp_caps_bind. rewrite Hc, list_lookup_insert_eq by done.
      unfold wp. cbn [steps caps set_caps mret]. split; [done|]. exists l, init. split; [done|]. split; [done|].
      split; [|done]. by rewrite list_insert_insert_eq, list_insert_id.
Qed.
End Rec.

Lemma slice_ok start n : 0 <= start -> start + n <= len src ->
  slice src start n = Done (take (Z.to_nat n) (drop (Z.to_nat start) src)).
Proof.
  intros H1 H2. unfold slice. by rewrite (proj2 (Z.leb_le 0 start)), (proj2 (Z.leb_le (start + n) (len src))).
Qed.

Lemma match_capture_spec s idx st :
  len src < 2147483648 -> 0 <= s <= len src -> caps_ok s (caps st) -> in_budget st ->
  wp (match_capture src s idx) st (fun r st' => st' = st /\
    let same start n := take (Z.to_nat n) (drop (Z.to_nat start) src) = take (Z.to_nat n) (drop (Z.to_nat s) src) in
    match r with
    | Some e => exists start n, caps st !! idx = Some (start, n) /\ 0 <= n /\ s + n <= len src /\
        same start n /\ e = s + n
    | None => forall start n, caps st !! idx = Some (start, n) -> 0 <= n -> s + n <= len src -> ~ same start n
    end).
Proof.
  intros Hmax Hs Hok Hb. unfold match_capture. apply wp_caps_bind.
  destruct (caps st !! idx) as [[start n]|] eqn:E; [|apply mwp_raise].
  destruct (Z.eqb_spec n CAP_UNFINISHED) as [|Hn]; [apply mwp_raise|].
  unfold caps_ok in Hok. rewrite Forall_lookup in Hok. destruct (Hok _ _ E) as [Hst Hcase].
  apply wp_lift_bind. unfold usize_sub. rewrite (proj2 (Z.leb_le s (len src))) by lia.
  destruct Hcase as [?|[Hpos|[Hn0 Hns]]]; [done| |].
  - subst n. change (as_u64 CAP_POSITION) with 18446744073709551614.
    destruct (Z.leb_spec 18446744073709551614 (len src - s)); [lia|]. apply mwp_ret. split; [done|]. cbn.
    intros ? ? [= <- <-] H0. by cbv in H0.
  - rewrite as_u64_small by (unfold is_u64; lia). destruct (Z.leb_spec n (len src - s)).
    + apply wp_lift_bind. rewrite slice_ok by lia. apply wp_lift_bind. rewrite slice_ok by lia.
      apply mwp_ret. split; [done|]. cbn. case_bool_decide as Heq.
      * exists start, n. split; [done|]. split; [done|]. split; [lia|done].
      * intros ? ? [= <- <-] _ _. done.
    + apply mwp_ret. split; [done|]. cbn. intros ? ? [= <- <-]. lia.
Qed.

(** ** The items of a pattern *)

Definition item_step (it : item) (q s : Z) (c : list (Z * Z)) (e : Z) (c' : list (Z * Z)) : Prop :=
  match it with
  | IOpen => Match s q (c ++ [(s, CAP_UNFINISHED)]) e c'
  | IOpenPos => Match s q (c ++ [(s, CAP_POSITION)]) e c'
  | IClose => exists l init n, rposition_open c = Some l /\ c !! l = Some (init, n) /\
      Match s q (<[l := (init, s - init)]> c) e c'
  | IEnd => s = len src /\ e = s /\ c' = c
  | IBalance open close => exists news, balanced src open close s news /\ Match news q c e c'
  | IFrontier b ec =>
      match_bracket_class pat (byte_before src s) b ec = Done false /\
      match_bracket_class pat (default 0 (zget src s)) b ec = Done true /\ Match s q c e c'
  | IBackref idx => exists start n, c !! idx = Some (start, n) /\ 0 <= n /\ s + n <= len src /\
      take (Z.to_nat n) (drop (Z.to_nat start) src) = take (Z.to_nat n) (drop (Z.to_nat s) src) /\
      Match (s + n) q c e c'
  | IRepeat b ep least most => exists k, least <= k /\ (forall m, most = Some m -> k <= m) /\
      run_of s b ep k /\ Match (s + k) q c e c'
  end.

Lemma Match_iff p it q s c e c' :
  item_at p = Some (it, q) -> (Match s p c e c' <-> item_step it q s c e c').
Proof.
  intros Hi. split.
  - intros Hm. inversion Hm as [s0 p0 c0 Hn|s0 p0 q0 c0 e0 c0' Hi0 H0|s0 p0 q0 c0 e0 c0' Hi0 H0
      |s0 p0 q0 c0 l init n e0 c0' Hi0 H1 H2 H3|s0 p0 q0 c0 Hi0 H1|s0 p0 q0 c0 o cl news e0 c0' Hi0 H1 H2
      |s0 p0 q0 c0 b ec e0 c0' Hi0 H1 H2 H3|s0 p0 q0 c0 idx start n e0 c0' Hi0 H1 H2 H3 H4 H5
      |s0 p0 q0 c0 b ep least most k e0 c0' Hi0 H1 H2 H3 H4];
      [unfold PatternSpec.item_at in Hi; rewrite Hn in Hi; discriminate Hi|..];
      rewrite Hi in Hi0; injection Hi0 as -> ->; cbn; eauto 10.
  - destruct it; cbn; [intros H|intros H|intros (l & init & n & H1 & H2 & H3)|intros (-> & -> & ->)|intros (news & H1 & H2)
      |intros (H1 & H2 & H3)|intros (start & n & H1 & H2 & H3 & H4 & H5)|intros (k & H1 & H2 & H3 & H4)].
    + by eapply MOpen.
    + by eapply MOpenPos.
    + by eapply MClose.
    + by eapply MEnd.
    + by eapply MBalance.
    + by eapply MFrontier.
    + by eapply MBackref.
    + by eapply MRepeat.
Qed.

Lemma outcome_item p it q s c r st' :
  item_at p = Some (it, q) -> in_budget st' ->
  match r with
  | Some e => s <= e <= len src /\ caps_ok e (caps st') /\ item_step it q s c e (caps st')
  | None => caps st' = c /\ forall e c', ~ item_step it q s c e c'
  end -> outcome s p c r st'.
Proof.
  intros Hi Hb Hr. split; [done|]. destruct r as [e|].
  - by rewrite (Match_iff _ _ _ _ _ _ _ Hi).
  - destruct Hr as [Hc Hr]. split; [done|]. intros e c'. by rewrite (Match_iff _ _ _ _ _ _ _ Hi).
Qed.

(** ** Runs of an item *)

Lemma run_of_cons s p ep k :
  item_matches src pat s p ep -> run_of (s + 1) p ep k -> run_of s p ep (k + 1).
Proof.
  intros H Hr i Hi. destruct (Z.eq_dec i 0) as [->|]; [by rewrite Z.add_0_r|].
  replace (s + i) with (s + 1 + (i - 1)) by lia. apply Hr. lia.
Qed.

Lemma run_of_tail s p ep k : run_of s p ep k -> run_of (s + 1) p ep (k - 1).
Proof. intros Hr i Hi. replace (s + 1 + i) with (s + (i + 1)) by lia. apply Hr. lia. Qed.

Lemma run_of_stuck s p ep k : ~ item_matches src pat s p ep -> run_of s p ep k -> k <= 0.
Proof.
  intros Hn Hr. destruct (Z.le_gt_cases k 0); [done|]. destruct Hn.
  specialize (Hr 0 ltac:(lia)). by rewrite Z.add_0_r in Hr.
Qed.

Section Inner.
Context (Hmax : len src < 2147483648).
Context (rec : Z -> Z -> M (option Z)) (Hrec : rec_ok rec).
(** The rest of the loop. *)
Context (K : Z -> Z -> M (option Z)) (low : Z).
Context (HK : forall s p st, 0 <= s <= len src -> low < p -> caps_ok s (caps st) -> in_budget st ->
  wp (K s p) st (outcome s p (caps st))).

(** Continuing behind an item that matches exactly [k] times. *)
Lemma continue_repeat s p b ep least most q k st :
  item_at p = Some (IRepeat b ep least most, q) -> low < q -> 0 <= k -> 0 <= s -> s + k <= len src ->
  caps_ok s (caps st) -> in_budget st ->
  least <= k -> (forall m, most = Some m -> k <= m) -> run_of s b ep k ->
  (forall k' e c', least <= k' -> (forall m, most = Some m -> k' <= m) -> run_of s b ep k' -> k' <> k ->
     ~ Match (s + k') q (caps st) e c') ->
  wp (K (s + k) q) st (outcome s p (caps st)).
Proof using HK.
  intros Hi Hq Hk Hs Hsk Hok Hb Hl Hm Hr Honly.
  eapply mwp_mono; [apply HK; [lia|done|eapply caps_ok_le; [|exact Hok]; lia|done]|].
  intros r st' [Hb' Ho]. eapply outcome_item; [exact Hi|done|]. destruct r as [e|].
  - destruct Ho as (He & Hc & Ho). split; [lia|]. split; [done|]. by exists k.
  - destruct Ho as [Hc Ho]. split; [done|]. intros e c' (k' & H1 & H2 & H3 & H4).
    destruct (Z.eq_dec k' k) as [->|Hne]; [by apply Ho in H4|by apply (Honly k' e c')].
Qed.

(** An expansion from [s + skip] on, with [skip] items already matched. *)
Lemma expand_repeat s p ep skip (m : M (option Z)) st :
  item_at p = Some (IRepeat p ep skip None, ep + 1) -> 0 <= skip -> run_of s p ep skip ->
  wp m st (fun r st' => in_budget st' /\
    match r with
    | Some e => exists k, 0 <= k /\ run_of (s + skip) p ep k /\ s + skip + k <= e <= len src /\
        caps_ok e (caps st') /\ Match (s + skip + k) (ep + 1) (caps st) e (caps st')
    | None => caps st' = caps st /\
        forall k e c', 0 <= k -> run_of (s + skip) p ep k -> ~ Match (s + skip + k) (ep + 1) (caps st) e c'
    end) ->
  wp m st (outcome s p (caps st)).
Proof.
  intros Hi Hsk Hrun Hm. eapply mwp_mono; [exact Hm|]. intros r st' [Hb Hr].
  eapply outcome_item; [exact Hi|done|]. destruct r as [e|].
  - destruct Hr as (k & Hk & Hr & He & Hc & Hmm). split; [lia|]. split; [done|]. exists (skip + k).
    split; [lia|]. split; [done|]. split; [|by rewrite Z.add_assoc].
    intros i Hi'. destruct (Z.lt_ge_cases i skip); [apply Hrun; lia|].
    replace (s + i) with (s + skip + (i - skip)) by lia. apply Hr. lia.
  - destruct Hr as [Hc Hr]. split; [done|]. intros e c' (k & Hk & _ & Hrk & Hmm).
    apply (Hr (k - skip) e c'); [lia| |].
    + intros i Hi'. replace (s + skip + i) with (s + (skip + i)) by lia. apply Hrk. lia.
    + by replace (s + skip + (k - skip)) with (s + k) by lia.
Qed.

(** The quantified item that starts at [p], once its class ends at [ep]. *)
Definition repeat_item (p ep : Z) : item * Z :=
  let quantifier := zget pat ep in
  if byte_is quantifier 63 then (IRepeat p ep 0 (Some 1), ep + 1)
  else if byte_is quantifier 43 then (IRepeat p ep 1 None, ep + 1)
  else if byte_is quantifier 42 || byte_is quantifier 45 then (IRepeat p ep 0 None, ep + 1)
  else (IRepeat p ep 1 (Some 1), ep).

Lemma class_hit s p ep st :
  0 <= p < len pat -> low = p -> 0 <= s <= len src -> caps_ok s (caps st) -> in_budget st ->
  class_ok p ep -> item_at p = Some (repeat_item p ep) -> item_matches src pat s p ep ->
  let quantifier := zget pat ep in
  wp (if byte_is quantifier 63 then
        let* r := rec (s + 1) (ep + 1) in
        match r with Some e => mret (Some e) | None => K s (ep + 1) end
      else if byte_is quantifier 43 then max_expand src pat limits rec (s + 1) p ep
      else if byte_is quantifier 42 then max_expand src pat limits rec s p ep
      else if byte_is quantifier 45 then min_expand src pat rec s p ep
      else K (s + 1) ep) st (outcome s p (caps st)).
Proof using HK Hrec.
  intros Hp Hlow Hs Hok Hb Hc Hi Hhit. cbn zeta. unfold repeat_item in Hi. cbn zeta in Hi.
  pose proof Hc as [Hep _]. pose proof (single_match_true s p ep ltac:(lia) Hhit) as Hlt.
  assert (Hrun1 : run_of s p ep 1).
  { intros i Hi'. replace (s + i) with s by lia. exact Hhit. }
  assert (Hok1 : caps_ok (s + 1) (caps st)) by (eapply caps_ok_le; [|exact Hok]; lia).
  destruct (byte_is (zget pat ep) 63).
  { apply mwp_bind. eapply mwp_mono; [apply Hrec; [lia|lia|done]|]. intros r st1 [Hb1 Hr]. destruct r as [e|].
    - apply mwp_ret. eapply outcome_item; [exact Hi|done|]. destruct Hr as (He & Hce & Hm). split; [lia|].
      split; [done|]. exists 1. split; [lia|]. split; [intros m [= <-]; lia|done].
    - destruct Hr as [Hc1 Hr]. rewrite <- Hc1 in Hok |- *. replace s with (s + 0) at 1 by lia.
      eapply continue_repeat; [exact Hi|lia|lia|lia|lia|done|done|lia|intros m [= <-]; lia|intros i Hi'; lia|].
      intros k e c' Hk Hm Hrk Hne. specialize (Hm 1 eq_refl). replace k with 1 by lia. rewrite Hc1. apply Hr. }
  destruct (byte_is (zget pat ep) 43).
  { apply (expand_repeat s p ep 1); [exact Hi|lia|done|]. by apply max_expand_spec; [..|lia| |]. }
  destruct (byte_is (zget pat ep) 42).
  { apply (expand_repeat s p ep 0); [exact Hi|lia|intros i Hi'; lia|]. rewrite !Z.add_0_r.
    apply max_expand_spec; done. }
  destruct (byte_is (zget pat ep) 45).
  { apply (expand_repeat s p ep 0); [exact Hi|lia|intros i Hi'; lia|]. rewrite !Z.add_0_r. unfold min_expand.
    apply min_loop_spec; try done. unfold len in *. lia. }
  eapply continue_repeat; [exact Hi|lia|lia|lia|lia|done|done|lia|intros m [= <-]; lia|done|].
  intros k e c' Hk Hm _ Hne. specialize (Hm 1 eq_refl). lia.
Qed.

Lemma class_miss s p ep st :
  0 <= p < len pat -> low = p -> 0 <= s <= len src -> caps_ok s (caps st) -> in_budget st ->
  class_ok p ep -> item_at p = Some (repeat_item p ep) -> ~ item_matches src pat s p ep ->
  let quantifier := zget pat ep in
  wp (if byte_is quantifier 42 || byte_is quantifier 63 || byte_is quantifier 45 then K s (ep + 1)
      else mret None) st (outcome s p (caps st)).
Proof using HK.
  intros Hp Hlow Hs Hok Hb Hc Hi Hmiss. cbn zeta. unfold repeat_item in Hi. cbn zeta in Hi. pose proof Hc as [Hep _].
  assert (Hskip : forall most, item_at p = Some (IRepeat p ep 0 most, ep + 1) -> (forall m, most = Some m -> 0 <= m) ->
    wp (K s (ep + 1)) st (outcome s p (caps st))).
  { intros most Hi' Hm. replace s with (s + 0) at 1 by lia.
    eapply continue_repeat; [exact Hi'|lia|lia|lia|lia|done|done|lia|done|intros i H; lia|].
    intros k e c' Hk _ Hrk Hne. pose proof (run_of_stuck _ _ _ _ Hmiss Hrk). lia. }
  assert (Hnone : forall most q, item_at p = Some (IRepeat p ep 1 most, q) ->
    wp (mret None) st (outcome s p (caps st))).
  { intros most q Hi'. apply mwp_ret. eapply outcome_item; [exact Hi'|done|]. split; [done|].
    intros e c' (k & Hk & _ & Hrk & _). pose proof (run_of_stuck _ _ _ _ Hmiss Hrk). lia. }
  assert (Hx : forall a b, byte_is (zget pat ep) a = true -> byte_is (zget pat ep) b = true -> a = b).
  { intros a b Ha%byte_is_true Hb'%byte_is_true. congruence. }
  destruct (byte_is (zget pat ep) 63) eqn:E63.
  { rewrite orb_true_r. cbn [orb]. eapply Hskip; [exact Hi|intros m [= <-]; lia]. }
  destruct (byte_is (zget pat ep) 43) eqn:E43.
  { destruct (byte_is (zget pat ep) 42) eqn:E42; [by specialize (Hx _ _ E43 E42)|].
    destruct (byte_is (zget pat ep) 45) eqn:E45; [by specialize (Hx _ _ E43 E45)|]. by eapply Hnone. }
  rewrite orb_false_r. destruct (byte_is (zget pat ep) 42 || byte_is (zget pat ep) 45).
  - by eapply Hskip.
  - by eapply Hnone.
Qed.
End Inner.

Section Items.
Context (Hmax : len src < 2147483648).
Context (K : Z -> Z -> M (option Z)) (p : Z).
Context (HK : forall s' p' st', 0 <= s' <= len src -> p < p' -> caps_ok s' (caps st') -> in_budget st' ->
  wp (K s' p') st' (outcome s' p' (caps st'))).

(** Continuing at [s'] behind an item whose only match leads there. *)
Lemma continue_at it q s s' st :
  item_at p = Some (it, q) -> p < q -> 0 <= s <= s' -> s' <= len src -> caps_ok s (caps st) -> in_budget st ->
  (forall e c', item_step it q s (caps st) e c' <-> Match s' q (caps st) e c') ->
  wp (K s' q) st (outcome s p (caps st)).
Proof using HK.
  intros Hi Hq Hs Hl Hok Hb Hiff.
  eapply mwp_mono; [apply HK; [lia|done|eapply caps_ok_le; [|exact Hok]; lia|done]|].
  intros r st' [Hb' Hr]. eapply outcome_item; [exact Hi|done|]. destruct r as [e|].
  - destruct Hr as (He & Hc & Hm). split; [lia|]. split; [done|]. by apply Hiff.
  - destruct Hr as [Hc Hm]. split; [done|]. intros e c' H%Hiff. by apply Hm in H.
Qed.

Lemma stop_at it q s st :
  item_at p = Some (it, q) -> in_budget st -> (forall e c', ~ item_step it q s (caps st) e c') ->
  wp (mret None) st (outcome s p (caps st)).
Proof. intros Hi Hb Hn. apply mwp_ret. eapply outcome_item; [exact Hi|done|by split]. Qed.

Lemma balanced_unique open close s e e' : balanced src open close s e -> balanced src open close s e' -> e = e'.
Proof.
  intros (_ & k & -> & _ & Hz & Hnz) (_ & k' & -> & _ & Hz' & Hnz').
  destruct (lt_eq_lt_dec k k') as [[Hlt| ->]|Hlt]; [|done|].
  - by destruct (Hnz' _ Hlt).
  - by destruct (Hnz _ Hlt).
Qed.

Lemma balance_branch s st :
  0 <= p -> 0 <= s <= len src -> caps_ok s (caps st) -> in_budget st ->
  (forall open close, zget pat (p + 2) = Some open -> zget pat (p + 3) = Some close ->
     item_at p = Some (IBalance open close, p + 4)) ->
  wp (let* r := match_balance src pat limits s (p + 2) in
      match r with Some news => K news (p + 4) | None => mret None end) st (outcome s p (caps st)).
Proof using HK Hmax.
  intros Hp Hs Hok Hb Hi. apply mwp_bind. eapply mwp_mono; [apply match_balance_spec; [done|lia|lia|done]|].
  intros r st1 (Hc1 & Hb1 & open & close & Ho & Hcl & Hr). replace (p + 2 + 1) with (p + 3) in Hcl by lia.
  specialize (Hi _ _ Ho Hcl). rewrite <- Hc1 in Hok |- *. destruct r as [news|].
  - destruct Hr as [Hbal Hn]. eapply continue_at; [exact Hi|lia|lia|lia|done|done|].
    intros e c'. cbn. split; [|by eauto]. intros (news' & Hbal' & Hm).
    by rewrite (balanced_unique _ _ _ _ _ Hbal Hbal').
  - eapply stop_at; [exact Hi|done|]. intros e c' (news & Hbal & _). by apply (Hr news).
Qed.

Lemma frontier_branch s st :
  0 <= p -> 0 <= s <= len src -> caps_ok s (caps st) -> in_budget st -> zget pat (p + 2) = Some 91 ->
  (forall ep, class_end pat (p + 2) = Done ep -> item_at p = Some (IFrontier (p + 2) (ep - 1), ep)) ->
  wp (let* ep := mlift (class_end pat (p + 2)) in
      let* prev := mlift (if s =? 0 then Done 0 else index src (s - 1)) in
      let* ec := mlift (usize_sub ep 1) in
      let* b1 := mlift (match_bracket_class pat prev (p + 2) ec) in
      let* b2 := mlift (if (b1 : bool) then Done false else match_bracket_class pat (default 0 (zget src s)) (p + 2) ec) in
      if (b2 : bool) then K s ep else mret None) st (outcome s p (caps st)).
Proof using HK.
  intros Hp Hs Hok Hb Hbr Hi. apply wp_lift_bind. pose proof (zget_Some _ _ _ Hbr) as [Hlt _].
  pose proof (class_end_spec (p + 2) ltac:(lia)) as Hc.
  destruct (class_end pat (p + 2)) as [ep|e| |]; [|exact I|done|done].
  specialize (Hi ep eq_refl). destruct Hc as (Hep & _ & Hset). destruct (Hset Hbr) as [Hep2 _].
  apply wp_lift_bind. replace (if s =? 0 then Done 0 else index src (s - 1)) with (Done (byte_before src s)).
  2:{ unfold byte_before. destruct (Z.eqb_spec s 0); [done|].
      destruct (index_in_range src (s - 1)) as (x & -> & ->); [lia|]. done. }
  apply wp_lift_bind. unfold usize_sub. rewrite (proj2 (Z.leb_le 1 ep)) by lia. apply wp_lift_bind.
  destruct (match_bracket_class_total (byte_before src s) (p + 2) (ep - 1)) as [b1 H1]; [lia|lia|]. rewrite H1.
  apply wp_lift_bind. destruct b1.
  { eapply stop_at; [exact Hi|done|]. intros e c' (Hx & _). congruence. }
  destruct (match_bracket_class_total (default 0 (zget src s)) (p + 2) (ep - 1)) as [b2 H2]; [lia|lia|]. rewrite H2.
  destruct b2.
  - eapply continue_at; [exact Hi|lia|lia|lia|done|done|]. intros e c'. cbn. tauto.
  - eapply stop_at; [exact Hi|done|]. intros e c' (_ & Hx & _). congruence.
Qed.

Lemma backref_branch s idx st :
  0 <= s <= len src -> caps_ok s (caps st) -> in_budget st -> item_at p = Some (IBackref idx, p + 2) ->
  wp (let* r := match_capture src s idx in
      match r with Some news => K news (p + 2) | None => mret None end) st (outcome s p (caps st)).
Proof using HK Hmax.
  intros Hs Hok Hb Hi. apply mwp_bind. eapply mwp_mono; [apply match_capture_spec; done|].
  intros r st1 [-> Hr]. cbn in Hr. destruct r as [news|].
  - destruct Hr as (start & n & Hl & Hn & Hsn & Hsame & ->).
    eapply continue_at; [exact Hi|lia|lia|lia|done|done|]. intros e c'. cbn. split.
    + intros (start' & n' & Hl' & _ & _ & _ & Hm). congruence.
    + intros Hm. by exists start, n.
  - eapply stop_at; [exact Hi|done|]. intros e c' (start & n & Hl & Hn & Hsn & Hsame & _). by apply (Hr start n).
Qed.
End Items.

Lemma Some_if {A} (b : bool) (x y : A) : (if b then Some x else Some y) = Some (if b then x else y).
Proof. by destruct b. Qed.

Lemma match_inner_spec rec fuel s p st :
  len src < 2147483648 -> rec_ok rec ->
  0 <= s <= len src -> 0 <= p -> Z.max 0 (len pat - p) < Z.of_nat fuel -> caps_ok s (caps st) -> in_budget st ->
  wp (match_inner rec fuel s p) st (outcome s p (caps st)).
Proof.
  intros Hmax Hrec. induction fuel as [|fuel IH] in s, p, st |- *; intros Hs Hp Hf Hok Hb; [lia|]. cbn [Pattern.match_inner].
  destruct (zget pat p) as [c|] eqn:Ec; [|apply mwp_ret; split; [done|]; split; [lia|]; split; [done|by apply MDone]].
  pose proof (zget_Some _ _ _ Ec) as [Hlt _].
  assert (HK : forall s' p' st', 0 <= s' <= len src -> p < p' -> caps_ok s' (caps st') -> in_budget st' ->
    wp (match_inner rec fuel s' p') st' (outcome s' p' (caps st'))) by (intros; apply IH; done || lia).
  assert (Hitem : item_at p = item_at p) by done. unfold PatternSpec.item_at in Hitem at 2. rewrite Ec in Hitem. cbn zeta in Hitem |- *.
  destruct (c =? 40).
  { destruct (byte_is (zget pat (p + 1)) 41);
      (eapply mwp_mono; [apply start_capture_spec; [done|lia|lia|done|by (left + right)]|]);
      intros r st' [Hb' Hr]; (eapply outcome_item; [exact Hitem|done|exact Hr]). }
  destruct (c =? 41).
  { eapply mwp_mono; [apply end_capture_spec; [done|lia|lia|done]|].
    intros r st' (Hb' & l & init & Hl & Hi & Hr). eapply outcome_item; [exact Hitem|done|].
    destruct r as [e|].
    - destruct Hr as (He & Hc & Hm). split; [done|]. split; [done|]. by exists l, init, CAP_UNFINISHED.
    - destruct Hr as [Hc Hm]. split; [done|]. intros e c' (l' & init' & n & Hl' & Hi' & H).
      apply (Hm e c'). congruence. }
  destruct ((c =? 36) && (p + 1 =? len pat)).
  { apply mwp_ret. eapply outcome_item; [exact Hitem|done|].
    destruct (Z.eqb_spec s (len src)); [split; [lia|]; by split|]. split; [done|]. by intros e c' [? _]. }
  destruct ((c =? L_ESC) && byte_is (zget pat (p + 1)) 98).
  { apply balance_branch; try done. intros open close Ho Hc. by rewrite Hitem, Ho, Hc. }
  destruct ((c =? L_ESC) && byte_is (zget pat (p + 1)) 102).
  { destruct (byte_is (zget pat (p + 2)) 91) eqn:Eb; cbn [negb]; [|apply mwp_raise]. apply byte_is_true in Eb.
    apply frontier_branch; try done. intros ep Hep. by rewrite Hitem, Hep. }
  destruct ((c =? L_ESC) && match zget pat (p + 1) with Some x => is_ascii_digit x | None => false end) eqn:Ed.
  { apply andb_prop in Ed as [_ Ed]. apply wp_lift_bind. unfold index. destruct (zget pat (p + 1)) as [x|]; [|done].
    destruct (x =? 48); [apply mwp_raise|]. by apply backref_branch. }
  apply wp_lift_bind. pose proof (class_end_spec p ltac:(lia)) as Hc.
  destruct (class_end pat p) as [ep|e| |]; [|exact I|done|done]. rewrite !Some_if in Hitem.
  apply wp_lift_bind. destruct (single_match_total s p ep ltac:(lia) Hc) as [b Hm]. rewrite Hm. destruct b.
  - eapply class_hit; done || lia.
  - eapply class_miss; try done; try lia. unfold item_matches. congruence.
Qed.

Lemma do_match_spec d : len src < 2147483648 -> rec_ok (do_match d).
Proof.
  intros Hmax. induction d as [|d IH]; intros s p st Hs Hp Hok; cbn [Pattern.do_match];
    apply wp_tick_bind; intros st1 Hc Hb; [apply mwp_raise|].
  rewrite <- Hc in Hok |- *. apply match_inner_spec; try done. unfold len in *. lia.
Qed.
End Facts.
