(* ===== verification/PatternTheorems.v ===== *)
(** * PatternTheorems: what the matcher guarantees

    [find] returns, without panic, the leftmost position at which the declarative relation
    [Match] holds, with a match inside the source, or reports that there is none
    ([find_correct]); its limits can only turn a verdict into an error, never into another
    verdict ([find_limits_monotone]). *)

From Stdlib Require Import ZArith Lia.
From stdpp Require Import base numbers list strings option.
From S2P Require Import Prelude RustExec Pattern PatternSpec PatternFacts.

(** ** The scan *)

Definition capture_in (e : Z) (c : Capture) : Prop :=
  match c with
  | CapBytes a n => 0 <= a /\ 0 <= n /\ a + n <= e
  | CapPos q => 1 <= q <= e + 1
  end.

Lemma collect_spec e c :
  caps_ok e c ->
  match collect c with
  | Done l => Forall (capture_in e) l /\ length l = length c
  | Raise _ => True
  | _ => False
  end.
Proof.
  induction 1 as [|[init n] c [Hi Hn] _ IH]; cbn [collect]; [by split|].
  destruct (Z.eqb_spec n CAP_UNFINISHED); cbn [exec_bind]; [done|].
  destruct (Z.eqb_spec n CAP_POSITION) as [->|]; cbn [exec_bind];
    (destruct (collect c) as [l|e'| |]; cbn [exec_bind]; try done; destruct IH as [IH Hlen];
     split; [constructor; [|done]; cbn; unfold CAP_POSITION in *; lia|cbn; congruence]).
Qed.

Section Find.
Context (src pat : list Z) (limits : PatternLimits) (Hmax : len src < 2147483648).

(** There is a match that starts at [s]. *)
Definition matches_at (pstart s : Z) : Prop := exists e c, Match src pat s pstart [] e c.

Definition find_ok (anchored : bool) (pstart start : Z) (r : Exec (option MatchResult * Z)) : Prop :=
  match r with
  | Done (Some m, st') =>
      st' <= max_steps limits /\
      start <= mr_start m <= mr_end m /\ mr_end m <= len src /\ Forall (capture_in (mr_end m)) (mr_captures m) /\
      (exists c, Match src pat (mr_start m) pstart [] (mr_end m) c /\ collect c = Done (mr_captures m)) /\
      (forall s, start <= s < mr_start m -> ~ matches_at pstart s) /\
      (anchored = true -> mr_start m = start)
  | Done (None, st') =>
      st' <= max_steps limits /\
      forall s, start <= s <= (if anchored then start else len src) -> ~ matches_at pstart s
  | Raise _ => True
  | Crash | Diverge => False
  end.

Lemma find_loop_spec fuel anchored pstart start st :
  0 <= start <= len src -> 0 <= pstart -> len src - start < Z.of_nat fuel ->
  find_ok anchored pstart start (find_loop src pat limits fuel anchored pstart start st).
Proof using Hmax.
  induction fuel as [|fuel IH] in start, st |- *; intros Hs Hp Hf; [lia|]. cbn [find_loop].
  pose proof (do_match_spec src pat limits (max_depth limits) Hmax start pstart (mkM [] st) Hs Hp) as Hd.
  specialize (Hd ltac:(constructor)). unfold wp in Hd.
  destruct (do_match src pat limits (max_depth limits) start pstart (mkM [] st)) as [[r m]|e| |]; cbn [exec_bind]; try done.
  destruct Hd as [Hb Hd]. destruct r as [e|].
  - destruct Hd as (He & Hc & Hm). pose proof (collect_spec e (caps m) Hc) as Hcol.
    destruct (collect (caps m)) as [cs|e'| |] eqn:Ecs; cbn [exec_bind]; try done. cbn.
    split; [done|]. split; [lia|]. split; [lia|]. split; [apply Hcol|]. split; [by exists (caps m)|]. split; [|done].
    intros s Hs'. lia.
  - destruct Hd as [_ Hno]. assert (~ matches_at pstart start) as Hn by (intros (e & c & H); by apply (Hno e c)).
    assert (Hstart : forall s, start <= s <= start -> ~ matches_at pstart s) by (intros s Hs'; by replace s with start by lia).
    destruct anchored; cbn [orb]; [by split|].
    destruct (Z.leb_spec (len src) start); [split; [done|]; intros s Hs'; apply Hstart; lia|].
    specialize (IH (start + 1) (steps m) ltac:(lia) Hp ltac:(lia)).
    assert (Hext : forall s b, start <= s <= b -> (start + 1 <= s <= b -> ~ matches_at pstart s) -> ~ matches_at pstart s).
    { intros s b Hs' H'. destruct (Z.eq_dec s start) as [->|]; [done|apply H'; lia]. }
    destruct (find_loop src pat limits fuel false pstart (start + 1) (steps m)) as [[[r|] st']|e| |]; cbn in IH |- *; try done.
    + destruct IH as (H1 & H2 & H3 & H4 & H5 & H6 & H7). repeat (split; [done || lia|]). split; [|done].
      intros s Hs'. apply (Hext s (mr_start r - 1)); [lia|]. intros ?. apply H6. lia.
    + destruct IH as [H1 H2]. split; [done|]. intros s Hs'. apply (Hext s (len src)); [lia|]. intros ?. apply H2. lia.
Qed.
End Find.

(** Whether the pattern is anchored, and where its items start. *)
Definition anchor (pat : list Z) : bool := byte_is (zget pat 0) 94.
Definition pattern_start (pat : list Z) : Z := if anchor pat then 1 else 0.

Lemma find_spec src pat limits init st :
  len src < 2147483648 -> 0 <= init ->
  find_ok src pat limits (anchor pat) (pattern_start pat) (Z.min init (len src))
    (find src pat limits init st).
Proof.
  intros Hmax Hi. unfold find, pattern_start, anchor. pose proof (len_nonneg src).
  destruct (byte_is (zget pat 0) 94); apply find_loop_spec; try done; unfold len in *; lia.
Qed.

(** C13: [find] neither panics nor loops. A result is a match of the pattern at the leftmost
    possible position at or after [init] (at [init] for an anchored pattern), it lies inside
    the source with all its captures, and the step budget is respected; [None] means that the
    pattern matches at none of these positions. *)
Theorem find_correct src pat limits init st :
  len src < 2147483648 -> 0 <= init ->
  find_ok src pat limits (anchor pat) (pattern_start pat) (Z.min init (len src))
    (find src pat limits init st).
Proof. apply find_spec. Qed.

(** [match_at] neither panics nor loops; it finds a match of the pattern at exactly [pos]
    if there is one, and [None] means that there is none. *)
Theorem match_at_correct src pat limits pos st :
  len src < 2147483648 -> 0 <= pos <= len src ->
  match match_at src pat limits pos st with
  | Done (Some m, _) => mr_start m = pos /\ pos <= mr_end m <= len src /\
      Forall (capture_in (mr_end m)) (mr_captures m) /\
      exists c, Match src pat pos 0 [] (mr_end m) c /\ collect c = Done (mr_captures m)
  | Done (None, _) => ~ matches_at src pat 0 pos
  | Raise _ => True
  | Crash | Diverge => False
  end.
Proof.
  intros Hmax Hp. unfold match_at.
  pose proof (do_match_spec src pat limits (max_depth limits) Hmax pos 0 (mkM [] st) Hp ltac:(lia)) as Hd.
  specialize (Hd ltac:(constructor)). unfold wp in Hd.
  destruct (do_match src pat limits (max_depth limits) pos 0 (mkM [] st)) as [[r m]|e| |]; cbn [exec_bind]; try done.
  destruct Hd as [Hb Hd]. destruct r as [e|].
  - destruct Hd as (He & Hc & Hm). pose proof (collect_spec e (caps m) Hc) as Hcol.
    destruct (collect (caps m)) as [cs|e'| |] eqn:Ecs; cbn [exec_bind]; try done. cbn.
    split; [done|]. split; [lia|]. split; [apply Hcol|]. by exists (caps m).
  - destruct Hd as [_ Hno]. intros (e & c & H). by apply (Hno e c).
Qed.

(** ** Limits only cut off *)

Definition limits_le (l1 l2 : PatternLimits) : Prop :=
  max_steps l1 <= max_steps l2 /\ (max_depth l1 <= max_depth l2)%nat /\ max_captures l1 <= max_captures l2.

(** [m2] returns whatever [m1] returns. *)
Definition extends {A} (m1 m2 : M A) : Prop := forall st r, m1 st = Done r -> m2 st = Done r.

Create HintDb extends.

Lemma extends_refl {A} (m : M A) : extends m m.
Proof. by intros st r. Qed.

Lemma extends_raise {A} e (m : M A) : extends (mraise e) m.
Proof. by intros st r. Qed.

Lemma extends_diverge {A} (m : M A) : extends (fun _ => Diverge) m.
Proof. by intros st r. Qed.

Lemma extends_bind {A B} (m1 m2 : M A) (f1 f2 : A -> M B) :
  extends m1 m2 -> (forall a, extends (f1 a) (f2 a)) -> extends (mbind m1 f1) (mbind m2 f2).
Proof.
  intros Hm Hf st r. unfold mbind. destruct (m1 st) as [[a st']| | |] eqn:E; try done.
  rewrite (Hm _ _ E). apply Hf.
Qed.

Lemma extends_if {A} (b : bool) (m1 m2 n1 n2 : M A) :
  extends m1 m2 -> extends n1 n2 -> extends (if b then m1 else n1) (if b then m2 else n2).
Proof. by destruct b. Qed.

Lemma extends_opt {A} (o : option Z) (f1 f2 : Z -> M A) (n1 n2 : M A) :
  (forall x, extends (f1 x) (f2 x)) -> extends n1 n2 ->
  extends (match o with Some x => f1 x | None => n1 end) (match o with Some x => f2 x | None => n2 end).
Proof. destruct o; auto. Qed.

#[local] Hint Resolve extends_refl extends_raise extends_diverge extends_bind extends_if extends_opt : extends.

Section Limits.
Context (src pat : list Z) (l1 l2 : PatternLimits) (Hle : limits_le l1 l2).

Lemma extends_tick : extends (tick l1) (tick l2).
Proof using Hle.
  intros st r. unfold tick. destruct Hle as (Hs & _).
  destruct (Z.ltb_spec (max_steps l1) (as_u32 (steps st + 1))); [done|].
  by rewrite (proj2 (Z.ltb_ge _ _)) by lia.
Qed.
#[local] Hint Resolve extends_tick : extends.

Lemma extends_balance fuel open close cont s :
  extends (balance_loop src l1 fuel open close cont s) (balance_loop src l2 fuel open close cont s).
Proof using Hle. induction fuel as [|fuel IH] in cont, s |- *; cbn [balance_loop]; auto 10 with extends. Qed.
#[local] Hint Resolve extends_balance : extends.

Lemma extends_scan fuel s p ep count :
  extends (max_scan src pat l1 fuel s p ep count) (max_scan src pat l2 fuel s p ep count).
Proof using Hle. induction fuel as [|fuel IH] in count |- *; cbn [max_scan]; auto 10 with extends. Qed.
#[local] Hint Resolve extends_scan : extends.

Section Rec.
Context (r1 r2 : Z -> Z -> M (option Z)) (Hr : forall s p, extends (r1 s p) (r2 s p)).

Lemma extends_back s ep count : extends (max_back r1 s ep count) (max_back r2 s ep count).
Proof using Hr. induction count as [|count IH]; cbn [max_back]; auto 10 with extends. Qed.

Lemma extends_min fuel s p ep : extends (min_loop src pat r1 fuel s p ep) (min_loop src pat r2 fuel s p ep).
Proof using Hr. induction fuel as [|fuel IH] in s |- *; cbn [min_loop]; auto 10 with extends. Qed.

Lemma extends_start s p what : extends (start_capture l1 r1 s p what) (start_capture l2 r2 s p what).
Proof using Hr Hle.
  unfold start_capture. apply extends_bind; [apply extends_refl|]. intros c. destruct Hle as (_ & _ & Hc).
  destruct (Z.leb_spec (max_captures l1) (len c)); [apply extends_raise|].
  rewrite (proj2 (Z.leb_gt _ _)) by lia. auto 10 with extends.
Qed.

Lemma extends_end s p : extends (end_capture r1 s p) (end_capture r2 s p).
Proof using Hr.
  unfold end_capture. apply extends_bind; [apply extends_refl|]. intros c.
  destruct (rposition_open c) as [l|]; [|apply extends_raise]. destruct (c !! l) as [[init n]|]; auto 10 with extends.
Qed.
#[local] Hint Resolve extends_back extends_min extends_start extends_end : extends.

Lemma extends_inner fuel s p : extends (match_inner src pat l1 r1 fuel s p) (match_inner src pat l2 r2 fuel s p).
Proof using Hr Hle.
  induction fuel as [|fuel IH] in s, p |- *; cbn [match_inner]; [apply extends_refl|].
  destruct (zget pat p) as [c|]; [|apply extends_refl]. cbn zeta. unfold match_balance, max_expand, min_expand.
  repeat (apply extends_if; [auto 15 with extends|]). auto 20 with extends.
Qed.
End Rec.

Lemma extends_do_match d1 d2 s p :
  (d1 <= d2)%nat -> extends (do_match src pat l1 d1 s p) (do_match src pat l2 d2 s p).
Proof using Hle.
  intros Hd. induction d1 as [|d1 IH] in d2, Hd, s, p |- *; destruct d2 as [|d2]; cbn [do_match];
    (apply extends_bind; [apply extends_tick|]); intros _; try apply extends_raise; [lia|].
  apply extends_inner. intros s' p'. apply IH. lia.
Qed.

Lemma find_loop_extends fuel anchored pstart start st r :
  find_loop src pat l1 fuel anchored pstart start st = Done r ->
  find_loop src pat l2 fuel anchored pstart start st = Done r.
Proof using Hle.
  induction fuel as [|fuel IH] in start, st |- *; cbn [find_loop]; [done|].
  destruct (do_match src pat l1 (max_depth l1) start pstart (mkM [] st)) as [[o m]|e| |] eqn:E; cbn [exec_bind]; try done.
  rewrite (extends_do_match _ _ _ _ ltac:(apply Hle) _ _ E). cbn [exec_bind]. destruct o as [e|]; [done|].
  destruct (anchored || (len src <=? start)); [done|]. apply IH.
Qed.
End Limits.

(** Raising the step, depth and capture limits never changes a verdict: whatever [find]
    returns under some limits, result and steps spent, it returns under larger ones, so a
    limit can only turn a verdict into an error. *)
Theorem find_limits_monotone src pat l1 l2 init st r :
  limits_le l1 l2 -> find src pat l1 init st = Done r -> find src pat l2 init st = Done r.
Proof. intros Hle. unfold find. destruct (byte_is (zget pat 0) 94); by apply find_loop_extends. Qed.

(** ** Witnesses *)

(** The source [key = 42] and the pattern [(%w+)%s*=%s*()]. *)
Definition sample_src : list Z := [107; 101; 121; 32; 61; 32; 52; 50].
Definition sample_pat : list Z := [40; 37; 119; 43; 41; 37; 115; 42; 61; 37; 115; 42; 40; 41].
Definition sample_limits : PatternLimits := mkPatternLimits 1000 200 32.
Definition sample_result : MatchResult := mkMatchResult 0 6 [CapBytes 0 3; CapPos 7].

Lemma find_correct_witness :
  find_ok sample_src sample_pat sample_limits false 0 0 (Done (Some sample_result, 11)).
Proof.
  assert (find sample_src sample_pat sample_limits 0 0 = Done (Some sample_result, 11)) as <-
    by (vm_compute; reflexivity).
  apply (find_correct sample_src sample_pat sample_limits 0 0); [vm_compute; reflexivity|lia].
Defined.

Lemma match_at_correct_witness : ~ matches_at sample_src sample_pat 0 3.
Proof.
  assert (exists st, match_at sample_src sample_pat sample_limits 3 0 = Done (None, st)) as [st E]
    by (eexists; vm_compute; reflexivity).
  pose proof (match_at_correct sample_src sample_pat sample_limits 3 0) as H. rewrite E in H.
  apply H; [vm_compute; reflexivity|vm_compute; split; discriminate].
Defined.

Lemma find_limits_monotone_witness :
  find sample_src sample_pat (mkPatternLimits 100000 400 64) 0 0 = Done (Some sample_result, 11).
Proof.
  apply (find_limits_monotone sample_src sample_pat sample_limits);
    [unfold limits_le; cbn; lia|vm_compute; reflexivity].
Defined.
