(* ===== verification/Pack.v ===== *)
(** * Pack: [string.pack], [string.unpack] and [string.packsize]

    Model of [ruau-vm/src/pack.rs] and of the three builtins that drive it
    ([builtins/string_lib.rs]). A builtin reads a value argument in up to four ways (as an
    integer, as a single or double float, as bytes); [PackArg] holds these readings, [None]
    where the argument has no such reading. Results are the values the builtin pushes, before
    numbers are boxed and strings interned. *)

From Stdlib Require Import ZArith Lia.
From stdpp Require Import base numbers list strings option.
From S2P Require Import Prelude RustExec.

Definition SZINT : Z := 8.
Definition MAXINTSIZE : Z := 16.
Definition MAXALIGN : Z := 8.
Definition MAXSSIZE : Z := 1073741824.

Inductive KOption : Set :=
| KInt
| KUint
| KFloat
| KChar
| KStr
| KZstr
| KPadding
| KPaddAlign
| KNop.

#[export] Instance KOption_eq_dec : EqDecision KOption.
Proof. solve_decision. Defined.

Record Header : Set := mkHeader { little : bool; maxalign : Z }.

Definition header_new : Header := mkHeader true 1.

(** The parser state: the header and the position of the [Fmt] cursor. *)
Record PState : Set := mkP { ps_header : Header; ps_pos : Z }.

Definition set_little (b : bool) (h : Header) : Header := mkHeader b (maxalign h).
Definition set_maxalign (n : Z) (h : Header) : Header := mkHeader (little h) n.

Section Format.
(** The bytes of the format string. *)
Context (fmt : list Z).

Definition peek (pos : Z) : option Z := zget fmt pos.

Definition bump (pos : Z) : option Z * Z :=
  match peek pos with
  | Some c => (Some c, pos + 1)
  | None => (None, pos)
  end.

Definition at_end (pos : Z) : bool := len fmt <=? pos.

Definition digit_at (pos : Z) : bool := match peek pos with Some c => is_ascii_digit c | None => false end.

(** The digit loop of [getnum], from [a] read so far; the first digit is known to be there. *)
Fixpoint getnum_loop (fuel : nat) (a pos : Z) : Exec (Z * Z) :=
  match fuel with
  | O => Diverge
  | S fuel' =>
      match bump pos with
      | (None, _) => Crash
      | (Some c, pos') =>
          let a := as_i32 (a * 10 + (c - 48)) in
          if digit_at pos' && (a <=? 214748363) then getnum_loop fuel' a pos' else Done (a, pos')
      end
  end.

(** Returns the number and the new position. *)
Definition getnum (pos df : Z) : Exec (Z * Z) :=
  if negb (digit_at pos) then Done (df, pos)
  else
    let! (a, pos') := getnum_loop (S (length fmt)) 0 pos in
    if (MAXSSIZE <? a) || digit_at pos' then Raise "size specifier is too large" else Done (a, pos').

Definition getnumlimit (pos df : Z) : Exec (Z * Z) :=
  let! (sz, pos') := getnum pos df in
  if (MAXINTSIZE <? sz) || (sz <=? 0) then
    Raise ("integral size (" +:+ show sz +:+ ") out of limits [1,16]")
  else Done (sz, pos').

(** An option of fixed size. *)
Definition fixed (k : KOption) (size : Z) (h : Header) (pos : Z) : Exec (KOption * Z * PState) :=
  Done (k, size, mkP h pos).

(** An option whose size is a bounded numeral. *)
Definition sized (k : KOption) (h : Header) (pos df : Z) : Exec (KOption * Z * PState) :=
  let! (size, pos') := getnumlimit pos df in Done (k, size, mkP h pos').

Definition getoption (st : PState) : Exec (KOption * Z * PState) :=
  let h := ps_header st in
  let '(o, pos) := bump (ps_pos st) in
  let opt := default 32 o in
  if opt =? 98 then fixed KInt 1 h pos
  else if opt =? 66 then fixed KUint 1 h pos
  else if opt =? 104 then fixed KInt 2 h pos
  else if opt =? 72 then fixed KUint 2 h pos
  else if opt =? 108 then fixed KInt 8 h pos
  else if opt =? 76 then fixed KUint 8 h pos
  else if opt =? 106 then fixed KInt 4 h pos
  else if (opt =? 74) || (opt =? 84) then fixed KUint 4 h pos
  else if opt =? 102 then fixed KFloat 4 h pos
  else if (opt =? 100) || (opt =? 110) then fixed KFloat 8 h pos
  else if opt =? 105 then sized KInt h pos 4
  else if opt =? 73 then sized KUint h pos 4
  else if opt =? 115 then sized KStr h pos 4
  else if opt =? 99 then
    let! (size, pos') := getnum pos (-1) in
    if size =? -1 then Raise "missing size for format option 'c'" else Done (KChar, size, mkP h pos')
  else if opt =? 122 then fixed KZstr 0 h pos
  else if opt =? 120 then fixed KPadding 1 h pos
  else if opt =? 88 then fixed KPaddAlign 0 h pos
  else if opt =? 32 then fixed KNop 0 h pos
  else if (opt =? 60) || (opt =? 61) then fixed KNop 0 (set_little true h) pos
  else if opt =? 62 then fixed KNop 0 (set_little false h) pos
  else if opt =? 33 then
    let! (n, pos') := getnumlimit pos MAXALIGN in Done (KNop, 0, mkP (set_maxalign n h) pos')
  else Raise ("invalid format option '" +:+ String.String (Ascii.ascii_of_N (Z.to_N opt)) "'").

(** Returns the option, its size and its alignment padding. *)
Definition getdetails (st : PState) (totalsize : Z) : Exec (KOption * Z * Z * PState) :=
  let! (opt, size, st1) := getoption st in
  let! (align, st2) :=
    (if bool_decide (opt = KPaddAlign) then
       if at_end (ps_pos st1) then Raise "invalid next option for option 'X'"
       else
         let! (next, a, st2) := getoption st1 in
         if bool_decide (next = KChar) || (a =? 0) then Raise "invalid next option for option 'X'"
         else Done (a, st2)
     else Done (size, st1)) in
  if (align <=? 1) || bool_decide (opt = KChar) then Done (opt, size, 0, st2)
  else
    let align := if maxalign (ps_header st2) <? align then maxalign (ps_header st2) else align in
    if negb (Z.land align (align - 1) =? 0) then Raise "format asks for alignment not power of 2"
    else
      let mask := align - 1 in
      Done (opt, size, Z.land (as_i32 (align - Z.land totalsize mask)) (align - 1), st2).
End Format.

(** ** Integers *)

(** [buff[i] = x]. *)
Definition set_byte (buff : list Z) (i x : Z) : Exec (list Z) :=
  if (0 <=? i) && (i <? len buff) then Done (<[Z.to_nat i := x]> buff) else Crash.

(** The position of byte [i] of an integer. *)
Definition byte_slot (lit : bool) (size i : Z) : Z := if lit then i else size - 1 - i.

(** [for i in i..i + count { n >>= NB; buff[slot i] = (n & MC) as u8 }]. *)
Fixpoint packint_loop (count : nat) (lit : bool) (size i n : Z) (buff : list Z) : Exec (list Z) :=
  match count with
  | O => Done buff
  | S count' =>
      let n := Z.shiftr n 8 in
      let! buff := set_byte buff (byte_slot lit size i) (Z.land n 255) in
      packint_loop count' lit size (i + 1) n buff
  end.

Fixpoint fill_loop (count : nat) (lit : bool) (size i : Z) (buff : list Z) : Exec (list Z) :=
  match count with
  | O => Done buff
  | S count' =>
      let! buff := set_byte buff (byte_slot lit size i) 255 in
      fill_loop count' lit size (i + 1) buff
  end.

Definition packint (out : list Z) (n : Z) (lit : bool) (size : Z) (neg : bool) : Exec (list Z) :=
  let buff := replicate (Z.to_nat MAXINTSIZE) 0 in
  let! buff := set_byte buff (byte_slot lit size 0) (Z.land n 255) in
  let! buff := packint_loop (Z.to_nat (size - 1)) lit size 1 n buff in
  let! buff :=
    (if neg && (SZINT <? size) then fill_loop (Z.to_nat (size - SZINT)) lit size SZINT buff else Done buff) in
  Done (out ++ take (Z.to_nat size) buff).

(** [for i in (0..limit).rev() { res <<= NB; res |= data[slot i] }]. *)
Fixpoint unpack_loop (limit : nat) (data : list Z) (lit : bool) (size res : Z) : Exec Z :=
  match limit with
  | O => Done res
  | S i =>
      let! b := index data (byte_slot lit size (Z.of_nat i)) in
      unpack_loop i data lit size (Z.lor (as_u64 (Z.shiftl res 8)) b)
  end.

(** The check of the bytes past the eighth: [true] when all are [fill]. *)
Fixpoint fill_check (count : nat) (data : list Z) (lit : bool) (size i fill : Z) : Exec bool :=
  match count with
  | O => Done true
  | S count' =>
      let! b := index data (byte_slot lit size i) in
      if negb (b =? fill) then Done false else fill_check count' data lit size (i + 1) fill
  end.

Definition unpackint (data : list Z) (lit : bool) (size : Z) (signed : bool) : Exec Z :=
  let limit := Z.min size SZINT in
  let! res := unpack_loop (Z.to_nat limit) data lit size 0 in
  if size <? SZINT then
    if signed then
      let mask := Z.shiftl 1 (size * 8 - 1) in
      Done (as_i64 (as_u64 (Z.lxor res mask - mask)))
    else Done (as_i64 res)
  else if SZINT <? size then
    let fill := if negb signed || (0 <=? as_i64 res) then 0 else 255 in
    let! ok := fill_check (Z.to_nat (size - limit)) data lit size limit fill in
    if (ok : bool) then Done (as_i64 res)
    else Raise (show size +:+ "-byte integer does not fit into Lua Integer")
  else Done (as_i64 res).

(** ** The builtins *)

Record PackArg : Set := mkArg {
  pa_i64 : option Z;
  pa_f32 : option (list Z);
  pa_f64 : option (list Z);
  pa_bytes : option (list Z);
}.

(** What [string.unpack] pushes: an integer ([res as f64] of an [i64], of a [u64]), a single
    or double float by its bytes, a string. *)
Inductive PackResult : Set :=
| RInt (n : Z)
| RUint (n : Z)
| RSingle (le : list Z)
| RDouble (le : list Z)
| RString (s : list Z).

Definition absent_arg : PackArg := mkArg None None None None.

(** A reading of the argument at [arg]; the error of a missing reading is [e]. *)
Definition read_arg {A} (args : list PackArg) (arg : nat) (view : PackArg -> option A) (e : string) : Exec A :=
  match view (default absent_arg (args !! arg)) with
  | Some a => Done a
  | None => Raise e
  end.

Definition pack_number_error : string := "bad argument to 'string.pack' (number expected)".
Definition pack_string_error : string := "bad argument to a string function (string expected)".

Definition push_endian (out le : list Z) (lit : bool) : list Z := out ++ (if lit then le else reverse le).

Section Pack.
Context (fmt : list Z) (args : list PackArg) (max_pack_bytes : Z).

(** [total as usize > max_pack_bytes]. *)
Definition too_large (total : Z) : bool := max_pack_bytes <? as_u64 total.

(** One value of [string_pack]; returns the output, the total and the next argument. *)
Definition pack_value (opt : KOption) (size : Z) (lit : bool) (out : list Z) (total : Z) (arg : nat)
  : Exec (list Z * Z * nat) :=
  match opt with
  | KInt =>
      let! n := read_arg args arg pa_i64 pack_number_error in
      if (size <? 8) && negb ((- Z.shiftl 1 (size * 8 - 1) <=? n) && (n <? Z.shiftl 1 (size * 8 - 1))) then
        Raise "integer overflow"
      else
        let! out := packint out (as_u64 n) lit size (n <? 0) in
        Done (out, total, S arg)
  | KUint =>
      let! n := read_arg args arg pa_i64 pack_number_error in
      if (size <? 8) && (Z.shiftl 1 (size * 8) <=? as_u64 n) then Raise "unsigned overflow"
      else
        let! out := packint out (as_u64 n) lit size false in
        Done (out, total, S arg)
  | KFloat =>
      if size =? 4 then
        let! le := read_arg args arg pa_f32 pack_number_error in Done (push_endian out le lit, total, S arg)
      else
        let! le := read_arg args arg pa_f64 pack_number_error in Done (push_endian out le lit, total, S arg)
  | KChar =>
      let! s := read_arg args arg pa_bytes pack_string_error in
      if size <? len s then Raise "string longer than given size"
      else Done (out ++ s ++ replicate (Z.to_nat (size - len s)) 0, total, S arg)
  | KStr =>
      let! s := read_arg args arg pa_bytes pack_string_error in
      if (size <? 8) && (Z.shiftl 1 (size * 8) <=? len s) then Raise "string length does not fit in given size"
      else
        let total := total + len s in
        if too_large total then Raise "pack result too large"
        else
          let! out := packint out (len s) lit size false in
          Done (out ++ s, total, S arg)
  | KZstr =>
      let! s := read_arg args arg pa_bytes pack_string_error in
      if bool_decide (0 ∈ s) then Raise "string contains zeros"
      else
        let total := total + (len s + 1) in
        if too_large total then Raise "pack result too large"
        else Done (out ++ s ++ [0], total, S arg)
  | KPadding => Done (out ++ [0], total, arg)
  | KPaddAlign | KNop => Done (out, total, arg)
  end.

Fixpoint pack_loop (fuel : nat) (st : PState) (out : list Z) (total : Z) (arg : nat) : Exec (list Z) :=
  match fuel with
  | O => Diverge
  | S fuel' =>
      if at_end fmt (ps_pos st) then Done out
      else
        let! (opt, size, ntoalign, st') := getdetails fmt st total in
        let total := total + (ntoalign + size) in
        if too_large total then Raise "pack result too large"
        else
          let out := out ++ replicate (Z.to_nat ntoalign) 0 in
          let! (out, total, arg) := pack_value opt size (little (ps_header st')) out total arg in
          pack_loop fuel' st' out total arg
  end.

(** [args] are the arguments behind the format. *)
Definition string_pack : Exec (list Z) := pack_loop (S (length fmt)) (mkP header_new 0) [] 0 0.

Fixpoint packsize_loop (fuel : nat) (st : PState) (total : Z) : Exec Z :=
  match fuel with
  | O => Diverge
  | S fuel' =>
      if at_end fmt (ps_pos st) then Done total
      else
        let! (opt, size, ntoalign, st') := getdetails fmt st total in
        match opt with
        | KStr | KZstr => Raise "variable-length format"
        | _ =>
            let add := size + ntoalign in
            if MAXSSIZE - add <? total then Raise "format result too large"
            else packsize_loop fuel' st' (total + add)
        end
  end.

Definition string_packsize : Exec Z := packsize_loop (S (length fmt)) (mkP header_new 0) 0.
End Pack.

(** The position of the first zero byte. *)
Fixpoint position_zero (l : list Z) : option Z :=
  match l with
  | [] => None
  | b :: t => if b =? 0 then Some 0 else (fun n => n + 1) <$> position_zero t
  end.

Section Unpack.
Context (fmt data : list Z) (max_table_elements : Z).

(** [data[a..a + n]] and [data[a..]]. *)
Definition data_slice (a n : Z) : Exec (list Z) :=
  if (0 <=? a) && (0 <=? n) && (a + n <=? len data) then Done (take (Z.to_nat n) (drop (Z.to_nat a) data)) else Crash.
Definition data_from (a : Z) : Exec (list Z) :=
  if (0 <=? a) && (a <=? len data) then Done (drop (Z.to_nat a) data) else Crash.

Definition read_endian (n : nat) (bytes : list Z) (lit : bool) : Exec (list Z) :=
  if (n <=? length bytes)%nat then Done (if lit then take n bytes else reverse (take n bytes)) else Crash.

(** One value of [string_unpack] at [pos]; returns the results and the position, the
    option's own size not yet added. *)
Definition unpack_value (opt : KOption) (size : Z) (lit : bool) (pos : Z) (results : list PackResult)
  : Exec (list PackResult * Z) :=
  match opt with
  | KInt =>
      let! rest := data_from pos in
      let! res := unpackint rest lit size true in
      Done (results ++ [RInt res], pos)
  | KUint =>
      let! rest := data_from pos in
      let! res := unpackint rest lit size false in
      Done (results ++ [RUint (as_u64 res)], pos)
  | KFloat =>
      let! rest := data_from pos in
      if size =? 4 then let! le := read_endian 4 rest lit in Done (results ++ [RSingle le], pos)
      else let! le := read_endian 8 rest lit in Done (results ++ [RDouble le], pos)
  | KChar =>
      let! s := data_slice pos size in
      Done (results ++ [RString s], pos)
  | KStr =>
      let! rest := data_from pos in
      let! n := unpackint rest lit size false in
      if (n <? 0) || (len data - pos - size <? n) then Raise "data string too short"
      else
        let! s := data_slice (pos + size) n in
        Done (results ++ [RString s], pos + n)
  | KZstr =>
      let! rest := data_from pos in
      match position_zero rest with
      | None => Raise "unfinished string for format 'z'"
      | Some zlen =>
          Done (results ++ [RString (take (Z.to_nat zlen) rest)], pos + (zlen + 1))
      end
  | KPadding | KPaddAlign | KNop => Done (results, pos)
  end.

Fixpoint unpack_loop_values (fuel : nat) (st : PState) (pos : Z) (results : list PackResult)
  : Exec (list PackResult * Z) :=
  match fuel with
  | O => Diverge
  | S fuel' =>
      if at_end fmt (ps_pos st) then Done (results, pos + 1)
      else if max_table_elements <=? len results then Raise "too many results to unpack"
      else
        let! (opt, size, ntoalign, st') := getdetails fmt st pos in
        if len data - pos <? ntoalign + size then Raise "data string too short"
        else
          let pos := pos + ntoalign in
          let! (results, pos) := unpack_value opt size (little (ps_header st')) pos results in
          unpack_loop_values fuel' st' (pos + size) results
  end.

(** [posrelat] of [builtins]: a negative position counts from the end. *)
Definition posrelat (pos n : Z) : Z :=
  if 0 <=? pos then pos else if n <? as_i64 (- pos) then 0 else n + pos + 1.

(** Returns the results and the next position. *)
Definition string_unpack (init : Z) : Exec (list PackResult * Z) :=
  let ld := len data in
  let pos := posrelat init ld - 1 in
  let pos := if pos <? 0 then 0 else pos in
  if ld <? pos then Raise "initial position out of string"
  else unpack_loop_values (S (length fmt)) (mkP header_new 0) pos [].
End Unpack.
