(* ===== verification/PackFacts.v ===== *)
(** * PackFacts: integers and options of the pack format

    The integer encoder writes the little- or big-endian two's complement bytes
    ([packint_spec]), the decoder inverts it at every width ([unpackint_signed],
    [unpackint_unsigned]), and the format parser returns sizes and paddings in range. *)

From Stdlib Require Import ZArith Lia.
From stdpp Require Import base numbers list strings option.
From S2P Require Import Prelude RustExec Pack.

(** ** Bytes of an integer *)

(** Least significant byte first; a negative value is sign-extended past the eighth byte. *)
Definition int_bytes (n size : Z) (neg : bool) : list Z :=
  if neg && (8 <? size) then le_bytes 8 n ++ replicate (Z.to_nat (size - 8)) 255
  else le_bytes (Z.to_nat size) n.

Definition endian (lit : bool) (bs : list Z) : list Z := if lit then bs else reverse bs.

Lemma length_endian lit bs : length (endian lit bs) = length bs.
Proof. destruct lit; [done|]. apply length_reverse. Qed.

Lemma length_int_bytes n size neg : 0 <= size -> length (int_bytes n size neg) = Z.to_nat size.
Proof.
  intros Hs. unfold int_bytes. destruct neg, (Z.ltb_spec 8 size); cbn [andb];
    rewrite ?length_app, ?length_replicate, ?length_le_bytes; lia.
Qed.

Lemma len_endian lit bs : len (endian lit bs) = len bs.
Proof. unfold len. by rewrite length_endian. Qed.

Lemma len_int_bytes n size neg : 0 <= size -> len (int_bytes n size neg) = size.
Proof. intros Hs. unfold len. rewrite length_int_bytes; lia. Qed.

Lemma len_replicate {A} n (x : A) : 0 <= n -> len (replicate (Z.to_nat n) x) = n.
Proof. intros Hn. unfold len. rewrite length_replicate. lia. Qed.

Lemma shiftr_8 n : Z.shiftr n 8 = n / 256.
Proof. by rewrite shiftr_div. Qed.

Lemma packint_spec out n lit size neg :
  1 <= size <= 16 -> packint out n lit size neg = Done (out ++ endian lit (int_bytes n size neg)).
Proof.
  intros Hs. destruct size as [|p|p]; [lia| |lia].
  repeat (destruct p as [p|p|]; try lia); destruct lit, neg;
    lazy -[Z.land Z.shiftr Z.modulo Z.div app]; rewrite ?land_255, ?shiftr_8; reflexivity.
Qed.

(** ** Decoding *)

Lemma zget_app_l {A} (l k : list A) i : i < len l -> zget (l ++ k) i = zget l i.
Proof.
  intros Hi. unfold zget, len in *. destruct (Z.ltb_spec i 0); [done|]. apply lookup_app_l. lia.
Qed.

Lemma endian_slot lit bs rest i :
  0 <= i < len bs -> zget (endian lit bs ++ rest) (byte_slot lit (len bs) i) = zget bs i.
Proof.
  intros Hi. rewrite zget_app_l by (unfold len, byte_slot in *; rewrite length_endian; destruct lit; lia).
  unfold endian, byte_slot. destruct lit; [done|]. unfold zget, len in *.
  destruct (Z.ltb_spec (Z.of_nat (length bs) - 1 - i) 0), (Z.ltb_spec i 0); try lia.
  rewrite reverse_lookup by lia. f_equal. lia.
Qed.

Lemma from_le_bytes_snoc l b : from_le_bytes (l ++ [b]) = from_le_bytes l + b * 256 ^ len l.
Proof.
  induction l as [|x l IH]; cbn [app from_le_bytes].
  { change (len []) with 0. rewrite Z.pow_0_r. lia. }
  rewrite IH, len_cons, Z.pow_add_r by (try lia; apply len_nonneg). lia.
Qed.

Lemma unpack_loop_spec limit data lit size bs res :
  Forall is_u8 bs -> (limit <= length bs)%nat ->
  (forall i, 0 <= i < Z.of_nat limit -> zget data (byte_slot lit size i) = zget bs i) ->
  0 <= res -> (res + 1) * 256 ^ Z.of_nat limit <= 18446744073709551616 ->
  unpack_loop limit data lit size res = Done (res * 256 ^ Z.of_nat limit + from_le_bytes (take limit bs)).
Proof.
  intros Hb. induction limit as [|i IH] in res |- *; intros Hl Hd Hr Hm; cbn [unpack_loop].
  { rewrite take_0, Z.pow_0_r. cbn [from_le_bytes]. f_equal. lia. }
  destruct (lookup_lt_is_Some_2 bs i) as [b Hbi]; [lia|].
  pose proof (Forall_lookup_1 _ _ _ _ Hb Hbi) as Hu. unfold is_u8 in Hu.
  unfold index. rewrite Hd, zget_of_nat, Hbi by lia. cbn [exec_bind].
  rewrite Nat2Z.inj_succ, Z.pow_succ_r in Hm by lia.
  assert (0 < 256 ^ Z.of_nat i) by (apply Z.pow_pos_nonneg; lia).
  assert (res * 256 + b < 18446744073709551616) by nia.
  rewrite Z.lor_comm, as_u64_small by (rewrite Z.shiftl_mul_pow2 by lia; unfold is_u64; lia).
  rewrite lor_shiftl_add by lia. change (2 ^ 8) with 256. rewrite IH; [|lia| |lia|nia].
  - f_equal. rewrite (take_S_r _ _ _ Hbi), from_le_bytes_snoc. unfold len. rewrite length_take, Nat.min_l by lia.
    rewrite Nat2Z.inj_succ, Z.pow_succ_r by lia. ring.
  - intros j Hj. apply Hd. lia.
Qed.

Lemma fill_check_spec count data lit size i fill :
  (forall j, i <= j < i + Z.of_nat count -> zget data (byte_slot lit size j) = Some fill) ->
  fill_check count data lit size i fill = Done true.
Proof.
  induction count as [|count IH] in i |- *; intros H; cbn [fill_check]; [done|].
  unfold index. rewrite H by lia. cbn [exec_bind]. rewrite Z.eqb_refl. cbn [negb]. apply IH. intros j Hj. apply H. lia.
Qed.

Lemma le_bytes_app k j n :
  le_bytes (k + j) n = le_bytes k n ++ le_bytes j (n / 256 ^ Z.of_nat k).
Proof.
  induction k as [|k IH] in n |- *; [by rewrite Z.div_1_r|].
  change (S k + j)%nat with (S (k + j)). 
  change (n mod 256 :: le_bytes (k + j) (n / 256) =
    n mod 256 :: le_bytes k (n / 256) ++ le_bytes j (n / 256 ^ Z.of_nat (S k))).
  rewrite IH, Z.div_div, Nat2Z.inj_succ, Z.pow_succ_r by lia. done.
Qed.

Lemma le_bytes_zero k : le_bytes k 0 = replicate k 0.
Proof. induction k as [|k IH]; [done|]. change (0 :: le_bytes k 0 = 0 :: replicate k 0). by rewrite IH. Qed.

(** The bytes past the eighth are all the fill byte. *)
Lemma int_bytes_wide n size neg :
  8 < size -> is_u64 n -> int_bytes n size neg = le_bytes 8 n ++ replicate (Z.to_nat (size - 8)) (if neg then 255 else 0).
Proof.
  intros Hs Hn. unfold int_bytes. rewrite (proj2 (Z.ltb_lt 8 size)) by lia. destruct neg; cbn [andb]; [done|].
  replace (Z.to_nat size) with (8 + Z.to_nat (size - 8))%nat by lia. rewrite le_bytes_app. f_equal.
  rewrite Z.div_small; [apply le_bytes_zero|]. unfold is_u64 in Hn. cbn. lia.
Qed.

Lemma int_bytes_narrow n size neg : size <= 8 -> int_bytes n size neg = le_bytes (Z.to_nat size) n.
Proof. intros Hs. unfold int_bytes. by rewrite (proj2 (Z.ltb_ge 8 size)), andb_false_r by lia. Qed.

Lemma int_bytes_u8 n size neg : Forall is_u8 (int_bytes n size neg).
Proof.
  unfold int_bytes. destruct (neg && _); [|apply le_bytes_u8]. apply Forall_app. split; [apply le_bytes_u8|].
  apply Forall_replicate. unfold is_u8. lia.
Qed.

(** What [unpackint] reads before it looks at the sign. *)
Lemma unpack_int_bytes n size neg lit rest :
  1 <= size -> is_u64 n ->
  unpack_loop (Z.to_nat (Z.min size SZINT)) (endian lit (int_bytes n size neg) ++ rest) lit size 0 =
    Done (n mod 256 ^ Z.min size 8).
Proof.
  intros Hs Hn. set (bs := int_bytes n size neg).
  assert (Hlen : len bs = size) by (unfold len, bs; rewrite length_int_bytes; lia).
  rewrite (unpack_loop_spec _ _ _ _ bs).
  - f_equal. cbn [Z.mul]. rewrite Z.add_0_l. unfold bs, SZINT in *. destruct (Z.le_gt_cases size 8).
    + rewrite int_bytes_narrow, take_ge, from_le_bytes_le_bytes by (rewrite ?length_le_bytes; lia).
      f_equal. f_equal. lia.
    + rewrite int_bytes_wide by done. rewrite Z.min_r by lia.
      change (take (Z.to_nat 8) (?x ++ ?y)) with (take 8 (x ++ y)).
      rewrite take_app_le, take_ge, from_le_bytes_le_bytes by (rewrite ?length_le_bytes; lia). done.
  - apply int_bytes_u8.
  - unfold len in Hlen. unfold SZINT. lia.
  - intros i Hi. rewrite <- Hlen. apply endian_slot. unfold SZINT in Hi. lia.
  - lia.
  - unfold SZINT. rewrite Z2Nat.id by lia. transitivity (1 * 256 ^ 8); [|by cbn].
    apply Z.mul_le_mono_nonneg_l; [lia|]. apply Z.pow_le_mono_r; lia.
Qed.

Lemma lxor_pow2 m x : 0 <= m -> 0 <= x < 2 ^ m -> Z.lxor x (2 ^ m) = x + 2 ^ m.
Proof.
  intros Hm Hx. pose proof (lor_shiftl_add x 1 m Hm Hx) as H.
  rewrite Z.shiftl_1_l, Z.mul_1_l in H. rewrite <- H. apply Z.lxor_lor. apply Z.bits_inj_0. intros i.
  rewrite Z.land_spec. destruct (Z.lt_ge_cases i 0); [by rewrite !Z.testbit_neg_r by lia|].
  destruct (Z.eq_dec i m) as [->|Hne].
  - rewrite <- (Z.mod_small x (2 ^ m)), Z.mod_pow2_bits_high by lia. done.
  - rewrite Z.pow2_bits_false by lia. apply andb_false_r.
Qed.

Lemma sign_extend m x :
  0 <= m -> 0 <= x < 2 ^ (m + 1) ->
  Z.lxor x (2 ^ m) - 2 ^ m = if x <? 2 ^ m then x else x - 2 ^ (m + 1).
Proof.
  intros Hm Hx. rewrite Z.pow_add_r in * by lia. change (2 ^ 1) with 2 in *. destruct (Z.ltb_spec x (2 ^ m)).
  - rewrite lxor_pow2 by lia. lia.
  - replace x with (Z.lxor (x - 2 ^ m) (2 ^ m)) at 1 by (rewrite lxor_pow2; lia).
    rewrite Z.lxor_assoc, Z.lxor_nilpotent, Z.lxor_0_r. lia.
Qed.

Lemma as_i64_as_u64 n : is_i64 n -> as_i64 (as_u64 n) = n.
Proof. zcast. Qed.

Lemma as_u64_range n : is_u64 (as_u64 n).
Proof. zcast. Qed.

Lemma fill_bytes n size neg lit rest :
  8 < size -> is_u64 n ->
  fill_check (Z.to_nat (size - 8)) (endian lit (int_bytes n size neg) ++ rest) lit size 8 (if neg then 255 else 0) = Done true.
Proof.
  intros Hs Hn. apply fill_check_spec. intros j Hj.
  assert (Hlen : len (int_bytes n size neg) = size) by (unfold len; rewrite length_int_bytes; lia).
  pose proof (endian_slot lit (int_bytes n size neg) rest j ltac:(lia)) as Hsl. rewrite Hlen in Hsl. rewrite Hsl.
  rewrite int_bytes_wide by done. unfold zget.
  rewrite (proj2 (Z.ltb_ge j 0)), lookup_app_r by (rewrite ?length_le_bytes; lia).
  rewrite length_le_bytes. apply lookup_replicate_2. lia.
Qed.

Lemma unpackint_signed n size lit rest :
  1 <= size <= 16 -> is_i64 n -> (size < 8 -> - 2 ^ (size * 8 - 1) <= n < 2 ^ (size * 8 - 1)) ->
  unpackint (endian lit (int_bytes (as_u64 n) size (n <? 0)) ++ rest) lit size true = Done n.
Proof.
  intros Hs Hn Hfit. pose proof (as_u64_range n) as Hu. unfold unpackint.
  rewrite unpack_int_bytes by (lia || done). cbn [exec_bind]. unfold SZINT in *.
  destruct (Z.ltb_spec size 8).
  - rewrite Z.min_l, Z.shiftl_1_l by lia. f_equal. specialize (Hfit ltac:(lia)).
    replace (256 ^ size) with (2 ^ (size * 8 - 1 + 1))
      by (change 256 with (2 ^ 8); rewrite <- Z.pow_mul_r by lia; f_equal; lia).
    assert (0 < 2 ^ (size * 8 - 1)) by (apply Z.pow_pos_nonneg; lia).
    assert (2 ^ (size * 8 - 1 + 1) = 2 * 2 ^ (size * 8 - 1)) as Hpow by (rewrite Z.pow_add_r by lia; lia).
    assert (2 ^ (size * 8 - 1 + 1) | 18446744073709551616) as Hdiv.
    { exists (2 ^ (64 - size * 8)). rewrite <- Z.pow_add_r by lia. replace (64 - size * 8 + (size * 8 - 1 + 1)) with 64 by lia. done. }
    unfold as_u64 at 2. rewrite Z.mod_mod_divide by done.
    rewrite sign_extend by (try lia; apply Z.mod_pos_bound; lia).
    transitivity (as_i64 (as_u64 n)); [do 2 f_equal|by apply as_i64_as_u64]. rewrite Hpow.
    destruct (Z.lt_ge_cases n 0).
    + rewrite <- (Z.mod_unique n (2 * 2 ^ (size * 8 - 1)) (-1) (n + 2 * 2 ^ (size * 8 - 1))) by lia.
      destruct (Z.ltb_spec (n + 2 * 2 ^ (size * 8 - 1)) (2 ^ (size * 8 - 1))); lia.
    + rewrite Z.mod_small by lia. destruct (Z.ltb_spec n (2 ^ (size * 8 - 1))); lia.
  - rewrite Z.min_r by lia. change (256 ^ 8) with 18446744073709551616.
    rewrite Z.mod_small by apply Hu. rewrite as_i64_as_u64 by done. destruct (Z.ltb_spec 8 size); [|done].
    cbn [negb orb]. replace (if 0 <=? n then 0 else 255) with (if n <? 0 then 255 else 0) by (zbool; lia).
    by rewrite fill_bytes.
Qed.

Lemma unpackint_unsigned n size lit rest :
  1 <= size <= 16 -> is_u64 n -> (size < 8 -> n < 2 ^ (size * 8)) ->
  unpackint (endian lit (int_bytes n size false) ++ rest) lit size false = Done (as_i64 n).
Proof.
  intros Hs Hn Hfit. unfold unpackint. rewrite unpack_int_bytes by (lia || done). cbn [exec_bind]. unfold SZINT in *.
  destruct (Z.ltb_spec size 8).
  - rewrite Z.min_l by lia. specialize (Hfit ltac:(lia)). rewrite Z.mod_small; [done|].
    change 256 with (2 ^ 8). rewrite <- Z.pow_mul_r by lia. unfold is_u64 in Hn. rewrite Z.mul_comm. lia.
  - rewrite Z.min_r by lia. change (256 ^ 8) with 18446744073709551616. rewrite Z.mod_small by apply Hn.
    destruct (Z.ltb_spec 8 size); [|done]. cbn [negb orb].
    by rewrite (fill_bytes n size false).
Qed.

(** ** The format parser *)

Definition option_size_ok (opt : KOption) (size : Z) : Prop :=
  match opt with
  | KInt | KUint | KStr => 1 <= size <= 16
  | KFloat => size = 4 \/ size = 8
  | KChar => 0 <= size <= MAXSSIZE
  | KPadding => size = 1
  | KZstr | KPaddAlign | KNop => size = 0
  end.

Definition header_ok (h : Header) : Prop := 1 <= maxalign h <= 16.

Lemma land_bounds a b : 0 <= b -> 0 <= Z.land a b <= b.
Proof.
  intros Hb. split; [apply Z.land_nonneg; by right|].
  assert (Z.ldiff (Z.land a b) b = 0) as H.
  { apply Z.bits_inj_0. intros i. rewrite Z.ldiff_spec, Z.land_spec. by destruct (Z.testbit a i), (Z.testbit b i). }
  apply Z.sub_nocarry_ldiff in H.
  assert (0 <= Z.ldiff b (Z.land a b)) by (apply Z.ldiff_nonneg; by left). lia.
Qed.

Section Parser.
Context (fmt : list Z).

Lemma peek_Some pos c : peek fmt pos = Some c -> 0 <= pos < len fmt.
Proof. intros H. by apply zget_Some in H as [? _]. Qed.

Lemma digit_at_Some pos : digit_at fmt pos = true -> exists c, peek fmt pos = Some c /\ 48 <= c <= 57.
Proof.
  unfold digit_at. destruct (peek fmt pos) as [c|]; [|done]. intros H. exists c. split; [done|].
  unfold is_ascii_digit, between in H. zbool; lia.
Qed.

Lemma getnum_loop_spec fuel a pos :
  digit_at fmt pos = true -> 0 <= a <= 214748363 -> len fmt - pos <= Z.of_nat fuel ->
  exists n pos', getnum_loop fmt fuel a pos = Done (n, pos') /\ 0 <= n /\ pos < pos' <= len fmt.
Proof.
  induction fuel as [|fuel IH] in a, pos |- *; intros Hd Ha Hf;
    destruct (digit_at_Some _ Hd) as (c & Hc & Hr); pose proof (peek_Some _ _ Hc); [lia|].
  cbn [getnum_loop]. unfold bump. rewrite Hc. rewrite as_i32_small by (unfold is_i32; lia).
  destruct (digit_at fmt (pos + 1)) eqn:Hd'; cbn [andb].
  - destruct (Z.leb_spec (a * 10 + (c - 48)) 214748363).
    + destruct (IH (a * 10 + (c - 48)) (pos + 1) Hd' ltac:(lia) ltac:(lia)) as (n & pos' & E & Hn & Hp).
      exists n, pos'. split; [done|]. lia.
    + eexists _, _. split; [done|]. lia.
  - eexists _, _. split; [done|]. lia.
Qed.

Lemma getnum_spec pos df :
  0 <= pos <= len fmt ->
  match getnum fmt pos df with
  | Done (n, pos') => pos <= pos' <= len fmt /\ (n = df \/ 0 <= n <= MAXSSIZE)
  | Raise _ => True
  | _ => False
  end.
Proof.
  intros Hp. unfold getnum. destruct (digit_at fmt pos) eqn:Hd; cbn [negb]; [|split; [lia|by left]].
  destruct (getnum_loop_spec (S (length fmt)) 0 pos Hd) as (n & pos' & -> & Hn & Hp'); [lia|unfold len in *; lia|].
  cbn [exec_bind]. destruct (Z.ltb_spec MAXSSIZE n); cbn [orb]; [done|].
  destruct (digit_at fmt pos'); [done|]. split; [lia|right; lia].
Qed.

Lemma getnumlimit_spec pos df :
  0 <= pos <= len fmt ->
  match getnumlimit fmt pos df with
  | Done (n, pos') => pos <= pos' <= len fmt /\ 1 <= n <= 16
  | Raise _ => True
  | _ => False
  end.
Proof.
  intros Hp. unfold getnumlimit. pose proof (getnum_spec pos df Hp) as H.
  destruct (getnum fmt pos df) as [[n pos']|e| |]; cbn [exec_bind]; try done. unfold MAXINTSIZE.
  destruct (Z.ltb_spec 16 n), (Z.leb_spec n 0); cbn [orb]; try done. destruct H as [H _]. split; [done|lia].
Qed.

(** A parsed option: sizes in range, the cursor moved forward. *)
Definition parsed (st : PState) (opt : KOption) (size : Z) (st' : PState) : Prop :=
  option_size_ok opt size /\ header_ok (ps_header st') /\
  ps_pos st <= ps_pos st' <= len fmt /\ (ps_pos st < len fmt -> ps_pos st < ps_pos st').

Lemma getoption_spec st :
  header_ok (ps_header st) -> 0 <= ps_pos st <= len fmt ->
  match getoption fmt st with
  | Done (opt, size, st') => parsed st opt size st'
  | Raise _ => True
  | _ => False
  end.
Proof.
  intros Hh Hp. unfold getoption.
  assert (exists o pos, bump fmt (ps_pos st) = (o, pos) /\ ps_pos st <= pos <= len fmt /\
    (ps_pos st < len fmt -> ps_pos st < pos)) as (o & pos & -> & Hpos & Hmove).
  { unfold bump, peek. destruct (zget fmt (ps_pos st)) as [c|] eqn:E.
    - apply zget_Some in E as [? _]. eexists _, _. split; [done|]. lia.
    - eexists _, _. split; [done|]. split; [lia|]. intros Hlt.
      destruct (proj2 (zget_is_Some fmt (ps_pos st))); [lia|congruence]. }
  assert (Hfix : forall k size h, option_size_ok k size -> header_ok h -> parsed st k size (mkP h pos)).
  { intros k size h H1 H2. split; [done|]. split; [done|]. cbn. split; [lia|done]. }
  assert (Hsized : forall k df, (forall n, 1 <= n <= 16 -> option_size_ok k n) ->
    match sized fmt k (ps_header st) pos df with
    | Done (opt, size, st') => parsed st opt size st' | Raise _ => True | _ => False end).
  { intros k df Hk. unfold sized. pose proof (getnumlimit_spec pos df ltac:(lia)) as H.
    destruct (getnumlimit fmt pos df) as [[n pos']|e| |]; cbn [exec_bind]; try done. destruct H as [H1 H2].
    split; [by apply Hk|]. split; [done|]. cbn. split; [lia|]. intros ?%Hmove. lia. }
  repeat (match goal with |- context [if ?b then _ else _] => destruct b end;
    [first [apply Hfix; cbn; (done || by auto) | apply Hsized; by intros n Hn | idtac]|]); [| |done].
  - pose proof (getnum_spec pos (-1) ltac:(lia)) as H.
    destruct (getnum fmt pos (-1)) as [[n pos']|e| |]; cbn [exec_bind]; try done. destruct H as [H1 H2].
    destruct (Z.eqb_spec n (-1)); [done|]. split; [cbn; lia|]. split; [done|]. cbn. split; [lia|]. intros ?%Hmove. lia.
  - pose proof (getnumlimit_spec pos MAXALIGN ltac:(lia)) as H.
    destruct (getnumlimit fmt pos MAXALIGN) as [[n pos']|e| |]; cbn [exec_bind]; try done. destruct H as [H1 H2].
    split; [done|]. split; [done|]. cbn. split; [lia|]. intros ?%Hmove. lia.
Qed.

Lemma getdetails_spec st total :
  header_ok (ps_header st) -> 0 <= ps_pos st < len fmt ->
  match getdetails fmt st total with
  | Done (opt, size, pad, st') => option_size_ok opt size /\ 0 <= pad < 16 /\ header_ok (ps_header st') /\
      ps_pos st < ps_pos st' <= len fmt
  | Raise _ => True
  | _ => False
  end.
Proof.
  intros Hh Hp. unfold getdetails. pose proof (getoption_spec st Hh ltac:(lia)) as H.
  destruct (getoption fmt st) as [[[opt size] st1]|e| |]; cbn [exec_bind]; try done.
  destruct H as (Hs & Hh1 & Hp1 & Hm1). specialize (Hm1 ltac:(lia)).
  assert (Hx : match (if bool_decide (opt = KPaddAlign) then
       if at_end fmt (ps_pos st1) then Raise "invalid next option for option 'X'"
       else let! (next, a, st2) := getoption fmt st1 in
         if bool_decide (next = KChar) || (a =? 0) then Raise "invalid next option for option 'X'" else Done (a, st2)
     else Done (size, st1)) with
    | Done (align, st2) => header_ok (ps_header st2) /\ ps_pos st < ps_pos st2 <= len fmt
    | Raise _ => True | _ => False end).
  { case_bool_decide; [|by split; [|lia]]. destruct (at_end fmt (ps_pos st1)); [done|].
    pose proof (getoption_spec st1 Hh1 ltac:(lia)) as H2.
    destruct (getoption fmt st1) as [[[next a] st2]|e| |]; cbn [exec_bind]; try done.
    destruct (bool_decide (next = KChar) || (a =? 0)); [done|]. destruct H2 as (_ & Hh2 & Hp2 & _). split; [done|lia]. }
  destruct (if bool_decide (opt = KPaddAlign) then _ else _) as [[align st2]|e| |]; cbn [exec_bind]; try done.
  destruct Hx as [Hh2 Hp2].
  destruct (Z.leb_spec align 1); cbn [orb]; [by split; [|split; [lia|]]|].
  case_bool_decide; [by split; [|split; [lia|]]|].
  set (al := if maxalign (ps_header st2) <? align then maxalign (ps_header st2) else align).
  assert (1 <= al <= 16) as Hal by (unfold al, header_ok in *; zbool; lia). clearbody al.
  destruct (Z.land al (al - 1) =? 0); cbn [negb]; [|done].
  pose proof (land_bounds (as_i32 (al - Z.land total (al - 1))) (al - 1) ltac:(lia)). split; [done|]. split; [lia|done].
Qed.
End Parser.
