(* ===== verification/PackTheorems.v ===== *)
(** * PackTheorems: round trip and safety of the pack format

    Whatever [string.pack] writes, [string.unpack] reads back with the same format
    ([pack_unpack_round_trip]); unpacking arbitrary data never panics and stays inside it
    ([unpack_safe]); [string.packsize] is the length [string.pack] produces
    ([packsize_exact]). *)

From Stdlib Require Import ZArith Lia.
From stdpp Require Import base numbers list strings option.
From S2P Require Import Prelude RustExec Pack PackFacts.

(** Arguments whose readings have their machine types. *)
Definition arg_ok (a : PackArg) : Prop :=
  (forall n, pa_i64 a = Some n -> is_i64 n) /\
  (forall l, pa_f32 a = Some l -> length l = 4%nat) /\
  (forall l, pa_f64 a = Some l -> length l = 8%nat).

Lemma absent_arg_ok : arg_ok absent_arg.
Proof. by repeat split. Qed.

(** ** Packing appends *)

(** The bytes of one value. *)
Definition value_bytes (opt : KOption) (size : Z) (lit : bool) (a : PackArg) : list Z :=
  match opt with
  | KInt => match pa_i64 a with Some n => endian lit (int_bytes (as_u64 n) size (n <? 0)) | None => [] end
  | KUint => match pa_i64 a with Some n => endian lit (int_bytes (as_u64 n) size false) | None => [] end
  | KFloat => endian lit (default [] (if size =? 4 then pa_f32 a else pa_f64 a))
  | KChar => match pa_bytes a with Some s => s ++ replicate (Z.to_nat (size - len s)) 0 | None => [] end
  | KStr => match pa_bytes a with Some s => endian lit (int_bytes (len s) size false) ++ s | None => [] end
  | KZstr => match pa_bytes a with Some s => s ++ [0] | None => [] end
  | KPadding => [0]
  | KPaddAlign | KNop => []
  end.

(** What the value reads back as. *)
Definition value_result (opt : KOption) (size : Z) (a : PackArg) : list PackResult :=
  match opt with
  | KInt => match pa_i64 a with Some n => [RInt n] | None => [] end
  | KUint => match pa_i64 a with Some n => [RUint (as_u64 n)] | None => [] end
  | KFloat =>
      if size =? 4 then match pa_f32 a with Some l => [RSingle l] | None => [] end
      else match pa_f64 a with Some l => [RDouble l] | None => [] end
  | KChar => match pa_bytes a with
             | Some s => [RString (s ++ replicate (Z.to_nat (size - len s)) 0)]
             | None => []
             end
  | KStr | KZstr => match pa_bytes a with Some s => [RString s] | None => [] end
  | KPadding | KPaddAlign | KNop => []
  end.

(** The value can be packed: it has the reading the option needs, and it fits. *)
Definition value_fits (opt : KOption) (size : Z) (a : PackArg) : Prop :=
  match opt with
  | KInt => exists n, pa_i64 a = Some n /\ (size < 8 -> - 2 ^ (size * 8 - 1) <= n < 2 ^ (size * 8 - 1))
  | KUint => exists n, pa_i64 a = Some n /\ (size < 8 -> as_u64 n < 2 ^ (size * 8))
  | KFloat => is_Some (if size =? 4 then pa_f32 a else pa_f64 a)
  | KChar => exists s, pa_bytes a = Some s /\ len s <= size
  | KStr => exists s, pa_bytes a = Some s /\ (size < 8 -> len s < 2 ^ (size * 8))
  | KZstr => exists s, pa_bytes a = Some s /\ 0 ∉ s
  | KPadding | KPaddAlign | KNop => True
  end.

Definition takes_value (opt : KOption) : bool :=
  match opt with KPadding | KPaddAlign | KNop => false | _ => true end.

Lemma signed_guard size n :
  (size <? 8) && negb ((- Z.shiftl 1 (size * 8 - 1) <=? n) && (n <? Z.shiftl 1 (size * 8 - 1))) = false ->
  size < 8 -> - 2 ^ (size * 8 - 1) <= n < 2 ^ (size * 8 - 1).
Proof.
  intros E Hlt. rewrite (proj2 (Z.ltb_lt size 8)), Z.shiftl_1_l in E by done. cbn in E.
  apply negb_false_iff, andb_prop in E as [?%Z.leb_le ?%Z.ltb_lt]. lia.
Qed.

Lemma unsigned_guard size n :
  (size <? 8) && (Z.shiftl 1 (size * 8) <=? n) = false -> size < 8 -> n < 2 ^ (size * 8).
Proof.
  intros E Hlt. rewrite (proj2 (Z.ltb_lt size 8)), Z.shiftl_1_l in E by done. by apply Z.leb_gt in E.
Qed.

Section Pack.
Context (fmt : list Z) (args : list PackArg) (max_pack_bytes : Z).

Lemma read_arg_Done {A} arg (view : PackArg -> option A) e a :
  read_arg args arg view e = Done a -> view (default absent_arg (args !! arg)) = Some a.
Proof. unfold read_arg. destruct (view _); [by intros [= ->]|done]. Qed.

Lemma pack_value_spec opt size lit out total arg r :
  option_size_ok opt size -> total = len out + size ->
  pack_value args max_pack_bytes opt size lit out total arg = Done r ->
  let a := default absent_arg (args !! arg) in
  let out' := out ++ value_bytes opt size lit a in
  value_fits opt size a /\ (arg_ok a -> r = (out', len out', if takes_value opt then S arg else arg)).
Proof.
  intros Hs Ht H. cbn zeta. set (a := default absent_arg (args !! arg)).
  assert (Hlen : forall k, len k = size -> (out ++ k, total, S arg) = (out ++ k, len (out ++ k), S arg)).
  { intros k Hk. do 2 f_equal. rewrite len_app. lia. }
  destruct opt; cbn [pack_value option_size_ok] in *.
  - apply exec_bind_Done in H as (n & Hn%read_arg_Done & H). fold a in Hn.
    destruct (_ && _) eqn:E; [done|]. rewrite packint_spec in H by done. injection H as <-.
    cbn [value_bytes value_fits takes_value]. rewrite Hn. split.
    + exists n. split; [done|]. intros Hlt. by apply signed_guard in E.
    + intros _. apply Hlen. rewrite len_endian, len_int_bytes; lia.
  - apply exec_bind_Done in H as (n & Hn%read_arg_Done & H). fold a in Hn.
    destruct (_ && _) eqn:E; [done|]. rewrite packint_spec in H by done. injection H as <-.
    cbn [value_bytes value_fits takes_value]. rewrite Hn. split.
    + exists n. split; [done|]. intros Hlt. by apply unsigned_guard in E.
    + intros _. apply Hlen. rewrite len_endian, len_int_bytes; lia.
  - cbn [value_bytes value_fits takes_value]. destruct (Z.eqb_spec size 4) as [->|Hne];
      apply exec_bind_Done in H as (l & Hl%read_arg_Done & H); fold a in Hl; injection H as <-; rewrite Hl;
      (split; [by eexists|]); intros (_ & H32 & H64); apply Hlen; rewrite len_endian; unfold len; cbn [from_option id];
      [rewrite (H32 _ Hl)|rewrite (H64 _ Hl)]; lia.
  - apply exec_bind_Done in H as (s & Hl%read_arg_Done & H). fold a in Hl.
    destruct (Z.ltb_spec size (len s)); [done|]. injection H as <-. cbn [value_bytes value_fits takes_value]. rewrite Hl.
    split; [by exists s|]. intros _. apply Hlen. rewrite len_app, len_replicate; lia.
  - apply exec_bind_Done in H as (s & Hl%read_arg_Done & H). fold a in Hl. destruct (_ && _) eqn:E; [done|].
    destruct (too_large max_pack_bytes (total + len s)); [done|]. rewrite packint_spec in H by done. injection H as <-.
    cbn [value_bytes value_fits takes_value]. rewrite Hl. split.
    + exists s. split; [done|]. intros Hlt. by apply unsigned_guard in E.
    + intros _. rewrite app_assoc. do 2 f_equal. rewrite !len_app, len_endian, len_int_bytes; lia.
  - apply exec_bind_Done in H as (s & Hl%read_arg_Done & H). fold a in Hl. case_bool_decide; [done|].
    destruct (too_large max_pack_bytes (total + (len s + 1))); [done|]. injection H as <-.
    cbn [value_bytes value_fits takes_value]. rewrite Hl.
    split; [by exists s|]. intros _. do 2 f_equal. rewrite !len_app. change (len [0]) with 1. lia.
  - injection H as <-. split; [done|]. intros _. cbn [value_bytes takes_value]. do 2 f_equal. rewrite len_app.
    change (len [0]) with 1. lia.
  - injection H as <-. split; [done|]. intros _. cbn [value_bytes takes_value]. rewrite app_nil_r. do 2 f_equal. lia.
  - injection H as <-. split; [done|]. intros _. cbn [value_bytes takes_value]. rewrite app_nil_r. do 2 f_equal. lia.
Qed.
End Pack.

(** ** Unpacking what was packed *)

Lemma position_zero_app s rest : 0 ∉ s -> position_zero (s ++ 0 :: rest) = Some (len s).
Proof.
  induction s as [|b s IH]; cbn [app position_zero]; [done|].
  intros [Hb Hs]%not_elem_of_cons. rewrite (proj2 (Z.eqb_neq b 0)), IH by congruence.
  cbn. f_equal. unfold len. cbn [length]. lia.
Qed.

Lemma data_from_app pre l : data_from (pre ++ l) (len pre) = Done l.
Proof.
  unfold data_from. pose proof (len_nonneg pre). pose proof (len_nonneg l).
  rewrite (proj2 (Z.leb_le 0 (len pre))), (proj2 (Z.leb_le _ _)) by (rewrite ?len_app; lia). cbn [andb].
  unfold len. by rewrite Nat2Z.id, drop_app_length.
Qed.

Lemma data_slice_app pre s rest pos n :
  pos = len pre -> n = len s -> data_slice (pre ++ s ++ rest) pos n = Done s.
Proof.
  intros -> ->. unfold data_slice. pose proof (len_nonneg pre). pose proof (len_nonneg s). pose proof (len_nonneg rest).
  rewrite (proj2 (Z.leb_le 0 (len pre))), (proj2 (Z.leb_le 0 (len s))), (proj2 (Z.leb_le _ _)) by (rewrite ?len_app; lia).
  cbn [andb]. unfold len. by rewrite !Nat2Z.id, drop_app_length, take_app_length.
Qed.

Lemma read_endian_app n le lit rest : length le = n -> read_endian n (endian lit le ++ rest) lit = Done le.
Proof.
  intros Hn. unfold read_endian. rewrite length_app, length_endian, Hn.
  rewrite (proj2 (Nat.leb_le _ _)), <- Hn, <- (length_endian lit), take_app_length by lia.
  destruct lit; [done|]. unfold endian. by rewrite reverse_involutive.
Qed.

Lemma as_u64_as_i64 n : is_u64 n -> as_u64 (as_i64 n) = n.
Proof. zcast. Qed.

(** What one value occupies beyond its option's size. *)
Definition extra (opt : KOption) (a : PackArg) : Z :=
  match opt with
  | KStr => len (default [] (pa_bytes a))
  | KZstr => len (default [] (pa_bytes a)) + 1
  | _ => 0
  end.

Lemma len_value_bytes opt size lit a :
  option_size_ok opt size -> arg_ok a -> value_fits opt size a ->
  len (value_bytes opt size lit a) = size + extra opt a /\ 0 <= extra opt a.
Proof.
  intros Hs (_ & H32 & H64) Hf.
  destruct opt; cbn [value_bytes extra value_fits option_size_ok] in *;
    try (destruct Hf as (x & -> & Hx); cbn [from_option id]; try pose proof (len_nonneg x));
    rewrite ?len_endian, ?len_app, ?len_int_bytes, ?len_endian, ?len_int_bytes, ?len_replicate by lia;
    try change (len [0]) with 1; try (change (len []) with 0); try lia.
  destruct Hf as [l Hl]. rewrite Hl. cbn [from_option id]. unfold len.
  destruct (Z.eqb_spec size 4); [rewrite (H32 _ Hl)|rewrite (H64 _ Hl)]; lia.
Qed.

Lemma unpack_value_spec opt size lit a pre rest results :
  option_size_ok opt size -> arg_ok a -> value_fits opt size a ->
  len (pre ++ value_bytes opt size lit a ++ rest) < 9223372036854775808 ->
  unpack_value (pre ++ value_bytes opt size lit a ++ rest) opt size lit (len pre) results =
    Done (results ++ value_result opt size a, len pre + extra opt a).
Proof.
  intros Hs Ha Hf Hmax. pose proof (len_value_bytes opt size lit a Hs Ha Hf) as [Hlen _].
  destruct Ha as (Hi & H32 & H64). pose proof (len_nonneg pre). pose proof (len_nonneg rest).
  destruct opt; cbn [unpack_value value_bytes value_result value_fits option_size_ok extra] in *.
  - destruct Hf as (n & Hn & Hr). rewrite Hn, data_from_app. cbn [exec_bind].
    rewrite unpackint_signed by eauto. cbn [exec_bind]. by rewrite Z.add_0_r.
  - destruct Hf as (n & Hn & Hr). rewrite Hn, data_from_app. cbn [exec_bind].
    rewrite unpackint_unsigned by (eauto using as_u64_range). cbn [exec_bind].
    by rewrite as_u64_as_i64, Z.add_0_r by apply as_u64_range.
  - destruct Hf as [l Hl]. rewrite data_from_app. cbn [exec_bind].
    destruct (size =? 4); rewrite Hl; cbn [from_option id];
      [rewrite read_endian_app by eauto|rewrite read_endian_app by eauto]; cbn [exec_bind]; by rewrite Z.add_0_r.
  - destruct Hf as (s & Hl & Hle). rewrite Hl in *. rewrite Z.add_0_r.
    rewrite data_slice_app by (done || lia). done.
  - destruct Hf as (s & Hl & Hle). rewrite Hl in *. cbn [from_option id] in *. rewrite data_from_app, <- app_assoc. cbn [exec_bind].
    pose proof (len_nonneg s). rewrite !len_app, len_endian, len_int_bytes in Hmax by lia.
    assert (is_u64 (len s)) by (unfold is_u64; lia).
    rewrite unpackint_unsigned by done. cbn [exec_bind].
    assert (as_i64 (len s) = len s) as -> by (assert (0 <= len s < 9223372036854775808) by lia; unfold as_i64, as_u64; zbool; zdm).
    rewrite (proj2 (Z.ltb_ge (len s) 0)), (proj2 (Z.ltb_ge _ _)) by (rewrite ?len_app, ?len_endian, ?len_int_bytes by lia; lia). cbn [orb].
    rewrite app_assoc, data_slice_app; [done| |done]. rewrite len_app, len_endian, len_int_bytes; lia.
  - destruct Hf as (s & Hl & Hz). rewrite Hl in *. cbn [from_option id] in *. rewrite data_from_app. cbn [exec_bind].
    rewrite <- app_assoc. cbn [app]. rewrite position_zero_app by done. do 3 f_equal. f_equal. f_equal.
    unfold len. rewrite Nat2Z.id. by rewrite take_app_length.
  - by rewrite app_nil_r, Z.add_0_r.
  - by rewrite app_nil_r, Z.add_0_r.
  - by rewrite app_nil_r, Z.add_0_r.
Qed.

(** The values of the arguments, in the order of the format's options. *)
Fixpoint expected_results (fmt : list Z) (args : list PackArg) (fuel : nat) (st : PState) (total : Z) (arg : nat)
  : list PackResult :=
  match fuel with
  | O => []
  | S fuel' =>
      if at_end fmt (ps_pos st) then []
      else
        match getdetails fmt st total with
        | Done (opt, size, pad, st') =>
            let a := default absent_arg (args !! arg) in
            value_result opt size a ++
            expected_results fmt args fuel' st' (total + (pad + size) + extra opt a)
              (if takes_value opt then S arg else arg)
        | _ => []
        end
  end.

Section RoundTrip.
Context (fmt : list Z) (args : list PackArg) (max_pack_bytes max_table_elements : Z).
Context (Hargs : Forall arg_ok args) (Hmte : len fmt <= max_table_elements).

Lemma arg_at_ok arg : arg_ok (default absent_arg (args !! arg)).
Proof using Hargs.
  destruct (args !! arg) as [a|] eqn:E; cbn; [by eapply Forall_lookup_1|apply absent_arg_ok].
Qed.

(** One round of packing, seen from the packed bytes. *)
Lemma pack_round fuel st out arg final :
  header_ok (ps_header st) -> 0 <= ps_pos st < len fmt ->
  pack_loop fmt args max_pack_bytes (S fuel) st out (len out) arg = Done final ->
  exists opt size pad st',
    getdetails fmt st (len out) = Done (opt, size, pad, st') /\
    option_size_ok opt size /\ 0 <= pad < 16 /\ header_ok (ps_header st') /\ ps_pos st < ps_pos st' <= len fmt /\
    let a := default absent_arg (args !! arg) in
    let out' := (out ++ replicate (Z.to_nat pad) 0) ++ value_bytes opt size (little (ps_header st')) a in
    value_fits opt size a /\
    pack_loop fmt args max_pack_bytes fuel st' out' (len out') (if takes_value opt then S arg else arg) = Done final.
Proof using Hargs.
  intros Hh Hp H. cbn [pack_loop] in H. unfold at_end in H. rewrite (proj2 (Z.leb_gt _ _)) in H by lia.
  pose proof (getdetails_spec fmt st (len out) Hh Hp) as Hd.
  destruct (getdetails fmt st (len out)) as [[[[opt size] pad] st']|e| |]; cbn [exec_bind] in H; try done.
  destruct Hd as (Hs & Hpad & Hh' & Hp'). destruct (too_large _ _); [done|].
  apply exec_bind_Done in H as (r & Hv & H).
  assert (Ht : len out + (pad + size) = len (out ++ replicate (Z.to_nat pad) 0) + size)
    by (rewrite len_app, len_replicate; lia).
  destruct (pack_value_spec args max_pack_bytes _ _ _ _ _ _ _ Hs Ht Hv) as [Hf Hr].
  rewrite (Hr (arg_at_ok arg)) in H. exists opt, size, pad, st'. done.
Qed.

Lemma pack_loop_appends fuel st out arg final :
  header_ok (ps_header st) -> 0 <= ps_pos st <= len fmt ->
  pack_loop fmt args max_pack_bytes fuel st out (len out) arg = Done final -> exists tail, final = out ++ tail.
Proof using Hargs.
  induction fuel as [|fuel IH] in st, out, arg |- *; intros Hh Hp H; [done|].
  destruct (at_end fmt (ps_pos st)) eqn:E.
  - cbn [pack_loop] in H. rewrite E in H. injection H as <-. exists []. by rewrite app_nil_r.
  - unfold at_end in E. apply Z.leb_gt in E.
    destruct (pack_round _ _ _ _ _ Hh ltac:(lia) H) as (opt & size & pad & st' & _ & _ & _ & Hh' & Hp' & _ & H').
    destruct (IH _ _ _ Hh' ltac:(lia) H') as [tail ->]. eexists. by rewrite <- !app_assoc.
Qed.

Lemma unpack_packed fuel st out arg final results :
  header_ok (ps_header st) -> 0 <= ps_pos st <= len fmt -> len results <= ps_pos st ->
  len final < 9223372036854775808 ->
  pack_loop fmt args max_pack_bytes fuel st out (len out) arg = Done final ->
  unpack_loop_values fmt final max_table_elements fuel st (len out) results =
    Done (results ++ expected_results fmt args fuel st (len out) arg, len final + 1).
Proof using Hargs Hmte.
  intros Hh Hp Hr Hm. induction fuel as [|fuel IH] in st, out, arg, results, Hh, Hp, Hr |- *; intros H; [done|].
  cbn [unpack_loop_values expected_results]. destruct (at_end fmt (ps_pos st)) eqn:E.
  { cbn [pack_loop] in H. rewrite E in H. injection H as <-. by rewrite app_nil_r. }
  unfold at_end in E. apply Z.leb_gt in E. rewrite (proj2 (Z.leb_gt _ _)) by lia.
  destruct (pack_round _ _ _ _ _ Hh ltac:(lia) H) as (opt & size & pad & st' & -> & Hs & Hpad & Hh' & Hp' & Hf & H').
  cbn [exec_bind]. set (a := default absent_arg (args !! arg)) in *.
  pose proof (arg_at_ok arg) as Ha. fold a in Ha.
  destruct (pack_loop_appends _ _ _ _ _ Hh' ltac:(lia) H') as [tail Hfinal].
  pose proof (len_value_bytes opt size (little (ps_header st')) a Hs Ha Hf) as [Hlv He].
  assert (Hsplit : final = (out ++ replicate (Z.to_nat pad) 0) ++ value_bytes opt size (little (ps_header st')) a ++ tail)
    by (by rewrite Hfinal, <- app_assoc).
  assert (Hpre : len (out ++ replicate (Z.to_nat pad) 0) = len out + pad) by (rewrite len_app, len_replicate; lia).
  rewrite (proj2 (Z.ltb_ge _ _)).
  2:{ rewrite Hsplit, !len_app, len_replicate, Hlv by lia. pose proof (len_nonneg tail). lia. }
  rewrite <- Hpre. rewrite Hsplit at 1. rewrite unpack_value_spec by (try done; by rewrite <- Hsplit). cbn [exec_bind].
  replace (len (out ++ replicate (Z.to_nat pad) 0) + extra opt a + size)
    with (len ((out ++ replicate (Z.to_nat pad) 0) ++ value_bytes opt size (little (ps_header st')) a))
    by (rewrite len_app, Hlv; lia).
  rewrite (IH st' _ (if takes_value opt then S arg else arg)); [|done|lia| |].
  - rewrite <- app_assoc. replace (len out + (pad + size) + extra opt a) with
      (len ((out ++ replicate (Z.to_nat pad) 0) ++ value_bytes opt size (little (ps_header st')) a))
      by (rewrite len_app, Hpre, Hlv; lia). done.
  - rewrite len_app. assert (len (value_result opt size a) <= 1); [|lia].
    unfold len. destruct opt; cbn; repeat case_match; cbn; lia.
  - exact H'.
Qed.
End RoundTrip.

(** C38: whatever [string.pack] writes, [string.unpack] with the same format reads back as the
    packed values: signed and unsigned integers of every width and byte order, floats bit for
    bit, fixed-size strings with their zero padding, length-prefixed and zero-terminated
    strings; the returned position is behind the last byte. *)
Theorem pack_unpack_round_trip fmt args max_pack_bytes max_table_elements out :
  Forall arg_ok args -> len fmt <= max_table_elements -> len out < 9223372036854775808 ->
  string_pack fmt args max_pack_bytes = Done out ->
  string_unpack fmt out max_table_elements 1 =
    Done (expected_results fmt args (S (length fmt)) (mkP header_new 0) 0 0, len out + 1).
Proof.
  intros Ha Hm Hl H. unfold string_unpack. change (posrelat 1 (len out) - 1) with 0. cbn zeta. change (0 <? 0) with false. cbv iota.
  pose proof (len_nonneg out). rewrite (proj2 (Z.ltb_ge (len out) 0)) by lia.
  apply (unpack_packed fmt args max_pack_bytes max_table_elements Ha Hm (S (length fmt)) (mkP header_new 0) [] 0 out []); try done.
  cbn. pose proof (len_nonneg fmt). lia.
Qed.

(** ** Unpacking arbitrary data *)

Lemma byte_slot_range lit size i : 0 <= i < size -> 0 <= byte_slot lit size i < size.
Proof. unfold byte_slot. destruct lit; lia. Qed.

Lemma unpack_loop_total limit data lit size res :
  Z.of_nat limit <= size -> size <= len data -> exists r, unpack_loop limit data lit size res = Done r.
Proof.
  induction limit as [|i IH] in res |- *; intros Hl Hd; cbn [unpack_loop]; [by eexists|].
  pose proof (byte_slot_range lit size (Z.of_nat i) ltac:(lia)).
  destruct (index_in_range data (byte_slot lit size (Z.of_nat i))) as (b & -> & _); [lia|]. apply IH; lia.
Qed.

Lemma fill_check_total count data lit size i fill :
  0 <= i -> i + Z.of_nat count <= size -> size <= len data -> exists b, fill_check count data lit size i fill = Done b.
Proof.
  induction count as [|count IH] in i |- *; intros Hi Hc Hd; cbn [fill_check]; [by eexists|].
  pose proof (byte_slot_range lit size i ltac:(lia)).
  destruct (index_in_range data (byte_slot lit size i)) as (b & -> & _); [lia|]. cbn [exec_bind].
  destruct (negb (b =? fill)); [by eexists|]. apply IH; lia.
Qed.

Lemma unpackint_settled data lit size signed :
  1 <= size -> size <= len data ->
  match unpackint data lit size signed with Done _ | Raise _ => True | _ => False end.
Proof.
  intros H1 H2. unfold unpackint, SZINT.
  destruct (unpack_loop_total (Z.to_nat (Z.min size 8)) data lit size 0) as [r ->]; [lia|lia|]. cbn [exec_bind].
  destruct (Z.ltb_spec size 8); [by destruct signed|]. destruct (Z.ltb_spec 8 size); [|done].
  match goal with |- context [fill_check ?c ?d ?l ?s ?i ?f] =>
    destruct (fill_check_total c d l s i f) as [b ->]; [lia|lia|lia|] end.
  cbn [exec_bind]. by destruct b.
Qed.

Lemma position_zero_range l z : position_zero l = Some z -> 0 <= z < len l.
Proof.
  induction l as [|b l IH] in z |- *; cbn [position_zero]; [done|]. rewrite len_cons. pose proof (len_nonneg l).
  destruct (b =? 0); [intros [= <-]; lia|]. destruct (position_zero l) as [y|]; cbn; [|done].
  specialize (IH y eq_refl). intros [= <-]. lia.
Qed.

Section Safe.
Context (fmt data : list Z) (max_table_elements : Z).

Lemma data_from_ok pos : 0 <= pos <= len data -> exists l, data_from data pos = Done l /\ len l = len data - pos.
Proof.
  intros Hp. unfold data_from. rewrite (proj2 (Z.leb_le 0 pos)), (proj2 (Z.leb_le pos _)) by lia. cbn [andb].
  eexists. split; [done|]. unfold len in *. rewrite length_drop. lia.
Qed.

Lemma data_slice_ok a n : 0 <= a -> 0 <= n -> a + n <= len data -> exists l, data_slice data a n = Done l.
Proof.
  intros. unfold data_slice. rewrite (proj2 (Z.leb_le 0 a)), (proj2 (Z.leb_le 0 n)), (proj2 (Z.leb_le _ _)) by lia.
  by eexists.
Qed.

Lemma unpack_value_settled opt size lit pos results :
  option_size_ok opt size -> 0 <= pos -> pos + size <= len data ->
  match unpack_value data opt size lit pos results with
  | Done (_, pos') => 0 <= pos' /\ pos' + size <= len data
  | Raise _ => True
  | _ => False
  end.
Proof.
  intros Hs Hp Hd. unfold option_size_ok in Hs.
  assert (0 <= size) by (destruct opt; lia). destruct (data_from_ok pos ltac:(lia)) as (rest & Hrest & Hlen).
  destruct opt; cbn [unpack_value]; rewrite ?Hrest; cbn [exec_bind].
  - pose proof (unpackint_settled rest lit size true ltac:(lia) ltac:(lia)).
    destruct (unpackint rest lit size true); cbn [exec_bind]; done || lia.
  - pose proof (unpackint_settled rest lit size false ltac:(lia) ltac:(lia)).
    destruct (unpackint rest lit size false); cbn [exec_bind]; done || lia.
  - unfold read_endian. unfold len in *.
    destruct (Z.eqb_spec size 4); rewrite (proj2 (Nat.leb_le _ _)) by lia; cbn [exec_bind]; lia.
  - destruct (data_slice_ok pos size) as [l ->]; [lia|lia|lia|]. cbn [exec_bind]. lia.
  - pose proof (unpackint_settled rest lit size false ltac:(lia) ltac:(lia)).
    destruct (unpackint rest lit size false) as [n| | |]; cbn [exec_bind]; try done.
    destruct (Z.ltb_spec n 0); cbn [orb]; [done|]. destruct (Z.ltb_spec (len data - pos - size) n); [done|].
    destruct (data_slice_ok (pos + size) n) as [l ->]; [lia|lia|lia|]. cbn [exec_bind]. lia.
  - destruct (position_zero rest) as [z|] eqn:E; [|done]. apply position_zero_range in E. lia.
  - lia.
  - lia.
  - lia.
Qed.

Lemma unpack_loop_settled fuel st pos results :
  header_ok (ps_header st) -> 0 <= ps_pos st <= len fmt -> 0 <= pos <= len data ->
  len fmt - ps_pos st < Z.of_nat fuel ->
  match unpack_loop_values fmt data max_table_elements fuel st pos results with
  | Done (_, next) => 1 <= next <= len data + 1
  | Raise _ => True
  | _ => False
  end.
Proof.
  induction fuel as [|fuel IH] in st, pos, results |- *; intros Hh Hp Hd Hf; [lia|]. cbn [unpack_loop_values].
  unfold at_end. destruct (Z.leb_spec (len fmt) (ps_pos st)); [lia|].
  destruct (max_table_elements <=? len results); [done|].
  pose proof (getdetails_spec fmt st pos Hh ltac:(lia)) as H1.
  destruct (getdetails fmt st pos) as [[[[opt size] pad] st']|e| |]; cbn [exec_bind]; try done.
  destruct H1 as (Hs & Hpad & Hh' & Hp'). destruct (Z.ltb_spec (len data - pos) (pad + size)); [done|].
  pose proof (unpack_value_settled opt size (little (ps_header st')) (pos + pad) results Hs ltac:(lia) ltac:(lia)) as Hv.
  assert (0 <= size) by (unfold option_size_ok in Hs; destruct opt; lia).
  destruct (unpack_value data opt size (little (ps_header st')) (pos + pad) results) as [[r p]|e| |]; cbn [exec_bind]; try done.
  apply IH; done || lia.
Qed.
End Safe.

(** [string.unpack] on any format string, any data and any start position neither panics
    nor loops: it raises an error or returns values with a next position inside the data. *)
Theorem unpack_safe fmt data max_table_elements init :
  match string_unpack fmt data max_table_elements init with
  | Done (_, next) => 1 <= next <= len data + 1
  | Raise _ => True
  | Crash | Diverge => False
  end.
Proof.
  unfold string_unpack. set (pos := posrelat init (len data) - 1). clearbody pos.
  set (pos' := if pos <? 0 then 0 else pos). assert (0 <= pos') by (unfold pos'; zbool; lia). clearbody pos'.
  destruct (Z.ltb_spec (len data) pos'); [done|]. pose proof (len_nonneg fmt).
  apply unpack_loop_settled; cbn; unfold len in *; done || lia.
Qed.

(** ** Sizes *)

Lemma packsize_loop_exact fmt args max_pack_bytes fuel st out arg final n :
  Forall arg_ok args -> header_ok (ps_header st) -> 0 <= ps_pos st <= len fmt ->
  packsize_loop fmt fuel st (len out) = Done n ->
  pack_loop fmt args max_pack_bytes fuel st out (len out) arg = Done final -> len final = n.
Proof.
  intros Hargs. induction fuel as [|fuel IH] in st, out, arg |- *; intros Hh Hp Hn H; [done|].
  destruct (at_end fmt (ps_pos st)) eqn:E.
  { cbn in Hn, H. rewrite E in Hn, H. congruence. }
  unfold at_end in E. apply Z.leb_gt in E.
  destruct (pack_round fmt args max_pack_bytes Hargs _ _ _ _ _ Hh ltac:(lia) H)
    as (opt & size & pad & st' & Hd & Hs & Hpad & Hh' & Hp' & Hf & H').
  cbn [packsize_loop] in Hn. unfold at_end in Hn. rewrite (proj2 (Z.leb_gt _ _)), Hd in Hn by lia. cbn [exec_bind] in Hn.
  pose proof (len_value_bytes opt size (little (ps_header st')) _ Hs (arg_at_ok args Hargs arg) Hf) as [Hlv _].
  set (a := default absent_arg (args !! arg)) in *.
  apply (IH _ _ _ Hh' ltac:(lia)) in H'; [done|]. rewrite !len_app, len_replicate, Hlv by lia.
  destruct opt; cbn [extra]; try done; (destruct (Z.ltb_spec (MAXSSIZE - (size + pad)) (len out)); [done|]);
    rewrite <- Hn; f_equal; lia.
Qed.

(** When [string.packsize] of a format succeeds, [string.pack] with that format writes
    exactly that many bytes, whatever the values are. *)
Theorem packsize_exact fmt args max_pack_bytes out n :
  Forall arg_ok args -> string_packsize fmt = Done n -> string_pack fmt args max_pack_bytes = Done out ->
  len out = n.
Proof.
  intros Ha Hn H. apply (packsize_loop_exact fmt args max_pack_bytes (S (length fmt)) (mkP header_new 0) [] 0 out n Ha); try done.
  cbn. pose proof (len_nonneg fmt). lia.
Qed.

(** ** Witnesses *)

(** The format [>i3 !4 s2 Xi4 H z] on -2, the string "hi", 513 and "z". *)
Definition sample_fmt : list Z := [62; 105; 51; 32; 33; 52; 32; 115; 50; 88; 105; 52; 32; 72; 122].
Definition int_arg (n : Z) : PackArg := mkArg (Some n) None None None.
Definition bytes_arg (s : list Z) : PackArg := mkArg None None None (Some s).
Definition sample_args : list PackArg := [int_arg (-2); bytes_arg [104; 105]; int_arg 513; bytes_arg [122]].
Definition sample_out : list Z := [255; 255; 254; 0; 0; 2; 104; 105; 2; 1; 122; 0].

Lemma int_arg_ok n : is_i64 n -> arg_ok (int_arg n).
Proof. intros Hn. split; [by intros ? [= <-]|done]. Qed.

Lemma bytes_arg_ok s : arg_ok (bytes_arg s).
Proof. done. Qed.

Lemma sample_args_ok : Forall arg_ok sample_args.
Proof.
  constructor; [by apply int_arg_ok|]. constructor; [apply bytes_arg_ok|].
  constructor; [by apply int_arg_ok|]. constructor; [apply bytes_arg_ok|constructor].
Qed.

Lemma pack_unpack_round_trip_witness :
  string_unpack sample_fmt sample_out 100 1 =
    Done ([RInt (-2); RString [104; 105]; RUint 513; RString [122]], 13).
Proof.
  assert (len sample_fmt <= 100) as H1 by (vm_compute; discriminate).
  assert (len sample_out < 9223372036854775808) as H2 by (vm_compute; reflexivity).
  apply (pack_unpack_round_trip sample_fmt sample_args 1000 100 sample_out sample_args_ok H1 H2).
  vm_compute. reflexivity.
Defined.

(** The format [bh!4i4]. *)
Lemma packsize_exact_witness :
  len [1; 0; 2; 0; 3; 0; 0; 0] = 8.
Proof.
  apply (packsize_exact [98; 33; 50; 104; 105; 52] [int_arg 1; int_arg 2; int_arg 3] 1000).
  - repeat (constructor; [by apply int_arg_ok|]). constructor.
  - vm_compute. reflexivity.
  - vm_compute. reflexivity.
Defined.
