(* ===== verification/DateTime.v ===== *)
(** * DateTime: the civil calendar of the [os] library

    Model of [ruau-vm/src/datetime.rs]: [civil_from_secs], [timegm] and [strftime]. The fields
    come from a clock or, truncated to 32 bits, from a table, so the 64-bit arithmetic does not
    wrap and is that of [Z]; [/] and [%] on [i64] truncate ([Z.quot], [Z.rem]). The reference
    calendar of the theorems counts days: [days_before_year] adds up the lengths of the years
    since year 0, [days_before_month] the lengths of the months. *)

From Stdlib Require Import ZArith Lia.
From stdpp Require Import base numbers list strings pretty option.
From S2P Require Import Prelude RustExec.

Definition SECS_PER_DAY : Z := 86400.
Definition SECS_PER_HOUR : Z := 3600.

Record Tm : Set := mkTm {
  tm_sec : Z;
  tm_min : Z;
  tm_hour : Z;
  tm_mday : Z;
  tm_mon : Z;
  tm_year : Z;
  tm_wday : Z;
  tm_yday : Z;
}.

Definition WDAY_ABBR : list string := ["Sun"; "Mon"; "Tue"; "Wed"; "Thu"; "Fri"; "Sat"].
Definition WDAY_FULL : list string :=
  ["Sunday"; "Monday"; "Tuesday"; "Wednesday"; "Thursday"; "Friday"; "Saturday"].
Definition MON_ABBR : list string :=
  ["Jan"; "Feb"; "Mar"; "Apr"; "May"; "Jun"; "Jul"; "Aug"; "Sep"; "Oct"; "Nov"; "Dec"].
Definition MON_FULL : list string :=
  ["January"; "February"; "March"; "April"; "May"; "June"; "July"; "August"; "September"; "October";
   "November"; "December"].

Definition is_leap (year : Z) : bool :=
  ((Z.rem year 4 =? 0) && negb (Z.rem year 100 =? 0)) || (Z.rem year 400 =? 0).

Definition CUM : list Z := [0; 31; 59; 90; 120; 151; 181; 212; 243; 273; 304; 334].

(** The index [CUM[(month - 1) as usize]] is in range for the months of [civil_from_secs]. *)
Definition yday_from_ymd (year month day : Z) : Z :=
  let yd := default 0 (zget CUM (month - 1)) + (day - 1) in
  if (2 <? month) && is_leap year then yd + 1 else yd.

Definition civil_from_secs (secs : Z) : Tm :=
  let days := secs / SECS_PER_DAY in
  let rem := secs mod SECS_PER_DAY in
  let hour := Z.quot rem SECS_PER_HOUR in
  let min := Z.quot (Z.rem rem SECS_PER_HOUR) 60 in
  let sec := Z.rem rem 60 in
  let wday := (days + 4) mod 7 in
  let z := days + 719468 in
  let era := Z.quot (if 0 <=? z then z else z - 146096) 146097 in
  let doe := z - era * 146097 in
  let yoe := Z.quot (doe - Z.quot doe 1460 + Z.quot doe 36524 - Z.quot doe 146096) 365 in
  let y := yoe + era * 400 in
  let doy := doe - (365 * yoe + Z.quot yoe 4 - Z.quot yoe 100) in
  let mp := Z.quot (5 * doy + 2) 153 in
  let day := doy - Z.quot (153 * mp + 2) 5 + 1 in
  let month := if mp <? 10 then mp + 3 else mp - 9 in
  let year := y + (if month <=? 2 then 1 else 0) in
  mkTm sec min hour day (month - 1) year wday (yday_from_ymd year month day).

Definition UTC_START_JD : Z := 2440588.

Definition timegm (sec min hour mday mon year : Z) : option Z :=
  let day := mday in
  let month := mon + 1 in
  let a := (if Z.rem mon 12 <? 2 then 1 else 0) - Z.quot mon 12 in
  let y := year + 4800 - a in
  let m := month + 12 * a - 3 in
  let julianday :=
    day + Z.quot (153 * m + 2) 5 + 365 * y + Z.quot y 4 - Z.quot y 100 + Z.quot y 400 - 32045 in
  if julianday <? UTC_START_JD then None
  else
    let daysecond := hour * SECS_PER_HOUR + min * 60 + sec in
    let julianseconds := julianday * SECS_PER_DAY + daysecond in
    let utc_start_seconds := UTC_START_JD * SECS_PER_DAY in
    if julianseconds <? utc_start_seconds then None
    else Some (julianseconds - utc_start_seconds).

(** ** Formatting *)

(** The bytes of an ASCII text. *)
Definition bytes_of_string (s : string) : list Z :=
  (fun c => Z.of_N (Ascii.N_of_ascii c)) <$> String.list_ascii_of_string s.

Fixpoint pad_left (w : nat) (fill : string) (s : string) : string :=
  match w with
  | O => s
  | S w' => fill +:+ pad_left w' fill s
  end.

(** [{:0w}] of an [i64]: zeros between the sign and the digits. *)
Definition show_zero (w : nat) (x : Z) : string :=
  if x <? 0 then
    let digits := show (- x) in
    "-" +:+ pad_left (w - 1 - String.length digits) "0" digits
  else
    let digits := show x in
    pad_left (w - String.length digits) "0" digits.

(** [{:>w}]: spaces on the left. *)
Definition show_right (w : nat) (x : Z) : string :=
  let text := show x in pad_left (w - String.length text) " " text.

(** An entry of a name table; the index is [as usize]. *)
Definition name_at (table : list string) (i : Z) : Exec string := index table (as_u64 i).

(** One conversion: [None] for an unknown specifier. *)
Definition strftime_piece (spec : Z) (tm : Tm) : Exec (option string) :=
  let some (s : string) : Exec (option string) := Done (Some s) in
  let hour12 := if Z.rem (tm_hour tm) 12 =? 0 then 12 else Z.rem (tm_hour tm) 12 in
  if spec =? 97 then let! s := name_at WDAY_ABBR (tm_wday tm) in some s
  else if spec =? 65 then let! s := name_at WDAY_FULL (tm_wday tm) in some s
  else if spec =? 98 then let! s := name_at MON_ABBR (tm_mon tm) in some s
  else if spec =? 66 then let! s := name_at MON_FULL (tm_mon tm) in some s
  else if spec =? 99 then
    let! w := name_at WDAY_ABBR (tm_wday tm) in
    let! m := name_at MON_ABBR (tm_mon tm) in
    some (w +:+ " " +:+ m +:+ " " +:+ show_right 2 (tm_mday tm) +:+ " " +:+ show_zero 2 (tm_hour tm) +:+ ":" +:+
      show_zero 2 (tm_min tm) +:+ ":" +:+ show_zero 2 (tm_sec tm) +:+ " " +:+ show (tm_year tm))
  else if spec =? 100 then some (show_zero 2 (tm_mday tm))
  else if spec =? 72 then some (show_zero 2 (tm_hour tm))
  else if spec =? 73 then some (show_zero 2 hour12)
  else if spec =? 106 then some (show_zero 3 (tm_yday tm + 1))
  else if spec =? 109 then some (show_zero 2 (tm_mon tm + 1))
  else if spec =? 77 then some (show_zero 2 (tm_min tm))
  else if spec =? 112 then some (if tm_hour tm <? 12 then "AM" else "PM")
  else if spec =? 83 then some (show_zero 2 (tm_sec tm))
  else if spec =? 85 then some (show_zero 2 (Z.quot (tm_yday tm + 7 - tm_wday tm) 7))
  else if spec =? 119 then some (show (tm_wday tm))
  else if spec =? 87 then some (show_zero 2 (Z.quot (tm_yday tm + 7 - Z.rem (tm_wday tm + 6) 7) 7))
  else if spec =? 120 then
    some (show_zero 2 (tm_mon tm + 1) +:+ "/" +:+ show_zero 2 (tm_mday tm) +:+ "/" +:+
      show_zero 2 (tm_year tm mod 100))
  else if spec =? 88 then
    some (show_zero 2 (tm_hour tm) +:+ ":" +:+ show_zero 2 (tm_min tm) +:+ ":" +:+ show_zero 2 (tm_sec tm))
  else if spec =? 121 then some (show_zero 2 (tm_year tm mod 100))
  else if spec =? 89 then some (show (tm_year tm))
  else if spec =? 122 then some "+0000"
  else if spec =? 90 then some "UTC"
  else if spec =? 37 then some "%"
  else Done None.

(** The loop over the format; structural, one or two bytes at a time. [None] is [Err(())]. *)
Fixpoint strftime (fmt : list Z) (tm : Tm) : Exec (option (list Z)) :=
  match fmt with
  | [] => Done (Some [])
  | 37 :: spec :: rest =>
      let! piece := strftime_piece spec tm in
      match piece with
      | None => Done None
      | Some s =>
          let! tail := strftime rest tm in
          Done ((fun t => bytes_of_string s ++ t) <$> tail)
      end
  | c :: rest =>
      let! tail := strftime rest tm in
      Done ((fun t => c :: t) <$> tail)
  end.

(** ** The reference calendar *)

Definition leap (y : Z) : bool := (y mod 4 =? 0) && (negb (y mod 100 =? 0) || (y mod 400 =? 0)).

Definition year_len (y : Z) : Z := if leap y then 366 else 365.

Definition month_len (y m : Z) : Z :=
  match m with
  | 2 => if leap y then 29 else 28
  | 4 | 6 | 9 | 11 => 30
  | _ => 31
  end.

Fixpoint sum_below (f : Z -> Z) (n : nat) : Z :=
  match n with
  | O => 0
  | S n' => sum_below f n' + f (Z.of_nat n')
  end.

Definition days_before_year (y : Z) : Z := sum_below year_len (Z.to_nat y).
Definition days_before_month (y m : Z) : Z := sum_below (fun i => month_len y (i + 1)) (Z.to_nat (m - 1)).

(** The days from 1970-01-01 to a date. *)
Definition day_number (y m d : Z) : Z :=
  days_before_year y + days_before_month y m + (d - 1) - days_before_year 1970.

Definition valid_date (y m d : Z) : Prop := 0 <= y /\ 1 <= m <= 12 /\ 1 <= d <= month_len y m.

(** ** Closed forms *)

Lemma leap_cases y :
  leap y = true /\ (y mod 4 = 0 /\ (y mod 100 <> 0 \/ y mod 400 = 0)) \/
  leap y = false /\ ~ (y mod 4 = 0 /\ (y mod 100 <> 0 \/ y mod 400 = 0)).
Proof.
  destruct (leap y) eqn:E; [left|right]; (split; [done|]); unfold leap in E;
    destruct (Z.eqb_spec (y mod 4) 0), (Z.eqb_spec (y mod 100) 0), (Z.eqb_spec (y mod 400) 0); try discriminate E; lia.
Qed.

Lemma is_leap_leap y : 0 <= y -> is_leap y = leap y.
Proof.
  intros Hy. unfold is_leap, leap. rewrite !Z.rem_mod_nonneg by lia.
  destruct (Z.eqb_spec (y mod 4) 0), (Z.eqb_spec (y mod 100) 0), (Z.eqb_spec (y mod 400) 0); cbn; try done; exfalso; zdm.
Qed.

Lemma days_before_year_closed y :
  0 <= y -> days_before_year y = 365 * y + (y + 3) / 4 - (y + 99) / 100 + (y + 399) / 400.
Proof.
  intros Hy. unfold days_before_year. rewrite <- (Z2Nat.id y Hy) at 2 3 4 5. clear Hy.
  induction (Z.to_nat y) as [|n IH]; [done|]. cbn [sum_below]. rewrite IH. unfold year_len.
  destruct (leap_cases (Z.of_nat n)) as [[-> H]|[-> H]]; zdm.
Qed.

Definition month_start (y m : Z) : Z :=
  default 0 (zget CUM (m - 1)) + (if (2 <? m) && leap y then 1 else 0).

Lemma month_cases (P : Z -> Prop) :
  P 1 -> P 2 -> P 3 -> P 4 -> P 5 -> P 6 -> P 7 -> P 8 -> P 9 -> P 10 -> P 11 -> P 12 ->
  forall m, 1 <= m <= 12 -> P m.
Proof.
  intros. assert (m = 1 \/ m = 2 \/ m = 3 \/ m = 4 \/ m = 5 \/ m = 6 \/ m = 7 \/ m = 8 \/ m = 9 \/ m = 10 \/ m = 11 \/ m = 12)
    as Hm by lia. destruct_or! Hm; by subst m.
Qed.

Lemma days_before_month_closed y m : 1 <= m <= 12 -> days_before_month y m = month_start y m.
Proof.
  apply (month_cases (fun m => days_before_month y m = month_start y m)); unfold days_before_month, month_start, month_len;
    cbn; by destruct (leap y).
Qed.

(** ** From seconds to a date *)

(** The year of a 400-year era that starts in March, and the day in it. *)
Lemma year_of_era doe :
  0 <= doe < 146097 ->
  let yoe := (doe - doe / 1460 + doe / 36524 - doe / 146096) / 365 in
  let doy := doe - (365 * yoe + yoe / 4 - yoe / 100) in
  0 <= yoe <= 399 /\ 0 <= doy <= 365 /\
  (doy = 365 -> (yoe + 1) mod 4 = 0 /\ ((yoe + 1) mod 100 <> 0 \/ (yoe + 1) mod 400 = 0)).
Proof.
  intros H. cbn zeta.
  assert (doe / 146096 = 0 \/ doe / 146096 = 1) by zdm. assert (0 <= doe / 36524 <= 4) by zdm.
  split; [zdm|]. split; [zdm|]. zdm.
Qed.

(** The month of a year that starts in March, counted from 0, and the day in it. *)
Lemma month_of_year doy :
  0 <= doy <= 365 ->
  let mp := (5 * doy + 2) / 153 in
  0 <= mp <= 11 /\ (153 * mp + 2) / 5 <= doy /\ (mp <= 10 -> doy < (153 * (mp + 1) + 2) / 5).
Proof. intros H. cbn zeta. zdm. Qed.

(** Evaluates closed integer subterms and the conditionals they decide. *)
Ltac is_number v := match v with Z0 => idtac | Zpos _ => idtac | Zneg _ => idtac end.
Ltac eval_closed a b t := is_number a; is_number b; let v := eval vm_compute in t in change t with v in *.
Ltac closed_arith :=
  repeat match goal with
  | |- context [?a * ?b] => eval_closed a b (a * b)
  | |- context [?a + ?b] => eval_closed a b (a + b)
  | |- context [?a - ?b] => eval_closed a b (a - b)
  | |- context [?a / ?b] => eval_closed a b (a / b)
  | |- context [Z.quot ?a ?b] => eval_closed a b (Z.quot a b)
  | |- context [?a <? ?b] => eval_closed a b (a <? b)
  | |- context [?a <=? ?b] => eval_closed a b (a <=? b)
  | |- context [default 0 (zget CUM ?k)] =>
      is_number k; let v := eval vm_compute in (default 0 (zget CUM k)) in change (default 0 (zget CUM k)) with v
  end; cbv iota in *.

(** The date of a day of an era. *)
Lemma civil_day era yoe doy mp :
  0 <= era -> 0 <= yoe <= 399 -> 0 <= doy <= 365 ->
  (doy = 365 -> (yoe + 1) mod 4 = 0 /\ ((yoe + 1) mod 100 <> 0 \/ (yoe + 1) mod 400 = 0)) ->
  0 <= mp <= 11 -> (153 * mp + 2) / 5 <= doy -> (mp <= 10 -> doy < (153 * (mp + 1) + 2) / 5) ->
  let month := if mp <? 10 then mp + 3 else mp - 9 in
  let year := yoe + era * 400 + (if month <=? 2 then 1 else 0) in
  let day := doy - (153 * mp + 2) / 5 + 1 in
  valid_date year month day /\
  day_number year month day = era * 146097 + (365 * yoe + yoe / 4 - yoe / 100) + doy - 719468.
Proof.
  intros He Hy Hd Hlast Hmp Hlo Hhi. cbn zeta. unfold valid_date, day_number.
  replace (days_before_year 1970) with 719528 by (vm_compute; reflexivity).
  assert (mp = 0 \/ mp = 1 \/ mp = 2 \/ mp = 3 \/ mp = 4 \/ mp = 5 \/ mp = 6 \/ mp = 7 \/ mp = 8 \/ mp = 9 \/ mp = 10 \/ mp = 11)
    as Hcases by lia.
  destruct_or! Hcases; subst mp; closed_arith; closed_arith;
    (match goal with |- context [month_len ?y _] => remember y as year eqn:Hyear; destruct (leap_cases year) as [[Hl Hleap]|[Hl Hleap]] end);
    rewrite days_before_year_closed, days_before_month_closed by lia; unfold month_start, month_len; rewrite Hl;
    cbn -[Z.div Z.mul Z.add Z.sub Z.modulo] in *;
    closed_arith; clear Hl; subst year; (split; [zdm|zdm]).
Qed.

Lemma civil_fields secs :
  0 <= secs ->
  let tm := civil_from_secs secs in
  let month := tm_mon tm + 1 in
  valid_date (tm_year tm) month (tm_mday tm) /\
  day_number (tm_year tm) month (tm_mday tm) * 86400 + tm_hour tm * 3600 + tm_min tm * 60 + tm_sec tm = secs /\
  0 <= tm_hour tm < 24 /\ 0 <= tm_min tm < 60 /\ 0 <= tm_sec tm < 60 /\
  tm_wday tm = (day_number (tm_year tm) month (tm_mday tm) + 4) mod 7 /\
  tm_yday tm = day_number (tm_year tm) month (tm_mday tm) - day_number (tm_year tm) 1 1.
Proof.
  intros Hs. cbn zeta. unfold civil_from_secs, SECS_PER_DAY, SECS_PER_HOUR.
  cbn [tm_sec tm_min tm_hour tm_mday tm_mon tm_year tm_wday tm_yday].
  assert (0 <= secs / 86400) by zdm. rewrite (proj2 (Z.leb_le 0 (secs / 86400 + 719468))) by lia.
  set (z := secs / 86400 + 719468). rewrite (Z.quot_div_nonneg z) by lia. set (era := z / 146097).
  set (doe := z - era * 146097). assert (0 <= doe < 146097) as Hdoe by (unfold doe, era; zdm).
  rewrite !(Z.quot_div_nonneg doe) by lia. pose proof (year_of_era doe Hdoe) as Hy. cbn zeta in Hy.
  rewrite (Z.quot_div_nonneg (doe - doe / 1460 + doe / 36524 - doe / 146096)) by zdm.
  set (yoe := (doe - doe / 1460 + doe / 36524 - doe / 146096) / 365) in *.
  rewrite !(Z.quot_div_nonneg yoe) by lia. set (doy := doe - (365 * yoe + yoe / 4 - yoe / 100)) in *.
  destruct Hy as (Hyoe & Hdoy & Hlast). pose proof (month_of_year doy Hdoy) as Hm. cbn zeta in Hm.
  rewrite (Z.quot_div_nonneg (5 * doy + 2)) by lia. set (mp := (5 * doy + 2) / 153) in *.
  destruct Hm as (Hmp & Hlo & Hhi). rewrite (Z.quot_div_nonneg (153 * mp + 2)) by lia.
  assert (0 <= era) as Hera by (unfold era; zdm).
  pose proof (civil_day era yoe doy mp Hera Hyoe Hdoy Hlast Hmp Hlo Hhi) as Hc. cbn zeta in Hc.
  set (month := if mp <? 10 then mp + 3 else mp - 9) in *.
  set (year := yoe + era * 400 + (if month <=? 2 then 1 else 0)) in *.
  set (day := doy - (153 * mp + 2) / 5 + 1) in *. replace (month - 1 + 1) with month by lia.
  destruct Hc as [Hv Hn].
  assert (day_number year month day = secs / 86400) as Hdays by (rewrite Hn; unfold doy, doe; unfold z; lia).
  rewrite !Hdays.
  assert (0 <= secs mod 86400 < 86400) by zdm.
  rewrite (Z.rem_mod_nonneg (secs mod 86400) 60), (Z.rem_mod_nonneg (secs mod 86400) 3600) by lia.
  rewrite (Z.quot_div_nonneg (secs mod 86400)) by lia. rewrite (Z.quot_div_nonneg ((secs mod 86400) mod 3600)) by zdm.
  split; [done|]. clearbody month year day. clear -Hv Hdays Hs.
  split; [zdm|]. split; [zdm|]. split; [zdm|]. split; [zdm|]. split; [done|].
  destruct Hv as (Hy & Hm & Hd). unfold yday_from_ymd. rewrite is_leap_leap by done.
  rewrite <- Hdays. unfold day_number.
  rewrite !days_before_month_closed by lia. change (month_start year 1) with 0. unfold month_start.
  destruct ((2 <? month) && leap year); lia.
Qed.

(** C39: for every non-negative timestamp [civil_from_secs] is the Gregorian date and the time
    of day: the date is valid, its day number counted by year and month lengths is the number
    of whole days, the time fields split the rest of the day, the day of the week advances by
    one each day from Thursday 1970-01-01, and the day of the year counts from January 1. *)
Theorem civil_from_secs_correct secs :
  0 <= secs ->
  let tm := civil_from_secs secs in
  let month := tm_mon tm + 1 in
  valid_date (tm_year tm) month (tm_mday tm) /\
  day_number (tm_year tm) month (tm_mday tm) * 86400 + tm_hour tm * 3600 + tm_min tm * 60 + tm_sec tm = secs /\
  0 <= tm_hour tm < 24 /\ 0 <= tm_min tm < 60 /\ 0 <= tm_sec tm < 60 /\
  tm_wday tm = (day_number (tm_year tm) month (tm_mday tm) + 4) mod 7 /\
  tm_yday tm = day_number (tm_year tm) month (tm_mday tm) - day_number (tm_year tm) 1 1.
Proof. exact (civil_fields secs). Qed.

Lemma civil_from_secs_correct_witness :
  let tm := civil_from_secs 951782399 in
  valid_date (tm_year tm) (tm_mon tm + 1) (tm_mday tm) /\
  (tm_year tm, tm_mon tm, tm_mday tm, tm_hour tm, tm_min tm, tm_sec tm, tm_wday tm, tm_yday tm) =
  (2000, 1, 28, 23, 59, 59, 1, 58).
Proof. split; [exact (proj1 (civil_from_secs_correct 951782399 ltac:(done)))|by vm_compute]. Defined.

(** ** From a date to seconds *)

(** A month that is not in January to December counts in the year it is folded into. *)
Definition folded_year (mon year : Z) : Z := year + mon / 12.
Definition folded_month (mon : Z) : Z := mon mod 12 + 1.

(** The years and months of the Julian day formula, which start in March. *)
Lemma march_year mon year :
  0 <= mon \/ Z.rem mon 12 <> -11 ->
  let a := (if Z.rem mon 12 <? 2 then 1 else 0) - Z.quot mon 12 in
  let M := folded_month mon in
  let Y := folded_year mon year in
  (3 <= M /\ mon + 1 + 12 * a - 3 = M - 3 /\ year + 4800 - a = Y + 4800) \/
  (M <= 2 /\ mon + 1 + 12 * a - 3 = M + 9 /\ year + 4800 - a = Y + 4799).
Proof.
  intros H. cbn zeta. unfold folded_month, folded_year.
  pose proof (Z.quot_rem' mon 12) as Hqr. pose proof (Z.rem_bound_abs mon 12 ltac:(lia)) as Hr.
  assert (mon < 0 -> Z.rem mon 12 <= 0) as Hneg by (intros; apply Z.rem_nonpos; lia).
  assert (0 <= mon -> 0 <= Z.rem mon 12) as Hpos by (intros; apply Z.rem_nonneg; lia).
  revert Hqr Hr Hneg Hpos H. generalize (Z.quot mon 12) (Z.rem mon 12). intros q r Hqr Hr Hneg Hpos H.
  destruct (Z_le_dec 0 r).
  - assert (mon / 12 = q /\ mon mod 12 = r) as [-> ->] by zdm. destruct (Z.ltb_spec r 2); [right|left]; lia.
  - assert (mon / 12 = q - 1 /\ mon mod 12 = r + 12) as [-> ->] by zdm. destruct (Z.ltb_spec r 2); [left|]; lia.
Qed.

(** The Julian day formula of a month. *)
Lemma julian_day Y M d :
  0 <= Y -> 1 <= M <= 12 ->
  let y := if 3 <=? M then Y + 4800 else Y + 4799 in
  let m := if 3 <=? M then M - 3 else M + 9 in
  d + Z.quot (153 * m + 2) 5 + 365 * y + Z.quot y 4 - Z.quot y 100 + Z.quot y 400 - 32045 - UTC_START_JD = day_number Y M d.
Proof.
  intros HY HM. cbn zeta. unfold day_number, UTC_START_JD. rewrite days_before_year_closed by done.
  replace (days_before_year 1970) with 719528 by (vm_compute; reflexivity). rewrite days_before_month_closed by done.
  revert M HM. apply month_cases; unfold month_start; closed_arith; rewrite !(Z.quot_div_nonneg (Y + _)) by lia;
    destruct (leap_cases Y) as [[-> H]|[-> H]]; cbn [andb]; closed_arith; zdm.
Qed.

(** The seconds of a date and a time of day, which may be out of their ranges. *)
Definition seconds_of (Y M mday hour min sec : Z) : Z := day_number Y M mday * 86400 + hour * 3600 + min * 60 + sec.

(** [timegm] on the year and month a date is folded into. *)
Lemma timegm_folded sec min hour mday mon year :
  0 <= folded_year mon year -> 0 <= mon \/ Z.rem mon 12 <> -11 ->
  timegm sec min hour mday mon year =
  (if day_number (folded_year mon year) (folded_month mon) mday <? 0 then None
   else
     let t := seconds_of (folded_year mon year) (folded_month mon) mday hour min sec in
     if t <? 0 then None else Some t).
Proof.
  intros HY Hmon. unfold timegm, seconds_of, SECS_PER_DAY, SECS_PER_HOUR.
  set (Y := folded_year mon year) in *. set (M := folded_month mon).
  assert (1 <= M <= 12) as HM by (unfold M, folded_month; zdm).
  pose proof (march_year mon year Hmon) as Hmarch. cbn zeta in *. fold Y M in Hmarch.
  set (a := (if Z.rem mon 12 <? 2 then 1 else 0) - Z.quot mon 12) in *. clearbody a.
  pose proof (julian_day Y M mday HY HM) as Hj. cbn zeta in Hj.
  replace (year + 4800 - a) with (if 3 <=? M then Y + 4800 else Y + 4799) by (destruct (Z.leb_spec 3 M); lia).
  replace (mon + 1 + 12 * a - 3) with (if 3 <=? M then M - 3 else M + 9) by (destruct (Z.leb_spec 3 M); lia).
  revert Hj. generalize (if 3 <=? M then Y + 4800 else Y + 4799) (if 3 <=? M then M - 3 else M + 9).
  intros y m Hj. rewrite <- Hj. generalize (mday + Z.quot (153 * m + 2) 5 + 365 * y + Z.quot y 4 - Z.quot y 100 + Z.quot y 400 - 32045).
  intros J. repeat match goal with |- context [?x <? ?y] => destruct (Z.ltb_spec x y) end; try lia; try done; f_equal; lia.
Qed.

(** [timegm] inverts the calendar: for a month in any year (out-of-range months are folded
    into the year, except the February of a year before), it is the day number counted by year
    and month lengths times 86400 plus the time of day, whatever the ranges of the day and time
    fields, and [None] exactly when the day or the result is before 1970; in particular it maps
    the fields of [civil_from_secs] back to the timestamp. *)
Theorem timegm_exact sec min hour mday mon year secs :
  0 <= folded_year mon year -> 0 <= mon \/ Z.rem mon 12 <> -11 -> 0 <= secs ->
  (timegm sec min hour mday mon year =
   (if day_number (folded_year mon year) (folded_month mon) mday <? 0 then None
    else
      let t := seconds_of (folded_year mon year) (folded_month mon) mday hour min sec in
      if t <? 0 then None else Some t)) /\
  let tm := civil_from_secs secs in
  timegm (tm_sec tm) (tm_min tm) (tm_hour tm) (tm_mday tm) (tm_mon tm) (tm_year tm) = Some secs.
Proof.
  intros HY Hmon Hs. split; [by apply timegm_folded|].
  destruct (civil_fields secs Hs) as ((Hy & Hm & Hd) & Hn & Hh & Hmi & Hse & _). cbn zeta in *.
  assert (folded_year (tm_mon (civil_from_secs secs)) (tm_year (civil_from_secs secs)) = tm_year (civil_from_secs secs)) as HY'
    by (unfold folded_year; zdm).
  assert (folded_month (tm_mon (civil_from_secs secs)) = tm_mon (civil_from_secs secs) + 1) as HM' by (unfold folded_month; zdm).
  rewrite timegm_folded by (rewrite ?HY'; lia). rewrite HY', HM'. cbn zeta. unfold seconds_of. rewrite Hn.
  repeat match goal with |- context [?x <? ?y] => destruct (Z.ltb_spec x y) end; try lia; done.
Qed.

Lemma timegm_exact_witness :
  timegm 0 0 0 31 13 1999 = Some 951955200 /\
  timegm 56 34 12 6 2 2024 = Some 1709728496.
Proof.
  split.
  - exact (proj1 (timegm_exact 0 0 0 31 13 1999 0 ltac:(done) ltac:(by left) ltac:(done))).
  - exact (proj2 (timegm_exact 0 0 0 1 0 1970 1709728496 ltac:(done) ltac:(by left) ltac:(done))).
Defined.

(** The exception is real: month [-11], the February of the year before, gives a timestamp
    two days before that February starts, although the month before it and the month after it
    are folded exactly. *)
Theorem timegm_february_before :
  timegm 0 0 0 1 (-11) 2020 = Some (seconds_of 2019 1 30 0 0 0) /\
  seconds_of 2019 1 30 0 0 0 = seconds_of (folded_year (-11) 2020) (folded_month (-11)) 1 0 0 0 - 2 * 86400 /\
  timegm 0 0 0 1 (-12) 2020 = Some (seconds_of 2019 1 1 0 0 0) /\
  timegm 0 0 0 1 (-10) 2020 = Some (seconds_of 2019 3 1 0 0 0).
Proof. by vm_compute. Qed.
