(* ===== verification/LibHeap.v ===== *)
(** * LibHeap: the heap as the library functions see it

    Model of the parts of [Heap] ([ruau-vm/src/heap/mod.rs]) the builtins call: the gas
    budget, the memory cap, table access through the write barrier, interning; of metamethod
    lookup ([tm.rs]), raw comparison ([vmutils.rs], [execute/mod.rs]) and argument coercion
    ([builtins/common.rs]). A builtin is a computation [LM] on the machine [Vm] that returns
    the machine it leaves together with its outcome, since an error keeps the effects made
    before it. The gas profile, which only records, is left out. Running Lua code
    ([call_value]) and the metatables of registered host types are the members of [LuaCode]:
    a callee may do anything to the machine. *)

From Stdlib Require Import ZArith Lia.
From stdpp Require Import base numbers list strings option gmap.
From S2P Require Import Prelude RustExec RustVec Arena Value LuaTable GcObjects Gc.

(** ** More operations on doubles, by bits *)

Definition I64_MIN : Z := -9223372036854775808.
Definition clamp_i64 (x : Z) : Z := Z.max I64_MIN (Z.min I64_MAX x).

(** [n as i64]: truncation towards zero, saturating; zero for a NaN. *)
Definition f64_as_i64 (b : Z) : Z :=
  let e := f64_exp b in
  let m := f64_man b in
  if f64_is_nan b then 0
  else if e =? 2047 then (if f64_neg b then I64_MIN else I64_MAX)
  else
    let m' := if e =? 0 then m else m + 4503599627370496 in
    let e' := if e =? 0 then 1 else e in
    let mag := if 1075 <=? e' then m' * 2 ^ (e' - 1075) else m' / 2 ^ (1075 - e') in
    clamp_i64 (if f64_neg b then - mag else mag).

Definition f64_lt (a b : Z) : bool := f64_gt b a.
Definition f64_le (a b : Z) : bool :=
  negb (f64_is_nan a) && negb (f64_is_nan b) && (f64_ord a <=? f64_ord b).
Definition f64_eq (a b : Z) : bool :=
  negb (f64_is_nan a) && negb (f64_is_nan b) && (f64_ord a =? f64_ord b).

Definition f32_eq (a b : Z) : bool :=
  negb (f32_is_nan a) && negb (f32_is_nan b) && (canon a =? canon b).

(** [PartialEq for RawValue], the derived equality. *)
Definition raw_equal (lhs rhs : RawValue) : bool :=
  match lhs, rhs with
  | VNumber a, VNumber b => f64_eq a b
  | VVector x y z, VVector x' y' z' => f32_eq x x' && f32_eq y y' && f32_eq z z'
  | _, _ => bool_decide (lhs = rhs)
  end.

Definition truthy (value : RawValue) : bool :=
  match value with
  | VNil | VBoolean false => false
  | _ => true
  end.

(** ** The machine *)

Record Vm : Type := mkVm {
  vm_heap : Heap;
  gas : option Z;
  gas_spent : Z;
  memory_cap : option Z;
  max_table_elements : Z;
}.

Definition set_heap (h : Heap) (vm : Vm) : Vm :=
  mkVm h (gas vm) (gas_spent vm) (memory_cap vm) (max_table_elements vm).
Definition set_gas (g : option Z) (spent : Z) (vm : Vm) : Vm :=
  mkVm (vm_heap vm) g spent (memory_cap vm) (max_table_elements vm).

(** The outcome of a builtin: a value, a raised error, a panic, a loop that does not end, or
    the end of the process when the allocator refuses an infallible allocation. *)
Inductive Outcome (A : Type) : Type :=
| Ret (a : A)
| Raised (message : string)
| Panicked
| Looping
| Aborted.
Arguments Ret {A} a.
Arguments Raised {A} message.
Arguments Panicked {A}.
Arguments Looping {A}.
Arguments Aborted {A}.

Definition LM (A : Type) : Type := Vm -> Vm * Outcome A.

Definition lret {A} (x : A) : LM A := fun vm => (vm, Ret x).
Definition lraise {A} (message : string) : LM A := fun vm => (vm, Raised message).
Definition lpanic {A} : LM A := fun vm => (vm, Panicked).
Definition lloop {A} : LM A := fun vm => (vm, Looping).
Definition labort {A} : LM A := fun vm => (vm, Aborted).
Definition lbind {A B} (m : LM A) (k : A -> LM B) : LM B := fun vm =>
  match m vm with
  | (vm', Ret x) => k x vm'
  | (vm', Raised e) => (vm', Raised e)
  | (vm', Panicked) => (vm', Panicked)
  | (vm', Looping) => (vm', Looping)
  | (vm', Aborted) => (vm', Aborted)
  end.
Definition lget : LM Vm := fun vm => (vm, Ret vm).
Definition lexec {A} (m : Exec A) : LM A := fun vm =>
  (vm, match m with
       | Done a => Ret a
       | Raise e => Raised e
       | Crash => Panicked
       | Diverge => Looping
       end).

(** A fault of a container. *)
Definition fault_outcome {A} (e : Fault) : Outcome A :=
  match e with
  | AllocAbort => Aborted
  | Panic | TryReserveError => Panicked
  end.

Notation "'let+' x := m 'in' k" := (lbind m (fun x => k))
  (at level 10, x pattern, m at level 100, k at level 200) : ruau_scope.

(** [for x in l { f(x)? }]. *)
Fixpoint lfor {X} (f : X -> LM unit) (l : list X) : LM unit :=
  match l with
  | [] => lret tt
  | x :: l' => let+ _ := f x in lfor f l'
  end.

(** ** Gas and memory *)

Definition err_gas {A} : LM A := lraise "instruction budget exhausted".
Definition err_memory_limit {A} : LM A := lraise "memory limit exceeded".

Definition u64_sat_add (x y : Z) : Z := Z.min 18446744073709551615 (x + y).

Definition tick_gas : LM bool := fun vm =>
  match gas vm with
  | Some 0 => (vm, Ret false)
  | Some remaining => (set_gas (Some (remaining - 1)) (u64_sat_add (gas_spent vm) 1) vm, Ret true)
  | None => (vm, Ret true)
  end.

Definition charge_gas (units : Z) : LM bool := fun vm =>
  match gas vm with
  | Some remaining =>
      if remaining <? units
      then (set_gas (Some 0) (u64_sat_add (gas_spent vm) remaining) vm, Ret false)
      else (set_gas (Some (remaining - units)) (u64_sat_add (gas_spent vm) units) vm, Ret true)
  | None => (vm, Ret true)
  end.

(** [if !heap.tick_gas() { return Err(err_gas()); }] and the same for a bulk charge. *)
Definition tick : LM unit := let+ ok := tick_gas in if (ok : bool) then lret tt else err_gas.
Definition charge (units : Z) : LM unit := let+ ok := charge_gas units in if (ok : bool) then lret tt else err_gas.

Definition would_exceed_cap (vm : Vm) (additional : Z) : bool :=
  match memory_cap vm with
  | Some cap => cap <? usize_saturating_add (m_used (meter (vm_heap vm))) additional
  | None => false
  end.

(** [if heap.would_exceed_cap(bytes) { return Err(err_memory_limit()); }]. *)
Definition check_cap (bytes : Z) : LM unit :=
  let+ vm := lget in if would_exceed_cap vm bytes then err_memory_limit else lret tt.

Definition usize_saturating_mul (x y : Z) : Z := Z.min USIZE_MAX (x * y).

Section Heap.
Context {AL : Allocator} {MA : MapAllocator} {TS : TableSizes} {HS : HeapSizes}.

(** ** Tables *)

Definition put_table (i : Z) (t : LuaTable) (m : MemoryMeter) (h : Heap) : Heap :=
  let o := objects h in
  set_meter m (set_objects
    (mkStore (strings o) (Arena.alter_entry (set_value (Some t)) i (tables o)) (closures o) (userdata o)
       (threads o) (buffers o) (protos o) (upvals o)) h).

(** [heap.table_mut(handle)], the write barrier included, and the update of the table it
    borrows; [missing] is the error of the [ok_or_else] that follows every use. An update that
    needs memory the allocator refuses ends the process. *)
Definition table_mut {A} (handle : RawGc) (missing : string)
  (f : LuaTable -> MemoryMeter -> result Fault ((LuaTable * MemoryMeter) * A)) : LM A := fun vm =>
  let h := vm_heap vm in
  if negb (gc_heap handle =? h_id h) then (vm, Raised missing)
  else
    let h := Gc.remember (GTable (gc_index handle)) h in
    match Arena.get (tables (objects h)) (gc_index handle) (gc_generation handle) with
    | None => (set_heap h vm, Raised missing)
    | Some t =>
        match f t (meter h) with
        | Ok ((t', m'), a) => (set_heap (put_table (gc_index handle) t' m' h) vm, Ret a)
        | Err e => (set_heap h vm, fault_outcome e)
        end
    end.

Definition table_of (vm : Vm) (handle : RawGc) : option LuaTable := heap_table (vm_heap vm) handle.

(** [alloc_table]: the new table starts uncharged with a meter of its own. The keyed
    hasher that [attach_hash_builder] gives it has no counterpart: it only orders the buckets of
    the key index, which no operation observes (the slots are in the order of insertion). *)
Definition alloc_table (t : LuaTable) (fail : string) : LM RawGc := fun vm =>
  let h := vm_heap vm in
  let '(t', _, m1) := LuaTable.attach_meter t meter_default (meter h) in
  let '((a, m2), r) := Arena.alloc size_tables t' (tables (objects h)) m1 in
  let o := objects h in
  let h' := set_meter m2 (set_objects
              (mkStore (strings o) a (closures o) (userdata o) (threads o) (buffers o) (protos o) (upvals o)) h) in
  match r with
  | Ok (i, g) => (set_heap h' vm, Ret (mkGc i g (h_id h)))
  | Err TryReserveError => (set_heap h' vm, Raised fail)
  | Err e => (set_heap h' vm, fault_outcome e)
  end.

(** [intern_str]: the existing handle, or a new string whose bytes and interner entry are
    charged. *)
Definition intern_str (bytes : list Z) (fail : string) : LM RawGc := fun vm =>
  let h := vm_heap vm in
  match interner_lookup h bytes with
  | Some handle => (vm, Ret handle)
  | None =>
      let '((a, m1), r) := Arena.alloc size_strings bytes (strings (objects h)) (meter h) in
      let o := objects h in
      let h1 := set_objects
                  (mkStore a (tables o) (closures o) (userdata o) (threads o) (buffers o) (protos o) (upvals o)) h in
      match r with
      | Ok (i, g) =>
          let handle := mkGc i g (h_id h) in
          let m2 := RustVec.charge (RustVec.charge m1 (len bytes)) (len bytes + size_InternerEntry) in
          (set_heap (set_interner (<[bytes := handle]> (interner h)) (set_meter m2 h1)) vm, Ret handle)
      | Err TryReserveError => (set_heap (set_meter m1 h1) vm, Raised fail)
      | Err e => (set_heap (set_meter m1 h1) vm, fault_outcome e)
      end
  end.

End Heap.

(** ** Lua code *)

Class LuaCode : Type := {
  call_value : RawValue -> list RawValue -> LM (list RawValue);
  userdata_metatable : Vm -> RawGc -> option RawGc;
}.

(** The truth value of the first result. *)
Definition first_result (results : list RawValue) : RawValue := default VNil (head results).

(** ** Metamethods (tm.rs) *)

Inductive MetaEvent : Set :=
| MIndex | MNewIndex | MAdd | MSub | MMul | MDiv | MIDiv | MMod | MPow | MUnm | MEq | MLt | MLe
| MLen | MCall | MConcat | MToString | MIter.

Definition event_index (e : MetaEvent) : nat :=
  match e with
  | MIndex => 0 | MNewIndex => 1 | MAdd => 2 | MSub => 3 | MMul => 4 | MDiv => 5 | MIDiv => 6
  | MMod => 7 | MPow => 8 | MUnm => 9 | MEq => 10 | MLt => 11 | MLe => 12 | MLen => 13
  | MCall => 14 | MConcat => 15 | MToString => 16 | MIter => 17
  end.

Definition type_name (value : RawValue) : string :=
  match value with
  | VNil => "nil"
  | VBoolean _ => "boolean"
  | VNumber _ => "number"
  | VInteger _ => "integer"
  | VVector _ _ _ => "vector"
  | VString _ => "string"
  | VTable _ => "table"
  | VFunction _ => "function"
  | VUserdata _ | VLightUserdata _ _ => "userdata"
  | VThread _ => "thread"
  | VBuffer _ => "buffer"
  end.

Section Meta.
Context {LC : LuaCode}.

Definition metatable_of (vm : Vm) (value : RawValue) : option RawGc :=
  match value with
  | VTable handle => table_of vm handle ≫= metatable
  | VString _ => string_metatable (vm_heap vm)
  | VVector _ _ _ => vector_metatable (vm_heap vm)
  | VUserdata handle => userdata_metatable vm handle
  | _ => None
  end.

(** The names are interned when the heap is built; an absent one raises. *)
Definition get_metamethod (value : RawValue) (event : MetaEvent) : LM (option RawValue) :=
  let+ vm := lget in
  match metatable_of vm value with
  | None => lret None
  | Some mt =>
      match metamethod_names (vm_heap vm) !! event_index event with
      | None => lpanic
      | Some None => lraise "out of memory interning a metamethod name"
      | Some (Some key) =>
          let handler := match table_of vm mt with
                         | Some t => LuaTable.get t (VString key)
                         | None => VNil
                         end in
          lret (if is_nil handler then None else Some handler)
      end
  end.

(** ** Comparison (execute/mod.rs) *)

Definition matching_metamethod (a b : RawValue) (event : MetaEvent) : LM (option RawValue) :=
  let+ h1 := get_metamethod a event in
  match h1 with
  | None => lret None
  | Some h1 =>
      let+ h2 := get_metamethod b event in
      match h2 with
      | None => lret None
      | Some h2 => lret (if raw_equal h1 h2 then Some h1 else None)
      end
  end.

Definition call_compare (handler lhs rhs : RawValue) : LM bool :=
  let+ results := call_value handler [lhs; rhs] in lret (truthy (first_result results)).

Definition string_bytes (vm : Vm) (h : RawGc) : list Z := default [] (heap_string (vm_heap vm) h).

(** [lhs.cmp(rhs).is_lt()] on byte slices. *)
Fixpoint bytes_lt (a b : list Z) : bool :=
  match a, b with
  | _, [] => false
  | [], _ :: _ => true
  | x :: a', y :: b' => (x <? y) || ((x =? y) && bytes_lt a' b')
  end.

Definition numeric_f64 (value : RawValue) : option Z :=
  match value with
  | VNumber n => Some n
  | VInteger i => Some (f64_of_i64 i)
  | _ => None
  end.

(** The discriminants of the enumeration. *)
Definition tag (value : RawValue) : Z :=
  match value with
  | VNil => 0 | VBoolean _ => 1 | VNumber _ => 2 | VInteger _ => 3 | VVector _ _ _ => 4
  | VLightUserdata _ _ => 5 | VString _ => 6 | VTable _ => 7 | VFunction _ => 8 | VUserdata _ => 9
  | VThread _ => 10 | VBuffer _ => 11
  end.
Definition same_tag (lhs rhs : RawValue) : bool := tag lhs =? tag rhs.

Definition order_error (op : string) (lhs rhs : RawValue) : string :=
  "attempt to compare " +:+ type_name lhs +:+ " " +:+ op +:+ " " +:+ type_name rhs.

Definition less_than_op (lhs rhs : RawValue) : LM bool :=
  let metamethod :=
    if negb (same_tag lhs rhs) then lraise (order_error "<" lhs rhs)
    else
      let+ handler := matching_metamethod lhs rhs MLt in
      match handler with
      | Some h => call_compare h lhs rhs
      | None => lraise (order_error "<" lhs rhs)
      end in
  match lhs, rhs with
  | VNumber a, VNumber b => lret (f64_lt a b)
  | VString a, VString b => let+ vm := lget in lret (bytes_lt (string_bytes vm a) (string_bytes vm b))
  | _, _ =>
      match numeric_f64 lhs, numeric_f64 rhs with
      | Some a, Some b => lret (f64_lt a b)
      | _, _ => metamethod
      end
  end.

End Meta.

(** ** Arguments (builtins/common.rs) *)

Definition arg (args : list RawValue) (i : nat) : RawValue := default VNil (args !! i).

Definition arg_int (args : list RawValue) (i : nat) : option Z :=
  match args !! i with
  | Some (VNumber n) => Some (f64_as_i64 n)
  | Some (VInteger i) => Some i
  | _ => None
  end.
