(* ===== verification/TableLib.v ===== *)
(** * TableLib: the [table] library

    Model of [ruau-vm/src/builtins/table_lib.rs], every function but [table.concat], whose
    result depends on the rendering of numbers. A [for] loop over a range is [lfor] over the
    list of its indices; a [while] loop whose end depends on the table or on a callback takes
    fuel. *)

From Stdlib Require Import ZArith Lia.
From stdpp Require Import base numbers list strings option gmap.
From S2P Require Import Prelude RustExec RustVec Arena Value LuaTable GcObjects Gc LibHeap.

(** [a..=b] and [a..b]. *)
Definition range_incl (a b : Z) : list Z := seqZ a (b - a + 1).
Definition range_excl (a b : Z) : list Z := seqZ a (b - a).

(** [usize::try_from(x).unwrap_or(usize::MAX)]. *)
Definition usize_or_max (x : Z) : Z := if x <? 0 then USIZE_MAX else x.

(** Slices: the update of an element, and [split_at_mut]. *)
Definition store {A} (l : list A) (i : Z) (x : A) : Exec (list A) :=
  if (0 <=? i) && (i <? len l) then Done (zalter (fun _ => x) i l) else Crash.
Definition split_at {A} (l : list A) (mid : Z) : Exec (list A * list A) :=
  if mid <=? len l then Done (take (Z.to_nat mid) l, drop (Z.to_nat mid) l) else Crash.

(** The size of [(i64, RawValue)]. *)
Class TableLibSizes : Type := { size_IndexedValue : Z }.
Definition I64_SIZE : Z := 8.

(** The bytes of ["__metatable"] and ["n"]. *)
Definition METATABLE_KEY : list Z := [95; 95; 109; 101; 116; 97; 116; 97; 98; 108; 101].
Definition N_KEY : list Z := [110].

Section TableLib.
Context {AL : Allocator} {MA : MapAllocator} {TS : TableSizes} {HS : HeapSizes} {LS : TableLibSizes} {LC : LuaCode}.

(** ** Elements *)

Definition index_key (i : Z) : RawValue := VNumber (f64_of_i64 i).

Definition get_index (vm : Vm) (handle : RawGc) (i : Z) : RawValue :=
  match table_of vm handle with
  | Some t => LuaTable.get t (index_key i)
  | None => VNil
  end.

Definition set_key (handle : RawGc) (key value : RawValue) : LM unit :=
  table_mut handle "table not resident"
    (fun t m => let? r := LuaTable.set t m key value in Ok (r.1, tt)).

Definition set_index (handle : RawGc) (i : Z) (value : RawValue) : LM unit := set_key handle (index_key i) value.

Definition is_readonly (vm : Vm) (handle : RawGc) : bool :=
  match table_of vm handle with Some t => readonly t | None => false end.

Definition require_writable (handle : RawGc) : LM unit :=
  let+ vm := lget in
  if is_readonly vm handle then lraise "attempt to modify a readonly table" else lret tt.

Definition length_of (vm : Vm) (handle : RawGc) : Z :=
  match table_of vm handle with Some t => LuaTable.table_length t | None => 0 end.

Definition bad_table (n : Z) (name : string) : string :=
  "bad argument #" +:+ show n +:+ " to 'table." +:+ name +:+ "' (table expected)".

Definition arg_table (args : list RawValue) (i : nat) (name : string) : LM RawGc :=
  match arg args i with
  | VTable handle => lret handle
  | _ => lraise (bad_table (Z.of_nat i + 1) name)
  end.

(** [t[to] = t[from]]. *)
Definition move_one (src dst : RawGc) (from to : Z) : LM unit :=
  let+ vm := lget in set_index dst to (get_index vm src from).

(** ** Insertion and removal *)

Definition table_insert (args : list RawValue) : LM (list RawValue) :=
  let+ handle := arg_table args 0 "insert" in
  let+ _ := require_writable handle in
  let+ vm := lget in
  let n := as_i64 (length_of vm handle) in
  match args with
  | [_; value] => let+ _ := set_index handle (as_i64 (n + 1)) value in lret []
  | [_; _; value] =>
      match arg_int args 1 with
      | None => lraise "bad argument #2 to 'table.insert'"
      | Some pos =>
          let+ _ := (if (1 <=? pos) && (pos <=? as_i64 (n + 1))
                     then lfor (fun i => move_one handle handle i (i + 1)) (rev (range_incl pos n))
                     else lret tt) in
          let+ _ := set_index handle pos value in
          lret []
      end
  | _ => lraise "wrong number of arguments to 'table.insert'"
  end.

Definition table_remove (args : list RawValue) : LM (list RawValue) :=
  let+ handle := arg_table args 0 "remove" in
  let+ vm := lget in
  let n := as_i64 (length_of vm handle) in
  let pos := default n (arg_int args 1) in
  if negb ((1 <=? pos) && (pos <=? n)) then lret []
  else
    let+ _ := require_writable handle in
    let+ vm := lget in
    let removed := get_index vm handle pos in
    let+ _ := lfor (fun i => move_one handle handle (i + 1) i) (range_excl pos n) in
    let+ _ := set_index handle n VNil in
    lret [removed].

(** ** Size, freezing, copying *)

Definition scan_len_of (vm : Vm) (handle : RawGc) : Z :=
  match table_of vm handle with Some t => LuaTable.scan_len t | None => 0 end.

Definition table_getn (args : list RawValue) : LM (list RawValue) :=
  let+ handle := arg_table args 0 "getn" in
  let+ vm := lget in
  lret [VNumber (f64_of_u64 (length_of vm handle))].

Definition table_maxn (args : list RawValue) : LM (list RawValue) :=
  let+ handle := arg_table args 0 "maxn" in
  let+ vm := lget in
  let+ _ := charge (scan_len_of vm handle) in
  let+ vm := lget in
  lret [VNumber (match table_of vm handle with Some t => LuaTable.maxn t | None => 0 end)].

(** The protection field of a metatable. *)
Definition metatable_protection (mt : RawGc) : LM (option RawValue) :=
  let+ key := intern_str METATABLE_KEY "out of memory interning __metatable" in
  let+ vm := lget in
  lret (match table_of vm mt with
        | Some t => let v := LuaTable.get t (VString key) in if is_nil v then None else Some v
        | None => None
        end).

(** The table behind a handle, for a function that fails without it. *)
Definition resident (handle : RawGc) (missing : string) : LM LuaTable :=
  let+ vm := lget in
  match table_of vm handle with Some t => lret t | None => lraise missing end.

(** [if let Some(metatable) = .. && metatable_protection(..)?.is_some() { return Err(..) }]. *)
Definition reject_protected (mt : option RawGc) (message : string) : LM unit :=
  match mt with
  | None => lret tt
  | Some mt =>
      let+ protection := metatable_protection mt in
      match protection with Some _ => lraise message | None => lret tt end
  end.

Definition set_readonly (t : LuaTable) : LuaTable :=
  mkTable (array t) (hash t) (index t) (index_capacity t) (metatable t) true (safeenv t) (t_charged t).

Definition table_freeze (args : list RawValue) : LM (list RawValue) :=
  let+ handle := arg_table args 0 "freeze" in
  let+ t := resident handle "table.freeze on a non-resident table" in
  let+ _ := reject_protected (metatable t) "cannot freeze a table with a protected metatable" in
  let+ frozen := table_mut handle "table.freeze on a non-resident table"
                   (fun t m => Ok (if readonly t then ((t, m), true) else ((set_readonly t, m), false))) in
  if (frozen : bool) then lraise "bad argument #1 to 'table.freeze' (table is already frozen)"
  else lret [VTable handle].

Definition table_isfrozen (args : list RawValue) : LM (list RawValue) :=
  let+ handle := arg_table args 0 "isfrozen" in
  let+ vm := lget in
  lret [VBoolean (is_readonly vm handle)].

(** The copy's index reports the capacity the map allocator gives that many entries. *)
Definition table_clone (args : list RawValue) : LM (list RawValue) :=
  let+ handle := arg_table args 0 "clone" in
  let+ t := resident handle "table.clone on a non-resident table" in
  let+ _ := reject_protected (metatable t) "cannot clone a table with a protected metatable" in
  let+ t := resident handle "table.clone on a non-resident table" in
  let+ _ := check_cap (LuaTable.footprint t) in
  let+ vm := lget in
  let+ _ := charge (scan_len_of vm handle) in
  let+ t := resident handle "table.clone on a non-resident table" in
  match LuaTable.shallow_clone t (map_settle (Z.of_nat (size (index t))) 0) with
  | Err e => fun vm => (vm, fault_outcome e)
  | Ok clone =>
      let+ new := alloc_table clone "out of memory for 'table.clone'" in
      lret [VTable new]
  end.

Definition table_clear (args : list RawValue) : LM (list RawValue) :=
  let+ handle := arg_table args 0 "clear" in
  let+ frozen := table_mut handle "table.clear on a non-resident table"
                   (fun t m => Ok (if readonly t then ((t, m), true) else (LuaTable.clear t m, false))) in
  if (frozen : bool) then lraise "attempt to modify a readonly table" else lret [].

(** ** Iteration *)

Definition foreach_function (args : list RawValue) (name : string) : LM RawValue :=
  match arg args 1 with
  | VFunction f => lret (VFunction f)
  | _ => lraise ("bad argument #2 to 'table." +:+ name +:+ "' (function expected)")
  end.

(** Every round but the last finds a pair, so the fuel is the number of slots. *)
Fixpoint snapshot_loop (fuel : nat) (handle : RawGc) (key : RawValue) (pairs : list (RawValue * RawValue))
  : LM (list (RawValue * RawValue)) :=
  match fuel with
  | O => lloop
  | S fuel' =>
      let+ _ := tick in
      let+ vm := lget in
      match table_of vm handle with
      | None => lret pairs
      | Some t =>
          match LuaTable.next t key with
          | NPair k v => snapshot_loop fuel' handle k (pairs ++ [(k, v)])
          | NDone | NInvalidKey => lret pairs
          end
      end
  end.

Definition snapshot_pairs (handle : RawGc) : LM (list (RawValue * RawValue)) :=
  let+ vm := lget in
  snapshot_loop (S (Z.to_nat (scan_len_of vm handle))) handle VNil [].

(** Calls [f] on each pair until a call returns a value other than [nil]. *)
Fixpoint call_each (f : RawValue) (pairs : list (RawValue * RawValue)) : LM (list RawValue) :=
  match pairs with
  | [] => lret []
  | (k, v) :: pairs' =>
      let+ results := call_value f [k; v] in
      let first := first_result results in
      if negb (is_nil first) then lret [first] else call_each f pairs'
  end.

Definition table_foreach (args : list RawValue) : LM (list RawValue) :=
  let+ handle := arg_table args 0 "foreach" in
  let+ func := foreach_function args "foreach" in
  let+ vm := lget in
  let+ _ := check_cap (match table_of vm handle with Some t => LuaTable.footprint t | None => 0 end) in
  let+ pairs := snapshot_pairs handle in
  call_each func pairs.

(** The element is read when its turn comes. *)
Fixpoint call_eachi (f : RawValue) (handle : RawGc) (l : list Z) : LM (list RawValue) :=
  match l with
  | [] => lret []
  | i :: l' =>
      let+ vm := lget in
      let+ results := call_value f [index_key i; get_index vm handle i] in
      let first := first_result results in
      if negb (is_nil first) then lret [first] else call_eachi f handle l'
  end.

Definition table_foreachi (args : list RawValue) : LM (list RawValue) :=
  let+ handle := arg_table args 0 "foreachi" in
  let+ func := foreach_function args "foreachi" in
  let+ vm := lget in
  call_eachi func handle (range_incl 1 (as_i64 (length_of vm handle))).

(** ** Packing and unpacking *)

Definition table_pack (args : list RawValue) : LM (list RawValue) :=
  let+ _ := charge (len args) in
  let+ table := alloc_table LuaTable.new "out of memory for 'table.pack'" in
  let+ _ := lfor (fun p => set_index table (p.1 + 1) p.2) (imap (fun i v => (Z.of_nat i, v)) args) in
  let+ n_key := intern_str N_KEY "out of memory for 'table.pack'" in
  let+ _ := set_key table (VString n_key) (VNumber (f64_of_u64 (len args))) in
  lret [VTable table].

(** The loop of [table_unpack]; the counter wraps like an [i64]. *)
Fixpoint unpack_loop (fuel : nat) (vm : Vm) (handle : RawGc) (k j : Z) (out : list RawValue) : Exec (list RawValue) :=
  match fuel with
  | O => Diverge
  | S fuel' =>
      if k <=? j then unpack_loop fuel' vm handle (as_i64 (k + 1)) j (out ++ [get_index vm handle k])
      else Done out
  end.

Definition table_unpack (args : list RawValue) : LM (list RawValue) :=
  let+ handle := arg_table args 0 "unpack" in
  let i := default 1 (arg_int args 1) in
  let+ vm := lget in
  let j := default (as_i64 (length_of vm handle)) (arg_int args 2) in
  if j <? i then lret []
  else
    let count := usize_or_max (as_i64 (as_i64 (j - i) + 1)) in
    if max_table_elements vm <? count then lraise "too many results to unpack"
    else
      let+ _ := check_cap (LibHeap.usize_saturating_mul count size_RawValue) in
      let+ _ := charge count in
      let+ vm := lget in
      lexec (unpack_loop (S (Z.to_nat (j - i + 1))) vm handle i j []).

(** [vec![value; count]]. *)
Definition repeated (value : RawValue) (count : Z) : result Fault (Vec RawValue) :=
  match try_reserve size_RawValue (vec_new (A := RawValue)) count with
  | Some v => Ok (mkVec (replicate (Z.to_nat count) value) (capacity v))
  | None => Err AllocAbort
  end.

Definition table_create (args : list RawValue) : LM (list RawValue) :=
  match arg_int args 0 with
  | None => lraise "bad argument #1 to 'table.create' (number expected)"
  | Some count =>
      if count <? 0 then lraise "bad argument #1 to 'table.create' (positive number expected)"
      else
        let+ vm := lget in
        if max_table_elements vm <? count then lraise "table.create count is too large"
        else
          let+ _ := check_cap (LibHeap.usize_saturating_mul count size_RawValue) in
          match repeated (arg args 1) count with
          | Err e => fun vm => (vm, fault_outcome e)
          | Ok v =>
              let+ handle := alloc_table (LuaTable.with_array v) "out of memory for 'table.create'" in
              lret [VTable handle]
          end
  end.

(** ** Searching *)

Definition table_find_value_matches (lhs rhs : RawValue) : LM bool :=
  let comparable := match lhs, rhs with
                    | VTable _, VTable _ | VUserdata _, VUserdata _ => true
                    | _, _ => false
                    end in
  if negb comparable then lret (raw_equal lhs rhs)
  else
    let+ lhs_eq := get_metamethod lhs MEq in
    match lhs_eq with
    | None => lret (raw_equal lhs rhs)
    | Some lhs_eq =>
        let+ rhs_eq := get_metamethod rhs MEq in
        match rhs_eq with
        | None => lret (raw_equal lhs rhs)
        | Some rhs_eq =>
            if negb (raw_equal lhs_eq rhs_eq) then lret (raw_equal lhs rhs)
            else let+ result := call_value lhs_eq [lhs; rhs] in lret (truthy (first_result result))
        end
    end.

Fixpoint find_loop (fuel : nat) (handle : RawGc) (needle : RawValue) (i : Z) : LM (list RawValue) :=
  match fuel with
  | O => lloop
  | S fuel' =>
      let+ _ := tick in
      let+ vm := lget in
      let value := get_index vm handle i in
      if is_nil value then lret [VNil]
      else
        let+ found := table_find_value_matches value needle in
        if (found : bool) then lret [index_key i]
        else if i =? I64_MAX then lret [VNil]
        else find_loop fuel' handle needle (i + 1)
  end.

(** An [__eq] metamethod may extend the table for ever, so the fuel is the caller's. *)
Definition table_find (fuel : nat) (args : list RawValue) : LM (list RawValue) :=
  let+ handle := arg_table args 0 "find" in
  let init := default 1 (arg_int args 2) in
  if init <? 1 then lraise "bad argument #3 to 'table.find' (index out of range)"
  else find_loop fuel handle (arg args 1) init.

(** ** Sorting *)

Definition sort_less (comp a b : RawValue) : LM bool :=
  let+ _ := tick in
  match comp with
  | VFunction _ => let+ results := call_value comp [a; b] in lret (truthy (first_result results))
  | _ => less_than_op a b
  end.

(** The first [while] of the merge. *)
Fixpoint merge_loop (fuel : nat) (comp : RawValue) (mid n : Z) (elems : list RawValue) (i j k : Z)
  (scratch : list RawValue) : LM (Z * Z * Z * list RawValue) :=
  match fuel with
  | O => lloop
  | S fuel' =>
      if (i <? mid) && (j <? n) then
        let+ ej := lexec (RustExec.index elems j) in
        let+ ei := lexec (RustExec.index elems i) in
        let+ less := sort_less comp ej ei in
        if (less : bool) then
          let+ scratch := lexec (store scratch k ej) in
          merge_loop fuel' comp mid n elems i (j + 1) (k + 1) scratch
        else
          let+ scratch := lexec (store scratch k ei) in
          merge_loop fuel' comp mid n elems (i + 1) j (k + 1) scratch
      else lret (i, j, k, scratch)
  end.

(** The other two: the rest of one half. *)
Fixpoint copy_rest (fuel : nat) (elems : list RawValue) (i stop k : Z) (scratch : list RawValue)
  : Exec (Z * list RawValue) :=
  match fuel with
  | O => Diverge
  | S fuel' =>
      if i <? stop then
        let! x := RustExec.index elems i in
        let! scratch := store scratch k x in
        copy_rest fuel' elems (i + 1) stop (k + 1) scratch
      else Done (k, scratch)
  end.

(** The sorted elements and the scratch space; the recursion halves the slice. *)
Fixpoint merge_sort (fuel : nat) (comp : RawValue) (elems scratch : list RawValue)
  : LM (list RawValue * list RawValue) :=
  match fuel with
  | O => lloop
  | S fuel' =>
      let n := len elems in
      if n <=? 1 then lret (elems, scratch)
      else
        let mid := n / 2 in
        let+ (l, r) := lexec (split_at elems mid) in
        let+ (sl, sr) := lexec (split_at scratch mid) in
        let+ (l, sl) := merge_sort fuel' comp l sl in
        let+ (r, sr) := merge_sort fuel' comp r sr in
        let elems := l ++ r in
        let scratch := sl ++ sr in
        let+ (i, j, k, scratch) := merge_loop (S (length elems)) comp mid n elems 0 mid 0 scratch in
        let+ (k, scratch) := lexec (copy_rest (S (length elems)) elems i mid k scratch) in
        let+ (k, scratch) := lexec (copy_rest (S (length elems)) elems j n k scratch) in
        if len scratch <? n then lpanic
        else lret (take (Z.to_nat n) scratch, scratch)
  end.

Definition table_sort (args : list RawValue) : LM (list RawValue) :=
  let+ handle := arg_table args 0 "sort" in
  let+ _ := require_writable handle in
  let comp := arg args 1 in
  if negb (match comp with VNil | VFunction _ => true | _ => false end)
  then lraise "bad argument #2 to 'table.sort' (function expected)"
  else
    let+ vm := lget in
    let n := length_of vm handle in
    if max_table_elements vm <? n then lraise "table is too large to sort"
    else
      let+ _ := check_cap (LibHeap.usize_saturating_mul n (2 * size_RawValue)) in
      let+ vm := lget in
      let elems := get_index vm handle <$> range_incl 1 n in
      let scratch := replicate (length elems) VNil in
      let+ (elems, _) := merge_sort (S (length elems)) comp elems scratch in
      let+ _ := lfor (fun p => set_index handle (p.1 + 1) p.2) (imap (fun i v => (Z.of_nat i, v)) elems) in
      lret [].

(** ** Moving *)

Record TableMoveRange : Set := mkRange { mr_first : Z; mr_last : Z; mr_target : Z }.

Definition table_live_entry_count (handle : RawGc) : LM Z :=
  let+ t := resident handle "table not resident" in lret (len (LuaTable.for_each_entry t)).

Definition integer_key_in_range (key : RawValue) (first last : Z) : option Z :=
  match key with
  | VInteger i => if (first <=? i) && (i <=? last) then Some i else None
  | VNumber n =>
      match f64_integral n with
      | Some _ => if f64_le (f64_of_i64 first) n && f64_le n (f64_of_i64 last) then Some (f64_as_i64 n) else None
      | None => None
      end
  | _ => None
  end.

Definition checked_usize (x : Z) : option Z := if x <=? USIZE_MAX then Some x else None.

(** [i64::try_from(x)] on an [i128]. *)
Definition i64_try_from (x : Z) : option Z := if (I64_MIN <=? x) && (x <=? I64_MAX) then Some x else None.

(** [Vec::new()] and [try_reserve_exact(n)]; only its failure shows. *)
Definition reserve_exact (size n : Z) : LM unit :=
  match try_reserve size (vec_new (A := Z)) n with
  | Some _ => lret tt
  | None => err_memory_limit
  end.

Definition sparse_table_move (src dst : RawGc) (range : TableMoveRange) (src_entries dst_entries : Z) : LM unit :=
  match checked_usize (src_entries * size_IndexedValue), checked_usize (dst_entries * I64_SIZE) with
  | Some src_bytes, Some dst_bytes =>
      match checked_usize (src_bytes + dst_bytes) with
      | None => err_memory_limit
      | Some temporary_bytes =>
          let+ _ := check_cap temporary_bytes in
          let+ _ := reserve_exact size_IndexedValue src_entries in
          let+ t := resident src "table not resident" in
          let source := omap (fun kv => (fun i => (i, kv.2)) <$>
                          integer_key_in_range kv.1 (mr_first range) (mr_last range)) (LuaTable.for_each_entry t) in
          let span := mr_last range - mr_first range in
          match i64_try_from (mr_target range + span) with
          | None => lraise "destination wrap around"
          | Some target_last =>
              let+ _ := reserve_exact I64_SIZE dst_entries in
              let+ t := resident dst "table not resident" in
              let destination_keys :=
                omap (fun kv => integer_key_in_range kv.1 (mr_target range) target_last) (LuaTable.for_each_entry t) in
              let work := usize_saturating_add (usize_saturating_add (usize_saturating_add src_entries dst_entries)
                            (len source)) (len destination_keys) in
              let+ _ := charge work in
              let+ _ := lfor (fun i => set_index dst i VNil) destination_keys in
              lfor (fun p =>
                      match i64_try_from (mr_target range + (p.1 - mr_first range)) with
                      | None => lraise "destination wrap around"
                      | Some destination => set_index dst destination p.2
                      end) source
          end
      end
  | _, _ => err_memory_limit
  end.

Definition INT_MAX : Z := 2147483647.

Definition move_arg (args : list RawValue) (i : nat) : LM Z :=
  match arg_int args i with
  | Some x => lret x
  | None => lraise ("bad argument #" +:+ show (Z.of_nat i + 1) +:+ " to 'table.move' (number expected)")
  end.

(** The element-by-element copy. *)
Definition dense_move (src dst : RawGc) (a b t : Z) : LM (list RawValue) :=
  let span := as_i64 (b - a) in
  let count := if span <? 0 then USIZE_MAX else span + 1 in
  let+ vm := lget in
  if max_table_elements vm <? count then lraise "too many elements to move"
  else
    let+ _ := check_cap (LibHeap.usize_saturating_mul count size_RawValue) in
    let+ _ := charge count in
    let overlaps := bool_decide (src = dst) && (a <? t) && (t <=? b) in
    let offsets := if overlaps then rev (range_incl 0 span) else range_incl 0 span in
    let+ _ := lfor (fun o => move_one src dst (as_i64 (a + o)) (as_i64 (t + o))) offsets in
    lret [VTable dst].

Definition table_move (args : list RawValue) : LM (list RawValue) :=
  let+ src := arg_table args 0 "move" in
  let+ a := move_arg args 1 in
  let+ b := move_arg args 2 in
  let+ t := move_arg args 3 in
  let+ dst := match arg args 4 with
              | VTable handle => lret handle
              | VNil => lret src
              | _ => lraise "bad argument #5 to 'table.move' (table expected)"
              end in
  if b <? a then lret [VTable dst]
  else
    let+ _ := require_writable dst in
    if negb ((0 <? a) || (b <? INT_MAX + a)) then lraise "too many elements to move"
    else
      let n := b - a + 1 in
      if INT_MAX - n + 1 <? t then lraise "destination wrap around"
      else if 32 <? n then
        let+ src_entries := table_live_entry_count src in
        let+ dst_entries := (if bool_decide (src = dst) then lret src_entries else table_live_entry_count dst) in
        if Z.max src_entries dst_entries <? n / 2 then
          let+ _ := sparse_table_move src dst (mkRange a b t) src_entries dst_entries in
          lret [VTable dst]
        else dense_move src dst a b t
      else dense_move src dst a b t.

End TableLib.
