(* ===== verification/LibHeapFacts.v ===== *)
(** * LibHeapFacts: a program logic for builtins, and what writing a table does

    [wp m vm Q E]: started on [vm] the builtin [m] neither panics nor loops; a returned value
    satisfies [Q], a raised error [E], and the process ends only when the allocator refused a
    request ([ends] excludes that, too). [at_key vm u k] is the value of table [u] under a normalized key; [set_key_spec]
    says that a write changes it at one key of one table and keeps everything a program can
    observe besides ([same_frame]), the write barrier included. *)

From Stdlib Require Import ZArith Lia.
From stdpp Require Import base numbers list strings option gmap.
From S2P Require Import Prelude RustExec RustVec Arena ArenaFacts Value LuaTable LuaTableFacts LuaTableTheorems GcObjects Gc LibHeap TableLib.

(** ** Weakest preconditions *)

(** What holds when a computation ends the process. *)
Class OnAbort : Type := on_abort : Prop.

Section Wp.
Context {OA : OnAbort}.

Definition outcome_ok {A} (vm : Vm) (o : Outcome A) (Q : Vm -> A -> Prop) (E : Vm -> string -> Prop) : Prop :=
  match o with
  | Ret a => Q vm a
  | Raised e => E vm e
  | Panicked | Looping => False
  | Aborted => on_abort
  end.

Definition wp {A} (m : LM A) (vm : Vm) (Q : Vm -> A -> Prop) (E : Vm -> string -> Prop) : Prop :=
  outcome_ok (m vm).1 (m vm).2 Q E.

Lemma wp_ret {A} (a : A) vm (Q : Vm -> A -> Prop) E : Q vm a -> wp (lret a) vm Q E.
Proof. done. Qed.

Lemma wp_raise {A} e vm (Q : Vm -> A -> Prop) (E : Vm -> string -> Prop) : E vm e -> wp (lraise e) vm Q E.
Proof. done. Qed.

Lemma wp_get vm (Q : Vm -> Vm -> Prop) E : Q vm vm -> wp lget vm Q E.
Proof. done. Qed.

Lemma wp_exec {A} (m : Exec A) a vm (Q : Vm -> A -> Prop) E : m = Done a -> Q vm a -> wp (lexec m) vm Q E.
Proof. intros -> H. exact H. Qed.

Lemma wp_bind {A B} (m : LM A) (k : A -> LM B) vm Q E :
  wp m vm (fun vm' a => wp (k a) vm' Q E) E -> wp (lbind m k) vm Q E.
Proof. unfold wp, lbind. by destruct (m vm) as [vm' []]. Qed.

Lemma wp_mono {A} (m : LM A) vm (Q Q' : Vm -> A -> Prop) (E E' : Vm -> string -> Prop) :
  wp m vm Q E -> (forall vm' a, Q vm' a -> Q' vm' a) -> (forall vm' e, E vm' e -> E' vm' e) -> wp m vm Q' E'.
Proof. unfold wp. destruct (m vm) as [vm' []]; cbn; eauto. Qed.

Lemma wp_lfor {X} (f : X -> LM unit) l vm (I : nat -> Vm -> Prop) E :
  (forall i x vm', l !! i = Some x -> I i vm' -> wp (f x) vm' (fun vm'' _ => I (S i) vm'') E) ->
  I 0%nat vm -> wp (lfor f l) vm (fun vm' _ => I (length l) vm') E.
Proof.
  revert vm I. induction l as [|x l IH]; intros vm I Hf HI; [done|].
  cbn [lfor length]. apply wp_bind. eapply wp_mono; [exact (Hf 0%nat x vm eq_refl HI)| |done].
  intros vm' [] H1. apply (IH vm' (fun i => I (S i))); [|done]. intros i y vm'' Hy. exact (Hf (S i) y vm'' Hy).
Qed.

Lemma wp_charge vm units Q E :
  (forall g spent, Q (set_gas g spent vm) tt) ->
  (gas vm <> None -> forall g spent e, E (set_gas g spent vm) e) -> wp (charge units) vm Q E.
Proof.
  intros HQ HE. unfold charge, wp, lbind, charge_gas. destruct (gas vm) as [r|] eqn:Eg.
  - destruct (r <? units); cbn; [by apply HE|apply HQ].
  - cbn. specialize (HQ (gas vm) (gas_spent vm)). destruct vm; exact HQ.
Qed.

Lemma wp_check_cap vm bytes (Q : Vm -> unit -> Prop) (E : Vm -> string -> Prop) :
  Q vm tt -> (memory_cap vm <> None -> forall e, E vm e) -> wp (check_cap bytes) vm Q E.
Proof.
  intros HQ HE. unfold check_cap. apply wp_bind, wp_get. unfold would_exceed_cap.
  destruct (memory_cap vm); [|by apply wp_ret]. case_match; [by apply wp_raise, HE|by apply wp_ret].
Qed.
End Wp.

(** [m] returns or raises, whatever the allocator does: the process does not end in it. *)
Definition ends {A} (m : LM A) (vm : Vm) (Q : Vm -> A -> Prop) (E : Vm -> string -> Prop) : Prop :=
  wp (OA := False) m vm Q E.

(** The other reading, which [wp] stands for by default: the process ends only because the
    allocator refused an infallible request. No law of allocators implies that one was refused. *)
Section Refusal.
Context {AL : Allocator} {MA : MapAllocator}.

Definition refused : Prop :=
  (exists size need cap, grow size need cap = None) \/ (exists n cap, map_insert n cap = None).

#[export] Instance refused_on_abort : OnAbort | 100 := refused.

(** A refused reservation is a refusal. *)
Lemma try_reserve_refused {A} size (v : Vec A) n : try_reserve size v n = None -> refused.
Proof. unfold try_reserve. case_match; [done|]. case_match; [done|]. intros _. left. eauto. Qed.

End Refusal.

#[export] Hint Resolve wp_ret wp_raise wp_get : ruau.

(** ** Writing into a table *)

Section Tables.
Context {AL : Allocator} {MA : MapAllocator} {TS : TableSizes} {HS : HeapSizes}.

Lemma push_fails {A} size (v : Vec A) x e : push size v x = Err e -> e = AllocAbort /\ refused.
Proof.
  unfold push. destruct (try_reserve size v 1) eqn:Er; [done|]. intros [= <-]. split; [done|].
  by eapply try_reserve_refused.
Qed.

Lemma hash_set_fails t norm key value e : LuaTable.hash_set t norm key value = Err e -> e = AllocAbort /\ refused.
Proof.
  unfold LuaTable.hash_set. case_match; [done|]. case_match; [done|].
  destruct (push size_HashSlot _ _) as [h|e'] eqn:Ep; cbn [result_bind]; [|intros [= <-]; by eapply push_fails].
  destruct (map_insert _ _) eqn:Em; [done|]. intros [= <-]. split; [done|]. right. eauto.
Qed.

Lemma absorb_fails fuel t e : LuaTable.absorb fuel t = Err e -> e = AllocAbort /\ refused.
Proof.
  revert t. induction fuel as [|fuel IH]; intros t; [done|]. cbn [LuaTable.absorb].
  case_match; [|done]. case_match; [|done].
  destruct (push size_RawValue _ _) as [a|e'] eqn:Ep; cbn [result_bind]; [apply IH|intros [= <-]; by eapply push_fails].
Qed.

(** A write fails only when the allocator refuses. *)
Lemma set_fails t m key value e : LuaTable.set t m key value = Err e -> e = AllocAbort /\ refused.
Proof.
  unfold LuaTable.set. destruct (LuaTable.set_inner t key value) as [r|e'] eqn:Es; [done|]. intros [= <-]. revert Es.
  unfold LuaTable.set_inner. destruct (normalize_key key) as [norm|]; [|done].
  assert ((let? t' := LuaTable.hash_set t norm key value in Ok (t', true)) = Err e' -> e' = AllocAbort /\ refused) as Hh.
  { destruct (LuaTable.hash_set t norm key value) eqn:Eh; [done|]. intros [= <-]. by eapply hash_set_fails. }
  destruct norm as [|i| | | | |]; try exact Hh. destruct (LuaTable.array_slot t i); [done|].
  destruct ((1 <=? i) && (i =? len (LuaTable.arr t) + 1) && negb (is_nil value)); [|exact Hh].
  destruct (push size_RawValue _ _) as [a|e''] eqn:Ep; cbn [result_bind]; [|intros [= <-]; by eapply push_fails].
  destruct (LuaTable.absorb_from_hash _) as [t'|e''] eqn:Ea; cbn [result_bind]; [done|]. intros [= <-].
  by eapply absorb_fails.
Qed.

Lemma absorb_flags fuel t t' :
  LuaTable.absorb fuel t = Ok t' -> readonly t' = readonly t /\ metatable t' = metatable t.
Proof.
  revert t. induction fuel as [|fuel IH]; intros t; [by intros [= <-]|]. cbn [LuaTable.absorb].
  case_match; [|by intros [= <-]]. case_match; [|by intros [= <-]].
  destruct (push size_RawValue _ _) as [a|e']; cbn [result_bind]; [|done]. intros Ha. by apply IH in Ha.
Qed.

Lemma set_flags t m key value t' m' b :
  LuaTable.set t m key value = Ok ((t', m'), b) -> readonly t' = readonly t /\ metatable t' = metatable t.
Proof.
  unfold LuaTable.set. destruct (LuaTable.set_inner t key value) as [[t1 b1]|] eqn:Es; [|done]. cbn.
  assert (readonly t1 = readonly t /\ metatable t1 = metatable t) as [Hr Hm].
  { revert Es. unfold LuaTable.set_inner. destruct (normalize_key key) as [norm|]; [|by intros [= <- <-]].
    assert (forall r, (let? t' := LuaTable.hash_set t norm key value in Ok (t', true)) = Ok r ->
      readonly r.1 = readonly t /\ metatable r.1 = metatable t) as Hh.
    { intros r. unfold LuaTable.hash_set. case_match; [by intros [= <-]|]. case_match; [by intros [= <-]|].
      destruct (push size_HashSlot _ _); cbn [result_bind]; [|done]. case_match; [|done]. by intros [= <-]. }
    destruct norm as [|i| | | | |]; try (intros Es; exact (Hh _ Es)).
    destruct (LuaTable.array_slot t i); [by intros [= <- <-]|].
    destruct ((1 <=? i) && (i =? len (LuaTable.arr t) + 1) && negb (is_nil value)); [|intros Es; exact (Hh _ Es)].
    destruct (push size_RawValue _ _) as [a|]; cbn [result_bind]; [|done].
    destruct (LuaTable.absorb_from_hash _) as [t2|] eqn:Ea; cbn [result_bind]; [|done]. intros [= <- <-].
    unfold LuaTable.absorb_from_hash in Ea. by apply absorb_flags in Ea. }
  intros [= Heq <-]. rewrite <- Hr, <- Hm.
  revert Heq. unfold LuaTable.recharge. case_match; by intros [= <- <-].
Qed.

(** ** The heap around a write *)

Definition at_key (vm : Vm) (u : RawGc) (k : LuaKey) : RawValue :=
  match table_of vm u with Some t => LuaTable.get_norm t k | None => VNil end.

Definition tables_ok (vm : Vm) : Prop := forall u t, table_of vm u = Some t -> table_ok t.

Record same_frame (vm vm' : Vm) : Prop := {
  sf_id : h_id (vm_heap vm') = h_id (vm_heap vm);
  sf_resident u : is_Some (table_of vm' u) <-> is_Some (table_of vm u);
  sf_readonly u : readonly <$> table_of vm' u = readonly <$> table_of vm u;
  sf_metatable u : metatable <$> table_of vm' u = metatable <$> table_of vm u;
  sf_string s : heap_string (vm_heap vm') s = heap_string (vm_heap vm) s;
  sf_names : metamethod_names (vm_heap vm') = metamethod_names (vm_heap vm);
  sf_string_mt : string_metatable (vm_heap vm') = string_metatable (vm_heap vm);
  sf_gas : gas vm' = gas vm;
  sf_cap : memory_cap vm' = memory_cap vm;
  sf_limit : max_table_elements vm' = max_table_elements vm;
}.

#[export] Instance same_frame_preorder : PreOrder same_frame.
Proof.
  split; [by split|]. intros vm1 vm2 vm3 [] []. split; try congruence.
  intros u. by rewrite sf_resident1.
Qed.

Lemma heap_get_remember r h g :
  heap_table (Gc.remember r h) g = heap_table h g /\ heap_string (Gc.remember r h) g = heap_string h g.
Proof.
  assert (forall T (a : Arena T) i x j gen, Arena.get (Arena.gc_set_age i x a) j gen = Arena.get a j gen) as Hage.
  { intros T a i x j gen. unfold Arena.get, Arena.gc_set_age, Arena.alter_entry. cbn. unfold av_get, av_alter. cbn.
    rewrite zget_zalter_if. case_decide; [|done]. case_decide; [|done]. subst. by destruct (zget (items (inner (entries a))) j). }
  unfold Gc.remember. destruct (Gc.age h r); try done. case_match; [|done].
  unfold heap_table, heap_string, Gc.set_age. destruct r; cbn; rewrite ?Hage; done.
Qed.

(** The fields the barrier does not touch. *)
Lemma remember_fields r h :
  h_id (Gc.remember r h) = h_id h /\ meter (Gc.remember r h) = meter h /\ interner (Gc.remember r h) = interner h /\
  metamethod_names (Gc.remember r h) = metamethod_names h /\ string_metatable (Gc.remember r h) = string_metatable h.
Proof. unfold Gc.remember. destruct (Gc.age h r); try done. case_match; done. Qed.

Lemma heap_table_put h g t t' m u :
  heap_table h g = Some t ->
  heap_table (put_table (gc_index g) t' m h) u = if decide (u = g) then Some t' else heap_table h u.
Proof.
  unfold heap_table, put_table. cbn. destruct (Z.eqb_spec (gc_heap g) (h_id h)) as [Hg|]; [|done]. cbn.
  intros Ht. apply get_Some in Ht as [Hgen Hslot].
  case_decide as Hu.
  - subst u. rewrite Hg, Z.eqb_refl. cbn. apply get_Some. split; [exact Hgen|].
    rewrite slot_alter, decide_True by done. by destruct (slot _ _).
  - destruct (Z.eqb_spec (gc_heap u) (h_id h)) as [Hh|]; [|done]. cbn.
    unfold Arena.get. cbn. case_decide as Hge; [|done].
    change (av_get (entries (Arena.alter_entry (set_value (Some t')) (gc_index g) (tables (objects h)))) (gc_index u)
              ≫= e_value = av_get (entries (tables (objects h))) (gc_index u) ≫= e_value).
    pose proof (slot_alter (tables (objects h)) (set_value (Some t')) (gc_index g) (gc_index u)) as Hs.
    unfold slot in Hs. rewrite Hs, decide_False; [done|]. intros Hi. apply Hu.
    unfold gen in Hgen. rewrite <- Hi, Hgen in Hge. injection Hge as Hge.
    destruct u, g; cbn in *; congruence.
Qed.

(** An update of a table goes to its slot, the heap being otherwise only remembered. *)
Lemma table_mut_run {A} handle missing
  (f : LuaTable -> MemoryMeter -> result Fault ((LuaTable * MemoryMeter) * A)) vm t t' m' a :
  table_of vm handle = Some t -> f t (meter (vm_heap vm)) = Ok ((t', m'), a) ->
  exists vm', table_mut handle missing f vm = (vm', Ret a) /\
    vm' = set_heap (put_table (gc_index handle) t' m' (Gc.remember (GTable (gc_index handle)) (vm_heap vm))) vm /\
    forall u, table_of vm' u = if decide (u = handle) then Some t' else table_of vm u.
Proof.
  intros Ht Hf. unfold table_mut. set (h := vm_heap vm). set (h1 := Gc.remember (GTable (gc_index handle)) h).
  destruct (remember_fields (GTable (gc_index handle)) h) as (R1 & R2 & _). fold h1 in R1, R2.
  assert (forall u, heap_table h1 u = table_of vm u) as Htab by (intros; apply heap_get_remember).
  assert ((gc_heap handle =? h_id h) = true) as Hid.
  { unfold table_of, heap_table in Ht. fold h in Ht. by destruct (gc_heap handle =? h_id h). }
  rewrite Hid. cbn [negb].
  assert (heap_table h1 handle = Some t) as Ht1 by (by rewrite Htab).
  pose proof Ht1 as Ht2. unfold heap_table in Ht2. rewrite R1, Hid in Ht2. cbn [negb] in Ht2. rewrite Ht2, R2. fold h in Hf. rewrite Hf.
  eexists. split; [done|]. split; [done|]. intros u. unfold table_of at 1. cbn. rewrite (heap_table_put _ _ _ _ _ _ Ht1). by rewrite Htab.
Qed.

Lemma table_mut_spec {A} handle missing
  (f : LuaTable -> MemoryMeter -> result Fault ((LuaTable * MemoryMeter) * A)) vm t t' m' a :
  table_of vm handle = Some t -> f t (meter (vm_heap vm)) = Ok ((t', m'), a) ->
  readonly t' = readonly t -> metatable t' = metatable t ->
  exists vm', table_mut handle missing f vm = (vm', Ret a) /\ same_frame vm vm' /\
    forall u, table_of vm' u = if decide (u = handle) then Some t' else table_of vm u.
Proof.
  intros Ht Hf Hr Hm. destruct (table_mut_run handle missing f vm t t' m' a Ht Hf) as (vm' & Hrun & Hvm & Hput).
  exists vm'. split; [done|]. split; [|done].
  destruct (remember_fields (GTable (gc_index handle)) (vm_heap vm)) as (R1 & R2 & R3 & R4 & R5).
  split; try (rewrite Hvm; done || exact R1 || exact R4 || exact R5).
  - intros u. rewrite Hput. case_decide; [|done]. subst. rewrite Ht. split; by eexists.
  - intros u. rewrite Hput. case_decide; [|done]. subst. rewrite Ht. cbn. by rewrite Hr.
  - intros u. rewrite Hput. case_decide; [|done]. subst. rewrite Ht. cbn. by rewrite Hm.
  - rewrite Hvm. intros s. apply heap_get_remember.
Qed.

(** A write changes one table at one key; [g] is what the caller makes of its success. *)
Lemma table_set_spec {A} (g : bool -> A) handle missing key norm value vm :
  tables_ok vm -> is_Some (table_of vm handle) -> normalize_key key = Some norm ->
  wp (table_mut handle missing (fun t m => let? r := LuaTable.set t m key value in Ok (r.1, g r.2))) vm
    (fun vm' a => a = g true /\ tables_ok vm' /\ same_frame vm vm' /\
       forall u k, at_key vm' u k = if decide (u = handle /\ k = norm) then value else at_key vm u k)
    (fun _ _ => False).
Proof.
  intros Hok [t Ht] Hn. unfold wp.
  destruct (LuaTable.set t (meter (vm_heap vm)) key value) as [[[t' m'] b]|e] eqn:Es.
  - destruct (set_flags _ _ _ _ _ _ _ Es) as [Hr Hm].
    pose proof (set_spec t _ key value t' m' b (Hok _ _ Ht) Es) as Hs. rewrite Hn in Hs. destruct Hs as (-> & Hok' & _ & Hget).
    destruct (table_mut_spec handle missing
      (fun t m => let? r := LuaTable.set t m key value in Ok (r.1, g r.2)) vm t t' m' (g true) Ht) as (vm' & Hvm & Hf & Hu);
      [by rewrite Es|done|done|]. rewrite Hvm. cbn. split; [done|]. split; [|split; [done|]].
    + intros u t1. rewrite Hu. case_decide; [by intros [= <-]|apply Hok].
    + intros u k. unfold at_key. rewrite Hu. destruct (decide (u = handle)) as [->|Hne].
      * rewrite Ht, Hget. by destruct (decide (k = norm)) as [->|]; [rewrite !decide_True|rewrite !decide_False by tauto].
      * by rewrite decide_False by tauto.
  - destruct (set_fails _ _ _ _ _ Es) as [-> Href]. unfold table_mut.
    destruct (remember_fields (GTable (gc_index handle)) (vm_heap vm)) as (R1 & R2 & _).
    pose proof (proj1 (heap_get_remember (GTable (gc_index handle)) (vm_heap vm) handle)) as Hg.
    unfold table_of in Ht. rewrite Ht in Hg. unfold heap_table in Hg, Ht. rewrite R1 in Hg.
    destruct (gc_heap handle =? h_id (vm_heap vm)); [|done]. cbn [negb] in *. rewrite Hg, R2, Es. done.
Qed.

Lemma set_key_spec handle key norm value vm :
  tables_ok vm -> is_Some (table_of vm handle) -> normalize_key key = Some norm ->
  wp (set_key handle key value) vm
    (fun vm' _ => tables_ok vm' /\ same_frame vm vm' /\
       forall u k, at_key vm' u k = if decide (u = handle /\ k = norm) then value else at_key vm u k)
    (fun _ _ => False).
Proof.
  intros Hok Ht Hn. eapply wp_mono; [exact (table_set_spec (fun _ => tt) handle "table not resident" key norm value vm Hok Ht Hn)| |done].
  by intros vm' [] (_ & H).
Qed.

End Tables.
