(* ===== verification/TableLibFacts.v ===== *)
(** * TableLibFacts: sequences of element moves

    [table.insert], [table.remove] and [table.move] copy elements one by one between integer
    keys. [moves_spec] describes any such sequence in which no element is read after it has
    been overwritten; the three functions differ only in the order of their offsets. *)

From Stdlib Require Import ZArith Lia.
From stdpp Require Import base numbers list strings option gmap.
From S2P Require Import Prelude RustExec RustVec Arena Value Registry LuaTable LuaTableFacts LuaTableTheorems GcObjects Gc LibHeap TableLib LibHeapFacts.

(** The integers a double represents exactly. *)
Definition exact (i : Z) : Prop := -9007199254740992 < i < 9007199254740992.

Lemma f64_of_u64_range u : 0 <= u < 9007199254740992 -> 0 <= f64_of_u64 u < 9223372036854775808.
Proof.
  intros Hu. unfold f64_of_u64. destruct (Z.eqb_spec u 0) as [->|Hne]; [lia|].
  destruct (Z.log2_spec u ltac:(lia)) as [Hlo Hhi]. pose proof (Z.log2_nonneg u) as Hk0. set (k := Z.log2 u) in *.
  assert (k <= 52) as Hk.
  { assert (2 ^ k < 2 ^ 53) as H53 by (change (2 ^ 53) with 9007199254740992; lia).
    apply Z.pow_lt_mono_r_iff in H53; lia. }
  rewrite (proj2 (Z.leb_le _ _) Hk).
  assert (2 ^ k * 2 ^ (52 - k) = 4503599627370496) as Hp.
  { rewrite <- Z.pow_add_r by lia. by replace (k + (52 - k)) with 52 by lia. }
  assert (2 ^ Z.succ k = 2 * 2 ^ k) as Hs by (rewrite Z.pow_succ_r by lia; lia).
  assert (0 < 2 ^ (52 - k)) by (apply Z.pow_pos_nonneg; lia). nia.
Qed.

(** The sign bit negates. *)
Lemma f64_integral_neg b :
  0 <= b < 9223372036854775808 -> f64_integral (9223372036854775808 + b) = Z.opp <$> f64_integral b.
Proof.
  intros Hb. unfold f64_integral, f64_magnitude, f64_neg.
  assert (f64_exp (9223372036854775808 + b) = f64_exp b) as -> by (unfold f64_exp; zdm).
  assert (f64_man (9223372036854775808 + b) = f64_man b) as -> by (unfold f64_man; zdm).
  rewrite (proj2 (Z.leb_le 9223372036854775808 (9223372036854775808 + b))) by lia.
  rewrite (proj2 (Z.leb_gt 9223372036854775808 b)) by lia. by repeat case_match.
Qed.

Lemma f64_of_i64_integral i : exact i -> f64_integral (f64_of_i64 i) = Some i.
Proof.
  intros Hi. unfold exact in Hi. unfold f64_of_i64. destruct (Z.ltb_spec i 0).
  - rewrite f64_integral_neg by (apply f64_of_u64_range; lia). rewrite f64_of_u64_integral by lia. cbn. f_equal. lia.
  - apply f64_of_u64_integral. lia.
Qed.

Lemma integral_not_nan b z : f64_integral b = Some z -> f64_is_nan b = false.
Proof. unfold f64_is_nan, f64_integral, f64_magnitude. by destruct (f64_exp b =? 2047). Qed.

Lemma normalize_index_key i : exact i -> normalize_key (index_key i) = Some (LInteger i).
Proof.
  intros Hi. pose proof (f64_of_i64_integral i Hi) as HI. unfold exact in Hi.
  unfold index_key, normalize_key, key_rejection. rewrite (integral_not_nan _ _ HI), HI.
  rewrite (proj2 (Z.leb_le (-9223372036854775808) i)), (proj2 (Z.leb_le i 9223372036854775808)) by lia. cbn.
  unfold I64_MAX. by rewrite Z.min_l by lia.
Qed.

Lemma get_index_at vm handle i : exact i -> get_index vm handle i = at_key vm handle (LInteger i).
Proof.
  intros Hi. unfold get_index, at_key. destruct (table_of vm handle); [|done].
  unfold LuaTable.get. by rewrite normalize_index_key.
Qed.

Lemma lfor_ext {X} (f g : X -> LM unit) l : (forall x, x ∈ l -> f x = g x) -> lfor f l = lfor g l.
Proof.
  induction l as [|x l IH]; [done|]. intros H. cbn [lfor]. rewrite (H x) by apply list_elem_of_here.
  rewrite IH; [done|]. intros y Hy. apply H. by apply list_elem_of_further.
Qed.

Section Moves.
Context {AL : Allocator} {MA : MapAllocator} {TS : TableSizes} {HS : HeapSizes}.

Lemma set_index_spec handle i value vm :
  tables_ok vm -> is_Some (table_of vm handle) -> exact i ->
  wp (set_index handle i value) vm
    (fun vm' _ => tables_ok vm' /\ same_frame vm vm' /\
       forall u k, at_key vm' u k = if decide (u = handle /\ k = LInteger i) then value else at_key vm u k)
    (fun _ _ => False).
Proof. intros Hok Hr Hi. by apply set_key_spec; [..|apply normalize_index_key]. Qed.

(** The contents after copying [src[a + o]] to [dst[t + o]] for every offset of [l]. *)
Definition moved (vm : Vm) (src dst : RawGc) (a t : Z) (l : list Z) (u : RawGc) (k : LuaKey) : RawValue :=
  match k with
  | LInteger z => if decide (u = dst /\ z - t ∈ l) then at_key vm src (LInteger (a + (z - t))) else at_key vm u k
  | _ => at_key vm u k
  end.

Lemma moves_spec src dst a t l vm :
  tables_ok vm -> is_Some (table_of vm dst) ->
  (forall o, o ∈ l -> exact (a + o) /\ exact (t + o)) ->
  (forall (i j : nat) x y, (i < j)%nat -> l !! i = Some x -> l !! j = Some y -> src = dst -> a + y <> t + x) ->
  wp (lfor (fun o => move_one src dst (a + o) (t + o)) l) vm
    (fun vm' _ => tables_ok vm' /\ same_frame vm vm' /\ forall u k, at_key vm' u k = moved vm src dst a t l u k)
    (fun _ _ => False).
Proof.
  intros Hok Hres Hex Hread.
  set (I := fun n vm' => tables_ok vm' /\ same_frame vm vm' /\ forall u k, at_key vm' u k = moved vm src dst a t (take n l) u k).
  eapply wp_mono; [apply (wp_lfor _ _ _ I (fun _ _ => False))| |done].
  - intros n o vm' Hn (Hok' & Hf & Hat). destruct (Hex o (list_elem_of_lookup_2 _ _ _ Hn)) as [Ha Ht].
    unfold move_one. apply wp_bind, wp_get.
    assert (get_index vm' src (a + o) = at_key vm src (LInteger (a + o))) as ->.
    { rewrite get_index_at, Hat by done. unfold moved. destruct (decide _) as [[Hs Hin]|]; [|done]. exfalso.
      apply list_elem_of_lookup in Hin as [m Hm]. apply lookup_take_Some in Hm as [Hm Hlt].
      apply (Hread m n (a + o - t) o Hlt Hm Hn Hs). lia. }
    eapply wp_mono; [apply set_index_spec; [done|by apply (sf_resident _ _ Hf)|done]| |done].
    intros vm'' _ (Hok'' & Hf' & Hat'). split; [done|]. split; [by etransitivity|]. intros u k.
    rewrite Hat', Hat. rewrite (take_S_r _ _ _ Hn). unfold moved.
    destruct k as [|z| | | | |]; try (by rewrite decide_False by (by intros [_ ?])).
    destruct (decide (u = dst /\ LInteger z = LInteger (t + o))) as [[-> [= ->]]|Hne].
    + rewrite decide_True; [f_equal; f_equal; lia|]. split; [done|]. apply elem_of_app. right. apply list_elem_of_singleton. lia.
    + destruct (decide (u = dst /\ z - t ∈ take n l)) as [[-> Hin]|Hno].
      * rewrite decide_True; [done|]. split; [done|]. apply elem_of_app. by left.
      * rewrite decide_False; [done|]. intros [-> Hin]. apply elem_of_app in Hin as [Hin|Hin]; [by apply Hno|].
        apply list_elem_of_singleton in Hin. apply Hne. split; [done|]. f_equal. lia.
  - split; [done|]. split; [done|]. intros u k. rewrite take_0. unfold moved. destruct k; try done.
    rewrite decide_False; [done|]. intros [_ Hin]. by apply not_elem_of_nil in Hin.
  - intros vm' _ (H1 & H2 & H3). split; [done|]. split; [done|]. intros u k. rewrite H3. by rewrite firstn_all.
Qed.

End Moves.

Lemma elem_of_rev {A} (l : list A) x : x ∈ rev l <-> x ∈ l.
Proof. rewrite rev_alt. apply elem_of_reverse. Qed.

Lemma elem_of_range_incl a b x : x ∈ range_incl a b <-> a <= x <= b.
Proof. unfold range_incl. rewrite elem_of_seqZ. lia. Qed.

Lemma elem_of_range_excl a b x : x ∈ range_excl a b <-> a <= x < b.
Proof. unfold range_excl. rewrite elem_of_seqZ. lia. Qed.

Lemma lookup_range_incl a b i x : range_incl a b !! i = Some x -> x = a + Z.of_nat i.
Proof. unfold range_incl. intros H. apply lookup_seqZ in H. lia. Qed.

Lemma lookup_range_excl a b i x : range_excl a b !! i = Some x -> x = a + Z.of_nat i.
Proof. unfold range_excl. intros H. apply lookup_seqZ in H. lia. Qed.

Lemma lookup_rev_range_incl a b i x : rev (range_incl a b) !! i = Some x -> x = b - Z.of_nat i.
Proof.
  rewrite rev_alt. change (rev_append (range_incl a b) []) with (reverse (range_incl a b)).
  intros H. apply reverse_lookup_Some in H as [H Hlt]. unfold range_incl in *. rewrite length_seqZ in *.
  apply lookup_seqZ in H. lia.
Qed.

(** ** A machine with two tables, for examples *)

Section Sample.
#[local] Existing Instance exact_allocator.
#[local] Existing Instance doubling_map.
#[local] Existing Instance sizes64.

Definition lib_sizes : HeapSizes := {|
  size_strings := 40; size_tables := 160; size_closures := 56; size_userdata := 32;
  size_threads := 400; size_buffers := 48; size_protos := 200; size_upvals := 32;
  size_GcRef := 8; size_WeakEntry := 8; size_UpValHandle := 12; size_InternerEntry := 24;
  size_u32 := 4; size_Value := 16;
|}.

Definition two_tables (t0 t1 : LuaTable) : Arena LuaTable :=
  (Arena.alloc 160 t1 (Arena.alloc 160 t0 Arena.new meter_default).1.1 meter_default).1.1.

(** A machine with the tables of handles [th 0] and [th 1]. *)
Definition sample_vm (t0 t1 : LuaTable) (g : option Z) : Vm :=
  mkVm (mkHeap 1 (mkStore Arena.new (two_tables t0 t1) Arena.new Arena.new Arena.new Arena.new Arena.new Arena.new)
          (mkPayloads [] vec_new 0) Registry.new ∅ meter_default None None None [] 1000 0 0 0 vec_new 0 100000 false)
    g 0 None 1000.
Definition th (i : Z) : RawGc := mkGc i 0 1.

Definition sequence (l : list RawValue) : LuaTable := LuaTable.with_array (mkVec l (len l)).

Lemma sequence_ok l : table_ok (sequence l).
Proof.
  split; cbn.
  - intros k idx. by rewrite lookup_empty.
  - intros idx s v Hs. unfold zget in Hs. cbn in Hs. by destruct (_ <? _).
  - intros i idx. by rewrite lookup_empty.
Qed.

Lemma sample_table t0 t1 g u t : table_of (sample_vm t0 t1 g) u = Some t -> (u = th 0 /\ t = t0) \/ (u = th 1 /\ t = t1).
Proof.
  unfold table_of, heap_table. cbn [vm_heap sample_vm h_id objects tables].
  destruct (Z.eqb_spec (gc_heap u) 1) as [Hh|]; cbn [negb]; [|done]. destruct u as [i gen hp]. cbn in *. subst hp.
  unfold Arena.get. change (gens (two_tables t0 t1)) with (mkAccounted (mkVec [0; 0] 2) 8).
  change (entries (two_tables t0 t1)) with
    (mkAccounted (mkVec [mkEntry White Young (Some t0); mkEntry White Young (Some t1)] 2) 320).
  unfold av_get. cbn [inner items]. case_decide as Hg; [|done].
  apply zget_Some in Hg as [Hr Hg]. change (len [0; 0]) with 2 in Hr.
  assert (i = 0 \/ i = 1) as [-> | ->] by lia; cbn in Hg; injection Hg as <-; cbn; intros [= <-]; [left|right]; done.
Qed.

Lemma sample_tables_ok t0 t1 g : table_ok t0 -> table_ok t1 -> tables_ok (sample_vm t0 t1 g).
Proof. by intros H0 H1 u t [[_ ->]|[_ ->]]%sample_table. Qed.

(** Numbers. *)
Definition num (i : Z) : RawValue := index_key i.
End Sample.
