(* ===== verification/TableEdit.v ===== *)
(** * TableEdit: insertion, removal and unpacking of elements

    [table.insert] and [table.remove] shift the elements of a sequence; [table.unpack] reads
    them. The theorems state the contents of every table under every key after the call. *)

From Stdlib Require Import ZArith Lia.
From stdpp Require Import base numbers list strings option gmap.
From S2P Require Import Prelude RustExec RustVec Arena Value LuaTable LuaTableFacts LuaTableTheorems GcObjects Gc LibHeap TableLib LibHeapFacts TableLibFacts.

Lemma as_i64_small x : is_i64 x -> as_i64 x = x.
Proof. zcast. Qed.

Section Edit.
Context {AL : Allocator} {MA : MapAllocator} {TS : TableSizes} {HS : HeapSizes}.

(** Nothing but the contents of tables has changed, and they are [M]. *)
Definition contents_are (vm : Vm) (M : RawGc -> LuaKey -> RawValue) (vm' : Vm) : Prop :=
  tables_ok vm' /\ same_frame vm vm' /\ forall u k, at_key vm' u k = M u k.

(** A table the library may edit, of a length that doubles represent. *)
Definition editable (vm : Vm) (h : RawGc) : Prop :=
  tables_ok vm /\ (exists t, table_of vm h = Some t /\ readonly t = false) /\
  0 <= length_of vm h < 9007199254740991.

(** The elements with [value] put in at [pos]; out of the sequence it is a plain write. *)
Definition inserted (vm : Vm) (h : RawGc) (pos : Z) (value : RawValue) (u : RawGc) (k : LuaKey) : RawValue :=
  let n := length_of vm h in
  match k with
  | LInteger i =>
      if decide (u <> h) then at_key vm u k
      else if decide (i = pos) then value
      else if decide (1 <= pos <= n + 1 /\ pos < i <= n + 1) then at_key vm h (LInteger (i - 1))
      else at_key vm u k
  | _ => at_key vm u k
  end.

(** The elements without the one at [pos]. *)
Definition removed (vm : Vm) (h : RawGc) (pos : Z) (u : RawGc) (k : LuaKey) : RawValue :=
  let n := length_of vm h in
  match k with
  | LInteger i =>
      if decide (u <> h) then at_key vm u k
      else if decide (pos <= i < n) then at_key vm h (LInteger (i + 1))
      else if decide (i = n) then VNil
      else at_key vm u k
  | _ => at_key vm u k
  end.

Lemma wp_require_writable vm h Q E :
  is_readonly vm h = false -> Q vm tt -> wp (require_writable h) vm Q E.
Proof. intros Hr HQ. unfold require_writable. apply wp_bind, wp_get. by rewrite Hr. Qed.

Lemma editable_writable vm h : editable vm h -> is_readonly vm h = false.
Proof. intros (_ & (t & Ht & Hr) & _). unfold is_readonly. by rewrite Ht. Qed.

(** The last step of both functions is a write. *)
Lemma write_last vm vm1 h i value M :
  contents_are vm M vm1 -> is_Some (table_of vm h) -> exact i ->
  wp (set_index h i value) vm1
    (fun vm' _ => contents_are vm (fun u k => if decide (u = h /\ k = LInteger i) then value else M u k) vm')
    (fun _ _ => False).
Proof.
  intros (Hok & Hf & HM) Hr Hi.
  eapply wp_mono; [apply set_index_spec; [done|by apply (sf_resident _ _ Hf)|done]| |done].
  intros vm' _ (Hok' & Hf' & Hat). split; [done|]. split; [by etransitivity|]. intros u k. rewrite Hat.
  case_decide; [done|apply HM].
Qed.

Lemma contents_refl vm : tables_ok vm -> contents_are vm (at_key vm) vm.
Proof. by intros. Qed.

(** Shifting the elements from [pos] on up by one. *)
Lemma shift_up vm h pos :
  editable vm h -> 1 <= pos ->
  wp (lfor (fun i => move_one h h i (i + 1)) (rev (range_incl pos (length_of vm h)))) vm
    (fun vm' _ => contents_are vm (moved vm h h 0 1 (rev (range_incl pos (length_of vm h)))) vm')
    (fun _ _ => False).
Proof.
  intros (Hok & (t & Ht & _) & Hn) Hp.
  rewrite (lfor_ext _ (fun i => move_one h h (0 + i) (1 + i))) by (intros; f_equal; lia).
  apply moves_spec; [done|by eexists| |].
  - intros o Ho. rewrite elem_of_rev, elem_of_range_incl in Ho.
    unfold exact. lia.
  - intros i j x y Hij Hx Hy _. apply lookup_rev_range_incl in Hx, Hy. lia.
Qed.

Lemma shift_down vm h pos :
  editable vm h -> 1 <= pos ->
  wp (lfor (fun i => move_one h h (i + 1) i) (range_excl pos (length_of vm h))) vm
    (fun vm' _ => contents_are vm (moved vm h h 1 0 (range_excl pos (length_of vm h))) vm')
    (fun _ _ => False).
Proof.
  intros (Hok & (t & Ht & _) & Hn) Hp.
  rewrite (lfor_ext _ (fun i => move_one h h (1 + i) (0 + i))) by (intros; f_equal; lia).
  apply moves_spec; [done|by eexists| |].
  - intros o Ho. apply elem_of_range_excl in Ho. unfold exact. lia.
  - intros i j x y Hij Hx Hy _. apply lookup_range_excl in Hx, Hy. lia.
Qed.
End Edit.

(** No error. *)
Definition no_error (vm : Vm) (e : string) : Prop := False.

Section EditTheorems.
Context {AL : Allocator} {MA : MapAllocator} {TS : TableSizes} {HS : HeapSizes}.

Context (vm : Vm) (h : RawGc) (Hed : editable vm h).
Let n : Z := length_of vm h.

Lemma edit_facts :
  is_readonly vm h = false /\ tables_ok vm /\ is_Some (table_of vm h) /\ 0 <= n < 9007199254740991 /\
  as_i64 n = n /\ as_i64 (n + 1) = n + 1.
Proof using Hed.
  pose proof (editable_writable _ _ Hed) as Hw. pose proof Hed as (Hok & (t & Ht & _) & Hn). fold n in Hn.
  split_and!; try done; try lia; apply as_i64_small; unfold is_i64; lia.
Qed.

(** The case analysis of a comparison of contents. *)
Ltac contents_tac :=
  match goal with k : LuaKey |- _ => destruct k end;
  repeat match goal with |- context [decide ?P] => destruct (decide P) end; try naive_solver lia.

Lemma insert_append value :
  wp (table_insert [VTable h; value]) vm
    (fun vm' r => r = [] /\ contents_are vm (inserted vm h (n + 1) value) vm') no_error.
Proof using Hed.
  destruct edit_facts as (Hw & Hok & Hres & Hn & Hasn & Hasn1).
  unfold table_insert. apply wp_bind, wp_ret, wp_bind, wp_require_writable; [done|]. apply wp_bind, wp_get. cbv zeta.
  fold n. rewrite Hasn, Hasn1. apply wp_bind.
  eapply wp_mono; [apply (write_last vm vm h (n + 1) value (at_key vm)); [by apply contents_refl|done|unfold exact; lia]| |done].
  intros vm' [] (H1 & H2 & H3). apply wp_ret. split; [done|]. split; [done|]. split; [done|]. intros u k. rewrite H3.
  unfold inserted. fold n. contents_tac.
Qed.

(** The shift before the write, and the contents once the value is written. *)
Lemma insert_shift pos value :
  exists M, wp (if (1 <=? pos) && (pos <=? n + 1)
              then lfor (fun i => move_one h h i (i + 1)) (rev (range_incl pos n)) else lret tt) vm
              (fun vm' _ => contents_are vm M vm') no_error /\
            forall u k, (if decide (u = h /\ k = LInteger pos) then value else M u k) = inserted vm h pos value u k.
Proof using Hed.
  destruct edit_facts as (Hw & Hok & Hres & Hn & Hasn & Hasn1).
  destruct (decide (1 <= pos <= n + 1)) as [Hin|Hout].
  - rewrite (proj2 (Z.leb_le 1 pos)), (proj2 (Z.leb_le pos (n + 1))) by lia. cbn [andb].
    exists (moved vm h h 0 1 (rev (range_incl pos n))). split; [by apply shift_up; [|lia]|].
    intros u k. unfold inserted, moved. fold n. destruct k as [|i| | | | |]; try (by rewrite decide_False by (by intros [_ ?])).
    rewrite (decide_ext (u = h /\ i - 1 ∈ rev (range_incl pos n)) (u = h /\ pos <= i - 1 <= n))
      by (by rewrite elem_of_rev, elem_of_range_incl).
    repeat case_decide; naive_solver lia.
  - assert ((1 <=? pos) && (pos <=? n + 1) = false) as ->.
    { destruct (Z.leb_spec 1 pos), (Z.leb_spec pos (n + 1)); try done. lia. }
    exists (at_key vm). split; [by apply wp_ret, contents_refl|]. intros u k. unfold inserted. fold n. contents_tac.
Qed.

Lemma insert_at value pos_arg pos :
  arg_int [VTable h; pos_arg] 1 = Some pos -> exact pos ->
  wp (table_insert [VTable h; pos_arg; value]) vm
    (fun vm' r => r = [] /\ contents_are vm (inserted vm h pos value) vm') no_error.
Proof using Hed.
  intros Hpos Hex. destruct edit_facts as (Hw & Hok & Hres & Hn & Hasn & Hasn1).
  unfold table_insert. apply wp_bind, wp_ret, wp_bind, wp_require_writable; [done|]. apply wp_bind, wp_get. cbv zeta.
  change (arg_int [VTable h; pos_arg; value] 1) with (arg_int [VTable h; pos_arg] 1). rewrite Hpos.
  fold n. rewrite Hasn, Hasn1. apply wp_bind. destruct (insert_shift pos value) as (M & HM & Heq).
  eapply wp_mono; [exact HM| |done]. intros vm1 [] H1. apply wp_bind.
  eapply wp_mono; [by apply (write_last vm vm1 h pos value M)| |done].
  intros vm' [] (H2 & H3 & H4). apply wp_ret. split; [done|]. split; [done|]. split; [done|]. intros u k. by rewrite H4, Heq.
Qed.

Lemma remove_at pos_arg pos :
  arg_int [VTable h; pos_arg] 1 = Some pos -> exact pos ->
  wp (table_remove [VTable h; pos_arg]) vm
    (fun vm' r => if decide (1 <= pos <= n)
                  then r = [at_key vm h (LInteger pos)] /\ contents_are vm (removed vm h pos) vm'
                  else r = [] /\ vm' = vm) no_error.
Proof using Hed.
  intros Hpos Hex. destruct edit_facts as (Hw & Hok & Hres & Hn & Hasn & Hasn1).
  unfold table_remove. apply wp_bind, wp_ret, wp_bind, wp_get. cbv zeta. fold n. rewrite Hpos, Hasn. cbn [from_option id].
  destruct (decide (1 <= pos <= n)) as [Hin|Hout].
  - rewrite (proj2 (Z.leb_le 1 pos)), (proj2 (Z.leb_le pos n)) by lia. cbn [negb andb].
    apply wp_bind, wp_require_writable; [done|]. apply wp_bind, wp_get, wp_bind.
    eapply wp_mono; [by apply shift_down; [|lia]| |done]. intros vm1 [] H1. apply wp_bind.
    eapply wp_mono; [apply (write_last vm vm1 h n VNil); [exact H1|done|unfold exact; lia]| |done].
    intros vm' [] (H2 & H3 & H4). apply wp_ret. split; [by rewrite get_index_at|]. split; [done|]. split; [done|].
    intros u k. rewrite H4. unfold removed, moved. fold n. destruct k as [|i| | | | |]; try (by rewrite decide_False by (by intros [_ ?])).
    rewrite (decide_ext (u = h /\ i - 0 ∈ range_excl pos n) (u = h /\ pos <= i - 0 < n)) by (by rewrite elem_of_range_excl).
    repeat case_decide; first [naive_solver lia|f_equal; f_equal; lia].
  - assert ((1 <=? pos) && (pos <=? n) = false) as ->.
    { destruct (Z.leb_spec 1 pos), (Z.leb_spec pos n); try done. lia. }
    by apply wp_ret.
Qed.
End EditTheorems.

(** C36: on a writable table of length [n] [table.insert] appends or puts a value in at [pos],
    shifting the elements up; out of the sequence it is a plain write. [table.remove] returns
    the element at [pos] and shifts the later ones down, and does nothing out of the sequence.
    No call panics, loops or raises, every other key of every table keeps its value, and the
    process ends only when the allocator refuses memory. *)
Theorem table_edit_correct {AL : Allocator} {MA : MapAllocator} {TS : TableSizes} {HS : HeapSizes}
  vm h value pos_arg pos :
  editable vm h -> arg_int [VTable h; pos_arg] 1 = Some pos -> exact pos ->
  let n := length_of vm h in
  wp (table_insert [VTable h; value]) vm
    (fun vm' r => r = [] /\ contents_are vm (inserted vm h (n + 1) value) vm') no_error /\
  wp (table_insert [VTable h; pos_arg; value]) vm
    (fun vm' r => r = [] /\ contents_are vm (inserted vm h pos value) vm') no_error /\
  wp (table_remove [VTable h; pos_arg]) vm
    (fun vm' r => if decide (1 <= pos <= n)
                  then r = [at_key vm h (LInteger pos)] /\ contents_are vm (removed vm h pos) vm'
                  else r = [] /\ vm' = vm) no_error.
Proof. intros Hed Hpos Hex. split; [by apply insert_append|]. split; [by apply insert_at|by apply remove_at]. Qed.

Definition edit_vm : Vm := sample_vm (sequence [num 10; num 20; num 30]) (sequence []) None.

Lemma edit_vm_editable : editable edit_vm (th 0).
Proof.
  split; [apply sample_tables_ok; apply sequence_ok|]. split; [|by vm_compute].
  exists (sequence [num 10; num 20; num 30]). split; [by vm_compute|done].
Qed.

Lemma table_edit_correct_witness :
  exact 2 /\
  wp (OA := refused_on_abort (AL := exact_allocator) (MA := doubling_map))
    (table_insert (AL := exact_allocator) (MA := doubling_map) (TS := sizes64) (HS := lib_sizes) [VTable (th 0); num 2; num 15]) edit_vm
    (fun vm' r => r = [] /\ contents_are edit_vm (inserted edit_vm (th 0) 2 (num 15)) vm') no_error /\
  inserted edit_vm (th 0) 2 (num 15) (th 0) (LInteger 3) = num 20.
Proof.
  split; [done|]. split; [|by vm_compute].
  exact (proj1 (proj2 (table_edit_correct (AL := exact_allocator) (MA := doubling_map) (TS := sizes64) (HS := lib_sizes)
    edit_vm (th 0) (num 15) (num 2) 2 edit_vm_editable ltac:(by vm_compute) ltac:(done)))).
Defined.

(** ** Unpacking *)

Section Unpack.
Context {AL : Allocator} {MA : MapAllocator} {TS : TableSizes} {HS : HeapSizes}.

Lemma unpack_loop_done fuel vm h k j out :
  -9223372036854775808 <= k -> j < 9223372036854775807 -> (Z.to_nat (j - k + 1) < fuel)%nat ->
  unpack_loop fuel vm h k j out = Done (out ++ (get_index vm h <$> range_incl k j)).
Proof.
  revert k out. induction fuel as [|fuel IH]; intros k out Hk Hj Hf; [lia|]. cbn [unpack_loop].
  destruct (Z.leb_spec k j).
  - rewrite as_i64_small by (unfold is_i64; lia). rewrite IH by lia. rewrite <- app_assoc. f_equal. f_equal.
    unfold range_incl. replace (j - k + 1) with (Z.succ (j - (k + 1) + 1)) by lia.
    rewrite (seqZ_cons k (Z.succ (j - (k + 1) + 1))) by lia. cbn. f_equal. f_equal. f_equal; lia.
  - unfold range_incl. rewrite seqZ_nil by lia. cbn. by rewrite app_nil_r.
Qed.

(** Charging gas touches nothing else. *)
(** A machine that differs in its gas only. *)
Definition same_but_gas (vm vm' : Vm) : Prop :=
  vm_heap vm' = vm_heap vm /\ memory_cap vm' = memory_cap vm /\ max_table_elements vm' = max_table_elements vm.
End Unpack.

(** [table.unpack] with bounds that doubles represent neither panics nor loops: it returns
    the values under the keys [i] to [j], in order, at most [max_table_elements] of them, or
    raises an error; the heap is unchanged either way. *)
Theorem table_unpack_correct {AL : Allocator} {MA : MapAllocator} {TS : TableSizes}
  vm h vi vj i j :
  arg_int [VTable h; vi; vj] 1 = Some i -> arg_int [VTable h; vi; vj] 2 = Some j -> exact i -> exact j ->
  wp (table_unpack [VTable h; vi; vj]) vm
    (fun vm' r => same_but_gas vm vm' /\ r = (fun k => at_key vm h (LInteger k)) <$> range_incl i j /\
                  (i <= j -> len r <= max_table_elements vm))
    (fun vm' _ => same_but_gas vm vm').
Proof.
  intros Hi Hj Hei Hej. unfold exact in Hei, Hej. unfold table_unpack. apply wp_bind, wp_ret. rewrite Hi, Hj. cbn [from_option id].
  apply wp_bind, wp_get. destruct (Z.ltb_spec j i).
  { apply wp_ret. unfold range_incl. rewrite seqZ_nil by lia. split; [done|]. split; [done|lia]. }
  rewrite (as_i64_small (j - i)), (as_i64_small (j - i + 1)) by (unfold is_i64; lia).
  unfold usize_or_max. rewrite (proj2 (Z.ltb_ge (j - i + 1) 0)) by lia.
  destruct (Z.ltb_spec (max_table_elements vm) (j - i + 1)); [by apply wp_raise|].
  apply wp_bind, wp_check_cap; [|done]. apply wp_bind, wp_charge; [|done].
  intros g spent. apply wp_bind, wp_get. eapply wp_exec; [by apply unpack_loop_done; lia|]. cbn [app].
  split; [done|]. split.
  - apply list_fmap_ext. intros n k Hk. apply lookup_range_incl in Hk as Hk'.
    assert (k ∈ range_incl i j) as Hin by (by eapply list_elem_of_lookup_2). apply elem_of_range_incl in Hin.
    rewrite get_index_at by (unfold exact; lia). done.
  - intros _. unfold len. rewrite length_fmap. unfold range_incl. rewrite length_seqZ. lia.
Qed.

Definition unpack_vm : Vm := sample_vm (sequence [num 10; num 20; num 30]) (sequence []) (Some 7).

Lemma table_unpack_correct_witness :
  arg_int [VTable (th 0); num 2; num 4] 2 = Some 4 /\
  wp (OA := refused_on_abort (AL := exact_allocator) (MA := doubling_map)) (table_unpack (TS := sizes64) [VTable (th 0); num 2; num 4]) unpack_vm
    (fun vm' r => same_but_gas unpack_vm vm' /\ r = (fun k => at_key unpack_vm (th 0) (LInteger k)) <$> range_incl 2 4 /\
                  (2 <= 4 -> len r <= max_table_elements unpack_vm)) (fun vm' _ => same_but_gas unpack_vm vm') /\
  (fun k => at_key unpack_vm (th 0) (LInteger k)) <$> range_incl 2 4 = [num 20; num 30; VNil].
Proof.
  split; [by vm_compute|]. split; [|by vm_compute].
  exact (table_unpack_correct (AL := exact_allocator) (MA := doubling_map) (TS := sizes64) unpack_vm (th 0) (num 2) (num 4) 2 4
    ltac:(by vm_compute) ltac:(by vm_compute) ltac:(done) ltac:(done)).
Defined.

(** The bits of [1e300]. *)
Definition HUGE : RawValue := VNumber 9094988921128908188.

(** A bound of [i64::MAX], which every large number saturates to, defeats the limits of
    [table.unpack]: the counter wraps, so the loop never ends, whatever the fuel. The checks
    before it are passed: [table.unpack(t, 1e300, 1e300)] is charged one unit of gas, and the
    count of the full range wraps to zero. *)
Theorem table_unpack_never_ends :
  (forall vm h fuel k out, is_i64 k -> unpack_loop fuel vm h k I64_MAX out = Diverge) /\
  (let (vm', r) := table_unpack (TS := sizes64) [VTable (th 0); HUGE; HUGE] (sample_vm (sequence []) (sequence []) (Some 7)) in
   r = Looping /\ gas vm' = Some 6) /\
  usize_or_max (as_i64 (as_i64 (I64_MAX - I64_MIN) + 1)) = 0.
Proof.
  split; [|split; [by vm_compute|by vm_compute]]. intros vm h fuel. induction fuel as [|fuel IH]; intros k out Hk; [done|].
  cbn [unpack_loop]. rewrite (proj2 (Z.leb_le k I64_MAX)) by (unfold is_i64, I64_MAX in *; lia).
  apply IH. zcast.
Qed.
