(* ===== verification/TableSort.v ===== *)
(** * TableSort: [table.sort] is a stable merge sort that survives its comparator

    The merge sort asks the comparator about pairs of elements, and the comparator may be any
    Lua function. [merged] and [msorted] are the runs of the algorithm under a relation [R]
    between the questions asked and the answers given. Whatever the answers are, a run
    permutes the elements; when they come from a strict weak order, the result is sorted and
    the order of equivalent elements is kept. *)

From Stdlib Require Import ZArith Lia.
From stdpp Require Import base numbers list strings option gmap sorting.
From S2P Require Import Prelude RustExec RustVec Arena Value LuaTable LuaTableFacts LuaTableTheorems GcObjects Gc LibHeap TableLib LibHeapFacts TableLibFacts TableEdit.

(** ** Runs of the algorithm *)

Section Runs.
Context {A : Type} (R : A -> A -> bool -> Prop).

(** Merging two lists; [R y x b]: asked whether [y], of the second list, is before [x], of
    the first, the comparator answered [b]. *)
Inductive merged : list A -> list A -> list A -> Prop :=
| merged_second r : merged [] r r
| merged_first l : merged l [] l
| merged_take_second x l y r out : R y x true -> merged (x :: l) r out -> merged (x :: l) (y :: r) (y :: out)
| merged_take_first x l y r out : R y x false -> merged l (y :: r) out -> merged (x :: l) (y :: r) (x :: out).

Inductive msorted : list A -> list A -> Prop :=
| msorted_short l : (length l <= 1)%nat -> msorted l l
| msorted_split l r ol or out : msorted l ol -> msorted r or -> merged ol or out -> msorted (l ++ r) out.

Lemma merged_perm l r out : merged l r out -> out ≡ₚ l ++ r.
Proof.
  induction 1 as [r|l|x l y r out _ _ IH|x l y r out _ _ IH]; cbn.
  - done.
  - by rewrite app_nil_r.
  - rewrite IH. cbn. rewrite Permutation_swap. constructor. by rewrite Permutation_middle.
  - by rewrite IH.
Qed.

Lemma msorted_perm l out : msorted l out -> out ≡ₚ l.
Proof. induction 1 as [|l r ol or out _ IHl _ IHr Hm]; [done|]. rewrite (merged_perm _ _ _ Hm). by f_equiv. Qed.
End Runs.

(** ** Strict weak orders *)

Record strict_weak {A} (lt : A -> A -> bool) : Prop := {
  sw_irrefl x : lt x x = false;
  sw_trans x y z : lt x y = true -> lt y z = true -> lt x z = true;
  sw_incomparable x y z : lt y x = false -> lt z y = false -> lt z x = false;
}.

Definition equivalent {A} (lt : A -> A -> bool) (x y : A) : bool := negb (lt x y) && negb (lt y x).

(** No later element is before an earlier one. *)
Definition ordered {A} (lt : A -> A -> bool) (l : list A) : Prop := StronglySorted (fun x y => lt y x = false) l.

Section Order.
Context {A : Type} (lt : A -> A -> bool) (Hsw : strict_weak lt).
Notation R := (fun x y b => b = lt x y).

Lemma lt_asym x y : lt x y = true -> lt y x = false.
Proof using Hsw.
  intros H. destruct (lt y x) eqn:E; [|done]. pose proof (sw_trans _ Hsw _ _ _ H E) as Hx. by rewrite (sw_irrefl _ Hsw) in Hx.
Qed.

Lemma Forall_merged P l r out : merged R l r out -> Forall P l -> Forall P r -> Forall P out.
Proof. intros Hm Hl Hr. rewrite (merged_perm _ _ _ _ Hm). by apply Forall_app. Qed.

Lemma merged_ordered l r out : merged R l r out -> ordered lt l -> ordered lt r -> ordered lt out.
Proof using Hsw.
  unfold ordered. induction 1 as [r|l|x l y r out Hb Hm IH|x l y r out Hb Hm IH]; intros Hl Hr; [done|done| |].
  - apply StronglySorted_inv in Hr as [Hr Hyr]. constructor; [by apply IH|]. symmetry in Hb. apply lt_asym in Hb as Hxy.
    apply StronglySorted_inv in Hl as [Hl Hxl]. eapply Forall_merged; [exact Hm| |done].
    constructor; [done|]. eapply Forall_impl; [exact Hxl|]. intros z Hz. by apply (sw_incomparable _ Hsw y x z).
  - apply StronglySorted_inv in Hl as [Hl Hxl]. constructor; [by apply IH|]. symmetry in Hb.
    apply StronglySorted_inv in Hr as [Hr Hyr]. eapply Forall_merged; [exact Hm|done|].
    constructor; [done|]. eapply Forall_impl; [exact Hyr|]. intros z Hz. by apply (sw_incomparable _ Hsw x y z).
Qed.

(** The elements equivalent to [z] keep their order. *)
Lemma merged_stable z l r out :
  merged R l r out -> ordered lt l ->
  filter (fun x => equivalent lt z x = true) out =
  filter (fun x => equivalent lt z x = true) l ++ filter (fun x => equivalent lt z x = true) r.
Proof using Hsw.
  induction 1 as [r|l|x l y r out Hb Hm IH|x l y r out Hb Hm IH]; intros Hl; [done|by rewrite app_nil_r| |].
  - rewrite filter_cons. rewrite (filter_cons _ y r). destruct (decide (equivalent lt z y = true)) as [Hzy|]; [|by apply IH].
    assert (filter (fun x => equivalent lt z x = true) (x :: l) = []) as Hnone.
    { apply elem_of_nil_inv. intros w Hw. apply list_elem_of_filter in Hw as [Hzw Hw].
      apply StronglySorted_inv in Hl as [_ Hl]. symmetry in Hb.
      assert (lt w x = false) as Hwx.
      { apply elem_of_cons in Hw as [->|Hw]; [apply (sw_irrefl _ Hsw)|]. rewrite Forall_forall in Hl. by apply Hl. }
      unfold equivalent in Hzy, Hzw. apply andb_true_iff in Hzy as [H1 H2], Hzw as [H3 H4].
      apply negb_true_iff in H1, H2, H3, H4.
      pose proof (sw_incomparable _ Hsw x w z Hwx H3) as H5.
      pose proof (sw_incomparable _ Hsw x z y H5 H2) as H6. congruence. }
    rewrite Hnone. cbn. f_equal. rewrite IH by done. by rewrite Hnone.
  - apply StronglySorted_inv in Hl as [Hl _]. rewrite !(filter_cons _ x). case_decide; cbn; [f_equal|]; by apply IH.
Qed.

Lemma msorted_ordered l out : msorted R l out -> ordered lt out.
Proof using Hsw.
  induction 1 as [l Hl|l r ol or out _ IHl _ IHr Hm]; [|by eapply merged_ordered].
  destruct l as [|x [|y l]]; [constructor|repeat constructor|cbn in Hl; lia].
Qed.

Lemma msorted_stable z l out :
  msorted R l out -> filter (fun x => equivalent lt z x = true) out = filter (fun x => equivalent lt z x = true) l.
Proof using Hsw.
  induction 1 as [l Hl|l r ol or out Hl IHl Hr IHr Hm]; [done|].
  rewrite (merged_stable z _ _ _ Hm) by (by eapply msorted_ordered). by rewrite IHl, IHr, filter_app.
Qed.
End Order.

(** ** The algorithm *)

Lemma store_spec {A} (l : list A) (k : nat) x :
  (k < length l)%nat ->
  exists l', store l (Z.of_nat k) x = Done l' /\ length l' = length l /\ take (S k) l' = take k l ++ [x].
Proof.
  intros Hk. unfold store. rewrite (proj2 (Z.leb_le 0 (Z.of_nat k))), (proj2 (Z.ltb_lt (Z.of_nat k) (len l))) by (unfold len; lia).
  cbn [andb]. eexists. split; [done|]. split; [apply length_zalter|].
  assert (zalter (fun _ => x) (Z.of_nat k) l !! k = Some x) as Hx.
  { rewrite <- zget_of_nat, zget_zalter, zget_of_nat.
    destruct (lookup_lt_is_Some_2 l k Hk) as [y ->]. done. }
  rewrite (take_S_r _ _ _ Hx). f_equal. unfold zalter. rewrite (proj2 (Z.ltb_ge (Z.of_nat k) 0)), Nat2Z.id by lia.
  apply list_eq. intros i. destruct (decide (i < k)%nat).
  - rewrite !lookup_take_lt by done. by rewrite list_lookup_alter_ne by lia.
  - by rewrite !lookup_take_ge by lia.
Qed.

Lemma copy_rest_spec fuel (elems : list RawValue) (i stop k : nat) s :
  (i <= stop <= length elems)%nat -> (k + (stop - i) <= length s)%nat -> (stop - i < fuel)%nat ->
  exists s', copy_rest fuel elems (Z.of_nat i) (Z.of_nat stop) (Z.of_nat k) s = Done (Z.of_nat (k + (stop - i)), s') /\
    length s' = length s /\ take (k + (stop - i)) s' = take k s ++ take (stop - i) (drop i elems).
Proof.
  revert i k s. induction fuel as [|fuel IH]; intros i k s Hi Hk Hf; [lia|]. cbn [copy_rest].
  destruct (Z.ltb_spec (Z.of_nat i) (Z.of_nat stop)).
  - destruct (lookup_lt_is_Some_2 elems i ltac:(lia)) as [x Hx].
    rewrite (proj2 (index_Done elems (Z.of_nat i) x)) by (by rewrite zget_of_nat). cbn [exec_bind].
    destruct (store_spec s k x ltac:(lia)) as (s1 & -> & Hl1 & Ht1). cbn [exec_bind].
    replace (Z.of_nat i + 1) with (Z.of_nat (S i)) by lia. replace (Z.of_nat k + 1) with (Z.of_nat (S k)) by lia.
    destruct (IH (S i) (S k) s1 ltac:(lia) ltac:(lia) ltac:(lia)) as (s2 & Hc & Hl2 & Ht2). exists s2.
    replace (k + (stop - i))%nat with (S k + (stop - S i))%nat by lia. split; [done|]. split; [lia|].
    rewrite Ht2, Ht1, <- app_assoc. f_equal. rewrite (drop_S _ _ _ Hx).
    replace (stop - i)%nat with (S (stop - S i)) by lia. done.
  - exists s. replace (stop - i)%nat with 0%nat by lia. rewrite Nat.add_0_r, take_0, app_nil_r. done.
Qed.

Section Sort.
Context {AL : Allocator} {MA : MapAllocator} {LC : LuaCode}.
Context (comp : RawValue) (J : Vm -> Prop) (R : RawValue -> RawValue -> bool -> Prop).
Context (Hless : forall x y vm, J vm -> wp (sort_less comp x y) vm (fun vm' b => J vm' /\ R x y b) (fun vm' _ => J vm')).

(** What the merge loop leaves: a prefix of the output, and one of the halves exhausted. *)
Lemma merge_loop_spec fuel (l r : list RawValue) (i j : nat) s vm :
  J vm -> (i <= length l)%nat -> (j <= length r)%nat -> length s = length (l ++ r) ->
  (length l - i + (length r - j) < fuel)%nat ->
  wp (merge_loop fuel comp (len l) (len (l ++ r)) (l ++ r) (Z.of_nat i) (Z.of_nat (length l + j)) (Z.of_nat (i + j)) s) vm
    (fun vm' out => J vm' /\ exists (i' j' : nat) s' o,
       out = (Z.of_nat i', Z.of_nat (length l + j'), Z.of_nat (i' + j'), s') /\
       (i' <= length l)%nat /\ (j' <= length r)%nat /\ (i' = length l \/ j' = length r) /\ length s' = length s /\
       take (i' + j') s' = take (i + j) s ++ o /\
       merged R (drop i l) (drop j r) (o ++ drop i' l ++ drop j' r))
    (fun vm' _ => J vm').
Proof using Hless.
  revert i j s vm. induction fuel as [|fuel IH]; intros i j s vm HJ Hi Hj Hs Hf; [lia|]. cbn [merge_loop].
  destruct (Z.ltb_spec (Z.of_nat i) (len l)) as [Hil|Hil]; unfold len in Hil.
  2: { cbn [andb]. apply wp_ret. split; [done|]. exists i, j, s, []. rewrite app_nil_r. split_and!; try done; [left; lia|].
       rewrite drop_ge by lia. constructor. }
  destruct (Z.ltb_spec (Z.of_nat (length l + j)) (len (l ++ r))) as [Hjr|Hjr]; unfold len in Hjr; rewrite length_app in Hjr; cbn [andb].
  2: { apply wp_ret. split; [done|]. exists i, j, s, []. rewrite app_nil_r. split_and!; try done; [right; lia|].
       rewrite (drop_ge r) by lia. cbn. rewrite app_nil_r. constructor. }
  destruct (lookup_lt_is_Some_2 l i ltac:(lia)) as [x Hx]. destruct (lookup_lt_is_Some_2 r j ltac:(lia)) as [y Hy].
  apply wp_bind. eapply wp_exec. { apply index_Done. rewrite zget_of_nat, lookup_app_r by lia.
    replace (length l + j - length l)%nat with j by lia. exact Hy. }
  apply wp_bind. eapply wp_exec. { apply index_Done. rewrite zget_of_nat. by apply lookup_app_l_Some. }
  apply wp_bind. eapply wp_mono; [by apply Hless| |done]. intros vm1 b [HJ1 Hb].
  rewrite length_app in Hs. rewrite (drop_S _ _ _ Hx), (drop_S _ _ _ Hy).
  destruct b; apply wp_bind.
  - destruct (store_spec s (i + j) y ltac:(lia)) as (s1 & Hst & Hl1 & Ht1). eapply wp_exec; [exact Hst|].
    replace (Z.of_nat (length l + j) + 1) with (Z.of_nat (length l + S j)) by lia.
    replace (Z.of_nat (i + j) + 1) with (Z.of_nat (i + S j)) by lia.
    eapply wp_mono; [apply IH; rewrite ?length_app; try done; lia| |done].
    intros vm2 out (HJ2 & i' & j' & s' & o & -> & H1 & H2 & H3 & H4 & H5 & H6). split; [done|].
    exists i', j', s', (y :: o). split_and!; try done; [lia| |].
    + rewrite H5, Nat.add_succ_r, Ht1, <- app_assoc. done.
    + cbn. constructor; [done|]. by rewrite (drop_S _ _ _ Hx) in H6.
  - destruct (store_spec s (i + j) x ltac:(lia)) as (s1 & Hst & Hl1 & Ht1). eapply wp_exec; [exact Hst|].
    replace (Z.of_nat i + 1) with (Z.of_nat (S i)) by lia.
    replace (Z.of_nat (i + j) + 1) with (Z.of_nat (S i + j)) by lia.
    eapply wp_mono; [apply IH; rewrite ?length_app; try done; lia| |done].
    intros vm2 out (HJ2 & i' & j' & s' & o & -> & H1 & H2 & H3 & H4 & H5 & H6). split; [done|].
    exists i', j', s', (x :: o). split_and!; try done; [lia| |].
    + rewrite H5. change (S i + j)%nat with (S (i + j)). rewrite Ht1, <- app_assoc. done.
    + cbn. constructor; [done|]. by rewrite (drop_S _ _ _ Hy) in H6.
Qed.

(** The rest of the halves: after the two copies the scratch space is the output. *)
Lemma merge_tail (l r : list RawValue) (i j : nat) s pre :
  (i <= length l)%nat -> (j <= length r)%nat -> (i = length l \/ j = length r) -> length s = length (l ++ r) ->
  take (i + j) s = pre ->
  exists k s1 s2, copy_rest (S (length (l ++ r))) (l ++ r) (Z.of_nat i) (len l) (Z.of_nat (i + j)) s = Done (k, s1) /\
    copy_rest (S (length (l ++ r))) (l ++ r) (Z.of_nat (length l + j)) (len (l ++ r)) k s1 = Done (len (l ++ r), s2) /\
    length s2 = length s /\ s2 = pre ++ drop i l ++ drop j r.
Proof.
  intros Hi Hj Hend Hs Hpre. rewrite length_app in Hs. unfold len.
  destruct (copy_rest_spec (S (length (l ++ r))) (l ++ r) i (length l) (i + j) s) as (s1 & -> & Hl1 & Ht1);
    [rewrite ?length_app; lia..|].
  destruct (copy_rest_spec (S (length (l ++ r))) (l ++ r) (length l + j) (length (l ++ r)) (i + j + (length l - i)) s1)
    as (s2 & Hc2 & Hl2 & Ht2); [rewrite ?length_app; lia..|].
  exists (Z.of_nat (i + j + (length l - i))), s1, s2. split; [done|]. split; [rewrite Hc2; do 2 f_equal; rewrite length_app; lia|].
  split; [lia|].
  assert (take (length l - i) (drop i (l ++ r)) = drop i l) as H1.
  { rewrite drop_app_le by lia. apply take_app_length'. rewrite length_drop. lia. }
  assert (take (length (l ++ r) - (length l + j)) (drop (length l + j) (l ++ r)) = drop j r) as H2.
  { rewrite drop_app_ge by lia. replace (length l + j - length l)%nat with j by lia.
    apply take_ge. rewrite length_drop, length_app. lia. }
  rewrite H1 in Ht1. rewrite H2, Ht1, Hpre, <- app_assoc in Ht2. rewrite <- Ht2. symmetry. apply take_ge.
  rewrite length_app. lia.
Qed.

Lemma split_at_half {A} (l : list A) mid :
  0 <= mid <= len l -> split_at l mid = Done (take (Z.to_nat mid) l, drop (Z.to_nat mid) l).
Proof. intros H. unfold split_at. by rewrite (proj2 (Z.leb_le _ _)) by lia. Qed.

(** The sort runs to an end, never out of bounds, and its result is a run under [R]. *)
Lemma merge_sort_spec fuel elems scratch vm :
  J vm -> length scratch = length elems -> (length elems < fuel)%nat ->
  wp (merge_sort fuel comp elems scratch) vm
    (fun vm' out => J vm' /\ msorted R elems out.1 /\ length out.1 = length elems /\ length out.2 = length elems)
    (fun vm' _ => J vm').
Proof using Hless.
  revert elems scratch vm. induction fuel as [|fuel IH]; intros elems scratch vm HJ Hs Hf; [lia|]. cbn [merge_sort].
  destruct (Z.leb_spec (len elems) 1) as [Hshort|Hlong]; unfold len in *.
  { apply wp_ret. split; [done|]. cbn. split; [constructor; lia|done]. }
  set (mid := Z.of_nat (length elems) / 2). assert (0 < mid < Z.of_nat (length elems)) as Hmid by (unfold mid; zdm).
  apply wp_bind. eapply wp_exec; [apply split_at_half; unfold len; lia|].
  apply wp_bind. eapply wp_exec; [apply split_at_half; unfold len; lia|].
  set (l := take (Z.to_nat mid) elems). set (r := drop (Z.to_nat mid) elems).
  assert (elems = l ++ r) as He by (symmetry; apply take_drop).
  assert (length l = Z.to_nat mid) as Hl by (unfold l; rewrite length_take; lia).
  assert (length r = length elems - Z.to_nat mid)%nat as Hr by (unfold r; by rewrite length_drop).
  apply wp_bind. eapply wp_mono; [apply IH; [done|rewrite length_take; lia|lia]| |done].
  intros vm1 [ol sl] (HJ1 & Hml & Hol & Hsl). cbn in Hml, Hol, Hsl.
  apply wp_bind. eapply wp_mono; [apply IH; [done|rewrite length_drop; lia|lia]| |done].
  intros vm2 [or sr] (HJ2 & Hmr & Hor & Hsr). cbn in Hmr, Hor, Hsr.
  assert (mid = len ol) as -> by (unfold len; lia).
  assert (Z.of_nat (length elems) = len (ol ++ or)) as -> by (unfold len; rewrite length_app; lia).
  apply wp_bind. replace (len ol) with (Z.of_nat (length ol + 0)) at 2 by (unfold len; lia).
  eapply wp_mono; [apply (merge_loop_spec _ ol or 0 0 (sl ++ sr)); [done|lia|lia|rewrite !length_app; lia|rewrite length_app; lia]| |done].
  intros vm3 out (HJ3 & i & j & s & o & -> & H1 & H2 & H3 & H4 & H5 & H6). cbn [take app] in H5. rewrite !length_app in H4.
  destruct (merge_tail ol or i j s o H1 H2 H3 ltac:(rewrite length_app; lia) H5) as (k & s1 & s2 & Hc1 & Hc2 & Hl2 & Hs2).
  apply wp_bind. eapply wp_exec; [exact Hc1|]. cbn beta iota. apply wp_bind. eapply wp_exec; [exact Hc2|]. cbn beta iota.
  rewrite (proj2 (Z.ltb_ge (Z.of_nat (length s2)) (len (ol ++ or)))) by (unfold len; rewrite length_app; lia).
  apply wp_ret. split; [done|]. cbn [fst snd]. rewrite take_ge by (unfold len; rewrite length_app; lia).
  split_and!; [|lia|lia]. rewrite He. econstructor; [done|done|]. rewrite !drop_0 in H6. by rewrite Hs2.
Qed.
End Sort.

(** Runs under a relation the elements make coarser. *)
Section Mono.
Context {A : Type} (R R' : A -> A -> bool -> Prop) (P : A -> Prop).
Context (HR : forall x y b, P x -> P y -> R x y b -> R' x y b).

Lemma merged_mono l r out : merged R l r out -> Forall P l -> Forall P r -> merged R' l r out.
Proof using HR.
  induction 1 as [r|l|x l y r out Hb Hm IH|x l y r out Hb Hm IH]; intros Hl Hr; [constructor|constructor| |];
    pose proof (Forall_inv Hl); pose proof (Forall_inv Hr); (constructor; [by apply HR|]);
    apply IH; eauto using Forall_inv_tail.
Qed.

Lemma msorted_mono l out : msorted R l out -> Forall P l -> msorted R' l out.
Proof using HR.
  induction 1 as [|l r ol or out Hl IHl Hr IHr Hm]; [by constructor|]. intros [Hfl Hfr]%Forall_app.
  econstructor; [by apply IHl|by apply IHr|]. eapply merged_mono; [done| |].
  - by rewrite (msorted_perm _ _ _ Hl).
  - by rewrite (msorted_perm _ _ _ Hr).
Qed.
End Mono.

(** ** The builtin *)

Definition elements (vm : Vm) (h : RawGc) : list RawValue :=
  (fun i => at_key vm h (LInteger i)) <$> range_incl 1 (length_of vm h).

(** The contents with [out] written to the keys 1, 2, .... *)
Definition written (vm : Vm) (h : RawGc) (out : list RawValue) (u : RawGc) (k : LuaKey) : RawValue :=
  match k with
  | LInteger i => if decide (u = h) then default (at_key vm u k) (zget out (i - 1)) else at_key vm u k
  | _ => at_key vm u k
  end.

Section Builtin.
Context {AL : Allocator} {MA : MapAllocator} {TS : TableSizes} {HS : HeapSizes}.

Lemma write_back_spec h out vm :
  tables_ok vm -> is_Some (table_of vm h) -> len out < 9007199254740992 ->
  wp (lfor (fun p => set_index h (p.1 + 1) p.2) (imap (fun i v => (Z.of_nat i, v)) out)) vm
    (fun vm' _ => contents_are vm (written vm h out) vm') no_error.
Proof.
  intros Hok Hres Hlen. set (I := fun n vm' => contents_are vm (written vm h (take n out)) vm').
  eapply wp_mono; [apply (wp_lfor _ _ _ I no_error)| |done].
  - intros n [i v] vm' Hn HI. rewrite list_lookup_imap in Hn. destruct (out !! n) as [v'|] eqn:Ev; [|done].
    injection Hn as <- <-. pose proof (lookup_lt_Some _ _ _ Ev). cbn [fst snd].
    eapply wp_mono; [apply (write_last vm vm' h _ v' _ HI Hres); unfold exact, len in *; lia| |done].
    intros vm'' [] (H1 & H2 & H3). split; [done|]. split; [done|]. intros u k. rewrite H3. unfold written.
    rewrite (take_S_r _ _ _ Ev). destruct k as [|i| | | | |]; try (by rewrite decide_False by (by intros [_ ?])).
    assert (len (take n out) = Z.of_nat n) as Hl by (unfold len; rewrite length_take; lia).
    destruct (decide (u = h)) as [->|Hu]; [|by rewrite decide_False by (by intros [? _])].
    rewrite zget_snoc, Hl. destruct (decide (LInteger i = LInteger (Z.of_nat n + 1))) as [[= ->]|Hne].
    + rewrite decide_True by done. by rewrite decide_True by lia.
    + rewrite decide_False by tauto. rewrite decide_False; [done|]. intros Hi. apply Hne. f_equal. lia.
  - split; [done|]. split; [done|]. intros u k. unfold written. destruct k; try done. rewrite take_0.
    case_decide; [|done]. unfold zget. by destruct (_ <? _).
  - intros vm' [] H. rewrite length_imap in H. unfold I in H. by rewrite firstn_all in H.
Qed.
End Builtin.

(** C21: [table.sort] on a writable table asks the comparator, a Lua function or the [<]
    operator, and never panics, loops or goes out of bounds whatever the answers are; [J] is
    any property of the machine the comparator keeps, [R x y b] what is known of its answer
    [b] for [x] before [y]. When no call raises, the elements 1 to [n] are replaced by a
    permutation of themselves and nothing else changes; when the answers on the elements are
    those of a strict weak order, the permutation is sorted, and equivalent elements keep
    their order. When a call raises, or a limit is exceeded, the sort itself has not written. *)
Theorem table_sort_correct {AL : Allocator} {MA : MapAllocator} {TS : TableSizes} {HS : HeapSizes} {LC : LuaCode}
  vm h comp (J : Vm -> Prop) (R : RawValue -> RawValue -> bool -> Prop) :
  editable vm h -> (comp = VNil \/ exists f, comp = VFunction f) -> J vm ->
  (forall vm', J vm' -> tables_ok vm' /\ is_Some (table_of vm' h)) ->
  (forall x y vm', J vm' -> wp (sort_less comp x y) vm' (fun vm'' b => J vm'' /\ R x y b) (fun vm'' _ => J vm'')) ->
  wp (table_sort [VTable h; comp]) vm
    (fun vm' r => r = [] /\ exists vm1 out, J vm1 /\ contents_are vm1 (written vm1 h out) vm' /\ out ≡ₚ elements vm h /\
       forall (P : RawValue -> Prop) lt, strict_weak lt -> Forall P (elements vm h) ->
         (forall x y b, P x -> P y -> R x y b -> b = lt x y) ->
         ordered lt out /\
         forall z, filter (fun x => equivalent lt z x = true) out =
                   filter (fun x => equivalent lt z x = true) (elements vm h))
    (fun vm' _ => J vm').
Proof.
  intros Hed Hcomp HJ Hkeep Hless. pose proof (editable_writable _ _ Hed) as Hw. pose proof Hed as (Hok & _ & Hn).
  unfold table_sort. apply wp_bind, wp_ret, wp_bind, wp_require_writable; [done|].
  change (arg [VTable h; comp] 1) with comp.
  assert (match comp with VNil | VFunction _ => true | _ => false end = true) as -> by (by destruct Hcomp as [->|[f ->]]).
  cbn [negb]. apply wp_bind, wp_get. case_match; [by apply wp_raise|]. apply wp_bind, wp_check_cap; [|done].
  apply wp_bind, wp_get. cbv zeta.
  assert (get_index vm h <$> range_incl 1 (length_of vm h) = elements vm h) as ->.
  { apply list_fmap_ext. intros i x Hx. assert (x ∈ range_incl 1 (length_of vm h)) as Hin by (by eapply list_elem_of_lookup_2).
    apply elem_of_range_incl in Hin. apply get_index_at. unfold exact. lia. }
  assert (len (elements vm h) = length_of vm h) as Hlen.
  { unfold len, elements. rewrite length_fmap. unfold range_incl. rewrite length_seqZ. lia. }
  apply wp_bind. eapply wp_mono;
    [apply (merge_sort_spec comp J R Hless); [done|apply length_replicate|lia]| |done].
  intros vm1 [out scratch] (HJ1 & Hms & Hlo & _). cbn [fst] in Hms, Hlo. destruct (Hkeep _ HJ1) as [Hok1 Hres1].
  apply wp_bind. eapply wp_mono; [apply (write_back_spec h out vm1 Hok1 Hres1); unfold len in *; lia| |done].
  intros vm' [] Hc. apply wp_ret. split; [done|]. exists vm1, out. split; [done|]. split; [done|].
  split; [by eapply msorted_perm|]. intros P lt Hsw HP HR.
  assert (msorted (fun x y b => b = lt x y) (elements vm h) out) as Hms' by (by eapply msorted_mono).
  split; [by eapply msorted_ordered|]. intros z. by eapply msorted_stable.
Qed.

(** ** The default order on numbers *)

Definition is_number (v : RawValue) : Prop := exists b, v = VNumber b /\ f64_is_nan b = false.
Definition number_key (v : RawValue) : Z := match v with VNumber b => f64_ord b | _ => 0 end.
Definition number_lt (x y : RawValue) : bool := number_key x <? number_key y.

Lemma number_lt_strict_weak : strict_weak number_lt.
Proof. unfold number_lt. split; intros; repeat match goal with |- context [?a <? ?b] => destruct (Z.ltb_spec a b)
  | H : context [?a <? ?b] |- _ => destruct (Z.ltb_spec a b) end; lia || done. Qed.

(** The answers of the default order on a machine without metatables. *)
Definition number_answer (x y : RawValue) (b : bool) : Prop := is_number x -> is_number y -> b = number_lt x y.

Definition no_metatables {LC : LuaCode} (vm : Vm) : Prop := forall v, metatable_of vm v = None.

Lemma default_order_spec {AL : Allocator} {MA : MapAllocator} {LC : LuaCode} (J : Vm -> Prop) x y vm :
  (forall vm' g s, J vm' -> J (set_gas g s vm')) -> (forall vm', J vm' -> no_metatables vm') -> J vm ->
  wp (sort_less VNil x y) vm (fun vm' b => J vm' /\ number_answer x y b) (fun vm' _ => J vm').
Proof.
  intros Hgas Hmt HJ. unfold sort_less. apply wp_bind.
  assert (exists vm1, J vm1 /\ (tick vm = (vm1, Ret tt) \/ exists e, tick vm = (vm1, Raised e))) as (vm1 & HJ1 & Htick).
  { unfold tick, lbind, tick_gas. destruct (gas vm) as [[|p|p]|]; eexists; (split; [|eauto]); eauto. }
  unfold wp at 1. destruct Htick as [-> | [e ->]]; [|done]. cbn [fst snd outcome_ok].
  assert (forall a b, wp (lret (f64_lt a b)) vm1 (fun vm' r => J vm' /\ number_answer (VNumber a) (VNumber b) r) (fun vm' _ => J vm')) as Hnum.
  { intros a b. apply wp_ret. split; [done|]. intros (a' & [= <-] & Ha) (b' & [= <-] & Hb).
    unfold f64_lt, f64_gt, number_lt, number_key. by rewrite Ha, Hb. }
  assert (wp (if negb (same_tag x y) then lraise (order_error "<" x y)
              else let+ handler := matching_metamethod x y MLt in
                   match handler with Some h => call_compare h x y | None => lraise (order_error "<" x y) end) vm1
            (fun vm' b => J vm' /\ number_answer x y b) (fun vm' _ => J vm')) as Hmeta.
  { destruct (negb (same_tag x y)); [by apply wp_raise|]. unfold matching_metamethod, get_metamethod.
    unfold wp, lbind, lget. by rewrite (Hmt _ HJ1 x). }
  assert (forall r, ~ (is_number x /\ is_number y) -> wp (lret r) vm1 (fun vm' b => J vm' /\ number_answer x y b) (fun vm' _ => J vm'))
    as Hother by (intros r Hn; apply wp_ret; split; [done|intros ? ?; tauto]).
  unfold less_than_op. destruct x, y; cbn [numeric_f64]; try exact Hmeta; try apply Hnum;
    try (apply Hother; intros [(? & [=] & _) (? & [=] & _)]).
Qed.

Definition numbers_vm : Vm := sample_vm (sequence [num 30; num 10; num 20]) (sequence []) (Some 100).

#[local] Instance no_code : LuaCode := {| call_value f args := lret []; userdata_metatable vm h := None |}.

Lemma numbers_vm_ok : tables_ok numbers_vm.
Proof. apply sample_tables_ok; apply sequence_ok. Qed.

Lemma numbers_vm_editable : editable numbers_vm (th 0).
Proof.
  split; [apply numbers_vm_ok|]. split; [|by vm_compute].
  exists (sequence [num 30; num 10; num 20]). split; [by vm_compute|done].
Qed.

Lemma numbers_vm_resident : is_Some (table_of numbers_vm (th 0)).
Proof. vm_compute. eauto. Qed.

Lemma numbers_vm_metatables : no_metatables numbers_vm.
Proof.
  intros v. unfold metatable_of. destruct v as [| | | | | | |h| | | |]; try done.
  destruct (table_of numbers_vm h) as [t|] eqn:Ht; [|done]. destruct (sample_table _ _ _ _ _ Ht) as [[_ ->]|[_ ->]]; reflexivity.
Qed.

(** Gas does not show in the heap. *)
Lemma same_heap_facts vm vm' h :
  same_but_gas vm vm' ->
  (tables_ok vm -> tables_ok vm') /\ (is_Some (table_of vm h) -> is_Some (table_of vm' h)) /\
  (no_metatables vm -> no_metatables vm').
Proof.
  intros (Hh & _). assert (forall u, table_of vm' u = table_of vm u) as Ht by (intros; unfold table_of; by rewrite Hh).
  split; [|split].
  - intros Hok u t. rewrite Ht. apply Hok.
  - by rewrite Ht.
  - intros Hm v. rewrite <- (Hm v). unfold metatable_of. destruct v; try done; by rewrite ?Ht, ?Hh.
Qed.

Lemma table_sort_correct_witness :
  wp (OA := refused_on_abort (AL := exact_allocator) (MA := doubling_map))
    (table_sort (AL := exact_allocator) (MA := doubling_map) (TS := sizes64) (HS := lib_sizes) [VTable (th 0); VNil]) numbers_vm
    (fun vm' r => r = [] /\ exists vm1 out, same_but_gas numbers_vm vm1 /\ contents_are vm1 (written vm1 (th 0) out) vm' /\
       out ≡ₚ elements numbers_vm (th 0) /\
       forall (P : RawValue -> Prop) lt, strict_weak lt -> Forall P (elements numbers_vm (th 0)) ->
         (forall x y b, P x -> P y -> number_answer x y b -> b = lt x y) ->
         ordered lt out /\
         forall z, filter (fun x => equivalent lt z x = true) out =
                   filter (fun x => equivalent lt z x = true) (elements numbers_vm (th 0)))
    (fun vm' _ => same_but_gas numbers_vm vm') /\
  strict_weak number_lt /\ Forall is_number (elements numbers_vm (th 0)).
Proof.
  split; [|split; [apply number_lt_strict_weak|]].
  - apply (table_sort_correct (AL := exact_allocator) (MA := doubling_map) (TS := sizes64) (HS := lib_sizes)
      numbers_vm (th 0) VNil (same_but_gas numbers_vm) number_answer).
    + exact numbers_vm_editable.
    + by left.
    + done.
    + intros vm' HJ. destruct (same_heap_facts _ _ (th 0) HJ) as (H1 & H2 & _).
      split; [exact (H1 numbers_vm_ok)|exact (H2 numbers_vm_resident)].
    + intros x y vm' HJ. apply default_order_spec; [done| |done].
      intros vm1 HJ1. destruct (same_heap_facts _ _ (th 0) HJ1) as (_ & _ & H3). exact (H3 numbers_vm_metatables).
  - vm_compute elements. repeat constructor; eexists; (split; [done|by vm_compute]).
Defined.
