(* ===== verification/TableMove.v ===== *)
(** * TableMove: the sparse move is the dense move

    [table.move] copies a range of elements one by one, in an order that respects overlap, or,
    when the range is much wider than both tables, through a snapshot of the live entries.
    Both paths leave the contents [moved]; the sparse one only if no native integer key of the
    source lies in the range. The first part relates doubles to the integers they stand for:
    their order ([f64_le], on the bits) and the cast to [i64]. *)

From Stdlib Require Import ZArith Lia.
From stdpp Require Import base numbers list strings option gmap.
From S2P Require Import Prelude RustVec Arena Value LuaTable LuaTableFacts LuaTableTheorems GcObjects Gc RustExec LibHeap TableLib LibHeapFacts TableLibFacts TableEdit.

(** The magnitude of a finite double in units of the smallest one. *)
Definition units_of (p : Z) : Z :=
  let e := f64_exp p in
  let m := f64_man p in
  if e =? 0 then m else (m + 4503599627370496) * 2 ^ (e - 1).

(** The same with the sign of an ordered bit pattern. *)
Definition signed_units (x : Z) : Z := if x <? 0 then - units_of (- x) else units_of x.

Lemma f64_parts p : 0 <= p < 9223372036854775808 -> p = f64_exp p * 4503599627370496 + f64_man p /\ 0 <= f64_exp p < 2048 /\ 0 <= f64_man p < 4503599627370496.
Proof. intros Hp. unfold f64_exp, f64_man. split; [|split]; zdm. Qed.

Lemma units_nonneg p : 0 <= units_of p.
Proof.
  unfold units_of. assert (0 <= f64_man p) by (unfold f64_man; zdm). case_match; [done|].
  apply Z.mul_nonneg_nonneg; [lia|]. apply Z.pow_nonneg. lia.
Qed.

Lemma units_mono p q : 0 <= p < q -> q < 9223372036854775808 -> units_of p < units_of q.
Proof.
  intros Hpq Hq. destruct (f64_parts p ltac:(lia)) as (Ep & He & Hm). destruct (f64_parts q ltac:(lia)) as (Eq & He' & Hm').
  unfold units_of. set (e := f64_exp p) in *. set (m := f64_man p) in *. set (e' := f64_exp q) in *. set (m' := f64_man q) in *.
  destruct (Z.eqb_spec e 0) as [H0|H0], (Z.eqb_spec e' 0) as [H0'|H0']; [lia| |lia|].
  - assert (1 <= 2 ^ (e' - 1)) by (pose proof (Z.pow_pos_nonneg 2 (e' - 1)); lia). nia.
  - destruct (decide (e = e')) as [->|Hne].
    + apply Z.mul_lt_mono_pos_r; [apply Z.pow_pos_nonneg; lia|nia].
    + assert (e < e') by nia.
      assert (2 ^ (e' - 1) = 2 * 2 ^ (e - 1) * 2 ^ (e' - e - 1)) as ->.
      { rewrite <- (Z.pow_1_r 2) at 2. rewrite <- !Z.pow_add_r by lia. f_equal. lia. }
      assert (1 <= 2 ^ (e' - e - 1)) by (pose proof (Z.pow_pos_nonneg 2 (e' - e - 1)); lia).
      assert (0 < 2 ^ (e - 1)) by (apply Z.pow_pos_nonneg; lia). nia.
Qed.

Lemma units_zero : units_of 0 = 0.
Proof. by vm_compute. Qed.

Lemma signed_units_mono x y :
  -9223372036854775808 < x < 9223372036854775808 -> -9223372036854775808 < y < 9223372036854775808 ->
  x < y -> signed_units x < signed_units y.
Proof.
  intros Hx Hy Hxy. unfold signed_units. destruct (Z.ltb_spec x 0), (Z.ltb_spec y 0); try lia.
  - pose proof (units_mono (- y) (- x)). lia.
  - pose proof (units_mono 0 (- x) ltac:(lia) ltac:(lia)). rewrite units_zero in *. pose proof (units_nonneg y). lia.
  - apply units_mono; lia.
Qed.

(** The fields of a pattern without its sign. *)
Lemma f64_unsigned b :
  f64_exp (b mod 9223372036854775808) = f64_exp b /\ f64_man (b mod 9223372036854775808) = f64_man b.
Proof. unfold f64_exp, f64_man. split; zdm. Qed.

Lemma magnitude_units b z :
  f64_magnitude b = Some z -> z * 2 ^ 1074 = units_of (b mod 9223372036854775808).
Proof.
  unfold f64_magnitude, units_of. destruct (f64_unsigned b) as [-> ->].
  assert (0 <= f64_exp b < 2048) as He by (unfold f64_exp; zdm).
  destruct (Z.eqb_spec (f64_exp b) 2047); [done|]. destruct (Z.eqb_spec (f64_exp b) 0).
  - destruct (Z.eqb_spec (f64_man b) 0) as [->|]; [|done]. by intros [= <-].
  - set (m := f64_man b + 4503599627370496). set (e := f64_exp b) in *. destruct (Z.leb_spec 1075 e).
    + intros [= <-]. rewrite <- Z.mul_assoc, <- Z.pow_add_r by lia. do 2 f_equal. lia.
    + destruct (Z.eqb_spec (m mod 2 ^ (1075 - e)) 0) as [Hm|]; [|done]. intros [= <-].
      assert (0 < 2 ^ (1075 - e)) by (apply Z.pow_pos_nonneg; lia).
      assert (2 ^ 1074 = 2 ^ (1075 - e) * 2 ^ (e - 1)) as -> by (rewrite <- Z.pow_add_r by lia; f_equal; lia).
      rewrite Z.mul_assoc. f_equal. rewrite (Z.div_mod m (2 ^ (1075 - e))) at 2 by lia. lia.
Qed.

Lemma integral_units b z : f64_integral b = Some z -> z * 2 ^ 1074 = signed_units (f64_ord b).
Proof.
  unfold f64_integral. destruct (f64_magnitude b) as [mag|] eqn:Em; [|done]. apply magnitude_units in Em. intros [= <-].
  unfold f64_ord, signed_units. assert (0 <= b mod 9223372036854775808) by zdm.
  destruct (f64_neg b).
  - destruct (Z.ltb_spec (- (b mod 9223372036854775808)) 0).
    + rewrite Z.opp_involutive. lia.
    + assert (b mod 9223372036854775808 = 0) as E by lia. rewrite E in Em |- *. rewrite units_zero in Em. change (- mag * 2 ^ 1074 = 0). lia.
  - destruct (Z.ltb_spec (b mod 9223372036854775808) 0); [lia|exact Em].
Qed.

Lemma f64_ord_range b : -9223372036854775808 < f64_ord b < 9223372036854775808.
Proof. unfold f64_ord. assert (0 <= b mod 9223372036854775808 < 9223372036854775808) by zdm. case_match; lia. Qed.

(** On integral doubles [<=] is that of the integers. *)
Lemma integral_le a b x y :
  f64_integral a = Some x -> f64_integral b = Some y -> f64_le a b = (x <=? y).
Proof.
  intros Ha Hb. unfold f64_le. rewrite (integral_not_nan _ _ Ha), (integral_not_nan _ _ Hb). cbn [negb andb].
  apply integral_units in Ha, Hb. pose proof (f64_ord_range a) as Ra. pose proof (f64_ord_range b) as Rb.
  assert (0 < 2 ^ 1074) by (apply Z.pow_pos_nonneg; lia).
  destruct (Z.leb_spec (f64_ord a) (f64_ord b)) as [H1|H1], (Z.leb_spec x y) as [H2|H2]; try done; exfalso.
  - destruct (decide (f64_ord a = f64_ord b)) as [E|]; [rewrite E in Ha; nia|].
    pose proof (signed_units_mono (f64_ord a) (f64_ord b) Ra Rb ltac:(lia)). nia.
  - pose proof (signed_units_mono _ _ Rb Ra H1). nia.
Qed.

(** The cast recovers an integral double. *)
Lemma integral_as_i64 b z : f64_integral b = Some z -> exact z -> f64_as_i64 b = z.
Proof.
  intros Hz Hex. unfold f64_as_i64. rewrite (integral_not_nan _ _ Hz). revert Hz. unfold f64_integral, f64_magnitude.
  destruct (Z.eqb_spec (f64_exp b) 2047); [done|]. unfold exact in Hex.
  assert (forall x, -9007199254740992 < x < 9007199254740992 -> clamp_i64 x = x) as Hclamp
    by (intros; unfold clamp_i64, I64_MIN, I64_MAX; lia).
  destruct (Z.eqb_spec (f64_exp b) 0).
  - destruct (Z.eqb_spec (f64_man b) 0) as [->|]; [|done]. intros [= <-]. vm_compute (1075 <=? 1).
    rewrite Z.div_0_l by (apply Z.pow_nonzero; lia). by destruct (f64_neg b).
  - destruct (1075 <=? f64_exp b); [|destruct (_ =? 0); [|done]]; intros [= <-]; by apply Hclamp.
Qed.

(** [integer_key_in_range] on a number. *)
Lemma number_key_in_range n first last :
  exact first -> exact last ->
  integer_key_in_range (VNumber n) first last =
  match f64_integral n with
  | Some z => if decide (first <= z <= last) then Some z else None
  | None => None
  end.
Proof.
  intros Hf Hl. unfold integer_key_in_range. destruct (f64_integral n) as [z|] eqn:Hz; [|done].
  rewrite (integral_le _ _ _ _ (f64_of_i64_integral _ Hf) Hz), (integral_le _ _ _ _ Hz (f64_of_i64_integral _ Hl)).
  destruct (Z.leb_spec first z), (Z.leb_spec z last); cbn [andb]; case_decide; try lia; try done.
  f_equal. apply integral_as_i64; [done|]. unfold exact in *. lia.
Qed.

(** A key that normalizes to a small integer is that integral number. *)
Lemma normalize_integer key z :
  exact z -> normalize_key key = Some (LInteger z) <-> exists n, key = VNumber n /\ f64_integral n = Some z.
Proof.
  intros Hz. unfold exact in Hz. split.
  - unfold normalize_key. destruct (key_rejection key); [done|]. destruct key; try done.
    destruct (f64_integral bits) as [x|] eqn:E; [|by intros [=]]. case_match; [|by intros [=]].
    intros [= Hm]. unfold I64_MAX in Hm. exists bits. split; [done|]. rewrite E. f_equal. lia.
  - intros (n & -> & Hn). unfold normalize_key, key_rejection. rewrite (integral_not_nan _ _ Hn), Hn.
    rewrite (proj2 (Z.leb_le (-9223372036854775808) z)), (proj2 (Z.leb_le z 9223372036854775808)) by lia. cbn.
    unfold I64_MAX. by rewrite Z.min_l by lia.
Qed.

(** ** Sequences of writes *)

Definition upd (dst : RawGc) (M : RawGc -> LuaKey -> RawValue) (p : Z * RawValue) (u : RawGc) (k : LuaKey) : RawValue :=
  if decide (u = dst /\ k = LInteger p.1) then p.2 else M u k.

Lemma foldl_upd_other dst l M u k :
  (forall p, p ∈ l -> ~ (u = dst /\ k = LInteger p.1)) -> foldl (upd dst) M l u k = M u k.
Proof.
  revert M. induction l as [|p l IH]; intros M Hl; [done|]. cbn [foldl]. rewrite IH.
  - unfold upd. by rewrite decide_False by (apply Hl; apply list_elem_of_here).
  - intros q Hq. apply Hl. by apply list_elem_of_further.
Qed.

Lemma foldl_upd_in dst l M p :
  NoDup l.*1 -> p ∈ l -> foldl (upd dst) M l dst (LInteger p.1) = p.2.
Proof.
  revert M. induction l as [|q l IH]; intros M Hn Hp; [by apply not_elem_of_nil in Hp|].
  cbn in Hn. apply NoDup_cons in Hn as [Hq Hn]. cbn [foldl]. apply elem_of_cons in Hp as [->|Hp]; [|by apply IH].
  rewrite foldl_upd_other; [unfold upd; by rewrite decide_True|].
  intros r Hr [_ [= Heq]]. apply Hq. rewrite Heq. by apply list_elem_of_fmap_2.
Qed.

(** Clearing a list of keys. *)
Lemma foldl_upd_nil dst keys M u z :
  foldl (upd dst) M ((fun i => (i, VNil)) <$> keys) u (LInteger z) =
  if decide (u = dst /\ z ∈ keys) then VNil else M u (LInteger z).
Proof.
  revert M. induction keys as [|i keys IH]; intros M; cbn.
  - rewrite decide_False; [done|]. intros [_ Hz]. by apply not_elem_of_nil in Hz.
  - rewrite IH. unfold upd. cbn. destruct (decide (u = dst /\ z ∈ keys)) as [[-> Hz]|Hz].
    + rewrite decide_True; [done|]. split; [done|]. by apply list_elem_of_further.
    + destruct (decide (u = dst /\ LInteger z = LInteger i)) as [[-> [= ->]]|Hne].
      * rewrite decide_True; [done|]. split; [done|]. apply list_elem_of_here.
      * rewrite decide_False; [done|]. intros [-> Hin]. apply elem_of_cons in Hin as [->|Hin]; [by apply Hne|by apply Hz].
Qed.

Lemma lfor_fmap {X Y} (f : Y -> LM unit) (g : X -> Y) l : lfor f (g <$> l) = lfor (fun x => f (g x)) l.
Proof. induction l as [|x l IH]; [done|]. cbn. by rewrite IH. Qed.

(** ** The live entries in a range *)

Section Entries.

Lemma NoDup_omap_key {A B K} (g : A -> option K) (f : A -> option B) (key : B -> K) l :
  NoDup (g <$> l) -> (forall x y, x ∈ l -> f x = Some y -> g x = Some (key y)) -> NoDup (key <$> omap f l).
Proof.
  induction l as [|x l IH]; intros Hn Hf; [constructor|]. cbn in Hn. apply NoDup_cons in Hn as [Hx Hn]. cbn.
  assert (NoDup (key <$> omap f l)) as Hl by (apply IH; [done|]; intros; apply Hf; [by apply list_elem_of_further|done]).
  destruct (f x) as [y|] eqn:Ey; [|done]. cbn. constructor; [|done]. intros (y' & Hk & Hy')%list_elem_of_fmap.
  apply list_elem_of_omap in Hy' as (x' & Hx' & Ef). apply Hx.
  rewrite (Hf x y (list_elem_of_here _ _) Ey), Hk, <- (Hf x' y' (list_elem_of_further _ _ _ Hx') Ef). by apply list_elem_of_fmap_2.
Qed.

(** The snapshot of the source. *)
Definition source_of (t : LuaTable) (a b : Z) : list (Z * RawValue) :=
  omap (fun kv => (fun i => (i, kv.2)) <$> integer_key_in_range kv.1 a b) (LuaTable.for_each_entry t).

(** No live native integer key lies in the range. *)
Definition no_native (t : LuaTable) (a b : Z) : Prop :=
  forall i v, (VInteger i, v) ∈ LuaTable.for_each_entry t -> ~ (a <= i <= b).

Context (t : LuaTable) (Hok : table_ok t) (Hlen : len (LuaTable.arr t) < 9007199254740992).

Lemma entry_not_nil k v : (k, v) ∈ LuaTable.for_each_entry t -> v <> VNil.
Proof using Hok.
  rewrite for_each_entry_split. intros [H|H]%elem_of_app.
  - by apply elem_of_array_from in H as (p & _ & Hv & _).
  - apply elem_of_hash_entries in H as (p & s & Hp & _ & Hv).
    apply (live_indexed _ _ Hok (Z.of_nat p) s v); [by rewrite zget_of_nat|done].
Qed.

Lemma key_in_range_integer k v a b i :
  exact a -> exact b -> no_native t a b -> (k, v) ∈ LuaTable.for_each_entry t ->
  integer_key_in_range k a b = Some i -> a <= i <= b /\ normalize_key k = Some (LInteger i).
Proof using.
  intros Ha Hb Hnat Hk. destruct k as [| |n|j| | | | | | | |]; try done.
  - rewrite number_key_in_range by done. destruct (f64_integral n) as [z|] eqn:Ez; [|done]. case_decide; [|done].
    intros [= <-]. split; [done|]. apply normalize_integer; [unfold exact in *; lia|eauto].
  - cbn. destruct (Z.leb_spec a j), (Z.leb_spec j b); cbn [andb]; try done. intros [= <-]. exfalso.
    by apply (Hnat j v Hk).
Qed.

Lemma integer_in_range k v a b i :
  exact a -> exact b -> (k, v) ∈ LuaTable.for_each_entry t -> normalize_key k = Some (LInteger i) -> a <= i <= b ->
  integer_key_in_range k a b = Some i.
Proof using.
  intros Ha Hb Hk Hn Hi. apply normalize_integer in Hn as (n & -> & Hn); [|unfold exact in *; lia].
  rewrite number_key_in_range by done. rewrite Hn. by rewrite decide_True.
Qed.

Lemma source_elem a b i v :
  exact a -> exact b -> no_native t a b -> v <> VNil ->
  (i, v) ∈ source_of t a b <-> a <= i <= b /\ LuaTable.get_norm t (LInteger i) = v.
Proof using Hok Hlen.
  intros Ha Hb Hnat Hv. unfold source_of. rewrite list_elem_of_omap. split.
  - intros ([k w] & Hkw & Hf). cbn in Hf. apply fmap_Some in Hf as (j & Hj & [= -> ->]).
    destruct (key_in_range_integer _ _ _ _ _ Ha Hb Hnat Hkw Hj) as [Hr Hn]. split; [done|].
    apply entries_complete; [done|done|done|]. eauto.
  - intros [Hr Hg]. apply entries_complete in Hg as (k & Hkv & Hn); [|done|done|done].
    exists (k, v). split; [done|]. cbn. by rewrite (integer_in_range _ _ _ _ _ Ha Hb Hkv Hn Hr).
Qed.

Lemma source_elem_not_nil a b i v : (i, v) ∈ source_of t a b -> v <> VNil.
Proof using Hok.
  unfold source_of. rewrite list_elem_of_omap. intros ([k w] & Hkw & Hf). cbn in Hf.
  apply fmap_Some in Hf as (j & _ & [= -> ->]). by eapply entry_not_nil.
Qed.

Lemma source_nodup a b : exact a -> exact b -> no_native t a b -> NoDup (source_of t a b).*1.
Proof using Hok Hlen.
  intros Ha Hb Hnat. unfold source_of. pose proof (entries_nodup t Hok Hlen) as Hnd.
  assert (NoDup ((fun p : Z * RawValue => LInteger p.1) <$> source_of t a b)) as Hl.
  { apply (NoDup_omap_key (fun kv : RawValue * RawValue => normalize_key kv.1)); [done|].
    intros [k v] [i w] Hkv Hf. cbn in *. apply fmap_Some in Hf as (j & Hj & [= -> ->]).
    by apply (key_in_range_integer _ _ _ _ _ Ha Hb Hnat Hkv Hj). }
  unfold source_of in Hl. revert Hl. generalize (omap (fun kv : RawValue * RawValue => (fun i => (i, kv.2)) <$> integer_key_in_range kv.1 a b) (LuaTable.for_each_entry t)).
  intros l Hl. apply (NoDup_fmap_1 LInteger). by rewrite <- list_fmap_compose.
Qed.
End Entries.

Lemma key_range key first last i :
  exact first -> exact last -> integer_key_in_range key first last = Some i -> first <= i <= last.
Proof.
  intros Hf Hl Hk. destruct key as [| |n|j| | | | | | | |]; try done.
  - rewrite number_key_in_range in Hk by done. destruct (f64_integral n); [|done]. case_decide; [|done]. by injection Hk as <-.
  - cbn in Hk. destruct (Z.leb_spec first j), (Z.leb_spec j last); cbn in Hk; try done. injection Hk as <-. lia.
Qed.

(** ** The two paths *)

(** The arrays are small enough for doubles to index them. *)
Definition small_arrays (vm : Vm) : Prop := forall u t, table_of vm u = Some t -> len (LuaTable.arr t) < 9007199254740992.

Section Move.
Context {AL : Allocator} {MA : MapAllocator} {TS : TableSizes} {HS : HeapSizes} {LS : TableLibSizes}.

Lemma writes_spec dst l M vm0 vm :
  contents_are vm0 M vm -> is_Some (table_of vm0 dst) -> (forall p, p ∈ l -> exact p.1) ->
  wp (lfor (fun p : Z * RawValue => set_index dst p.1 p.2) l) vm
    (fun vm' _ => contents_are vm0 (foldl (upd dst) M l) vm') no_error.
Proof.
  intros HM Hres Hex. eapply wp_mono;
    [apply (wp_lfor _ _ _ (fun n vm' => contents_are vm0 (foldl (upd dst) M (take n l)) vm') no_error)| |done].
  - intros n p vm' Hn HI. eapply wp_mono; [apply (write_last vm0 vm' dst _ p.2 _ HI Hres), Hex; by eapply list_elem_of_lookup_2| |done].
    intros vm'' [] H. by rewrite (take_S_r _ _ _ Hn), foldl_app.
  - by rewrite take_0.
  - intros vm' [] H. by rewrite firstn_all in H.
Qed.

(** The contents left by the sparse path. *)
Lemma sparse_contents vm src dst a b t tsrc tdst keys :
  tables_ok vm -> small_arrays vm -> table_of vm src = Some tsrc -> table_of vm dst = Some tdst ->
  exact a -> exact b -> exact t -> exact (t + (b - a)) -> no_native tsrc a b ->
  keys = omap (fun kv => integer_key_in_range kv.1 t (t + (b - a))) (LuaTable.for_each_entry tdst) ->
  forall u k,
    foldl (upd dst) (foldl (upd dst) (at_key vm) ((fun i => (i, VNil)) <$> keys))
      ((fun p => (t + (p.1 - a), p.2)) <$> source_of tsrc a b) u k =
    moved vm src dst a t (range_incl 0 (b - a)) u k.
Proof.
  intros Hok Hsm Hsrc Hdst Ha Hb Ht Htl Hnat Hkeys u k.
  pose proof (Hok _ _ Hsrc) as Hoks. pose proof (Hsm _ _ Hsrc) as Hss. pose proof (Hok _ _ Hdst) as Hokd. pose proof (Hsm _ _ Hdst) as Hsd.
  unfold moved. destruct k as [|z| | | | |]; try (rewrite !foldl_upd_other; [done|..]; intros p _ [_ [=]]).
  rewrite (decide_ext (u = dst /\ z - t ∈ range_incl 0 (b - a)) (u = dst /\ a <= a + (z - t) <= b))
    by (rewrite elem_of_range_incl; intuition lia).
  assert (forall i, i ∈ keys -> t <= i <= t + (b - a)) as Hkeyr.
  { intros i Hi. rewrite Hkeys in Hi. apply list_elem_of_omap in Hi as ([key v] & _ & Hk). cbn in Hk.
    by apply key_range in Hk. }
  destruct (decide (u = dst /\ a <= a + (z - t) <= b)) as [[-> Hr]|Hno].
  - unfold at_key at 2. rewrite Hsrc. set (v := LuaTable.get_norm tsrc (LInteger (a + (z - t)))).
    destruct (decide (v = VNil)) as [Hv|Hv].
    + rewrite foldl_upd_other.
      * rewrite foldl_upd_nil. case_decide as Hz; [done|]. rewrite Hv. unfold at_key. rewrite Hdst.
        destruct (decide (LuaTable.get_norm tdst (LInteger z) = VNil)) as [|Hnz]; [done|]. exfalso. apply Hz. split; [done|].
        rewrite Hkeys. destruct (proj1 (entries_complete tdst (LInteger z) _ Hokd Hsd Hnz) eq_refl) as (key & Hin & Hn).
        apply list_elem_of_omap. exists (key, LuaTable.get_norm tdst (LInteger z)). split; [done|].
        apply (integer_in_range tdst key _ t (t + (b - a)) z Ht Htl Hin Hn). lia.
      * intros p Hp [_ [= Hz]]. apply list_elem_of_fmap in Hp as ([i w] & -> & Hi). cbn in Hz.
        pose proof (source_elem_not_nil tsrc Hoks a b i w Hi) as Hw.
        apply source_elem in Hi as [_ Hg]; [|done..]. apply Hw. rewrite <- Hg, <- Hv. unfold v. do 2 f_equal. lia.
    + assert ((a + (z - t), v) ∈ source_of tsrc a b) as Hin by (by apply source_elem).
      set (f := fun p : Z * RawValue => (t + (p.1 - a), p.2)). set (q := (z, v)).
      assert (q ∈ f <$> source_of tsrc a b) as Hq.
      { apply list_elem_of_fmap. exists (a + (z - t), v). split; [|done]. unfold q, f. cbn. f_equal. lia. }
      apply (foldl_upd_in dst (f <$> source_of tsrc a b) _ q); [|exact Hq].
      rewrite <- list_fmap_compose. change (fst ∘ f) with ((fun i => t + (i - a)) ∘ (fst (A := Z) (B := RawValue))).
      rewrite list_fmap_compose. apply NoDup_fmap_2; [intros x y Hxy; lia|by apply source_nodup].
  - rewrite foldl_upd_other.
    + rewrite foldl_upd_nil, decide_False; [done|]. intros [-> Hz]. apply Hno. split; [done|]. apply Hkeyr in Hz. lia.
    + intros p Hp [-> [= ->]]. apply list_elem_of_fmap in Hp as ([i w] & -> & Hi). cbn in Hno. apply Hno. split; [done|].
      pose proof (source_elem_not_nil tsrc Hoks a b i w Hi) as Hw. apply source_elem in Hi as [Hr _]; [|done..]. lia.
Qed.

(** The destination holds the range, and nothing else has changed but the gas. *)
Definition moved_to (vm : Vm) (src dst : RawGc) (a b t : Z) (vm' : Vm) : Prop :=
  exists vm0, same_but_gas vm vm0 /\ contents_are vm0 (moved vm0 src dst a t (range_incl 0 (b - a))) vm'.

Lemma wp_reserve_exact vm size n (Q : Vm -> unit -> Prop) (E : Vm -> string -> Prop) :
  Q vm tt -> (refused -> forall e, E vm e) -> wp (reserve_exact size n) vm Q E.
Proof using.
  intros HQ HE. unfold reserve_exact. case_match eqn:Er; [by apply wp_ret|].
  apply wp_raise, HE. by eapply try_reserve_refused.
Qed.

Lemma checked_usize_Some x y : checked_usize x = Some y -> y = x.
Proof using. unfold checked_usize. destruct (x <=? USIZE_MAX); [|done]. by intros [= <-]. Qed.

(** Why a move may raise: a budget, a refused request, or snapshot sizes beyond [usize]. *)
Definition out_of_budget (vm : Vm) : Prop := gas vm <> None \/ memory_cap vm <> None \/ refused.
Definition snapshot_overflow (src_entries dst_entries : Z) : Prop :=
  checked_usize (src_entries * size_IndexedValue) = None \/ checked_usize (dst_entries * I64_SIZE) = None \/
  checked_usize (src_entries * size_IndexedValue + dst_entries * I64_SIZE) = None.

Lemma wp_resident vm h t missing (Q : Vm -> LuaTable -> Prop) E :
  table_of vm h = Some t -> Q vm t -> wp (resident h missing) vm Q E.
Proof using. intros Ht HQ. unfold resident. apply wp_bind, wp_get. by rewrite Ht. Qed.

Context (vm : Vm) (src dst : RawGc) (a b t : Z) (tsrc tdst : LuaTable).
Context (Hok : tables_ok vm) (Hsm : small_arrays vm).
Context (Hsrc : table_of vm src = Some tsrc) (Hdst : table_of vm dst = Some tdst).
Context (Hab : a <= b) (Ha : exact a) (Hb : exact b) (Ht : exact t) (Htl : exact (t + (b - a))).

(** The writes of the sparse path, once the gas is charged. *)
Lemma sparse_writes vm0 keys :
  same_but_gas vm vm0 -> no_native tsrc a b ->
  keys = omap (fun kv => integer_key_in_range kv.1 t (t + (b - a))) (LuaTable.for_each_entry tdst) ->
  wp (let+ _ := lfor (fun i => set_index dst i VNil) keys in
      lfor (fun p : Z * RawValue =>
              match i64_try_from (t + (p.1 - a)) with
              | None => lraise "destination wrap around"
              | Some destination => set_index dst destination p.2
              end) (source_of tsrc a b)) vm0
    (fun vm' _ => moved_to vm src dst a b t vm') no_error.
Proof using All.
  intros Hg Hnat Hkeys. pose proof Hg as (Hheap & _ & _).
  assert (forall u, table_of vm0 u = table_of vm u) as Htab by (intros; unfold table_of; by rewrite Hheap).
  assert (tables_ok vm0) as Hok0 by (intros u tu; rewrite Htab; apply Hok).
  assert (small_arrays vm0) as Hsm0 by (intros u tu; rewrite Htab; apply Hsm).
  assert (is_Some (table_of vm0 dst)) as Hres by (rewrite Htab, Hdst; by eexists).
  apply wp_bind. rewrite <- (lfor_fmap (fun p : Z * RawValue => set_index dst p.1 p.2) (fun i => (i, VNil))).
  eapply wp_mono; [apply (writes_spec dst _ (at_key vm0) vm0 vm0); [by apply contents_refl|done|]| |done].
  { intros p (i & -> & Hi)%list_elem_of_fmap. cbn. rewrite Hkeys in Hi. apply list_elem_of_omap in Hi as ([key v] & Hin & Hi).
    apply key_range in Hi; [|done..]. unfold exact in *. lia. }
  intros vm1 [] HM1. rewrite (lfor_ext _ (fun p => (fun q : Z * RawValue => set_index dst q.1 q.2) ((fun p => (t + (p.1 - a), p.2)) p))).
  2:{ intros [i v] Hi. pose proof (source_elem_not_nil tsrc (Hok _ _ Hsrc) a b i v Hi) as Hv. cbn.
      apply source_elem in Hi as [Hr _]; [|by eauto..]. unfold i64_try_from, I64_MIN, I64_MAX, exact in *.
      by rewrite (proj2 (Z.leb_le _ _)), (proj2 (Z.leb_le _ _)) by lia. }
  rewrite <- (lfor_fmap (fun q : Z * RawValue => set_index dst q.1 q.2) (fun p => (t + (p.1 - a), p.2))).
  eapply wp_mono; [apply (writes_spec dst _ _ vm0 vm1 HM1 Hres)| |done].
  { intros p ([i v] & -> & Hi)%list_elem_of_fmap. pose proof (source_elem_not_nil tsrc (Hok _ _ Hsrc) a b i v Hi) as Hv. cbn.
    apply source_elem in Hi as [Hr _]; [|by eauto..]. unfold exact in *. lia. }
  intros vm' [] (H1 & H2 & H3). exists vm0. split; [done|]. split; [done|]. split; [done|]. intros u k. rewrite H3.
  apply (sparse_contents vm0 src dst a b t tsrc tdst keys); [done|done|by rewrite Htab|by rewrite Htab|done..].
Qed.

Lemma sparse_move_spec src_entries dst_entries :
  no_native tsrc a b ->
  wp (sparse_table_move src dst (mkRange a b t) src_entries dst_entries) vm
    (fun vm' _ => moved_to vm src dst a b t vm')
    (fun vm' _ => same_but_gas vm vm' /\ (out_of_budget vm \/ snapshot_overflow src_entries dst_entries)).
Proof using All.
  intros Hnat. unfold sparse_table_move, out_of_budget, snapshot_overflow.
  destruct (checked_usize (src_entries * size_IndexedValue)) as [sb|] eqn:E1; [|apply wp_raise; split; [done|tauto]].
  destruct (checked_usize (dst_entries * I64_SIZE)) as [db|] eqn:E2; [|apply wp_raise; split; [done|tauto]].
  assert (sb = src_entries * size_IndexedValue) as -> by (by apply checked_usize_Some).
  assert (db = dst_entries * I64_SIZE) as -> by (by apply checked_usize_Some).
  destruct (checked_usize (_ + _)) as [tb|] eqn:E3; [|apply wp_raise; split; [done|tauto]].
  apply wp_bind, wp_check_cap; [|intros; split; [done|tauto]]. apply wp_bind, wp_reserve_exact; [|intros; split; [done|tauto]].
  eapply wp_bind, wp_resident; [done|]. cbv zeta. cbn [mr_first mr_last mr_target].
  unfold i64_try_from at 1. rewrite (proj2 (Z.leb_le I64_MIN _)), (proj2 (Z.leb_le _ I64_MAX)) by (unfold exact, I64_MIN, I64_MAX in *; lia).
  cbn [andb]. apply wp_bind, wp_reserve_exact; [|intros; split; [done|tauto]]. eapply wp_bind, wp_resident; [done|].
  apply wp_bind, wp_charge; [|intros; split; [done|tauto]]. intros g spent.
  eapply wp_mono; [by apply sparse_writes| |by intros]. done.
Qed.

(** The element-by-element path respects overlap. *)
Lemma dense_move_spec :
  wp (dense_move src dst a b t) vm
    (fun vm' r => r = [VTable dst] /\ moved_to vm src dst a b t vm')
    (fun vm' _ => same_but_gas vm vm' /\ (out_of_budget vm \/ max_table_elements vm < b - a + 1)).
Proof using All.
  unfold dense_move, out_of_budget. rewrite (as_i64_small (b - a)) by (unfold exact, is_i64 in *; lia). cbv zeta.
  apply wp_bind, wp_get. rewrite (proj2 (Z.ltb_ge (b - a) 0)) by lia.
  destruct (Z.ltb_spec (max_table_elements vm) (b - a + 1)); [apply wp_raise; split; [done|tauto]|].
  apply wp_bind, wp_check_cap; [|intros; split; [done|tauto]]. apply wp_bind, wp_charge; [|intros; split; [done|tauto]]. intros g spent. apply wp_bind.
  set (overlaps := bool_decide (src = dst) && (a <? t) && (t <=? b)).
  set (l := if overlaps then rev (range_incl 0 (b - a)) else range_incl 0 (b - a)).
  assert (forall o, o ∈ l <-> 0 <= o <= b - a) as Hl.
  { intros o. unfold l. destruct overlaps; [rewrite elem_of_rev|]; apply elem_of_range_incl. }
  rewrite (lfor_ext _ (fun o => move_one src dst (a + o) (t + o))).
  2:{ intros o Ho. apply Hl in Ho. by rewrite !as_i64_small by (unfold exact, is_i64 in *; lia). }
  eapply wp_mono; [apply moves_spec; [exact Hok|by exists tdst| |]| |done].
  - intros o Ho. apply Hl in Ho. unfold exact in *. lia.
  - intros i j x y Hij Hx Hy Hs. unfold l, overlaps in Hx, Hy. rewrite (bool_decide_eq_true_2 _ Hs) in Hx, Hy. cbn [andb] in Hx, Hy.
    pose proof (proj1 (elem_of_range_incl 0 (b - a) x)) as Hxr. pose proof (proj1 (elem_of_range_incl 0 (b - a) y)) as Hyr.
    destruct (Z.ltb_spec a t), (Z.leb_spec t b); cbn [andb] in Hx, Hy.
    1: { apply lookup_rev_range_incl in Hx, Hy. lia. }
    all: pose proof Hx as Hx'; pose proof Hy as Hy'; apply lookup_range_incl in Hx', Hy';
      apply list_elem_of_lookup_2, Hxr in Hx; apply list_elem_of_lookup_2, Hyr in Hy; lia.
  - intros vm' [] (H1 & H2 & H3). apply wp_ret. split; [done|]. exists (set_gas g spent vm). split; [done|].
    split; [done|]. split; [done|]. intros u k. rewrite H3. unfold moved. destruct k; try done.
    apply decide_ext. by rewrite Hl, elem_of_range_incl.
Qed.
End Move.

Section MoveTheorem.
Context {AL : Allocator} {MA : MapAllocator} {TS : TableSizes} {HS : HeapSizes} {LS : TableLibSizes}.

Definition entry_count (t : LuaTable) : Z := len (LuaTable.for_each_entry t).

(** The reasons for which [table.move] raises. *)
Definition move_refused (vm : Vm) (dst : RawGc) (tsrc tdst : LuaTable) (a b t : Z) : Prop :=
  is_readonly vm dst = true \/
  (a <= 0 /\ INT_MAX + a <= b) \/
  INT_MAX - (b - a + 1) + 1 < t \/
  out_of_budget vm \/
  max_table_elements vm < b - a + 1 \/
  snapshot_overflow (entry_count tsrc) (entry_count tdst).

Lemma wp_live_count vm h t Q E :
  table_of vm h = Some t -> Q vm (entry_count t) -> wp (table_live_entry_count h) vm Q E.
Proof using. intros Ht HQ. unfold table_live_entry_count. eapply wp_bind, wp_resident; [done|]. by apply wp_ret. Qed.

(** The choice between the two paths does not show. *)
Lemma move_paths vm src dst a b t tsrc tdst :
  tables_ok vm -> small_arrays vm -> table_of vm src = Some tsrc -> table_of vm dst = Some tdst ->
  a <= b -> exact a -> exact b -> exact t -> exact (t + (b - a)) -> no_native tsrc a b ->
  wp (if 32 <? b - a + 1 then
        let+ src_entries := table_live_entry_count src in
        let+ dst_entries := (if bool_decide (src = dst) then lret src_entries else table_live_entry_count dst) in
        if Z.max src_entries dst_entries <? (b - a + 1) / 2 then
          let+ _ := sparse_table_move src dst (mkRange a b t) src_entries dst_entries in
          lret [VTable dst]
        else dense_move src dst a b t
      else dense_move src dst a b t) vm
    (fun vm' r => r = [VTable dst] /\ moved_to vm src dst a b t vm')
    (fun vm' _ => same_but_gas vm vm' /\ move_refused vm dst tsrc tdst a b t).
Proof using.
  intros Hok Hsm Hsrc Hdst Hab Ha Hb Ht Htl Hnat.
  assert (wp (dense_move src dst a b t) vm (fun vm' r => r = [VTable dst] /\ moved_to vm src dst a b t vm')
    (fun vm' _ => same_but_gas vm vm' /\ move_refused vm dst tsrc tdst a b t)) as Hdense.
  { eapply wp_mono; [by eapply dense_move_spec| |]; [done|]. cbn. unfold move_refused. tauto. }
  destruct (32 <? b - a + 1); [|done]. eapply wp_bind, wp_live_count; [done|]. apply wp_bind.
  assert (forall Q E, Q vm (entry_count tdst) ->
    wp (if bool_decide (src = dst) then lret (entry_count tsrc) else table_live_entry_count dst) vm Q E) as Hcount.
  { intros Q E HQ. case_bool_decide as Hs; [|by eapply wp_live_count]. subst dst. rewrite Hsrc in Hdst. injection Hdst as ->. by apply wp_ret. }
  apply Hcount. destruct (_ <? _); [|done]. apply wp_bind.
  eapply wp_mono; [by eapply sparse_move_spec| |].
  - intros vm' [] H. by apply wp_ret.
  - cbn. unfold move_refused. tauto.
Qed.
End MoveTheorem.

(** C22: [table.move(src, a, b, t, dst)] leaves under [dst[t + o]] what [src[a + o]] held before
    the call, for every [0 <= o <= b - a], whether it copies element by element or through a
    snapshot of the live entries, and whether or not the ranges overlap; every other key of
    every table keeps its value. It neither panics nor loops; it raises only for the listed
    reasons, and then leaves the heap as it was. The source holds no native integer key in
    the range. *)
Theorem table_move_correct {AL : Allocator} {MA : MapAllocator} {TS : TableSizes} {HS : HeapSizes} {LS : TableLibSizes}
  vm src dst va vb vt vd a b t tsrc tdst :
  let args := [VTable src; va; vb; vt; vd] in
  arg_int args 1 = Some a -> arg_int args 2 = Some b -> arg_int args 3 = Some t ->
  vd = VTable dst \/ (vd = VNil /\ dst = src) ->
  exact a -> exact b -> exact t ->
  tables_ok vm -> small_arrays vm -> table_of vm src = Some tsrc -> table_of vm dst = Some tdst -> no_native tsrc a b ->
  wp (table_move args) vm
    (fun vm' r => r = [VTable dst] /\ if decide (b < a) then vm' = vm else moved_to vm src dst a b t vm')
    (fun vm' _ => same_but_gas vm vm' /\ a <= b /\ move_refused vm dst tsrc tdst a b t).
Proof.
  intros args Hva Hvb Hvt Hvd Ha Hb Ht Hok Hsm Hsrc Hdst Hnat. unfold table_move, move_arg.
  apply wp_bind, wp_ret. rewrite Hva, Hvb, Hvt. apply wp_bind, wp_ret, wp_bind, wp_ret, wp_bind, wp_ret, wp_bind.
  assert (forall Q E, Q vm dst -> wp (match arg args 4 with
    | VTable handle => lret handle | VNil => lret src
    | _ => lraise "bad argument #5 to 'table.move' (table expected)" end) vm Q E) as Hd.
  { intros Q E HQ. unfold args, arg. cbn. destruct Hvd as [->|[-> ->]]; by apply wp_ret. }
  apply Hd. clear Hd. destruct (Z.ltb_spec b a); [apply wp_ret; split; [done|]; by rewrite decide_True|].
  destruct (decide (b < a)) as [|_]; [lia|]. unfold require_writable. apply wp_bind, wp_bind, wp_get.
  destruct (is_readonly vm dst) eqn:Hro; [apply wp_raise; split; [done|]; unfold move_refused; tauto|]. apply wp_ret.
  destruct (Z.ltb_spec 0 a); [|destruct (Z.ltb_spec b (INT_MAX + a))]; cbn [orb negb];
    try (apply wp_raise; split; [done|]; split; [done|]; unfold move_refused; right; left; lia).
  all: destruct (Z.ltb_spec (INT_MAX - (b - a + 1) + 1) t);
    [apply wp_raise; split; [done|]; split; [done|]; unfold move_refused; right; right; left; lia|].
  all: eapply wp_mono; [apply (move_paths vm src dst a b t tsrc tdst); try done; unfold exact, INT_MAX in *; lia|done|];
    intros vm' e []; done.
Qed.

Definition move_sizes : TableLibSizes := {| size_IndexedValue := 24 |}.
Definition move_vm : Vm := sample_vm (sequence [num 10; num 20; num 30]) (sequence [num 1; num 2]) None.

Lemma move_vm_ok : tables_ok move_vm.
Proof. exact (sample_tables_ok (sequence [num 10; num 20; num 30]) (sequence [num 1; num 2]) None (sequence_ok _) (sequence_ok _)). Qed.

Lemma move_vm_small : small_arrays move_vm.
Proof.
  intros u t Ht. destruct (sample_table _ _ _ _ _ Ht) as [[_ Hs]|[_ Hs]]; rewrite Hs; by vm_compute.
Qed.

Lemma move_vm_no_native : no_native (sequence [num 10; num 20; num 30]) 2 1000.
Proof.
  intros i v Hin. change (LuaTable.for_each_entry (sequence [num 10; num 20; num 30]))
    with [(num 1, num 10); (num 2, num 20); (num 3, num 30)] in Hin.
  repeat (apply elem_of_cons in Hin as [[=]|Hin]). by apply not_elem_of_nil in Hin.
Qed.

Lemma table_move_correct_witness :
  exact 1000 /\
  wp (OA := refused_on_abort (AL := exact_allocator) (MA := doubling_map))
    (table_move (AL := exact_allocator) (MA := doubling_map) (TS := sizes64) (HS := lib_sizes) (LS := move_sizes)
      [VTable (th 0); num 2; num 1000; num 1; VTable (th 1)]) move_vm
    (fun vm' r => r = [VTable (th 1)] /\ if decide (1000 < 2) then vm' = move_vm else moved_to move_vm (th 0) (th 1) 2 1000 1 vm')
    (fun vm' _ => same_but_gas move_vm vm' /\ 2 <= 1000 /\
       move_refused (AL := exact_allocator) (MA := doubling_map) (LS := move_sizes) move_vm (th 1)
         (sequence [num 10; num 20; num 30]) (sequence [num 1; num 2]) 2 1000 1).
Proof.
  split; [done|].
  exact (table_move_correct (AL := exact_allocator) (MA := doubling_map) (TS := sizes64) (HS := lib_sizes) (LS := move_sizes)
    move_vm (th 0) (th 1) (num 2) (num 1000) (num 1) (VTable (th 1)) 2 1000 1
    (sequence [num 10; num 20; num 30]) (sequence [num 1; num 2])
    ltac:(by vm_compute) ltac:(by vm_compute) ltac:(by vm_compute) (or_introl eq_refl) ltac:(done) ltac:(done) ltac:(done)
    move_vm_ok move_vm_small ltac:(by vm_compute) ltac:(by vm_compute) move_vm_no_native).
Defined.

(** ** Native integer keys *)

(** A source whose only entry is under the native integer [5]. *)
Definition native_source : LuaTable :=
  match LuaTable.set (AL := exact_allocator) (MA := doubling_map) (SZ := sizes64) (sequence []) meter_default (VInteger 5) (num 50) with
  | Ok ((t, _), _) => t
  | Err _ => sequence []
  end.
Definition native_vm : Vm := sample_vm native_source (sequence []) None.

(** The value under [5] in the destination after moving [1] to the given bound. *)
Definition move_native (last : Z) : option RawValue :=
  match table_move (AL := exact_allocator) (MA := doubling_map) (TS := sizes64) (HS := lib_sizes) (LS := move_sizes)
          [VTable (th 0); num 1; num last; num 1; VTable (th 1)] native_vm with
  | (vm', Ret _) => Some (at_key vm' (th 1) (LInteger 5))
  | _ => None
  end.

(** The two paths of [table.move] disagree about a source entry under a native integer
    key: indexing reads the number [5], which is another key, so the element-by-element copy
    leaves [dst[5]] nil; the sparse path copies the entry. Which happens depends on the width
    of the range only. *)
Theorem table_move_native_keys :
  at_key native_vm (th 0) (LInteger 5) = VNil /\ move_native 20 = Some VNil /\ move_native 100 = Some (num 50).
Proof. by vm_compute. Qed.
