(* ===== verification/Bit32.v ===== *)
(** * Bit32: the [bit32] library

    Model of [ruau-vm/src/builtins/bit32_lib.rs] and of its entries in the dispatch of
    [builtins/mod.rs]. A [u32] is a [Z]; shifts by a machine integer mask the distance, as in a
    release build. The theorems say what every operation does to the 32 bits of its arguments,
    for all displacements, and exhibit a field that escapes the range check. *)

From Stdlib Require Import ZArith Lia.
From stdpp Require Import base numbers list strings option.
From S2P Require Import Prelude RustExec Value LibHeap.

(** ** Machine operations on [u32] and [u64] *)

Definition shl_u32 (v s : Z) : Z := as_u32 (Z.shiftl v (s mod 32)).
Definition shr_u32 (v s : Z) : Z := Z.shiftr v (s mod 32).
Definition shl_u64 (v s : Z) : Z := as_u64 (Z.shiftl v (s mod 64)).
Definition not_u32 (v : Z) : Z := Z.lxor v 4294967295.
Definition rotate_left (v k : Z) : Z := Z.lor (as_u32 (Z.shiftl v k)) (Z.shiftr v (32 - k)).
Definition rotate_right (v k : Z) : Z := Z.lor (Z.shiftr v k) (as_u32 (Z.shiftl v (32 - k))).
Definition leading_zeros (v : Z) : Z := if v =? 0 then 32 else 31 - Z.log2 v.
Definition swap_bytes (v : Z) : Z := from_le_bytes (rev (le_bytes 4 v)).

(** [trailing_zeros] by its definition: the lowest set bit. *)
Fixpoint trailing_zeros_from (n : nat) (i v : Z) : Z :=
  match n with
  | O => i
  | S n' => if Z.testbit v i then i else trailing_zeros_from n' (i + 1) v
  end.
Definition trailing_zeros (v : Z) : Z := trailing_zeros_from 32 0 v.

(** [n.trunc()] of a finite double, as an integer. *)
Definition f64_trunc (b : Z) : option Z :=
  let e := f64_exp b in
  let m := f64_man b in
  if e =? 2047 then None
  else
    let m' := if e =? 0 then m else m + 4503599627370496 in
    let e' := if e =? 0 then 1 else e in
    let mag := if 1075 <=? e' then m' * 2 ^ (e' - 1075) else m' / 2 ^ (1075 - e') in
    Some (if f64_neg b then - mag else mag).

(** [n.trunc().rem_euclid(4_294_967_296.0) as u32]: the remainder is exact, and zero for an
    infinity or a NaN. *)
Definition f64_mod_u32 (b : Z) : Z :=
  match f64_trunc b with
  | Some z => z mod 4294967296
  | None => 0
  end.

(** ** The library *)

Definition arg_or_nil (args : list RawValue) (i : nat) : RawValue := default VNil (args !! i).

Definition bit_arg (args : list RawValue) (i : nat) : Exec Z :=
  match arg_or_nil args i with
  | VInteger i => Done (as_u32 i)
  | VNumber n => Done (f64_mod_u32 n)
  | _ => Raise "bad argument to a bit32 function (number expected)"
  end.

Definition shift_disp (args : list RawValue) : Exec Z :=
  match arg_int args 1 with
  | Some disp => Done (Z.max (-32) (Z.min 32 disp))
  | None => Raise "bad argument #2 to a bit32 shift (number expected)"
  end.

Definition bit32_result (value : Z) : RawValue := VNumber (f64_of_u64 value).

Fixpoint bit32_fold (op : Z -> Z -> Z) (args : list RawValue) (indices : list nat) (acc : Z) : Exec Z :=
  match indices with
  | [] => Done acc
  | i :: indices' => let! v := bit_arg args i in bit32_fold op args indices' (op acc v)
  end.

Definition bit32_reduce (args : list RawValue) (identity : Z) (op : Z -> Z -> Z) : Exec (list RawValue) :=
  let! acc := bit32_fold op args (seq 0 (length args)) identity in Done [bit32_result acc].

Definition shift_logical (value disp : Z) : Z :=
  if (disp <=? -32) || (32 <=? disp) then 0
  else if 0 <=? disp then shl_u32 value disp
  else shr_u32 value (- disp).

Definition shift_arith (value disp : Z) : Z :=
  if disp <? 0 then shift_logical value (- disp)
  else if 32 <=? disp then (if negb (Z.land value 2147483648 =? 0) then 4294967295 else 0)
  else as_u32 (Z.shiftr (as_i32 value) (disp mod 32)).

Definition rotate_amount (args : list RawValue) : Exec Z :=
  match arg_int args 1 with
  | Some disp => Done (disp mod 32)
  | None => Raise "bad argument #2 to a bit32 rotate (number expected)"
  end.

(** The sum of the bounds wraps around. *)
Definition bit_field (args : list RawValue) (field_index : nat) : Exec (Z * Z) :=
  match arg_int args field_index with
  | None => Raise "bad argument to a bit32 field op (number expected)"
  | Some field =>
      let width := default 1 (arg_int args (S field_index)) in
      if (field <? 0) || (width <? 1) || (32 <? as_i64 (field + width)) then
        Raise "trying to access non-existent bits"
      else Done (as_u32 field, as_u32 width)
  end.

Definition bit32_extract (args : list RawValue) : Exec (list RawValue) :=
  let! value := bit_arg args 0 in
  let! range := bit_field args 1 in
  let '(field, width) := range in
  let mask := shl_u64 1 width - 1 in
  Done [bit32_result (as_u32 (Z.land (shr_u32 value field) mask))].

Definition bit32_replace (args : list RawValue) : Exec (list RawValue) :=
  let! value := bit_arg args 0 in
  let! replacement := bit_arg args 1 in
  let! range := bit_field args 2 in
  let '(field, width) := range in
  let mask := as_u32 (shl_u64 1 width - 1) in
  let cleared := Z.land value (not_u32 (shl_u32 mask field)) in
  Done [bit32_result (Z.lor cleared (shl_u32 (Z.land replacement mask) field))].

(** The entries of the dispatch. *)
Inductive Bit32Builtin : Set :=
| Bit32Band | Bit32Bor | Bit32Bxor | Bit32Bnot | Bit32Lshift | Bit32Rshift | Bit32Arshift | Bit32Btest
| Bit32Lrotate | Bit32Rrotate | Bit32Extract | Bit32Replace | Bit32Countlz | Bit32Countrz | Bit32Byteswap.

Definition call_bit32 (b : Bit32Builtin) (args : list RawValue) : Exec (list RawValue) :=
  match b with
  | Bit32Band => bit32_reduce args 4294967295 Z.land
  | Bit32Bor => bit32_reduce args 0 Z.lor
  | Bit32Bxor => bit32_reduce args 0 Z.lxor
  | Bit32Bnot => let! v := bit_arg args 0 in Done [bit32_result (not_u32 v)]
  | Bit32Lshift => let! v := bit_arg args 0 in let! d := shift_disp args in Done [bit32_result (shift_logical v d)]
  | Bit32Rshift => let! v := bit_arg args 0 in let! d := shift_disp args in Done [bit32_result (shift_logical v (- d))]
  | Bit32Arshift => let! v := bit_arg args 0 in let! d := shift_disp args in Done [bit32_result (shift_arith v d)]
  | Bit32Btest =>
      let! acc := bit32_fold Z.land args (seq 0 (length args)) 4294967295 in Done [VBoolean (negb (acc =? 0))]
  | Bit32Lrotate => let! v := bit_arg args 0 in let! k := rotate_amount args in Done [bit32_result (rotate_left v k)]
  | Bit32Rrotate => let! v := bit_arg args 0 in let! k := rotate_amount args in Done [bit32_result (rotate_right v k)]
  | Bit32Extract => bit32_extract args
  | Bit32Replace => bit32_replace args
  | Bit32Countlz => let! v := bit_arg args 0 in Done [bit32_result (leading_zeros v)]
  | Bit32Countrz => let! v := bit_arg args 0 in Done [bit32_result (trailing_zeros v)]
  | Bit32Byteswap => let! v := bit_arg args 0 in Done [bit32_result (swap_bytes v)]
  end.

(** ** Bits *)

Lemma as_u32_bit x i : 0 <= i -> Z.testbit (as_u32 x) i = (i <? 32) && Z.testbit x i.
Proof.
  intros Hi. unfold as_u32. change 4294967296 with (2 ^ 32). destruct (Z.ltb_spec i 32).
  - by rewrite Z.mod_pow2_bits_low.
  - by rewrite Z.mod_pow2_bits_high by lia.
Qed.

Lemma u32_high v i : is_u32 v -> 32 <= i -> Z.testbit v i = false.
Proof. intros Hv Hi. rewrite <- (as_u32_small v Hv), as_u32_bit by lia. by rewrite (proj2 (Z.ltb_ge _ _)). Qed.

(** A number whose bits are those of the low 32 bits. *)
Lemma u32_of_bits x : (forall i, 32 <= i -> Z.testbit x i = false) -> is_u32 x.
Proof.
  intros H. assert (as_u32 x = x) as <-; [|apply as_u32_range]. apply Z.bits_inj'. intros i Hi. rewrite as_u32_bit by done.
  destruct (Z.ltb_spec i 32); [done|]. by rewrite H.
Qed.

Lemma bit_arg_u32 args i v : bit_arg args i = Done v -> is_u32 v.
Proof.
  unfold bit_arg. destruct (arg_or_nil args i); try done; intros [= <-]; [|apply as_u32_range].
  unfold f64_mod_u32. destruct (f64_trunc _); [apply as_u32_range|done].
Qed.

(** The bit [i] of the result of a shift or rotation by [d], of a 32-bit word. *)
Definition shifted_bit (v d i : Z) : bool := Z.testbit v (i - d).
Definition arithmetic_bit (v d i : Z) : bool := if d <? 0 then Z.testbit v (i + d) else Z.testbit v (Z.min 31 (i + d)).
Definition rotated_bit (v d i : Z) : bool := Z.testbit v ((i - d) mod 32).

(** The word with the given bits. *)
Definition has_bits (w : Z) (f : Z -> bool) : Prop := is_u32 w /\ forall i, 0 <= i < 32 -> Z.testbit w i = f i.

Lemma has_bits_intro w f :
  (forall i, 0 <= i -> Z.testbit w i = (i <? 32) && f i) -> has_bits w f.
Proof.
  intros H. split.
  - apply u32_of_bits. intros i Hi. rewrite H by lia. by rewrite (proj2 (Z.ltb_ge _ _)).
  - intros i Hi. rewrite H by lia. by rewrite (proj2 (Z.ltb_lt _ _)) by lia.
Qed.

Lemma shift_logical_bits v d : is_u32 v -> has_bits (shift_logical v d) (shifted_bit v d).
Proof.
  intros Hv. apply has_bits_intro. intros i Hi. unfold shift_logical, shifted_bit, shl_u32, shr_u32.
  destruct ((d <=? -32) || (32 <=? d)) eqn:E.
  - rewrite Z.bits_0. destruct (Z.ltb_spec i 32); [|done]. cbn [andb]. symmetry. destruct (Z.leb_spec 32 d).
    + by apply Z.testbit_neg_r; lia.
    + apply u32_high; [done|lia].
  - destruct (Z.leb_spec 0 d).
    + rewrite Z.mod_small by lia. rewrite as_u32_bit, Z.shiftl_spec by lia. done.
    + rewrite Z.mod_small by lia. rewrite Z.shiftr_spec by lia. replace (i + - d) with (i - d) by lia.
      destruct (Z.ltb_spec i 32); [done|]. apply u32_high; [done|lia].
Qed.

Lemma as_i32_bits v i : is_u32 v -> 0 <= i -> Z.testbit (as_i32 v) i = Z.testbit v (Z.min 31 i).
Proof.
  intros Hv Hi. pose proof Hv as Hr. unfold is_u32 in Hr. unfold as_i32. rewrite as_u32_small by done.
  assert (Z.testbit v 31 = (2147483648 <=? v)) as H31.
  { rewrite Z.testbit_eqb by lia. change (2 ^ 31) with 2147483648. destruct (Z.leb_spec 2147483648 v); [apply Z.eqb_eq|apply Z.eqb_neq]; zdm. }
  destruct (Z.ltb_spec v 2147483648).
  - destruct (Z.le_gt_cases i 31); [by rewrite Z.min_r|]. rewrite Z.min_l by lia. rewrite u32_high by (done || lia). rewrite H31.
    symmetry. apply Z.leb_gt. lia.
  - destruct (Z.le_gt_cases i 31).
    + rewrite Z.min_r by done. destruct (Z.ltb_spec i 32); [|lia].
      assert (Z.testbit (as_u32 (v - 4294967296)) i = Z.testbit v i) as Hb.
      { f_equal. rewrite <- (as_u32_small v Hv) at 2. unfold as_u32. zdm. }
      rewrite as_u32_bit in Hb by done. by rewrite (proj2 (Z.ltb_lt i 32)) in Hb by lia.
    + rewrite Z.min_l by lia. rewrite H31, (proj2 (Z.leb_le _ _)) by lia.
      rewrite <- (Z.lnot_involutive (v - 4294967296)), Z.lnot_spec by lia.
      assert (is_u32 (Z.lnot (v - 4294967296))) as Hu by (unfold is_u32, Z.lnot; lia).
      by rewrite (u32_high _ i Hu) by lia.
Qed.

Lemma shift_arith_bits v d : is_u32 v -> has_bits (shift_arith v d) (arithmetic_bit v d).
Proof.
  intros Hv. unfold shift_arith. destruct (Z.ltb_spec d 0).
  { destruct (shift_logical_bits v (- d) Hv) as [Hu Hb]. split; [done|]. intros i Hi. rewrite Hb by done.
    unfold shifted_bit, arithmetic_bit. rewrite (proj2 (Z.ltb_lt _ _)) by done. f_equal. lia. }
  unfold arithmetic_bit. rewrite (proj2 (Z.ltb_ge _ _)) by done. destruct (Z.leb_spec 32 d).
  - assert (Z.land v 2147483648 = if Z.testbit v 31 then 2147483648 else 0) as Hl.
    { apply Z.bits_inj'. intros i Hi. rewrite Z.land_spec. change 2147483648 with (2 ^ 31). rewrite Z.pow2_bits_eqb by lia.
      destruct (Z.eqb_spec 31 i) as [<-|]; [rewrite andb_true_r|rewrite andb_false_r];
        destruct (Z.testbit v 31); rewrite ?Z.bits_0, ?Z.pow2_bits_eqb by lia; [done..| |done].
      by rewrite (proj2 (Z.eqb_neq _ _)). }
    rewrite Hl. apply has_bits_intro. intros i Hi. rewrite Z.min_l by lia. destruct (Z.testbit v 31); cbn [Z.eqb negb].
    + rewrite andb_true_r. change 4294967295 with (Z.ones 32). by rewrite Z.testbit_ones_nonneg by lia.
    + by rewrite Z.bits_0, andb_false_r.
  - apply has_bits_intro. intros i Hi. rewrite as_u32_bit by done. destruct (Z.ltb_spec i 32); [|done]. cbn [andb].
    rewrite Z.mod_small by lia. rewrite Z.shiftr_spec by done. by apply as_i32_bits; [|lia].
Qed.

Lemma rotate_left_bits v d : is_u32 v -> has_bits (rotate_left v (d mod 32)) (rotated_bit v d).
Proof.
  intros Hv. apply has_bits_intro. intros i Hi. unfold rotate_left, rotated_bit. set (k := d mod 32).
  assert (0 <= k < 32) as Hk by (apply Z.mod_pos_bound; lia).
  rewrite Z.lor_spec, as_u32_bit, Z.shiftl_spec, Z.shiftr_spec by lia. destruct (Z.ltb_spec i 32); cbn [andb].
  - assert ((i - d) mod 32 = if k <=? i then i - k else i - k + 32) as -> by (unfold k; destruct (Z.leb_spec (d mod 32) i); zdm).
    destruct (Z.leb_spec k i).
    + rewrite (u32_high v (i + (32 - k))) by (done || lia). by rewrite orb_false_r.
    + rewrite Z.testbit_neg_r by lia. cbn [orb]. f_equal. lia.
  - apply u32_high; [done|lia].
Qed.

Lemma rotate_right_bits v d : is_u32 v -> has_bits (rotate_right v (d mod 32)) (rotated_bit v (- d)).
Proof.
  intros Hv. apply has_bits_intro. intros i Hi. unfold rotate_right, rotated_bit. set (k := d mod 32).
  assert (0 <= k < 32) as Hk by (apply Z.mod_pos_bound; lia).
  rewrite Z.lor_spec, as_u32_bit, Z.shiftl_spec, Z.shiftr_spec by lia. destruct (Z.ltb_spec i 32); cbn [andb].
  - assert ((i - - d) mod 32 = if i + k <? 32 then i + k else i + k - 32) as -> by (unfold k; destruct (Z.ltb_spec (i + d mod 32) 32); zdm).
    destruct (Z.ltb_spec (i + k) 32).
    + rewrite (Z.testbit_neg_r v (i - (32 - k))) by lia. by rewrite orb_false_r.
    + rewrite (u32_high v (i + k)) by (done || lia). cbn [orb]. f_equal. lia.
  - rewrite u32_high by (done || lia). done.
Qed.

(** ** The theorems *)

Lemma has_bits_ext w f g : has_bits w f -> (forall i, 0 <= i < 32 -> f i = g i) -> has_bits w g.
Proof. intros [Hu Hf] H. split; [done|]. intros i Hi. by rewrite Hf, H. Qed.

(** Clamping the displacement loses nothing. *)
Lemma clamped_shift_bits v d (s := Z.max (-32) (Z.min 32 d)) :
  is_u32 v -> has_bits (shift_logical v s) (shifted_bit v d) /\ has_bits (shift_logical v (- s)) (shifted_bit v (- d)) /\
    has_bits (shift_arith v s) (arithmetic_bit v d).
Proof.
  intros Hv. assert (forall n, 0 <= n -> ~ (0 <= n < 32) -> Z.testbit v n = false) as Hhigh by (intros; apply u32_high; [done|lia]).
  split_and!.
  - apply (has_bits_ext _ _ _ (shift_logical_bits v s Hv)). intros i Hi. unfold shifted_bit.
    destruct (Z.le_gt_cases 32 d); [by rewrite !Z.testbit_neg_r by lia|]. destruct (Z.le_gt_cases d (-32)); [by rewrite !Hhigh by lia|]. f_equal. lia.
  - apply (has_bits_ext _ _ _ (shift_logical_bits v (- s) Hv)). intros i Hi. unfold shifted_bit.
    destruct (Z.le_gt_cases 32 d); [by rewrite !Hhigh by lia|]. destruct (Z.le_gt_cases d (-32)); [by rewrite !Z.testbit_neg_r by lia|]. f_equal. lia.
  - apply (has_bits_ext _ _ _ (shift_arith_bits v s Hv)). intros i Hi. unfold arithmetic_bit.
    destruct (Z.ltb_spec s 0), (Z.ltb_spec d 0); try lia.
    + destruct (Z.le_gt_cases d (-32)); [by rewrite !Z.testbit_neg_r by lia|]. f_equal. lia.
    + f_equal. lia.
Qed.

(** The shifts and rotations, for any displacement, negative or beyond the width: a logical
    shift moves the bits and fills with zeros, an arithmetic one fills with the sign from the
    left, a rotation is modulo 32. *)
Theorem bit32_shifts_exact args v d :
  bit_arg args 0 = Done v -> arg_int args 1 = Some d ->
  exists l r a rl rr,
    call_bit32 Bit32Lshift args = Done [bit32_result l] /\ has_bits l (shifted_bit v d) /\
    call_bit32 Bit32Rshift args = Done [bit32_result r] /\ has_bits r (shifted_bit v (- d)) /\
    call_bit32 Bit32Arshift args = Done [bit32_result a] /\ has_bits a (arithmetic_bit v d) /\
    call_bit32 Bit32Lrotate args = Done [bit32_result rl] /\ has_bits rl (rotated_bit v d) /\
    call_bit32 Bit32Rrotate args = Done [bit32_result rr] /\ has_bits rr (rotated_bit v (- d)).
Proof.
  intros Hv Hd. pose proof (bit_arg_u32 _ _ _ Hv) as Hu. destruct (clamped_shift_bits v d Hu) as (Hl & Hr & Ha).
  unfold call_bit32, shift_disp, rotate_amount. rewrite Hv, Hd. cbn [exec_bind].
  eexists _, _, _, _, _. repeat (split; [reflexivity|split; [first [exact Hl|exact Hr|exact Ha|by apply rotate_left_bits]|]]).
  split; [reflexivity|by apply rotate_right_bits].
Qed.

(** The bits of a mask of [width] ones, as the code builds it. *)
Lemma field_mask width : 1 <= width <= 32 -> shl_u64 1 width - 1 = Z.ones width.
Proof.
  intros Hw. unfold shl_u64, as_u64. rewrite (Z.mod_small width) by lia. rewrite Z.shiftl_1_l, Z.mod_small; [rewrite Z.ones_equiv; lia|].
  split; [lia|]. change 18446744073709551616 with (2 ^ 64). apply Z.pow_lt_mono_r; lia.
Qed.

Definition extracted_bit (v field width i : Z) : bool := (i <? width) && Z.testbit v (field + i).
Definition replaced_bit (v r field width i : Z) : bool :=
  if (field <=? i) && (i <? field + width) then Z.testbit r (i - field) else Z.testbit v i.

Lemma extract_bits v field width :
  is_u32 v -> 0 <= field -> 1 <= width -> field + width <= 32 ->
  has_bits (as_u32 (Z.land (shr_u32 v field) (shl_u64 1 width - 1))) (extracted_bit v field width).
Proof.
  intros Hv Hf Hw Hb. rewrite field_mask by lia. apply has_bits_intro. intros i Hi. unfold extracted_bit, shr_u32.
  rewrite Z.mod_small by lia. rewrite as_u32_bit, Z.land_spec, Z.shiftr_spec, Z.testbit_ones_nonneg by lia.
  rewrite (Z.add_comm i field). by destruct (i <? width), (i <? 32), (Z.testbit v (field + i)).
Qed.

Lemma not_u32_bit x i : is_u32 x -> 0 <= i -> Z.testbit (not_u32 x) i = (i <? 32) && negb (Z.testbit x i).
Proof.
  intros Hx Hi. unfold not_u32. change 4294967295 with (Z.ones 32). rewrite Z.lxor_spec, Z.testbit_ones_nonneg by lia.
  destruct (Z.ltb_spec i 32); cbn [andb]; [by rewrite xorb_true_r|]. by rewrite u32_high by (done || lia).
Qed.

Lemma replace_bits v r field width :
  is_u32 v -> 0 <= field -> 1 <= width -> field + width <= 32 ->
  let mask := as_u32 (shl_u64 1 width - 1) in
  has_bits (Z.lor (Z.land v (not_u32 (shl_u32 mask field))) (shl_u32 (Z.land r mask) field)) (replaced_bit v r field width).
Proof.
  intros Hv Hf Hw Hb mask. unfold mask. rewrite field_mask by lia. apply has_bits_intro. intros i Hi. unfold replaced_bit, shl_u32.
  rewrite Z.mod_small by lia. rewrite Z.lor_spec, Z.land_spec, not_u32_bit, !as_u32_bit, !Z.shiftl_spec by (done || apply as_u32_range || lia).
  destruct (Z.ltb_spec i 32); cbn [andb]; [|by rewrite andb_false_r]. destruct (Z.leb_spec field i); cbn [andb].
  - rewrite Z.land_spec, as_u32_bit, Z.testbit_ones_nonneg by lia. rewrite (proj2 (Z.ltb_lt (i - field) 32)) by lia. cbn [andb].
    destruct (Z.ltb_spec i (field + width)).
    + rewrite (proj2 (Z.ltb_lt _ _)) by lia. cbn [negb]. by rewrite andb_false_r, andb_true_r.
    + rewrite (proj2 (Z.ltb_ge _ _)) by lia. cbn [negb]. by rewrite andb_true_r, andb_false_r, orb_false_r.
  - rewrite !(Z.testbit_neg_r _ (i - field)) by lia. cbn [negb]. by rewrite andb_true_r, orb_false_r.
Qed.

(** [extract] and [replace] read and write exactly the bits of a field inside the word, and
    raise for every field outside it, as long as the sum of its bounds does not overflow. *)
Theorem bit32_fields_exact args v r field width :
  bit_arg args 0 = Done v -> is_i64 field -> is_i64 width -> is_i64 (field + width) ->
  (arg_int args 1 = Some field -> default 1 (arg_int args 2) = width ->
     if decide (0 <= field /\ 1 <= width /\ field + width <= 32)
     then exists w, call_bit32 Bit32Extract args = Done [bit32_result w] /\ has_bits w (extracted_bit v field width)
     else call_bit32 Bit32Extract args = Raise "trying to access non-existent bits") /\
  (bit_arg args 1 = Done r -> arg_int args 2 = Some field -> default 1 (arg_int args 3) = width ->
     if decide (0 <= field /\ 1 <= width /\ field + width <= 32)
     then exists w, call_bit32 Bit32Replace args = Done [bit32_result w] /\ has_bits w (replaced_bit v r field width)
     else call_bit32 Bit32Replace args = Raise "trying to access non-existent bits").
Proof.
  intros Hv Hf Hw Hs. pose proof (bit_arg_u32 _ _ _ Hv) as Hu.
  assert (as_i64 (field + width) = field + width) as Hsum by (unfold is_i64 in Hs; zcast).
  assert (((field <? 0) || (width <? 1) || (32 <? field + width)) = negb (bool_decide (0 <= field /\ 1 <= width /\ field + width <= 32))) as Hg.
  { destruct (Z.ltb_spec field 0), (Z.ltb_spec width 1), (Z.ltb_spec 32 (field + width)); case_bool_decide; done || lia. }
  unfold call_bit32, bit32_extract, bit32_replace, bit_field. rewrite Hv. cbn [exec_bind]. split.
  - intros H1 H2. rewrite H1, H2, Hsum, Hg. destruct (decide _) as [(H3 & H4 & H5)|Hn]; [|by rewrite bool_decide_false by done].
    rewrite bool_decide_true by done. cbn [negb exec_bind]. rewrite (as_u32_small field), (as_u32_small width) by (unfold is_u32; lia).
    eexists. split; [done|]. by apply extract_bits.
  - intros H0 H1 H2. rewrite H0. cbn [exec_bind]. rewrite H1, H2, Hsum, Hg. destruct (decide _) as [(H3 & H4 & H5)|Hn]; [|by rewrite bool_decide_false by done].
    rewrite bool_decide_true by done. cbn [negb exec_bind]. rewrite !(as_u32_small field), !(as_u32_small width) by (unfold is_u32; lia).
    eexists. split; [done|]. by apply replace_bits.
Qed.

(** A field position of infinity saturates to the largest integer, where the sum of the
    bounds wraps: instead of the range error, bit 31 is read, and written. *)
Theorem bit32_field_overflow :
  let infinity := VNumber 9218868437227405312 in
  call_bit32 Bit32Extract [VInteger 2147483648; infinity] = Done [bit32_result 1] /\
  call_bit32 Bit32Replace [VInteger 0; VInteger 1; infinity] = Done [bit32_result 2147483648].
Proof. split; by vm_compute. Qed.

(** ** Examples *)

(** The word 0x80000001, and displacements as a number and an integer. *)
Definition shift_args : list RawValue := [VInteger 2147483649; VNumber (f64_of_i64 (-33))].
Definition field_args : list RawValue := [VInteger 4660; VInteger 4; VInteger 8].
Definition replace_args : list RawValue := [VInteger 4660; VInteger 171; VInteger 4; VInteger 8].

Lemma bit32_shifts_exact_witness :
  exists l r a rl rr,
    call_bit32 Bit32Lshift shift_args = Done [bit32_result l] /\ has_bits l (shifted_bit 2147483649 (-33)) /\
    call_bit32 Bit32Rshift shift_args = Done [bit32_result r] /\ has_bits r (shifted_bit 2147483649 (- -33)) /\
    call_bit32 Bit32Arshift shift_args = Done [bit32_result a] /\ has_bits a (arithmetic_bit 2147483649 (-33)) /\
    call_bit32 Bit32Lrotate shift_args = Done [bit32_result rl] /\ has_bits rl (rotated_bit 2147483649 (-33)) /\
    call_bit32 Bit32Rrotate shift_args = Done [bit32_result rr] /\ has_bits rr (rotated_bit 2147483649 (- -33)).
Proof. apply (bit32_shifts_exact shift_args 2147483649 (-33)); by vm_compute. Defined.

Lemma i64_small n : -100 <= n <= 100 -> is_i64 n.
Proof. unfold is_i64. lia. Qed.

Lemma bit32_fields_exact_witness :
  (exists w, call_bit32 Bit32Extract field_args = Done [bit32_result w] /\ has_bits w (extracted_bit 4660 4 8)) /\
  call_bit32 Bit32Extract field_args = Done [bit32_result 35].
Proof.
  split; [|by vm_compute].
  exact (proj1 (bit32_fields_exact field_args 4660 0 4 8 eq_refl (i64_small 4 ltac:(lia)) (i64_small 8 ltac:(lia)) (i64_small 12 ltac:(lia))) eq_refl eq_refl).
Defined.

Example replace_example : call_bit32 Bit32Replace replace_args = Done [bit32_result 6836].
Proof. by vm_compute. Qed.
Example counts_example :
  map (fun b => call_bit32 b [VInteger 4096]) [Bit32Countlz; Bit32Countrz; Bit32Byteswap] =
  [Done [bit32_result 19]; Done [bit32_result 12]; Done [bit32_result 1048576]].
Proof. by vm_compute. Qed.
