(* ===== verification/BufferLib.v ===== *)
(** * BufferLib: the [buffer] library

    Model of [ruau-vm/src/builtins/buffer_lib.rs] on the machine of [LibHeap]: the argument
    readings, the bounds checks, the integer, floating-point, string and bit accesses, [copy] and
    [fill]. Slicing out of range and [copy_from_slice] of different lengths are panics. The
    contents of a buffer are its bytes; its charge does not change after its allocation. The
    bits of a NaN that changes its width are not specified by the language ([NanBits]). *)

From Stdlib Require Import ZArith Lia.
From stdpp Require Import base numbers list strings option gmap.
From S2P Require Import Prelude RustExec RustVec Arena Value LuaTable GcObjects Gc LibHeap Bit32.

(** The configured limits of [heap.limits()] on strings and buffers. *)
Class ByteLimits : Type := { max_string_bytes : Z; max_buffer_bytes : Z }.

(** ** Slices *)

(** [data[a..b]]. *)
Definition slice (data : list Z) (a b : Z) : Exec (list Z) :=
  if (0 <=? a) && (a <=? b) && (b <=? len data) then Done (take (Z.to_nat (b - a)) (drop (Z.to_nat a) data)) else Crash.

(** [data] with the bytes from [a] on replaced by [new]. *)
Definition splice (data : list Z) (a : Z) (new : list Z) : list Z :=
  take (Z.to_nat a) data ++ new ++ drop (Z.to_nat a + length new) data.

(** [data[a..b].copy_from_slice(src)]. *)
Definition copy_from_slice (data : list Z) (a b : Z) (src : list Z) : Exec (list Z) :=
  let! cells := slice data a b in
  if len cells =? len src then Done (splice data a src) else Crash.

(** [data.copy_within(a..b, dest)]. *)
Definition copy_within (data : list Z) (a b dest : Z) : Exec (list Z) :=
  let! cells := slice data a b in
  if (0 <=? dest) && (dest <=? len data - len cells) then Done (splice data dest cells) else Crash.

(** [data[a..b].fill(byte)]. *)
Definition fill_slice (data : list Z) (a b byte : Z) : Exec (list Z) :=
  let! cells := slice data a b in Done (splice data a (replicate (length cells) byte)).

(** [for (i, &b) in bytes.iter().enumerate() { raw |= u64::from(b) << (8 * i); }]. *)
Fixpoint gather (i raw : Z) (bytes : list Z) : Z :=
  match bytes with
  | [] => raw
  | b :: bytes' => gather (i + 1) (Z.lor raw (shl_u64 b (8 * i))) bytes'
  end.

(** ** Floating-point widths *)

(** The bits of the NaN that a NaN becomes when its width changes. *)
Class NanBits : Type := { nan_f32 : Z -> Z; nan_f64 : Z -> Z }.

Section Float.
Context {NB : NanBits}.

(** [m / 2^k] rounded to nearest, ties to even. *)
Definition round_half_even (m k : Z) : Z :=
  let q := m / 2 ^ k in
  let r := m mod 2 ^ k in
  if 2 ^ k <? 2 * r then q + 1
  else if (2 * r =? 2 ^ k) && Z.odd q then q + 1
  else q.

(** [value as f32]. A finite double is [m' * 2^(e' - 1075)]; the unit of the result is
    [2^(q - 149)]. *)
Definition f32_of_f64 (b : Z) : Z :=
  let e := f64_exp b in
  let m := f64_man b in
  let sign := if f64_neg b then 2147483648 else 0 in
  if e =? 2047 then (if m =? 0 then sign + 2139095040 else nan_f32 b)
  else
    let m' := if e =? 0 then m else m + 4503599627370496 in
    let e' := if e =? 0 then 1 else e in
    let q := Z.max 0 (e' - 897) in
    let k := round_half_even m' (q - 149 - (e' - 1075)) in
    sign + Z.min 2139095040 (q * 8388608 + k).

(** [f64::from] of a single. *)
Definition f64_of_f32 (b : Z) : Z :=
  let m := b mod 8388608 in
  let e := (b / 8388608) mod 256 in
  let sign := if 2147483648 <=? b then 9223372036854775808 else 0 in
  if e =? 255 then (if m =? 0 then sign + 9218868437227405312 else nan_f64 b)
  else if e =? 0 then
    (if m =? 0 then sign
     else let k := Z.log2 m in sign + (k + 874) * 4503599627370496 + (m - 2 ^ k) * 2 ^ (52 - k))
  else sign + (e + 896) * 4503599627370496 + m * 536870912.
End Float.

(** ** The heap's buffers *)

Definition heap_buffer (h : Heap) (handle : RawGc) : option LuaBuffer :=
  if negb (gc_heap handle =? h_id h) then None
  else Arena.get (buffers (objects h)) (gc_index handle) (gc_generation handle).

Definition put_buffer (i : Z) (b : LuaBuffer) (h : Heap) : Heap :=
  let o := objects h in
  set_objects (mkStore (strings o) (tables o) (closures o) (userdata o) (threads o)
    (Arena.alter_entry (set_value (Some b)) i (buffers o)) (protos o) (upvals o)) h.

(** The buffer's bytes, empty for one that is not resident. *)
Definition buffer_bytes (vm : Vm) (handle : RawGc) : option (list Z) := b_data <$> heap_buffer (vm_heap vm) handle.
Definition bytes_or_empty (vm : Vm) (handle : RawGc) : list Z := default [] (buffer_bytes vm handle).

(** [heap.buffer(handle).ok_or_else(..)?]. *)
Definition resident_buffer (handle : RawGc) : LM (list Z) :=
  let+ vm := lget in
  match buffer_bytes vm handle with
  | None => lraise "buffer not resident"
  | Some data => lret data
  end.

(** [heap.buffer_mut(handle).ok_or_else(..)?] and an update of its bytes. *)
Definition buffer_mut (handle : RawGc) (f : list Z -> Exec (list Z)) : LM unit := fun vm =>
  match heap_buffer (vm_heap vm) handle with
  | None => (vm, Raised "buffer not resident")
  | Some b =>
      match f (b_data b) with
      | Done data => (set_heap (put_buffer (gc_index handle) (mkBuffer data (b_charged b)) (vm_heap vm)) vm, Ret tt)
      | Raise e => (vm, Raised e)
      | Crash => (vm, Panicked)
      | Diverge => (vm, Looping)
      end
  end.

Section BufferLib.
Context {AL : Allocator} {MA : MapAllocator} {TS : TableSizes} {HS : HeapSizes} {BL : ByteLimits} {NB : NanBits}.

(** [LuaBuffer::try_with_size] and [try_from_bytes] reserve exactly; [alloc_buffer] charges the
    capacity before it allocates, and a buffer that is dropped keeps its charge. *)
Definition alloc_buffer (data : list Z) (fail : string) : LM RawGc := fun vm =>
  match try_reserve 1 (vec_new (A := Z)) (len data) with
  | None => (vm, Raised fail)
  | Some v =>
      let h := vm_heap vm in
      let m1 := RustVec.adjust (meter h) 0 (capacity v) in
      let '((a, m2), r) := Arena.alloc size_buffers (mkBuffer data (capacity v)) (buffers (objects h)) m1 in
      let o := objects h in
      let h' := set_objects (mkStore (strings o) (tables o) (closures o) (userdata o) (threads o) a (protos o) (upvals o)) h in
      match r with
      | Ok (i, g) => (set_heap (set_meter m2 h') vm, Ret (mkGc i g (h_id h)))
      | Err TryReserveError => (set_heap (set_meter m2 h') vm, Raised fail)
      | Err e => (set_heap (set_meter m2 h') vm, fault_outcome e)
      end
  end.

(** ** Arguments *)

Definition bad_arg (i : nat) (name expected : string) : string :=
  "bad argument #" +:+ show (Z.of_nat (S i)) +:+ " to 'buffer." +:+ name +:+ "' (" +:+ expected +:+ " expected)".

Definition arg_buffer (args : list RawValue) (i : nat) (name : string) : LM RawGc :=
  match arg args i with
  | VBuffer handle => lret handle
  | _ => lraise (bad_arg i name "buffer")
  end.

Definition buffer_int_arg (args : list RawValue) (i : nat) (name : string) : LM Z :=
  match arg_int args i with
  | Some n => lret (as_i32 n)
  | None => lraise (bad_arg i name "number")
  end.

Definition buffer_opt_int (args : list RawValue) (i : nat) (dflt : Z) (name : string) : LM Z :=
  match args !! i with
  | None | Some VNil => lret dflt
  | Some (VNumber n) => lret (as_i32 (f64_as_i64 n))
  | Some (VInteger n) => lret (as_i32 n)
  | Some _ => lraise (bad_arg i name "number")
  end.

Definition buffer_uint_arg (args : list RawValue) (i : nat) (name : string) : LM Z :=
  match arg args i with
  | VInteger n => lret (as_u32 n)
  | VNumber n => lret (f64_mod_u32 n)
  | _ => lraise (bad_arg i name "number")
  end.

Definition buffer_num_arg (args : list RawValue) (i : nat) (name : string) : LM Z :=
  match arg args i with
  | VNumber n => lret n
  | VInteger n => lret (f64_of_i64 n)
  | _ => lraise (bad_arg i name "number")
  end.

Definition buffer_long_arg (args : list RawValue) (i : nat) (name : string) : LM Z :=
  match arg args i with
  | VNumber n => lret (f64_as_i64 n)
  | VInteger n => lret n
  | _ => lraise (bad_arg i name "number")
  end.

Definition buffer_string_arg (args : list RawValue) (i : nat) (name : string) : LM (list Z) :=
  match arg args i with
  | VString handle => let+ vm := lget in lret (string_bytes vm handle)
  | _ => lraise (bad_arg i name "string")
  end.

(** ** Bounds *)

Definition out_of_bounds {A} : LM A := lraise "buffer access out of bounds".

Definition buffer_oob (offset size length : Z) : bool := length <? as_u64 (as_u32 offset + size).

Definition checked_buffer_span (handle : RawGc) (offset size : Z) : LM (list Z) :=
  let+ data := resident_buffer handle in
  if buffer_oob offset size (len data) then out_of_bounds
  else let start := as_u32 offset in lexec (slice data start (start + size)).

(** The span, mutably, for an update of [data[start..end]]. *)
Definition checked_buffer_span_mut (handle : RawGc) (offset size : Z) (f : list Z -> Z -> Z -> Exec (list Z)) : LM unit :=
  let+ data := resident_buffer handle in
  if buffer_oob offset size (len data) then out_of_bounds
  else let start := as_u32 offset in buffer_mut handle (fun data => f data start (start + size)).

(** [checked_buffer_span_mut(..)?.copy_from_slice(src)]. *)
Definition write_span (handle : RawGc) (offset size : Z) (src : list Z) : LM unit :=
  checked_buffer_span_mut handle offset size (fun data a b => copy_from_slice data a b src).

Definition checked_byte_copy (bytes : list Z) (name : string) : LM (list Z) :=
  let+ _ := check_cap (len bytes) in
  match try_reserve 1 (vec_new (A := Z)) (len bytes) with
  | Some _ => lret bytes
  | None => lraise ("out of memory for 'buffer." +:+ name +:+ "'")
  end.

Definition checked_string_result_copy (bytes : list Z) (name : string) : LM (list Z) :=
  if max_string_bytes <? len bytes then lraise ("buffer." +:+ name +:+ " result too large")
  else
    let+ _ := check_cap (usize_saturating_mul (len bytes) 2) in
    checked_byte_copy bytes name.

(** ** Creation and conversion *)

Definition buffer_create (args : list RawValue) : LM (list RawValue) :=
  let+ size := buffer_int_arg args 0 "create" in
  if size <? 0 then lraise "invalid argument #1 to 'create' (size)"
  else if max_buffer_bytes <? size then lraise "buffer size exceeds the maximum"
  else
    let+ _ := check_cap size in
    let+ handle := alloc_buffer (replicate (Z.to_nat size) 0) "out of memory for 'buffer.create'" in
    lret [VBuffer handle].

Definition buffer_fromstring (args : list RawValue) : LM (list RawValue) :=
  let+ bytes := buffer_string_arg args 0 "fromstring" in
  if max_buffer_bytes <? len bytes then lraise "buffer size exceeds the maximum"
  else
    let+ _ := check_cap (len bytes) in
    let+ handle := alloc_buffer bytes "out of memory for 'buffer.fromstring'" in
    lret [VBuffer handle].

Definition buffer_tostring (args : list RawValue) : LM (list RawValue) :=
  let+ handle := arg_buffer args 0 "tostring" in
  let+ vm := lget in
  let+ bytes := checked_string_result_copy (bytes_or_empty vm handle) "tostring" in
  let+ s := intern_str bytes "out of memory for 'buffer.tostring'" in
  lret [VString s].

Definition buffer_len (args : list RawValue) : LM (list RawValue) :=
  let+ handle := arg_buffer args 0 "len" in
  let+ vm := lget in
  lret [VNumber (f64_of_u64 (len (bytes_or_empty vm handle)))].

(** ** Numbers *)

Inductive Signedness : Set := Signed | Unsigned.
Inductive FloatWidth : Set := F32 | F64.

Definition buffer_read_int (args : list RawValue) (width : Z) (signedness : Signedness) : LM (list RawValue) :=
  let+ handle := arg_buffer args 0 "read" in
  let+ offset := buffer_int_arg args 1 "read" in
  let+ cells := checked_buffer_span handle offset width in
  let raw := gather 0 0 cells in
  lret [VNumber (match signedness with
                 | Signed => let shift := 64 - width * 8 in f64_of_i64 (Z.shiftr (as_i64 (shl_u64 raw shift)) shift)
                 | Unsigned => f64_of_u64 raw
                 end)].

Definition buffer_write_int (args : list RawValue) (width : Z) : LM (list RawValue) :=
  let+ handle := arg_buffer args 0 "write" in
  let+ offset := buffer_int_arg args 1 "write" in
  let+ value := buffer_uint_arg args 2 "write" in
  let bytes := le_bytes 4 value in
  let+ src := lexec (slice bytes 0 width) in
  let+ _ := write_span handle offset width src in
  lret [].

Definition fp_width (fp : FloatWidth) : Z := match fp with F64 => 8 | F32 => 4 end.

Definition buffer_read_fp (args : list RawValue) (fp : FloatWidth) : LM (list RawValue) :=
  let+ handle := arg_buffer args 0 "read" in
  let+ offset := buffer_int_arg args 1 "read" in
  let+ cells := checked_buffer_span handle offset (fp_width fp) in
  lret [VNumber (match fp with
                 | F64 => from_le_bytes cells
                 | F32 => f64_of_f32 (from_le_bytes cells)
                 end)].

Definition buffer_write_fp (args : list RawValue) (fp : FloatWidth) : LM (list RawValue) :=
  let+ handle := arg_buffer args 0 "write" in
  let+ offset := buffer_int_arg args 1 "write" in
  let+ value := buffer_num_arg args 2 "write" in
  let bytes := match fp with
               | F64 => le_bytes 8 value
               | F32 => le_bytes 4 (f32_of_f64 value)
               end in
  let+ _ := write_span handle offset (fp_width fp) bytes in
  lret [].

Definition buffer_readinteger (args : list RawValue) : LM (list RawValue) :=
  let+ handle := arg_buffer args 0 "readinteger" in
  let+ offset := buffer_int_arg args 1 "readinteger" in
  let+ cells := checked_buffer_span handle offset 8 in
  lret [VInteger (as_i64 (from_le_bytes cells))].

Definition buffer_writeinteger (args : list RawValue) : LM (list RawValue) :=
  let+ handle := arg_buffer args 0 "writeinteger" in
  let+ offset := buffer_int_arg args 1 "writeinteger" in
  let+ value := buffer_long_arg args 2 "writeinteger" in
  let+ _ := write_span handle offset 8 (le_bytes 8 value) in
  lret [].

(** ** Bit fields *)

Record BitRange : Set := mkBitRange { startbyte : Z; endbyte : Z; subbyteoffset : Z }.

Definition bit_range (bitoffset bitcount length : Z) : Exec BitRange :=
  if bitoffset <? 0 then Raise "buffer access out of bounds"
  else if 32 <? as_u32 bitcount then Raise "bit count is out of range of [0; 32]"
  else if as_u64 (length * 8) <? as_u64 (as_u64 bitoffset + as_u64 bitcount) then Raise "buffer access out of bounds"
  else
    Done (mkBitRange (Z.quot bitoffset 8) (Z.quot (as_i64 (bitoffset + bitcount + 7)) 8) (Z.land bitoffset 7)).

Definition bit_mask (bitcount subbyteoffset : Z) : Z := shl_u64 (shl_u64 1 (as_u32 bitcount) - 1) subbyteoffset.

Definition buffer_readbits (args : list RawValue) : LM (list RawValue) :=
  let+ handle := arg_buffer args 0 "readbits" in
  let+ bitoffset := buffer_long_arg args 1 "readbits" in
  let+ bitcount := buffer_int_arg args 2 "readbits" in
  let+ data := resident_buffer handle in
  let+ r := lexec (bit_range bitoffset bitcount (len data)) in
  let+ cells := lexec (slice data (startbyte r) (endbyte r)) in
  let bits := gather 0 0 cells in
  lret [VNumber (f64_of_u64 (Z.shiftr (Z.land bits (bit_mask bitcount (subbyteoffset r))) (subbyteoffset r)))].

Definition not_u64 (v : Z) : Z := Z.lxor v 18446744073709551615.

Definition buffer_writebits (args : list RawValue) : LM (list RawValue) :=
  let+ handle := arg_buffer args 0 "writebits" in
  let+ bitoffset := buffer_long_arg args 1 "writebits" in
  let+ bitcount := buffer_int_arg args 2 "writebits" in
  let+ value := buffer_uint_arg args 3 "writebits" in
  let+ vm := lget in
  let+ r := lexec (bit_range bitoffset bitcount (len (bytes_or_empty vm handle))) in
  let span := endbyte r - startbyte r in
  let+ _ := buffer_mut handle (fun data =>
    let! cells := slice data (startbyte r) (endbyte r) in
    let bits := gather 0 0 cells in
    let mask := bit_mask bitcount (subbyteoffset r) in
    let bits := Z.lor (Z.land bits (not_u64 mask)) (Z.land (shl_u64 value (subbyteoffset r)) mask) in
    let! src := slice (le_bytes 8 bits) 0 span in
    copy_from_slice data (startbyte r) (endbyte r) src) in
  lret [].

(** ** Strings and blocks *)

Definition buffer_readstring (args : list RawValue) : LM (list RawValue) :=
  let+ handle := arg_buffer args 0 "readstring" in
  let+ offset := buffer_int_arg args 1 "readstring" in
  let+ size := buffer_int_arg args 2 "readstring" in
  if size <? 0 then lraise "invalid argument #3 to 'readstring' (size)"
  else
    let+ cells := checked_buffer_span handle offset size in
    let+ bytes := checked_string_result_copy cells "readstring" in
    let+ s := intern_str bytes "out of memory for 'buffer.readstring'" in
    lret [VString s].

(** [i32::try_from(n).unwrap_or(i32::MAX)] of a length. *)
Definition i32_of_len (n : Z) : Z := Z.min 2147483647 n.

Definition buffer_writestring (args : list RawValue) : LM (list RawValue) :=
  let+ handle := arg_buffer args 0 "writestring" in
  let+ offset := buffer_int_arg args 1 "writestring" in
  let+ value := buffer_string_arg args 2 "writestring" in
  let+ count := buffer_opt_int args 3 (i32_of_len (len value)) "writestring" in
  if count <? 0 then lraise "invalid argument #4 to 'writestring' (count)"
  else if len value <? count then lraise "string length overflow"
  else
    let+ prefix := lexec (slice value 0 count) in
    let+ value := checked_byte_copy prefix "writestring" in
    let+ _ := write_span handle offset count value in
    lret [].

(** [(length as i64 - i64::from(offset)).clamp(i32::MIN, i32::MAX) as i32]. *)
Definition default_size (length offset : Z) : Z := Z.max (-2147483648) (Z.min 2147483647 (length - offset)).

Definition buffer_copy (args : list RawValue) : LM (list RawValue) :=
  let+ target := arg_buffer args 0 "copy" in
  let+ toffset := buffer_int_arg args 1 "copy" in
  let+ source := arg_buffer args 2 "copy" in
  let+ soffset := buffer_opt_int args 3 0 "copy" in
  let+ vm := lget in
  let slen := len (bytes_or_empty vm source) in
  let+ size := buffer_opt_int args 4 (default_size slen soffset) "copy" in
  if size <? 0 then out_of_bounds
  else if buffer_oob toffset size (len (bytes_or_empty vm target)) then out_of_bounds
  else if decide (target = source) then
    (if buffer_oob soffset size (len (bytes_or_empty vm source)) then out_of_bounds
     else
       let source_start := as_u32 soffset in
       let target_start := as_u32 toffset in
       let+ _ := buffer_mut target (fun data => copy_within data source_start (source_start + size) target_start) in
       lret [])
  else
    let+ cells := checked_buffer_span source soffset size in
    let+ chunk := checked_byte_copy cells "copy" in
    let+ _ := write_span target toffset size chunk in
    lret [].

Definition buffer_fill (args : list RawValue) : LM (list RawValue) :=
  let+ handle := arg_buffer args 0 "fill" in
  let+ offset := buffer_int_arg args 1 "fill" in
  let+ value := buffer_uint_arg args 2 "fill" in
  let+ vm := lget in
  let length := len (bytes_or_empty vm handle) in
  let+ size := buffer_opt_int args 3 (default_size length offset) "fill" in
  if size <? 0 then out_of_bounds
  else
    let byte := as_u8 (Z.land value 255) in
    let+ _ := checked_buffer_span_mut handle offset size (fun data a b => fill_slice data a b byte) in
    lret [].

(** ** Dispatch *)

Inductive BufferBuiltin : Set :=
| BufferCreate | BufferFromString | BufferToString | BufferLen | BufferReadI8 | BufferReadU8 | BufferReadI16
| BufferReadU16 | BufferReadI32 | BufferReadU32 | BufferReadF32 | BufferReadF64 | BufferWriteI8 | BufferWriteU8
| BufferWriteI16 | BufferWriteU16 | BufferWriteI32 | BufferWriteU32 | BufferWriteF32 | BufferWriteF64
| BufferReadString | BufferWriteString | BufferReadBits | BufferWriteBits | BufferReadInteger | BufferWriteInteger
| BufferCopy | BufferFill.

Definition call_buffer (b : BufferBuiltin) (args : list RawValue) : LM (list RawValue) :=
  match b with
  | BufferCreate => buffer_create args
  | BufferFromString => buffer_fromstring args
  | BufferToString => buffer_tostring args
  | BufferLen => buffer_len args
  | BufferReadI8 => buffer_read_int args 1 Signed
  | BufferReadU8 => buffer_read_int args 1 Unsigned
  | BufferReadI16 => buffer_read_int args 2 Signed
  | BufferReadU16 => buffer_read_int args 2 Unsigned
  | BufferReadI32 => buffer_read_int args 4 Signed
  | BufferReadU32 => buffer_read_int args 4 Unsigned
  | BufferReadF32 => buffer_read_fp args F32
  | BufferReadF64 => buffer_read_fp args F64
  | BufferWriteI8 | BufferWriteU8 => buffer_write_int args 1
  | BufferWriteI16 | BufferWriteU16 => buffer_write_int args 2
  | BufferWriteI32 | BufferWriteU32 => buffer_write_int args 4
  | BufferWriteF32 => buffer_write_fp args F32
  | BufferWriteF64 => buffer_write_fp args F64
  | BufferReadString => buffer_readstring args
  | BufferWriteString => buffer_writestring args
  | BufferReadBits => buffer_readbits args
  | BufferWriteBits => buffer_writebits args
  | BufferReadInteger => buffer_readinteger args
  | BufferWriteInteger => buffer_writeinteger args
  | BufferCopy => buffer_copy args
  | BufferFill => buffer_fill args
  end.
End BufferLib.
