(* ===== verification/BufferFacts.v ===== *)
(** * BufferFacts: slices, little-endian numbers and one buffer of the heap

    What slicing and splicing do to the bytes and to the number they write ([from_le_bytes]);
    when an access is out of bounds; and that updating a buffer changes that buffer alone
    ([written]). *)

From Stdlib Require Import ZArith Lia.
From stdpp Require Import base numbers list strings option gmap.
From S2P Require Import Prelude RustExec RustVec Arena ArenaFacts ArenaTheorems Value LuaTable GcObjects Gc LuaTableTheorems Registry LibHeap LibHeapFacts TableLibFacts Bit32 BufferLib.

(** ** Slices *)

Definition cells_of (data : list Z) (a n : Z) : list Z := take (Z.to_nat n) (drop (Z.to_nat a) data).

Lemma slice_Done data a n : 0 <= a -> 0 <= n -> a + n <= len data -> slice data a (a + n) = Done (cells_of data a n).
Proof.
  intros Ha Hn Hl. unfold slice. rewrite (proj2 (Z.leb_le 0 a)), (proj2 (Z.leb_le a (a + n))), (proj2 (Z.leb_le (a + n) (len data))) by lia.
  cbn [andb]. unfold cells_of. do 3 f_equal. lia.
Qed.

Lemma len_cells data a n : 0 <= a -> 0 <= n -> a + n <= len data -> len (cells_of data a n) = n.
Proof. intros. unfold cells_of, len in *. rewrite length_take, length_drop. lia. Qed.

Lemma len_splice data a new : 0 <= a -> a + len new <= len data -> len (splice data a new) = len data.
Proof. intros. unfold splice, len in *. rewrite !length_app, length_take, length_drop. lia. Qed.

(** Reading back what was spliced in, and what is apart from it. *)
Lemma cells_splice data a new : 0 <= a -> a + len new <= len data -> cells_of (splice data a new) a (len new) = new.
Proof.
  intros Ha Hl. unfold cells_of, splice, len in *. rewrite Nat2Z.id.
  assert (length (take (Z.to_nat a) data) = Z.to_nat a) as Ht by (rewrite length_take; lia).
  rewrite <- Ht at 1. rewrite drop_app_length. by rewrite take_app_length.
Qed.

Lemma splice_lookup data a new i :
  0 <= a -> a + len new <= len data ->
  splice data a new !! i =
    if decide (Z.to_nat a <= i < Z.to_nat a + length new)%nat then new !! (i - Z.to_nat a)%nat else data !! i.
Proof.
  intros Ha Hl. unfold splice, len in *. assert (length (take (Z.to_nat a) data) = Z.to_nat a) as Ht by (rewrite length_take; lia).
  case_decide as Hi.
  - rewrite lookup_app_r, Ht by lia. by rewrite lookup_app_l by lia.
  - destruct (le_lt_dec (Z.to_nat a) i).
    + rewrite lookup_app_r, Ht by lia. rewrite lookup_app_r by lia. rewrite lookup_drop. f_equal. lia.
    + rewrite lookup_app_l by lia. by rewrite lookup_take_lt by lia.
Qed.

Lemma copy_from_slice_Done data a n src :
  0 <= a -> 0 <= n -> a + n <= len data -> len src = n -> copy_from_slice data a (a + n) src = Done (splice data a src).
Proof.
  intros Ha Hn Hl Hs. unfold copy_from_slice. rewrite slice_Done by done. cbn [exec_bind]. rewrite len_cells by done.
  by rewrite (proj2 (Z.eqb_eq _ _)).
Qed.

Lemma copy_within_Done data a n dest :
  0 <= a -> 0 <= n -> a + n <= len data -> 0 <= dest -> dest + n <= len data ->
  copy_within data a (a + n) dest = Done (splice data dest (cells_of data a n)).
Proof.
  intros Ha Hn Hl Hd Hdn. unfold copy_within. rewrite slice_Done by done. cbn [exec_bind]. rewrite len_cells by done.
  by rewrite (proj2 (Z.leb_le 0 _)), (proj2 (Z.leb_le dest _)) by lia.
Qed.

Lemma fill_slice_Done data a n byte :
  0 <= a -> 0 <= n -> a + n <= len data -> fill_slice data a (a + n) byte = Done (splice data a (replicate (Z.to_nat n) byte)).
Proof.
  intros Ha Hn Hl. unfold fill_slice. rewrite slice_Done by done. cbn [exec_bind]. do 3 f_equal.
  pose proof (len_cells data a n Ha Hn Hl). unfold len in *. lia.
Qed.

(** ** The number a list of bytes writes *)

Lemma pow256 n : 256 ^ Z.of_nat n = 2 ^ (8 * Z.of_nat n).
Proof. change 256 with (2 ^ 8). by rewrite <- Z.pow_mul_r by lia. Qed.

Lemma from_le_bytes_app a b : from_le_bytes (a ++ b) = from_le_bytes a + 256 ^ Z.of_nat (length a) * from_le_bytes b.
Proof.
  induction a as [|x a IH]; [cbn; lia|]. cbn [app from_le_bytes length]. rewrite IH, Nat2Z.inj_succ, Z.pow_succ_r by lia. lia.
Qed.

Lemma from_le_bytes_take n l : Forall is_u8 l -> (n <= length l)%nat -> from_le_bytes (take n l) = from_le_bytes l mod 256 ^ Z.of_nat n.
Proof.
  intros Hl Hn. rewrite <- (take_drop n l) at 2. rewrite from_le_bytes_app, length_take, Nat.min_l by done.
  rewrite Z.mul_comm, Z.mod_add by (apply Z.pow_nonzero; lia). rewrite Z.mod_small; [done|].
  pose proof (from_le_bytes_bound (take n l) (Forall_take _ _ _ Hl)) as H. by rewrite length_take, Nat.min_l in H by done.
Qed.

Lemma from_le_bytes_drop n l : Forall is_u8 l -> (n <= length l)%nat -> from_le_bytes (drop n l) = from_le_bytes l / 256 ^ Z.of_nat n.
Proof.
  intros Hl Hn. rewrite <- (take_drop n l) at 2. rewrite from_le_bytes_app, length_take, Nat.min_l by done.
  rewrite Z.mul_comm, Z.div_add by (apply Z.pow_nonzero; lia). rewrite Z.div_small; [lia|].
  pose proof (from_le_bytes_bound (take n l) (Forall_take _ _ _ Hl)) as H. by rewrite length_take, Nat.min_l in H by done.
Qed.

(** The bits of a part of the bytes, and of bytes with a part replaced. *)
Lemma cells_bits data a n i :
  Forall is_u8 data -> 0 <= a -> 0 <= n -> a + n <= len data -> 0 <= i ->
  Z.testbit (from_le_bytes (cells_of data a n)) i = (i <? 8 * n) && Z.testbit (from_le_bytes data) (8 * a + i).
Proof.
  intros Hd Ha Hn Hl Hi. unfold cells_of, len in *. rewrite from_le_bytes_take, from_le_bytes_drop by (try apply Forall_drop; rewrite ?length_drop; done || lia).
  rewrite !pow256, !Z2Nat.id by done. destruct (Z.ltb_spec i (8 * n)); cbn [andb].
  - rewrite Z.mod_pow2_bits_low, Z.div_pow2_bits by lia. f_equal. lia.
  - by rewrite Z.mod_pow2_bits_high by lia.
Qed.

(** The bits of a sum of parts that do not overlap. *)
Lemma add_shifted_bits lo hi n i :
  0 <= n -> 0 <= lo < 2 ^ n -> 0 <= i -> Z.testbit (lo + 2 ^ n * hi) i = if i <? n then Z.testbit lo i else Z.testbit hi (i - n).
Proof.
  intros Hn Hlo Hi. rewrite (Z.mul_comm (2 ^ n)), <- lor_shiftl_add by done. rewrite Z.lor_spec, Z.shiftl_spec by done.
  destruct (Z.ltb_spec i n).
  - rewrite (Z.testbit_neg_r hi) by lia. by rewrite orb_false_r.
  - rewrite <- (Z.mod_small lo (2 ^ n)), Z.mod_pow2_bits_high by lia. done.
Qed.

Lemma splice_bits data a new i :
  Forall is_u8 data -> Forall is_u8 new -> 0 <= a -> a + len new <= len data -> 0 <= i ->
  Z.testbit (from_le_bytes (splice data a new)) i =
    if (8 * a <=? i) && (i <? 8 * (a + len new)) then Z.testbit (from_le_bytes new) (i - 8 * a) else Z.testbit (from_le_bytes data) i.
Proof.
  intros Hd Hnew Ha Hl Hi. unfold splice, len in *.
  assert (length (take (Z.to_nat a) data) = Z.to_nat a) as Ht by (rewrite length_take; lia).
  pose proof (from_le_bytes_bound (take (Z.to_nat a) data) (Forall_take _ _ _ Hd)) as Hlo. rewrite Ht in Hlo.
  pose proof (from_le_bytes_bound new Hnew) as Hm.
  rewrite !from_le_bytes_app, Ht, from_le_bytes_drop by (done || lia).
  rewrite !pow256, !Nat2Z.inj_add, Z2Nat.id in * by done. rewrite add_shifted_bits by (done || lia).
  destruct (Z.leb_spec (8 * a) i); cbn [andb]; [rewrite (proj2 (Z.ltb_ge _ _)) by lia|rewrite (proj2 (Z.ltb_lt _ _)) by lia].
  - rewrite add_shifted_bits by (done || lia). destruct (Z.ltb_spec i (8 * (a + Z.of_nat (length new)))).
    + by rewrite (proj2 (Z.ltb_lt _ _)) by lia.
    + rewrite (proj2 (Z.ltb_ge _ _)) by lia. rewrite Z.div_pow2_bits by lia. f_equal. lia.
  - rewrite from_le_bytes_take by (done || lia). rewrite pow256, Z2Nat.id by done. by rewrite Z.mod_pow2_bits_low by lia.
Qed.

(** The loop over the bytes of a word. *)
Lemma gather_lor i raw bytes :
  Forall is_u8 bytes -> 0 <= i -> i + len bytes <= 8 -> 0 <= raw < 2 ^ (8 * i) ->
  gather i raw bytes = raw + 2 ^ (8 * i) * from_le_bytes bytes.
Proof.
  intros Hb. revert i raw. induction Hb as [|b bytes Hb _ IH]; intros i raw Hi Hl Hraw; [cbn; lia|].
  rewrite len_cons in Hl. pose proof (len_nonneg bytes). cbn [gather from_le_bytes].
  assert (shl_u64 b (8 * i) = Z.shiftl b (8 * i)) as ->.
  { unfold shl_u64, as_u64. rewrite (Z.mod_small (8 * i)) by lia. rewrite Z.mod_small; [done|]. rewrite Z.shiftl_mul_pow2 by lia.
    unfold is_u8 in Hb. change 18446744073709551616 with (2 ^ (8 + 56)). rewrite Z.pow_add_r by lia. change (2 ^ 8) with 256.
    pose proof (Z.pow_le_mono_r 2 (8 * i) 56 ltac:(lia) ltac:(lia)). pose proof (Z.pow_pos_nonneg 2 (8 * i) ltac:(lia) ltac:(lia)). nia. }
  assert (2 ^ (8 * (i + 1)) = 2 ^ (8 * i) * 256) as Hp by (rewrite Z.mul_add_distr_l, Z.pow_add_r by lia; done).
  unfold is_u8 in Hb. rewrite lor_shiftl_add, IH by (rewrite ?Hp; (done || nia || lia)). rewrite Hp. lia.
Qed.

Lemma gather_bytes bytes : Forall is_u8 bytes -> len bytes <= 8 -> gather 0 0 bytes = from_le_bytes bytes.
Proof. intros Hb Hl. rewrite gather_lor by (done || (change (2 ^ (8 * 0)) with 1; lia)). change (2 ^ (8 * 0)) with 1. lia. Qed.

(** ** Bounds *)

Lemma as_i32_offset n : is_u32 (as_u32 n).
Proof. apply as_u32_range. Qed.

Lemma buffer_oob_spec offset size length :
  0 <= size <= 2147483648 -> buffer_oob offset size length = (length <? as_u32 offset + size).
Proof.
  intros Hs. unfold buffer_oob. pose proof (as_u32_range offset) as H. unfold is_u32 in H. rewrite as_u64_small by (unfold is_u64; lia). done.
Qed.

(** ** One buffer of the heap *)

Definition with_buffers (a : Arena LuaBuffer) (vm : Vm) : Vm :=
  let o := objects (vm_heap vm) in
  set_heap (set_objects (mkStore (strings o) (tables o) (closures o) (userdata o) (threads o) a (protos o) (upvals o)) (vm_heap vm)) vm.

(** The machine after an update of one buffer's bytes. *)
Definition written (vm : Vm) (handle : RawGc) (data : list Z) (vm' : Vm) : Prop :=
  (exists a, vm' = with_buffers a vm) /\
  forall u, buffer_bytes vm' u = if decide (u = handle) then Some data else buffer_bytes vm u.

Definition bytes_ok (vm : Vm) : Prop := forall u data, buffer_bytes vm u = Some data -> Forall is_u8 data /\ len data <= 4294967296.

Lemma written_same vm handle data vm' : written vm handle data vm' -> buffer_bytes vm' handle = Some data.
Proof. intros [_ H]. by rewrite H, decide_True. Qed.

Lemma buffer_mut_spec handle f vm data new :
  buffer_bytes vm handle = Some data -> f data = Done new ->
  exists vm', buffer_mut handle f vm = (vm', Ret tt) /\ written vm handle new vm'.
Proof.
  intros Hb Hf. unfold buffer_bytes in Hb. destruct (heap_buffer (vm_heap vm) handle) as [b|] eqn:Eb; [|done]. injection Hb as <-.
  unfold buffer_mut. rewrite Eb, Hf. eexists. split; [done|]. split; [by eexists|]. intros u.
  unfold buffer_bytes, heap_buffer in *. cbn. destruct (Z.eqb_spec (gc_heap handle) (h_id (vm_heap vm))) as [Hh|]; [|done]. cbn in Eb.
  apply get_Some in Eb as [Hgen Hslot]. case_decide as Hu.
  - subst u. rewrite Hh, Z.eqb_refl. cbn. assert (Arena.get (Arena.alter_entry (set_value (Some (mkBuffer new (b_charged b)))) (gc_index handle)
      (buffers (objects (vm_heap vm)))) (gc_index handle) (gc_generation handle) = Some (mkBuffer new (b_charged b))) as ->; [|done].
    apply get_Some. split; [exact Hgen|]. rewrite slot_alter, decide_True by done. by destruct (slot _ _).
  - destruct (Z.eqb_spec (gc_heap u) (h_id (vm_heap vm))) as [Hhu|]; [|done]. cbn. f_equal.
    unfold Arena.get. cbn. case_decide as Hge; [|done].
    match goal with |- ?l = _ => change l with (slot (Arena.alter_entry (set_value (Some (mkBuffer new (b_charged b)))) (gc_index handle) (buffers (objects (vm_heap vm)))) (gc_index u) ≫= e_value) end.
    rewrite slot_alter, decide_False; [done|]. intros Hi. apply Hu.
    unfold gen in Hgen. rewrite <- Hi, Hgen in Hge. injection Hge as Hge. destruct u, handle; cbn in *; congruence.
Qed.

(** ** Checked spans *)

Section Spans.
Context (vm : Vm) (handle : RawGc) (data : list Z) (Hdata : buffer_bytes vm handle = Some data).

Lemma resident_buffer_run : resident_buffer handle vm = (vm, Ret data).
Proof using Hdata. unfold resident_buffer, lbind, lget. by rewrite Hdata. Qed.

Lemma bytes_or_empty_run : bytes_or_empty vm handle = data.
Proof using Hdata. unfold bytes_or_empty. by rewrite Hdata. Qed.

Lemma checked_span_run offset size :
  0 <= size <= 2147483648 ->
  checked_buffer_span handle offset size vm =
    (vm, if len data <? as_u32 offset + size then Raised "buffer access out of bounds" else Ret (cells_of data (as_u32 offset) size)).
Proof using Hdata.
  intros Hs. unfold checked_buffer_span. unfold lbind at 1. rewrite resident_buffer_run, buffer_oob_spec by done.
  pose proof (as_u32_range offset) as Hu. unfold is_u32 in Hu.
  destruct (Z.ltb_spec (len data) (as_u32 offset + size)); [done|]. unfold lexec. by rewrite slice_Done by lia.
Qed.

Lemma checked_span_mut_run offset size f new :
  0 <= size <= 2147483648 -> as_u32 offset + size <= len data -> f data (as_u32 offset) (as_u32 offset + size) = Done new ->
  exists vm', checked_buffer_span_mut handle offset size f vm = (vm', Ret tt) /\ written vm handle new vm'.
Proof using Hdata.
  intros Hs Hl Hf. unfold checked_buffer_span_mut. unfold lbind at 1. rewrite resident_buffer_run, buffer_oob_spec by done.
  rewrite (proj2 (Z.ltb_ge _ _)) by done. by apply (buffer_mut_spec handle _ vm data).
Qed.

Lemma checked_span_mut_oob offset size f :
  0 <= size <= 2147483648 -> len data < as_u32 offset + size ->
  checked_buffer_span_mut handle offset size f vm = (vm, Raised "buffer access out of bounds").
Proof using Hdata.
  intros Hs Hl. unfold checked_buffer_span_mut. unfold lbind at 1. rewrite resident_buffer_run, buffer_oob_spec by done.
  by rewrite (proj2 (Z.ltb_lt _ _)).
Qed.

Lemma write_span_run offset size src :
  0 <= size <= 2147483648 -> len src = size -> as_u32 offset + size <= len data ->
  exists vm', write_span handle offset size src vm = (vm', Ret tt) /\ written vm handle (splice data (as_u32 offset) src) vm'.
Proof using Hdata.
  intros Hs Hsrc Hl. pose proof (as_u32_range offset) as Hu. unfold is_u32 in Hu. apply checked_span_mut_run; [done|done|].
  by apply copy_from_slice_Done; [lia..| |].
Qed.
End Spans.

(** ** A machine with two buffers, for examples *)

Section Sample.
#[local] Existing Instance exact_allocator.
#[local] Existing Instance doubling_map.
#[local] Existing Instance sizes64.
#[local] Existing Instance lib_sizes.

#[export] Instance lib_sizes_laws : HeapSizesLaws lib_sizes.
Proof. by split. Qed.

Definition sample_limits : ByteLimits := {| max_string_bytes := 1048576; max_buffer_bytes := 1073741824 |}.
(** The quiet NaN of the same sign. *)
Definition quiet_nans : NanBits := {|
  nan_f32 b := if f64_neg b then 4290772992 else 2143289344;
  nan_f64 b := if 2147483648 <=? b then 18444492273895866368 else 9221120237041090560
|}.

Definition first_bytes : list Z := [1; 2; 3; 4; 5; 6; 7; 8].
Definition second_bytes : list Z := [255; 0; 170; 85].

Definition push_buffer (data : list Z) (a : Arena LuaBuffer) : Arena LuaBuffer :=
  (Arena.alloc size_buffers (mkBuffer data (len data)) a meter_default).1.1.
Definition two_buffers : Arena LuaBuffer := push_buffer second_bytes (push_buffer first_bytes Arena.new).

(** The buffers of handles [th 0] and [th 1]. *)
Definition buffer_vm : Vm :=
  mkVm (mkHeap 1 (mkStore Arena.new Arena.new Arena.new Arena.new Arena.new two_buffers Arena.new Arena.new)
          (mkPayloads [] vec_new 0) Registry.new ∅ meter_default None None None [] 1000 0 0 0 vec_new 0 100000 false)
    None 0 None 1000.

Lemma push_buffer_ok data a : arena_ok size_buffers a -> arena_ok size_buffers (push_buffer data a).
Proof.
  intros Hok. unfold push_buffer.
  destruct (alloc_spec size_buffers size_buffers_pos (mkBuffer data (len data)) a meter_default Hok) as (a' & m' & r & -> & Hok' & _). done.
Qed.

Lemma two_buffers_ok : arena_ok size_buffers two_buffers.
Proof. unfold two_buffers. do 2 apply push_buffer_ok. by apply new_ok. Qed.

Lemma buffer_vm_bytes u data :
  buffer_bytes buffer_vm u = Some data -> data = first_bytes \/ data = second_bytes.
Proof.
  unfold buffer_bytes, heap_buffer. cbn [vm_heap buffer_vm h_id objects buffers].
  destruct (Z.eqb_spec (gc_heap u) 1) as [Hh|]; cbn [negb]; [|done]. destruct u as [i gen hp]. cbn in *. subst hp.
  unfold Arena.get. change (gens two_buffers) with (mkAccounted (mkVec [0; 0] 2) 8).
  change (entries two_buffers) with (mkAccounted
    (mkVec [mkEntry White Young (Some (mkBuffer first_bytes 8)); mkEntry White Young (Some (mkBuffer second_bytes 4))] 2) 96).
  unfold av_get. cbn [inner items]. case_decide as Hg; [|done].
  apply zget_Some in Hg as [Hr Hg]. change (len [0; 0]) with 2 in Hr.
  assert (i = 0 \/ i = 1) as [-> | ->] by lia; cbn in Hg; injection Hg as <-; cbn; intros [= <-]; auto.
Qed.
End Sample.
