(* ===== verification/BufferTheorems.v ===== *)
(** * BufferTheorems: buffers keep their bytes and their bounds

    Numbers read back as they were written, bit fields are fields of the number the whole buffer
    writes, [copy] moves like [memmove] between and within buffers, and no call of the library
    panics, loops or changes the size of a buffer. *)

From Stdlib Require Import ZArith Lia.
From stdpp Require Import base numbers list strings option gmap.
From S2P Require Import Prelude RustExec RustVec Arena ArenaFacts Value LuaTable GcObjects Gc LuaTableTheorems LibHeap LibHeapFacts TableLibFacts Bit32 BufferLib BufferFacts.

Section BufferTheorems.
Context {AL : Allocator} {MA : MapAllocator} {TS : TableSizes} {HS : HeapSizes} {BL : ByteLimits} {NB : NanBits}.

(** ** Arguments as values *)

Definition uint_value (v : RawValue) : option Z :=
  match v with VInteger n => Some (as_u32 n) | VNumber n => Some (f64_mod_u32 n) | _ => None end.
Definition long_value (v : RawValue) : option Z :=
  match v with VInteger n => Some n | VNumber n => Some (f64_as_i64 n) | _ => None end.
Definition num_value (v : RawValue) : option Z :=
  match v with VInteger n => Some (f64_of_i64 n) | VNumber n => Some n | _ => None end.

Lemma arg_buffer_run args i name h vm : arg args i = VBuffer h -> arg_buffer args i name vm = (vm, Ret h).
Proof. unfold arg_buffer. by intros ->. Qed.
Lemma int_arg_run args i name n vm : arg_int args i = Some n -> buffer_int_arg args i name vm = (vm, Ret (as_i32 n)).
Proof. unfold buffer_int_arg. by intros ->. Qed.
Lemma uint_arg_run args i name n vm : uint_value (arg args i) = Some n -> buffer_uint_arg args i name vm = (vm, Ret n).
Proof. unfold buffer_uint_arg, uint_value. destruct (arg args i); try done; by intros [= <-]. Qed.
Lemma long_arg_run args i name n vm : long_value (arg args i) = Some n -> buffer_long_arg args i name vm = (vm, Ret n).
Proof. unfold buffer_long_arg, long_value. destruct (arg args i); try done; by intros [= <-]. Qed.
Lemma num_arg_run args i name n vm : num_value (arg args i) = Some n -> buffer_num_arg args i name vm = (vm, Ret n).
Proof. unfold buffer_num_arg, num_value. destruct (arg args i); try done; by intros [= <-]. Qed.

Lemma as_u32_as_i32 n : as_u32 (as_i32 n) = as_u32 n.
Proof. zcast. Qed.

Lemma uint_value_u32 v n : uint_value v = Some n -> is_u32 n.
Proof.
  destruct v; cbn; try done; intros [= <-]; [|apply as_u32_range]. unfold f64_mod_u32.
  destruct (f64_trunc _); [apply as_u32_range|done].
Qed.

(** Runs the argument readings at the head of an operation. *)
Ltac read_args :=
  repeat (unfold lbind at 1;
    match goal with
    | H : arg ?a ?i = VBuffer _ |- context [arg_buffer ?a ?i ?n ?vm] => rewrite (arg_buffer_run a i n _ vm H)
    | H : arg_int ?a ?i = Some _ |- context [buffer_int_arg ?a ?i ?n ?vm] => rewrite (int_arg_run a i n _ vm H)
    | H : uint_value (arg ?a ?i) = Some _ |- context [buffer_uint_arg ?a ?i ?n ?vm] => rewrite (uint_arg_run a i n _ vm H)
    | H : long_value (arg ?a ?i) = Some _ |- context [buffer_long_arg ?a ?i ?n ?vm] => rewrite (long_arg_run a i n _ vm H)
    | H : num_value (arg ?a ?i) = Some _ |- context [buffer_num_arg ?a ?i ?n ?vm] => rewrite (num_arg_run a i n _ vm H)
    end).

(** ** Little-endian words *)

Lemma le_bytes_len n x : len (le_bytes n x) = Z.of_nat n.
Proof. unfold len. by rewrite length_le_bytes. Qed.

Lemma le_prefix n m x : (n <= m)%nat -> take n (le_bytes m x) = le_bytes n x.
Proof.
  revert m x. induction n as [|n IH]; intros m x H; [done|]. destruct m as [|m]; [lia|]. change (x mod 256 :: take n (le_bytes m (x / 256)) = x mod 256 :: le_bytes n (x / 256)). f_equal. apply IH. lia.
Qed.

(** Sign extension by shifting up and down. *)
Definition signed_value (w v : Z) : Z := let m := v mod 256 ^ w in if 2 * m <? 256 ^ w then m else m - 256 ^ w.

Lemma sign_extension w v (raw := v mod 256 ^ w) :
  w = 1 \/ w = 2 \/ w = 4 -> Z.shiftr (as_i64 (shl_u64 raw (64 - w * 8))) (64 - w * 8) = signed_value w v.
Proof.
  intros Hw. unfold signed_value. fold raw. assert (0 <= raw < 256 ^ w) as Hraw by (apply Z.mod_pos_bound; destruct Hw as [->|[->| ->]]; done).
  unfold shl_u64, as_i64. destruct Hw as [->|[->| ->]]; cbn [Z.mul Z.sub Z.opp Z.pos_sub Pos.mul Z.add] in *.
  all: change (64 + -8) with 56 in *; change (64 + -16) with 48 in *; change (64 + -32) with 32 in *.
  all: rewrite (Z.mod_small _ 64) by done; rewrite Z.shiftl_mul_pow2, shiftr_div by done.
  - change (256 ^ 1) with 256 in *. change (2 ^ 56) with 72057594037927936. unfold as_u64. zbool; zdm.
  - change (256 ^ 2) with 65536 in *. change (2 ^ 48) with 281474976710656. unfold as_u64. zbool; zdm.
  - change (256 ^ 4) with 4294967296 in *. change (2 ^ 32) with 4294967296. unfold as_u64. zbool; zdm.
Qed.

(** What a read at the place of a write sees. *)
Lemma written_span vm handle data off src vm' :
  buffer_bytes vm handle = Some data -> as_u32 off + len src <= len data -> len src <= 2147483648 ->
  written vm handle (splice data (as_u32 off) src) vm' ->
  checked_buffer_span handle off (len src) vm' = (vm', Ret src).
Proof.
  intros Hd Hl Hs Hw. pose proof (as_u32_range off) as Hu. unfold is_u32 in Hu. pose proof (len_nonneg src).
  rewrite (checked_span_run vm' handle _ (written_same _ _ _ _ Hw)) by lia. rewrite len_splice by lia.
  rewrite (proj2 (Z.ltb_ge _ _)) by done. by rewrite cells_splice by lia.
Qed.

(** ** The theorems *)

(** Integer accesses of one, two and four bytes: inside the buffer a write stores the low
    bytes of the value, little-endian, keeps every other byte of every buffer, and reads back
    as the value modulo the width, unsigned or signed; outside both raise and change nothing. *)
Theorem buffer_int_exact vm handle data args off v w :
  w = 1 \/ w = 2 \/ w = 4 -> buffer_bytes vm handle = Some data ->
  arg args 0 = VBuffer handle -> arg_int args 1 = Some off -> uint_value (arg args 2) = Some v ->
  if decide (as_u32 off + w <= len data) then
    exists vm', buffer_write_int args w vm = (vm', Ret []) /\
      written vm handle (splice data (as_u32 off) (le_bytes (Z.to_nat w) v)) vm' /\
      buffer_read_int args w Unsigned vm' = (vm', Ret [VNumber (f64_of_u64 (v mod 256 ^ w))]) /\
      buffer_read_int args w Signed vm' = (vm', Ret [VNumber (f64_of_i64 (signed_value w v))])
  else
    buffer_write_int args w vm = (vm, Raised "buffer access out of bounds") /\
    forall s, buffer_read_int args w s vm = (vm, Raised "buffer access out of bounds").
Proof.
  intros Hw Hd H0 H1 H2. assert (0 <= w <= 4) as Hw4 by lia.
  assert (slice (le_bytes 4 v) 0 w = Done (le_bytes (Z.to_nat w) v)) as Hsl.
  { pose proof (slice_Done (le_bytes 4 v) 0 w) as H. rewrite le_bytes_len in H. rewrite Z.add_0_l in H. rewrite H by lia.
    change (cells_of (le_bytes 4 v) 0 w) with (take (Z.to_nat w) (le_bytes 4 v)). by rewrite le_prefix by lia. }
  assert (len (le_bytes (Z.to_nat w) v) = w) as Hlen by (rewrite le_bytes_len; lia).
  case_decide as Hin.
  - rewrite <- (as_u32_as_i32 off) in Hin.
    destruct (write_span_run vm handle data Hd (as_i32 off) w (le_bytes (Z.to_nat w) v)) as (vm' & Hrun & Hwr); [lia|done|done|].
    pose proof (written_span vm handle data (as_i32 off) (le_bytes (Z.to_nat w) v) vm' Hd) as Hsp. rewrite Hlen in Hsp.
    specialize (Hsp ltac:(lia) ltac:(lia) Hwr). rewrite as_u32_as_i32 in Hwr.
    assert (gather 0 0 (le_bytes (Z.to_nat w) v) = v mod 256 ^ w) as Hg.
    { rewrite gather_bytes by (apply le_bytes_u8 || lia). rewrite from_le_bytes_le_bytes, Z2Nat.id by lia. done. }
    exists vm'. split; [|split; [done|split]].
    + unfold buffer_write_int. read_args. unfold lbind at 1, lexec. rewrite Hsl. unfold lbind. by rewrite Hrun.
    + unfold buffer_read_int. read_args. unfold lbind. by rewrite Hsp, Hg.
    + unfold buffer_read_int. read_args. unfold lbind. rewrite Hsp, Hg. cbv zeta. unfold lret. by rewrite sign_extension.
  - rewrite <- (as_u32_as_i32 off) in Hin. split.
    + unfold buffer_write_int. read_args. unfold lbind at 1, lexec. rewrite Hsl. unfold write_span, lbind.
      by rewrite (checked_span_mut_oob vm handle data Hd) by lia.
    + intros s. unfold buffer_read_int. read_args. unfold lbind. rewrite (checked_span_run vm handle data Hd) by lia.
      by rewrite (proj2 (Z.ltb_lt _ _)) by lia.
Qed.

(** The eight-byte accesses: integers and doubles read back exactly as they were written, a
    single as its conversion there and back. *)
Theorem buffer_wide_exact vm handle data args off :
  buffer_bytes vm handle = Some data -> arg args 0 = VBuffer handle -> arg_int args 1 = Some off ->
  (forall n, long_value (arg args 2) = Some n -> is_i64 n -> as_u32 off + 8 <= len data ->
    exists vm', buffer_writeinteger args vm = (vm', Ret []) /\
      written vm handle (splice data (as_u32 off) (le_bytes 8 n)) vm' /\ buffer_readinteger args vm' = (vm', Ret [VInteger n])) /\
  (forall n fp, num_value (arg args 2) = Some n -> is_u64 n -> is_u32 (f32_of_f64 n) -> as_u32 off + fp_width fp <= len data ->
    exists vm', buffer_write_fp args fp vm = (vm', Ret []) /\
      (exists src, written vm handle (splice data (as_u32 off) src) vm') /\
      buffer_read_fp args fp vm' = (vm', Ret [VNumber (match fp with F64 => n | F32 => f64_of_f32 (f32_of_f64 n) end)])).
Proof.
  intros Hd H0 H1. split.
  - intros n H2 Hn Hin. rewrite <- (as_u32_as_i32 off) in Hin.
    destruct (write_span_run vm handle data Hd (as_i32 off) 8 (le_bytes 8 n)) as (vm' & Hrun & Hwr); [lia|done|done|].
    pose proof (written_span vm handle data (as_i32 off) (le_bytes 8 n) vm' Hd Hin ltac:(rewrite le_bytes_len; lia) Hwr) as Hsp.
    rewrite as_u32_as_i32 in Hwr. exists vm'. split; [|split; [done|]].
    + unfold buffer_writeinteger. read_args. unfold lbind. by rewrite Hrun.
    + rewrite le_bytes_len in Hsp. change (Z.of_nat 8) with 8 in Hsp.
      unfold buffer_readinteger. read_args. unfold lbind. rewrite Hsp. unfold lret. do 4 f_equal.
      rewrite from_le_bytes_le_bytes. change (256 ^ Z.of_nat 8) with 18446744073709551616. unfold is_i64 in Hn. zcast.
  - intros n fp H2 Hn Hn32 Hin. rewrite <- (as_u32_as_i32 off) in Hin.
    set (src := match fp with F64 => le_bytes 8 n | F32 => le_bytes 4 (f32_of_f64 n) end).
    assert (len src = fp_width fp) as Hlen by (by destruct fp).
    destruct (write_span_run vm handle data Hd (as_i32 off) (fp_width fp) src) as (vm' & Hrun & Hwr); [destruct fp; cbn; lia|done|done|].
    pose proof (written_span vm handle data (as_i32 off) src vm' Hd ltac:(rewrite Hlen; done) ltac:(rewrite Hlen; destruct fp; cbn; lia) Hwr) as Hsp.
    rewrite as_u32_as_i32 in Hwr. exists vm'. split; [|split; [by exists src|]].
    + unfold buffer_write_fp. read_args. fold src. unfold lbind. by rewrite Hrun.
    + unfold buffer_read_fp. read_args. unfold lbind. rewrite <- Hlen, Hsp. unfold lret, src. do 4 f_equal.
      destruct fp; rewrite from_le_bytes_le_bytes; [f_equal|]; apply Z.mod_small; done.
Qed.

(** ** Bit fields *)

Lemma bit_range_spec off n length :
  0 <= length <= 4294967296 -> is_i64 off -> is_i32 n ->
  bit_range off n length =
    if decide (0 <= off /\ 0 <= n <= 32 /\ off + n <= 8 * length)
    then Done (mkBitRange (off / 8) ((off + n + 7) / 8) (off mod 8))
    else Raise (if off <? 0 then "buffer access out of bounds" else if 32 <? as_u32 n then "bit count is out of range of [0; 32]" else "buffer access out of bounds").
Proof.
  intros Hl Ho Hn. unfold is_i64, is_i32 in *. unfold bit_range. destruct (Z.ltb_spec off 0); [by rewrite decide_False by lia|].
  destruct (Z.ltb_spec 32 (as_u32 n)) as [Hbig|Hsmall].
  - rewrite decide_False; [done|]. intros (_ & H1 & _). rewrite as_u32_small in Hbig by (unfold is_u32; lia). lia.
  - assert (0 <= n <= 32) by (unfold as_u32 in Hsmall; zdm).
    rewrite !as_u64_small by (rewrite ?as_u64_small by (unfold is_u64; lia); unfold is_u64; lia).
    destruct (Z.ltb_spec (length * 8) (off + n)); [by rewrite decide_False by lia|]. rewrite decide_True by lia.
    assert (as_i64 (off + n + 7) = off + n + 7) as -> by (unfold as_i64; rewrite as_u64_small by (unfold is_u64; lia); by rewrite (proj2 (Z.ltb_lt _ _)) by lia).
    rewrite !Z.quot_div_nonneg by lia. do 2 f_equal. change 7 with (Z.ones 3). by rewrite Z.land_ones by lia.
Qed.

(** The span of a field: its cells, and the mask inside them. *)
Lemma field_span off n length :
  0 <= off -> 0 <= n <= 32 -> off + n <= 8 * length ->
  let s := off / 8 in let e := (off + n + 7) / 8 in
  0 <= s /\ s <= e /\ e <= length /\ e - s <= 5 /\ off = 8 * s + off mod 8 /\ 0 <= off mod 8 < 8 /\ off mod 8 + n <= 8 * (e - s).
Proof. intros. subst s e. zdm. Qed.

Lemma bit_mask_spec n sub i :
  0 <= n <= 32 -> 0 <= sub < 8 -> 0 <= i -> Z.testbit (bit_mask n sub) i = (sub <=? i) && (i <? sub + n).
Proof.
  intros Hn Hs Hi. unfold bit_mask.
  assert (shl_u64 1 (as_u32 n) - 1 = Z.ones n) as ->.
  { unfold shl_u64, as_u64. rewrite as_u32_small by (unfold is_u32; lia). rewrite (Z.mod_small n) by lia.
    rewrite Z.shiftl_1_l, Z.mod_small; [rewrite Z.ones_equiv; lia|]. split; [lia|].
    change 18446744073709551616 with (2 ^ 64). apply Z.pow_lt_mono_r; lia. }
  assert (shl_u64 (Z.ones n) sub = Z.shiftl (Z.ones n) sub) as ->.
  { unfold shl_u64, as_u64. rewrite (Z.mod_small sub) by lia. apply Z.mod_small. rewrite Z.shiftl_mul_pow2, Z.ones_equiv by lia.
    pose proof (Z.pow_le_mono_r 2 n 32 ltac:(lia) ltac:(lia)). pose proof (Z.pow_le_mono_r 2 sub 7 ltac:(lia) ltac:(lia)).
    pose proof (Z.pow_pos_nonneg 2 n ltac:(lia) ltac:(lia)). pose proof (Z.pow_pos_nonneg 2 sub ltac:(lia) ltac:(lia)).
    change (2 ^ 32) with 4294967296 in *. change (2 ^ 7) with 128 in *. nia. }
  rewrite Z.shiftl_spec by done. destruct (Z.leb_spec sub i); cbn [andb].
  - rewrite Z.testbit_ones_nonneg by lia. destruct (Z.ltb_spec (i - sub) n), (Z.ltb_spec i (sub + n)); done || lia.
  - by rewrite Z.testbit_neg_r by lia.
Qed.

(** The bits of the number the whole buffer writes, read as a field. *)
Definition field_of (data : list Z) (off n : Z) : Z := from_le_bytes data / 2 ^ off mod 2 ^ n.

Lemma field_of_bits data off n i :
  0 <= off -> 0 <= n -> 0 <= i -> Z.testbit (field_of data off n) i = (i <? n) && Z.testbit (from_le_bytes data) (off + i).
Proof.
  intros Ho Hn Hi. unfold field_of. destruct (Z.ltb_spec i n); cbn [andb].
  - rewrite Z.mod_pow2_bits_low, Z.div_pow2_bits by lia. f_equal. lia.
  - by rewrite Z.mod_pow2_bits_high by lia.
Qed.

Lemma read_field data off n :
  Forall is_u8 data -> 0 <= off -> 0 <= n <= 32 -> off + n <= 8 * len data ->
  let s := off / 8 in let e := (off + n + 7) / 8 in
  slice data s e = Done (cells_of data s (e - s)) /\
  Z.shiftr (Z.land (gather 0 0 (cells_of data s (e - s))) (bit_mask n (off mod 8))) (off mod 8) = field_of data off n.
Proof.
  intros Hb Ho Hn Hl s e. destruct (field_span off n (len data) Ho Hn Hl) as (Hs & Hse & He & H5 & Hoff & Hsub & Hin). fold s e in Hs, Hse, He, H5, Hoff, Hin.
  split; [replace e with (s + (e - s)) at 1 by lia; apply slice_Done; lia|].
  assert (Forall is_u8 (cells_of data s (e - s))) as Hc by (by apply Forall_take, Forall_drop).
  rewrite gather_bytes by (done || (rewrite len_cells by lia; lia)). apply Z.bits_inj'. intros i Hi.
  rewrite Z.shiftr_spec, Z.land_spec, bit_mask_spec, cells_bits, field_of_bits by (done || lia).
  replace (off + i) with (8 * s + (i + off mod 8)) by lia.
  rewrite (proj2 (Z.leb_le _ _)) by lia. cbn [andb]. destruct (Z.ltb_spec i n).
  - rewrite (proj2 (Z.ltb_lt _ _)), (proj2 (Z.ltb_lt _ _)) by lia. by rewrite andb_true_r.
  - rewrite (proj2 (Z.ltb_ge (i + off mod 8) (off mod 8 + n))) by lia. by rewrite andb_false_r.
Qed.

(** The update of [writebits] on the bytes of a buffer. *)
Definition store_field (n value : Z) (r : BitRange) (data : list Z) : Exec (list Z) :=
  let! cells := slice data (startbyte r) (endbyte r) in
  let bits := gather 0 0 cells in
  let mask := bit_mask n (subbyteoffset r) in
  let bits := Z.lor (Z.land bits (not_u64 mask)) (Z.land (shl_u64 value (subbyteoffset r)) mask) in
  let! src := slice (le_bytes 8 bits) 0 (endbyte r - startbyte r) in
  copy_from_slice data (startbyte r) (endbyte r) src.

(** The bytes after writing a field. *)
Definition field_written (data data' : list Z) (off n value : Z) : Prop :=
  len data' = len data /\ Forall is_u8 data' /\
  forall i, 0 <= i -> Z.testbit (from_le_bytes data') i = replaced_bit (from_le_bytes data) value off n i.

Lemma as_u64_bit x i : 0 <= i -> Z.testbit (as_u64 x) i = (i <? 64) && Z.testbit x i.
Proof.
  intros Hi. unfold as_u64. change 18446744073709551616 with (2 ^ 64). destruct (Z.ltb_spec i 64).
  - by rewrite Z.mod_pow2_bits_low.
  - by rewrite Z.mod_pow2_bits_high by lia.
Qed.

Lemma le_bytes_bits n x i : 0 <= i -> Z.testbit (from_le_bytes (le_bytes n x)) i = (i <? 8 * Z.of_nat n) && Z.testbit x i.
Proof.
  intros Hi. rewrite from_le_bytes_le_bytes, pow256. destruct (Z.ltb_spec i (8 * Z.of_nat n)); cbn [andb].
  - by rewrite Z.mod_pow2_bits_low.
  - by rewrite Z.mod_pow2_bits_high by lia.
Qed.

Lemma store_field_spec data off n value :
  Forall is_u8 data -> 0 <= off -> 0 <= n <= 32 -> off + n <= 8 * len data -> is_u32 value ->
  exists data', store_field n value (mkBitRange (off / 8) ((off + n + 7) / 8) (off mod 8)) data = Done data' /\
    field_written data data' off n value.
Proof.
  intros Hb Ho Hn Hl Hv. unfold store_field. cbn [startbyte endbyte subbyteoffset].
  destruct (read_field data off n Hb Ho Hn Hl) as [Hslice _]. rewrite Hslice. cbn [exec_bind].
  destruct (field_span off n (len data) Ho Hn Hl) as (Hs & Hse & He & H5 & Hoff & Hsub & Hin).
  set (s := off / 8) in *. set (e := (off + n + 7) / 8) in *. set (sub := off mod 8) in *.
  assert (Forall is_u8 (cells_of data s (e - s))) as Hc by (by apply Forall_take, Forall_drop).
  assert (len (cells_of data s (e - s)) = e - s) as Hcl by (apply len_cells; lia).
  rewrite gather_bytes by (done || lia). cbv zeta.
  set (bits := Z.lor _ _). pose proof (slice_Done (le_bytes 8 bits) 0 (e - s)) as Hsrc. rewrite le_bytes_len, Z.add_0_l in Hsrc.
  rewrite Hsrc by lia. change (cells_of (le_bytes 8 bits) 0 (e - s)) with (take (Z.to_nat (e - s)) (le_bytes 8 bits)). rewrite le_prefix by lia.
  assert (len (le_bytes (Z.to_nat (e - s)) bits) = e - s) as Hlen by (rewrite le_bytes_len; lia).
  cbn [exec_bind]. pose proof (copy_from_slice_Done data s (e - s) (le_bytes (Z.to_nat (e - s)) bits)) as Hcopy.
  replace (s + (e - s)) with e in Hcopy by lia. rewrite Hcopy by lia. eexists. split; [done|].
  split; [apply len_splice; lia|]. split.
  { unfold splice. apply Forall_app. split; [by apply Forall_take|]. apply Forall_app. split; [apply le_bytes_u8|by apply Forall_drop]. }
  intros i Hi. rewrite splice_bits, Hlen by (try apply le_bytes_u8; done || lia). unfold replaced_bit.
  replace (s + (e - s)) with e by lia.
  destruct (Z.leb_spec (8 * s) i), (Z.ltb_spec i (8 * e)); cbn [andb].
  2-4: destruct (Z.leb_spec off i), (Z.ltb_spec i (off + n)); cbn [andb]; done || lia.
  rewrite le_bytes_bits, Z2Nat.id by lia. rewrite (proj2 (Z.ltb_lt _ _)) by lia. cbn [andb]. unfold bits, not_u64, shl_u64.
  rewrite Z.lor_spec, !Z.land_spec, Z.lxor_spec, bit_mask_spec, cells_bits, as_u64_bit by (done || lia).
  change 18446744073709551615 with (Z.ones 64). rewrite Z.testbit_ones_nonneg by lia. rewrite (proj2 (Z.ltb_lt (i - 8 * s) 64)), (proj2 (Z.ltb_lt (i - 8 * s) (8 * (e - s)))) by lia.
  rewrite xorb_true_r, Z.shiftl_spec by lia. cbn [andb]. rewrite (Z.mod_small sub) by lia.
  replace (8 * s + (i - 8 * s)) with i by lia. replace (i - 8 * s - sub) with (i - off) by lia.
  destruct (Z.leb_spec off i), (Z.ltb_spec i (off + n)); cbn [andb].
  - rewrite (proj2 (Z.leb_le sub _)), (proj2 (Z.ltb_lt (i - 8 * s) (sub + n))) by lia. cbn [andb negb]. by rewrite andb_false_r, andb_true_r.
  - rewrite (proj2 (Z.leb_le sub _)), (proj2 (Z.ltb_ge (i - 8 * s) (sub + n))) by lia. cbn [andb negb]. by rewrite andb_true_r, andb_false_r, orb_false_r.
  - rewrite (proj2 (Z.leb_gt sub _)) by lia. cbn [andb negb]. by rewrite andb_true_r, andb_false_r, orb_false_r.
  - lia.
Qed.

(** Bit fields: the bytes of a buffer write one little-endian number, and [readbits] reads,
    [writebits] replaces, exactly the bits of the field in it; a field that leaves the buffer, or
    of more than 32 bits, raises and changes nothing. *)
Theorem buffer_bits_exact vm handle data args args' off n value :
  buffer_bytes vm handle = Some data -> Forall is_u8 data -> len data <= 4294967296 ->
  arg args 0 = VBuffer handle -> long_value (arg args 1) = Some off -> is_i64 off -> arg_int args 2 = Some n ->
  arg args' 0 = VBuffer handle -> long_value (arg args' 1) = Some off -> arg_int args' 2 = Some n -> uint_value (arg args' 3) = Some value ->
  if decide (0 <= off /\ 0 <= as_i32 n <= 32 /\ off + as_i32 n <= 8 * len data) then
    buffer_readbits args vm = (vm, Ret [VNumber (f64_of_u64 (field_of data off (as_i32 n)))]) /\
    exists vm' data', buffer_writebits args' vm = (vm', Ret []) /\ written vm handle data' vm' /\
      field_written data data' off (as_i32 n) value
  else
    exists e, buffer_readbits args vm = (vm, Raised e) /\ buffer_writebits args' vm = (vm, Raised e).
Proof.
  intros Hd Hb Hl A0 A1 Hoff A2 B0 B1 B2 B3. pose proof (len_nonneg data).
  assert (is_i32 (as_i32 n)) as Hn by apply as_i32_range. pose proof (uint_value_u32 _ _ B3) as Hv.
  pose proof (bit_range_spec off (as_i32 n) (len data) ltac:(lia) Hoff Hn) as Hr. case_decide as Hin.
  - destruct Hin as (Ho & Hn32 & Hend). destruct (read_field data off (as_i32 n) Hb Ho Hn32 Hend) as [Hs Hread]. split.
    + unfold buffer_readbits. read_args. unfold lbind at 1. rewrite (resident_buffer_run vm handle data Hd).
      unfold lbind at 1, lexec at 1. rewrite Hr. unfold lbind, lexec. cbn [startbyte endbyte subbyteoffset].
      rewrite Hs. cbv zeta. by rewrite Hread.
    + destruct (store_field_spec data off (as_i32 n) value Hb Ho Hn32 Hend Hv) as (data' & Hst & Hw).
      destruct (buffer_mut_spec handle (store_field (as_i32 n) value (mkBitRange (off / 8) ((off + as_i32 n + 7) / 8) (off mod 8))) vm data data' Hd Hst)
        as (vm' & Hrun & Hwr).
      exists vm', data'. split; [|done]. unfold buffer_writebits. read_args. unfold lbind at 1, lget.
      rewrite (bytes_or_empty_run vm handle data Hd). unfold lbind at 1, lexec. rewrite Hr. cbv zeta. unfold lbind.
      match goal with |- context [buffer_mut handle ?f vm] => change (buffer_mut handle f vm) with (buffer_mut handle (store_field (as_i32 n) value (mkBitRange (off / 8) ((off + as_i32 n + 7) / 8) (off mod 8))) vm) end.
      by rewrite Hrun.
  - eexists. split.
    + unfold buffer_readbits. read_args. unfold lbind at 1. rewrite (resident_buffer_run vm handle data Hd).
      unfold lbind at 1, lexec at 1. by rewrite Hr.
    + unfold buffer_writebits. read_args. unfold lbind at 1, lget. rewrite (bytes_or_empty_run vm handle data Hd).
      unfold lbind at 1, lexec. by rewrite Hr.
Qed.

(** ** Blocks *)

Definition opt_int_value (args : list RawValue) (i : nat) (dflt : Z) : option Z :=
  match args !! i with
  | None | Some VNil => Some dflt
  | Some (VNumber n) => Some (as_i32 (f64_as_i64 n))
  | Some (VInteger n) => Some (as_i32 n)
  | Some _ => None
  end.

Lemma opt_int_run args i dflt name n vm : opt_int_value args i dflt = Some n -> buffer_opt_int args i dflt name vm = (vm, Ret n).
Proof. unfold opt_int_value, buffer_opt_int. destruct (args !! i) as [[]|]; try done; by intros [= <-]. Qed.

(** A copy of bytes on the side, which the memory cap or the allocator may refuse. *)
Lemma byte_copy_run bytes name vm :
  checked_byte_copy bytes name vm = (vm, Ret bytes) \/ exists e, checked_byte_copy bytes name vm = (vm, Raised e).
Proof.
  unfold checked_byte_copy, check_cap, lbind, lget, err_memory_limit. destruct (would_exceed_cap vm (len bytes)); [right; by eexists|].
  cbn. destruct (try_reserve _ _ _); [by left|right; by eexists].
Qed.

(** [buffer.copy] moves bytes as if through a copy on the side, between two buffers or within
    one, overlapping or not; it writes the target range alone and raises, changing nothing, when
    either range is out of bounds or the memory limits refuse the copy. *)
Theorem buffer_copy_exact vm target source tdata sdata args toff soff size :
  buffer_bytes vm target = Some tdata -> buffer_bytes vm source = Some sdata ->
  arg args 0 = VBuffer target -> arg_int args 1 = Some toff -> arg args 2 = VBuffer source ->
  opt_int_value args 3 0 = Some soff -> opt_int_value args 4 (default_size (len sdata) soff) = Some size -> is_i32 size ->
  let t := as_u32 toff in let s := as_u32 soff in
  if decide (0 <= size /\ t + size <= len tdata /\ s + size <= len sdata) then
    (exists vm', buffer_copy args vm = (vm', Ret []) /\ written vm target (splice tdata t (cells_of sdata s size)) vm') \/
    (target <> source /\ exists e, buffer_copy args vm = (vm, Raised e))
  else buffer_copy args vm = (vm, Raised "buffer access out of bounds").
Proof.
  intros Ht Hsrc A0 A1 A2 A3 A4 Hsz t s. unfold is_i32 in Hsz. pose proof (as_u32_range toff) as Ut. pose proof (as_u32_range soff) as Us.
  unfold is_u32 in Ut, Us. fold t in Ut. fold s in Us.
  assert (buffer_copy args vm =
    (if size <? 0 then out_of_bounds
     else if buffer_oob (as_i32 toff) size (len tdata) then out_of_bounds
     else if decide (target = source) then
       (if buffer_oob soff size (len sdata) then out_of_bounds
        else let+ _ := buffer_mut target (fun data => copy_within data s (s + size) (as_u32 (as_i32 toff))) in lret [])
     else
       let+ cells := checked_buffer_span source soff size in
       let+ chunk := checked_byte_copy cells "copy" in
       let+ _ := write_span target (as_i32 toff) size chunk in lret []) vm) as ->.
  { unfold buffer_copy. read_args. unfold lbind at 1. rewrite (opt_int_run _ _ _ _ _ _ A3). unfold lbind at 1, lget.
    rewrite (bytes_or_empty_run vm source sdata Hsrc), (bytes_or_empty_run vm target tdata Ht). cbv zeta.
    unfold lbind at 1. by rewrite (opt_int_run _ _ _ _ _ _ A4). }
  destruct (decide (0 <= size /\ t + size <= len tdata /\ s + size <= len sdata)) as [(H1 & H2 & H3)|Hout].
  - rewrite (proj2 (Z.ltb_ge size 0)), !buffer_oob_spec, as_u32_as_i32 by lia. fold t s.
    rewrite (proj2 (Z.ltb_ge (len tdata) _)) by lia. destruct (decide (target = source)) as [<-|Hne].
    + assert (sdata = tdata) as -> by congruence. rewrite (proj2 (Z.ltb_ge (len tdata) _)) by lia. left.
      destruct (buffer_mut_spec target (fun data => copy_within data s (s + size) t) vm tdata (splice tdata t (cells_of tdata s size)) Ht)
        as (vm' & Hrun & Hw); [apply copy_within_Done; lia|]. exists vm'. split; [|done]. unfold lbind. by rewrite Hrun.
    + unfold lbind. rewrite (checked_span_run vm source sdata Hsrc) by lia. fold s. rewrite (proj2 (Z.ltb_ge (len sdata) _)) by lia.
      destruct (byte_copy_run (cells_of sdata s size) "copy" vm) as [-> | (e & ->)]; [|right; split; [done|by exists e]].
      left. assert (len (cells_of sdata s size) = size) as Hlen by (apply len_cells; lia).
      destruct (write_span_run vm target tdata Ht (as_i32 toff) size (cells_of sdata s size)) as (vm' & Hrun & Hw); [lia|done|rewrite as_u32_as_i32; fold t; lia|].
      rewrite as_u32_as_i32 in Hw. fold t in Hw. exists vm'. split; [|done]. by rewrite Hrun.
  - destruct (Z.ltb_spec size 0); [done|]. rewrite !buffer_oob_spec, as_u32_as_i32 by lia. fold t s.
    destruct (Z.ltb_spec (len tdata) (t + size)); [done|]. assert (len sdata < s + size) as Hs by lia.
    destruct (decide (target = source)) as [<-|Hne]; [by rewrite (proj2 (Z.ltb_lt _ _))|].
    unfold lbind. rewrite (checked_span_run vm source sdata Hsrc) by lia. fold s. by rewrite (proj2 (Z.ltb_lt _ _)).
Qed.
End BufferTheorems.

(** ** Concrete calls *)

Section Samples.
#[local] Existing Instance exact_allocator.
#[local] Existing Instance doubling_map.
#[local] Existing Instance sizes64.
#[local] Existing Instance lib_sizes.
#[local] Existing Instance sample_limits.
#[local] Existing Instance quiet_nans.

(** [buffer.writei16(b, 3, -2)] with [b] the first buffer. *)
Lemma buffer_int_exact_witness :
  let args := [VBuffer (th 0); VInteger 3; VInteger (-2)] in
  exists vm', buffer_write_int args 2 buffer_vm = (vm', Ret []) /\
    written buffer_vm (th 0) [1; 2; 3; 254; 255; 6; 7; 8] vm' /\
    buffer_read_int args 2 Unsigned vm' = (vm', Ret [VNumber (f64_of_u64 65534)]) /\
    buffer_read_int args 2 Signed vm' = (vm', Ret [VNumber (f64_of_i64 (-2))]).
Proof.
  exact (buffer_int_exact buffer_vm (th 0) first_bytes [VBuffer (th 0); VInteger 3; VInteger (-2)] 3 4294967294 2
    (or_intror (or_introl eq_refl)) eq_refl eq_refl eq_refl eq_refl).
Defined.

(** [buffer.writei32(b, 6, 1)]: the last bytes are outside. *)
Lemma buffer_int_out_of_bounds :
  buffer_write_int [VBuffer (th 0); VInteger 6; VInteger 1] 4 buffer_vm = (buffer_vm, Raised "buffer access out of bounds").
Proof. reflexivity. Qed.

(** The low half of a double's bits, through [writeinteger]. *)
Lemma buffer_wide_exact_witness :
  let args := [VBuffer (th 0); VInteger 0; VInteger (-3)] in
  exists vm', buffer_writeinteger args buffer_vm = (vm', Ret []) /\
    written buffer_vm (th 0) [253; 255; 255; 255; 255; 255; 255; 255] vm' /\
    buffer_readinteger args vm' = (vm', Ret [VInteger (-3)]).
Proof.
  refine (proj1 (buffer_wide_exact buffer_vm (th 0) first_bytes [VBuffer (th 0); VInteger 0; VInteger (-3)] 0 eq_refl eq_refl eq_refl)
    (-3) eq_refl _ _); [split; [discriminate|reflexivity]|discriminate].
Defined.

(** [buffer.readbits(b, 12, 8)] and [buffer.writebits(b, 12, 8, 255)]. *)
Lemma buffer_bits_exact_witness :
  buffer_readbits [VBuffer (th 0); VInteger 12; VInteger 8] buffer_vm = (buffer_vm, Ret [VNumber (f64_of_u64 48)]) /\
  exists vm' data', buffer_writebits [VBuffer (th 0); VInteger 12; VInteger 8; VInteger 255] buffer_vm = (vm', Ret []) /\
    written buffer_vm (th 0) data' vm' /\ field_written first_bytes data' 12 8 255.
Proof.
  refine (buffer_bits_exact buffer_vm (th 0) first_bytes [VBuffer (th 0); VInteger 12; VInteger 8]
    [VBuffer (th 0); VInteger 12; VInteger 8; VInteger 255] 12 8 255 eq_refl _ _ eq_refl eq_refl _ eq_refl eq_refl eq_refl eq_refl eq_refl).
  - repeat constructor; discriminate.
  - discriminate.
  - split; [discriminate|reflexivity].
Defined.

(** [buffer.copy(b, 2, b, 0, 6)] moves up over itself. *)
Lemma buffer_copy_exact_witness :
  exists vm', buffer_copy [VBuffer (th 0); VInteger 2; VBuffer (th 0); VInteger 0; VInteger 6] buffer_vm = (vm', Ret []) /\
    written buffer_vm (th 0) [1; 2; 1; 2; 3; 4; 5; 6] vm'.
Proof.
  destruct (buffer_copy_exact buffer_vm (th 0) (th 0) first_bytes first_bytes
    [VBuffer (th 0); VInteger 2; VBuffer (th 0); VInteger 0; VInteger 6] 2 0 6 eq_refl eq_refl eq_refl eq_refl eq_refl eq_refl eq_refl
    ltac:(split; [discriminate|reflexivity])) as [H|[H _]]; [exact H|by destruct H].
Defined.
End Samples.
