(* ===== verification/BufferSafety.v ===== *)
(** * BufferSafety: no call of the buffer library panics, loops or resizes a buffer

    Every operation of the library is made of readers, which leave the machine alone, and of one
    write at the end. [reads] is what a reader returns, [kept] what a write keeps. *)

From Stdlib Require Import ZArith Lia.
From stdpp Require Import base numbers list strings option gmap.
From S2P Require Import Prelude RustExec RustVec Arena ArenaFacts ArenaTheorems Value LuaTable GcObjects Gc LuaTableTheorems LibHeap LibHeapFacts TableLibFacts Bit32 BufferLib BufferFacts BufferTheorems.

Section BufferSafety.
Context {AL : Allocator} {LAWS : AllocatorLaws AL} {MA : MapAllocator} {TS : TableSizes} {HS : HeapSizes} {HSL : HeapSizesLaws HS}
  {BL : ByteLimits} {NB : NanBits}.

(** Every buffer is still there with its size. *)
Definition kept (vm vm' : Vm) : Prop :=
  forall u data, buffer_bytes vm u = Some data -> exists data', buffer_bytes vm' u = Some data' /\ len data' = len data.

Lemma kept_refl vm : kept vm vm.
Proof. intros u data H. by exists data. Qed.

(** A heap whose buffers hold bytes and whose arenas of buffers and strings are consistent and
    have room. *)
Record buffers_ok (vm : Vm) : Prop := {
  bo_bytes u data : buffer_bytes vm u = Some data -> Forall is_u8 data /\ len data <= 4294967296;
  bo_buffers : arena_ok size_buffers (buffers (objects (vm_heap vm)));
  bo_buffers_room : av_len (entries (buffers (objects (vm_heap vm)))) < 4294967296;
  bo_strings : arena_ok size_strings (strings (objects (vm_heap vm)));
  bo_strings_room : av_len (entries (strings (objects (vm_heap vm)))) < 4294967296;
}.

(** Arguments as the virtual machine represents them. *)
Definition arg_ok (v : RawValue) : Prop := match v with VInteger n => is_i64 n | VNumber b => is_u64 b | _ => True end.

(** ** Readers *)

Definition reads {A} (m : LM A) (vm : Vm) (P : A -> Prop) : Prop :=
  match m vm with
  | (vm', Ret a) => vm' = vm /\ P a
  | (vm', Raised _) => vm' = vm
  | _ => False
  end.

(** The result of a library function: an outcome that is neither a panic nor a loop, with the
    buffers kept. *)
Definition safe {A} (m : LM A) (vm : Vm) : Prop := wp m vm (fun vm' _ => kept vm vm') (fun vm' _ => kept vm vm').

Lemma safe_reads {A B} (m : LM A) (k : A -> LM B) vm P : reads m vm P -> (forall a, P a -> safe (k a) vm) -> safe (lbind m k) vm.
Proof.
  unfold reads, safe. intros Hm Hk. apply wp_bind. unfold wp. destruct (m vm) as [vm' []]; cbn; try done.
  - destruct Hm as [-> Ha]. by apply Hk.
  - subst. apply kept_refl.
Qed.

Lemma safe_ret {A} (a : A) vm : safe (lret a) vm.
Proof. apply kept_refl. Qed.
Lemma safe_raise {A} e vm : safe (lraise (A := A) e) vm.
Proof. apply kept_refl. Qed.

(** A write, after which the function only returns. *)
Lemma safe_write {A B} (m : LM A) (b : A -> B) vm : safe m vm -> safe (lbind m (fun a => lret (b a))) vm.
Proof. intros Hm. apply wp_bind. eapply wp_mono; [exact Hm| |done]. cbn. intros vm' a H. exact H. Qed.

Lemma reads_buffer args i name vm : reads (arg_buffer args i name) vm (fun _ => True).
Proof. unfold reads, arg_buffer. by destruct (arg args i). Qed.
Lemma reads_int args i name vm : reads (buffer_int_arg args i name) vm is_i32.
Proof. unfold reads, buffer_int_arg. destruct (arg_int args i); [|done]. split; [done|apply as_i32_range]. Qed.
Lemma reads_opt args i dflt name vm : is_i32 dflt -> reads (buffer_opt_int args i dflt name) vm is_i32.
Proof. intros Hd. unfold reads, buffer_opt_int. destruct (args !! i) as [[]|]; try done; (split; [done|]); apply as_i32_range || done. Qed.
Lemma reads_uint args i name vm : reads (buffer_uint_arg args i name) vm is_u32.
Proof.
  unfold reads, buffer_uint_arg. destruct (arg args i) eqn:E; try done; (split; [done|]).
  - apply (uint_value_u32 (arg args i)). by rewrite E.
  - apply as_u32_range.
Qed.
Lemma reads_num args i name vm : reads (buffer_num_arg args i name) vm (fun _ => True).
Proof. unfold reads, buffer_num_arg. by destruct (arg args i). Qed.
Lemma reads_long args i name vm : Forall arg_ok args -> reads (buffer_long_arg args i name) vm is_i64.
Proof.
  intros Ha. assert (arg_ok (arg args i)) as Hi.
  { unfold arg. destruct (args !! i) eqn:E; [|done]. rewrite Forall_lookup in Ha. by apply (Ha i). }
  unfold reads, buffer_long_arg. destruct (arg args i); try done. split; [done|]. unfold f64_as_i64, clamp_i64, I64_MIN, I64_MAX, is_i64.
  repeat case_match; lia.
Qed.
Lemma reads_string args i name vm : reads (buffer_string_arg args i name) vm (fun _ => True).
Proof. unfold reads, buffer_string_arg. by destruct (arg args i). Qed.
Lemma reads_get vm : reads lget vm (eq vm).
Proof. done. Qed.
Lemma reads_exec {A} (m : Exec A) vm P : settled m -> (forall a, m = Done a -> P a) -> reads (lexec m) vm P.
Proof. intros [H1 H2] HP. unfold reads, lexec. destruct m; try done. split; [done|by apply HP]. Qed.
Lemma reads_cap bytes vm : reads (check_cap bytes) vm (fun _ => True).
Proof. unfold reads, check_cap, lbind, lget. by destruct (would_exceed_cap vm bytes). Qed.
Lemma reads_copy bytes name vm : reads (checked_byte_copy bytes name) vm (fun b => b = bytes).
Proof. unfold reads. destruct (byte_copy_run bytes name vm) as [-> | [e ->]]; done. Qed.
Lemma reads_result_copy bytes name vm : reads (checked_string_result_copy bytes name) vm (fun b => b = bytes).
Proof.
  unfold checked_string_result_copy. case_match; [done|]. unfold reads, check_cap. unfold lbind at 1 2, lget.
  destruct (would_exceed_cap _ _); [done|]. exact (reads_copy bytes name vm).
Qed.
Lemma reads_resident handle vm : reads (resident_buffer handle) vm (fun data => buffer_bytes vm handle = Some data).
Proof. unfold reads, resident_buffer, lbind, lget. by destruct (buffer_bytes vm handle). Qed.
Lemma reads_span handle off size vm :
  0 <= size <= 2147483648 -> reads (checked_buffer_span handle off size) vm (fun cells => len cells = size).
Proof.
  intros Hs. pose proof (as_u32_range off) as Hu. unfold is_u32 in Hu. destruct (buffer_bytes vm handle) as [data|] eqn:Ed.
  - unfold reads. rewrite (checked_span_run vm handle data Ed) by done. destruct (Z.ltb_spec (len data) (as_u32 off + size)); [done|].
    split; [done|]. apply len_cells; lia.
  - unfold reads, checked_buffer_span, resident_buffer, lbind, lget. by rewrite Ed.
Qed.

(** ** Writers *)

Lemma written_kept vm handle data new vm' :
  buffer_bytes vm handle = Some data -> len new = len data -> written vm handle new vm' -> kept vm vm'.
Proof. intros Hd Hl [_ Hw] u d Hu. rewrite Hw. case_decide; [subst; exists new; split; [done|congruence]|by exists d]. Qed.

Lemma safe_buffer_mut handle f vm :
  (forall data, buffer_bytes vm handle = Some data -> exists new, f data = Done new /\ len new = len data) -> safe (buffer_mut handle f) vm.
Proof.
  intros Hf. unfold safe, wp. destruct (buffer_bytes vm handle) as [data|] eqn:Ed.
  - destruct (Hf data eq_refl) as (new & Hnew & Hl). destruct (buffer_mut_spec handle f vm data new Ed Hnew) as (vm' & -> & Hw).
    cbn. by eapply written_kept.
  - unfold buffer_mut. unfold buffer_bytes in Ed. destruct (heap_buffer (vm_heap vm) handle); [done|]. apply kept_refl.
Qed.

Lemma safe_span_mut handle off size f vm :
  0 <= size <= 2147483648 ->
  (forall data, as_u32 off + size <= len data -> exists new, f data (as_u32 off) (as_u32 off + size) = Done new /\ len new = len data) ->
  safe (checked_buffer_span_mut handle off size f) vm.
Proof.
  intros Hs Hf. apply (safe_reads _ _ _ _ (reads_resident handle vm)). intros data Hd. rewrite buffer_oob_spec by done.
  destruct (Z.ltb_spec (len data) (as_u32 off + size)); [apply safe_raise|]. apply safe_buffer_mut. intros data' Hd'.
  assert (data' = data) as -> by congruence. by apply Hf.
Qed.

Lemma safe_write_span handle off size src vm :
  0 <= size <= 2147483648 -> len src = size -> safe (write_span handle off size src) vm.
Proof.
  intros Hs Hl. pose proof (as_u32_range off) as Hu. unfold is_u32 in Hu. apply safe_span_mut; [done|]. intros data Hd.
  exists (splice data (as_u32 off) src). split; [apply copy_from_slice_Done; lia|apply len_splice; lia].
Qed.

(** Allocation in an arena with room keeps what lives there. *)
Lemma alloc_keeps {T} sz (v : T) a m :
  0 < sz -> arena_ok sz a -> av_len (entries a) < 4294967296 ->
  exists a' m' r, Arena.alloc sz v a m = ((a', m'), r) /\
    (forall i g w, Arena.get a i g = Some w -> Arena.get a' i g = Some w) /\ (forall e, r = Err e -> e = TryReserveError).
Proof.
  intros Hsz Hok Hroom. destruct (alloc_spec sz Hsz v a m Hok) as (a' & m' & r & E & _ & Hr). exists a', m', r. split; [done|].
  destruct r as [[i g]|e].
  - destruct Hr as (_ & Hslot & Hdead & _ & Hext). split; [|done]. intros j h w Hw. pose proof Hw as Hlive.
    apply get_Some in Hw as [Hg Hw]. apply get_Some. split; [by apply Hext|]. rewrite Hslot, decide_False; [done|]. intros ->. apply Hdead. destruct (slot a i) as [e|] eqn:Es; [|done]. exists e. split; [done|]. unfold is_live. by rewrite (Hw : e_value e = Some w).
  - destruct Hr as [[Hslot Hext] He]. split; [|intros e' [= <-]; destruct He as [He|[_ He]]; [done|lia]].
    intros j h w [Hg Hw]%get_Some. apply get_Some. split; [by apply Hext|by rewrite Hslot].
Qed.

Lemma safe_alloc data fail vm : buffers_ok vm -> safe (alloc_buffer data fail) vm.
Proof.
  intros Hok. unfold safe, wp, alloc_buffer. destruct (try_reserve _ _ _) as [v|] eqn:Er; [|apply kept_refl].
  destruct (alloc_keeps size_buffers (mkBuffer data (capacity v)) (buffers (objects (vm_heap vm))) (RustVec.adjust (meter (vm_heap vm)) 0 (capacity v))
    size_buffers_pos (bo_buffers vm Hok) (bo_buffers_room vm Hok)) as (a' & m' & r & -> & Hget & Herr).
  assert (forall m g, kept vm (set_heap (set_meter m (set_objects (mkStore (strings (objects (vm_heap vm))) (tables (objects (vm_heap vm)))
    (closures (objects (vm_heap vm))) (userdata (objects (vm_heap vm))) (threads (objects (vm_heap vm))) a' (protos (objects (vm_heap vm)))
    (upvals (objects (vm_heap vm)))) (vm_heap vm))) (set_gas (gas vm) g vm))) as Hk.
  { intros m g u d Hu. exists d. split; [|done]. unfold buffer_bytes, heap_buffer in *. cbn. destruct (gc_heap u =? h_id (vm_heap vm)); [|done].
    cbn in *. destruct (Arena.get (buffers (objects (vm_heap vm))) _ _) as [b|] eqn:Eg; [|done]. by rewrite (Hget _ _ _ Eg). }
  specialize (Hk m' (gas_spent vm)). destruct r as [[i g]|e]; [exact Hk|]. rewrite (Herr e eq_refl). exact Hk.
Qed.

Lemma safe_intern bytes fail vm : buffers_ok vm -> safe (intern_str bytes fail) vm.
Proof.
  intros Hok. unfold safe, wp, intern_str. destruct (interner_lookup _ _); [apply kept_refl|].
  destruct (alloc_keeps size_strings bytes (strings (objects (vm_heap vm))) (meter (vm_heap vm)) size_strings_pos (bo_strings vm Hok) (bo_strings_room vm Hok))
    as (a' & m' & r & -> & _ & Herr).
  destruct r as [[i g]|e]; [intros u d Hu; by exists d|]. rewrite (Herr e eq_refl). intros u d Hu. by exists d.
Qed.

(** ** The library *)

(** Runs a reader at the head of an operation. *)
Ltac reading :=
  match goal with
  | |- safe (lbind (arg_buffer _ _ _) _) _ => eapply safe_reads; [apply reads_buffer|]; intros ? _
  | |- safe (lbind (buffer_int_arg _ _ _) _) _ => eapply safe_reads; [apply reads_int|]; intros ? ?
  | |- safe (lbind (buffer_uint_arg _ _ _) _) _ => eapply safe_reads; [apply reads_uint|]; intros ? ?
  | |- safe (lbind (buffer_num_arg _ _ _) _) _ => eapply safe_reads; [apply reads_num|]; intros ? _
  | |- safe (lbind (buffer_long_arg _ _ _) _) _ => eapply safe_reads; [by apply reads_long|]; intros ? ?
  | |- safe (lbind (buffer_string_arg _ _ _) _) _ => eapply safe_reads; [apply reads_string|]; intros ? _
  | |- safe (lbind (buffer_opt_int _ _ _ _) _) _ => eapply safe_reads; [apply reads_opt|]; [|intros ? ?]
  | |- safe (lbind lget _) _ => eapply safe_reads; [apply reads_get|]; intros ? <-
  | |- safe (lbind (check_cap _) _) _ => eapply safe_reads; [apply reads_cap|]; intros ? _
  | |- safe (lbind (checked_byte_copy _ _) _) _ => eapply safe_reads; [apply reads_copy|]; intros ? ->
  | |- safe (lbind (checked_string_result_copy _ _) _) _ => eapply safe_reads; [apply reads_result_copy|]; intros ? ->
  | |- safe (lbind (resident_buffer _) _) _ => eapply safe_reads; [apply reads_resident|]; cbn beta; intros ? ?
  | |- safe (lbind (checked_buffer_span _ _ _) _) _ => eapply safe_reads; [apply reads_span|]; [unfold is_i32 in *; lia|cbn beta; intros ? ?]
  | |- safe (if ?c then _ else _) _ => destruct c eqn:?; [first [apply safe_raise|idtac]|]
  | |- safe (lraise _) _ => apply safe_raise
  | |- safe (lret _) _ => apply safe_ret
  end.

Lemma default_size_i32 length off : is_i32 (default_size length off).
Proof. unfold default_size, is_i32. lia. Qed.

Lemma exec_Done {A} (m : Exec A) a (P : A -> Prop) : m = Done a -> P a -> settled m /\ forall b, m = Done b -> P b.
Proof. intros -> H. split; [by split|]. by intros b [= <-]. Qed.

Lemma safe_slice {B} data a n (k : list Z -> LM B) vm :
  0 <= a -> 0 <= n -> a + n <= len data -> (len (cells_of data a n) = n -> safe (k (cells_of data a n)) vm) ->
  safe (lbind (lexec (slice data a (a + n))) k) vm.
Proof.
  intros Ha Hn Hl Hk. apply (safe_reads _ _ _ (fun c => c = cells_of data a n)).
  - apply reads_exec; (rewrite slice_Done by done); [by split|by intros b [= <-]].
  - intros c ->. apply Hk. by apply len_cells.
Qed.

Lemma safe_write_int args w vm : w = 1 \/ w = 2 \/ w = 4 -> safe (buffer_write_int args w) vm.
Proof.
  intros Hw. unfold buffer_write_int. repeat reading. cbv zeta.
  replace w with (0 + w) at 1 by lia. apply safe_slice; [lia|lia|rewrite le_bytes_len; lia|]. intros Hl.
  apply (safe_write _ (fun _ => [])), safe_write_span; [lia|done].
Qed.

Lemma safe_bits_args off n length :
  0 <= length <= 4294967296 -> is_i64 off -> is_i32 n ->
  settled (bit_range off n length) /\
  forall r, bit_range off n length = Done r ->
    0 <= off /\ 0 <= n <= 32 /\ off + n <= 8 * length /\ r = mkBitRange (off / 8) ((off + n + 7) / 8) (off mod 8).
Proof.
  intros Hl Ho Hn. rewrite bit_range_spec by done. case_decide as H; [|split; [by split|done]]. split; [by split|].
  intros r [= <-]. by destruct H as (? & ? & ?).
Qed.

Lemma bytes_or_empty_ok vm handle : buffers_ok vm -> Forall is_u8 (bytes_or_empty vm handle) /\ 0 <= len (bytes_or_empty vm handle) <= 4294967296.
Proof.
  intros Hok. pose proof (len_nonneg (bytes_or_empty vm handle)) as Hn. unfold bytes_or_empty in *. destruct (buffer_bytes vm handle) as [data|] eqn:E.
  - destruct (bo_bytes vm Hok handle data E). cbn in *. done.
  - cbn. split; [constructor|]. change (len (@nil Z)) with 0. lia.
Qed.

Lemma safe_readbits args vm : buffers_ok vm -> Forall arg_ok args -> safe (buffer_readbits args) vm.
Proof.
  intros Hok Ha. unfold buffer_readbits. repeat reading.
  match goal with H : buffer_bytes vm ?h = Some ?d |- _ => destruct (bo_bytes vm Hok h d H) as [Hb Hl]; pose proof (len_nonneg d) end.
  match goal with |- safe (lbind (lexec (bit_range ?o ?n ?l)) _) _ =>
    destruct (safe_bits_args o n l ltac:(lia) ltac:(done) ltac:(done)) as [Hset Hr] end.
  eapply safe_reads; [exact (reads_exec _ vm _ Hset Hr)|]. intros r (Ho & Hn & Hend & ->). cbn [startbyte endbyte subbyteoffset].
  destruct (read_field _ _ _ Hb Ho Hn Hend) as [Hs _].
  eapply safe_reads; [apply (reads_exec _ _ (fun _ => True)); [rewrite Hs; by split|done]|]. intros cells _. apply safe_ret.
Qed.

Lemma safe_writebits args vm : buffers_ok vm -> Forall arg_ok args -> safe (buffer_writebits args) vm.
Proof.
  intros Hok Ha. unfold buffer_writebits. repeat reading.
  match goal with |- context [bytes_or_empty vm ?h] => destruct (bytes_or_empty_ok vm h Hok) as [Hb Hl] end.
  match goal with |- safe (lbind (lexec (bit_range ?o ?n ?l)) _) _ =>
    destruct (safe_bits_args o n l ltac:(lia) ltac:(done) ltac:(done)) as [Hset Hr] end.
  eapply safe_reads; [exact (reads_exec _ vm _ Hset Hr)|]. intros r (Ho & Hn & Hend & ->). cbv zeta.
  apply (safe_write _ (fun _ => [])). apply safe_buffer_mut. intros data Hd.
  rewrite (bytes_or_empty_run vm _ data Hd) in Hb, Hend.
  match goal with Hv : is_u32 ?v |- exists new, ?f = Done new /\ _ =>
    destruct (store_field_spec data _ _ v Hb Ho Hn Hend Hv) as (new & Hnew & Hlen & _) end.
  exists new. split; [exact Hnew|done].
Qed.

Lemma safe_copy args vm : buffers_ok vm -> safe (buffer_copy args) vm.
Proof.
  intros Hok. unfold buffer_copy. do 3 reading. reading; [unfold is_i32; lia|]. reading. cbv zeta. reading; [apply default_size_i32|].
  reading. unfold is_i32 in *. rewrite !buffer_oob_spec by lia. reading.
  match goal with |- context [decide (?t = ?s)] => destruct (decide (t = s)) as [<-|Hne] end.
  - reading. apply (safe_write _ (fun _ => [])), safe_buffer_mut. intros data Hd. rewrite (bytes_or_empty_run vm _ data Hd) in *.
    match goal with |- context [copy_within data (as_u32 ?s) _ (as_u32 ?t)] =>
      pose proof (as_u32_range s) as Us; pose proof (as_u32_range t) as Ut; unfold is_u32 in Us, Ut end.
    eexists. split; [apply copy_within_Done; lia|]. apply len_splice; [lia|]. rewrite len_cells by lia. lia.
  - reading. reading. apply (safe_write _ (fun _ => [])), safe_write_span; [lia|done].
Qed.

Lemma safe_fill args vm : buffers_ok vm -> safe (buffer_fill args) vm.
Proof.
  intros Hok. unfold buffer_fill. do 4 reading. cbv zeta. reading; [apply default_size_i32|]. reading. unfold is_i32 in *.
  apply (safe_write _ (fun _ => [])), safe_span_mut; [lia|]. intros data Hl.
  match type of Hl with as_u32 ?o + ?z <= _ => pose proof (as_u32_range o) as Hu; unfold is_u32 in Hu;
    exists (splice data (as_u32 o) (replicate (Z.to_nat z) (as_u8 (Z.land a1 255)))) end.
  apply Z.ltb_ge in Heqb. assert (len (replicate (Z.to_nat a2) (as_u8 (Z.land a1 255))) = a2) as Hr by (unfold len; rewrite length_replicate; lia).
  split; [apply fill_slice_Done; lia|]. apply len_splice; lia.
Qed.

Lemma safe_writestring args vm : safe (buffer_writestring args) vm.
Proof.
  unfold buffer_writestring. do 3 reading. reading; [unfold i32_of_len, is_i32; pose proof (len_nonneg a1); lia|]. do 2 reading.
  unfold is_i32 in *. match goal with |- safe (lbind (lexec (slice ?d 0 ?n)) _) _ => replace n with (0 + n) at 1 by lia end.
  apply safe_slice; [lia..|]. intros Hl. reading. apply (safe_write _ (fun _ => [])), safe_write_span; [lia|done].
Qed.

(** C34: Every function of the buffer library, on any arguments, returns or raises: no slice is
    out of range, no loop runs forever, and the size of every buffer stays what it was when the
    buffer was created; the process ends only if the allocator refuses an infallible request. *)
Theorem buffer_library_safe b args vm :
  buffers_ok vm -> Forall arg_ok args ->
  wp (call_buffer b args) vm (fun vm' _ => kept vm vm') (fun vm' _ => kept vm vm').
Proof.
  intros Hok Ha. change (safe (call_buffer b args) vm). destruct b; cbn [call_buffer].
  13-18: apply safe_write_int; lia.
  5-10: unfold buffer_read_int; repeat reading.
  1: unfold buffer_create; repeat reading; apply (safe_write _ (fun h => [VBuffer h])); by apply safe_alloc.
  1: unfold buffer_fromstring; repeat reading; apply (safe_write _ (fun h => [VBuffer h])); by apply safe_alloc.
  1: unfold buffer_tostring; repeat reading; apply (safe_write _ (fun h => [VString h])); by apply safe_intern.
  1: unfold buffer_len; repeat reading.
  1-2: unfold buffer_read_fp; do 2 reading; (eapply safe_reads; [by apply reads_span|]); intros; apply safe_ret.
  1-2: unfold buffer_write_fp; repeat reading; cbv zeta; apply (safe_write _ (fun _ => [])); by apply safe_write_span.
  1: unfold buffer_readstring; repeat reading; apply (safe_write _ (fun h => [VString h])); by apply safe_intern.
  1: apply safe_writestring.
  1: by apply safe_readbits.
  1: by apply safe_writebits.
  1: unfold buffer_readinteger; repeat reading.
  1: unfold buffer_writeinteger; repeat reading; apply (safe_write _ (fun _ => [])); by apply safe_write_span.
  1: by apply safe_copy.
  by apply safe_fill.
Qed.
End BufferSafety.

(** ** A concrete machine *)

Section Samples.
#[local] Existing Instance exact_allocator.
#[local] Existing Instance doubling_map.
#[local] Existing Instance sizes64.
#[local] Existing Instance lib_sizes.
#[local] Existing Instance sample_limits.
#[local] Existing Instance quiet_nans.

Lemma buffer_vm_ok : buffers_ok buffer_vm.
Proof.
  split.
  - intros u data [-> | ->]%buffer_vm_bytes; (split; [repeat constructor; discriminate|discriminate]).
  - apply two_buffers_ok.
  - reflexivity.
  - by apply new_ok.
  - reflexivity.
Qed.

Lemma buffer_library_safe_witness :
  wp (call_buffer BufferWriteBits [VBuffer (th 0); VInteger (-1); VInteger 9; VInteger 5]) buffer_vm
    (fun vm' _ => kept buffer_vm vm') (fun vm' _ => kept buffer_vm vm').
Proof.
  refine (buffer_library_safe BufferWriteBits [VBuffer (th 0); VInteger (-1); VInteger 9; VInteger 5] buffer_vm buffer_vm_ok _).
  repeat constructor; discriminate.
Defined.

(** An allocator that grants bytes and refuses anything larger. *)
Definition bytes_only : Allocator := {| grow size need cap := if size =? 1 then Some need else None; shrink size n cap := n |}.

(** When the arena cannot grow for a new buffer the allocation raises, but its bytes stay
    charged to the memory meter although the buffer is gone. *)
Theorem refused_buffer_stays_charged :
  let vm := set_heap (set_objects (mkStore Arena.new Arena.new Arena.new Arena.new Arena.new Arena.new Arena.new Arena.new) (vm_heap buffer_vm)) buffer_vm in
  let r := buffer_create (AL := bytes_only) [VInteger 64] vm in
  r.2 = Raised "out of memory for 'buffer.create'" /\ buffers (objects (vm_heap r.1)) = Arena.new /\
  m_used (meter (vm_heap r.1)) = m_used (meter (vm_heap vm)) + 64.
Proof. vm_compute. by split_and!. Qed.
End Samples.
