(* ===== verification/Location.v ===== *)
(** * Location: source positions and ranges

    Model of [ruau-syntax/src/location.rs]: positions are pairs of a line and a byte column,
    locations are half-open ranges of positions, and both convert to byte offsets. A source is
    the list of its bytes. [pos_at s] is the position after the bytes [s]; the conversion is
    its inverse. *)

From Stdlib Require Import ZArith Lia.
From stdpp Require Import base numbers list strings option.
From S2P Require Import Prelude.

Definition U32_MAX : Z := 4294967295.

Record Position : Set := mkPos { line : Z; column : Z }.
Record Location : Set := mkLoc { loc_begin : Position; loc_end : Position }.

#[export] Instance Position_eq_dec : EqDecision Position.
Proof. solve_decision. Defined.
#[export] Instance Location_eq_dec : EqDecision Location.
Proof. solve_decision. Defined.

(** The derived [Ord]: line first. *)
Definition pos_lt (p q : Position) : bool := (line p <? line q) || ((line p =? line q) && (column p <? column q)).
Definition pos_le (p q : Position) : bool := (line p <? line q) || ((line p =? line q) && (column p <=? column q)).

Definition missing : Position := mkPos U32_MAX U32_MAX.
Definition has_value (p : Position) : bool := negb (line p =? U32_MAX) || negb (column p =? U32_MAX).

Definition encloses (l other : Location) : bool :=
  pos_le (loc_begin l) (loc_begin other) && pos_le (loc_end other) (loc_end l).
Definition overlaps (l other : Location) : bool :=
  (pos_le (loc_begin l) (loc_begin other) && pos_le (loc_begin other) (loc_end l))
  || (pos_le (loc_begin l) (loc_end other) && pos_le (loc_end other) (loc_end l))
  || (pos_le (loc_begin other) (loc_begin l) && pos_le (loc_end l) (loc_end other)).
Definition contains (l : Location) (p : Position) : bool := pos_le (loc_begin l) p && pos_lt p (loc_end l).

Definition extend (l other : Location) : Location :=
  mkLoc (if pos_lt (loc_begin other) (loc_begin l) then loc_begin other else loc_begin l)
        (if pos_lt (loc_end l) (loc_end other) then loc_end other else loc_end l).

(** The loop of [source_line_starts] over the bytes from [index] on. *)
Fixpoint line_starts_from (index : Z) (source : list Z) : list Z :=
  match source with
  | [] => []
  | b :: source' => (if b =? 10 then [index + 1] else []) ++ line_starts_from (index + 1) source'
  end.
Definition source_line_starts (source : list Z) : list Z := 0 :: line_starts_from 0 source.

Definition position_to_offset (p : Position) (source line_starts : list Z) : option Z :=
  if negb (has_value p) then None
  else
    match zget line_starts (line p) with
    | None => None
    | Some line_start =>
        let offset := line_start + column p in
        if 18446744073709551615 <? offset then None
        else
          let line_end := match zget line_starts (line p + 1) with
                          | Some next_start => Z.max 0 (next_start - 1)
                          | None => len source
                          end in
          if offset <=? line_end then Some offset else None
    end.

Definition byte_offset (p : Position) (source : list Z) : option Z :=
  position_to_offset p source (source_line_starts source).

Definition byte_range (l : Location) (source : list Z) : option (Z * Z) :=
  let line_starts := source_line_starts source in
  match position_to_offset (loc_begin l) source line_starts with
  | None => None
  | Some b =>
      match position_to_offset (loc_end l) source line_starts with
      | None => None
      | Some e => if b <=? e then Some (b, e) else None
      end
  end.

(** ** Positions of offsets *)

Definition pos_next (p : Position) (b : Z) : Position :=
  if b =? 10 then mkPos (line p + 1) 0 else mkPos (line p) (column p + 1).

(** The position after the bytes [s]. *)
Definition pos_at (s : list Z) : Position := foldl pos_next (mkPos 0 0) s.

Lemma pos_at_snoc s b : pos_at (s ++ [b]) = pos_next (pos_at s) b.
Proof. unfold pos_at. by rewrite foldl_app. Qed.

Lemma pos_at_range s : 0 <= line (pos_at s) /\ 0 <= column (pos_at s) /\ line (pos_at s) + column (pos_at s) <= len s.
Proof.
  induction s as [|b s IH] using rev_ind; [done|]. rewrite pos_at_snoc, len_app. unfold pos_next.
  change (len [b]) with 1. destruct (b =? 10); cbn [line column]; lia.
Qed.

Lemma line_starts_app k a b :
  line_starts_from k (a ++ b) = line_starts_from k a ++ line_starts_from (k + len a) b.
Proof.
  revert k. induction a as [|x a IH]; intros k; cbn [app line_starts_from].
  - by rewrite Z.add_0_r.
  - rewrite IH, <- app_assoc, len_cons. do 3 f_equal. lia.
Qed.

Lemma line_starts_len k a : len (line_starts_from k a) = line (pos_at a).
Proof.
  induction a as [|b a IH] using rev_ind; [done|]. rewrite line_starts_app, len_app, IH, pos_at_snoc.
  unfold pos_next. cbn [line_starts_from]. rewrite app_nil_r. destruct (b =? 10); cbn [line]; [done|]. unfold len. cbn [length]. lia.
Qed.

Lemma line_starts_bounds k b x : x ∈ line_starts_from k b -> k < x <= k + len b.
Proof.
  revert k. induction b as [|c b IH]; intros k Hx; cbn in Hx; [by apply not_elem_of_nil in Hx|].
  rewrite len_cons. pose proof (len_nonneg b). apply elem_of_app in Hx as [Hx|Hx].
  - destruct (c =? 10); [apply list_elem_of_singleton in Hx; lia|by apply not_elem_of_nil in Hx].
  - apply IH in Hx. lia.
Qed.

Lemma line_start_last a : list.last (source_line_starts a) = Some (len a - column (pos_at a)).
Proof.
  induction a as [|b a IH] using rev_ind; [done|].
  unfold source_line_starts in *. rewrite line_starts_app, app_comm_cons, len_app, pos_at_snoc. unfold pos_next.
  cbn [line_starts_from]. rewrite app_nil_r. change (len [b]) with 1. destruct (b =? 10); cbn [column].
  - rewrite last_snoc. f_equal. lia.
  - rewrite app_nil_r, IH. f_equal. lia.
Qed.

(** The starts of the line of an offset and of the next one. *)
Lemma line_start_at a b :
  zget (source_line_starts (a ++ b)) (line (pos_at a)) = Some (len a - column (pos_at a)) /\
  match zget (source_line_starts (a ++ b)) (line (pos_at a) + 1) with
  | Some next => len a < next
  | None => True
  end.
Proof.
  destruct (pos_at_range a) as (Hl & Hc & _). pose proof (line_start_last a) as Hlast. unfold source_line_starts in *.
  pose proof (line_starts_len 0 a) as Hlen. rewrite line_starts_app, app_comm_cons.
  set (A := line_starts_from 0 a) in *. set (B := line_starts_from (0 + len a) b). unfold zget.
  rewrite (proj2 (Z.ltb_ge (line (pos_at a)) 0)), (proj2 (Z.ltb_ge (line (pos_at a) + 1) 0)) by lia.
  assert (Z.to_nat (line (pos_at a)) = length A) as -> by (unfold len in Hlen; lia).
  assert (Z.to_nat (line (pos_at a) + 1) = length (0 :: A)) as -> by (cbn; unfold len in Hlen; lia). split.
  - rewrite lookup_app_l by (cbn; lia). rewrite <- Hlast, last_lookup. done.
  - rewrite lookup_app_r, Nat.sub_diag by done. destruct (B !! 0%nat) as [x|] eqn:Ex; [|done].
    apply list_elem_of_lookup_2, line_starts_bounds in Ex. lia.
Qed.

(** The position of an offset converts back. *)
Lemma byte_offset_pos_at a b : len (a ++ b) < U32_MAX -> byte_offset (pos_at a) (a ++ b) = Some (len a).
Proof.
  intros Hs. destruct (pos_at_range a) as (Hl & Hc & Hlc). destruct (line_start_at a b) as [H1 H2].
  pose proof (len_nonneg b). rewrite len_app in Hs. unfold U32_MAX in *. unfold byte_offset, position_to_offset, has_value, U32_MAX.
  rewrite (proj2 (Z.eqb_neq (line (pos_at a)) _)) by lia. cbn [negb orb]. rewrite H1.
  replace (len a - column (pos_at a) + column (pos_at a)) with (len a) by lia.
  rewrite (proj2 (Z.ltb_ge _ (len a))) by lia. rewrite (proj2 (Z.leb_le (len a) _)); [done|].
  destruct (zget _ _) as [nx|] in H2 |- *; [lia|]. rewrite len_app. lia.
Qed.

Lemma byte_range_pos_at a b c :
  len (a ++ b ++ c) < U32_MAX ->
  byte_range (mkLoc (pos_at a) (pos_at (a ++ b))) (a ++ b ++ c) = Some (len a, len (a ++ b)).
Proof.
  intros Hs. pose proof (byte_offset_pos_at a (b ++ c) Hs) as H1. pose proof (byte_offset_pos_at (a ++ b) c) as H2.
  rewrite <- app_assoc in H2. specialize (H2 Hs). unfold byte_offset, byte_range in *. cbn [loc_begin loc_end].
  rewrite H1, H2. rewrite (proj2 (Z.leb_le _ _)); [done|]. rewrite len_app. pose proof (len_nonneg b). lia.
Qed.

(** Offsets of the line starts increase. *)
Lemma line_starts_lt s i j x y :
  (i < j)%nat -> source_line_starts s !! i = Some x -> source_line_starts s !! j = Some y -> x < y.
Proof.
  unfold source_line_starts. revert i j. assert (forall k i j, (i < j)%nat -> line_starts_from k s !! i = Some x ->
    line_starts_from k s !! j = Some y -> x < y) as Hgen.
  { induction s as [|b s IH]; intros k i j Hij Hx Hy; [done|]. cbn in Hx, Hy. destruct (b =? 10); cbn in Hx, Hy; [|by eapply IH].
    destruct j as [|j]; [lia|]. cbn in Hy. destruct i as [|i]; cbn in Hx; [|eapply (IH (k + 1) i j); [lia|done|done]].
    injection Hx as <-. apply list_elem_of_lookup_2, line_starts_bounds in Hy. lia. }
  intros i j Hij Hx Hy. destruct j as [|j]; [lia|]. destruct i as [|i]; cbn in Hx, Hy; [|eapply (Hgen 0 i j); [lia|done|done]].
  injection Hx as <-. apply list_elem_of_lookup_2, line_starts_bounds in Hy. lia.
Qed.

Lemma byte_offset_inv p s o :
  0 <= line p -> 0 <= column p -> byte_offset p s = Some o -> 0 <= o <= len s /\ p = pos_at (take (Z.to_nat o) s).
Proof.
  intros Hl Hc. unfold byte_offset, position_to_offset. destruct (negb (has_value p)); [done|].
  destruct (zget (source_line_starts s) (line p)) as [st|] eqn:Est; [|done]. case_match; [done|].
  match goal with |- (if ?o <=? ?e then _ else _) = _ -> _ => destruct (Z.leb_spec o e) as [Hend|]; [|done] end. intros [= <-].
  apply zget_Some in Est as [_ Est]. set (o := st + column p) in *.
  assert (0 <= st <= len s) as Hst.
  { pose proof (len_nonneg s). unfold source_line_starts in Est. destruct (Z.to_nat (line p)) as [|n]; cbn in Est; [injection Est as <-; lia|].
    apply list_elem_of_lookup_2, line_starts_bounds in Est. lia. }
  assert (0 <= o <= len s) as Ho.
  { split; [lia|]. destruct (zget (source_line_starts s) (line p + 1)) as [nx|] eqn:En; [|done].
    apply zget_Some in En as [_ En]. unfold source_line_starts in En. replace (Z.to_nat (line p + 1)) with (S (Z.to_nat (line p))) in En by lia.
    cbn in En. apply list_elem_of_lookup_2, line_starts_bounds in En. lia. }
  split; [done|]. set (pre := take (Z.to_nat o) s). assert (len pre = o) as Hpre by (unfold pre, len in *; rewrite length_take; lia).
  destruct (line_start_at pre (drop (Z.to_nat o) s)) as [H1 H2]. unfold pre in H1, H2. rewrite take_drop in H1, H2. fold pre in H1, H2.
  rewrite Hpre in H1, H2. destruct (pos_at_range pre) as (Hl' & Hc' & _). apply zget_Some in H1 as [_ H1].
  assert (forall nx, zget (source_line_starts s) (line p + 1) = Some nx -> o < nx) as Hnext.
  { intros nx Hnx. rewrite Hnx in Hend. apply zget_Some in Hnx as [_ Hnx].
    pose proof (line_starts_lt s (Z.to_nat (line p)) (Z.to_nat (line p + 1)) _ _ ltac:(lia) Est Hnx). lia. }
  assert (line p = line (pos_at pre)) as Hline.
  { destruct (Z.lt_trichotomy (line p) (line (pos_at pre))) as [Hlt|[Heq|Hgt]]; [|done|]; exfalso.
    - destruct (zget (source_line_starts s) (line p + 1)) as [nx|] eqn:En.
      + pose proof (Hnext nx eq_refl). apply zget_Some in En as [_ En]. destruct (decide (line p + 1 = line (pos_at pre))) as [He|He].
        * rewrite He, H1 in En. injection En as <-. lia.
        * pose proof (line_starts_lt s (Z.to_nat (line p + 1)) (Z.to_nat (line (pos_at pre))) _ _ ltac:(lia) En H1). lia.
      + unfold zget in En. rewrite (proj2 (Z.ltb_ge _ _)) in En by lia. apply lookup_ge_None in En.
        apply lookup_lt_Some in H1. lia.
    - destruct (zget (source_line_starts s) (line (pos_at pre) + 1)) as [nx|] eqn:En.
      + apply zget_Some in En as [_ En]. destruct (decide (line (pos_at pre) + 1 = line p)) as [He|He].
        * rewrite He, Est in En. injection En as <-. lia.
        * pose proof (line_starts_lt s (Z.to_nat (line (pos_at pre) + 1)) (Z.to_nat (line p)) _ _ ltac:(lia) En Est). lia.
      + unfold zget in En. rewrite (proj2 (Z.ltb_ge _ _)) in En by lia. apply lookup_ge_None in En.
        apply lookup_lt_Some in Est. lia. }
  rewrite <- Hline, Est in H1. assert (st = o - column (pos_at pre)) as H3 by congruence. unfold o in H3.
  destruct p as [l c], (pos_at pre) as [l' c']. cbn [line column] in *. f_equal; lia.
Qed.
