(* ===== verification/Lexer.v ===== *)
(** * Lexer: source bytes to tokens

    Model of [ruau-syntax/src/lexer.rs]. A source ([&str]) is the list of its UTF-8 bytes; a
    slice of it panics ([Crash]) off a character boundary, like the slice of a [str]. The lexer
    is a state ([Lexer]) threaded through the reading functions by the monad [LX]; loops that
    scan the source take fuel. The brace stack has its top first. A fixed display string is a
    Rocq string, everything read from the source a list of bytes; the serde representations
    are left out. *)

From Stdlib Require Import ZArith Lia.
From stdpp Require Import base numbers list strings option.
From S2P Require Import Prelude RustExec Builder Location.

(** ** Token kinds *)

Inductive TokenKind : Set :=
| Char (ch : Z)
| Eof | Equal | LessEqual | GreaterEqual | NotEqual | Dot2 | Dot3 | SkinnyArrow | DoubleColon
| FloorDiv | InterpStringBegin | InterpStringMid | InterpStringEnd | InterpStringSimple | AddAssign
| SubAssign | MulAssign | DivAssign | FloorDivAssign | ModAssign | PowAssign | ConcatAssign
| RawString | QuotedString | Number | Name | Comment | BlockComment | Attribute | AttributeOpen
| BrokenString | BrokenComment | BrokenUnicode | BrokenInterpDoubleBrace | Error | ReservedAnd
| ReservedBreak | ReservedDo | ReservedElse | ReservedElseif | ReservedEnd | ReservedFalse
| ReservedFor | ReservedFunction | ReservedIf | ReservedIn | ReservedLocal | ReservedNil
| ReservedNot | ReservedOr | ReservedRepeat | ReservedReturn | ReservedThen | ReservedTrue
| ReservedUntil | ReservedWhile.

(** The bytes of an ASCII string. *)
Definition bytes_of (s : string) : list Z := map (fun c => Z.of_N (Ascii.N_of_ascii c)) (String.list_ascii_of_string s).

Definition as_upstream_str (k : TokenKind) : list Z :=
  match k with
  | Char ch => encode_utf8 ch
  | Eof => bytes_of "Eof"
  | Equal => bytes_of "Equal"
  | LessEqual => bytes_of "LessEqual"
  | GreaterEqual => bytes_of "GreaterEqual"
  | NotEqual => bytes_of "NotEqual"
  | Dot2 => bytes_of "Dot2"
  | Dot3 => bytes_of "Dot3"
  | SkinnyArrow => bytes_of "SkinnyArrow"
  | DoubleColon => bytes_of "DoubleColon"
  | FloorDiv => bytes_of "FloorDiv"
  | InterpStringBegin => bytes_of "InterpStringBegin"
  | InterpStringMid => bytes_of "InterpStringMid"
  | InterpStringEnd => bytes_of "InterpStringEnd"
  | InterpStringSimple => bytes_of "InterpStringSimple"
  | AddAssign => bytes_of "AddAssign"
  | SubAssign => bytes_of "SubAssign"
  | MulAssign => bytes_of "MulAssign"
  | DivAssign => bytes_of "DivAssign"
  | FloorDivAssign => bytes_of "FloorDivAssign"
  | ModAssign => bytes_of "ModAssign"
  | PowAssign => bytes_of "PowAssign"
  | ConcatAssign => bytes_of "ConcatAssign"
  | RawString => bytes_of "RawString"
  | QuotedString => bytes_of "QuotedString"
  | Number => bytes_of "Number"
  | Name => bytes_of "Name"
  | Comment => bytes_of "Comment"
  | BlockComment => bytes_of "BlockComment"
  | Attribute => bytes_of "Attribute"
  | AttributeOpen => bytes_of "AttributeOpen"
  | BrokenString => bytes_of "BrokenString"
  | BrokenComment => bytes_of "BrokenComment"
  | BrokenUnicode => bytes_of "BrokenUnicode"
  | BrokenInterpDoubleBrace => bytes_of "BrokenInterpDoubleBrace"
  | Error => bytes_of "Error"
  | ReservedAnd => bytes_of "ReservedAnd"
  | ReservedBreak => bytes_of "ReservedBreak"
  | ReservedDo => bytes_of "ReservedDo"
  | ReservedElse => bytes_of "ReservedElse"
  | ReservedElseif => bytes_of "ReservedElseif"
  | ReservedEnd => bytes_of "ReservedEnd"
  | ReservedFalse => bytes_of "ReservedFalse"
  | ReservedFor => bytes_of "ReservedFor"
  | ReservedFunction => bytes_of "ReservedFunction"
  | ReservedIf => bytes_of "ReservedIf"
  | ReservedIn => bytes_of "ReservedIn"
  | ReservedLocal => bytes_of "ReservedLocal"
  | ReservedNil => bytes_of "ReservedNil"
  | ReservedNot => bytes_of "ReservedNot"
  | ReservedOr => bytes_of "ReservedOr"
  | ReservedRepeat => bytes_of "ReservedRepeat"
  | ReservedReturn => bytes_of "ReservedReturn"
  | ReservedThen => bytes_of "ReservedThen"
  | ReservedTrue => bytes_of "ReservedTrue"
  | ReservedUntil => bytes_of "ReservedUntil"
  | ReservedWhile => bytes_of "ReservedWhile"
  end.

(** The spellings of [from_str]. *)
Definition token_kind_table : list (string * TokenKind) :=
  [ ("Eof", Eof); ("Equal", Equal); ("LessEqual", LessEqual); ("GreaterEqual", GreaterEqual);
    ("NotEqual", NotEqual); ("Dot2", Dot2); ("Dot3", Dot3); ("SkinnyArrow", SkinnyArrow);
    ("DoubleColon", DoubleColon); ("FloorDiv", FloorDiv); ("InterpStringBegin", InterpStringBegin);
    ("InterpStringMid", InterpStringMid); ("InterpStringEnd", InterpStringEnd);
    ("InterpStringSimple", InterpStringSimple); ("AddAssign", AddAssign); ("SubAssign", SubAssign);
    ("MulAssign", MulAssign); ("DivAssign", DivAssign); ("FloorDivAssign", FloorDivAssign);
    ("ModAssign", ModAssign); ("PowAssign", PowAssign); ("ConcatAssign", ConcatAssign);
    ("RawString", RawString); ("QuotedString", QuotedString); ("Number", Number); ("Name", Name);
    ("Comment", Comment); ("BlockComment", BlockComment); ("Attribute", Attribute);
    ("AttributeOpen", AttributeOpen); ("BrokenString", BrokenString);
    ("BrokenComment", BrokenComment); ("BrokenUnicode", BrokenUnicode);
    ("BrokenInterpDoubleBrace", BrokenInterpDoubleBrace); ("Error", Error);
    ("ReservedAnd", ReservedAnd); ("ReservedBreak", ReservedBreak); ("ReservedDo", ReservedDo);
    ("ReservedElse", ReservedElse); ("ReservedElseif", ReservedElseif);
    ("ReservedEnd", ReservedEnd); ("ReservedFalse", ReservedFalse); ("ReservedFor", ReservedFor);
    ("ReservedFunction", ReservedFunction); ("ReservedIf", ReservedIf); ("ReservedIn", ReservedIn);
    ("ReservedLocal", ReservedLocal); ("ReservedNil", ReservedNil); ("ReservedNot", ReservedNot);
    ("ReservedOr", ReservedOr); ("ReservedRepeat", ReservedRepeat);
    ("ReservedReturn", ReservedReturn); ("ReservedThen", ReservedThen);
    ("ReservedTrue", ReservedTrue); ("ReservedUntil", ReservedUntil);
    ("ReservedWhile", ReservedWhile) ].

Definition find_spelling {A} (table : list (string * A)) (bytes : list Z) : option A :=
  (fun found => found.2.2) <$> list_find (fun entry => bytes_of entry.1 = bytes) table.

(** A source of one byte is that character. *)
Definition token_kind_from_str (source : list Z) : option TokenKind :=
  match source with
  | [ch] => Some (Char ch)
  | _ => find_spelling token_kind_table source
  end.

Definition reserved_words : list (string * (TokenKind * string)) :=
  [ ("and", (ReservedAnd, "'and'")); ("break", (ReservedBreak, "'break'"));
    ("do", (ReservedDo, "'do'")); ("else", (ReservedElse, "'else'"));
    ("elseif", (ReservedElseif, "'elseif'")); ("end", (ReservedEnd, "'end'"));
    ("false", (ReservedFalse, "'false'")); ("for", (ReservedFor, "'for'"));
    ("function", (ReservedFunction, "'function'")); ("if", (ReservedIf, "'if'"));
    ("in", (ReservedIn, "'in'")); ("local", (ReservedLocal, "'local'"));
    ("nil", (ReservedNil, "'nil'")); ("not", (ReservedNot, "'not'")); ("or", (ReservedOr, "'or'"));
    ("repeat", (ReservedRepeat, "'repeat'")); ("return", (ReservedReturn, "'return'"));
    ("then", (ReservedThen, "'then'")); ("true", (ReservedTrue, "'true'"));
    ("until", (ReservedUntil, "'until'")); ("while", (ReservedWhile, "'while'")) ].

Definition reserved_word (word : list Z) : option (TokenKind * string) := find_spelling reserved_words word.

(** ** Lexemes *)

Inductive QuoteStyle : Set := Single | Double.

Inductive LexemeDisplay : Set :=
| Fixed (s : string)
| Derived
| Owned (s : list Z).

Record Lexeme : Set := mkLexeme {
  kind : TokenKind;
  location : Location;
  lex_display : LexemeDisplay;
  text : option (list Z);
  name : option (list Z);
  block_depth : option Z;
  quote_style : option QuoteStyle;
  codepoint : option Z;
}.

Definition Lexeme_new (k : TokenKind) (loc : Location) (display : string) : Lexeme :=
  mkLexeme k loc (Fixed display) None None None None None.
Definition derived (k : TokenKind) (loc : Location) : Lexeme :=
  mkLexeme k loc Derived None None None None None.
Definition with_owned_display (k : TokenKind) (loc : Location) (display : list Z) : Lexeme :=
  mkLexeme k loc (Owned display) None None None None None.
Definition with_text (k : TokenKind) (loc : Location) (display : string) (t : list Z) : Lexeme :=
  mkLexeme k loc (Fixed display) (Some t) None None None None.
Definition with_derived_text (k : TokenKind) (loc : Location) (t : list Z) : Lexeme :=
  mkLexeme k loc Derived (Some t) None None None None.
Definition with_name (loc : Location) (n : list Z) : Lexeme :=
  mkLexeme Name loc Derived None (Some n) None None None.
Definition set_block_depth (d : Z) (t : Lexeme) : Lexeme :=
  mkLexeme (kind t) (location t) (lex_display t) (text t) (name t) (Some d) (quote_style t) (codepoint t).
Definition set_quote_style (q : QuoteStyle) (t : Lexeme) : Lexeme :=
  mkLexeme (kind t) (location t) (lex_display t) (text t) (name t) (block_depth t) (Some q) (codepoint t).

(** [{codepoint:x}]: the digits without leading zeros. *)
Fixpoint hex_trim (s : list Z) : list Z :=
  match s with
  | 48 :: ((_ :: _) as s') => hex_trim s'
  | _ => s
  end.

Definition render_display (t : Lexeme) : list Z :=
  let txt := default [] (text t) in
  match kind t with
  | Name => bytes_of "'" ++ default [] (name t) ++ bytes_of "'"
  | Attribute => bytes_of "'@" ++ default [] (name t) ++ bytes_of "'"
  | Char ch => bytes_of "'" ++ encode_utf8 ch ++ bytes_of "'"
  | Number => bytes_of "'" ++ txt ++ bytes_of "'"
  | QuotedString | RawString => [34] ++ txt ++ [34]
  | InterpStringBegin => bytes_of "`" ++ txt ++ bytes_of "{"
  | InterpStringMid => bytes_of "}" ++ txt ++ bytes_of "{"
  | InterpStringEnd => bytes_of "}" ++ txt ++ bytes_of "`"
  | InterpStringSimple => bytes_of "`" ++ txt ++ bytes_of "`"
  | BrokenUnicode =>
      match codepoint t with
      | Some c => bytes_of "Unicode character U+" ++ hex_trim (bytes_of (hex 8 c))
      | None => bytes_of "invalid UTF-8 sequence"
      end
  | _ => []
  end.

Definition display (t : Lexeme) : list Z :=
  match lex_display t with
  | Fixed s => bytes_of s
  | Owned s => s
  | Derived => render_display t
  end.

(** ** The lexer *)

Record LexerOptions : Set := mkOptions { skip_comments : bool; read_names : bool }.
Definition DEFAULT : LexerOptions := mkOptions false true.

Inductive BraceType : Set := Normal | InterpolatedString.

Record Lexer : Set := mkLexer {
  source : list Z;
  source_end : Z;
  options : LexerOptions;
  offset : Z;
  position : Position;
  brace_stack : list BraceType;
}.

(** The offset of the first NUL, or the length. *)
Fixpoint nul_offset (bytes : list Z) : Z :=
  match bytes with
  | [] => 0
  | b :: bytes' => if b =? 0 then 0 else nul_offset bytes' + 1
  end.

Definition with_options (src : list Z) (o : LexerOptions) : Lexer :=
  mkLexer src (nul_offset src) o 0 (mkPos 0 0) [].
Definition Lexer_new (src : list Z) : Lexer := with_options src DEFAULT.

Definition visible_bytes (l : Lexer) : list Z := take (Z.to_nat (source_end l)) (source l).
Definition peek_byte (l : Lexer) : option Z := zget (visible_bytes l) (offset l).
Definition peek_byte_at (l : Lexer) (lookahead : Z) : option Z :=
  let at_ := offset l + lookahead in
  if 18446744073709551615 <? at_ then None else zget (visible_bytes l) at_.

(** [Some(b) == byte]. *)
Definition is_byte (o : option Z) (b : Z) : bool := match o with Some x => x =? b | None => false end.
Definition is_some_and (o : option Z) (p : Z -> bool) : bool := match o with Some x => p x | None => false end.

Definition LX (A : Type) : Type := Lexer -> Exec (A * Lexer).
Definition lx_ret {A} (a : A) : LX A := fun l => Done (a, l).
Definition lx_bind {A B} (m : LX A) (k : A -> LX B) : LX B := fun l =>
  match m l with
  | Done (a, l') => k a l'
  | Raise e => Raise e
  | Crash => Crash
  | Diverge => Diverge
  end.
Definition lx_get : LX Lexer := fun l => Done (l, l).
Definition lx_crash {A} : LX A := fun _ => Crash.
Definition lx_diverge {A} : LX A := fun _ => Diverge.

Notation "'let@' x := m 'in' k" := (lx_bind m (fun x => k))
  (at level 10, x pattern, m at level 100, k at level 200) : ruau_scope.

Definition set_braces (braces : list BraceType) : LX unit := fun l =>
  Done (tt, mkLexer (source l) (source_end l) (options l) (offset l) (position l) braces).

Definition bump_position (p : Position) (b : Z) : Position :=
  if b =? 10 then mkPos (as_u32 (line p + 1)) 0 else mkPos (line p) (as_u32 (column p + 1)).

Definition bump : LX (option Z) := fun l =>
  match peek_byte l with
  | None => Done (None, l)
  | Some b =>
      Done (Some b, mkLexer (source l) (source_end l) (options l) (offset l + 1) (bump_position (position l) b) (brace_stack l))
  end.

(** [for _ in 0..n { self.bump(); }]. *)
Fixpoint bump_times (n : nat) : LX unit :=
  match n with
  | O => lx_ret tt
  | S n' => let@ _ := bump in bump_times n'
  end.

(** [while self.peek_byte().is_some_and(p) { self.bump(); }]. *)
Fixpoint bump_while_loop (fuel : nat) (p : Z -> bool) : LX unit :=
  match fuel with
  | O => lx_diverge
  | S fuel' =>
      let@ l := lx_get in
      if is_some_and (peek_byte l) p then let@ _ := bump in bump_while_loop fuel' p
      else lx_ret tt
  end.
Definition bump_while (p : Z -> bool) : LX unit :=
  let@ l := lx_get in bump_while_loop (S (length (source l))) p.

(** [&self.source[a..b]]. *)
Definition is_char_boundary (s : list Z) (i : Z) : bool :=
  (i =? 0) ||
  match zget s i with
  | Some b => negb ((128 <=? b) && (b <? 192))
  | None => i =? len s
  end.
Definition source_slice (a b : Z) : LX (list Z) := fun l =>
  let s := source l in
  if (a <=? b) && (b <=? len s) && is_char_boundary s a && is_char_boundary s b
  then Done (take (Z.to_nat (b - a)) (drop (Z.to_nat a) s), l)
  else Crash.

(** The text from an offset to the current one. *)
Definition slice_from (start : Z) : LX (list Z) :=
  let@ l := lx_get in source_slice start (offset l).

(** ** Byte classes and long brackets *)

Definition is_name_start (byte : Z) : bool := is_ascii_alphabetic byte || (byte =? 95).
Definition is_name_continue (byte : Z) : bool := is_ascii_alphanumeric byte || (byte =? 95).
Definition is_space_byte (byte : Z) : bool :=
  (byte =? 32) || (byte =? 10) || (byte =? 13) || (byte =? 9) || (byte =? 11) || (byte =? 12).

(** The number of equals signs from the start on. *)
Fixpoint equals_run (bytes : list Z) : Z :=
  match bytes with
  | 61 :: bytes' => equals_run bytes' + 1
  | _ => 0
  end.

Definition long_separator_depth (bytes : list Z) (off : Z) : option Z :=
  if negb (is_byte (zget bytes off) 91) then None
  else
    let cursor := off + 1 + equals_run (drop (Z.to_nat (off + 1)) bytes) in
    if is_byte (zget bytes cursor) 91 then Some (cursor - off - 1) else None.

(** [bytes.get(a..b)]. *)
Definition get_range (bytes : list Z) (a b : Z) : option (list Z) :=
  if (a <=? b) && (b <=? len bytes) then Some (take (Z.to_nat (b - a)) (drop (Z.to_nat a) bytes)) else None.

Definition closing_long_separator_at (bytes : list Z) (off depth : Z) : bool :=
  if negb (is_byte (zget bytes off) 93) then false
  else
    let equals_start := off + 1 in
    let equals_end := equals_start + depth in
    match get_range bytes equals_start equals_end with
    | Some equals => forallb (fun b => b =? 61) equals
    | None => false
    end && is_byte (zget bytes equals_end) 93.

(** ** Reading tokens *)

(** [Location::new(start, self.position)]. *)
Definition loc_from (start : Position) : LX Location := let@ l := lx_get in lx_ret (mkLoc start (position l)).

Definition skip_trivia : LX unit :=
  bump_while (fun b => (b =? 32) || (b =? 9) || (b =? 10) || (b =? 11) || (b =? 12) || (b =? 13)).

Definition read_name_or_reserved (start : Position) : LX Lexeme :=
  let@ l0 := lx_get in
  let@ _ := bump_while is_name_continue in
  let@ txt := slice_from (offset l0) in
  let@ loc := loc_from start in
  match reserved_word txt with
  | Some (k, disp) => lx_ret (Lexeme_new k loc disp)
  | None =>
      if read_names (options l0) then lx_ret (with_name loc txt)
      else lx_ret (with_owned_display Name loc (bytes_of "'" ++ txt ++ bytes_of "'"))
  end.

Definition read_number (start : Position) : LX Lexeme :=
  let@ l0 := lx_get in
  let@ _ := bump_while (fun b => is_ascii_digit b || (b =? 46) || (b =? 95)) in
  let@ l := lx_get in
  let@ _ := (if is_some_and (peek_byte l) (fun b => (b =? 101) || (b =? 69)) then
               let@ _ := bump in
               let@ l := lx_get in
               if is_some_and (peek_byte l) (fun b => (b =? 43) || (b =? 45)) then let@ _ := bump in lx_ret tt
               else lx_ret tt
             else lx_ret tt) in
  let@ _ := bump_while (fun b => is_ascii_alphanumeric b || (b =? 95)) in
  let@ txt := slice_from (offset l0) in
  let@ loc := loc_from start in
  lx_ret (with_derived_text Number loc txt).

(** The continuation bytes; [None] where one is missing. *)
Fixpoint utf8_loop (n : nat) (cp : Z) : LX (option Z) :=
  match n with
  | O => lx_ret (Some cp)
  | S n' =>
      let@ l := lx_get in
      match peek_byte l with
      | None => lx_ret None
      | Some byte =>
          if negb (Z.land byte 192 =? 128) then lx_ret None
          else
            let@ _ := bump in
            utf8_loop n' (Z.lor (as_u32 (Z.shiftl cp 6)) (Z.land byte 63))
      end
  end.

Definition read_utf8_error (start : Position) : LX Lexeme :=
  let@ l := lx_get in
  match peek_byte l with
  | None => lx_crash
  | Some first =>
      let size_codepoint :=
        if Z.land first 224 =? 192 then Some (2%nat, Z.land first 31)
        else if Z.land first 240 =? 224 then Some (3%nat, Z.land first 15)
        else if Z.land first 248 =? 240 then Some (4%nat, Z.land first 7)
        else None in
      let@ _ := bump in
      match size_codepoint with
      | None => let@ loc := loc_from start in lx_ret (Lexeme_new BrokenUnicode loc "invalid UTF-8 sequence")
      | Some (size, cp) =>
          let@ r := utf8_loop (size - 1) cp in
          let@ loc := loc_from start in
          match r with
          | None => lx_ret (Lexeme_new BrokenUnicode loc "invalid UTF-8 sequence")
          | Some cp => lx_ret (mkLexeme BrokenUnicode loc Derived None None None None (Some cp))
          end
      end
  end.

Definition read_attribute (start : Position) : LX Lexeme :=
  let@ _ := bump in
  let@ l := lx_get in
  if is_byte (peek_byte l) 91 then
    let@ _ := bump in
    let@ loc := loc_from start in
    lx_ret (Lexeme_new AttributeOpen loc "'@['")
  else
    let@ _ := bump_while is_name_continue in
    let@ n := slice_from (offset l) in
    let@ loc := loc_from start in
    lx_ret (mkLexeme Attribute loc Derived None (Some n) None None None).

(** [read_two_byte_token], [read_three_byte_token]. *)
Definition read_fixed (n : nat) (start : Position) (k : TokenKind) (disp : string) : LX Lexeme :=
  let@ _ := bump_times n in
  let@ loc := loc_from start in
  lx_ret (Lexeme_new k loc disp).

Definition bump_backslash_in_string : LX unit :=
  let@ _ := bump in
  let@ l := lx_get in
  match peek_byte l with
  | None => lx_ret tt
  | Some 13 =>
      let@ _ := bump in
      let@ l := lx_get in
      if is_byte (peek_byte l) 10 then let@ _ := bump in lx_ret tt else lx_ret tt
  | Some 122 => let@ _ := bump in bump_while is_space_byte
  | Some _ => let@ _ := bump in lx_ret tt
  end.

(** A malformed string with the text read so far. *)
Definition unfinished_string (start : Position) (content_start : Z) : LX Lexeme :=
  let@ txt := slice_from content_start in
  let@ loc := loc_from start in
  lx_ret (with_text BrokenString loc "unfinished string" txt).

Fixpoint quoted_loop (fuel : nat) (start : Position) (quote content_start : Z) : LX Lexeme :=
  match fuel with
  | O => lx_diverge
  | S fuel' =>
      let@ l := lx_get in
      match peek_byte l with
      | None => unfinished_string start content_start
      | Some byte =>
          if byte =? 92 then
            let@ _ := bump_backslash_in_string in
            quoted_loop fuel' start quote content_start
          else if (byte =? 10) || (byte =? 13) then unfinished_string start content_start
          else
            let@ _ := bump in
            if byte =? quote then
              let@ l := lx_get in
              let@ txt := source_slice content_start (offset l - 1) in
              let@ loc := loc_from start in
              lx_ret (set_quote_style (if quote =? 39 then Single else Double) (with_derived_text QuotedString loc txt))
            else quoted_loop fuel' start quote content_start
      end
  end.

Definition read_quoted_string (start : Position) : LX Lexeme :=
  let@ quote := bump in
  match quote with
  | None => lx_crash
  | Some quote => let@ l := lx_get in quoted_loop (S (length (source l))) start quote (offset l)
  end.

Definition malformed_string (start : Position) : LX Lexeme :=
  let@ loc := loc_from start in lx_ret (Lexeme_new BrokenString loc "malformed string").

Fixpoint interp_loop (fuel : nat) (start : Position) (format_kind end_kind : TokenKind) (content_start : Z) : LX Lexeme :=
  match fuel with
  | O => lx_diverge
  | S fuel' =>
      let again := interp_loop fuel' start format_kind end_kind content_start in
      let@ l := lx_get in
      match peek_byte l with
      | None => malformed_string start
      | Some byte =>
          if byte =? 92 then
            if is_byte (peek_byte_at l 1) 117 && is_byte (peek_byte_at l 2) 123 then let@ _ := bump_times 3 in again
            else let@ _ := bump_backslash_in_string in again
          else if byte =? 96 then
            let@ _ := bump in
            let@ txt := source_slice content_start (offset l) in
            let@ loc := loc_from start in
            lx_ret (with_derived_text end_kind loc txt)
          else if (byte =? 123) && is_byte (peek_byte_at l 1) 123 then
            let@ txt := source_slice content_start (offset l) in
            let@ _ := set_braces (InterpolatedString :: brace_stack l) in
            let@ _ := bump_times 2 in
            lx_ret (with_text BrokenInterpDoubleBrace (mkLoc start (position l))
                      "'{{', which is invalid (did you mean '\{'?)" txt)
          else if byte =? 123 then
            let@ _ := set_braces (InterpolatedString :: brace_stack l) in
            let@ _ := bump in
            let@ l := lx_get in
            let@ txt := source_slice content_start (offset l - 1) in
            let@ loc := loc_from start in
            lx_ret (with_derived_text format_kind loc txt)
          else if (byte =? 10) || (byte =? 13) then malformed_string start
          else let@ _ := bump in again
      end
  end.

Definition read_interpolated_string_section (start : Position) (format_kind end_kind : TokenKind) : LX Lexeme :=
  let@ l := lx_get in interp_loop (S (length (source l))) start format_kind end_kind (offset l).

Definition read_interpolated_string_begin (start : Position) : LX Lexeme :=
  let@ _ := bump in read_interpolated_string_section start InterpStringBegin InterpStringSimple.

Definition read_open_brace (start : Position) : LX Lexeme :=
  let@ _ := bump in
  let@ l := lx_get in
  let@ _ := (if bool_decide (brace_stack l = []) then lx_ret tt else set_braces (Normal :: brace_stack l)) in
  let@ loc := loc_from start in
  lx_ret (Lexeme_new (Char 123) loc "'{'").

Definition read_close_brace (start : Position) : LX Lexeme :=
  let@ _ := bump in
  let@ l := lx_get in
  match brace_stack l with
  | [] => let@ loc := loc_from start in lx_ret (Lexeme_new (Char 125) loc "'}'")
  | brace :: braces =>
      let@ _ := set_braces braces in
      match brace with
      | Normal => let@ loc := loc_from start in lx_ret (Lexeme_new (Char 125) loc "'}'")
      | InterpolatedString => read_interpolated_string_section start InterpStringMid InterpStringEnd
      end
  end.

Definition is_raw (k : TokenKind) : bool := match k with RawString => true | _ => false end.

Fixpoint long_loop (fuel : nat) (start : Position) (k : TokenKind) (broken_display : string) (depth content_start : Z) : LX Lexeme :=
  match fuel with
  | O => lx_diverge
  | S fuel' =>
      let@ l := lx_get in
      if offset l <? len (visible_bytes l) then
        if closing_long_separator_at (visible_bytes l) (offset l) depth then
          let@ _ := bump_times (Z.to_nat (depth + 2)) in
          let@ txt := source_slice content_start (offset l) in
          let@ loc := loc_from start in
          lx_ret (set_block_depth (as_u32 depth)
                    (if is_raw k then with_derived_text k loc txt else with_text k loc "<unknown>" txt))
        else
          let@ _ := bump in
          long_loop fuel' start k broken_display depth content_start
      else
        let@ loc := loc_from start in
        lx_ret (Lexeme_new (if is_raw k then BrokenString else BrokenComment) loc broken_display)
  end.

Definition read_long_body (start : Position) (k : TokenKind) (broken_display : string) : LX Lexeme :=
  let@ l := lx_get in
  match long_separator_depth (visible_bytes l) (offset l) with
  | None => let@ loc := loc_from start in lx_ret (Lexeme_new Error loc "<error>")
  | Some depth =>
      let@ _ := bump_times (Z.to_nat (depth + 2)) in
      let@ l := lx_get in
      long_loop (S (length (source l))) start k broken_display depth (offset l)
  end.

Definition read_long_string (start : Position) : LX Lexeme := read_long_body start RawString "malformed string".

Definition read_comment (start : Position) : LX Lexeme :=
  let@ _ := bump_times 2 in
  let@ l := lx_get in
  match long_separator_depth (visible_bytes l) (offset l) with
  | Some _ => read_long_body start BlockComment "unfinished comment"
  | None =>
      let@ _ := bump_while (fun b => negb ((b =? 13) || (b =? 10))) in
      let@ txt := slice_from (offset l) in
      let@ loc := loc_from start in
      lx_ret (with_text Comment loc "comment" txt)
  end.

Definition read_char (start : Position) : LX Lexeme :=
  let@ byte := bump in
  match byte with
  | None => lx_crash
  | Some ch => let@ loc := loc_from start in lx_ret (derived (Char ch) loc)
  end.

(** The operators of more than one byte, in the order of the [match]. *)
Definition read_operator (l : Lexer) (byte : Z) (start : Position) : option (LX Lexeme) :=
  let next b := is_byte (peek_byte_at l 1) b in
  let next2 b := is_byte (peek_byte_at l 2) b in
  if (byte =? 45) && next 62 then Some (read_fixed 2 start SkinnyArrow "'->'")
  else if (byte =? 61) && next 61 then Some (read_fixed 2 start Equal "'=='")
  else if (byte =? 60) && next 61 then Some (read_fixed 2 start LessEqual "'<='")
  else if (byte =? 62) && next 61 then Some (read_fixed 2 start GreaterEqual "'>='")
  else if (byte =? 126) && next 61 then Some (read_fixed 2 start NotEqual "'~='")
  else if (byte =? 58) && next 58 then Some (read_fixed 2 start DoubleColon "'::'")
  else if (byte =? 46) && next 46 && next2 46 then Some (read_fixed 3 start Dot3 "'...'")
  else if (byte =? 46) && next 46 && next2 61 then Some (read_fixed 3 start ConcatAssign "'..='")
  else if (byte =? 46) && next 46 then Some (read_fixed 2 start Dot2 "'..'")
  else if (byte =? 47) && next 47 && next2 61 then Some (read_fixed 3 start FloorDivAssign "'//='")
  else if (byte =? 47) && next 47 then Some (read_fixed 2 start FloorDiv "'//'")
  else if (byte =? 43) && next 61 then Some (read_fixed 2 start AddAssign "'+='")
  else if (byte =? 45) && next 61 then Some (read_fixed 2 start SubAssign "'-='")
  else if (byte =? 42) && next 61 then Some (read_fixed 2 start MulAssign "'*='")
  else if (byte =? 47) && next 61 then Some (read_fixed 2 start DivAssign "'/='")
  else if (byte =? 37) && next 61 then Some (read_fixed 2 start ModAssign "'%='")
  else if (byte =? 94) && next 61 then Some (read_fixed 2 start PowAssign "'^='")
  else None.

Definition read_token : LX Lexeme :=
  let@ l := lx_get in
  let start := position l in
  match peek_byte l with
  | None => lx_ret (Lexeme_new Eof (mkLoc start start) "<eof>")
  | Some byte =>
      if is_name_start byte then read_name_or_reserved start
      else if is_ascii_digit byte || ((byte =? 46) && is_some_and (peek_byte_at l 1) is_ascii_digit) then read_number start
      else if byte =? 64 then read_attribute start
      else if byte =? 96 then read_interpolated_string_begin start
      else if byte =? 123 then read_open_brace start
      else if (byte =? 125) && negb (bool_decide (brace_stack l = [])) then read_close_brace start
      else if (byte =? 91) && bool_decide (is_Some (long_separator_depth (visible_bytes l) (offset l))) then
        read_long_string start
      else if (byte =? 39) || (byte =? 34) then read_quoted_string start
      else if (byte =? 45) && is_byte (peek_byte_at l 1) 45 then read_comment start
      else
        match read_operator l byte start with
        | Some read => read
        | None => if negb (Z.land byte 128 =? 0) then read_utf8_error start else read_char start
        end
  end.

Definition is_comment (k : TokenKind) : bool := match k with Comment | BlockComment => true | _ => false end.

Fixpoint next_token_loop (fuel : nat) : LX Lexeme :=
  match fuel with
  | O => lx_diverge
  | S fuel' =>
      let@ _ := skip_trivia in
      let@ token := read_token in
      let@ l := lx_get in
      if skip_comments (options l) && is_comment (kind token) then next_token_loop fuel'
      else lx_ret token
  end.

Definition next_token : LX Lexeme := let@ l := lx_get in next_token_loop (S (length (source l))).
