(* ===== verification/LexerSpec.v ===== *)
(** * LexerSpec: what a token stands for

    [spell] is the inverse of the lexer: the source text of a token, from its kind and payload
    alone. [well_formed] says what the payloads of each kind look like: names are identifiers
    and no keywords, string bodies hold no unescaped terminator, and so on. *)

From Stdlib Require Import ZArith Lia.
From stdpp Require Import base numbers list strings option.
From S2P Require Import Prelude RustExec Builder AstString Location Lexer.

(** The keyword of a reserved kind and the spelling of an operator. *)
Definition fixed_spelling (k : TokenKind) : option string :=
  match k with
  | Equal => Some "==" | LessEqual => Some "<=" | GreaterEqual => Some ">=" | NotEqual => Some "~="
  | Dot2 => Some ".." | Dot3 => Some "..." | SkinnyArrow => Some "->" | DoubleColon => Some "::"
  | FloorDiv => Some "//" | AddAssign => Some "+=" | SubAssign => Some "-=" | MulAssign => Some "*="
  | DivAssign => Some "/=" | FloorDivAssign => Some "//=" | ModAssign => Some "%=" | PowAssign => Some "^="
  | ConcatAssign => Some "..=" | AttributeOpen => Some "@["
  | ReservedAnd => Some "and" | ReservedBreak => Some "break" | ReservedDo => Some "do" | ReservedElse => Some "else"
  | ReservedElseif => Some "elseif" | ReservedEnd => Some "end" | ReservedFalse => Some "false" | ReservedFor => Some "for"
  | ReservedFunction => Some "function" | ReservedIf => Some "if" | ReservedIn => Some "in" | ReservedLocal => Some "local"
  | ReservedNil => Some "nil" | ReservedNot => Some "not" | ReservedOr => Some "or" | ReservedRepeat => Some "repeat"
  | ReservedReturn => Some "return" | ReservedThen => Some "then" | ReservedTrue => Some "true" | ReservedUntil => Some "until"
  | ReservedWhile => Some "while"
  | _ => None
  end.

Definition equals (depth : Z) : list Z := replicate (Z.to_nat depth) 61.
Definition long_bracket (depth : Z) (t : list Z) : list Z := [91] ++ equals depth ++ [91] ++ t ++ [93] ++ equals depth ++ [93].

Definition quote_byte (q : QuoteStyle) : Z := match q with Single => 39 | Double => 34 end.

(** The source text of a token; a malformed one does not keep it all. *)
Definition spell (t : Lexeme) : option (list Z) :=
  match kind t with
  | Char ch => Some [ch]
  | Eof => Some []
  | Name => name t
  | Attribute => (fun n => [64] ++ n) <$> name t
  | Number => text t
  | QuotedString => q ← quote_style t; s ← text t; Some ([quote_byte q] ++ s ++ [quote_byte q])
  | RawString => d ← block_depth t; s ← text t; Some (long_bracket d s)
  | Comment => (fun s => [45; 45] ++ s) <$> text t
  | BlockComment => d ← block_depth t; s ← text t; Some ([45; 45] ++ long_bracket d s)
  | InterpStringBegin => (fun s => [96] ++ s ++ [123]) <$> text t
  | InterpStringMid => (fun s => [125] ++ s ++ [123]) <$> text t
  | InterpStringEnd => (fun s => [125] ++ s ++ [96]) <$> text t
  | InterpStringSimple => (fun s => [96] ++ s ++ [96]) <$> text t
  | BrokenUnicode => encode_utf8 <$> codepoint t
  | k => bytes_of <$> fixed_spelling k
  end.

(** A kind whose tokens do not keep their text. *)
Definition malformed (k : TokenKind) : bool :=
  match k with BrokenString | BrokenComment | BrokenInterpDoubleBrace => true | _ => false end.

(** ** String bodies *)

Inductive escape : list Z -> Prop :=
| escape_byte b : escape [92; b]
| escape_crlf : escape [92; 13; 10]
| escape_z spaces : Forall (fun b => is_space_byte b = true) spaces -> escape (92 :: 122 :: spaces).

(** A body in which the bytes of [stop] occur in escapes only. *)
Inductive body (stop : Z -> bool) : list Z -> Prop :=
| body_nil : body stop []
| body_plain b s : stop b = false -> b <> 92 -> body stop s -> body stop (b :: s)
| body_unicode s : body stop s -> body stop (92 :: 117 :: 123 :: s)
| body_escape e s : escape e -> body stop s -> body stop (e ++ s).

Definition quoted_stop (q b : Z) : bool := (b =? q) || (b =? 10) || (b =? 13).
Definition interp_stop (b : Z) : bool := (b =? 96) || (b =? 123) || (b =? 10) || (b =? 13).

Definition identifier (s : list Z) : Prop :=
  match s with
  | b :: s' => is_name_start b = true /\ Forall (fun b => is_name_continue b = true) s'
  | [] => False
  end.

(** No closing bracket of the depth starts in [s] followed by [after]. *)
Definition unclosed (depth : Z) (s after : list Z) : Prop :=
  forall i, (i < length s)%nat -> closing_long_separator_at (s ++ after) (Z.of_nat i) depth = false.

Definition well_formed (t : Lexeme) : Prop :=
  match kind t with
  | Name => forall n, name t = Some n -> identifier n /\ reserved_word n = None
  | Attribute => exists n, name t = Some n /\ Forall (fun b => is_name_continue b = true) n
  | Number => exists s, text t = Some s /\ s <> [] /\
      Forall (fun b => is_name_continue b || (b =? 46) || (b =? 43) || (b =? 45) = true) s
  | QuotedString => exists q s, quote_style t = Some q /\ text t = Some s /\ body (quoted_stop (quote_byte q)) s
  | RawString | BlockComment => exists d s, block_depth t = Some d /\ text t = Some s /\
      unclosed d s ([93] ++ equals d ++ [93])
  | Comment => exists s, text t = Some s /\ Forall (fun b => b <> 10 /\ b <> 13) s
  | InterpStringBegin | InterpStringMid | InterpStringEnd | InterpStringSimple =>
      exists s, text t = Some s /\ body interp_stop s
  | BrokenUnicode => exists c, codepoint t = Some c /\ 128 <= c
  | Char c => 0 < c < 128
  | Error | Eof => False
  | _ => True
  end.

(** ** The text ahead of a lexer *)

Definition rest (l : Lexer) : list Z := drop (Z.to_nat (offset l)) (visible_bytes l).

(** The lexer after [n] bytes. *)
Definition skip (n : nat) (l : Lexer) : Lexer :=
  mkLexer (source l) (source_end l) (options l) (offset l + Z.of_nat n)
    (foldl bump_position (position l) (take n (rest l))) (brace_stack l).

Definition with_braces (braces : list BraceType) (l : Lexer) : Lexer :=
  mkLexer (source l) (source_end l) (options l) (offset l) (position l) braces.

(** A [str] of Unicode scalar values, short enough for 32-bit positions. *)
Definition valid_str (s : list Z) : Prop :=
  (exists chars, Forall (fun c => 0 <= c < 1114112) chars /\ s = utf8 chars) /\ len s < U32_MAX.

Definition at_boundary (l : Lexer) (k : nat) : Prop := is_char_boundary (source l) (offset l + Z.of_nat k) = true.

Record lexer_ok (l : Lexer) : Prop := {
  ok_valid : valid_str (source l);
  ok_end : source_end l = nul_offset (source l);
  ok_offset : 0 <= offset l <= source_end l;
  ok_boundary : at_boundary l 0;
}.
