(* ===== verification/LexerFacts.v ===== *)
(** * LexerFacts: the reading functions consume what they return

    First the boundaries of valid UTF-8; then a program logic [runs] for the monad [LX] in
    which every state is [skip n l] for the state [l] at the start of the token; then each
    reading function against [LexerSpec]. *)

From Stdlib Require Import ZArith Lia.
From stdpp Require Import base numbers list strings option.
From S2P Require Import Prelude RustExec Builder AstString Location Lexer LexerSpec.

(** ** Character boundaries *)

Definition scalar (c : Z) : Prop := 0 <= c < 1114112.
Definition continuation (b : Z) : Prop := 128 <= b < 192.

(** The shape of one encoded character. *)
Lemma encode_shape c :
  scalar c -> exists b t, encode_utf8 c = b :: t /\ Forall continuation t /\
    ((0 <= c < 128 /\ b = c /\ t = []) \/
     (128 <= c /\ exists b1, 194 <= b < 224 /\ t = [b1] /\ c = (b - 192) * 64 + (b1 - 128)) \/
     (128 <= c /\ exists b1 b2, 224 <= b < 240 /\ t = [b1; b2] /\ c = (b - 224) * 4096 + (b1 - 128) * 64 + (b2 - 128)) \/
     (128 <= c /\ exists b1 b2 b3, 240 <= b < 248 /\ t = [b1; b2; b3] /\
        c = (b - 240) * 262144 + (b1 - 128) * 4096 + (b2 - 128) * 64 + (b3 - 128))).
Proof.
  intros Hc. unfold scalar in Hc. unfold encode_utf8. rewrite !lor_continuation, !shiftr_div by lia.
  change (2 ^ 6) with 64. change (2 ^ 12) with 4096. change (2 ^ 18) with 262144.
  destruct (Z.ltb_spec c 128); [|destruct (Z.ltb_spec c 2048); [|destruct (Z.ltb_spec c 65536)]].
  - eexists _, _. split; [done|]. split; [constructor|]. left. split; [lia|done].
  - rewrite (lor_high 192 6 3) by (first [done|lia|change (2 ^ 6) with 64; zdm]). eexists _, _. split; [done|].
    split; [repeat constructor; unfold continuation; zdm|]. right. left. split; [lia|]. eexists. split; [zdm|]. split; [done|zdm].
  - rewrite (lor_high 224 5 7) by (first [done|lia|change (2 ^ 5) with 32; zdm]). eexists _, _. split; [done|].
    split; [repeat constructor; unfold continuation; zdm|]. right. right. left. split; [lia|]. eexists _, _. split; [zdm|]. split; [done|zdm].
  - rewrite (lor_high 240 4 15) by (first [done|lia|change (2 ^ 4) with 16; zdm]). eexists _, _. split; [done|].
    split; [repeat constructor; unfold continuation; zdm|]. right. right. right. split; [lia|]. eexists _, _, _. split; [zdm|]. split; [done|zdm].
Qed.

Lemma encode_head c : scalar c -> exists b t, encode_utf8 c = b :: t /\ ~ continuation b /\ Forall continuation t /\ (b < 128 -> t = [] /\ c = b).
Proof.
  intros Hc. destruct (encode_shape c Hc) as (b & t & Hb & Ht & H). exists b, t. unfold continuation in *.
  split; [done|]. destruct H as [(? & -> & ->)|[(? & ? & ? & _)|[(? & ? & ? & ? & _)|(? & ? & ? & ? & ? & _)]]]; split; try lia; split; try done; lia.
Qed.

(** Valid UTF-8 splits between characters at every byte that continues none. *)
Lemma utf8_split chars pre suf :
  Forall scalar chars -> utf8 chars = pre ++ suf -> match suf with [] => True | b :: _ => ~ continuation b end ->
  exists c1 c2, chars = c1 ++ c2 /\ pre = utf8 c1 /\ suf = utf8 c2.
Proof.
  intros Hc. revert pre. induction Hc as [|c chars Hc Hcs IH]; intros pre Heq Hsuf.
  - symmetry in Heq. apply app_eq_nil in Heq as [-> ->]. by exists [], [].
  - change (utf8 (c :: chars)) with (encode_utf8 c ++ utf8 chars) in Heq.
    destruct (encode_head c Hc) as (b & t & He & Hb & Ht & _).
    destruct pre as [|p pre]; [by exists [], (c :: chars)|].
    apply app_eq_inv in Heq as [(k & Hk & Hr)|(k & Hk & Hr)].
    + rewrite He in Hk. injection Hk as <- Hk. destruct k as [|x k].
      * exists [c], chars. rewrite app_nil_r in Hk. subst t. cbn in Hr. split; [done|]. split; [|done].
        unfold utf8. cbn. by rewrite app_nil_r, He.
      * exfalso. subst suf. cbn in Hsuf. apply Hsuf. rewrite Hk in Ht. apply Forall_app in Ht as [_ Ht]. by inversion Ht.
    + destruct (IH k Hr Hsuf) as (c1 & c2 & -> & -> & ->). exists (c :: c1), c2. split; [done|]. split; [|done]. by rewrite Hk.
Qed.

Lemma boundary_iff s (i : nat) :
  (i <= length s)%nat ->
  is_char_boundary s (Z.of_nat i) = true <-> i = 0%nat \/ match drop i s with [] => True | b :: _ => ~ continuation b end.
Proof.
  intros Hi. unfold is_char_boundary, continuation. destruct (Z.eqb_spec (Z.of_nat i) 0); [cbn; split; [left; lia|done]|].
  cbn [orb]. rewrite zget_of_nat. destruct (s !! i) as [b|] eqn:Eb.
  - rewrite (drop_S _ _ _ Eb). destruct (Z.leb_spec 128 b), (Z.ltb_spec b 192); cbn; split; try done; try lia; try (by right; lia).
  - apply lookup_ge_None in Eb. rewrite drop_ge by done. unfold len. rewrite (proj2 (Z.eqb_eq _ _)) by lia. split; [by right|done].
Qed.

Section Boundaries.
Context (s : list Z) (Hs : valid_str s).

Lemma ascii_boundary (i : nat) b : s !! i = Some b -> b < 128 -> is_char_boundary s (Z.of_nat i) = true.
Proof using.
  intros Hb Hlt. apply boundary_iff; [by apply lookup_lt_Some in Hb; lia|]. right. rewrite (drop_S _ _ _ Hb). unfold continuation. lia.
Qed.

Lemma boundary_split (i : nat) :
  (i <= length s)%nat -> is_char_boundary s (Z.of_nat i) = true ->
  exists c1 c2, Forall scalar c2 /\ take i s = utf8 c1 /\ drop i s = utf8 c2.
Proof using Hs.
  intros Hi Hb. apply boundary_iff in Hb; [|done]. destruct Hs as [(chars & Hc & Heq) _].
  destruct Hb as [->|Hb]; [by exists [], chars; rewrite drop_0|].
  destruct (utf8_split chars (take i s) (drop i s) Hc) as (c1 & c2 & -> & H1 & H2); [by rewrite take_drop|done|].
  exists c1, c2. apply Forall_app in Hc as [_ Hc]. done.
Qed.

(** After a byte that is a character comes a boundary. *)
Lemma after_ascii (i : nat) b : s !! i = Some b -> b < 128 -> is_char_boundary s (Z.of_nat (S i)) = true.
Proof using Hs.
  intros Hb Hlt. pose proof (lookup_lt_Some _ _ _ Hb) as Hi.
  destruct (boundary_split i ltac:(lia) (ascii_boundary i b Hb Hlt)) as (c1 & c2 & Hc & _ & Hd).
  rewrite (drop_S _ _ _ Hb) in Hd. apply boundary_iff; [lia|]. right. destruct c2 as [|c c2]; [done|].
  inversion Hc as [|? ? Hcc Hc2]; subst. destruct (encode_head c Hcc) as (b' & t & He & _ & _ & Ht).
  change (utf8 (c :: c2)) with (encode_utf8 c ++ utf8 c2) in Hd. rewrite He in Hd. injection Hd as <- Hd.
  destruct (Ht Hlt) as [-> _]. cbn in Hd. rewrite Hd. destruct c2 as [|c' c2]; [done|].
  inversion Hc2 as [|? ? Hcc' _]; subst. destruct (encode_head c' Hcc') as (b'' & t' & He' & Hb' & _).
  change (utf8 (c' :: c2)) with (encode_utf8 c' ++ utf8 c2). by rewrite He'.
Qed.

(** A boundary at a byte that is no character starts an encoded one. *)
Lemma char_at (i : nat) b :
  is_char_boundary s (Z.of_nat i) = true -> s !! i = Some b -> 128 <= b ->
  exists c r, scalar c /\ 128 <= c /\ drop i s = encode_utf8 c ++ r /\
    is_char_boundary s (Z.of_nat (i + length (encode_utf8 c))) = true.
Proof using Hs.
  intros Hbd Hb Hge. pose proof (lookup_lt_Some _ _ _ Hb) as Hi.
  destruct (boundary_split i ltac:(lia) Hbd) as (c1 & c2 & Hc & _ & Hd). rewrite (drop_S _ _ _ Hb) in Hd |- *.
  destruct c2 as [|c c2]; [done|]. inversion Hc as [|? ? Hcc Hc2]; subst.
  change (utf8 (c :: c2)) with (encode_utf8 c ++ utf8 c2) in Hd. exists c, (utf8 c2). split; [done|].
  destruct (encode_shape c Hcc) as (b' & t & He & _ & Hsh). split.
  { rewrite He in Hd. injection Hd as <- Hd. destruct Hsh as [(? & ? & _)|[(? & _)|[(? & _)|(? & _)]]]; lia. }
  split; [done|]. assert (drop (i + length (encode_utf8 c)) s = utf8 c2) as Hd2.
  { rewrite <- drop_drop, (drop_S _ _ _ Hb), Hd. by rewrite drop_app_length. }
  apply boundary_iff.
  - assert (length (drop i s) = length (encode_utf8 c ++ utf8 c2)) as Hl by (by rewrite (drop_S _ _ _ Hb), Hd).
    rewrite length_drop, length_app in Hl. lia.
  - right. rewrite Hd2. destruct c2 as [|c' c2]; [done|]. inversion Hc2 as [|? ? Hcc' _]; subst.
    destruct (encode_head c' Hcc') as (b'' & t' & He' & Hb' & _).
    change (utf8 (c' :: c2)) with (encode_utf8 c' ++ utf8 c2). by rewrite He'.
Qed.
End Boundaries.

(** ** Stepping *)

Lemma nul_offset_spec s :
  0 <= nul_offset s <= len s /\ (nul_offset s < len s -> zget s (nul_offset s) = Some 0) /\
  (forall i b, (Z.of_nat i < nul_offset s) -> s !! i = Some b -> b <> 0).
Proof.
  induction s as [|b s (Hr & Hz & Hn)]; [done|]. cbn [nul_offset]. rewrite len_cons. destruct (Z.eqb_spec b 0) as [->|Hb].
  - split; [pose proof (len_nonneg s); lia|]. split; [done|]. intros; lia.
  - split; [lia|]. split.
    + intros Hlt. replace (nul_offset s + 1) with (Z.of_nat (S (Z.to_nat (nul_offset s)))) by lia. rewrite zget_of_nat. cbn.
      rewrite <- Hz by lia. rewrite <- (Z2Nat.id (nul_offset s)) at 2 by lia. by rewrite zget_of_nat.
    + intros [|i] c Hi Hc; cbn in Hc; [by injection Hc as <-|]. apply (Hn i c); [lia|done].
Qed.

(** The offset is inside the visible source. *)
Definition in_source (l : Lexer) : Prop :=
  0 <= offset l <= source_end l /\ source_end l <= len (source l) /\ len (source l) < 9223372036854775808.

Lemma lexer_ok_in_source l : lexer_ok l -> in_source l.
Proof.
  intros [[_ Hlen] He Ho _]. destruct (nul_offset_spec (source l)) as (Hn & _). unfold in_source, U32_MAX in *. rewrite He in *. lia.
Qed.

Lemma length_rest l : in_source l -> Z.of_nat (length (rest l)) = source_end l - offset l.
Proof. intros (H1 & H2 & _). unfold rest, visible_bytes, len in *. rewrite length_drop, length_take. lia. Qed.

Lemma rest_lookup l i : in_source l -> rest l !! i = zget (visible_bytes l) (offset l + Z.of_nat i).
Proof.
  intros (H1 & _). unfold rest. rewrite lookup_drop. replace (offset l + Z.of_nat i) with (Z.of_nat (Z.to_nat (offset l) + i)) by lia.
  by rewrite zget_of_nat.
Qed.

Lemma rest_source l i b : in_source l -> rest l !! i = Some b -> source l !! (Z.to_nat (offset l) + i)%nat = Some b.
Proof.
  intros _. unfold rest, visible_bytes. rewrite lookup_drop. intros H.
  apply lookup_take_Some in H as [H _]. done.
Qed.

Lemma peek_rest l : in_source l -> peek_byte l = head (rest l).
Proof.
  intros H. unfold peek_byte. rewrite head_lookup, rest_lookup by done. by rewrite Z.add_0_r.
Qed.

Lemma peek_at_rest l k : in_source l -> 0 <= k <= 3 -> peek_byte_at l k = rest l !! Z.to_nat k.
Proof.
  intros H Hk. pose proof H as (H1 & H2 & H3). unfold peek_byte_at. rewrite (proj2 (Z.ltb_ge _ _)) by lia.
  rewrite rest_lookup by done. by rewrite Z2Nat.id by lia.
Qed.

Lemma in_source_skip n l : in_source l -> (n <= length (rest l))%nat -> in_source (skip n l).
Proof. intros H Hn. pose proof (length_rest l H). unfold in_source in *. cbn. lia. Qed.

Lemma rest_skip n l : in_source l -> (n <= length (rest l))%nat -> rest (skip n l) = drop n (rest l).
Proof.
  intros (H1 & _) Hn. unfold rest at 1, visible_bytes. cbn. unfold rest, visible_bytes. rewrite drop_drop. f_equal. lia.
Qed.

Lemma skip_0 l : skip 0 l = l.
Proof. destruct l. unfold skip. cbn. by rewrite Z.add_0_r. Qed.

Lemma skip_skip n m l : in_source l -> (n <= length (rest l))%nat -> skip m (skip n l) = skip (n + m) l.
Proof.
  intros H Hn. unfold skip at 1. rewrite rest_skip by done. cbn. unfold skip. f_equal; [lia|].
  by rewrite <- foldl_app, take_take_drop.
Qed.

Lemma rest_braces braces l : rest (with_braces braces l) = rest l.
Proof. done. Qed.

Lemma skip_braces n braces l : skip n (with_braces braces l) = with_braces braces (skip n l).
Proof. done. Qed.

(** ** A logic of runs *)

Definition runs {A} (m : LX A) (l : Lexer) (Q : A -> Lexer -> Prop) : Prop :=
  match m l with Done (a, l') => Q a l' | _ => False end.

Lemma runs_ret {A} (a : A) l (Q : A -> Lexer -> Prop) : Q a l -> runs (lx_ret a) l Q.
Proof. done. Qed.

Lemma runs_get l (Q : Lexer -> Lexer -> Prop) : Q l l -> runs lx_get l Q.
Proof. done. Qed.

Lemma runs_bind {A B} (m : LX A) (k : A -> LX B) l Q : runs m l (fun a l' => runs (k a) l' Q) -> runs (lx_bind m k) l Q.
Proof. unfold runs, lx_bind. by destruct (m l) as [[]| | |]. Qed.

Lemma runs_mono {A} (m : LX A) l (Q Q' : A -> Lexer -> Prop) :
  runs m l Q -> (forall a l', Q a l' -> Q' a l') -> runs m l Q'.
Proof. unfold runs. destruct (m l) as [[]| | |]; eauto. Qed.

Lemma runs_braces braces l (Q : unit -> Lexer -> Prop) : Q tt (with_braces braces l) -> runs (set_braces braces) l Q.
Proof. done. Qed.

Lemma runs_bump l b r (Q : option Z -> Lexer -> Prop) :
  in_source l -> rest l = b :: r -> Q (Some b) (skip 1 l) -> runs bump l Q.
Proof.
  intros H Hr HQ. unfold runs, bump. rewrite peek_rest, Hr by done. cbn. unfold skip in HQ. rewrite Hr in HQ. exact HQ.
Qed.

(** A position with a byte to read. *)
Lemma rest_cons l : (0 < length (rest l))%nat -> exists b, rest l = b :: drop 1 (rest l).
Proof. destruct (rest l) as [|b r]; cbn; [lia|]. exists b. by rewrite drop_0. Qed.

Lemma runs_bump_times n l (Q : unit -> Lexer -> Prop) :
  in_source l -> (n <= length (rest l))%nat -> Q tt (skip n l) -> runs (bump_times n) l Q.
Proof.
  revert l Q. induction n as [|n IH]; intros l Q H Hn HQ; cbn [bump_times]; [rewrite skip_0 in HQ; by apply runs_ret|].
  destruct (rest_cons l ltac:(lia)) as [b Hb]. apply runs_bind. apply (runs_bump l b _ _ H Hb). apply IH.
  - apply in_source_skip; [done|lia].
  - rewrite rest_skip by (done || lia). rewrite length_drop. lia.
  - rewrite skip_skip by (done || lia). done.
Qed.

(** The length of the longest prefix of bytes in [p]. *)
Fixpoint prefix_run (p : Z -> bool) (s : list Z) : nat :=
  match s with
  | b :: s' => if p b then S (prefix_run p s') else O
  | [] => O
  end.

Lemma prefix_run_spec p s :
  (prefix_run p s <= length s)%nat /\ Forall (fun b => p b = true) (take (prefix_run p s) s) /\
  match drop (prefix_run p s) s with b :: _ => p b = false | [] => True end.
Proof.
  induction s as [|b s (H1 & H2 & H3)]; cbn; [by repeat constructor|]. destruct (p b) eqn:Ep; cbn.
  - split; [lia|]. split; [by constructor|done].
  - split; [lia|]. split; [constructor|done].
Qed.

Lemma runs_bump_while_loop fuel p l (Q : unit -> Lexer -> Prop) :
  in_source l -> (length (rest l) < fuel)%nat -> Q tt (skip (prefix_run p (rest l)) l) -> runs (bump_while_loop fuel p) l Q.
Proof.
  revert l Q. induction fuel as [|fuel IH]; intros l Q H Hf HQ; [lia|]. cbn [bump_while_loop].
  apply runs_bind, runs_get. rewrite peek_rest by done. destruct (rest l) as [|b r] eqn:Er; cbn [head is_some_and prefix_run] in *.
  - rewrite skip_0 in HQ. by apply runs_ret.
  - destruct (p b); [|rewrite skip_0 in HQ; by apply runs_ret]. apply runs_bind. apply (runs_bump l b r _ H Er).
    assert (rest (skip 1 l) = r) as Hr1 by (rewrite rest_skip, Er by (done || (rewrite Er; cbn; lia)); cbn; by rewrite drop_0).
    apply IH; rewrite ?Hr1; [apply in_source_skip; [done|rewrite Er; cbn; lia]|cbn in Hf; lia|].
    rewrite skip_skip by (done || (rewrite Er; cbn; lia)). done.
Qed.

Lemma rest_fuel l : in_source l -> (length (rest l) < S (length (source l)))%nat.
Proof. intros H. pose proof (length_rest l H). unfold in_source, len in H. lia. Qed.

Lemma runs_bump_while p l (Q : unit -> Lexer -> Prop) :
  in_source l -> Q tt (skip (prefix_run p (rest l)) l) -> runs (bump_while p) l Q.
Proof. intros H HQ. unfold bump_while. apply runs_bind, runs_get, runs_bump_while_loop; [done|by apply rest_fuel|done]. Qed.

(** ** Boundaries and slices *)

(** A lexer state, possibly inside a character. *)
Definition sane (l : Lexer) : Prop := in_source l /\ valid_str (source l) /\ source_end l = nul_offset (source l).

Lemma lexer_ok_sane l : lexer_ok l -> sane l.
Proof. intros H. split; [by apply lexer_ok_in_source|]. by destruct H. Qed.

Lemma sane_ok l : sane l -> at_boundary l 0 -> lexer_ok l.
Proof. intros ((H1 & H2) & Hv & He) Hb. by constructor. Qed.

Lemma sane_skip n l : sane l -> (n <= length (rest l))%nat -> sane (skip n l).
Proof. intros (H & Hv & He) Hn. split; [by apply in_source_skip|done]. Qed.

Lemma sane_braces braces l : sane l -> sane (with_braces braces l).
Proof. done. Qed.

Lemma at_boundary_skip n l : at_boundary (skip n l) 0 <-> at_boundary l n.
Proof. unfold at_boundary. cbn. by rewrite Z.add_0_r. Qed.

Section SaneBoundaries.
Context (l : Lexer) (Hl : sane l).

Lemma boundary_ascii k b : rest l !! k = Some b -> b < 128 -> at_boundary l k.
Proof using Hl.
  destruct Hl as (H & Hv & _). intros Hb Hlt. unfold at_boundary. apply rest_source in Hb; [|done].
  replace (offset l + Z.of_nat k) with (Z.of_nat (Z.to_nat (offset l) + k)) by (unfold in_source in H; lia). by eapply ascii_boundary.
Qed.

Lemma boundary_after k b : rest l !! k = Some b -> b < 128 -> at_boundary l (S k).
Proof using Hl.
  destruct Hl as (H & Hv & _). intros Hb Hlt. unfold at_boundary. apply rest_source in Hb; [|done].
  replace (offset l + Z.of_nat (S k)) with (Z.of_nat (S (Z.to_nat (offset l) + k))) by (unfold in_source in H; lia). by eapply after_ascii.
Qed.

Lemma boundary_end : at_boundary l (length (rest l)).
Proof using Hl.
  destruct Hl as (H & Hv & He). unfold at_boundary. rewrite length_rest by done.
  replace (offset l + (source_end l - offset l)) with (source_end l) by lia. rewrite He.
  destruct (nul_offset_spec (source l)) as (Hn & Hz & _).
  destruct (Z.eq_dec (nul_offset (source l)) (len (source l))) as [Heq|Hne].
  - rewrite Heq. unfold len. apply boundary_iff; [done|]. right. by rewrite drop_ge.
  - specialize (Hz ltac:(lia)). apply zget_Some in Hz as [_ Hz]. rewrite <- (Z2Nat.id (nul_offset (source l))) by lia.
    by eapply (ascii_boundary _ _ 0).
Qed.

(** A scan that stops at an ASCII byte or at the end stops at a boundary. *)
Lemma boundary_stop n :
  (n <= length (rest l))%nat -> match drop n (rest l) with b :: _ => b < 128 | [] => True end -> at_boundary l n.
Proof using Hl.
  intros Hn Hb. destruct (drop n (rest l)) as [|b r] eqn:Ed.
  - assert (n = length (rest l)) as ->; [|apply boundary_end]. apply (f_equal length) in Ed. rewrite length_drop in Ed. cbn in Ed. lia.
  - apply (boundary_ascii n b); [|done]. rewrite <- (Nat.add_0_r n), <- lookup_drop, Ed. done.
Qed.

(** A scan over ASCII bytes from a boundary stops at a boundary. *)
Lemma boundary_scan n :
  at_boundary l 0 -> (n <= length (rest l))%nat -> Forall (fun b => b < 128) (take n (rest l)) -> at_boundary l n.
Proof using Hl.
  intros H0 Hn Hall. destruct n as [|n]; [done|]. destruct (lookup_lt_is_Some_2 (rest l) n ltac:(lia)) as [b Hb].
  apply (boundary_after n b Hb). rewrite Forall_lookup in Hall. apply (Hall n b). by rewrite lookup_take_lt by lia.
Qed.
End SaneBoundaries.

(** The bytes from the boundary [cs] to the current offset are [pre]. *)
Definition before (l : Lexer) (cs : Z) (pre : list Z) : Prop :=
  0 <= cs /\ cs + len pre = offset l /\ take (length pre) (drop (Z.to_nat cs) (source l)) = pre /\ is_char_boundary (source l) cs = true.

Lemma before_start l : sane l -> at_boundary l 0 -> before l (offset l) [].
Proof.
  intros ((H & _) & _) Hb. unfold before, at_boundary, len in *. cbn in *. rewrite Z.add_0_r in Hb. split_and!; try done; lia.
Qed.

Lemma before_skip l cs pre n :
  sane l -> (n <= length (rest l))%nat -> before l cs pre -> before (skip n l) cs (pre ++ take n (rest l)).
Proof.
  intros (H & _) Hn (H1 & H2 & H3 & H4). unfold before. cbn. split; [done|]. split.
  { rewrite len_app. unfold len at 2. rewrite length_take. lia. }
  split; [|done]. rewrite length_app, <- take_take_drop, H3, drop_drop. f_equal.
  assert (Z.to_nat cs + length pre = Z.to_nat (offset l))%nat as -> by (unfold len in H2; lia).
  rewrite length_take, Nat.min_l by done. pose proof (length_rest l H) as Hlen. unfold rest, visible_bytes.
  rewrite skipn_firstn_comm, take_take. f_equal. unfold in_source in H. lia.
Qed.

Lemma runs_source_slice l l1 cs pre (Q : list Z -> Lexer -> Prop) :
  source l = source l1 -> sane l1 -> before l1 cs pre -> at_boundary l1 0 -> Q pre l -> runs (source_slice cs (offset l1)) l Q.
Proof.
  intros Hs ((H & Hlen & _) & _) (H1 & H2 & H3 & H4) Hb HQ. unfold runs, source_slice. rewrite Hs, H4.
  unfold at_boundary in Hb. rewrite Z.add_0_r in Hb. rewrite Hb.
  pose proof (len_nonneg pre). rewrite (proj2 (Z.leb_le cs _)), (proj2 (Z.leb_le (offset l1) _)) by lia. cbn [andb].
  replace (Z.to_nat (offset l1 - cs)) with (length pre) by (unfold len in H2; lia). by rewrite H3.
Qed.

Lemma runs_slice_from l cs pre (Q : list Z -> Lexer -> Prop) :
  sane l -> before l cs pre -> at_boundary l 0 -> Q pre l -> runs (slice_from cs) l Q.
Proof. intros. unfold slice_from. apply runs_bind, runs_get. by eapply runs_source_slice. Qed.

Lemma runs_loc_from l start (Q : Location -> Lexer -> Prop) : Q (mkLoc start (position l)) l -> runs (loc_from start) l Q.
Proof. done. Qed.

(** ** What reading a token does *)

(** The token read from [l], leaving [l']: its text is what was consumed. *)
Definition token_read (l : Lexer) (tok : Lexeme) (l' : Lexer) : Prop :=
  exists n braces,
    (0 < n <= length (rest l))%nat /\ l' = with_braces braces (skip n l) /\ at_boundary l n /\
    loc_begin (location tok) = position l /\
    loc_end (location tok) = position (match kind tok with BrokenInterpDoubleBrace => skip (n - 2) l | _ => skip n l end) /\
    (forall s, spell tok = Some s -> s = take n (rest l)) /\ well_formed tok /\
    (kind tok = Name -> read_names (options l) = true -> is_Some (name tok)).

Lemma token_read_intro l tok n :
  (0 < n <= length (rest l))%nat -> at_boundary l n -> location tok = mkLoc (position l) (position (skip n l)) ->
  kind tok <> BrokenInterpDoubleBrace -> (forall s, spell tok = Some s -> s = take n (rest l)) -> well_formed tok ->
  (kind tok = Name -> read_names (options l) = true -> is_Some (name tok)) ->
  forall braces, token_read l tok (with_braces braces (skip n l)).
Proof.
  intros Hn Hb Hloc Hk Hs Hw Hname braces. exists n, braces. split; [done|]. split; [done|]. split; [done|]. rewrite Hloc.
  split; [done|]. split; [|done]. by destruct (kind tok).
Qed.

Lemma with_own_braces l : with_braces (brace_stack l) l = l.
Proof. by destruct l. Qed.

(** *** Names, numbers, attributes *)

Lemma find_spelling_Some {A} (table : list (string * A)) s a : find_spelling table s = Some a -> exists n, (n, a) ∈ table /\ bytes_of n = s.
Proof.
  unfold find_spelling. intros H. apply fmap_Some in H as ([i [n x]] & H & ->). apply list_find_Some in H as (Hl & Hs & _).
  exists n. split; [by eapply list_elem_of_lookup_2|done].
Qed.

(** Every entry of the table is the spelling of its kind. *)
Lemma reserved_word_spelling s k disp :
  reserved_word s = Some (k, disp) -> (bytes_of <$> fixed_spelling k) = Some s /\ malformed k = false /\
  (forall loc, spell (Lexeme_new k loc disp) = Some s /\ well_formed (Lexeme_new k loc disp)) /\ k <> Name.
Proof.
  intros H. apply find_spelling_Some in H as (n & Hin & <-). unfold reserved_words in Hin.
  repeat (apply elem_of_cons in Hin as [[= -> -> ->]|Hin]; [done|]). by apply not_elem_of_nil in Hin.
Qed.

Lemma name_continue_ascii b : is_name_continue b = true -> b < 128.
Proof.
  unfold is_name_continue, is_ascii_alphanumeric, is_ascii_alphabetic, is_ascii_lowercase, is_ascii_uppercase, is_ascii_digit, between. lia.
Qed.

Lemma name_start_continue b : is_name_start b = true -> is_name_continue b = true.
Proof. unfold is_name_start, is_name_continue, is_ascii_alphanumeric. by destruct (is_ascii_alphabetic b), (is_ascii_digit b). Qed.

Section Tokens.
Context (l : Lexer) (Hok : lexer_ok l).
Let Hsane : sane l := lexer_ok_sane l Hok.
Let Hin : in_source l := proj1 Hsane.
Let Hb0 : at_boundary l 0 := ok_boundary l Hok.

Lemma run_ascii p n :
  (forall b, p b = true -> b < 128) -> n = prefix_run p (rest l) -> at_boundary l n.
Proof using Hok.
  intros Hp ->. destruct (prefix_run_spec p (rest l)) as (H1 & H2 & _). apply boundary_scan; [done..|].
  eapply Forall_impl; [|exact H2]. cbn. auto.
Qed.

Lemma before_run n : (n <= length (rest l))%nat -> before (skip n l) (offset l) (take n (rest l)).
Proof using Hok. intros Hn. by apply (before_skip l (offset l) []); [..|apply before_start]. Qed.

Lemma read_name_spec b r :
  rest l = b :: r -> is_name_start b = true -> runs (read_name_or_reserved (position l)) l (token_read l).
Proof using Hok.
  intros Hr Hb. set (n := prefix_run is_name_continue (rest l)).
  destruct (prefix_run_spec is_name_continue (rest l)) as (Hn & Hall & _). fold n in Hn, Hall.
  assert (0 < n)%nat as Hpos by (unfold n; rewrite Hr; cbn; rewrite name_start_continue by done; lia).
  assert (at_boundary l n) as Hbd by (by eapply run_ascii; [apply name_continue_ascii|]).
  unfold read_name_or_reserved. apply runs_bind, runs_get, runs_bind, runs_bump_while; [done|]. fold n.
  apply runs_bind. eapply runs_slice_from; [by apply sane_skip|by apply before_run|by apply at_boundary_skip|].
  apply runs_bind, runs_loc_from. destruct (reserved_word (take n (rest l))) as [[k disp]|] eqn:Ek.
  - apply runs_ret. destruct (reserved_word_spelling _ _ _ Ek) as (_ & Hk & Hsp & Hne). rewrite <- (with_own_braces (skip n l)).
    destruct (Hsp (mkLoc (position l) (position (skip n l)))) as [Hs Hw].
    apply token_read_intro; try done.
    + by destruct k.
    + intros s Hs'. cbn in Hs, Hs'. congruence.
  - assert (identifier (take n (rest l))) as Hid.
    { rewrite Hr in Hall |- *. destruct n as [|n']; [lia|]. cbn in Hall |- *. split; [done|]. by inversion Hall. }
    assert (forall tok, kind tok = Name -> location tok = mkLoc (position l) (position (skip n l)) ->
      name tok = (if read_names (options l) then Some (take n (rest l)) else None) -> token_read l tok (skip n l)) as Htok.
    { intros tok Hk Hloc Hname. rewrite <- (with_own_braces (skip n l)). apply token_read_intro; try done; [by rewrite Hk|..].
      - unfold spell. rewrite Hk, Hname. destruct (read_names (options l)); [|done]. by intros s [= <-].
      - unfold well_formed. rewrite Hk, Hname. destruct (read_names (options l)); [|done]. by intros s [= <-].
      - intros _ Hrn. rewrite Hname, Hrn. by eexists. }
    destruct (read_names (options l)) eqn:Ern; apply runs_ret, Htok; try done; by rewrite Ern.
Qed.

Definition number_byte (b : Z) : bool := is_name_continue b || (b =? 46) || (b =? 43) || (b =? 45).

Lemma number_byte_ascii b : number_byte b = true -> b < 128.
Proof using.
  unfold number_byte. destruct (is_name_continue b) eqn:E; [intros _; by apply name_continue_ascii|]. cbn. lia.
Qed.

(** Scanning a run of number bytes after [n] of them. *)
Lemma number_run p n :
  (forall b, p b = true -> number_byte b = true) -> (n <= length (rest l))%nat ->
  Forall (fun b => number_byte b = true) (take n (rest l)) ->
  let m := (n + prefix_run p (rest (skip n l)))%nat in
  (m <= length (rest l))%nat /\ Forall (fun b => number_byte b = true) (take m (rest l)).
Proof using Hok.
  intros Hp Hn Hall m. unfold m. rewrite rest_skip by done.
  destruct (prefix_run_spec p (drop n (rest l))) as (H1 & H2 & _). rewrite length_drop in H1. split; [lia|].
  rewrite <- take_take_drop. apply Forall_app. split; [done|]. eapply Forall_impl; [|exact H2]. cbn. auto.
Qed.

Lemma number_bump b n Q :
  (n < length (rest l))%nat -> Forall (fun b => number_byte b = true) (take n (rest l)) ->
  rest l !! n = Some b -> number_byte b = true ->
  (Forall (fun b => number_byte b = true) (take (S n) (rest l)) -> Q (Some b) (skip (S n) l)) -> runs bump (skip n l) Q.
Proof using Hok.
  intros Hn Hall Hb Hnb HQ. assert (rest (skip n l) = b :: drop (S n) (rest l)) as Hr.
  { rewrite rest_skip by (done || lia). by apply drop_S. }
  apply (runs_bump _ b (drop (S n) (rest l))); [apply in_source_skip; [done|lia]|done|].
  rewrite skip_skip by (done || lia). rewrite Nat.add_1_r. apply HQ. rewrite (take_S_r _ _ _ Hb).
  apply Forall_app. split; [done|]. by constructor.
Qed.

(** The end of a number: the rest of its run, and the token. *)
Lemma number_end n :
  (0 < n <= length (rest l))%nat -> Forall (fun b => number_byte b = true) (take n (rest l)) ->
  runs (let@ _ := bump_while (fun b => is_ascii_alphanumeric b || (b =? 95)) in
        let@ txt := slice_from (offset l) in
        let@ loc := loc_from (position l) in
        lx_ret (with_derived_text Number loc txt)) (skip n l) (token_read l).
Proof using Hok.
  intros Hn Hall. apply runs_bind, runs_bump_while; [apply in_source_skip; [done|lia]|].
  destruct (number_run (fun b => is_ascii_alphanumeric b || (b =? 95)) n) as [Hm Hall']; [|lia|done|].
  { intros b Hb. unfold number_byte, is_name_continue. by rewrite Hb. }
  set (m := (n + _)%nat) in *. rewrite skip_skip by (done || lia). fold m.
  assert (at_boundary l m) as Hbd by (apply boundary_scan; [done..|]; eapply Forall_impl; [|exact Hall']; cbn; apply number_byte_ascii).
  apply runs_bind. eapply runs_slice_from; [by apply sane_skip|by apply before_run|by apply at_boundary_skip|].
  apply runs_bind, runs_loc_from, runs_ret. rewrite <- (with_own_braces (skip m l)).
  apply token_read_intro; try done; [lia|by intros s [= <-]|]. exists (take m (rest l)). split; [done|]. split; [|done].
  intros Heq. apply (f_equal length) in Heq. rewrite length_take in Heq. cbn in Heq. unfold m in Heq. lia.
Qed.

Lemma read_number_spec b r :
  rest l = b :: r -> (is_ascii_digit b || (b =? 46) = true) -> runs (read_number (position l)) l (token_read l).
Proof using Hok.
  intros Hr Hb. unfold read_number. apply runs_bind, runs_get, runs_bind, runs_bump_while; [done|].
  set (p := fun b => is_ascii_digit b || (b =? 46) || (b =? 95)). set (n := prefix_run p (rest l)).
  assert (0 < n)%nat as Hpos by (unfold n; rewrite Hr; cbn; unfold p; rewrite Hb; cbn; lia).
  destruct (prefix_run_spec p (rest l)) as (Hn & Hall & _). fold n in Hn, Hall.
  assert (Forall (fun b => number_byte b = true) (take n (rest l))) as Hnb.
  { eapply Forall_impl; [|exact Hall]. cbn. intros c. unfold p, number_byte, is_name_continue, is_ascii_alphanumeric.
    destruct (is_ascii_digit c), (is_ascii_alphabetic c), (c =? 46), (c =? 95); done. }
  apply runs_bind, runs_get. rewrite peek_rest by (by apply in_source_skip). rewrite rest_skip by done.
  destruct (drop n (rest l)) as [|e r1] eqn:Ed; cbn [head is_some_and];
    [apply runs_bind, runs_ret, number_end; [lia|done]|].
  assert (rest l !! n = Some e) as He by (by rewrite <- (Nat.add_0_r n), <- lookup_drop, Ed).
  pose proof (lookup_lt_Some _ _ _ He) as Hlt.
  destruct ((e =? 101) || (e =? 69)) eqn:Ee; [|apply runs_bind, runs_ret, number_end; [lia|done]].
  apply runs_bind, runs_bind. apply (number_bump e n); [done..|by destruct (Z.eqb_spec e 101) as [->|]; [|destruct (Z.eqb_spec e 69) as [->|]]|].
  intros Hnb1. apply runs_bind, runs_get. rewrite peek_rest by (apply in_source_skip; [done|lia]). rewrite rest_skip by (done || lia).
  destruct (drop (S n) (rest l)) as [|c r2] eqn:Ed1; cbn [head is_some_and]; [apply runs_ret, number_end; [lia|done]|].
  assert (rest l !! S n = Some c) as Hc by (by rewrite <- (Nat.add_0_r (S n)), <- lookup_drop, Ed1).
  pose proof (lookup_lt_Some _ _ _ Hc) as Hlt1.
  destruct ((c =? 43) || (c =? 45)) eqn:Ec; [|apply runs_ret, number_end; [lia|done]].
  apply runs_bind. apply (number_bump c (S n)); [done..|by destruct (Z.eqb_spec c 43) as [->|]; [|destruct (Z.eqb_spec c 45) as [->|]]|].
  intros Hnb2. apply runs_ret, number_end; [lia|done].
Qed.

Lemma read_attribute_spec r : rest l = 64 :: r -> runs (read_attribute (position l)) l (token_read l).
Proof using Hok.
  intros Hr. assert (1 <= length (rest l))%nat as Hlen by (rewrite Hr; cbn; lia).
  unfold read_attribute. apply runs_bind. apply (runs_bump l 64 r); [done..|]. apply runs_bind, runs_get.
  assert (in_source (skip 1 l)) as Hin1 by (by apply in_source_skip).
  assert (rest (skip 1 l) = r) as Hr1 by (rewrite rest_skip, Hr by done; cbn; by rewrite drop_0).
  rewrite peek_rest, Hr1 by done. destruct (is_byte (head r) 91) eqn:Eb.
  - destruct r as [|b r']; [done|]. cbn in Eb. apply Z.eqb_eq in Eb as ->.
    apply runs_bind. apply (runs_bump _ 91 r'); [done..|]. rewrite skip_skip by done. apply runs_bind, runs_loc_from, runs_ret.
    rewrite <- (with_own_braces (skip (1 + 1) l)). apply token_read_intro; try done.
    + rewrite Hr. cbn. lia.
    + by apply (boundary_after l Hsane 1 91); [rewrite Hr|].
    + rewrite Hr. by intros s [= <-].
  - apply runs_bind, runs_bump_while; [done|]. rewrite Hr1. set (n := prefix_run is_name_continue r).
    destruct (prefix_run_spec is_name_continue r) as (Hn & Hall & _). fold n in Hn, Hall. rewrite skip_skip by done.
    assert (1 + n <= length (rest l))%nat as Hn1 by (rewrite Hr; cbn; lia).
    assert (at_boundary l (1 + n)) as Hbd.
    { apply boundary_scan; [done..|]. rewrite Hr. cbn. constructor; [done|]. eapply Forall_impl; [|exact Hall]. cbn. apply name_continue_ascii. }
    assert (before (skip 1 l) (offset (skip 1 l)) []) as Hbef.
    { apply before_start; [by apply sane_skip|]. apply at_boundary_skip. by apply (boundary_after l Hsane 0 64); [rewrite Hr|]. }
    apply (before_skip _ _ _ n) in Hbef; [|by apply sane_skip|by rewrite Hr1]. rewrite skip_skip, Hr1 in Hbef by done.
    apply runs_bind. eapply runs_slice_from; [by apply sane_skip|exact Hbef|by apply at_boundary_skip|].
    apply runs_bind, runs_loc_from, runs_ret. rewrite <- (with_own_braces (skip (1 + n) l)).
    apply token_read_intro; try done; [lia|rewrite Hr; by intros s [= <-]|]. by exists (take n r).
Qed.

(** *** Operators, single bytes, braces *)

Lemma fixed_kind k s loc disp :
  (bytes_of <$> fixed_spelling k) = Some s ->
  spell (Lexeme_new k loc disp) = Some s /\ well_formed (Lexeme_new k loc disp) /\ k <> BrokenInterpDoubleBrace /\ k <> Name.
Proof using. by destruct k. Qed.

Lemma token_read_prefix s r tok braces :
  rest l = s ++ r -> s <> [] -> Forall (fun b => b < 128) s -> location tok = mkLoc (position l) (position (skip (length s) l)) ->
  kind tok <> BrokenInterpDoubleBrace -> kind tok <> Name -> spell tok = Some s -> well_formed tok ->
  token_read l tok (with_braces braces (skip (length s) l)).
Proof using Hok.
  intros Hr Hne Hs Hloc Hk Hk' Hsp Hw. assert (take (length s) (rest l) = s) as Ht by (by rewrite Hr, take_app_length).
  assert (length s <= length (rest l))%nat by (rewrite Hr, length_app; lia). apply token_read_intro; try done.
  - destruct s; [done|cbn in *; lia].
  - apply boundary_scan; [done..|]. by rewrite Ht.
  - rewrite Ht. intros s' Hs'. congruence.
Qed.

Lemma read_fixed_spec n s r k disp :
  rest l = s ++ r -> n = length s -> s <> [] -> Forall (fun b => b < 128) s -> (bytes_of <$> fixed_spelling k) = Some s ->
  runs (read_fixed n (position l) k disp) l (token_read l).
Proof using Hok.
  intros Hr -> Hne Hs Hk. unfold read_fixed. apply runs_bind, runs_bump_times; [done|rewrite Hr, length_app; lia|].
  apply runs_bind, runs_loc_from, runs_ret. rewrite <- (with_own_braces (skip (length s) l)).
  destruct (fixed_kind k s (mkLoc (position l) (position (skip (length s) l))) disp Hk) as (Hsp & Hw & Hk1 & Hk2).
  by apply (token_read_prefix s r).
Qed.

Lemma is_byte_Some o b : is_byte o b = true -> o = Some b.
Proof using. destruct o; [|done]. cbn. intros H. apply Z.eqb_eq in H. by subst. Qed.

Lemma rest_two a b : head (rest l) = Some a -> is_byte (peek_byte_at l 1) b = true -> exists r, rest l = [a; b] ++ r.
Proof using Hok.
  intros Ha Hb. rewrite peek_at_rest in Hb by (done || lia). apply is_byte_Some in Hb. change (Z.to_nat 1) with 1%nat in Hb.
  destruct (rest l) as [|x [|y r]]; try done. cbn in *. exists r. congruence.
Qed.

Lemma rest_three a b c :
  head (rest l) = Some a -> is_byte (peek_byte_at l 1) b = true -> is_byte (peek_byte_at l 2) c = true -> exists r, rest l = [a; b; c] ++ r.
Proof using Hok.
  intros Ha Hb Hc. rewrite peek_at_rest in Hb, Hc by (done || lia). apply is_byte_Some in Hb, Hc.
  change (Z.to_nat 1) with 1%nat in Hb. change (Z.to_nat 2) with 2%nat in Hc.
  destruct (rest l) as [|x [|y [|z r]]]; try done. cbn in *. exists r. congruence.
Qed.

Lemma read_operator_spec byte m :
  head (rest l) = Some byte -> read_operator l byte (position l) = Some m -> runs m l (token_read l).
Proof using Hok.
  intros Hb. unfold read_operator.
  repeat (match goal with |- (if ?c then _ else _) = _ -> _ => destruct c eqn:?Ec end;
    [intros [= <-]; repeat match goal with H : _ && _ = true |- _ => apply andb_prop in H as [? ?] end;
     match goal with H : (byte =? _) = true |- _ => apply Z.eqb_eq in H; rewrite H in Hb end;
     first [match goal with H1 : is_byte (peek_byte_at l 1) _ = true, H2 : is_byte (peek_byte_at l 2) _ = true |- _ =>
              destruct (rest_three _ _ _ Hb H1 H2) as [r Hr] end
           |match goal with H1 : is_byte (peek_byte_at l 1) _ = true |- _ => destruct (rest_two _ _ Hb H1) as [r Hr] end];
     eapply read_fixed_spec; [exact Hr|done|done|by repeat constructor|done]|]).
  done.
Qed.

(** *** Bytes that start no ASCII token *)

Lemma char_here b r :
  rest l = b :: r -> 128 <= b ->
  exists c r', scalar c /\ 128 <= c /\ rest l = encode_utf8 c ++ r' /\ at_boundary l (length (encode_utf8 c)).
Proof using Hok.
  intros Hr Hb. pose proof (ok_valid l Hok) as Hv. pose proof (ok_end l Hok) as He. pose proof (ok_offset l Hok) as H1.
  set (o := Z.to_nat (offset l)).
  assert (source l !! o = Some b) as Hsb by (rewrite <- (Nat.add_0_r o); apply rest_source; [done|by rewrite Hr]).
  assert (Z.of_nat o = offset l) as Ho by lia. pose proof Hb0 as Hbd. unfold at_boundary in Hbd. rewrite Z.add_0_r, <- Ho in Hbd.
  destruct (char_at (source l) Hv o b Hbd Hsb Hb) as (c & r0 & Hc & Hge & Hd & Hbc).
  assert (length (encode_utf8 c) <= Z.to_nat (source_end l) - o)%nat as Hfit.
  { destruct (nul_offset_spec (source l)) as (Hn & Hz & _). destruct (decide (length (encode_utf8 c) <= Z.to_nat (source_end l) - o)%nat) as [|Hno]; [done|]. exfalso.
    assert (length (drop o (source l)) = length (encode_utf8 c ++ r0)) as Hl by (by rewrite Hd). rewrite length_drop, length_app in Hl.
    rewrite <- He in Hn, Hz. assert (source_end l < len (source l)) as Hlt by (unfold len; lia). specialize (Hz Hlt).
    apply zget_Some in Hz as [_ Hz]. assert (o < Z.to_nat (source_end l))%nat as Hpos.
    { pose proof (length_rest l Hin) as Hlen. rewrite Hr in Hlen. cbn in Hlen. lia. }
    replace (Z.to_nat (source_end l)) with (o + (Z.to_nat (source_end l) - o))%nat in Hz by lia.
    rewrite <- lookup_drop, Hd, lookup_app_l in Hz by lia. destruct (encode_head c Hc) as (b' & t & Hbt & _ & Ht & _).
    rewrite Hbt in Hz. destruct (Z.to_nat (source_end l) - o)%nat as [|k] eqn:Ek; [lia|]. cbn in Hz.
    rewrite Forall_lookup in Ht. specialize (Ht _ _ Hz). unfold continuation in Ht. lia. }
  exists c, (drop (length (encode_utf8 c)) (rest l)). split; [done|]. split; [done|]. split.
  - rewrite <- (take_drop (length (encode_utf8 c)) (rest l)) at 1. f_equal. unfold rest, visible_bytes. fold o.
    rewrite skipn_firstn_comm, take_take, Nat.min_l by lia. by rewrite Hd, take_app_length.
  - unfold at_boundary. rewrite <- Ho. by rewrite <- Nat2Z.inj_add.
Qed.

Lemma runs_utf8_loop n l0 t r (Q : option Z -> Lexer -> Prop) cp :
  in_source l0 -> rest l0 = t ++ r -> length t = n -> Forall continuation t -> 0 <= cp < 64 * 64 ^ (3 - Z.of_nat n) -> (n <= 3)%nat ->
  Q (Some (foldl (fun a b => a * 64 + (b - 128)) cp t)) (skip n l0) -> runs (utf8_loop n cp) l0 Q.
Proof using.
  revert l0 t cp Q. induction n as [|n IH]; intros l0 t cp Q H Hr Hn Hc Hcp Hn3 HQ; cbn [utf8_loop].
  { apply nil_length_inv in Hn as ->. rewrite skip_0 in HQ. by apply runs_ret. }
  destruct t as [|b t]; [done|]. injection Hn as Hn. inversion Hc as [|? ? Hb Ht]; subst.
  apply runs_bind, runs_get. rewrite peek_rest, Hr by done. cbn [head app]. unfold continuation in Hb.
  assert (Z.land b 192 = 128 /\ Z.land b 63 = b - 128) as [Hb1 Hb2].
  { change 63 with (Z.ones 6). rewrite Z.land_ones by lia. split; [|change (2 ^ 6) with 64; zdm].
    replace b with (128 + (b - 128)) by lia. assert (forall k, (k < 64)%nat -> Z.land (128 + Z.of_nat k) 192 = 128) as Hk.
    { intros k Hk. do 64 (destruct k as [|k]; [by vm_compute|]). lia. }
    specialize (Hk (Z.to_nat (b - 128))). rewrite Z2Nat.id in Hk by lia. apply Hk. lia. }
  rewrite Hb1, Hb2. cbn [negb]. change (128 =? 128) with true. cbn [negb].
  assert (64 ^ (3 - Z.of_nat (S (length t))) <= 64 ^ 2) by (apply Z.pow_le_mono_r; lia). change (64 ^ 2) with 4096 in *.
  assert (Z.lor (as_u32 (Z.shiftl cp 6)) (b - 128) = cp * 64 + (b - 128)) as ->.
  { rewrite Z.shiftl_mul_pow2 by lia. change (2 ^ 6) with 64. rewrite as_u32_small by (unfold is_u32; lia).
    replace (cp * 64) with (Z.shiftl cp 6) by (rewrite Z.shiftl_mul_pow2 by lia; done).
    rewrite (lor_high _ 6 cp) by (first [done|lia|change (2 ^ 6) with 64; lia]). done. }
  apply runs_bind. apply (runs_bump l0 b (t ++ r)); [done..|].
  assert (1 <= length (rest l0))%nat as Hlen by (rewrite Hr; cbn; lia).
  apply (IH _ t); [by apply in_source_skip|rewrite rest_skip, Hr by done; cbn; by rewrite drop_0|done|done| |lia|].
  - replace (3 - Z.of_nat (length t)) with (Z.succ (3 - Z.of_nat (S (length t)))) by lia. rewrite Z.pow_succ_r by lia. lia.
  - rewrite skip_skip by done. exact HQ.
Qed.

(** The tests on the first byte of a sequence. *)
Lemma lead_tests :
  forallb (fun n => let b := Z.of_nat n in
    bool_decide ((Z.land b 224 =? 192) = (192 <=? b) && (b <? 224) /\ (Z.land b 240 =? 224) = (224 <=? b) && (b <? 240) /\
                 (Z.land b 248 =? 240) = (240 <=? b) && (b <? 248) /\ (Z.land b 128 =? 0) = (b <? 128) /\
                 Z.land b 31 = b mod 32 /\ Z.land b 15 = b mod 16 /\ Z.land b 7 = b mod 8)) (seq 0 256) = true.
Proof using. by vm_compute. Qed.

Lemma lead_test b : is_u8 b ->
  (Z.land b 224 =? 192) = (192 <=? b) && (b <? 224) /\ (Z.land b 240 =? 224) = (224 <=? b) && (b <? 240) /\
  (Z.land b 248 =? 240) = (240 <=? b) && (b <? 248) /\ (Z.land b 128 =? 0) = (b <? 128) /\
  Z.land b 31 = b mod 32 /\ Z.land b 15 = b mod 16 /\ Z.land b 7 = b mod 8.
Proof using.
  intros Hb. unfold is_u8 in Hb. pose proof lead_tests as H. rewrite forallb_forall in H. specialize (H (Z.to_nat b)).
  rewrite Z2Nat.id in H by lia. cbv zeta in H.
  eapply bool_decide_eq_true_1, H, in_seq. lia.
Qed.

(** An encoded character is read back. *)
Lemma read_utf8_spec c r :
  scalar c -> 128 <= c -> rest l = encode_utf8 c ++ r -> at_boundary l (length (encode_utf8 c)) ->
  runs (read_utf8_error (position l)) l (token_read l).
Proof using Hok.
  intros Hc Hge Hr Hbd. destruct (encode_shape c Hc) as (b & t & He & Ht & Hsh). rewrite He in Hr, Hbd. cbn [app length] in Hr, Hbd.
  assert (194 <= b < 248) as Hb by (destruct Hsh as [(? & _)|[(_ & ? & ? & _)|[(_ & ? & ? & ? & _)|(_ & ? & ? & ? & ? & _)]]]; lia).
  unfold read_utf8_error. apply runs_bind, runs_get. rewrite peek_rest, Hr by done. cbn [head].
  destruct (lead_test b) as (T1 & T2 & T3 & _ & T4 & T5 & T6); [unfold is_u8; lia|]. rewrite T1, T2, T3, T4, T5, T6. cbv zeta.
  apply runs_bind. apply (runs_bump l b (t ++ r)); [done..|].
  assert (1 <= length (rest l))%nat as Hlen by (rewrite Hr; cbn; lia).
  assert (in_source (skip 1 l)) as Hin1 by (by apply in_source_skip).
  assert (rest (skip 1 l) = t ++ r) as Hr1 by (rewrite rest_skip, Hr by done; cbn; by rewrite drop_0).
  assert (exists size cp, (if (192 <=? b) && (b <? 224) then Some (2%nat, b mod 32)
     else if (224 <=? b) && (b <? 240) then Some (3%nat, b mod 16)
     else if (240 <=? b) && (b <? 248) then Some (4%nat, b mod 8) else None) = Some (size, cp) /\
     length t = (size - 1)%nat /\ (size <= 4)%nat /\ 0 <= cp < 64 * 64 ^ (3 - Z.of_nat (size - 1)) /\
     foldl (fun a b => a * 64 + (b - 128)) cp t = c) as (size & cp & -> & Ht1 & Hs4 & Hcp & Hfold).
  { destruct Hsh as [(? & _)|[(_ & b1 & Hb' & -> & ->)|[(_ & b1 & b2 & Hb' & -> & ->)|(_ & b1 & b2 & b3 & Hb' & -> & ->)]]]; [lia|..].
    - exists 2%nat, (b - 192). replace ((192 <=? b) && (b <? 224)) with true by lia. split_and!; try done; try (do 3 f_equal; zdm); try (change (64 * 64 ^ (3 - Z.of_nat (2 - 1))) with 262144; lia).
    - exists 3%nat, (b - 224). replace ((192 <=? b) && (b <? 224)) with false by lia. replace ((224 <=? b) && (b <? 240)) with true by lia.
      split_and!; try done; try (do 3 f_equal; zdm); try (change (64 * 64 ^ (3 - Z.of_nat (3 - 1))) with 4096; lia). cbn. lia.
    - exists 4%nat, (b - 240). replace ((192 <=? b) && (b <? 224)) with false by lia. replace ((224 <=? b) && (b <? 240)) with false by lia.
      replace ((240 <=? b) && (b <? 248)) with true by lia.
      split_and!; try done; try (do 3 f_equal; zdm); try (change (64 * 64 ^ (3 - Z.of_nat (4 - 1))) with 64; lia). cbn. lia. }
  apply runs_bind. apply (runs_utf8_loop (size - 1) _ t r); [done..|lia|]. rewrite skip_skip, Hfold by done.
  apply runs_bind, runs_loc_from, runs_ret. replace (1 + (size - 1))%nat with (length (encode_utf8 c)) by (rewrite He; cbn; lia).
  rewrite <- (with_own_braces (skip (length (encode_utf8 c)) l)). rewrite He.
  apply token_read_intro; try done.
  - rewrite Hr. cbn. rewrite length_app. lia.
  - intros s [= <-]. rewrite He, Hr. cbn. by rewrite take_app_length.
  - by exists c.
Qed.

Lemma read_char_spec b r : rest l = b :: r -> 0 < b < 128 -> runs (read_char (position l)) l (token_read l).
Proof using Hok.
  intros Hr Hb. unfold read_char. apply runs_bind. apply (runs_bump l b r); [done..|]. apply runs_bind, runs_loc_from, runs_ret.
  rewrite <- (with_own_braces (skip 1 l)). apply (token_read_prefix [b] r); try done. constructor; [lia|done].
Qed.
End Tokens.

(** *** Quoted strings *)

Lemma sane_in l : sane l -> in_source l.
Proof. by intros [H _]. Qed.

Lemma rest_tail m b r : sane m -> rest m = b :: r -> sane (skip 1 m) /\ rest (skip 1 m) = r /\ (1 <= length (rest m))%nat.
Proof.
  intros Hm Hr. assert (1 <= length (rest m))%nat as Hlen by (rewrite Hr; cbn; lia). split; [by apply sane_skip|]. split; [|done].
  rewrite rest_skip, Hr by (done || by apply sane_in). cbn. by rewrite drop_0.
Qed.

Lemma bump_backslash_spec m r :
  sane m -> rest m = 92 :: r ->
  runs bump_backslash_in_string m (fun _ m' => exists n, (0 < n <= length (rest m))%nat /\ m' = skip n m /\
    (escape (take n (rest m)) \/ n = length (rest m))).
Proof.
  intros Hm Hr. destruct (rest_tail m 92 r Hm Hr) as (Hm1 & Hr1 & Hlen).
  unfold bump_backslash_in_string. apply runs_bind, (runs_bump m 92 r); [by apply sane_in|done|].
  apply runs_bind, runs_get. rewrite peek_rest, Hr1 by (by apply sane_in). destruct r as [|b r]; cbn [head].
  { apply runs_ret. exists 1%nat. rewrite Hr. cbn. split; [lia|]. split; [done|by right]. }
  destruct (rest_tail _ b r Hm1 Hr1) as (Hm2 & Hr2 & Hlen1). rewrite skip_skip in Hm2, Hr2 by (done || by apply sane_in).
  assert (2 <= length (rest m))%nat as Hlen2 by (rewrite Hr; cbn; lia).
  assert (runs (let@ _ := bump in lx_ret tt) (skip 1 m) (fun _ m' => exists n, (0 < n <= length (rest m))%nat /\ m' = skip n m /\
    (escape (take n (rest m)) \/ n = length (rest m)))) as Hone.
  { apply runs_bind, (runs_bump _ b r); [by apply sane_in|done|]. rewrite skip_skip by (done || by apply sane_in). apply runs_ret.
    exists 2%nat. split; [lia|]. split; [done|]. left. rewrite Hr. apply escape_byte. }
  destruct (decide (b = 13)) as [->|H13]; [|destruct (decide (b = 122)) as [->|H122]].
  - apply runs_bind, (runs_bump _ 13 r); [by apply sane_in|done|]. rewrite skip_skip by (done || by apply sane_in).
    apply runs_bind, runs_get. rewrite peek_rest, Hr2 by (by apply sane_in). destruct (is_byte (head r) 10) eqn:Eb.
    + apply is_byte_Some in Eb. destruct r as [|c r]; [done|]. injection Eb as ->.
      apply runs_bind, (runs_bump _ 10 r); [by apply sane_in|done|]. rewrite skip_skip by (done || by apply sane_in).
      apply runs_ret. exists 3%nat. rewrite Hr. cbn. split; [lia|]. split; [done|]. left. rewrite take_0. constructor.
    + apply runs_ret. exists 2%nat. split; [lia|]. split; [done|]. left. rewrite Hr. constructor.
  - apply runs_bind, (runs_bump _ 122 r); [by apply sane_in|done|]. rewrite skip_skip by (done || by apply sane_in).
    apply runs_bump_while; [by apply sane_in|]. rewrite Hr2. destruct (prefix_run_spec is_space_byte r) as (Hn & Hall & _).
    set (n := prefix_run is_space_byte r) in *. rewrite skip_skip by (done || by apply sane_in). exists (2 + n)%nat.
    split; [rewrite Hr; cbn; lia|]. split; [done|]. left. rewrite Hr. cbn. by constructor.
  - destruct b as [|p|p]; try exact Hone. do 7 (destruct p as [p|p|]; try exact Hone; try done).
Qed.

(** The outcome of scanning a quoted string whose text so far is [pre]. *)
Definition quoted_post (start : Position) (quote : Z) (pre : list Z) (m : Lexer) (tok : Lexeme) (m' : Lexer) : Prop :=
  exists n, (n <= length (rest m))%nat /\ m' = skip n m /\
    ((exists k, n = S k /\ rest m !! k = Some quote /\ body (quoted_stop quote) (take k (rest m)) /\
        tok = set_quote_style (if quote =? 39 then Single else Double)
                (with_derived_text QuotedString (mkLoc start (position m')) (pre ++ take k (rest m)))) \/
     (at_boundary m n /\ exists txt, tok = with_text BrokenString (mkLoc start (position m')) "unfinished string" txt)).

Lemma quoted_post_skip start quote pre m tok m' k :
  sane m -> (k <= length (rest m))%nat ->
  ((k < length (rest m))%nat -> forall s, body (quoted_stop quote) s -> body (quoted_stop quote) (take k (rest m) ++ s)) ->
  quoted_post start quote (pre ++ take k (rest m)) (skip k m) tok m' -> quoted_post start quote pre m tok m'.
Proof.
  intros Hm Hk Hbody (n & Hn & -> & H). pose proof (sane_in _ Hm) as Hin. rewrite rest_skip in Hn, H by done.
  rewrite length_drop in Hn. exists (k + n)%nat. split; [lia|]. split; [by rewrite skip_skip|].
  rewrite skip_skip in H |- * by done. destruct H as [(j & -> & Hq & Hb & ->)|(Hbd & txt & ->)].
  - left. exists (k + j)%nat. rewrite lookup_drop in Hq. rewrite <- take_take_drop. split; [lia|]. split; [done|].
    split; [apply Hbody; [|done]; apply lookup_lt_Some in Hq; lia|]. by rewrite app_assoc.
  - right. split; [|by exists txt]. unfold at_boundary in *. cbn in Hbd. rewrite <- Hbd. f_equal. lia.
Qed.

Lemma quoted_loop_spec fuel start quote cs pre m :
  sane m -> (length (rest m) < fuel)%nat -> quote < 128 -> before m cs pre ->
  (quote = 39 \/ quote = 34) ->
  runs (quoted_loop fuel start quote cs) m (quoted_post start quote pre m).
Proof.
  intros Hm Hf Hq128 Hbef Hq. revert pre m Hm Hf Hbef. induction fuel as [|fuel IH]; intros pre m Hm Hf Hbef; [lia|].
  pose proof (sane_in _ Hm) as Hin. cbn [quoted_loop]. apply runs_bind, runs_get. rewrite peek_rest by done.
  assert (at_boundary m 0 -> runs (unfinished_string start cs) m (quoted_post start quote pre m)) as Hunf.
  { intros Hbd. unfold unfinished_string. apply runs_bind. eapply runs_slice_from; [done..|]. apply runs_bind, runs_loc_from, runs_ret.
    exists 0%nat. split; [lia|]. split; [by rewrite skip_0|]. right. split; [done|by eexists]. }
  destruct (rest m) as [|b r] eqn:Er; cbn [head].
  { apply Hunf. pose proof (boundary_end m Hm) as H. by rewrite Er in H. }
  assert (forall k, (0 < k <= length (b :: r))%nat ->
    ((k < length (b :: r))%nat -> forall s, body (quoted_stop quote) s -> body (quoted_stop quote) (take k (b :: r) ++ s)) ->
    runs (quoted_loop fuel start quote cs) (skip k m) (quoted_post start quote pre m)) as Hagain.
  { rewrite <- Er. intros k Hk Hbody. eapply runs_mono; [apply (IH (pre ++ take k (rest m)) (skip k m))|].
    - apply sane_skip; [done|lia].
    - rewrite rest_skip, length_drop, Er by (done || lia). cbn in *. lia.
    - apply before_skip; [done|lia|done].
    - intros tok m' H. apply (quoted_post_skip _ _ _ _ _ _ k); [done|lia|done|exact H]. }
  destruct (Z.eqb_spec b 92) as [->|H92].
  { apply runs_bind. eapply runs_mono; [by eapply bump_backslash_spec|]. intros [] m' (n & Hn & -> & Hesc).
    rewrite Er in Hn, Hesc. apply Hagain; [done|]. intros Hlt s. destruct Hesc as [Hesc|]; [|lia]. by apply body_escape. }
  destruct ((b =? 10) || (b =? 13)) eqn:Enl.
  { apply Hunf, (boundary_ascii m Hm 0 b); [by rewrite Er|lia]. }
  apply runs_bind, (runs_bump m b r); [done..|]. destruct (Z.eqb_spec b quote) as [->|Hbq].
  - apply runs_bind, runs_get. replace (offset (skip 1 m) - 1) with (offset m) by (cbn; lia).
    apply runs_bind. eapply (runs_source_slice _ m); [done|done|done| |].
    { apply (boundary_ascii m Hm 0 quote); [by rewrite Er|done]. }
    apply runs_bind, runs_loc_from, runs_ret. exists 1%nat. rewrite Er. cbn. split; [lia|]. split; [done|]. left. exists 0%nat.
    cbn. rewrite app_nil_r. split_and!; try done. constructor.
  - apply (Hagain 1%nat); [cbn; lia|]. intros _ s. cbn. rewrite take_0. apply body_plain; [|done].
    unfold quoted_stop. by rewrite (proj2 (Z.eqb_neq _ _) Hbq).
Qed.

(** The reading of a quoted string. *)
Lemma read_quoted_spec l quote r :
  lexer_ok l -> rest l = quote :: r -> (quote = 39 \/ quote = 34) -> runs (read_quoted_string (position l)) l (token_read l).
Proof.
  intros Hok Hr Hq. pose proof (lexer_ok_sane l Hok) as Hm. pose proof (sane_in _ Hm) as Hin.
  destruct (rest_tail l quote r Hm Hr) as (Hm1 & Hr1 & Hlen).
  unfold read_quoted_string. apply runs_bind, (runs_bump l quote r); [done..|]. apply runs_bind, runs_get.
  assert (at_boundary l 1) as Hb1 by (apply (boundary_after l Hm 0 quote); [by rewrite Hr|lia]).
  eapply runs_mono; [apply (quoted_loop_spec _ _ _ _ [])|].
  - done.
  - apply rest_fuel. by apply sane_in.
  - lia.
  - apply before_start; [done|by apply at_boundary_skip].
  - done.
  - intros tok m' (n & Hn & -> & H). rewrite Hr1 in Hn, H. rewrite skip_skip in * by done.
    rewrite <- (with_own_braces (skip (1 + n) l)). destruct H as [(k & -> & Hk & Hbody & ->)|(Hbd & txt & ->)].
    + apply token_read_intro; try done.
      * rewrite Hr. cbn. lia.
      * apply (boundary_after l Hm (S k) quote); [by rewrite Hr|lia].
      * intros s. cbn. rewrite Hr. cbn. intros [= <-].
        rewrite (take_S_r _ _ _ Hk). f_equal; [by destruct Hq as [->| ->]|]. f_equal. by destruct Hq as [->| ->].
      * eexists _, _. split; [done|]. split; [done|]. by destruct Hq as [->| ->].
    + apply token_read_intro; try done; [rewrite Hr; cbn; lia|]. unfold at_boundary in *. cbn in Hbd. rewrite <- Hbd. f_equal. lia.
Qed.

(** *** Interpolated strings *)

Definition interp_post (start : Position) (fk ek : TokenKind) (pre : list Z) (m : Lexer) (tok : Lexeme) (m' : Lexer) : Prop :=
  exists n braces, (n <= length (rest m))%nat /\ m' = with_braces braces (skip n m) /\
    ((exists k b kd, n = S k /\ rest m !! k = Some b /\ body interp_stop (take k (rest m)) /\
        ((b = 96 /\ kd = ek) \/ (b = 123 /\ kd = fk)) /\
        tok = with_derived_text kd (mkLoc start (position m')) (pre ++ take k (rest m))) \/
     (exists k disp txt, n = S (S k) /\ rest m !! k = Some 123 /\ rest m !! S k = Some 123 /\
        tok = with_text BrokenInterpDoubleBrace (mkLoc start (position (skip k m))) disp txt) \/
     (at_boundary m n /\ tok = Lexeme_new BrokenString (mkLoc start (position m')) "malformed string")).

Lemma interp_post_skip start fk ek pre m tok m' k :
  sane m -> (k <= length (rest m))%nat ->
  ((k < length (rest m))%nat -> forall s, body interp_stop s -> body interp_stop (take k (rest m) ++ s)) ->
  interp_post start fk ek (pre ++ take k (rest m)) (skip k m) tok m' -> interp_post start fk ek pre m tok m'.
Proof.
  intros Hm Hk Hbody (n & braces & Hn & -> & H). pose proof (sane_in _ Hm) as Hin. rewrite rest_skip in Hn, H by done.
  rewrite length_drop in Hn. exists (k + n)%nat, braces. split; [lia|]. split; [by rewrite skip_skip|].
  rewrite skip_skip in H |- * by done. destruct H as [(j & b & kd & -> & Hq & Hb & Hkd & ->)|[(j & disp & txt & -> & Hj & Hj' & ->)|(Hbd & ->)]].
  - left. exists (k + j)%nat, b, kd. rewrite lookup_drop in Hq. rewrite <- take_take_drop. split; [lia|]. split; [done|].
    split; [apply Hbody; [|done]; apply lookup_lt_Some in Hq; lia|]. split; [done|]. by rewrite app_assoc.
  - right. left. exists (k + j)%nat, disp, txt. rewrite !lookup_drop in *. rewrite skip_skip by done.
    split; [lia|]. split; [done|]. split; [|done]. by rewrite <- Nat.add_succ_r.
  - right. right. split; [|done]. unfold at_boundary in *. cbn in Hbd. rewrite <- Hbd. f_equal. lia.
Qed.

Lemma interp_loop_spec fuel start fk ek cs pre m :
  sane m -> (length (rest m) < fuel)%nat -> before m cs pre ->
  runs (interp_loop fuel start fk ek cs) m (interp_post start fk ek pre m).
Proof.
  revert pre m. induction fuel as [|fuel IH]; intros pre m Hm Hf Hbef; [lia|].
  pose proof (sane_in _ Hm) as Hin. cbn [interp_loop]. cbv zeta. apply runs_bind, runs_get. rewrite peek_rest by done.
  assert (at_boundary m 0 -> runs (malformed_string start) m (interp_post start fk ek pre m)) as Hmal.
  { intros Hbd. apply runs_bind, runs_loc_from, runs_ret. exists 0%nat, (brace_stack m). split; [lia|].
    split; [by rewrite skip_0, with_own_braces|]. by right; right. }
  assert (forall b, rest m !! 0%nat = Some b -> b < 128 -> at_boundary m 0) as Hb0 by (intros b Hb Hlt; by apply (boundary_ascii m Hm 0 b)).
  destruct (rest m) as [|b r] eqn:Er; cbn [head].
  { apply Hmal. pose proof (boundary_end m Hm) as H. by rewrite Er in H. }
  assert (forall k, (0 < k <= length (b :: r))%nat ->
    ((k < length (b :: r))%nat -> forall s, body interp_stop s -> body interp_stop (take k (b :: r) ++ s)) ->
    runs (interp_loop fuel start fk ek cs) (skip k m) (interp_post start fk ek pre m)) as Hagain.
  { rewrite <- Er. intros k Hk Hbody. eapply runs_mono; [apply (IH (pre ++ take k (rest m)) (skip k m))|].
    - apply sane_skip; [done|lia].
    - rewrite rest_skip, length_drop, Er by (done || lia). cbn in *. lia.
    - apply before_skip; [done|lia|done].
    - intros tok m' H. apply (interp_post_skip _ _ _ _ _ _ _ k); [done|lia|done|exact H]. }
  destruct (rest_tail m b r Hm Er) as (Hm1 & Hr1 & Hlen).
  assert (forall m1 Q, b < 128 -> source m1 = source m -> Q pre m1 -> runs (source_slice cs (offset m)) m1 Q) as Hslice.
  { intros m1 Q Hlt Hs HQ. apply (runs_source_slice m1 m cs pre Q); [done|done|done|by apply (Hb0 b)|done]. }
  destruct (Z.eqb_spec b 92) as [->|H92].
  { rewrite !peek_at_rest, Er by (done || lia). change (Z.to_nat 1) with 1%nat. change (Z.to_nat 2) with 2%nat.
    destruct (is_byte _ 117 && is_byte _ 123) eqn:Eu.
    - apply andb_prop in Eu as [E1 E2]. apply is_byte_Some in E1, E2. destruct r as [|c1 [|c2 r]]; try done. cbn in E1, E2.
      injection E1 as ->. injection E2 as ->.
      apply runs_bind, runs_bump_times; [done|rewrite Er; cbn; lia|]. apply Hagain; [cbn; lia|]. intros _ s Hs. by apply body_unicode.
    - apply runs_bind. eapply runs_mono; [by eapply bump_backslash_spec|]. intros [] m' (n & Hn & -> & Hesc).
      rewrite Er in Hn, Hesc. apply Hagain; [done|]. intros Hlt s. destruct Hesc as [Hesc|]; [|lia]. by apply body_escape. }
  destruct (Z.eqb_spec b 96) as [->|H96].
  { apply runs_bind, (runs_bump m 96 r); [done..|]. apply runs_bind, Hslice; [done|done|]. apply runs_bind, runs_loc_from, runs_ret.
    exists 1%nat, (brace_stack (skip 1 m)). rewrite Er. cbn [length]. split; [lia|]. split; [by rewrite with_own_braces|].
    left. exists 0%nat, 96, ek. cbn. rewrite app_nil_r. split_and!; try done; [constructor|by left]. }
  destruct (Z.eqb_spec b 123) as [->|H123]; cbn [andb].
  { rewrite peek_at_rest, Er by (done || lia). change (Z.to_nat 1) with 1%nat. destruct (is_byte _ 123) eqn:E1.
    - apply is_byte_Some in E1. destruct r as [|c r]; [done|]. cbn in E1. injection E1 as ->.
      apply runs_bind, Hslice; [done|done|]. apply runs_bind, runs_braces, runs_bind, runs_bump_times;
        [done|rewrite rest_braces, Er; cbn; lia|]. apply runs_ret. exists 2%nat, (InterpolatedString :: brace_stack m). rewrite Er. cbn [length].
      split; [lia|]. split; [done|]. right. left. eexists 0%nat, _, _. rewrite skip_0. done.
    - apply runs_bind, runs_braces, runs_bind, (runs_bump _ 123 r); [done|done|]. apply runs_bind, runs_get.
      replace (offset (skip 1 (with_braces (InterpolatedString :: brace_stack m) m)) - 1) with (offset m) by (cbn; lia).
      apply runs_bind, Hslice; [done|done|]. apply runs_bind, runs_loc_from, runs_ret.
      exists 1%nat, (InterpolatedString :: brace_stack m). rewrite Er. cbn [length]. split; [lia|]. split; [done|].
      left. exists 0%nat, 123, fk. cbn. rewrite app_nil_r. split_and!; try done; [constructor|by right]. }
  destruct ((b =? 10) || (b =? 13)) eqn:Enl.
  { apply Hmal, (Hb0 b); [done|lia]. }
  apply runs_bind, (runs_bump m b r); [done..|]. apply (Hagain 1%nat); [cbn; lia|]. intros _ s. cbn. rewrite take_0. apply body_plain; [|done].
  unfold interp_stop. rewrite (proj2 (Z.eqb_neq b 96)), (proj2 (Z.eqb_neq b 123)) by done. done.
Qed.

(** The kinds of a section that starts with [open]. *)
Definition section_kinds (open : Z) (fk ek : TokenKind) : Prop :=
  (open = 96 /\ fk = InterpStringBegin /\ ek = InterpStringSimple) \/ (open = 125 /\ fk = InterpStringMid /\ ek = InterpStringEnd).

(** A section read after its opening byte; the brace stack may have been popped. *)
Lemma read_section_spec l open r fk ek braces :
  lexer_ok l -> rest l = open :: r -> section_kinds open fk ek ->
  runs (read_interpolated_string_section (position l) fk ek) (with_braces braces (skip 1 l)) (token_read l).
Proof.
  intros Hok Hr Hk. pose proof (lexer_ok_sane l Hok) as Hm. pose proof (sane_in _ Hm) as Hin.
  destruct (rest_tail l open r Hm Hr) as (Hm1 & Hr1 & Hlen). set (m := with_braces braces (skip 1 l)).
  assert (sane m) as Hm2 by done. assert (rest m = r) as Hrm by done. assert (open < 128) as Hopen by (destruct Hk as [(-> & _)|(-> & _)]; lia).
  assert (at_boundary l 1) as Hb1 by (by apply (boundary_after l Hm 0 open); [rewrite Hr|]).
  unfold read_interpolated_string_section. apply runs_bind, runs_get.
  eapply runs_mono; [apply (interp_loop_spec _ _ _ _ _ [] m Hm2)|].
  - apply rest_fuel. by apply sane_in.
  - apply before_start; [done|]. by apply (at_boundary_skip 1 l).
  - intros tok m' (n & braces' & Hn & -> & H). rewrite Hrm in Hn, H. unfold m in *. rewrite skip_braces, skip_skip in * by done.
    destruct H as [(k & b & kd & -> & Hb & Hbody & Hkd & ->)|[(k & disp & txt & -> & Hk1 & Hk2 & ->)|(Hbd & ->)]].
    + change (with_braces braces' (with_braces braces (skip (1 + S k) l))) with (with_braces braces' (skip (1 + S k) l)).
      assert (b < 128) as Hb128 by (destruct Hkd as [[-> _]|[-> _]]; lia).
      assert (S (S k) <= length (rest l))%nat by (rewrite Hr; cbn; lia).
      destruct Hk as [(-> & -> & ->)|(-> & -> & ->)], Hkd as [(-> & ->)|(-> & ->)];
        (apply token_read_intro; try done;
         [lia|by eapply (boundary_after l Hm (S k)); [rewrite Hr|]
         |intros s; cbn; rewrite Hr; cbn; rewrite (take_S_r _ _ _ Hb); by intros [= <-]
         |by eexists; split]).
    + exists (S (S (S k))), braces'. assert (S (S (S k)) <= length (rest l))%nat by (rewrite Hr; cbn; lia).
      split; [lia|]. split; [done|]. split; [by apply (boundary_after l Hm (S (S k)) 123); [rewrite Hr|]|]. cbn [location with_text loc_begin loc_end kind].
      split; [done|]. split; [|done]. rewrite skip_braces, skip_skip by done. replace (S (S (S k)) - 2)%nat with (1 + k)%nat by lia. done.
    + change (with_braces braces' (with_braces braces (skip (1 + n) l))) with (with_braces braces' (skip (1 + n) l)).
      apply token_read_intro; try done; [rewrite Hr; cbn; lia|]. unfold at_boundary in *. cbn in Hbd. rewrite <- Hbd. f_equal. lia.
Qed.

(** *** Braces *)

Lemma token_read_brace l b r braces :
  lexer_ok l -> rest l = b :: r -> 0 < b < 128 -> forall disp,
  token_read l (Lexeme_new (Char b) (mkLoc (position l) (position (skip 1 l))) disp) (with_braces braces (skip 1 l)).
Proof. intros Hok Hr Hb disp. apply (token_read_prefix l Hok [b] r); try done. constructor; [lia|done]. Qed.

Lemma read_open_brace_spec l r : lexer_ok l -> rest l = 123 :: r -> runs (read_open_brace (position l)) l (token_read l).
Proof.
  intros Hok Hr. pose proof (lexer_ok_in_source l Hok) as Hin. unfold read_open_brace.
  apply runs_bind, (runs_bump l 123 r); [done..|]. apply runs_bind, runs_get, runs_bind.
  assert (forall braces, runs (let@ loc := loc_from (position l) in lx_ret (Lexeme_new (Char 123) loc "'{'"))
    (with_braces braces (skip 1 l)) (token_read l)) as Hend.
  { intros braces. apply runs_bind, runs_loc_from, runs_ret. by eapply token_read_brace. }
  case_bool_decide; [apply runs_ret; rewrite <- (with_own_braces (skip 1 l))|apply runs_braces]; apply Hend.
Qed.

Lemma read_close_brace_spec l r : lexer_ok l -> rest l = 125 :: r -> runs (read_close_brace (position l)) l (token_read l).
Proof.
  intros Hok Hr. pose proof (lexer_ok_in_source l Hok) as Hin. unfold read_close_brace.
  apply runs_bind, (runs_bump l 125 r); [done..|]. apply runs_bind, runs_get.
  destruct (brace_stack (skip 1 l)) as [|brace braces] eqn:Eb.
  - rewrite <- (with_own_braces (skip 1 l)). apply runs_bind, runs_loc_from, runs_ret. by eapply token_read_brace.
  - apply runs_bind, runs_braces. destruct brace.
    + apply runs_bind, runs_loc_from, runs_ret. by eapply token_read_brace.
    + apply (read_section_spec l 125 r); [done..|]. by right.
Qed.

(** *** Long brackets and comments *)

Lemma equals_run_spec s : exists n, equals_run s = Z.of_nat n /\ s = replicate n 61 ++ drop n s /\ is_byte (head (drop n s)) 61 = false.
Proof.
  induction s as [|b s (n & He & Hs & Hh)]; [by exists 0%nat|]. destruct (Z.eq_dec b 61) as [->|Hb].
  - exists (S n). cbn [equals_run]. rewrite He. split; [lia|]. split; [|done]. cbn. by rewrite <- Hs.
  - exists 0%nat. split; [|split; [done|by apply Z.eqb_neq]]. cbn. destruct b as [|p|p]; try done. do 6 (destruct p as [p|p|]; try done).
Qed.

Lemma is_byte_drop (s : list Z) (i : nat) b : is_byte (zget s (Z.of_nat i)) b = true <-> exists r, drop i s = b :: r.
Proof.
  rewrite zget_of_nat. split.
  - intros H. apply is_byte_Some in H. rewrite (drop_S _ _ _ H). by eexists.
  - intros [r Hr]. rewrite <- (Nat.add_0_r i), <- lookup_drop, Hr. cbn. apply Z.eqb_refl.
Qed.

Lemma long_separator_Some s (o : nat) d :
  long_separator_depth s (Z.of_nat o) = Some d -> 0 <= d /\ exists r, drop o s = [91] ++ equals d ++ [91] ++ r.
Proof.
  unfold long_separator_depth. destruct (is_byte (zget s (Z.of_nat o)) 91) eqn:E1; [|done]. cbn [negb].
  apply is_byte_drop in E1 as [r Hr]. replace (Z.to_nat (Z.of_nat o + 1)) with (S o) by lia.
  assert (drop (S o) s = r) as Hr1 by (by rewrite <- Nat.add_1_r, <- drop_drop, Hr). rewrite Hr1.
  destruct (equals_run_spec r) as (n & -> & Hn & _). replace (Z.of_nat o + 1 + Z.of_nat n) with (Z.of_nat (S o + n)) by lia.
  destruct (is_byte _ 91) eqn:E2; [|done]. intros [= <-]. split; [lia|]. apply is_byte_drop in E2 as [r2 Hr2].
  rewrite <- drop_drop, Hr1 in Hr2. exists r2. rewrite Hr, Hn, Hr2. unfold equals. cbn. do 3 f_equal. lia.
Qed.

Definition closing (d : Z) : list Z := [93] ++ equals d ++ [93].

Lemma closing_iff s (o : nat) d :
  0 <= d -> closing_long_separator_at s (Z.of_nat o) d = true <-> exists r, drop o s = closing d ++ r.
Proof.
  intros Hd. unfold closing_long_separator_at, closing, equals. destruct (is_byte (zget s (Z.of_nat o)) 93) eqn:E1; cbn [negb].
  - apply is_byte_drop in E1 as [r Hr]. assert (drop (S o) s = r) as Hr1 by (by rewrite <- Nat.add_1_r, <- drop_drop, Hr).
    set (n := Z.to_nat d). replace (Z.of_nat o + 1) with (Z.of_nat (S o)) by lia. replace (Z.of_nat (S o) + d) with (Z.of_nat (S o + n)) by lia.
    unfold get_range. rewrite (proj2 (Z.leb_le (Z.of_nat (S o)) _)) by lia. cbn [andb]. rewrite Nat2Z.id, Hr1, Hr.
    replace (Z.to_nat (Z.of_nat (S o + n) - Z.of_nat (S o))) with n by lia. split.
    + intros H. apply andb_prop in H as [H1 H2]. apply is_byte_drop in H2 as [r2 Hr2]. rewrite <- drop_drop, Hr1 in Hr2.
      exists r2. destruct (_ <=? len s); [|done]. rewrite forallb_forall in H1.
      assert (take n r = replicate n 61) as Ht.
      { symmetry. apply replicate_as_elem_of. split.
        - apply (f_equal length) in Hr2. rewrite length_drop in Hr2. cbn in Hr2. rewrite length_take. lia.
        - intros y Hy. apply Z.eqb_eq, H1. by apply list_elem_of_In. }
      rewrite <- (take_drop n r), Hr2, Ht at 1. cbn. by rewrite <- app_assoc.
    + intros [r2 H]. cbn in H. rewrite <- app_assoc in H. injection H as ->.
      assert (length (replicate n 61) = n) as Hlen by (apply length_replicate).
      assert (length (drop o s) = length (93 :: replicate n 61 ++ [93] ++ r2)) as Hl by (by rewrite Hr).
      rewrite length_drop in Hl. cbn in Hl. rewrite length_app, Hlen in Hl. cbn in Hl.
      rewrite (proj2 (Z.leb_le _ (len s))) by (unfold len; lia).
      rewrite take_app_length' by done.
      apply andb_true_intro. split.
      * apply forallb_forall. intros y Hy. apply list_elem_of_In, elem_of_replicate in Hy as [-> _]. done.
      * apply is_byte_drop. exists r2. rewrite <- drop_drop, Hr1. by rewrite drop_app_length'.
  - split; [done|]. intros [r Hr]. exfalso. assert (is_byte (zget s (Z.of_nat o)) 93 = true) as H by (apply is_byte_drop; rewrite Hr; by eexists).
    congruence.
Qed.

(** A closing bracket ahead of a lexer. *)
Lemma closing_rest m d :
  in_source m -> 0 <= d ->
  closing_long_separator_at (visible_bytes m) (offset m) d = true <-> exists r, rest m = closing d ++ r.
Proof.
  intros (H & _) Hd. rewrite <- (Z2Nat.id (offset m)) by lia. by rewrite closing_iff.
Qed.

Lemma long_separator_rest m d :
  in_source m -> long_separator_depth (visible_bytes m) (offset m) = Some d ->
  0 <= d /\ exists r, rest m = [91] ++ equals d ++ [91] ++ r.
Proof.
  intros (H & _). rewrite <- (Z2Nat.id (offset m)) by lia. intros Hs. apply long_separator_Some in Hs as [Hd [r Hr]].
  split; [done|]. exists r. done.
Qed.

Lemma length_closing d : 0 <= d -> length (closing d) = Z.to_nat (d + 2).
Proof. intros Hd. unfold closing, equals. cbn. rewrite length_app, length_replicate. cbn. lia. Qed.

Lemma closing_ascii d : Forall (fun b => b < 128) (closing d).
Proof. unfold closing, equals. constructor; [lia|]. apply Forall_app. split; [|repeat constructor]. by apply Forall_replicate. Qed.

Definition long_token (start : Position) (k : TokenKind) (d : Z) (m' : Lexer) (txt : list Z) : Lexeme :=
  set_block_depth (as_u32 d)
    (if is_raw k then with_derived_text k (mkLoc start (position m')) txt
     else with_text k (mkLoc start (position m')) "<unknown>" txt).

Definition long_post (start : Position) (k : TokenKind) (disp : string) (d : Z) (pre : list Z) (m : Lexer) (tok : Lexeme) (m' : Lexer) : Prop :=
  exists n, (n <= length (rest m))%nat /\ m' = skip n m /\
    ((exists i r, n = (i + Z.to_nat (d + 2))%nat /\ drop i (rest m) = closing d ++ r /\
        (forall j, (j < i)%nat -> ~ exists r, drop j (rest m) = closing d ++ r) /\
        tok = long_token start k d m' (pre ++ take i (rest m))) \/
     (n = length (rest m) /\ tok = Lexeme_new (if is_raw k then BrokenString else BrokenComment) (mkLoc start (position m')) disp)).

Lemma long_loop_spec fuel start k disp d cs pre m :
  sane m -> (length (rest m) < fuel)%nat -> before m cs pre -> 0 <= d ->
  runs (long_loop fuel start k disp d cs) m (long_post start k disp d pre m).
Proof.
  intros Hm Hf Hbef Hd. revert pre m Hm Hf Hbef. induction fuel as [|fuel IH]; intros pre m Hm Hf Hbef; [lia|].
  pose proof (sane_in _ Hm) as Hin. pose proof (length_rest m Hin) as Hlen. cbn [long_loop]. apply runs_bind, runs_get.
  assert (len (visible_bytes m) = source_end m) as Hvis.
  { unfold visible_bytes, len. rewrite length_take. unfold in_source, len in Hin. lia. }
  rewrite Hvis. destruct (Z.ltb_spec (offset m) (source_end m)).
  2:{ apply runs_bind, runs_loc_from, runs_ret. exists 0%nat. split; [lia|]. split; [by rewrite skip_0|]. right. split; [lia|done]. }
  destruct (closing_long_separator_at _ _ _) eqn:Ec.
  - apply closing_rest in Ec as [r Hr]; [|done..]. pose proof (length_closing d Hd) as Hcl.
    assert (Z.to_nat (d + 2) <= length (rest m))%nat as Hfit by (rewrite Hr, length_app; lia).
    apply runs_bind, runs_bump_times; [done..|]. apply runs_bind. eapply (runs_source_slice _ m); [done|done|done| |].
    { apply (boundary_ascii m Hm 0 93); [by rewrite Hr|done]. }
    apply runs_bind, runs_loc_from, runs_ret. exists (Z.to_nat (d + 2)). split; [done|]. split; [done|]. left.
    exists 0%nat, r. rewrite take_0, drop_0, app_nil_r. split_and!; try done. intros; lia.
  - destruct (rest_cons m ltac:(lia)) as [b Hb]. apply runs_bind, (runs_bump m b (drop 1 (rest m))); [done..|].
    assert (1 <= length (rest m))%nat as H1 by lia.
    eapply runs_mono; [apply (IH (pre ++ take 1 (rest m)) (skip 1 m))|].
    + by apply sane_skip.
    + rewrite rest_skip, length_drop by done. lia.
    + by apply before_skip.
    + intros tok m' (n & Hn & -> & Hpost). rewrite rest_skip, length_drop in * by done. rewrite skip_skip in * by done.
      exists (1 + n)%nat. split; [lia|]. split; [done|]. destruct Hpost as [(i & r & -> & Hi & Hno & ->)|(-> & ->)].
      * left. exists (1 + i)%nat, r. split; [lia|]. rewrite drop_drop in Hi. split; [done|]. split.
        -- intros [|j] Hj; [|change (S j) with (1 + j)%nat; rewrite <- drop_drop; apply Hno; lia]. rewrite drop_0. intros Hx.
           apply closing_rest in Hx; [|done..]. congruence.
        -- unfold long_token. by rewrite <- app_assoc, take_take_drop.
      * right. split; [lia|done].
Qed.

(** A long bracket that starts after [k] bytes of the token. *)
Lemma read_long_spec l k disp prefix r d kd :
  lexer_ok l -> rest l = prefix ++ r -> Forall (fun b => b < 128) prefix -> k = length prefix ->
  (kd = RawString /\ prefix = []) \/ (kd = BlockComment /\ prefix = [45; 45]) ->
  long_separator_depth (visible_bytes (skip k l)) (offset (skip k l)) = Some d ->
  runs (read_long_body (position l) kd disp) (skip k l) (token_read l).
Proof.
  intros Hok Hr Hp -> Hkd Hsep. set (k := length prefix) in *. pose proof (lexer_ok_sane l Hok) as Hm. pose proof (sane_in _ Hm) as Hin.
  assert (k <= length (rest l))%nat as Hk by (rewrite Hr, length_app; lia).
  assert (sane (skip k l)) as Hmk by (by apply sane_skip). pose proof (sane_in _ Hmk) as Hink.
  unfold read_long_body. apply runs_bind, runs_get. rewrite Hsep.
  apply long_separator_rest in Hsep as [Hd [r2 Hr2]]; [|done].
  assert (length ([91] ++ equals d ++ [91]) = Z.to_nat (d + 2)) as Hopen.
  { unfold equals. cbn. rewrite length_app, length_replicate. cbn. lia. }
  set (o := Z.to_nat (d + 2)) in *. replace ([91] ++ equals d ++ [91] ++ r2) with (([91] ++ equals d ++ [91]) ++ r2) in Hr2 by (by rewrite <- !app_assoc).
  assert (o <= length (rest (skip k l)))%nat as Ho by (rewrite Hr2, length_app; lia).
  apply runs_bind, runs_bump_times; [done..|]. rewrite skip_skip by done. apply runs_bind, runs_get.
  assert (rest (skip (k + o) l) = r2) as Hr3 by (rewrite <- skip_skip, rest_skip, Hr2 by done; by rewrite drop_app_length').
  assert (rest l = (prefix ++ [91] ++ equals d ++ [91]) ++ r2) as Hrl.
  { rewrite <- (take_drop k (rest l)). rewrite <- (rest_skip k l), Hr2 by done. rewrite Hr at 1. rewrite take_app_length' by done.
    by rewrite <- !app_assoc. }
  assert (length (prefix ++ [91] ++ equals d ++ [91]) = (k + o)%nat) as Hlp by (rewrite length_app, Hopen; done).
  assert (k + o <= length (rest l))%nat as Hko by (rewrite Hrl, length_app; lia).
  assert (at_boundary l (k + o)) as Hbd.
  { apply (boundary_scan l Hm); [apply Hok|done|]. rewrite Hrl, take_app_length' by done. apply Forall_app. split; [exact Hp|].
    constructor; [lia|]. apply Forall_app. split; [by apply Forall_replicate|by repeat constructor]. }
  assert (d < U32_MAX) as Hd32.
  { destruct Hm as ((H1 & H2 & _) & (_ & Hlen) & _). pose proof (length_rest l Hin). unfold o in Hko. lia. }
  eapply runs_mono; [apply (long_loop_spec _ _ _ _ d _ [])|].
  - by apply sane_skip.
  - apply rest_fuel. by apply in_source_skip.
  - apply before_start; [by apply sane_skip|by apply at_boundary_skip].
  - done.
  - intros tok m' (n & Hn & -> & Hpost). rewrite Hr3 in Hn, Hpost. rewrite skip_skip in * by done.
    assert (k + o + n <= length (rest l))%nat as Hkon by (rewrite Hrl, length_app; lia).
    rewrite <- (with_own_braces (skip (k + o + n) l)). destruct Hpost as [(i & r3 & -> & Hi & Hno & ->)|(-> & ->)].
    + change (Z.to_nat (d + 2)) with o in Hn, Hkon |- *. pose proof (length_closing d Hd) as Hcl. fold o in Hcl.
      assert (take i r2 ++ closing d ++ r3 = r2) as Hsplit by (rewrite <- Hi; apply take_drop).
      assert (length (take i r2) = i) as Hli by (rewrite length_take; lia).
      assert (take (k + o + (i + o)) (rest l) = (prefix ++ [91] ++ equals d ++ [91]) ++ take i r2 ++ closing d) as Htake.
      { rewrite Hrl, <- Hsplit at 1. rewrite (app_assoc (take i r2)), (app_assoc _ (take i r2 ++ closing d)).
        rewrite take_app_length'; [by rewrite <- !app_assoc|]. rewrite !length_app, Hli, Hcl in *. lia. }
      assert (unclosed d (take i r2) ([93] ++ equals d ++ [93])) as Hunc.
      { intros j Hj. rewrite Hli in Hj. apply not_true_is_false. intros Hc. apply closing_iff in Hc as [r4 Hc]; [|done].
        apply (Hno j Hj). exists (r4 ++ r3). rewrite <- Hsplit, (app_assoc (take i r2)), drop_app_le by (rewrite length_app; lia).
        fold (closing d) in Hc. rewrite Hc. by rewrite <- app_assoc. }
      assert (as_u32 d = d) as Hdd by (apply as_u32_small; unfold is_u32, U32_MAX in *; lia).
      unfold long_token. rewrite Hdd. apply token_read_intro; try done.
      * lia.
      * set (m2 := skip (k + o + i) l). assert (k + o + i <= length (rest l))%nat as Hm2le by lia.
        assert (sane m2) as Hm2 by (by apply sane_skip).
        assert (rest m2 = closing d ++ r3) as Hrm2.
        { unfold m2. rewrite rest_skip by done. rewrite <- drop_drop, Hrl, drop_app_length' by done. exact Hi. }
        assert (at_boundary m2 o) as Hb2.
        { apply (boundary_scan m2 Hm2); [apply (boundary_ascii m2 Hm2 0 93); [by rewrite Hrm2|done]|rewrite Hrm2, length_app; lia|].
          rewrite Hrm2, take_app_length' by done. apply closing_ascii. }
        unfold at_boundary in *. cbn in Hb2. rewrite <- Hb2. f_equal. lia.
      * by destruct Hkd as [[-> _]|[-> _]].
      * by destruct Hkd as [[-> _]|[-> _]].
      * intros s Hs. rewrite Htake. destruct Hkd as [[-> ->]|[-> ->]]; cbn in Hs; injection Hs as <-; unfold long_bracket, closing;
          cbn; by rewrite <- !app_assoc.
      * destruct Hkd as [[-> _]|[-> _]]; eexists d, _; split_and!; try done.
      * by destruct Hkd as [[-> _]|[-> _]].
    + assert (k + o + length r2 = length (rest l))%nat as Hall by (rewrite Hrl, length_app; lia).
      apply token_read_intro; try done; [lia|rewrite Hall; apply (boundary_end l Hm)|by destruct Hkd as [[-> _]|[-> _]]..|].
      by destruct Hkd as [[-> _]|[-> _]].
Qed.

Lemma read_comment_spec l r : lexer_ok l -> rest l = 45 :: 45 :: r -> runs (read_comment (position l)) l (token_read l).
Proof.
  intros Hok Hr. pose proof (lexer_ok_sane l Hok) as Hm. pose proof (sane_in _ Hm) as Hin.
  assert (2 <= length (rest l))%nat as Hlen by (rewrite Hr; cbn; lia).
  assert (at_boundary l 2) as Hb2 by (by apply (boundary_after l Hm 1 45); [rewrite Hr|]).
  assert (sane (skip 2 l)) as Hm2 by (by apply sane_skip).
  assert (rest (skip 2 l) = r) as Hr2 by (rewrite rest_skip, Hr by done; cbn; by rewrite drop_0).
  unfold read_comment. apply runs_bind, runs_bump_times; [done..|]. apply runs_bind, runs_get.
  destruct (long_separator_depth _ _) as [d|] eqn:Ed.
  - apply (read_long_spec l 2 _ [45; 45] r d BlockComment); [done|done|by repeat constructor|done|by right|done].
  - apply runs_bind, runs_bump_while; [by apply sane_in|]. rewrite Hr2. set (p := fun b => negb ((b =? 13) || (b =? 10))).
    set (n := prefix_run p r). destruct (prefix_run_spec p r) as (Hn & Hall & Hstop). fold n in Hn, Hall, Hstop.
    rewrite skip_skip by done. assert (2 + n <= length (rest l))%nat as Hn2 by (rewrite Hr; cbn; lia).
    assert (at_boundary l (2 + n)) as Hbd.
    { apply (boundary_stop l Hm); [done|]. rewrite Hr. cbn [drop Nat.add]. destruct (drop n r) as [|b r']; [done|].
      unfold p in Hstop. lia. }
    assert (before (skip 2 l) (offset (skip 2 l)) []) as Hbef by (apply before_start; [done|by apply at_boundary_skip]).
    apply (before_skip _ _ _ n) in Hbef; [|done|by rewrite Hr2]. rewrite skip_skip, Hr2 in Hbef by done.
    apply runs_bind. eapply runs_slice_from; [by apply sane_skip|exact Hbef|by apply at_boundary_skip|].
    apply runs_bind, runs_loc_from, runs_ret. rewrite <- (with_own_braces (skip (2 + n) l)).
    apply token_read_intro; try done; [lia|rewrite Hr; by intros s [= <-]|]. exists (take n r). split; [done|].
    eapply Forall_impl; [|exact Hall]. cbn. unfold p. intros b Hb. lia.
Qed.

(** ** A whole token *)

Lemma rest_byte l k b : lexer_ok l -> rest l !! k = Some b -> 0 < b < 248.
Proof.
  intros Hok Hb. pose proof (lexer_ok_in_source l Hok) as Hin. pose proof (rest_source l k b Hin Hb) as Hs.
  assert (0 <= b < 248) as Hr.
  { destruct (ok_valid l Hok) as [(chars & Hc & Heq) _]. rewrite Heq in Hs. apply list_elem_of_lookup_2 in Hs.
    unfold utf8 in Hs. apply list_elem_of_In, in_concat in Hs as (s & Hs & Hbs). apply in_map_iff in Hs as (c & <- & Hcs).
    rewrite Forall_forall in Hc. specialize (Hc c Hcs).
    destruct (encode_shape c Hc) as (b' & t & He & Ht & Hsh). rewrite He in Hbs. destruct Hbs as [<-|Hbs].
    - destruct Hsh as [(? & -> & _)|[(_ & ? & ? & _)|[(_ & ? & ? & ? & _)|(_ & ? & ? & ? & ? & _)]]]; lia.
    - rewrite Forall_forall in Ht. specialize (Ht b Hbs). unfold continuation in Ht. lia. }
  destruct (nul_offset_spec (source l)) as (_ & _ & Hn). pose proof (lookup_lt_Some _ _ _ Hb). pose proof (length_rest l Hin).
  assert (b <> 0) as Hb0; [|lia]. apply (Hn (Z.to_nat (offset l) + k)%nat); [|done].
  destruct (ok_offset l Hok) as [H1 H2]. rewrite <- (ok_end l Hok). lia.
Qed.

Lemma name_start_ascii b : is_name_start b = true -> b < 128.
Proof. intros H. by apply name_continue_ascii, name_start_continue. Qed.

Lemma read_token_spec l : lexer_ok l -> rest l <> [] -> runs read_token l (token_read l).
Proof.
  intros Hok Hne. pose proof (lexer_ok_sane l Hok) as Hm. pose proof (sane_in _ Hm) as Hin.
  destruct (rest l) as [|b r] eqn:Hr; [done|]. clear Hne. pose proof (rest_byte l 0 b Hok ltac:(by rewrite Hr)) as Hb.
  unfold read_token. apply runs_bind, runs_get. rewrite peek_rest, Hr by done. cbn [head].
  destruct (is_name_start b) eqn:E1; [by eapply read_name_spec|].
  destruct (is_ascii_digit b || _) eqn:E2.
  { eapply read_number_spec; [done|exact Hr|]. destruct (is_ascii_digit b); [done|]. cbn in E2 |- *. by apply andb_prop in E2 as [-> _]. }
  destruct (Z.eqb_spec b 64) as [->|]; [by eapply read_attribute_spec|].
  destruct (Z.eqb_spec b 96) as [->|].
  { unfold read_interpolated_string_begin. apply runs_bind, (runs_bump l 96 r); [done..|]. rewrite <- (with_own_braces (skip 1 l)).
    eapply read_section_spec; [done|exact Hr|by left]. }
  destruct (Z.eqb_spec b 123) as [->|]; [by eapply read_open_brace_spec|].
  destruct ((b =? 125) && _) eqn:E3.
  { apply andb_prop in E3 as [E3 _]. apply Z.eqb_eq in E3 as ->. by eapply read_close_brace_spec. }
  destruct ((b =? 91) && _) eqn:E4.
  { apply andb_prop in E4 as [_ E4]. apply bool_decide_eq_true in E4 as [d Hd]. unfold read_long_string.
    rewrite <- (skip_0 l) at 2. apply (read_long_spec l 0 _ [] (rest l) d RawString); rewrite ?skip_0; try done. by left. }
  destruct ((b =? 39) || (b =? 34)) eqn:E5; [eapply read_quoted_spec; [done|exact Hr|lia]|].
  destruct ((b =? 45) && _) eqn:E6.
  { apply andb_prop in E6 as [E6 E7]. apply Z.eqb_eq in E6 as ->. destruct (rest_two l Hok 45 45 ltac:(by rewrite Hr) E7) as [r' Hr'].
    exact (read_comment_spec l _ Hok Hr'). }
  destruct (read_operator l b (position l)) as [m|] eqn:Eo; [eapply read_operator_spec; [done| |exact Eo]; by rewrite Hr|].
  destruct (lead_test b) as (_ & _ & _ & -> & _); [unfold is_u8; lia|]. destruct (Z.ltb_spec b 128); cbn [negb].
  - eapply read_char_spec; [done|exact Hr|lia].
  - destruct (char_here l Hok b r Hr ltac:(lia)) as (c & r' & Hc & Hge & Hrc & Hbd). by eapply read_utf8_spec.
Qed.
