(* ===== verification/LexerTheorems.v ===== *)
(** * LexerTheorems: the lexer tiles the source

    Reading all tokens of a source ([lex_all]) ends without a panic; the tokens and the white
    space between them are the source, every token spells its part of it, and every location
    converts back to the part's byte range. Skipping comments only drops the comment tokens. *)

From Stdlib Require Import ZArith Lia.
From stdpp Require Import base numbers list strings option.
From S2P Require Import Prelude RustExec Builder AstString Location Lexer LexerSpec LexerFacts.

(** All tokens up to the end of the input. *)
Fixpoint lex_all (fuel : nat) (l : Lexer) : Exec (list Lexeme) :=
  match fuel with
  | O => Diverge
  | S fuel' =>
      let! r := next_token l in
      match kind r.1 with
      | Eof => Done [r.1]
      | _ => let! toks := lex_all fuel' r.2 in Done (r.1 :: toks)
      end
  end.

(** ** Positions *)

Lemma bump_positions a b :
  len (a ++ b) < U32_MAX -> foldl bump_position (pos_at a) b = pos_at (a ++ b).
Proof.
  revert a. induction b as [|c b IH]; intros a Hlen; [by rewrite app_nil_r|]. cbn [foldl].
  replace (a ++ c :: b) with ((a ++ [c]) ++ b) in * by (by rewrite <- app_assoc).
  assert (bump_position (pos_at a) c = pos_at (a ++ [c])) as ->; [|by apply IH].
  rewrite pos_at_snoc. destruct (pos_at_range a) as (H1 & H2 & H3). rewrite !len_app in Hlen. change (len [c]) with 1 in Hlen.
  pose proof (len_nonneg b). unfold bump_position, pos_next, U32_MAX in *. rewrite !as_u32_small by (unfold is_u32; lia). done.
Qed.

(** What a lexer has read. *)
Definition seen (l : Lexer) : list Z := take (Z.to_nat (offset l)) (source l).
Definition positioned (l : Lexer) : Prop := position l = pos_at (seen l).

Lemma seen_skip n l : in_source l -> (n <= length (rest l))%nat -> seen (skip n l) = seen l ++ take n (rest l).
Proof.
  intros H Hn. pose proof (length_rest l H) as Hlen. unfold seen. cbn. unfold rest, visible_bytes in *.
  replace (Z.to_nat (offset l + Z.of_nat n)) with (Z.to_nat (offset l) + n)%nat by (unfold in_source in H; lia).
  rewrite <- take_take_drop, skipn_firstn_comm, take_take. f_equal. f_equal. unfold in_source in H. lia.
Qed.

Lemma positioned_skip n l : sane l -> positioned l -> (n <= length (rest l))%nat -> positioned (skip n l).
Proof.
  intros (H & (_ & Hv) & _) Hp Hn. unfold positioned. rewrite seen_skip by done. unfold skip at 1. cbn [position]. rewrite Hp. apply bump_positions.
  rewrite <- seen_skip by done. unfold seen. cbn [source offset skip]. unfold len in *. rewrite length_take. lia.
Qed.

(** ** Sources as sequences of tokens *)

Definition is_trivia (b : Z) : bool := (b =? 32) || (b =? 9) || (b =? 10) || (b =? 11) || (b =? 12) || (b =? 13).

(** The part of the text a location covers: the location of a doubled brace ends before it. *)
Definition covered (k : TokenKind) (txt : list Z) : list Z :=
  match k with BrokenInterpDoubleBrace => take (length txt - 2) txt | _ => txt end.

(** The token of the text [txt] after [pre]. *)
Record token_for (o : LexerOptions) (pre txt : list Z) (tok : Lexeme) : Prop := {
  tf_nonempty : txt <> [];
  tf_location : location tok = mkLoc (pos_at pre) (pos_at (pre ++ covered (kind tok) txt));
  tf_well_formed : well_formed tok;
  tf_spelling : forall s, spell tok = Some s -> s = txt;
  tf_spelled : malformed (kind tok) = false -> read_names o = true -> spell tok = Some txt;
}.

(** The tokens of the text after [pre]. *)
Inductive tokens_of (o : LexerOptions) (pre : list Z) : list Z -> list Lexeme -> Prop :=
| tokens_end t :
    Forall (fun b => is_trivia b = true) t ->
    tokens_of o pre t [Lexeme_new Eof (mkLoc (pos_at (pre ++ t)) (pos_at (pre ++ t))) "<eof>"]
| tokens_next t txt after tok toks :
    Forall (fun b => is_trivia b = true) t -> token_for o (pre ++ t) txt tok ->
    tokens_of o (pre ++ t ++ txt) after toks -> tokens_of o pre (t ++ txt ++ after) (tok :: toks).

(** A well-formed token that is neither malformed nor unnamed has a spelling. *)
Lemma well_formed_spell tok :
  well_formed tok -> malformed (kind tok) = false -> (kind tok = Name -> is_Some (name tok)) -> is_Some (spell tok).
Proof.
  intros Hw Hm Hn. unfold well_formed in Hw. unfold spell. destruct (kind tok); try done; try (by apply Hn);
    try (destruct Hw as (x & H & _); rewrite H; by eexists);
    try (destruct Hw as (x & y & H & H' & _); rewrite H, H'; by eexists).
  all: by eexists.
Qed.

Lemma token_read_for l tok l' :
  lexer_ok l -> positioned l -> token_read l tok l' ->
  exists txt, token_for (options l) (seen l) txt tok /\ rest l = txt ++ rest l' /\ seen l' = seen l ++ txt /\
    lexer_ok l' /\ positioned l' /\ options l' = options l /\ source l' = source l /\ (length (rest l') < length (rest l))%nat.
Proof.
  intros Hok Hp (n & braces & Hn & -> & Hbd & Hbeg & Hend & Hsp & Hw & Hname).
  pose proof (lexer_ok_sane l Hok) as Hm. pose proof (sane_in _ Hm) as Hin.
  assert (seen (skip n l) = seen l ++ take n (rest l)) as Hseen by (apply seen_skip; [done|lia]).
  assert (positioned (skip n l)) as Hpn by (apply positioned_skip; [done|done|lia]).
  assert (rest (skip n l) = drop n (rest l)) as Hrest by (apply rest_skip; [done|lia]).
  exists (take n (rest l)). split; [constructor|].
  - intros Heq. apply (f_equal length) in Heq. rewrite length_take in Heq. cbn in Heq. lia.
  - destruct (location tok) as [b e]. cbn in Hbeg, Hend. subst b e. f_equal; [exact Hp|]. unfold covered. destruct (kind tok); try (by rewrite Hpn, Hseen).
    rewrite (positioned_skip (n - 2) l Hm Hp) by lia. rewrite seen_skip by (done || lia). do 2 f_equal.
    rewrite length_take, Nat.min_l, take_take by lia. f_equal. lia.
  - done.
  - exact Hsp.
  - intros Hmal Hrn. destruct (well_formed_spell tok Hw Hmal) as [s Hs]; [by intros; apply Hname|]. by rewrite Hs, <- (Hsp s Hs).
  - rewrite rest_braces, Hrest. split; [by rewrite take_drop|]. split; [exact Hseen|].
    split; [apply (sane_ok (with_braces braces (skip n l))); [apply sane_skip; [done|lia]|by apply (at_boundary_skip n l)]|].
    split; [exact Hpn|]. split; [done|]. split; [done|]. rewrite length_drop. lia.
Qed.

(** ** One call of [next_token] *)

Lemma skip_trivia_spec l :
  lexer_ok l -> positioned l ->
  exists l1 t, skip_trivia l = Done (tt, l1) /\ rest l = t ++ rest l1 /\ Forall (fun b => is_trivia b = true) t /\
    seen l1 = seen l ++ t /\ lexer_ok l1 /\ positioned l1 /\ options l1 = options l /\ source l1 = source l.
Proof.
  intros Hok Hp. pose proof (lexer_ok_sane l Hok) as Hm. pose proof (sane_in _ Hm) as Hin.
  set (n := prefix_run is_trivia (rest l)). destruct (prefix_run_spec is_trivia (rest l)) as (Hn & Hall & _). fold n in Hn, Hall.
  exists (skip n l), (take n (rest l)). split.
  { assert (runs skip_trivia l (fun _ l' => l' = skip n l)) as H by (by apply runs_bump_while).
    unfold runs in H. destruct (skip_trivia l) as [[[] l']| | |]; try done. by subst. }
  rewrite rest_skip by done. split; [by rewrite take_drop|]. split; [done|]. split; [by apply seen_skip|].
  split; [|split; [by apply positioned_skip|done]]. apply sane_ok; [by apply sane_skip|]. apply at_boundary_skip.
  apply boundary_scan; [done|apply Hok|done|]. eapply Forall_impl; [|exact Hall]. cbn. unfold is_trivia. lia.
Qed.

(** A round of the loop: trivia, then the end of the input or a token. *)
Definition read_round (l l1 : Lexer) (t : list Z) (tok : Lexeme) (l' : Lexer) : Prop :=
  rest l = t ++ rest l1 /\ Forall (fun b => is_trivia b = true) t /\ seen l1 = seen l ++ t /\ options l1 = options l /\ source l1 = source l /\
  ((rest l1 = [] /\ tok = Lexeme_new Eof (mkLoc (pos_at (seen l1)) (pos_at (seen l1))) "<eof>" /\ l' = l1) \/
   (kind tok <> Eof /\ exists txt, token_for (options l) (seen l1) txt tok /\ rest l1 = txt ++ rest l' /\ seen l' = seen l1 ++ txt /\
      lexer_ok l' /\ positioned l' /\ options l' = options l /\ source l' = source l /\ (length (rest l') < length (rest l))%nat)).

Lemma lex_round_spec l :
  lexer_ok l -> positioned l ->
  exists l1 t tok l', skip_trivia l = Done (tt, l1) /\ read_token l1 = Done (tok, l') /\ read_round l l1 t tok l'.
Proof.
  intros Hok Hp. destruct (skip_trivia_spec l Hok Hp) as (l1 & t & Hs & Hr & Ht & Hseen & Hok1 & Hp1 & Ho & Hsrc).
  destruct (rest l1) as [|b r] eqn:Er.
  - exists l1, t, (Lexeme_new Eof (mkLoc (position l1) (position l1)) "<eof>"), l1. split; [done|]. split.
    + unfold read_token, lx_bind, lx_get. rewrite peek_rest, Er by (by apply lexer_ok_in_source). done.
    + rewrite <- Er in Hr. repeat split; try done. left. split; [done|]. by rewrite Hp1.
  - pose proof (read_token_spec l1 Hok1 ltac:(by rewrite Er)) as Hrd. unfold runs in Hrd.
    destruct (read_token l1) as [[tok l']| | |] eqn:Etok; try done. exists l1, t, tok, l'. split; [done|]. split; [done|].
    rewrite <- Er in Hr. destruct (token_read_for l1 tok l' Hok1 Hp1 Hrd) as (txt & Htf & Hr1 & Hs1 & Hok' & Hp' & Ho' & Hsrc' & Hlt).
    repeat split; try done. right. split.
    + intros Hk. pose proof (tf_well_formed _ _ _ _ Htf) as Hw. unfold well_formed in Hw. by rewrite Hk in Hw.
    + exists txt. rewrite <- Ho at 1. split; [done|]. split; [done|]. split; [done|]. split; [done|]. split; [done|].
      split; [by rewrite Ho'|]. split; [by rewrite Hsrc'|]. rewrite Hr, length_app. lia.
Qed.

Lemma next_token_plain l l1 tok l' :
  skip_trivia l = Done (tt, l1) -> read_token l1 = Done (tok, l') -> skip_comments (options l') = false ->
  next_token l = Done (tok, l').
Proof.
  intros Hs Hr Ho. unfold next_token, lx_bind, lx_get. cbn [next_token_loop]. unfold lx_bind, lx_get. rewrite Hs, Hr, Ho. done.
Qed.

Lemma lex_all_plain fuel l :
  lexer_ok l -> positioned l -> skip_comments (options l) = false -> (length (rest l) < fuel)%nat ->
  exists toks, lex_all fuel l = Done toks /\ tokens_of (options l) (seen l) (rest l) toks.
Proof.
  revert l. induction fuel as [|fuel IH]; intros l Hok Hp Ho Hf; [lia|]. cbn [lex_all].
  destruct (lex_round_spec l Hok Hp) as (l1 & t & tok & l' & Hs & Hrd & Hr & Ht & Hseen & Ho1 & Hsrc1 & Hcase).
  destruct Hcase as [(Her & -> & ->)|(Hk & txt & Htf & Hr1 & Hs1 & Hok' & Hp' & Ho' & Hsrc' & Hlt)].
  - rewrite (next_token_plain _ _ _ _ Hs Hrd) by (by rewrite Ho1). cbn. eexists. split; [done|].
    rewrite Hr, Her, app_nil_r, Hseen. by apply tokens_end.
  - rewrite (next_token_plain _ _ _ _ Hs Hrd) by (by rewrite Ho'). cbn [exec_bind fst snd].
    destruct (IH l' Hok' Hp' ltac:(by rewrite Ho') ltac:(lia)) as (toks & Htoks & Hof). rewrite Htoks. cbn [exec_bind].
    exists (tok :: toks). split; [by destruct (kind tok)|]. rewrite Hr, Hr1. apply tokens_next; [done|by rewrite <- Hseen|].
    rewrite Ho', Hs1, Hseen, <- app_assoc in Hof. exact Hof.
Qed.

(** ** The start *)

Lemma start_ok s o : valid_str s -> lexer_ok (with_options s o) /\ positioned (with_options s o) /\
  seen (with_options s o) = [] /\ rest (with_options s o) = visible_bytes (with_options s o).
Proof.
  intros Hs. destruct (nul_offset_spec s) as (Hn & _). split; [|done]. constructor; try done. cbn. lia.
Qed.

Lemma visible_length s o : (length (visible_bytes (with_options s o)) < S (length s))%nat.
Proof. unfold visible_bytes. cbn. rewrite length_take. lia. Qed.

(** The locations of the tokens convert to the ranges of their texts. *)
Lemma tokens_ranges o pre after toks s r tok :
  tokens_of o pre after toks -> s = pre ++ after ++ r -> len s < U32_MAX -> tok ∈ toks ->
  exists a b, byte_range (location tok) s = Some (a, b) /\
    forall sp, spell tok = Some sp -> take (Z.to_nat (b - a)) (drop (Z.to_nat a) s) = sp.
Proof.
  induction 1 as [pre t Ht|pre t txt after tok' toks Ht Htf _ IH]; intros Hs Hlen Htok.
  - apply list_elem_of_singleton in Htok as ->. exists (len (pre ++ t)), (len (pre ++ t)). split.
    + rewrite Hs, (app_assoc pre). cbn [location Lexeme_new]. pose proof (byte_range_pos_at (pre ++ t) [] r) as H.
      rewrite app_nil_r in H. apply H. by rewrite app_nil_l, <- app_assoc, <- Hs.
    + intros sp [= <-]. rewrite Z.sub_diag. done.
  - apply elem_of_cons in Htok as [->|Htok]; [|apply IH; [by rewrite Hs, <- !app_assoc|done|done]].
    destruct Htf as [Hne Hloc Hw Hsp _]. rewrite Hloc.
    assert (exists c, txt = covered (kind tok') txt ++ c) as [c Hc].
    { unfold covered. destruct (kind tok'); try (exists []; by rewrite app_nil_r). exists (drop (length txt - 2) txt). by rewrite take_drop. }
    assert (s = (pre ++ t) ++ covered (kind tok') txt ++ c ++ after ++ r) as Hs'.
    { rewrite Hs, Hc at 1. by rewrite <- !app_assoc. }
    exists (len (pre ++ t)), (len ((pre ++ t) ++ covered (kind tok') txt)). split.
    + rewrite Hs' at 1. apply byte_range_pos_at. by rewrite <- Hs'.
    + intros sp Hsps. pose proof (Hsp _ Hsps) as ->. assert (covered (kind tok') txt = txt) as Hcov.
      { unfold covered. unfold spell in Hsps. destruct (kind tok'); done. }
      rewrite Hcov in *. rewrite Hs', len_app. unfold len. rewrite Nat2Z.id, drop_app_length.
      replace (Z.to_nat _) with (length txt) by lia. by rewrite take_app_length.
Qed.

(** C14: lexing any source below 4 GiB neither panics nor loops. The tokens tile the text
    before the first NUL: it is, in order, white space and the texts of the tokens, up to the
    final [Eof]; each token has its kind's payload, is located at the text and spells it. *)
Theorem lexer_tiles_source s o :
  valid_str s -> skip_comments o = false ->
  exists toks, lex_all (S (length s)) (with_options s o) = Done toks /\
    tokens_of o [] (visible_bytes (with_options s o)) toks.
Proof.
  intros Hs Ho. destruct (start_ok s o Hs) as (Hok & Hp & Hseen & Hrest).
  destruct (lex_all_plain (S (length s)) (with_options s o) Hok Hp Ho) as (toks & Hl & Hof).
  { rewrite Hrest. apply visible_length. }
  exists toks. split; [done|]. by rewrite Hseen, Hrest in Hof.
Qed.

(** [Location::byte_range] inverts the lexer's positions: the location of every token is a
    range of the source, and the bytes in it are the spelling of the token. *)
Theorem token_locations_exact s o toks tok :
  valid_str s -> skip_comments o = false ->
  lex_all (S (length s)) (with_options s o) = Done toks -> tok ∈ toks ->
  exists a b, byte_range (location tok) s = Some (a, b) /\
    forall sp, spell tok = Some sp -> take (Z.to_nat (b - a)) (drop (Z.to_nat a) s) = sp.
Proof.
  intros Hs Ho Hl Htok. destruct (start_ok s o Hs) as (Hok & Hp & Hseen & Hrest).
  destruct (lex_all_plain (S (length s)) (with_options s o) Hok Hp Ho) as (toks' & Hl' & Hof).
  { rewrite Hrest. apply visible_length. }
  rewrite Hl in Hl'. injection Hl' as <-. rewrite Hseen, Hrest in Hof.
  apply (tokens_ranges _ _ _ _ s (drop (Z.to_nat (nul_offset s)) s) tok Hof); [|apply Hs|done].
  unfold visible_bytes. cbn. by rewrite take_drop.
Qed.

(** ** Skipping comments *)

Definition with_skip (b : bool) (l : Lexer) : Lexer :=
  mkLexer (source l) (source_end l) (mkOptions b (read_names (options l))) (offset l) (position l) (brace_stack l).

(** A computation that does not look at [skip_comments]. *)
Definition skip_blind_at {A} (m : LX A) (b : bool) (l : Lexer) : Prop :=
  m (with_skip b l) = match m l with
                      | Done (a, l') => Done (a, with_skip b l')
                      | Raise e => Raise e | Crash => Crash | Diverge => Diverge
                      end.
Definition skip_blind {A} (m : LX A) : Prop := forall b l, skip_blind_at m b l.

Lemma blind_ret {A} (a : A) : skip_blind (lx_ret a).
Proof. done. Qed.

Lemma blind_bind {A B} (m : LX A) (k : A -> LX B) : skip_blind m -> (forall a, skip_blind (k a)) -> skip_blind (lx_bind m k).
Proof.
  intros Hm Hk b l. unfold skip_blind_at, lx_bind. rewrite (Hm b l). destruct (m l) as [[a l']| | |]; try done. apply Hk.
Qed.

(** After reading the state the continuation may use it, except for the option. *)
Lemma blind_get {A} (k : Lexer -> LX A) : (forall b l, k (with_skip b l) = k l) -> (forall l, skip_blind (k l)) -> skip_blind (lx_bind lx_get k).
Proof. intros H1 H2 b l. unfold skip_blind_at, lx_bind, lx_get. rewrite H1. apply H2. Qed.

Lemma blind_bump : skip_blind bump.
Proof. intros b l. unfold skip_blind_at, bump. change (peek_byte (with_skip b l)) with (peek_byte l). by destruct (peek_byte l). Qed.

Lemma blind_braces braces : skip_blind (set_braces braces).
Proof. done. Qed.

Lemma blind_slice a b : skip_blind (source_slice a b).
Proof. intros c l. unfold skip_blind_at, source_slice. cbn. by case_match. Qed.

Lemma blind_diverge {A} : skip_blind (A := A) lx_diverge.
Proof. done. Qed.

Lemma blind_crash {A} : skip_blind (A := A) lx_crash.
Proof. done. Qed.

Create HintDb blind.
#[local] Hint Resolve blind_diverge blind_crash blind_ret blind_bump blind_braces blind_slice : blind.

Ltac blind :=
  repeat match goal with
  | |- forall _, _ => intro
  | |- skip_blind (lx_bind lx_get _) => apply blind_get; [reflexivity|]
  | |- skip_blind (lx_bind _ _) => apply blind_bind
  | |- skip_blind (if ?c then _ else _) => destruct c
  | |- skip_blind (match ?o with _ => _ end) => destruct o eqn:?
  | |- skip_blind _ => solve [eauto with blind]
  end.

Lemma blind_bump_times n : skip_blind (bump_times n).
Proof. induction n; cbn [bump_times]; blind. Qed.
#[local] Hint Resolve blind_bump_times : blind.

Lemma blind_bump_while_loop fuel p : skip_blind (bump_while_loop fuel p).
Proof. induction fuel; cbn [bump_while_loop]; blind. Qed.
#[local] Hint Resolve blind_bump_while_loop : blind.

Lemma blind_bump_while p : skip_blind (bump_while p).
Proof. unfold bump_while. blind. Qed.
#[local] Hint Resolve blind_bump_while : blind.

Lemma blind_slice_from a : skip_blind (slice_from a).
Proof. unfold slice_from. blind. Qed.

Lemma blind_loc start : skip_blind (loc_from start).
Proof. unfold loc_from. blind. Qed.
#[local] Hint Resolve blind_slice_from blind_loc : blind.

Lemma blind_name start : skip_blind (read_name_or_reserved start).
Proof. unfold read_name_or_reserved. blind. Qed.

Lemma blind_number start : skip_blind (read_number start).
Proof. unfold read_number. blind. Qed.

Lemma blind_utf8_loop n cp : skip_blind (utf8_loop n cp).
Proof. revert cp. induction n; cbn [utf8_loop]; blind. Qed.
#[local] Hint Resolve blind_utf8_loop : blind.

Lemma blind_utf8 start : skip_blind (read_utf8_error start).
Proof. unfold read_utf8_error. cbv zeta. blind. Qed.

Lemma blind_attribute start : skip_blind (read_attribute start).
Proof. unfold read_attribute. blind. Qed.

Lemma blind_fixed n start k disp : skip_blind (read_fixed n start k disp).
Proof. unfold read_fixed. blind. Qed.

Lemma blind_backslash : skip_blind bump_backslash_in_string.
Proof. unfold bump_backslash_in_string. blind. Qed.
#[local] Hint Resolve blind_backslash : blind.

Lemma blind_unfinished start cs : skip_blind (unfinished_string start cs).
Proof. unfold unfinished_string. blind. Qed.
#[local] Hint Resolve blind_unfinished : blind.

Lemma blind_quoted_loop fuel start q cs : skip_blind (quoted_loop fuel start q cs).
Proof. induction fuel; cbn [quoted_loop]; blind. Qed.
#[local] Hint Resolve blind_quoted_loop : blind.

Lemma blind_quoted start : skip_blind (read_quoted_string start).
Proof. unfold read_quoted_string. blind. Qed.

Lemma blind_malformed start : skip_blind (malformed_string start).
Proof. unfold malformed_string. blind. Qed.
#[local] Hint Resolve blind_malformed : blind.

Lemma blind_interp_loop fuel start fk ek cs : skip_blind (interp_loop fuel start fk ek cs).
Proof. induction fuel; cbn [interp_loop]; cbv zeta; blind. Qed.
#[local] Hint Resolve blind_interp_loop : blind.

Lemma blind_section start fk ek : skip_blind (read_interpolated_string_section start fk ek).
Proof. unfold read_interpolated_string_section. blind. Qed.
#[local] Hint Resolve blind_section : blind.

Lemma blind_open_brace start : skip_blind (read_open_brace start).
Proof. unfold read_open_brace. blind. Qed.

Lemma blind_close_brace start : skip_blind (read_close_brace start).
Proof. unfold read_close_brace. blind. Qed.

Lemma blind_long_loop fuel start k disp d cs : skip_blind (long_loop fuel start k disp d cs).
Proof. induction fuel; cbn [long_loop]; blind. Qed.
#[local] Hint Resolve blind_long_loop : blind.

Lemma blind_long_body start k disp : skip_blind (read_long_body start k disp).
Proof. unfold read_long_body. blind. Qed.
#[local] Hint Resolve blind_long_body : blind.

Lemma blind_comment start : skip_blind (read_comment start).
Proof. unfold read_comment. blind. Qed.

Lemma blind_char start : skip_blind (read_char start).
Proof. unfold read_char. blind. Qed.

Lemma blind_interp_begin start : skip_blind (read_interpolated_string_begin start).
Proof. unfold read_interpolated_string_begin. blind. Qed.

#[local] Hint Resolve blind_name blind_number blind_utf8 blind_attribute blind_fixed blind_quoted blind_open_brace
  blind_close_brace blind_comment blind_char blind_interp_begin : blind.

Lemma blind_operator l byte start m : read_operator l byte start = Some m -> skip_blind m.
Proof.
  unfold read_operator. repeat (match goal with |- (if ?c then _ else _) = _ -> _ => destruct c end; [intros [= <-]; auto with blind|]).
  done.
Qed.
#[local] Hint Resolve blind_operator : blind.

Lemma blind_token : skip_blind read_token.
Proof. unfold read_token. cbv zeta. blind. Qed.

Lemma blind_trivia : skip_blind skip_trivia.
Proof. unfold skip_trivia. blind. Qed.

(** A round with comments skipped. *)
Lemma skip_round n l l1 tok l' :
  skip_trivia l = Done (tt, l1) -> read_token l1 = Done (tok, l') ->
  next_token_loop (S n) (with_skip true l) =
  if is_comment (kind tok) then next_token_loop n (with_skip true l') else Done (tok, with_skip true l').
Proof.
  intros Hs Hr. cbn [next_token_loop]. unfold lx_bind, lx_get. rewrite (blind_trivia true l), Hs, (blind_token true l1), Hr. cbn [skip_comments options with_skip].
  by destruct (is_comment (kind tok)).
Qed.

Lemma skip_loop_fuel n m l :
  lexer_ok l -> positioned l -> (length (rest l) < n)%nat -> (length (rest l) < m)%nat ->
  next_token_loop n (with_skip true l) = next_token_loop m (with_skip true l).
Proof.
  revert m l. induction n as [|n IH]; intros m l Hok Hp Hn Hm; [lia|]. destruct m as [|m]; [lia|].
  destruct (lex_round_spec l Hok Hp) as (l1 & t & tok & l' & Hs & Hrd & _ & _ & _ & _ & _ & Hcase).
  rewrite !(skip_round _ _ _ _ _ Hs Hrd). destruct Hcase as [(_ & -> & _)|(_ & txt & _ & _ & _ & Hok' & Hp' & _ & _ & Hlt)]; [done|].
  destruct (is_comment (kind tok)); [|done]. apply IH; [done|done|lia|lia].
Qed.

Lemma lex_all_mono fuel l toks : lex_all fuel l = Done toks -> lex_all (S fuel) l = Done toks.
Proof.
  revert l toks. induction fuel as [|fuel IH]; intros l toks H; [done|].
  change (lex_all (S (S fuel)) l) with (let! r := next_token l in match kind r.1 with Eof => Done [r.1] | _ => let! toks := lex_all (S fuel) r.2 in Done (r.1 :: toks) end).
  cbn [lex_all] in H. destruct (next_token l) as [[tok l']| | |]; try done. cbn [exec_bind fst snd] in *.
  assert (forall toks', (let! ts := lex_all fuel l' in Done (tok :: ts)) = Done toks' -> (let! ts := lex_all (S fuel) l' in Done (tok :: ts)) = Done toks') as Hrec.
  { intros toks' Hd. apply exec_bind_Done in Hd as (ts & Hts & Hd). by rewrite (IH _ _ Hts). }
  destruct (kind tok); try done; by apply Hrec.
Qed.

Definition keeps (tok : Lexeme) : bool := negb (is_comment (kind tok)).

Lemma lex_all_cons fuel l tok l' toks :
  next_token l = Done (tok, l') -> kind tok <> Eof -> lex_all fuel l' = Done toks -> lex_all (S fuel) l = Done (tok :: toks).
Proof. intros Hn Hk Ht. cbn [lex_all]. rewrite Hn. cbn [exec_bind fst snd]. rewrite Ht. by destruct (kind tok). Qed.

Lemma lex_all_skip fuel l toks :
  lexer_ok l -> positioned l -> skip_comments (options l) = false -> (length (rest l) < fuel)%nat ->
  lex_all fuel l = Done toks -> lex_all fuel (with_skip true l) = Done (List.filter keeps toks).
Proof.
  revert l toks. induction fuel as [|fuel IH]; intros l toks Hok Hp Ho Hf Hl; [lia|].
  destruct (lex_round_spec l Hok Hp) as (l1 & t & tok & l' & Hs & Hrd & Hr & _ & _ & Ho1 & _ & Hcase).
  assert (length (rest l) <= length (source l))%nat as Hlen by (pose proof (rest_fuel l (lexer_ok_in_source l Hok)); lia).
  assert (next_token (with_skip true l) = if is_comment (kind tok) then next_token_loop (length (source l)) (with_skip true l') else Done (tok, with_skip true l')) as Hn.
  { unfold next_token, lx_bind, lx_get. by apply (skip_round _ _ _ _ _ Hs Hrd). }
  destruct Hcase as [(_ & -> & ->)|(Hk & txt & _ & Hr1 & _ & Hok' & Hp' & Ho' & Hsrc' & Hlt)].
  - cbn [lex_all] in Hl |- *. rewrite (next_token_plain _ _ _ _ Hs Hrd) in Hl by (by rewrite Ho1). rewrite Hn. cbn in Hl |- *.
    by injection Hl as <-.
  - destruct (lex_all_plain fuel l' Hok' Hp' ltac:(by rewrite Ho') ltac:(lia)) as (toks' & Hl' & _).
    rewrite (lex_all_cons fuel l tok l' toks') in Hl; [|by apply (next_token_plain _ l1); [..|rewrite Ho']|done|done].
    injection Hl as <-. pose proof (IH l' toks' Hok' Hp' ltac:(by rewrite Ho') ltac:(lia) Hl') as Hskip. cbn [List.filter].
    unfold keeps at 1. destruct (is_comment (kind tok)); cbn [negb]; [|by apply (lex_all_cons _ _ tok (with_skip true l'))].
    destruct fuel as [|fuel]; [done|]. cbn [lex_all] in Hskip.
    assert (next_token (with_skip true l) = next_token (with_skip true l')) as Heq.
    { rewrite Hn. unfold next_token at 1, lx_bind, lx_get. apply skip_loop_fuel; [done|done|lia|cbn; rewrite Hsrc'; lia]. }
    change (lex_all (S (S fuel)) (with_skip true l)) with (let! r := next_token (with_skip true l) in match kind r.1 with Eof => Done [r.1] | _ => let! toks := lex_all (S fuel) r.2 in Done (r.1 :: toks) end).
    rewrite Heq. apply lex_all_mono. exact Hskip.
Qed.

(** An option of the lexer: skipping comments yields the same tokens, locations included,
    without the comments. *)
Theorem skip_comments_filters s names :
  valid_str s ->
  exists toks, lex_all (S (length s)) (with_options s (mkOptions false names)) = Done toks /\
    lex_all (S (length s)) (with_options s (mkOptions true names)) = Done (List.filter keeps toks).
Proof.
  intros Hs. set (o := mkOptions false names). destruct (start_ok s o Hs) as (Hok & Hp & _ & Hrest).
  assert (length (rest (with_options s o)) < S (length s))%nat as Hf by (rewrite Hrest; apply visible_length).
  destruct (lex_all_plain (S (length s)) (with_options s o) Hok Hp eq_refl Hf) as (toks & Hl & _).
  exists toks. split; [done|]. exact (lex_all_skip _ _ _ Hok Hp eq_refl Hf Hl).
Qed.

(** ** Kinds as strings *)

(** [TokenKind::from_str] inverts [as_upstream_str] on every kind the lexer produces, and
    accepts nothing but those spellings and single bytes. *)
Theorem token_kind_round_trip k source k' :
  (forall ch, k = Char ch -> 0 <= ch < 128) ->
  token_kind_from_str (as_upstream_str k) = Some k /\
  (token_kind_from_str source = Some k' -> (forall ch, k' = Char ch -> 0 <= ch < 128) -> as_upstream_str k' = source).
Proof.
  intros Hk. split.
  - destruct k; [|by vm_compute..]. cbn [as_upstream_str]. rewrite encode_utf8_1 by (by apply Hk). done.
  - intros H Hk'. unfold token_kind_from_str in H.
    assert (find_spelling token_kind_table source = Some k' -> as_upstream_str k' = source) as Htable.
    { intros Hf. apply find_spelling_Some in Hf as (n & Hin & <-). unfold token_kind_table in Hin.
      repeat (apply elem_of_cons in Hin as [[= -> ->]|Hin]; [done|]). by apply not_elem_of_nil in Hin. }
    destruct source as [|ch [|c2 s]]; [by apply Htable| |by apply Htable].
    injection H as <-. cbn [as_upstream_str]. rewrite encode_utf8_1 by (by apply Hk'). done.
Qed.

(** ** Examples *)

(** A source with a comment, an interpolated string, a long string and a character. *)
Definition sample_source : list Z := bytes_of "local s = `a{x}b` --c" ++ [10] ++ bytes_of "return [=[]]]=] .. " ++ [195; 169; 33].

Lemma sample_valid : valid_str sample_source.
Proof.
  split; [|done]. exists (bytes_of "local s = `a{x}b` --c" ++ [10] ++ bytes_of "return [=[]]]=] .. " ++ [233; 33]).
  split; [|by vm_compute]. apply Forall_forall. intros c Hc. vm_compute in Hc. repeat (destruct Hc as [<-|Hc]; [lia|]). done.
Qed.

Definition sample_kinds : list TokenKind :=
  [ReservedLocal; Name; Char 61; InterpStringBegin; Name; InterpStringEnd; Comment; ReservedReturn; RawString; Dot2;
   BrokenUnicode; Char 33; Eof].

Definition sample_tokens : list Lexeme :=
  match lex_all (S (length sample_source)) (Lexer_new sample_source) with Done toks => toks | _ => [] end.

Lemma sample_lexed : lex_all (S (length sample_source)) (with_options sample_source DEFAULT) = Done sample_tokens.
Proof. by vm_compute. Qed.

Lemma lexer_tiles_source_witness :
  (exists toks, lex_all (S (length sample_source)) (with_options sample_source DEFAULT) = Done toks /\
    tokens_of DEFAULT [] (visible_bytes (with_options sample_source DEFAULT)) toks) /\
  map kind sample_tokens = sample_kinds.
Proof. split; [exact (lexer_tiles_source sample_source DEFAULT sample_valid eq_refl)|by vm_compute]. Defined.

(** The long string of the sample. *)
Definition sample_long : Lexeme := default (Lexeme_new Eof (mkLoc missing missing) "<eof>") (sample_tokens !! 8%nat).

Lemma sample_long_in : sample_long ∈ sample_tokens.
Proof. apply (list_elem_of_lookup_2 _ 8). by vm_compute. Qed.

Lemma token_locations_exact_witness :
  (exists a b, byte_range (location sample_long) sample_source = Some (a, b) /\
    forall sp, spell sample_long = Some sp -> take (Z.to_nat (b - a)) (drop (Z.to_nat a) sample_source) = sp) /\
  spell sample_long = Some (bytes_of "[=[]]]=]").
Proof.
  split; [|by vm_compute].
  exact (token_locations_exact sample_source DEFAULT sample_tokens sample_long sample_valid eq_refl sample_lexed sample_long_in).
Defined.

Lemma skip_comments_filters_witness :
  exists toks, lex_all (S (length sample_source)) (with_options sample_source (mkOptions false true)) = Done toks /\
    lex_all (S (length sample_source)) (with_options sample_source (mkOptions true true)) = Done (List.filter keeps toks).
Proof. exact (skip_comments_filters sample_source true sample_valid). Defined.

Lemma token_kind_round_trip_witness :
  token_kind_from_str (as_upstream_str (Char 43)) = Some (Char 43) /\
  (token_kind_from_str (bytes_of "Dot3") = Some Dot3 -> (forall ch, Dot3 = Char ch -> 0 <= ch < 128) -> as_upstream_str Dot3 = bytes_of "Dot3").
Proof.
  apply (token_kind_round_trip (Char 43) (bytes_of "Dot3") Dot3). intros ch H. injection H as <-. lia.
Defined.
