(* ===== verification/Literal.v ===== *)
(** * Literal: string and integer literals

    Model of [render_string_literal] ([ruau-syntax/src/literal.rs]) and of the literal decoding
    of [ruau-syntax/src/parser/common.rs]: escapes of quoted strings, line ends of long strings,
    code points, integer literals and the check of number spellings. Loops over the text take
    fuel; a slice index out of range is [Crash]. *)

From Stdlib Require Import ZArith Lia.
From stdpp Require Import base numbers list strings option.
From S2P Require Import Prelude RustExec Builder AstString Location Lexer.

(** ** Rendering *)

(** [char::is_control]: general category Cc. *)
Definition is_control (c : Z) : bool := between 0 31 c || between 127 159 c.

(** [{:x}] of a [u32], which has at most eight digits. *)
Fixpoint lower_hex_digits (fuel : nat) (n : Z) : list Z :=
  match fuel with
  | O => []
  | S fuel' => (if n <? 16 then [] else lower_hex_digits fuel' (n / 16)) ++ [hex_char (n mod 16)]
  end.
Definition lower_hex (n : Z) : list Z := lower_hex_digits 8 n.

Definition render_char (character : Z) : list Z :=
  if character =? 92 then [92; 92]
  else if character =? 34 then [92; 34]
  else if character =? 10 then [92; 110]
  else if character =? 13 then [92; 114]
  else if character =? 9 then [92; 116]
  else if is_control character || negb (character <? 128) then [92; 117; 123] ++ lower_hex character ++ [125]
  else [character].

(** The output is ASCII, so its characters are its bytes. *)
Definition render_string_literal (value : list Z) : list Z :=
  [34] ++ concat (map render_char value) ++ [34].

(** ** Code points and digits *)

Definition hex_value (byte : Z) : option Z :=
  if between 48 57 byte then Some (byte - 48)
  else if between 97 102 byte then Some (byte - 97 + 10)
  else if between 65 70 byte then Some (byte - 65 + 10)
  else None.

Definition is_luau_space (byte : Z) : bool :=
  (byte =? 32) || (byte =? 10) || (byte =? 13) || (byte =? 9) || (byte =? 11) || (byte =? 12).

Definition unescape_luau_byte (byte : Z) : Z :=
  if byte =? 97 then 7
  else if byte =? 98 then 8
  else if byte =? 102 then 12
  else if byte =? 110 then 10
  else if byte =? 114 then 13
  else if byte =? 116 then 9
  else if byte =? 118 then 11
  else byte.

(** The bytes pushed onto [output]. *)
Definition encode_luau_codepoint (code : Z) : option (list Z) :=
  if code <=? 127 then Some [as_u8 code]
  else if code <=? 2047 then
    Some [Z.lor 192 (as_u8 (Z.shiftr code 6)); Z.lor 128 (as_u8 (Z.land code 63))]
  else if code <=? 65535 then
    Some [Z.lor 224 (as_u8 (Z.shiftr code 12)); Z.lor 128 (as_u8 (Z.land (Z.shiftr code 6) 63));
          Z.lor 128 (as_u8 (Z.land code 63))]
  else if code <=? 1114111 then
    Some [Z.lor 240 (as_u8 (Z.shiftr code 18)); Z.lor 128 (as_u8 (Z.land (Z.shiftr code 12) 63));
          Z.lor 128 (as_u8 (Z.land (Z.shiftr code 6) 63)); Z.lor 128 (as_u8 (Z.land code 63))]
  else None.

(** ** Quoted strings *)

(** The loop of a [\z] escape. *)
Fixpoint skip_spaces (fuel : nat) (data : list Z) (index : Z) : Exec Z :=
  match fuel with
  | O => Diverge
  | S fuel' => if is_some_and (zget data index) is_luau_space then skip_spaces fuel' data (index + 1) else Done index
  end.

(** The loop over at most sixteen digits of a [\u] escape, with the code and the index after. *)
Fixpoint unicode_digits (rounds : nat) (data : list Z) (code index : Z) : option (Z * Z) :=
  match rounds with
  | O => Some (code, index)
  | S rounds' =>
      byte ← zget data index;
      if byte =? 125 then Some (code, index)
      else
        code ← u32_try_from (code * 16);
        digit ← hex_value byte;
        code ← u32_try_from (code + digit);
        unicode_digits rounds' data code (index + 1)
  end.

(** The loop over two further digits of a decimal escape. *)
Fixpoint decimal_digits (rounds : nat) (data : list Z) (code index : Z) : Z * Z :=
  match rounds with
  | O => (code, index)
  | S rounds' =>
      match zget data index with
      | None => (code, index)
      | Some byte =>
          if is_ascii_digit byte then decimal_digits rounds' data (code * 10 + (byte - 48)) (index + 1)
          else (code, index)
      end
  end.

Definition unicode_escape (data : list Z) (index : Z) : option (Z * list Z) :=
  if negb (is_byte (zget data index) 123) then None
  else
    let index := index + 1 in
    if is_byte (zget data index) 125 then None
    else
      '(code, index) ← unicode_digits 16 data 0 index;
      if negb (is_byte (zget data index) 125) then None
      else
        bytes ← encode_luau_codepoint code;
        Some (index + 1, bytes).

Definition decimal_escape (data : list Z) (escape index : Z) : option (Z * list Z) :=
  let '(code, index) := decimal_digits 2 data (escape - 48) index in
  if 255 <? code then None else Some (index, [as_u8 code]).

(** The [match escape]: the index after the escape and the bytes it pushes. *)
Definition fixup_escape (data : list Z) (escape index : Z) : Exec (option (Z * list Z)) :=
  if escape =? 10 then Done (Some (index, [10]))
  else if escape =? 13 then
    Done (Some (if is_byte (zget data index) 10 then index + 1 else index, [10]))
  else if escape =? 0 then Done None
  else if escape =? 120 then
    Done (high ← (zget data index ≫= hex_value);
          low ← (zget data (index + 1) ≫= hex_value);
          Some (index + 2, [high * 16 + low]))
  else if escape =? 122 then
    let! index := skip_spaces (S (length data)) data index in Done (Some (index, []))
  else if escape =? 117 then Done (unicode_escape data index)
  else if between 48 57 escape then Done (decimal_escape data escape index)
  else Done (Some (index, [unescape_luau_byte escape])).

Fixpoint fixup_quoted_loop (fuel : nat) (data : list Z) (i : Z) (output : list Z) : Exec (option (list Z)) :=
  match fuel with
  | O => Diverge
  | S fuel' =>
      if i <? len data then
        let! byte := index data i in
        if negb (byte =? 92) then fixup_quoted_loop fuel' data (i + 1) (output ++ [byte])
        else
          match zget data (i + 1) with
          | None => Done None
          | Some escape =>
              let! step := fixup_escape data escape (i + 2) in
              match step with
              | None => Done None
              | Some (i, bytes) => fixup_quoted_loop fuel' data i (output ++ bytes)
              end
          end
      else Done (Some output)
  end.

Definition fixup_quoted_string_bytes (data : list Z) : Exec (option (list Z)) :=
  fixup_quoted_loop (S (length data)) data 0 [].

(** ** Long strings *)

Fixpoint fixup_multiline_loop (fuel : nat) (data : list Z) (i : Z) (output : list Z) : Exec (list Z) :=
  match fuel with
  | O => Diverge
  | S fuel' =>
      if i <? len data then
        if is_byte (zget data i) 13 && is_byte (zget data (i + 1)) 10 then
          fixup_multiline_loop fuel' data (i + 2) (output ++ [10])
        else
          let! byte := index data i in
          fixup_multiline_loop fuel' data (i + 1) (output ++ [byte])
      else Done output
  end.

Definition fixup_multiline_string_bytes (data : list Z) : Exec (list Z) :=
  let start := match data with 13 :: 10 :: _ => 2 | 10 :: _ => 1 | _ => 0 end in
  fixup_multiline_loop (S (length data)) data start [].

(** ** Tokens *)

Definition string_value_from_token_text (token : Lexeme) : Exec (option (list Z)) :=
  let txt := default [] (text token) in
  match kind token with
  | QuotedString | InterpStringBegin | InterpStringMid | InterpStringEnd | InterpStringSimple =>
      let! bytes := fixup_quoted_string_bytes txt in Done (ast_string_from_bytes <$> bytes)
  | RawString => let! bytes := fixup_multiline_string_bytes txt in Done (Some (ast_string_from_bytes bytes))
  | _ => Done None
  end.

(** [u32::saturating_add], and [begin.column + 1] with the wrap-around of a release build. *)
Fixpoint escape_location_loop (fuel : nat) (token : Lexeme) (bytes : list Z) (i : Z) : Exec (option Location) :=
  match fuel with
  | O => Diverge
  | S fuel' =>
      if i + 1 <? len bytes then
        let! byte := index bytes i in
        if negb (byte =? 92) then escape_location_loop fuel' token bytes (i + 1)
        else
          let! escape := index bytes (i + 1) in
          if escape =? 48 then
            let column_offset := default U32_MAX (u32_try_from (i + 1)) in
            let start := loc_begin (location token) in
            let b := mkPos (line start) (Z.min U32_MAX (column start + column_offset)) in
            let e := mkPos (line b) (as_u32 (column b + 1)) in
            Done (Some (mkLoc b e))
          else escape_location_loop fuel' token bytes (i + 2)
      else Done None
  end.

Definition malformed_string_escape_location (token : Lexeme) : Exec (option Location) :=
  match text token with
  | None => Done None
  | Some bytes => escape_location_loop (S (length bytes)) token bytes 0
  end.

(** ** Numbers *)

(** [text.replace('_', "")] *)
Definition without_underscores (s : list Z) : list Z := List.filter (fun b => negb (b =? 95)) s.

Definition strip_suffix2 (a b : Z) (s : list Z) : option (list Z) :=
  match list.last s with
  | Some c => if (c =? a) || (c =? b) then Some (removelast s) else None
  | None => None
  end.

(** [s.strip_prefix("0b").or_else(|| s.strip_prefix("0B"))] *)
Definition strip_radix (lower upper : Z) (s : list Z) : option (list Z) :=
  match s with
  | 48 :: c :: s' => if (c =? lower) || (c =? upper) then Some s' else None
  | _ => None
  end.

(** [char::to_digit] of an ASCII character. *)
Definition to_digit (radix ch : Z) : option Z :=
  d ← hex_value ch; if d <? radix then Some d else None.

(** The digit loops of [u64::from_str_radix] and of [str::parse::<i64>]: an accumulator that must
    stay within [lo] and [hi] at every digit, each contributing with the sign. *)
Fixpoint from_digits (radix sign lo hi acc : Z) (s : list Z) : option Z :=
  match s with
  | [] => Some acc
  | ch :: s' =>
      d ← to_digit radix ch;
      let acc := acc * radix in
      if negb ((lo <=? acc) && (acc <=? hi)) then None
      else
        let acc := acc + sign * d in
        if negb ((lo <=? acc) && (acc <=? hi)) then None else from_digits radix sign lo hi acc s'
  end.

Definition u64_from_str_radix (s : list Z) (radix : Z) : option Z :=
  match s with
  | [] | [43] | [45] => None
  | 43 :: s' => from_digits radix 1 0 18446744073709551615 0 s'
  | _ => from_digits radix 1 0 18446744073709551615 0 s
  end.

Definition i64_parse (s : list Z) : option Z :=
  let lo := -9223372036854775808 in
  let hi := 9223372036854775807 in
  match s with
  | [] | [43] | [45] => None
  | 43 :: s' => from_digits 10 1 lo hi 0 s'
  | 45 :: s' => from_digits 10 (-1) lo hi 0 s'
  | _ => from_digits 10 1 lo hi 0 s
  end.

Definition parse_integer_literal (txt : list Z) : option Z :=
  let cleaned := without_underscores txt in
  literal ← strip_suffix2 105 73 cleaned;
  match strip_radix 98 66 literal with
  | Some binary => as_i64 <$> u64_from_str_radix binary 2
  | None =>
      match strip_radix 120 88 literal with
      | Some hex => as_i64 <$> u64_from_str_radix hex 16
      | None => i64_parse literal
      end
  end.

(** The grammar of [str::parse::<f64>]: a sign, then [inf], [infinity] or [nan] in any case, or
    digits with a point among or beside them and an exponent. *)
Definition to_ascii_lowercase (b : Z) : Z := if is_ascii_uppercase b then b + 32 else b.

Fixpoint drop_digits (s : list Z) : list Z :=
  match s with b :: s' => if is_ascii_digit b then drop_digits s' else s | [] => [] end.

Definition drop_sign (s : list Z) : list Z := match s with 43 :: s' | 45 :: s' => s' | _ => s end.

Definition f64_exponent (s : list Z) : bool :=
  match s with
  | [] => true
  | e :: s' =>
      ((e =? 101) || (e =? 69)) &&
      let s' := drop_sign s' in
      negb (bool_decide (s' = [])) && bool_decide (drop_digits s' = [])
  end.

Definition f64_number (s : list Z) : bool :=
  let whole := drop_digits s in
  let has_whole := negb (bool_decide (length whole = length s)) in
  match whole with
  | 46 :: s' =>
      let after := drop_digits s' in
      (has_whole || negb (bool_decide (length after = length s'))) && f64_exponent after
  | _ => has_whole && f64_exponent whole
  end.

Definition f64_parses (s : list Z) : bool :=
  let s := drop_sign s in
  f64_number s || bool_decide (map to_ascii_lowercase s ∈ [bytes_of "inf"; bytes_of "infinity"; bytes_of "nan"]).

Definition number_literal_is_malformed (txt : list Z) : bool :=
  let cleaned := without_underscores txt in
  match cleaned with
  | [] => true
  | _ =>
      if is_some_and (list.last cleaned) (fun c => (c =? 105) || (c =? 73)) then true
      else
        match strip_radix 98 66 cleaned with
        | Some binary => bool_decide (binary = []) || negb (forallb (fun b => (b =? 48) || (b =? 49)) binary)
        | None =>
            match strip_radix 120 88 cleaned with
            | Some hex => bool_decide (hex = []) || negb (forallb is_ascii_hexdigit hex)
            | None => negb (f64_parses cleaned)
            end
        end
  end.
