(* ===== verification/LiteralFacts.v ===== *)
(** * LiteralFacts: what escapes stand for

    [Escape] is the meaning of one escape sequence and [Unescape] that of the text of a quoted
    string; the decoder [fixup_quoted_string_bytes] computes exactly these relations, and the
    renderer's output lies in them. *)

From Stdlib Require Import ZArith Lia.
From stdpp Require Import base numbers list strings option.
From S2P Require Import Prelude RustExec Builder AstString Location Lexer LexerSpec LexerFacts Literal.

(** ** The meaning of escapes *)

Definition is_hex (b : Z) : bool := bool_decide (is_Some (hex_value b)).

(** The number written by digits after those of [acc]. *)
Definition digits_from (radix acc : Z) (ds : list Z) : Z :=
  foldl (fun a b => a * radix + default 0 (hex_value b)) acc ds.
Definition digits_value (radix : Z) (ds : list Z) : Z := digits_from radix 0 ds.

Definition starts_with (p : Z -> bool) (s : list Z) : bool := match s with b :: _ => p b | [] => false end.

(** The bytes that start an escape of their own kind. *)
Definition escape_kind (b : Z) : bool :=
  (b =? 10) || (b =? 13) || (b =? 0) || (b =? 120) || (b =? 122) || (b =? 117) || between 48 57 b.

(** The letters that stand for a control character: [abfnrtv] in the order of the C escapes. Every
    other byte stands for itself. *)
Definition control_escapes : list (Z * Z) := [(97, 7); (98, 8); (102, 12); (110, 10); (114, 13); (116, 9); (118, 11)].
Definition escape_meaning (b : Z) : Z := foldr (fun e other => if e.1 =? b then e.2 else other) b control_escapes.

Lemma unescape_byte_meaning b : unescape_luau_byte b = escape_meaning b.
Proof. unfold unescape_luau_byte, escape_meaning. cbn [foldr control_escapes fst snd]. by rewrite !(Z.eqb_sym b). Qed.

(** [Escape t after bytes]: after a backslash, and before [after], the text [t] stands for the
    bytes. White space and decimal digits are taken as far as they go. *)
Inductive Escape : list Z -> list Z -> list Z -> Prop :=
| Escape_newline after : Escape [10] after [10]
| Escape_crlf after : Escape [13; 10] after [10]
| Escape_cr after : starts_with (Z.eqb 10) after = false -> Escape [13] after [10]
| Escape_hex h l high low after :
    hex_value h = Some high -> hex_value l = Some low -> Escape [120; h; l] after [high * 16 + low]
| Escape_space spaces after :
    Forall (fun b => is_luau_space b = true) spaces -> starts_with is_luau_space after = false ->
    Escape (122 :: spaces) after []
| Escape_unicode ds after :
    ds <> [] -> (length ds <= 16)%nat -> Forall (fun b => is_hex b = true) ds -> digits_value 16 ds <= 1114111 ->
    Escape (117 :: 123 :: ds ++ [125]) after (encode_utf8 (digits_value 16 ds))
| Escape_decimal d ds after :
    is_ascii_digit d = true -> Forall (fun b => is_ascii_digit b = true) ds -> (length ds <= 2)%nat ->
    (length ds = 2%nat \/ starts_with is_ascii_digit after = false) -> digits_value 10 (d :: ds) <= 255 ->
    Escape (d :: ds) after [digits_value 10 (d :: ds)]
| Escape_byte b after : escape_kind b = false -> Escape [b] after [escape_meaning b].

(** The bytes a string text stands for. *)
Inductive Unescape : list Z -> list Z -> Prop :=
| Unescape_nil : Unescape [] []
| Unescape_plain b s out : b <> 92 -> Unescape s out -> Unescape (b :: s) (b :: out)
| Unescape_escape t after bytes out :
    Escape t after bytes -> Unescape after out -> Unescape (92 :: t ++ after) (bytes ++ out).

(** ** Positions in the text *)

(** From the index on, [data] reads [s]. *)
Definition ahead (data : list Z) (i : Z) (s : list Z) : Prop := 0 <= i /\ drop (Z.to_nat i) data = s.

Lemma ahead_get data i s : ahead data i s -> zget data i = head s.
Proof.
  intros [Hi <-]. unfold zget. rewrite (proj2 (Z.ltb_ge i 0)) by done. rewrite <- (Nat.add_0_r (Z.to_nat i)) at 1.
  rewrite <- lookup_drop. by destruct (drop _ data).
Qed.

Lemma ahead_app data i t s : ahead data i (t ++ s) -> ahead data (i + len t) s.
Proof.
  intros [Hi Hd]. unfold len. split; [lia|]. rewrite Z2Nat.inj_add, Nat2Z.id by lia. rewrite <- drop_drop, Hd.
  by rewrite drop_app_length.
Qed.

Lemma ahead_next data i b s : ahead data i (b :: s) -> ahead data (i + 1) s.
Proof. apply (ahead_app data i [b] s). Qed.

Lemma ahead_len data i s : ahead data i s -> i <= len data -> i + len s = len data.
Proof. intros [Hi <-] Hle. unfold len in *. rewrite length_drop. lia. Qed.

(** Running lookups at a known place. *)
Ltac look H := rewrite ?(ahead_get _ _ _ H); cbn [head is_byte is_some_and].

Lemma prefix_run_app p t s :
  Forall (fun b => p b = true) t -> starts_with p s = false -> prefix_run p (t ++ s) = length t.
Proof. induction 1 as [|b t Hb _ IH]; intros Hs; cbn; [destruct s; [done|cbn in *; by rewrite Hs]|]. by rewrite Hb, IH. Qed.

Lemma run_split p s : exists t after, s = t ++ after /\ Forall (fun b => p b = true) t /\ starts_with p after = false.
Proof.
  destruct (prefix_run_spec p s) as (_ & H1 & H2). exists (take (prefix_run p s) s), (drop (prefix_run p s) s).
  split; [by rewrite take_drop|]. split; [done|]. by destruct (drop _ s).
Qed.

(** ** Digits *)

Lemma hex_value_range b d : hex_value b = Some d -> 0 <= d < 16.
Proof. unfold hex_value, between. repeat case_match; intros [= <-]; lia. Qed.

Lemma digit_hex_value b : is_ascii_digit b = true -> hex_value b = Some (b - 48).
Proof. unfold is_ascii_digit, hex_value. by intros ->. Qed.

Lemma is_hex_value b : is_hex b = true -> hex_value b = Some (default 0 (hex_value b)).
Proof. intros [d ->]%bool_decide_eq_true. done. Qed.

Lemma digits_from_le acc ds : 0 <= acc -> acc <= digits_from 16 acc ds.
Proof.
  revert acc. induction ds as [|d ds IH]; intros acc Hacc; [done|]. unfold digits_from in *. cbn.
  assert (0 <= default 0 (hex_value d)) by (destruct (hex_value d) eqn:E; cbn; [apply hex_value_range in E|]; lia).
  etransitivity; [|apply IH]; lia.
Qed.

Lemma u32_try_from_Some x : 0 <= x < 4294967296 -> u32_try_from x = Some x.
Proof. intros H. unfold u32_try_from. by rewrite (proj2 (Z.leb_le 0 x)), (proj2 (Z.ltb_lt x _)) by lia. Qed.

Lemma u32_try_from_inv x y : u32_try_from x = Some y -> y = x /\ 0 <= x < 4294967296.
Proof. unfold u32_try_from. case_match; [intros [= <-]|done]. lia. Qed.

(** ** Code points *)

Lemma as_u8_lor x : as_u8 (Z.land x 63) = Z.land x 63.
Proof. apply as_u8_small. change 63 with (Z.ones 6). rewrite Z.land_ones by lia. unfold is_u8. pose proof (Z.mod_pos_bound x (2 ^ 6)). lia. Qed.

Lemma as_u8_shiftr x n : 0 <= n -> 0 <= x < 256 * 2 ^ n -> as_u8 (Z.shiftr x n) = Z.shiftr x n.
Proof.
  intros Hn Hx. apply as_u8_small. rewrite Z.shiftr_div_pow2 by done. pose proof (Z.pow_pos_nonneg 2 n ltac:(lia) Hn).
  split; [apply Z.div_pos; lia|]. apply Z.div_lt_upper_bound; lia.
Qed.

Lemma encode_luau_codepoint_spec code :
  0 <= code -> encode_luau_codepoint code = if code <=? 1114111 then Some (encode_utf8 code) else None.
Proof.
  intros H. unfold encode_luau_codepoint, encode_utf8. rewrite !as_u8_lor.
  destruct (Z.leb_spec code 127); [rewrite (proj2 (Z.leb_le code _)), (proj2 (Z.ltb_lt code _)), as_u8_small by (unfold is_u8; lia); done|].
  rewrite (proj2 (Z.ltb_ge code 128)) by lia.
  destruct (Z.leb_spec code 2047).
  { rewrite (proj2 (Z.leb_le code _)), (proj2 (Z.ltb_lt code 2048)), as_u8_shiftr by lia. done. }
  rewrite (proj2 (Z.ltb_ge code 2048)) by lia.
  destruct (Z.leb_spec code 65535).
  { rewrite (proj2 (Z.leb_le code _)), (proj2 (Z.ltb_lt code 65536)), as_u8_shiftr by lia. done. }
  rewrite (proj2 (Z.ltb_ge code 65536)) by lia.
  destruct (Z.leb_spec code 1114111); [|done]. rewrite as_u8_shiftr by lia. done.
Qed.

(** ** The loops *)

Ltac nolen := change (@len Z []) with 0; lia.

Lemma skip_spaces_spec fuel data i t s :
  ahead data i (t ++ s) -> Forall (fun b => is_luau_space b = true) t -> starts_with is_luau_space s = false ->
  (length t < fuel)%nat -> skip_spaces fuel data i = Done (i + len t).
Proof.
  revert i t. induction fuel as [|fuel IH]; intros i t Ha Ht Hs Hf; [lia|]. cbn [skip_spaces]. look Ha.
  destruct Ht as [|b t Hb Ht]; cbn [app head is_some_and].
  - assert (is_some_and (head s) is_luau_space = false) as -> by (by destruct s). f_equal. nolen.
  - rewrite Hb. apply ahead_next in Ha. rewrite (IH _ t Ha Ht Hs) by (cbn in Hf; lia). rewrite len_cons. f_equal. lia.
Qed.

Lemma unicode_digits_complete n data code i ds after :
  ahead data i (ds ++ 125 :: after) -> 0 <= code -> (length ds <= n)%nat -> Forall (fun b => is_hex b = true) ds ->
  digits_from 16 code ds < 4294967296 ->
  unicode_digits n data code i = Some (digits_from 16 code ds, i + len ds).
Proof.
  revert code i ds. induction n as [|n IH]; intros code i ds Ha Hcode Hlen Hhex Hmax; cbn [unicode_digits].
  { destruct ds; [|cbn in Hlen; lia]. do 2 f_equal. nolen. }
  look Ha. destruct Hhex as [|b ds Hb Hds]; cbn [app head option_bind mbind].
  - do 2 f_equal. nolen.
  - destruct (Z.eqb_spec b 125) as [->|_]; [by vm_compute in Hb|].
    pose proof (is_hex_value b Hb) as Hv. pose proof (hex_value_range b _ Hv).
    change (digits_from 16 code (b :: ds)) with (digits_from 16 (code * 16 + default 0 (hex_value b)) ds) in *.
    pose proof (digits_from_le (code * 16 + default 0 (hex_value b)) ds ltac:(lia)).
    rewrite u32_try_from_Some by lia. cbn [mbind option_bind]. rewrite Hv at 1. cbn [mbind option_bind].
    rewrite u32_try_from_Some by lia. cbn [mbind option_bind].
    apply ahead_next in Ha. rewrite (IH _ _ ds Ha) by (done || cbn in Hlen; lia). rewrite len_cons. do 2 f_equal. lia.
Qed.

Lemma unicode_digits_sound n data code i s c j :
  ahead data i s -> unicode_digits n data code i = Some (c, j) ->
  exists ds after, s = ds ++ after /\ j = i + len ds /\ (length ds <= n)%nat /\ Forall (fun b => is_hex b = true) ds /\
    c = digits_from 16 code ds.
Proof.
  revert code i s. induction n as [|n IH]; intros code i s Ha H; cbn [unicode_digits] in H.
  { injection H as <- <-. exists [], s. repeat split; [nolen|done|constructor]. }
  rewrite (ahead_get _ _ _ Ha) in H. destruct s as [|b s]; [done|]. cbn in H. destruct (Z.eqb_spec b 125) as [->|].
  { injection H as <- <-. exists [], (125 :: s). repeat split; [nolen|cbn; lia|constructor]. }
  apply bind_Some in H as (x & Hx & H). apply u32_try_from_inv in Hx as [-> _].
  apply bind_Some in H as (d & Hd & H). apply bind_Some in H as (y & Hy & H). apply u32_try_from_inv in Hy as [-> _].
  apply ahead_next in Ha. destruct (IH _ _ s Ha H) as (ds & after & -> & -> & Hlen & Hhex & ->).
  exists (b :: ds), after. split; [done|]. split; [rewrite len_cons; lia|]. split; [cbn; lia|]. split.
  - constructor; [|done]. apply bool_decide_eq_true. by eexists.
  - unfold digits_from. cbn. by rewrite Hd.
Qed.

Lemma decimal_digits_spec n data code i ds after :
  ahead data i (ds ++ after) -> Forall (fun b => is_ascii_digit b = true) ds -> (length ds <= n)%nat ->
  (length ds = n \/ starts_with is_ascii_digit after = false) ->
  decimal_digits n data code i = (digits_from 10 code ds, i + len ds).
Proof.
  revert code i ds. induction n as [|n IH]; intros code i ds Ha Hds Hlen Hend; cbn [decimal_digits].
  { destruct ds; [|cbn in Hlen; lia]. f_equal. nolen. }
  look Ha. destruct Hds as [|b ds Hb Hds]; cbn [app head].
  - assert (starts_with is_ascii_digit after = false) as Hs by (by destruct Hend). destruct after as [|a after]; cbn [head].
    + f_equal. nolen.
    + cbn in Hs. rewrite Hs. f_equal. nolen.
  - rewrite Hb. apply ahead_next in Ha. rewrite (IH _ _ ds Ha) by (done || (cbn in *; lia) || (destruct Hend; [left; cbn in *; lia|by right])).
    change (digits_from 10 code (b :: ds)) with (digits_from 10 (code * 10 + default 0 (hex_value b)) ds).
    rewrite digit_hex_value by done. rewrite len_cons. f_equal. lia.
Qed.

(** ** One escape *)

(** The kinds of escapes, in the order of the code's [match]. *)
Lemma escape_kind_false b :
  escape_kind b = false -> b <> 10 /\ b <> 13 /\ b <> 0 /\ b <> 120 /\ b <> 122 /\ b <> 117 /\ between 48 57 b = false.
Proof. unfold escape_kind. destruct (between 48 57 b); lia. Qed.

Lemma digit_first b : is_ascii_digit b = true -> b <> 10 /\ b <> 13 /\ b <> 0 /\ b <> 120 /\ b <> 122 /\ b <> 117.
Proof. unfold is_ascii_digit, between. lia. Qed.

(** Deciding the tests of a byte against fixed ones. *)
Ltac decide_kind := repeat (rewrite (proj2 (Z.eqb_neq _ _)) by (done || lia)).

Lemma decimal_value d ds :
  is_ascii_digit d = true -> digits_value 10 (d :: ds) = digits_from 10 (d - 48) ds.
Proof. intros Hd. unfold digits_value, digits_from. cbn. by rewrite digit_hex_value. Qed.

Lemma digits_nonneg d ds :
  is_ascii_digit d = true -> Forall (fun b => is_ascii_digit b = true) ds -> 0 <= digits_value 10 (d :: ds).
Proof.
  intros Hd Hds. rewrite decimal_value by done. assert (0 <= d - 48) as H by (unfold is_ascii_digit, between in Hd; lia).
  revert H. generalize (d - 48). induction Hds as [|b ds Hb _ IH]; intros a Ha; [done|]. apply (IH (a * 10 + _)).
  rewrite digit_hex_value by done. unfold is_ascii_digit, between in Hb. cbn. lia.
Qed.

Lemma fixup_escape_complete data i e t after bytes :
  ahead data i (t ++ after) -> Escape (e :: t) after bytes ->
  fixup_escape data e i = Done (Some (i + len t, bytes)).
Proof.
  intros Ha He. unfold fixup_escape. remember (e :: t) as x eqn:Ex.
  destruct He as [after|after|after Hcr|h l high low after Hh Hl|spaces after Hsp Hend|ds after Hne Hlen Hhex Hmax
    |d ds after Hd Hds Hlen Hend Hmax|b after Hb]; injection Ex as <- <-; cbn [app] in Ha.
  - do 3 f_equal. nolen.
  - cbn [Z.eqb Pos.eqb]. look Ha. done.
  - cbn [Z.eqb Pos.eqb]. look Ha. assert (is_byte (head after) 10 = false) as ->; [|do 3 f_equal; nolen].
    destruct after as [|a after]; [done|]. cbn [starts_with head is_byte] in *. by rewrite Z.eqb_sym.
  - cbn [Z.eqb Pos.eqb]. look Ha. cbn [mbind option_bind]. rewrite Hh. cbn [mbind option_bind].
    apply ahead_next in Ha. look Ha. cbn [mbind option_bind]. rewrite Hl. done.
  - cbn [Z.eqb Pos.eqb]. rewrite (skip_spaces_spec _ _ _ spaces after Ha); [done|done|done|].
    destruct Ha as [_ Ha]. apply (f_equal length) in Ha. rewrite length_drop, length_app in Ha. lia.
  - cbn [Z.eqb Pos.eqb]. unfold unicode_escape. look Ha. cbn [negb Z.eqb Pos.eqb]. apply ahead_next in Ha.
    rewrite <- app_assoc in Ha. cbn [app] in Ha. look Ha. assert (is_byte (head (ds ++ 125 :: after)) 125 = false) as ->.
    { destruct Hhex as [|b ds Hb _]; [done|]. cbn. apply Z.eqb_neq. by intros ->. }
    pose proof (digits_from_le 0 ds (Z.le_refl 0)).
    rewrite (unicode_digits_complete 16 data 0 (i + 1) ds after) by (done || (unfold digits_value in *; lia)).
    cbn [mbind option_bind]. pose proof (ahead_app _ _ _ _ Ha) as Hb. look Hb. cbn [negb Z.eqb Pos.eqb].
    rewrite encode_luau_codepoint_spec by done. fold (digits_value 16 ds). rewrite (proj2 (Z.leb_le _ _)) by done.
    cbn [mbind option_bind]. do 3 f_equal. rewrite len_cons, len_app. change (len [125]) with 1. lia.
  - destruct (digit_first d Hd) as (? & ? & ? & ? & ? & ?). decide_kind. unfold is_ascii_digit in Hd. rewrite Hd.
    unfold decimal_escape. rewrite (decimal_digits_spec 2 _ _ _ ds after Ha) by done.
    pose proof (digits_nonneg d ds Hd Hds). rewrite decimal_value in * by done. rewrite (proj2 (Z.ltb_ge _ _)) by done.
    rewrite as_u8_small by (unfold is_u8; lia). done.
  - destruct (escape_kind_false _ Hb) as (? & ? & ? & ? & ? & ? & Hd). decide_kind. rewrite Hd, unescape_byte_meaning. do 3 f_equal. nolen.
Qed.

Lemma is_byte_head (s : list Z) b : is_byte (head s) b = true -> exists s', s = b :: s'.
Proof. destruct s as [|a s]; cbn; [done|]. intros ->%Z.eqb_eq. by eexists. Qed.

(** What a successful escape has read. *)
Definition escaped (i : Z) (e : Z) (s : list Z) (r : option (Z * list Z)) : Prop :=
  forall j bytes, r = Some (j, bytes) -> exists t after, s = t ++ after /\ j = i + len t /\ Escape (e :: t) after bytes.

Lemma hex_escape_sound data i s :
  ahead data i s ->
  escaped i 120 s (high ← (zget data i ≫= hex_value); low ← (zget data (i + 1) ≫= hex_value); Some (i + 2, [high * 16 + low])).
Proof.
  intros Ha j bytes H. rewrite (ahead_get _ _ _ Ha) in H. destruct s as [|h s]; [done|]. apply bind_Some in H as (high & Hh & H).
  rewrite (ahead_get _ _ _ (ahead_next _ _ _ _ Ha)) in H. destruct s as [|l s]; [done|]. apply bind_Some in H as (low & Hl & H).
  injection H as <- <-. exists [h; l], s. split; [done|]. split; [done|]. by apply Escape_hex.
Qed.

Lemma unicode_escape_sound data i s : ahead data i s -> escaped i 117 s (unicode_escape data i).
Proof.
  intros Ha j bytes H. unfold unicode_escape in H. rewrite (ahead_get _ _ _ Ha) in H.
  destruct (is_byte (head s) 123) eqn:E1; [|done]. apply is_byte_head in E1 as [s1 ->]. cbn [negb] in H. cbv zeta in H.
  apply ahead_next in Ha. rewrite (ahead_get _ _ _ Ha) in H. destruct (is_byte (head s1) 125) eqn:E2; [done|].
  apply bind_Some in H as ([c k] & Hu & H). destruct (unicode_digits_sound _ _ _ _ _ _ _ Ha Hu) as (ds & rest & -> & -> & Hlen & Hhex & ->).
  apply ahead_app in Ha. rewrite (ahead_get _ _ _ Ha) in H. destruct (is_byte (head rest) 125) eqn:E3; [|done].
  apply is_byte_head in E3 as [after ->]. cbn [negb] in H. apply bind_Some in H as (enc & He & H). injection H as <- <-.
  rewrite encode_luau_codepoint_spec in He by (by apply digits_from_le). destruct (Z.leb_spec (digits_from 16 0 ds) 1114111); [|done].
  injection He as <-. exists (123 :: ds ++ [125]), after. split; [cbn; by rewrite <- app_assoc|].
  split; [rewrite len_cons, len_app; change (len [125]) with 1; lia|]. apply Escape_unicode; [by intros ->|done..].
Qed.

Lemma decimal_escape_sound data i d s :
  is_ascii_digit d = true -> ahead data i s -> escaped i d s (decimal_escape data d i).
Proof.
  intros Hd Ha j bytes H. unfold decimal_escape in H.
  destruct (run_split is_ascii_digit s) as (t & after & -> & Ht & Hend).
  set (ds := take 2 t). assert (t ++ after = ds ++ drop 2 t ++ after) as Hs by (unfold ds; by rewrite app_assoc, take_drop).
  assert (Forall (fun b => is_ascii_digit b = true) ds) as Hds by (by apply Forall_take).
  assert (length ds = 2%nat \/ starts_with is_ascii_digit (drop 2 t ++ after) = false) as Hstop.
  { unfold ds. rewrite length_take. destruct (le_lt_dec 2 (length t)); [left; lia|right]. by rewrite drop_ge by lia. }
  assert (length ds <= 2)%nat as Hlen by (unfold ds; rewrite length_take; lia). rewrite Hs in Ha |- *.
  rewrite (decimal_digits_spec 2 _ _ _ ds _ Ha Hds Hlen Hstop), <- decimal_value in H by done.
  destruct (Z.ltb_spec 255 (digits_value 10 (d :: ds))); [done|]. injection H as <- <-.
  pose proof (digits_nonneg d ds Hd Hds). rewrite as_u8_small by (unfold is_u8; lia).
  exists ds, (drop 2 t ++ after). split; [done|]. split; [done|]. by apply Escape_decimal.
Qed.

Lemma fixup_escape_sound data i e s :
  ahead data i s -> exists r, fixup_escape data e i = Done r /\ escaped i e s r.
Proof.
  intros Ha. unfold fixup_escape.
  destruct (Z.eqb_spec e 10) as [->|].
  { eexists. split; [done|]. intros j bytes [= <- <-]. exists [], s. split; [done|]. split; [nolen|constructor]. }
  destruct (Z.eqb_spec e 13) as [->|].
  { eexists. split; [done|]. intros j bytes [= <- <-]. rewrite (ahead_get _ _ _ Ha). destruct (is_byte (head s) 10) eqn:E.
    - apply is_byte_head in E as [s' ->]. exists [10], s'. repeat split. constructor.
    - exists [], s. split; [done|]. split; [nolen|]. constructor. destruct s as [|b s]; [done|]. cbn [starts_with head is_byte] in *. by rewrite Z.eqb_sym. }
  destruct (Z.eqb_spec e 0) as [->|]; [by eexists|].
  destruct (Z.eqb_spec e 120) as [->|]; [eexists; split; [done|by apply hex_escape_sound]|].
  destruct (Z.eqb_spec e 122) as [->|].
  { destruct (run_split is_luau_space s) as (t & after & -> & Ht & Hend).
    rewrite (skip_spaces_spec _ _ _ t after Ha); [|done|done|destruct Ha as [_ Ha]; apply (f_equal length) in Ha; rewrite length_drop, length_app in Ha; lia].
    eexists. split; [done|]. intros j bytes [= <- <-]. exists t, after. repeat split. by apply Escape_space. }
  destruct (Z.eqb_spec e 117) as [->|]; [eexists; split; [done|by apply unicode_escape_sound]|].
  destruct (between 48 57 e) eqn:Ed; [eexists; split; [done|by apply decimal_escape_sound]|].
  eexists. split; [done|]. intros j bytes [= <- <-]. exists [], s. split; [done|]. split; [nolen|]. rewrite unescape_byte_meaning. apply Escape_byte.
  unfold escape_kind. rewrite Ed. lia.
Qed.

(** ** The decoder *)

Lemma fixup_loop_complete fuel data i s out acc :
  Unescape s out -> ahead data i s -> i <= len data -> (length s < fuel)%nat ->
  fixup_quoted_loop fuel data i acc = Done (Some (acc ++ out)).
Proof.
  intros Hu. revert fuel i acc. induction Hu as [|b s out Hb Hu IH|t after bytes out He Hu IH]; intros fuel i acc Ha Hi Hf;
    (destruct fuel as [|fuel]; [cbn in Hf; lia|]); cbn [fixup_quoted_loop]; pose proof (ahead_len _ _ _ Ha Hi) as Hl.
  - change (len []) with 0 in Hl. rewrite (proj2 (Z.ltb_ge _ _)) by lia. by rewrite app_nil_r.
  - rewrite len_cons in Hl. pose proof (len_nonneg s). rewrite (proj2 (Z.ltb_lt _ _)) by lia. unfold index. look Ha. cbn [exec_bind].
    rewrite (proj2 (Z.eqb_neq _ _)) by done. cbn [negb]. rewrite (IH fuel (i + 1)); [by rewrite <- app_assoc|by eapply ahead_next|lia|cbn in Hf; lia].
  - rewrite len_cons, len_app in Hl. pose proof (len_nonneg t). pose proof (len_nonneg after). rewrite (proj2 (Z.ltb_lt _ _)) by lia.
    unfold index. look Ha. cbn [exec_bind Z.eqb Pos.eqb negb]. apply ahead_next in Ha. destruct t as [|e t]; [by inversion He|].
    cbn [app] in Ha. look Ha. apply ahead_next in Ha. replace (i + 1 + 1) with (i + 2) in Ha by lia.
    rewrite (fixup_escape_complete _ _ _ t after bytes Ha He). cbn [exec_bind]. rewrite len_cons in Hl.
    rewrite (IH fuel (i + 2 + len t)); [by rewrite <- app_assoc|by apply ahead_app|lia|]. cbn in Hf. rewrite length_app in Hf. lia.
Qed.

Lemma fixup_loop_sound fuel data i s acc :
  ahead data i s -> i <= len data -> (length s < fuel)%nat ->
  exists r, fixup_quoted_loop fuel data i acc = Done r /\ forall res, r = Some res -> exists out, res = acc ++ out /\ Unescape s out.
Proof.
  revert i s acc. induction fuel as [|fuel IH]; intros i s acc Ha Hi Hf; [lia|]. cbn [fixup_quoted_loop].
  pose proof (ahead_len _ _ _ Ha Hi) as Hl. destruct s as [|b s].
  { change (len []) with 0 in Hl. rewrite (proj2 (Z.ltb_ge _ _)) by lia. eexists. split; [done|]. intros res [= <-].
    exists []. split; [by rewrite app_nil_r|constructor]. }
  rewrite len_cons in Hl. pose proof (len_nonneg s). rewrite (proj2 (Z.ltb_lt _ _)) by lia. unfold index. look Ha. cbn [exec_bind].
  apply ahead_next in Ha. destruct (Z.eqb_spec b 92) as [->|Hb]; cbn [negb].
  - look Ha. destruct s as [|e s]; cbn [head]; [by eexists|]. apply ahead_next in Ha. replace (i + 1 + 1) with (i + 2) in Ha by lia.
    destruct (fixup_escape_sound data (i + 2) e s Ha) as (r & -> & Hr). cbn [exec_bind]. destruct r as [[j bytes]|]; [|by eexists].
    destruct (Hr j bytes eq_refl) as (t & after & -> & -> & He). rewrite len_cons, len_app in Hl. pose proof (len_nonneg after).
    destruct (IH (i + 2 + len t) after (acc ++ bytes)) as (r & -> & Hres); [by apply ahead_app|lia|cbn in Hf; rewrite length_app in Hf; lia|].
    exists r. split; [done|]. intros res ->. destruct (Hres res eq_refl) as (out & -> & Hu). exists (bytes ++ out). split; [by rewrite app_assoc|].
    exact (Unescape_escape (e :: t) after bytes out He Hu).
  - destruct (IH (i + 1) s (acc ++ [b])) as (r & -> & Hres); [done|lia|cbn in Hf; lia|]. exists r. split; [done|].
    intros res ->. destruct (Hres res eq_refl) as (out & -> & Hu). exists (b :: out). split; [by rewrite <- app_assoc|by apply Unescape_plain].
Qed.

Lemma fixup_unescape data out : Unescape data out -> fixup_quoted_string_bytes data = Done (Some out).
Proof. intros H. apply (fixup_loop_complete _ data 0 data out []); [done|by split|apply len_nonneg|lia]. Qed.

Lemma fixup_total data :
  exists r, fixup_quoted_string_bytes data = Done r /\ forall out, r = Some out -> Unescape data out.
Proof.
  destruct (fixup_loop_sound (S (length data)) data 0 data []) as (r & Hr & Hs); [by split|apply len_nonneg|lia|].
  exists r. split; [done|]. intros out ->. by destruct (Hs out eq_refl) as (out' & -> & Hu).
Qed.
