(* ===== verification/LiteralTheorems.v ===== *)
(** * LiteralTheorems: string literals denote what was rendered

    The decoder of quoted strings is total and computes the meaning [Unescape] of the text; a
    rendered string literal is one token, and its value is the string again; integer literals
    have the value of their digits, underscores apart. *)

From Stdlib Require Import ZArith Lia.
From stdpp Require Import base numbers list strings option.
From S2P Require Import Prelude RustExec Builder AstString Location Lexer LexerSpec LexerFacts LexerTheorems Literal LiteralFacts.

(** ** UTF-8 text through the syntax tree *)

(** A Rust [char]. *)
Definition is_char (c : Z) : Prop := scalar c /\ ~ (55296 <= c <= 57343).

Lemma encode_utf8_arith c :
  scalar c ->
  encode_utf8 c =
    if c <? 128 then [c]
    else if c <? 2048 then [192 + c / 64; 128 + c mod 64]
    else if c <? 65536 then [224 + c / 4096; 128 + c / 64 mod 64; 128 + c mod 64]
    else [240 + c / 262144; 128 + c / 4096 mod 64; 128 + c / 64 mod 64; 128 + c mod 64].
Proof.
  intros Hc. unfold scalar in Hc. unfold encode_utf8. rewrite !lor_continuation, !shiftr_div by lia.
  change (2 ^ 6) with 64. change (2 ^ 12) with 4096. change (2 ^ 18) with 262144.
  destruct (Z.ltb_spec c 128); [done|]. destruct (Z.ltb_spec c 2048); [|destruct (Z.ltb_spec c 65536)].
  - by rewrite (lor_high 192 6 3) by (first [done|lia|change (2 ^ 6) with 64; zdm]).
  - by rewrite (lor_high 224 5 7) by (first [done|lia|change (2 ^ 5) with 32; zdm]).
  - by rewrite (lor_high 240 4 15) by (first [done|lia|change (2 ^ 4) with 16; zdm]).
Qed.

Lemma within_true lo hi b : lo <= b <= hi -> within lo hi b = true.
Proof. by rewrite within_spec. Qed.
Lemma within_false lo hi b : ~ (lo <= b <= hi) -> within lo hi b = false.
Proof. intros H. destruct (within lo hi b) eqn:E; [|done]. by apply within_spec in E. Qed.

(** The second bytes of minimal forms other than surrogates. *)
Lemma second_ok_char b b1 :
  128 <= b1 <= 191 -> (b = 224 -> 160 <= b1) -> (b = 237 -> b1 <= 159) -> (b = 240 -> 144 <= b1) -> (b = 244 -> b1 <= 143) ->
  second_ok b b1 = true.
Proof.
  intros. unfold second_ok. destruct (Z.eqb_spec b 224), (Z.eqb_spec b 237), (Z.eqb_spec b 240), (Z.eqb_spec b 244); apply within_true; lia.
Qed.

Lemma utf8_step_char c :
  is_char c -> exists b t, encode_utf8 c = b :: t /\ forall rest, utf8_step b (t ++ rest) = Utf8Char c (S (length t)).
Proof.
  intros [Hc Hs]. rewrite encode_utf8_arith by done. unfold scalar in Hc.
  destruct (Z.ltb_spec c 128); [|destruct (Z.ltb_spec c 2048); [|destruct (Z.ltb_spec c 65536)]]; eexists _, _; (split; [done|]); intros rest;
    unfold utf8_step; cbn [app length].
  - by rewrite (proj2 (Z.ltb_lt c 128)).
  - rewrite (proj2 (Z.ltb_ge _ 128)) by zdm. rewrite !within_true by zdm. f_equal. zdm.
  - rewrite (proj2 (Z.ltb_ge _ 128)) by zdm. rewrite (within_false 194), (within_true 224) by zdm.
    rewrite second_ok_char, within_true by zdm. f_equal. zdm.
  - rewrite (proj2 (Z.ltb_ge _ 128)) by zdm. rewrite (within_false 194), (within_false 224), (within_true 240) by zdm.
    rewrite second_ok_char, !within_true by zdm. f_equal. zdm.
Qed.

Lemma from_utf8_chars fuel offset value :
  Forall is_char value -> (length (utf8 value) <= fuel)%nat -> from_utf8 fuel offset (utf8 value) = (value, None).
Proof.
  intros Hv. revert fuel offset. induction Hv as [|c value Hc _ IH]; intros fuel offset Hf; [by destruct fuel|].
  destruct (utf8_step_char c Hc) as (b & t & Hb & Hstep). unfold utf8 in *. cbn [map concat] in *. rewrite Hb in Hf |- *. cbn [app] in *.
  destruct fuel as [|fuel]; [cbn in Hf; lia|]. cbn [from_utf8]. rewrite Hstep. cbn [drop]. rewrite drop_app_length, IH; [done|].
  cbn in Hf. rewrite length_app in Hf. lia.
Qed.

Lemma ast_string_from_utf8 value : Forall is_char value -> ast_string_from_bytes (utf8 value) = value.
Proof.
  intros Hv. unfold ast_string_from_bytes. destruct (utf8 value) as [|b s] eqn:Eu.
  - destruct Hv as [|c value [Hc _] _]; [done|]. destruct (encode_head c Hc) as (b & t & Hb & _). unfold utf8 in Eu. cbn in Eu. by rewrite Hb in Eu.
  - cbn [length ast_string_loop]. rewrite <- Eu. by rewrite from_utf8_chars by (done || (rewrite Eu; cbn; lia)).
Qed.

(** ** The text of a rendered literal *)

Lemma hex_value_char d : 0 <= d < 16 -> hex_value (hex_char d) = Some d.
Proof.
  intros H. unfold hex_char, hex_value, between. destruct (Z.ltb_spec d 10); repeat case_match; try lia; f_equal; lia.
Qed.

Lemma lower_hex_digits_spec fuel n :
  0 <= n < 16 ^ Z.of_nat fuel -> (0 < fuel)%nat ->
  let ds := lower_hex_digits fuel n in
  digits_value 16 ds = n /\ ds <> [] /\ (length ds <= fuel)%nat /\ Forall (fun b => is_hex b = true) ds.
Proof.
  revert n. induction fuel as [|fuel IH]; intros n Hn Hf; [lia|]. cbv zeta. cbn [lower_hex_digits].
  assert (is_hex (hex_char (n mod 16)) = true) as Hhex by (unfold is_hex; rewrite hex_value_char by zdm; done).
  assert (forall ds, digits_value 16 (ds ++ [hex_char (n mod 16)]) = digits_value 16 ds * 16 + n mod 16) as Hd.
  { intros ds. unfold digits_value, digits_from. rewrite foldl_app. cbn. by rewrite hex_value_char by zdm. }
  rewrite Hd. destruct (Z.ltb_spec n 16); cbn [app].
  - split; [change (digits_value 16 []) with 0; zdm|]. split; [done|]. split; [cbn; lia|by constructor].
  - destruct fuel as [|fuel]; [change (16 ^ Z.of_nat 1) with 16 in Hn; lia|]. rewrite Nat2Z.inj_succ, Z.pow_succ_r in Hn by lia.
    destruct (IH (n / 16)) as (-> & Hne & Hlen & Hall); [set (p := 16 ^ Z.of_nat (S fuel)) in *; zdm|lia|]. split; [zdm|]. split; [by destruct (lower_hex_digits _ _)|].
    split; [rewrite length_app; cbn [length]; lia|]. apply Forall_app. split; [done|by constructor].
Qed.

Lemma render_escape b s out :
  escape_kind b = false -> Unescape s out -> Unescape (92 :: b :: s) (escape_meaning b :: out).
Proof. intros Hb Hu. exact (Unescape_escape [b] s _ out (Escape_byte b s Hb) Hu). Qed.

Lemma render_char_unescape c s out :
  scalar c -> Unescape s out -> Unescape (render_char c ++ s) (encode_utf8 c ++ out).
Proof.
  intros Hc Hu. unfold render_char. unfold scalar in Hc.
  destruct (Z.eqb_spec c 92) as [->|]; [by apply (render_escape 92)|].
  destruct (Z.eqb_spec c 34) as [->|]; [by apply (render_escape 34)|].
  destruct (Z.eqb_spec c 10) as [->|]; [by apply (render_escape 110)|].
  destruct (Z.eqb_spec c 13) as [->|]; [by apply (render_escape 114)|].
  destruct (Z.eqb_spec c 9) as [->|]; [by apply (render_escape 116)|].
  destruct (lower_hex_digits_spec 8 c) as (Hv & Hne & Hlen & Hhex); [change (16 ^ Z.of_nat 8) with 4294967296; lia|lia|].
  destruct (is_control c || negb (c <? 128)) eqn:E.
  - assert (Escape (117 :: 123 :: lower_hex c ++ [125]) s (encode_utf8 (digits_value 16 (lower_hex c)))) as He.
    { apply Escape_unicode; [done|unfold lower_hex; lia|done|]. unfold lower_hex. lia. }
    unfold lower_hex in He at 2. rewrite Hv in He. exact (Unescape_escape _ s _ out He Hu).
  - rewrite encode_utf8_1 by lia. by apply Unescape_plain.
Qed.

Lemma render_unescape value : Forall scalar value -> Unescape (concat (map render_char value)) (utf8 value).
Proof. induction 1 as [|c value Hc _ IH]; [constructor|]. cbn. by apply render_char_unescape. Qed.

(** ** Reading a rendered literal *)

(** Text a quoted string goes through byte by byte: no terminator and no escape of more than
    one byte. *)
Inductive inert : list Z -> Prop :=
| inert_nil : inert []
| inert_plain b s : b <> 92 -> quoted_stop 34 b = false -> inert s -> inert (b :: s)
| inert_escape e s : e <> 13 -> e <> 122 -> inert s -> inert (92 :: e :: s).

Lemma inert_app s s' : inert s -> inert s' -> inert (s ++ s').
Proof. induction 1; intros Hs; [done|by constructor; auto..]. Qed.

Lemma inert_hex ds s : Forall (fun b => is_hex b = true) ds -> inert s -> inert (ds ++ s).
Proof.
  induction 1 as [|b ds Hb _ IH]; intros Hs; [done|]. cbn. constructor; [by intros ->| |auto].
  unfold quoted_stop. destruct (Z.eqb_spec b 34) as [->|]; [done|]. destruct (Z.eqb_spec b 10) as [->|]; [done|].
  by destruct (Z.eqb_spec b 13) as [->|].
Qed.

Lemma render_char_inert c s : scalar c -> inert s -> inert (render_char c ++ s).
Proof.
  intros Hc Hs. unfold render_char. unfold scalar in Hc.
  destruct (lower_hex_digits_spec 8 c) as (_ & _ & _ & Hhex); [change (16 ^ Z.of_nat 8) with 4294967296; lia|lia|].
  destruct (Z.eqb_spec c 92), (Z.eqb_spec c 34), (Z.eqb_spec c 10), (Z.eqb_spec c 13), (Z.eqb_spec c 9); try lia; try by apply inert_escape.
  destruct (is_control c || _).
  - rewrite <- app_assoc. cbn [app]. apply inert_escape; [done..|]. apply inert_plain; [done..|]. rewrite <- app_assoc.
    apply inert_hex; [done|]. by apply inert_plain.
  - apply inert_plain; [done| |done]. unfold quoted_stop. lia.
Qed.

Lemma render_inert value : Forall scalar value -> inert (concat (map render_char value)).
Proof. induction 1; [constructor|]. cbn. by apply render_char_inert. Qed.

(** The token of a double-quoted string. *)
Definition quoted_token (loc : Location) (s : list Z) : Lexeme := set_quote_style Double (with_derived_text QuotedString loc s).

Lemma quoted_loop_inert fuel start cs pre m s after :
  inert s -> sane m -> rest m = s ++ 34 :: after -> (length s < fuel)%nat -> before m cs pre ->
  runs (quoted_loop fuel start 34 cs) m
    (fun tok m' => tok = quoted_token (mkLoc start (position m')) (pre ++ s) /\ m' = skip (S (length s)) m).
Proof.
  intros Hi. revert fuel pre m. induction Hi as [|b s H92 Hstop Hi IH|e s H13 H122 Hi IH]; intros fuel pre m Hm Hr Hf Hb;
    (destruct fuel as [|fuel]; [cbn in Hf; lia|]); cbn [app] in Hr; pose proof (sane_in _ Hm) as Hin; cbn [quoted_loop];
    apply runs_bind, runs_get; rewrite peek_rest, Hr by done; cbn [head].
  - cbn [Z.eqb Pos.eqb orb]. apply runs_bind, (runs_bump m 34 after); [done..|]. apply runs_bind, runs_get.
    replace (offset (skip 1 m) - 1) with (offset m) by (cbn; lia). apply runs_bind.
    eapply (runs_source_slice _ m); [done|done|done| |]; [apply (boundary_ascii m Hm 0 34); [by rewrite Hr|done]|].
    apply runs_bind, runs_loc_from, runs_ret. by rewrite app_nil_r.
  - rewrite (proj2 (Z.eqb_neq _ _)) by done. unfold quoted_stop in Hstop. assert ((b =? 10) || (b =? 13) = false) as -> by lia.
    destruct (rest_tail m b _ Hm Hr) as (Hm1 & Hr1 & Hlen). apply runs_bind, (runs_bump m b (s ++ 34 :: after)); [done..|].
    rewrite (proj2 (Z.eqb_neq _ _)) by lia. eapply runs_mono; [apply (IH fuel (pre ++ [b]) (skip 1 m)); [done|done|cbn in Hf; lia|]|].
    + replace [b] with (take 1 (rest m)) by (by rewrite Hr). apply before_skip; [done|rewrite Hr; cbn; lia|done].
    + intros tok m' [-> ->]. rewrite skip_skip, <- app_assoc by (done || (rewrite Hr; cbn; lia)). done.
  - cbn [Z.eqb Pos.eqb]. destruct (rest_tail m 92 _ Hm Hr) as (Hm1 & Hr1 & _). destruct (rest_tail (skip 1 m) e _ Hm1 Hr1) as (Hm2 & Hr2 & _).
    apply runs_bind. unfold bump_backslash_in_string. apply runs_bind, (runs_bump m 92 (e :: s ++ 34 :: after)); [done..|].
    apply runs_bind, runs_get. rewrite peek_rest, Hr1 by (by apply sane_in). cbn [head].
    assert (runs (lx_bind bump (fun _ => lx_ret tt)) (skip 1 m) (fun _ m' => m' = skip 2 m)) as Hbump.
    { apply runs_bind, (runs_bump _ e (s ++ 34 :: after)); [by apply sane_in|done|]. apply runs_ret. by rewrite skip_skip by (done || (rewrite Hr; cbn; lia)). }
    eapply runs_mono with (Q := fun _ m' => m' = skip 2 m).
    + destruct e as [|p|p]; [exact Hbump| |exact Hbump]. do 7 (destruct p as [p|p|]; try exact Hbump; try lia).
    + intros [] m' ->. rewrite skip_skip in Hm2, Hr2 by (done || (rewrite Hr; cbn; lia)).
      eapply runs_mono; [apply (IH fuel (pre ++ [92; e]) (skip 2 m)); [done|done|cbn in Hf; lia|]|].
      * replace [92; e] with (take 2 (rest m)) by (by rewrite Hr). apply before_skip; [done|rewrite Hr; cbn; lia|done].
      * intros tok m' [-> ->]. rewrite skip_skip, <- app_assoc by (done || (rewrite Hr; cbn; lia)). done.
Qed.

(** The output of the renderer is printable ASCII. *)
Lemma render_char_ascii c : scalar c -> Forall (fun b => 0 < b < 128) (render_char c).
Proof.
  intros Hc. unfold render_char. unfold scalar in Hc.
  destruct (lower_hex_digits_spec 8 c) as (_ & _ & _ & Hhex); [change (16 ^ Z.of_nat 8) with 4294967296; lia|lia|].
  repeat (case_match; [repeat constructor; done|]). destruct (is_control c || _) eqn:E.
  - repeat (constructor; [done|]). apply Forall_app. split; [|by repeat constructor]. eapply Forall_impl; [|exact Hhex].
    cbn. intros b Hb. apply is_hex_value in Hb. revert Hb. unfold hex_value, between. repeat case_match; try done; lia.
  - repeat constructor; unfold is_control, between in E; lia.
Qed.

Lemma render_ascii value : Forall scalar value -> Forall (fun b => 0 < b < 128) (render_string_literal value).
Proof.
  intros Hv. unfold render_string_literal. constructor; [done|]. apply Forall_app. split; [|by repeat constructor].
  induction Hv as [|c value Hc _ IH]; [constructor|]. cbn. apply Forall_app. split; [by apply render_char_ascii|done].
Qed.

Lemma ascii_utf8 s : Forall (fun b => 0 < b < 128) s -> utf8 s = s.
Proof. induction 1 as [|b s Hb _ IH]; [done|]. unfold utf8 in *. cbn. by rewrite encode_utf8_1, IH by lia. Qed.

Lemma ascii_valid s : Forall (fun b => 0 < b < 128) s -> len s < U32_MAX -> valid_str s.
Proof.
  intros Hs Hlen. split; [|done]. exists s. split; [|by rewrite ascii_utf8]. eapply Forall_impl; [|exact Hs]. cbn. lia.
Qed.

Lemma nonzero_visible s o : Forall (fun b => 0 < b) s -> rest (with_options s o) = s.
Proof.
  intros Hs. destruct (nul_offset_spec s) as (Hn & Hz & _). unfold rest, visible_bytes. cbn. rewrite drop_0.
  assert (nul_offset s = len s) as ->; [|unfold len; by rewrite Nat2Z.id, firstn_all].
  destruct (Z.eq_dec (nul_offset s) (len s)) as [|Hne]; [done|]. specialize (Hz ltac:(lia)). apply zget_Some in Hz as [_ Hz].
  rewrite Forall_lookup in Hs. specialize (Hs _ _ Hz). cbn in Hs. lia.
Qed.

Lemma runs_eq {A} (m : LX A) l x y : runs m l (fun a l' => a = x /\ l' = y) -> m l = Done (x, y).
Proof. unfold runs. destruct (m l) as [[a l']| | |]; try done. by intros [-> ->]. Qed.

Lemma read_quoted_inert l s after :
  lexer_ok l -> rest l = 34 :: s ++ 34 :: after -> inert s ->
  skip_trivia l = Done (tt, l) /\
  read_token l = Done (quoted_token (mkLoc (position l) (position (skip (S (S (length s))) l))) s, skip (S (S (length s))) l).
Proof.
  intros Hok Hr Hi. pose proof (lexer_ok_sane l Hok) as Hm. pose proof (sane_in _ Hm) as Hin.
  destruct (rest_tail l 34 _ Hm Hr) as (Hm1 & Hr1 & Hlen). split.
  { apply runs_eq. unfold skip_trivia. apply runs_bump_while; [done|]. rewrite Hr. cbn [prefix_run Z.eqb Pos.eqb orb]. by rewrite skip_0. }
  apply runs_eq. unfold read_token. apply runs_bind, runs_get. rewrite peek_rest, Hr by done. cbn [head].
  change (is_name_start 34) with false. change (is_ascii_digit 34) with false. cbn [Z.eqb Pos.eqb orb andb].
  unfold read_quoted_string. apply runs_bind, (runs_bump l 34 (s ++ 34 :: after)); [done..|]. apply runs_bind, runs_get.
  eapply runs_mono; [apply (quoted_loop_inert _ _ _ [] (skip 1 l) s after); try done|].
  - pose proof (rest_fuel (skip 1 l) (sane_in _ Hm1)) as Hf. rewrite Hr1, length_app in Hf. lia.
  - apply before_start; [done|]. apply at_boundary_skip, (boundary_after l Hm 0 34); [by rewrite Hr|done].
  - intros tok m' [-> ->]. by rewrite skip_skip.
Qed.

(** A source that is one quoted string. *)
Lemma lex_quoted s :
  let src := 34 :: s ++ [34] in
  inert s -> valid_str src -> Forall (fun b => 0 < b) src ->
  exists loc eof, lex_all (S (length src)) (Lexer_new src) = Done [quoted_token loc s; eof] /\ kind eof = Eof.
Proof.
  intros src Hi Hvalid Hnz. pose proof (nonzero_visible src DEFAULT Hnz) as Hr.
  destruct (start_ok src DEFAULT Hvalid) as (Hok & Hp & _ & _).
  unfold Lexer_new. set (l := with_options src DEFAULT) in *. destruct (read_quoted_inert l s [] Hok Hr Hi) as (Ht & Hrd).
  set (l' := skip (S (S (length s))) l) in *. pose proof (lexer_ok_sane l Hok) as Hm. pose proof (sane_in _ Hm) as Hin.
  assert (length (rest l) = S (S (length s))) as Hlr by (rewrite Hr; unfold src; cbn; rewrite length_app; cbn; lia).
  assert (rest l' = []) as Hr' by (unfold l'; rewrite rest_skip by (done || lia); apply drop_ge; lia).
  assert (lexer_ok l') as Hok'.
  { apply sane_ok; [apply sane_skip; [done|lia]|]. apply at_boundary_skip. rewrite <- Hlr. by apply boundary_end. }
  assert (positioned l') as Hp' by (apply positioned_skip; [done|done|lia]).
  destruct (lex_round_spec l' Hok' Hp') as (l1 & t & tok & l2 & Ht' & Hrd' & Hrest & _ & _ & Ho1 & _ & [(Hr1 & -> & ->)|(_ & txt & Htf & Hr1 & _)]).
  - eexists _, _. split; [|shelve]. assert (length src = S (length s + 1)) as -> by (unfold src; cbn; rewrite length_app; done).
    cbn [lex_all]. rewrite (next_token_plain _ _ _ _ Ht Hrd) by done. cbn [exec_bind fst snd kind quoted_token set_quote_style with_derived_text].
    rewrite (next_token_plain _ _ _ _ Ht' Hrd') by (by rewrite Ho1). cbn [exec_bind fst snd kind Lexeme_new]. reflexivity.
    Unshelve. done.
  - exfalso. rewrite Hrest, Hr1 in Hr'. destruct (tf_nonempty _ _ _ _ Htf). by destruct t, txt.
Qed.

(** ** The theorems *)

(** C20: The decoder of quoted strings neither panics nor loops on any bytes, and returns bytes
    exactly when the text is made of plain bytes and meaningful escapes, namely the bytes they
    stand for. *)
Theorem fixup_quoted_exact data :
  exists r, fixup_quoted_string_bytes data = Done r /\ forall out, r = Some out <-> Unescape data out.
Proof.
  destruct (fixup_total data) as (r & Hr & Hs). exists r. split; [done|]. intros out. split; [apply Hs|].
  intros Hu. rewrite (fixup_unescape _ _ Hu) in Hr. congruence.
Qed.

(** C16: Every string renders to a literal that the lexer reads as one double-quoted token, alone
    in its source, whose value in the syntax tree is the string itself. *)
Theorem string_literal_round_trip value :
  Forall is_char value -> len (render_string_literal value) < U32_MAX ->
  exists tok eof,
    lex_all (S (length (render_string_literal value))) (Lexer_new (render_string_literal value)) = Done [tok; eof] /\
    kind tok = QuotedString /\ quote_style tok = Some Double /\ kind eof = Eof /\
    string_value_from_token_text tok = Done (Some value).
Proof.
  intros Hv Hlen. assert (Forall scalar value) as Hsc by (eapply Forall_impl; [|exact Hv]; by intros c []).
  pose proof (render_ascii value Hsc) as Hascii.
  destruct (lex_quoted (concat (map render_char value))) as (loc & eof & Hlex & Heof);
    [by apply render_inert|by apply ascii_valid|eapply Forall_impl; [|exact Hascii]; cbn; lia|].
  exists (quoted_token loc (concat (map render_char value))), eof. split; [exact Hlex|]. split; [done|]. split; [done|]. split; [done|].
  unfold string_value_from_token_text. cbn [kind text quoted_token set_quote_style with_derived_text default]. rewrite (fixup_unescape _ (utf8 value)) by (by apply render_unescape).
  cbn. by rewrite ast_string_from_utf8.
Qed.

(** ** Integer literals *)

Definition digit_of (radix b : Z) : bool := is_some_and (hex_value b) (fun d => d <? radix).

Lemma digit_of_spec radix b : digit_of radix b = true -> to_digit radix b = Some (default 0 (hex_value b)) /\ 0 <= default 0 (hex_value b) < radix.
Proof.
  unfold digit_of, to_digit. destruct (hex_value b) as [d|] eqn:E; cbn; [|done]. intros H. rewrite H. apply hex_value_range in E. split; [done|lia].
Qed.

Lemma digits_from_mono radix acc ds :
  2 <= radix -> 0 <= acc -> Forall (fun b => digit_of radix b = true) ds -> acc <= digits_from radix acc ds.
Proof.
  intros Hr Hacc Hds. revert acc Hacc. induction Hds as [|b ds Hb _ IH]; intros acc Hacc; [done|].
  destruct (digit_of_spec _ _ Hb) as [_ Hd]. unfold digits_from in *. cbn. etransitivity; [|apply IH]; nia.
Qed.

Lemma from_digits_spec radix hi acc lo ds :
  2 <= radix -> lo <= 0 -> 0 <= acc <= hi -> Forall (fun b => digit_of radix b = true) ds ->
  from_digits radix 1 lo hi acc ds = if digits_from radix acc ds <=? hi then Some (digits_from radix acc ds) else None.
Proof.
  intros Hr Hlo Hacc Hds. revert acc Hacc. induction Hds as [|b ds Hb Hds IH]; intros acc Hacc.
  - cbn. by rewrite (proj2 (Z.leb_le acc hi)) by lia.
  - destruct (digit_of_spec _ _ Hb) as [Hd Hrange]. cbn [from_digits]. rewrite Hd. cbn [mbind option_bind]. rewrite Z.mul_1_l.
    set (d := default 0 (hex_value b)) in *. change (digits_from radix acc (b :: ds)) with (digits_from radix (acc * radix + d) ds).
    pose proof (digits_from_mono radix (acc * radix + d) ds Hr ltac:(nia) Hds) as Hmono.
    assert (hi < acc * radix + d -> (digits_from radix (acc * radix + d) ds <=? hi) = false) as Hbig by (intros; apply Z.leb_gt; lia).
    rewrite (proj2 (Z.leb_le lo _)) by nia. destruct (Z.leb_spec (acc * radix) hi); cbn [andb negb]; [|by rewrite Hbig by lia].
    rewrite (proj2 (Z.leb_le lo _)) by nia. destruct (Z.leb_spec (acc * radix + d) hi); cbn [andb negb]; [|by rewrite Hbig by lia].
    apply IH. nia.
Qed.

(** The spellings of a radix. *)
Definition radix_prefix (radix : Z) : list (list Z) :=
  if radix =? 2 then [[48; 98]; [48; 66]] else if radix =? 16 then [[48; 120]; [48; 88]] else [[]].

Lemma strip_suffix2_snoc s c : c = 105 \/ c = 73 -> strip_suffix2 105 73 (s ++ [c]) = Some s.
Proof. intros Hc. unfold strip_suffix2. rewrite last_snoc, removelast_last. by destruct Hc as [->| ->]. Qed.

(** A text that starts with a digit has no sign. *)
Lemma u64_digits radix b ds :
  digit_of radix b = true -> u64_from_str_radix (b :: ds) radix = from_digits radix 1 0 18446744073709551615 0 (b :: ds).
Proof.
  intros Hb. unfold u64_from_str_radix. destruct b as [|p|p]; [done| |done].
  do 6 (destruct p as [p|p|]; try done); by destruct ds.
Qed.

Lemma i64_digits b ds :
  digit_of 10 b = true -> i64_parse (b :: ds) = from_digits 10 1 (-9223372036854775808) 9223372036854775807 0 (b :: ds).
Proof.
  intros Hb. unfold i64_parse. destruct b as [|p|p]; [done| |done].
  do 6 (destruct p as [p|p|]; try done); by destruct ds.
Qed.

Lemma strip_radix_decimal lower upper ds :
  digit_of 10 lower = false -> digit_of 10 upper = false -> Forall (fun b => digit_of 10 b = true) ds ->
  strip_radix lower upper ds = None.
Proof.
  intros Hl Hu Hd. unfold strip_radix. destruct Hd as [|b ds _ Hd]; [done|]. destruct Hd as [|c ds Hc _].
  - destruct b as [|p|p]; [done| |done]. by do 6 (destruct p as [p|p|]; try done).
  - destruct (Z.eqb_spec c lower) as [->|]; [congruence|]. destruct (Z.eqb_spec c upper) as [->|]; [congruence|]. cbn [orb].
    destruct b as [|p|p]; [done| |done]. by do 6 (destruct p as [p|p|]; try done).
Qed.

(** An integer literal, underscores apart, is a prefix, digits and the suffix: in base 2 and 16
    its value is that of the digits as a 64-bit word, read signed, and it is refused above 64
    bits; in base 10 it is refused above 2^63 - 1. *)
Theorem integer_literal_value radix txt prefix digits suffix :
  radix = 2 \/ radix = 10 \/ radix = 16 -> prefix ∈ radix_prefix radix -> (suffix = 105 \/ suffix = 73) ->
  digits <> [] -> Forall (fun b => digit_of radix b = true) digits ->
  without_underscores txt = prefix ++ digits ++ [suffix] ->
  parse_integer_literal txt =
    if digits_value radix digits <=? (if radix =? 10 then 9223372036854775807 else 18446744073709551615)
    then Some (as_i64 (digits_value radix digits)) else None.
Proof.
  intros Hr Hp Hs Hne Hd Htxt. unfold parse_integer_literal. rewrite Htxt, app_assoc, strip_suffix2_snoc by done.
  cbn [mbind option_bind]. destruct digits as [|b ds]; [done|]. pose proof Hd as Hd'. inversion Hd as [|? ? Hb _]; subst.
  pose proof (digits_from_mono radix 0 (b :: ds) ltac:(lia) (Z.le_refl 0) Hd) as Hpos. fold (digits_value radix (b :: ds)) in Hpos.
  destruct Hr as [->|[->| ->]]; unfold radix_prefix in Hp; cbn [Z.eqb Pos.eqb] in Hp |- *.
  - assert (strip_radix 98 66 (prefix ++ b :: ds) = Some (b :: ds)) as -> by (by apply elem_of_cons in Hp as [->|Hp%list_elem_of_singleton]; [|subst]).
    rewrite u64_digits, from_digits_spec by (done || lia). fold (digits_value 2 (b :: ds)). by case_match.
  - apply list_elem_of_singleton in Hp as ->. cbn [app]. rewrite !strip_radix_decimal by done.
    rewrite i64_digits, from_digits_spec by (done || lia). fold (digits_value 10 (b :: ds)). destruct (Z.leb_spec (digits_value 10 (b :: ds)) 9223372036854775807); [|done].
    f_equal. unfold as_i64, as_u64. rewrite Z.mod_small by lia. by rewrite (proj2 (Z.ltb_lt _ _)) by lia.
  - assert (strip_radix 98 66 (prefix ++ b :: ds) = None /\ strip_radix 120 88 (prefix ++ b :: ds) = Some (b :: ds)) as [-> ->] by (by apply elem_of_cons in Hp as [->|Hp%list_elem_of_singleton]; [|subst]).
    rewrite u64_digits, from_digits_spec by (done || lia). fold (digits_value 16 (b :: ds)). by case_match.
Qed.

(** ** Where a malformed escape is reported *)

Lemma escape_location_total fuel token bytes i :
  0 <= i -> len bytes - i < Z.of_nat fuel -> (0 < fuel)%nat -> exists r, escape_location_loop fuel token bytes i = Done r.
Proof.
  revert i. induction fuel as [|fuel IH]; intros i Hi Hf Hpos; [lia|]. cbn [escape_location_loop].
  destruct (Z.ltb_spec (i + 1) (len bytes)); [|by eexists].
  destruct (index_in_range bytes i ltac:(lia)) as (b & -> & _). cbn [exec_bind]. destruct (negb (b =? 92)); [apply IH; lia|].
  destruct (index_in_range bytes (i + 1) ltac:(lia)) as (e & -> & _). cbn [exec_bind]. destruct (e =? 48); [by eexists|]. apply IH; lia.
Qed.

(** A string whose first escape is fine and whose second is not. *)
Definition two_escapes : Lexeme := quoted_token (mkLoc (mkPos 0 4) (mkPos 0 12)) (bytes_of "\0\xZZ").

(** The location reported for a malformed escape is that of the first [\0] of the string,
    also when this escape is fine and another one is not. *)
Theorem escape_location_of_valid_escape :
  (forall token, exists r, malformed_string_escape_location token = Done r) /\
  string_value_from_token_text two_escapes = Done None /\
  malformed_string_escape_location two_escapes = Done (Some (mkLoc (mkPos 0 5) (mkPos 0 6))) /\
  Unescape (bytes_of "\0") [0].
Proof.
  split; [|split; [by vm_compute|split; [by vm_compute|]]].
  - intros token. unfold malformed_string_escape_location. destruct (text token) as [bytes|]; [|by eexists].
    apply escape_location_total; unfold len; lia.
  - assert (Escape [48] [] [digits_value 10 [48]]) as He.
    { apply Escape_decimal; [done|constructor|cbn; lia|by right|by vm_compute]. }
    exact (Unescape_escape [48] [] _ [] He Unescape_nil).
Qed.

(** ** Examples *)

Example render_example : render_string_literal [72; 10; 34; 955; 0] = [34; 72; 92; 110; 92; 34] ++ bytes_of "\u{3bb}\u{0}" ++ [34].
Proof. by vm_compute. Qed.
Example fixup_example : fixup_quoted_string_bytes (bytes_of "a\x41\065\z   b\u{3bb}\n") = Done (Some [97; 65; 65; 98; 206; 187; 10]).
Proof. by vm_compute. Qed.
Example integer_example : parse_integer_literal (bytes_of "0xFFFF_FFFF_FFFF_FFFFi") = Some (-1).
Proof. by vm_compute. Qed.
Example numbers_example :
  map (fun s => number_literal_is_malformed (bytes_of s))
    ["1"; "1."; ".5"; "1e"; "1e+5"; "0x"; "0xfg"; "0b1_0"; "1i"; "_"; "1.2.3"] =
  [false; false; false; true; false; true; true; false; true; true; true].
Proof. by vm_compute. Qed.

Definition sample_value : list Z := [72; 34; 92; 10; 0; 955; 65535; 128512].

Lemma sample_value_chars : Forall is_char sample_value.
Proof. unfold sample_value, is_char, scalar. repeat constructor; lia. Qed.

Lemma string_literal_round_trip_witness :
  exists tok eof,
    lex_all (S (length (render_string_literal sample_value))) (Lexer_new (render_string_literal sample_value)) = Done [tok; eof] /\
    kind tok = QuotedString /\ quote_style tok = Some Double /\ kind eof = Eof /\
    string_value_from_token_text tok = Done (Some sample_value).
Proof. exact (string_literal_round_trip sample_value sample_value_chars eq_refl). Defined.

Definition sample_integer : list Z := bytes_of "0xFFFF_FFFF_FFFF_FFFFi".
Definition sample_hex_digits : list Z := bytes_of "FFFFFFFFFFFFFFFF".

Lemma sample_digits_hex : Forall (fun b => digit_of 16 b = true) sample_hex_digits.
Proof. by repeat constructor. Qed.

Lemma integer_literal_value_witness : parse_integer_literal sample_integer = Some (-1).
Proof.
  exact (integer_literal_value 16 sample_integer [48; 120] sample_hex_digits 105 (or_intror (or_intror eq_refl))
    (list_elem_of_here _ _) (or_introl eq_refl) ltac:(discriminate) sample_digits_hex eq_refl).
Defined.
