(* ===== verification/FloatText.v ===== *)
(** * FloatText: numbers as text and text as numbers

    Model of [number_to_string], [str_to_number] and the parsing of hexadecimal floats of
    [ruau-vm/src/vmutils.rs], with the parts of the standard library they are written against:
    [str::parse::<f64>], which rounds the exact decimal value to the nearest double, and
    [{:e}], which prints the shortest digits that read back as the number, the closest ones of
    that length. Both are computed exactly, on ratios of integers; a double is a multiple of
    [2^-1074] ([f64_units]). The result of [powi] and the sign of a produced NaN are not
    specified by the language ([FloatUnspecified]).

    Rounding is monotone and absorbs a relative error below [2^-54] ([f64_of_ratio_near]), so
    seventeen digits always read back; the texts that [number_to_string] lays out are read as
    the decimal they were made from. *)

From Stdlib Require Import ZArith Lia.
From stdpp Require Import base numbers list strings option.
From S2P Require Import Prelude Builder AstString Value RustExec Lexer Literal.

(** [2.0_f64.powi(n)] and the bits of a NaN that an operation produces. *)
Class FloatUnspecified : Type := { powi2 : Z -> Z; nan_produced : Z }.

(** ** Rounding *)

Definition SIGN_BIT : Z := 9223372036854775808.
Definition F64_INFINITY : Z := 9218868437227405312.
Definition F64_NAN : Z := 9221120237041090560.
Definition HIDDEN_BIT : Z := 4503599627370496.
(** One, in units of [2^-1074]. *)
Definition F64_ONE : Z := 2 ^ 1074.

(** The integer nearest to [a / b], ties to even. *)
Definition div_half_even (a b : Z) : Z :=
  let q := a / b in
  let r := a mod b in
  if b <? 2 * r then q + 1
  else if (2 * r =? b) && Z.odd q then q + 1
  else q.

(** The bits of the double nearest to [num / den], which is not negative. [q] is the exponent
    of its last place; the sum carries into the exponent field when rounding does. *)
Definition f64_of_ratio (num den : Z) : Z :=
  let n := num * F64_ONE in
  let q := Z.max 0 (Z.log2 (n / den) - 52) in
  Z.min F64_INFINITY (q * HIDDEN_BIT + div_half_even n (den * 2 ^ q)).

(** The magnitude of a finite double, in units. *)
Definition f64_units (b : Z) : Z :=
  let e := f64_exp b in
  let m := f64_man b in
  if e =? 0 then m else (m + HIDDEN_BIT) * 2 ^ (e - 1).

Definition f64_is_infinite (b : Z) : bool := b mod SIGN_BIT =? F64_INFINITY.
Definition f64_abs (b : Z) : Z := b mod SIGN_BIT.

(** The double nearest to [m * 10^e]. *)
Definition f64_of_decimal (m e : Z) : Z :=
  if 0 <=? e then f64_of_ratio (m * 10 ^ e) 1 else f64_of_ratio m (10 ^ (- e)).

Section Arithmetic.
Context {FU : FloatUnspecified}.

(** The product of two doubles without sign. *)
Definition f64_mul_pos (a b : Z) : Z :=
  if f64_is_nan a || f64_is_nan b then nan_produced
  else if f64_is_infinite a || f64_is_infinite b then
    (if f64_is_zero a || f64_is_zero b then nan_produced else F64_INFINITY)
  else f64_of_ratio (f64_units a * f64_units b) (F64_ONE * F64_ONE).

(** The sum of two doubles without sign that are no NaN. *)
Definition f64_add_pos (a b : Z) : Z :=
  if f64_is_infinite a || f64_is_infinite b then F64_INFINITY
  else f64_of_ratio (f64_units a + f64_units b) F64_ONE.

(** [sign * magnitude] with a sign of [1.0] or [-1.0]. *)
Definition with_sign (negative : bool) (b : Z) : Z :=
  if negative then (if f64_is_nan b then nan_produced else (b + SIGN_BIT) mod 18446744073709551616) else b.
End Arithmetic.

(** ** [str::parse::<f64>] *)

(** The digits at the head, after those of [acc]. *)
Fixpoint read_digits (acc : Z) (s : list Z) : Z * list Z :=
  match s with
  | b :: s' => if is_ascii_digit b then read_digits (acc * 10 + (b - 48)) s' else (acc, s)
  | [] => (acc, [])
  end.

(** The number written after the [e] of an exponent. *)
Definition exponent_value (s : list Z) : Z :=
  match s with
  | 45 :: s' => - (read_digits 0 s').1
  | 43 :: s' => (read_digits 0 s').1
  | _ => (read_digits 0 s).1
  end.

(** Significand and decimal exponent of a text of the grammar [f64_number]. *)
Definition decimal_of (s : list Z) : Z * Z :=
  let '(m, rest) := read_digits 0 s in
  let '(m, scale, rest) :=
    match rest with
    | 46 :: rest' => let '(m', rest'') := read_digits m rest' in (m', len rest'' - len rest', rest'')
    | _ => (m, 0, rest)
    end in
  match rest with
  | _ :: s' => (m, scale + exponent_value s')
  | [] => (m, scale)
  end.

Definition f64_parse (s : list Z) : option Z :=
  if negb (f64_parses s) then None
  else
    let sign := match s with 45 :: _ => SIGN_BIT | _ => 0 end in
    let body := drop_sign s in
    Some (sign +
      (if f64_number body then let '(m, e) := decimal_of body in f64_of_decimal m e
       else match body with
            | b :: _ => if (b =? 110) || (b =? 78) then F64_NAN else F64_INFINITY
            | [] => F64_NAN
            end)).

(** ** [{:e}] *)

(** The decimal exponent of a number of [u] units, by dividing or multiplying by ten. *)
Fixpoint scale_down (fuel : nat) (n p : Z) : Z :=
  match fuel with
  | O => p
  | S fuel' => if n <? 10 then p else scale_down fuel' (n / 10) (p + 1)
  end.

Fixpoint scale_up (fuel : nat) (u p : Z) : Z :=
  match fuel with
  | O => p
  | S fuel' => if F64_ONE <=? u then p else scale_up fuel' (u * 10) (p - 1)
  end.

Definition decimal_exponent (u : Z) : Z :=
  if F64_ONE <=? u then scale_down 308 (u / F64_ONE) 0 else scale_up 324 u 0.

(** [u] units as a multiple of [10^s]. *)
Definition scaled (u s : Z) : Z * Z :=
  if 0 <=? s then (u, F64_ONE * 10 ^ s) else (u * 10 ^ (- s), F64_ONE).

(** Significand and scale of the shortest decimal that reads back as the bits [b]: with [k]
    digits only the multiples of [10^s] around the number can. *)
Fixpoint shortest_from (rounds : nat) (k p u b : Z) : Z * Z :=
  let s := p - k + 1 in
  let '(n, d) := scaled u s in
  let c := n / d in
  match rounds with
  | O => (c, s)
  | S rounds' =>
      let below := f64_of_decimal c s =? b in
      let above := f64_of_decimal (c + 1) s =? b in
      if below && above then ((if 2 * (n mod d) <? d then c else c + 1), s)
      else if below then (c, s)
      else if above then (c + 1, s)
      else shortest_from rounds' (k + 1) p u b
  end.

Definition shortest (b : Z) : Z * Z :=
  let u := f64_units b in shortest_from 17 1 (decimal_exponent u) u b.

(** The decimal digits of a number, and the number without its trailing zeros. *)
Fixpoint dec_digits (fuel : nat) (n : Z) : list Z :=
  match fuel with
  | O => []
  | S fuel' => (if n <? 10 then [] else dec_digits fuel' (n / 10)) ++ [48 + n mod 10]
  end.
Definition decimal_text (n : Z) : list Z := dec_digits 20 n.

Fixpoint trim_zeros (fuel : nat) (m s : Z) : Z * Z :=
  match fuel with
  | O => (m, s)
  | S fuel' => if m mod 10 =? 0 then trim_zeros fuel' (m / 10) (s + 1) else (m, s)
  end.

(** An [i32] in decimal. *)
Definition i32_text (n : Z) : list Z := if n <? 0 then 45 :: decimal_text (- n) else decimal_text n.

(** [format!("{:e}", n)] of a positive finite double. *)
Definition lower_exp (b : Z) : list Z :=
  let '(m, s) := shortest b in
  let '(m, s) := trim_zeros 20 m s in
  let digits := decimal_text m in
  let exp := s + len digits - 1 in
  match digits with
  | d :: ((_ :: _) as rest) => d :: 46 :: rest ++ 101 :: i32_text exp
  | _ => digits ++ 101 :: i32_text exp
  end.

(** ** [number_to_string] *)

(** [text.split_once(c)]. *)
Fixpoint split_once (c : Z) (s : list Z) : option (list Z * list Z) :=
  match s with
  | [] => None
  | b :: s' =>
      if b =? c then Some ([], s')
      else match split_once c s' with
           | Some (before, after) => Some (b :: before, after)
           | None => None
           end
  end.

(** [str::parse::<i32>]. *)
Definition i32_parse (s : list Z) : option Z :=
  let lo := -2147483648 in
  let hi := 2147483647 in
  match s with
  | [] | [43] | [45] => None
  | 43 :: s' => from_digits 10 1 lo hi 0 s'
  | 45 :: s' => from_digits 10 (-1) lo hi 0 s'
  | _ => from_digits 10 1 lo hi 0 s
  end.

Definition zeros (n : Z) : list Z := replicate (Z.to_nat n) 48.

(** The layout of the digits around the decimal point. *)
Definition decimal_layout (digits : list Z) (dot : Z) : list Z :=
  let declen := len digits in
  if (-5 <=? dot) && (dot <=? 21) then
    (if dot <=? 0 then 48 :: 46 :: zeros (- dot) ++ digits
     else if declen <=? dot then digits ++ zeros (dot - declen)
     else take (Z.to_nat dot) digits ++ 46 :: drop (Z.to_nat dot) digits)
  else
    let lead := take 1 digits in
    let frac := drop 1 digits in
    let mantissa := match frac with [] => lead | _ => lead ++ 46 :: frac end in
    let e := dot - 1 in
    mantissa ++ 101 :: (if e <? 0 then 45 else 43) :: (if Z.abs e <? 10 then [48] else []) ++ decimal_text (Z.abs e).

(** [None] is a failed [expect]. *)
Definition number_to_string (n : Z) : option (list Z) :=
  if f64_is_nan n then Some (bytes_of "nan")
  else if f64_is_infinite n then Some (bytes_of (if f64_neg n then "-inf" else "inf"))
  else
    let sign := if f64_neg n then [45] else [] in
    if f64_is_zero n then Some (sign ++ [48])
    else
      let sci := lower_exp (f64_abs n) in
      '(mantissa, exp) ← split_once 101 sci;
      exp ← i32_parse exp;
      let digits := List.filter (fun c => negb (c =? 46)) mantissa in
      let dot := exp + 1 in
      Some (sign ++ decimal_layout digits dot).

(** ** [str_to_number] *)

Definition is_ascii_whitespace (c : Z) : bool := (c =? 32) || (c =? 9) || (c =? 10) || (c =? 12) || (c =? 13).

Fixpoint trim_start (s : list Z) : list Z :=
  match s with b :: s' => if is_ascii_whitespace b then trim_start s' else s | [] => [] end.
(** [text.trim_matches(..)]. *)
Definition trim_whitespace (s : list Z) : list Z := rev (trim_start (rev (trim_start s))).

Definition has_byte (s : list Z) (c : Z) : bool := bool_decide (c ∈ s).

Definition parse_signed_exponent (s : list Z) : option Z :=
  let '(negative, digits) :=
    match s with
    | 43 :: s' => (false, s')
    | 45 :: s' => (true, s')
    | _ => (false, s)
    end in
  if bool_decide (digits = []) || negb (forallb is_ascii_digit digits) then None
  else
    let magnitude := default 2147483647 (i32_parse digits) in
    Some (if (negative : bool) then - magnitude else magnitude).

Definition i32_saturating_sub (a b : Z) : Z := Z.max (-2147483648) (Z.min 2147483647 (a - b)).

Section StrToNumber.
Context {FU : FloatUnspecified}.

(** The loop over the bytes of a hexadecimal mantissa: value, a digit seen, a point seen, digits
    after it. *)
Fixpoint hex_mantissa (s : list Z) (value : Z) (saw_digit saw_dot : bool) (fraction_digits : Z) : option (Z * bool * Z) :=
  match s with
  | [] => Some (value, saw_digit, fraction_digits)
  | byte :: s' =>
      if byte =? 46 then (if saw_dot then None else hex_mantissa s' value saw_digit true fraction_digits)
      else
        digit ← hex_value byte;
        let value := f64_add_pos (f64_mul_pos value (f64_of_u64 16)) (f64_of_u64 digit) in
        hex_mantissa s' value true saw_dot (if saw_dot then Z.min 2147483647 (fraction_digits + 1) else fraction_digits)
  end.

Definition parse_hex_float (s : list Z) : option Z :=
  let '(mantissa, exponent) :=
    match split_once 112 s with
    | Some r => r
    | None => match split_once 80 s with Some r => r | None => (s, [48]) end
    end in
  if bool_decide (mantissa = []) || bool_decide (exponent = []) then None
  else
    '(value, saw_digit, fraction_digits) ← hex_mantissa mantissa 0 false false 0;
    if negb saw_digit then None
    else
      exponent ← parse_signed_exponent exponent;
      Some (f64_mul_pos value (powi2 (i32_saturating_sub exponent (as_i32 (4 * fraction_digits))))).

Definition str_to_number (bytes : list Z) : option Z :=
  match (from_utf8 (length bytes) 0 bytes).2 with
  | Some _ => None
  | None =>
      let s := trim_whitespace bytes in
      match s with
      | [] => None
      | _ =>
          let '(negative, body) :=
            match s with
            | 45 :: s' => (true, s')
            | 43 :: s' => (false, s')
            | _ => (false, s)
            end in
          match strip_radix 120 88 body with
          | Some hex =>
              if has_byte hex 46 || has_byte hex 112 || has_byte hex 80 then with_sign negative <$> parse_hex_float hex
              else (fun magnitude => with_sign negative (f64_of_u64 magnitude)) <$> u64_from_str_radix hex 16
          | None => f64_parse s
          end
      end
  end.
End StrToNumber.

#[local] Opaque F64_ONE.

Lemma F64_ONE_pos : 0 < F64_ONE.
Proof. reflexivity. Qed.
#[local] Hint Resolve F64_ONE_pos : core.

Lemma pow10_pos e : 0 <= e -> 0 < 10 ^ e.
Proof. intros. apply Z.pow_pos_nonneg; lia. Qed.

(** ** Rounding to the nearest integer *)

Lemma div_half_even_near a b k : 0 < b -> 2 * Z.abs (a - k * b) < b -> div_half_even a b = k.
Proof.
  intros Hb Hk. unfold div_half_even. pose proof (Z.div_mod a b ltac:(lia)). pose proof (Z.mod_pos_bound a b Hb).
  set (q := a / b) in *. set (r := a mod b) in *. assert (k = q \/ k = q + 1) as Hkq by nia.
  destruct (Z.ltb_spec b (2 * r)); [nia|]. destruct (Z.eqb_spec (2 * r) b); cbn [andb]; [nia|]. nia.
Qed.

Lemma div_half_even_bounds a b : 0 < b -> a / b <= div_half_even a b <= a / b + 1.
Proof. intros Hb. unfold div_half_even. repeat case_match; lia. Qed.

Lemma div_ratio_le a b a' b' : 0 < b -> 0 < b' -> a * b' <= a' * b -> a / b <= a' / b'.
Proof.
  intros Hb Hb' H. apply Z.div_le_lower_bound; [done|]. apply (Z.mul_le_mono_pos_r _ _ b); [done|].
  pose proof (Z.mul_div_le a b Hb). nia.
Qed.

Lemma div_half_even_mono a b a' b' :
  0 < b -> 0 < b' -> a * b' <= a' * b -> div_half_even a b <= div_half_even a' b'.
Proof.
  intros Hb Hb' H. pose proof (div_half_even_bounds a b Hb). pose proof (div_half_even_bounds a' b' Hb').
  pose proof (Z.div_mod a b ltac:(lia)). pose proof (Z.mod_pos_bound a b Hb).
  pose proof (Z.div_mod a' b' ltac:(lia)). pose proof (Z.mod_pos_bound a' b' Hb').
  pose proof (div_ratio_le a b a' b' Hb Hb' H) as Hq.
  destruct (Z.eq_dec (a / b) (a' / b')) as [Heq|]; [|lia].
  unfold div_half_even in *. rewrite <- Heq in *. set (q := a / b) in *. set (r := a mod b) in *. set (r' := a' mod b') in *.
  assert (r * b' <= r' * b) as Hr by nia.
  destruct (Z.ltb_spec b (2 * r)), (Z.ltb_spec b' (2 * r')); try lia; [nia|].
  destruct (Z.eqb_spec (2 * r) b), (Z.eqb_spec (2 * r') b'); cbn [andb] in *; first [lia|nia|case_match; lia].
Qed.

Lemma div_half_even_exact k b : 0 < b -> div_half_even (k * b) b = k.
Proof. intros Hb. apply div_half_even_near; [done|]. rewrite Z.sub_diag. cbn. lia. Qed.

Lemma div_half_even_le a b k : 0 < b -> a <= k * b -> div_half_even a b <= k.
Proof. intros Hb H. rewrite <- (div_half_even_exact k b Hb). apply div_half_even_mono; nia. Qed.

Lemma div_half_even_ge a b k : 0 < b -> k * b <= a -> k <= div_half_even a b.
Proof. intros Hb H. rewrite <- (div_half_even_exact k b Hb). apply div_half_even_mono; nia. Qed.

(** ** Rounding to a double *)

(** Exponent of the last place and significand of a ratio. *)
Definition place (n den : Z) : Z := Z.max 0 (Z.log2 (n / den) - 52).

Lemma f64_of_ratio_unfold num den :
  f64_of_ratio num den =
    Z.min F64_INFINITY (place (num * F64_ONE) den * HIDDEN_BIT + div_half_even (num * F64_ONE) (den * 2 ^ place (num * F64_ONE) den)).
Proof. done. Qed.

Lemma log2_ratio n den k : 0 < den -> 0 <= k -> 2 ^ k * den <= n < 2 ^ (k + 1) * den -> Z.log2 (n / den) = k.
Proof.
  intros Hd Hk [Hlo Hhi]. apply Z.log2_unique; [done|]. split.
  - apply Z.div_le_lower_bound; lia.
  - apply Z.div_lt_upper_bound; [done|]. replace (Z.succ k) with (k + 1) by lia. lia.
Qed.

Lemma place_small n den : 0 < den -> 0 <= n < 2 ^ 53 * den -> place n den = 0.
Proof.
  intros Hd Hn. unfold place. assert (n / den < 2 ^ 53) by (apply Z.div_lt_upper_bound; lia).
  assert (0 <= n / den) by (apply Z.div_pos; lia). destruct (Z.eq_dec (n / den) 0) as [->|]; [done|].
  pose proof (proj1 (Z.log2_lt_pow2 (n / den) 53 ltac:(lia)) ltac:(done)). lia.
Qed.

Lemma place_exact n den q : 0 < den -> 0 <= q -> 2 ^ (52 + q) * den <= n < 2 ^ (53 + q) * den -> place n den = q.
Proof.
  intros Hd Hq Hn. unfold place. rewrite (log2_ratio n den (52 + q)); [lia|done|lia|].
  replace (52 + q + 1) with (53 + q) by lia. done.
Qed.

(** What the place says of the number. *)
Lemma place_spec n den : 0 < den -> 0 <= n ->
  let q := place n den in 0 <= q /\ n < 2 ^ 53 * (den * 2 ^ q) /\ (0 < q -> 2 ^ 52 * (den * 2 ^ q) <= n).
Proof.
  intros Hd Hn q. assert (0 <= q) as Hq by (unfold q, place; lia). split; [done|].
  pose proof (Z.pow_pos_nonneg 2 q ltac:(lia) Hq) as Hp.
  assert (0 <= n / den) as Hx by (apply Z.div_pos; lia).
  pose proof (Z.div_mod n den ltac:(lia)) as Hdm. pose proof (Z.mod_pos_bound n den Hd) as Hm.
  destruct (Z.eq_dec (n / den) 0) as [H0|Hne].
  - assert (q = 0) as -> by (unfold q, place; by rewrite H0). split; [|lia]. rewrite H0 in Hdm. change (2 ^ 0) with 1. nia.
  - destruct (Z.log2_spec (n / den) ltac:(lia)) as [Hlo Hhi]. set (l := Z.log2 (n / den)) in *.
    assert (q = Z.max 0 (l - 52)) as Eq by done. split.
    + assert (2 ^ Z.succ l <= 2 ^ (53 + q)) as H by (apply Z.pow_le_mono_r; lia). rewrite Z.pow_add_r in H by lia. nia.
    + intros Hpos. assert (l = 52 + q) as El by lia. rewrite El, Z.pow_add_r in Hlo by lia. nia.
Qed.

Lemma place_mono n den n' den' :
  0 < den -> 0 < den' -> 0 <= n -> n * den' <= n' * den -> place n den <= place n' den'.
Proof.
  intros Hd Hd' Hn H. unfold place. pose proof (div_ratio_le n den n' den' Hd Hd' H) as Hq. apply Z.log2_le_mono in Hq. lia.
Qed.

Lemma f64_of_ratio_mono num den num' den' :
  0 < den -> 0 < den' -> 0 <= num -> num * den' <= num' * den -> f64_of_ratio num den <= f64_of_ratio num' den'.
Proof.
  intros Hd Hd' Hn H. rewrite !f64_of_ratio_unfold. pose proof F64_ONE_pos as H1. set (n := num * F64_ONE). set (n' := num' * F64_ONE).
  assert (n * den' <= n' * den) as Hle by (unfold n, n'; nia). assert (0 <= n) as Hn0 by (unfold n; nia). assert (0 <= n') as Hn0' by nia.
  pose proof (place_mono n den n' den' Hd Hd' Hn0 Hle) as Hp.
  destruct (place_spec n den Hd Hn0) as (Hq & Hlt & _). destruct (place_spec n' den' Hd' Hn0') as (Hq' & _ & Hge).
  set (q := place n den) in *. set (q' := place n' den') in *.
  pose proof (Z.pow_pos_nonneg 2 q ltac:(lia) Hq). pose proof (Z.pow_pos_nonneg 2 q' ltac:(lia) Hq').
  assert (div_half_even n (den * 2 ^ q) <= 2 ^ 53) as Hk by (apply div_half_even_le; lia || nia).
  apply Z.min_le_compat_l. unfold HIDDEN_BIT. destruct (Z.eq_dec q q') as [<-|Hne].
  - pose proof (div_half_even_mono n (den * 2 ^ q) n' (den' * 2 ^ q) ltac:(nia) ltac:(nia) ltac:(nia)). lia.
  - pose proof (div_half_even_ge n' (den' * 2 ^ q') (2 ^ 52) ltac:(nia) (Hge ltac:(lia))) as Hk'.
    change (2 ^ 53) with 9007199254740992 in Hk. change (2 ^ 52) with 4503599627370496 in Hk'. lia.
Qed.

Lemma f64_of_ratio_ext num den num' den' :
  0 < den -> 0 < den' -> 0 <= num -> num * den' = num' * den -> f64_of_ratio num den = f64_of_ratio num' den'.
Proof. intros. apply Z.le_antisymm; apply f64_of_ratio_mono; try done; try nia. Qed.

(** ** The bits of a finite number *)

(** A finite number without sign is [k * 2^q] units, and its bits are [q * HIDDEN_BIT + k]. *)
Lemma f64_fields_of b :
  0 <= b < F64_INFINITY ->
  exists q k, 0 <= q /\ 0 <= k < 2 ^ 53 /\ (0 < q -> 2 ^ 52 <= k) /\ f64_units b = k * 2 ^ q /\ b = q * HIDDEN_BIT + k /\ q <= 2045.
Proof.
  unfold F64_INFINITY. intros Hb. unfold f64_units, f64_exp, f64_man, HIDDEN_BIT.
  pose proof (Z.div_mod b 4503599627370496 ltac:(lia)). pose proof (Z.mod_pos_bound b 4503599627370496 ltac:(lia)).
  rewrite (Z.mod_small (b / 4503599627370496)) by zdm. set (e := b / 4503599627370496) in *. set (m := b mod 4503599627370496) in *.
  assert (0 <= e <= 2046) by (unfold e; zdm). change (2 ^ 53) with 9007199254740992. change (2 ^ 52) with 4503599627370496.
  destruct (Z.eqb_spec e 0) as [He|He].
  - exists 0, m. split_and!; lia.
  - exists (e - 1), (m + 4503599627370496). split_and!; lia.
Qed.

(** A ratio close to a number rounds to it. *)
Lemma f64_of_ratio_near b num den :
  0 <= b < F64_INFINITY -> 0 < den -> 0 <= num ->
  2 ^ 54 * Z.abs (num * F64_ONE - f64_units b * den) < f64_units b * den -> f64_of_ratio num den = b.
Proof.
  intros Hb Hd Hn. destruct (f64_fields_of b Hb) as (q0 & k0 & Hq0 & Hk0 & Hnorm & Hu & Hbits & _). rewrite Hu.
  rewrite f64_of_ratio_unfold. set (n := num * F64_ONE). assert (0 <= n) as Hn0 by (pose proof F64_ONE_pos; unfold n; nia).
  pose proof (Z.pow_pos_nonneg 2 q0 ltac:(lia) Hq0) as Hp.
  change (2 ^ 54) with 18014398509481984. change (2 ^ 53) with 9007199254740992 in Hk0. change (2 ^ 52) with 4503599627370496 in Hnorm.
  set (P := den * 2 ^ q0). assert (0 < P) as HP by (unfold P; nia). replace (k0 * 2 ^ q0 * den) with (k0 * P) by (unfold P; lia). intros Hnear.
  assert (2 * Z.abs (n - k0 * P) < P) as Hhalf by nia.
  destruct (decide (n < k0 * P /\ k0 = 4503599627370496 /\ 0 < q0)) as [(Hlow & -> & Hpos)|Hcase].
  - pose proof (Z.pow_pos_nonneg 2 (q0 - 1) ltac:(lia) ltac:(lia)) as Hp1.
    set (R := den * 2 ^ (q0 - 1)). assert (P = 2 * R) as HPR by (unfold P, R; replace q0 with (Z.succ (q0 - 1)) at 1 by lia; rewrite Z.pow_succ_r by lia; lia).
    assert (place n den = q0 - 1) as ->.
    { apply place_exact; [done|lia|]. rewrite !Z.pow_add_r by lia. change (2 ^ 52) with 4503599627370496. change (2 ^ 53) with 9007199254740992.
      rewrite <- !Z.mul_assoc, !(Z.mul_comm (2 ^ (q0 - 1)) den). fold R. lia. }
    fold R. rewrite (div_half_even_near n R 9007199254740992) by (unfold R; nia || lia). unfold HIDDEN_BIT, F64_INFINITY in *. lia.
  - assert (place n den = q0) as ->.
    { destruct (Z.eq_dec q0 0) as [->|].
      - apply place_small; [done|]. change (2 ^ 53) with 9007199254740992. unfold P in *. change (2 ^ 0) with 1 in *. split; [done|nia].
      - apply place_exact; [done|done|]. rewrite !Z.pow_add_r by lia. change (2 ^ 52) with 4503599627370496. change (2 ^ 53) with 9007199254740992.
        rewrite <- !Z.mul_assoc, !(Z.mul_comm (2 ^ q0) den). fold P. specialize (Hnorm ltac:(lia)). split; [|nia].
        destruct (Z.le_gt_cases (k0 * P) n); [nia|]. assert (k0 <> 4503599627370496) by (intros ->; apply Hcase; lia). nia. }
    fold P. rewrite (div_half_even_near n P k0) by done. unfold HIDDEN_BIT, F64_INFINITY in *. lia.
Qed.

(** ** Decimals *)

(** [m * 10^e] as a ratio. *)
Definition dec_num (m e : Z) : Z := if 0 <=? e then m * 10 ^ e else m.
Definition dec_den (e : Z) : Z := if 0 <=? e then 1 else 10 ^ (- e).

Lemma dec_den_pos e : 0 < dec_den e.
Proof. unfold dec_den. destruct (Z.leb_spec 0 e); [done|apply pow10_pos; lia]. Qed.
Lemma dec_num_nonneg m e : 0 <= m -> 0 <= dec_num m e.
Proof. intros. unfold dec_num. destruct (Z.leb_spec 0 e); [|done]. pose proof (pow10_pos e ltac:(lia)). nia. Qed.
Lemma f64_of_decimal_ratio m e : f64_of_decimal m e = f64_of_ratio (dec_num m e) (dec_den e).
Proof. unfold f64_of_decimal, dec_num, dec_den. by destruct (0 <=? e). Qed.

(** Decimals compare as their significands at a common scale. *)
Lemma dec_common m e s : s <= e -> dec_num m e * dec_den s = dec_num (m * 10 ^ (e - s)) s * dec_den e.
Proof.
  intros Hs. unfold dec_num, dec_den. destruct (Z.leb_spec 0 e), (Z.leb_spec 0 s); try lia.
  - replace (10 ^ e) with (10 ^ (e - s) * 10 ^ s) by (rewrite <- Z.pow_add_r by lia; f_equal; lia). ring.
  - replace (10 ^ (e - s)) with (10 ^ e * 10 ^ (- s)) by (rewrite <- Z.pow_add_r by lia; f_equal; lia). ring.
  - replace (10 ^ (- s)) with (10 ^ (e - s) * 10 ^ (- e)) by (rewrite <- Z.pow_add_r by lia; f_equal; lia). ring.
Qed.

(** A decimal with trailing zeros is the decimal without. *)
Lemma f64_of_decimal_shift m s j : 0 <= m -> 0 <= j -> f64_of_decimal (m * 10 ^ j) s = f64_of_decimal m (s + j).
Proof.
  intros Hm Hj. rewrite !f64_of_decimal_ratio. symmetry. apply f64_of_ratio_ext; [apply dec_den_pos..|by apply dec_num_nonneg|].
  rewrite dec_common by lia. by replace (s + j - s) with j by lia.
Qed.

Lemma dec_num_mono m m' s : m <= m' -> dec_num m s <= dec_num m' s.
Proof. intros H. unfold dec_num. destruct (Z.leb_spec 0 s); [|done]. pose proof (pow10_pos s ltac:(lia)). nia. Qed.

Lemma f64_of_decimal_mono m m' s : 0 <= m <= m' -> f64_of_decimal m s <= f64_of_decimal m' s.
Proof.
  intros H. rewrite !f64_of_decimal_ratio. apply f64_of_ratio_mono; [apply dec_den_pos..|apply dec_num_nonneg; lia|].
  pose proof (dec_num_mono m m' s ltac:(lia)). pose proof (dec_den_pos s). nia.
Qed.

(** ** [u] units at a scale *)

Lemma scaled_den_pos u s : 0 < (scaled u s).2.
Proof.
  unfold scaled. pose proof F64_ONE_pos. destruct (Z.leb_spec 0 s); cbn; [|done]. pose proof (pow10_pos s ltac:(lia)). nia.
Qed.

(** [c * 10^s] against [u] units. *)
Lemma scaled_dec u s c : dec_num c s * F64_ONE = c * (scaled u s).2 /\ u * dec_den s = (scaled u s).1.
Proof. unfold dec_num, dec_den, scaled. destruct (Z.leb_spec 0 s); cbn; lia. Qed.

Lemma scaled_shift u s j :
  0 <= j -> (scaled u (s - j)).1 * (scaled u s).2 = (scaled u s).1 * 10 ^ j * (scaled u (s - j)).2.
Proof.
  intros Hj. unfold scaled. destruct (Z.leb_spec 0 s), (Z.leb_spec 0 (s - j)); try lia; cbn.
  - replace (10 ^ s) with (10 ^ (s - j) * 10 ^ j) by (rewrite <- Z.pow_add_r by lia; f_equal; lia). lia.
  - replace (10 ^ j) with (10 ^ (- (s - j)) * 10 ^ s) by (rewrite <- Z.pow_add_r by lia; f_equal; lia). lia.
  - replace (10 ^ (- (s - j))) with (10 ^ (- s) * 10 ^ j) by (rewrite <- Z.pow_add_r by lia; f_equal; lia). lia.
Qed.

(** A decimal close to a number reads back as it. *)
Lemma f64_of_decimal_near b c s :
  0 <= b < F64_INFINITY -> 0 <= c ->
  2 ^ 54 * Z.abs (c * (scaled (f64_units b) s).2 - (scaled (f64_units b) s).1) < (scaled (f64_units b) s).1 -> f64_of_decimal c s = b.
Proof.
  intros Hb Hc H. rewrite f64_of_decimal_ratio. apply f64_of_ratio_near; [done|apply dec_den_pos|by apply dec_num_nonneg|].
  destruct (scaled_dec (f64_units b) s c) as [-> ->]. done.
Qed.

(** ** The decimal exponent *)

Lemma scale_down_spec fuel n p :
  1 <= n < 10 ^ Z.of_nat (S fuel) -> exists j, 0 <= j <= Z.of_nat fuel /\ scale_down fuel n p = p + j /\ 10 ^ j <= n < 10 ^ (j + 1).
Proof.
  revert n p. induction fuel as [|fuel IH]; intros n p Hn; cbn [scale_down].
  - exists 0. split; [lia|]. split; [lia|]. change (10 ^ Z.of_nat 1) with 10 in Hn. change (10 ^ 0) with 1. change (10 ^ (0 + 1)) with 10. lia.
  - destruct (Z.ltb_spec n 10).
    + exists 0. split; [lia|]. split; [lia|]. change (10 ^ 0) with 1. change (10 ^ (0 + 1)) with 10. lia.
    + destruct (IH (n / 10) (p + 1)) as (j & Hj & -> & Hlo & Hhi).
      { rewrite Nat2Z.inj_succ, Z.pow_succ_r in Hn by lia. zdm. }
      exists (j + 1). split; [lia|]. split; [lia|]. rewrite (Z.pow_add_r 10 (j + 1) 1), (Z.pow_add_r 10 j 1) in * by lia.
      change (10 ^ 1) with 10 in *. zdm.
Qed.

Lemma scale_up_spec fuel u p :
  0 < u < 10 * F64_ONE -> F64_ONE <= u * 10 ^ Z.of_nat fuel ->
  exists j, 0 <= j <= Z.of_nat fuel /\ scale_up fuel u p = p - j /\ F64_ONE <= u * 10 ^ j < 10 * F64_ONE.
Proof.
  revert u p. induction fuel as [|fuel IH]; intros u p Hu Hf; cbn [scale_up].
  - exists 0. change (10 ^ Z.of_nat 0) with 1 in Hf. change (10 ^ 0) with 1. lia.
  - destruct (Z.leb_spec F64_ONE u); [exists 0; change (10 ^ 0) with 1; lia|].
    destruct (IH (u * 10) (p - 1)) as (j & Hj & -> & Hb); [lia|rewrite Nat2Z.inj_succ, Z.pow_succ_r in Hf by lia; lia|].
    exists (j + 1). rewrite Z.pow_add_r by lia. change (10 ^ 1) with 10. lia.
Qed.

(** A finite number lies between two powers of ten. *)
Lemma decimal_exponent_spec b :
  0 < b < F64_INFINITY ->
  let u := f64_units b in let p := decimal_exponent u in -324 <= p <= 308 /\ (scaled u p).2 <= (scaled u p).1 < 10 * (scaled u p).2.
Proof.
  intros Hb u. destruct (f64_fields_of b ltac:(lia)) as (q & k & Hq & Hk & Hnorm & Hu & Hbits & Hq2). fold u in Hu.
  pose proof (Z.pow_pos_nonneg 2 q ltac:(lia) Hq) as Hp. pose proof F64_ONE_pos as H1.
  assert (0 < u) as Hpos.
  { rewrite Hu. assert (k <> 0) by (intros ->; destruct (Z.eq_dec q 0) as [->|]; [unfold HIDDEN_BIT in Hbits; lia|specialize (Hnorm ltac:(lia)); change (2 ^ 52) with 4503599627370496 in Hnorm; lia]). nia. }
  assert (u < 10 ^ 309 * F64_ONE) as Hbig.
  { rewrite Hu. assert (2 ^ q <= 2 ^ 2045) by (apply Z.pow_le_mono_r; lia).
    apply (Z.lt_le_trans _ (2 ^ 53 * 2 ^ 2045)); [nia|]. by vm_compute. }
  unfold decimal_exponent. destruct (Z.leb_spec F64_ONE u).
  - destruct (scale_down_spec 308 (u / F64_ONE) 0) as (j & Hj & -> & Hlo & Hhi).
    { split; [apply Z.div_le_lower_bound; lia|]. apply Z.div_lt_upper_bound; [done|]. change (Z.of_nat 309) with 309. lia. }
    split; [lia|]. unfold scaled. rewrite (proj2 (Z.leb_le _ _)) by lia. cbn [fst snd]. rewrite Z.add_0_l. rewrite Z.pow_add_r in Hhi by lia.
    change (10 ^ 1) with 10 in Hhi. pose proof (Z.div_mod u F64_ONE ltac:(lia)). pose proof (Z.mod_pos_bound u F64_ONE H1). nia.
  - destruct (scale_up_spec 324 u 0) as (j & Hj & -> & Hlo & Hhi); [lia| |].
    { apply (Z.le_trans _ (1 * 10 ^ Z.of_nat 324)); [by vm_compute|]. pose proof (pow10_pos (Z.of_nat 324) ltac:(lia)). nia. }
    split; [lia|]. unfold scaled. destruct (Z.leb_spec 0 (0 - j)); cbn [fst snd].
    + assert (j = 0) as -> by lia. change (10 ^ (0 - 0)) with 1. change (10 ^ 0) with 1 in *. lia.
    + replace (- (0 - j)) with j by lia. lia.
Qed.

(** ** The shortest decimal *)

Definition candidate (b p k : Z) : Z := (scaled (f64_units b) (p - k + 1)).1 / (scaled (f64_units b) (p - k + 1)).2.
Definition reads_near (b p k : Z) : Prop :=
  f64_of_decimal (candidate b p k) (p - k + 1) = b \/ f64_of_decimal (candidate b p k + 1) (p - k + 1) = b.

Lemma shortest_from_spec rounds k p b k1 :
  k <= k1 < k + Z.of_nat rounds -> reads_near b p k1 ->
  exists k0 m, k <= k0 <= k1 /\ shortest_from rounds k p (f64_units b) b = (m, p - k0 + 1) /\
    candidate b p k0 <= m <= candidate b p k0 + 1 /\ f64_of_decimal m (p - k0 + 1) = b /\ forall j, k <= j < k0 -> ~ reads_near b p j.
Proof.
  revert k. induction rounds as [|rounds IH]; intros k Hk H1; [lia|]. cbn [shortest_from].
  destruct (scaled (f64_units b) (p - k + 1)) as [n d] eqn:Es. assert (n / d = candidate b p k) as -> by (unfold candidate; by rewrite Es).
  destruct (Z.eqb_spec (f64_of_decimal (candidate b p k) (p - k + 1)) b) as [Hlo|Hlo], (Z.eqb_spec (f64_of_decimal (candidate b p k + 1) (p - k + 1)) b) as [Hhi|Hhi]; cbn [andb].
  - case_match; eexists k, _; (split; [lia|]; split; [done|]; split; [lia|]; split; [done|lia]).
  - eexists k, _; (split; [lia|]; split; [done|]; split; [lia|]; split; [done|lia]).
  - eexists k, _; (split; [lia|]; split; [done|]; split; [lia|]; split; [done|lia]).
  - assert (~ reads_near b p k) as Hno by (intros [?|?]; done). destruct (Z.eq_dec k k1) as [->|]; [done|].
    destruct (IH (k + 1)) as (k0 & m & Hk0 & E & Hm & Hr & Hmin); [lia|done|].
    exists k0, m. split; [lia|]. split; [done|]. split; [done|]. split; [done|].
    intros j Hj. destruct (Z.eq_dec j k) as [->|]; [done|]. apply Hmin. lia.
Qed.

(** With [k] digits the number has exactly [k] digits before the point. *)
Lemma scaled_digits b k :
  0 < b < F64_INFINITY -> 1 <= k ->
  let p := decimal_exponent (f64_units b) in
  let n := (scaled (f64_units b) (p - k + 1)).1 in let d := (scaled (f64_units b) (p - k + 1)).2 in
  0 < d /\ 10 ^ (k - 1) * d <= n < 10 ^ k * d.
Proof.
  intros Hb Hk p n d. destruct (decimal_exponent_spec b Hb) as [_ Hp]. fold p in Hp.
  pose proof (scaled_shift (f64_units b) p (k - 1) ltac:(lia)) as Hs. replace (p - (k - 1)) with (p - k + 1) in Hs by lia. fold n d in Hs.
  pose proof (scaled_den_pos (f64_units b) p) as H1. pose proof (scaled_den_pos (f64_units b) (p - k + 1)) as H2. fold d in H2. split; [done|].
  set (n0 := (scaled (f64_units b) p).1) in *. set (d0 := (scaled (f64_units b) p).2) in *. pose proof (pow10_pos (k - 1) ltac:(lia)) as Ht.
  replace (10 ^ k) with (10 * 10 ^ (k - 1)) by (rewrite <- Z.pow_succ_r by lia; f_equal; lia). set (t := 10 ^ (k - 1)) in *.
  split; apply Z.nlt_ge + apply Z.nle_gt; intros Hn.
  - assert (n * d0 < t * d * d0) by nia. assert (d0 * t * d <= n0 * t * d) by nia. lia.
  - assert (10 * t * d * d0 <= n * d0) by nia. assert (n0 * t * d < 10 * d0 * t * d) by nia. lia.
Qed.

Lemma candidate_bounds b k :
  0 < b < F64_INFINITY -> 1 <= k -> 10 ^ (k - 1) <= candidate b (decimal_exponent (f64_units b)) k < 10 ^ k.
Proof.
  intros Hb Hk. destruct (scaled_digits b k Hb Hk) as (Hd & Hlo & Hhi). unfold candidate.
  split; [apply Z.div_le_lower_bound; lia|apply Z.div_lt_upper_bound; lia].
Qed.

(** Seventeen digits are enough. *)
Lemma seventeen_digits b : 0 < b < F64_INFINITY -> reads_near b (decimal_exponent (f64_units b)) 17.
Proof.
  intros Hb. destruct (scaled_digits b 17 Hb ltac:(lia)) as (Hd & Hlo & _). pose proof (candidate_bounds b 17 Hb ltac:(lia)) as [Hc _].
  set (p := decimal_exponent (f64_units b)) in *. set (s := p - 17 + 1) in *. unfold reads_near, candidate in *. fold s in Hc |- *.
  change (10 ^ (17 - 1)) with 10000000000000000 in *. remember (scaled (f64_units b) s) as sc eqn:Esc. destruct sc as [n d]. cbn [fst snd] in *.
  pose proof (Z.div_mod n d ltac:(lia)) as Hdm. pose proof (Z.mod_pos_bound n d Hd) as Hm.
  destruct (Z.le_gt_cases (2 * (n mod d)) d); [left|right]; (apply f64_of_decimal_near; [lia|lia|]; rewrite <- Esc; cbn [fst snd]);
    change (2 ^ 54) with 18014398509481984.
  - replace (n / d * d - n) with (- (n mod d)) by lia. lia.
  - replace ((n / d + 1) * d - n) with (d - n mod d) by lia. lia.
Qed.

(** Reading is exact on the number itself, so the candidates lie on both sides. *)
Lemma candidates_around b p k :
  0 < b < F64_INFINITY -> 0 <= candidate b p k ->
  f64_of_decimal (candidate b p k) (p - k + 1) <= b <= f64_of_decimal (candidate b p k + 1) (p - k + 1).
Proof.
  intros Hb Hc. pose proof F64_ONE_pos as H1. set (s := p - k + 1).
  assert (f64_of_ratio (f64_units b) F64_ONE = b) as Hex.
  { assert (0 < f64_units b) as Hu by (destruct (decimal_exponent_spec b Hb) as [_ Hp]; revert Hp; unfold scaled; case_match; cbn; intros; [nia|];
      pose proof (pow10_pos (- decimal_exponent (f64_units b)) ltac:(lia)); nia).
    apply f64_of_ratio_near; [lia|done|lia|]. rewrite Z.sub_diag, Z.abs_0. nia. }
  rewrite <- Hex at 2 3. rewrite !f64_of_decimal_ratio. pose proof (dec_den_pos s) as Hd. pose proof (scaled_den_pos (f64_units b) s) as Hsd.
  destruct (scaled_dec (f64_units b) s (candidate b p k)) as [E1 E2]. destruct (scaled_dec (f64_units b) s (candidate b p k + 1)) as [E3 _].
  unfold candidate in *. fold s in E1, E3, Hc |- *. set (n := (scaled (f64_units b) s).1) in *. set (d := (scaled (f64_units b) s).2) in *.
  pose proof (Z.div_mod n d ltac:(lia)). pose proof (Z.mod_pos_bound n d Hsd).
  split; apply f64_of_ratio_mono; try done; try (apply dec_num_nonneg; lia); lia || nia.
Qed.

(** No decimal with fewer digits reads back. *)
Lemma no_shorter b k m e :
  0 < b < F64_INFINITY -> 1 <= k -> 0 <= m < 10 ^ k -> ~ reads_near b (decimal_exponent (f64_units b)) k -> f64_of_decimal m e <> b.
Proof.
  intros Hb Hk Hm Hno He. pose proof (candidate_bounds b k Hb Hk) as Hc. set (p := decimal_exponent (f64_units b)) in *.
  pose proof (pow10_pos (k - 1) ltac:(lia)) as Ht. destruct (candidates_around b p k Hb ltac:(lia)) as [Hlo Hhi].
  set (c := candidate b p k) in *. set (s := p - k + 1) in *.
  assert (f64_of_decimal c s < b) as Hlo'. { destruct (Z.eq_dec (f64_of_decimal c s) b); [|lia]. exfalso. apply Hno. by left. }
  assert (b < f64_of_decimal (c + 1) s) as Hhi'. { destruct (Z.eq_dec (f64_of_decimal (c + 1) s) b); [|lia]. exfalso. apply Hno. by right. }
  destruct (Z.le_gt_cases s e) as [Hse|Hse].
  - pose proof (f64_of_decimal_shift m s (e - s) ltac:(lia) ltac:(lia)) as Hsh. replace (s + (e - s)) with e in Hsh by lia.
    pose proof (pow10_pos (e - s) ltac:(lia)). set (M := m * 10 ^ (e - s)) in *. assert (0 <= M) by (unfold M; nia).
    destruct (Z.le_gt_cases M c); [pose proof (f64_of_decimal_mono M c s ltac:(lia))|pose proof (f64_of_decimal_mono (c + 1) M s ltac:(lia))]; lia.
  - pose proof (f64_of_decimal_mono m (10 ^ k) e ltac:(lia)) as H1.
    pose proof (f64_of_decimal_shift 1 e k ltac:(lia) ltac:(lia)) as H2. rewrite Z.mul_1_l in H2.
    pose proof (f64_of_decimal_shift 1 (e + k) (s - 1 - e) ltac:(lia) ltac:(lia)) as H3. rewrite Z.mul_1_l in H3.
    pose proof (pow10_pos (s - 1 - e) ltac:(lia)). pose proof (f64_of_decimal_mono 1 (10 ^ (s - 1 - e)) (e + k) ltac:(lia)) as H4.
    pose proof (f64_of_decimal_shift 1 s (k - 1) ltac:(lia) ltac:(lia)) as H5. rewrite Z.mul_1_l in H5.
    replace (e + k + (s - 1 - e)) with (s + (k - 1)) in H3 by lia.
    pose proof (f64_of_decimal_mono (10 ^ (k - 1)) c s ltac:(lia)) as H6. lia.
Qed.

Lemma f64_of_decimal_zero e : f64_of_decimal 0 e = 0.
Proof.
  rewrite f64_of_decimal_ratio. rewrite (f64_of_ratio_ext _ _ 0 1); [by vm_compute|apply dec_den_pos|done|by apply dec_num_nonneg|].
  unfold dec_num. by case_match.
Qed.

Lemma trim_zeros_none fuel m s : m mod 10 <> 0 -> trim_zeros fuel m s = (m, s).
Proof. intros H. destruct fuel; [done|]. cbn [trim_zeros]. by rewrite (proj2 (Z.eqb_neq _ _)). Qed.

(** The digits that [{:e}] prints: they read back, and no shorter ones do. *)
Lemma shortest_spec b :
  0 < b < F64_INFINITY ->
  exists m s k, trim_zeros 20 (shortest b).1 (shortest b).2 = (m, s) /\ 1 <= k <= 17 /\ 10 ^ (k - 1) <= m < 10 ^ k /\
    f64_of_decimal m s = b /\ -324 <= s + k - 1 <= 309 /\ forall m' e', 0 <= m' < 10 ^ (k - 1) -> f64_of_decimal m' e' <> b.
Proof.
  intros Hb. unfold shortest. cbv zeta. set (p := decimal_exponent (f64_units b)).
  pose proof (proj1 (decimal_exponent_spec b Hb)) as Hp. fold p in Hp.
  destruct (shortest_from_spec 17 1 p b 17 ltac:(lia) (seventeen_digits b Hb)) as (k & m & Hk & -> & Hm & Hr & Hmin). cbn [fst snd].
  pose proof (candidate_bounds b k Hb ltac:(lia)) as Hc. fold p in Hc. set (s := p - k + 1) in *.
  destruct (Z.eq_dec k 1) as [->|Hk2].
  - change (10 ^ (1 - 1)) with 1 in *. change (10 ^ 1) with 10 in Hc.
    assert (forall m' e', 0 <= m' < 1 -> f64_of_decimal m' e' <> b) as Hz.
    { intros m' e' H. assert (m' = 0) as -> by lia. rewrite f64_of_decimal_zero. lia. }
    destruct (Z.eq_dec m 10) as [->|].
    + exists 1, (s + 1), 1. change (10 ^ (1 - 1)) with 1. change (10 ^ 1) with 10. split; [done|]. do 2 (split; [lia|]). split; [|split; [lia|done]].
      rewrite <- Hr. change 10 with (1 * 10 ^ 1). by rewrite f64_of_decimal_shift by lia.
    + exists m, s, 1. change (10 ^ (1 - 1)) with 1. change (10 ^ 1) with 10. rewrite trim_zeros_none by (rewrite Z.mod_small; lia).
      split; [done|]. do 2 (split; [lia|]). split; [done|]. split; [lia|done].
  - assert (forall m' e', 0 <= m' < 10 ^ (k - 1) -> f64_of_decimal m' e' <> b) as Hz.
    { intros m' e' H. apply (no_shorter b (k - 1)); [done|lia|done|apply Hmin; lia]. }
    assert (10 ^ k = 10 * 10 ^ (k - 1)) as E by (rewrite <- Z.pow_succ_r by lia; f_equal; lia).
    assert (10 < 10 ^ k) as Hbig by (apply (Z.pow_lt_mono_r 10 1 k); lia).
    assert (m mod 10 <> 0) as Hmod.
    { intros H0. assert (m = m / 10 * 10 ^ 1) as Em by (change (10 ^ 1) with 10; zdm). rewrite Em, f64_of_decimal_shift in Hr by zdm.
      destruct (Z.eq_dec (m / 10) (10 ^ (k - 1))) as [Eq|]; [|by apply (Hz (m / 10) (s + 1)); [zdm|]].
      rewrite Eq, <- (Z.mul_1_l (10 ^ (k - 1))), f64_of_decimal_shift in Hr by lia. by apply (Hz 1 (s + 1 + (k - 1))); [lia|]. }
    exists m, s, k. rewrite trim_zeros_none by done. split; [done|]. split; [lia|]. split; [|split; [done|split; [lia|done]]].
    split; [lia|]. assert (m <> 10 ^ k) by (intros ->; apply Hmod; rewrite E; zdm). lia.
Qed.

(** ** Digits *)

Definition dec_value (acc : Z) (ds : list Z) : Z := foldl (fun a c => a * 10 + (c - 48)) acc ds.
Definition digits (ds : list Z) : Prop := Forall (fun c => is_ascii_digit c = true) ds.

Lemma is_digit_range c : is_ascii_digit c = true <-> 48 <= c <= 57.
Proof. unfold is_ascii_digit, between. lia. Qed.

Lemma dec_value_app acc a b : dec_value acc (a ++ b) = dec_value (dec_value acc a) b.
Proof. apply foldl_app. Qed.

Lemma dec_value_shift acc ds : dec_value acc ds = acc * 10 ^ len ds + dec_value 0 ds.
Proof.
  revert acc. induction ds as [|d ds IH]; intros acc; [unfold len; cbn; lia|].
  change (dec_value (acc * 10 + (d - 48)) ds = acc * 10 ^ len (d :: ds) + dec_value (0 * 10 + (d - 48)) ds). rewrite (IH (acc * 10 + _)), (IH (0 * 10 + _)).
  unfold len. cbn [length]. rewrite Nat2Z.inj_succ, Z.pow_succ_r by lia. lia.
Qed.

Lemma dec_value_nonneg acc ds : digits ds -> 0 <= acc -> acc <= dec_value acc ds.
Proof.
  intros Hd. revert acc. induction Hd as [|d ds Hd _ IH]; intros acc Ha; [unfold dec_value; cbn; lia|].
  apply is_digit_range in Hd. change (acc <= dec_value (acc * 10 + (d - 48)) ds). specialize (IH (acc * 10 + (d - 48)) ltac:(lia)). lia.
Qed.

Lemma zeros_digits n : digits (zeros n).
Proof. unfold zeros, digits. by apply Forall_replicate. Qed.

Lemma len_zeros n : 0 <= n -> len (zeros n) = n.
Proof. intros. unfold zeros, len. rewrite length_replicate. lia. Qed.

Lemma dec_value_zeros acc n : 0 <= n -> dec_value acc (zeros n) = acc * 10 ^ n.
Proof.
  intros Hn. rewrite dec_value_shift, len_zeros by done. unfold zeros. assert (forall j, dec_value 0 (replicate j 48) = 0) as ->; [|lia].
  induction j as [|j IH]; [done|]. exact IH.
Qed.

Lemma dec_digits_spec fuel n k :
  1 <= k <= Z.of_nat fuel -> 0 <= n < 10 ^ k -> (k = 1 \/ 10 ^ (k - 1) <= n) ->
  digits (dec_digits fuel n) /\ len (dec_digits fuel n) = k /\ dec_value 0 (dec_digits fuel n) = n.
Proof.
  revert n k. induction fuel as [|fuel IH]; intros n k Hk Hn Hlo; [lia|]. cbn [dec_digits].
  assert (is_ascii_digit (48 + n mod 10) = true) as Hd by (apply is_digit_range; zdm).
  destruct (Z.ltb_spec n 10) as [Hs|Hs].
  - assert (k = 1) as -> by (destruct Hlo as [|Hlo]; [done|]; destruct (Z.eq_dec k 1); [done|]; pose proof (Z.pow_le_mono_r 10 1 (k - 1) ltac:(lia) ltac:(lia)); change (10 ^ 1) with 10 in *; lia).
    split; [by repeat constructor|]. split; [done|]. unfold dec_value. cbn. zdm.
  - assert (2 <= k) as Hk2 by (destruct (Z.eq_dec k 1) as [->|]; [change (10 ^ 1) with 10 in Hn; lia|lia]).
    assert (10 ^ k = 10 * 10 ^ (k - 1)) as E1 by (rewrite <- Z.pow_succ_r by lia; f_equal; lia).
    assert (10 ^ (k - 1) = 10 * 10 ^ (k - 2)) as E2 by (rewrite <- Z.pow_succ_r by lia; f_equal; lia).
    destruct (IH (n / 10) (k - 1)) as (H1 & H2 & H3); [lia|zdm|right; replace (k - 1 - 1) with (k - 2) by lia; zdm|].
    split; [apply Forall_app; by repeat constructor|]. split.
    + unfold len in *. rewrite length_app. cbn. lia.
    + rewrite dec_value_app, H3. unfold dec_value. cbn. zdm.
Qed.

(** Reading digits takes them as far as they go. *)
Lemma read_digits_app acc ds rest : digits ds -> read_digits acc (ds ++ rest) = read_digits (dec_value acc ds) rest.
Proof. intros Hd. revert acc. induction Hd as [|d ds Hd _ IH]; intros acc; [done|]. cbn. rewrite Hd. apply IH. Qed.

Lemma drop_digits_app ds rest : digits ds -> drop_digits (ds ++ rest) = drop_digits rest.
Proof. induction 1 as [|d ds Hd _ IH]; [done|]. cbn. by rewrite Hd. Qed.

Lemma read_digits_all acc ds : digits ds -> read_digits acc ds = (dec_value acc ds, []).
Proof. intros Hd. rewrite <- (app_nil_r ds) at 1. by rewrite read_digits_app. Qed.

Lemma drop_digits_all ds : digits ds -> drop_digits ds = [].
Proof. intros Hd. rewrite <- (app_nil_r ds). by rewrite drop_digits_app. Qed.

Lemma from_digits_value sign lo hi acc ds :
  digits ds -> (sign = 1 \/ sign = -1) -> 0 <= acc -> lo <= - dec_value acc ds -> dec_value acc ds <= hi ->
  from_digits 10 sign lo hi (sign * acc) ds = Some (sign * dec_value acc ds).
Proof.
  intros Hd Hs. revert acc. induction Hd as [|d ds Hd Hds IH]; intros acc Ha Hlo Hhi; [done|]. apply is_digit_range in Hd.
  change (dec_value acc (d :: ds)) with (dec_value (acc * 10 + (d - 48)) ds) in *.
  pose proof (dec_value_nonneg (acc * 10 + (d - 48)) ds Hds ltac:(lia)). cbn [from_digits]. unfold to_digit, hex_value, between.
  rewrite (proj2 (Z.leb_le 48 d)), (proj2 (Z.leb_le d 57)) by lia. cbn [andb mbind option_bind]. rewrite (proj2 (Z.ltb_lt (d - 48) 10)) by lia.
  unfold mbind, option_bind. cbv beta iota zeta. rewrite (proj2 (Z.leb_le lo (sign * acc * 10))), (proj2 (Z.leb_le (sign * acc * 10) hi)) by lia. cbn [andb negb].
  replace (sign * acc * 10 + sign * (d - 48)) with (sign * (acc * 10 + (d - 48))) by lia.
  rewrite (proj2 (Z.leb_le lo _)), (proj2 (Z.leb_le _ hi)) by lia. cbn [andb negb]. apply IH; lia.
Qed.

(** ** Numbers as the grammar of [parse] has them *)

Lemma digit_cases d : is_ascii_digit d = true -> d = 48 \/ d = 49 \/ d = 50 \/ d = 51 \/ d = 52 \/ d = 53 \/ d = 54 \/ d = 55 \/ d = 56 \/ d = 57.
Proof. intros H%is_digit_range. lia. Qed.

(** A match on a text that starts with a digit takes the branch of no sign. *)
Ltac digit_head H := destruct (digit_cases _ H) as [->|[->|[->|[->|[->|[->|[->|[->|[->| ->]]]]]]]]].

Lemma i32_parse_digits ds : digits ds -> ds <> [] -> i32_parse ds = from_digits 10 1 (-2147483648) 2147483647 0 ds.
Proof. destruct 1 as [|d ds Hd _]; [done|]. intros _. by digit_head Hd. Qed.

Lemma drop_sign_digits d s : is_ascii_digit d = true -> drop_sign (d :: s) = d :: s.
Proof. intros Hd. by digit_head Hd. Qed.

(** The digits of a small number. *)
Lemma decimal_text_small n : 0 <= n < 1000 -> digits (decimal_text n) /\ decimal_text n <> [] /\ dec_value 0 (decimal_text n) = n.
Proof.
  intros Hn. unfold decimal_text.
  assert (exists k, 1 <= k <= 3 /\ 0 <= n < 10 ^ k /\ (k = 1 \/ 10 ^ (k - 1) <= n)) as (k & Hk & Hn' & Hlo).
  { destruct (Z.ltb_spec n 10); [exists 1; change (10 ^ 1) with 10; lia|]. destruct (Z.ltb_spec n 100); [exists 2; change (10 ^ 2) with 100; change (10 ^ (2 - 1)) with 10; lia|].
    exists 3. change (10 ^ 3) with 1000. change (10 ^ (3 - 1)) with 100. lia. }
  destruct (dec_digits_spec 20 n k) as (H1 & H2 & H3); [lia|done|done|]. split; [done|]. split; [|done]. intros E. rewrite E in H2. change (len []) with 0 in H2. lia.
Qed.

Lemma i32_text_parse n : -1000 < n < 1000 -> i32_parse (i32_text n) = Some n.
Proof.
  intros Hn. unfold i32_text. destruct (Z.ltb_spec n 0).
  - destruct (decimal_text_small (- n)) as (H1 & H2 & H3); [lia|].
    pose proof (from_digits_value (-1) (-2147483648) 2147483647 0 (decimal_text (- n)) H1 ltac:(lia) ltac:(lia) ltac:(lia) ltac:(lia)) as Hv. rewrite H3 in Hv.
    change (-1 * 0) with 0 in Hv. replace (-1 * - n) with n in Hv by lia. destruct (decimal_text (- n)); [done|exact Hv].
  - destruct (decimal_text_small n) as (H1 & H2 & H3); [lia|]. rewrite i32_parse_digits by done.
    pose proof (from_digits_value 1 (-2147483648) 2147483647 0 (decimal_text n) H1 ltac:(lia) ltac:(lia) ltac:(lia) ltac:(lia)) as Hv. rewrite H3 in Hv.
    change (1 * 0) with 0 in Hv. by rewrite Z.mul_1_l in Hv.
Qed.

Definition frac_text (f : option (list Z)) : list Z := match f with Some f => 46 :: f | None => [] end.
Definition exp_text (x : option (bool * list Z)) : list Z :=
  match x with Some (neg, ds) => 101 :: (if neg : bool then 45 else 43) :: ds | None => [] end.
Definition exp_of (x : option (bool * list Z)) : Z :=
  match x with Some (neg, ds) => if neg : bool then - dec_value 0 ds else dec_value 0 ds | None => 0 end.

(** Digits, perhaps a fraction, perhaps an exponent. *)
Record shape_ok (whole : list Z) (f : option (list Z)) (x : option (bool * list Z)) : Prop := {
  so_whole : digits whole;
  so_some : whole <> [];
  so_frac : digits (default [] f);
  so_exp : match x with Some (_, ds) => digits ds /\ ds <> [] | None => True end;
}.

Definition starts_digit (s : list Z) : bool := match s with b :: _ => is_ascii_digit b | [] => false end.

Lemma read_nondigit acc s : starts_digit s = false -> read_digits acc s = (acc, s) /\ drop_digits s = s.
Proof. destruct s as [|b s]; [done|]. cbn. by intros ->. Qed.

Lemma exp_text_head x : starts_digit (exp_text x) = false.
Proof. by destruct x as [[[]]|]. Qed.

Lemma exp_text_reads x : match x with Some (_, ds) => digits ds /\ ds <> [] | None => True end ->
  f64_exponent (exp_text x) = true /\ forall m scale : Z,
    match exp_text x return Z * Z with _ :: s' => (m, scale + exponent_value s') | [] => (m, scale) end = (m, scale + exp_of x).
Proof.
  destruct x as [[neg ds]|]; [|intros _; split; [done|intros; cbn; f_equal; lia]]. intros [Hd Hne]. split.
  - destruct neg; cbn; rewrite (drop_digits_all ds Hd), bool_decide_false by done; done.
  - intros m scale. destruct neg; cbn; by rewrite (read_digits_all 0 ds Hd).
Qed.

Lemma shape_parses whole f x :
  shape_ok whole f x ->
  let s := whole ++ frac_text f ++ exp_text x in
  f64_number s = true /\ decimal_of s = (dec_value 0 (whole ++ default [] f), - len (default [] f) + exp_of x).
Proof.
  intros [Hw Hne Hf Hx] s. destruct (exp_text_reads x Hx) as [Hx1 Hx2]. pose proof (exp_text_head x) as Hh.
  assert (starts_digit (frac_text f ++ exp_text x) = false) as Hh2 by (by destruct f).
  destruct (read_nondigit (dec_value 0 whole) _ Hh2) as [Hr Hdrop].
  assert (drop_digits s = frac_text f ++ exp_text x) as Ed by (unfold s; by rewrite drop_digits_app).
  assert (read_digits 0 s = (dec_value 0 whole, frac_text f ++ exp_text x)) as Er by (unfold s; by rewrite read_digits_app).
  assert (bool_decide (length (frac_text f ++ exp_text x) = length s) = false) as El.
  { apply bool_decide_false. unfold s. rewrite (length_app whole). destruct whole; [done|]. cbn [length]. lia. }
  unfold f64_number, decimal_of. rewrite Ed, Er, El. cbn [negb orb]. destruct f as [f|]; cbn [frac_text default app] in *.
  - rewrite (drop_digits_app f) by done. rewrite (proj2 (read_nondigit 0 _ Hh)). split; [done|].
    rewrite (read_digits_app _ f) by done. rewrite (proj1 (read_nondigit _ _ Hh)), Hx2, dec_value_app. f_equal. unfold len. rewrite length_app. unfold id. lia.
  - rewrite app_nil_r. change (- len []) with 0. specialize (Hx2 (dec_value 0 whole) 0). destruct x as [[neg ds]|]; [|done]. split; [exact Hx1|exact Hx2].
Qed.

(** The layout is such a text, of the same decimal. *)
Lemma layout_shape ds dot :
  digits ds -> ds <> [] -> -400 <= dot <= 400 ->
  exists whole f x, decimal_layout ds dot = whole ++ frac_text f ++ exp_text x /\ shape_ok whole f x /\
    f64_of_decimal (dec_value 0 (whole ++ default [] f)) (- len (default [] f) + exp_of x) = f64_of_decimal (dec_value 0 ds) (dot - len ds).
Proof.
  intros Hd Hne Hdot. unfold decimal_layout. pose proof (len_nonneg ds) as Hl.
  assert (forall n, digits (take n ds) /\ digits (drop n ds)) as Htd by (intros n; split; [by apply Forall_take|by apply Forall_drop]).
  destruct ((-5 <=? dot) && (dot <=? 21)).
  - destruct (Z.leb_spec dot 0); [|destruct (Z.leb_spec (len ds) dot)].
    + exists [48], (Some (zeros (- dot) ++ ds)), None. split; [cbn; by rewrite app_nil_r|]. split.
      * split; cbn; [by repeat constructor|done|apply Forall_app; split; [apply zeros_digits|done]|done].
      * cbn [default exp_of]; unfold id. f_equal.
        -- change (dec_value 0 ([48] ++ zeros (- dot) ++ ds)) with (dec_value 0 (zeros (- dot) ++ ds)). by rewrite dec_value_app, dec_value_zeros by lia.
        -- unfold len. rewrite length_app. pose proof (len_zeros (- dot) ltac:(lia)). unfold len in *. lia.
    + exists (ds ++ zeros (dot - len ds)), None, None. split; [cbn; by rewrite app_nil_r|]. split.
      * split; cbn; [apply Forall_app; split; [done|apply zeros_digits]|by destruct ds|constructor|done].
      * cbn [default exp_of]; unfold id. rewrite app_nil_r, dec_value_app, dec_value_zeros by lia. change (- len [] + 0) with 0.
        rewrite f64_of_decimal_shift by (try apply (dec_value_nonneg 0); done || lia). done.
    + exists (take (Z.to_nat dot) ds), (Some (drop (Z.to_nat dot) ds)), None. split; [cbn; by rewrite app_nil_r|]. split.
      * destruct (Htd (Z.to_nat dot)). split; cbn; [done| |done|done]. intros E. apply (f_equal length) in E. rewrite length_take in E. unfold len in *. cbn in E. lia.
      * cbn [default exp_of]; unfold id. rewrite take_drop. f_equal. unfold len in *. rewrite length_drop. lia.
  - set (e := dot - 1). set (pad := if Z.abs e <? 10 then [48] else []).
    destruct (decimal_text_small (Z.abs e)) as (E1 & E2 & E3); [unfold e; lia|].
    assert (digits (pad ++ decimal_text (Z.abs e)) /\ pad ++ decimal_text (Z.abs e) <> [] /\ dec_value 0 (pad ++ decimal_text (Z.abs e)) = Z.abs e) as (P1 & P2 & P3).
    { unfold pad. destruct (Z.abs e <? 10); cbn [app]; [|done]. split; [by constructor|done]. }
    destruct ds as [|d ds]; [done|]. destruct (Htd 1%nat) as [Ht Hdr]. cbn [take drop] in *.
    exists [d], (match ds with [] => None | _ => Some ds end), (Some (e <? 0, pad ++ decimal_text (Z.abs e))). split; [|split].
    + destruct ds; [done|]. done.
    + split; [by destruct ds|done|by destruct ds|done].
    + cbn [exp_of]. rewrite P3. assert ((if e <? 0 then - Z.abs e else Z.abs e) = e) as -> by (destruct (Z.ltb_spec e 0); lia).
      assert ([d] ++ default [] (match ds with [] => None | _ => Some ds end) = d :: ds) as -> by (by destruct ds). f_equal.
      assert (len (default [] (match ds with [] => None | _ => Some ds end)) = len ds) as -> by (by destruct ds). unfold e, len. cbn [length]. lia.
Qed.
