(* ===== verification/FloatTextTheorems.v ===== *)
(** * FloatTextTheorems: every number reads back from its text

    The text of a number is read as the number, whatever its layout, and no decimal with fewer
    digits would be. *)

From Stdlib Require Import ZArith Lia.
From stdpp Require Import base numbers list strings option.
From S2P Require Import Prelude RustExec Value Builder AstString Lexer Literal FloatText.

#[local] Opaque F64_ONE.

(** ** Finite numbers *)

Lemma finite_abs b : is_u64 b -> f64_is_nan b = false -> f64_is_infinite b = false -> 0 <= f64_abs b < F64_INFINITY.
Proof.
  unfold is_u64, f64_is_nan, f64_is_infinite, f64_abs, f64_exp, f64_man, F64_INFINITY, SIGN_BIT. intros Hb Hn Hi.
  apply Z.eqb_neq in Hi. split; [zdm|]. apply andb_false_iff in Hn as [Hn|Hn]; [apply Z.eqb_neq in Hn|apply negb_false_iff, Z.eqb_eq in Hn]; zdm.
Qed.

Lemma sign_abs b : is_u64 b -> b = (if f64_neg b then SIGN_BIT else 0) + f64_abs b.
Proof. unfold is_u64, f64_neg, f64_abs, SIGN_BIT. intros Hb. destruct (Z.leb_spec 9223372036854775808 b); zdm. Qed.

(** ** The scientific text *)

Lemma split_once_app c a b : c ∉ a -> split_once c (a ++ c :: b) = Some (a, b).
Proof.
  induction a as [|x a IH]; intros Hc; cbn; [by rewrite Z.eqb_refl|]. apply not_elem_of_cons in Hc as [Hx Hc].
  rewrite (proj2 (Z.eqb_neq x c)) by done. by rewrite IH.
Qed.

Lemma filter_digits ds : digits ds -> List.filter (fun c => negb (c =? 46)) ds = ds /\ 101 ∉ ds.
Proof.
  induction 1 as [|d ds Hd _ [IH1 IH2]]; [split; [done|apply not_elem_of_nil]|]. apply is_digit_range in Hd. cbn.
  rewrite (proj2 (Z.eqb_neq d 46)) by lia. cbn. rewrite IH1. split; [done|]. apply not_elem_of_cons. split; [lia|done].
Qed.

(** The digits of a positive finite number, with the place of the decimal point. *)
Record digits_of (b : Z) (ds : list Z) (dot : Z) : Prop := {
  do_digits : digits ds;
  do_some : ds <> [];
  do_dot : -400 <= dot <= 400;
  do_value : f64_of_decimal (dec_value 0 ds) (dot - len ds) = b;
  do_shortest m e : 0 <= m < 10 ^ (len ds - 1) -> f64_of_decimal m e <> b;
}.

Lemma lower_exp_spec b :
  0 < b < F64_INFINITY ->
  exists mantissa ds e, split_once 101 (lower_exp b) = Some (mantissa, i32_text e) /\ i32_parse (i32_text e) = Some e /\
    List.filter (fun c => negb (c =? 46)) mantissa = ds /\ digits_of b ds (e + 1).
Proof.
  intros Hb. destruct (shortest_spec b Hb) as (m & s & k & Ht & Hk & Hm & Hv & He & Hmin). unfold lower_exp.
  destruct (shortest b) as [m0 s0]. cbn [fst snd] in Ht. rewrite Ht. cbv zeta.
  destruct (dec_digits_spec 20 m k) as (Hd & Hl & Hval); [lia|lia|right; lia|]. fold (decimal_text m) in Hd, Hl, Hval.
  set (ds := decimal_text m) in *. clearbody ds. destruct (filter_digits ds Hd) as [Hf Hn]. set (e := s + len ds - 1) in *.
  assert (ds <> []) as Hne by (intros E; rewrite E in Hl; change (len []) with 0 in Hl; lia).
  assert (digits_of b ds (e + 1)) as Hds.
  { split; [done|done|unfold e; lia|rewrite Hval; replace (e + 1 - len ds) with s by (unfold e; lia); done|]. rewrite Hl. exact Hmin. }
  assert (forall mantissa, 101 ∉ mantissa -> List.filter (fun c => negb (c =? 46)) mantissa = ds ->
    exists mantissa' ds' e', split_once 101 (mantissa ++ 101 :: i32_text e) = Some (mantissa', i32_text e') /\ i32_parse (i32_text e') = Some e' /\
      List.filter (fun c => negb (c =? 46)) mantissa' = ds' /\ digits_of b ds' (e' + 1)) as Hall.
  { intros mantissa Hno Hfi. exists mantissa, ds, e. split; [by apply split_once_app|]. split; [apply i32_text_parse; unfold e; lia|done]. }
  clearbody e. destruct ds as [|d [|d' rest]]; [done|exact (Hall [d] Hn Hf)|]. apply (Hall (d :: 46 :: d' :: rest)).
  - apply not_elem_of_cons in Hn as [H1 H2]. apply not_elem_of_cons. split; [done|]. apply not_elem_of_cons. by split.
  - inversion Hd as [|? ? Hd1 Hd2]; subst. destruct (filter_digits _ Hd2) as [Hf' _]. apply is_digit_range in Hd1.
    change (List.filter (fun c => negb (c =? 46)) (d :: 46 :: d' :: rest)) with
      (if negb (d =? 46) then d :: List.filter (fun c => negb (c =? 46)) (d' :: rest) else List.filter (fun c => negb (c =? 46)) (d' :: rest)).
    rewrite (proj2 (Z.eqb_neq d 46)) by lia. by rewrite Hf'.
Qed.

Lemma number_to_string_finite b :
  is_u64 b -> f64_is_nan b = false -> f64_is_infinite b = false -> f64_is_zero b = false ->
  exists ds dot, number_to_string b = Some ((if f64_neg b then [45] else []) ++ decimal_layout ds dot) /\ digits_of (f64_abs b) ds dot.
Proof.
  intros Hb Hn Hi Hz. pose proof (finite_abs b Hb Hn Hi) as Hfin.
  assert (f64_abs b <> 0) as H0 by (unfold f64_is_zero, f64_abs, SIGN_BIT in *; by apply Z.eqb_neq in Hz).
  destruct (lower_exp_spec (f64_abs b) ltac:(lia)) as (mantissa & ds & e & Hs & Hp & Hf & Hd).
  exists ds, (e + 1). split; [|done]. unfold number_to_string. rewrite Hn, Hi, Hz. cbv zeta. rewrite Hs.
  unfold mbind, option_bind. by rewrite Hp, Hf.
Qed.

(** No [expect] of the renderer fails. *)
Lemma number_to_string_total b : is_u64 b -> is_Some (number_to_string b).
Proof.
  intros Hb. destruct (f64_is_nan b) eqn:Hn; [unfold number_to_string; rewrite Hn; by eexists|].
  destruct (f64_is_infinite b) eqn:Hi; [unfold number_to_string; rewrite Hn, Hi; by eexists|].
  destruct (f64_is_zero b) eqn:Hz; [unfold number_to_string; rewrite Hn, Hi, Hz; by eexists|].
  destruct (number_to_string_finite b Hb Hn Hi Hz) as (ds & dot & -> & _). by eexists.
Qed.

(** ** Reading *)

(** The bytes of a number's text. *)
Definition text_byte (c : Z) : Prop := 48 <= c <= 57 \/ c = 46 \/ c = 101 \/ c = 43 \/ c = 45.

Lemma digits_text ds : digits ds -> Forall text_byte ds.
Proof. apply Forall_impl. intros c Hc%is_digit_range. by left. Qed.

Lemma shape_text whole f x : shape_ok whole f x -> Forall text_byte (whole ++ frac_text f ++ exp_text x).
Proof.
  intros [Hw _ Hf Hx]. apply Forall_app. split; [by apply digits_text|]. apply Forall_app. split.
  - destruct f; [|done]. constructor; [unfold text_byte; lia|]. by apply digits_text.
  - destruct x as [[neg ds]|]; [|done]. constructor; [unfold text_byte; lia|]. constructor; [unfold text_byte; destruct neg; lia|]. apply digits_text, Hx.
Qed.

Lemma from_utf8_ascii fuel off s : Forall (fun c => 0 <= c < 128) s -> (from_utf8 fuel off s).2 = None.
Proof.
  revert off s. induction fuel as [|fuel IH]; intros off s Hs; [done|]. destruct Hs as [|c s Hc Hs]; [done|]. cbn [from_utf8].
  unfold utf8_step. rewrite (proj2 (Z.ltb_lt c 128)) by lia. cbn [drop]. rewrite drop_0.
  specialize (IH (off + 1)%nat s Hs). destruct (from_utf8 fuel (off + 1) s). exact IH.
Qed.

Lemma trim_start_text s : Forall text_byte s -> trim_start s = s.
Proof.
  destruct 1 as [|c s Hc _]; [done|]. cbn. unfold is_ascii_whitespace. unfold text_byte in Hc.
  rewrite !(proj2 (Z.eqb_neq c _)) by lia. done.
Qed.

Lemma trim_text s : Forall text_byte s -> trim_whitespace s = s.
Proof.
  intros Hs. unfold trim_whitespace. rewrite (trim_start_text s Hs), trim_start_text by (by apply Forall_rev). apply rev_involutive.
Qed.

Lemma no_radix s : Forall text_byte s -> strip_radix 120 88 s = None.
Proof.
  intros Hs. unfold strip_radix. repeat case_match; try done. subst.
  apply Forall_inv_tail, Forall_inv in Hs as Hc. unfold text_byte in Hc.
  match goal with H : _ || _ = true |- _ => apply orb_true_iff in H as [H|H]; apply Z.eqb_eq in H; lia end.
Qed.

Section Reading.
Context {FU : FloatUnspecified}.

(** A text of the grammar is read as its decimal. *)
Lemma read_shape (neg : bool) whole f x :
  shape_ok whole f x ->
  str_to_number ((if neg then [45] else []) ++ whole ++ frac_text f ++ exp_text x) =
    Some ((if neg then SIGN_BIT else 0) + f64_of_decimal (dec_value 0 (whole ++ default [] f)) (- len (default [] f) + exp_of x)).
Proof.
  intros Hsh. destruct (shape_parses whole f x Hsh) as [Hnum Hdec]. pose proof (shape_text whole f x Hsh) as Htext.
  destruct Hsh as [Hw Hne _ _]. set (s := whole ++ frac_text f ++ exp_text x) in *.
  assert (Forall text_byte ((if neg then [45] else []) ++ s)) as Hall by (destruct neg; [constructor; [unfold text_byte; lia|done]|done]).
  assert (exists d s', s = d :: s' /\ is_ascii_digit d = true) as (d & s' & Es & Hd).
  { unfold s. destruct Hw as [|d w Hd _]; [done|]. by eexists d, _. }
  assert (f64_parse ((if neg then [45] else []) ++ s) = Some ((if neg then SIGN_BIT else 0) + f64_of_decimal (dec_value 0 (whole ++ default [] f)) (- len (default [] f) + exp_of x))) as Hparse.
  { assert (drop_sign ((if neg then [45] else []) ++ s) = s) as Hds by (rewrite Es; destruct neg; [done|by apply drop_sign_digits]).
    unfold f64_parse, f64_parses. rewrite Hds, Hnum, Hdec. cbn [orb negb]. rewrite Es. destruct neg; [done|]. by digit_head Hd. }
  unfold str_to_number. rewrite from_utf8_ascii by (eapply Forall_impl; [|exact Hall]; unfold text_byte; lia). rewrite trim_text by done. cbv zeta.
  destruct neg; cbn [app] in *.
  - by rewrite (no_radix s Htext).
  - rewrite Es in *. digit_head Hd; by rewrite (no_radix _ Htext).
Qed.

Lemma number_text_reads b :
  is_u64 b -> exists s, number_to_string b = Some s /\ str_to_number s = Some (if f64_is_nan b then F64_NAN else b).
Proof.
  intros Hb. destruct (f64_is_nan b) eqn:Hn.
  { exists (bytes_of "nan"). split; [unfold number_to_string; by rewrite Hn|]. by vm_compute. }
  destruct (f64_is_infinite b) eqn:Hi.
  { eexists. split; [unfold number_to_string; by rewrite Hn, Hi|]. rewrite (sign_abs b Hb) at 2.
    assert (f64_abs b = F64_INFINITY) as -> by (by apply Z.eqb_eq). destruct (f64_neg b); by vm_compute. }
  destruct (f64_is_zero b) eqn:Hz.
  { eexists. split; [unfold number_to_string; by rewrite Hn, Hi, Hz|]. rewrite (sign_abs b Hb) at 2.
    assert (f64_abs b = 0) as -> by (by apply Z.eqb_eq). destruct (f64_neg b); by vm_compute. }
  destruct (number_to_string_finite b Hb Hn Hi Hz) as (ds & dot & Hs & [Hd Hne Hdot Hv _]). eexists. split; [done|].
  destruct (layout_shape ds dot Hd Hne Hdot) as (whole & f & x & -> & Hsh & Hval). rewrite read_shape by done.
  rewrite Hval, Hv. by rewrite <- (sign_abs b Hb).
Qed.

(** C17: Every double, subnormal, negative zero and infinite ones included, is rendered without a
    failing [expect], and its text is read back as exactly the same number; NaN is read back as
    NaN. *)
Theorem number_text_round_trip b :
  is_u64 b -> exists s, number_to_string b = Some s /\ str_to_number s = Some (if f64_is_nan b then F64_NAN else b).
Proof. apply number_text_reads. Qed.
End Reading.

(** The digits of the rendered number are the fewest: no decimal with a significand of fewer
    digits, at any scale, reads as the same magnitude. *)
Theorem number_text_shortest b :
  is_u64 b -> f64_is_nan b = false -> f64_is_infinite b = false -> f64_is_zero b = false ->
  exists ds dot, number_to_string b = Some ((if f64_neg b then [45] else []) ++ decimal_layout ds dot) /\
    Forall (fun c => is_ascii_digit c = true) ds /\
    f64_of_decimal (dec_value 0 ds) (dot - len ds) = f64_abs b /\
    forall m e, 0 <= m < 10 ^ (len ds - 1) -> f64_of_decimal m e <> f64_abs b.
Proof.
  intros Hb Hn Hi Hz. destruct (number_to_string_finite b Hb Hn Hi Hz) as (ds & dot & Hs & [Hd Hne Hdot Hv Hmin]).
  by exists ds, dot.
Qed.

#[local] Transparent F64_ONE.

(** [powi] by exact powers, and the quiet NaN. *)
Definition sample_floats : FloatUnspecified := {|
  powi2 n := if n <? 0 then f64_of_ratio 1 (2 ^ (- n)) else f64_of_ratio (2 ^ n) 1;
  nan_produced := F64_NAN
|}.

(** One tenth, there and back. *)
Lemma number_text_round_trip_witness :
  is_u64 4591870180066957722 /\
  exists s, number_to_string 4591870180066957722 = Some s /\ str_to_number (FU := sample_floats) s = Some 4591870180066957722.
Proof.
  assert (is_u64 4591870180066957722) as H by (split; [discriminate|reflexivity]). split; [exact H|].
  exact (number_text_round_trip (FU := sample_floats) 4591870180066957722 H).
Defined.

(** Hexadecimal floats, spaces, signs and what is no number; [from_str_radix] takes a sign after
    the prefix. *)
Lemma str_to_number_examples :
  map (fun s => str_to_number (FU := sample_floats) (bytes_of s)) [" -0x1p-1 "; "0x1A"; "1e3"; "0x1p"; "0x.p1"; ""; "0x+5"]%string =
  [Some (SIGN_BIT + f64_of_ratio 1 2); Some (f64_of_u64 26); Some (f64_of_u64 1000); None; None; None; Some (f64_of_u64 5)].
Proof. by vm_compute. Qed.

(** One tenth. *)
Lemma number_text_shortest_witness :
  let b := 4591870180066957722 in
  number_to_string b = Some (bytes_of "0.1") /\
  exists ds dot, number_to_string b = Some (decimal_layout ds dot) /\ f64_of_decimal (dec_value 0 ds) (dot - len ds) = b.
Proof.
  split; [by vm_compute|].
  destruct (number_text_shortest 4591870180066957722 ltac:(split; [discriminate|reflexivity]) ltac:(reflexivity) ltac:(reflexivity) ltac:(reflexivity))
    as (ds & dot & Hs & _ & Hv & _). exact (ex_intro _ ds (ex_intro _ dot (conj Hs Hv))).
Defined.

(** A value for each of the three layouts and the largest and smallest numbers. *)
Lemma number_text_examples :
  map number_to_string [4631107791820423168; 4921056587992461136; 13823799056213737472; 9218868437227405311; 1] =
  map (fun s => Some (bytes_of s)) ["42"; "1e+21"; "-0.375"; "1.7976931348623157e+308"; "5e-324"]%string.
Proof. by vm_compute. Qed.
