(* ===== verification/LibStrings.v ===== *)
(** * LibStrings: string arguments and results of the library

    Model of the string helpers of [ruau-vm/src/builtins/common.rs] on the machine of [LibHeap]:
    arguments coerced to text, interned results and the metering of a string that grows. The
    facts say what interning does to the machine ([strings_kept]). *)

From Stdlib Require Import ZArith Lia.
From stdpp Require Import base numbers list strings option gmap.
From S2P Require Import Prelude RustExec RustVec Arena ArenaFacts ArenaTheorems Value LuaTable GcObjects Gc GcSweep LibHeap LibHeapFacts BufferLib FloatText.

(** [number_to_string(n)]; a failed [expect] is a panic. *)
Definition number_bytes (n : Z) : LM (list Z) :=
  match number_to_string n with Some s => lret s | None => lpanic end.

(** [i.to_string()] of an [i64]. *)
Definition i64_text (n : Z) : list Z := if n <? 0 then 45 :: decimal_text (- n) else decimal_text n.

(** A string-or-number argument: the interned handle, or the bytes of the rendered number. *)
Inductive StrArg : Type :=
| Interned (handle : RawGc)
| Coerced (bytes : list Z).

Definition arg_str (args : list RawValue) (i : nat) : LM StrArg :=
  match arg args i with
  | VString handle => lret (Interned handle)
  | VNumber n => let+ text := number_bytes n in lret (Coerced text)
  | VInteger n => lret (Coerced (i64_text n))
  | _ => lraise "bad argument to a string function (string expected)"
  end.

Definition str_bytes (vm : Vm) (s : StrArg) : list Z :=
  match s with
  | Interned handle => string_bytes vm handle
  | Coerced bytes => bytes
  end.

Definition arg_bytes (args : list RawValue) (i : nat) : LM (list Z) :=
  let+ s := arg_str args i in
  let+ vm := lget in
  lret (str_bytes vm s).

Section Strings.
Context {AL : Allocator} {MA : MapAllocator} {TS : TableSizes} {HS : HeapSizes} {BL : ByteLimits}.

Definition intern_result (bytes : list Z) : LM (list RawValue) :=
  let+ handle := intern_str bytes "out of memory interning a string" in
  lret [VString handle].

Definition meter_string_growth (n : Z) (what : string) : LM unit :=
  if max_string_bytes <? n then lraise (what +:+ " result too large") else check_cap n.
End Strings.

(** ** The text of a value *)

(** The text that coercion gives a string or a number. *)
Definition text_of (vm : Vm) (v : RawValue) : option (list Z) :=
  match v with
  | VString handle => Some (string_bytes vm handle)
  | VNumber n => number_to_string n
  | VInteger n => Some (i64_text n)
  | _ => None
  end.

Section Facts.
Context {AL : Allocator} {LAWS : AllocatorLaws AL} {MA : MapAllocator} {TS : TableSizes} {HS : HeapSizes} {HSL : HeapSizesLaws HS}
  {BL : ByteLimits} {OA : OnAbort}.

(** The strings of a heap: the interner's handles resolve, and the arena has room. *)
Record strings_ok (vm : Vm) : Prop := {
  st_interner : interner_ok (vm_heap vm);
  st_arena : arena_ok size_strings (strings (objects (vm_heap vm)));
  st_room : av_len (entries (strings (objects (vm_heap vm)))) < 4294967296;
}.

(** The machine without its strings, their interner, the meter they are charged to and the gas. *)
Definition shell (vm : Vm) : Vm :=
  let h := vm_heap vm in
  let o := objects h in
  set_gas None 0 (set_heap (set_interner ∅ (set_meter meter_default (set_objects
    (mkStore Arena.new (tables o) (closures o) (userdata o) (threads o) (buffers o) (protos o) (upvals o)) h))) vm).

(** Strings stay; nothing else changes but the interner, the meter and the gas. *)
Record strings_kept (vm vm' : Vm) : Prop := {
  sk_strings h b : heap_string (vm_heap vm) h = Some b -> heap_string (vm_heap vm') h = Some b;
  sk_shell : shell vm' = shell vm;
}.

#[export] Instance strings_kept_preorder : PreOrder strings_kept.
Proof. split; [by split|]. intros vm1 vm2 vm3 [] []. split; [auto|congruence]. Qed.

Lemma shell_id vm vm' : shell vm' = shell vm -> h_id (vm_heap vm') = h_id (vm_heap vm).
Proof. intros H. exact (f_equal (fun m => h_id (vm_heap m)) H). Qed.

Lemma sk_tables vm vm' : strings_kept vm vm' -> forall h, table_of vm' h = table_of vm h.
Proof.
  intros [_ H] h. pose proof (shell_id _ _ H) as Hid. apply (f_equal (fun m => tables (objects (vm_heap m)))) in H.
  change (tables (objects (vm_heap vm')) = tables (objects (vm_heap vm))) in H. unfold table_of, heap_table. by rewrite Hid, H.
Qed.

Lemma strings_kept_gas vm g spent : strings_kept vm (set_gas g spent vm).
Proof. by split. Qed.

(** The same with room for [n] more strings. *)
Record strings_fit (n : Z) (vm : Vm) : Prop := {
  fit_interner : interner_ok (vm_heap vm);
  fit_arena : arena_ok size_strings (strings (objects (vm_heap vm)));
  fit_room : av_len (entries (strings (objects (vm_heap vm)))) + n <= 4294967296;
}.

Lemma strings_ok_fit vm : strings_ok vm -> strings_fit 1 vm.
Proof. intros [H1 H2 H3]. split; [done|done|lia]. Qed.

Lemma strings_fit_ok n vm : 1 <= n -> strings_fit n vm -> strings_ok vm.
Proof. intros Hn [H1 H2 H3]. split; [done|done|lia]. Qed.

Lemma strings_fit_le n k vm : k <= n -> strings_fit n vm -> strings_fit k vm.
Proof. intros Hn [H1 H2 H3]. split; [done|done|lia]. Qed.

(** An arena grows by one slot at most. *)
Lemma slot_range {T} (a : Arena T) j : is_Some (slot a j) <-> 0 <= j < av_len (entries a).
Proof. unfold slot, av_get. by rewrite zget_is_Some. Qed.

Lemma allocated_len {T} (v : T) i g (a a' : Arena T) : allocated v i g a a' -> av_len (entries a') <= av_len (entries a) + 1.
Proof.
  intros (_ & Hs & _). destruct (Z.le_gt_cases (av_len (entries a')) (av_len (entries a) + 1)) as [|Hgt]; [done|]. exfalso.
  assert (forall j, av_len (entries a) <= j < av_len (entries a') -> j = i) as Hj.
  { intros j Hj. pose proof (Hs j) as H. case_decide as Hd; [done|]. exfalso.
    assert (0 <= av_len (entries a)) by apply len_nonneg.
    assert (is_Some (slot a' j)) as Hk by (apply slot_range; lia). rewrite H in Hk. apply slot_range in Hk. lia. }
  pose proof (Hj (av_len (entries a)) ltac:(lia)). pose proof (Hj (av_len (entries a) + 1) ltac:(lia)). lia.
Qed.

Lemma unallocated_len {T} (a a' : Arena T) : unallocated a a' -> av_len (entries a') <= av_len (entries a).
Proof.
  intros [Hs _]. destruct (Z.le_gt_cases (av_len (entries a')) (av_len (entries a))) as [|Hgt]; [done|]. exfalso.
  assert (0 <= av_len (entries a)) by apply len_nonneg. assert (is_Some (slot a' (av_len (entries a)))) as Hk by (apply slot_range; lia).
  rewrite Hs in Hk. apply slot_range in Hk. lia.
Qed.

Lemma wp_intern_fit n bytes fail vm :
  1 <= n -> strings_fit n vm ->
  wp (intern_str bytes fail) vm
    (fun vm' s => strings_kept vm vm' /\ strings_fit (n - 1) vm' /\ heap_string (vm_heap vm') s = Some bytes)
    (fun vm' e => strings_kept vm vm' /\ strings_fit (n - 1) vm' /\ e = fail).
Proof.
  intros Hn [Hint Hok Hroom]. unfold wp, intern_str. destruct (interner_lookup (vm_heap vm) bytes) as [handle|] eqn:El.
  { split; [by split|]. split; [by apply (strings_fit_le n); [lia|split]|]. exact (Hint bytes handle El). }
  destruct (alloc_spec size_strings size_strings_pos bytes (strings (objects (vm_heap vm))) (meter (vm_heap vm)) Hok) as (a' & m' & r & -> & Hok' & Hr).
  assert (forall h', shell (set_heap h' vm) = shell vm -> strings (objects h') = a' ->
    (forall j h w, Arena.get (strings (objects (vm_heap vm))) j h = Some w -> Arena.get a' j h = Some w) -> strings_kept vm (set_heap h' vm)) as Hkept.
  { intros h' E1 E2 Hext. split; [|done]. apply shell_id in E1. change (h_id h' = h_id (vm_heap vm)) in E1.
    intros h b. unfold heap_string. cbn. rewrite E1, E2. destruct (negb _); [done|]. apply Hext. }
  destruct r as [[i g]|e].
  - pose proof (allocated_len _ _ _ _ _ Hr). destruct Hr as (Hfresh & Hslot & Hdead & Hgen & Hext).
    assert (forall j h w, Arena.get (strings (objects (vm_heap vm))) j h = Some w -> Arena.get a' j h = Some w) as Hget.
    { intros j h w Hw. pose proof Hw as Hlive. apply get_Some in Hw as [Hg Hw]. apply get_Some. split; [by apply Hext|].
      rewrite Hslot, decide_False; [done|]. intros ->. apply Hdead. by eapply get_live. }
    assert (Arena.get a' i g = Some bytes) as Hi by (apply get_Some; split; [done|]; by rewrite Hslot, decide_True).
    cbn. match goal with |- context [set_heap ?h vm] => set (h' := h) end. assert (strings_kept vm (set_heap h' vm)) as Hk by (by apply Hkept).
    assert (heap_string h' (mkGc i g (h_id (vm_heap vm))) = Some bytes) as Hnew by (unfold heap_string; cbn; rewrite Z.eqb_refl; exact Hi).
    split; [done|]. split; [|done]. split; [|exact Hok'|change (av_len (entries a') + (n - 1) <= 4294967296); unfold InternedString in *; lia].
    intros b handle Hb. change (<[bytes := mkGc i g (h_id (vm_heap vm))]> (interner (vm_heap vm)) !! b = Some handle) in Hb.
    apply lookup_insert_Some in Hb as [[<- <-]|[_ Hb]]; [done|]. apply (sk_strings _ _ Hk), Hint, Hb.
  - pose proof (unallocated_len _ _ (proj1 Hr)). destruct Hr as [[Hslot Hext] He]. assert (e = TryReserveError) as -> by (destruct He as [|[_ He]]; [done|unfold InternedString in *; lia]). cbn.
    match goal with |- context [set_heap ?h vm] => set (h' := h) end. assert (strings_kept vm (set_heap h' vm)) as Hk.
    { apply Hkept; try done. intros j h w [Hg Hw]%get_Some. apply get_Some. split; [by apply Hext|by rewrite Hslot]. }
    split; [done|]. split; [|done]. split; [|exact Hok'|change (av_len (entries a') + (n - 1) <= 4294967296); unfold InternedString in *; lia].
    intros b handle Hb. apply (sk_strings _ _ Hk), Hint, Hb.
Qed.

Lemma wp_intern bytes fail vm :
  strings_ok vm ->
  wp (intern_str bytes fail) vm (fun vm' s => strings_kept vm vm' /\ string_bytes vm' s = bytes)
    (fun vm' e => strings_kept vm vm' /\ e = fail).
Proof.
  intros Hok%strings_ok_fit. eapply wp_mono; [by apply (wp_intern_fit 1)|intros vm' s (Hk & _ & Hs)|by intros vm' e (Hk & _ & ->)].
  split; [done|]. unfold string_bytes. by rewrite Hs.
Qed.

Lemma wp_intern_result bytes vm :
  strings_ok vm ->
  wp (intern_result bytes) vm (fun vm' r => exists s, r = [VString s] /\ strings_kept vm vm' /\ string_bytes vm' s = bytes)
    (fun vm' e => strings_kept vm vm' /\ e = "out of memory interning a string").
Proof.
  intros Hok. unfold intern_result. apply wp_bind. eapply wp_mono; [by apply wp_intern| |done]. cbn. intros vm' s [H1 H2]. by exists s.
Qed.

Lemma wp_growth n what vm (Q : Vm -> unit -> Prop) (E : Vm -> string -> Prop) :
  (n <= max_string_bytes -> Q vm tt) -> (max_string_bytes < n -> E vm (what +:+ " result too large")) ->
  (memory_cap vm <> None -> E vm "memory limit exceeded") -> wp (meter_string_growth n what) vm Q E.
Proof.
  intros HQ HE HC. unfold meter_string_growth. destruct (Z.ltb_spec max_string_bytes n); [by apply wp_raise, HE|].
  unfold check_cap. apply wp_bind, wp_get. unfold would_exceed_cap. destruct (memory_cap vm) eqn:Ec; [|by apply wp_ret, HQ].
  case_match; [by apply wp_raise, HC|by apply wp_ret, HQ].
Qed.

(** A charge of gas. *)
Lemma wp_charge_gas vm units (Q : Vm -> unit -> Prop) (E : Vm -> string -> Prop) :
  (forall g spent, Q (set_gas g spent vm) tt) ->
  (gas vm <> None -> forall g spent, E (set_gas g spent vm) "instruction budget exhausted") -> wp (charge units) vm Q E.
Proof.
  intros HQ HE. unfold charge, wp, lbind, charge_gas. destruct (gas vm) as [r|] eqn:Eg.
  - destruct (r <? units); cbn; [by apply HE|apply HQ].
  - cbn. specialize (HQ (gas vm) (gas_spent vm)). destruct vm; exact HQ.
Qed.

Lemma wp_arg_bytes args i vm (Q : Vm -> list Z -> Prop) (E : Vm -> string -> Prop) :
  (forall n, arg args i = VNumber n -> is_Some (number_to_string n)) ->
  match text_of vm (arg args i) with
  | Some bytes => Q vm bytes
  | None => E vm "bad argument to a string function (string expected)"
  end -> wp (arg_bytes args i) vm Q E.
Proof.
  intros Hn H. unfold arg_bytes, arg_str. destruct (arg args i); cbn [text_of] in H; try exact H.
  unfold number_bytes. destruct (Hn bits eq_refl) as [s Hs]. rewrite Hs in H |- *. exact H.
Qed.
End Facts.
