(* ===== verification/TableConcat.v ===== *)
(** * TableConcat: [table.concat]

    Model of [table_concat] of [ruau-vm/src/builtins/table_lib.rs], the function of the table
    library that renders numbers, and the theorem that it joins the texts of the elements. *)

From Stdlib Require Import ZArith Lia.
From stdpp Require Import base numbers list strings option gmap.
From S2P Require Import Prelude RustExec RustVec Arena ArenaFacts ArenaTheorems Value Registry LuaTable LuaTableTheorems GcObjects Gc GcSweep LibHeap TableLib LibHeapFacts TableLibFacts TableEdit BufferLib BufferFacts Lexer FloatText FloatTextTheorems LibStrings.

Section TableConcat.
Context {AL : Allocator} {MA : MapAllocator} {TS : TableSizes} {HS : HeapSizes} {BL : ByteLimits}.

(** The text of one element. *)
Definition concat_element (vm : Vm) (handle : RawGc) (k : Z) : LM (list Z) :=
  match get_index vm handle k with
  | VString s => lret (string_bytes vm s)
  | VNumber n => number_bytes n
  | VInteger v => lret (i64_text v)
  | _ => lraise ("invalid value (at index " +:+ show k +:+ ") in table for 'concat'")
  end.

(** The loop; the counter wraps like an [i64]. *)
Fixpoint concat_loop (fuel : nat) (handle : RawGc) (sep : list Z) (k j : Z) (out : list Z) : LM (list Z) :=
  match fuel with
  | O => lloop
  | S fuel' =>
      if k <=? j then
        let+ vm := lget in
        let+ piece := concat_element vm handle k in
        let out := out ++ piece ++ (if k <? j then sep else []) in
        let+ _ := meter_string_growth (len out) "table.concat" in
        concat_loop fuel' handle sep (as_i64 (k + 1)) j out
      else lret out
  end.

(** Rounds that are enough: the range, and, where the counter wraps at [i64::MAX], as many
    integers as the elements of the table can answer for, at most 2048 each. *)
Definition concat_fuel (vm : Vm) (handle : RawGc) (i j : Z) : nat :=
  S (Z.to_nat (j - i + 1) + (if j =? 9223372036854775807 then 2048 * S (Z.to_nat (scan_len_of vm handle)) else 0)).

Definition table_concat (args : list RawValue) : LM (list RawValue) :=
  let+ handle := arg_table args 0 "concat" in
  let+ sep := match args !! 1%nat with
              | None | Some VNil => lret []
              | Some _ => arg_bytes args 1
              end in
  let+ vm := lget in
  let n := as_i64 (length_of vm handle) in
  let i := default 1 (arg_int args 2) in
  let j := default n (arg_int args 3) in
  let+ _ := if i <=? j then charge (usize_or_max (as_i64 (as_i64 (j - i) + 1))) else lret tt in
  let+ out := concat_loop (concat_fuel vm handle i j) handle sep i j [] in
  intern_result out.
End TableConcat.

(** ** Joining *)

Fixpoint join (sep : list Z) (texts : list (list Z)) : list Z :=
  match texts with
  | [] => []
  | [t] => t
  | t :: texts' => t ++ sep ++ join sep texts'
  end.

(** The texts of the elements under the keys [i] to [j]. *)
Definition texts_at (vm : Vm) (h : RawGc) (i j : Z) : option (list (list Z)) :=
  mapM (fun k => text_of vm (at_key vm h (LInteger k))) (range_incl i j).

(** Why a join is refused: the first element without a text, or a limit. *)
Definition concat_refused (vm : Vm) (h : RawGc) (i j : Z) (e : string) : Prop :=
  (exists k, i <= k <= j /\ text_of vm (at_key vm h (LInteger k)) = None /\ is_Some (texts_at vm h i (k - 1)) /\
     e = ("invalid value (at index " +:+ show k +:+ ") in table for 'concat'")%string) \/
  e ∈ (["table.concat result too large"; "memory limit exceeded"; "instruction budget exhausted"; "out of memory interning a string"]%string : list string).

Lemma range_incl_cons i j : i <= j -> range_incl i j = i :: range_incl (i + 1) j.
Proof.
  intros H. unfold range_incl. rewrite (seqZ_cons i) by lia. unfold Z.succ. do 2 f_equal. lia.
Qed.

Lemma range_incl_nil i j : j < i -> range_incl i j = [].
Proof. intros H. unfold range_incl. apply seqZ_nil. lia. Qed.

Lemma texts_at_cons vm h i j :
  i <= j -> texts_at vm h i j = t ← text_of vm (at_key vm h (LInteger i)); ts ← texts_at vm h (i + 1) j; Some (t :: ts).
Proof. intros H. unfold texts_at. by rewrite range_incl_cons. Qed.

(** Membership in a list of concrete messages. *)
Ltac in_list := apply list_elem_of_In; cbn; tauto.

Section Correct.
Context {AL : Allocator} {LAWS : AllocatorLaws AL} {MA : MapAllocator} {TS : TableSizes} {HS : HeapSizes} {HSL : HeapSizesLaws HS}
  {BL : ByteLimits}.

Lemma wp_element vm h k (Q : Vm -> list Z -> Prop) (E : Vm -> string -> Prop) :
  exact k -> (forall n, at_key vm h (LInteger k) = VNumber n -> is_u64 n) ->
  match text_of vm (at_key vm h (LInteger k)) with
  | Some t => Q vm t
  | None => E vm ("invalid value (at index " +:+ show k +:+ ") in table for 'concat'")%string
  end -> wp (concat_element vm h k) vm Q E.
Proof.
  intros Hk Hn H. unfold concat_element. rewrite get_index_at by done. destruct (at_key vm h (LInteger k)) as [| |n| | | | | | | | |]; try exact H.
  unfold number_bytes. cbn [text_of] in H. destruct (number_to_string_total n (Hn n eq_refl)) as [s Hs]. rewrite Hs in H |- *. exact H.
Qed.

Lemma wp_concat_loop fuel vm h sep k j out :
  -9007199254740992 < k -> j < 9007199254740992 -> (Z.to_nat (j - k + 1) < fuel)%nat ->
  (forall k' n, k <= k' <= j -> at_key vm h (LInteger k') = VNumber n -> is_u64 n) ->
  wp (concat_loop fuel h sep k j out) vm
    (fun vm' r => vm' = vm /\ exists texts, texts_at vm h k j = Some texts /\ r = out ++ join sep texts /\ (k <= j -> len r <= max_string_bytes))
    (fun vm' e => vm' = vm /\ concat_refused vm h k j e).
Proof.
  intros Hk Hj Hf Hn. revert k out Hk Hf Hn. induction fuel as [|fuel IH]; intros k out Hk Hf Hn; [lia|]. cbn [concat_loop].
  destruct (Z.leb_spec k j) as [Hle|Hgt].
  2: { apply wp_ret. split; [done|]. exists []. split; [unfold texts_at; by rewrite range_incl_nil|]. split; [by rewrite app_nil_r|lia]. }
  apply wp_bind, wp_get. apply wp_bind, wp_element; [unfold exact; lia|intros n; apply Hn; lia|].
  destruct (text_of vm (at_key vm h (LInteger k))) as [t|] eqn:Et.
  2: { split; [done|]. left. exists k. split; [lia|]. split; [done|]. split; [unfold texts_at; rewrite range_incl_nil by lia; by eexists|done]. }
  apply wp_bind, wp_growth; [|intros _; split; [done|]; right; in_list|intros _; split; [done|]; right; in_list].
  intros Hlen. rewrite as_i64_small by (unfold is_i64; lia). eapply wp_mono; [apply IH; [lia..|intros k' n Hk'; apply Hn; lia]| |].
  - intros vm' r (-> & texts & Hts & -> & Hmax). split; [done|]. exists (t :: texts). rewrite texts_at_cons, Et, Hts by done. split; [done|].
    destruct (Z.ltb_spec k j).
    + split; [|intros; apply Hmax; lia]. rewrite <- !app_assoc. destruct texts as [|t' ts]; [|done].
      rewrite texts_at_cons in Hts by lia. destruct (text_of vm (at_key vm h (LInteger (k + 1)))); [|done]. by destruct (texts_at vm h (k + 1 + 1) j).
    + unfold texts_at in Hts. rewrite range_incl_nil in Hts by lia. injection Hts as <-. cbn. rewrite !app_nil_r. split; [done|]. intros _. by rewrite app_nil_r in Hlen.
  - intros vm' e [-> [(k' & Hk' & Hno & Hbefore & ->)|He]]; (split; [done|]); [left|by right].
    exists k'. split; [lia|]. split; [done|]. split; [|done]. rewrite texts_at_cons, Et by lia. destruct Hbefore as [ts ->]. by eexists.
Qed.

Lemma table_concat_spec vm h vsep vi vj sep i j :
  strings_ok vm -> (forall k n, i <= k <= j -> at_key vm h (LInteger k) = VNumber n -> is_u64 n) -> (forall n, vsep = VNumber n -> is_u64 n) ->
  (if decide (vsep = VNil) then Some [] else text_of vm vsep) = Some sep ->
  arg_int [VTable h; vsep; vi; vj] 2 = Some i -> arg_int [VTable h; vsep; vi; vj] 3 = Some j -> exact i -> exact j ->
  wp (table_concat [VTable h; vsep; vi; vj]) vm
    (fun vm' r => strings_kept vm vm' /\ exists s texts, r = [VString s] /\ texts_at vm h i j = Some texts /\
       string_bytes vm' s = join sep texts /\ (i <= j -> len (join sep texts) <= max_string_bytes))
    (fun vm' e => strings_kept vm vm' /\ concat_refused vm h i j e).
Proof.
  intros Hok Hn Hnsep Hsep Hi Hj Hei Hej. unfold exact in Hei, Hej. unfold table_concat. apply wp_bind, wp_ret.
  apply wp_bind. assert (wp match [VTable h; vsep; vi; vj] !! 1%nat with None | Some VNil => lret [] | Some _ => arg_bytes [VTable h; vsep; vi; vj] 1 end vm
    (fun vm' s => vm' = vm /\ s = sep) (fun _ _ => False)) as Hs.
  { destruct (decide (vsep = VNil)) as [->|Hne]; [apply wp_ret; split; congruence|].
    assert (wp (arg_bytes [VTable h; vsep; vi; vj] 1) vm (fun vm' s => vm' = vm /\ s = sep) (fun _ _ => False)) as Ha.
    { apply wp_arg_bytes; [intros n En; by apply number_to_string_total, Hnsep|]. change (arg [VTable h; vsep; vi; vj] 1) with vsep. by rewrite Hsep. }
    destruct vsep; done || exact Ha. }
  eapply wp_mono; [exact Hs| |done]. intros vm0 sep0 [-> ->]. apply wp_bind, wp_get. rewrite Hi, Hj. cbn [from_option id].
  rewrite (as_i64_small (j - i)), (as_i64_small (j - i + 1)) by (unfold is_i64; lia).
  assert (forall vm', vm_heap vm' = vm_heap vm -> strings_kept vm vm' -> wp
    (let+ out := concat_loop (concat_fuel vm h i j) h sep i j [] in intern_result out) vm'
    (fun vm' r => strings_kept vm vm' /\ exists s texts, r = [VString s] /\ texts_at vm h i j = Some texts /\
       string_bytes vm' s = join sep texts /\ (i <= j -> len (join sep texts) <= max_string_bytes))
    (fun vm' e => strings_kept vm vm' /\ concat_refused vm h i j e)) as Hrest.
  { intros vm' Eh Hk. assert (forall k, at_key vm' h k = at_key vm h k) as Eat by (intros; unfold at_key, table_of; by rewrite Eh).
    assert (forall v, text_of vm' v = text_of vm v) as Etx by (intros []; cbn; unfold string_bytes; by rewrite ?Eh).
    assert (forall a b, texts_at vm' h a b = texts_at vm h a b) as Ets.
    { intros a b. unfold texts_at. induction (range_incl a b) as [|k l IHl]; cbn; [done|]. by rewrite Eat, Etx, IHl. }
    apply wp_bind. eapply wp_mono.
    - apply wp_concat_loop; [lia|lia|unfold concat_fuel; lia|]. intros k n. rewrite Eat. by apply Hn.
    - intros vm1 out (-> & texts & Hts & -> & Hmax). cbn [app]. rewrite Ets in Hts. eapply wp_mono; [apply wp_intern_result| |].
      + destruct Hok. split; rewrite ?Eh; done.
      + intros vm2 r (s & -> & Hk2 & Hb). split; [by etransitivity|]. by exists s, texts.
      + intros vm2 e [Hk2 ->]. split; [by etransitivity|]. right. in_list.
    - intros vm1 e [-> [(k & H1 & H2 & H3 & ->)|He]]; (split; [done|]); [left|by right].
      exists k. rewrite <- Etx, <- Eat, <- Ets. done. }
  apply wp_bind. destruct (Z.leb_spec i j); [|by apply wp_ret, Hrest].
  apply wp_charge_gas; [intros; by apply Hrest|]. intros _ g spent. split; [by split|]. right. in_list.
Qed.

(** C23: [table.concat] with bounds that doubles represent returns the string that joins the texts
    of the elements under the keys [i] to [j] with the separator, numbers as their shortest
    text, no longer than the limit on strings; it raises for the first element without a text,
    or for a limit, and leaves every table and every string as it was. *)
Theorem table_concat_correct vm h vsep vi vj sep i j :
  strings_ok vm -> (forall k n, i <= k <= j -> at_key vm h (LInteger k) = VNumber n -> is_u64 n) -> (forall n, vsep = VNumber n -> is_u64 n) ->
  (if decide (vsep = VNil) then Some [] else text_of vm vsep) = Some sep ->
  arg_int [VTable h; vsep; vi; vj] 2 = Some i -> arg_int [VTable h; vsep; vi; vj] 3 = Some j -> exact i -> exact j ->
  wp (table_concat [VTable h; vsep; vi; vj]) vm
    (fun vm' r => strings_kept vm vm' /\ exists s texts, r = [VString s] /\ texts_at vm h i j = Some texts /\
       string_bytes vm' s = join sep texts /\ (i <= j -> len (join sep texts) <= max_string_bytes))
    (fun vm' e => strings_kept vm vm' /\ concat_refused vm h i j e).
Proof. apply table_concat_spec. Qed.
End Correct.

(** ** A concrete call *)

Section Sample.
#[local] Existing Instance exact_allocator.
#[local] Existing Instance doubling_map.
#[local] Existing Instance sizes64.
#[local] Existing Instance lib_sizes.
#[local] Existing Instance sample_limits.

Definition concat_vm : Vm := sample_vm (sequence [num 10; VInteger (-7); num 30]) (sequence []) (Some 100).

Lemma concat_vm_strings : strings_ok concat_vm.
Proof. split; [done|by apply new_ok|done]. Qed.

(** [table.concat({10, -7i, 30}, 0i, 1, 3)]. *)
Lemma table_concat_correct_witness :
  wp (table_concat [VTable (th 0); VInteger 0; num 1; num 3]) concat_vm
    (fun vm' r => strings_kept concat_vm vm' /\ exists s texts, r = [VString s] /\ texts_at concat_vm (th 0) 1 3 = Some texts /\
       string_bytes vm' s = join [48] texts /\ (1 <= 3 -> len (join [48] texts) <= max_string_bytes))
    (fun vm' e => strings_kept concat_vm vm' /\ concat_refused concat_vm (th 0) 1 3 e) /\
  join [48] <$> texts_at concat_vm (th 0) 1 3 = Some (bytes_of "100-7030").
Proof.
  split; [|by vm_compute].
  refine (table_concat_correct concat_vm (th 0) (VInteger 0) (num 1) (num 3) [48] 1 3 concat_vm_strings _ _ eq_refl _ _ _ _).
  - intros k n Hk. assert (k = 1 \/ k = 2 \/ k = 3) as [->|[->| ->]] by lia; intros E; vm_compute in E;
      (discriminate E || (injection E as <-; split; [discriminate|reflexivity])).
  - done.
  - by vm_compute.
  - by vm_compute.
  - done.
  - done.
Defined.
End Sample.
