(* ===== verification/Utf8Lib.v ===== *)
(** * Utf8Lib: the [utf8] library

    Model of [ruau-vm/src/builtins/utf8_lib.rs] on the machine of [LibHeap]: the strict decoder,
    the encoder and the functions [char], [codepoint], [len], [offset] and the iterator step of
    [codes]. An index out of range is a panic; [utf8.codes] itself, which allocates the
    iterator's closure, is left out.

    One step of the decoder is one step of the standard library's validation ([utf8_step] of
    [AstString]); what [utf8.char] writes, [utf8.codepoint] and [utf8.len] read; every modelled
    function returns or raises. *)

From Stdlib Require Import ZArith Lia.
From stdpp Require Import base numbers list strings option gmap.
From S2P Require Import Prelude Builder AstString RustVec Arena ArenaFacts ArenaTheorems Value Registry LuaTable LuaTableTheorems GcObjects Gc GcSweep RustExec Pack LibHeap LibHeapFacts TableLibFacts TableEdit BufferLib BufferFacts LexerFacts LiteralFacts LiteralTheorems FloatText FloatTextTheorems LibStrings.

(** ** Characters *)

Definition is_cont (byte : Z) : bool := Z.land byte 192 =? 128.

(** The loop over the continuation bytes: code point bits, their count and the shifted lead. *)
Fixpoint decode_loop (rounds : nat) (bytes : list Z) (pos res count lead : Z) : option (Z * Z * Z) :=
  match rounds with
  | O => None
  | S rounds' =>
      if negb (Z.land lead 64 =? 0) then
        let count := count + 1 in
        if 3 <? count then None
        else
          cont ← zget bytes (pos + count);
          if negb (Z.land cont 192 =? 128) then None
          else decode_loop rounds' bytes pos (Z.lor (as_u32 (Z.shiftl res 6)) (Z.land cont 63)) count (as_u32 (Z.shiftl lead 1))
      else Some (res, count, lead)
  end.

Definition LIMITS : list Z := [255; 127; 2047; 65535].

(** [Crash] is an index out of range of [LIMITS]. *)
Definition utf8_decode (bytes : list Z) (pos : Z) : Exec (option (Z * Z)) :=
  match zget bytes pos with
  | None => Done None
  | Some first =>
      if first <? 128 then Done (Some (first, 1))
      else
        match decode_loop 4 bytes pos 0 0 first with
        | None => Done None
        | Some (res, count, lead) =>
            let res := Z.lor res (as_u32 (Z.shiftl (Z.land lead 127) (count * 5 mod 32))) in
            if 1114111 <? res then Done None
            else
              let! limit := RustExec.index LIMITS count in
              if (res <=? limit) || ((55296 <=? res) && (res <=? 57343)) then Done None
              else Done (Some (res, count + 1))
        end
  end.

Definition utf8_encode (cp : Z) : list Z :=
  if cp <? 128 then [as_u8 cp]
  else if cp <? 2048 then [Z.lor 192 (as_u8 (Z.shiftr cp 6)); Z.lor 128 (as_u8 (Z.land cp 63))]
  else if cp <? 65536 then
    [Z.lor 224 (as_u8 (Z.shiftr cp 12)); Z.lor 128 (as_u8 (Z.land (Z.shiftr cp 6) 63)); Z.lor 128 (as_u8 (Z.land cp 63))]
  else
    [Z.lor 240 (as_u8 (Z.shiftr cp 18)); Z.lor 128 (as_u8 (Z.land (Z.shiftr cp 12) 63));
     Z.lor 128 (as_u8 (Z.land (Z.shiftr cp 6) 63)); Z.lor 128 (as_u8 (Z.land cp 63))].

Section Utf8Lib.
Context {AL : Allocator} {MA : MapAllocator} {TS : TableSizes} {HS : HeapSizes}.

(** ** [utf8.char] *)

Definition char_arg (i : nat) (what : string) : string :=
  "bad argument #" +:+ show (Z.of_nat (S i)) +:+ " to 'utf8.char' (" +:+ what +:+ ")".

Fixpoint char_loop (args : list RawValue) (indices : list nat) (out : list Z) : LM (list Z) :=
  match indices with
  | [] => lret out
  | i :: indices' =>
      match arg_int args i with
      | None => lraise (char_arg i "number expected")
      | Some cp =>
          if negb ((0 <=? cp) && (cp <=? 1114111)) then lraise (char_arg i "value out of range")
          else char_loop args indices' (out ++ utf8_encode (as_u32 cp))
      end
  end.

Definition utf8_char (args : list RawValue) : LM (list RawValue) :=
  let+ _ := charge (len args) in
  let+ out := char_loop args (seq 0 (length args)) [] in
  intern_result out.

(** ** [utf8.codepoint] and [utf8.len] *)

Fixpoint codepoint_loop (fuel : nat) (s : list Z) (pos stop : Z) (out : list RawValue) : LM (list RawValue) :=
  match fuel with
  | O => lloop
  | S fuel' =>
      if pos <? stop then
        let+ r := lexec (utf8_decode s pos) in
        match r with
        | None => lraise "invalid UTF-8 code"
        | Some (cp, n) => codepoint_loop fuel' s (pos + n) stop (out ++ [VNumber (f64_of_u64 cp)])
        end
      else lret out
  end.

Definition utf8_codepoint (args : list RawValue) : LM (list RawValue) :=
  let+ s := arg_bytes args 0 in
  let n := len s in
  let i := posrelat (default 1 (arg_int args 1)) n in
  let j := posrelat (default i (arg_int args 2)) n in
  if i <? 1 then lraise "bad argument #2 to 'utf8.codepoint' (out of range)"
  else if n <? j then lraise "bad argument #3 to 'utf8.codepoint' (out of range)"
  else
    let pos := as_u64 (i - 1) in
    let stop := as_u64 j in
    let+ _ := charge (usize_saturating_sub stop pos) in
    codepoint_loop (S (length s)) s pos stop [].

Fixpoint len_loop (fuel : nat) (s : list Z) (pos stop count : Z) : LM (list RawValue) :=
  match fuel with
  | O => lloop
  | S fuel' =>
      if pos <? stop then
        let+ r := lexec (utf8_decode s pos) in
        match r with
        | Some (_, n) => len_loop fuel' s (pos + n) stop (count + 1)
        | None => lret [VNil; VNumber (f64_of_u64 (pos + 1))]
        end
      else lret [VNumber (f64_of_u64 count)]
  end.

Definition utf8_len (args : list RawValue) : LM (list RawValue) :=
  let+ s := arg_bytes args 0 in
  let n := len s in
  let i := posrelat (default 1 (arg_int args 1)) n in
  let j := posrelat (default (-1) (arg_int args 2)) n in
  if (i <? 1) || (n + 1 <? i) then lraise "bad argument #2 to 'utf8.len' (initial position out of string)"
  else if n <? j then lraise "bad argument #3 to 'utf8.len' (final position out of string)"
  else
    let pos := as_u64 (i - 1) in
    let stop := as_u64 j in
    let+ _ := charge (usize_saturating_sub stop pos) in
    len_loop (S (length s)) s pos stop 0.

(** ** [utf8.offset] *)

(** [while p > 0 && p < len && is_cont(s[p]) { p -= 1; }], and the same without the test of [len]. *)
Fixpoint back_to_start (fuel : nat) (s : list Z) (p : Z) : Exec Z :=
  match fuel with
  | O => Diverge
  | S fuel' =>
      if (0 <? p) && (p <? len s) then
        let! b := RustExec.index s p in if is_cont b then back_to_start fuel' s (p - 1) else Done p
      else Done p
  end.

Fixpoint back_over (fuel : nat) (s : list Z) (p : Z) : Exec Z :=
  match fuel with
  | O => Diverge
  | S fuel' =>
      if 0 <? p then let! b := RustExec.index s p in if is_cont b then back_over fuel' s (p - 1) else Done p
      else Done p
  end.

(** [while p < len && is_cont(s[p]) { p += 1; }]. *)
Fixpoint forward_over (fuel : nat) (s : list Z) (p : Z) : Exec Z :=
  match fuel with
  | O => Diverge
  | S fuel' =>
      if p <? len s then let! b := RustExec.index s p in if is_cont b then forward_over fuel' s (p + 1) else Done p
      else Done p
  end.

Fixpoint offset_forward (fuel : nat) (s : list Z) (n p : Z) : LM (Z * Z) :=
  match fuel with
  | O => lloop
  | S fuel' =>
      if (0 <? n) && (p <? len s) then
        let+ _ := tick in
        let+ p := lexec (forward_over (S (length s)) s (p + 1)) in
        offset_forward fuel' s (n - 1) p
      else lret (n, p)
  end.

Fixpoint offset_backward (fuel : nat) (s : list Z) (n p : Z) : LM (Z * Z) :=
  match fuel with
  | O => lloop
  | S fuel' =>
      if (n <? 0) && (0 <? p) then
        let+ _ := tick in
        let+ p := lexec (back_over (S (length s)) s (p - 1)) in
        offset_backward fuel' s (n + 1) p
      else lret (n, p)
  end.

Definition utf8_offset (args : list RawValue) : LM (list RawValue) :=
  let+ s := arg_bytes args 0 in
  let l := len s in
  match arg_int args 1 with
  | None => lraise "bad argument #2 to 'utf8.offset' (number expected)"
  | Some n =>
      let default_i := if 0 <=? n then 1 else l + 1 in
      let i := posrelat (default default_i (arg_int args 2)) l in
      if (i <? 1) || (l + 1 <? i) then lraise "bad argument #3 to 'utf8.offset' (position out of range)"
      else
        let p := i - 1 in
        let+ stray := lexec (if negb (n =? 0) && (p <? l) then let! b := RustExec.index s p in Done (is_cont b) else Done false) in
        if (stray : bool) then lraise "bad argument #3 to 'utf8.offset' (initial position is a continuation byte)"
        else if n =? 0 then
          let+ p := lexec (back_to_start (S (length s)) s p) in
          lret [VNumber (f64_of_i64 (p + 1))]
        else if 0 <? n then
          let+ r := offset_forward (S (length s)) s (n - 1) p in
          let '(n, p) := r in
          if 0 <? n then lret [VNil] else lret [VNumber (f64_of_i64 (p + 1))]
        else
          let+ r := offset_backward (S (length s)) s n p in
          let '(n, p) := r in
          if n <? 0 then lret [VNil] else lret [VNumber (f64_of_i64 (p + 1))]
  end.

(** ** The step of [utf8.codes] *)

Definition utf8_codes_aux (args : list RawValue) : LM (list RawValue) :=
  let+ s := arg_bytes args 0 in
  let prev := default 0 (arg_int args 1) in
  let+ pos := lexec (if prev <=? 0 then Done 0 else forward_over (S (length s)) s (as_u64 prev)) in
  if len s <=? pos then lret []
  else
    let+ r := lexec (utf8_decode s pos) in
    match r with
    | None => lraise "invalid UTF-8 code"
    | Some (cp, used) =>
        let+ stray := lexec (if pos + used <? len s then let! b := RustExec.index s (pos + used) in Done (is_cont b) else Done false) in
        if (stray : bool) then lraise "invalid UTF-8 code"
        else lret [VNumber (f64_of_u64 (pos + 1)); VNumber (f64_of_u64 cp)]
    end.
End Utf8Lib.

(** ** Leads and continuation bytes *)

Definition byte_all (p : Z -> bool) : bool := forallb p (seqZ 0 256).
Lemma byte_all_spec p b : byte_all p = true -> is_u8 b -> p b = true.
Proof. unfold byte_all, is_u8. intros H Hb. rewrite forallb_forall in H. apply H, list_elem_of_In, elem_of_seqZ. lia. Qed.

Lemma is_cont_within b : is_u8 b -> is_cont b = within 128 191 b.
Proof. intros Hb. apply eqb_prop. by apply (byte_all_spec (fun b => Bool.eqb (is_cont b) (within 128 191 b))). Qed.

Lemma cont_bits b : is_u8 b -> within 128 191 b = true -> Z.land b 63 = b - 128.
Proof.
  intros Hb H. apply (byte_all_spec (fun b => negb (within 128 191 b) || (Z.land b 63 =? b - 128))) in Hb; [|done].
  rewrite H in Hb. by apply Z.eqb_eq.
Qed.

Definition lead_shift (first : Z) : Z := as_u32 (Z.shiftl first 1).

(** A fact about bytes, by going through them. *)
Ltac byte_eqb p f Hb :=
  let H := fresh in
  assert (H := byte_all_spec p f eq_refl Hb); cbv beta in H; apply orb_true_iff in H as [H|H];
  [exfalso; unfold within in H; lia|first [exact (eqb_prop _ _ H)|exact (proj1 (Z.eqb_eq _ _) H)]].

(** The bits of the lead steer the loop, and the rest of them is the head of the code point. *)
Lemma lead_bits first :
  is_u8 first -> 128 <= first ->
  let l1 := lead_shift first in let l2 := lead_shift l1 in let l3 := lead_shift l2 in
  (Z.land first 64 =? 0) = (first <? 192) /\
  (192 <= first -> (Z.land l1 64 =? 0) = (first <? 224)) /\
  (224 <= first -> (Z.land l2 64 =? 0) = (first <? 240)) /\
  (240 <= first -> (Z.land l3 64 =? 0) = (first <? 248)) /\
  (192 <= first < 224 -> as_u32 (Z.shiftl (Z.land l1 127) 5) = Z.shiftl (first - 192) 6) /\
  (224 <= first < 240 -> as_u32 (Z.shiftl (Z.land l2 127) 10) = Z.shiftl (first - 224) 12) /\
  (240 <= first < 248 -> as_u32 (Z.shiftl (Z.land l3 127) 15) = Z.shiftl (first - 240) 18).
Proof.
  intros Hb Hf l1 l2 l3. split_and!; intros.
  - byte_eqb (fun f => (f <? 128) || Bool.eqb (Z.land f 64 =? 0) (f <? 192)) first Hb.
  - byte_eqb (fun f => (f <? 192) || Bool.eqb (Z.land (lead_shift f) 64 =? 0) (f <? 224)) first Hb.
  - byte_eqb (fun f => (f <? 224) || Bool.eqb (Z.land (lead_shift (lead_shift f)) 64 =? 0) (f <? 240)) first Hb.
  - byte_eqb (fun f => (f <? 240) || Bool.eqb (Z.land (lead_shift (lead_shift (lead_shift f))) 64 =? 0) (f <? 248)) first Hb.
  - byte_eqb (fun f => negb (within 192 223 f) || (as_u32 (Z.shiftl (Z.land (lead_shift f) 127) 5) =? Z.shiftl (f - 192) 6)) first Hb.
  - byte_eqb (fun f => negb (within 224 239 f) || (as_u32 (Z.shiftl (Z.land (lead_shift (lead_shift f)) 127) 10) =? Z.shiftl (f - 224) 12)) first Hb.
  - byte_eqb (fun f => negb (within 240 247 f) || (as_u32 (Z.shiftl (Z.land (lead_shift (lead_shift (lead_shift f))) 127) 15) =? Z.shiftl (f - 240) 18)) first Hb.
Qed.

(** ** One character *)

(** One step of [str::from_utf8] at the head of a text. *)
Definition decoded (l : list Z) : option (Z * Z) :=
  match l with
  | [] => None
  | first :: rest =>
      match utf8_step first rest with
      | Utf8Char ch width => Some (ch, Z.of_nat width)
      | Utf8Bad _ => None
      end
  end.

Lemma zget_ahead {A} (l : list A) pos k : 0 <= pos -> 0 <= k -> zget l (pos + k) = drop (Z.to_nat pos) l !! Z.to_nat k.
Proof. intros Hp Hk. rewrite lookup_drop. rewrite <- zget_of_nat. f_equal. lia. Qed.

Lemma lor_push r x : 0 <= r < 1048576 -> 0 <= x < 64 -> Z.lor (as_u32 (Z.shiftl r 6)) x = r * 64 + x.
Proof.
  intros Hr Hx. rewrite as_u32_small by (rewrite Z.shiftl_mul_pow2 by lia; change (2 ^ 6) with 64; unfold is_u32; lia).
  rewrite Z.lor_comm, lor_shiftl_add by (change (2 ^ 6) with 64; lia). change (2 ^ 6) with 64. lia.
Qed.

(** One round of the loop. *)
Lemma decode_round rounds bytes pos res count lead l :
  l = drop (Z.to_nat pos) bytes -> 0 <= pos -> 0 <= count -> Forall is_u8 bytes -> 0 <= res < 1048576 ->
  decode_loop (S rounds) bytes pos res count lead =
    if Z.land lead 64 =? 0 then Some (res, count, lead)
    else if 3 <=? count then None
    else match l !! Z.to_nat (count + 1) with
         | Some b => if within 128 191 b then decode_loop rounds bytes pos (res * 64 + (b - 128)) (count + 1) (lead_shift lead) else None
         | None => None
         end.
Proof.
  intros -> Hp Hc Hb Hr. cbn [decode_loop]. destruct (Z.land lead 64 =? 0); [done|]. cbn [negb].
  destruct (Z.ltb_spec 3 (count + 1)); [by rewrite (proj2 (Z.leb_le 3 count)) by lia|]. rewrite (proj2 (Z.leb_gt 3 count)) by lia.
  rewrite zget_ahead by lia. destruct (drop _ bytes !! Z.to_nat (count + 1)) as [b|] eqn:E; [|done]. unfold mbind, option_bind.
  assert (is_u8 b) as Hb8. { rewrite Forall_lookup in Hb. rewrite lookup_drop in E. by eapply Hb. }
  change (Z.land b 192 =? 128) with (is_cont b). rewrite is_cont_within by done. destruct (within 128 191 b) eqn:Ew; [|done]. cbn [negb].
  rewrite cont_bits by done. apply within_spec in Ew. rewrite lor_push by lia. done.
Qed.

Lemma within_false_spec lo hi b : within lo hi b = false <-> b < lo \/ hi < b.
Proof. unfold within. lia. Qed.

(** The end of the decoder: range, overlong forms and surrogates. *)
Definition accepted (ch count : Z) : Exec (option (Z * Z)) :=
  if 1114111 <? ch then Done None
  else
    let! limit := RustExec.index LIMITS count in
    if (ch <=? limit) || ((55296 <=? ch) && (ch <=? 57343)) then Done None else Done (Some (ch, count + 1)).

(** The tests decide a sequence by its code point exactly as by its first two bytes. *)
Ltac accept := unfold accepted; cbn [RustExec.index]; unfold RustExec.index, LIMITS, zget; cbn [Z.to_nat];
  repeat match goal with |- context [?x <? ?y] => destruct (Z.ltb_spec x y) | |- context [?x <=? ?y] => destruct (Z.leb_spec x y) end; cbn; try done; try lia.

Lemma second_ok_range first b :
  second_ok first b =
    within 128 191 b && negb ((first =? 224) && (b <? 160)) && negb ((first =? 237) && (159 <? b)) &&
    negb ((first =? 240) && (b <? 144)) && negb ((first =? 244) && (143 <? b)).
Proof. unfold second_ok, within. destruct (Z.eqb_spec first 224), (Z.eqb_spec first 237), (Z.eqb_spec first 240), (Z.eqb_spec first 244); lia. Qed.

Lemma accepted_unfold ch count limit :
  zget LIMITS count = Some limit ->
  accepted ch count = Done (if (limit <? ch) && (ch <=? 1114111) && negb ((55296 <=? ch) && (ch <=? 57343)) then Some (ch, count + 1) else None).
Proof.
  intros Hl. unfold accepted, RustExec.index. rewrite Hl. cbn [exec_bind].
  destruct (Z.ltb_spec 1114111 ch), (Z.leb_spec ch limit), (Z.leb_spec 55296 ch), (Z.leb_spec ch 57343), (Z.ltb_spec limit ch), (Z.leb_spec ch 1114111); cbn; done || lia.
Qed.

Lemma accepted_2 f b1 (ch := (f - 192) * 64 + (b1 - 128)) :
  192 <= f < 224 -> 128 <= b1 <= 191 -> accepted ch 1 = Done (if within 194 223 f then Some (ch, 2) else None).
Proof.
  intros Hf H1. rewrite (accepted_unfold ch 1 127) by done. f_equal. assert (within 194 223 f = (127 <? ch) && (ch <=? 1114111) && negb ((55296 <=? ch) && (ch <=? 57343))) as ->; [|done].
  unfold within, ch. lia.
Qed.

Lemma accepted_3 f b1 b2 (ch := (f - 224) * 4096 + (b1 - 128) * 64 + (b2 - 128)) :
  224 <= f < 240 -> 128 <= b1 <= 191 -> 128 <= b2 <= 191 -> accepted ch 2 = Done (if second_ok f b1 then Some (ch, 3) else None).
Proof.
  intros Hf H1 H2. rewrite (accepted_unfold ch 2 2047) by done. f_equal.
  assert (second_ok f b1 = (2047 <? ch) && (ch <=? 1114111) && negb ((55296 <=? ch) && (ch <=? 57343))) as ->; [|done].
  rewrite second_ok_range. unfold within, ch. lia.
Qed.

Lemma accepted_4 f b1 b2 b3 (ch := (f - 240) * 262144 + (b1 - 128) * 4096 + (b2 - 128) * 64 + (b3 - 128)) :
  240 <= f < 248 -> 128 <= b1 <= 191 -> 128 <= b2 <= 191 -> 128 <= b3 <= 191 ->
  accepted ch 3 = Done (if within 240 244 f && second_ok f b1 then Some (ch, 4) else None).
Proof.
  intros Hf H1 H2 H3. rewrite (accepted_unfold ch 3 65535) by done. f_equal.
  assert (within 240 244 f && second_ok f b1 = (65535 <? ch) && (ch <=? 1114111) && negb ((55296 <=? ch) && (ch <=? 57343))) as ->; [|done].
  rewrite second_ok_range. unfold within, ch. lia.
Qed.

(** What the decoder does with a lead byte and the bytes after it. *)
Lemma decode_lead bytes pos first rest :
  Forall is_u8 bytes -> 0 <= pos -> drop (Z.to_nat pos) bytes = first :: rest -> 128 <= first ->
  utf8_decode bytes pos = Done (decoded (first :: rest)).
Proof.
  intros Hb Hp Hd Hf. assert (is_u8 first) as Hf8.
  { rewrite Forall_lookup in Hb. apply (Hb (Z.to_nat pos + 0)%nat). by rewrite <- lookup_drop, Hd. }
  destruct (lead_bits first Hf8 Hf) as (L0 & L1 & L2 & L3 & V1 & V2 & V3). unfold is_u8 in Hf8.
  unfold utf8_decode. pose proof (zget_ahead bytes pos 0 Hp ltac:(lia)) as Hz. rewrite Z.add_0_r, Hd in Hz. change (_ !! Z.to_nat 0) with (Some first) in Hz. rewrite Hz. cbv iota beta.
  rewrite (proj2 (Z.ltb_ge first 128)) by done. change (decode_loop 4) with (decode_loop (S 3)).
  rewrite (decode_round 3 bytes pos 0 0 first (first :: rest)), L0 by (done || lia). cbn [decoded]. unfold utf8_step. rewrite (proj2 (Z.ltb_ge first 128)) by done.
  destruct (Z.ltb_spec first 192) as [H192|H192].
  { rewrite (proj2 (within_false_spec 194 223 first)), (proj2 (within_false_spec 224 239 first)), (proj2 (within_false_spec 240 244 first)) by lia.
    change (0 * 5 mod 32) with 0. rewrite Z.shiftl_0_r, Z.lor_0_l. assert (0 <= Z.land first 127 < 128) by (change 127 with (Z.ones 7); rewrite Z.land_ones by lia; apply Z.mod_pos_bound; lia).
    rewrite as_u32_small by (unfold is_u32; lia). change (accepted (Z.land first 127) 0 = Done None). rewrite (accepted_unfold _ 0 255) by done.
    by rewrite (proj2 (Z.ltb_ge 255 _)) by lia. }
  specialize (L1 H192). change (0 + 1) with 1. cbn [Z.leb lookup list_lookup Z.to_nat Pos.to_nat Pos.iter_op Init.Nat.add].
  change (3 <=? 0) with false. cbn iota. change ((first :: rest) !! Z.to_nat 1) with (rest !! 0%nat). destruct rest as [|b1 rest].
  { cbn. repeat case_match; done. }
  cbn [lookup list_lookup]. destruct (within 128 191 b1) eqn:W1.
  2: { assert (second_ok first b1 = false) as ->; [rewrite second_ok_range, W1; done|]. repeat case_match; done. }
  apply within_spec in W1 as R1. change (0 * 64 + (b1 - 128)) with (b1 - 128).
  change (decode_loop 3) with (decode_loop (S 2)). rewrite (decode_round 2 bytes pos _ 1 _ (first :: b1 :: rest)), L1 by (done || lia).
  destruct (Z.ltb_spec first 224) as [H224|H224].
  { rewrite (proj2 (within_false_spec 224 239 first)), (proj2 (within_false_spec 240 244 first)) by lia.
    change (1 * 5 mod 32) with 5. rewrite V1, lor_shiftl_add by (change (2 ^ 6) with 64; lia). change (2 ^ 6) with 64.
    replace (b1 - 128 + (first - 192) * 64) with ((first - 192) * 64 + (b1 - 128)) by lia.
    transitivity (accepted ((first - 192) * 64 + (b1 - 128)) 1); [done|]. rewrite accepted_2 by lia. by destruct (within 194 223 first). }
  specialize (L2 H224). rewrite (proj2 (within_false_spec 194 223 first)) by lia. change (3 <=? 1) with false. cbn iota.
  change ((first :: b1 :: rest) !! Z.to_nat (1 + 1)) with (rest !! 0%nat). destruct rest as [|b2 rest].
  { cbn. repeat case_match; done. }
  cbn [lookup list_lookup]. destruct (within 128 191 b2) eqn:W2; [|repeat case_match; done].
  apply within_spec in W2 as R2. change (1 + 1) with 2.
  change (decode_loop 2) with (decode_loop (S 1)). rewrite (decode_round 1 bytes pos _ 2 _ (first :: b1 :: b2 :: rest)), L2 by (done || lia).
  destruct (Z.ltb_spec first 240) as [H240|H240].
  { rewrite (proj2 (within_spec 224 239 first)) by lia. change (2 * 5 mod 32) with 10. rewrite V2, lor_shiftl_add by (change (2 ^ 12) with 4096; lia). change (2 ^ 12) with 4096.
    replace ((b1 - 128) * 64 + (b2 - 128) + (first - 224) * 4096) with ((first - 224) * 4096 + (b1 - 128) * 64 + (b2 - 128)) by lia.
    transitivity (accepted ((first - 224) * 4096 + (b1 - 128) * 64 + (b2 - 128)) 2); [done|]. rewrite accepted_3 by lia. by destruct (second_ok first b1). }
  specialize (L3 H240). rewrite (proj2 (within_false_spec 224 239 first)) by lia. change (3 <=? 2) with false. cbn iota.
  change ((first :: b1 :: b2 :: rest) !! Z.to_nat (2 + 1)) with (rest !! 0%nat). destruct rest as [|b3 rest].
  { cbn. repeat case_match; done. }
  cbn [lookup list_lookup]. destruct (within 128 191 b3) eqn:W3; [|repeat case_match; done].
  apply within_spec in W3 as R3. change (2 + 1) with 3.
  change (decode_loop 1) with (decode_loop (S 0)). rewrite (decode_round 0 bytes pos _ 3 _ (first :: b1 :: b2 :: b3 :: rest)), L3 by (done || lia).
  destruct (Z.ltb_spec first 248) as [H248|H248].
  - change (3 * 5 mod 32) with 15. rewrite V3, lor_shiftl_add by (change (2 ^ 18) with 262144; lia). change (2 ^ 18) with 262144.
    replace (((b1 - 128) * 64 + (b2 - 128)) * 64 + (b3 - 128) + (first - 240) * 262144) with ((first - 240) * 262144 + (b1 - 128) * 4096 + (b2 - 128) * 64 + (b3 - 128)) by lia.
    transitivity (accepted ((first - 240) * 262144 + (b1 - 128) * 4096 + (b2 - 128) * 64 + (b3 - 128)) 3); [done|]. rewrite accepted_4 by lia.
    by destruct (within 240 244 first), (second_ok first b1).
  - change (3 <=? 3) with true. cbn iota. by rewrite (proj2 (within_false_spec 240 244 first)) by lia.
Qed.

Lemma utf8_decode_step bytes pos :
  Forall is_u8 bytes -> 0 <= pos -> utf8_decode bytes pos = Done (decoded (drop (Z.to_nat pos) bytes)).
Proof.
  intros Hb Hp. destruct (drop (Z.to_nat pos) bytes) as [|first rest] eqn:Hd.
  - pose proof (zget_ahead bytes pos 0 Hp ltac:(lia)) as Hz. rewrite Z.add_0_r, Hd in Hz. unfold utf8_decode. by rewrite Hz.
  - destruct (Z.ltb_spec first 128); [|by apply decode_lead]. pose proof (zget_ahead bytes pos 0 Hp ltac:(lia)) as Hz. rewrite Z.add_0_r, Hd in Hz.
    change (_ !! Z.to_nat 0) with (Some first) in Hz. unfold utf8_decode, decoded, utf8_step. rewrite Hz. by rewrite (proj2 (Z.ltb_lt first 128)) by done.
Qed.

(** ** The characters it reads *)

(** What validation accepts is a Unicode scalar value. *)
Lemma utf8_step_is_char first rest ch width : is_u8 first -> utf8_step first rest = Utf8Char ch width -> is_char ch.
Proof.
  unfold utf8_step, is_u8, is_char, scalar. intros Hf.
  destruct (Z.ltb_spec first 128); [intros [= <- <-]; lia|].
  destruct (within 194 223 first) eqn:E2; [apply within_spec in E2|].
  { destruct rest as [|b1 rest]; [done|]. destruct (within 128 191 b1) eqn:Eb; [|done]. apply within_spec in Eb. intros [= <- <-]. lia. }
  destruct (within 224 239 first) eqn:E3; [apply within_spec in E3|].
  { destruct rest as [|b1 rest]; [done|]. destruct (second_ok first b1) eqn:Es; [|done]. destruct rest as [|b2 rest]; [done|].
    destruct (within 128 191 b2) eqn:Eb; [|done]. apply within_spec in Eb. intros [= <- <-]. rewrite second_ok_range in Es. unfold within in Es. lia. }
  destruct (within 240 244 first) eqn:E4; [apply within_spec in E4|done].
  destruct rest as [|b1 rest]; [done|]. destruct (second_ok first b1) eqn:Es; [|done]. destruct rest as [|b2 rest]; [done|].
  destruct (within 128 191 b2) eqn:Eb; [|done]. apply within_spec in Eb. destruct rest as [|b3 rest]; [done|].
  destruct (within 128 191 b3) eqn:Ec; [|done]. apply within_spec in Ec. intros [= <- <-]. rewrite second_ok_range in Es. unfold within in Es. lia.
Qed.

Lemma decoded_char c rest : is_char c -> decoded (encode_utf8 c ++ rest) = Some (c, len (encode_utf8 c)).
Proof. intros Hc. destruct (utf8_step_char c Hc) as (b & t & E & Hs). rewrite E. cbn [app decoded]. by rewrite Hs. Qed.

Lemma decoded_spec l ch width :
  Forall is_u8 l -> (decoded l = Some (ch, width) <-> is_char ch /\ width = len (encode_utf8 ch) /\ encode_utf8 ch `prefix_of` l).
Proof.
  intros Hl. split.
  - destruct l as [|first rest]; [done|]. inversion_clear Hl as [|? ? Hf _]. cbn [decoded]. pose proof (utf8_step_spec first rest Hf) as Hs.
    destruct (utf8_step first rest) as [c w|] eqn:E; [|done]. intros [= <- <-]. destruct Hs as [Hw He]. split_and!.
    + by eapply utf8_step_is_char.
    + rewrite He. unfold len. rewrite length_take. cbn [length] in *. lia.
    + rewrite He. exists (drop w (first :: rest)). by rewrite take_drop.
  - intros (Hc & -> & [rest ->]). by apply decoded_char.
Qed.

(** C18: At any position of any bytes the decoder of the [utf8] library reads a code point and a
    width exactly when the bytes there begin with the encoding of that Unicode scalar value, of
    that length: overlong forms, surrogates, values above 0x10FFFF, stray continuation bytes and
    truncated sequences are all refused. It never indexes [LIMITS] out of range. *)
Theorem utf8_decode_exact bytes pos :
  Forall is_u8 bytes -> 0 <= pos ->
  exists r, utf8_decode bytes pos = Done r /\
    forall ch width, r = Some (ch, width) <->
      is_char ch /\ width = len (encode_utf8 ch) /\ encode_utf8 ch `prefix_of` drop (Z.to_nat pos) bytes.
Proof.
  intros Hb Hp. exists (decoded (drop (Z.to_nat pos) bytes)). split; [by apply utf8_decode_step|]. intros ch width.
  apply decoded_spec. by apply Forall_drop.
Qed.

(** ** The encoder *)

(** [utf8_encode] on scalar values is the encoding of the standard library; on surrogates it
    writes the three bytes that the decoder refuses. *)
Lemma utf8_encode_scalar c : scalar c -> utf8_encode c = encode_utf8 c.
Proof.
  intros Hc. unfold scalar in Hc. unfold utf8_encode, encode_utf8. rewrite !as_u8_lor.
  destruct (Z.ltb_spec c 128); [by rewrite as_u8_small by (unfold is_u8; lia)|].
  destruct (Z.ltb_spec c 2048); [|destruct (Z.ltb_spec c 65536)]; rewrite as_u8_small; try done; rewrite Z.shiftr_div_pow2 by lia.
  - change (2 ^ 6) with 64. unfold is_u8. zdm.
  - change (2 ^ 12) with 4096. unfold is_u8. zdm.
  - change (2 ^ 18) with 262144. unfold is_u8. zdm.
Qed.

(** ** Scans *)

Lemma utf8_cons c value : utf8 (c :: value) = encode_utf8 c ++ utf8 value.
Proof. done. Qed.

Lemma decode_at before l : Forall is_u8 (before ++ l) -> utf8_decode (before ++ l) (len before) = Done (decoded l).
Proof. intros H. rewrite utf8_decode_step by (done || unfold len; lia). unfold len. rewrite Nat2Z.id. by rewrite drop_app_length. Qed.

(** The machine up to its gas counters. *)
Definition gas_only (vm vm' : Vm) : Prop := exists g spent, vm' = set_gas g spent vm.

#[export] Instance gas_only_preorder : PreOrder gas_only.
Proof.
  split; [intros []; by eexists _, _|]. intros vm1 vm2 vm3 (g & s & ->) (g' & s' & ->). by exists g', s'.
Qed.

(** Every character of [value], written from position [pos] on, starts before [stop]. *)
Definition within_span (pos : Z) (value : list Z) (stop : Z) : Prop :=
  forall before c after, value = before ++ c :: after -> pos + len (utf8 before) < stop.

Lemma within_span_cons pos c value stop :
  within_span pos (c :: value) stop -> pos < stop /\ within_span (pos + len (encode_utf8 c)) value stop.
Proof.
  intros H. split; [specialize (H [] c value eq_refl); change (len (utf8 [])) with 0 in H; lia|]. intros before c' after ->.
  specialize (H (c :: before) c' after eq_refl). rewrite utf8_cons, len_app in H. lia.
Qed.

(** The loops of [utf8.len] and [utf8.codepoint] go through the characters of a text up to [stop]
    or to bytes that begin no character. *)
Lemma len_loop_scan value : forall fuel before after stop count vm,
  (length value < fuel)%nat -> Forall is_u8 (before ++ utf8 value ++ after) -> Forall is_char value ->
  within_span (len before) value stop ->
  let e := len before + len (utf8 value) in
  stop <= e \/ decoded after = None ->
  len_loop fuel (before ++ utf8 value ++ after) (len before) stop count vm =
    (vm, Ret (if e <? stop then [VNil; VNumber (f64_of_u64 (e + 1))] else [VNumber (f64_of_u64 (count + len value))])).
Proof.
  induction value as [|c value IH]; intros fuel before after stop count vm Hf Hb Hc Hs e He; (destruct fuel as [|fuel]; [cbn in Hf; lia|]); cbn [len_loop].
  - unfold e in *. clear e. change (len (utf8 [])) with 0 in *. rewrite Z.add_0_r in *. cbn [utf8 map concat app] in *. destruct (Z.ltb_spec (len before) stop).
    + rewrite decode_at by done. destruct He as [?|He]; [lia|]. by rewrite He.
    + change (len []) with 0. by rewrite Z.add_0_r.
  - assert (len (before ++ encode_utf8 c) + len (utf8 value) = e) as Ee by (unfold e; rewrite utf8_cons, !len_app; lia). clearbody e.
    apply within_span_cons in Hs as [Hlt Hs]. inversion_clear Hc as [|? ? Hcc Hcv]. rewrite (proj2 (Z.ltb_lt _ _) Hlt). rewrite decode_at by done.
    rewrite utf8_cons, <- app_assoc in Hb |- *. rewrite decoded_char by done. rewrite app_assoc in Hb |- *. unfold lexec, lbind. rewrite <- len_app in Hs |- *.
    rewrite IH; [|cbn in Hf; lia|done..|by rewrite Ee]. rewrite Ee.
    by replace (count + 1 + len value) with (count + len (c :: value)) by (rewrite len_cons; lia).
Qed.

Lemma codepoint_loop_scan value : forall fuel before after stop out vm,
  (length value < fuel)%nat -> Forall is_u8 (before ++ utf8 value ++ after) -> Forall is_char value ->
  within_span (len before) value stop ->
  let e := len before + len (utf8 value) in
  stop <= e \/ decoded after = None ->
  codepoint_loop fuel (before ++ utf8 value ++ after) (len before) stop out vm =
    (vm, if e <? stop then Raised "invalid UTF-8 code" else Ret (out ++ map (fun c => VNumber (f64_of_u64 c)) value)).
Proof.
  induction value as [|c value IH]; intros fuel before after stop out vm Hf Hb Hc Hs e He; (destruct fuel as [|fuel]; [cbn in Hf; lia|]); cbn [codepoint_loop].
  - unfold e in *. clear e. change (len (utf8 [])) with 0 in *. rewrite Z.add_0_r in *. cbn [utf8 map concat app] in *. destruct (Z.ltb_spec (len before) stop).
    + rewrite decode_at by done. destruct He as [?|He]; [lia|]. by rewrite He.
    + by rewrite app_nil_r.
  - assert (len (before ++ encode_utf8 c) + len (utf8 value) = e) as Ee by (unfold e; rewrite utf8_cons, !len_app; lia). clearbody e.
    apply within_span_cons in Hs as [Hlt Hs]. inversion_clear Hc as [|? ? Hcc Hcv]. rewrite (proj2 (Z.ltb_lt _ _) Hlt). rewrite decode_at by done.
    rewrite utf8_cons, <- app_assoc in Hb |- *. rewrite decoded_char by done. rewrite app_assoc in Hb |- *. unfold lexec, lbind. rewrite <- len_app in Hs |- *.
    rewrite IH; [|cbn in Hf; lia|done..|by rewrite Ee]. rewrite Ee.
    by rewrite <- app_assoc.
Qed.

(** No Unicode scalar value is encoded at the head of [l]. *)
Definition no_char (l : list Z) : Prop := forall c, is_char c -> ~ encode_utf8 c `prefix_of` l.

Lemma no_char_decoded l : Forall is_u8 l -> no_char l -> decoded l = None.
Proof. intros Hb Hn. destruct (decoded l) as [[ch w]|] eqn:E; [|done]. apply decoded_spec in E as (Hc & _ & Hp); [|done]. by destruct (Hn ch Hc). Qed.

Lemma encode_utf8_nonempty c : is_char c -> (1 <= length (encode_utf8 c))%nat.
Proof. intros Hc. destruct (utf8_step_char c Hc) as (b & t & -> & _). cbn. lia. Qed.

Lemma utf8_length value : Forall is_char value -> (length value <= length (utf8 value))%nat.
Proof.
  induction 1 as [|c value Hc _ IH]; [done|]. rewrite utf8_cons, length_app. cbn [length]. pose proof (encode_utf8_nonempty c Hc). lia.
Qed.

Definition charge_refused : string := "instruction budget exhausted".

Section Utf8Theorems.
Context {AL : Allocator} {LAWS : AllocatorLaws AL} {MA : MapAllocator} {TS : TableSizes} {HS : HeapSizes} {HSL : HeapSizesLaws HS}
  {BL : ByteLimits} {OA : OnAbort}.

(** A scan of a string: its arguments, resolved to the bytes [before] it, the characters in it,
    and the bytes [after] them. *)
Record scan_of (vm : Vm) (h : RawGc) (args : list RawValue) (before value after : list Z) (stop : Z) : Prop := {
  so_string : arg args 0 = VString h;
  so_bytes : string_bytes vm h = before ++ utf8 value ++ after;
  so_u8 : Forall is_u8 (string_bytes vm h);
  so_len : len (string_bytes vm h) < 4611686018427387904;
  so_chars : Forall is_char value;
  so_first : posrelat (default 1 (arg_int args 1)) (len (string_bytes vm h)) = len before + 1;
  so_last : exists j, arg_int args 2 = Some j /\ posrelat j (len (string_bytes vm h)) = stop;
  so_stop : 0 <= stop <= len (string_bytes vm h);
  so_span : within_span (len before) value stop;
  so_end : stop <= len before + len (utf8 value) \/ no_char after;
}.

Lemma scan_fuel before value after : Forall is_char value -> (length value < S (length (before ++ utf8 value ++ after)))%nat.
Proof. intros H%utf8_length. rewrite !length_app. lia. Qed.

Lemma wp_scan_arg vm h args (Q : Vm -> list Z -> Prop) E : arg args 0 = VString h -> Q vm (string_bytes vm h) -> wp (arg_bytes args 0) vm Q E.
Proof. intros Ha HQ. apply wp_arg_bytes; rewrite Ha; [done|exact HQ]. Qed.

(** Gas is charged, then a loop runs whose outcome does not depend on the counters. *)
Lemma wp_charged {A} vm n (m : LM A) r :
  (forall vm', m vm' = (vm', r)) -> r <> Panicked -> r <> Looping -> r <> Aborted ->
  wp (let+ _ := charge n in m) vm (fun vm' a => gas_only vm vm' /\ r = Ret a)
    (fun vm' e => gas_only vm vm' /\ (e = charge_refused \/ r = Raised e)).
Proof.
  intros Hm H1 H2 H3. apply wp_bind, wp_charge_gas.
  - intros g spent. unfold wp. rewrite Hm. cbn. assert (gas_only vm (set_gas g spent vm)) by (by exists g, spent). destruct r; cbn; auto; done.
  - intros _ g spent. split; [by exists g, spent|by left].
Qed.

Lemma utf8_len_scan vm h args before value after stop (e := len before + len (utf8 value)) :
  scan_of vm h args before value after stop ->
  wp (utf8_len args) vm
    (fun vm' r => gas_only vm vm' /\ r = if e <? stop then [VNil; VNumber (f64_of_u64 (e + 1))] else [VNumber (f64_of_u64 (len value))])
    (fun vm' err => gas_only vm vm' /\ err = charge_refused).
Proof.
  intros [Ha Hb H8 Hl Hc Hpi (j & Hj & Hpj) Hs Hspan Hend]. unfold utf8_len. apply wp_bind. apply (wp_scan_arg _ h); [done|].
  rewrite Hpi, Hj. cbn [default from_option id]. rewrite Hpj. rewrite Hb in *. assert (0 <= len before <= len (before ++ utf8 value ++ after)) by (rewrite !len_app; unfold len; lia).
  rewrite (proj2 (Z.ltb_ge _ 1)), (proj2 (Z.ltb_ge (len (before ++ utf8 value ++ after) + 1) _)), (proj2 (Z.ltb_ge _ stop)) by lia. cbn [orb].
  replace (len before + 1 - 1) with (len before) by lia. rewrite !as_u64_small by (unfold is_u64; lia).
  eapply wp_mono; [eapply wp_charged; [intros vm'; apply len_loop_scan|..]| |]; try done.
  - by apply scan_fuel.
  - destruct Hend; [by left|right]. apply no_char_decoded; [|done]. by apply Forall_app in H8 as [_ [_ ?]%Forall_app].
  - intros vm' r [Hg [= <-]]. by rewrite Z.add_0_l.
  - intros vm' err [Hg [->|[=]]]. done.
Qed.

Lemma utf8_codepoint_scan vm h args before value after stop (e := len before + len (utf8 value)) :
  scan_of vm h args before value after stop ->
  wp (utf8_codepoint args) vm
    (fun vm' r => gas_only vm vm' /\ stop <= e /\ r = map (fun c => VNumber (f64_of_u64 c)) value)
    (fun vm' err => gas_only vm vm' /\ (err = charge_refused \/ e < stop /\ err = "invalid UTF-8 code"%string)).
Proof.
  intros [Ha Hb H8 Hl Hc Hpi (j & Hj & Hpj) Hs Hspan Hend]. unfold utf8_codepoint. apply wp_bind. apply (wp_scan_arg _ h); [done|].
  rewrite Hpi, Hj. cbn [default from_option id]. rewrite Hpj. rewrite Hb in *. assert (0 <= len before <= len (before ++ utf8 value ++ after)) by (rewrite !len_app; unfold len; lia).
  rewrite (proj2 (Z.ltb_ge _ 1)), (proj2 (Z.ltb_ge _ stop)) by lia.
  replace (len before + 1 - 1) with (len before) by lia. rewrite !as_u64_small by (unfold is_u64; lia).
  eapply wp_mono; [eapply wp_charged; [intros vm'; apply codepoint_loop_scan|..]| |]; try done.
  - by apply scan_fuel.
  - destruct Hend; [by left|right]. apply no_char_decoded; [|done]. by apply Forall_app in H8 as [_ [_ ?]%Forall_app].
  - by case_match.
  - by case_match.
  - by case_match.
  - intros vm' r [Hg Hr]. fold e in Hr. destruct (Z.ltb_spec e stop); [done|]. by injection Hr as <-.
  - intros vm' err [Hg [->|Hr]]; (split; [done|]); [by left|right]. fold e in Hr. destruct (Z.ltb_spec e stop); [|done]. by injection Hr as <-.
Qed.

(** ** What is written is read back *)

Lemma char_loop_chars value : forall args k out vm,
  Forall is_char value -> (forall i c, value !! i = Some c -> arg_int args (k + i) = Some c) ->
  char_loop args (seq k (length value)) out vm = (vm, Ret (out ++ utf8 value)).
Proof.
  induction value as [|c value IH]; intros args k out vm Hc Ha; cbn [length seq char_loop]; [by rewrite app_nil_r|].
  inversion_clear Hc as [|? ? Hcc Hcv]. pose proof (Ha 0%nat c eq_refl) as H0. rewrite Nat.add_0_r in H0. rewrite H0.
  destruct Hcc as [Hcs _]. unfold scalar in Hcs. rewrite (proj2 (Z.leb_le 0 c)), (proj2 (Z.leb_le c 1114111)) by lia. cbn [andb negb].
  rewrite as_u32_small, utf8_encode_scalar by (unfold is_u32, scalar; lia). rewrite IH; [by rewrite <- app_assoc|done|].
  intros i c' Hi. rewrite Nat.add_succ_comm. by apply Ha.
Qed.

(** The numbers of [value] as arguments, and what [utf8.char] does with them. *)
Definition chars_args (args : list RawValue) (value : list Z) : Prop :=
  length args = length value /\ forall i c, value !! i = Some c -> arg_int args i = Some c.

Lemma utf8_char_writes vm args value :
  strings_ok vm -> Forall is_char value -> chars_args args value ->
  wp (utf8_char args) vm (fun vm' r => strings_kept vm vm' /\ exists s, r = [VString s] /\ string_bytes vm' s = utf8 value)
    (fun vm' e => strings_kept vm vm' /\ (e = charge_refused \/ e = "out of memory interning a string"%string)).
Proof.
  intros Hok Hc [Hn Ha]. unfold utf8_char. apply wp_bind, wp_charge_gas.
  - intros g spent. apply wp_bind. unfold wp. rewrite Hn, (char_loop_chars value) by done. cbn [outcome_ok fst snd].
    eapply wp_mono; [apply wp_intern_result; by destruct Hok|..].
    + intros vm' r (s & -> & Hk & Hs). split; [|by exists s]. by etransitivity; [apply strings_kept_gas|].
    + intros vm' e [Hk ->]. split; [|by right]. by etransitivity; [apply strings_kept_gas|].
  - intros _ g spent. split; [apply strings_kept_gas|by left].
Qed.

Lemma utf8_chars_u8 value : Forall is_char value -> Forall is_u8 (utf8 value).
Proof.
  induction 1 as [|c value [Hc _] _ IH]; [constructor|]. rewrite utf8_cons. apply Forall_app. split; [|done].
  rewrite encode_utf8_arith by done. unfold scalar in Hc.
  destruct (Z.ltb_spec c 128); [|destruct (Z.ltb_spec c 2048); [|destruct (Z.ltb_spec c 65536)]]; repeat constructor; unfold is_u8; zdm.
Qed.

Lemma within_span_whole value : Forall is_char value -> within_span 0 value (len (utf8 value)).
Proof.
  intros Hc before c after ->. apply Forall_app in Hc as [_ Hc]. inversion_clear Hc as [|? ? Hcc _]. apply encode_utf8_nonempty in Hcc.
  unfold utf8. rewrite map_app, concat_app, len_app. cbn [map concat]. rewrite len_app. unfold len. lia.
Qed.

(** The whole string as a scan: [utf8.len(s, 1, -1)] and [utf8.codepoint(s, 1, -1)]. *)
Lemma scan_whole vm h args value :
  string_bytes vm h = utf8 value -> Forall is_char value -> len (utf8 value) < 4611686018427387904 ->
  arg args 0 = VString h -> arg_int args 1 = Some 1 -> arg_int args 2 = Some (-1) ->
  scan_of vm h args [] value [] (len (utf8 value)).
Proof.
  intros Hb Hc Hl Ha H1 H2. assert (0 <= len (utf8 value)) by (unfold len; lia). split; rewrite ?Hb; try done.
  - cbn. by rewrite app_nil_r.
  - by apply utf8_chars_u8.
  - by rewrite H1.
  - exists (-1). split; [done|]. unfold posrelat. rewrite as_i64_small by (unfold is_i64; lia). change (0 <=? -1) with false. cbv iota.
    destruct (Z.ltb_spec (len (utf8 value)) (- -1)); lia.
  - by apply within_span_whole.
  - left. change (len []) with 0. lia.
Qed.

(** ** The loops end *)

Definition short_bytes (s : list Z) : Prop := Forall is_u8 s /\ len s < 4611686018427387904.

Lemma decode_progress s pos :
  Forall is_u8 s -> 0 <= pos ->
  exists r, utf8_decode s pos = Done r /\ forall cp n, r = Some (cp, n) -> 1 <= n /\ pos + n <= len s.
Proof.
  intros Hs Hp. exists (decoded (drop (Z.to_nat pos) s)). split; [by apply utf8_decode_step|]. intros cp n H.
  apply decoded_spec in H as (Hc & -> & Hpre); [|by apply Forall_drop]. pose proof (encode_utf8_nonempty cp Hc).
  apply prefix_length in Hpre. rewrite length_drop in Hpre. unfold len. lia.
Qed.

Lemma codepoint_loop_ends fuel s pos stop out vm :
  Forall is_u8 s -> 0 <= pos -> (Z.to_nat (len s - pos) < fuel)%nat -> wp (codepoint_loop fuel s pos stop out) vm (fun vm' _ => vm' = vm) (fun vm' _ => vm' = vm).
Proof.
  intros Hs. revert pos out. induction fuel as [|fuel IH]; intros pos out Hp Hf; [lia|]. cbn [codepoint_loop]. destruct (pos <? stop); [|done].
  destruct (decode_progress s pos Hs Hp) as (r & Hr & Hn). apply wp_bind, (wp_exec _ r); [done|]. destruct r as [[cp n]|]; [|done].
  specialize (Hn cp n eq_refl). apply IH; lia.
Qed.

Lemma len_loop_ends fuel s pos stop count vm :
  Forall is_u8 s -> 0 <= pos -> (Z.to_nat (len s - pos) < fuel)%nat -> wp (len_loop fuel s pos stop count) vm (fun vm' _ => vm' = vm) (fun vm' _ => vm' = vm).
Proof.
  intros Hs. revert pos count. induction fuel as [|fuel IH]; intros pos count Hp Hf; [lia|]. cbn [len_loop]. destruct (pos <? stop); [|done].
  destruct (decode_progress s pos Hs Hp) as (r & Hr & Hn). apply wp_bind, (wp_exec _ r); [done|]. destruct r as [[cp n]|]; [|done].
  specialize (Hn cp n eq_refl). apply IH; lia.
Qed.

Lemma index_inside (s : list Z) p : 0 <= p < len s -> exists b, RustExec.index s p = Done b.
Proof. intros H. unfold RustExec.index. apply zget_is_Some in H as [b ->]. by exists b. Qed.

Lemma forward_over_ends fuel s p : 0 <= p -> (Z.to_nat (len s - p) < fuel)%nat -> exists p', forward_over fuel s p = Done p' /\ p <= p'.
Proof.
  revert p. induction fuel as [|fuel IH]; intros p Hp Hf; [lia|]. cbn [forward_over]. destruct (Z.ltb_spec p (len s)); [|exists p; split; [done|lia]].
  destruct (index_inside s p) as [b ->]; [lia|]. cbn [exec_bind]. destruct (is_cont b); [|exists p; split; [done|lia]].
  destruct (IH (p + 1)) as (p' & -> & ?); [lia..|]. exists p'. split; [done|lia].
Qed.

Lemma back_over_ends fuel s p : 0 <= p < len s -> (Z.to_nat p < fuel)%nat -> exists p', back_over fuel s p = Done p' /\ 0 <= p' <= p.
Proof.
  revert p. induction fuel as [|fuel IH]; intros p Hp Hf; [lia|]. cbn [back_over]. destruct (Z.ltb_spec 0 p); [|exists p; split; [done|lia]].
  destruct (index_inside s p) as [b ->]; [lia|]. cbn [exec_bind]. destruct (is_cont b); [|exists p; split; [done|lia]].
  destruct (IH (p - 1)) as (p' & -> & ?); [lia..|]. exists p'. split; [done|lia].
Qed.

Lemma back_to_start_ends fuel s p : 0 <= p <= len s -> (Z.to_nat p < fuel)%nat -> exists p', back_to_start fuel s p = Done p' /\ 0 <= p' <= p.
Proof.
  revert p. induction fuel as [|fuel IH]; intros p Hp Hf; [lia|]. cbn [back_to_start].
  destruct (Z.ltb_spec 0 p), (Z.ltb_spec p (len s)); cbn [andb]; try (exists p; split; [done|lia]).
  destruct (index_inside s p) as [b ->]; [lia|]. cbn [exec_bind]. destruct (is_cont b); [|exists p; split; [done|lia]].
  destruct (IH (p - 1)) as (p' & -> & ?); [lia..|]. exists p'. split; [done|lia].
Qed.

Definition gas_safe {A} (m : LM A) (vm : Vm) : Prop := wp m vm (fun vm' _ => gas_only vm vm') (fun vm' _ => gas_only vm vm').

Lemma gas_only_refl vm : gas_only vm vm.
Proof. reflexivity. Qed.

Lemma gas_safe_ret {A} (a : A) vm : gas_safe (lret a) vm.
Proof. apply gas_only_refl. Qed.

Lemma gas_safe_raise {A} e vm : gas_safe (lraise (A := A) e) vm.
Proof. apply gas_only_refl. Qed.

#[local] Hint Resolve gas_only_refl gas_safe_ret gas_safe_raise : core.
#[local] Hint Extern 0 (wp _ _ _ _) => exact (gas_only_refl _) : core.

Lemma wp_tick vm (Q : Vm -> unit -> Prop) (E : Vm -> string -> Prop) :
  (forall g spent, Q (set_gas g spent vm) tt) -> E vm charge_refused -> wp tick vm Q E.
Proof.
  intros HQ HE. pose proof (HQ (gas vm) (gas_spent vm)) as H0. unfold tick, wp, lbind, tick_gas.
  destruct (gas vm) as [[| |]|] eqn:Eg; cbn; try apply HE; try apply HQ. rewrite <- Eg in H0. by destruct vm.
Qed.

Lemma gas_safe_after {A} (m : LM A) vm g spent :
  gas_safe m (set_gas g spent vm) -> wp m (set_gas g spent vm) (fun vm' _ => gas_only vm vm') (fun vm' _ => gas_only vm vm').
Proof. intros H. eapply wp_mono; [exact H| |]; intros vm' ? (g' & s' & ->); by exists g', s'. Qed.

Lemma offset_forward_ends fuel s n p vm : 0 <= p -> (Z.to_nat (len s - p) < fuel)%nat -> gas_safe (offset_forward fuel s n p) vm.
Proof.
  revert n p vm. induction fuel as [|fuel IH]; intros n p vm Hp Hf; [lia|]. cbn [offset_forward].
  destruct (Z.ltb_spec 0 n), (Z.ltb_spec p (len s)); cbn [andb]; try (unfold gas_safe; by apply wp_ret).
  apply wp_bind, wp_tick; [|done]. intros g spent. destruct (forward_over_ends (S (length s)) s (p + 1)) as (p' & Hp' & ?); [lia|unfold len in *; lia|].
  apply wp_bind, (wp_exec _ p'); [done|]. apply gas_safe_after, IH; lia.
Qed.

Lemma offset_backward_ends fuel s n p vm : 0 <= p <= len s -> (Z.to_nat p < fuel)%nat -> gas_safe (offset_backward fuel s n p) vm.
Proof.
  revert n p vm. induction fuel as [|fuel IH]; intros n p vm Hp Hf; [lia|]. cbn [offset_backward].
  destruct (Z.ltb_spec n 0), (Z.ltb_spec 0 p); cbn [andb]; try (unfold gas_safe; by apply wp_ret).
  apply wp_bind, wp_tick; [|done]. intros g spent. destruct (back_over_ends (S (length s)) s (p - 1)) as (p' & Hp' & ?); [lia|unfold len in *; lia|].
  apply wp_bind, (wp_exec _ p'); [done|]. apply gas_safe_after, IH; lia.
Qed.

(** A call whose first argument, if it is a text, is bytes of a length that a string can have. *)
Definition text_arg_ok (vm : Vm) (args : list RawValue) : Prop :=
  (forall n, arg args 0 = VNumber n -> is_u64 n) /\ (forall s, text_of vm (arg args 0) = Some s -> short_bytes s).

Lemma gas_safe_text {A} vm args (k : list Z -> LM A) :
  text_arg_ok vm args -> (forall s, short_bytes s -> gas_safe (k s) vm) -> gas_safe (let+ s := arg_bytes args 0 in k s) vm.
Proof.
  intros [Hn Ht] Hk. apply wp_bind, wp_arg_bytes; [intros n E; by apply number_to_string_total, Hn|].
  destruct (text_of vm (arg args 0)); [by apply Hk, Ht|done].
Qed.

Lemma gas_safe_charged {A} n (m : LM A) vm :
  (forall vm', wp m vm' (fun vm'' _ => vm'' = vm') (fun vm'' _ => vm'' = vm')) -> gas_safe (let+ _ := charge n in m) vm.
Proof.
  intros Hm. apply wp_bind, wp_charge_gas; [|intros _ g spent; by exists g, spent].
  intros g spent. eapply wp_mono; [apply Hm| |]; intros vm' ? ->; by exists g, spent.
Qed.

Lemma as_u64_nonneg x : 0 <= as_u64 x.
Proof. unfold as_u64. apply Z.mod_pos_bound. lia. Qed.

Lemma span_fuel (s : list Z) pos : 0 <= pos -> (Z.to_nat (len s - pos) < S (length s))%nat.
Proof. unfold len. lia. Qed.

Lemma codepoint_safe vm args : text_arg_ok vm args -> gas_safe (utf8_codepoint args) vm.
Proof.
  intros Hok. apply gas_safe_text; [done|]. intros s [Hs Hl]. cbn zeta. case_match; [done|]. case_match; [done|].
  apply gas_safe_charged. intros vm'. apply codepoint_loop_ends; [done|apply as_u64_nonneg|apply span_fuel, as_u64_nonneg].
Qed.

Lemma len_safe vm args : text_arg_ok vm args -> gas_safe (utf8_len args) vm.
Proof.
  intros Hok. apply gas_safe_text; [done|]. intros s [Hs Hl]. cbn zeta. case_match; [done|]. case_match; [done|].
  apply gas_safe_charged. intros vm'. apply len_loop_ends; [done|apply as_u64_nonneg|apply span_fuel, as_u64_nonneg].
Qed.

(** A test of the byte at a position, made only inside the string. *)
Lemma stray_total (s : list Z) (c : bool) p :
  0 <= p -> exists b, (if c && (p <? len s) then let! b := RustExec.index s p in Done (is_cont b) else Done false) = Done b.
Proof.
  intros Hp. destruct c, (Z.ltb_spec p (len s)); cbn [andb]; try by exists false. destruct (index_inside s p) as [b ->]; [lia|]. by eexists.
Qed.

Lemma offset_safe vm args : text_arg_ok vm args -> gas_safe (utf8_offset args) vm.
Proof.
  intros Hok. apply gas_safe_text; [done|]. intros s [Hs Hl]. cbn zeta. destruct (arg_int args 1) as [n|]; [|done].
  set (i := posrelat _ _). destruct (Z.ltb_spec i 1), (Z.ltb_spec (len s + 1) i); cbn [orb]; try done. assert (0 <= i - 1 <= len s) as Hi by lia.
  destruct (stray_total s (negb (n =? 0)) (i - 1)) as [stray Es]; [lia|]. apply wp_bind, (wp_exec _ stray); [done|]. destruct stray; [done|].
  destruct (n =? 0); [|destruct (0 <? n)].
  - destruct (back_to_start_ends (S (length s)) s (i - 1)) as (p & Ep & _); [done|unfold len in *; lia|]. by apply wp_bind, (wp_exec _ p).
  - apply wp_bind. eapply wp_mono; [apply (offset_forward_ends _ _ _ _ vm)|intros vm' [n' p'] Hg; destruct (0 <? n'); exact Hg|done]; [lia|apply span_fuel; lia].
  - apply wp_bind. eapply wp_mono; [apply (offset_backward_ends _ _ _ _ vm)|intros vm' [n' p'] Hg; destruct (n' <? 0); exact Hg|done]; [lia|unfold len in *; lia].
Qed.

Lemma codes_aux_safe vm args : text_arg_ok vm args -> gas_safe (utf8_codes_aux args) vm.
Proof.
  intros Hok. apply gas_safe_text; [done|]. intros s [Hs Hl]. cbn zeta.
  assert (exists pos, (if default 0 (arg_int args 1) <=? 0 then Done 0 else forward_over (S (length s)) s (as_u64 (default 0 (arg_int args 1)))) = Done pos /\ 0 <= pos) as (pos & Ep & Hp).
  { case_match; [by exists 0|]. pose proof (as_u64_nonneg (default 0 (arg_int args 1))).
    destruct (forward_over_ends (S (length s)) s (as_u64 (default 0 (arg_int args 1)))) as (p & -> & ?); [done|by apply span_fuel|]. exists p. split; [done|lia]. }
  apply wp_bind, (wp_exec _ pos); [done|]. destruct (Z.leb_spec (len s) pos); [done|].
  destruct (decode_progress s pos Hs Hp) as (r & Er & Hr). apply wp_bind, (wp_exec _ r); [done|]. destruct r as [[cp used]|]; [|done].
  specialize (Hr cp used eq_refl). destruct (stray_total s true (pos + used)) as [stray Es]; [lia|]. cbn [andb] in Es.
  apply wp_bind, (wp_exec _ stray); [done|]. by destruct stray.
Qed.

Lemma char_loop_safe args indices out vm : wp (char_loop args indices out) vm (fun vm' _ => vm' = vm) (fun vm' _ => vm' = vm).
Proof.
  revert out. induction indices as [|i indices IH]; intros out; cbn [char_loop]; [done|]. destruct (arg_int args i); [|done]. case_match; [done|apply IH].
Qed.

Lemma char_safe vm args : strings_ok vm -> wp (utf8_char args) vm (fun vm' _ => strings_kept vm vm') (fun vm' _ => strings_kept vm vm').
Proof.
  intros Hok. unfold utf8_char. apply wp_bind, wp_charge_gas; [|intros; apply strings_kept_gas].
  intros g spent. apply wp_bind. eapply wp_mono; [apply char_loop_safe| |intros vm' e ->; apply strings_kept_gas].
  intros vm' out ->. eapply wp_mono; [apply wp_intern_result; by destruct Hok|..].
  - intros vm' r (_ & _ & Hk & _). by etransitivity; [apply strings_kept_gas|].
  - intros vm' e [Hk _]. by etransitivity; [apply strings_kept_gas|].
Qed.

(** ** Positions of characters *)

(** An encoded character is one byte that is not a continuation byte and then only such bytes. *)
Lemma encode_utf8_shape c : is_char c -> exists b t, encode_utf8 c = b :: t /\ is_cont b = false /\ Forall (fun x => is_cont x = true) t.
Proof.
  intros [Hc _]. rewrite encode_utf8_arith by done. unfold scalar in Hc.
  destruct (Z.ltb_spec c 128); [|destruct (Z.ltb_spec c 2048); [|destruct (Z.ltb_spec c 65536)]]; eexists _, _; (split; [done|]); split;
    repeat constructor; rewrite is_cont_within by (unfold is_u8; zdm); (apply within_true; zdm) || (apply within_false; zdm).
Qed.

Definition starts_char (l : list Z) : Prop := match l with [] => True | b :: _ => is_cont b = false end.

Lemma utf8_starts value : Forall is_char value -> starts_char (utf8 value).
Proof. destruct 1 as [|c value Hc _]; [done|]. rewrite utf8_cons. by destruct (encode_utf8_shape c Hc) as (b & t & -> & Hb & _). Qed.

Lemma index_app (before : list Z) b rest : RustExec.index (before ++ b :: rest) (len before) = Done b.
Proof. unfold RustExec.index, len. by rewrite zget_of_nat, list_lookup_middle. Qed.

Lemma forward_over_conts t : forall fuel before rest,
  Forall (fun x => is_cont x = true) t -> starts_char rest -> (length t < fuel)%nat ->
  forward_over fuel (before ++ t ++ rest) (len before) = Done (len before + len t).
Proof.
  induction t as [|x t IH]; intros fuel before rest Ht Hr Hf; (destruct fuel as [|fuel]; [cbn in Hf; lia|]); cbn [forward_over app].
  - rewrite Z.add_0_r. destruct rest as [|b rest]; [rewrite app_nil_r, Z.ltb_irrefl; done|].
    rewrite (proj2 (Z.ltb_lt _ _)) by (rewrite len_app, len_cons; unfold len; lia). rewrite index_app. cbn [exec_bind]. by rewrite Hr.
  - inversion_clear Ht as [|? ? Hx Ht']. rewrite (proj2 (Z.ltb_lt _ _)) by (rewrite len_app, len_cons; unfold len; lia).
    rewrite index_app. cbn [exec_bind]. rewrite Hx. specialize (IH fuel (before ++ [x]) rest Ht' Hr ltac:(cbn in Hf; lia)).
    rewrite len_app, <- app_assoc in IH. change (len [x]) with 1 in IH. cbn [app] in IH. rewrite IH, len_cons. f_equal. lia.
Qed.

Lemma back_over_conts t : forall fuel before b rest,
  is_cont b = false -> Forall (fun x => is_cont x = true) t -> (length t < fuel)%nat ->
  back_over fuel (before ++ b :: t ++ rest) (len before + len t) = Done (len before).
Proof.
  induction t as [|x t IH] using rev_ind; intros fuel before b rest Hb Ht Hf; (destruct fuel as [|fuel]; [lia|]); cbn [back_over].
  - change (len []) with 0. rewrite Z.add_0_r. destruct (0 <? len before); [|done]. cbn [app]. rewrite index_app. cbn [exec_bind]. by rewrite Hb.
  - apply Forall_app in Ht as [Ht [Hx _]%Forall_cons]. rewrite length_app in Hf. cbn in Hf. rewrite len_app. change (len [x]) with 1.
    rewrite (proj2 (Z.ltb_lt 0 _)) by (unfold len; lia).
    replace (before ++ b :: (t ++ [x]) ++ rest) with ((before ++ b :: t) ++ x :: rest) by (by rewrite <- !app_assoc).
    replace (len before + (len t + 1)) with (len (before ++ b :: t)) by (rewrite len_app, len_cons; lia). rewrite index_app. cbn [exec_bind]. rewrite Hx.
    rewrite <- app_assoc. cbn [app]. replace (len (before ++ b :: t) - 1) with (len before + len t) by (rewrite len_app, len_cons; lia).
    apply IH; [done..|lia].
Qed.

Lemma utf8_app a b : utf8 (a ++ b) = utf8 a ++ utf8 b.
Proof. unfold utf8. by rewrite map_app, concat_app. Qed.

Lemma offset_forward_chars value : forall fuel a n vm,
  Forall is_char value -> 0 <= n -> (length (utf8 value) < fuel)%nat ->
  wp (offset_forward fuel (utf8 (a ++ value)) n (len (utf8 a))) vm
    (fun vm' r => gas_only vm vm' /\ r = (n - Z.min n (len value), len (utf8 (a ++ take (Z.to_nat n) value))))
    (fun vm' e => gas_only vm vm' /\ e = charge_refused).
Proof.
  induction value as [|c value IH]; intros fuel a n vm Hc Hn Hf; (destruct fuel as [|fuel]; [lia|]); cbn [offset_forward].
  - rewrite take_nil, !app_nil_r, Z.ltb_irrefl, andb_false_r. apply wp_ret. split; [done|]. change (len []) with 0. f_equal. lia.
  - inversion_clear Hc as [|? ? Hcc Hcv]. destruct (encode_utf8_shape c Hcc) as (b & t & Ec & Hb & Ht).
    assert (len (utf8 (a ++ c :: value)) = len (utf8 a) + len t + 1 + len (utf8 value)) as El by (rewrite utf8_app, utf8_cons, Ec, !len_app, len_cons; lia).
    rewrite (proj2 (Z.ltb_lt _ (len (utf8 (a ++ c :: value))))) by (rewrite El; unfold len; lia). rewrite andb_true_r. destruct (Z.ltb_spec 0 n) as [Hpos|].
    2: { assert (n = 0) as -> by lia. apply wp_ret. split; [done|]. cbn [Z.to_nat take]. rewrite app_nil_r. f_equal; unfold len; lia. }
    apply wp_bind, wp_tick; [|done]. intros g spent.
    assert (forward_over (S (length (utf8 (a ++ c :: value)))) (utf8 (a ++ c :: value)) (len (utf8 a) + 1) = Done (len (utf8 (a ++ [c])))) as Hover.
    { rewrite !utf8_app, !utf8_cons, Ec. change (utf8 []) with (@nil Z). rewrite app_nil_r.
      pose proof (forward_over_conts t (S (length (utf8 a ++ (b :: t) ++ utf8 value))) (utf8 a ++ [b]) (utf8 value) Ht (utf8_starts value Hcv)) as H.
      rewrite <- app_assoc, len_app in H. change (len [b]) with 1 in H. cbn [app] in H |- *. rewrite H by (rewrite length_app; cbn; rewrite length_app; lia).
      f_equal. rewrite len_app, len_cons. lia. }
    apply wp_bind, (wp_exec _ (len (utf8 (a ++ [c])))); [done|].
    replace (a ++ c :: value) with ((a ++ [c]) ++ value) by (by rewrite <- app_assoc).
    eapply wp_mono; [apply IH; [done|lia|]| |].
    + rewrite utf8_cons, Ec, length_app in Hf. cbn in Hf. lia.
    + intros vm' r [(g' & s' & ->) ->]. split; [by exists g', s'|]. replace (Z.to_nat n) with (S (Z.to_nat (n - 1))) by lia. cbn [take].
      rewrite <- app_assoc, len_cons. cbn [app]. f_equal. lia.
    + intros vm' e [(g' & s' & ->) ->]. by split; [exists g', s'|].
Qed.

Lemma offset_backward_chars value : forall fuel after n vm,
  Forall is_char value -> n <= 0 -> (length (utf8 value) < fuel)%nat ->
  wp (offset_backward fuel (utf8 value ++ after) n (len (utf8 value))) vm
    (fun vm' r => gas_only vm vm' /\ r = (n + Z.min (- n) (len value), len (utf8 (take (Z.to_nat (len value + n)) value))))
    (fun vm' e => gas_only vm vm' /\ e = charge_refused).
Proof.
  induction value as [|c value IH] using rev_ind; intros fuel after n vm Hc Hn Hf; (destruct fuel as [|fuel]; [lia|]); cbn [offset_backward].
  - rewrite take_nil. change (len (utf8 [])) with 0. rewrite Z.ltb_irrefl, andb_false_r. apply wp_ret. split; [done|]. change (len []) with 0. f_equal. lia.
  - apply Forall_app in Hc as [Hcv [Hcc _]%Forall_cons]. destruct (encode_utf8_shape c Hcc) as (b & t & Ec & Hb & Ht).
    assert (utf8 (value ++ [c]) = utf8 value ++ b :: t) as Eu by (rewrite utf8_app, utf8_cons, Ec; change (utf8 []) with (@nil Z); by rewrite app_nil_r).
    assert (len (utf8 (value ++ [c])) = len (utf8 value) + len t + 1) as El by (rewrite Eu, len_app, len_cons; lia).
    rewrite (proj2 (Z.ltb_lt 0 (len (utf8 (value ++ [c]))))) by (rewrite El; unfold len; lia). rewrite andb_true_r.
    assert (len (value ++ [c]) = len value + 1) as Ev by (rewrite len_app; done). assert (0 <= len value) by (unfold len; lia). destruct (Z.ltb_spec n 0) as [Hneg|].
    2: { assert (n = 0) as -> by lia. apply wp_ret. split; [done|]. rewrite Ev. rewrite firstn_all2 by (rewrite length_app; unfold len; cbn; lia). f_equal. lia. }
    apply wp_bind, wp_tick; [|done]. intros g spent.
    assert (back_over (S (length (utf8 (value ++ [c]) ++ after))) (utf8 (value ++ [c]) ++ after) (len (utf8 (value ++ [c])) - 1) = Done (len (utf8 value))) as Hover.
    { rewrite El, Eu, <- app_assoc. cbn [app]. replace (len (utf8 value) + len t + 1 - 1) with (len (utf8 value) + len t) by lia.
      apply back_over_conts; [done..|]. rewrite length_app. cbn. rewrite length_app. lia. }
    apply wp_bind, (wp_exec _ (len (utf8 value))); [done|]. rewrite Eu, <- app_assoc.
    eapply wp_mono; [apply IH; [done|lia|]| |].
    + rewrite Eu, length_app in Hf. cbn in Hf. lia.
    + intros vm' r [(g' & s' & ->) ->]. split; [by exists g', s'|]. rewrite Ev. replace (len value + 1 + n) with (len value + (n + 1)) by lia.
      rewrite take_app_le by (unfold len in *; lia). f_equal. lia.
    + intros vm' e [(g' & s' & ->) ->]. by split; [exists g', s'|].
Qed.

(** ** The theorems *)

(** [utf8.len] and [utf8.codepoint] on a range of a string that consists of Unicode scalar
    values, possibly followed by bytes that begin none: the range is read to its end, with the
    number of characters and their code points as results, or up to the first such bytes, where
    [utf8.len] returns [nil] and their position and [utf8.codepoint] raises. The only other
    outcome is that the gas does not suffice; the heap is untouched. *)
Theorem utf8_scans_exact vm h args before value after stop (e := len before + len (utf8 value)) :
  scan_of vm h args before value after stop ->
  wp (utf8_len args) vm
    (fun vm' r => gas_only vm vm' /\ r = if e <? stop then [VNil; VNumber (f64_of_u64 (e + 1))] else [VNumber (f64_of_u64 (len value))])
    (fun vm' err => gas_only vm vm' /\ err = charge_refused) /\
  wp (utf8_codepoint args) vm
    (fun vm' r => gas_only vm vm' /\ stop <= e /\ r = map (fun c => VNumber (f64_of_u64 c)) value)
    (fun vm' err => gas_only vm vm' /\ (err = charge_refused \/ e < stop /\ err = "invalid UTF-8 code"%string)).
Proof. intros Hs. split; [by eapply utf8_len_scan|by eapply utf8_codepoint_scan]. Qed.

(** C19: [utf8.char] of any Unicode scalar values returns a string that [utf8.codepoint(s, 1, -1)]
    reads back as the same values and whose length [utf8.len(s, 1, -1)] is their number; it
    fails only for want of gas or memory. *)
Theorem utf8_text_round_trip vm args value :
  strings_ok vm -> Forall is_char value -> len (utf8 value) < 4611686018427387904 -> chars_args args value ->
  wp (utf8_char args) vm
    (fun vm' r => strings_kept vm vm' /\ exists s, r = [VString s] /\ string_bytes vm' s = utf8 value /\
       forall args', arg args' 0 = VString s -> arg_int args' 1 = Some 1 -> arg_int args' 2 = Some (-1) ->
         wp (utf8_codepoint args') vm' (fun vm'' r => gas_only vm' vm'' /\ r = map (fun c => VNumber (f64_of_u64 c)) value) (fun vm'' e => gas_only vm' vm'' /\ e = charge_refused) /\
         wp (utf8_len args') vm' (fun vm'' r => gas_only vm' vm'' /\ r = [VNumber (f64_of_u64 (len value))]) (fun vm'' e => gas_only vm' vm'' /\ e = charge_refused))
    (fun vm' e => strings_kept vm vm' /\ (e = charge_refused \/ e = "out of memory interning a string"%string)).
Proof.
  intros Hok Hc Hl Ha. eapply wp_mono; [by apply (utf8_char_writes vm args value)| |done].
  intros vm' r (Hk & s & -> & Hs). split; [done|]. exists s. split; [done|]. split; [done|]. intros args' H0 H1 H2.
  pose proof (scan_whole vm' s args' value Hs Hc Hl H0 H1 H2) as Hscan. change (len (@nil Z)) with 0 in Hscan. split.
  - eapply wp_mono; [by apply (utf8_codepoint_scan vm' s args' [] value [])| |].
    + intros vm'' r (Hg & _ & ->). done.
    + intros vm'' e [Hg [->|[He _]]]; [done|]. change (len (@nil Z)) with 0 in He. lia.
  - eapply wp_mono; [by apply (utf8_len_scan vm' s args' [] value [])| |done].
    intros vm'' r [Hg ->]. change (len (@nil Z)) with 0. by rewrite Z.add_0_l, Z.ltb_irrefl.
Qed.

(** On a string of Unicode scalar values [utf8.offset(s, n)] is the position of the first byte
    of the [n]-th character for a positive [n] (one past the end for the number of characters
    plus one), of the [-n]-th character from the end for a negative [n], 1 for 0, and [nil] when
    the string has too few characters. *)
Theorem utf8_offset_exact vm h args value n :
  arg args 0 = VString h -> string_bytes vm h = utf8 value -> Forall is_char value -> len (utf8 value) < 4611686018427387904 ->
  arg_int args 1 = Some n -> arg_int args 2 = None -> is_i64 n ->
  wp (utf8_offset args) vm
    (fun vm' r => gas_only vm vm' /\ r =
       if n =? 0 then [VNumber (f64_of_i64 1)]
       else if 0 <? n then
         if n <=? len value + 1 then [VNumber (f64_of_i64 (len (utf8 (take (Z.to_nat (n - 1)) value)) + 1))] else [VNil]
       else if - n <=? len value then [VNumber (f64_of_i64 (len (utf8 (take (Z.to_nat (len value + n)) value)) + 1))] else [VNil])
    (fun vm' e => gas_only vm vm' /\ e = charge_refused).
Proof.
  intros Ha Hs Hc Hl Hn Hi H64. unfold is_i64 in H64. unfold utf8_offset. apply wp_bind, (wp_scan_arg _ h); [done|]. rewrite Hs, Hn, Hi. cbn [default]. cbn zeta.
  assert (0 <= len (utf8 value)) by (unfold len; lia). assert (0 <= len value) by (unfold len; lia).
  assert (posrelat (if 0 <=? n then 1 else len (utf8 value) + 1) (len (utf8 value)) = if 0 <=? n then 1 else len (utf8 value) + 1) as ->.
  { unfold posrelat. destruct (0 <=? n); [done|]. by rewrite (proj2 (Z.leb_le 0 _)) by lia. }
  destruct (Z.leb_spec 0 n).
  - rewrite (proj2 (Z.ltb_ge (len (utf8 value) + 1) 1)) by lia. change (1 <? 1) with false. cbn [orb]. change (1 - 1) with 0.
    assert ((if negb (n =? 0) && (0 <? len (utf8 value)) then let! b := RustExec.index (utf8 value) 0 in Done (is_cont b) else Done false) = Done false) as Est.
    { case_match; [|done]. pose proof (utf8_starts value Hc) as Hst. destruct (utf8 value) as [|b l]; [by rewrite andb_false_r in *|]. change (is_cont b = false) in Hst. change (RustExec.index (b :: l) 0) with (Done b). cbn [exec_bind]. by rewrite Hst. }
    apply wp_bind, (wp_exec _ false); [done|]. destruct (Z.eqb_spec n 0) as [->|Hne]; [by apply wp_ret|]. rewrite (proj2 (Z.ltb_lt 0 n)) by lia.
    apply wp_bind. eapply wp_mono; [apply (offset_forward_chars value _ [] (n - 1) vm Hc); [lia|cbn [app]; lia]| |done].
    intros vm' r [Hg ->]. cbn [app]. destruct (Z.leb_spec n (len value + 1)).
    + rewrite (proj2 (Z.ltb_ge 0 _)) by lia. by apply wp_ret.
    + rewrite (proj2 (Z.ltb_lt 0 _)) by lia. by apply wp_ret.
  - rewrite (proj2 (Z.ltb_ge _ 1)), Z.ltb_irrefl by lia. cbn [orb]. replace (len (utf8 value) + 1 - 1) with (len (utf8 value)) by lia.
    rewrite Z.ltb_irrefl, andb_false_r. apply wp_bind, (wp_exec _ false); [done|].
    rewrite (proj2 (Z.eqb_neq n 0)), (proj2 (Z.ltb_ge 0 n)) by lia. apply wp_bind.
    pose proof (offset_backward_chars value (S (length (utf8 value))) [] n vm Hc ltac:(lia) ltac:(lia)) as Hback. rewrite app_nil_r in Hback.
    eapply wp_mono; [exact Hback| |done]. intros vm' r [Hg ->]. destruct (Z.leb_spec (- n) (len value)).
    + rewrite (proj2 (Z.ltb_ge _ 0)) by lia. by apply wp_ret.
    + rewrite (proj2 (Z.ltb_lt _ 0)) by lia. by apply wp_ret.
Qed.

End Utf8Theorems.

Section Safety.
Context {AL : Allocator} {LAWS : AllocatorLaws AL} {MA : MapAllocator} {TS : TableSizes} {HS : HeapSizes} {HSL : HeapSizesLaws HS}
  {BL : ByteLimits}.

(** A call that returns or raises, and spends gas at most. *)
Definition ends_quietly {A} (m : LM A) (vm : Vm) : Prop := ends m vm (fun vm' _ => gas_only vm vm') (fun vm' _ => gas_only vm vm').

End Safety.

(** ** Concrete calls *)

Section Sample.
#[local] Existing Instance exact_allocator.
#[local] Existing Instance doubling_map.
#[local] Existing Instance sizes64.
#[local] Existing Instance lib_sizes.
#[local] Existing Instance sample_limits.

Definition text_value : list Z := [97; 233; 8364; 128512].

Lemma text_value_chars : Forall is_char text_value.
Proof. unfold text_value, is_char, scalar. repeat constructor; lia. Qed.

(** The bytes ["aé", 255, "b"]. *)
Definition broken_text : list Z := [97; 195; 169; 255; 98].

Definition start_vm : Vm := sample_vm (sequence []) (sequence []) (Some 100).
Definition string_vm (bytes : list Z) : Vm := (intern_str bytes "no memory" start_vm).1.
Definition sh : RawGc := mkGc 0 0 1.

Lemma start_vm_strings : strings_ok start_vm.
Proof. split; [done|by apply new_ok|done]. Qed.

Definition bytes_u8 (l : list Z) : bool := forallb (fun b => (0 <=? b) && (b <? 256)) l.
Lemma bytes_u8_spec l : bytes_u8 l = true -> Forall is_u8 l.
Proof. intros H. apply Forall_forall. intros b Hb. unfold bytes_u8 in H. rewrite forallb_forall in H. specialize (H b ltac:(by apply list_elem_of_In)). unfold is_u8. lia. Qed.

Lemma broken_scan : scan_of (string_vm broken_text) sh [VString sh; num 2; num (-1)] [97] [233] [255; 98] 5.
Proof.
  split; try done.
  - by apply bytes_u8_spec.
  - unfold is_char, scalar. repeat constructor; lia.
  - exists (-1). by split.
  - intros [|x before] c after E; [vm_compute; reflexivity|]. injection E as _ E. by destruct before.
  - right. intros c Hc Hp. assert (decoded [255; 98] = Some (c, len (encode_utf8 c))) as H by (apply decoded_spec; [by apply bytes_u8_spec|done]). by vm_compute in H.
Qed.

Lemma utf8_decode_exact_witness :
  (exists r, utf8_decode broken_text 1 = Done r /\
     forall ch width, r = Some (ch, width) <-> is_char ch /\ width = len (encode_utf8 ch) /\ encode_utf8 ch `prefix_of` [195; 169; 255; 98]) /\
  utf8_decode broken_text 1 = Done (Some (233, 2)) /\ utf8_decode broken_text 3 = Done None.
Proof. split; [|done]. exact (utf8_decode_exact broken_text 1 (bytes_u8_spec broken_text eq_refl) ltac:(done)). Defined.

Lemma utf8_scans_exact_witness :
  wp (utf8_len [VString sh; num 2; num (-1)]) (string_vm broken_text)
    (fun vm' r => gas_only (string_vm broken_text) vm' /\ r = [VNil; VNumber (f64_of_u64 4)]) (fun vm' err => gas_only (string_vm broken_text) vm' /\ err = charge_refused) /\
  wp (utf8_codepoint [VString sh; num 2; num (-1)]) (string_vm broken_text)
    (fun vm' r => gas_only (string_vm broken_text) vm' /\ 5 <= 3 /\ r = [VNumber (f64_of_u64 233)])
    (fun vm' err => gas_only (string_vm broken_text) vm' /\ (err = charge_refused \/ 3 < 5 /\ err = "invalid UTF-8 code"%string)).
Proof. exact (utf8_scans_exact (string_vm broken_text) sh [VString sh; num 2; num (-1)] [97] [233] [255; 98] 5 broken_scan). Defined.

Lemma utf8_text_round_trip_witness :
  wp (utf8_char (map num text_value)) start_vm
    (fun vm' r => strings_kept start_vm vm' /\ exists s, r = [VString s] /\ string_bytes vm' s = utf8 text_value /\
       forall args', arg args' 0 = VString s -> arg_int args' 1 = Some 1 -> arg_int args' 2 = Some (-1) ->
         wp (utf8_codepoint args') vm' (fun vm'' r => gas_only vm' vm'' /\ r = map (fun c => VNumber (f64_of_u64 c)) text_value) (fun vm'' e => gas_only vm' vm'' /\ e = charge_refused) /\
         wp (utf8_len args') vm' (fun vm'' r => gas_only vm' vm'' /\ r = [VNumber (f64_of_u64 4)]) (fun vm'' e => gas_only vm' vm'' /\ e = charge_refused))
    (fun vm' e => strings_kept start_vm vm' /\ (e = charge_refused \/ e = "out of memory interning a string"%string)).
Proof.
  refine (utf8_text_round_trip start_vm (map num text_value) text_value start_vm_strings text_value_chars eq_refl _).
  split; [done|]. intros i c. do 4 (destruct i as [|i]; [intros [= <-]; by vm_compute|]). done.
Defined.

Lemma utf8_offset_exact_witness :
  wp (utf8_offset [VString sh; num (-2)]) (string_vm (utf8 text_value))
    (fun vm' r => gas_only (string_vm (utf8 text_value)) vm' /\ r = [VNumber (f64_of_i64 (len (utf8 (take 2 text_value)) + 1))])
    (fun vm' e => gas_only (string_vm (utf8 text_value)) vm' /\ e = charge_refused) /\ len (utf8 (take 2 text_value)) = 3.
Proof.
  split; [|done].
  refine (utf8_offset_exact (string_vm (utf8 text_value)) sh [VString sh; num (-2)] text_value (-2) eq_refl _ text_value_chars eq_refl _ eq_refl _); [done|done|].
  unfold is_i64. lia.
Defined.


(** [posrelat] negates its argument: the least [i64], which [-1e300] saturates to, is its own
    negation in a release build, so the position is not clamped to 0 but wraps. [utf8.len] of
    ["abc"] up to [-1e300] reports an invalid byte after the end; up to [-5] it is 0. *)
Lemma posrelat_minimum n : 0 <= n < 4611686018427387904 -> posrelat (-9223372036854775808) n = n - 9223372036854775807.
Proof.
  intros Hn. unfold posrelat. change (0 <=? -9223372036854775808) with false. change (as_i64 (- -9223372036854775808)) with (-9223372036854775808). cbv iota.
  rewrite (proj2 (Z.ltb_ge n _)) by lia. lia.
Qed.

Definition minus_1e300 : Z := 18318360957983683996.

Example utf8_len_minimum :
  let vm := set_gas None 0 (string_vm [97; 98; 99]) in
  (utf8_len [VString sh; num 1; num (-5)] vm).2 = Ret [num 0] /\
  arg_int [VNumber minus_1e300] 0 = Some (-9223372036854775808) /\
  (utf8_len [VString sh; num 1; VNumber minus_1e300] vm).2 = Ret [VNil; num 4].
Proof. by vm_compute. Qed.
End Sample.
