(* ===== verification/StringLib.v ===== *)
(** * StringLib: the [string] library

    Model of [ruau-vm/src/builtins/string_lib.rs] on the machine of [LibHeap]: [len], [sub],
    [rep], [upper], [lower], [reverse], [byte], [char], [split], [find], [match], the step of
    [gmatch] and [gsub] with strings, tables and functions as replacements. A slice out of range
    is a panic. [string.pack] and [string.unpack] are in [Pack]; [string.gmatch] itself,
    which allocates the iterator's closure, is left out, and [string.format] is in
    [FormatLib]. *)

From Stdlib Require Import ZArith Lia.
From stdpp Require Import base numbers list strings option gmap.
From S2P Require Import Prelude Builder AstString RustVec Arena Value LuaTable GcObjects Gc RustExec Pattern Pack LibHeap TableLib BufferLib FloatText LibStrings.

(** The configured limits on patterns and metatable chains. *)
Class StringLimits : Type := { pattern_limits : PatternLimits; max_meta_chain : nat }.

(** [x.checked_add(y)] and [x.checked_mul(y)] on [usize]. *)
Definition checked_add (x y : Z) : option Z := checked_usize (x + y).
Definition checked_mul (x y : Z) : option Z := checked_usize (x * y).

(** [m.ok_or_else(err_memory_limit)?]. *)
Definition or_memory_limit {A} (o : option A) : LM A := match o with Some a => lret a | None => err_memory_limit end.

(** [String::from_utf8_lossy]: an invalid sequence becomes U+FFFD. *)
Fixpoint lossy_loop (fuel : nat) (bytes : list Z) : list Z :=
  match fuel, bytes with
  | S fuel', first :: rest =>
      match utf8_step first rest with
      | Utf8Char _ width => take width bytes ++ lossy_loop fuel' (drop width bytes)
      | Utf8Bad error_len => [239; 191; 189] ++ lossy_loop fuel' (drop (default (length bytes) error_len) bytes)
      end
  | _, _ => []
  end.
Definition lossy (bytes : list Z) : string :=
  String.string_of_list_ascii (map (fun b => Ascii.ascii_of_N (Z.to_N b)) (lossy_loop (length bytes) bytes)).

Definition to_ascii_uppercase (c : Z) : Z := if is_ascii_lowercase c then c - 32 else c.

Section StringLib.
Context {AL : Allocator} {MA : MapAllocator} {TS : TableSizes} {HS : HeapSizes} {BL : ByteLimits} {SL : StringLimits}
  {LC : LuaCode} {NB : NanBits}.

(** ** Bytes *)

Definition string_len (args : list RawValue) : LM (list RawValue) :=
  let+ source := arg_str args 0 in
  let+ vm := lget in
  lret [VNumber (f64_of_u64 (len (str_bytes vm source)))].

Definition string_sub (args : list RawValue) : LM (list RawValue) :=
  let+ source := arg_str args 0 in
  let+ vm := lget in
  let bytes := str_bytes vm source in
  let n := len bytes in
  let i := posrelat (default 1 (arg_int args 1)) n in
  let j := posrelat (default (-1) (arg_int args 2)) n in
  let i := if i <? 1 then 1 else i in
  let j := if n <? j then n else j in
  let+ sub := if j <? i then lret [] else lexec (BufferLib.slice bytes (as_u64 (i - 1)) (as_u64 j)) in
  intern_result sub.

(** [for _ in 0..count { out.extend_from_slice(&bytes); }]. *)
Fixpoint rep_loop (rounds : nat) (bytes out : list Z) : list Z :=
  match rounds with
  | O => out
  | S rounds' => rep_loop rounds' bytes (out ++ bytes)
  end.

Definition string_rep (args : list RawValue) : LM (list RawValue) :=
  let+ bytes := arg_bytes args 0 in
  let count := Z.max (default 0 (arg_int args 1)) 0 in
  match checked_mul (len bytes) count with
  | None => lraise "string.rep result too large"
  | Some total =>
      if max_string_bytes <? total then lraise "string.rep result too large"
      else
        let+ _ := check_cap total in
        let+ _ := charge total in
        match try_reserve 1 (@vec_new Z) total with
        | None => lraise "not enough memory for 'string.rep'"
        | Some _ => intern_result (rep_loop (Z.to_nat count) bytes [])
        end
  end.

Definition string_map_case (map_byte : Z -> Z) (args : list RawValue) : LM (list RawValue) :=
  let+ source := arg_str args 0 in
  let+ vm := lget in
  let+ _ := charge (len (str_bytes vm source)) in
  let+ vm := lget in
  intern_result (map map_byte (str_bytes vm source)).

Definition string_reverse (args : list RawValue) : LM (list RawValue) :=
  let+ source := arg_str args 0 in
  let+ vm := lget in
  let+ _ := charge (len (str_bytes vm source)) in
  let+ vm := lget in
  intern_result (rev (str_bytes vm source)).

Definition string_byte (args : list RawValue) : LM (list RawValue) :=
  let+ source := arg_str args 0 in
  let+ vm := lget in
  let n := len (str_bytes vm source) in
  let i := posrelat (default 1 (arg_int args 1)) n in
  let j := posrelat (default i (arg_int args 2)) n in
  let i := if i <? 1 then 1 else i in
  let j := if n <? j then n else j in
  if j <? i then lret []
  else
    let+ _ := charge (usize_or_max (as_i64 (j - i + 1))) in
    let+ vm := lget in
    let+ cells := lexec (BufferLib.slice (str_bytes vm source) (as_u64 (i - 1)) (as_u64 j)) in
    lret (map (fun b => VNumber (f64_of_u64 b)) cells).

(** [args.iter().enumerate()] from the argument [i] on. *)
Fixpoint string_char_loop (args : list RawValue) (i : Z) (bytes : list Z) : LM (list Z) :=
  match args with
  | [] => lret bytes
  | a :: args' =>
      let+ value := match a with
                    | VNumber n => lret (f64_as_i64 n)
                    | VInteger v => lret v
                    | _ => lraise ("bad argument #" +:+ show (i + 1) +:+ " to 'string.char' (number expected)")
                    end in
      if (0 <=? value) && (value <? 256) then string_char_loop args' (i + 1) (bytes ++ [value])
      else lraise "bad argument to 'string.char' (value out of range)"
  end.

Definition string_char (args : list RawValue) : LM (list RawValue) :=
  let+ _ := charge (len args) in
  let+ bytes := string_char_loop args 0 [] in
  intern_result bytes.

Definition string_upper : list RawValue -> LM (list RawValue) := string_map_case to_ascii_uppercase.
Definition string_lower : list RawValue -> LM (list RawValue) := string_map_case to_ascii_lowercase.

(** ** [string.split] *)

Record BoundedStringTableResult : Type := mkPlan { entries_of : Z; bytes_of_pieces : Z; max_piece : Z; input_bytes : Z }.

Definition observe_input (n : Z) (plan : BoundedStringTableResult) : option BoundedStringTableResult :=
  input ← checked_add (input_bytes plan) n;
  Some (mkPlan (entries_of plan) (bytes_of_pieces plan) (max_piece plan) input).

Definition observe_pieces (entries bytes longest : Z) (plan : BoundedStringTableResult) : option BoundedStringTableResult :=
  e ← checked_add (entries_of plan) entries;
  b ← checked_add (bytes_of_pieces plan) bytes;
  Some (mkPlan e b (Z.max (max_piece plan) longest) (input_bytes plan)).

Definition observe_piece (n : Z) (plan : BoundedStringTableResult) : option BoundedStringTableResult := observe_pieces 1 n n plan.

Definition preflight_array_strings (plan : BoundedStringTableResult) (name : string) : LM unit :=
  let+ vm := lget in
  if max_table_elements vm <? entries_of plan then lraise (name +:+ " result too large")
  else if (max_string_bytes <? max_piece plan) || (max_string_bytes <? bytes_of_pieces plan) then lraise (name +:+ " result too large")
  else
    let+ table_bytes := or_memory_limit (LuaTable.array_capacity_footprint (entries_of plan)) in
    let+ interner_entry_bytes := or_memory_limit (checked_mul (entries_of plan) size_InternerEntry) in
    let+ string_bytes := or_memory_limit (b ← checked_mul (bytes_of_pieces plan) 2; checked_add b interner_entry_bytes) in
    let+ transient_bytes := or_memory_limit (checked_add (input_bytes plan) (max_piece plan)) in
    let+ footprint := or_memory_limit (b ← checked_add table_bytes string_bytes; checked_add b transient_bytes) in
    let+ _ := check_cap footprint in
    charge (default USIZE_MAX (checked_add (entries_of plan) (bytes_of_pieces plan))).

Definition charge_split_scan_gas (haystack_len needle_len : Z) : LM unit :=
  let scan_units :=
    if needle_len =? 0 then haystack_len
    else if needle_len <=? haystack_len then
      default USIZE_MAX (steps ← checked_add (haystack_len - needle_len) 1; checked_mul steps needle_len)
    else 0 in
  charge (default USIZE_MAX (input ← checked_add haystack_len needle_len; checked_add input scan_units)).

Definition split_separator_arg (args : list RawValue) : LM StrArg :=
  match args !! 1%nat with
  | None | Some VNil => lret (Coerced [44])
  | Some _ => arg_str args 1
  end.

Definition copy_split_arg (a : StrArg) (name : string) : LM (list Z) :=
  match a with
  | Coerced bytes => lret bytes
  | Interned handle =>
      let+ vm := lget in
      let bytes := string_bytes vm handle in
      match try_reserve 1 (@vec_new Z) (len bytes) with
      | None => lraise ("out of memory for '" +:+ name +:+ "'")
      | Some _ => lret bytes
      end
  end.

(** [haystack[iter..iter + n] == needle[..]]. *)
Definition occurs_at (haystack needle : list Z) (iter : Z) : Exec bool :=
  let! window := BufferLib.slice haystack iter (iter + len needle) in Done (bool_decide (window = needle)).

(** The scan of a separator that is not empty; the result holds the last start. *)
Fixpoint plan_loop (fuel : nat) (haystack needle : list Z) (iter span_start : Z) (plan : BoundedStringTableResult)
  : LM (BoundedStringTableResult * Z) :=
  match fuel with
  | O => lloop
  | S fuel' =>
      if (len needle <=? len haystack) && (iter <=? len haystack - len needle) then
        let+ hit := lexec (occurs_at haystack needle iter) in
        if (hit : bool) then
          let+ plan := or_memory_limit (observe_piece (iter - span_start) plan) in
          plan_loop fuel' haystack needle (iter + (len needle - 1) + 1) (iter + len needle) plan
        else plan_loop fuel' haystack needle (iter + 1) span_start plan
      else lret (plan, span_start)
  end.

Definition split_result_plan (haystack needle : list Z) : LM BoundedStringTableResult :=
  let+ plan := or_memory_limit (observe_input (len haystack) (mkPlan 0 0 0 0)) in
  let+ plan := or_memory_limit (observe_input (len needle) plan) in
  if len needle =? 0 then or_memory_limit (observe_pieces (len haystack) (len haystack) (if 0 <? len haystack then 1 else 0) plan)
  else
    let+ r := plan_loop (S (length haystack)) haystack needle 0 0 plan in
    let '(plan, span_start) := r in
    or_memory_limit (observe_piece (len haystack - span_start) plan).

Definition emit_split_piece (table : RawGc) (index : Z) (bytes : list Z) : LM unit :=
  let+ piece := intern_str bytes "out of memory for 'string.split'" in
  set_index table (as_i64 index) (VString piece).

Fixpoint split_loop (fuel : nat) (table : RawGc) (haystack needle : list Z) (iter span_start count : Z) : LM (Z * Z) :=
  match fuel with
  | O => lloop
  | S fuel' =>
      if (len needle <=? len haystack) && (iter <=? len haystack - len needle) then
        let+ hit := lexec (occurs_at haystack needle iter) in
        if (hit : bool) then
          let+ piece := lexec (BufferLib.slice haystack span_start iter) in
          let+ _ := emit_split_piece table (count + 1) piece in
          split_loop fuel' table haystack needle ((if 0 <? len needle then iter + (len needle - 1) else iter) + 1) (iter + len needle) (count + 1)
        else split_loop fuel' table haystack needle (iter + 1) span_start count
      else lret (span_start, count)
  end.

Definition string_split (args : list RawValue) : LM (list RawValue) :=
  let+ haystack_arg := arg_str args 0 in
  let+ needle_arg := split_separator_arg args in
  let+ vm := lget in
  let+ _ := charge_split_scan_gas (len (str_bytes vm haystack_arg)) (len (str_bytes vm needle_arg)) in
  let+ vm := lget in
  let+ plan := split_result_plan (str_bytes vm haystack_arg) (str_bytes vm needle_arg) in
  let+ _ := preflight_array_strings plan "string.split" in
  let+ haystack := copy_split_arg haystack_arg "string.split" in
  let+ needle := copy_split_arg needle_arg "string.split" in
  match LuaTable.try_with_array_capacity (entries_of plan) with
  | Err _ => lraise "out of memory for 'string.split'"
  | Ok t =>
      let+ table := alloc_table t "out of memory for 'string.split'" in
      let+ r := split_loop (S (length haystack)) table haystack needle (if len needle =? 0 then 1 else 0) 0 0 in
      let '(span_start, count) := r in
      let+ _ :=
        if 0 <? len needle then
          let+ piece := lexec (BufferLib.slice haystack span_start (len haystack)) in
          emit_split_piece table (count + 1) piece
        else lret tt in
      lret [VTable table]
  end.

(** ** Matches *)

Definition push_capture (src : list Z) (cap : Capture) (out : list RawValue) : LM (list RawValue) :=
  match cap with
  | CapPos p => lret (out ++ [VNumber (f64_of_u64 p)])
  | CapBytes start n =>
      let+ bytes := lexec (BufferLib.slice src start (start + n)) in
      let+ handle := intern_str bytes "out of memory interning a capture" in
      lret (out ++ [VString handle])
  end.

Fixpoint push_captures (src : list Z) (captures : list Capture) (out : list RawValue) : LM (list RawValue) :=
  match captures with
  | [] => lret out
  | cap :: captures' => let+ out := push_capture src cap out in push_captures src captures' out
  end.

(** Whether a byte is special in a pattern, outside a class. *)
Definition is_special (b : Z) : bool := bool_decide (b ∈ [94; 36; 42; 43; 63; 46; 40; 91; 37; 45]).
Definition pattern_has_special (pat : list Z) : bool := existsb is_special pat.

(** [windows(pat.len()).position(|window| window == pat)]. *)
Fixpoint window_position (l pat : list Z) (k : Z) : option Z :=
  if (length l <? length pat)%nat then None
  else if bool_decide (take (length pat) l = pat) then Some k
  else match l with
       | [] => None
       | _ :: l' => window_position l' pat (k + 1)
       end.

Definition match_results (src : list Z) (m : MatchResult) : LM (list RawValue) :=
  match mr_captures m with
  | [] =>
      let+ bytes := lexec (BufferLib.slice src (mr_start m) (mr_end m)) in
      let+ handle := intern_str bytes "out of memory interning a match" in
      lret [VString handle]
  | captures => push_captures src captures []
  end.

Definition string_find (args : list RawValue) : LM (list RawValue) :=
  let+ src := arg_bytes args 0 in
  let+ pat := arg_bytes args 1 in
  let n := len src in
  let init := Z.max (posrelat (default 1 (arg_int args 2)) n) 1 in
  if n + 1 <? init then lret [VNil]
  else
    let init0 := as_u64 (init - 1) in
    let plain := match args !! 3%nat with Some v => truthy v | None => false end in
    if plain || negb (pattern_has_special pat) then
      match pat with
      | [] => lret [VNumber (f64_of_i64 init); VNumber (f64_of_i64 (init - 1))]
      | _ =>
          let+ tail := lexec (BufferLib.slice src init0 n) in
          match window_position tail pat 0 with
          | Some rel => lret [VNumber (f64_of_u64 (init0 + rel + 1)); VNumber (f64_of_u64 (init0 + rel + len pat))]
          | None => lret [VNil]
          end
      end
    else
      let+ r := lexec (Pattern.find src pat pattern_limits init0 0) in
      match r.1 with
      | Some m => push_captures src (mr_captures m) [VNumber (f64_of_u64 (mr_start m + 1)); VNumber (f64_of_u64 (mr_end m))]
      | None => lret [VNil]
      end.

Definition string_match (args : list RawValue) : LM (list RawValue) :=
  let+ src := arg_bytes args 0 in
  let+ pat := arg_bytes args 1 in
  let n := len src in
  let init := Z.max (posrelat (default 1 (arg_int args 2)) n) 1 in
  if n + 1 <? init then lret [VNil]
  else
    let+ r := lexec (Pattern.find src pat pattern_limits (as_u64 (init - 1)) 0) in
    match r.1 with
    | Some m => match_results src m
    | None => lret [VNil]
    end.

(** ** The step of [string.gmatch] *)

Definition interned_string_arg (args : list RawValue) (i : nat) : LM RawGc :=
  let+ s := arg_str args i in
  match s with
  | Interned handle => lret handle
  | Coerced bytes => intern_str bytes "out of memory for 'gmatch'"
  end.

Definition intern_string_range (source : RawGc) (start stop : Z) : LM RawValue :=
  let+ vm := lget in
  let+ bytes := match heap_string (vm_heap vm) source with
                | Some text => lexec (BufferLib.slice text start stop)
                | None => lret []
                end in
  let+ handle := intern_str bytes "out of memory interning a match" in
  lret (VString handle).

Fixpoint captures_from_string (source : RawGc) (captures : list Capture) (out : list RawValue) : LM (list RawValue) :=
  match captures with
  | [] => lret out
  | CapBytes start n :: captures' =>
      let+ v := intern_string_range source start (start + n) in captures_from_string source captures' (out ++ [v])
  | CapPos position :: captures' => captures_from_string source captures' (out ++ [VNumber (f64_of_u64 position)])
  end.

Definition match_results_from_string (source : RawGc) (m : MatchResult) : LM (list RawValue) :=
  match mr_captures m with
  | [] => let+ v := intern_string_range source (mr_start m) (mr_end m) in lret [v]
  | captures => captures_from_string source captures []
  end.

(** [n as usize]: truncation towards zero, saturating; zero for a NaN. *)
Definition f64_as_u64 (b : Z) : Z :=
  let e := f64_exp b in
  let m := f64_man b in
  if f64_is_nan b || f64_neg b then 0
  else if e =? 2047 then USIZE_MAX
  else
    let m' := if e =? 0 then m else m + 4503599627370496 in
    let e' := if e =? 0 then 1 else e in
    Z.min USIZE_MAX (if 1075 <=? e' then m' * 2 ^ (e' - 1075) else m' / 2 ^ (1075 - e')).

Definition state_position (v : RawValue) : Z :=
  match v with
  | VNumber n => if f64_le 0 n then f64_as_u64 n else 0
  | _ => 0
  end.

Definition string_gmatch_aux (args : list RawValue) : LM (list RawValue) :=
  match arg args 0 with
  | VTable state =>
      let+ vm := lget in
      match get_index vm state 1, get_index vm state 2 with
      | VString source, VString pattern =>
          let pos := state_position (get_index vm state 3) in
          let source_len := len (string_bytes vm source) in
          if source_len <? pos then lret []
          else
            let+ r := lexec (Pattern.find (string_bytes vm source) (string_bytes vm pattern) pattern_limits pos 0) in
            match r.1 with
            | Some m =>
                let next := Z.max (mr_end m) (mr_start m + 1) in
                let+ _ := set_index state 3 (VNumber (f64_of_u64 next)) in
                match_results_from_string source m
            | None =>
                let+ _ := set_index state 3 (VNumber (f64_of_u64 (source_len + 1))) in
                lret []
            end
      | _, _ => lret []
      end
  | _ => lret []
  end.

(** ** Indexing (execute/mod.rs) *)

(** [name] is one letter [x], [y] or [z] of either case. *)
Definition vector_component_index (name : list Z) : option Z :=
  match name with
  | [c] => let index := as_u8 (Z.lor c 32 - 120) in if index <? 3 then Some index else None
  | _ => None
  end.

Definition key_name (vm : Vm) (key : RawValue) : string :=
  match key with
  | VString handle => lossy (string_bytes vm handle)
  | other => type_name other
  end.

Definition index_error (vm : Vm) (value key : RawValue) : string :=
  "attempt to index " +:+ type_name value +:+ " with '" +:+ key_name vm key +:+ "'".

Definition vector_component (vm : Vm) (value key : RawValue) : option Z :=
  match value, key with
  | VVector x y z, VString handle =>
      text ← heap_string (vm_heap vm) handle;
      i ← vector_component_index text;
      zget [x; y; z] i
  | _, _ => None
  end.

(** The walk along the [__index] chain, [rounds] steps of it. *)
Fixpoint index_chain (rounds : nat) (current key : RawValue) : LM RawValue :=
  match rounds with
  | O => lraise "'__index' chain is too long (metatable loop)"
  | S rounds' =>
      let+ vm := lget in
      let raw := match current with
                 | VTable handle => match table_of vm handle with Some t => LuaTable.get t key | None => VNil end
                 | _ => VNil
                 end in
      if negb (is_nil raw) then lret raw
      else
        let+ handler := get_metamethod current MIndex in
        match handler with
        | None =>
            match current with
            | VTable _ => lret VNil
            | _ => let+ vm := lget in lraise (index_error vm current key)
            end
        | Some (VFunction f) =>
            let+ results := call_value (VFunction f) [current; key] in lret (first_result results)
        | Some other => index_chain rounds' other key
        end
  end.

Definition index_value (value key : RawValue) : LM RawValue :=
  let+ vm := lget in
  match vector_component vm value key with
  | Some component => lret (VNumber (f64_of_f32 component))
  | None => index_chain max_meta_chain value key
  end.

(** ** [string.gsub] *)

Definition capture_value (src : list Z) (m : MatchResult) (idx : Z) : LM RawValue :=
  match mr_captures m with
  | [] =>
      if idx =? 0 then
        let+ bytes := lexec (BufferLib.slice src (mr_start m) (mr_end m)) in
        let+ handle := intern_str bytes "out of memory" in
        lret (VString handle)
      else lraise "invalid capture index in replacement"
  | captures =>
      match zget captures idx with
      | None => lraise "invalid capture index in replacement"
      | Some (CapPos p) => lret (VNumber (f64_of_u64 p))
      | Some (CapBytes start n) =>
          let+ bytes := lexec (BufferLib.slice src start (start + n)) in
          let+ handle := intern_str bytes "out of memory" in
          lret (VString handle)
      end
  end.

Definition append_repl_value (out : list Z) (value : RawValue) (whole : list Z) : LM (list Z) :=
  let+ vm := lget in
  match value with
  | VNil | VBoolean false => lret (out ++ whole)
  | VString handle => lret (out ++ string_bytes vm handle)
  | VNumber n => let+ text := number_bytes n in lret (out ++ text)
  | VInteger i => lret (out ++ i64_text i)
  | _ => lraise "invalid replacement value (a string is expected)"
  end.

(** The loop over a template. *)
Fixpoint template_loop (template src : list Z) (m : MatchResult) (whole out : list Z) : LM (list Z) :=
  match template with
  | [] => lret out
  | [c] => lret (out ++ [c])
  | c :: ((d :: rest') as rest) =>
      if c =? 37 then
        if d =? 37 then template_loop rest' src m whole (out ++ [37])
        else if d =? 48 then template_loop rest' src m whole (out ++ whole)
        else if is_ascii_digit d then
          let+ value := capture_value src m (d - 49) in
          let+ out := append_repl_value out value whole in
          template_loop rest' src m whole out
        else lraise "invalid use of '%' in replacement string"
      else template_loop rest src m whole (out ++ [c])
  end.

Definition value_bytes (value : RawValue) : LM (list Z) :=
  match value with
  | VString handle => let+ vm := lget in lret (string_bytes vm handle)
  | VNumber n => number_bytes n
  | VInteger i => lret (i64_text i)
  | _ => lraise "bad argument to a string function (string expected)"
  end.

(** [for idx in 0..n { call_args.push(capture_value(..)?); }]. *)
Fixpoint capture_values (src : list Z) (m : MatchResult) (indices : list Z) (call_args : list RawValue) : LM (list RawValue) :=
  match indices with
  | [] => lret call_args
  | idx :: indices' => let+ v := capture_value src m idx in capture_values src m indices' (call_args ++ [v])
  end.

Definition gsub_append (out src : list Z) (m : MatchResult) (repl : RawValue) : LM (list Z) :=
  let+ whole := lexec (BufferLib.slice src (mr_start m) (mr_end m)) in
  match repl with
  | VString _ | VNumber _ | VInteger _ =>
      let+ template := value_bytes repl in
      template_loop template src m whole out
  | VTable _ =>
      let+ key := capture_value src m 0 in
      let+ value := index_value repl key in
      append_repl_value out value whole
  | VFunction _ =>
      let+ call_args := capture_values src m (range_excl 0 (Z.max (len (mr_captures m)) 1)) [] in
      let+ results := call_value repl call_args in
      append_repl_value out (first_result results) whole
  | _ => lraise "bad argument #3 to 'gsub' (string/function/table expected)"
  end.

(** The loop over the source: output, position and count. *)
Fixpoint gsub_loop (fuel : nat) (src pat_body : list Z) (anchored : bool) (repl : RawValue) (max_n : Z)
  (out : list Z) (pos count steps : Z) : LM (list Z * Z * Z) :=
  match fuel with
  | O => lloop
  | S fuel' =>
      if count <? max_n then
        let+ r := lexec (Pattern.match_at src pat_body pattern_limits pos steps) in
        let '(found, steps) := r in
        let next out pos count :=
          if anchored || (len src <? pos) then lret (out, pos, count)
          else gsub_loop fuel' src pat_body anchored repl max_n out pos count steps in
        match found with
        | Some m =>
            let+ out := gsub_append out src m repl in
            let+ _ := meter_string_growth (len out) "string.gsub" in
            if pos <? mr_end m then next out (mr_end m) (count + 1)
            else
              let+ out := if pos <? len src then let+ b := lexec (RustExec.index src pos) in lret (out ++ [b]) else lret out in
              next out (pos + 1) (count + 1)
        | None =>
            if pos <? len src then
              let+ b := lexec (RustExec.index src pos) in next (out ++ [b]) (pos + 1) count
            else lret (out, pos, count)
        end
      else lret (out, pos, count)
  end.

Definition string_gsub (args : list RawValue) : LM (list RawValue) :=
  let+ src := arg_bytes args 0 in
  let+ pat := arg_bytes args 1 in
  let repl := arg args 2 in
  let max_n := default I64_MAX (arg_int args 3) in
  let anchored := bool_decide (head pat = Some 94) in
  let pat_body := if anchored then drop 1 pat else pat in
  let+ r := gsub_loop (S (S (length src))) src pat_body anchored repl max_n [] 0 0 0 in
  let '(out, pos, count) := r in
  let+ out :=
    if pos <? len src then
      let+ tail := lexec (BufferLib.slice src pos (len src)) in
      let out := out ++ tail in
      let+ _ := meter_string_growth (len out) "string.gsub" in
      lret out
    else lret out in
  let+ handle := intern_str out "out of memory for 'gsub'" in
  lret [VString handle; VNumber (f64_of_i64 count)].
End StringLib.
