(* ===== verification/StringTheorems.v ===== *)
(** * StringTheorems: what the functions of the [string] library return

    [string.sub] and [string.byte] select the bytes at the positions of a range, [string.char]
    undoes [string.byte], [string.rep] repeats, [string.find] and [string.match] report the
    leftmost match of the relation of [PatternSpec], and [table.concat] undoes [string.split]. *)

From Stdlib Require Import ZArith Lia.
From stdpp Require Import base numbers list strings option gmap.
From S2P Require Import Prelude Builder AstString RustVec Arena ArenaFacts ArenaTheorems Value Registry LuaTable LuaTableFacts LuaTableTheorems GcObjects Gc GcSweep RustExec Pattern PatternSpec PatternFacts PatternTheorems Pack LibHeap TableLib LibHeapFacts TableLibFacts TableEdit BufferLib BufferFacts FloatText FloatTextTheorems LibStrings TableConcat Utf8Lib StringLib.

(** Membership in a list of named messages. *)
Ltac among := apply list_elem_of_In; repeat first [left; reflexivity | right].

(** ** Positions *)

(** A position of Lua: negative ones count from the end. *)
Definition resolved (pos n : Z) : Z := if 0 <=? pos then pos else n + 1 + pos.

(** The bytes of [l], which starts at position [p], whose positions are between [lo] and [hi]. *)
Fixpoint bytes_between (p lo hi : Z) (l : list Z) : list Z :=
  match l with
  | [] => []
  | b :: l' => (if (lo <=? p) && (p <=? hi) then [b] else []) ++ bytes_between (p + 1) lo hi l'
  end.

Lemma bytes_between_none p lo hi l : hi < p \/ hi < lo -> bytes_between p lo hi l = [].
Proof.
  revert p. induction l as [|b l IH]; intros p H; [done|]. cbn [bytes_between]. rewrite IH by lia.
  destruct (Z.leb_spec lo p), (Z.leb_spec p hi); try done; lia.
Qed.

Lemma bytes_between_low p lo lo' hi l : lo <= p -> lo' <= p -> bytes_between p lo hi l = bytes_between p lo' hi l.
Proof.
  revert p. induction l as [|b l IH]; intros p H H'; [done|]. cbn [bytes_between]. rewrite IH by lia.
  by rewrite (proj2 (Z.leb_le lo p)), (proj2 (Z.leb_le lo' p)).
Qed.

Lemma bytes_between_slice p lo hi l :
  p <= lo -> lo <= hi -> hi < p + len l ->
  bytes_between p lo hi l = take (Z.to_nat (hi - lo + 1)) (drop (Z.to_nat (lo - p)) l).
Proof.
  revert p lo. induction l as [|b l IH]; intros p lo H1 H2 H3; [unfold len in H3; cbn in H3; lia|]. cbn [bytes_between]. rewrite len_cons in H3.
  destruct (Z.leb_spec lo p) as [Hle|Hgt].
  - assert (lo = p) as -> by lia. rewrite (proj2 (Z.leb_le p hi)) by lia. cbn [andb app]. rewrite Z.sub_diag. change (Z.to_nat 0) with 0%nat. cbn [drop].
    replace (Z.to_nat (hi - p + 1)) with (S (Z.to_nat (hi - p))) by lia. cbn [take]. f_equal. rewrite (bytes_between_low _ p (p + 1)) by lia.
    destruct (Z.le_gt_cases (p + 1) hi).
    + rewrite (IH (p + 1) (p + 1)), Z.sub_diag by lia. change (Z.to_nat 0) with 0%nat. cbn [drop]. f_equal. lia.
    + rewrite bytes_between_none by lia. by replace (Z.to_nat (hi - p)) with 0%nat by lia.
  - cbn [andb app]. rewrite IH by lia. replace (Z.to_nat (lo - p)) with (S (Z.to_nat (lo - (p + 1)))) by lia. done.
Qed.

(** [posrelat] is [resolved], or both are before the first position. *)
Lemma posrelat_resolved pos n : is_i64 pos -> 0 <= n < 4611686018427387904 -> posrelat pos n = resolved pos n \/ (posrelat pos n <= 0 /\ resolved pos n <= 0).
Proof.
  unfold is_i64, posrelat, resolved. intros Hp Hn. destruct (Z.leb_spec 0 pos); [by left|].
  destruct (Z.eq_dec pos (-9223372036854775808)) as [->|Hne].
  - change (as_i64 (- -9223372036854775808)) with (-9223372036854775808). rewrite (proj2 (Z.ltb_ge n _)) by lia. left. lia.
  - rewrite as_i64_small by (unfold is_i64; lia). destruct (Z.ltb_spec n (- pos)); [right|left]; lia.
Qed.

(** The slice that the clamped positions select. *)
Lemma clamped_slice bytes i j lo hi :
  len bytes < 4611686018427387904 -> (i = lo \/ (i <= 0 /\ lo <= 0)) -> (j = hi \/ (j <= 0 /\ hi <= 0)) ->
  let i := if i <? 1 then 1 else i in
  let j := if len bytes <? j then len bytes else j in
  if j <? i then bytes_between 1 lo hi bytes = []
  else BufferLib.slice bytes (as_u64 (i - 1)) (as_u64 j) = Done (bytes_between 1 lo hi bytes) /\ 1 <= i <= j /\ j <= len bytes /\
       len (bytes_between 1 lo hi bytes) = j - i + 1.
Proof.
  intros Hn Hi Hj i' j'. assert (0 <= len bytes) by apply len_nonneg.
  assert (i' = Z.max i 1) as -> by (unfold i'; destruct (Z.ltb_spec i 1); lia). assert (j' = Z.min j (len bytes)) as -> by (unfold j'; destruct (Z.ltb_spec (len bytes) j); lia).
  assert (bytes_between 1 lo hi bytes = bytes_between 1 (Z.max i 1) (Z.min j (len bytes)) bytes) as ->.
  { clear - Hi Hj. assert (forall l p, 1 <= p -> p + len l <= 1 + len bytes -> bytes_between p lo hi l = bytes_between p (Z.max i 1) (Z.min j (len bytes)) l) as H; [|apply H; lia].
    induction l as [|b l IH]; intros p Hp Hl; [done|]. rewrite len_cons in Hl. pose proof (len_nonneg l). cbn [bytes_between]. rewrite IH by lia. f_equal.
    assert ((lo <=? p) && (p <=? hi) = (Z.max i 1 <=? p) && (p <=? Z.min j (len bytes))) as ->; [|done]. lia. }
  destruct (Z.ltb_spec (Z.min j (len bytes)) (Z.max i 1)) as [Hlt|Hge].
  - apply bytes_between_none. lia.
  - rewrite bytes_between_slice by lia. unfold BufferLib.slice. rewrite !as_u64_small by (unfold is_u64; lia).
    rewrite (proj2 (Z.leb_le 0 _)), (proj2 (Z.leb_le _ (Z.min j (len bytes)))), (proj2 (Z.leb_le _ (len bytes))) by lia. cbn [andb].
    split; [do 2 f_equal; lia|]. split; [lia|]. split; [lia|]. unfold len in *. rewrite length_take, length_drop. lia.
Qed.

(** ** Arguments *)

(** A text argument as the library reads it: its bytes, short enough to be a string's. *)
Definition text_is (vm : Vm) (v : RawValue) (bytes : list Z) : Prop :=
  text_of vm v = Some bytes /\ (forall n, v = VNumber n -> is_u64 n) /\ Forall is_u8 bytes /\ len bytes < 4611686018427387904.

Section StringTheorems.
Context {AL : Allocator} {LAWS : AllocatorLaws AL} {MA : MapAllocator} {TS : TableSizes} {HS : HeapSizes} {HSL : HeapSizesLaws HS}
  {BL : ByteLimits} {SL : StringLimits} {OA : OnAbort}.

(** A source that stands for [bytes] as long as the heap does not change. *)
Definition stands_for (vm : Vm) (source : StrArg) (bytes : list Z) : Prop :=
  forall vm', vm_heap vm' = vm_heap vm -> str_bytes vm' source = bytes.

Lemma wp_arg_str args i bytes vm (Q : Vm -> StrArg -> Prop) (E : Vm -> string -> Prop) :
  text_is vm (arg args i) bytes -> (forall source, stands_for vm source bytes -> Q vm source) -> wp (arg_str args i) vm Q E.
Proof.
  intros (Ht & Hn & _) HQ. unfold arg_str. destruct (arg args i) eqn:Ea; try discriminate Ht; cbn [text_of] in Ht.
  - unfold number_bytes. rewrite Ht. apply wp_bind, wp_ret, HQ. by intros vm' _.
  - apply wp_ret, HQ. intros vm' _. by injection Ht.
  - apply wp_ret, HQ. intros vm' Eh. cbn [str_bytes]. unfold string_bytes in *. rewrite Eh. by injection Ht.
Qed.

Lemma wp_arg_text args i bytes vm (Q : Vm -> list Z -> Prop) (E : Vm -> string -> Prop) :
  text_is vm (arg args i) bytes -> Q vm bytes -> wp (arg_bytes args i) vm Q E.
Proof.
  intros Ht HQ. unfold arg_bytes. apply wp_bind. apply (wp_arg_str args i bytes); [done|]. intros source Hs. apply wp_bind, wp_get. rewrite Hs by done. by apply wp_ret.
Qed.

Definition intern_refused : string := "out of memory interning a string".

(** A function whose result is one new string. *)
Definition returns_string (m : LM (list RawValue)) (vm : Vm) (bytes : list Z) (refusals : list string) : Prop :=
  wp m vm (fun vm' r => strings_kept vm vm' /\ exists s, r = [VString s] /\ string_bytes vm' s = bytes) (fun vm' e => strings_kept vm vm' /\ e ∈ refusals).

Lemma returns_interned vm vm0 bytes (refusals : list string) :
  strings_ok vm -> gas_only vm vm0 -> intern_refused ∈ refusals ->
  wp (intern_result bytes) vm0 (fun vm' r => strings_kept vm vm' /\ exists s, r = [VString s] /\ string_bytes vm' s = bytes)
    (fun vm' e => strings_kept vm vm' /\ e ∈ refusals).
Proof.
  intros Hok (g & spent & ->) Hin. eapply wp_mono; [apply wp_intern_result; by destruct Hok|..].
  - intros vm' r (s & -> & Hk & Hs). split; [by etransitivity; [apply strings_kept_gas|]|]. by exists s.
  - intros vm' e [Hk ->]. split; [by etransitivity; [apply strings_kept_gas|]|done].
Qed.

(** ** Selecting bytes *)

Lemma string_sub_spec vm args bytes :
  strings_ok vm -> text_is vm (arg args 0) bytes ->
  is_i64 (default 1 (arg_int args 1)) -> is_i64 (default (-1) (arg_int args 2)) ->
  returns_string (string_sub args) vm
    (bytes_between 1 (resolved (default 1 (arg_int args 1)) (len bytes)) (resolved (default (-1) (arg_int args 2)) (len bytes)) bytes) [intern_refused].
Proof.
  intros Hok Ht Hi Hj. unfold returns_string, string_sub. apply wp_bind, (wp_arg_str args 0 bytes); [done|]. intros source Hs.
  apply wp_bind, wp_get. cbn zeta. rewrite !(Hs vm eq_refl). destruct Ht as (_ & _ & _ & Hn). assert (0 <= len bytes) by apply len_nonneg.
  pose proof (clamped_slice bytes _ _ _ _ Hn (posrelat_resolved _ (len bytes) Hi ltac:(lia)) (posrelat_resolved _ (len bytes) Hj ltac:(lia))) as Hc. cbn zeta in Hc.
  match type of Hc with if ?c then _ else _ => destruct c end.
  - rewrite Hc. apply wp_bind, wp_ret. apply returns_interned; [done|apply gas_only_refl|among].
  - destruct Hc as [Hc _]. apply wp_bind, (wp_exec _ _ _ _ _ Hc). apply returns_interned; [done|apply gas_only_refl|among].
Qed.

Lemma string_byte_spec vm args bytes :
  text_is vm (arg args 0) bytes -> is_i64 (default 1 (arg_int args 1)) ->
  (exists j, arg_int args 2 = Some j /\ is_i64 j) ->
  let j := default 0 (arg_int args 2) in
  wp (string_byte args) vm
    (fun vm' r => gas_only vm vm' /\ r = map (fun b => VNumber (f64_of_u64 b)) (bytes_between 1 (resolved (default 1 (arg_int args 1)) (len bytes)) (resolved j (len bytes)) bytes))
    (fun vm' e => gas_only vm vm' /\ e = charge_refused).
Proof.
  intros Ht Hi (j & Ej & Hj). rewrite Ej. cbn [default from_option id]. unfold string_byte. apply wp_bind, (wp_arg_str args 0 bytes); [done|]. intros source Hs.
  apply wp_bind, wp_get. cbn zeta. rewrite !(Hs vm eq_refl). rewrite Ej. cbn [default from_option id]. destruct Ht as (_ & _ & _ & Hn). assert (0 <= len bytes) by apply len_nonneg.
  pose proof (clamped_slice bytes _ _ _ _ Hn (posrelat_resolved _ (len bytes) Hi ltac:(lia)) (posrelat_resolved _ (len bytes) Hj ltac:(lia))) as Hc. cbn zeta in Hc.
  match type of Hc with if ?c then _ else _ => destruct c end.
  - rewrite Hc. apply wp_ret. split; [apply gas_only_refl|done].
  - destruct Hc as [Hc _]. apply wp_bind, wp_charge_gas; [|intros _ g spent; split; [by exists g, spent|done]].
    intros g spent. apply wp_bind, wp_get. rewrite Hs by done. apply wp_bind, (wp_exec _ _ _ _ _ Hc). apply wp_ret. split; [by exists g, spent|done].
Qed.

(** ** Building strings *)

Lemma string_char_loop_spec bytes : forall args i out vm,
  length args = length bytes -> Forall is_u8 bytes -> (forall k b, bytes !! k = Some b -> arg_int args k = Some b) ->
  string_char_loop args i out vm = (vm, Ret (out ++ bytes)).
Proof.
  induction bytes as [|b bytes IH]; intros args i out vm Hl Hb Ha; (destruct args as [|a args]; [try discriminate|try discriminate]); cbn [string_char_loop].
  - by rewrite app_nil_r.
  - inversion_clear Hb as [|? ? Hb8 Hbs]. pose proof (Ha 0%nat b eq_refl) as H0. unfold arg_int in H0. cbn [lookup list_lookup] in H0.
    assert (forall vm', (match a with VNumber n => lret (f64_as_i64 n) | VInteger v => lret v | _ => lraise ("bad argument #" +:+ show (i + 1) +:+ " to 'string.char' (number expected)") end) vm' = (vm', Ret b)) as Hval.
    { intros vm'. destruct a; try discriminate H0; by injection H0 as ->. }
    unfold lbind. rewrite Hval. unfold is_u8 in Hb8. rewrite (proj2 (Z.leb_le 0 b)), (proj2 (Z.ltb_lt b 256)) by lia. cbn [andb].
    rewrite (IH args (i + 1) (out ++ [b]) vm); [by rewrite <- app_assoc|by injection Hl|done|]. intros k b' Hk. exact (Ha (S k) b' Hk).
Qed.

(** Arguments that read as the numbers of [bytes]. *)
Definition byte_args (args : list RawValue) (bytes : list Z) : Prop :=
  length args = length bytes /\ forall k b, bytes !! k = Some b -> arg_int args k = Some b.

Lemma string_char_spec vm args bytes :
  strings_ok vm -> Forall is_u8 bytes -> byte_args args bytes ->
  returns_string (string_char args) vm bytes [charge_refused; intern_refused].
Proof.
  intros Hok Hb [Hl Ha]. unfold returns_string, string_char. apply wp_bind, wp_charge_gas.
  - intros g spent. apply wp_bind. unfold wp. rewrite (string_char_loop_spec bytes) by done. cbn [outcome_ok fst snd app].
    apply returns_interned; [done|by exists g, spent|among].
  - intros _ g spent. split; [apply strings_kept_gas|among].
Qed.

Lemma rep_loop_concat n bytes out : rep_loop n bytes out = out ++ concat (replicate n bytes).
Proof. revert out. induction n as [|n IH]; intros out; cbn; [by rewrite app_nil_r|]. by rewrite IH, <- app_assoc. Qed.

Lemma map_case_spec vm args bytes f :
  strings_ok vm -> text_is vm (arg args 0) bytes -> returns_string (string_map_case f args) vm (map f bytes) [charge_refused; intern_refused].
Proof.
  intros Hok Ht. unfold returns_string, string_map_case. apply wp_bind, (wp_arg_str args 0 bytes); [done|]. intros source Hs.
  apply wp_bind, wp_get. apply wp_bind, wp_charge_gas; [|intros _ g spent; split; [apply strings_kept_gas|among]].
  intros g spent. apply wp_bind, wp_get. rewrite Hs by done. apply returns_interned; [done|by exists g, spent|among].
Qed.

Lemma reverse_spec vm args bytes :
  strings_ok vm -> text_is vm (arg args 0) bytes -> returns_string (string_reverse args) vm (rev bytes) [charge_refused; intern_refused].
Proof.
  intros Hok Ht. unfold returns_string, string_reverse. apply wp_bind, (wp_arg_str args 0 bytes); [done|]. intros source Hs.
  apply wp_bind, wp_get. apply wp_bind, wp_charge_gas; [|intros _ g spent; split; [apply strings_kept_gas|among]].
  intros g spent. apply wp_bind, wp_get. rewrite Hs by done. apply returns_interned; [done|by exists g, spent|among].
Qed.

Definition rep_too_large : string := "string.rep result too large".

Lemma rep_spec vm args bytes (count := Z.max (default 0 (arg_int args 1)) 0) :
  strings_ok vm -> text_is vm (arg args 0) bytes -> max_string_bytes <= USIZE_MAX ->
  wp (string_rep args) vm
    (fun vm' r => strings_kept vm vm' /\ len bytes * count <= max_string_bytes /\
       exists s, r = [VString s] /\ string_bytes vm' s = concat (replicate (Z.to_nat count) bytes))
    (fun vm' e => strings_kept vm vm' /\
       if max_string_bytes <? len bytes * count then e = rep_too_large
       else e ∈ (["memory limit exceeded"; charge_refused; "not enough memory for 'string.rep'"; intern_refused]%string : list string)).
Proof.
  intros Hok Ht Hmax. unfold string_rep. apply wp_bind, (wp_arg_text args 0 bytes); [done|]. cbn zeta. fold count.
  unfold checked_mul, checked_usize. destruct (Z.leb_spec (len bytes * count) USIZE_MAX) as [Hle|Hgt].
  2: { apply wp_raise. split; [by split|]. by rewrite (proj2 (Z.ltb_lt max_string_bytes _)) by lia. }
  destruct (Z.ltb_spec max_string_bytes (len bytes * count)) as [Hlt|Hge]; [by apply wp_raise|].
  unfold check_cap. apply wp_bind, wp_bind, wp_get. destruct (would_exceed_cap vm _); [apply wp_raise; split; [by split|among]|]. apply wp_ret.
  apply wp_bind, wp_charge_gas; [|intros _ g spent; split; [apply strings_kept_gas|among]]. intros g spent.
  destruct (try_reserve 1 vec_new _); [|apply wp_raise; split; [apply strings_kept_gas|among]].
  rewrite rep_loop_concat. cbn [app].
  eapply wp_mono; [apply (returns_interned vm _ _ [intern_refused]); [done|by exists g, spent|among]| |].
  - intros vm' r [Hk Hr]. done.
  - intros vm' e [Hk ->%list_elem_of_singleton]. split; [done|among].
Qed.

(** [string.rep] of the empty string: no gas is charged, but the loop runs as often as the count
    says. *)
Lemma rep_of_empty vm handle count :
  string_bytes vm handle = [] -> 0 <= count < 9223372036854775808 -> 0 <= max_string_bytes -> gas vm = Some 0 -> gas_spent vm = 0 -> memory_cap vm = None ->
  string_rep [VString handle; VInteger count] vm = intern_result (rep_loop (Z.to_nat count) [] []) vm.
Proof.
  intros Hs Hc Hmax Hg Hsp Hcap. unfold string_rep, arg_bytes, arg_str. cbn [arg lookup list_lookup default from_option id]. unfold lbind at 1 2 3 4.
  cbn [lret lget str_bytes]. rewrite Hs. unfold arg_int. cbn [lookup list_lookup default from_option id]. rewrite Z.max_l by lia.
  unfold checked_mul, checked_usize. cbn [len length]. change (len []) with 0. rewrite Z.mul_0_l. change (0 <=? USIZE_MAX) with true. cbv iota.
  rewrite (proj2 (Z.ltb_ge max_string_bytes 0)) by lia. unfold check_cap, charge, charge_gas, lbind, lget. unfold would_exceed_cap. rewrite Hcap. cbn [lret]. rewrite Hg.
  change (0 <? 0) with false. cbv iota. change (0 - 0) with 0. rewrite Hsp. change (u64_sat_add 0 0) with 0.
  assert (set_gas (Some 0) 0 vm = vm) as -> by (clear - Hg Hsp; destruct vm; cbn in Hg, Hsp; by subst). unfold try_reserve. change (vec_len vec_new + 0 <=? capacity vec_new) with true. done.
Qed.
End StringTheorems.

(** ** Searching *)

(** [pat] stands in [src] at position [s], counted from 0. *)
Definition occurs (src pat : list Z) (s : Z) : Prop := pat `prefix_of` drop (Z.to_nat s) src.

(** Where a text stands first at or after a position: there, or nowhere. *)
Definition first_at (src pat : list Z) (start : Z) (r : option Z) : Prop :=
  match r with
  | Some p => start <= p /\ p + len pat <= len src /\ occurs src pat p /\ forall q, start <= q < p -> ~ occurs src pat q
  | None => forall q, start <= q <= len src -> ~ occurs src pat q
  end.

(** The leftmost match of the pattern at or after [start], with its end and captures; [None] when
    no position matches. An anchored pattern matches at [start] only. *)
Definition leftmost_match (src pat : list Z) (start : Z) (r : option MatchResult) : Prop :=
  let pstart := pattern_start pat in
  match r with
  | Some m => start <= mr_start m <= mr_end m /\ mr_end m <= len src /\
      (exists c, Match src pat (mr_start m) pstart [] (mr_end m) c /\ collect c = Done (mr_captures m)) /\
      (forall s, start <= s < mr_start m -> ~ matches_at src pat pstart s) /\ (anchor pat = true -> mr_start m = start)
  | None => forall s, start <= s <= (if anchor pat then start else len src) -> ~ matches_at src pat pstart s
  end.

(** A byte that a pattern takes for itself, whatever stands around it. *)
Definition literal (b : Z) : Prop := is_special b = false /\ b <> 41.

Lemma literal_neq b : literal b -> b <> 94 /\ b <> 36 /\ b <> 42 /\ b <> 43 /\ b <> 63 /\ b <> 46 /\ b <> 40 /\ b <> 91 /\ b <> 37 /\ b <> 45 /\ b <> 41.
Proof. intros [H ?]. unfold is_special in H. apply bool_decide_eq_false in H. split_and!; try done; intros ->; by apply H; set_solver. Qed.

Lemma byte_is_literal o c : (forall b, o = Some b -> literal b) -> c ∈ [94; 36; 42; 43; 63; 46; 40; 91; 37; 45; 41] -> byte_is o c = false.
Proof.
  intros Ho Hc. unfold byte_is. apply bool_decide_eq_false. intros ->. specialize (Ho c eq_refl). apply literal_neq in Ho. set_solver.
Qed.

Section Literal.
Context (src pat : list Z) (Hlit : Forall literal pat).

Lemma pat_literal p b : zget pat p = Some b -> literal b.
Proof using Hlit. intros H. rewrite Forall_lookup in Hlit. unfold zget in H. destruct (p <? 0); [done|]. by eapply Hlit. Qed.

Lemma literal_item p b : zget pat p = Some b -> item_at pat p = Some (IRepeat p (p + 1) 1 (Some 1), p + 1).
Proof using Hlit.
  intros Hp. pose proof (literal_neq b (pat_literal p b Hp)) as Hb. unfold item_at. rewrite Hp.
  rewrite !(proj2 (Z.eqb_neq b _)) by (unfold L_ESC; tauto). cbn [andb]. unfold class_end, RustExec.index. rewrite Hp. cbn [exec_bind].
  rewrite !(proj2 (Z.eqb_neq b _)) by (unfold L_ESC; tauto). rewrite !byte_is_literal; first done; try (intros ? H; by eapply pat_literal); set_solver.
Qed.

Lemma literal_matches s p b : zget pat p = Some b -> (item_matches src pat s p (p + 1) <-> zget src s = Some b).
Proof using Hlit.
  intros Hp. pose proof (literal_neq b (pat_literal p b Hp)) as Hb. unfold item_matches, single_match. destruct (zget src s) as [c|]; [|done].
  unfold RustExec.index. rewrite Hp. cbn [exec_bind]. rewrite !(proj2 (Z.eqb_neq b _)) by (unfold L_ESC; tauto).
  split; [intros [= ->%Z.eqb_eq]; done|intros [= ->]; by rewrite Z.eqb_refl].
Qed.

(** The rest of the pattern from [p] on matches at [s] exactly as text. *)
Lemma literal_match l : forall s p c e c', 0 <= s -> 0 <= p -> drop (Z.to_nat p) pat = l ->
  (Match src pat s p c e c' <-> c' = c /\ e = s + len l /\ l `prefix_of` drop (Z.to_nat s) src).
Proof using Hlit.
  induction l as [|b l IH]; intros s p c e c' Hs Hp Hd.
  - assert (zget pat p = None) as Hn. { pose proof (zget_ahead pat p 0 Hp ltac:(lia)) as H. by rewrite Z.add_0_r, Hd in H. }
    split; [|intros (-> & -> & _); change (len []) with 0; rewrite Z.add_0_r; by constructor].
    intros HM. inversion HM; subst; unfold item_at in *; rewrite Hn in *; try done. split; [done|]. split; [change (len []) with 0; lia|apply prefix_nil].
  - assert (zget pat p = Some b) as Hb. { pose proof (zget_ahead pat p 0 Hp ltac:(lia)) as H. by rewrite Z.add_0_r, Hd in H. }
    pose proof (literal_item p b Hb) as Hit. assert (drop (Z.to_nat (p + 1)) pat = l) as Hd'.
    { replace (Z.to_nat (p + 1)) with (Z.to_nat p + 1)%nat by lia. by rewrite <- drop_drop, Hd. }
    assert (forall c0, drop (Z.to_nat s) src = c0 :: drop (Z.to_nat (s + 1)) src <-> zget src s = Some c0) as Hhead.
    { intros c0. pose proof (zget_ahead src s 0 Hs ltac:(lia)) as H. rewrite Z.add_0_r in H. rewrite H. replace (Z.to_nat (s + 1)) with (Z.to_nat s + 1)%nat by lia.
      rewrite <- drop_drop. destruct (drop (Z.to_nat s) src) as [|x l']; [by split|]. cbn. split; [by intros [= ->]|by intros [= ->]]. }
    split.
    + intros HM. inversion HM; subst; try congruence. match goal with H : item_at pat p = Some (IRepeat _ _ _ _, _) |- _ => rewrite Hit in H; injection H as <- <- <- <- <- end.
      match goal with H : forall m, Some 1 = Some m -> _ |- _ => specialize (H 1 eq_refl) end. assert (k = 1) as -> by lia.
      match goal with H : forall i, 0 <= i < 1 -> _ |- _ => specialize (H 0 ltac:(lia)); rewrite Z.add_0_r in H; apply (literal_matches s p b Hb), Hhead in H as Hsrc end.
      match goal with H : Match src pat (s + 1) (p + 1) _ _ _ |- _ => apply (IH (s + 1) (p + 1)) in H as (-> & -> & Hpre); [|lia|lia|done] end.
      split; [done|]. split; [rewrite len_cons; lia|]. rewrite Hsrc. by apply prefix_cons.
    + intros (-> & -> & Hpre). destruct (drop (Z.to_nat s) src) as [|x rest] eqn:Es; [by apply prefix_nil_not in Hpre|].
      apply prefix_cons_inv_1 in Hpre as Hx. subst x. apply prefix_cons_inv_2 in Hpre.
      assert (zget src s = Some b) as Hsb. { pose proof (zget_ahead src s 0 Hs ltac:(lia)) as H. by rewrite Z.add_0_r, Es in H. }
      apply (MRepeat src pat s p (p + 1) c p (p + 1) 1 (Some 1) 1); [done|lia|by intros m [= <-]| |].
      * intros i Hi. replace (s + i) with s by lia. by apply (literal_matches s p b Hb).
      * apply IH; [lia|lia|done|]. split; [done|]. split; [rewrite len_cons; lia|]. replace (Z.to_nat (s + 1)) with (Z.to_nat s + 1)%nat by lia.
        by rewrite <- drop_drop, Es.
Qed.

Lemma literal_matches_at s : 0 <= s -> (matches_at src pat 0 s <-> occurs src pat s).
Proof using Hlit.
  intros Hs. unfold matches_at, occurs. split.
  - intros (e & c & HM). by apply (literal_match pat) in HM as (_ & _ & ?).
  - intros Hpre. exists (s + len pat), []. by apply (literal_match pat).
Qed.
(** For such a pattern, the first place where it stands as text is its leftmost match. *)
Lemma first_leftmost start r : 0 <= start -> first_at src pat start r ->
  leftmost_match src pat start ((fun p => mkMatchResult p (p + len pat) []) <$> r).
Proof using Hlit.
  intros Hs. assert (anchor pat = false) as Ha. { apply byte_is_literal; [intros b; apply pat_literal|set_solver]. }
  pose proof (len_nonneg pat). unfold leftmost_match, pattern_start. rewrite Ha. destruct r as [p|]; cbn [fmap option_fmap option_map first_at mr_start mr_end mr_captures].
  - intros (Hp & Hl & Ho & Hno). split; [lia|]. split; [lia|]. split.
    { exists []. split; [|done]. apply (literal_match pat); [lia|lia|done|]. done. }
    split; [|done]. intros q Hq Hm%literal_matches_at; [by apply (Hno q)|lia].
  - intros Hno q Hq Hm%literal_matches_at; [by apply (Hno q)|lia].
Qed.
End Literal.

Lemma occurs_len src pat s : 0 <= s <= len src -> occurs src pat s -> s + len pat <= len src.
Proof. intros Hs H. apply prefix_length in H. rewrite length_drop in H. unfold len in *. lia. Qed.

Lemma window_position_spec pat l : forall src k,
  drop (Z.to_nat k) src = l -> 0 <= k <= len src -> first_at src pat k (window_position l pat k).
Proof.
  induction l as [|x l IH]; intros src k Hd Hk.
  - assert (forall q, k <= q <= len src -> occurs src pat q -> pat = []) as Hnil.
    { intros q Hq H. unfold occurs in H. assert (drop (Z.to_nat q) src = []) as E.
      { replace (Z.to_nat q) with (Z.to_nat k + Z.to_nat (q - k))%nat by lia. by rewrite <- drop_drop, Hd, drop_nil. }
      rewrite E in H. by apply prefix_nil_inv in H. }
    cbn [window_position length]. destruct pat as [|y pat]; cbn [length Nat.ltb Nat.leb].
    + rewrite bool_decide_eq_true_2 by done. split; [lia|]. split; [change (len []) with 0; lia|]. split; [apply prefix_nil|intros q ?; lia].
    + intros q Hq Ho. by apply (Hnil q Hq) in Ho.
  - assert (k < len src) as Hlt. { assert (length (drop (Z.to_nat k) src) = length (x :: l)) as E by (by rewrite Hd). rewrite length_drop in E. cbn in E. unfold len. lia. }
    assert (drop (Z.to_nat (k + 1)) src = l) as Hd' by (replace (Z.to_nat (k + 1)) with (Z.to_nat k + 1)%nat by lia; by rewrite <- drop_drop, Hd).
    cbn [window_position]. destruct (Nat.ltb_spec (length (x :: l)) (length pat)) as [Hlong|Hfit].
    + intros q Hq Ho. apply prefix_length in Ho. rewrite length_drop in Ho. assert (length (drop (Z.to_nat k) src) = length (x :: l)) as E by (by rewrite Hd).
      rewrite length_drop in E. lia.
    + case_bool_decide as Ht.
      * assert (occurs src pat k) as Ho by (unfold occurs; rewrite Hd; exists (drop (length pat) (x :: l)); rewrite <- Ht at 1; by rewrite take_drop).
        split; [lia|]. split; [by apply occurs_len|]. split; [done|intros q ?; lia].
      * assert (~ occurs src pat k) as Hno. { unfold occurs. rewrite Hd. intros [rest E]. apply Ht. rewrite E. by rewrite take_app_length. }
        specialize (IH src (k + 1) Hd' ltac:(lia)). destruct (window_position l pat (k + 1)) as [p|]; cbn [first_at] in IH |- *.
        -- destruct IH as (H1 & H2 & H3 & H4). split; [lia|]. split; [done|]. split; [done|]. intros q Hq.
           destruct (Z.eq_dec q k) as [->|]; [done|apply H4; lia].
        -- intros q Hq. destruct (Z.eq_dec q k) as [->|]; [done|apply IH; lia].
Qed.

Lemma f64_of_i64_nonneg z : 0 <= z -> f64_of_i64 z = f64_of_u64 z.
Proof. intros Hz. unfold f64_of_i64. by destruct (Z.ltb_spec z 0); [lia|]. Qed.

(** A pattern that is searched as text. *)
Definition searched_as_text (args : list RawValue) (pat : list Z) : bool :=
  (match args !! 3%nat with Some v => truthy v | None => false end) || negb (pattern_has_special pat).

Section Search.
Context {AL : Allocator} {LAWS : AllocatorLaws AL} {MA : MapAllocator} {TS : TableSizes} {HS : HeapSizes} {HSL : HeapSizesLaws HS}
  {BL : ByteLimits} {SL : StringLimits} {OA : OnAbort}.

(** The first position of a search, counted from 1. *)
Definition init_position (args : list RawValue) (src : list Z) : Z := Z.max (resolved (default 1 (arg_int args 2)) (len src)) 1.

Lemma init_max args src : is_i64 (default 1 (arg_int args 2)) -> len src < 4611686018427387904 ->
  Z.max (posrelat (default 1 (arg_int args 2)) (len src)) 1 = init_position args src.
Proof.
  intros Hi Hn. unfold init_position. pose proof (len_nonneg src).
  destruct (posrelat_resolved _ (len src) Hi ltac:(lia)) as [->|]; [done|lia].
Qed.

Lemma find_text_spec vm args src pat :
  text_is vm (arg args 0) src -> text_is vm (arg args 1) pat -> is_i64 (default 1 (arg_int args 2)) -> searched_as_text args pat = true ->
  wp (string_find args) vm
    (fun vm' r => vm' = vm /\ exists found, (init_position args src - 1 <= len src -> first_at src pat (init_position args src - 1) found) /\
       (len src < init_position args src - 1 -> found = None) /\
       r = match found with Some p => [VNumber (f64_of_u64 (p + 1)); VNumber (f64_of_u64 (p + len pat))] | None => [VNil] end)
    (fun _ _ => False).
Proof.
  intros Hs Hp Hi Htext. unfold string_find. apply wp_bind, (wp_arg_text args 0 src); [done|]. apply wp_bind, (wp_arg_text args 1 pat); [done|].
  destruct Hs as (_ & _ & _ & Hn). cbn zeta. rewrite init_max by done. set (init := init_position args src). pose proof (len_nonneg src).
  assert (1 <= init) by (unfold init, init_position; lia). destruct (Z.ltb_spec (len src + 1) init).
  { apply wp_ret. split; [done|]. exists None. split; [lia|done]. }
  rewrite as_u64_small by (unfold is_u64; lia). unfold searched_as_text in Htext. rewrite Htext. destruct pat as [|b pat].
  { apply wp_ret. split; [done|]. exists (Some (init - 1)). split; [|split; [lia|]].
    - intros _. cbn. split; [lia|]. split; [change (len []) with 0; lia|]. split; [apply prefix_nil|intros q ?; lia].
    - rewrite !f64_of_i64_nonneg by lia. change (len []) with 0. rewrite Z.add_0_r. by replace (init - 1 + 1) with init by lia. }
  set (P := b :: pat) in *. apply wp_bind. assert (BufferLib.slice src (init - 1) (len src) = Done (drop (Z.to_nat (init - 1)) src)) as Hsl.
  { unfold BufferLib.slice. rewrite (proj2 (Z.leb_le 0 _)), (proj2 (Z.leb_le _ (len src))), Z.leb_refl by lia. cbn [andb]. f_equal.
    apply firstn_all2. rewrite length_drop. unfold len. lia. }
  apply (wp_exec _ _ _ _ _ Hsl). pose proof (window_position_spec P (drop (Z.to_nat (init - 1)) src) src (init - 1) eq_refl ltac:(lia)) as Hw.
  assert (forall l k, window_position l P k = (fun r => r + k) <$> window_position l P 0) as Hshift.
  { clear. induction l as [|x l IH]; intros k; cbn [window_position]; [destruct (_ <? _)%nat; [done|]; by case_bool_decide|].
    destruct (_ <? _)%nat; [done|]. case_bool_decide; [done|]. rewrite (IH (k + 1)), (IH (0 + 1)). destruct (window_position l P 0); cbn; [f_equal; lia|done]. }
  rewrite Hshift in Hw. destruct (window_position (drop (Z.to_nat (init - 1)) src) P 0) as [rel|]; cbn [fmap option_fmap option_map] in Hw.
  - apply wp_ret. split; [done|]. exists (Some (rel + (init - 1))). split; [done|]. split; [lia|]. do 2 f_equal; [|f_equal]; f_equal; lia.
  - apply wp_ret. split; [done|]. by exists None.
Qed.

(** ** Captures *)

(** A result stands for a capture: a position as a number, a range as a string of its bytes. *)
Definition captured (vm : Vm) (src : list Z) (c : Capture) (v : RawValue) : Prop :=
  match c with
  | CapPos p => v = VNumber (f64_of_u64 p)
  | CapBytes start n => exists s, v = VString s /\ heap_string (vm_heap vm) s = Some (take (Z.to_nat n) (drop (Z.to_nat start) src))
  end.

Lemma captured_kept vm vm' src c v : strings_kept vm vm' -> captured vm src c v -> captured vm' src c v.
Proof. destruct c; [|done]. intros Hk (s & -> & Hs). exists s. split; [done|]. by apply (sk_strings _ _ Hk). Qed.

Lemma capture_slice src start n : 0 <= start -> 0 <= n -> start + n <= len src ->
  BufferLib.slice src start (start + n) = Done (take (Z.to_nat n) (drop (Z.to_nat start) src)).
Proof.
  intros. unfold BufferLib.slice. rewrite (proj2 (Z.leb_le 0 start)), (proj2 (Z.leb_le start _)), (proj2 (Z.leb_le _ (len src))) by lia.
  cbn [andb]. do 3 f_equal. lia.
Qed.

Definition capture_refused : string := "out of memory interning a capture".
Definition match_refused : string := "out of memory interning a match".

Lemma push_captures_spec src captures : forall out vm,
  Forall (capture_in (len src)) captures -> strings_fit (len captures) vm ->
  wp (push_captures src captures out) vm
    (fun vm' r => strings_kept vm vm' /\ exists vs, r = out ++ vs /\ Forall2 (captured vm' src) captures vs)
    (fun vm' e => strings_kept vm vm' /\ e = capture_refused).
Proof.
  induction captures as [|c captures IH]; intros out vm Hc Hfit; cbn [push_captures].
  { apply wp_ret. split; [done|]. exists []. by rewrite app_nil_r. }
  inversion_clear Hc as [|? ? Hcin Hcs]. rewrite len_cons in Hfit. pose proof (len_nonneg captures). apply wp_bind. destruct c as [start n|p]; cbn [push_capture capture_in] in *.
  - destruct Hcin as (H1 & H2 & H3). apply wp_bind, (wp_exec _ _ _ _ _ (capture_slice src start n H1 H2 H3)). apply wp_bind.
    eapply wp_mono; [apply (wp_intern_fit (len captures + 1)); [lia|done]| |by intros vm' e (Hk & _ & ->)].
    intros vm' s (Hk & Hfit' & Hs). apply wp_ret. replace (len captures + 1 - 1) with (len captures) in Hfit' by lia.
    eapply wp_mono; [by apply (IH (out ++ [VString s]))| |].
    + intros vm'' r (Hk' & vs & -> & Hvs). split; [by etransitivity|]. exists (VString s :: vs). split; [by rewrite <- app_assoc|].
      constructor; [|done]. apply (captured_kept vm'); [done|]. by exists s.
    + intros vm'' e [Hk' ->]. split; [by etransitivity|done].
  - apply wp_ret. eapply wp_mono; [apply (IH (out ++ [VNumber (f64_of_u64 p)])); [done|apply (strings_fit_le (len captures + 1)); [lia|done]]| |done].
    intros vm' r (Hk & vs & -> & Hvs). split; [done|]. exists (VNumber (f64_of_u64 p) :: vs). split; [by rewrite <- app_assoc|]. by constructor.
Qed.

Lemma captures_inside e (src : list Z) captures : e <= len src -> Forall (capture_in e) captures -> Forall (capture_in (len src)) captures.
Proof. intros He Hc. eapply Forall_impl; [exact Hc|]. intros [a n|q] H; cbn in *; lia. Qed.

Lemma match_results_spec vm src m :
  mr_start m <= mr_end m <= len src -> 0 <= mr_start m -> Forall (capture_in (mr_end m)) (mr_captures m) ->
  strings_fit (Z.max 1 (len (mr_captures m))) vm ->
  wp (match_results src m) vm
    (fun vm' r => strings_kept vm vm' /\
       Forall2 (captured vm' src) (match mr_captures m with [] => [CapBytes (mr_start m) (mr_end m - mr_start m)] | cs => cs end) r)
    (fun vm' e => strings_kept vm vm' /\ (e = capture_refused \/ e = match_refused)).
Proof.
  intros He Hst. unfold match_results. destruct (mr_captures m) as [|c cs]; intros Hc Hfit.
  - assert (BufferLib.slice src (mr_start m) (mr_end m) = Done (take (Z.to_nat (mr_end m - mr_start m)) (drop (Z.to_nat (mr_start m)) src))) as Hsl.
    { rewrite <- capture_slice by lia. f_equal. lia. }
    apply wp_bind, (wp_exec _ _ _ _ _ Hsl). apply wp_bind. eapply wp_mono; [apply (wp_intern_fit (Z.max 1 (len (@nil Capture)))); [lia|done]| |].
    + intros vm' s (Hk & _ & Hs). apply wp_ret. split; [done|]. constructor; [|constructor]. by exists s.
    + intros vm' e (Hk & _ & ->). split; [done|by right].
  - eapply wp_mono; [apply (push_captures_spec src (c :: cs) [] vm)| |].
    + apply (captures_inside (mr_end m)); [lia|done].
    + apply (strings_fit_le (Z.max 1 (len (c :: cs)))); [lia|done].
    + intros vm' r (Hk & vs & -> & Hvs). by split.
    + intros vm' e [Hk ->]. split; [done|by left].
Qed.

(** ** Matching *)

(** Enough room for the strings of whatever match the pattern finds. *)
Definition room_for_match (vm : Vm) (src pat : list Z) (init : Z) : Prop :=
  strings_ok vm /\ forall m st, Pattern.find src pat pattern_limits init 0 = Done (Some m, st) -> strings_fit (Z.max 1 (len (mr_captures m))) vm.

Lemma wp_pattern_find {A} vm src pat init (k : option MatchResult * Z -> LM A) (Q : Vm -> A -> Prop) (E : Vm -> string -> Prop) :
  len src < 2147483648 -> 0 <= init <= len src -> (forall e, E vm e) ->
  (forall r st, Pattern.find src pat pattern_limits init 0 = Done (r, st) -> leftmost_match src pat init r ->
     (forall m, r = Some m -> Forall (capture_in (mr_end m)) (mr_captures m)) -> wp (k (r, st)) vm Q E) ->
  wp (let+ r := lexec (Pattern.find src pat pattern_limits init 0) in k r) vm Q E.
Proof.
  intros Hn Hi HE Hk. apply wp_bind. pose proof (find_spec src pat pattern_limits init 0 Hn ltac:(lia)) as Hf. rewrite Z.min_l in Hf by lia.
  destruct (Pattern.find src pat pattern_limits init 0) as [[[m|] st]|e| |] eqn:Ef; try done; try by apply HE.
  - destruct Hf as (_ & H2 & H3 & H4 & H5 & H6 & H7). apply (wp_exec _ (Some m, st)); [done|]. apply (Hk (Some m) st eq_refl); [|by intros m' [= <-]].
    cbn. split; [lia|]. done.
  - destruct Hf as [_ Hf]. apply (wp_exec _ (None, st)); [done|]. by apply (Hk None st eq_refl).
Qed.

Lemma find_pattern_spec vm args src pat :
  text_is vm (arg args 0) src -> len src < 2147483648 -> text_is vm (arg args 1) pat -> is_i64 (default 1 (arg_int args 2)) -> searched_as_text args pat = false ->
  room_for_match vm src pat (init_position args src - 1) ->
  wp (string_find args) vm
    (fun vm' r => strings_kept vm vm' /\ exists found, (init_position args src - 1 <= len src -> leftmost_match src pat (init_position args src - 1) found) /\
       (len src < init_position args src - 1 -> found = None) /\
       match found with
       | Some m => exists vs, r = VNumber (f64_of_u64 (mr_start m + 1)) :: VNumber (f64_of_u64 (mr_end m)) :: vs /\ Forall2 (captured vm' src) (mr_captures m) vs
       | None => r = [VNil]
       end)
    (fun vm' e => strings_kept vm vm').
Proof.
  intros Hs Hn32 Hp Hi Htext [Hok Hroom]. unfold string_find. apply wp_bind, (wp_arg_text args 0 src); [done|]. apply wp_bind, (wp_arg_text args 1 pat); [done|].
  destruct Hs as (_ & _ & _ & Hn). cbn zeta. rewrite init_max by done. set (init := init_position args src) in *. pose proof (len_nonneg src).
  assert (1 <= init) by (unfold init, init_position; lia). destruct (Z.ltb_spec (len src + 1) init).
  { apply wp_ret. split; [done|]. exists None. split; [lia|done]. }
  rewrite as_u64_small by (unfold is_u64; lia). unfold searched_as_text in Htext. rewrite Htext.
  apply wp_pattern_find; [done|lia|done|]. intros r st Ef Hl Hin. destruct r as [m|]; cbn [fst].
  - pose proof Hl as (Hb & He & _). eapply wp_mono; [apply push_captures_spec| |by intros vm' e [Hk _]].
    + apply (captures_inside (mr_end m)); [done|by apply Hin].
    + apply (strings_fit_le (Z.max 1 (len (mr_captures m)))); [lia|by eapply Hroom].
    + intros vm' r (Hk & vs & -> & Hvs). split; [done|]. exists (Some m). split; [done|]. split; [lia|]. by exists vs.
  - apply wp_ret. split; [done|]. exists None. split; [done|]. by split.
Qed.

Lemma match_spec vm args src pat :
  text_is vm (arg args 0) src -> len src < 2147483648 -> text_is vm (arg args 1) pat -> is_i64 (default 1 (arg_int args 2)) ->
  room_for_match vm src pat (init_position args src - 1) ->
  wp (string_match args) vm
    (fun vm' r => strings_kept vm vm' /\ exists found, (init_position args src - 1 <= len src -> leftmost_match src pat (init_position args src - 1) found) /\
       (len src < init_position args src - 1 -> found = None) /\
       match found with
       | Some m => Forall2 (captured vm' src) (match mr_captures m with [] => [CapBytes (mr_start m) (mr_end m - mr_start m)] | cs => cs end) r
       | None => r = [VNil]
       end)
    (fun vm' e => strings_kept vm vm').
Proof.
  intros Hs Hn32 Hp Hi [Hok Hroom]. unfold string_match. apply wp_bind, (wp_arg_text args 0 src); [done|]. apply wp_bind, (wp_arg_text args 1 pat); [done|].
  destruct Hs as (_ & _ & _ & Hn). cbn zeta. rewrite init_max by done. set (init := init_position args src) in *. pose proof (len_nonneg src).
  assert (1 <= init) by (unfold init, init_position; lia). destruct (Z.ltb_spec (len src + 1) init).
  { apply wp_ret. split; [done|]. exists None. split; [lia|done]. }
  rewrite as_u64_small by (unfold is_u64; lia).
  apply wp_pattern_find; [done|lia|done|]. intros r st Ef Hl Hin. destruct r as [m|]; cbn [fst].
  - pose proof Hl as (Hb & He & _). eapply wp_mono; [apply match_results_spec; [lia|lia|by apply Hin|by eapply Hroom]| |by intros vm' e [Hk _]].
    intros vm' r [Hk Hvs]. split; [done|]. exists (Some m). split; [done|]. split; [lia|done].
  - apply wp_ret. split; [done|]. exists None. split; [done|]. by split.
Qed.
End Search.

(** ** Splitting *)

(** The pieces of a text around a separator, cut at the leftmost occurrences. *)
Inductive Split (sep : list Z) : list Z -> list (list Z) -> Prop :=
| Split_last l : (forall q, 0 <= q <= len l -> ~ occurs l sep q) -> Split sep l [l]
| Split_cut piece rest pieces :
    first_at (piece ++ sep ++ rest) sep 0 (Some (len piece)) -> Split sep rest pieces -> Split sep (piece ++ sep ++ rest) (piece :: pieces).

Lemma split_nonempty sep l pieces : Split sep l pieces -> pieces <> [].
Proof. by destruct 1. Qed.

Lemma split_join sep l pieces : Split sep l pieces -> join sep pieces = l.
Proof.
  induction 1 as [l H|piece rest pieces Hf Hs IH]; [done|]. apply split_nonempty in Hs. destruct pieces as [|p ps]; [done|].
  change (piece ++ sep ++ join sep (p :: ps) = piece ++ sep ++ rest). by rewrite IH.
Qed.

Lemma split_count sep l pieces : sep <> [] -> Split sep l pieces -> len pieces <= len l + 1.
Proof.
  intros Hsep. induction 1 as [l H|piece rest pieces Hf Hs IH]; [change (len [l]) with 1; pose proof (len_nonneg l); lia|].
  rewrite len_cons, !len_app. pose proof (len_nonneg piece). assert (1 <= len sep) by (destruct sep; [done|rewrite len_cons; pose proof (len_nonneg sep); lia]). lia.
Qed.

(** The loops of the library, without the machine: the pieces before the position [iter]. *)
Fixpoint cuts (fuel : nat) (h sep : list Z) (iter span_start : Z) : list (list Z) :=
  match fuel with
  | O => []
  | S fuel' =>
      if (len sep <=? len h) && (iter <=? len h - len sep) then
        if bool_decide (sep `prefix_of` drop (Z.to_nat iter) h)
        then take (Z.to_nat (iter - span_start)) (drop (Z.to_nat span_start) h) :: cuts fuel' h sep (iter + len sep) (iter + len sep)
        else cuts fuel' h sep (iter + 1) span_start
      else [drop (Z.to_nat span_start) h]
  end.

Lemma cuts_split fuel h sep : forall iter ss,
  sep <> [] -> 0 <= ss <= iter -> iter <= len h -> (Z.to_nat (len h - iter) < fuel)%nat ->
  (forall q, ss <= q < iter -> ~ occurs h sep q) -> Split sep (drop (Z.to_nat ss) h) (cuts fuel h sep iter ss).
Proof.
  induction fuel as [|fuel IH]; intros iter ss Hsep Hss Hit Hf Hno; [lia|]. cbn [cuts].
  assert (1 <= len sep) as Hn by (destruct sep; [done|rewrite len_cons; pose proof (len_nonneg sep); lia]).
  assert (forall q, ss <= q -> (occurs h sep q <-> occurs (drop (Z.to_nat ss) h) sep (q - ss))) as Hshift.
  { intros q Hq. unfold occurs. rewrite drop_drop. by replace (Z.to_nat ss + Z.to_nat (q - ss))%nat with (Z.to_nat q) by lia. }
  assert (len (drop (Z.to_nat ss) h) = len h - ss) as Hlen by (unfold len in *; rewrite length_drop; lia).
  destruct (Z.leb_spec (len sep) (len h)); cbn [andb]; [destruct (Z.leb_spec iter (len h - len sep))|].
  2, 3: constructor; intros q Hq Ho; apply (occurs_len _ _ q Hq) in Ho as Hlo; rewrite <- (Z.add_simpl_l ss q) in Ho; apply Hshift in Ho; [|lia]; apply (Hno (ss + q)); [lia|done].
  case_bool_decide as Hp.
  - set (piece := take _ _). set (rest := drop (Z.to_nat (iter + len sep)) h).
    assert (drop (Z.to_nat iter) h = sep ++ rest) as Ed.
    { destruct Hp as [k Ek]. unfold rest. replace (Z.to_nat (iter + len sep)) with (Z.to_nat iter + length sep)%nat by (unfold len; lia).
      by rewrite <- drop_drop, Ek, drop_app_length. }
    assert (drop (Z.to_nat ss) h = piece ++ sep ++ rest) as Eh.
    { rewrite <- Ed. unfold piece. replace (Z.to_nat iter) with (Z.to_nat ss + Z.to_nat (iter - ss))%nat by lia. by rewrite <- drop_drop, take_drop. }
    assert (len piece = iter - ss) as Epl by (unfold piece, len; rewrite length_take, length_drop; unfold len in *; lia).
    rewrite Eh. constructor.
    + split; [apply len_nonneg|]. rewrite <- Eh, Hlen, Epl. split; [lia|]. split.
      * apply Hshift; [lia|done].
      * intros q Hq Ho. rewrite <- (Z.add_simpl_l ss q) in Ho. apply Hshift in Ho; [|lia]. apply (Hno (ss + q)); [lia|done].
    + apply IH; [done|lia|lia|lia|intros q ?; lia].
  - apply IH; [done|lia|lia|lia|]. intros q Hq. destruct (Z.eq_dec q iter) as [->|]; [exact Hp|apply Hno; lia].
Qed.

(** ** Writing strings into a table *)

Lemma wp_assoc {AL : Allocator} {MA : MapAllocator} {A B C} (m : LM A) (f : A -> LM B) (g : B -> LM C) vm Q E :
  wp (let+ x := m in lbind (f x) g) vm Q E -> wp (lbind (lbind m f) g) vm Q E.
Proof. unfold wp, lbind. by destruct (m vm) as [vm' []]. Qed.

(** The strings of a heap are untouched. *)
Definition same_strings (vm vm' : Vm) : Prop :=
  strings (objects (vm_heap vm')) = strings (objects (vm_heap vm)) /\ interner (vm_heap vm') = interner (vm_heap vm) /\ h_id (vm_heap vm') = h_id (vm_heap vm).

Lemma same_strings_heap_string vm vm' s : same_strings vm vm' -> heap_string (vm_heap vm') s = heap_string (vm_heap vm) s.
Proof. intros (H1 & _ & H3). unfold heap_string. by rewrite H1, H3. Qed.

Section Writing.
Context {AL : Allocator} {LAWS : AllocatorLaws AL} {MA : MapAllocator} {TS : TableSizes} {HS : HeapSizes} {HSL : HeapSizesLaws HS}
  {BL : ByteLimits} {SL : StringLimits}.

Lemma same_strings_fit n vm vm' : same_strings vm vm' -> strings_fit n vm -> strings_fit n vm'.
Proof.
  intros Hs [H1 H2 H3]. pose proof Hs as (E1 & E2 & E3). split; [|by rewrite E1|by rewrite E1].
  intros b g Hb. rewrite E2 in Hb. rewrite (same_strings_heap_string vm vm') by done. by apply H1.
Qed.

Lemma remember_strings i h : strings (objects (Gc.remember (GTable i) h)) = strings (objects h).
Proof. unfold Gc.remember. destruct (Gc.age h (GTable i)); try done. by case_match. Qed.

Lemma table_mut_strings {A} handle missing (f : LuaTable -> MemoryMeter -> result Fault ((LuaTable * MemoryMeter) * A)) vm :
  same_strings vm (table_mut handle missing f vm).1.
Proof.
  unfold table_mut. destruct (negb _); [done|]. pose proof (remember_strings (gc_index handle) (vm_heap vm)) as Hs.
  destruct (remember_fields (GTable (gc_index handle)) (vm_heap vm)) as (R1 & R2 & R3 & _).
  destruct (Arena.get _ _ _); [|by split_and!]. destruct (f _ _) as [[[t' m'] a]|e]; by split_and!.
Qed.

Lemma wp_same_strings {A} (m : LM A) vm Q E : same_strings vm (m vm).1 -> wp m vm Q E -> wp m vm (fun vm' a => same_strings vm vm' /\ Q vm' a) (fun vm' e => same_strings vm vm' /\ E vm' e).
Proof. unfold wp. destruct (m vm) as [vm' []]; cbn; auto. Qed.

(** What the pieces from the index [from] on leave behind, with room for [room] strings before. *)
Record wrote (vm vm' : Vm) (table : RawGc) (from room : Z) (pieces : list (list Z)) : Prop := {
  wr_tables : tables_ok vm';
  wr_fit : strings_fit (room - len pieces) vm';
  wr_resident u : is_Some (table_of vm u) -> is_Some (table_of vm' u);
  wr_strings s b : heap_string (vm_heap vm) s = Some b -> heap_string (vm_heap vm') s = Some b;
  wr_new (i : nat) piece : pieces !! i = Some piece ->
    exists s, at_key vm' table (LInteger (from + Z.of_nat i)) = VString s /\ heap_string (vm_heap vm') s = Some piece;
  wr_old u k : (forall z, u = table -> k = LInteger z -> z < from \/ from + len pieces <= z) -> at_key vm' u k = at_key vm u k;
}.

Lemma wrote_nil vm table from room : tables_ok vm -> strings_fit room vm -> wrote vm vm table from room [].
Proof. intros Ht Hf. split; try done. by rewrite Z.sub_0_r. Qed.

Lemma wrote_cons vm vm1 vm2 table from room piece pieces :
  wrote vm vm1 table from room [piece] -> wrote vm1 vm2 table (from + 1) (room - 1) pieces -> wrote vm vm2 table from room (piece :: pieces).
Proof.
  intros [T1 F1 R1 S1 N1 O1] [T2 F2 R2 S2 N2 O2]. pose proof (len_nonneg pieces). split.
  - done.
  - rewrite len_cons. by replace (room - (len pieces + 1)) with (room - 1 - len pieces) by lia.
  - auto.
  - auto.
  - intros [|i] p Hp.
    + injection Hp as <-. destruct (N1 0%nat piece eq_refl) as (s & Hs & Hb). exists s. split; [|by apply S2].
      rewrite O2; [exact Hs|]. intros z _ [= <-]. left. lia.
    + destruct (N2 i p Hp) as (s & Hs & Hb). exists s. split; [|done]. rewrite <- Hs. do 2 f_equal. lia.
  - intros u k Hk. rewrite O2, O1; [done| |]; intros z Hu Hz; specialize (Hk z Hu Hz); rewrite len_cons in Hk; change (len [piece]) with 1; lia.
Qed.

Definition split_refused : string := "out of memory for 'string.split'".

Lemma emit_spec vm table index room bytes :
  tables_ok vm -> strings_fit room vm -> 1 <= room -> is_Some (table_of vm table) -> exact index ->
  wp (emit_split_piece table index bytes) vm (fun vm' _ => wrote vm vm' table index room [bytes]) (fun _ e => e = split_refused).
Proof.
  intros Ht Hf Hr Hres Hi. unfold emit_split_piece. apply wp_bind. eapply wp_mono; [by apply (wp_intern_fit room)| |by intros vm' e (_ & _ & ->)].
  intros vm1 s (Hk & Hf1 & Hs). assert (tables_ok vm1) as Ht1 by (intros u t Hu; rewrite (sk_tables _ _ Hk) in Hu; by eapply Ht).
  assert (forall u k, at_key vm1 u k = at_key vm u k) as Hat by (intros u k; unfold at_key; by rewrite (sk_tables _ _ Hk)).
  rewrite as_i64_small by (unfold exact in Hi; unfold is_i64; lia).
  eapply wp_mono; [apply wp_same_strings; [apply table_mut_strings|apply set_index_spec; [done|by rewrite (sk_tables _ _ Hk)|done]]| |by intros vm' e [_ []]].
  intros vm2 _ (Hsame & Ht2 & Hframe & Hat2). split.
  - done.
  - change (len [bytes]) with 1. by apply (same_strings_fit _ vm1).
  - intros u Hu. apply (sf_resident _ _ Hframe). by rewrite (sk_tables _ _ Hk).
  - intros h b Hb. rewrite (same_strings_heap_string vm1) by done. by apply (sk_strings _ _ Hk).
  - intros [|i] p Hp; [|done]. injection Hp as <-. exists s. rewrite Z.add_0_r, Hat2, decide_True by done. split; [done|].
    by rewrite (same_strings_heap_string vm1).
  - intros u k Hk2. rewrite Hat2, Hat. rewrite decide_False; [done|]. intros [-> ->]. specialize (Hk2 index eq_refl eq_refl). change (len [bytes]) with 1 in Hk2. lia.
Qed.

Lemma occurs_at_spec h sep iter : 0 <= iter -> iter + len sep <= len h -> occurs_at h sep iter = Done (bool_decide (sep `prefix_of` drop (Z.to_nat iter) h)).
Proof.
  intros Hi Hn. unfold occurs_at, BufferLib.slice. pose proof (len_nonneg sep). rewrite (proj2 (Z.leb_le 0 iter)), (proj2 (Z.leb_le iter _)), (proj2 (Z.leb_le _ (len h))) by lia.
  cbn [andb exec_bind]. f_equal. apply bool_decide_ext. replace (Z.to_nat (iter + len sep - iter)) with (length sep) by (unfold len; lia).
  split; [intros E; exists (drop (length sep) (drop (Z.to_nat iter) h)); rewrite <- E at 1; by rewrite take_drop|intros [k ->]; by rewrite take_app_length].
Qed.

(** The loop of [string.split] and the piece after it write the pieces of [cuts]. *)
Lemma split_loop_spec table h sep : forall fuel iter ss count room vm,
  sep <> [] -> 0 <= ss <= iter -> iter <= len h -> (Z.to_nat (len h - iter) < fuel)%nat ->
  tables_ok vm -> is_Some (table_of vm table) -> 0 <= count -> count + len (cuts fuel h sep iter ss) < 9007199254740992 ->
  strings_fit room vm -> len (cuts fuel h sep iter ss) <= room ->
  wp (let+ r := split_loop fuel table h sep iter ss count in
      let '(span_start, count) := r in
      let+ _ := if 0 <? len sep then let+ piece := lexec (BufferLib.slice h span_start (len h)) in emit_split_piece table (count + 1) piece else lret tt in
      lret [VTable table]) vm
    (fun vm' r => r = [VTable table] /\ wrote vm vm' table (count + 1) room (cuts fuel h sep iter ss)) (fun _ e => e = split_refused).
Proof.
  induction fuel as [|fuel IH]; intros iter ss count room vm Hsep Hss Hit Hf Ht Hres Hc Hex Hfit Hroom; [lia|].
  assert (1 <= len sep) as Hn by (destruct sep; [done|rewrite len_cons; pose proof (len_nonneg sep); lia]).
  cbn [split_loop cuts] in *. destruct ((len sep <=? len h) && (iter <=? len h - len sep)) eqn:Eb.
  - apply andb_true_iff in Eb as [Eb1%Z.leb_le Eb2%Z.leb_le]. rewrite occurs_at_spec by lia. case_bool_decide.
    + set (piece := take (Z.to_nat (iter - ss)) (drop (Z.to_nat ss) h)) in *. rewrite len_cons in Hex, Hroom. pose proof (len_nonneg (cuts fuel h sep (iter + len sep) (iter + len sep))).
      assert (BufferLib.slice h ss iter = Done piece) as Hsl.
      { unfold BufferLib.slice. rewrite (proj2 (Z.leb_le 0 ss)), (proj2 (Z.leb_le ss iter)), (proj2 (Z.leb_le iter _)) by lia. done. }
      apply wp_assoc, wp_bind, (wp_exec _ true); [done|]. apply wp_assoc, wp_bind, (wp_exec _ _ _ _ _ Hsl). apply wp_assoc, wp_bind.
      eapply wp_mono; [apply (emit_spec vm table (count + 1) room piece); [done|done|lia|done|unfold exact; lia]| |done].
      intros vm1 [] Hw. rewrite (proj2 (Z.ltb_lt 0 (len sep))) by lia. replace (iter + (len sep - 1) + 1) with (iter + len sep) by lia.
      pose proof (IH (iter + len sep) (iter + len sep) (count + 1) (room - 1) vm1 Hsep ltac:(lia) ltac:(lia) ltac:(lia)
        (wr_tables _ _ _ _ _ _ Hw) (wr_resident _ _ _ _ _ _ Hw _ Hres) ltac:(lia) ltac:(lia) (wr_fit _ _ _ _ _ _ Hw) ltac:(lia)) as Hrest.
      rewrite (proj2 (Z.ltb_lt 0 (len sep))) in Hrest by lia. eapply wp_mono; [exact Hrest| |done].
      intros vm2 r [-> Hw2]. split; [done|]. by eapply wrote_cons.
    + apply wp_assoc, wp_bind, (wp_exec _ false); [done|].
      exact (IH (iter + 1) ss count room vm Hsep ltac:(lia) ltac:(lia) ltac:(lia) Ht Hres Hc Hex Hfit Hroom).
  - apply wp_bind, wp_ret. rewrite (proj2 (Z.ltb_lt 0 (len sep))) by lia. change (len [drop (Z.to_nat ss) h]) with 1 in *.
    assert (BufferLib.slice h ss (len h) = Done (drop (Z.to_nat ss) h)) as Hsl.
    { unfold BufferLib.slice. rewrite (proj2 (Z.leb_le 0 ss)), (proj2 (Z.leb_le ss _)), Z.leb_refl by lia. cbn [andb]. f_equal. apply firstn_all2. rewrite length_drop. unfold len in *. lia. }
    apply wp_bind, wp_bind, (wp_exec _ _ _ _ _ Hsl). eapply wp_mono; [apply (emit_spec vm table (count + 1) room); [done|done|lia|done|unfold exact; lia]| |done].
    intros vm1 [] Hw. apply wp_ret. by split.
Qed.

(** ** A new table *)

Record alloc_room (vm : Vm) : Prop := {
  ar_tables : tables_ok vm;
  ar_arena : arena_ok size_tables (tables (objects (vm_heap vm)));
  ar_room : av_len (entries (tables (objects (vm_heap vm)))) < 4294967296;
}.

Lemma attached_table t m : table_ok t -> (forall k, LuaTable.get_norm t k = VNil) ->
  let t' := (LuaTable.recharge (LuaTable.set_charged 0 t) m).1 in table_ok t' /\ forall k, LuaTable.get_norm t' k = VNil.
Proof.
  intros Hok He t'. destruct (recharge_frame (LuaTable.set_charged 0 t) m) as (H1 & H2 & H3 & _). fold t' in H1, H2, H3.
  destruct (get_norm_frame t t') as [Hg Hn]; [done..|]. split; [unfold table_ok; rewrite H1; by apply Hn|]. intros k. by rewrite Hg.
Qed.

Lemma alloc_table_spec t fail vm :
  alloc_room vm -> table_ok t -> (forall k, LuaTable.get_norm t k = VNil) ->
  wp (alloc_table t fail) vm
    (fun vm' h => same_strings vm vm' /\ tables_ok vm' /\ is_Some (table_of vm' h) /\ table_of vm h = None /\ (forall k, at_key vm' h k = VNil) /\
       memory_cap vm' = memory_cap vm /\ forall u w, table_of vm u = Some w -> table_of vm' u = Some w)
    (fun vm' e => e = fail).
Proof.
  intros [Ht Ha Hroom] Htab Hempty. unfold wp, alloc_table, LuaTable.attach_meter. pose proof (attached_table t (meter (vm_heap vm)) Htab Hempty) as [Htab' Hempty'].
  destruct (LuaTable.recharge (LuaTable.set_charged 0 t) (meter (vm_heap vm))) as [t' m1]. cbn [fst] in Htab', Hempty'.
  destruct (alloc_spec size_tables size_tables_pos t' (tables (objects (vm_heap vm))) m1 Ha) as (a' & m2 & r & -> & Ha' & Hr).
  destruct r as [[i g]|e].
  2: { destruct Hr as [_ He]. destruct He as [->|[_ He]]; [done|lia]. }
  cbn. destruct Hr as (Hfresh & Hslot & Hdead & _ & Hext). set (vm' := set_heap _ vm). set (h := mkGc i g (h_id (vm_heap vm))).
  assert (forall u, table_of vm' u = if negb (gc_heap u =? h_id (vm_heap vm)) then None else Arena.get a' (gc_index u) (gc_generation u)) as Htof by done.
  assert (table_of vm' h = Some t') as Hnew.
  { rewrite Htof. cbn. rewrite Z.eqb_refl. cbn [negb]. apply get_Some. split; [done|]. by rewrite Hslot, decide_True. }
  assert (forall j k w, j <> i -> Arena.get a' j k = Some w <-> Arena.get (tables (objects (vm_heap vm))) j k = Some w) as Hother.
  { intros j k w Hj. rewrite !get_Some, Hslot, decide_False by done. split; intros [Hg Hw]; (split; [|done]); [|by apply Hext].
    destruct (slot (tables (objects (vm_heap vm))) j) as [e|] eqn:Es; [|done].
    destruct (slot_gen (tables (objects (vm_heap vm))) j size_tables Ha ltac:(by eexists)) as [g0 Hg0]. pose proof (Hext j g0 Hg0) as Hg1. rewrite Hg in Hg1. by injection Hg1 as ->. }
  assert (forall k, Arena.get (tables (objects (vm_heap vm))) i k = None) as Hnone.
  { intros k. apply eq_None_not_Some. intros [w Hw]. by eapply Hdead, get_live. }
  split; [by split_and!|]. split; [|split; [by eexists|split; [|split; [|split; [done|]]]]].
  - intros u w Hu. rewrite Htof in Hu. destruct (gc_heap u =? h_id (vm_heap vm)) eqn:Eh; cbn [negb] in Hu; [|done]. destruct (Z.eq_dec (gc_index u) i) as [Ei|Hne].
    + apply get_Some in Hu as [_ Hu]. rewrite Hslot, decide_True in Hu by done. cbn in Hu. by injection Hu as <-.
    + apply Hother in Hu; [|done]. apply (Ht u). unfold table_of, heap_table. by rewrite Eh.
  - unfold table_of, heap_table. cbn. rewrite Z.eqb_refl. cbn [negb]. apply Hnone.
  - intros k. unfold at_key. by rewrite Hnew, Hempty'.
  - intros u w Hu. rewrite Htof. unfold table_of, heap_table in Hu. destruct (gc_heap u =? h_id (vm_heap vm)); cbn [negb] in Hu |- *; [|done].
    destruct (Z.eq_dec (gc_index u) i) as [Ei|Hne]; [by rewrite Ei, Hnone in Hu|]. by apply Hother.
Qed.

Lemma empty_table_spec n t : LuaTable.try_with_array_capacity n = Ok t -> table_ok t /\ forall k, LuaTable.get_norm t k = VNil.
Proof.
  unfold LuaTable.try_with_array_capacity. destruct (try_reserve _ _ _) as [a|] eqn:E; [|done]. intros [= <-].
  apply try_reserve_items in E. destruct (get_norm_frame LuaTable.new (mkTable a vec_new ∅ 0 None false false 0)) as [Hg Hn]; [exact E|done|done|].
  split; [unfold table_ok, LuaTable.arr; cbn [LuaTable.array]; rewrite E; apply Hn, new_table_ok|]. intros k. by rewrite Hg, get_norm_new.
Qed.

(** ** The limits of a split *)

Definition memory_refused : string := "memory limit exceeded".

Lemma wp_or_memory {A} (o : option A) vm (Q : Vm -> A -> Prop) (E : Vm -> string -> Prop) :
  (forall a, Q vm a) -> E vm memory_refused -> wp (or_memory_limit o) vm Q E.
Proof. intros HQ HE. destruct o; [apply HQ|exact HE]. Qed.

Lemma plan_loop_total h sep : forall fuel iter ss plan vm,
  sep <> [] -> 0 <= ss <= iter -> iter <= len h -> (Z.to_nat (len h - iter) < fuel)%nat ->
  wp (plan_loop fuel h sep iter ss plan) vm (fun vm' _ => vm' = vm) (fun vm' e => vm' = vm /\ e = memory_refused).
Proof.
  induction fuel as [|fuel IH]; intros iter ss plan vm Hsep Hss Hit Hf; [lia|].
  assert (1 <= len sep) as Hn by (destruct sep; [done|rewrite len_cons; pose proof (len_nonneg sep); lia]).
  cbn [plan_loop]. destruct (_ && _) eqn:Eb; [|by apply wp_ret]. apply andb_true_iff in Eb as [Eb1%Z.leb_le Eb2%Z.leb_le].
  rewrite occurs_at_spec by lia. apply wp_bind, (wp_exec _ (bool_decide (sep `prefix_of` drop (Z.to_nat iter) h))); [done|]. case_bool_decide.
  - apply wp_bind, wp_or_memory; [|done]. intros plan'. apply IH; [done|lia..].
  - apply IH; [done|lia..].
Qed.

Lemma split_plan_total h sep vm :
  wp (split_result_plan h sep) vm (fun vm' _ => vm' = vm) (fun vm' e => vm' = vm /\ e = memory_refused).
Proof.
  unfold split_result_plan. apply wp_bind, wp_or_memory; [|done]. intros p1. apply wp_bind, wp_or_memory; [|done]. intros p2.
  destruct (Z.eqb_spec (len sep) 0) as [|Hn]; [by apply wp_or_memory|].
  apply wp_bind. eapply wp_mono; [apply plan_loop_total| |done].
  - by intros ->.
  - lia.
  - apply len_nonneg.
  - unfold len. lia.
  - intros vm' [plan ss] ->. by apply wp_or_memory.
Qed.

Definition split_refusals : list string :=
  ["string.split result too large"; memory_refused; charge_refused; split_refused]%string.

Lemma wp_gas_after {A} vm vm0 n (k : unit -> LM A) Q E :
  gas_only vm vm0 -> (forall vm1, gas_only vm vm1 -> wp (k tt) vm1 Q E) -> (forall vm1, gas_only vm vm1 -> E vm1 charge_refused) -> wp (let+ u := charge n in k u) vm0 Q E.
Proof.
  intros (g & spent & ->) HQ HE. apply wp_bind, wp_charge_gas; [intros g' s'; apply HQ; by exists g', s'|intros _ g' s'; apply HE; by exists g', s'].
Qed.

Lemma preflight_total plan vm vm0 (Q : Vm -> unit -> Prop) (E : Vm -> string -> Prop) :
  gas_only vm vm0 -> (forall vm1, gas_only vm vm1 -> Q vm1 tt) -> (forall vm1 e, gas_only vm vm1 -> e ∈ split_refusals -> E vm1 e) ->
  wp (preflight_array_strings plan "string.split") vm0 Q E.
Proof.
  intros Hg HQ HE. assert (E vm0 memory_refused) as Hm by (apply HE; [done|unfold split_refusals; among]).
  assert (E vm0 "string.split result too large"%string) as Hl by (apply HE; [done|unfold split_refusals; among]).
  unfold preflight_array_strings. apply wp_bind, wp_get. destruct (_ <? _); [by apply wp_raise|]. destruct (_ || _); [by apply wp_raise|].
  do 5 (apply wp_bind, wp_or_memory; [intros ?|done]). apply wp_bind. unfold check_cap. apply wp_bind, wp_get. destruct (would_exceed_cap _ _); [by apply wp_raise|]. apply wp_ret.
  destruct Hg as (g & spent & ->). apply wp_charge_gas; [intros g' s'; apply HQ; by exists g', s'|intros _ g' s'; apply HE; [by exists g', s'|unfold split_refusals; among]].
Qed.

Lemma wp_copy_arg vm source bytes (Q : Vm -> list Z -> Prop) (E : Vm -> string -> Prop) :
  stands_for vm source bytes -> Q vm bytes -> E vm split_refused -> wp (copy_split_arg source "string.split") vm Q E.
Proof.
  intros Hs HQ HE. specialize (Hs vm eq_refl). destruct source as [handle|b]; cbn [copy_split_arg str_bytes] in *; [|subst; by apply wp_ret].
  apply wp_bind, wp_get. rewrite Hs. destruct (try_reserve _ _ _); [by apply wp_ret|by apply wp_raise].
Qed.

Lemma stands_gas vm vm' source bytes : gas_only vm vm' -> stands_for vm source bytes -> stands_for vm' source bytes.
Proof. intros (g & s & ->) H vm'' E. apply H. exact E. Qed.

Lemma wp_separator args sep vm (Q : Vm -> StrArg -> Prop) E :
  (if decide (arg args 1 = VNil) then sep = [44] else text_is vm (arg args 1) sep) ->
  (forall source, stands_for vm source sep -> Q vm source) -> wp (split_separator_arg args) vm Q E.
Proof.
  intros Ht HQ. unfold split_separator_arg, arg in *. destruct (args !! 1%nat) as [v|] eqn:Ea; cbn [default from_option] in Ht.
  - case_decide as Hd; [change (v = VNil) in Hd; subst; apply wp_ret, HQ; by intros ? _|].
    assert (wp (arg_str args 1) vm Q E) as Hw by (apply (wp_arg_str args 1 sep); [unfold arg; rewrite Ea; exact Ht|done]).
    destruct v; done || exact Hw.
  - rewrite decide_True in Ht by done. subst. apply wp_ret, HQ. by intros ? _.
Qed.

(** With an empty separator every byte is a piece. *)
Definition byte_pieces (l : list Z) : list (list Z) := map (fun b => [b]) l.

Lemma split_bytes_spec table h : forall fuel iter count room vm,
  1 <= iter <= len h + 1 -> (Z.to_nat (len h + 1 - iter) < fuel)%nat ->
  tables_ok vm -> is_Some (table_of vm table) -> 0 <= count -> count + (len h + 1 - iter) < 9007199254740992 ->
  strings_fit room vm -> len h + 1 - iter <= room ->
  wp (let+ r := split_loop fuel table h [] iter (iter - 1) count in
      let '(span_start, count) := r in
      let+ _ := if 0 <? len (@nil Z) then let+ piece := lexec (BufferLib.slice h span_start (len h)) in emit_split_piece table (count + 1) piece else lret tt in
      lret [VTable table]) vm
    (fun vm' r => r = [VTable table] /\ wrote vm vm' table (count + 1) room (byte_pieces (drop (Z.to_nat (iter - 1)) h))) (fun _ e => e = split_refused).
Proof.
  induction fuel as [|fuel IH]; intros iter count room vm Hit Hf Ht Hres Hc Hex Hfit Hroom; [lia|]. cbn [split_loop].
  change (len (@nil Z)) with 0. rewrite (proj2 (Z.leb_le 0 (len h))), Z.sub_0_r by apply len_nonneg. cbn [andb]. change (0 <? 0) with false. cbv iota.
  destruct (Z.leb_spec iter (len h)) as [Hle|Hgt].
  - assert (occurs_at h [] iter = Done true) as Hocc by (rewrite occurs_at_spec by (change (len (@nil Z)) with 0; lia); by rewrite bool_decide_eq_true_2 by apply prefix_nil).
    assert (is_Some (zget h (iter - 1))) as [b Hb] by (apply zget_is_Some; lia).
    assert (drop (Z.to_nat (iter - 1)) h = b :: drop (Z.to_nat (iter + 1 - 1)) h) as Ed.
    { unfold zget in Hb. destruct (iter - 1 <? 0); [done|]. rewrite (drop_S h b (Z.to_nat (iter - 1))) by done. do 2 f_equal. lia. }
    assert (BufferLib.slice h (iter - 1) iter = Done [b]) as Hsl.
    { unfold BufferLib.slice. rewrite (proj2 (Z.leb_le 0 _)), (proj2 (Z.leb_le _ iter)), (proj2 (Z.leb_le iter _)) by lia. cbn [andb].
      rewrite Ed. by replace (Z.to_nat (iter - (iter - 1))) with 1%nat by lia. }
    rewrite Hocc. apply wp_assoc, wp_bind, (wp_exec _ true); [done|]. apply wp_assoc, wp_bind, (wp_exec _ _ _ _ _ Hsl). apply wp_assoc, wp_bind.
    eapply wp_mono; [apply (emit_spec vm table (count + 1) room [b]); [done|done|lia|done|unfold exact; lia]| |done].
    intros vm1 [] Hw. rewrite Z.add_0_r. replace iter with (iter + 1 - 1) at 2 by lia.
    pose proof (IH (iter + 1) (count + 1) (room - 1) vm1 ltac:(lia) ltac:(lia) (wr_tables _ _ _ _ _ _ Hw) (wr_resident _ _ _ _ _ _ Hw _ Hres) ltac:(lia) ltac:(lia) (wr_fit _ _ _ _ _ _ Hw) ltac:(lia)) as Hrest.
    change (len (@nil Z)) with 0 in Hrest. change (0 <? 0) with false in Hrest. cbv iota in Hrest.
    eapply wp_mono; [exact Hrest| |done]. intros vm2 r [-> Hw2]. split; [done|]. rewrite Ed. by eapply wrote_cons.
  - apply wp_bind, wp_ret. apply wp_bind, wp_ret, wp_ret. split; [done|]. rewrite drop_ge by (unfold len in *; lia). by apply wrote_nil.
Qed.

(** What [string.split] returns: a new table with the pieces as its elements 1, 2, ... *)
Record split_into (vm vm' : Vm) (table : RawGc) (room : Z) (pieces : list (list Z)) : Prop := {
  sp_fresh : table_of vm table = None;
  sp_tables : tables_ok vm';
  sp_fit : strings_fit (room - len pieces) vm';
  sp_strings s b : heap_string (vm_heap vm) s = Some b -> heap_string (vm_heap vm') s = Some b;
  sp_new (i : nat) piece : pieces !! i = Some piece ->
    exists s, at_key vm' table (LInteger (1 + Z.of_nat i)) = VString s /\ heap_string (vm_heap vm') s = Some piece;
  sp_rest k : (forall z, k = LInteger z -> z < 1 \/ 1 + len pieces <= z) -> at_key vm' table k = VNil;
  sp_old u k : is_Some (table_of vm u) -> at_key vm' u k = at_key vm u k;
}.

Definition pieces_of (h sep : list Z) (pieces : list (list Z)) : Prop :=
  match sep with [] => pieces = byte_pieces h | _ => Split sep h pieces end.

Lemma split_spec vm args h sep room :
  alloc_room vm -> strings_fit room vm -> len h + 1 <= room -> len h < 4503599627370496 ->
  text_is vm (arg args 0) h -> (if decide (arg args 1 = VNil) then sep = [44] else text_is vm (arg args 1) sep) ->
  wp (string_split args) vm
    (fun vm' r => exists table pieces, r = [VTable table] /\ pieces_of h sep pieces /\ len pieces <= len h + 1 /\ split_into vm vm' table room pieces)
    (fun _ e => e ∈ split_refusals).
Proof.
  intros Har Hfit Hroom Hlen Hh Hsep. unfold string_split. apply wp_bind, (wp_arg_str args 0 h); [done|]. intros hs Hhs.
  apply wp_bind, (wp_separator args sep); [done|]. intros ns Hns. apply wp_bind, wp_get. rewrite !(Hhs vm eq_refl), !(Hns vm eq_refl).
  assert (split_refused ∈ split_refusals) as Href by (unfold split_refusals; among).
  unfold charge_split_scan_gas. apply (wp_gas_after vm); [done| |intros _ _; unfold split_refusals; among]. intros vm1 Hg1.
  apply wp_bind, wp_get. rewrite !(stands_gas _ _ _ _ Hg1 Hhs vm1 eq_refl), !(stands_gas _ _ _ _ Hg1 Hns vm1 eq_refl).
  apply wp_bind. eapply wp_mono; [apply split_plan_total| |intros vm' e [_ ->]; unfold split_refusals; among]. intros vm' plan ->.
  apply wp_bind, (preflight_total plan vm); [done| |by intros]. intros vm2 Hg2.
  apply wp_bind, (wp_copy_arg _ _ h); [by eapply stands_gas| |done]. apply wp_bind, (wp_copy_arg _ _ sep); [by eapply stands_gas| |done].
  destruct (LuaTable.try_with_array_capacity (entries_of plan)) as [t|] eqn:Et; [|by apply wp_raise]. apply empty_table_spec in Et as [Htok Htempty].
  destruct Hg2 as (g & spent & ->). set (vm2 := set_gas g spent vm). apply wp_bind.
  eapply wp_mono; [apply (alloc_table_spec t split_refused vm2); [by destruct Har; split|done|done]| |by intros vm3 e ->].
  intros vm3 table (Hsame & Ht3 & Hres & Hnone & Hempty & _ & Hkeep). change (table_of vm table = None) in Hnone.
  assert (strings_fit room vm3) as Hfit3 by (apply (same_strings_fit _ vm2); [done|by destruct Hfit; split]).
  assert (forall pieces vm4 r, r = [VTable table] /\ wrote vm3 vm4 table (0 + 1) room pieces -> r = [VTable table] /\ split_into vm vm4 table room pieces) as Hdone.
  { intros pieces vm4 r [-> [W1 W2 W3 W4 W5 W6]]. split; [done|]. split; try done.
    - intros s b Hb. apply W4. rewrite (same_strings_heap_string vm2) by done. exact Hb.
    - intros k Hk. rewrite W6; [apply Hempty|]. intros z _ Hz. specialize (Hk z Hz). lia.
    - intros u k [w Hu]. rewrite W6.
      + unfold at_key. by rewrite (Hkeep u w Hu), Hu.
      + intros z ->. by rewrite Hnone in Hu. }
  pose proof (len_nonneg h). destruct sep as [|b sep].
  - change (len (@nil Z) =? 0) with true. cbv iota. eapply wp_mono; [apply (split_bytes_spec table h (S (length h)) 1 0 room vm3)| |by intros vm4 e ->]; try done; try (unfold len in *; lia).
    intros vm4 r Hw. change (Z.to_nat (1 - 1)) with 0%nat in Hw. rewrite drop_0 in Hw. apply Hdone in Hw as [-> Hw]. exists table, (byte_pieces h).
    split; [done|]. split; [done|]. split; [|done]. unfold byte_pieces, len. rewrite length_map. lia.
  - set (S := b :: sep) in *. assert (S <> []) as HS0 by done. assert ((len S =? 0) = false) as -> by (apply Z.eqb_neq; unfold S; rewrite len_cons; pose proof (len_nonneg sep); lia).
    assert (Split S h (cuts (Datatypes.S (length h)) h S 0 0)) as Hsplit by (rewrite <- (drop_0 h) at 1; apply (cuts_split _ h S 0 0); [done|lia|lia|unfold len; lia|intros q ?; lia]).
    pose proof (split_count _ _ _ HS0 Hsplit). eapply wp_mono; [apply (split_loop_spec table h S (Datatypes.S (length h)) 0 0 0 room vm3)| |by intros vm4 e ->]; try done; try (unfold len in *; lia).
    intros vm4 r Hw. apply Hdone in Hw as [-> Hw]. by exists table, (cuts (Datatypes.S (length h)) h S 0 0).
Qed.

Lemma texts_of_pieces vm table pieces : forall from,
  (forall (i : nat) piece, pieces !! i = Some piece -> exists s, at_key vm table (LInteger (from + Z.of_nat i)) = VString s /\ heap_string (vm_heap vm) s = Some piece) ->
  texts_at vm table from (from + len pieces - 1) = Some pieces.
Proof.
  induction pieces as [|p pieces IH]; intros from Hp.
  - unfold texts_at. rewrite range_incl_nil by (change (len (@nil (list Z))) with 0; lia). done.
  - pose proof (len_nonneg pieces). rewrite texts_at_cons by (rewrite len_cons; lia). destruct (Hp 0%nat p eq_refl) as (s & Hs & Hb). rewrite Z.add_0_r in Hs. rewrite Hs.
    cbn [text_of]. unfold string_bytes. rewrite Hb. cbn [default from_option id mbind option_bind].
    replace (from + len (p :: pieces) - 1) with (from + 1 + len pieces - 1) by (rewrite len_cons; lia). rewrite IH; [done|].
    intros i piece Hi. destruct (Hp (S i) piece Hi) as (s' & Hs' & Hb'). exists s'. split; [|done]. rewrite <- Hs'. do 2 f_equal. lia.
Qed.

Lemma pieces_join h sep pieces : pieces_of h sep pieces -> join sep pieces = h.
Proof.
  unfold pieces_of. destruct sep as [|b sep]; [intros ->|apply split_join]. unfold byte_pieces. induction h as [|x h IH]; [done|]. cbn [map].
  destruct h as [|y h]; [done|]. cbn [map join] in *. by rewrite IH.
Qed.

(** C25: [table.concat] undoes [string.split]: the table that [string.split(s, sep)] returns holds
    the pieces of [s] cut at the leftmost occurrences of the separator (every byte, for an empty
    one), and joining its elements with the separator gives [s] back. The only other outcomes are
    refusals for limits, gas or memory. *)
Theorem split_concat_round_trip vm args h sep room :
  alloc_room vm -> strings_fit room vm -> len h + 2 <= room -> len h < 4503599627370496 ->
  text_is vm (arg args 0) h -> (if decide (arg args 1 = VNil) then sep = [44] else text_is vm (arg args 1) sep) ->
  wp (string_split args) vm
    (fun vm' r => exists table pieces, r = [VTable table] /\ pieces_of h sep pieces /\ split_into vm vm' table room pieces /\
       forall s vi vj, string_bytes vm' s = sep -> arg_int [VTable table; VString s; vi; vj] 2 = Some 1 -> arg_int [VTable table; VString s; vi; vj] 3 = Some (len pieces) ->
         wp (table_concat [VTable table; VString s; vi; vj]) vm'
           (fun vm'' r => strings_kept vm' vm'' /\ exists t, r = [VString t] /\ string_bytes vm'' t = h)
           (fun vm'' e => strings_kept vm' vm'' /\ e ∈ (["table.concat result too large"; "memory limit exceeded"; "instruction budget exhausted"; "out of memory interning a string"]%string : list string)))
    (fun _ e => e ∈ split_refusals).
Proof.
  intros Har Hfit Hroom Hlen Hh Hsep. eapply wp_mono; [apply (split_spec vm args h sep room); [done|done|lia|done..]| |done].
  intros vm' r (table & pieces & -> & Hp & Hcount & Hinto). exists table, pieces. split; [done|]. split; [done|]. split; [done|]. intros s vi vj Hs Hi Hj.
  pose proof (texts_of_pieces vm' table pieces 1 (sp_new _ _ _ _ _ Hinto)) as Htexts. replace (1 + len pieces - 1) with (len pieces) in Htexts by lia.
  assert (forall k, 1 <= k <= len pieces -> exists t p, at_key vm' table (LInteger k) = VString t /\ heap_string (vm_heap vm') t = Some p) as Hat.
  { intros k Hk. assert (is_Some (pieces !! Z.to_nat (k - 1))) as [p Hpk] by (apply lookup_lt_is_Some; unfold len in Hk; lia).
    destruct (sp_new _ _ _ _ _ Hinto _ _ Hpk) as (t & Ht & Hb). exists t, p. split; [|done]. rewrite <- Ht. do 2 f_equal. lia. }
  pose proof (len_nonneg pieces). eapply wp_mono; [apply (table_concat_spec vm' table (VString s) vi vj sep 1 (len pieces))| |].
  - apply (strings_fit_ok (room - len pieces)); [lia|apply Hinto].
  - intros k n Hk E. destruct (Hat k Hk) as (t & p & Et & _). by rewrite Et in E.
  - done.
  - rewrite decide_False by done. cbn [text_of]. by rewrite Hs.
  - done.
  - done.
  - unfold exact. lia.
  - unfold exact. lia.
  - intros vm'' r (Hk & t & texts & -> & Et & Hb & _). split; [done|]. exists t. split; [done|]. rewrite Htexts in Et. injection Et as <-. rewrite Hb. by apply pieces_join.
  - intros vm'' e [Hk [(k & Hk1 & Hno & _)|He]]; [|done]. destruct (Hat k Hk1) as (t & p & Et & Eb). by rewrite Et in Hno.
Qed.
End Writing.

(** ** The theorems *)

Section Theorems.
Context {AL : Allocator} {LAWS : AllocatorLaws AL} {MA : MapAllocator} {TS : TableSizes} {HS : HeapSizes} {HSL : HeapSizesLaws HS}
  {BL : ByteLimits} {SL : StringLimits}.

(** [string.sub] and [string.byte] select exactly the bytes whose positions lie in the range,
    negative positions counted from the end and positions outside the string ignored: [sub] as a
    new string, [byte] as numbers. They fail only for want of memory or gas, and never panic. *)
Theorem string_sub_byte_exact vm args bytes :
  strings_ok vm -> text_is vm (arg args 0) bytes -> is_i64 (default 1 (arg_int args 1)) -> is_i64 (default (-1) (arg_int args 2)) ->
  let lo := resolved (default 1 (arg_int args 1)) (len bytes) in
  let hi := resolved (default (-1) (arg_int args 2)) (len bytes) in
  returns_string (string_sub args) vm (bytes_between 1 lo hi bytes) [intern_refused] /\
  (arg_int args 2 <> None ->
   wp (string_byte args) vm (fun vm' r => gas_only vm vm' /\ r = map (fun b => VNumber (f64_of_u64 b)) (bytes_between 1 lo hi bytes)) (fun vm' e => gas_only vm vm' /\ e = charge_refused)).
Proof.
  intros Hok Ht Hi Hj lo hi. split; [by apply string_sub_spec|]. intros Hj2. unfold hi. destruct (arg_int args 2) as [j|] eqn:Ej; [|done].
  pose proof (string_byte_spec vm args bytes Ht Hi) as Hb. rewrite Ej in Hb. cbn [default from_option id] in *. apply Hb. by exists j.
Qed.

(** [string.char] undoes [string.byte]: the bytes of any string, read with
    [string.byte(s, 1, -1)] and passed to [string.char], give a string of the same bytes. *)
Theorem string_char_byte_round_trip vm args bytes :
  strings_ok vm -> text_is vm (arg args 0) bytes -> arg_int args 1 = Some 1 -> arg_int args 2 = Some (-1) ->
  wp (string_byte args) vm
    (fun vm' r => gas_only vm vm' /\ returns_string (string_char r) vm' bytes [charge_refused; intern_refused])
    (fun vm' e => gas_only vm vm' /\ e = charge_refused).
Proof.
  intros Hok Ht H1 H2. pose proof (string_byte_spec vm args bytes Ht) as Hb. rewrite H1, H2 in Hb. cbn [default from_option id] in Hb.
  eapply wp_mono; [apply Hb; [done|by exists (-1)]| |done]. intros vm' r [Hg ->]. split; [done|]. destruct Ht as (_ & _ & H8 & _).
  assert (bytes_between 1 (resolved 1 (len bytes)) (resolved (-1) (len bytes)) bytes = bytes) as ->.
  { change (resolved 1 (len bytes)) with 1. unfold resolved. change (0 <=? -1) with false. cbv iota. destruct bytes as [|b bytes']; [done|]. set (l := b :: bytes').
    assert (0 < len l) by (unfold l; rewrite len_cons; pose proof (len_nonneg bytes'); lia). rewrite bytes_between_slice by lia.
    change (Z.to_nat (1 - 1)) with 0%nat. rewrite drop_0. apply firstn_all2. unfold len. lia. }
  apply string_char_spec; [destruct Hg as (g & s & ->); by destruct Hok|done|]. split; [by rewrite length_map|]. intros k b Hk.
  unfold arg_int. rewrite list_lookup_fmap, Hk. cbn. f_equal. rewrite Forall_lookup in H8. specialize (H8 k b Hk). unfold is_u8 in H8.
  pose proof (byte_all_spec (fun b => f64_as_i64 (f64_of_u64 b) =? b) b eq_refl H8) as E. by apply Z.eqb_eq in E.
Qed.

(** The bytes with a meaning of their own in patterns. A closing parenthesis has one only behind an
    opening one; alone, it is an error for the matcher and a text for [string.find]. *)
Definition magic (b : Z) : Prop := b ∈ [94; 36; 42; 43; 63; 46; 40; 91; 37; 45].
Definition text_pattern (pat : list Z) : Prop := Forall (fun b => ~ magic b) pat.

Lemma text_pattern_spec pat : text_pattern pat <-> pattern_has_special pat = false.
Proof.
  unfold text_pattern, pattern_has_special. induction pat as [|b pat IH]; [by split|]. rewrite Forall_cons, IH. cbn [existsb].
  rewrite orb_false_iff. unfold is_special, magic. by rewrite bool_decide_eq_false.
Qed.

Lemma text_pattern_literal pat : text_pattern pat -> 41 ∉ pat -> Forall literal pat.
Proof.
  unfold text_pattern. rewrite Forall_forall. intros Ht Hc. apply Forall_forall. intros b Hb. split; [|by intros ->].
  apply bool_decide_eq_false. exact (Ht b Hb).
Qed.

(** The plain flag. *)
Definition plain_flag (args : list RawValue) : bool := match args !! 3%nat with Some v => truthy v | None => false end.

(** What [string.find] returns from the position [start], counted from 0. *)
Definition found_as (vm : Vm) (args : list RawValue) (src pat : list Z) (start : Z) (r : list RawValue) : Prop :=
  if len src <? start then r = [VNil]
  else exists found : option MatchResult,
    (if plain_flag args then first_at src pat start (mr_start <$> found)
     else (text_pattern pat -> first_at src pat start (mr_start <$> found)) /\
          (text_pattern pat /\ 41 ∈ pat \/ leftmost_match src pat start found)) /\
    match found with
    | Some m => (plain_flag args = true \/ text_pattern pat -> mr_end m = mr_start m + len pat /\ mr_captures m = []) /\
        exists vs, r = VNumber (f64_of_u64 (mr_start m + 1)) :: VNumber (f64_of_u64 (mr_end m)) :: vs /\ Forall2 (captured vm src) (mr_captures m) vs
    | None => r = [VNil]
    end.

(** A place where a text stands, as a match. *)
Definition text_match (pat : list Z) (p : Z) : MatchResult := mkMatchResult p (p + len pat) [].

Lemma searched_as_text_spec args pat : searched_as_text args pat = true <-> plain_flag args = true \/ text_pattern pat.
Proof. rewrite text_pattern_spec. unfold searched_as_text, plain_flag. by rewrite orb_true_iff, negb_true_iff. Qed.

(** C24: [string.find] reports the first occurrence. Without the plain flag it is the leftmost match
    of the pattern at or after the start, with its captures (positions as numbers, ranges as new
    strings of their bytes), whichever of its two searches the function takes: the search for text
    that it prefers for a pattern without magic bytes finds the very match that the matching
    relation gives the pattern. Only a text with a closing parenthesis, which is no pattern, is
    found as text instead. With the plain flag it is the first place where the pattern stands as
    text. A start behind the end of the string finds nothing, and only patterns with magic bytes
    can raise. *)
Theorem string_find_leftmost vm args src pat :
  let start := init_position args src - 1 in
  text_is vm (arg args 0) src -> len src < 2147483648 -> text_is vm (arg args 1) pat -> is_i64 (default 1 (arg_int args 2)) -> room_for_match vm src pat start ->
  ends (string_find args) vm
    (fun vm' r => strings_kept vm vm' /\ found_as vm' args src pat start r)
    (fun vm' e => strings_kept vm vm' /\ plain_flag args = false /\ ~ text_pattern pat).
Proof.
  intros start Hs Hn Hp Hi Hroom. unfold found_as, ends. assert (0 <= start) by (unfold start, init_position; lia).
  pose proof (searched_as_text_spec args pat) as Hspec. destruct (searched_as_text args pat) eqn:Et.
  - apply proj1 in Hspec. specialize (Hspec eq_refl). eapply wp_mono; [by apply (find_text_spec vm args src pat)| |done].
    intros vm' r (-> & found & Hin & Hout & ->). split; [by split|].
    fold start in Hin, Hout. destruct (Z.ltb_spec (len src) start) as [Hlt|Hge]; [by rewrite Hout|]. specialize (Hin Hge).
    exists (text_match pat <$> found). assert (mr_start <$> (text_match pat <$> found) = found) as Hf by (by destruct found). rewrite Hf.
    split; [|destruct found as [p|]; [|done]; split; [done|]; by exists []].
    destruct (plain_flag args); [done|]. split; [done|]. destruct Hspec as [|Htext]; [done|].
    destruct (decide (41 ∈ pat)); [by left|right]. apply first_leftmost; [by apply text_pattern_literal|done..].
  - assert (~ (plain_flag args = true \/ text_pattern pat)) as Hno by (intros H0%Hspec; done).
    eapply wp_mono; [by apply (find_pattern_spec vm args src pat)| |intros vm' e Hk; split; [done|]; destruct (plain_flag args); tauto].
    intros vm' r (Hk & found & Hin & Hout & Hr). split; [done|].
    fold start in Hin, Hout. destruct (Z.ltb_spec (len src) start) as [Hlt|Hge]; [by rewrite Hout in Hr|]. exists found. specialize (Hin Hge).
    split; [destruct (plain_flag args); tauto|]. destruct found; [|done]. by split.
Qed.
End Theorems.

(** ** At concrete values *)

Section Sample.
#[local] Existing Instance exact_allocator.
#[local] Existing Instance doubling_map.
#[local] Existing Instance sizes64.
#[local] Existing Instance lib_sizes.
#[local] Existing Instance sample_limits.

Definition sample_string_limits : StringLimits := {| pattern_limits := PatternTheorems.sample_limits; max_meta_chain := 100%nat |}.
#[local] Existing Instance sample_string_limits.

(** The bytes ["a-1b-1"]. *)
Definition dashed : list Z := [97; 45; 49; 98; 45; 49].

Lemma string_vm_fit n bytes :
  (intern_str bytes "no memory" start_vm).2 = Ret sh -> 1 <= n -> strings_fit n start_vm -> strings_kept start_vm (string_vm bytes) /\ strings_fit (n - 1) (string_vm bytes).
Proof.
  intros Hr Hn Hf. pose proof (wp_intern_fit n bytes "no memory" start_vm Hn Hf) as H. unfold wp in H. rewrite Hr in H.
  by destruct H as (Hk & Hfit & _).
Qed.

Lemma start_vm_fit : strings_fit 100 start_vm.
Proof. split; [done|by apply new_ok|done]. Qed.

Lemma dashed_fit : strings_kept start_vm (string_vm dashed) /\ strings_fit 99 (string_vm dashed).
Proof. by apply (string_vm_fit 100), start_vm_fit. Qed.

Lemma dashed_strings : strings_ok (string_vm dashed).
Proof. apply (strings_fit_ok 99); [lia|]. apply dashed_fit. Qed.

Lemma dashed_text args : arg args 0 = VString sh -> text_is (string_vm dashed) (arg args 0) dashed.
Proof. intros ->. split; [done|]. split; [done|]. split; [by apply bytes_u8_spec|done]. Qed.

Lemma start_vm_tables : tables_ok start_vm /\ arena_ok size_tables (tables (objects (vm_heap start_vm))).
Proof.
  split; [apply sample_tables_ok; apply sequence_ok|]. unfold start_vm, sample_vm, two_tables. cbn [vm_heap objects tables].
  assert (forall (t : LuaTable) (a : Arena LuaTable), arena_ok 160 a -> arena_ok 160 (Arena.alloc 160 t a meter_default).1.1) as Hpush.
  { intros t a Ha. by destruct (alloc_spec 160 eq_refl t a meter_default Ha) as (a' & m' & r & -> & ? & _). }
  do 2 apply Hpush. by apply new_ok.
Qed.

Lemma dashed_room : alloc_room (string_vm dashed).
Proof.
  pose proof start_vm_tables as [Ht Ha]. pose proof (sk_tables _ _ (proj1 dashed_fit)) as Hk.
  split; [intros u t Hu; rewrite Hk in Hu; by eapply Ht| |by vm_compute].
  assert (tables (objects (vm_heap (string_vm dashed))) = tables (objects (vm_heap start_vm))) as -> by (by vm_compute). done.
Qed.

(** [string.sub(s, 2, -3)] and [string.byte(s, 2, -3)]. *)
Lemma string_sub_byte_exact_witness :
  let args := [VString sh; num 2; num (-3)] in
  returns_string (string_sub args) (string_vm dashed) [45; 49; 98] [intern_refused] /\
  (arg_int args 2 <> None ->
   wp (string_byte args) (string_vm dashed)
     (fun vm' r => gas_only (string_vm dashed) vm' /\ r = map (fun b => VNumber (f64_of_u64 b)) [45; 49; 98])
     (fun vm' e => gas_only (string_vm dashed) vm' /\ e = charge_refused)).
Proof.
  refine (string_sub_byte_exact (string_vm dashed) [VString sh; num 2; num (-3)] dashed dashed_strings (dashed_text [VString sh; num 2; num (-3)] eq_refl) _ _);
    vm_compute; split; discriminate || reflexivity.
Defined.

Lemma string_char_byte_round_trip_witness :
  wp (string_byte [VString sh; num 1; num (-1)]) (string_vm dashed)
    (fun vm' r => gas_only (string_vm dashed) vm' /\ returns_string (string_char r) vm' dashed [charge_refused; intern_refused])
    (fun vm' e => gas_only (string_vm dashed) vm' /\ e = charge_refused).
Proof.
  refine (string_char_byte_round_trip (string_vm dashed) [VString sh; num 1; num (-1)] dashed dashed_strings (dashed_text [VString sh; num 1; num (-1)] eq_refl) _ _);
    by vm_compute.
Defined.

(** [string.find(s, -1i, 3)]: the dash makes the pattern special, and it stands at 5. *)
Lemma string_find_leftmost_witness :
  let args := [VString sh; VInteger (-1); num 3] in
  ends (string_find args) (string_vm dashed)
    (fun vm' r => strings_kept (string_vm dashed) vm' /\ found_as vm' args dashed [45; 49] 2 r)
    (fun vm' e => strings_kept (string_vm dashed) vm' /\ plain_flag args = false /\ ~ text_pattern [45; 49]) /\
  (string_find args (string_vm dashed)).2 = Ret [num 5; num 6].
Proof.
  split; [|by vm_compute].
  refine (string_find_leftmost (string_vm dashed) [VString sh; VInteger (-1); num 3] dashed [45; 49] (dashed_text [VString sh; VInteger (-1); num 3] eq_refl) eq_refl _ _ _).
  - split; [done|]. split; [done|]. split; [by apply bytes_u8_spec|done].
  - vm_compute. split; discriminate || reflexivity.
  - split; [exact dashed_strings|]. intros m st Hm. vm_compute in Hm. injection Hm as <- _. apply (strings_fit_le 99); [vm_compute; discriminate|].
    apply dashed_fit.
Defined.

(** [string.split(s, -1i)] and the [table.concat] of its result. *)
Lemma split_concat_round_trip_witness :
  let args := [VString sh; VInteger (-1)] in
  wp (string_split args) (string_vm dashed)
    (fun vm' r => exists table pieces, r = [VTable table] /\ pieces_of dashed [45; 49] pieces /\ split_into (string_vm dashed) vm' table 99 pieces /\
       forall s vi vj, string_bytes vm' s = [45; 49] -> arg_int [VTable table; VString s; vi; vj] 2 = Some 1 -> arg_int [VTable table; VString s; vi; vj] 3 = Some (len pieces) ->
         wp (table_concat [VTable table; VString s; vi; vj]) vm'
           (fun vm'' r => strings_kept vm' vm'' /\ exists t, r = [VString t] /\ string_bytes vm'' t = dashed)
           (fun vm'' e => strings_kept vm' vm'' /\ e ∈ (["table.concat result too large"; "memory limit exceeded"; "instruction budget exhausted"; "out of memory interning a string"]%string : list string)))
    (fun _ e => e ∈ split_refusals).
Proof.
  refine (split_concat_round_trip (string_vm dashed) [VString sh; VInteger (-1)] dashed [45; 49] 99 _ _ _ _ (dashed_text [VString sh; VInteger (-1)] eq_refl) _).
  - exact dashed_room.
  - apply dashed_fit.
  - by vm_compute.
  - by vm_compute.
  - rewrite decide_False by done. split; [done|]. split; [done|]. split; [by apply bytes_u8_spec|done].
Defined.
End Sample.
