(* ===== verification/FormatLib.v ===== *)
(** * FormatLib: [string.format] and [tostring]

    Model of [string.format] of [ruau-vm/src/builtins/string_lib.rs], conversion by conversion,
    and of [tostring] of [builtins/base_lib.rs], which [%*] calls. The digits of [{:.p}] and
    [{:.pe}] are the standard library's: the exact value rounded to nearest, ties to even.

    The integer conversions read back as the integer, whatever the flags, the width and the
    precision; the text of [%q] is one token of the lexer whose value is the string; every
    conversion is as wide as it has to be; [string.format] ends with a result or an error, and
    what it builds is bounded. *)

From Stdlib Require Import ZArith Lia.
From stdpp Require Import base numbers list strings option gmap.
From S2P Require Import Prelude Builder AstString RustVec Arena ArenaFacts ArenaTheorems Value Registry LuaTable LuaTableTheorems GcObjects Gc GcSweep RustExec Pattern Location Lexer LexerSpec LexerFacts LexerTheorems Literal LiteralFacts LiteralTheorems LibHeap TableLib LibHeapFacts TableLibFacts BufferLib BufferFacts FloatText FloatTextTheorems LibStrings Utf8Lib StringLib StringTheorems.

(** ** Numbers as text *)

(** The digits of [n] in a base, as [{:o}], [{:x}] and [{:X}] print them. *)
Definition digit_char (upper : bool) (d : Z) : Z := if d <? 10 then 48 + d else (if upper then 55 else 87) + d.
Fixpoint radix_digits (fuel : nat) (base : Z) (upper : bool) (n : Z) : list Z :=
  match fuel with
  | O => []
  | S fuel' => (if n <? base then [] else radix_digits fuel' base upper (n / base)) ++ [digit_char upper (n mod base)]
  end.
(** Of a [u64], in base eight or more. *)
Definition radix_text (base : Z) (upper : bool) (n : Z) : list Z := radix_digits 22 base upper n.

(** [format!("{x:.*}", p)] of a double that is finite and has no sign. *)
Definition fixed_text (x p : Z) : list Z :=
  let n := div_half_even (f64_units x * 10 ^ p) F64_ONE in
  let whole := dec_digits 310 (n / 10 ^ p) in
  if p =? 0 then whole
  else
    let frac := dec_digits (Z.to_nat p) (n mod 10 ^ p) in
    whole ++ 46 :: zeros (p - len frac) ++ frac.

(** The significand of [p + 1] digits and the exponent of [format!("{x:.*e}", p)]. *)
Definition sci_digits (x p : Z) : Z * Z :=
  let u := f64_units x in
  if u =? 0 then (0, 0)
  else
    let e := decimal_exponent u in
    let '(n, d) := scaled u (e - p) in
    let m := div_half_even n d in
    if m =? 10 ^ (p + 1) then (10 ^ p, e + 1) else (m, e).

Definition sci_text (x p : Z) : list Z :=
  let '(m, e) := sci_digits x p in
  let digits := dec_digits (S (Z.to_nat p)) m in
  let digits := digits ++ zeros (p + 1 - len digits) in
  take 1 digits ++ (if p =? 0 then [] else 46 :: drop 1 digits) ++ 101 :: i32_text e.

(** ** Conversions *)

Record FormatSpec : Type := mkSpec {
  fs_left : bool; fs_plus : bool; fs_space : bool; fs_alt : bool; fs_zero : bool;
  fs_width : Z; fs_precision : option Z;
}.
Definition spec_default : FormatSpec := mkSpec false false false false false 0 None.

Definition has_modifiers (spec : FormatSpec) : bool :=
  fs_left spec || fs_plus spec || fs_space spec || fs_alt spec || fs_zero spec
  || negb (fs_width spec =? 0) || bool_decide (is_Some (fs_precision spec)).

(** What [emit_padded] appends. *)
Definition emit_padded (spec : FormatSpec) (prefix digits : list Z) (allow_zero : bool) : list Z :=
  let content := len prefix + len digits in
  if fs_width spec <=? content then prefix ++ digits
  else
    let pad := fs_width spec - content in
    if fs_left spec then prefix ++ digits ++ replicate (Z.to_nat pad) 32
    else if fs_zero spec && allow_zero then prefix ++ replicate (Z.to_nat pad) 48 ++ digits
    else replicate (Z.to_nat pad) 32 ++ prefix ++ digits.

Definition apply_int_precision (digits : list Z) (precision : option Z) (is_zero : bool) : list Z :=
  match precision with
  | Some p =>
      if (p =? 0) && is_zero then []
      else if len digits <? p then replicate (Z.to_nat (p - len digits)) 48 ++ digits
      else digits
  | None => digits
  end.

Definition no_precision (spec : FormatSpec) : bool := bool_decide (fs_precision spec = None).

(** The sign of a number that is not negative, or is. *)
Definition sign_prefix (spec : FormatSpec) (negative : bool) : list Z :=
  if negative then [45] else if fs_plus spec then [43] else if fs_space spec then [32] else [].

Definition format_signed (spec : FormatSpec) (value : Z) : list Z :=
  let digits := apply_int_precision (decimal_text (Z.abs value)) (fs_precision spec) (value =? 0) in
  emit_padded spec (sign_prefix spec (value <? 0)) digits (no_precision spec).

Definition format_unsigned (spec : FormatSpec) (bits base : Z) (upper : bool) (alt_prefix : list Z) : list Z :=
  let digits := if base =? 8 then radix_text 8 false bits
                else if base =? 16 then radix_text 16 upper bits
                else decimal_text bits in
  let digits := apply_int_precision digits (fs_precision spec) (bits =? 0) in
  let prefix := if negb (bits =? 0) && (base =? 16) then alt_prefix else [] in
  let digits := if (base =? 8) && negb (bool_decide (alt_prefix = [])) && negb (bool_decide (head digits = Some 48))
                then 48 :: digits else digits in
  emit_padded spec prefix digits (no_precision spec).

Definition format_float (spec : FormatSpec) (value : Z) (upper : bool) (body : Z -> option Z -> list Z) : list Z :=
  let negative := f64_neg value && negb (f64_is_nan value) in
  let magnitude := f64_abs value in
  let text := if f64_is_nan magnitude then bytes_of "nan"
              else if f64_is_infinite magnitude then bytes_of "inf"
              else body magnitude (fs_precision spec) in
  let text := if upper then map to_ascii_uppercase text else text in
  emit_padded spec (sign_prefix spec negative) text (negb (f64_is_nan magnitude || f64_is_infinite magnitude)).

Definition format_e_body (x precision : Z) : list Z :=
  let formatted := sci_text x precision in
  match split_once 101 formatted with
  | Some (mantissa, exp) =>
      let exponent := default 0 (i64_parse exp) in
      let text := decimal_text (Z.abs exponent) in
      mantissa ++ 101 :: (if exponent <? 0 then 45 else 43) :: zeros (2 - len text) ++ text
  | None => formatted
  end.

(** [s.trim_end_matches(c)]. *)
Fixpoint trim_start_matches (c : Z) (s : list Z) : list Z :=
  match s with b :: s' => if b =? c then trim_start_matches c s' else s | [] => [] end.
Definition trim_end_matches (c : Z) (s : list Z) : list Z := rev (trim_start_matches c (rev s)).

(** The text before the first [e] or [E], and the text from there on. *)
Fixpoint split_exponent (s : list Z) : list Z * list Z :=
  match s with
  | [] => ([], [])
  | b :: s' => if (b =? 101) || (b =? 69) then ([], s) else let '(before, after) := split_exponent s' in (b :: before, after)
  end.

Definition strip_g_zeros (text : list Z) : list Z :=
  let '(mantissa, exponent) := split_exponent text in
  (if has_byte mantissa 46 then trim_end_matches 46 (trim_end_matches 48 mantissa) else mantissa) ++ exponent.

Definition format_g_body (x precision : Z) (alt : bool) : list Z :=
  let significant := Z.max precision 1 in
  let probe := sci_text x (significant - 1) in
  let exponent := match split_once 101 probe with Some (_, exp) => default 0 (i64_parse exp) | None => 0 end in
  let text := if (exponent <? -4) || (significant <=? exponent) then format_e_body x (significant - 1)
              else fixed_text x (Z.max (significant - 1 - exponent) 0) in
  if alt then text else strip_g_zeros text.

(** What stands for one byte, before the bytes of [rest]. *)
Definition quote_byte (byte : Z) (rest : list Z) : list Z :=
  if (byte =? 34) || (byte =? 92) || (byte =? 10) then [92; byte]
  else if byte =? 13 then [92; 114]
  else if byte =? 9 then [92; 116]
  else if byte =? 0 then [92; 48; 48; 48]
  else if is_ascii_control byte then
    let text := decimal_text byte in
    92 :: (if starts_with is_ascii_digit rest then zeros (3 - len text) ++ text else text)
  else [byte].
Fixpoint quote_bytes (bytes : list Z) : list Z :=
  match bytes with
  | [] => []
  | byte :: rest => quote_byte byte rest ++ quote_bytes rest
  end.

(** ** [tostring] (base_lib.rs) *)

Definition gc_identity_string (kind : string) (handle : RawGc) : list Z :=
  let id := Z.lor (Z.shiftl (gc_generation handle) 32) (gc_index handle) in
  bytes_of kind ++ bytes_of ": 0x" ++ radix_text 16 false id.

Section Format.
Context {AL : Allocator} {MA : MapAllocator} {TS : TableSizes} {HS : HeapSizes} {BL : ByteLimits} {LC : LuaCode} {NB : NanBits}.

Definition value_to_string (value : RawValue) : LM (list Z) :=
  let+ vm := lget in
  match value with
  | VNil => lret (bytes_of "nil")
  | VBoolean true => lret (bytes_of "true")
  | VBoolean false => lret (bytes_of "false")
  | VNumber n => number_bytes n
  | VInteger i => lret (i64_text i)
  | VString handle => lret (string_bytes vm handle)
  | VTable handle => lret (gc_identity_string "table" handle)
  | VFunction handle => lret (gc_identity_string "function" handle)
  | VThread handle => lret (gc_identity_string "thread" handle)
  | VBuffer handle => lret (gc_identity_string "buffer" handle)
  | VVector x y z =>
      let+ tx := number_bytes (f64_of_f32 x) in
      let+ ty := number_bytes (f64_of_f32 y) in
      let+ tz := number_bytes (f64_of_f32 z) in
      lret (tx ++ [44; 32] ++ ty ++ [44; 32] ++ tz)
  | VUserdata handle => lret (gc_identity_string "userdata" handle)
  | VLightUserdata _ _ => lret (bytes_of "userdata")
  end.

Definition tostring_bytes (value : RawValue) : LM (list Z) :=
  let+ handler := get_metamethod value MToString in
  match handler with
  | Some handler =>
      let+ results := call_value handler [value] in
      match first_result results with
      | VString handle => let+ vm := lget in lret (string_bytes vm handle)
      | VNumber _ | VInteger _ => value_to_string (first_result results)
      | _ => lraise "'__tostring' must return a string"
      end
  | None => value_to_string value
  end.

Definition builtin_tostring (args : list RawValue) : LM (list RawValue) :=
  match args with
  | [] => lraise "missing argument #1"
  | value :: _ =>
      let+ bytes := tostring_bytes value in
      let+ interned := intern_str bytes "out of memory interning a string" in
      lret [VString interned]
  end.

(** ** [string.format] *)

Definition format_int_arg (args : list RawValue) (i : nat) : LM Z :=
  match arg_int args i with
  | Some v => lret v
  | None => lraise ("bad argument #" +:+ show (Z.of_nat i) +:+ " to 'format' (number expected)")
  end.

Definition format_float_arg (args : list RawValue) (i : nat) : LM Z :=
  match arg args i with
  | VNumber n => lret n
  | VInteger v => lret (f64_of_i64 v)
  | _ => lraise ("bad argument #" +:+ show (Z.of_nat i) +:+ " to 'format' (number expected)")
  end.

Definition format_string_arg (args : list RawValue) (i : nat) : LM (list Z) :=
  match arg args i with
  | VString handle => let+ vm := lget in lret (string_bytes vm handle)
  | VNumber n => number_bytes n
  | VInteger v => lret (i64_text v)
  | other => lraise ("bad argument #" +:+ show (Z.of_nat i) +:+ " to 'format' (string expected, got " +:+ type_name other +:+ ")")
  end.

Definition format_quoted (args : list RawValue) (i : nat) : LM (list Z) :=
  let+ bytes := format_string_arg args i in
  lret (34 :: quote_bytes bytes ++ [34]).

Definition format_star_arg (value : RawValue) : LM (list Z) :=
  let+ results := builtin_tostring [value] in
  match results with
  | [VString handle] => let+ vm := lget in lret (string_bytes vm handle)
  | _ => lraise "tostring must return a string"
  end.

(** What a conversion appends, with the argument at [i]. *)
Definition format_conversion (conv : Z) (spec : FormatSpec) (args : list RawValue) (i : nat) : LM (list Z) :=
  if (conv =? 100) || (conv =? 105) then
    let+ value := format_int_arg args i in lret (format_signed spec value)
  else if conv =? 117 then
    let+ value := format_int_arg args i in lret (format_unsigned spec (as_u64 value) 10 false [])
  else if conv =? 111 then
    let+ value := format_int_arg args i in lret (format_unsigned spec (as_u64 value) 8 false (if fs_alt spec then [48] else []))
  else if conv =? 120 then
    let+ value := format_int_arg args i in lret (format_unsigned spec (as_u64 value) 16 false (if fs_alt spec then [48; 120] else []))
  else if conv =? 88 then
    let+ value := format_int_arg args i in lret (format_unsigned spec (as_u64 value) 16 true (if fs_alt spec then [48; 88] else []))
  else if conv =? 99 then
    let+ value := format_int_arg args i in lret (emit_padded spec [] [as_u8 value] false)
  else if conv =? 115 then
    let+ bytes := format_string_arg args i in
    lret (emit_padded spec [] (match fs_precision spec with Some p => take (Z.to_nat p) bytes | None => bytes end) false)
  else if conv =? 42 then
    if has_modifiers spec then lraise "invalid conversion '%*' to 'format'"
    else match args !! i with
         | None => lraise "missing argument to 'format'"
         | Some value => format_star_arg value
         end
  else if conv =? 113 then format_quoted args i
  else if (conv =? 102) || (conv =? 70) then
    let+ x := format_float_arg args i in lret (format_float spec x false (fun x p => fixed_text x (default 6 p)))
  else if (conv =? 101) || (conv =? 69) then
    let+ x := format_float_arg args i in lret (format_float spec x (conv =? 69) (fun x p => format_e_body x (default 6 p)))
  else if (conv =? 103) || (conv =? 71) then
    let+ x := format_float_arg args i in
    lret (format_float spec x (conv =? 71) (fun x p => format_g_body x (default 6 p) (fs_alt spec)))
  else
    lraise ("invalid conversion '%" +:+ String.string_of_list_ascii (map (fun b => Ascii.ascii_of_N (Z.to_N b)) (encode_utf8 conv)) +:+ "' to 'format'").

(** The bit and the effect of a flag. *)
Definition flag (b : Z) (spec : FormatSpec) : option (Z * FormatSpec) :=
  match spec with
  | mkSpec l p s a z width precision =>
      if b =? 45 then Some (1, mkSpec true p s a z width precision)
      else if b =? 43 then Some (2, mkSpec l true s a z width precision)
      else if b =? 32 then Some (4, mkSpec l p true a z width precision)
      else if b =? 35 then Some (8, mkSpec l p s true z width precision)
      else if b =? 48 then Some (16, mkSpec l p s a true width precision)
      else None
  end.

Fixpoint flags_loop (fmt : list Z) (spec : FormatSpec) (seen : Z) : LM (FormatSpec * list Z) :=
  match fmt with
  | b :: rest =>
      match flag b spec with
      | Some (bit, spec') =>
          if negb (Z.land seen bit =? 0) then lraise "invalid conversion to 'format' (repeated flags)"
          else flags_loop rest spec' (Z.lor seen bit)
      | None => lret (spec, fmt)
      end
  | [] => lret (spec, [])
  end.

(** The number that the digits write, how many there are, and the rest. *)
Fixpoint digits_loop (fmt : list Z) (n count : Z) : Z * Z * list Z :=
  match fmt with
  | b :: rest => if is_ascii_digit b then digits_loop rest (as_u64 (n * 10 + (b - 48))) (as_u32 (count + 1)) else (n, count, fmt)
  | [] => (n, count, [])
  end.

Definition set_width (width : Z) (spec : FormatSpec) : FormatSpec :=
  mkSpec (fs_left spec) (fs_plus spec) (fs_space spec) (fs_alt spec) (fs_zero spec) width (fs_precision spec).
Definition set_precision (p : option Z) (spec : FormatSpec) : FormatSpec :=
  mkSpec (fs_left spec) (fs_plus spec) (fs_space spec) (fs_alt spec) (fs_zero spec) (fs_width spec) p.

(** The width and the precision of a conversion. *)
Definition parse_width (fmt : list Z) (spec : FormatSpec) : LM (FormatSpec * list Z) :=
  let '(width, count, rest) := digits_loop fmt 0 0 in
  if 2 <? count then lraise "invalid conversion to 'format' (width too long)" else lret (set_width width spec, rest).

Definition parse_precision (fmt : list Z) (spec : FormatSpec) : LM (FormatSpec * list Z) :=
  match fmt with
  | 46 :: fmt' =>
      let '(p, count, rest) := digits_loop fmt' 0 0 in
      if 2 <? count then lraise "invalid conversion to 'format' (precision too long)" else lret (set_precision (Some p) spec, rest)
  | _ => lret (spec, fmt)
  end.

Fixpoint format_loop (fuel : nat) (fmt : list Z) (args : list RawValue) (i : nat) (out : list Z) : LM (list Z) :=
  match fuel with
  | O => lloop
  | S fuel' =>
      match fmt with
      | [] => lret out
      | byte :: rest =>
          if negb (byte =? 37) then format_loop fuel' rest args i (out ++ [byte])
          else
            let+ r := flags_loop rest spec_default 0 in
            let '(spec, rest) := r in
            let+ r := parse_width rest spec in
            let '(spec, rest) := r in
            let+ r := parse_precision rest spec in
            let '(spec, rest) := r in
            match rest with
            | [] => lraise "invalid conversion '%' to 'format' (no specifier)"
            | conv :: rest =>
                if conv =? 37 then format_loop fuel' rest args i (out ++ [37])
                else
                  let+ piece := format_conversion conv spec args i in
                  let out := out ++ piece in
                  let+ _ := meter_string_growth (len out) "string.format" in
                  format_loop fuel' rest args (S i) out
            end
      end
  end.

Definition string_format (args : list RawValue) : LM (list RawValue) :=
  let+ fmt := arg_bytes args 0 in
  let+ out := format_loop (S (length fmt)) fmt args 1 [] in
  intern_result out.
End Format.

(** ** Integers read back *)

Lemma dec_digits_radix fuel n : 0 <= n -> dec_digits fuel n = radix_digits fuel 10 false n.
Proof.
  revert n. induction fuel as [|fuel IH]; intros n Hn; [done|]. cbn [dec_digits radix_digits]. f_equal.
  - destruct (n <? 10); [done|]. apply IH. zdm.
  - unfold digit_char. by rewrite (proj2 (Z.ltb_lt (n mod 10) 10)) by zdm.
Qed.

Lemma digit_char_value upper d : 0 <= d < 16 -> hex_value (digit_char upper d) = Some d.
Proof.
  intros H. unfold digit_char, hex_value, between. destruct (Z.ltb_spec d 10), upper; repeat case_match; try lia; f_equal; lia.
Qed.

Lemma digits_from_snoc radix acc ds b : digits_from radix acc (ds ++ [b]) = digits_from radix acc ds * radix + default 0 (hex_value b).
Proof. unfold digits_from. by rewrite foldl_app. Qed.

Lemma radix_digits_spec fuel base upper n :
  2 <= base <= 16 -> 0 <= n < base ^ Z.of_nat fuel -> fuel <> O ->
  Forall (fun b => digit_of base b = true) (radix_digits fuel base upper n) /\ digits_from base 0 (radix_digits fuel base upper n) = n /\
  radix_digits fuel base upper n <> [].
Proof.
  intros Hb. revert n. induction fuel as [|fuel IH]; intros n Hn Hf; [done|]. cbn [radix_digits].
  pose proof (Z.mod_pos_bound n base ltac:(lia)) as Hm. pose proof (Z.div_mod n base ltac:(lia)) as Hdm.
  pose proof (digit_char_value upper (n mod base) ltac:(lia)) as Hv.
  assert (digit_of base (digit_char upper (n mod base)) = true) as Hd by (unfold digit_of; rewrite Hv; cbn; lia).
  split; [|split; [|intros E; by apply app_eq_nil in E as [_ E]]].
  - apply Forall_app. split; [|by repeat constructor]. destruct (Z.ltb_spec n base); [constructor|].
    destruct (decide (fuel = O)) as [->|Hf']; [change (base ^ Z.of_nat 1) with (base ^ 1) in Hn; rewrite Z.pow_1_r in Hn; lia|].
    apply IH; [|done]. rewrite Nat2Z.inj_succ, Z.pow_succ_r in Hn by lia. split; [apply Z.div_pos; lia|apply Z.div_lt_upper_bound; lia].
  - rewrite digits_from_snoc, Hv. cbn [default from_option id]. destruct (Z.ltb_spec n base) as [Hs|Hs].
    + change (digits_from base 0 []) with 0. rewrite Z.mod_small by lia. lia.
    + destruct (decide (fuel = O)) as [->|Hf']; [change (base ^ Z.of_nat 1) with (base ^ 1) in Hn; rewrite Z.pow_1_r in Hn; lia|].
      destruct (IH (n / base)) as (_ & -> & _); [|done|lia]. rewrite Nat2Z.inj_succ, Z.pow_succ_r in Hn by lia.
      split; [apply Z.div_pos; lia|apply Z.div_lt_upper_bound; lia].
Qed.

(** What an integer conversion prints: its digits, at least one of them, perhaps after zeros. *)
Definition writes (base : Z) (ds : list Z) (n : Z) : Prop :=
  Forall (fun b => digit_of base b = true) ds /\ digits_from base 0 ds = n /\ ds <> [].

Lemma radix_text_writes base upper n : 8 <= base <= 16 -> 0 <= n < 18446744073709551616 -> writes base (radix_text base upper n) n.
Proof.
  intros Hb Hn. apply radix_digits_spec; [lia| |done]. pose proof (Z.pow_le_mono_l 8 base (Z.of_nat 22) ltac:(lia)).
  change (8 ^ Z.of_nat 22) with 73786976294838206464 in *. lia.
Qed.

Lemma decimal_text_writes n : 0 <= n < 18446744073709551616 -> writes 10 (decimal_text n) n.
Proof.
  intros Hn. unfold decimal_text. rewrite dec_digits_radix by lia. apply radix_digits_spec; [lia| |done].
  change (10 ^ Z.of_nat 20) with 100000000000000000000. lia.
Qed.

Lemma zero_digit base : 2 <= base -> digit_of base 48 = true.
Proof. intros. unfold digit_of. change (hex_value 48) with (Some 0). cbn. lia. Qed.

Lemma writes_zeros base k ds n : 2 <= base -> writes base ds n -> writes base (replicate k 48 ++ ds) n.
Proof.
  intros Hb (Hd & Hv & Hne). split; [|split].
  - apply Forall_app. split; [|done]. apply Forall_replicate. by apply zero_digit.
  - rewrite <- Hv. clear Hv. induction k as [|k IH]; [done|]. cbn [replicate app]. unfold digits_from in *. cbn. exact IH.
  - intros E. apply app_eq_nil in E as [_ E]. done.
Qed.

Lemma precision_writes base ds n p : 2 <= base -> writes base ds n -> p <> Some 0 \/ n <> 0 -> writes base (apply_int_precision ds p (n =? 0)) n.
Proof.
  intros Hb Hw Hp. unfold apply_int_precision. destruct p as [p|]; [|done]. destruct ((p =? 0) && (n =? 0)) eqn:E.
  { apply andb_true_iff in E as [->%Z.eqb_eq ->%Z.eqb_eq]. by destruct Hp. }
  destruct (len ds <? p); [by apply writes_zeros|done].
Qed.

(** Spaces, the sign, zeros and the digits, and spaces. *)
Lemma emit_shape spec prefix ds allow_zero :
  0 <= fs_width spec ->
  exists a k c, emit_padded spec prefix ds allow_zero = replicate a 32 ++ prefix ++ replicate k 48 ++ ds ++ replicate c 32 /\
    (allow_zero = false -> k = 0%nat) /\ len (emit_padded spec prefix ds allow_zero) = Z.max (fs_width spec) (len prefix + len ds).
Proof.
  intros Hw. unfold emit_padded. cbn zeta. unfold len. repeat case_match.
  - exists 0%nat, 0%nat, 0%nat. cbn [replicate app]. rewrite app_nil_r, length_app. split_and!; [done|done|lia].
  - exists 0%nat, 0%nat, (Z.to_nat (fs_width spec - (Z.of_nat (length prefix) + Z.of_nat (length ds)))).
    rewrite !length_app, length_replicate. split_and!; [done|done|lia].
  - exists 0%nat, (Z.to_nat (fs_width spec - (Z.of_nat (length prefix) + Z.of_nat (length ds)))), 0%nat. cbn [replicate app]. rewrite app_nil_r.
    rewrite !length_app, length_replicate. split_and!; [done| |lia]. intros ->. by rewrite andb_false_r in *.
  - exists (Z.to_nat (fs_width spec - (Z.of_nat (length prefix) + Z.of_nat (length ds)))), 0%nat, 0%nat. cbn [replicate app]. rewrite app_nil_r.
    rewrite !length_app, length_replicate. split_and!; [done|done|lia].
Qed.

Lemma trim_start_spaces a s : trim_start (replicate a 32 ++ s) = trim_start s.
Proof. induction a as [|a IH]; [done|exact IH]. Qed.

Definition solid (b : Z) : Prop := is_ascii_whitespace b = false.

Lemma trim_padded a c s : Forall solid s -> trim_whitespace (replicate a 32 ++ s ++ replicate c 32) = s.
Proof.
  destruct (decide (s = [])) as [->|Hne].
  { intros _. cbn [app]. rewrite <- replicate_add, <- (app_nil_r (replicate _ _)). unfold trim_whitespace. by rewrite trim_start_spaces. }
  intros Hs. unfold trim_whitespace. rewrite trim_start_spaces.
  assert (forall t, t <> [] -> Forall solid t -> forall u, trim_start (t ++ u) = t ++ u) as Hkeep.
  { intros [|b t] Ht Hf u; [done|]. apply Forall_inv in Hf. unfold solid in Hf. cbn. by rewrite Hf. }
  rewrite Hkeep, rev_app_distr by done. rewrite <- (app_nil_r (rev s)). replace (rev (replicate c 32)) with (replicate c 32).
  - rewrite trim_start_spaces, Hkeep, app_nil_r; [by rewrite rev_involutive| |by apply Forall_rev].
    intros E. apply Hne. rewrite <- (rev_involutive s), E. done.
  - clear. induction c as [|c IH]; [done|]. cbn [replicate rev]. rewrite <- IH. clear IH. induction c as [|c IH]; [done|]. cbn. by rewrite <- IH.
Qed.

Lemma digit_solid base b : digit_of base b = true -> solid b.
Proof. unfold digit_of, solid, is_ascii_whitespace, hex_value, between. repeat case_match; cbn; try done; lia. Qed.

Lemma digit_10 b : digit_of 10 b = true <-> is_ascii_digit b = true.
Proof. unfold digit_of, hex_value, is_ascii_digit, between. repeat case_match; cbn; split; intros; try done; lia. Qed.

Lemma digits_from_dec acc ds : digits ds -> digits_from 10 acc ds = dec_value acc ds.
Proof.
  intros Hd. revert acc. induction Hd as [|d ds Hd _ IH]; intros acc; [done|]. unfold digits_from, dec_value in *. cbn. rewrite IH.
  by rewrite digit_hex_value.
Qed.

Lemma from_unsigned base ds n : 2 <= base -> writes base ds n -> n <= 18446744073709551615 -> u64_from_str_radix ds base = Some n.
Proof.
  intros Hb (Hd & Hv & Hne) Hn. destruct ds as [|b ds]; [done|]. pose proof (Forall_inv Hd) as Hb0.
  rewrite (u64_digits base b ds Hb0), from_digits_spec by (done || lia). rewrite Hv. by rewrite (proj2 (Z.leb_le n _)).
Qed.

Lemma from_negative lo hi acc ds :
  digits ds -> 0 <= acc -> 0 <= hi -> lo <= - dec_value acc ds -> from_digits 10 (-1) lo hi (- acc) ds = Some (- dec_value acc ds).
Proof.
  intros Hd. revert acc. induction Hd as [|d ds Hd Hds IH]; intros acc Ha Hhi Hlo; [done|].
  change (dec_value acc (d :: ds)) with (dec_value (acc * 10 + (d - 48)) ds) in *. apply is_digit_range in Hd as Hr.
  pose proof (dec_value_nonneg (acc * 10 + (d - 48)) ds Hds ltac:(lia)). cbn [from_digits].
  assert (to_digit 10 d = Some (d - 48)) as ->. { unfold to_digit. rewrite digit_hex_value by done. cbn. by rewrite (proj2 (Z.ltb_lt _ _)) by lia. }
  match goal with |- (Some ?x ≫= ?f) = _ => change (Some x ≫= f) with (f x) end. cbv beta zeta.
  rewrite (proj2 (Z.leb_le lo _)), (proj2 (Z.leb_le _ hi)) by lia. cbn [andb negb].
  replace (- acc * 10 + -1 * (d - 48)) with (- (acc * 10 + (d - 48))) by lia.
  rewrite (proj2 (Z.leb_le lo _)), (proj2 (Z.leb_le _ hi)) by lia. cbn [andb negb]. apply IH; lia.
Qed.

Lemma from_signed ds n (negative : bool) (prefix : list Z) :
  writes 10 ds n -> 0 <= n <= (if negative then 9223372036854775808 else 9223372036854775807) ->
  (prefix = [45] /\ negative = true \/ (prefix = [] \/ prefix = [43]) /\ negative = false) ->
  i64_parse (prefix ++ ds) = Some (if negative then - n else n).
Proof.
  intros (Hd & Hv & Hne) Hn Hp. assert (digits ds) as Hds by (eapply Forall_impl; [exact Hd|]; intros b; apply digit_10).
  rewrite digits_from_dec in Hv by done. destruct Hp as [[-> ->]|[Hp ->]].
  - cbn [app]. destruct ds as [|b ds]; [done|]. rewrite <- Hv. apply (from_negative _ _ 0); [done|lia|lia|rewrite Hv; lia].
  - assert (from_digits 10 1 (-9223372036854775808) 9223372036854775807 0 ds = Some n) as Hf.
    { pose proof (from_digits_value 1 (-9223372036854775808) 9223372036854775807 0 ds Hds) as Hf. rewrite Hv, !Z.mul_1_l in Hf. apply Hf; lia. }
    destruct ds as [|b ds]; [done|]. destruct Hp as [-> | ->]; [|exact Hf]. cbn [app]. by rewrite i64_digits by (by apply Forall_inv in Hd).
Qed.

(** A padded number without its spaces. Zeros stand before the digits only where they may. *)
Lemma emit_trimmed spec prefix ds allow_zero :
  0 <= fs_width spec -> Forall solid ds -> prefix = [32] \/ Forall solid prefix ->
  exists k, (allow_zero = false -> k = 0%nat) /\
    trim_whitespace (emit_padded spec prefix ds allow_zero) = (if decide (prefix = [32]) then [] else prefix) ++ replicate k 48 ++ ds.
Proof.
  intros Hw Hds Hp. destruct (emit_shape spec prefix ds allow_zero Hw) as (a & k & c & -> & Hk & _). exists k. split; [done|].
  assert (Forall solid (replicate k 48 ++ ds)) as Hs by (apply Forall_app; split; [by apply Forall_replicate|done]).
  rewrite (app_assoc (replicate k 48)). case_decide as E.
  - subst prefix. replace (replicate a 32 ++ [32] ++ (replicate k 48 ++ ds) ++ replicate c 32) with (replicate (a + 1) 32 ++ (replicate k 48 ++ ds) ++ replicate c 32)
      by (by rewrite replicate_add, <- app_assoc). by apply trim_padded.
  - rewrite (app_assoc prefix). apply trim_padded, Forall_app. split; [|done]. by destruct Hp.
Qed.

(** ** What C says of the integer conversions *)

Definition int_conversion (conv : Z) : Prop := conv ∈ [100; 105; 117; 111; 120; 88].
Definition int_signed (conv : Z) : bool := (conv =? 100) || (conv =? 105).
Definition int_base (conv : Z) : Z := if conv =? 111 then 8 else if (conv =? 120) || (conv =? 88) then 16 else 10.

(** The number that the digits write: without its sign, or modulo 2^64. *)
Definition int_magnitude (conv value : Z) : Z := if int_signed conv then Z.abs value else as_u64 value.

(** What stands before the digits, a space apart. *)
Definition int_prefix (conv : Z) (spec : FormatSpec) (value : Z) : list Z :=
  if int_signed conv then (if value <? 0 then [45] else if fs_plus spec then [43] else [])
  else if fs_alt spec && negb (value =? 0) && (int_base conv =? 16) then [48; conv] else [].

(** A digit of the conversion: [%X] has capital letters, [%x] small ones. *)
Definition int_digit (conv b : Z) : Prop :=
  digit_of (int_base conv) b = true /\ (if conv =? 88 then ~ 97 <= b else ~ (65 <= b /\ b <= 90)).

(** Zero at precision zero has no digits, but one under the [#] flag of [%o]; every other number
    has at least the digits that the precision asks for, and they read back as the number. *)
Record int_digits (conv : Z) (spec : FormatSpec) (value : Z) (ds : list Z) : Prop := {
  id_digits : Forall (int_digit conv) ds;
  id_precision : default 1 (fs_precision spec) <= len ds;
  id_value : ~ (value = 0 /\ fs_precision spec = Some 0) -> u64_from_str_radix ds (int_base conv) = Some (int_magnitude conv value);
  id_zero : value = 0 -> fs_precision spec = Some 0 -> ds = (if (conv =? 111) && fs_alt spec then [48] else []);
  id_octal : conv = 111 -> fs_alt spec = true -> head ds = Some 48;
}.

Lemma digit_char_case (upper : bool) d : 0 <= d < 16 -> if upper then ~ 97 <= digit_char upper d else ~ (65 <= digit_char upper d /\ digit_char upper d <= 90).
Proof. intros Hd. unfold digit_char. destruct upper; case_match; lia. Qed.

Lemma radix_case base (upper : bool) : 2 <= base <= 16 -> forall fuel n, 0 <= n ->
  Forall (fun b => if upper then ~ 97 <= b else ~ (65 <= b /\ b <= 90)) (radix_digits fuel base upper n).
Proof.
  intros Hb. induction fuel as [|fuel IH]; intros n Hn; cbn [radix_digits]; [done|]. apply Forall_app. split.
  - destruct (n <? base); [done|]. apply IH, Z.div_pos; lia.
  - constructor; [|done]. apply digit_char_case. pose proof (Z.mod_pos_bound n base). lia.
Qed.

Lemma int_zero conv : int_conversion conv -> int_digit conv 48.
Proof. intros Hc. split; [apply zero_digit; unfold int_base; repeat case_match; lia|]. case_match; lia. Qed.

Lemma int_base_range conv : 8 <= int_base conv <= 16.
Proof. unfold int_base. repeat case_match; lia. Qed.

Lemma int_magnitude_range conv value : is_i64 value -> 0 <= int_magnitude conv value <= 18446744073709551615 /\ (int_magnitude conv value = 0 <-> value = 0).
Proof.
  unfold is_i64, int_magnitude. intros Hv. case_match; [lia|]. unfold as_u64. change (2 ^ 64) with 18446744073709551616.
  pose proof (Z.mod_pos_bound value 18446744073709551616 ltac:(lia)). split; [lia|]. split; [|by intros ->].
  destruct (Z.ltb_spec value 0); [|rewrite Z.mod_small by lia; lia].
  replace value with (value + 18446744073709551616 + -1 * 18446744073709551616) at 1 by lia. rewrite Z.mod_add, Z.mod_small by lia. lia.
Qed.

(** Digits behind zeros, as many as the precision, the [#] flag of [%o] and the width ask for. *)
Lemma int_digits_padded conv spec value text j k :
  int_conversion conv -> is_i64 value -> writes (int_base conv) text (int_magnitude conv value) -> Forall (int_digit conv) text ->
  let ds := apply_int_precision text (fs_precision spec) (value =? 0) in
  j = (if (conv =? 111) && fs_alt spec && negb (bool_decide (head ds = Some 48)) then 1%nat else 0%nat) -> (no_precision spec = false -> k = 0%nat) ->
  let ds' := replicate k 48 ++ replicate j 48 ++ ds in
  int_digits conv spec value ds' /\ (~ (value = 0 /\ fs_precision spec = Some 0) -> writes (int_base conv) ds' (int_magnitude conv value)).
Proof.
  intros Hc Hv Hw Hd ds Hj Hk. destruct (int_magnitude_range conv value Hv) as [Hm Hz]. pose proof (int_base_range conv) as Hb.
  assert (~ (value = 0 /\ fs_precision spec = Some 0) -> writes (int_base conv) (replicate k 48 ++ replicate j 48 ++ ds) (int_magnitude conv value)) as Hall.
  { intros Hp. do 2 (apply writes_zeros; [lia|]). unfold ds. replace (value =? 0) with (int_magnitude conv value =? 0) by lia.
    apply precision_writes; [lia|done|]. destruct (decide (fs_precision spec = Some 0)); [right; tauto|by left]. }
  split; [|done]. constructor.
  - rewrite !Forall_app. split_and!; [apply Forall_replicate; by apply int_zero|apply Forall_replicate; by apply int_zero|].
    unfold ds, apply_int_precision. repeat case_match; try done; (apply Forall_app; split; [apply Forall_replicate; by apply int_zero|done]).
  - destruct Hw as (_ & _ & Hne). assert (1 <= len text) by (destruct text; [done|rewrite len_cons; pose proof (len_nonneg text); lia]).
    assert (default 1 (fs_precision spec) <= len ds).
    { unfold ds, apply_int_precision. destruct (fs_precision spec) as [p|]; cbn; [|lia]. destruct ((p =? 0) && (value =? 0)) eqn:E.
      - apply andb_true_iff in E as [->%Z.eqb_eq _]. done.
      - destruct (Z.ltb_spec (len text) p); unfold len in *; rewrite ?length_app, ?length_replicate; lia. }
    unfold len in *. rewrite !length_app. lia.
  - intros Hp. apply from_unsigned; [lia|by apply Hall|lia].
  - intros H0 Hp. unfold no_precision in Hk. rewrite Hk by (by rewrite Hp). unfold ds, apply_int_precision in *. rewrite Hp, H0 in *. cbn in Hj |- *.
    rewrite andb_true_r in Hj. rewrite Hj. by destruct (_ && _).
  - intros -> Ha. destruct k; [|done]. rewrite Ha in Hj. cbn [Z.eqb Pos.eqb andb] in Hj. destruct (bool_decide _) eqn:E; cbn in Hj; subst j; [|done].
    by apply bool_decide_eq_true_1 in E.
Qed.

(** ** Quoting *)

(** A control byte without an escape of its own, as decimal digits. *)
Definition plain_control (b : Z) : bool := is_ascii_control b && negb ((b =? 10) || (b =? 13) || (b =? 9) || (b =? 0)).
Definition control_text (wide : bool) (b : Z) : list Z :=
  let text := decimal_text b in if wide then zeros (3 - len text) ++ text else text.

Definition control_fits (wide : bool) (b : Z) : bool :=
  match control_text wide b with
  | d :: ds => forallb is_ascii_digit (d :: ds) && (length ds <=? 2)%nat && (negb wide || (length ds =? 2)%nat) && (digits_value 10 (d :: ds) =? b)
  | [] => false
  end.

Lemma control_fits_all wide b : is_u8 b -> plain_control b = true -> control_fits wide b = true.
Proof.
  intros Hb Hc. assert (byte_all (fun b => negb (plain_control b) || control_fits wide b) = true) as Hall by (by destruct wide; vm_compute).
  apply (byte_all_spec _ b Hall) in Hb. by rewrite Hc in Hb.
Qed.

Lemma quote_head b rest : exists c s, quote_byte b rest = c :: s /\ (c = 92 \/ c = b).
Proof. unfold quote_byte. repeat case_match; eauto. Qed.

Lemma quote_starts rest : starts_with is_ascii_digit rest = false -> starts_with is_ascii_digit (quote_bytes rest) = false.
Proof. destruct rest as [|b rest]; [done|]. intros Hb. cbn [quote_bytes]. destruct (quote_head b rest) as (c & s & -> & [->| ->]); done. Qed.

Lemma quote_byte_unescape b rest out :
  is_u8 b -> Unescape (quote_bytes rest) out -> Unescape (quote_byte b rest ++ quote_bytes rest) (b :: out).
Proof.
  intros Hb Hr. unfold quote_byte.
  destruct ((b =? 34) || (b =? 92) || (b =? 10)) eqn:E1.
  { apply (Unescape_escape [b] _ [b]); [|done]. apply orb_true_iff in E1 as [[E|E]%orb_true_iff|E]; apply Z.eqb_eq in E as ->;
      [by apply (Escape_byte 34)|by apply (Escape_byte 92)|apply Escape_newline]. }
  destruct (Z.eqb_spec b 13) as [->|N13]; [apply (Unescape_escape [114] _ [13]); [by apply (Escape_byte 114)|done]|].
  destruct (Z.eqb_spec b 9) as [->|N9]; [apply (Unescape_escape [116] _ [9]); [by apply (Escape_byte 116)|done]|].
  destruct (Z.eqb_spec b 0) as [->|N0].
  { apply (Unescape_escape [48; 48; 48] _ [0]); [|done]. apply (Escape_decimal 48 [48; 48]); [done|by repeat constructor|cbn; lia|by left|done]. }
  destruct (is_ascii_control b) eqn:Ec; cbn zeta.
  - change (if starts_with is_ascii_digit rest then zeros (3 - len (decimal_text b)) ++ decimal_text b else decimal_text b)
      with (control_text (starts_with is_ascii_digit rest) b).
    set (wide := starts_with is_ascii_digit rest). pose proof (control_fits_all wide b Hb) as Hf. unfold plain_control in Hf. rewrite Ec in Hf.
    specialize (Hf ltac:(cbn; lia)). unfold control_fits in Hf. destruct (control_text wide b) as [|d ds]; [done|].
    apply andb_true_iff in Hf as [[[Hd Hlen%Nat.leb_le]%andb_true_iff Hw]%andb_true_iff Hv%Z.eqb_eq]. cbn [forallb] in Hd. apply andb_true_iff in Hd as [Hd Hds].
    change (b :: out) with ([b] ++ out). rewrite <- Hv at 1. apply (Unescape_escape (d :: ds)); [|done]. apply Escape_decimal; [done| |done| |].
    + apply Forall_forall. intros c Hc. rewrite forallb_forall in Hds. by apply Hds, list_elem_of_In.
    + destruct wide eqn:Ew; [left; apply orb_true_iff in Hw as [?|?%Nat.eqb_eq]; done|right; by apply quote_starts].
    + rewrite Hv. unfold is_u8 in Hb. lia.
  - apply Unescape_plain; [|done]. intros ->. done.
Qed.

Lemma quote_unescape bytes : Forall is_u8 bytes -> Unescape (quote_bytes bytes) bytes.
Proof. induction 1 as [|b rest Hb _ IH]; [constructor|]. cbn [quote_bytes]. by apply quote_byte_unescape. Qed.

Lemma inert_digits ds s : Forall (fun b => is_ascii_digit b = true) ds -> inert s -> inert (ds ++ s).
Proof.
  intros Hd. apply inert_hex. eapply Forall_impl; [exact Hd|]. intros b Hb. unfold is_hex. by rewrite digit_hex_value.
Qed.

Lemma quote_byte_inert b rest s : is_u8 b -> inert s -> inert (quote_byte b rest ++ s).
Proof.
  intros Hb Hs. unfold quote_byte.
  destruct ((b =? 34) || (b =? 92) || (b =? 10)) eqn:E1; [apply inert_escape; [lia|lia|done]|].
  destruct (Z.eqb_spec b 13) as [->|N13]; [by apply inert_escape|]. destruct (Z.eqb_spec b 9) as [->|N9]; [by apply inert_escape|].
  destruct (Z.eqb_spec b 0) as [->|N0]; [apply inert_escape; [done..|]; by repeat apply inert_plain|].
  destruct (is_ascii_control b) eqn:Ec; cbn zeta.
  - change (if starts_with is_ascii_digit rest then zeros (3 - len (decimal_text b)) ++ decimal_text b else decimal_text b)
      with (control_text (starts_with is_ascii_digit rest) b).
    pose proof (control_fits_all (starts_with is_ascii_digit rest) b Hb) as Hf. unfold plain_control in Hf. rewrite Ec in Hf.
    specialize (Hf ltac:(cbn; lia)). unfold control_fits in Hf. destruct (control_text _ b) as [|d ds]; [done|].
    apply andb_true_iff in Hf as [[[Hd _]%andb_true_iff _]%andb_true_iff _]. cbn [forallb] in Hd. apply andb_true_iff in Hd as [Hd Hds].
    cbn [app]. apply is_digit_range in Hd. apply inert_escape; [lia|lia|]. apply inert_digits; [|done].
    apply Forall_forall. intros c Hc. rewrite forallb_forall in Hds. by apply Hds, list_elem_of_In.
  - apply inert_plain; [lia| |done]. unfold quoted_stop. lia.
Qed.

Lemma quote_inert bytes : Forall is_u8 bytes -> inert (quote_bytes bytes).
Proof. induction 1 as [|b rest Hb _ IH]; [constructor|]. cbn [quote_bytes]. by apply quote_byte_inert. Qed.

Lemma quote_high b rest : 128 <= b -> quote_byte b rest = [b].
Proof. intros H. unfold quote_byte, is_ascii_control, between. repeat case_match; try done; lia. Qed.

Lemma quote_high_run l rest : Forall (fun b => 128 <= b) l -> quote_bytes (l ++ rest) = l ++ quote_bytes rest.
Proof. induction 1 as [|b l Hb _ IH]; [done|]. cbn [app quote_bytes]. by rewrite quote_high, IH. Qed.

Lemma quote_low b rest : 0 <= b < 128 -> Forall (fun c => 0 < c < 128) (quote_byte b rest).
Proof.
  intros Hb. unfold quote_byte. destruct (_ || _) eqn:E1; [repeat constructor; lia|].
  repeat (match goal with |- Forall _ (if ?c then _ else _) => destruct c eqn:? end; [repeat constructor; lia|]).
  destruct (is_ascii_control b); cbn zeta; [|repeat constructor; lia]. constructor; [lia|].
  destruct (decimal_text_small b) as (Hd & _ & _); [lia|].
  assert (forall l, digits l -> Forall (fun c => 0 < c < 128) l) as Hlow by (intros l Hl; eapply Forall_impl; [exact Hl|]; intros c Hc%is_digit_range; lia).
  destruct (starts_with _ rest); [|by apply Hlow]. apply Forall_app. split; apply Hlow; [apply zeros_digits|done].
Qed.

(** Quoting keeps UTF-8 text UTF-8, and leaves no zero byte. *)
Lemma quote_utf8 value :
  Forall is_char value -> (exists chars, Forall scalar chars /\ quote_bytes (utf8 value) = utf8 chars) /\ Forall (fun b => 0 < b) (quote_bytes (utf8 value)).
Proof.
  induction 1 as [|c value [Hc Hs] _ [(chars & Hch & IH) Hnz]]; [split; [by exists []|constructor]|].
  unfold utf8 in *. cbn [map concat]. destruct (Z.ltb_spec c 128) as [Hlow|Hhigh].
  - rewrite encode_utf8_1 by (unfold scalar in Hc; lia). cbn [app quote_bytes]. rewrite IH.
    pose proof (quote_low c (concat (map encode_utf8 value)) ltac:(unfold scalar in Hc; lia)) as Hq. split.
    + exists (quote_byte c (concat (map encode_utf8 value)) ++ chars). split.
      * apply Forall_app. split; [|done]. eapply Forall_impl; [exact Hq|]. unfold scalar. cbn. lia.
      * rewrite map_app, concat_app. f_equal. symmetry. by apply ascii_utf8.
    + apply Forall_app. split; [eapply Forall_impl; [exact Hq|cbn; lia]|]. by rewrite <- IH.
  - assert (Forall (fun b => 128 <= b) (encode_utf8 c)) as Hall.
    { destruct (encode_head c Hc) as (b & t & -> & Hb & Ht & Hascii). constructor.
      - destruct (Z.ltb_spec b 128) as [Hlt|]; [|done]. destruct (Hascii Hlt). lia.
      - eapply Forall_impl; [exact Ht|]. unfold continuation. cbn. lia. }
    rewrite quote_high_run by done. split.
    + exists (c :: chars). split; [by constructor|]. cbn. by rewrite IH.
    + apply Forall_app. split; [eapply Forall_impl; [exact Hall|cbn; lia]|done].
Qed.

Lemma quoted_utf8 value : Forall is_char value -> len (34 :: quote_bytes (utf8 value) ++ [34]) < U32_MAX ->
  valid_str (34 :: quote_bytes (utf8 value) ++ [34]) /\ Forall (fun b => 0 < b) (34 :: quote_bytes (utf8 value) ++ [34]).
Proof.
  intros Hv Hlen. destruct (quote_utf8 value Hv) as [(chars & Hch & Hq) Hnz]. split.
  - split; [|done]. exists (34 :: chars ++ [34]). split.
    + constructor; [lia|]. apply Forall_app. split; [done|]. by repeat constructor.
    + rewrite Hq. unfold utf8. cbn [map concat]. by rewrite map_app, concat_app.
  - constructor; [lia|]. apply Forall_app. split; [done|]. by repeat constructor.
Qed.

Lemma char_bytes value : Forall is_char value -> Forall is_u8 (utf8 value).
Proof.
  induction 1 as [|c value [Hc _] _ IH]; [constructor|]. unfold utf8 in *. cbn. apply Forall_app. split; [|done].
  rewrite encode_utf8_arith by done. unfold scalar in Hc. repeat case_match; repeat constructor; unfold is_u8; zdm.
Qed.

(** ** The formatter as a whole *)

Section Formatting.
Context {AL : Allocator} {LAWS : AllocatorLaws AL} {MA : MapAllocator} {TS : TableSizes} {HS : HeapSizes} {HSL : HeapSizesLaws HS}
  {BL : ByteLimits} {LC : LuaCode} {NB : NanBits} {OA : OnAbort}.

(** The numbers among the arguments are doubles, those in vectors after their conversion. *)
Definition numbers_ok (args : list RawValue) : Prop :=
  (forall i n, arg args i = VNumber n -> is_u64 n) /\
  (forall i x y z, arg args i = VVector x y z -> Forall is_u64 [f64_of_f32 x; f64_of_f32 y; f64_of_f32 z]).

(** A computation that leaves the machine as it is. *)
Definition quiet {A} (m : LM A) (vm : Vm) : Prop := wp m vm (fun vm' _ => vm' = vm) (fun vm' _ => vm' = vm).

Lemma quiet_ret {A} (a : A) vm : quiet (lret a) vm.
Proof. by apply wp_ret. Qed.
Lemma quiet_raise {A} e vm : quiet (lraise (A := A) e) vm.
Proof. by apply wp_raise. Qed.
Lemma quiet_bind {A B} (m : LM A) (k : A -> LM B) vm : quiet m vm -> (forall a, quiet (k a) vm) -> quiet (lbind m k) vm.
Proof. intros Hm Hk. apply wp_bind. eapply wp_mono; [exact Hm| |done]. intros vm' a ->. apply Hk. Qed.
Lemma quiet_number n vm : is_u64 n -> quiet (number_bytes n) vm.
Proof. intros Hn. unfold number_bytes. destruct (number_to_string_total n Hn) as [s ->]. apply quiet_ret. Qed.
#[local] Hint Resolve quiet_ret quiet_raise quiet_number : core.

Lemma quiet_int args i vm : quiet (format_int_arg args i) vm.
Proof. unfold format_int_arg. destruct (arg_int args i); auto. Qed.
Lemma quiet_float args i vm : quiet (format_float_arg args i) vm.
Proof. unfold format_float_arg. destruct (arg args i); auto. Qed.
Lemma quiet_string args i vm : numbers_ok args -> quiet (format_string_arg args i) vm.
Proof. intros [Ha _]. unfold format_string_arg. specialize (Ha i). destruct (arg args i); eauto. by apply wp_bind, wp_get, quiet_ret. Qed.
#[local] Hint Resolve quiet_int quiet_float quiet_string : core.

Lemma quiet_conversion conv spec args i vm : numbers_ok args -> conv <> 42 -> quiet (format_conversion conv spec args i) vm.
Proof.
  intros Ha Hc. unfold format_conversion, format_quoted. rewrite (proj2 (Z.eqb_neq conv 42)) by done.
  repeat (case_match; [apply quiet_bind; auto|]). auto.
Qed.

Lemma quiet_flags fmt : forall spec seen vm,
  wp (flags_loop fmt spec seen) vm (fun vm' r => vm' = vm /\ r.2 `suffix_of` fmt) (fun vm' _ => vm' = vm).
Proof.
  induction fmt as [|b fmt IH]; intros spec seen vm; cbn [flags_loop]; [by apply wp_ret|]. destruct (flag b spec) as [[bit spec']|].
  - case_match; [by apply wp_raise|]. eapply wp_mono; [apply IH| |done]. intros vm' r [-> Hs]. split; [done|]. by apply suffix_cons_r.
  - by apply wp_ret.
Qed.

Lemma digits_suffix fmt : forall n count, (digits_loop fmt n count).2 `suffix_of` fmt.
Proof. induction fmt as [|b fmt IH]; intros n count; cbn [digits_loop]; [done|]. case_match; [by apply suffix_cons_r|done]. Qed.

Lemma quiet_width fmt spec vm : wp (parse_width fmt spec) vm (fun vm' r => vm' = vm /\ r.2 `suffix_of` fmt) (fun vm' _ => vm' = vm).
Proof.
  unfold parse_width. pose proof (digits_suffix fmt 0 0) as Hs. destruct (digits_loop fmt 0 0) as [[w c] rest].
  case_match; [by apply wp_raise|by apply wp_ret].
Qed.

Lemma quiet_precision fmt spec vm : wp (parse_precision fmt spec) vm (fun vm' r => vm' = vm /\ r.2 `suffix_of` fmt) (fun vm' _ => vm' = vm).
Proof.
  unfold parse_precision. destruct fmt as [|b fmt]; [by apply wp_ret|]. destruct (Z.eq_dec b 46) as [->|Hb].
  - pose proof (digits_suffix fmt 0 0) as Hs. destruct (digits_loop fmt 0 0) as [[p c] rest]. case_match; [by apply wp_raise|].
    apply wp_ret. split; [done|]. by apply suffix_cons_r.
  - destruct b as [|p|p]; try (by apply wp_ret). do 6 (destruct p as [p|p|]; try (by apply wp_ret)). done.
Qed.

(** No argument has a [__tostring] metamethod, nor gets one while strings are interned. *)
Definition no_tostring (vm : Vm) (args : list RawValue) : Prop :=
  forall i vm', strings_kept vm vm' -> get_metamethod (arg args i) MToString vm' = (vm', Ret None).

Lemma no_tostring_at vm args :
  (forall i h, arg args i <> VUserdata h) -> (forall i, get_metamethod (arg args i) MToString vm = (vm, Ret None)) -> no_tostring vm args.
Proof.
  intros Hu H i vm' Hk. specialize (H i). specialize (Hu i). pose proof (sk_tables _ _ Hk) as Ht. destruct Hk as [_ Hk].
  pose proof (f_equal (fun m => string_metatable (vm_heap m)) Hk) as E1. pose proof (f_equal (fun m => vector_metatable (vm_heap m)) Hk) as E2.
  pose proof (f_equal (fun m => metamethod_names (vm_heap m)) Hk) as E3. cbn in E1, E2, E3.
  assert (metatable_of vm' (arg args i) = metatable_of vm (arg args i)) as Hm.
  { unfold metatable_of. destruct (arg args i); try done; [by rewrite Ht|by edestruct Hu]. }
  unfold get_metamethod, lbind, lget in H |- *. rewrite Hm, E3. destruct (metatable_of vm (arg args i)) as [mt|]; [|done]. rewrite Ht.
  destruct (metamethod_names (vm_heap vm) !! _) as [[key|]|]; try discriminate H. unfold lret in H |- *. by injection H as ->.
Qed.

(** The machine has at most interned strings since [vm], and has room for [n] more. *)
Definition interned (vm : Vm) (n : Z) (vm' : Vm) : Prop := strings_kept vm vm' /\ strings_fit n vm'.

Lemma value_quiet args i vm : numbers_ok args -> quiet (value_to_string (arg args i)) vm.
Proof.
  intros [Hn Hv]. specialize (Hn i). specialize (Hv i). unfold value_to_string. apply wp_bind, wp_get.
  destruct (arg args i); try (by apply quiet_ret); try (case_match; by apply quiet_ret).
  - by apply quiet_number, Hn.
  - specialize (Hv _ _ _ eq_refl). rewrite !Forall_cons in Hv. destruct Hv as (Hx & Hy & Hz & _).
    do 3 (apply quiet_bind; [by apply quiet_number|intros ?]). by apply quiet_ret.
Qed.

Lemma star_spec args i value vm vm' n :
  numbers_ok args -> no_tostring vm args -> args !! i = Some value -> 1 <= n -> interned vm n vm' ->
  wp (format_star_arg value) vm' (fun vm'' _ => interned vm (n - 1) vm'') (fun vm'' _ => strings_kept vm vm'').
Proof.
  intros Ha Ht Hi Hn [Hk Hf]. assert (value = arg args i) as -> by (unfold arg; by rewrite Hi).
  unfold format_star_arg. apply wp_bind. cbn [builtin_tostring]. apply wp_bind.
  assert (wp (tostring_bytes (arg args i)) vm' (fun vm'' _ => vm'' = vm') (fun vm'' _ => vm'' = vm')) as Hs.
  { unfold tostring_bytes. apply wp_bind. unfold wp at 1. rewrite (Ht i vm' Hk). cbn. by apply value_quiet. }
  eapply wp_mono; [exact Hs| |by intros vm'' e ->]. intros vm'' bytes ->. apply wp_bind.
  eapply wp_mono; [by apply (wp_intern_fit n)| |intros vm'' e (Hk' & _ & _); by etransitivity].
  intros vm'' s (Hk' & Hf' & _). apply wp_ret, wp_bind, wp_get, wp_ret. split; [by etransitivity|done].
Qed.

Lemma conversion_spec conv spec args i vm vm' n :
  numbers_ok args -> no_tostring vm args -> 1 <= n -> interned vm n vm' ->
  wp (format_conversion conv spec args i) vm' (fun vm'' _ => interned vm (n - 1) vm'') (fun vm'' _ => strings_kept vm vm'').
Proof.
  intros Ha Ht Hn [Hk Hf]. destruct (Z.eq_dec conv 42) as [->|Hc].
  - change (wp (if has_modifiers spec then lraise "invalid conversion '%*' to 'format'"
      else match args !! i with None => lraise "missing argument to 'format'" | Some value => format_star_arg value end) vm'
      (fun vm'' _ => interned vm (n - 1) vm'') (fun vm'' _ => strings_kept vm vm'')).
    case_match; [by apply wp_raise|]. destruct (args !! i) as [value|] eqn:Ei; [|by apply wp_raise]. by eapply star_spec.
  - eapply wp_mono; [by apply quiet_conversion| |by intros vm'' e ->]. intros vm'' r ->.
    split; [done|]. apply (strings_fit_le n); [lia|done].
Qed.

(** What the loop builds: the limit on strings holds after every conversion; the literal bytes of
    the format come on top. *)
Lemma format_loop_spec args vm : numbers_ok args -> no_tostring vm args -> forall fuel fmt i out vm' n,
  (length fmt < fuel)%nat -> len fmt < n -> interned vm n vm' ->
  wp (format_loop fuel fmt args i out) vm'
    (fun vm'' r => interned vm 1 vm'' /\ len r <= Z.max (len out) max_string_bytes + len fmt) (fun vm'' _ => strings_kept vm vm'').
Proof.
  intros Ha Ht. induction fuel as [|fuel IH]; intros fmt i out vm' n Hf Hn Hv; [lia|]. cbn [format_loop].
  destruct fmt as [|b rest].
  { apply wp_ret. change (len []) with 0 in *. split; [|lia]. split; [apply Hv|]. apply (strings_fit_le n); [lia|apply Hv]. }
  cbn [length] in Hf. rewrite len_cons in Hn.
  assert (forall rest' i' out' vm'', rest' `suffix_of` rest -> len out' <= Z.max (len out) max_string_bytes + 1 -> interned vm (n - 1) vm'' ->
    wp (format_loop fuel rest' args i' out') vm'' (fun vm'' r => interned vm 1 vm'' /\ len r <= Z.max (len out) max_string_bytes + len (b :: rest)) (fun vm'' _ => strings_kept vm vm'')) as Hgo.
  { intros rest' i' out' vm'' Hsuf Hlen Hv'. apply suffix_length in Hsuf as Hl. eapply wp_mono; [apply (IH rest' i' out' vm'' (n - 1))| |done]; [lia|unfold len in *; lia|done|].
    intros vm3 r [Hv3 Hr]. split; [done|]. rewrite len_cons. unfold len in *. lia. }
  assert (interned vm (n - 1) vm') as Hless by (destruct Hv; split; [done|]; apply (strings_fit_le n); [lia|done]). pose proof (proj1 Hv) as Hk.
  case_match; [apply Hgo; [done| |done]; unfold len; rewrite length_app; cbn; lia|].
  apply wp_bind. eapply wp_mono; [apply quiet_flags| |by intros ? ? ->]. intros vm1 [spec1 rest1] [-> H1]. cbn [snd] in H1.
  apply wp_bind. eapply wp_mono; [apply quiet_width| |by intros ? ? ->]. intros vm2 [spec2 rest2] [-> H2]. cbn [snd] in H2.
  apply wp_bind. eapply wp_mono; [apply quiet_precision| |by intros ? ? ->]. intros vm3 [spec3 rest3] [-> H3]. cbn [snd] in H3.
  assert (rest3 `suffix_of` rest) as Hsuf by (by do 2 (etransitivity; [eassumption|])).
  destruct rest3 as [|conv rest4]; [by apply wp_raise|]. assert (rest4 `suffix_of` rest) as Hsuf4 by (by eapply suffix_cons_l).
  case_match; [apply Hgo; [done| |done]; unfold len; rewrite length_app; cbn; lia|].
  apply wp_bind. pose proof (len_nonneg rest). eapply wp_mono; [apply (conversion_spec _ _ _ _ vm vm' n); [done|done|lia|done]| |done]. intros vm4 piece Hv4.
  apply wp_bind. pose proof (proj1 Hv4). apply wp_growth; [|done|done]. intros Hm. apply Hgo; [done|lia|done].
Qed.

Lemma signed_conversion conv spec value :
  int_conversion conv -> int_signed conv = true -> 0 <= fs_width spec -> is_i64 value ->
  exists ds, trim_whitespace (format_signed spec value) = int_prefix conv spec value ++ ds /\ int_digits conv spec value ds /\
    (~ (value = 0 /\ fs_precision spec = Some 0) -> i64_parse (int_prefix conv spec value ++ ds) = Some value).
Proof.
  intros Hc Hs Hw Hv. unfold is_i64 in Hv. assert (int_base conv = 10 /\ int_magnitude conv value = Z.abs value) as [Hb Hm].
  { unfold int_base, int_magnitude. rewrite Hs. unfold int_signed in Hs. split; [|done]. repeat case_match; lia. }
  pose proof (decimal_text_writes (Z.abs value) ltac:(lia)) as Ht.
  assert (Forall (int_digit conv) (decimal_text (Z.abs value))) as Hd.
  { destruct Ht as [Ht _]. eapply Forall_impl; [exact Ht|]. intros b Hb'. split; [by rewrite Hb|]. apply digit_10, is_digit_range in Hb'. case_match; lia. }
  unfold format_signed. cbn zeta. set (ds := apply_int_precision _ _ _).
  destruct (emit_trimmed spec (sign_prefix spec (value <? 0)) ds (no_precision spec) Hw) as (k & Hk & ->).
  { unfold ds, apply_int_precision. assert (forall l, Forall (int_digit conv) l -> Forall solid l) as Hsolid.
    { intros l Hl. eapply Forall_impl; [exact Hl|]. intros b [Hb' _]. by eapply digit_solid. }
    repeat case_match; auto. apply Forall_app. split; [by apply Forall_replicate|auto]. }
  { unfold sign_prefix. repeat case_match; (by left) || (right; by repeat constructor). }
  destruct (int_digits_padded conv spec value (decimal_text (Z.abs value)) 0 k) as [Hint Hwr]; [done|done|by rewrite Hb, Hm|done| |done|].
  { replace (conv =? 111) with false; [done|]. unfold int_signed in Hs. lia. }
  fold ds in Hint, Hwr. cbn [replicate app] in Hint, Hwr. exists (replicate k 48 ++ ds).
  assert ((if decide (sign_prefix spec (value <? 0) = [32]) then [] else sign_prefix spec (value <? 0)) = int_prefix conv spec value) as ->.
  { unfold int_prefix, sign_prefix. rewrite Hs. destruct (value <? 0), (fs_plus spec), (fs_space spec); done. }
  split; [done|]. split; [done|]. intros Hp. rewrite Hb, Hm in Hwr.
  rewrite (from_signed _ (Z.abs value) (value <? 0)); [f_equal; destruct (Z.ltb_spec value 0); lia|by apply Hwr|destruct (Z.ltb_spec value 0); lia|].
  unfold int_prefix. rewrite Hs. destruct (value <? 0); [by left|right]. split; [|done]. case_match; tauto.
Qed.

Lemma unsigned_conversion conv spec value upper prefix :
  int_conversion conv -> int_signed conv = false -> 0 <= fs_width spec -> is_i64 value -> upper = (conv =? 88) ->
  prefix = (if fs_alt spec then if conv =? 111 then [48] else if conv =? 117 then [] else [48; conv] else []) ->
  exists ds, trim_whitespace (format_unsigned spec (as_u64 value) (int_base conv) upper prefix) = int_prefix conv spec value ++ ds /\ int_digits conv spec value ds.
Proof.
  intros Hc Hs Hw Hv Hu Hp. destruct (int_magnitude_range conv value Hv) as [Hm Hz]. unfold int_magnitude in Hm, Hz. rewrite Hs in Hm, Hz.
  unfold format_unsigned. cbn zeta. set (text := if int_base conv =? 8 then _ else _).
  assert (writes (int_base conv) text (as_u64 value) /\ Forall (int_digit conv) text) as [Ht Hd].
  { assert (writes (int_base conv) text (as_u64 value) /\ Forall (fun b => if conv =? 88 then ~ 97 <= b else ~ (65 <= b /\ b <= 90)) text) as [Ht Hd].
    { unfold text, int_base. unfold int_conversion in Hc. destruct (Z.eqb_spec conv 111) as [->|N1]; cbn [Z.eqb Pos.eqb].
      - split; [apply radix_text_writes; lia|exact (radix_case 8 false ltac:(lia) 22 (as_u64 value) ltac:(lia))].
      - destruct ((conv =? 120) || (conv =? 88)); cbn [Z.eqb Pos.eqb].
        + split; [apply radix_text_writes; lia|]. rewrite Hu. unfold radix_text. pose proof (radix_case 16 (conv =? 88) ltac:(lia) 22 (as_u64 value) ltac:(lia)). done.
        + pose proof (decimal_text_writes (as_u64 value) ltac:(lia)) as Ht. split; [done|]. destruct Ht as [Ht _]. eapply Forall_impl; [exact Ht|].
          intros b Hb. apply digit_10, is_digit_range in Hb. destruct (conv =? 88); lia. }
    split; [done|]. destruct Ht as [Ht _]. apply Forall_forall. intros b Hb. rewrite Forall_forall in Ht, Hd. split; [exact (Ht b Hb)|exact (Hd b Hb)]. }
  assert (conv = 117 \/ conv = 111 \/ conv = 120 \/ conv = 88) as Hcase.
  { unfold int_conversion in Hc. rewrite !elem_of_cons, elem_of_nil in Hc. destruct Hc as [->|[->|Hc]]; [done..|tauto]. }
  clearbody text. replace (as_u64 value =? 0) with (value =? 0) by lia. set (ds := apply_int_precision text (fs_precision spec) (value =? 0)).
  set (j := (if (conv =? 111) && fs_alt spec && negb (bool_decide (head ds = Some 48)) then 1%nat else 0%nat)).
  match goal with |- context [emit_padded spec ?p ?d _] => assert (p = int_prefix conv spec value) as -> end.
  { unfold int_prefix. rewrite Hs, Hp. by destruct Hcase as [->|[->|[->| ->]]], (fs_alt spec), (value =? 0). }
  match goal with |- context [emit_padded spec _ ?d _] => assert (d = replicate j 48 ++ ds) as -> end.
  { unfold j. rewrite Hp. by destruct Hcase as [->|[->|[->| ->]]], (fs_alt spec), (bool_decide (head ds = _)). }
  destruct (int_digits_padded conv spec value text j 0) as [Hint0 _]; [done|done|unfold int_magnitude; by rewrite Hs|done|done|done|].
  destruct (emit_trimmed spec (int_prefix conv spec value) (replicate j 48 ++ ds) (no_precision spec) Hw) as (k & Hk & ->).
  { eapply Forall_impl; [exact (id_digits _ _ _ _ Hint0)|]. intros b [Hb _]. by eapply digit_solid. }
  { right. unfold int_prefix. rewrite Hs. destruct Hcase as [->|[->|[->| ->]]], (fs_alt spec), (value =? 0); by repeat constructor. }
  rewrite decide_False by (unfold int_prefix; rewrite Hs; by destruct Hcase as [->|[->|[->| ->]]], (fs_alt spec), (value =? 0)).
  eexists. split; [done|]. by apply (int_digits_padded conv spec value text j k); [done|done|unfold int_magnitude; rewrite Hs|..].
Qed.

(** C31: The integer conversions of [string.format] print what C prints. For each of [%d], [%i],
    [%u], [%o], [%x] and [%X], whatever the flags, the width and the precision, the conversion of
    an integer argument succeeds and leaves the machine as it is, and its text is at least as wide
    as the width. Its padding with spaces apart, the text is the sign or, under the [#] flag of
    [%x] and [%X], the [0x] or [0X] of a number that is not zero, and behind it digits of the base
    in the case of the conversion, at least as many as the precision, that read back as the number:
    its magnitude for [%d] and [%i], its value modulo 2^64 for the others. Zero at precision zero
    prints no digits, but a [0] under the [#] flag of [%o], whose digits always begin with a [0].
    The text of [%d] and [%i], the sign with it, reads back as the signed number. *)
Theorem format_integers_read_back conv spec args i value vm :
  int_conversion conv -> 0 <= fs_width spec -> arg_int args i = Some value -> is_i64 value ->
  exists text ds, format_conversion conv spec args i vm = (vm, Ret text) /\ fs_width spec <= len text /\
    trim_whitespace text = int_prefix conv spec value ++ ds /\ int_digits conv spec value ds /\
    (int_signed conv = true -> ~ (value = 0 /\ fs_precision spec = Some 0) -> i64_parse (trim_whitespace text) = Some value).
Proof.
  intros Hc Hw Ha Hv. assert (forall pre ds az, fs_width spec <= len (emit_padded spec pre ds az)) as Hlen.
  { intros pre ds az. destruct (emit_shape spec pre ds az Hw) as (a & k & c & _ & _ & ->). lia. }
  assert (format_int_arg args i vm = (vm, Ret value)) as Hint by (unfold format_int_arg; by rewrite Ha).
  destruct (int_signed conv) eqn:Hs.
  - destruct (signed_conversion conv spec value Hc Hs Hw Hv) as (ds & Htext & Hds & Hparse). exists (format_signed spec value), ds.
    rewrite Htext. split_and!; [|apply Hlen|done|done|auto]. unfold format_conversion. unfold int_signed in Hs. rewrite Hs. unfold lbind. by rewrite Hint.
  - destruct (unsigned_conversion conv spec value _ _ Hc Hs Hw Hv eq_refl eq_refl) as (ds & Htext & Hds). eexists _, ds.
    split_and!; [|apply Hlen|exact Htext|done|done]. unfold int_conversion in Hc. rewrite !elem_of_cons, elem_of_nil in Hc.
    destruct Hc as [->|[->|[->|[->|[->|[->|[]]]]]]]; try discriminate Hs; cbn [format_conversion]; unfold format_conversion; cbn [Z.eqb Pos.eqb orb];
      unfold lbind; rewrite Hint; unfold int_base; cbn [Z.eqb Pos.eqb orb]; try done; by destruct (fs_alt spec).
Qed.

(** C26: [%q] writes a string literal: in the result of [string.format] with the format [%q], the
    bytes between the quotes decode to the bytes of the argument, whatever they are, and when
    those are UTF-8 the lexer reads the result as one string token whose value is the argument. *)
Theorem format_quoted_round_trip vm args bytes :
  strings_ok vm -> text_is vm (arg args 0) [37; 113] -> text_is vm (arg args 1) bytes ->
  wp (string_format args) vm
    (fun vm' r => strings_kept vm vm' /\ exists s body, r = [VString s] /\ string_bytes vm' s = 34 :: body ++ [34] /\
       fixup_quoted_string_bytes body = Done (Some bytes) /\
       (forall value, Forall is_char value -> bytes = utf8 value -> len (string_bytes vm' s) < U32_MAX ->
          exists tok eof, lex_all (S (length (string_bytes vm' s))) (Lexer_new (string_bytes vm' s)) = Done [tok; eof] /\
            kind tok = QuotedString /\ kind eof = Eof /\ string_value_from_token_text tok = Done (Some value)))
    (fun vm' e => strings_kept vm vm' /\ e ∈ (["string.format result too large"; "memory limit exceeded"; "out of memory interning a string"]%string : list string)).
Proof.
  intros Hok Hfmt Ht. pose proof Ht as (_ & _ & H8 & _). unfold string_format. apply wp_bind, (wp_arg_text args 0 [37; 113]); [done|].
  apply wp_bind. set (piece := 34 :: quote_bytes bytes ++ [34]).
  assert (wp (format_loop 3 [37; 113] args 1 []) vm (fun vm' r => vm' = vm /\ r = piece)
    (fun vm' e => vm' = vm /\ e ∈ (["string.format result too large"; "memory limit exceeded"]%string : list string))) as Hloop.
  { change (wp (let+ p := format_quoted args 1 in let+ _ := meter_string_growth (len ([] ++ p)) "string.format" in lret ([] ++ p)) vm
      (fun vm' r => vm' = vm /\ r = piece) (fun vm' e => vm' = vm /\ e ∈ (["string.format result too large"; "memory limit exceeded"]%string : list string))).
    apply wp_bind. unfold format_quoted. apply wp_bind.
    assert (wp (format_string_arg args 1) vm (fun vm' r => vm' = vm /\ r = bytes) (fun _ _ => False)) as Harg.
    { destruct Ht as (Ht & Hn & _). unfold format_string_arg. destruct (arg args 1) eqn:Ea; try discriminate Ht; cbn [text_of] in Ht.
      - unfold number_bytes. rewrite Ht. by apply wp_ret.
      - apply wp_ret. by injection Ht.
      - apply wp_bind, wp_get, wp_ret. by injection Ht. }
    eapply wp_mono; [exact Harg| |done]. intros vm' r [-> ->]. apply wp_ret. apply wp_bind, wp_growth; [|split; [done|among]|split; [done|among]].
    intros _. by apply wp_ret. }
  eapply wp_mono; [exact Hloop| |]; [|intros vm' e [-> He]; split; [done|]; set_solver]. intros vm1 r [-> ->].
  eapply wp_mono; [by apply wp_intern_result| |intros vm' e [Hk ->]; split; [done|among]]. intros vm' r (s & -> & Hk & Hs). split; [done|].
  exists s, (quote_bytes bytes). split; [done|]. split; [done|]. split; [by apply fixup_unescape, quote_unescape|].
  intros value Hv -> Hlen. rewrite Hs in Hlen |- *. destruct (quoted_utf8 value Hv Hlen) as [Hvalid Hnz].
  destruct (lex_quoted (quote_bytes (utf8 value)) (quote_inert _ H8) Hvalid Hnz) as (loc & eof & Hlex & Heof).
  exists (quoted_token loc (quote_bytes (utf8 value))), eof. split; [exact Hlex|]. split; [done|]. split; [done|].
  unfold string_value_from_token_text. cbn [kind text quoted_token set_quote_style with_derived_text default].
  rewrite (fixup_unescape _ (utf8 value)) by (by apply quote_unescape). cbn. by rewrite ast_string_from_utf8.
Qed.

(** The loop, and the interning of its result. *)
Lemma string_format_spec vm args fmt :
  strings_fit (len fmt + 1) vm -> 0 <= max_string_bytes -> text_is vm (arg args 0) fmt -> numbers_ok args -> no_tostring vm args ->
  wp (string_format args) vm
    (fun vm' r => strings_kept vm vm' /\ exists s text, r = [VString s] /\ heap_string (vm_heap vm') s = Some text /\ len text <= max_string_bytes + len fmt)
    (fun vm' _ => strings_kept vm vm').
Proof.
  intros Hok Hm Ht Ha Hs. unfold string_format. apply wp_bind, (wp_arg_text args 0 fmt); [done|]. apply wp_bind.
  eapply wp_mono; [apply (format_loop_spec args vm Ha Hs (S (length fmt)) fmt 1 [] vm (len fmt + 1)); [lia|lia|by split]| |done].
  intros vm1 out [[Hk Hf] Hlen]. change (len []) with 0 in Hlen.
  unfold intern_result. apply wp_bind. eapply wp_mono; [apply (wp_intern_fit 1); [lia|done]| |intros vm' e (Hk' & _); by etransitivity].
  intros vm' s (Hk' & _ & Hs'). apply wp_ret. split; [by etransitivity|]. exists s, out. split; [done|]. split; [done|lia].
Qed.
End Formatting.

Section Safety.
Context {AL : Allocator} {LAWS : AllocatorLaws AL} {MA : MapAllocator} {TS : TableSizes} {HS : HeapSizes} {HSL : HeapSizesLaws HS}
  {BL : ByteLimits} {LC : LuaCode} {NB : NanBits}.

End Safety.

(** ** At concrete values *)

Section Sample.
#[local] Existing Instance exact_allocator.
#[local] Existing Instance doubling_map.
#[local] Existing Instance sizes64.
#[local] Existing Instance lib_sizes.

Definition no_lua : LuaCode := {| call_value _ _ := lret []; userdata_metatable _ _ := None |}.
Definition keep_nan : NanBits := {| nan_f32 n := n; nan_f64 n := n |}.
#[local] Existing Instance no_lua.
#[local] Existing Instance keep_nan.

(** The string behind the first handle of a fresh machine, and a second one behind it. *)
Definition second_sh : RawGc := mkGc 1 0 1.
Definition two_strings (a b : list Z) : Vm := (intern_str b "no memory" (intern_str a "no memory" start_vm).1).1.

Definition eight_bytes : ByteLimits := {| max_string_bytes := 8; max_buffer_bytes := 8 |}.

(** With strings limited to eight bytes, the format ["%s123456"] makes one of fourteen out of a
    string of eight: the literal text behind the last conversion is not metered. *)
Example format_exceeds_limit :
  let vm := two_strings (bytes_of "%s123456") (bytes_of "ABCDEFGH") in
  match string_format (BL := eight_bytes) [VString sh; VString second_sh] vm with
  | (vm', Ret [VString s]) => string_bytes vm' s = bytes_of "ABCDEFGH123456" /\ len (string_bytes vm' s) = 14
  | _ => False
  end.
Proof. by vm_compute. Qed.

#[local] Existing Instance sample_limits.

(** [%#08X] of -1, and [%+08d] of -42. *)
Lemma format_integers_read_back_witness :
  let spec := mkSpec false true false true true 8 None in
  (exists text ds, format_conversion 88 spec [VInteger (-1)] 0 start_vm = (start_vm, Ret text) /\ 8 <= len text /\
     trim_whitespace text = [48; 88] ++ ds /\ int_digits 88 spec (-1) ds /\
     (int_signed 88 = true -> ~ (-1 = 0 /\ fs_precision spec = Some 0) -> i64_parse (trim_whitespace text) = Some (-1))) /\
  format_conversion 88 spec [VInteger (-1)] 0 start_vm = (start_vm, Ret (bytes_of "0XFFFFFFFFFFFFFFFF")) /\
  format_conversion 100 spec [VInteger (-42)] 0 start_vm = (start_vm, Ret (bytes_of "-0000042")) /\
  format_conversion 111 (set_precision (Some 0) spec) [VInteger 0] 0 start_vm = (start_vm, Ret (bytes_of "       0")).
Proof.
  cbv zeta. split; [|by vm_compute].
  exact (format_integers_read_back 88 (mkSpec false true false true true 8 None) [VInteger (-1)] 0 (-1) start_vm ltac:(by apply (bool_decide_eq_true_1 (88 ∈ _))) ltac:(done) ltac:(done) ltac:(done)).
Defined.

Lemma intern_fit n bytes vm h :
  (intern_str bytes "no memory" vm).2 = Ret h -> 1 <= n -> strings_fit n vm -> strings_fit (n - 1) (intern_str bytes "no memory" vm).1.
Proof.
  intros Hr Hn Hf. pose proof (wp_intern_fit n bytes "no memory" vm Hn Hf) as H. unfold wp in H. rewrite Hr in H. by destruct H as (_ & Hfit & _).
Qed.

Lemma two_strings_ok a b :
  (intern_str a "no memory" start_vm).2 = Ret sh -> (intern_str b "no memory" (intern_str a "no memory" start_vm).1).2 = Ret second_sh ->
  strings_ok (two_strings a b).
Proof.
  intros Ha Hb. apply (strings_fit_ok 98); [lia|]. apply (intern_fit 99 b _ second_sh); [done|lia|]. apply (intern_fit 100 a _ sh); [done|lia|exact start_vm_fit].
Qed.

(** A letter, a quote, an accented letter, a line feed, the control character 1 and a digit. *)
Definition awkward_value : list Z := [97; 34; 233; 10; 1; 50].
Lemma awkward_chars : Forall is_char awkward_value.
Proof. unfold awkward_value, is_char, scalar. repeat constructor; lia. Qed.

Definition quoted_vm : Vm := two_strings [37; 113] (utf8 awkward_value).

Lemma quoted_vm_text a bytes : text_of quoted_vm a = Some bytes -> (forall n, a <> VNumber n) -> bytes_u8 bytes = true -> len bytes < 4611686018427387904 ->
  text_is quoted_vm a bytes.
Proof. intros Ht Hn Hb Hl. split; [done|]. split; [intros n E; by apply Hn in E|]. split; [by apply bytes_u8_spec|done]. Qed.

Lemma format_quoted_round_trip_witness :
  let args := [VString sh; VString second_sh] in
  wp (string_format args) quoted_vm
    (fun vm' r => strings_kept quoted_vm vm' /\ exists s body, r = [VString s] /\ string_bytes vm' s = 34 :: body ++ [34] /\
       fixup_quoted_string_bytes body = Done (Some (utf8 awkward_value)) /\
       (forall value, Forall is_char value -> utf8 awkward_value = utf8 value -> len (string_bytes vm' s) < U32_MAX ->
          exists tok eof, lex_all (S (length (string_bytes vm' s))) (Lexer_new (string_bytes vm' s)) = Done [tok; eof] /\
            kind tok = QuotedString /\ kind eof = Eof /\ string_value_from_token_text tok = Done (Some value)))
    (fun vm' e => strings_kept quoted_vm vm' /\ e ∈ (["string.format result too large"; "memory limit exceeded"; "out of memory interning a string"]%string : list string)) /\
  Forall is_char awkward_value.
Proof.
  split; [|exact awkward_chars].
  refine (format_quoted_round_trip quoted_vm [VString sh; VString second_sh] (utf8 awkward_value) _ _ _).
  - by apply two_strings_ok.
  - by apply quoted_vm_text.
  - by apply quoted_vm_text.
Defined.

(** [string.format(f, 7, -1.5, -1.5)] with a format of every kind of directive. *)
Definition mixed_format : list Z := bytes_of "%5.3d|%-8g|%%|*%*".
Definition mixed_args : list RawValue := [VString sh; num 7; VNumber 13832806255468478464; VNumber 13832806255468478464].

Lemma mixed_cases (P : RawValue -> Prop) : Forall P (VNil :: mixed_args) -> forall i, P (arg mixed_args i).
Proof. unfold mixed_args. rewrite !Forall_cons. intros (? & ? & ? & ? & ? & _) [|[|[|[|i]]]]; done. Qed.

Lemma mixed_numbers : numbers_ok mixed_args.
Proof.
  split.
  - intros i. apply (mixed_cases (fun v => forall n, v = VNumber n -> is_u64 n)). unfold mixed_args; rewrite !Forall_cons, Forall_nil.
    split_and!; try done; intros n E; injection E as <-; by vm_compute.
  - intros i. apply (mixed_cases (fun v => forall x y z, v = VVector x y z -> Forall is_u64 [f64_of_f32 x; f64_of_f32 y; f64_of_f32 z])).
    unfold mixed_args; rewrite !Forall_cons, Forall_nil. by split_and!.
Qed.

Lemma mixed_no_tostring : no_tostring (string_vm mixed_format) mixed_args.
Proof.
  apply no_tostring_at; intros i.
  - apply (mixed_cases (fun v => forall h, v <> VUserdata h)). unfold mixed_args; rewrite !Forall_cons, Forall_nil. by split_and!.
  - apply (mixed_cases (fun v => get_metamethod v MToString (string_vm mixed_format) = (string_vm mixed_format, Ret None))). unfold mixed_args; rewrite !Forall_cons, Forall_nil. by split_and!.
Qed.

End Sample.
