(* ===== verification/BaseLib.v ===== *)
(** * BaseLib: the base library

    Model of [ruau-vm/src/builtins/base_lib.rs]: [type], [typeof], [assert], [setmetatable],
    [getmetatable], [tonumber], [rawequal], [rawget], [rawset], [rawlen], [select], [next] and the
    step of [ipairs]; [tostring] is in [FormatLib]. Left out are [print], which writes to the
    host; [error], [pcall] and [xpcall], which carry located error values; [pairs] and [ipairs],
    which allocate the closures of their steps; and [collectgarbage].

    [tonumber] reads back what [tostring] writes, and with a base what the grammar of C's
    [strtoull] admits; stepping with [next] visits the entries of a table once each; raw writes
    change one key, and no protected metatable is replaced. *)

From Stdlib Require Import ZArith Lia.
From stdpp Require Import base numbers list strings option gmap.
From S2P Require Import Prelude Builder AstString RustVec Arena ArenaFacts ArenaTheorems Value Registry LuaTable LuaTableFacts LuaTableTheorems GcObjects Gc GcSweep RustExec Lexer Literal LiteralFacts LiteralTheorems LibHeap TableLib LibHeapFacts TableLibFacts BufferLib BufferFacts FloatText FloatTextTheorems LibStrings Utf8Lib StringLib StringTheorems FormatLib.

(** ** Numbers *)

(** [f.fract() == 0.0]. *)
Definition has_no_fraction (b : Z) : bool :=
  negb (f64_is_nan b) && negb (f64_is_infinite b) && (f64_units b mod F64_ONE =? 0).

Section Sum.
Context {FU : FloatUnspecified}.

(** [b + 1.0]. *)
Definition f64_succ (b : Z) : Z :=
  if f64_is_nan b then nan_produced
  else if f64_is_infinite b then b
  else
    let s := (if f64_neg b then - f64_units b else f64_units b) + F64_ONE in
    if s <? 0 then SIGN_BIT + f64_of_ratio (- s) F64_ONE else f64_of_ratio s F64_ONE.
End Sum.

(** [usize] positions of [str_to_number_in_base] are suffixes here. *)
Definition is_space (b : Z) : bool := (b =? 32) || (b =? 9) || (b =? 10) || (b =? 11) || (b =? 12) || (b =? 13).
Fixpoint skip_space (s : list Z) : list Z :=
  match s with b :: s' => if is_space b then skip_space s' else s | [] => [] end.

(** The value of a digit in the bases up to 36. *)
Definition base_digit (b : Z) : option Z :=
  if between 48 57 b then Some (b - 48)
  else if between 97 122 b then Some (b - 97 + 10)
  else if between 65 90 b then Some (b - 65 + 10)
  else None.

(** The digits at the head: their value, and what is left. *)
Fixpoint base_digits (base : Z) (s : list Z) (value : Z) : Z * list Z :=
  match s with
  | b :: s' =>
      match base_digit b with
      | Some digit => if base <=? digit then (value, s) else base_digits base s' (as_u64 (as_u64 (value * base) + digit))
      | None => (value, s)
      end
  | [] => (value, [])
  end.

Definition skip_prefix (base : Z) (s : list Z) : list Z :=
  match s with
  | 48 :: x :: s' => if (base =? 16) && ((x =? 120) || (x =? 88)) then s' else s
  | _ => s
  end.

Definition str_to_number_in_base (s : list Z) (base : Z) : option Z :=
  let s := skip_space s in
  let negate := is_byte (head s) 45 in
  let s := if is_byte (head s) 43 || is_byte (head s) 45 then drop 1 s else s in
  let s := skip_prefix base s in
  let '(value, rest) := base_digits base s 0 in
  if (length rest =? length s)%nat then None
  else match skip_space rest with
       | [] => Some (f64_of_u64 (if negate then as_u64 (- value) else value))
       | _ => None
       end.

Definition TYPE_KEY : list Z := [95; 95; 116; 121; 112; 101].

Definition rejection_message (r : KeyRejection) : string :=
  match r with RejectNil => "table index is nil" | RejectNaN => "table index is NaN" end.

Section BaseLib.
Context {AL : Allocator} {MA : MapAllocator} {TS : TableSizes} {HS : HeapSizes} {LC : LuaCode} {FU : FloatUnspecified}.

(** ** Types *)

Definition builtin_type (args : list RawValue) : LM (list RawValue) :=
  match args with
  | [] => lraise "missing argument to 'type'"
  | value :: _ =>
      let+ name := intern_str (bytes_of (type_name value)) "out of memory interning a type name" in
      lret [VString name]
  end.

(** The custom type name: not from a table's own metatable. *)
Definition type_field (vm : Vm) (value : RawValue) : option RawGc :=
  match value with
  | VTable _ => None
  | _ =>
      mt ← metatable_of vm value;
      key ← interner_lookup (vm_heap vm) TYPE_KEY;
      match table_of vm mt with
      | Some t => match LuaTable.get t (VString key) with VString name => Some name | _ => None end
      | None => None
      end
  end.

Definition builtin_typeof (args : list RawValue) : LM (list RawValue) :=
  match args with
  | [] => lraise "missing argument to 'typeof'"
  | value :: _ =>
      let+ vm := lget in
      match type_field vm value with
      | Some name => lret [VString name]
      | None =>
          let+ name := intern_str (bytes_of (type_name value)) "out of memory interning a type name" in
          lret [VString name]
      end
  end.

(** The bytes of a message. *)
Definition text_message (bytes : list Z) : string :=
  String.string_of_list_ascii (map (fun b => Ascii.ascii_of_N (Z.to_N b)) bytes).

Definition builtin_assert (args : list RawValue) : LM (list RawValue) :=
  match args with
  | [] => lraise "missing argument #1"
  | condition :: _ =>
      if truthy condition then lret args
      else
        match args !! 1%nat with
        | None | Some VNil => lraise "assertion failed!"
        | Some (VString handle) => let+ vm := lget in lraise (lossy (string_bytes vm handle))
        | Some (VNumber n) => let+ text := number_bytes n in lraise (text_message text)
        | Some (VInteger i) => lraise (text_message (i64_text i))
        | Some other => lraise ("invalid argument #2 to 'assert' (string expected, got " +:+ type_name other +:+ ")")
        end
  end.

(** ** Metatables *)

Definition builtin_setmetatable (args : list RawValue) : LM (list RawValue) :=
  match arg args 0 with
  | VTable handle =>
      let set (mt : option RawGc) : LM (list RawValue) :=
        let+ t := resident handle "setmetatable on a non-resident table" in
        let+ _ := reject_protected (metatable t) "cannot change a protected metatable" in
        let+ _ := require_writable handle in
        let+ _ := table_mut handle "setmetatable on a non-resident table" (fun t m => Ok ((LuaTable.set_metatable mt t, m), tt)) in
        lret [VTable handle] in
      match args !! 1%nat with
      | Some (VTable mt) => set (Some mt)
      | None | Some VNil => set None
      | Some _ => lraise "bad argument #2 to 'setmetatable' (nil or table expected)"
      end
  | _ => lraise "bad argument #1 to 'setmetatable' (table expected)"
  end.

Definition builtin_getmetatable (args : list RawValue) : LM (list RawValue) :=
  match args with
  | [] => lraise "missing argument #1"
  | value :: _ =>
      let+ vm := lget in
      match metatable_of vm value with
      | None => lret [VNil]
      | Some mt => let+ protection := metatable_protection mt in lret [default (VTable mt) protection]
      end
  end.

(** ** [tonumber] *)

(** The base, [None] for an argument that is no number. *)
Definition tonumber_base (vm : Vm) (args : list RawValue) : option Z :=
  match args !! 1%nat with
  | None | Some VNil => Some 10
  | Some (VNumber n) => Some (f64_as_i64 n)
  | Some (VInteger i) => Some i
  | Some (VString handle) => n ← (text ← heap_string (vm_heap vm) handle; str_to_number text); Some (f64_as_i64 n)
  | Some _ => None
  end.

Definition or_nil (n : option Z) : RawValue := match n with Some n => VNumber n | None => VNil end.

Definition builtin_tonumber (args : list RawValue) : LM (list RawValue) :=
  let+ vm := lget in
  match tonumber_base vm args with
  | None => lraise "bad argument #2 to 'tonumber' (number expected)"
  | Some base =>
      if base =? 10 then
        match args with
        | [] => lraise "missing argument #1"
        | first :: _ =>
            lret [match first with
                  | VNumber n => VNumber n
                  | VInteger i => VNumber (f64_of_i64 i)
                  | VString handle => or_nil (text ← heap_string (vm_heap vm) handle; str_to_number text)
                  | _ => VNil
                  end]
        end
      else if negb ((2 <=? base) && (base <=? 36)) then lraise "bad argument #2 to 'tonumber' (base out of range)"
      else
        let+ bytes := match arg args 0 with
                      | VString handle => lret (heap_string (vm_heap vm) handle)
                      | VNumber n => let+ text := number_bytes n in lret (Some text)
                      | VInteger i => lret (Some (i64_text i))
                      | _ => lraise "bad argument #1 to 'tonumber' (string expected)"
                      end in
        lret [or_nil (b ← bytes; str_to_number_in_base b base)]
  end.

(** ** Raw access *)

Definition builtin_rawequal (args : list RawValue) : LM (list RawValue) :=
  match args !! 0%nat, args !! 1%nat with
  | None, _ => lraise "missing argument #1"
  | _, None => lraise "missing argument #2"
  | Some a, Some b => lret [VBoolean (raw_equal a b)]
  end.

Definition builtin_rawget (args : list RawValue) : LM (list RawValue) :=
  match arg args 0 with
  | VTable handle =>
      let+ vm := lget in
      lret [match table_of vm handle with Some t => LuaTable.get t (arg args 1) | None => VNil end]
  | _ => lraise "bad argument #1 to 'rawget' (table expected)"
  end.

Definition builtin_rawset (args : list RawValue) : LM (list RawValue) :=
  match arg args 0 with
  | VTable handle =>
      let key := arg args 1 in
      match key_rejection key with
      | Some r => lraise (rejection_message r)
      | None =>
          let value := arg args 2 in
          let+ _ := require_writable handle in
          let+ set := table_mut handle "rawset on a non-resident table" (fun t m => let? r := LuaTable.set t m key value in Ok (r.1, r.2)) in
          if (set : bool) then lret [VTable handle] else lraise "table index is invalid"
      end
  | _ => lraise "bad argument #1 to 'rawset' (table expected)"
  end.

Definition builtin_rawlen (args : list RawValue) : LM (list RawValue) :=
  let+ vm := lget in
  match arg args 0 with
  | VTable handle => lret [VNumber (f64_of_u64 (match table_of vm handle with Some t => LuaTable.table_length t | None => 0 end))]
  | VString handle => lret [VNumber (f64_of_u64 (len (string_bytes vm handle)))]
  | _ => lraise "bad argument #1 to 'rawlen' (table or string expected)"
  end.

(** ** [select] *)

Definition select_bad : string := "bad argument #1 to 'select' (number expected)".

Definition select_index (vm : Vm) (selector : RawValue) : option Z :=
  match selector with
  | VInteger i => Some i
  | VNumber f => if has_no_fraction f then Some (f64_as_i64 f) else None
  | VString handle =>
      f ← (text ← heap_string (vm_heap vm) handle; str_to_number text);
      if has_no_fraction f then Some (f64_as_i64 f) else None
  | _ => None
  end.

Definition is_count_selector (vm : Vm) (selector : RawValue) : bool :=
  match selector with
  | VString handle => bool_decide (heap_string (vm_heap vm) handle ≫= head = Some 35)
  | _ => false
  end.

Definition builtin_select (args : list RawValue) : LM (list RawValue) :=
  let+ vm := lget in
  let selector := arg args 0 in
  let n := len args in
  if is_count_selector vm selector then lret [VNumber (f64_of_i64 (n - 1))]
  else
    match select_index vm selector with
    | None => lraise select_bad
    | Some index =>
        let index := if index <? 0 then as_i64 (index + n) else if n <? index then n else index in
        if index <? 1 then lraise "bad argument #1 to 'select' (index out of range)"
        else if as_u64 index <=? n then lret (drop (Z.to_nat (as_u64 index)) args) else lpanic
    end.

(** ** Iteration *)

Definition builtin_next (args : list RawValue) : LM (list RawValue) :=
  match arg args 0 with
  | VTable handle =>
      let+ vm := lget in
      match table_of vm handle with
      | Some t =>
          match LuaTable.next t (arg args 1) with
          | NPair key value => lret [key; value]
          | NDone => lret [VNil]
          | NInvalidKey => lraise "invalid key to 'next'"
          end
      | None => lraise "'next' on a non-resident table"
      end
  | _ => lraise "bad argument #1 to 'next' (table expected)"
  end.

Definition builtin_inext (args : list RawValue) : LM (list RawValue) :=
  match arg args 0 with
  | VTable handle =>
      let index := match arg args 1 with VNumber n => n | VInteger i => f64_of_i64 i | _ => 0 end in
      let next_index := f64_succ index in
      let+ vm := lget in
      let value := match table_of vm handle with Some t => LuaTable.get t (VNumber next_index) | None => VNil end in
      lret (if is_nil value then [] else [VNumber next_index; value])
  | _ => lraise "bad argument #1 to 'ipairs' iterator (table expected)"
  end.
End BaseLib.

(** ** Reading a number in a base *)

Definition digit_in (base b : Z) : Prop := exists d, base_digit b = Some d /\ 0 <= d < base.
Definition base_value (base acc : Z) (ds : list Z) : Z := foldl (fun a b => a * base + default 0 (base_digit b)) acc ds.

(** The texts that [strtoull] takes as a whole: space, a sign, the prefix of base 16, digits of the
    base, space; the value is the number that the digits write, taken modulo [2^64]. *)
Definition strtoull_text (base : Z) (s : list Z) (v : Z) : Prop :=
  exists before sign prefix ds after, s = before ++ sign ++ prefix ++ ds ++ after /\
    Forall (fun b => is_space b = true) before /\ Forall (fun b => is_space b = true) after /\
    (sign = [] \/ sign = [43] \/ sign = [45]) /\ (prefix = [] \/ base = 16 /\ (prefix = [48; 120] \/ prefix = [48; 88])) /\
    ds <> [] /\ Forall (digit_in base) ds /\
    v = as_u64 (if decide (sign = [45]) then - base_value base 0 ds else base_value base 0 ds).

Lemma base_digit_range b d : base_digit b = Some d -> 0 <= d < 36.
Proof. unfold base_digit, between. repeat case_match; intros [= <-]; lia. Qed.

Lemma space_no_digit b : is_space b = true -> base_digit b = None.
Proof. unfold is_space, base_digit, between. intros H. repeat case_match; try done; lia. Qed.

Lemma digit_no_space base b : digit_in base b -> is_space b = false /\ b <> 43 /\ b <> 45.
Proof.
  intros (d & Hd & _). split; [|split; intros ->; done]. destruct (is_space b) eqn:E; [|done]. by rewrite (space_no_digit b E) in Hd.
Qed.

Lemma skip_space_split s : exists before, s = before ++ skip_space s /\ Forall (fun b => is_space b = true) before /\
  match skip_space s with b :: _ => is_space b = false | [] => True end.
Proof.
  induction s as [|b s (before & IH & Hb & Hh)]; [by exists []|]. cbn. destruct (is_space b) eqn:E.
  - exists (b :: before). rewrite IH at 1. split; [done|]. split; [by constructor|done].
  - exists []. by rewrite E.
Qed.

Lemma skip_space_app before s : Forall (fun b => is_space b = true) before -> match s with b :: _ => is_space b = false | [] => True end ->
  skip_space (before ++ s) = s.
Proof. intros Hb Hs. induction Hb as [|b before Hb _ IH]; cbn; [destruct s; [done|]; cbn; by rewrite Hs|]. by rewrite Hb. Qed.

Lemma base_digits_app base ds s : forall acc, Forall (digit_in base) ds ->
  base_digits base (ds ++ s) (as_u64 acc) = base_digits base s (as_u64 (base_value base acc ds)).
Proof.
  intros acc Hd. revert acc. induction Hd as [|b ds (d & Hb & Hr) _ IH]; intros acc; [done|]. cbn [app base_digits]. rewrite Hb.
  rewrite (proj2 (Z.leb_gt base d)) by lia. unfold base_value in *. cbn [foldl]. rewrite Hb. cbn [default from_option id]. rewrite <- IH. f_equal.
  unfold as_u64. rewrite !Z.add_mod_idemp_l by lia. rewrite <- (Z.add_mod_idemp_l (acc * base)), <- (Z.mul_mod_idemp_l acc), Z.add_mod_idemp_l by lia. done.
Qed.

Lemma base_digits_split base s : forall acc, exists ds rest, s = ds ++ rest /\ Forall (digit_in base) ds /\ (base_digits base s acc).2 = rest.
Proof.
  induction s as [|b s IH]; intros acc; [by exists [], []|]. cbn [base_digits]. destruct (base_digit b) as [d|] eqn:Eb; [|by exists [], (b :: s)].
  destruct (Z.leb_spec base d); [by exists [], (b :: s)|]. destruct (IH (as_u64 (as_u64 (acc * base) + d))) as (ds & rest & -> & Hd & Hr).
  exists (b :: ds), rest. split; [done|]. split; [|done]. constructor; [|done]. exists d. split; [done|]. apply base_digit_range in Eb. lia.
Qed.

Lemma base_digits_stop base s acc : match s with b :: _ => is_space b = true | [] => True end -> base_digits base s acc = (acc, s).
Proof. destruct s as [|b s]; [done|]. intros Hb. cbn. by rewrite (space_no_digit b Hb). Qed.

Lemma spaces_head after : Forall (fun b => is_space b = true) after -> match after with b :: _ => is_space b = true | [] => True end.
Proof. by destruct 1. Qed.

(** Where the digits start, the prefix is not taken for digits. *)
Lemma skip_no_prefix base ds after :
  ds <> [] -> Forall (digit_in base) ds -> Forall (fun b => is_space b = true) after -> skip_prefix base (ds ++ after) = ds ++ after.
Proof.
  intros Hne Hd Ha. assert (forall x s', ds ++ after = 48 :: x :: s' -> base = 16 -> x = 120 \/ x = 88 -> False) as Hno.
  { intros x s' E -> Hx. destruct ds as [|b ds]; [done|]. cbn in E. injection E as -> E. destruct ds as [|c ds].
    - cbn in E. subst after. apply Forall_inv in Ha. by destruct Hx as [->| ->].
    - injection E as -> _. apply Forall_inv_tail, Forall_inv in Hd. destruct Hd as (d & Hb & Hr). destruct Hx as [->| ->]; injection Hb as <-; lia. }
  unfold skip_prefix. destruct (ds ++ after) as [|b [|x s']]; [done|by repeat case_match|].
  destruct (Z.eq_dec b 48) as [->|Hb].
  - destruct (Z.eqb_spec base 16), (Z.eqb_spec x 120), (Z.eqb_spec x 88); cbn [andb orb]; try done; exfalso; by eapply Hno; eauto.
  - destruct b as [|p|p]; try done. by do 6 (destruct p as [p|p|]; try done).
Qed.

Lemma skip_prefix_16 x s : x = 120 \/ x = 88 -> skip_prefix 16 (48 :: x :: s) = s.
Proof. by intros [->| ->]. Qed.

Lemma as_u64_opp x : as_u64 (- as_u64 x) = as_u64 (- x).
Proof. unfold as_u64. by rewrite <- !Z.sub_0_l, Zminus_mod_idemp_r. Qed.

Lemma in_base_complete base s v : strtoull_text base s v -> str_to_number_in_base s base = Some (f64_of_u64 v).
Proof.
  intros (before & sign & prefix & ds & after & -> & Hb & Ha & Hsign & Hprefix & Hne & Hd & ->). unfold str_to_number_in_base.
  assert (exists d ds', ds = d :: ds') as (d0 & ds0 & Eds) by (destruct ds as [|d ds]; [done|by exists d, ds]). pose proof Hd as Hd0. rewrite Eds in Hd0. apply Forall_inv, digit_no_space in Hd0 as (Hsp & H43 & H45).
  set (body := prefix ++ ds ++ after).
  assert (skip_prefix base body = ds ++ after) as Hbody.
  { unfold body. destruct Hprefix as [->|[-> [->| ->]]]; [exact (skip_no_prefix base ds after Hne Hd Ha)|exact (skip_prefix_16 120 (ds ++ after) ltac:(by left))|exact (skip_prefix_16 88 (ds ++ after) ltac:(by right))]. }
  assert (exists h t, body = h :: t /\ is_space h = false /\ h <> 43 /\ h <> 45) as (h & t & Eh & Hh & Hh43 & Hh45).
  { unfold body. destruct Hprefix as [->|[_ [->| ->]]]; [|by exists 48, (120 :: ds ++ after)|by exists 48, (88 :: ds ++ after)].
    rewrite Eds. by exists d0, (ds0 ++ after). }
  assert (skip_space (before ++ sign ++ body) = sign ++ body) as ->.
  { apply skip_space_app; [done|]. destruct Hsign as [->|[->| ->]]; cbn; [by rewrite Eh|done|done]. }
  assert (is_byte (head (sign ++ body)) 45 = bool_decide (sign = [45]) /\
    (if is_byte (head (sign ++ body)) 43 || is_byte (head (sign ++ body)) 45 then drop 1 (sign ++ body) else sign ++ body) = body) as [Hneg Hbody'].
  { destruct Hsign as [->|[->| ->]]; cbn [app head]; [|split; reflexivity..]. rewrite Eh. cbn [head]. unfold is_byte.
    rewrite bool_decide_eq_false_2 by done. rewrite !(proj2 (Z.eqb_neq h _)) by done. by split. }
  rewrite Hbody', Hneg, Hbody. pose proof (base_digits_app base ds after 0 Hd) as Hbd. change (as_u64 0) with 0 in Hbd. rewrite Hbd.
  rewrite base_digits_stop by (by apply spaces_head). rewrite length_app, (proj2 (Nat.eqb_neq _ _)) by (rewrite Eds; cbn; lia).
  assert (skip_space after = []) as ->. { rewrite <- (app_nil_r after). by apply skip_space_app. }
  case_bool_decide as E; [rewrite decide_True by done; by rewrite as_u64_opp|by rewrite decide_False].
Qed.

Lemma in_base_sound base s x : 2 <= base -> str_to_number_in_base s base = Some x -> exists v, strtoull_text base s v /\ x = f64_of_u64 v.
Proof.
  intros Hbase. unfold str_to_number_in_base. destruct (skip_space_split s) as (before & Es & Hb & _). set (s1 := skip_space s) in *.
  assert (exists sign, s1 = sign ++ (if is_byte (head s1) 43 || is_byte (head s1) 45 then drop 1 s1 else s1) /\
    (sign = [] \/ sign = [43] \/ sign = [45]) /\ is_byte (head s1) 45 = bool_decide (sign = [45])) as (sign & Es1 & Hsign & Hneg).
  { destruct (is_byte (head s1) 45) eqn:E45.
    - apply is_byte_head in E45 as [s' ->]. exists [45]. rewrite orb_true_r. split; [done|]. split; [tauto|done].
    - destruct (is_byte (head s1) 43) eqn:E43; cbn [orb].
      + apply is_byte_head in E43 as [s' ->]. exists [43]. split; [done|]. split; [tauto|done].
      + exists []. split; [done|]. split; [tauto|done]. }
  set (s2 := if is_byte (head s1) 43 || is_byte (head s1) 45 then drop 1 s1 else s1) in *. rewrite Hneg. clear Hneg.
  assert (exists prefix, s2 = prefix ++ skip_prefix base s2 /\ (prefix = [] \/ base = 16 /\ (prefix = [48; 120] \/ prefix = [48; 88]))) as (prefix & Es2 & Hprefix).
  { clearbody s2. unfold skip_prefix. destruct s2 as [|b [|x0 s']]; [by exists []; auto|exists []; split; [by repeat case_match|by left]|].
    destruct (Z.eq_dec b 48) as [->|Hb48].
    - destruct (Z.eqb_spec base 16) as [E|E]; cbn [andb]; [|exists []; auto]. destruct (Z.eqb_spec x0 120) as [->|]; [exists [48; 120]; auto|].
      destruct (Z.eqb_spec x0 88) as [->|]; [exists [48; 88]; auto|exists []; auto].
    - exists []. split; [|by left]. destruct b as [|p|p]; try done. by do 6 (destruct p as [p|p|]; try done). }
  set (s3 := skip_prefix base s2) in *. destruct (base_digits_split base s3 0) as (ds & rest & Es3 & Hd & Hrest).
  destruct (base_digits base s3 0) as [value rest'] eqn:Ebd. cbn [snd] in Hrest. subst rest'.
  destruct (Nat.eqb_spec (length rest) (length s3)) as [|Hlen]; [by intros [=]|]. destruct (skip_space rest) as [|c cs] eqn:Er; [|by intros [=]]. intros [= <-].
  destruct (skip_space_split rest) as (after & Ea & Ha & _). rewrite Er, app_nil_r in Ea. subst after.
  assert (value = as_u64 (base_value base 0 ds)) as ->.
  { pose proof (base_digits_app base ds rest 0 Hd) as H. change (as_u64 0) with 0 in H. rewrite <- Es3, Ebd, base_digits_stop in H by (by apply spaces_head). by injection H. }
  eexists. split.
  - exists before, sign, prefix, ds, rest. split; [by rewrite Es, Es1, Es2, Es3|]. split_and!; try done. intros ->. apply Hlen. by rewrite Es3.
  - f_equal. case_bool_decide; [rewrite decide_True by done; by rewrite as_u64_opp|by rewrite decide_False].
Qed.

(** ** The theorems *)

Section BaseTheorems.
Context {AL : Allocator} {LAWS : AllocatorLaws AL} {MA : MapAllocator} {TS : TableSizes} {HS : HeapSizes} {HSL : HeapSizesLaws HS}
  {BL : ByteLimits} {LC : LuaCode} {FU : FloatUnspecified} {NB : NanBits}.

Lemma tonumber_text vm s bytes :
  heap_string (vm_heap vm) s = Some bytes -> builtin_tonumber [VString s] vm = (vm, Ret [or_nil (str_to_number bytes)]).
Proof. intros Hs. unfold builtin_tonumber, lbind, lget. cbn. by rewrite Hs. Qed.

Lemma tostring_number n vm :
  strings_ok vm -> is_u64 n ->
  wp (builtin_tostring [VNumber n]) vm
    (fun vm' r => exists s text, r = [VString s] /\ number_to_string n = Some text /\ strings_kept vm vm' /\ heap_string (vm_heap vm') s = Some text)
    (fun vm' e => strings_kept vm vm' /\ e = intern_refused).
Proof.
  intros Hok Hn. destruct (number_text_reads n Hn) as (text & Ht & _). unfold builtin_tostring, tostring_bytes, value_to_string.
  apply wp_bind, wp_bind. unfold get_metamethod. apply wp_bind, wp_get. cbn [metatable_of]. apply wp_ret, wp_bind, wp_get.
  unfold number_bytes. rewrite Ht. apply wp_ret, wp_bind.
  eapply wp_mono; [apply (wp_intern_fit 1); [done|by apply strings_ok_fit]| |]; [|by intros vm' e (Hk & _ & ->)].
  intros vm' s (Hk & _ & Hs). apply wp_ret. by exists s, text.
Qed.

(** C27: [tonumber] undoes [tostring] on numbers: the string that [tostring] makes of a double is
    read back by [tonumber] as the same double, a NaN as a NaN. *)
Theorem tonumber_tostring_round_trip n vm :
  strings_ok vm -> is_u64 n ->
  wp (builtin_tostring [VNumber n]) vm
    (fun vm' r => strings_kept vm vm' /\ builtin_tonumber r vm' = (vm', Ret [VNumber (if f64_is_nan n then F64_NAN else n)]))
    (fun vm' e => strings_kept vm vm' /\ e = intern_refused).
Proof.
  intros Hok Hn. eapply wp_mono; [by apply tostring_number| |done]. intros vm' r (s & text & -> & Ht & Hk & Hs). split; [done|].
  rewrite (tonumber_text vm' s text Hs). destruct (number_text_reads n Hn) as (text' & Ht' & Hr). rewrite Ht in Ht'. injection Ht' as <-. by rewrite Hr.
Qed.

(** C28: [str_to_number_in_base] reads, in each base from 2 to 36, exactly the grammar of C's
    [strtoull]: space, a sign, the prefix [0x] of base 16, digits of the base in either case, space.
    It gives a number for the texts of the grammar, the double nearest to what the digits write
    modulo [2^64] (negated in that space behind a minus), and none for every other text. *)
Theorem str_to_number_in_base_exact s base x :
  2 <= base <= 36 -> str_to_number_in_base s base = Some x <-> exists v, strtoull_text base s v /\ x = f64_of_u64 v.
Proof.
  intros Hb. split; [apply in_base_sound; lia|]. intros (v & Hv & ->). by apply in_base_complete.
Qed.

(** The builtin [tonumber] hands every base but 10 to that function. *)
Lemma tonumber_base_exact vm s base bytes :
  heap_string (vm_heap vm) s = Some bytes -> 2 <= base <= 36 -> base <> 10 ->
  exists r, builtin_tonumber [VString s; VInteger base] vm = (vm, Ret [r]) /\
    (forall v, strtoull_text base bytes v -> r = VNumber (f64_of_u64 v)) /\
    ((forall v, ~ strtoull_text base bytes v) -> r = VNil).
Proof.
  intros Hs Hb H10. exists (or_nil (str_to_number_in_base bytes base)). split_and!.
  - unfold builtin_tonumber, lbind, lget. cbn. rewrite (proj2 (Z.eqb_neq base 10)) by done. rewrite (proj2 (Z.leb_le 2 base)), (proj2 (Z.leb_le base 36)) by lia.
    cbn. by rewrite Hs.
  - intros v Hv. by rewrite (in_base_complete base bytes v Hv).
  - intros Hno. destruct (str_to_number_in_base bytes base) as [x|] eqn:E; [|done]. destruct (in_base_sound base bytes x) as (v & Hv & _); [lia|done|].
    by destruct (Hno v).
Qed.

(** ** Iteration *)

(** [for k, v in next, t do .. end], which collects the pairs it is given. *)
Fixpoint pairs_loop (fuel : nat) (table : RawGc) (key : RawValue) (acc : list (RawValue * RawValue)) : LM (list (RawValue * RawValue)) :=
  match fuel with
  | O => lloop
  | S fuel' =>
      let+ r := builtin_next [VTable table; key] in
      match r with
      | [key; value] => pairs_loop fuel' table key (acc ++ [(key, value)])
      | _ => lret acc
      end
  end.

Lemma builtin_next_step table t key vm :
  table_of vm table = Some t ->
  builtin_next [VTable table; key] vm =
    (vm, match LuaTable.next t key with NPair k v => Ret [k; v] | NDone => Ret [VNil] | NInvalidKey => Raised "invalid key to 'next'" end).
Proof. intros Ht. unfold builtin_next, lbind, lget. cbn. rewrite Ht. by destruct (LuaTable.next t key). Qed.

Lemma pairs_loop_rest table t vm : table_of vm table = Some t -> table_ok t -> len (LuaTable.arr t) < 9007199254740992 ->
  forall fuel i key acc, (length (LuaTable.for_each_entry t) - i < fuel)%nat ->
    LuaTable.next t key = first_step (drop i (LuaTable.for_each_entry t)) ->
    pairs_loop fuel table key acc vm = (vm, Ret (acc ++ drop i (LuaTable.for_each_entry t))).
Proof.
  intros Ht Hok Hlen. induction fuel as [|fuel IH]; intros i key acc Hf Hk; [lia|]. cbn [pairs_loop]. unfold lbind. rewrite (builtin_next_step _ t) by done.
  rewrite Hk. destruct (drop i (LuaTable.for_each_entry t)) as [|[k v] rest] eqn:Ed; cbn [first_step]; [by rewrite app_nil_r|].
  assert (LuaTable.for_each_entry t !! i = Some (k, v)) as Hi by (rewrite <- (Nat.add_0_r i), <- lookup_drop, Ed; done).
  assert (drop (S i) (LuaTable.for_each_entry t) = rest) as Hr by (rewrite <- Nat.add_1_r, <- drop_drop, Ed; done).
  rewrite (IH (S i)); [by rewrite Hr, <- app_assoc|apply lookup_lt_Some in Hi; lia|by eapply next_entry].
Qed.

(** C29: A loop over [next] from nil visits the entries of a table once each, and ends: the pairs it
    is given are exactly the bindings that are not nil, with distinct keys. *)
Theorem next_visits_every_entry table t vm :
  table_of vm table = Some t -> table_ok t -> len (LuaTable.arr t) < 9007199254740992 ->
  exists es, pairs_loop (S (length es)) table VNil [] vm = (vm, Ret es) /\
    (forall norm v, v <> VNil -> LuaTable.get_norm t norm = v <-> exists k, (k, v) ∈ es /\ normalize_key k = Some norm) /\
    NoDup ((fun kv : RawValue * RawValue => normalize_key kv.1) <$> es).
Proof.
  intros Ht Hok Hlen. exists (LuaTable.for_each_entry t). split_and!.
  - rewrite (pairs_loop_rest table t vm Ht Hok Hlen _ 0); [done|lia|apply next_start].
  - intros norm v Hv. by apply entries_complete.
  - by apply entries_nodup.
Qed.

(** ** Raw writes *)

Lemma key_normal key : key_rejection key = None -> is_Some (normalize_key key).
Proof. intros H. unfold normalize_key. rewrite H. destruct key; try done; repeat case_match; eauto. Qed.

(** [rawset] changes the value of one key, however the key is spelled, and nothing else, unless
    the table is read-only or the key is nil or NaN, and then it changes nothing; [rawget] reads
    the value, without metamethods in either. *)
Theorem rawset_rawget_exact table t key value vm :
  tables_ok vm -> table_of vm table = Some t ->
  wp (builtin_rawset [VTable table; key; value]) vm
    (fun vm' r => r = [VTable table] /\ readonly t = false /\ tables_ok vm' /\
       (exists norm, normalize_key key = Some norm /\
          (forall u k, at_key vm' u k = if decide (u = table /\ k = norm) then value else at_key vm u k) /\
          (forall key', normalize_key key' = Some norm -> builtin_rawget [VTable table; key'] vm' = (vm', Ret [value]))))
    (fun vm' e => vm' = vm /\ (readonly t = true \/ normalize_key key = None)).
Proof.
  intros Hok Ht. unfold builtin_rawset, arg. cbn [lookup list_lookup default from_option id].
  destruct (key_rejection key) as [rej|] eqn:Er; [apply wp_raise; split; [done|]; right; unfold normalize_key; by rewrite Er|].
  destruct (key_normal key Er) as [norm Hn]. unfold require_writable. apply wp_bind, wp_bind, wp_get. unfold is_readonly. rewrite Ht.
  destruct (readonly t) eqn:Ero; [by apply wp_raise; auto|]. apply wp_ret, wp_bind.
  eapply wp_mono; [exact (table_set_spec (fun b => b) table "rawset on a non-resident table" key norm value vm Hok (mk_is_Some _ _ Ht) Hn)| |done].
  intros vm' b (-> & Hok' & Hf & Hat). apply wp_ret. split; [done|]. split; [done|]. split; [done|]. exists norm. split; [done|]. split; [done|].
  intros key' Hk'. unfold builtin_rawget, arg, lbind, lget. cbn [lookup list_lookup default from_option id lret].
  pose proof (Hat table norm) as Hv. rewrite decide_True in Hv by done. unfold at_key in Hv. destruct (table_of vm' table) as [t'|] eqn:Et'.
  - unfold LuaTable.get. by rewrite Hk', Hv.
  - by rewrite Hv.
Qed.

(** ** Metatables *)

(** The protection field of a metatable, under the name [s]. *)
Definition protection (vm : Vm) (mt s : RawGc) : RawValue :=
  match table_of vm mt with Some tm => LuaTable.get tm (VString s) | None => VNil end.

(** A replaced metatable carries no protection. *)
Definition unprotected (vm vm' : Vm) (t : LuaTable) : Prop :=
  forall mt, metatable t = Some mt -> exists s, heap_string (vm_heap vm') s = Some METATABLE_KEY /\ protection vm mt s = VNil.

Definition protected_message : string := "cannot change a protected metatable".

Lemma reject_protected_spec t vm :
  strings_ok vm ->
  wp (reject_protected (metatable t) protected_message) vm
    (fun vm' _ => strings_kept vm vm' /\ unprotected vm vm' t)
    (fun vm' e => strings_kept vm vm' /\ (e = protected_message ->
       exists mt s, metatable t = Some mt /\ heap_string (vm_heap vm') s = Some METATABLE_KEY /\ protection vm mt s <> VNil)).
Proof.
  intros Hok. unfold reject_protected, unprotected. destruct (metatable t) as [mt|]; [|apply wp_ret; split; [done|]; by intros mt]. apply wp_bind.
  unfold metatable_protection. apply wp_bind. eapply wp_mono; [apply (wp_intern_fit 1); [done|by apply strings_ok_fit]| |]; [|intros vm' e (Hk & _ & ->); by split].
  intros vm' s (Hk & _ & Hs). apply wp_bind, wp_get, wp_ret. rewrite (sk_tables _ _ Hk).
  assert (forall v, v <> VNil -> is_nil v = false) as Hnil by (by intros []).
  destruct (table_of vm mt) as [tm|] eqn:Etm.
  - cbv zeta. destruct (is_nil (LuaTable.get tm (VString s))) eqn:En.
    + apply wp_ret. split; [done|]. intros mt' [= <-]. exists s. split; [done|]. unfold protection. rewrite Etm. by destruct (LuaTable.get tm (VString s)).
    + apply wp_raise. split; [done|]. intros _. exists mt, s. split; [done|]. split; [done|]. unfold protection. rewrite Etm. intros E. by rewrite E in En.
  - apply wp_ret. split; [done|]. intros mt' [= <-]. exists s. split; [done|]. unfold protection. by rewrite Etm.
Qed.

(** C30: [setmetatable] replaces the metatable of one table, and only when the table is writable and
    its metatable carries no protection field; whenever it raises, no table has changed, and it
    speaks of protection only where there is one. *)
Theorem setmetatable_guarded table t mtv vm :
  strings_ok vm -> table_of vm table = Some t ->
  wp (builtin_setmetatable [VTable table; mtv]) vm
    (fun vm' r => r = [VTable table] /\ readonly t = false /\ (exists vm1, strings_kept vm vm1 /\ unprotected vm vm1 t) /\
       exists mt', (mtv = VNil /\ mt' = None \/ exists mt, mtv = VTable mt /\ mt' = Some mt) /\
         forall u, table_of vm' u = if decide (u = table) then Some (LuaTable.set_metatable mt' t) else table_of vm u)
    (fun vm' e => (forall u, table_of vm' u = table_of vm u) /\ (e = protected_message ->
       exists mt s, metatable t = Some mt /\ heap_string (vm_heap vm') s = Some METATABLE_KEY /\ protection vm mt s <> VNil)).
Proof.
  intros Hok Ht. unfold builtin_setmetatable, arg. cbn [lookup list_lookup default from_option id].
  assert (forall mt' : option RawGc, (mtv = VNil /\ mt' = None \/ exists mt, mtv = VTable mt /\ mt' = Some mt) ->
    wp (let+ t := resident table "setmetatable on a non-resident table" in
        let+ _ := reject_protected (metatable t) "cannot change a protected metatable" in
        let+ _ := require_writable table in
        let+ _ := table_mut table "setmetatable on a non-resident table" (fun t m => Ok ((LuaTable.set_metatable mt' t, m), tt)) in
        lret [VTable table]) vm
    (fun vm' r => r = [VTable table] /\ readonly t = false /\ (exists vm1, strings_kept vm vm1 /\ unprotected vm vm1 t) /\
       exists mt', (mtv = VNil /\ mt' = None \/ exists mt, mtv = VTable mt /\ mt' = Some mt) /\
         forall u, table_of vm' u = if decide (u = table) then Some (LuaTable.set_metatable mt' t) else table_of vm u)
    (fun vm' e => (forall u, table_of vm' u = table_of vm u) /\ (e = protected_message ->
       exists mt s, metatable t = Some mt /\ heap_string (vm_heap vm') s = Some METATABLE_KEY /\ protection vm mt s <> VNil))) as Hset.
  { intros mt' Hmt. apply wp_bind. unfold resident. apply wp_bind, wp_get. rewrite Ht. apply wp_ret, wp_bind.
    eapply wp_mono; [by apply (reject_protected_spec t)| |intros vm1 e [Hk He]; split; [by apply (sk_tables _ _ Hk)|exact He]]. intros vm1 _ [Hk Hun].
    pose proof (sk_tables _ _ Hk) as Htab. apply wp_bind. unfold require_writable. apply wp_bind, wp_get. unfold is_readonly. rewrite Htab, Ht.
    destruct (readonly t) eqn:Ero; [by apply wp_raise|]. apply wp_ret, wp_bind. unfold wp.
    assert (table_of vm1 table = Some t) as Ht1 by (by rewrite Htab).
    destruct (table_mut_run table "setmetatable on a non-resident table" (fun t m => Ok ((LuaTable.set_metatable mt' t, m), tt)) vm1 t _ _ tt Ht1 eq_refl) as (vm' & -> & _ & Hu).
    cbn. split; [done|]. split; [done|]. split; [by exists vm1|]. exists mt'. split; [done|]. intros u. rewrite Hu. case_decide; [done|by rewrite Htab]. }
  destruct mtv; try (apply wp_raise; split; [done|by intros [=]]).
  - apply Hset. by left.
  - apply Hset. right. eauto.
Qed.
End BaseTheorems.

(** ** At concrete values *)

Section Sample.
#[local] Existing Instance exact_allocator.
#[local] Existing Instance doubling_map.
#[local] Existing Instance sizes64.
#[local] Existing Instance lib_sizes.
#[local] Existing Instance no_lua.
#[local] Existing Instance keep_nan.
#[local] Existing Instance sample_floats.

(** One tenth. *)
Definition tenth : Z := 4591870180066957722.

Lemma tonumber_tostring_round_trip_witness :
  wp (builtin_tostring [VNumber tenth]) start_vm
    (fun vm' r => strings_kept start_vm vm' /\ builtin_tonumber r vm' = (vm', Ret [VNumber tenth]))
    (fun vm' e => strings_kept start_vm vm' /\ e = intern_refused).
Proof. refine (tonumber_tostring_round_trip tenth start_vm start_vm_strings _). by vm_compute. Defined.

Definition hex_text : list Z := bytes_of " -0xFf ".

Lemma hex_text_value : strtoull_text 16 hex_text 18446744073709551361.
Proof.
  exists [32], [45], [48; 120], [70; 102], [32]. split; [done|]. split; [by repeat constructor|]. split; [by repeat constructor|]. split; [tauto|].
  split; [right; split; [done|by left]|]. split; [done|]. split; [|done]. constructor; [by exists 15|]. constructor; [by exists 15|done].
Qed.

Lemma str_to_number_in_base_exact_witness : str_to_number_in_base hex_text 16 = Some (f64_of_u64 18446744073709551361) /\ str_to_number_in_base [50] 2 = None.
Proof.
  split; [|done]. apply (str_to_number_in_base_exact hex_text 16 _ ltac:(lia)). exists 18446744073709551361. split; [exact hex_text_value|reflexivity].
Defined.

(** A machine with the tables [{10, 20}] and [{}]. *)
Definition table_vm : Vm := sample_vm (sequence [num 10; num 20]) (sequence []) None.

Lemma table_vm_tables : tables_ok table_vm.
Proof. apply sample_tables_ok; apply sequence_ok. Qed.
Lemma table_vm_strings : strings_ok table_vm.
Proof. split; [done|by apply new_ok|done]. Qed.

Definition first_table : LuaTable := default (sequence []) (table_of table_vm (th 0)).
Lemma first_table_of : table_of table_vm (th 0) = Some first_table.
Proof. by vm_compute. Qed.

Lemma next_visits_every_entry_witness :
  exists es, pairs_loop (S (length es)) (th 0) VNil [] table_vm = (table_vm, Ret es) /\
    (forall norm v, v <> VNil -> LuaTable.get_norm first_table norm = v <-> exists k, (k, v) ∈ es /\ normalize_key k = Some norm) /\
    NoDup ((fun kv : RawValue * RawValue => normalize_key kv.1) <$> es).
Proof.
  refine (next_visits_every_entry (th 0) first_table table_vm first_table_of _ _).
  - exact (table_vm_tables (th 0) first_table first_table_of).
  - by vm_compute.
Defined.

Lemma rawset_rawget_exact_witness :
  wp (builtin_rawset [VTable (th 0); VString sh; num 5]) table_vm
    (fun vm' r => r = [VTable (th 0)] /\ readonly first_table = false /\ tables_ok vm' /\
       (exists norm, normalize_key (VString sh) = Some norm /\
          (forall u k, at_key vm' u k = if decide (u = th 0 /\ k = norm) then num 5 else at_key table_vm u k) /\
          (forall key', normalize_key key' = Some norm -> builtin_rawget [VTable (th 0); key'] vm' = (vm', Ret [num 5]))))
    (fun vm' e => vm' = table_vm /\ (readonly first_table = true \/ normalize_key (VString sh) = None)).
Proof. exact (rawset_rawget_exact (th 0) first_table (VString sh) (num 5) table_vm table_vm_tables first_table_of). Defined.

Lemma setmetatable_guarded_witness :
  wp (builtin_setmetatable [VTable (th 0); VTable (th 1)]) table_vm
    (fun vm' r => r = [VTable (th 0)] /\ readonly first_table = false /\ (exists vm1, strings_kept table_vm vm1 /\ unprotected table_vm vm1 first_table) /\
       exists mt', (VTable (th 1) = VNil /\ mt' = None \/ exists mt, VTable (th 1) = VTable mt /\ mt' = Some mt) /\
         forall u, table_of vm' u = if decide (u = th 0) then Some (LuaTable.set_metatable mt' first_table) else table_of table_vm u)
    (fun vm' e => (forall u, table_of vm' u = table_of table_vm u) /\ (e = protected_message ->
       exists mt s, metatable first_table = Some mt /\ heap_string (vm_heap vm') s = Some METATABLE_KEY /\ protection table_vm mt s <> VNil)).
Proof. exact (setmetatable_guarded (th 0) first_table (VTable (th 1)) table_vm table_vm_strings first_table_of). Defined.

(** [select] and the step of [ipairs] on the same machine. *)
Example base_library_runs :
  (builtin_select [num (-1); num 7; num 8] table_vm).2 = Ret [num 8] /\
  (builtin_inext [VTable (th 0); num 1] table_vm).2 = Ret [num 2; num 20] /\
  (builtin_inext [VTable (th 0); num 2] table_vm).2 = Ret [] /\
  (builtin_type [num 1] table_vm).2 = Ret [VString sh] /\ f64_succ (f64_of_i64 (-1)) = 0.
Proof. by vm_compute. Qed.
End Sample.
